(* ===== verification/_CoqProject ===== *)
-Q . S2P
Prelude.v
ZigbeeTypes.v
NwkFrames.v
NwkAddressMap.v
NwkIndirect.v
NwkNeighbor.v
NwkRouting.v
NwkBroadcast.v
NwkNib.v
Crypto.v
NwkSecurity.v
ApsFrames.v
ApsTables.v
ApsFragment.v
ApsSecurity.v
ApsSecured.v
ApsDelivery.v
ApsFragmentTx.v
ApsService.v
ApsExchange.v
Effects.v
NvStorage.v
LogNv.v
ZclValues.v
ZclFrame.v
ZclAttributes.v
ZclFoundation.v
ZclServer.v
ZclReporting.v
ZclTransition.v
MacFrames.v
MacAckPending.v
MacPib.v
MacRxQueue.v
SoftMac.v
SoftMacSafe.v
SoftMacRadio.v
SoftMacLink.v
SoftMacParent.v
Primes.v
P256.v
P256Field.v
P256Curve.v
BootImage.v
BootChip.v
BootValid.v
BootLoader.v
BootWriter.v
