(* ===== verification/Prelude.v ===== *)
(** * zigbee-rs: the MAC, network, application support and cluster layers,
      and the secure boot of its devices

    zigbee-rs is a Zigbee PRO stack for embedded devices.  Its crates are
    layered: [zigbee-types] (addresses, channels), [zigbee-crypto] (CCM*,
    AES-MMO), [zigbee-mac] (radio drivers and MAC frames), [zigbee-nwk]
    (network layer), [zigbee-aps] (application support), [zigbee-zcl],
    [zigbee-zdo], [zigbee-bdb] (clusters, device objects, commissioning) and
    [zigbee-runtime] (event loop, persistence).  Beside the stack stands
    [mcuboot-image], the boot loader library.  This development models the
    state-holding core of the network layer, the MAC and the cryptography
    under it and the application support layer above it, the foundation of the
    cluster library, the store of the runtime that keeps state over a restart,
    and the update of the firmware from the downloaded blocks to the start of a
    signed image.

    ** Files and sources

    - [Prelude]: outcomes of Rust functions, machine integers, slices, the
      iterator searches and [heapless::Vec] operations the sources use.
    - [ZigbeeTypes]: [zigbee-types/src/lib.rs].
    - [NwkFrames]: [zigbee-nwk/src/frames.rs]: the NWK header and commands.
    - [NwkAddressMap]: [zigbee-nwk/src/address_map.rs].
    - [NwkIndirect]: [zigbee-nwk/src/indirect.rs]: frames for sleeping
      children.
    - [NwkNeighbor]: [zigbee-nwk/src/neighbor.rs].
    - [NwkRouting]: first part of [zigbee-nwk/src/routing.rs]: source routes,
      routing table, route discoveries, tree routing.
    - [NwkBroadcast]: second part of the same file: broadcast transaction
      records, relay schedule, route request forwarding records.
    - [NwkNib]: [zigbee-nwk/src/nib.rs], with the handler of the end device
      timeout response ([handle_ed_timeout_response] of [nlde.rs]).
    - [Crypto]: [zigbee-crypto/src/lib.rs].
    - [NwkSecurity]: [zigbee-nwk/src/security.rs].
    - [ApsFrames]: [zigbee-aps/src/frames.rs]: the APS header.
    - [ApsTables]: [binding.rs], [group.rs] and [aib.rs] of [zigbee-aps].
    - [ApsFragment]: [zigbee-aps/src/fragment.rs]: reassembly.
    - [ApsSecurity]: [zigbee-aps/src/security.rs]: link keys, replay domains,
      auxiliary header, key derivation.
    - [ApsSecured]: opening and assembling secured frames
      ([aps_decrypt_incoming], [assemble_secured_frame] of [apsde.rs]).
    - [ApsDelivery]: duplicate table, acknowledgement tracking and
      retransmission ([zigbee-aps/src/lib.rs]), key selection ([apsde.rs]).
    - [ApsFragmentTx]: [zigbee-aps/src/fragment_tx.rs], with the maintenance of
      [lib.rs] that drives it; it holds [NwkService], the interface to the NWK
      data service.
    - [ApsService]: the data request and the receive path of [apsde.rs].
    - [ApsExchange]: two devices exchanging a fragmented ASDU; no code of its
      own.
    - [Effects]: methods that keep their state changes when they return an
      error, with a weakest precondition calculus; no code of its own.
    - [NvStorage]: [zigbee-runtime/src/nv_storage.rs]: the storage trait, its
      laws and the volatile store.
    - [LogNv]: [zigbee-runtime/src/log_nv.rs]: the log-structured store over
      two flash sectors.
    - [ZclValues]: [zigbee-zcl/src/data_types.rs]: types, values and their
      codec, the reportable change test.
    - [ZclFrame]: [frame.rs] of [zigbee-zcl], the identifiers of [lib.rs] and
      [foundation/mod.rs], the default response.
    - [ZclAttributes]: [attribute.rs] and the store interfaces of
      [clusters/mod.rs].
    - [ZclFoundation]: [foundation/read_attributes.rs], [write_attributes.rs]
      and [discover.rs].
    - [ZclServer]: the write commands from payload to response
      ([zigbee-runtime/src/zcl_dispatch.rs]) and what the foundation commands
      promise over any store.
    - [ZclReporting]: [foundation/reporting.rs]: codecs and reporting engine.
    - [ZclTransition]: [transition.rs].
    - [MacFrames]: [frames.rs] and [primitives.rs] of [zigbee-mac]: MAC frames
      and commands, address filter, acknowledgement decision.
    - [MacAckPending]: [ack_pending.rs]: children with frames waiting.
    - [MacPib]: [pib.rs] and [lqi.rs]: the MAC information base.
    - [MacRxQueue]: the ring of retained frames of [soft_mac.rs] over the frame
      buffer of [phy.rs].
    - [SoftMac]: the software MAC, [soft_mac.rs] over the radio interface of
      [phy.rs] and the role interface; [SoftMacSafe] its invariants and the
      specifications of receiving, [SoftMacRadio] its safety and the radio
      configuration, [SoftMacLink] transmission, delivery and association.
    - [SoftMacParent]: [soft_mac/parent.rs]: the parent role of a router.
    - [P256], [P256Curve]: [mcuboot-image/src/p256.rs]: limb arithmetic, then
      points, signature verification and DER.  [Primes] certifies the two
      moduli and [P256Field] relates the limbs to their fields; both hold no
      code.
    - [BootImage]: [image.rs] and [trailer.rs]: signed images and requests.
      [BootChip] has instances of its interfaces for examples, [BootValid] the
      reference definition of a signed image.
    - [BootLoader]: [boot.rs]: decision, installation, start.
    - [BootWriter]: [writer.rs]: staging of a downloaded image, the instance of
      the trait [FirmwareWriter] of [zigbee-runtime/src/firmware_writer.rs].

    The network layer object of the source owns one value of each table.  On
    reception the header parser of [NwkFrames] splits the frame, [NwkSecurity]
    checks the replay floor, decrypts with [Crypto] and commits the counter,
    the broadcast records of [NwkBroadcast] drop duplicates, and the routing,
    neighbor and address tables are updated by command handlers; frames for
    sleeping children wait in [NwkIndirect].  The APS layer object is split
    the way its methods use it: [TxSecurity] (keys, NIB, provider) inside
    [ApsTx] (what sending changes) inside [ApsLayer] (what receiving changes),
    so that a method's type shows what it can touch.  Of the cluster library
    the frame parser of [ZclFrame] splits an APS payload, the command processors
    of [ZclFoundation] work on any store through the classes
    [AttributeStoreAccess] and [AttributeStoreMutAccess], and [ZclServer]
    proves its theorems against the laws [MutAccessLaws], which the store of
    [ZclAttributes] discharges.  The software MAC of [SoftMac] is written
    against the classes [RadioPhy] and [MacRole], the traits of the source; its
    theorems rely on [LawfulPhy] and [LawfulRole], which the end device role of
    [SoftMac] and the parent role of [SoftMacParent] discharge.  The boot
    loader and the writer share the two slots of one flash device: the writer
    fills the secondary slot, validates it with [BootImage] and leaves a
    request, which the loader finds at the next start.

    ** Conventions of the model

    - The sources are compiled with the [router] feature, so capacities and
      feature-dependent functions are those of the router build.
    - Integers are [Z]; [wrapping_], [saturating_] and checked operations are
      written out in [Prelude].  [is_u8], [is_u16] and [is_u32] state widths.
      Octets and addresses are [Z] and lists of [Z].
    - A function that may return early or abort returns [outcome]: [Ok],
      [Err] or [Panic].  An index, sub-slice or addition that Rust would abort
      on is [Panic]; a theorem that excludes [Panic] is a real safety claim.
    - A method on [&mut self] takes the state and returns it.  A fixed array
      of slots is a list of the array's length (part of the invariant), a
      [heapless::Vec] a list within its capacity.  Record fields carry a
      prefix for their type, e.g. [ne_] for [NeighborEntry].
    - A search that returns a mutable reference is modelled by the update the
      caller performs ([modify_first], or an updating function argument).

    ** Fuel and termination

    The loops of the sources are bounded and so are their models.  [mac_loop],
    [ctr_loop] and [mmo_chunks] take the length of their data as fuel: each
    iteration consumes at least one octet, so the fuel never runs out, which
    their equivalence with the reference constructions establishes.
    [shift_to], [tree_route_loop] and [iter_next_loop] run over exact index
    ranges.  [remove_all_loop] and [clear_application_loop] remove entries by
    [swap_remove] while they walk a table; they start with one step per entry,
    and [group_remove_all_terminates] and [clear_application_keys_terminates]
    show that this is enough.  [send_due_loop] has sixteen turns, one per block
    a transaction can have, and [fragment_tx_terminates] shows that it
    returns.  [scan] of [LogNv] walks the items of a flash page with one unit
    of fuel per octet of the sector; each item takes at least eight, and
    running out is [Panic], which the theorems of [LogNv] exclude.
    [read_response_loop], [write_request_loop], [configure_request_loop] and
    [read_config_loop] parse records with one unit of fuel per octet of the
    payload; a record takes at least three, and running out is [Panic], which
    the theorems on the parsers exclude.  [merge_loop] and the discovery loops
    have one step per record or identifier and one to stop.  [csma_loop],
    [associate_loop], [poll_loop] and [take_indication_loop] of [SoftMac] have
    one turn per backoff, poll, address or retained frame and one to stop;
    running out is [Panic], which [soft_mac_never_panics] excludes.
    [listen_loop], [receive_loop] and [command_event_loop] have the 256 turns
    of the source.  [hash_loop] and [copy_loop] have one turn per chunk,
    [tlv_loop], [write_loop] and [ensure_erased] one per octet, and one to stop;
    running out is [Panic], which the theorems on validation, boot and download
    exclude.  Every other
    function is structurally recursive over the table.

    ** Parameters

    The AES-128 permutation is not part of the repository.  It is a parameter
    through the classes [Aes128Forward] and [ForwardAesProvider], the traits
    of the source: a stateful backend that may fail.  What is relied on is in
    [LawfulAes] and [LawfulProvider]: a success returns the value of one fixed
    function from blocks to blocks for the key.  A backend satisfying both is
    given for the witnesses.  When the backend fails half way, the state the
    source leaves it in is not tracked: the model returns the provider as it
    was before the failing operation.

    The NWK data service below the APS layer is the class [NwkService]: the
    clock, the address lookups, whether a network key is active, and the
    request that hands a frame down and may fail.  [NwkServiceOk] states what
    the APS theorems rely on: a request keeps the AES provider usable.  The
    caller's durable commit of a replay counter is a function from the counter
    to its answer.

    The flash device below the log-structured store is the class [NorFlash],
    the trait of the [embedded-storage] crate.  [LawfulFlash] states what the
    trait documents: a successful operation does what it says, one that fails
    may leave anything in its range, and nothing changes outside the range.  A
    device in memory that fails half way through a chosen operation satisfies
    it and is used in the witnesses.

    The radio below the software MAC is the class [RadioPhy].  [LawfulPhy]
    states what is relied on: a call returns, a frame it delivers fits its
    buffer and is made of octets.  Its calls may fail in any order and at any
    time.  [Recorded] adds a log of the calls to any radio, [Scripted] is a
    radio with prescribed answers for the witnesses.  An asynchronous method is
    modelled as the run to its completion; a future dropped half way is not.

    The hash of [mcuboot-image] comes from the [sha2] crate: the class [Sha256]
    with the law [LawfulSha], that feeding chunks hashes their concatenation.
    [SignatureScheme] is the interface to the signature check; its instance is
    the code of [P256Curve].  For the boot files the flash device is described
    by [BootFlash]: reads return the contents, completed operations do what
    they say, and no operation changes anything outside its range.  An
    operation that fails may leave anything in its range, so a failing device
    also stands for a loss of power during the operation.  [Reliable] says when
    operations may fail at all.

    The cluster library selects data types by build features; the class
    [ZclFeatures] holds them and the theorems are for every choice.  Floating
    point values are their bit patterns; comparisons go through [SpecFloat] of
    the Standard Library, the IEEE 754 arithmetic the language prescribes.

    ** Theorems

    - MAC: the parser of a parent accepts exactly its four commands, data
      frames and beacons round-trip, a frame is acknowledged only if it is
      received ([MacFrames]); the frame pending table refines a set
      ([MacAckPending]), the retained frames a list ([MacRxQueue]), and the
      information base keeps its ranges ([MacPib]).
    - Software MAC: no history of operations aborts on any radio, and the radio
      is configured as the information base says ([SoftMacRadio]); a
      transmission succeeds only if it was acknowledged, what is acknowledged is
      delivered, an association takes its address from a response received for
      this node and otherwise leaves it unassociated ([SoftMacLink]); a router settles every association response once
      ([SoftMacParent]).
    - Codecs: parsers never abort, the header parser accepts exactly its
      grammar, serializers and parsers are inverse ([NwkFrames]); the auxiliary
      header round-trips and its nonce identifies source and counter
      ([NwkSecurity]).
    - Cryptography: CCM* is the RFC 3610 construction, written out on its own,
      decryption accepts exactly its image; install codes ([Crypto]); secured frames round-trip
      ([NwkSecurity]).
    - Replay and keys: no frame of a protected source is accepted twice, which
      floors may be lost, key switches move forward ([NwkSecurity]); outgoing
      counters never repeat ([NwkNib]).
    - Tables as abstract objects: the indirect queue refines a FIFO list, the
      broadcast records refine a map with lifetimes, the address map is a
      bijection, neighbor lookups agree; what each insertion may displace is
      stated exactly ([NwkIndirect], [NwkBroadcast], [NwkAddressMap],
      [NwkNeighbor], [NwkRouting]).
    - APS codecs: the header parser accepts exactly its grammar ([ApsFrames]),
      the auxiliary header is exact ([ApsSecurity]), secured frames round-trip
      ([ApsSecured]).
    - APS security: only authentic frames are accepted ([ApsSecured]), no
      counter is accepted twice or used twice, the key table is a finite map
      ([ApsSecurity]).
    - APS delivery: duplicates are rejected for the whole timeout, an abandoned
      commit is undone, acknowledgements settle the right transmission, retries
      are bounded ([ApsDelivery]).
    - Fragmentation: reassembly is safe and returns the sender's ASDU
      ([ApsFragment]), success is reported only when every block was
      acknowledged, transactions end ([ApsFragmentTx]), and both sides together
      deliver the ASDU ([ApsExchange]).
    - Data service: what is requested is indicated, once within the rejection
      timeout, and its acknowledgement confirms it ([ApsService]).
    - Persistence: the log-structured store refines a finite map over every
      history and across reopening; its compaction, cut off at any point, leaves
      a page with the whole log, which a later opening finds unless the remains
      on the other page happen to read as a newer header; a full store is
      reported only when the live items do not fit ([LogNv]); both stores satisfy the laws of the trait ([NvStorage]).
    - Cluster library: frame, value and reporting record codecs are exact
      ([ZclFrame], [ZclValues], [ZclReporting]); reads, writes and discovery
      are answered record by record in order, an undivided write is all or
      nothing and no write breaks the type of an attribute ([ZclFoundation],
      [ZclServer]); the reporting engine refines a specification with an
      unbounded clock ([ZclReporting]); transitions reach their target
      ([ZclTransition]).
    - Secure boot: the signature check is ECDSA over P-256 with affine
      coordinates, and DER signatures have one accepted form ([P256Curve]);
      validation accepts exactly the signed images ([BootValid]); only signed
      images are started and an accepted request survives every interruption
      ([BootLoader]); a download is requested exactly if it is acceptable, the
      next boot then starts it, and before that there is no request, whatever
      fails while the image stays below the trailer ([BootWriter]).
    - Time: aging of neighbors, source routes, discoveries, indirect frames
      and broadcast records; the end device timeout negotiation ([NwkNib]).

    Behaviour that differs from its documentation is recorded by
    [tree_route_first_child] and the example
    [duplicate_route_survives_removal] of [NwkRouting], the example
    [out_of_window_opens_empty_session] of [ApsFragment],
    [start_fragmented_refusals] of [ApsFragmentTx] and the examples
    [torn_delete_locks_store], [torn_write_is_read_back],
    [torn_first_compaction] and [mistaken_remains_open] of [LogNv], and
    [unsigned_header_drops_request] of [BootLoader].

    ** Not modelled

    The asynchronous services that tie the tables together ([nlde.rs] except
    for one handler, [nlme.rs], [nwk_commands.rs], [conflict.rs]), the radio
    backends below the software MAC, the APS command handlers, the clusters of
    the ZCL crate and the rest of their dispatcher, the ZDO and BDB crates and
    the event loop of the runtime, the identity record of the boot loader, the
    wrappers that select the software AES backend, hardware abstraction layers,
    boards, examples, the boot loader programs around [mcuboot-image], tools and
    vendored crates.

    Planned, in this order: the update client of the runtime above
    [FirmwareWriter], the APS command handlers, the receive and relay path of
    [nlde.rs] over the tables modelled here, and the security journal of the
    runtime. *)

From stdpp Require Export base tactics numbers list option sets gmap sorting.
From Stdlib Require Export ZArith Lia.

#[export] Set Default Proof Using "Type".
#[export] Unset Suggest Proof Using.

Local Open Scope Z_scope.

(** * Outcomes of Rust functions

    [Ok] is a normal return, [Err] an early return through [?], [return None]
    or [return Err(_)], and [Panic] an aborted execution: an out-of-range
    index, an out-of-range sub-slice or an integer overflow.  A function that
    returns [Option<T>] has [E := unit]. *)
Inductive outcome (E A : Type) : Type :=
| Ok (a : A)
| Err (e : E)
| Panic.
Arguments Ok {E A} _.
Arguments Err {E A} _.
Arguments Panic {E A}.

#[export] Instance outcome_ret E : MRet (outcome E) := λ A a, Ok a.
#[export] Instance outcome_bind E : MBind (outcome E) := λ A B f m,
  match m with Ok a => f a | Err e => Err e | Panic => Panic end.
#[export] Instance outcome_fmap E : FMap (outcome E) := λ A B f m,
  match m with Ok a => Ok (f a) | Err e => Err e | Panic => Panic end.

Abbreviation fallible := (outcome unit).

(** [o?] and [return None] in a function that returns [Option]. *)
Definition try_opt {A} (o : option A) : fallible A :=
  match o with Some a => Ok a | None => Err tt end.

Definition is_panic {E A} (m : outcome E A) : bool :=
  match m with Panic => true | _ => false end.

Definition to_option {A} (m : fallible A) : option A :=
  match m with Ok a => Some a | _ => None end.

(** * Machine integers

    A [uN] is a [Z] in [0, 2^N).  Plain [+] and [-] panic on overflow (the
    checked arithmetic of debug builds, so a panic-freedom theorem covers both
    profiles); the [wrapping_] and [saturating_] forms are written out. *)
Definition is_u8 (x : Z) : Prop := 0 <= x < 256.
Definition is_u16 (x : Z) : Prop := 0 <= x < 65536.
Definition is_u32 (x : Z) : Prop := 0 <= x < 4294967296.

#[export] Instance is_u8_dec x : Decision (is_u8 x).
Proof. unfold is_u8. apply _. Defined.
#[export] Instance is_u16_dec x : Decision (is_u16 x).
Proof. unfold is_u16. apply _. Defined.
#[export] Instance is_u32_dec x : Decision (is_u32 x).
Proof. unfold is_u32. apply _. Defined.

Definition as_u8 (x : Z) : Z := x mod 256.
Definition as_u16 (x : Z) : Z := x mod 65536.
Definition as_u32 (x : Z) : Z := x mod 4294967296.

Definition wrapping_add_u8 (a b : Z) : Z := (a + b) mod 256.
Definition wrapping_add_u32 (a b : Z) : Z := (a + b) mod 4294967296.
Definition wrapping_sub_u32 (a b : Z) : Z := (a - b) mod 4294967296.
Definition saturating_add_u8 (a b : Z) : Z := Z.min (a + b) 255.
Definition saturating_add_u16 (a b : Z) : Z := Z.min (a + b) 65535.
Definition saturating_sub (a b : Z) : Z := Z.max 0 (a - b).

(** [a + b] on [u8], [u16] and [u32]. *)
Definition add_u16 {E} (a b : Z) : outcome E Z :=
  if a + b <? 65536 then Ok (a + b) else Panic.
Definition add_u8 {E} (a b : Z) : outcome E Z :=
  if a + b <? 256 then Ok (a + b) else Panic.
Definition add_u32 {E} (a b : Z) : outcome E Z :=
  if a + b <? 4294967296 then Ok (a + b) else Panic.

(** [!x] on [u8] and [u16], and the test [x & m != 0]. *)
Definition not_u8 (x : Z) : Z := Z.lxor x 255.
Definition not_u16 (x : Z) : Z := Z.lxor x 65535.
Definition has_bits (x m : Z) : bool := negb (Z.land x m =? 0).

(** [u16::from_le_bytes], [u32::from_le_bytes] and the [to_le_bytes]. *)
Definition u16_from_le (b0 b1 : Z) : Z := Z.lor b0 (Z.shiftl b1 8).
Definition u32_from_le (b0 b1 b2 b3 : Z) : Z :=
  Z.lor b0 (Z.lor (Z.shiftl b1 8) (Z.lor (Z.shiftl b2 16) (Z.shiftl b3 24))).
Definition u16_to_le (x : Z) : list Z :=
  [Z.land x 255; Z.land (Z.shiftr x 8) 255].
Definition u32_to_le (x : Z) : list Z :=
  [Z.land x 255; Z.land (Z.shiftr x 8) 255;
   Z.land (Z.shiftr x 16) 255; Z.land (Z.shiftr x 24) 255].

(** * Slices and buffers *)
Section Slices.
Context {A E : Type}.
Implicit Types (l buf : list A).

(** [l[i]] *)
Definition index l (i : nat) : outcome E A :=
  match l !! i with Some x => Ok x | None => Panic end.

(** [l.get(a..b)] and [&l[a..b]] *)
Definition slice_get l (a b : nat) : option (list A) :=
  if ((a <=? b) && (b <=? length l))%nat then Some (take (b - a) (drop a l)) else None.
Definition slice l (a b : nat) : outcome E (list A) :=
  match slice_get l a b with Some s => Ok s | None => Panic end.

(** [buf[i] = v] *)
Definition put buf (i : nat) (v : A) : outcome E (list A) :=
  if (i <? length buf)%nat then Ok (<[i:=v]> buf) else Panic.

(** [buf[a..b].copy_from_slice(src)]: panics unless [a <= b <= len] and
    [src] has exactly [b - a] elements. *)
Definition copy_from_slice buf (a b : nat) (src : list A) : outcome E (list A) :=
  if ((a <=? b) && (b <=? length buf) && (length src =? b - a))%nat
  then Ok (take a buf ++ src ++ drop b buf) else Panic.

(** A buffer whose first [length pre] elements have been overwritten. *)
Definition written (pre buf : list A) : list A := pre ++ drop (length pre) buf.

End Slices.

(** * Iterator searches

    [position p l] is [l.iter().position(p)]; a [find] through [iter_mut]
    followed by a write is [modify_first].  [max_position] is
    [enumerate().filter(p).max_by_key(key)], which keeps the last of several
    maximal elements; [min_position] keeps the first minimal one. *)
Section Searches.
Context {A : Type}.
Implicit Types (p : A → bool) (key : A → Z) (l : list A).

Fixpoint position p l : option nat :=
  match l with
  | [] => None
  | x :: l' => if p x then Some 0%nat else S <$> position p l'
  end.

Definition modify_first p (f : A → A) l : list A :=
  match position p l with Some i => alter f i l | None => l end.

Fixpoint max_position p key l : option (nat * Z) :=
  match l with
  | [] => None
  | x :: l' =>
      match max_position p key l' with
      | Some (j, k) => if p x && (k <? key x) then Some (0%nat, key x) else Some (S j, k)
      | None => if p x then Some (0%nat, key x) else None
      end
  end.

Fixpoint min_position p key l : option (nat * Z) :=
  match l with
  | [] => None
  | x :: l' =>
      match min_position p key l' with
      | Some (j, k) => if p x && (key x <=? k) then Some (0%nat, key x) else Some (S j, k)
      | None => if p x then Some (0%nat, key x) else None
      end
  end.

(** [iter().filter(p).count()] *)
Fixpoint count p l : nat :=
  match l with [] => 0 | x :: l' => (if p x then S (count p l') else count p l') end.

End Searches.

(** * Tactics and hint databases *)
Create HintDb exec discriminated.
Create HintDb tables discriminated.
Create Rewrite HintDb lens.

(** Arithmetic on machine integers. *)
Ltac ulia :=
  unfold is_u8, is_u16, is_u32, as_u8, as_u16, as_u32, wrapping_add_u8, wrapping_add_u32,
    wrapping_sub_u32, saturating_add_u8, saturating_add_u16, saturating_sub in *;
  Z.div_mod_to_equations; lia.

(** Split every boolean conjunction, disjunction and comparison in sight. *)
Ltac bool_simpl :=
  repeat match goal with
  | H : _ && _ = true |- _ => apply andb_true_iff in H as [? ?]
  | H : _ && _ = false |- _ => apply andb_false_iff in H as [H|H]
  | H : _ || _ = false |- _ => apply orb_false_iff in H as [? ?]
  | H : _ || _ = true |- _ => apply orb_true_iff in H as [H|H]
  | H : negb _ = true |- _ => apply negb_true_iff in H
  | H : negb _ = false |- _ => apply negb_false_iff in H
  | H : (_ =? _) = true |- _ => apply Z.eqb_eq in H
  | H : (_ =? _) = false |- _ => apply Z.eqb_neq in H
  | H : (_ <? _) = true |- _ => apply Z.ltb_lt in H
  | H : (_ <? _) = false |- _ => apply Z.ltb_ge in H
  | H : (_ <=? _) = true |- _ => apply Z.leb_le in H
  | H : (_ <=? _) = false |- _ => apply Z.leb_gt in H
  | H : (_ <? _)%nat = true |- _ => apply Nat.ltb_lt in H
  | H : (_ <? _)%nat = false |- _ => apply Nat.ltb_ge in H
  | H : (_ <=? _)%nat = true |- _ => apply Nat.leb_le in H
  | H : (_ <=? _)%nat = false |- _ => apply Nat.leb_gt in H
  | H : (_ =? _)%nat = true |- _ => apply Nat.eqb_eq in H
  | H : (_ =? _)%nat = false |- _ => apply Nat.eqb_neq in H
  | H : bool_decide _ = true |- _ => apply bool_decide_eq_true in H
  | H : bool_decide _ = false |- _ => apply bool_decide_eq_false in H
  end.

(** * Enumeration of small integers

    A boolean fact about every value of a small range is settled by
    evaluation; used for octets and flag words. *)
Lemma range_forall (n : Z) (p : Z → bool) :
  forallb p (seqZ 0 n) = true → ∀ x, 0 <= x < n → p x = true.
Proof.
  rewrite forallb_forall. intros H x Hx. apply H.
  apply list_elem_of_In, elem_of_seqZ. lia.
Qed.

Lemma range_forall2 (n m : Z) (p : Z → Z → bool) :
  forallb (λ x, forallb (p x) (seqZ 0 m)) (seqZ 0 n) = true →
  ∀ x y, 0 <= x < n → 0 <= y < m → p x y = true.
Proof.
  intros H x y Hx Hy. apply (range_forall m (p x)); [|done].
  exact (range_forall n (λ x, forallb (p x) (seqZ 0 m)) H x Hx).
Qed.

(** * Bits and little-endian words *)
Lemma land_255 x : Z.land x 255 = x mod 256.
Proof. change 255 with (Z.ones 8). by rewrite Z.land_ones by lia. Qed.

Lemma land_ones_mod x k : 0 <= k → Z.land x (2 ^ k - 1) = x mod 2 ^ k.
Proof. intros. rewrite <- Z.land_ones by lia. f_equal. rewrite Z.ones_equiv. lia. Qed.

Lemma shiftr_div x k : 0 <= k → Z.shiftr x k = x / 2 ^ k.
Proof. apply Z.shiftr_div_pow2. Qed.

Lemma land_shiftl_disjoint a b k :
  0 <= k → 0 <= a < 2 ^ k → Z.land a (Z.shiftl b k) = 0.
Proof.
  intros Hk Ha. apply Z.bits_inj'. intros n Hn.
  rewrite Z.land_spec, Z.bits_0. destruct (Z.ltb_spec n k).
  - by rewrite Z.shiftl_spec_low, andb_false_r by lia.
  - rewrite <- (Z.mod_small a (2 ^ k)) by done.
    by rewrite Z.mod_pow2_bits_high by lia.
Qed.

Lemma lor_shiftl_add a b k :
  0 <= k → 0 <= a < 2 ^ k → Z.lor a (Z.shiftl b k) = a + b * 2 ^ k.
Proof.
  intros Hk Ha. rewrite <- Z.lxor_lor, <- Z.add_nocarry_lxor
    by by apply land_shiftl_disjoint.
  by rewrite Z.shiftl_mul_pow2.
Qed.

Lemma u16_from_le_eq b0 b1 : is_u8 b0 → u16_from_le b0 b1 = b0 + b1 * 256.
Proof. intros. unfold u16_from_le. rewrite lor_shiftl_add by ulia. done. Qed.

Lemma u16_from_le_range b0 b1 : is_u8 b0 → is_u8 b1 → is_u16 (u16_from_le b0 b1).
Proof. intros. rewrite u16_from_le_eq by done. ulia. Qed.

Lemma u16_to_le_eq x : u16_to_le x = [x mod 256; (x / 256) mod 256].
Proof. unfold u16_to_le. by rewrite !land_255, shiftr_div by lia. Qed.

Lemma u16_from_to_le x :
  is_u16 x → u16_from_le (Z.land x 255) (Z.land (Z.shiftr x 8) 255) = x.
Proof.
  intros. rewrite !land_255, shiftr_div by lia. change (2 ^ 8) with 256.
  rewrite u16_from_le_eq by ulia. ulia.
Qed.

Lemma u16_to_from_le b0 b1 :
  is_u8 b0 → is_u8 b1 → u16_to_le (u16_from_le b0 b1) = [b0; b1].
Proof.
  intros. rewrite u16_to_le_eq, u16_from_le_eq by done.
  f_equal; [ulia|]. f_equal. ulia.
Qed.

Lemma u32_from_le_eq b0 b1 b2 b3 :
  is_u8 b0 → is_u8 b1 → is_u8 b2 → is_u8 b3 →
  u32_from_le b0 b1 b2 b3 = b0 + b1 * 256 + b2 * 65536 + b3 * 16777216.
Proof.
  intros. unfold u32_from_le.
  replace (Z.shiftl b3 24) with (Z.shiftl (Z.shiftl (Z.shiftl b3 8) 8) 8)
    by (rewrite !Z.shiftl_shiftl by lia; done).
  replace (Z.shiftl b2 16) with (Z.shiftl (Z.shiftl b2 8) 8)
    by (rewrite !Z.shiftl_shiftl by lia; done).
  rewrite <- !Z.shiftl_lor.
  rewrite lor_shiftl_add, (lor_shiftl_add b1), (lor_shiftl_add b2) by ulia. lia.
Qed.

Lemma u32_from_to_le x :
  is_u32 x →
  u32_from_le (Z.land x 255) (Z.land (Z.shiftr x 8) 255)
    (Z.land (Z.shiftr x 16) 255) (Z.land (Z.shiftr x 24) 255) = x.
Proof.
  intros. rewrite !land_255, !shiftr_div by lia.
  change (2 ^ 8) with 256; change (2 ^ 16) with 65536; change (2 ^ 24) with 16777216.
  rewrite u32_from_le_eq by (apply Z.mod_pos_bound; lia).
  unfold is_u32 in *. Z.div_mod_to_equations. lia.
Qed.

Lemma u32_to_from_le b0 b1 b2 b3 :
  is_u8 b0 → is_u8 b1 → is_u8 b2 → is_u8 b3 →
  u32_to_le (u32_from_le b0 b1 b2 b3) = [b0; b1; b2; b3].
Proof.
  intros. unfold u32_to_le.
  rewrite !land_255, !shiftr_div, u32_from_le_eq by (done || lia).
  change (2 ^ 8) with 256; change (2 ^ 16) with 65536; change (2 ^ 24) with 16777216.
  repeat f_equal; unfold is_u8 in *; Z.div_mod_to_equations; lia.
Qed.

Lemma u16_to_le_octets x : Forall is_u8 (u16_to_le x).
Proof. rewrite u16_to_le_eq. repeat constructor; ulia. Qed.

Lemma u32_to_le_octets x : Forall is_u8 (u32_to_le x).
Proof.
  unfold u32_to_le. rewrite !land_255.
  repeat constructor; apply Z.mod_pos_bound; lia.
Qed.

(** * Lemmas on slices and buffers *)
Section SliceLemmas.
Context {A E : Type}.
Implicit Types (l buf pre : list A).

Lemma index_Some l i x : l !! i = Some x → index (E:=E) l i = Ok x.
Proof. unfold index. by intros ->. Qed.

Lemma index_lt l i : (i < length l)%nat → ∃ x, l !! i = Some x ∧ index (E:=E) l i = Ok x.
Proof. intros [x Hx]%lookup_lt_is_Some. eauto using index_Some. Qed.

Lemma index_app_mid pre x l :
  index (E:=E) (pre ++ x :: l) (length pre) = Ok x.
Proof. apply index_Some. by rewrite lookup_app_r, Nat.sub_diag by lia. Qed.

Lemma slice_get_app pre s l a b :
  a = length pre → b = (length pre + length s)%nat →
  slice_get (pre ++ s ++ l) a b = Some s.
Proof.
  intros -> ->. unfold slice_get. rewrite !length_app.
  destruct (_ && _)%nat eqn:Hc; bool_simpl; [|lia..].
  rewrite drop_app_length. f_equal.
  replace (length pre + length s - length pre)%nat with (length s) by lia.
  apply take_app_length.
Qed.

Lemma slice_get_Some l a b s :
  slice_get l a b = Some s ↔
  (a <= b <= length l)%nat ∧ s = take (b - a) (drop a l).
Proof.
  unfold slice_get. destruct (_ && _)%nat eqn:Hc; bool_simpl.
  - split; [intros [= <-]; split; [lia|done] | intros [_ ->]; done].
  - split; [done|]. intros [? _]. lia.
  - split; [done|]. intros [? _]. lia.
Qed.

Lemma slice_get_length l a b s : slice_get l a b = Some s → length s = (b - a)%nat.
Proof.
  intros [? ->]%slice_get_Some. rewrite length_take, length_drop. lia.
Qed.

Lemma slice_get_Forall (P : A → Prop) l a b s :
  slice_get l a b = Some s → Forall P l → Forall P s.
Proof. intros [_ ->]%slice_get_Some ?. by apply Forall_take, Forall_drop. Qed.

Lemma written_nil buf : written [] buf = buf.
Proof. done. Qed.

Lemma length_written pre buf :
  (length pre <= length buf)%nat → length (written pre buf) = length buf.
Proof. intros. unfold written. rewrite length_app, length_drop. lia. Qed.

Lemma put_written pre buf i v :
  i = length pre → (length pre < length buf)%nat →
  put (E:=E) (written pre buf) i v = Ok (written (pre ++ [v]) buf).
Proof.
  intros -> Hlt. unfold put. rewrite length_written by lia.
  rewrite (proj2 (Nat.ltb_lt _ _)) by done. f_equal. unfold written.
  rewrite insert_app_r_alt, Nat.sub_diag, length_app, <- app_assoc by lia. f_equal.
  destruct (lookup_lt_is_Some_2 buf (length pre)) as [y Hy]; [done|].
  rewrite (drop_S _ _ _ Hy). simpl. by rewrite Nat.add_1_r.
Qed.

Lemma copy_written pre buf a b s :
  a = length pre → b = (length pre + length s)%nat → (b <= length buf)%nat →
  copy_from_slice (E:=E) (written pre buf) a b s = Ok (written (pre ++ s) buf).
Proof.
  intros -> -> Hle. unfold copy_from_slice. rewrite length_written by lia.
  destruct (_ && _)%nat eqn:Hc; bool_simpl; [|lia..].
  f_equal. unfold written. rewrite take_app_length, length_app, <- app_assoc. do 2 f_equal.
  rewrite drop_app_ge, drop_drop by lia. f_equal. lia.
Qed.

Lemma written_all pre buf : length pre = length buf → written pre buf = pre.
Proof. intros H. unfold written. by rewrite drop_ge, app_nil_r by lia. Qed.

Lemma drop_written pre buf n : n = length pre → drop n (written pre buf) = drop n buf.
Proof. intros ->. unfold written. by rewrite drop_app_length. Qed.

Lemma take_written pre buf n : n = length pre → take n (written pre buf) = pre.
Proof. intros ->. unfold written. by rewrite take_app_length. Qed.
End SliceLemmas.

(** * Lemmas on searches *)
Section SearchLemmas.
Context {A : Type}.
Implicit Types (p : A → bool) (key : A → Z) (l : list A).

Lemma position_Some p l i :
  position p l = Some i ↔
  ∃ x, l !! i = Some x ∧ p x = true ∧
       ∀ j y, (j < i)%nat → l !! j = Some y → p y = false.
Proof.
  revert i. induction l as [|x l IH]; intros i; simpl.
  { split; [done | intros (? & Hx & _); done]. }
  destruct (p x) eqn:Hp; split.
  - intros [= <-]. exists x. split_and!; [done..|]. intros; lia.
  - intros (y & Hy & Hpy & Hmin). destruct i as [|i]; [done|].
    specialize (Hmin 0%nat x ltac:(lia) eq_refl). congruence.
  - intros (k & Hk & ->)%fmap_Some.
    apply IH in Hk as (y & Hy & Hpy & Hmin). exists y. split_and!; [done..|].
    intros [|j] z ? Hz; simpl in *; [congruence|]. apply (Hmin j); [lia|done].
  - intros (y & Hy & Hpy & Hmin). destruct i as [|i]; simpl in *; [congruence|].
    assert (position p l = Some i) as ->; [|done].
    apply IH. exists y. split_and!; [done..|]. intros j z ? Hz.
    apply (Hmin (S j)); [lia|done].
Qed.

Lemma position_None p l : position p l = None ↔ ∀ x, x ∈ l → p x = false.
Proof.
  induction l as [|x l IH]; simpl.
  - split; [|done]. intros _ x Hx. by apply elem_of_nil in Hx.
  - destruct (p x) eqn:Hp.
    + split; [done|]. intros H. by rewrite (H x ltac:(left)) in Hp.
    + rewrite fmap_None, IH. split; intros H y.
      * intros [->|?]%elem_of_cons; auto.
      * intros ?. apply H. by right.
Qed.

Lemma position_lt p l i : position p l = Some i → (i < length l)%nat.
Proof. intros (x & Hx & _)%position_Some. by eapply lookup_lt_Some. Qed.

Lemma position_alter p (f : A → A) l i :
  (∀ x, p (f x) = p x) → position p (alter f i l) = position p l.
Proof.
  intros Hf. revert i. induction l as [|x l IH]; intros [|i]; simpl; [done..| |].
  - by rewrite Hf.
  - change (list_alter f i l) with (alter f i l). by rewrite IH.
Qed.

Lemma find_position p l :
  List.find p l = position p l ≫= λ i, l !! i.
Proof.
  induction l as [|x l IH]; simpl; [done|].
  destruct (p x); [done|]. rewrite IH. by destruct (position p l).
Qed.

Lemma position_app_None p l1 l2 :
  (∀ x, x ∈ l2 → p x = false) → position p (l1 ++ l2) = position p l1.
Proof.
  intros H. induction l1 as [|x l1 IH]; simpl; [by apply position_None|].
  by rewrite IH.
Qed.

Lemma position_app_r p l1 l2 :
  position p l1 = None → position p (l1 ++ l2) = (λ i, (length l1 + i)%nat) <$> position p l2.
Proof.
  induction l1 as [|x l1 IH]; simpl; [by destruct (position p l2)|]. destruct (p x); [done|].
  destruct (position p l1); [done|]. intros _. rewrite IH by done. by destruct (position p l2).
Qed.

Lemma length_modify_first p f l : length (modify_first p f l) = length l.
Proof. unfold modify_first. case_match; [apply length_alter | done]. Qed.

Lemma modify_first_Forall (P : A → Prop) p f l :
  Forall P l → (∀ x, P x → p x = true → P (f x)) → Forall P (modify_first p f l).
Proof.
  intros Hl Hf. unfold modify_first. destruct (position p l) as [i|] eqn:Hi; [|done].
  apply position_Some in Hi as (x & Hx & Hp & _).
  apply Forall_alter; [done|]. intros y Hy HPy. simplify_eq. auto.
Qed.

Lemma max_position_Some p key l i k :
  max_position p key l = Some (i, k) →
  ∃ x, l !! i = Some x ∧ p x = true ∧ key x = k ∧
       ∀ j y, l !! j = Some y → p y = true → key y <= k ∧ ((i < j)%nat → key y < k).
Proof.
  revert i k. induction l as [|x l IH]; intros i k; simpl; [done|].
  destruct (max_position p key l) as [[j k']|] eqn:Hm.
  - destruct (IH _ _ eq_refl) as (y & Hy & Hpy & Hk & Hmax).
    destruct (p x && _) eqn:Hc; intros [= <- <-]; bool_simpl.
    + exists x. split_and!; [done..|]. intros [|j'] z Hz Hpz; simplify_eq/=; [lia|].
      specialize (Hmax _ _ Hz Hpz). lia.
    + exists y. split_and!; [done..|]. intros [|j'] z Hz Hpz; simplify_eq/=; [congruence|].
      specialize (Hmax _ _ Hz Hpz). split; [lia|]. intros. apply Hmax. lia.
    + exists y. split_and!; [done..|]. intros [|j'] z Hz Hpz; simplify_eq/=; [lia|].
      specialize (Hmax _ _ Hz Hpz). split; [lia|]. intros. apply Hmax. lia.
  - destruct (p x) eqn:Hp; [|done]. intros [= <- <-]. exists x. split_and!; [done..|].
    intros [|j'] z Hz Hpz; simplify_eq/=; [lia|].
    assert (position p l = None) as Hnone.
    { clear -Hm. induction l as [|w l IH]; [done|]. simpl in *.
      destruct (max_position p key l) as [[??]|]; [by case_match|].
      destruct (p w); [done|]. by rewrite IH. }
    rewrite position_None in Hnone.
    rewrite (Hnone z) in Hpz by by eapply list_elem_of_lookup_2. done.
Qed.

Lemma max_position_None p key l :
  max_position p key l = None ↔ position p l = None.
Proof.
  induction l as [|w l IH]; [done|]. simpl.
  destruct (max_position p key l) as [[??]|].
  - destruct (position p l); [|by destruct IH as [_ IH]; specialize (IH eq_refl)].
    destruct (p w); simpl; [|done]. case_match; done.
  - rewrite (proj1 IH eq_refl). by destruct (p w).
Qed.

Lemma max_position_lt p key l i k : max_position p key l = Some (i, k) → (i < length l)%nat.
Proof. intros (x & Hx & _)%max_position_Some. by eapply lookup_lt_Some. Qed.

Lemma min_position_Some p key l i k :
  min_position p key l = Some (i, k) →
  ∃ x, l !! i = Some x ∧ p x = true ∧ key x = k ∧
       ∀ j y, l !! j = Some y → p y = true → k <= key y.
Proof.
  revert i k. induction l as [|x l IH]; intros i k; simpl; [done|].
  destruct (min_position p key l) as [[j k']|] eqn:Hm.
  - destruct (IH _ _ eq_refl) as (y & Hy & Hpy & Hk & Hmin).
    destruct (p x && _) eqn:Hc; intros [= <- <-]; bool_simpl.
    + exists x. split_and!; [done..|]. intros [|j'] z Hz Hpz; simplify_eq/=; [lia|].
      specialize (Hmin _ _ Hz Hpz). lia.
    + exists y. split_and!; [done..|]. intros [|j'] z Hz Hpz; simplify_eq/=; [congruence|eauto].
    + exists y. split_and!; [done..|]. intros [|j'] z Hz Hpz; simplify_eq/=; [lia|eauto].
  - destruct (p x) eqn:Hp; [|done]. intros [= <- <-]. exists x. split_and!; [done..|].
    intros [|j'] z Hz Hpz; simplify_eq/=; [lia|].
    exfalso. clear -Hm Hz Hpz. revert j' Hz. induction l as [|w l IH]; [done|].
    intros [|j'] Hz; simplify_eq/=;
      destruct (min_position p key l) as [[??]|]; repeat case_match; simplify_eq; eauto.
Qed.

Lemma count_zero p l : count p l = 0%nat ↔ position p l = None.
Proof.
  induction l as [|x l IH]; [done|]. simpl. destruct (p x); [done|].
  rewrite fmap_None. done.
Qed.

Lemma count_le_length p l : (count p l <= length l)%nat.
Proof. induction l as [|x l IH]; simpl; [lia|]. case_match; lia. Qed.

Lemma count_app p l1 l2 : count p (l1 ++ l2) = (count p l1 + count p l2)%nat.
Proof. induction l1 as [|x l1 IH]; simpl; [done|]. case_match; lia. Qed.

Lemma count_filter p l : count p l = length (filter (λ x, p x = true) l).
Proof.
  induction l as [|x l IH]; [done|]. simpl. destruct (p x) eqn:Hp.
  - rewrite filter_cons_True by done. simpl. lia.
  - rewrite filter_cons_False by congruence. done.
Qed.

Lemma count_negb p l : (count p l + count (λ x, negb (p x)) l)%nat = length l.
Proof. induction l as [|x l IH]; simpl; [done|]. destruct (p x); simpl; lia. Qed.

(** Overwriting one element changes the count by that element only. *)
Lemma count_insert p l i x y :
  l !! i = Some x →
  (count p (<[i:=y]> l) + Nat.b2n (p x) = count p l + Nat.b2n (p y))%nat.
Proof.
  intros Hx. pose proof (lookup_lt_Some _ _ _ Hx) as Hlt.
  rewrite insert_take_drop by done. rewrite <- (take_drop_middle l i x) at 3 by done.
  rewrite !count_app. simpl. destruct (p x), (p y); simpl; lia.
Qed.

End SearchLemmas.

#[export] Hint Resolve u16_from_le_range u16_to_le_octets u32_to_le_octets : exec.
#[export] Hint Rewrite @length_modify_first @length_insert @length_alter @length_app
  @length_drop @length_take : lens.

(** * Bounded vectors

    [heapless::Vec<T, N>]: [push] on a full vector returns the element back. *)
Definition vec_push {A} (cap : nat) (l : list A) (x : A) : option (list A) :=
  if (length l <? cap)%nat then Some (l ++ [x]) else None.

(** [let _ = v.push(x)]: a push whose failure is ignored. *)
Definition vec_push_ignore {A} (cap : nat) (l : list A) (x : A) : list A :=
  match vec_push cap l x with Some l' => l' | None => l end.

(** [v.swap_remove(i)]: the last element takes the place of element [i]. *)
Definition swap_remove {A} (l : list A) (i : nat) : list A :=
  match last l with
  | Some x => take (length l - 1) (<[i:=x]> l)
  | None => l
  end.

(** [v.remove(i)] *)
Definition vec_remove {A} (l : list A) (i : nat) : list A := take i l ++ drop (S i) l.

(** * Reasoning about outcomes *)
Definition no_panic {E A} (m : outcome E A) : Prop := is_panic m = false.

Section OutcomeLemmas.
Context {E : Type}.

Lemma bind_Ok {A B} (m : outcome E A) (f : A → outcome E B) b :
  (m ≫= f) = Ok b ↔ ∃ a, m = Ok a ∧ f a = Ok b.
Proof. destruct m; simpl; split; [eauto | by intros (? & [= ->] & ?) | done | by intros (? & ? & _) | done | by intros (? & ? & _)]. Qed.

Lemma no_panic_Ok {A} (a : A) : no_panic (Ok (E:=E) a).
Proof. done. Qed.

Lemma no_panic_Err {A} (e : E) : no_panic (Err (A:=A) e).
Proof. done. Qed.

Lemma no_panic_bind {A B} (m : outcome E A) (f : A → outcome E B) :
  no_panic m → (∀ a, m = Ok a → no_panic (f a)) → no_panic (m ≫= f).
Proof. destruct m; unfold no_panic; simpl; auto. Qed.

Lemma no_panic_index {A} (l : list A) i : (i < length l)%nat → no_panic (index (E:=E) l i).
Proof. intros (x & _ & ->)%(index_lt (E:=E)). done. Qed.

Lemma no_panic_slice {A} (l : list A) a b :
  (a <= b <= length l)%nat → no_panic (slice (E:=E) l a b).
Proof.
  intros H. unfold no_panic, slice.
  destruct (slice_get l a b) eqn:Hs; [done|].
  assert (slice_get l a b = Some (take (b - a) (drop a l))) as Hc.
  { apply slice_get_Some. done. } congruence.
Qed.

Lemma index_slice {A} (l : list A) i x :
  index (E:=E) l i = Ok x ↔ slice_get l i (i + 1) = Some [x].
Proof.
  unfold index. rewrite slice_get_Some. replace (i + 1 - i)%nat with 1%nat by lia.
  destruct (l !! i) as [y|] eqn:Hy.
  - pose proof (lookup_lt_Some _ _ _ Hy). rewrite (drop_S _ _ _ Hy). simpl.
    split; [intros [= ->]; split; [lia|done] | by intros [_ [= ->]]].
  - apply lookup_ge_None in Hy. split; [done|]. intros [? _]. lia.
Qed.

Lemma slice_Ok {A} (l : list A) a b s :
  slice (E:=E) l a b = Ok s ↔ slice_get l a b = Some s.
Proof. unfold slice. destruct (slice_get l a b); split; congruence. Qed.

End OutcomeLemmas.

Lemma put_lt {A E} (l : list A) i v :
  (i < length l)%nat → put (E:=E) l i v = Ok (<[i:=v]> l).
Proof. intros. unfold put. by rewrite (proj2 (Nat.ltb_lt _ _)). Qed.

Lemma slice_0_take {A E} (l : list A) n :
  (n <= length l)%nat → slice (E:=E) l 0 n = Ok (take n l).
Proof.
  intros. apply slice_Ok, slice_get_Some. rewrite drop_0, Nat.sub_0_r. split; [lia|done].
Qed.

Lemma try_opt_Ok {A} (o : option A) a : try_opt o = Ok a ↔ o = Some a.
Proof. destruct o; simpl; split; congruence. Qed.

Lemma no_panic_try_opt {A} (o : option A) : no_panic (try_opt o).
Proof. by destruct o. Qed.

#[export] Hint Resolve no_panic_Ok no_panic_Err no_panic_try_opt no_panic_index
  no_panic_slice : exec.

(** Walk through a function body towards [no_panic], leaving the goals about
    indices that arithmetic does not settle. *)
Ltac no_panic_step :=
  match goal with
  | |- no_panic (_ ≫= _) => apply no_panic_bind; [|intros]
  | |- no_panic (if ?b then _ else _) => destruct b eqn:?; bool_simpl
  | |- no_panic (match ?x with (_, _) => _ end) => destruct x
  | |- no_panic (let _ := _ in _) => cbv zeta
  | |- no_panic (index _ _) => apply no_panic_index; try lia
  | |- no_panic (slice _ _ _) => apply no_panic_slice; try lia
  | |- no_panic _ => solve [auto with exec]
  end.
Ltac no_panic_tac := repeat no_panic_step.

(** [u16::from_le_bytes([data[i], data[i + 1]])] *)
Definition read_u16 {E} (data : list Z) (i : nat) : outcome E Z :=
  b0 ← index data i; b1 ← index data (i + 1); Ok (u16_from_le b0 b1).

Lemma no_panic_read_u16 {E} data i :
  (i + 1 < length data)%nat → no_panic (read_u16 (E:=E) data i).
Proof. intros. unfold read_u16. no_panic_tac. Qed.

(** Adjacent slices compose. *)
Section SliceCompose.
Context {A : Type}.
Implicit Types (l s : list A).

Lemma slice_get_app_iff l a c s1 s2 :
  slice_get l a c = Some (s1 ++ s2) ↔
  slice_get l a (a + length s1) = Some s1 ∧
  slice_get l (a + length s1) c = Some s2.
Proof.
  rewrite !slice_get_Some. replace (a + length s1 - a)%nat with (length s1) by lia. split.
  - intros [Hr Heq].
    assert (length s1 + length s2 = c - a)%nat as Hlen.
    { apply (f_equal length) in Heq. revert Heq. autorewrite with lens. lia. }
    assert (s1 = take (length s1) (drop a l)) as H1.
    { apply (f_equal (take (length s1))) in Heq.
      rewrite take_app_length, take_take in Heq.
      by replace (length s1 `min` (c - a))%nat with (length s1) in Heq by lia. }
    split; split; [lia|done|lia|].
    apply (f_equal (drop (length s1))) in Heq. rewrite drop_app_length in Heq.
    rewrite Heq at 1. rewrite skipn_firstn_comm, drop_drop. f_equal. lia.
  - intros [[Hr1 H1] [Hr2 H2]]. split; [lia|].
    rewrite H1 at 1. rewrite H2. rewrite <- drop_drop.
    set (d := drop a l).
    replace (c - a)%nat with (length s1 + (c - (a + length s1)))%nat by lia.
    by rewrite take_take_drop.
Qed.

Lemma slice_get_nil l a : slice_get l a a = Some [] ↔ (a <= length l)%nat.
Proof. rewrite slice_get_Some, Nat.sub_diag. simpl. split; [lia|]. intros; split; [lia|done]. Qed.

Lemma slice_get_end l a b s : slice_get l a b = Some s → b = (a + length s)%nat.
Proof. intros H. pose proof (slice_get_length _ _ _ _ H). apply slice_get_Some in H. lia. Qed.

Lemma slice_get_bound l a b s : slice_get l a b = Some s → (b <= length l)%nat.
Proof. intros [? _]%slice_get_Some. lia. Qed.

Lemma slice_get_0 l n s :
  slice_get l 0 n = Some s ↔ ∃ rest, l = s ++ rest ∧ n = length s.
Proof.
  rewrite slice_get_Some, drop_0, Nat.sub_0_r. split.
  - intros [? ->]. exists (drop n l). rewrite take_drop, length_take. split; [done|lia].
  - intros (rest & -> & ->). rewrite length_app, take_app_length. split; [lia|done].
Qed.

End SliceCompose.

Lemma vec_remove_0_sublist {A} (l : list A) : sublist (vec_remove l 0) l.
Proof. destruct l; [constructor|]. unfold vec_remove. simpl. by apply sublist_cons. Qed.

(** [v.retain(p)] *)
Definition retain {A} (p : A → bool) (l : list A) : list A := List.filter p l.

Lemma elem_of_retain {A} (p : A → bool) l x : x ∈ retain p l ↔ x ∈ l ∧ p x = true.
Proof. unfold retain. rewrite !list_elem_of_In. apply filter_In. Qed.

Lemma retain_sublist {A} (p : A → bool) l : sublist (retain p l) l.
Proof. induction l as [|x l IH]; [constructor|]. simpl. case_match; by constructor. Qed.

(** Searching a vector whose keys are all different. *)
Lemma find_unique {A K} (f : A → K) (p : A → bool) k l e :
  (∀ x, p x = true ↔ f x = k) → NoDup (f <$> l) →
  List.find p l = Some e ↔ e ∈ l ∧ f e = k.
Proof.
  intros Hp. induction l as [|x l IH]; simpl.
  { intros _. split; [done|]. by intros [?%elem_of_nil _]. }
  rewrite NoDup_cons. intros [Hx Hl]. rewrite elem_of_cons. destruct (p x) eqn:Hpx.
  - apply Hp in Hpx. split; [intros [= <-]; auto|].
    intros [[->|He] Hk]; [done|]. destruct Hx. rewrite Hpx, <- Hk. by apply list_elem_of_fmap_2.
  - rewrite IH by done. split; [tauto|]. intros [[->|He] Hk]; [|done].
    apply Hp in Hk. congruence.
Qed.

Lemma filter_ext_elem {A} (P Q : A → Prop) `{∀ x, Decision (P x), ∀ x, Decision (Q x)}
    (l : list A) :
  (∀ x, x ∈ l → P x ↔ Q x) → filter P l = filter Q l.
Proof.
  induction l as [|x l IH]; intros HPQ; [done|]. rewrite !filter_cons.
  rewrite (IH ltac:(intros; apply HPQ; by right)).
  specialize (HPQ x ltac:(left)). case_decide; case_decide; tauto.
Qed.

(** [v.swap(i, j)]: out of range it panics; the only caller swaps elements of
    the vector, see [shift_to]. *)
Definition slice_swap {A} (l : list A) (i j : nat) : list A :=
  match l !! i, l !! j with
  | Some x, Some y => <[i:=y]> (<[j:=x]> l)
  | _, _ => l
  end.

(** * Lookups after a slot has been rewritten *)
Section FindInsert.
Context {A : Type}.
Implicit Types (p : A → bool) (l : list A).

Lemma find_insert_first p l i x :
  (i < length l)%nat → p x = true →
  (∀ j y, (j < i)%nat → l !! j = Some y → p y = false) →
  List.find p (<[i:=x]> l) = Some x.
Proof.
  intros Hi Hp Hmin. rewrite find_position.
  assert (position p (<[i:=x]> l) = Some i) as ->; [|by rewrite bind_Some; exists i; rewrite list_lookup_insert_eq].
  apply position_Some. exists x. rewrite list_lookup_insert_eq by done. split_and!; [done..|].
  intros j y Hj. rewrite list_lookup_insert_ne by lia. by apply Hmin.
Qed.

Lemma find_insert_other p l i x :
  p x = false → (∀ y, l !! i = Some y → p y = false) →
  List.find p (<[i:=x]> l) = List.find p l.
Proof.
  intros Hx. revert i. induction l as [|y l IH]; intros [|i] Hy; simpl in *; [done..| |].
  - by rewrite Hx, (Hy y).
  - rewrite IH by done. done.
Qed.

(** Rewriting a slot that is not the one found, with content that does not
    satisfy [p], keeps the answer. *)
Lemma find_insert_keep p l i x r e :
  l !! i = Some r → p x = false → List.find p l = Some e → r ≠ e →
  List.find p (<[i:=x]> l) = Some e.
Proof.
  intros Hr Hx. revert i Hr. induction l as [|y l IH]; intros [|i] Hr Hf Hne; simplify_eq/=.
  - rewrite Hx. by destruct (p r); simplify_eq.
  - destruct (p y); [done|]. by apply IH.
Qed.

Lemma elem_of_list_insert l i x y : y ∈ <[i:=x]> l → y = x ∨ y ∈ l.
Proof.
  intros [j Hj]%list_elem_of_lookup.
  apply list_lookup_insert_Some in Hj as [(_ & -> & _)|[_ Hj]]; [by left|right].
  by eapply list_elem_of_lookup_2.
Qed.

Lemma find_fmap_same p (f : A → A) l :
  (∀ x, p (f x) = p x) → List.find p (f <$> l) = f <$> List.find p l.
Proof. intros Hf. induction l as [|x l IH]; [done|]. simpl. rewrite Hf. by destruct (p x). Qed.

Lemma alter_insert (f : A → A) l i x : l !! i = Some x → alter f i l = <[i := f x]> l.
Proof.
  intros Hx. revert i Hx. induction l as [|y l IH]; intros [|i] Hx; simplify_eq/=; [done|].
  f_equal. by apply IH.
Qed.

Lemma find_None_elem p l : List.find p l = None ↔ ∀ x, x ∈ l → p x = false.
Proof.
  rewrite find_position. rewrite <- position_None. destruct (position p l) as [i|] eqn:Hi; [|done].
  split; [|done]. apply position_lt in Hi as [x Hx]%lookup_lt_is_Some. simpl. by rewrite Hx.
Qed.

(** When at most one slot satisfies [p], [find] returns it. *)
Lemma find_unique_slot p l e :
  (∀ i j x y, l !! i = Some x → l !! j = Some y → p x = true → p y = true → i = j) →
  List.find p l = Some e ↔ e ∈ l ∧ p e = true.
Proof.
  intros Hu. rewrite find_position. split.
  - destruct (position p l) as [i|] eqn:Hi; [|done]. simpl.
    apply position_Some in Hi as (x & Hx & Hp & _). intros Hy. simplify_eq.
    split; [|done]. by eapply list_elem_of_lookup_2.
  - intros [[i Hi]%list_elem_of_lookup Hp]. destruct (position p l) as [j|] eqn:Hj.
    + apply position_Some in Hj as (x & Hx & Hpx & _). simpl. rewrite (Hu i j e x) in Hi by done.
      congruence.
    + rewrite position_None in Hj. rewrite Hj in Hp; [done|]. by eapply list_elem_of_lookup_2.
Qed.

End FindInsert.

#[export] Instance count_perm {A} (p : A → bool) : Proper ((≡ₚ) ==> (=)) (count p).
Proof.
  intros l l' H. induction H; simpl; [done| | |congruence].
  - by rewrite IHPermutation.
  - by destruct (p x), (p y).
Qed.

Lemma swap_remove_perm {A} (l : list A) i x : l !! i = Some x → x :: swap_remove l i ≡ₚ l.
Proof.
  intros Hx. destruct (last l) as [y|] eqn:Hl; [|by apply last_None in Hl as ->].
  unfold swap_remove. rewrite Hl. apply last_Some in Hl as [l' ->].
  rewrite length_app. simpl. rewrite Nat.add_sub.
  pose proof (lookup_lt_Some _ _ _ Hx) as Hi. rewrite length_app in Hi. simpl in Hi.
  destruct (decide (i = length l')) as [->|Hne].
  - rewrite lookup_app_r, Nat.sub_diag in Hx by lia. simplify_eq/=.
    rewrite insert_app_r_alt, Nat.sub_diag, take_app_length by lia.
    by rewrite <- Permutation_cons_append.
  - rewrite lookup_app_l in Hx by lia. rewrite insert_app_l by lia.
    rewrite take_app_le, take_ge by (rewrite length_insert; lia).
    rewrite <- Permutation_cons_append, <- (take_drop_middle l' i x) at 1 by done.
    rewrite insert_app_r_alt by (rewrite length_take; lia).
    rewrite length_take, Nat.min_l, Nat.sub_diag by lia. simpl.
    rewrite <- (take_drop_middle l' i x Hx) at 3. rewrite <- !Permutation_middle.
    apply Permutation_swap.
Qed.

(** * Bit sets in a word *)
Lemma testbit_shiftl_1 b n : 0 <= b → 0 <= n → Z.testbit (Z.shiftl 1 b) n = (n =? b).
Proof.
  intros Hb Hn. rewrite Z.shiftl_1_l, Z.pow2_bits_eqb by done. apply Z.eqb_sym.
Qed.

Lemma has_bits_testbit x b : 0 <= b → has_bits x (Z.shiftl 1 b) = Z.testbit x b.
Proof.
  intros Hb. unfold has_bits. destruct (Z.testbit x b) eqn:Ht.
  - apply negb_true_iff, Z.eqb_neq. intros H0. apply (f_equal (λ z, Z.testbit z b)) in H0.
    rewrite Z.land_spec, testbit_shiftl_1, Z.eqb_refl, Ht, Z.bits_0 in H0 by done. done.
  - apply negb_false_iff, Z.eqb_eq. apply Z.bits_inj'. intros n Hn.
    rewrite Z.land_spec, testbit_shiftl_1, Z.bits_0 by done.
    destruct (n =? b) eqn:Hnb; [|apply andb_false_r]. bool_simpl. subst. by rewrite Ht.
Qed.

Lemma testbit_set x b n :
  0 <= b → 0 <= n → Z.testbit (Z.lor x (Z.shiftl 1 b)) n = Z.testbit x n || (n =? b).
Proof. intros. by rewrite Z.lor_spec, testbit_shiftl_1. Qed.

Lemma testbit_clear16 x b n :
  0 <= b → 0 <= n < 16 →
  Z.testbit (Z.land x (not_u16 (Z.shiftl 1 b))) n = Z.testbit x n && negb (n =? b).
Proof.
  intros Hb Hn. unfold not_u16. rewrite Z.land_spec, Z.lxor_spec, testbit_shiftl_1 by lia.
  change 65535 with (Z.ones 16). rewrite Z.ones_spec_low by lia. by rewrite xorb_true_r.
Qed.

(** A word is determined to be below [2^k] by its bits. *)
Lemma bits_below x k : 0 <= x → 0 <= k → (∀ n, k <= n → Z.testbit x n = false) → x < 2 ^ k.
Proof.
  intros Hx Hk Hb. assert (x = x mod 2 ^ k) as ->.
  { apply Z.bits_inj'. intros n Hn. destruct (decide (n < k)).
    - by rewrite Z.mod_pow2_bits_low by lia.
    - rewrite Z.mod_pow2_bits_high by lia. apply Hb. lia. }
  apply Z.mod_pos_bound. apply Z.pow_pos_nonneg; lia.
Qed.

Lemma testbit_above x k n : 0 <= x < 2 ^ k → 0 <= k <= n → Z.testbit x n = false.
Proof.
  intros Hx Hn. destruct (decide (x = 0)) as [->|]; [apply Z.bits_0|].
  apply Z.bits_above_log2; [lia|]. apply Z.log2_lt_pow2; [lia|].
  eapply Z.lt_le_trans; [apply Hx|]. apply Z.pow_le_mono_r; lia.
Qed.

Lemma set_bit_u16 x b : is_u16 x → 0 <= b < 16 → is_u16 (Z.lor x (Z.shiftl 1 b)).
Proof.
  intros Hx Hb. assert (0 <= Z.lor x (Z.shiftl 1 b)) as H0.
  { apply Z.lor_nonneg. split; [apply Hx|]. apply Z.shiftl_nonneg. lia. }
  split; [done|]. apply (bits_below _ 16); [done|lia|]. intros n Hn.
  rewrite testbit_set by lia. rewrite (testbit_above x 16) by (unfold is_u16 in Hx; lia).
  apply Z.eqb_neq. lia.
Qed.

Lemma land_u16 x y : is_u16 x → 0 <= Z.land x y → is_u16 (Z.land x y).
Proof.
  intros Hx H0. split; [done|]. apply (bits_below _ 16); [done|lia|]. intros n Hn.
  rewrite Z.land_spec, (testbit_above x 16) by (unfold is_u16 in Hx; lia). done.
Qed.

(** * Lists without repeated keys *)
Lemma NoDup_fmap_elem {A K} (f : A → K) l x y :
  NoDup (f <$> l) → x ∈ l → y ∈ l → f x = f y → x = y.
Proof.
  induction l as [|z l IH]; [by intros _ ?%elem_of_nil|]. intros [Hz Hl]%NoDup_cons Hx Hy Hf.
  apply elem_of_cons in Hx as [-> | Hx], Hy as [-> | Hy]; [done|..|auto].
  - destruct Hz. rewrite Hf. by apply list_elem_of_fmap_2.
  - destruct Hz. rewrite <- Hf. by apply list_elem_of_fmap_2.
Qed.

Lemma NoDup_fmap_lookup {A K} (f : A → K) l i j x y :
  NoDup (f <$> l) → l !! i = Some x → l !! j = Some y → f x = f y → i = j.
Proof.
  intros Hl Hi Hj Hf. eapply (NoDup_lookup (f <$> l)); [done|by rewrite list_lookup_fmap, Hi|].
  by rewrite list_lookup_fmap, Hj, Hf.
Qed.

(** * Sums over index ranges *)
Definition sumZ (f : Z → Z) (l : list Z) : Z := foldr (λ n acc, f n + acc) 0 l.

Lemma sumZ_app f l1 l2 : sumZ f (l1 ++ l2) = sumZ f l1 + sumZ f l2.
Proof. induction l1 as [|x l1 IH]; simpl; [done|]. rewrite IH. lia. Qed.

Lemma sumZ_nonneg f l : (∀ n, n ∈ l → 0 <= f n) → 0 <= sumZ f l.
Proof.
  induction l as [|x l IH]; simpl; intros H; [done|].
  pose proof (H x ltac:(left)). assert (0 <= sumZ f l); [|lia]. apply IH. intros n Hn. apply H. by right.
Qed.

Lemma sumZ_ext f g l : (∀ n, n ∈ l → f n = g n) → sumZ f l = sumZ g l.
Proof.
  induction l as [|x l IH]; simpl; intros H; [done|].
  rewrite (H x ltac:(left)), IH; [done|]. intros n Hn. apply H. by right.
Qed.

Lemma sumZ_update f g l b :
  NoDup l → b ∈ l → (∀ n, n ∈ l → n ≠ b → g n = f n) → sumZ g l = sumZ f l - f b + g b.
Proof.
  induction l as [|x l IH]; intros Hn Hb He; [by apply elem_of_nil in Hb|].
  apply NoDup_cons in Hn as [Hx Hn]. simpl. apply elem_of_cons in Hb as [->|Hb].
  - rewrite (sumZ_ext g f l); [lia|]. intros n Hn'. apply He; [by right|]. by intros ->.
  - rewrite IH; [|done|done|intros; apply He; [by right|done]].
    rewrite (He x) by (by left || by intros ->). lia.
Qed.
