(* ===== verification/ZigbeeTypes.v ===== *)
(** Addressing and channel types of [zigbee-types/src/lib.rs].

    Newtypes around integers ([ShortAddress], [PanId], [ChannelMask]) are the
    integers themselves; an [IeeeAddress] is a list of eight octets.  The
    channel iterator is the state machine of [ChannelMaskIter]; its theorem
    says that draining it yields exactly the channels of the mask, in order. *)
From S2P Require Import Prelude.

Local Open Scope Z_scope.

(** * Addresses *)
Abbreviation ShortAddress := Z (only parsing).
Abbreviation PanId := Z (only parsing).
Abbreviation IeeeAddress := (list Z) (only parsing).

Definition ieee_wf (a : IeeeAddress) : Prop := length a = 8%nat ∧ Forall is_u8 a.

#[export] Instance ieee_wf_dec a : Decision (ieee_wf a).
Proof. unfold ieee_wf. apply _. Defined.

Definition BROADCAST : ShortAddress := 0xFFFF.
Definition BROADCAST_RX_ON_WHEN_IDLE : ShortAddress := 0xFFFD.
Definition BROADCAST_ROUTERS_AND_COORDINATOR : ShortAddress := 0xFFFC.
Definition UNASSIGNED : ShortAddress := 0xFFFE.
Definition COORDINATOR : ShortAddress := 0x0000.

(** [*a == *b] on addresses. *)
Definition ieee_eqb (a b : IeeeAddress) : bool := bool_decide (a = b).

Inductive MacAddress :=
| MacShort (pan : PanId) (addr : ShortAddress)
| MacExtended (pan : PanId) (addr : IeeeAddress).

Definition mac_pan_id (a : MacAddress) : PanId :=
  match a with MacShort pan _ => pan | MacExtended pan _ => pan end.

(** * Channels *)
Inductive Channel :=
| Ch11 | Ch12 | Ch13 | Ch14 | Ch15 | Ch16 | Ch17 | Ch18
| Ch19 | Ch20 | Ch21 | Ch22 | Ch23 | Ch24 | Ch25 | Ch26.

#[export] Instance Channel_eq_dec : EqDecision Channel.
Proof. solve_decision. Defined.

Definition channel_from_number (n : Z) : option Channel :=
  match n with
  | 11 => Some Ch11 | 12 => Some Ch12 | 13 => Some Ch13 | 14 => Some Ch14
  | 15 => Some Ch15 | 16 => Some Ch16 | 17 => Some Ch17 | 18 => Some Ch18
  | 19 => Some Ch19 | 20 => Some Ch20 | 21 => Some Ch21 | 22 => Some Ch22
  | 23 => Some Ch23 | 24 => Some Ch24 | 25 => Some Ch25 | 26 => Some Ch26
  | _ => None
  end.

Definition channel_number (c : Channel) : Z :=
  match c with
  | Ch11 => 11 | Ch12 => 12 | Ch13 => 13 | Ch14 => 14
  | Ch15 => 15 | Ch16 => 16 | Ch17 => 17 | Ch18 => 18
  | Ch19 => 19 | Ch20 => 20 | Ch21 => 21 | Ch22 => 22
  | Ch23 => 23 | Ch24 => 24 | Ch25 => 25 | Ch26 => 26
  end.

(** * Channel masks *)
Abbreviation ChannelMask := Z (only parsing).

Definition ALL_2_4GHZ : ChannelMask := 0x07FFF800.
Definition PREFERRED : ChannelMask :=
  Z.lor (Z.shiftl 1 11) (Z.lor (Z.shiftl 1 14) (Z.lor (Z.shiftl 1 15)
    (Z.lor (Z.shiftl 1 19) (Z.lor (Z.shiftl 1 20) (Z.lor (Z.shiftl 1 24) (Z.shiftl 1 25)))))).

Definition mask_contains (mask : ChannelMask) (c : Channel) : bool :=
  has_bits mask (Z.shiftl 1 (channel_number c)).

Record ChannelMaskIter := mk_ChannelMaskIter { it_mask : ChannelMask; it_current : Z }.

Definition mask_iter (mask : ChannelMask) : ChannelMaskIter := mk_ChannelMaskIter mask 11.

(** [ChannelMaskIter::next].  The [while] loop runs at most [27 - current]
    times; [fuel] counts its iterations. *)
Fixpoint iter_next_loop (fuel : nat) (it : ChannelMaskIter) : option Channel * ChannelMaskIter :=
  match fuel with
  | O => (None, it)
  | S fuel =>
      if it_current it <=? 26 then
        let ch := it_current it in
        let it := mk_ChannelMaskIter (it_mask it) (ch + 1) in
        if has_bits (it_mask it) (Z.shiftl 1 ch)
        then (channel_from_number ch, it)
        else iter_next_loop fuel it
      else (None, it)
  end.

Definition iter_next (it : ChannelMaskIter) : option Channel * ChannelMaskIter :=
  iter_next_loop (Z.to_nat (27 - it_current it)) it.

(** Draining the iterator, as a [for] loop over it does. *)
Fixpoint iter_collect (fuel : nat) (it : ChannelMaskIter) : list Channel :=
  match fuel with
  | O => []
  | S fuel =>
      match iter_next it with
      | (Some c, it) => c :: iter_collect fuel it
      | (None, _) => []
      end
  end.

Definition all_channels : list Channel :=
  [Ch11; Ch12; Ch13; Ch14; Ch15; Ch16; Ch17; Ch18;
   Ch19; Ch20; Ch21; Ch22; Ch23; Ch24; Ch25; Ch26].

Lemma channel_from_to_number c : channel_from_number (channel_number c) = Some c.
Proof. by destruct c. Qed.

(** Channels numbered [n] and above, as a suffix of [all_channels]. *)
Definition channels_from (n : Z) : list Channel := drop (Z.to_nat (n - 11)) all_channels.

Lemma channels_from_cons n :
  11 <= n <= 26 →
  ∃ c, channel_number c = n ∧ channels_from n = c :: channels_from (n + 1).
Proof.
  intros Hn. assert (∃ k, (k < 16)%nat ∧ n = 11 + Z.of_nat k) as (k & Hk & ->).
  { exists (Z.to_nat (n - 11)). lia. }
  do 16 (destruct k as [|k]; [eexists; split; [|reflexivity]; done|]). lia.
Qed.

(** One iteration of the [while] loop, seen from outside. *)
Lemma iter_next_step mask n c :
  11 <= n <= 26 → channel_number c = n →
  iter_next (mk_ChannelMaskIter mask n) =
  if mask_contains mask c then (Some c, mk_ChannelMaskIter mask (n + 1))
  else iter_next (mk_ChannelMaskIter mask (n + 1)).
Proof.
  intros Hn Hc. unfold iter_next, mask_contains. simpl.
  replace (Z.to_nat (27 - n)) with (S (Z.to_nat (27 - (n + 1)))) by lia. simpl.
  rewrite (proj2 (Z.leb_le _ _)) by lia. rewrite Hc.
  case_match; [|done]. by rewrite <- Hc, channel_from_to_number.
Qed.

Lemma iter_collect_from mask m fuel n :
  n = 27 - Z.of_nat m → 11 <= n → (m < fuel)%nat →
  iter_collect fuel (mk_ChannelMaskIter mask n) =
  filter (λ c, mask_contains mask c = true) (channels_from n).
Proof.
  revert fuel n. induction m as [|m IH]; intros fuel n Hm Hn Hf.
  { replace n with 27 by lia. destruct fuel; [lia|]. done. }
  destruct (channels_from_cons n) as (c & Hc & ->); [lia|].
  destruct fuel as [|fuel]; [lia|]. cbn [iter_collect].
  rewrite (iter_next_step mask n c) by (done || lia).
  destruct (mask_contains mask c) eqn:Hb.
  - rewrite filter_cons_True by done. rewrite IH by lia. done.
  - rewrite filter_cons_False by congruence.
    rewrite <- (IH (S fuel) (n + 1)) by lia. done.
Qed.

Theorem channel_iter_complete (mask : ChannelMask) (fuel : nat) :
  (16 < fuel)%nat →
  iter_collect fuel (mask_iter mask) =
  filter (λ c, mask_contains mask c = true) all_channels.
Proof. intros. apply (iter_collect_from mask 16); lia. Qed.
