(* ===== verification/NwkFrames.v ===== *)
(** NWK frame construction and parsing: [zigbee-nwk/src/frames.rs].

    Every parser is a function from the received octets to an [outcome]: a
    rejected frame is [Err tt] (the source's [None]) and an out-of-range index
    would be [Panic].  Serializers write into a caller-supplied buffer and
    panic when it is too short, as the source's index expressions do. *)
From S2P Require Import Prelude.
From S2P Require Import ZigbeeTypes.

Local Open Scope Z_scope.

Definition NWKC_PROTOCOL_VERSION : Z := 0x02.

(** [read_ieee(data, &mut offset)]: the address and the advanced offset. *)
Definition read_ieee (data : list Z) (offset : nat) : fallible (IeeeAddress * nat) :=
  bytes ← try_opt (slice_get data offset (offset + 8));
  Ok (bytes, (offset + 8)%nat).

(** * Command identifiers *)
Inductive NwkFrameType := FtData | FtCommand | FtInterPan.

Inductive NwkCommandId :=
| CmdRouteRequest | CmdRouteReply | CmdNetworkStatus | CmdLeave | CmdRouteRecord
| CmdRejoinRequest | CmdRejoinResponse | CmdLinkStatus | CmdNetworkReport
| CmdNetworkUpdate | CmdEdTimeoutRequest | CmdEdTimeoutResponse | CmdLinkPowerDelta.

Definition command_id_from_u8 (val : Z) : option NwkCommandId :=
  match val with
  | 0x01 => Some CmdRouteRequest
  | 0x02 => Some CmdRouteReply
  | 0x03 => Some CmdNetworkStatus
  | 0x04 => Some CmdLeave
  | 0x05 => Some CmdRouteRecord
  | 0x06 => Some CmdRejoinRequest
  | 0x07 => Some CmdRejoinResponse
  | 0x08 => Some CmdLinkStatus
  | 0x09 => Some CmdNetworkReport
  | 0x0A => Some CmdNetworkUpdate
  | 0x0B => Some CmdEdTimeoutRequest
  | 0x0C => Some CmdEdTimeoutResponse
  | 0x0D => Some CmdLinkPowerDelta
  | _ => None
  end.

(** * Frame control *)
Record NwkFrameControl := mk_NwkFrameControl {
  fc_frame_type : Z;
  fc_protocol_version : Z;
  fc_discover_route : Z;
  fc_multicast : bool;
  fc_security : bool;
  fc_source_route : bool;
  fc_dst_ieee_present : bool;
  fc_src_ieee_present : bool;
  fc_end_device_initiator : bool }.

#[export] Instance NwkFrameControl_eq_dec : EqDecision NwkFrameControl.
Proof. solve_decision. Defined.

Definition frame_control_parse (raw : Z) : NwkFrameControl := {|
  fc_frame_type := as_u8 (Z.land raw 0x03);
  fc_protocol_version := as_u8 (Z.land (Z.shiftr raw 2) 0x0F);
  fc_discover_route := as_u8 (Z.land (Z.shiftr raw 6) 0x03);
  fc_multicast := has_bits (Z.shiftr raw 8) 1;
  fc_security := has_bits (Z.shiftr raw 9) 1;
  fc_source_route := has_bits (Z.shiftr raw 10) 1;
  fc_dst_ieee_present := has_bits (Z.shiftr raw 11) 1;
  fc_src_ieee_present := has_bits (Z.shiftr raw 12) 1;
  fc_end_device_initiator := has_bits (Z.shiftr raw 13) 1 |}.

Definition frame_control_serialize (s : NwkFrameControl) : Z :=
  let fc := 0 in
  let fc := Z.lor fc (Z.land (fc_frame_type s) 0x03) in
  let fc := Z.lor fc (Z.shiftl (Z.land (fc_protocol_version s) 0x0F) 2) in
  let fc := Z.lor fc (Z.shiftl (Z.land (fc_discover_route s) 0x03) 6) in
  let fc := if fc_multicast s then Z.lor fc (Z.shiftl 1 8) else fc in
  let fc := if fc_security s then Z.lor fc (Z.shiftl 1 9) else fc in
  let fc := if fc_source_route s then Z.lor fc (Z.shiftl 1 10) else fc in
  let fc := if fc_dst_ieee_present s then Z.lor fc (Z.shiftl 1 11) else fc in
  let fc := if fc_src_ieee_present s then Z.lor fc (Z.shiftl 1 12) else fc in
  let fc := if fc_end_device_initiator s then Z.lor fc (Z.shiftl 1 13) else fc in
  fc.

(** * NWK header *)
Record SourceRoute := mk_SourceRoute {
  sr_relay_count : Z;
  sr_relay_index : Z;
  sr_relay_list : list ShortAddress }.

Record NwkHeader := mk_NwkHeader {
  nh_frame_control : NwkFrameControl;
  nh_dst_addr : ShortAddress;
  nh_src_addr : ShortAddress;
  nh_radius : Z;
  nh_seq_number : Z;
  nh_dst_ieee : option IeeeAddress;
  nh_src_ieee : option IeeeAddress;
  nh_multicast_control : option Z;
  nh_source_route : option SourceRoute }.

(** An optional 64-bit address announced by a flag. *)
Definition read_ieee_if (present : bool) (data : list Z) (offset : nat)
    : fallible (option IeeeAddress * nat) :=
  if present then '(a, offset) ← read_ieee data offset; Ok (Some a, offset)
  else Ok (None, offset).

(** [for _ in 0..relay_count] *)
Fixpoint read_relays (n : nat) (data : list Z) (offset : nat) (relay_list : list ShortAddress)
    : fallible (list ShortAddress * nat) :=
  match n with
  | O => Ok (relay_list, offset)
  | S n =>
      relay ← read_u16 data offset;
      relay_list ← try_opt (vec_push 16 relay_list relay);
      read_relays n data (offset + 2) relay_list
  end.

Definition read_source_route (data : list Z) (offset : nat) : fallible (SourceRoute * nat) :=
  if (length data <? offset + 2)%nat then Err tt else
  relay_count ← index data offset;
  relay_index ← index data (offset + 1);
  let offset := (offset + 2)%nat in
  let relay_count_usize := Z.to_nat relay_count in
  if (relay_count =? 0) || (relay_count <=? relay_index) || (16 <? relay_count_usize)%nat
     || (length data <? offset + relay_count_usize * 2)%nat
  then Err tt else
  '(relay_list, offset) ← read_relays relay_count_usize data offset [];
  Ok (mk_SourceRoute relay_count relay_index relay_list, offset).

Definition header_parse (data : list Z) : fallible (NwkHeader * nat) :=
  if (length data <? 8)%nat then Err tt else
  fc_raw ← read_u16 data 0;
  let frame_control := frame_control_parse fc_raw in
  if negb (fc_protocol_version frame_control =? NWKC_PROTOCOL_VERSION) then Err tt else
  dst_addr ← read_u16 data 2;
  src_addr ← read_u16 data 4;
  radius ← index data 6;
  seq_number ← index data 7;
  let offset := 8%nat in
  '(dst_ieee, offset) ← read_ieee_if (fc_dst_ieee_present frame_control) data offset;
  '(src_ieee, offset) ← read_ieee_if (fc_src_ieee_present frame_control) data offset;
  '(multicast_control, offset) ←
    (if fc_multicast frame_control then
       mc ← try_opt (data !! offset); Ok (Some mc, (offset + 1)%nat)
     else Ok (None, offset));
  '(source_route, offset) ←
    (if fc_source_route frame_control then
       '(sr, offset) ← read_source_route data offset; Ok (Some sr, offset)
     else Ok (None, offset));
  Ok (mk_NwkHeader frame_control dst_addr src_addr radius seq_number
        dst_ieee src_ieee multicast_control source_route, offset).

(** [buf[i] = lo; buf[i + 1] = hi] of a 16-bit value. *)
Definition put_u16 {E} (buf : list Z) (i : nat) (v : Z) : outcome E (list Z) :=
  buf ← put buf i (Z.land v 0xFF);
  put buf (i + 1) (Z.land (Z.shiftr v 8) 0xFF).

Definition put_ieee_opt {E} (a : option IeeeAddress) (buf : list Z) (offset : nat)
    : outcome E (list Z * nat) :=
  match a with
  | Some ieee =>
      buf ← copy_from_slice buf offset (offset + 8) ieee; Ok (buf, (offset + 8)%nat)
  | None => Ok (buf, offset)
  end.

(** [for relay in &sr.relay_list] *)
Fixpoint put_relays {E} (relays : list ShortAddress) (buf : list Z) (offset : nat)
    : outcome E (list Z * nat) :=
  match relays with
  | [] => Ok (buf, offset)
  | relay :: relays =>
      buf ← put_u16 buf offset relay;
      put_relays relays buf (offset + 2)
  end.

Definition header_serialize {E} (h : NwkHeader) (buf : list Z) : outcome E (list Z * nat) :=
  let fc := frame_control_serialize (nh_frame_control h) in
  buf ← put_u16 buf 0 fc;
  buf ← put_u16 buf 2 (nh_dst_addr h);
  buf ← put_u16 buf 4 (nh_src_addr h);
  buf ← put buf 6 (nh_radius h);
  buf ← put buf 7 (nh_seq_number h);
  '(buf, offset) ← put_ieee_opt (nh_dst_ieee h) buf 8;
  '(buf, offset) ← put_ieee_opt (nh_src_ieee h) buf offset;
  '(buf, offset) ←
    (match nh_multicast_control h with
     | Some mc => buf ← put buf offset mc; Ok (buf, (offset + 1)%nat)
     | None => Ok (buf, offset)
     end);
  match nh_source_route h with
  | Some sr =>
      buf ← put buf offset (sr_relay_count sr);
      buf ← put buf (offset + 1) (sr_relay_index sr);
      put_relays (sr_relay_list sr) buf (offset + 2)
  | None => Ok (buf, offset)
  end.

(** * Leave, Rejoin, Route Request, Route Reply, Network Status *)
Record LeaveCommand := mk_LeaveCommand {
  lv_remove_children : bool; lv_request : bool; lv_rejoin : bool }.

Definition leave_parse (data : list Z) : fallible LeaveCommand :=
  if (length data =? 0)%nat then Err tt else
  b0 ← index data 0;
  Ok (mk_LeaveCommand (has_bits b0 (Z.shiftl 1 7)) (has_bits b0 (Z.shiftl 1 6))
        (has_bits b0 (Z.shiftl 1 5))).

Definition leave_serialize (s : LeaveCommand) : Z :=
  let cmd_opts := 0 in
  let cmd_opts := if lv_remove_children s then Z.lor cmd_opts (Z.shiftl 1 7) else cmd_opts in
  let cmd_opts := if lv_request s then Z.lor cmd_opts (Z.shiftl 1 6) else cmd_opts in
  let cmd_opts := if lv_rejoin s then Z.lor cmd_opts (Z.shiftl 1 5) else cmd_opts in
  cmd_opts.

Record RejoinResponse := mk_RejoinResponse {
  rr_short_address : ShortAddress; rr_rejoin_status : Z }.

Definition rejoin_response_parse (data : list Z) : fallible RejoinResponse :=
  if (length data <? 3)%nat then Err tt else
  short_address ← read_u16 data 0;
  rejoin_status ← index data 2;
  Ok (mk_RejoinResponse short_address rejoin_status).

Record RouteRequest := mk_RouteRequest {
  rq_command_options : Z;
  rq_route_request_id : Z;
  rq_dst_addr : ShortAddress;
  rq_path_cost : Z;
  rq_dst_ieee : option IeeeAddress }.

Definition route_request_parse (data : list Z) : fallible RouteRequest :=
  if (length data <? 5)%nat then Err tt else
  command_options ← index data 0;
  route_request_id ← index data 1;
  dst_addr ← read_u16 data 2;
  path_cost ← index data 4;
  '(dst_ieee, _) ← read_ieee_if (has_bits command_options (Z.shiftl 1 5)) data 5;
  Ok (mk_RouteRequest command_options route_request_id dst_addr path_cost dst_ieee).

Definition route_request_serialize {E} (s : RouteRequest) (buf : list Z)
    : outcome E (list Z * nat) :=
  buf ← put buf 0 (rq_command_options s);
  buf ← put buf 1 (rq_route_request_id s);
  buf ← put_u16 buf 2 (rq_dst_addr s);
  buf ← put buf 4 (rq_path_cost s);
  put_ieee_opt (rq_dst_ieee s) buf 5.

Record RouteReply := mk_RouteReply {
  rp_command_options : Z;
  rp_route_request_id : Z;
  rp_originator : ShortAddress;
  rp_responder : ShortAddress;
  rp_path_cost : Z;
  rp_originator_ieee : option IeeeAddress;
  rp_responder_ieee : option IeeeAddress }.

Definition route_reply_parse (data : list Z) : fallible RouteReply :=
  if (length data <? 7)%nat then Err tt else
  command_options ← index data 0;
  route_request_id ← index data 1;
  originator ← read_u16 data 2;
  responder ← read_u16 data 4;
  path_cost ← index data 6;
  let offset := 7%nat in
  '(originator_ieee, offset) ←
    read_ieee_if (has_bits command_options (Z.shiftl 1 4)) data offset;
  '(responder_ieee, offset) ←
    read_ieee_if (has_bits command_options (Z.shiftl 1 5)) data offset;
  Ok (mk_RouteReply command_options route_request_id originator responder path_cost
        originator_ieee responder_ieee).

Definition route_reply_serialize {E} (s : RouteReply) (buf : list Z)
    : outcome E (list Z * nat) :=
  buf ← put buf 0 (rp_command_options s);
  buf ← put buf 1 (rp_route_request_id s);
  buf ← put_u16 buf 2 (rp_originator s);
  buf ← put_u16 buf 4 (rp_responder s);
  buf ← put buf 6 (rp_path_cost s);
  '(buf, offset) ← put_ieee_opt (rp_originator_ieee s) buf 7;
  put_ieee_opt (rp_responder_ieee s) buf offset.

Record NetworkStatusCommand := mk_NetworkStatusCommand {
  ns_status_code : Z; ns_destination : ShortAddress }.

Definition NO_ROUTE_AVAILABLE : Z := 0x00.
Definition TREE_LINK_FAILURE : Z := 0x01.
Definition NON_TREE_LINK_FAILURE : Z := 0x02.
Definition SOURCE_ROUTE_FAILURE : Z := 0x0B.
Definition MANY_TO_ONE_ROUTE_FAILURE : Z := 0x0C.
Definition ADDRESS_CONFLICT : Z := 0x0D.
Definition PAN_ID_UPDATE : Z := 0x0F.
Definition NETWORK_ADDRESS_UPDATE : Z := 0x10.

Definition network_status_parse (data : list Z) : fallible NetworkStatusCommand :=
  if (length data <? 3)%nat then Err tt else
  status_code ← index data 0;
  destination ← read_u16 data 1;
  Ok (mk_NetworkStatusCommand status_code destination).

Definition network_status_serialize {E} (s : NetworkStatusCommand) (buf : list Z)
    : outcome E (list Z * nat) :=
  buf ← put buf 0 (ns_status_code s);
  buf ← put_u16 buf 1 (ns_destination s);
  Ok (buf, 3%nat).

(** * Link Status *)
Record LinkStatusEntry := mk_LinkStatusEntry {
  ls_address : ShortAddress; ls_incoming_cost : Z; ls_outgoing_cost : Z }.

#[export] Instance LinkStatusEntry_eq_dec : EqDecision LinkStatusEntry.
Proof. solve_decision. Defined.

Definition MAX_LINK_STATUS_ENTRIES : nat := 31.
Definition LINK_STATUS_ENTRIES_PER_FRAME : nat := 16.
Definition LINK_STATUS_FIRST_FRAME : Z := 0x20.
Definition LINK_STATUS_LAST_FRAME : Z := 0x40.
Definition LINK_STATUS_COUNT_MASK : Z := 0x1F.

Record LinkStatusCommand := mk_LinkStatusCommand {
  lsc_first_frame : bool; lsc_last_frame : bool; lsc_entries : list LinkStatusEntry }.

Definition link_status_wire_size (s : LinkStatusCommand) : nat :=
  (1 + 3 * length (lsc_entries s))%nat.

Fixpoint put_link_entries (entries : list LinkStatusEntry) (buf : list Z) (offset : nat)
    : fallible (list Z) :=
  match entries with
  | [] => Ok buf
  | entry :: entries =>
      buf ← put_u16 buf offset (ls_address entry);
      buf ← put buf (offset + 2)
              (Z.lor (Z.land (ls_incoming_cost entry) 0x07)
                     (as_u8 (Z.shiftl (Z.land (ls_outgoing_cost entry) 0x07) 4)));
      put_link_entries entries buf (offset + 3)
  end.

Definition link_status_serialize (s : LinkStatusCommand) (buf : list Z)
    : fallible (list Z * nat) :=
  let size := link_status_wire_size s in
  if (length buf <? size)%nat then Err tt else
  let options := Z.land (as_u8 (Z.of_nat (length (lsc_entries s)))) LINK_STATUS_COUNT_MASK in
  let options := if lsc_first_frame s then Z.lor options LINK_STATUS_FIRST_FRAME else options in
  let options := if lsc_last_frame s then Z.lor options LINK_STATUS_LAST_FRAME else options in
  buf ← put buf 0 options;
  buf ← put_link_entries (lsc_entries s) buf 1;
  Ok (buf, size).

(** A received Link Status; [lr_entries] is the borrowed octet slice. *)
Record LinkStatusReport := mk_LinkStatusReport {
  lr_first_frame : bool; lr_last_frame : bool; lr_entries : list Z }.

Definition link_report_parse (data : list Z) : fallible LinkStatusReport :=
  options ← try_opt (head data);
  let count := Z.to_nat (Z.land options LINK_STATUS_COUNT_MASK) in
  let fin := (1 + 3 * count)%nat in
  if (length data <? fin)%nat then Err tt else
  entries ← slice data 1 fin;
  Ok (mk_LinkStatusReport (has_bits options LINK_STATUS_FIRST_FRAME)
        (has_bits options LINK_STATUS_LAST_FRAME) entries).

Definition link_report_len (r : LinkStatusReport) : nat := (length (lr_entries r) / 3)%nat.

(** [as_chunks::<3>().0] with the mapping of [LinkStatusReport::iter]: whole
    chunks only. *)
Fixpoint chunks3_iter (entries : list Z) : list LinkStatusEntry :=
  match entries with
  | c0 :: c1 :: c2 :: rest =>
      mk_LinkStatusEntry (u16_from_le c0 c1) (Z.land c2 0x07)
        (Z.land (Z.shiftr c2 4) 0x07) :: chunks3_iter rest
  | _ => []
  end.

Definition link_report_iter (r : LinkStatusReport) : list LinkStatusEntry :=
  chunks3_iter (lr_entries r).

Definition link_report_covers (r : LinkStatusReport) (address : ShortAddress) : bool :=
  match link_report_iter r with
  | [] => lr_first_frame r && lr_last_frame r
  | first :: rest =>
      let last_entry := default first (last rest) in
      let lower := if lr_first_frame r then 0x0000 else ls_address first in
      let upper := if lr_last_frame r then 0xFFFF else ls_address last_entry in
      (lower <=? address) && (address <=? upper)
  end.

Definition link_report_incoming_cost_for (r : LinkStatusReport) (address : ShortAddress)
    : option Z :=
  ls_incoming_cost <$> List.find (λ e, ls_address e =? address) (link_report_iter r).

(** * Network Report and Network Update *)
Definition NWK_REPORT_COUNT_MASK : Z := 0x1F.
Definition NWK_REPORT_ID_SHIFT : Z := 5.
Definition NWK_REPORT_PAN_ID_CONFLICT : Z := 0x00.
Definition NWK_UPDATE_PAN_ID_UPDATE : Z := 0x00.
Definition MAX_PAN_ID_CONFLICT_REPORT : nat := 8.

Record PanIdConflictReport := mk_PanIdConflictReport {
  pcr_epid : IeeeAddress; pcr_pan_ids : list PanId }.

Definition conflict_report_wire_size (s : PanIdConflictReport) : nat :=
  (9 + 2 * length (pcr_pan_ids s))%nat.

Fixpoint put_pan_ids (ids : list PanId) (buf : list Z) (offset : nat) : fallible (list Z) :=
  match ids with
  | [] => Ok buf
  | pan_id :: ids =>
      buf ← copy_from_slice buf offset (offset + 2) (u16_to_le pan_id);
      put_pan_ids ids buf (offset + 2)
  end.

Definition conflict_report_serialize (s : PanIdConflictReport) (buf : list Z)
    : fallible (list Z * nat) :=
  let size := conflict_report_wire_size s in
  if (length buf <? size)%nat then Err tt else
  buf ← put buf 0
          (Z.lor (Z.land (as_u8 (Z.of_nat (length (pcr_pan_ids s)))) NWK_REPORT_COUNT_MASK)
                 (as_u8 (Z.shiftl NWK_REPORT_PAN_ID_CONFLICT NWK_REPORT_ID_SHIFT)));
  buf ← copy_from_slice buf 1 9 (pcr_epid s);
  buf ← put_pan_ids (pcr_pan_ids s) buf 9;
  Ok (buf, size).

(** [for chunk in data[9..end].as_chunks::<2>().0]; a push into the full
    vector is ignored. *)
Fixpoint chunks2_pan_ids (chunk : list Z) (pan_ids : list PanId) : list PanId :=
  match chunk with
  | c0 :: c1 :: rest =>
      chunks2_pan_ids rest
        (vec_push_ignore MAX_PAN_ID_CONFLICT_REPORT pan_ids (u16_from_le c0 c1))
  | _ => pan_ids
  end.

Definition conflict_report_parse (data : list Z) : fallible PanIdConflictReport :=
  if (length data <? 9)%nat then Err tt else
  b0 ← index data 0;
  let count := Z.to_nat (Z.land b0 NWK_REPORT_COUNT_MASK) in
  if negb (Z.shiftr b0 NWK_REPORT_ID_SHIFT =? NWK_REPORT_PAN_ID_CONFLICT) then Err tt else
  let fin := (9 + 2 * count)%nat in
  if (length data <? fin)%nat then Err tt else
  epid ← slice data 1 9;
  chunks ← slice data 9 fin;
  Ok (mk_PanIdConflictReport epid (chunks2_pan_ids chunks [])).

Record PanIdUpdate := mk_PanIdUpdate {
  pu_epid : IeeeAddress; pu_update_id : Z; pu_new_pan_id : PanId }.

Definition PAN_ID_UPDATE_WIRE_SIZE : nat := 12.

Definition pan_id_update_serialize (s : PanIdUpdate) (buf : list Z) : fallible (list Z * nat) :=
  if (length buf <? PAN_ID_UPDATE_WIRE_SIZE)%nat then Err tt else
  buf ← put buf 0 (Z.lor 1 (as_u8 (Z.shiftl NWK_UPDATE_PAN_ID_UPDATE NWK_REPORT_ID_SHIFT)));
  buf ← copy_from_slice buf 1 9 (pu_epid s);
  buf ← put buf 9 (pu_update_id s);
  buf ← copy_from_slice buf 10 12 (u16_to_le (pu_new_pan_id s));
  Ok (buf, PAN_ID_UPDATE_WIRE_SIZE).

Definition pan_id_update_parse (data : list Z) : fallible PanIdUpdate :=
  if (length data <? PAN_ID_UPDATE_WIRE_SIZE)%nat then Err tt else
  b0 ← index data 0;
  if negb (Z.shiftr b0 NWK_REPORT_ID_SHIFT =? NWK_UPDATE_PAN_ID_UPDATE)
     || negb (Z.land b0 NWK_REPORT_COUNT_MASK =? 1)
  then Err tt else
  epid ← slice data 1 9;
  update_id ← index data 9;
  new_pan_id ← read_u16 data 10;
  Ok (mk_PanIdUpdate epid update_id new_pan_id).

(** * End Device Timeout *)
Definition ED_TIMEOUT_ENUM_MAX : Z := 14.
Definition ED_TIMEOUT_ENUM_DEFAULT : Z := 8.
Definition ED_TIMEOUT_ENUM_REQUESTED : Z := ED_TIMEOUT_ENUM_MAX.
Definition ED_TIMEOUT_STATUS_SUCCESS : Z := 0x00.
Definition ED_TIMEOUT_STATUS_INCORRECT_VALUE : Z := 0x01.
Definition PARENT_INFO_MAC_DATA_POLL_KEEPALIVE : Z := 0x01.
Definition PARENT_INFO_ED_TIMEOUT_REQUEST_KEEPALIVE : Z := 0x02.
Definition PARENT_INFO_MASK : Z :=
  Z.lor PARENT_INFO_MAC_DATA_POLL_KEEPALIVE PARENT_INFO_ED_TIMEOUT_REQUEST_KEEPALIVE.

Definition ed_timeout_enum_to_seconds (timeout_enum : Z) : option Z :=
  if timeout_enum =? 0 then Some 10
  else if (1 <=? timeout_enum) && (timeout_enum <=? ED_TIMEOUT_ENUM_MAX)
  then Some (as_u32 (Z.shiftl 120 (timeout_enum - 1)))
  else None.

Record EdTimeoutRequest := mk_EdTimeoutRequest { etq_requested_timeout : Z; etq_ed_config : Z }.

Definition ed_timeout_request_new (requested_timeout : Z) : option EdTimeoutRequest :=
  if ED_TIMEOUT_ENUM_MAX <? requested_timeout then None
  else Some (mk_EdTimeoutRequest requested_timeout 0).

Definition ed_timeout_request_max : EdTimeoutRequest :=
  mk_EdTimeoutRequest ED_TIMEOUT_ENUM_REQUESTED 0.

Definition ed_timeout_request_seconds (s : EdTimeoutRequest) : option Z :=
  ed_timeout_enum_to_seconds (etq_requested_timeout s).

Definition ed_timeout_request_serialize {E} (s : EdTimeoutRequest) (buf : list Z)
    : outcome E (list Z * nat) :=
  buf ← put buf 0 (etq_requested_timeout s);
  buf ← put buf 1 (etq_ed_config s);
  Ok (buf, 2%nat).

Definition ed_timeout_request_parse (data : list Z) : fallible EdTimeoutRequest :=
  if (length data <? 2)%nat then Err tt else
  b0 ← index data 0;
  if ED_TIMEOUT_ENUM_MAX <? b0 then Err tt else
  b1 ← index data 1;
  if negb (b1 =? 0) then Err tt else
  Ok (mk_EdTimeoutRequest b0 b1).

Record EdTimeoutResponse := mk_EdTimeoutResponse { etr_status : Z; etr_parent_info : Z }.

Definition ed_timeout_response_serialize {E} (s : EdTimeoutResponse) (buf : list Z)
    : outcome E (list Z * nat) :=
  buf ← put buf 0 (etr_status s);
  buf ← put buf 1 (etr_parent_info s);
  Ok (buf, 2%nat).

Definition ed_timeout_response_parse (data : list Z) : fallible EdTimeoutResponse :=
  if (length data <? 2)%nat then Err tt else
  b0 ← index data 0;
  b1 ← index data 1;
  Ok (mk_EdTimeoutResponse b0 b1).

(** * Panic freedom of the parsers *)
Lemma no_panic_read_ieee_if b data off : no_panic (read_ieee_if b data off).
Proof. unfold read_ieee_if, read_ieee. no_panic_tac. Qed.

Lemma no_panic_read_relays n data off acc :
  (off + n * 2 <= length data)%nat → no_panic (read_relays n data off acc).
Proof.
  revert off acc. induction n as [|n IH]; intros off acc Hlen; simpl; [done|].
  apply no_panic_bind; [apply no_panic_read_u16; lia|]. intros relay _.
  no_panic_tac. apply IH. lia.
Qed.

#[export] Hint Resolve no_panic_read_ieee_if : exec.

Lemma no_panic_read_source_route data off : no_panic (read_source_route data off).
Proof.
  unfold read_source_route. no_panic_tac. apply no_panic_read_relays. lia.
Qed.

#[export] Hint Resolve no_panic_read_source_route : exec.

Ltac no_panic_parse := no_panic_tac; apply no_panic_read_u16; lia.

Lemma no_panic_header_parse data : no_panic (header_parse data).
Proof. unfold header_parse. no_panic_tac; apply no_panic_read_u16; lia. Qed.

Lemma no_panic_commands data :
  no_panic (leave_parse data) ∧ no_panic (rejoin_response_parse data) ∧
  no_panic (route_request_parse data) ∧ no_panic (route_reply_parse data) ∧
  no_panic (network_status_parse data) ∧ no_panic (link_report_parse data) ∧
  no_panic (conflict_report_parse data) ∧ no_panic (pan_id_update_parse data) ∧
  no_panic (ed_timeout_request_parse data) ∧ no_panic (ed_timeout_response_parse data).
Proof.
  unfold leave_parse, rejoin_response_parse, route_request_parse, route_reply_parse,
    network_status_parse, link_report_parse, conflict_report_parse, pan_id_update_parse,
    ed_timeout_request_parse, ed_timeout_response_parse, PAN_ID_UPDATE_WIRE_SIZE.
  split_and!; no_panic_tac; apply no_panic_read_u16; lia.
Qed.

(** * The header grammar

    [encode_header r h] is the octet string of a header with the two reserved
    frame-control bits set to [r]; serialization produces [encode_header 0]. *)
Definition encode_opt_ieee (a : option IeeeAddress) : list Z := default [] a.

Definition encode_relays (l : list ShortAddress) : list Z := concat (u16_to_le <$> l).

Definition encode_source_route (sr : option SourceRoute) : list Z :=
  match sr with
  | Some sr => sr_relay_count sr :: sr_relay_index sr :: encode_relays (sr_relay_list sr)
  | None => []
  end.

Definition encode_header (r : Z) (h : NwkHeader) : list Z :=
  u16_to_le (frame_control_serialize (nh_frame_control h) + r * 16384)
  ++ u16_to_le (nh_dst_addr h) ++ u16_to_le (nh_src_addr h)
  ++ [nh_radius h] ++ [nh_seq_number h]
  ++ encode_opt_ieee (nh_dst_ieee h) ++ encode_opt_ieee (nh_src_ieee h)
  ++ option_list (nh_multicast_control h)
  ++ encode_source_route (nh_source_route h).

(** Well-formed headers: fields in range and optional parts exactly when the
    frame control announces them. *)
Definition frame_control_wf (fc : NwkFrameControl) : Prop :=
  0 <= fc_frame_type fc < 4 ∧ 0 <= fc_protocol_version fc < 16 ∧ 0 <= fc_discover_route fc < 4.

Definition opt_ieee_wf (present : bool) (a : option IeeeAddress) : Prop :=
  match a with Some a => present = true ∧ ieee_wf a | None => present = false end.

Definition source_route_wf (sr : SourceRoute) : Prop :=
  0 <= sr_relay_index sr < sr_relay_count sr ∧ sr_relay_count sr <= 16 ∧
  Z.of_nat (length (sr_relay_list sr)) = sr_relay_count sr ∧
  Forall is_u16 (sr_relay_list sr).

Definition header_wf (h : NwkHeader) : Prop :=
  let fc := nh_frame_control h in
  frame_control_wf fc ∧ fc_protocol_version fc = NWKC_PROTOCOL_VERSION ∧
  is_u16 (nh_dst_addr h) ∧ is_u16 (nh_src_addr h) ∧
  is_u8 (nh_radius h) ∧ is_u8 (nh_seq_number h) ∧
  opt_ieee_wf (fc_dst_ieee_present fc) (nh_dst_ieee h) ∧
  opt_ieee_wf (fc_src_ieee_present fc) (nh_src_ieee h) ∧
  match nh_multicast_control h with
  | Some mc => fc_multicast fc = true ∧ is_u8 mc | None => fc_multicast fc = false end ∧
  match nh_source_route h with
  | Some sr => fc_source_route fc = true ∧ source_route_wf sr
  | None => fc_source_route fc = false end.

(** ** Frame control word *)
Definition frame_control_value (s : NwkFrameControl) : Z :=
  fc_frame_type s + 4 * fc_protocol_version s + 64 * fc_discover_route s
  + 256 * Z.b2z (fc_multicast s) + 512 * Z.b2z (fc_security s)
  + 1024 * Z.b2z (fc_source_route s) + 2048 * Z.b2z (fc_dst_ieee_present s)
  + 4096 * Z.b2z (fc_src_ieee_present s) + 8192 * Z.b2z (fc_end_device_initiator s).

Lemma b2z_range b : 0 <= Z.b2z b <= 1.
Proof. destruct b; simpl; lia. Qed.

Lemma lor_flag (a k : Z) (b : bool) :
  0 <= k → 0 <= a < 2 ^ k →
  (if b then Z.lor a (Z.shiftl 1 k) else a) = a + 2 ^ k * Z.b2z b.
Proof. intros. destruct b; [rewrite lor_shiftl_add by done|]; cbn [Z.b2z]; lia. Qed.

Lemma frame_control_serialize_value fc :
  frame_control_wf fc →
  frame_control_serialize fc = frame_control_value fc ∧ 0 <= frame_control_value fc < 16384.
Proof.
  destruct fc as [ft pv dr m s sr di si ed]. intros (Hft & Hpv & Hdr).
  unfold frame_control_serialize, frame_control_value. cbv zeta. rewrite Z.lor_0_l.
  cbn [fc_frame_type fc_protocol_version fc_discover_route fc_multicast fc_security
    fc_source_route fc_dst_ieee_present fc_src_ieee_present fc_end_device_initiator] in *.
  pose proof (b2z_range m). pose proof (b2z_range s). pose proof (b2z_range sr).
  pose proof (b2z_range di). pose proof (b2z_range si). pose proof (b2z_range ed).
  change 3 with (2 ^ 2 - 1). change 15 with (2 ^ 4 - 1).
  rewrite !land_ones_mod, !Z.mod_small by lia.
  rewrite (lor_shiftl_add ft pv 2), (lor_shiftl_add _ dr 6) by lia.
  rewrite (lor_flag _ 8), (lor_flag _ 9), (lor_flag _ 10), (lor_flag _ 11),
    (lor_flag _ 12), (lor_flag _ 13) by lia. lia.
Qed.

Lemma has_bit_shiftr raw k :
  0 <= k → has_bits (Z.shiftr raw k) 1 = ((raw / 2 ^ k) mod 2 =? 1).
Proof.
  intros. unfold has_bits. rewrite shiftr_div by done. change 1 with (2 ^ 1 - 1) at 1.
  rewrite land_ones_mod by lia. change (2 ^ 1) with 2.
  pose proof (Z.mod_pos_bound (raw / 2 ^ k) 2 ltac:(lia)).
  destruct (_ =? 0) eqn:?, (_ =? 1) eqn:?; bool_simpl; simpl; lia.
Qed.

Lemma frame_control_parse_value raw :
  frame_control_parse raw = {|
    fc_frame_type := raw mod 4;
    fc_protocol_version := (raw / 4) mod 16;
    fc_discover_route := (raw / 64) mod 4;
    fc_multicast := (raw / 256) mod 2 =? 1;
    fc_security := (raw / 512) mod 2 =? 1;
    fc_source_route := (raw / 1024) mod 2 =? 1;
    fc_dst_ieee_present := (raw / 2048) mod 2 =? 1;
    fc_src_ieee_present := (raw / 4096) mod 2 =? 1;
    fc_end_device_initiator := (raw / 8192) mod 2 =? 1 |}.
Proof.
  unfold frame_control_parse. rewrite !has_bit_shiftr by lia.
  change 3 with (2 ^ 2 - 1). change 15 with (2 ^ 4 - 1).
  rewrite !land_ones_mod, !shiftr_div by lia. simpl. unfold as_u8.
  f_equal; apply Z.mod_small; Z.div_mod_to_equations; lia.
Qed.

Lemma frame_control_parse_serialize r fc :
  frame_control_wf fc →
  frame_control_parse (frame_control_serialize fc + r * 16384) = fc.
Proof.
  intros Hwf. destruct (frame_control_serialize_value fc Hwf) as [-> _].
  destruct fc as [ft pv dr m s sr di si ed]. destruct Hwf as (Hft & Hpv & Hdr).
  rewrite frame_control_parse_value. unfold frame_control_value; simpl in *.
  pose proof (b2z_range m). pose proof (b2z_range s). pose proof (b2z_range sr).
  pose proof (b2z_range di). pose proof (b2z_range si). pose proof (b2z_range ed).
  f_equal; [Z.div_mod_to_equations; lia..| | | | | |];
    match goal with |- (?x =? 1) = ?b =>
      enough (x = Z.b2z b) as -> by (destruct b; done) end;
    Z.div_mod_to_equations; lia.
Qed.

Lemma b2z_bit x : Z.b2z (x mod 2 =? 1) = x mod 2.
Proof. pose proof (Z.mod_pos_bound x 2). destruct (_ =? 1) eqn:?; bool_simpl; simpl; lia. Qed.

Lemma frame_control_serialize_parse raw :
  is_u16 raw →
  raw = frame_control_serialize (frame_control_parse raw) + raw / 16384 * 16384 ∧
  frame_control_wf (frame_control_parse raw) ∧ 0 <= raw / 16384 < 4.
Proof.
  intros Hraw. assert (frame_control_wf (frame_control_parse raw)) as Hwf.
  { rewrite frame_control_parse_value. split_and!; simpl; apply Z.mod_pos_bound; lia. }
  split_and!; [|done|ulia..].
  destruct (frame_control_serialize_value _ Hwf) as [-> _].
  rewrite frame_control_parse_value. unfold frame_control_value; simpl.
  rewrite !b2z_bit.
  replace (raw / 64) with (raw / 4 / 16) by (rewrite Z.div_div by lia; done).
  replace (raw / 256) with (raw / 4 / 16 / 4) by (rewrite !Z.div_div by lia; done).
  replace (raw / 512) with (raw / 4 / 16 / 4 / 2) by (rewrite !Z.div_div by lia; done).
  replace (raw / 1024) with (raw / 4 / 16 / 4 / 2 / 2) by (rewrite !Z.div_div by lia; done).
  replace (raw / 2048) with (raw / 4 / 16 / 4 / 2 / 2 / 2) by (rewrite !Z.div_div by lia; done).
  replace (raw / 4096) with (raw / 4 / 16 / 4 / 2 / 2 / 2 / 2)
    by (rewrite !Z.div_div by lia; done).
  replace (raw / 8192) with (raw / 4 / 16 / 4 / 2 / 2 / 2 / 2 / 2)
    by (rewrite !Z.div_div by lia; done).
  replace (raw / 16384) with (raw / 4 / 16 / 4 / 2 / 2 / 2 / 2 / 2 / 2)
    by (rewrite !Z.div_div by lia; done).
  Z.div_mod_to_equations. lia.
Qed.

(** ** Readers against the grammar *)
Section Readers.
Context (data : list Z).
Hypothesis Hoct : Forall is_u8 data.

Lemma lookup_u8 i b : data !! i = Some b → is_u8 b.
Proof using Hoct. intros H. eapply Forall_lookup_1 in H; eauto. Qed.

Lemma index_u8 {E} i b : index (E:=E) data i = Ok b → is_u8 b.
Proof using Hoct. unfold index. destruct (data !! i) eqn:H; [|done]. intros [= <-]. by eapply lookup_u8. Qed.

Lemma read_u16_iff {E} i v :
  read_u16 (E:=E) data i = Ok v ↔ is_u16 v ∧ slice_get data i (i + 2) = Some (u16_to_le v).
Proof using Hoct.
  unfold read_u16. rewrite bind_Ok. setoid_rewrite bind_Ok. split.
  - intros (b0 & H0 & b1 & H1 & [= <-]).
    pose proof (index_u8 _ _ H0). pose proof (index_u8 _ _ H1).
    split; [auto with exec|]. rewrite u16_to_from_le by done.
    apply (slice_get_app_iff _ _ _ [b0] [b1]).
    apply index_slice in H0, H1. replace (i + 2)%nat with (i + 1 + 1)%nat by lia. done.
  - intros (Hv & Hs). unfold u16_to_le in Hs.
    apply (slice_get_app_iff _ _ _ [Z.land v 255] [Z.land (Z.shiftr v 8) 255]) in Hs as [H0 H1].
    simpl in H0, H1. replace (i + 2)%nat with (i + 1 + 1)%nat in H1 by lia.
    eexists; split; [by apply index_slice|]. eexists; split; [by apply index_slice|].
    by rewrite u16_from_to_le.
Qed.

Lemma read_ieee_if_iff p off o off' :
  (off <= length data)%nat →
  read_ieee_if p data off = Ok (o, off') ↔
  opt_ieee_wf p o ∧ slice_get data off off' = Some (encode_opt_ieee o).
Proof using Hoct.
  intros Hoff. unfold read_ieee_if, read_ieee. destruct p.
  - rewrite bind_Ok. split.
    + intros ([a n] & (x & Hx & [= -> <-])%bind_Ok & [= <- <-]). apply try_opt_Ok in Hx.
      simpl. split; [|done]. split; [done|]. split.
      * rewrite (slice_get_length _ _ _ _ Hx). lia.
      * by eapply slice_get_Forall.
    + intros [Hwf Hs]. destruct o as [a|]; [|done]. simpl in *. destruct Hwf as [_ [Hlen _]].
      pose proof (slice_get_end _ _ _ _ Hs) as ->. rewrite Hlen in *.
      exists (a, (off + 8)%nat). split; [|done]. rewrite bind_Ok. exists a. split; [|done].
      by apply try_opt_Ok.
  - split.
    + intros [= <- <-]. simpl. split; [done|]. by apply slice_get_nil.
    + intros [Hwf Hs]. destruct o as [a|]; [by destruct Hwf|]. simpl in *.
      apply slice_get_end in Hs. simpl in Hs. by rewrite Hs, Nat.add_0_r.
Qed.

Lemma length_encode_relays l : length (encode_relays l) = (length l * 2)%nat.
Proof.
  induction l as [|x l IH]; [done|].
  change (encode_relays (x :: l)) with (u16_to_le x ++ encode_relays l).
  rewrite length_app, IH. simpl. lia.
Qed.

Lemma read_relays_iff n off acc r off' :
  (off <= length data)%nat → (length acc + n <= 16)%nat →
  read_relays n data off acc = Ok (r, off') ↔
  ∃ l, r = acc ++ l ∧ length l = n ∧ Forall is_u16 l ∧
       slice_get data off off' = Some (encode_relays l).
Proof using Hoct.
  revert off acc. induction n as [|n IH]; intros off acc Hoff Hcap; simpl.
  - split.
    + intros [= <- <-]. exists []. rewrite app_nil_r.
      split_and!; [done..|constructor|by apply slice_get_nil].
    + intros (l & -> & Hl & _ & Hs). destruct l; [|done]. apply slice_get_end in Hs.
      simpl in Hs. by rewrite app_nil_r, Hs, Nat.add_0_r.
  - rewrite bind_Ok. setoid_rewrite read_u16_iff.
    assert (∀ v, try_opt (vec_push 16 acc v) = Ok (acc ++ [v])) as Hpush.
    { intros v. unfold vec_push. by rewrite (proj2 (Nat.ltb_lt _ _)) by lia. }
    setoid_rewrite Hpush. simpl. split.
    + intros (v & [Hv Hs] & Hrest).
      apply IH in Hrest as (l & -> & <- & Hl & Hs'); [| by eapply slice_get_bound
        | rewrite length_app; simpl; lia].
      exists (v :: l). rewrite <- app_assoc. split_and!; [done..|by constructor|].
      apply slice_get_app_iff. split; [exact Hs|exact Hs'].
    + intros (l & -> & Hl & Hall & Hs). destruct l as [|v l]; [done|].
      apply slice_get_app_iff in Hs as [Hs Hs']. apply Forall_cons in Hall as [Hv Hall].
      exists v. split; [done|]. apply IH; [by eapply slice_get_bound
        | rewrite length_app; simpl; lia |].
      exists l. rewrite <- app_assoc. split_and!; [done|by injection Hl|done|done].
Qed.

Lemma read_source_route_iff off sr off' :
  (off <= length data)%nat →
  read_source_route data off = Ok (sr, off') ↔
  source_route_wf sr ∧ slice_get data off off' = Some (encode_source_route (Some sr)).
Proof using Hoct.
  intros Hoff. unfold read_source_route. split.
  - destruct (_ <? _)%nat eqn:Hlen; [done|]; bool_simpl.
    intros (rc & Hrc & (ri & Hri & H)%bind_Ok)%bind_Ok. cbv zeta in H.
    destruct (_ || _) eqn:Hc; [done|]. bool_simpl.
    apply bind_Ok in H as ([l n] & Hl & [= <- <-]).
    pose proof (index_u8 _ _ Hrc) as [? ?]. pose proof (index_u8 _ _ Hri) as [? ?].
    apply read_relays_iff in Hl as (l' & -> & Hll & Hall & Hs); [|simpl; lia..].
    simpl. split.
    + unfold source_route_wf; simpl. split_and!; [lia..|done].
    + apply (slice_get_app_iff _ _ _ [rc] (ri :: _)). split; [by apply index_slice in Hrc|].
      apply (slice_get_app_iff _ _ _ [ri]). simpl. split; [by apply index_slice in Hri|].
      replace (off + 1 + 1)%nat with (off + 2)%nat by lia. done.
  - destruct sr as [rc ri l]. intros ((Hri & Hrc & Hl & Hall) & Hs). simpl in *.
    pose proof (slice_get_bound _ _ _ _ Hs) as Hb. pose proof (slice_get_end _ _ _ _ Hs) as He.
    simpl in He. rewrite length_encode_relays in He.
    apply (slice_get_app_iff _ _ _ [rc] (ri :: _)) in Hs as [Hs1 Hs].
    apply (slice_get_app_iff _ _ _ [ri]) in Hs as [Hs2 Hs]. simpl in *.
    replace (off + 1 + 1)%nat with (off + 2)%nat in * by lia.
    destruct (_ <? _)%nat eqn:Hlen; bool_simpl; [lia|].
    rewrite (proj2 (index_slice (E:=unit) _ _ _) Hs1). simpl.
    rewrite (proj2 (index_slice (E:=unit) data (off + 1) ri)).
    2: { by replace (off + 1 + 1)%nat with (off + 2)%nat by lia. }
    simpl. destruct (_ || _) eqn:Hc; bool_simpl; [lia..|].
    apply bind_Ok. exists (l, off'). split; [|done].
    apply read_relays_iff; [lia|simpl; lia|]. exists l. split_and!; [done|lia|done|done].
Qed.

Lemma read_multicast_iff (p : bool) off mc off' :
  (off <= length data)%nat →
  (if p then mc ← try_opt (data !! off); Ok (Some mc, (off + 1)%nat) else Ok (None, off))
  = Ok (E:=unit) (mc, off') ↔
  match mc with Some mc => p = true ∧ is_u8 mc | None => p = false end ∧
  slice_get data off off' = Some (option_list mc).
Proof using Hoct.
  intros Hoff. destruct p.
  - rewrite bind_Ok. setoid_rewrite try_opt_Ok. split.
    + intros (b & Hb & [= <- <-]). split; [split; [done|by eapply lookup_u8]|].
      apply (index_slice (E:=unit)). by apply index_Some.
    + intros [Hmc Hs]. destruct mc as [b|]; [|done].
      pose proof (slice_get_end _ _ _ _ Hs) as ->. exists b. split; [|done].
      apply (index_slice (E:=unit)) in Hs. unfold index in Hs. case_match; congruence.
  - split.
    + intros [= <- <-]. split; [done|]. by apply slice_get_nil.
    + intros [Hmc Hs]. destruct mc; [by destruct Hmc|]. apply slice_get_end in Hs.
      simpl in Hs. by rewrite Hs, Nat.add_0_r.
Qed.

Lemma read_source_route_if_iff (p : bool) off sr off' :
  (off <= length data)%nat →
  (if p then '(sr, off) ← read_source_route data off; Ok (Some sr, off) else Ok (None, off))
  = Ok (sr, off') ↔
  match sr with Some sr => p = true ∧ source_route_wf sr | None => p = false end ∧
  slice_get data off off' = Some (encode_source_route sr).
Proof using Hoct.
  intros Hoff. destruct p.
  - rewrite bind_Ok. split.
    + intros ([s n] & Hs & [= <- <-]). apply read_source_route_iff in Hs; tauto.
    + intros [Hp Hs]. destruct sr as [sr|]; [|done]. exists (sr, off'). split; [|done].
      apply read_source_route_iff; tauto.
  - split.
    + intros [= <- <-]. split; [done|]. by apply slice_get_nil.
    + intros [Hp Hs]. destruct sr; [by destruct Hp|]. apply slice_get_end in Hs.
      simpl in Hs. by rewrite Hs, Nat.add_0_r.
Qed.

End Readers.

(** ** The header parser accepts exactly the grammar *)
Lemma length_u16_to_le v : length (u16_to_le v) = 2%nat.
Proof. done. Qed.

Lemma header_parse_sound data h n :
  Forall is_u8 data → header_parse data = Ok (h, n) →
  header_wf h ∧ ∃ r, 0 <= r < 4 ∧ slice_get data 0 n = Some (encode_header r h).
Proof.
  intros Hoct. unfold header_parse. destruct (_ <? _)%nat eqn:Hlen; [done|]; bool_simpl.
  intros (raw & [Hraw Hs0]%read_u16_iff & H)%bind_Ok; [|done]. cbv zeta in H.
  destruct (negb _) eqn:Hpv; [done|]; bool_simpl.
  apply bind_Ok in H as (dst & [Hdst Hs1]%read_u16_iff & H); [|done].
  apply bind_Ok in H as (src & [Hsrc Hs2]%read_u16_iff & H); [|done].
  apply bind_Ok in H as (radius & Hs3 & H). apply bind_Ok in H as (seq & Hs4 & H).
  pose proof (index_u8 _ Hoct _ _ Hs3) as Hu3. pose proof (index_u8 _ Hoct _ _ Hs4) as Hu4.
  apply index_slice in Hs3, Hs4.
  apply bind_Ok in H as ([o1 n1] & [Hw1 Hs5]%read_ieee_if_iff & H); [|done|lia].
  pose proof (slice_get_bound _ _ _ _ Hs5) as Hb1.
  apply bind_Ok in H as ([o2 n2] & [Hw2 Hs6]%read_ieee_if_iff & H); [|done..].
  pose proof (slice_get_bound _ _ _ _ Hs6) as Hb2.
  apply bind_Ok in H as ([mc n3] & [Hw3 Hs7]%read_multicast_iff & H); [|done..].
  pose proof (slice_get_bound _ _ _ _ Hs7) as Hb3.
  apply bind_Ok in H as ([sr n4] & [Hw4 Hs8]%read_source_route_if_iff & H); [|done..].
  injection H as <- <-.
  destruct (frame_control_serialize_parse raw Hraw) as (Hfc & Hfcwf & Hr).
  split; [unfold header_wf; simpl; split_and!; done|].
  exists (raw / 16384). split; [done|]. unfold encode_header.
  cbn [nh_frame_control nh_dst_addr nh_src_addr nh_radius
    nh_seq_number nh_dst_ieee nh_src_ieee nh_multicast_control nh_source_route].
  rewrite <- Hfc.
  pose proof (slice_get_end _ _ _ _ Hs5) as ->. pose proof (slice_get_end _ _ _ _ Hs6) as ->.
  pose proof (slice_get_end _ _ _ _ Hs7) as ->.
  do 8 (apply slice_get_app_iff; split; [eassumption|]). eassumption.
Qed.

Lemma header_parse_complete data h n r :
  Forall is_u8 data → header_wf h → 0 <= r < 4 →
  slice_get data 0 n = Some (encode_header r h) → header_parse data = Ok (h, n).
Proof.
  intros Hoct Hwf Hr Hs.
  destruct h as [fc dst src radius seq o1 o2 mc sr]. unfold header_wf in Hwf; simpl in Hwf.
  destruct Hwf as (Hfc & Hpv & Hdst & Hsrc & Hu3 & Hu4 & Hw1 & Hw2 & Hw3 & Hw4).
  unfold encode_header in Hs. cbn [nh_frame_control nh_dst_addr nh_src_addr nh_radius
    nh_seq_number nh_dst_ieee nh_src_ieee nh_multicast_control nh_source_route] in Hs.
  do 8 (apply slice_get_app_iff in Hs as [? Hs]). rewrite !length_u16_to_le in *. simpl length in *.
  simpl in *.
  assert (8 <= length data)%nat as Hlen by (eapply slice_get_bound; eassumption).
  destruct (frame_control_serialize_value fc Hfc) as [Hval Hrange].
  unfold header_parse. destruct (_ <? _)%nat eqn:Hl; bool_simpl; [lia|].
  apply bind_Ok. eexists. split; [apply read_u16_iff; [done|]; split; [|eassumption]; ulia|].
  cbv zeta. rewrite frame_control_parse_serialize by done.
  rewrite (proj2 (Z.eqb_eq _ _) Hpv). cbn [negb].
  apply bind_Ok. eexists. split; [apply read_u16_iff; [done|]; split; [|eassumption]; done|].
  apply bind_Ok. eexists. split; [apply read_u16_iff; [done|]; split; [|eassumption]; done|].
  apply bind_Ok. eexists. split; [apply index_slice; eassumption|].
  apply bind_Ok. eexists. split; [apply index_slice; eassumption|].
  apply bind_Ok. eexists (_, _). split; [apply read_ieee_if_iff; [done|done|eauto]|].
  apply bind_Ok. eexists (_, _). split; [apply read_ieee_if_iff;
    [done|by eapply slice_get_bound|eauto]|].
  apply bind_Ok. eexists (_, _). split; [apply read_multicast_iff;
    [done|by eapply slice_get_bound|eauto]|].
  apply bind_Ok. eexists (_, _). split; [apply read_source_route_if_iff;
    [done|by eapply slice_get_bound|eauto]|]. done.
Qed.

(** ** The header serializer writes the grammar *)
Section Writers.
Context {E : Type} (buf : list Z).

Lemma put_u16_written pre i v :
  i = length pre → (length pre + 2 <= length buf)%nat →
  put_u16 (E:=E) (written pre buf) i v = Ok (written (pre ++ u16_to_le v) buf).
Proof.
  intros -> Hlen. unfold put_u16. rewrite put_written by lia. simpl.
  rewrite put_written by (rewrite ?length_app; simpl; lia). by rewrite <- app_assoc.
Qed.

Lemma put_ieee_opt_written pre i a :
  i = length pre → (∀ b, a = Some b → length b = 8%nat) →
  (length pre + length (encode_opt_ieee a) <= length buf)%nat →
  put_ieee_opt (E:=E) a (written pre buf) i =
  Ok (written (pre ++ encode_opt_ieee a) buf, length (pre ++ encode_opt_ieee a)).
Proof.
  intros -> Ha Hlen. destruct a as [a|]; simpl in *.
  - specialize (Ha a eq_refl). rewrite copy_written by lia. simpl.
    by rewrite length_app, Ha.
  - by rewrite app_nil_r.
Qed.

Lemma put_relays_written l pre i :
  i = length pre → (length pre + length (encode_relays l) <= length buf)%nat →
  put_relays (E:=E) l (written pre buf) i =
  Ok (written (pre ++ encode_relays l) buf, length (pre ++ encode_relays l)).
Proof.
  revert pre i. induction l as [|x l IH]; intros pre i -> Hlen; simpl.
  { by rewrite app_nil_r. }
  change (encode_relays (x :: l)) with (u16_to_le x ++ encode_relays l) in *.
  rewrite length_app, length_u16_to_le in Hlen.
  rewrite put_u16_written by lia. simpl.
  rewrite IH by (rewrite ?length_app, ?length_u16_to_le; lia). by rewrite <- app_assoc.
Qed.

End Writers.

Lemma opt_ieee_wf_length p a b : opt_ieee_wf p a → a = Some b → length b = 8%nat.
Proof. intros H ->. apply H. Qed.

(** One write of a serializer at the end of what has been written. *)
Ltac write_side :=
  rewrite ?length_app, ?length_u16_to_le; simpl; rewrite ?length_app; simpl;
  first [lia | intros; subst; eauto using opt_ieee_wf_length].
Ltac write_step :=
  first [rewrite put_u16_written by write_side
        |rewrite put_written by write_side
        |rewrite copy_written by write_side
        |rewrite put_ieee_opt_written by write_side
        |rewrite put_relays_written by write_side]; simpl mbind.

Ltac write_done :=
  match goal with |- Ok (written ?l _, ?n) = Ok (written ?l' _, ?n') =>
    cut (l = l' ∧ n = n'); [intros [Hl Hn]; congruence | split]
  end;
  [ simpl; rewrite <- ?app_assoc, ?app_nil_r; simpl; rewrite <- ?app_assoc; done
  | rewrite ?length_app, ?length_u16_to_le; simpl; rewrite ?length_app; simpl;
    rewrite ?length_app; simpl; lia ].

Lemma header_serialize_written {E} h buf :
  header_wf h → (length (encode_header 0 h) <= length buf)%nat →
  header_serialize (E:=E) h buf =
  Ok (written (encode_header 0 h) buf, length (encode_header 0 h)).
Proof.
  destruct h as [fc dst src radius seq o1 o2 mc sr].
  intros (_ & _ & _ & _ & _ & _ & Hw1 & Hw2 & _) Hlen.
  unfold encode_header, header_serialize in *.
  cbn [nh_frame_control nh_dst_addr nh_src_addr nh_radius
    nh_seq_number nh_dst_ieee nh_src_ieee nh_multicast_control nh_source_route] in *.
  rewrite Z.mul_0_l, Z.add_0_r in *. cbv zeta.
  rewrite !length_app, !length_u16_to_le in Hlen. simpl length in Hlen.
  rewrite <- (written_nil buf) at 1.
  repeat write_step.
  destruct mc as [mc|], sr as [sr|]; simpl in Hlen; cbn beta iota; simpl mbind; repeat write_step;
    write_done.
Qed.

Lemma Forall_encode_relays l : Forall is_u8 (encode_relays l).
Proof.
  induction l as [|x l IH]; [constructor|].
  change (encode_relays (x :: l)) with (u16_to_le x ++ encode_relays l).
  apply Forall_app; auto with exec.
Qed.

Lemma Forall_encode_opt_ieee p a : opt_ieee_wf p a → Forall is_u8 (encode_opt_ieee a).
Proof. destruct a; simpl; [intros [_ [_ H]]; done | constructor]. Qed.

#[export] Hint Resolve Forall_encode_relays Forall_encode_opt_ieee : exec.

Lemma encode_header_octets r h : header_wf h → Forall is_u8 (encode_header r h).
Proof.
  destruct h as [fc dst src radius seq o1 o2 mc sr].
  intros (_ & _ & _ & _ & ? & ? & ? & ? & Hmc & Hsr). unfold encode_header.
  repeat (apply Forall_app; split); eauto with exec; simpl in *.
  - destruct mc; [apply Forall_singleton; apply Hmc | constructor].
  - destruct sr as [[rc ri l]|]; [|constructor]. destruct Hsr as (_ & ? & ? & _).
    simpl in *. repeat constructor; auto with exec; ulia.
Qed.

Lemma written_slice {A} (pre buf : list A) :
  slice_get (written pre buf) 0 (length pre) = Some pre.
Proof. apply slice_get_0. by eexists. Qed.

Lemma written_octets pre buf :
  Forall is_u8 pre → Forall is_u8 buf → Forall is_u8 (written pre buf).
Proof. intros. apply Forall_app. split; [done|by apply Forall_drop]. Qed.

(** ** Command grammars *)
Definition encode_route_request (s : RouteRequest) : list Z :=
  [rq_command_options s] ++ [rq_route_request_id s] ++ u16_to_le (rq_dst_addr s)
  ++ [rq_path_cost s] ++ encode_opt_ieee (rq_dst_ieee s).

Definition route_request_wf (s : RouteRequest) : Prop :=
  is_u8 (rq_command_options s) ∧ is_u8 (rq_route_request_id s) ∧ is_u16 (rq_dst_addr s) ∧
  is_u8 (rq_path_cost s) ∧
  opt_ieee_wf (has_bits (rq_command_options s) 32) (rq_dst_ieee s).

Definition encode_route_reply (s : RouteReply) : list Z :=
  [rp_command_options s] ++ [rp_route_request_id s] ++ u16_to_le (rp_originator s)
  ++ u16_to_le (rp_responder s) ++ [rp_path_cost s]
  ++ encode_opt_ieee (rp_originator_ieee s) ++ encode_opt_ieee (rp_responder_ieee s).

Definition route_reply_wf (s : RouteReply) : Prop :=
  is_u8 (rp_command_options s) ∧ is_u8 (rp_route_request_id s) ∧ is_u16 (rp_originator s) ∧
  is_u16 (rp_responder s) ∧ is_u8 (rp_path_cost s) ∧
  opt_ieee_wf (has_bits (rp_command_options s) 16) (rp_originator_ieee s) ∧
  opt_ieee_wf (has_bits (rp_command_options s) 32) (rp_responder_ieee s).

Definition encode_network_status (s : NetworkStatusCommand) : list Z :=
  [ns_status_code s] ++ u16_to_le (ns_destination s).

Ltac write_all buf := cbv zeta; rewrite <- (written_nil buf) at 1; repeat write_step; write_done.

Lemma route_request_serialize_written {E} s buf :
  route_request_wf s → (length (encode_route_request s) <= length buf)%nat →
  route_request_serialize (E:=E) s buf =
  Ok (written (encode_route_request s) buf, length (encode_route_request s)).
Proof.
  destruct s as [o i d c a]. intros (_ & _ & _ & _ & Ha) Hlen.
  unfold encode_route_request, route_request_serialize in *. simpl in Hlen, Ha.
  cbn [rq_command_options rq_route_request_id rq_dst_addr rq_path_cost rq_dst_ieee]. write_all buf.
Qed.

Lemma route_reply_serialize_written {E} s buf :
  route_reply_wf s → (length (encode_route_reply s) <= length buf)%nat →
  route_reply_serialize (E:=E) s buf =
  Ok (written (encode_route_reply s) buf, length (encode_route_reply s)).
Proof.
  destruct s as [o i d r c a1 a2]. intros (_ & _ & _ & _ & _ & Ha1 & Ha2) Hlen.
  unfold encode_route_reply, route_reply_serialize in *. simpl in Hlen, Ha1, Ha2.
  rewrite length_app in Hlen.
  cbn [rp_command_options rp_route_request_id rp_originator rp_responder rp_path_cost
    rp_originator_ieee rp_responder_ieee]. write_all buf.
Qed.

Lemma network_status_serialize_written {E} s buf :
  (3 <= length buf)%nat →
  network_status_serialize (E:=E) s buf = Ok (written (encode_network_status s) buf, 3%nat).
Proof.
  intros Hlen. destruct s as [c d]. unfold encode_network_status, network_status_serialize.
  cbn [ns_status_code ns_destination]. write_all buf.
Qed.

(** Parsing a whole encoding, followed by anything. *)
Lemma read_ieee_if_app p a pre rest off :
  opt_ieee_wf p a → off = length pre →
  read_ieee_if p (pre ++ encode_opt_ieee a ++ rest) off =
  Ok (a, (off + length (encode_opt_ieee a))%nat).
Proof.
  intros Ha ->. unfold read_ieee_if, read_ieee. destruct a as [a|]; simpl in *.
  - destruct Ha as [-> [Hlen _]]. rewrite (slice_get_app pre a rest) by lia. simpl.
    by rewrite Hlen.
  - rewrite Ha. f_equal. f_equal. lia.
Qed.

Lemma route_request_parse_encode s rest :
  route_request_wf s → route_request_parse (encode_route_request s ++ rest) = Ok s.
Proof.
  destruct s as [o i d c a]. intros (Ho & Hi & Hd & Hc & Ha).
  unfold encode_route_request, route_request_parse; simpl in *.
  unfold read_u16; simpl. rewrite u16_from_to_le by done.
  change (Z.shiftl 1 5) with 32.
  set (pre := [o; i; Z.land d 255; Z.land (Z.shiftr d 8) 255; c]).
  change (o :: _) with (pre ++ encode_opt_ieee a ++ rest).
  by rewrite (read_ieee_if_app _ _ pre).
Qed.

Lemma route_reply_parse_encode s rest :
  route_reply_wf s → route_reply_parse (encode_route_reply s ++ rest) = Ok s.
Proof.
  destruct s as [o i d r c a1 a2]. intros (Ho & Hi & Hd & Hr & Hc & Ha1 & Ha2).
  unfold encode_route_reply, route_reply_parse; simpl in *.
  unfold read_u16; simpl. rewrite !u16_from_to_le by done.
  change (Z.shiftl 1 5) with 32. change (Z.shiftl 1 4) with 16. rewrite <- app_assoc.
  set (pre := [o; i; Z.land d 255; Z.land (Z.shiftr d 8) 255;
               Z.land r 255; Z.land (Z.shiftr r 8) 255; c]).
  change (o :: _) with (pre ++ encode_opt_ieee a1 ++ encode_opt_ieee a2 ++ rest).
  apply bind_Ok. eexists (_, _). split; [by apply read_ieee_if_app|]. cbv beta iota.
  apply bind_Ok. eexists (_, _). split; [|done]. rewrite app_assoc.
  apply read_ieee_if_app; [done|]. by rewrite length_app.
Qed.

Lemma network_status_parse_encode s rest :
  is_u16 (ns_destination s) → network_status_parse (encode_network_status s ++ rest) = Ok s.
Proof.
  destruct s as [c d]. simpl. intros Hd. unfold network_status_parse; simpl.
  unfold read_u16; simpl. by rewrite u16_from_to_le.
Qed.

(** ** Link Status *)
Definition link_entry_wf (e : LinkStatusEntry) : Prop :=
  is_u16 (ls_address e) ∧ 0 <= ls_incoming_cost e < 8 ∧ 0 <= ls_outgoing_cost e < 8.

Definition link_cost_octet (e : LinkStatusEntry) : Z :=
  Z.lor (Z.land (ls_incoming_cost e) 0x07)
        (as_u8 (Z.shiftl (Z.land (ls_outgoing_cost e) 0x07) 4)).

Definition encode_link_entry (e : LinkStatusEntry) : list Z :=
  u16_to_le (ls_address e) ++ [link_cost_octet e].

Definition encode_link_entries (l : list LinkStatusEntry) : list Z :=
  concat (encode_link_entry <$> l).

Lemma length_encode_link_entries l : length (encode_link_entries l) = (3 * length l)%nat.
Proof.
  induction l as [|e l IH]; [done|].
  change (encode_link_entries (e :: l)) with (encode_link_entry e ++ encode_link_entries l).
  rewrite length_app, IH. simpl. lia.
Qed.

Lemma link_cost_octet_split inc out :
  0 <= inc < 8 → 0 <= out < 8 →
  let b := Z.lor (Z.land inc 7) (as_u8 (Z.shiftl (Z.land out 7) 4)) in
  Z.land b 7 = inc ∧ Z.land (Z.shiftr b 4) 7 = out ∧ is_u8 b.
Proof.
  intros Hi Ho. cbv zeta.
  pose proof (range_forall2 8 8 (λ inc out,
    let b := Z.lor (Z.land inc 7) (as_u8 (Z.shiftl (Z.land out 7) 4)) in
    (Z.land b 7 =? inc) && (Z.land (Z.shiftr b 4) 7 =? out) && (0 <=? b) && (b <? 256))
    eq_refl inc out Hi Ho) as H. cbv beta zeta in H. bool_simpl. unfold is_u8. split_and!; done.
Qed.

Lemma chunks3_iter_encode l :
  Forall link_entry_wf l → chunks3_iter (encode_link_entries l) = l.
Proof.
  induction 1 as [|e l (Ha & Hi & Ho) _ IH]; [done|].
  change (encode_link_entries (e :: l)) with (encode_link_entry e ++ encode_link_entries l).
  destruct (link_cost_octet_split _ _ Hi Ho) as (H1 & H2 & _). cbv zeta in *.
  simpl. unfold link_cost_octet. rewrite H1, H2, IH, u16_from_to_le by done. by destruct e.
Qed.

Lemma put_link_entries_written l pre buf i :
  i = length pre → (length pre + 3 * length l <= length buf)%nat →
  put_link_entries l (written pre buf) i = Ok (written (pre ++ encode_link_entries l) buf).
Proof.
  revert pre i. induction l as [|e l IH]; intros pre i -> Hlen.
  { simpl. by rewrite app_nil_r. }
  change (encode_link_entries (e :: l)) with (encode_link_entry e ++ encode_link_entries l).
  simpl in *. rewrite put_u16_written by lia. simpl mbind.
  rewrite put_written by (rewrite ?length_app, ?length_u16_to_le; lia). simpl mbind.
  rewrite IH by (rewrite ?length_app; simpl; lia). f_equal. f_equal.
  unfold encode_link_entry. by rewrite <- !app_assoc.
Qed.

Definition link_status_options (s : LinkStatusCommand) : Z :=
  Z.of_nat (length (lsc_entries s)) + 32 * Z.b2z (lsc_first_frame s)
  + 64 * Z.b2z (lsc_last_frame s).

Definition encode_link_status (s : LinkStatusCommand) : list Z :=
  [link_status_options s] ++ encode_link_entries (lsc_entries s).

Definition link_status_wf (s : LinkStatusCommand) : Prop :=
  Forall link_entry_wf (lsc_entries s) ∧
  (length (lsc_entries s) <= LINK_STATUS_ENTRIES_PER_FRAME)%nat.

Lemma length_encode_link_status s :
  length (encode_link_status s) = link_status_wire_size s.
Proof. unfold encode_link_status, link_status_wire_size. simpl. by rewrite length_encode_link_entries. Qed.

Lemma link_status_serialize_written s buf :
  link_status_wf s → (link_status_wire_size s <= length buf)%nat →
  link_status_serialize s buf = Ok (written (encode_link_status s) buf, link_status_wire_size s).
Proof.
  destruct s as [ff lf l]. intros [_ Hcap] Hlen. unfold link_status_serialize. cbv zeta.
  unfold LINK_STATUS_ENTRIES_PER_FRAME, link_status_wire_size in *.
  cbn [lsc_entries lsc_first_frame lsc_last_frame] in *.
  destruct (_ <? _)%nat eqn:Hc; bool_simpl; [lia|].
  unfold as_u8, LINK_STATUS_COUNT_MASK, LINK_STATUS_FIRST_FRAME, LINK_STATUS_LAST_FRAME.
  change 31 with (2 ^ 5 - 1). change 32 with (Z.shiftl 1 5). change 64 with (Z.shiftl 1 6).
  rewrite (Z.mod_small _ 256), land_ones_mod, Z.mod_small by lia.
  pose proof (b2z_range ff). pose proof (b2z_range lf).
  rewrite (lor_flag _ 5), (lor_flag _ 6) by lia.
  rewrite <- (written_nil buf) at 1. rewrite put_written by (simpl; lia). simpl mbind.
  rewrite put_link_entries_written by (simpl; lia). simpl mbind.
  do 3 f_equal.
Qed.

Lemma link_status_options_decode s :
  link_status_wf s →
  Z.land (link_status_options s) 31 = Z.of_nat (length (lsc_entries s)) ∧
  has_bits (link_status_options s) 32 = lsc_first_frame s ∧
  has_bits (link_status_options s) 64 = lsc_last_frame s.
Proof.
  destruct s as [ff lf l]. intros [_ Hcap]. unfold link_status_options; simpl in *.
  unfold LINK_STATUS_ENTRIES_PER_FRAME in Hcap.
  pose proof (range_forall 17 (λ n,
    let o := n + 32 * Z.b2z ff + 64 * Z.b2z lf in
    (Z.land o 31 =? n) && Bool.eqb (has_bits o 32) ff && Bool.eqb (has_bits o 64) lf)) as H.
  specialize (H ltac:(destruct ff, lf; done) (Z.of_nat (length l)) ltac:(lia)).
  cbv beta zeta in H. bool_simpl. split_and!; [done|by apply eqb_prop..].
Qed.

Lemma link_report_parse_encode s rest :
  link_status_wf s →
  link_report_parse (encode_link_status s ++ rest) =
  Ok (mk_LinkStatusReport (lsc_first_frame s) (lsc_last_frame s)
        (encode_link_entries (lsc_entries s))).
Proof.
  intros Hwf. destruct (link_status_options_decode s Hwf) as (H1 & H2 & H3).
  pose proof (length_encode_link_entries (lsc_entries s)) as Hl.
  unfold link_report_parse, encode_link_status, LINK_STATUS_COUNT_MASK,
    LINK_STATUS_FIRST_FRAME, LINK_STATUS_LAST_FRAME. simpl head. simpl mbind.
  rewrite H1, H2, H3, Nat2Z.id.
  destruct (_ <? _)%nat eqn:Hc; bool_simpl.
  { simpl in Hc. rewrite length_app in Hc. lia. }
  apply bind_Ok. eexists. split; [apply slice_Ok|done].
  apply (slice_get_app [link_status_options s]); simpl; lia.
Qed.

(** ** PAN identifier conflict report and update *)
Definition encode_conflict_report (s : PanIdConflictReport) : list Z :=
  [Z.of_nat (length (pcr_pan_ids s))] ++ pcr_epid s ++ encode_relays (pcr_pan_ids s).

Definition encode_pan_id_update (s : PanIdUpdate) : list Z :=
  [1] ++ pu_epid s ++ [pu_update_id s] ++ u16_to_le (pu_new_pan_id s).

(** However many identifiers a report names, the first eight are kept. *)
Lemma chunks2_pan_ids_spec l acc :
  Forall is_u16 l → (length acc <= 8)%nat →
  chunks2_pan_ids (encode_relays l) acc = take 8 (acc ++ l).
Proof.
  intros Hl. revert acc. induction Hl as [|x l Hx _ IH]; intros acc Hacc.
  { simpl. by rewrite app_nil_r, take_ge by lia. }
  change (encode_relays (x :: l)) with (u16_to_le x ++ encode_relays l). simpl.
  rewrite u16_from_to_le by done. unfold vec_push_ignore, vec_push, MAX_PAN_ID_CONFLICT_REPORT.
  destruct (_ <? _)%nat eqn:Hc; bool_simpl.
  - rewrite IH by (rewrite length_app; simpl; lia). by rewrite <- app_assoc.
  - rewrite IH by lia. rewrite !take_app_le by lia. done.
Qed.

Lemma put_pan_ids_written l pre buf i :
  i = length pre → (length pre + 2 * length l <= length buf)%nat →
  put_pan_ids l (written pre buf) i = Ok (written (pre ++ encode_relays l) buf).
Proof.
  revert pre i. induction l as [|x l IH]; intros pre i -> Hlen.
  { simpl. by rewrite app_nil_r. }
  change (encode_relays (x :: l)) with (u16_to_le x ++ encode_relays l).
  cbn [put_pan_ids length] in *. rewrite copy_written by (simpl; lia). simpl mbind.
  rewrite IH by (rewrite ?length_app; simpl; lia). by rewrite <- app_assoc.
Qed.

Lemma conflict_report_serialize_written s buf :
  ieee_wf (pcr_epid s) → (length (pcr_pan_ids s) <= 8)%nat →
  (conflict_report_wire_size s <= length buf)%nat →
  conflict_report_serialize s buf =
  Ok (written (encode_conflict_report s) buf, conflict_report_wire_size s).
Proof.
  destruct s as [epid l]. intros [He _] Hcap Hlen. unfold conflict_report_serialize. cbv zeta.
  unfold conflict_report_wire_size in *. cbn [pcr_epid pcr_pan_ids] in *.
  destruct (_ <? _)%nat eqn:Hc; bool_simpl; [lia|].
  unfold as_u8, NWK_REPORT_COUNT_MASK, NWK_REPORT_PAN_ID_CONFLICT, NWK_REPORT_ID_SHIFT.
  change 31 with (2 ^ 5 - 1).
  rewrite (Z.mod_small _ 256), land_ones_mod, Z.mod_small by lia.
  rewrite Z.shiftl_0_l, Z.mod_0_l, Z.lor_0_r by lia.
  rewrite <- (written_nil buf) at 1. rewrite put_written by (simpl; lia). simpl mbind.
  rewrite copy_written by (simpl; lia). simpl mbind.
  rewrite put_pan_ids_written by (simpl; rewrite ?He; lia). simpl mbind.
  unfold encode_conflict_report. simpl. done.
Qed.

Lemma report_id_count n :
  0 <= n < 32 → Z.land n 31 = n ∧ Z.shiftr n 5 = 0.
Proof.
  intros Hn. change 31 with (2 ^ 5 - 1). rewrite land_ones_mod, shiftr_div by lia.
  rewrite Z.mod_small, Z.div_small by (simpl; lia). done.
Qed.

Lemma conflict_report_parse_encode epid l rest :
  ieee_wf epid → (length l < 32)%nat → Forall is_u16 l →
  conflict_report_parse (encode_conflict_report (mk_PanIdConflictReport epid l) ++ rest) =
  Ok (mk_PanIdConflictReport epid (take 8 l)).
Proof.
  intros [He _] Hlen Hl. unfold encode_conflict_report, conflict_report_parse. simpl.
  rewrite !length_app, He. destruct (_ <? _)%nat eqn:Hc1; bool_simpl; [lia|].
  unfold NWK_REPORT_COUNT_MASK, NWK_REPORT_PAN_ID_CONFLICT, NWK_REPORT_ID_SHIFT.
  destruct (report_id_count (Z.of_nat (length l))) as [H1 H2]; [lia|].
  rewrite H1, H2, Nat2Z.id. simpl negb. cbv iota.
  destruct (_ <? _)%nat eqn:Hc2; bool_simpl.
  { rewrite length_encode_relays in Hc2. lia. }
  rewrite <- app_assoc. apply bind_Ok. exists epid.
  split; [apply slice_Ok, (slice_get_app [_]); simpl; lia|].
  apply bind_Ok. exists (encode_relays l). split.
  - apply slice_Ok. rewrite app_comm_cons, (app_assoc _ (encode_relays l)).
    rewrite <- (app_assoc _ (encode_relays l)).
    apply slice_get_app; simpl; rewrite ?length_encode_relays; lia.
  - rewrite (chunks2_pan_ids_spec l []); [done | done | simpl; lia].
Qed.

Lemma pan_id_update_serialize_written s buf :
  ieee_wf (pu_epid s) → (12 <= length buf)%nat →
  pan_id_update_serialize s buf = Ok (written (encode_pan_id_update s) buf, 12%nat).
Proof.
  destruct s as [epid u p]. intros [He _] Hlen. unfold pan_id_update_serialize.
  unfold PAN_ID_UPDATE_WIRE_SIZE, encode_pan_id_update. cbn [pu_epid pu_update_id pu_new_pan_id] in *.
  destruct (_ <? _)%nat eqn:Hc; bool_simpl; [lia|].
  rewrite <- (written_nil buf) at 1. rewrite put_written by (simpl; lia). simpl mbind.
  rewrite copy_written by (simpl; lia). simpl mbind.
  rewrite put_written by (simpl; lia). simpl mbind.
  rewrite copy_written by (simpl; rewrite ?length_app; simpl; lia). simpl mbind.
  simpl. by rewrite <- !app_assoc.
Qed.

Lemma pan_id_update_parse_encode s rest :
  ieee_wf (pu_epid s) → is_u16 (pu_new_pan_id s) →
  pan_id_update_parse (encode_pan_id_update s ++ rest) = Ok s.
Proof.
  destruct s as [epid u p]. intros [He _] Hp. simpl in *.
  do 8 (destruct epid as [|? epid]; [done|]). destruct epid; [|done].
  unfold pan_id_update_parse, read_u16; simpl. by rewrite u16_from_to_le.
Qed.

(** ** Leave and End Device Timeout *)
Lemma leave_parse_serialize s rest : leave_parse (leave_serialize s :: rest) = Ok s.
Proof. destruct s as [[] [] []]; done. Qed.

Lemma ed_timeout_request_roundtrip s rest :
  0 <= etq_requested_timeout s <= ED_TIMEOUT_ENUM_MAX → etq_ed_config s = 0 →
  ed_timeout_request_parse ([etq_requested_timeout s; etq_ed_config s] ++ rest) = Ok s.
Proof.
  destruct s as [t c]. simpl. intros Ht ->. unfold ed_timeout_request_parse. simpl.
  by rewrite (proj2 (Z.ltb_ge _ _)) by lia.
Qed.

Lemma ed_timeout_seconds_cases n :
  is_u8 n →
  ed_timeout_enum_to_seconds n =
  if n =? 0 then Some 10 else if n <=? 14 then Some (60 * 2 ^ n) else None.
Proof.
  intros Hn. pose proof (range_forall 256 (λ n, bool_decide (ed_timeout_enum_to_seconds n =
    if n =? 0 then Some 10 else if n <=? 14 then Some (60 * 2 ^ n) else None)) eq_refl n Hn) as H.
  by apply bool_decide_eq_true in H.
Qed.

(** * Properties *)

(** No NWK header or command parser panics, whatever octets arrive from
    the air: every index and sub-slice is within the received frame. *)
Theorem nwk_parsers_panic_free (data : list Z) :
  no_panic (header_parse data) ∧
  no_panic (leave_parse data) ∧ no_panic (rejoin_response_parse data) ∧
  no_panic (route_request_parse data) ∧ no_panic (route_reply_parse data) ∧
  no_panic (network_status_parse data) ∧ no_panic (link_report_parse data) ∧
  no_panic (conflict_report_parse data) ∧ no_panic (pan_id_update_parse data) ∧
  no_panic (ed_timeout_request_parse data) ∧ no_panic (ed_timeout_response_parse data).
Proof. split; [apply no_panic_header_parse | apply no_panic_commands]. Qed.

(** C7. The header parser accepts exactly the header grammar: it returns [h]
    and [n] if and only if [h] is well formed (protocol version 2, optional
    fields present exactly when announced, a source route with
    [relay_index < relay_count <= 16]) and the first [n] octets are the
    encoding of [h], up to the two reserved frame-control bits. *)
Theorem header_parse_exact (data : list Z) (h : NwkHeader) (n : nat) :
  Forall is_u8 data →
  header_parse data = Ok (h, n) ↔
  header_wf h ∧ ∃ r, 0 <= r < 4 ∧ slice_get data 0 n = Some (encode_header r h).
Proof.
  intros Hoct. split; [by apply header_parse_sound|].
  intros (Hwf & r & Hr & Hs). by eapply header_parse_complete.
Qed.

Definition sample_fc : NwkFrameControl :=
  mk_NwkFrameControl 0 2 1 false true true false true false.
Definition sample_ieee : IeeeAddress := [1; 2; 3; 4; 5; 6; 7; 8].
Definition sample_header : NwkHeader :=
  mk_NwkHeader sample_fc 0x1234 0x0000 30 7 None (Some sample_ieee) None
    (Some (mk_SourceRoute 2 1 [0x1111; 0x2222])).

Lemma header_parse_exact_witness :
  header_parse (encode_header 0 sample_header ++ [9; 9]) = Ok (sample_header, 22%nat).
Proof.
  apply (header_parse_exact _ sample_header 22); [repeat constructor; done|].
  split; [repeat split; try done; repeat constructor; done|].
  exists 0. split; [lia|]. reflexivity.
Defined.

(** Header serialization round-trips: into any buffer large enough, the
    serializer writes only the header, leaves the rest of the buffer alone,
    and the parser recovers the header and its length. *)
Theorem header_roundtrip (h : NwkHeader) (buf : list Z) :
  header_wf h → Forall is_u8 buf → (length (encode_header 0 h) <= length buf)%nat →
  ∃ out n, header_serialize (E:=Empty_set) h buf = Ok (out, n) ∧
    length out = length buf ∧ drop n out = drop n buf ∧
    header_parse out = Ok (h, n).
Proof.
  intros Hwf Hbuf Hlen. eexists _, _.
  split; [by apply header_serialize_written|].
  split_and!; [by apply length_written|by apply drop_written|].
  eapply (header_parse_complete _ _ _ 0); [|done|lia|apply written_slice].
  apply written_octets; [by apply encode_header_octets|done].
Qed.

Lemma header_roundtrip_witness :
  ∃ out n, header_serialize (E:=Empty_set) sample_header (replicate 30 0) = Ok (out, n) ∧
    length out = 30%nat ∧ drop n out = drop n (replicate 30 0) ∧
    header_parse out = Ok (sample_header, n).
Proof.
  apply (header_roundtrip sample_header (replicate 30 0));
    [repeat split; try done; repeat constructor; done|repeat constructor; done|].
  vm_compute. lia.
Defined.

(** Route Request, Route Reply and Network Status commands round-trip
    through their serializers and parsers, with anything after them. *)
Theorem route_commands_roundtrip (rq : RouteRequest) (rp : RouteReply)
    (ns : NetworkStatusCommand) (buf : list Z) :
  route_request_wf rq → route_reply_wf rp → is_u16 (ns_destination ns) →
  (length (encode_route_request rq) <= length buf)%nat →
  (length (encode_route_reply rp) <= length buf)%nat → (3 <= length buf)%nat →
  (∃ out n, route_request_serialize (E:=Empty_set) rq buf = Ok (out, n) ∧
     drop n out = drop n buf ∧ route_request_parse out = Ok rq) ∧
  (∃ out n, route_reply_serialize (E:=Empty_set) rp buf = Ok (out, n) ∧
     drop n out = drop n buf ∧ route_reply_parse out = Ok rp) ∧
  (∃ out n, network_status_serialize (E:=Empty_set) ns buf = Ok (out, n) ∧
     drop n out = drop n buf ∧ network_status_parse out = Ok ns).
Proof.
  intros Hrq Hrp Hns H1 H2 H3. split_and!; eexists _, _.
  - split; [by apply route_request_serialize_written|].
    split; [by apply drop_written|by apply route_request_parse_encode].
  - split; [by apply route_reply_serialize_written|].
    split; [by apply drop_written|by apply route_reply_parse_encode].
  - split; [by apply network_status_serialize_written|].
    split; [by apply drop_written|by apply network_status_parse_encode].
Qed.

Lemma route_commands_roundtrip_witness :
  ∃ out n, route_reply_serialize (E:=Empty_set)
      (mk_RouteReply 0x30 1 2 3 4 (Some sample_ieee) (Some sample_ieee)) (replicate 40 0)
    = Ok (out, n) ∧
    route_reply_parse out = Ok (mk_RouteReply 0x30 1 2 3 4 (Some sample_ieee) (Some sample_ieee)).
Proof.
  destruct (route_commands_roundtrip (mk_RouteRequest 0x20 1 2 3 (Some sample_ieee))
    (mk_RouteReply 0x30 1 2 3 4 (Some sample_ieee) (Some sample_ieee))
    (mk_NetworkStatusCommand 0 5) (replicate 40 0)) as (_ & (out & n & ? & _ & ?) & _);
    [repeat split; try done; repeat constructor; done..| | | |].
  - simpl; lia.
  - simpl; lia.
  - simpl; lia.
  - by exists out, n.
Defined.

(** A Link Status command written by a sender is read back by a receiver
    with the same flags and the same entries; a buffer that is too short is
    refused without a partial list. *)
Theorem link_status_roundtrip (s : LinkStatusCommand) (buf : list Z) :
  link_status_wf s →
  if (length buf <? link_status_wire_size s)%nat
  then link_status_serialize s buf = Err tt
  else ∃ out r, link_status_serialize s buf = Ok (out, link_status_wire_size s) ∧
    drop (link_status_wire_size s) out = drop (link_status_wire_size s) buf ∧
    link_report_parse out = Ok r ∧
    lr_first_frame r = lsc_first_frame s ∧ lr_last_frame r = lsc_last_frame s ∧
    link_report_iter r = lsc_entries s ∧ link_report_len r = length (lsc_entries s).
Proof.
  intros Hwf. destruct (_ <? _)%nat eqn:Hlen.
  { unfold link_status_serialize. by rewrite Hlen. }
  bool_simpl. eexists _, _. split; [by apply link_status_serialize_written|].
  split; [apply drop_written; by rewrite length_encode_link_status|].
  split; [by apply link_report_parse_encode|]. simpl.
  split_and!; [done..| |].
  - apply chunks3_iter_encode, Hwf.
  - unfold link_report_len. cbn [lr_entries].
    rewrite length_encode_link_entries, Nat.mul_comm. by apply Nat.div_mul.
Qed.

Lemma link_status_roundtrip_witness :
  let s := mk_LinkStatusCommand true false [mk_LinkStatusEntry 5 1 3; mk_LinkStatusEntry 0x1234 7 0] in
  ∃ out r, link_status_serialize s (replicate 9 0) = Ok (out, 7%nat) ∧
    link_report_parse out = Ok r ∧ link_report_iter r = lsc_entries s.
Proof.
  intros s. destruct (link_status_roundtrip s (replicate 9 0)) as (out & r & ? & _ & ? & _ & _ & ? & _).
  { split; [repeat constructor; done|]. vm_compute. lia. }
  by exists out, r.
Defined.

(** ** Coverage of a Link Status report *)
Lemma chunks3_iter_address l e :
  Forall is_u8 l → e ∈ chunks3_iter l → is_u16 (ls_address e).
Proof.
  induction l as [l IH] using (induction_ltof1 _ (@length Z)). unfold ltof in IH.
  destruct l as [|a [|b [|c l]]]; simpl; try by intros _ ?%elem_of_nil.
  rewrite !Forall_cons. intros (Ha & Hb & Hc & Hl) [->|He]%elem_of_cons; simpl.
  - by apply u16_from_le_range.
  - apply (IH l); [simpl; lia|done|done].
Qed.

Lemma sorted_le_last (x : LinkStatusEntry) l e :
  StronglySorted Z.lt (ls_address <$> x :: l) → e ∈ x :: l →
  ls_address x <= ls_address e <= ls_address (default x (last l)).
Proof.
  revert x e. induction l as [|y l IH]; intros x e Hs He.
  { apply list_elem_of_singleton in He as ->. simpl. lia. }
  apply StronglySorted_inv in Hs as [Hs Hx].
  assert (default x (last (y :: l)) = default y (last l)) as ->.
  { destruct l as [|z l]; [done|]. change (last (y :: z :: l)) with (last (z :: l)).
    destruct (last (z :: l)) eqn:Hl; [done|]. by apply last_None in Hl. }
  apply elem_of_cons in He as [->|He].
  - specialize (IH y y Hs ltac:(left)). apply Forall_cons in Hx as [? _]. lia.
  - specialize (IH y e Hs He). apply Forall_cons in Hx as [? _]. lia.
Qed.

(** When a sender lists its neighbours in ascending address order (as the
    protocol requires), a report covers every address it lists, so a listed
    cost is never ignored; a report that is both first and last frame covers
    every address. *)
Theorem link_report_covers_listed (r : LinkStatusReport) (a cost : Z) :
  Forall is_u8 (lr_entries r) →
  StronglySorted Z.lt (ls_address <$> link_report_iter r) →
  (link_report_incoming_cost_for r a = Some cost → link_report_covers r a = true) ∧
  (lr_first_frame r = true → lr_last_frame r = true → is_u16 a → link_report_covers r a = true).
Proof.
  intros Hoct Hs. unfold link_report_incoming_cost_for, link_report_covers, link_report_iter in *.
  split.
  - rewrite find_position. intros (e & Hf & _)%fmap_Some.
    apply bind_Some in Hf as (i & (x & Hx & Ha & _)%position_Some & Hi).
    rewrite Hx in Hi. injection Hi as ->. apply Z.eqb_eq in Ha.
    assert (e ∈ chunks3_iter (lr_entries r)) as He by (by eapply list_elem_of_lookup_2).
    pose proof (chunks3_iter_address _ _ Hoct He) as Hu.
    destruct (chunks3_iter (lr_entries r)) as [|x l]; [by apply elem_of_nil in He|].
    pose proof (sorted_le_last _ _ _ Hs He) as Hb. rewrite Ha in *. unfold is_u16 in Hu.
    apply andb_true_iff. rewrite !Z.leb_le. destruct (lr_first_frame r), (lr_last_frame r); lia.
  - intros -> -> Ha. unfold is_u16 in Ha. destruct (chunks3_iter _) as [|x l]; [done|].
    apply andb_true_iff. rewrite !Z.leb_le. lia.
Qed.

Lemma link_report_covers_listed_witness :
  link_report_covers (mk_LinkStatusReport false false [5; 0; 0x31; 8; 0; 0x12]) 8 = true.
Proof.
  refine (proj1 (link_report_covers_listed
    (mk_LinkStatusReport false false [5; 0; 0x31; 8; 0; 0x12]) 8 2 _ _) _).
  - repeat constructor; done.
  - repeat (constructor; simpl; try lia).
  - reflexivity.
Defined.

(** PAN identifier management commands: a conflict report naming up to 31
    PAN identifiers is accepted and its first eight are kept (a report this
    stack can send comes back unchanged), and a PAN identifier update
    round-trips. *)
Theorem pan_id_commands_roundtrip (epid : IeeeAddress) (ids : list PanId) (u : PanIdUpdate)
    (buf : list Z) :
  ieee_wf epid → Forall is_u16 ids → (length ids < 32)%nat →
  ieee_wf (pu_epid u) → is_u16 (pu_new_pan_id u) →
  let s := mk_PanIdConflictReport epid (take 8 ids) in
  conflict_report_parse (encode_conflict_report (mk_PanIdConflictReport epid ids) ++ buf) = Ok s ∧
  ((conflict_report_wire_size s <= length buf)%nat →
   ∃ out, conflict_report_serialize s buf = Ok (out, conflict_report_wire_size s) ∧
     conflict_report_parse out = Ok s) ∧
  ((PAN_ID_UPDATE_WIRE_SIZE <= length buf)%nat →
   ∃ out, pan_id_update_serialize u buf = Ok (out, PAN_ID_UPDATE_WIRE_SIZE) ∧
     pan_id_update_parse out = Ok u).
Proof.
  intros He Hids Hlen Hu Hp s. split; [by apply conflict_report_parse_encode|]. split.
  - intros Hbuf. eexists. split.
    { apply conflict_report_serialize_written; [done| |done]. simpl. rewrite length_take. lia. }
    unfold s, written. rewrite conflict_report_parse_encode;
      [|done|rewrite length_take; lia|by apply Forall_take].
    by rewrite take_take.
  - intros Hbuf. eexists. split; [by apply pan_id_update_serialize_written|].
    by apply pan_id_update_parse_encode.
Qed.

Lemma pan_id_commands_roundtrip_witness :
  conflict_report_parse
    ([9] ++ sample_ieee ++ encode_relays [1; 2; 3; 4; 5; 6; 7; 8; 9] ++ replicate 30 0)
  = Ok (mk_PanIdConflictReport sample_ieee [1; 2; 3; 4; 5; 6; 7; 8]).
Proof.
  apply (pan_id_commands_roundtrip sample_ieee [1; 2; 3; 4; 5; 6; 7; 8; 9]
    (mk_PanIdUpdate sample_ieee 3 0x1234) (replicate 30 0));
    try (repeat split; try done; repeat constructor; done); simpl; try lia.
Defined.
