(* ===== verification/NwkAddressMap.v ===== *)
(** The NWK address map: [zigbee-nwk/src/address_map.rs] (router build).

    The map is a bounded vector of IEEE/short pairs in least-recently-updated
    order.  The invariant [am_wf] is that neither address occurs twice and
    that the vector is within its capacity; every reachable map satisfies it,
    so the two lookups are inverse to each other. *)
From S2P Require Import Prelude.
From S2P Require Import ZigbeeTypes.

Local Open Scope Z_scope.

Definition MAX_ADDRESS_MAP_ENTRIES : nat := 32.

Record AddressMapEntry := mk_AddressMapEntry {
  am_network_address : ShortAddress; am_ieee_address : IeeeAddress }.

#[export] Instance AddressMapEntry_eq_dec : EqDecision AddressMapEntry.
Proof. solve_decision. Defined.

Abbreviation AddressMap := (list AddressMapEntry) (only parsing).

Definition am_new : AddressMap := [].

Definition am_ieee_of (m : AddressMap) (short : ShortAddress) : option IeeeAddress :=
  am_ieee_address <$> List.find (λ e, am_network_address e =? short) m.

Definition am_short_of (m : AddressMap) (ieee : IeeeAddress) : option ShortAddress :=
  am_network_address <$> List.find (λ e, ieee_eqb (am_ieee_address e) ieee) m.

Definition am_update (m : AddressMap) (short : ShortAddress) (ieee : IeeeAddress) : AddressMap :=
  let m := retain (λ e, negb (am_network_address e =? short)
                        && negb (ieee_eqb (am_ieee_address e) ieee)) m in
  let m := if (length m =? MAX_ADDRESS_MAP_ENTRIES)%nat then vec_remove m 0 else m in
  vec_push_ignore MAX_ADDRESS_MAP_ENTRIES m (mk_AddressMapEntry short ieee).

Definition am_remove (m : AddressMap) (short : ShortAddress) : AddressMap :=
  retain (λ e, negb (am_network_address e =? short)) m.

Definition am_clear (m : AddressMap) : AddressMap := [].

Definition am_len (m : AddressMap) : nat := length m.

Definition am_is_empty (m : AddressMap) : bool := (am_len m =? 0)%nat.

(** * Invariant and reachable maps *)
Definition am_wf (m : AddressMap) : Prop :=
  NoDup (am_network_address <$> m) ∧ NoDup (am_ieee_address <$> m) ∧
  (length m <= MAX_ADDRESS_MAP_ENTRIES)%nat.

Inductive am_reachable : AddressMap → Prop :=
| am_reach_new : am_reachable am_new
| am_reach_update m short ieee : am_reachable m → am_reachable (am_update m short ieee)
| am_reach_remove m short : am_reachable m → am_reachable (am_remove m short)
| am_reach_clear m : am_reachable m → am_reachable (am_clear m).

Lemma am_wf_sublist m m' : sublist m' m → am_wf m → am_wf m'.
Proof.
  intros Hs (H1 & H2 & H3). split_and!.
  - eapply sublist_NoDup; [exact H1|]. by apply fmap_sublist.
  - eapply sublist_NoDup; [exact H2|]. by apply fmap_sublist.
  - apply sublist_length in Hs. lia.
Qed.

(** The vector that [am_update] pushes onto. *)
Definition am_update_base (m : AddressMap) (short : ShortAddress) (ieee : IeeeAddress) : AddressMap :=
  let m := retain (λ e, negb (am_network_address e =? short)
                        && negb (ieee_eqb (am_ieee_address e) ieee)) m in
  if (length m =? MAX_ADDRESS_MAP_ENTRIES)%nat then vec_remove m 0 else m.

Lemma am_update_base_spec m short ieee :
  am_wf m →
  let b := am_update_base m short ieee in
  am_update m short ieee = b ++ [mk_AddressMapEntry short ieee] ∧
  sublist b m ∧ (length b < MAX_ADDRESS_MAP_ENTRIES)%nat ∧
  (∀ e, e ∈ b → am_network_address e ≠ short ∧ am_ieee_address e ≠ ieee).
Proof.
  intros (_ & _ & Hlen). unfold am_update, am_update_base. cbv zeta.
  set (r := retain _ m).
  assert (sublist r m) as Hr by apply retain_sublist.
  set (b := if (length r =? _)%nat then _ else _).
  assert (sublist b r) as Hb by (unfold b; case_match; [apply vec_remove_0_sublist|done]).
  pose proof (sublist_length _ _ Hr). pose proof (sublist_length _ _ Hb).
  assert (length b < MAX_ADDRESS_MAP_ENTRIES)%nat as Hlt.
  { subst b. destruct (_ =? _)%nat eqn:Hc; bool_simpl; [|lia].
    change (vec_remove r 0) with (drop 1 r). rewrite length_drop.
    unfold MAX_ADDRESS_MAP_ENTRIES in *. lia. }
  split_and!; [|by etrans|done|].
  - unfold vec_push_ignore, vec_push. by rewrite (proj2 (Nat.ltb_lt _ _)) by done.
  - intros e He. eapply elem_of_sublist in Hb; [|exact He].
    apply elem_of_retain in Hb as [_ Hp]. unfold ieee_eqb in Hp. by bool_simpl.
Qed.

Lemma am_update_base_elem m short ieee e :
  am_wf m →
  let others := retain (λ e, negb (am_network_address e =? short)
                             && negb (ieee_eqb (am_ieee_address e) ieee)) m in
  e ∈ am_update_base m short ieee ↔
  e ∈ others ∧ (length others = MAX_ADDRESS_MAP_ENTRIES → head others ≠ Some e).
Proof.
  intros Hwf others. unfold am_update_base. cbv zeta. fold others.
  assert (NoDup others) as Hnd.
  { eapply NoDup_fmap_1, am_wf_sublist; [apply retain_sublist|done]. }
  destruct (_ =? _)%nat eqn:Hc; bool_simpl; [|naive_solver].
  change (vec_remove others 0) with (drop 1 others).
  destruct others as [|x l]; [done|]. simpl. rewrite drop_0, elem_of_cons.
  apply NoDup_cons in Hnd as [Hx _]. split.
  - intros He. split; [by right|]. intros _ [= ->]. done.
  - intros [[->|?] Hne]; [|done]. by destruct Hne.
Qed.

Lemma am_wf_update m short ieee : am_wf m → am_wf (am_update m short ieee).
Proof.
  intros Hwf. destruct (am_update_base_spec m short ieee Hwf) as (-> & Hs & Hlen & Hne).
  set (b := am_update_base m short ieee) in *.
  destruct (am_wf_sublist _ _ Hs Hwf) as (H1 & H2 & H3).
  split_and!; [| |rewrite length_app; simpl; lia]; rewrite fmap_app; apply NoDup_app;
    (split_and!; [done| |apply NoDup_singleton]);
    intros x (e & -> & He)%list_elem_of_fmap Hx%list_elem_of_singleton; naive_solver.
Qed.

Lemma am_reachable_wf m : am_reachable m → am_wf m.
Proof.
  induction 1.
  - split_and!; [constructor..|]. unfold MAX_ADDRESS_MAP_ENTRIES. simpl. lia.
  - by apply am_wf_update.
  - eapply am_wf_sublist; [apply retain_sublist|done].
  - eapply am_wf_sublist; [apply sublist_nil_l|done].
Qed.

Lemma am_ieee_of_Some m short ieee :
  am_wf m → am_ieee_of m short = Some ieee ↔ mk_AddressMapEntry short ieee ∈ m.
Proof.
  intros (H1 & _ & _). unfold am_ieee_of. rewrite fmap_Some. split.
  - intros (e & He & ->). apply (find_unique am_network_address _ short) in He; [|by intros; apply Z.eqb_eq|done].
    destruct He as [He <-]. by destruct e.
  - intros He. exists (mk_AddressMapEntry short ieee). split; [|reflexivity].
    apply (find_unique am_network_address _ short); [by intros; apply Z.eqb_eq|done|done].
Qed.

Lemma am_short_of_Some m short ieee :
  am_wf m → am_short_of m ieee = Some short ↔ mk_AddressMapEntry short ieee ∈ m.
Proof.
  intros (_ & H2 & _). unfold am_short_of. rewrite fmap_Some.
  assert (∀ e, ieee_eqb (am_ieee_address e) ieee = true ↔ am_ieee_address e = ieee) as Heq
    by (intros; apply bool_decide_eq_true). split.
  - intros (e & He & ->). apply (find_unique am_ieee_address _ ieee) in He; [|done|done].
    destruct He as [He <-]. by destruct e.
  - intros He. exists (mk_AddressMapEntry short ieee). split; [|reflexivity]. by apply (find_unique am_ieee_address _ ieee).
Qed.

(** * Properties *)

(** In every map reached from an empty one by updates, removals and
    clears, the lookups by network address and by IEEE address are inverse to
    each other, and the map never exceeds its 32 entries. *)
Theorem address_map_bijection (m : AddressMap) (short : ShortAddress) (ieee : IeeeAddress) :
  am_reachable m →
  (am_ieee_of m short = Some ieee ↔ am_short_of m ieee = Some short) ∧
  (am_len m <= MAX_ADDRESS_MAP_ENTRIES)%nat.
Proof.
  intros Hr%am_reachable_wf. split; [|apply Hr].
  by rewrite am_ieee_of_Some, am_short_of_Some.
Qed.

Lemma address_map_bijection_witness :
  am_short_of (am_update (am_update am_new 1 [1]) 2 [1]) [1] = Some 2.
Proof.
  apply (address_map_bijection _ 2 [1]);
    [repeat constructor|reflexivity].
Defined.

(** Recording a pairing makes both lookups return it, forgets every other
    pair that named either address, and keeps every other pair unless the map
    was full of other pairs, in which case only the least recently updated
    one is forgotten. *)
Theorem address_map_update_spec (m : AddressMap) (short : ShortAddress) (ieee : IeeeAddress) :
  am_reachable m →
  let m' := am_update m short ieee in
  let others := retain (λ e, negb (am_network_address e =? short)
                             && negb (ieee_eqb (am_ieee_address e) ieee)) m in
  am_ieee_of m' short = Some ieee ∧ am_short_of m' ieee = Some short ∧
  (∀ s i, s ≠ short → i ≠ ieee →
     am_ieee_of m' s = Some i ↔
     am_ieee_of m s = Some i ∧
     (length others = MAX_ADDRESS_MAP_ENTRIES → head others ≠ Some (mk_AddressMapEntry s i))) ∧
  (∀ s, s ≠ short → am_ieee_of m' s ≠ Some ieee) ∧
  (∀ i, i ≠ ieee → am_short_of m' i ≠ Some short).
Proof.
  intros Hm%am_reachable_wf m' others.
  pose proof (am_wf_update m short ieee Hm) as Hm'.
  destruct (am_update_base_spec m short ieee Hm) as (Heq & Hs & Hlen & Hne).
  fold m' in Hm', Heq.
  assert (mk_AddressMapEntry short ieee ∈ m') as Hin by (rewrite Heq; set_solver).
  assert (∀ s i, mk_AddressMapEntry s i ∈ m' → s = short ↔ i = ieee) as Hiff.
  { intros s i. rewrite Heq, elem_of_app, list_elem_of_singleton.
    intros [[? ?]%Hne|[= -> ->]]; simpl in *; done. }
  setoid_rewrite am_short_of_Some; [|done..]. setoid_rewrite am_ieee_of_Some; [|done..].
  split_and!; [done|done| | |].
  - intros s i Hs' Hi. rewrite Heq, elem_of_app, list_elem_of_singleton.
    rewrite am_update_base_elem by done. fold others.
    assert (mk_AddressMapEntry s i ∈ others ↔ mk_AddressMapEntry s i ∈ m) as ->.
    { unfold others. rewrite elem_of_retain. simpl. unfold ieee_eqb.
      rewrite (proj2 (Z.eqb_neq _ _)), bool_decide_false by done. naive_solver. }
    split; [intros [?|[= -> ->]]; done|by left].
  - intros s Hs' Hin'. by apply Hs', (Hiff s ieee).
  - intros i Hi' Hin'. by apply Hi', (Hiff short i).
Qed.

Lemma address_map_update_spec_witness :
  am_ieee_of (am_update (am_update am_new 1 [1]) 2 [1]) 1 ≠ Some [1].
Proof.
  destruct (address_map_update_spec (am_update am_new 1 [1]) 2 [1]) as (_ & _ & _ & H & _);
    [repeat constructor|]. by apply H.
Defined.
