(* ===== verification/NwkIndirect.v ===== *)
(** The indirect frame queue: [zigbee-nwk/src/indirect.rs] (router build).

    A router keeps frames for its sleeping children in an array of eight slots
    with a wrapping order counter.  The abstract contract is one FIFO list of
    transactions; [repr] relates a slot array to the list it stands for, and
    the refinement theorems show that each operation on the array implements
    the list operation, whatever slots are reused. *)
From S2P Require Import Prelude.
From S2P Require Import ZigbeeTypes.

Local Open Scope Z_scope.

Definition MAX_INDIRECT : nat := 8.
Definition MAX_FRAME_SIZE : nat := 128.

Inductive IndirectFrameKind :=
| IkData
| IkNetworkKeyUpdate (n : Z)
| IkChildUpdate
| IkRejoinResponse
| IkLeave.

#[export] Instance IndirectFrameKind_eq_dec : EqDecision IndirectFrameKind.
Proof. solve_decision. Defined.

Definition kind_eqb (a b : IndirectFrameKind) : bool := bool_decide (a = b).

Record IndirectEntry := mk_IndirectEntry {
  ie_dst_addr : ShortAddress;
  ie_frame : list Z;
  ie_len : nat;
  ie_kind : IndirectFrameKind;
  ie_ttl : Z;
  ie_order : Z;
  ie_active : bool }.

Definition ie_empty : IndirectEntry :=
  mk_IndirectEntry 0xFFFF (replicate MAX_FRAME_SIZE 0) 0 IkData 0 0 false.

#[export] Instance IndirectEntry_inhabited : Inhabited IndirectEntry := populate ie_empty.

Definition ie_deactivate (e : IndirectEntry) : IndirectEntry :=
  mk_IndirectEntry (ie_dst_addr e) (ie_frame e) (ie_len e) (ie_kind e) (ie_ttl e)
    (ie_order e) false.

Record IndirectQueue := mk_IndirectQueue {
  iq_entries : list IndirectEntry; iq_next_order : Z }.

(** The owned snapshot returned by [peek]. *)
Record PendingIndirectFrame := mk_PendingIndirectFrame {
  pf_frame : list Z; pf_len : nat; pf_kind : IndirectFrameKind }.

Definition pf_as_slice {E} (p : PendingIndirectFrame) : outcome E (list Z) :=
  slice (pf_frame p) 0 (pf_len p).

(** [entry.active && entry.dst_addr == child] *)
Definition waits_for (child : ShortAddress) (e : IndirectEntry) : bool :=
  ie_active e && (ie_dst_addr e =? child).

Definition iq_new : IndirectQueue := mk_IndirectQueue (replicate MAX_INDIRECT ie_empty) 0.

Definition iq_enqueue_tagged_with_slot (q : IndirectQueue) (dst : ShortAddress)
    (frame : list Z) (kind : IndirectFrameKind) : fallible (nat * IndirectQueue) :=
  if (MAX_FRAME_SIZE <? length frame)%nat then Err tt else
  index_ ← try_opt (position (λ e, negb (ie_active e)) (iq_entries q));
  entry ← index (iq_entries q) index_;
  bytes ← copy_from_slice (ie_frame entry) 0 (length frame) frame;
  let entry := mk_IndirectEntry dst bytes (length frame) kind 8 (iq_next_order q) true in
  entries ← put (iq_entries q) index_ entry;
  Ok (index_, mk_IndirectQueue entries (wrapping_add_u32 (iq_next_order q) 1)).

Definition iq_enqueue_with_slot (q : IndirectQueue) (dst : ShortAddress) (frame : list Z)
    : fallible (nat * IndirectQueue) :=
  iq_enqueue_tagged_with_slot q dst frame IkData.

(** [enqueue]: the boolean result and the queue afterwards. *)
Definition iq_enqueue {E} (q : IndirectQueue) (dst : ShortAddress) (frame : list Z)
    : outcome E (bool * IndirectQueue) :=
  match iq_enqueue_with_slot q dst frame with
  | Ok (_, q') => Ok (true, q')
  | Err _ => Ok (false, q)
  | Panic => Panic
  end.

Definition iq_oldest_index (q : IndirectQueue) (child : ShortAddress) : option nat :=
  fst <$> max_position (waits_for child)
            (λ e, wrapping_sub_u32 (iq_next_order q) (ie_order e)) (iq_entries q).

Definition iq_remove_slot (q : IndirectQueue) (i : nat) : IndirectQueue :=
  mk_IndirectQueue (alter ie_deactivate i (iq_entries q)) (iq_next_order q).

Definition iq_has_pending (q : IndirectQueue) (child : ShortAddress) : bool :=
  existsb (waits_for child) (iq_entries q).

Definition iq_dequeue (q : IndirectQueue) (child : ShortAddress)
    : fallible ((list Z * bool) * IndirectQueue) :=
  idx ← try_opt (iq_oldest_index q child);
  _ ← index (iq_entries q) idx;
  let q := iq_remove_slot q idx in
  let has_more := existsb (waits_for child) (iq_entries q) in
  e ← index (iq_entries q) idx;
  bytes ← slice (ie_frame e) 0 (ie_len e);
  Ok ((bytes, has_more), q).

Definition iq_peek (q : IndirectQueue) (child : ShortAddress) : fallible PendingIndirectFrame :=
  i ← try_opt (iq_oldest_index q child);
  entry ← index (iq_entries q) i;
  src ← slice (ie_frame entry) 0 (ie_len entry);
  frame ← copy_from_slice (replicate MAX_FRAME_SIZE 0) 0 (ie_len entry) src;
  Ok (mk_PendingIndirectFrame frame (ie_len entry) (ie_kind entry)).

Definition iq_complete_one (q : IndirectQueue) (child : ShortAddress)
    : fallible (bool * IndirectQueue) :=
  i ← try_opt (iq_oldest_index q child);
  _ ← index (iq_entries q) i;
  let q := iq_remove_slot q i in
  Ok (iq_has_pending q child, q).

Definition iq_has_pending_kind (q : IndirectQueue) (child : ShortAddress)
    (kind : IndirectFrameKind) : bool :=
  existsb (λ e, waits_for child e && kind_eqb (ie_kind e) kind) (iq_entries q).

Definition iq_pending_count (q : IndirectQueue) (child : ShortAddress) : nat :=
  count (waits_for child) (iq_entries q).

Definition iq_remove_all (q : IndirectQueue) (child : ShortAddress) : IndirectQueue :=
  mk_IndirectQueue
    ((λ e, if waits_for child e then ie_deactivate e else e) <$> iq_entries q)
    (iq_next_order q).

Definition iq_remove_kind (q : IndirectQueue) (child : ShortAddress) (kind : IndirectFrameKind)
    : bool * IndirectQueue :=
  let sel := λ e, waits_for child e && kind_eqb (ie_kind e) kind in
  (existsb sel (iq_entries q),
   mk_IndirectQueue ((λ e, if sel e then ie_deactivate e else e) <$> iq_entries q)
     (iq_next_order q)).

Definition iq_pending_children (q : IndirectQueue) : list ShortAddress :=
  ie_dst_addr <$> List.filter ie_active (iq_entries q).

(** One iteration of [age] on an entry: its new value. *)
Definition ie_age (e : IndirectEntry) : IndirectEntry :=
  if ie_active e then
    let ttl := saturating_sub (ie_ttl e) 1 in
    mk_IndirectEntry (ie_dst_addr e) (ie_frame e) (ie_len e) (ie_kind e) ttl (ie_order e)
      (negb (ttl =? 0))
  else e.

Fixpoint iq_age_loop (entries : list IndirectEntry) (expired : list ShortAddress)
    : list IndirectEntry * list ShortAddress :=
  match entries with
  | [] => ([], expired)
  | e :: entries =>
      let e' := ie_age e in
      let expired :=
        if ie_active e && (ie_ttl e' =? 0) then
          if existsb (Z.eqb (ie_dst_addr e)) expired then expired
          else vec_push_ignore MAX_INDIRECT expired (ie_dst_addr e)
        else expired in
      let '(entries', expired) := iq_age_loop entries expired in
      (e' :: entries', expired)
  end.

Definition iq_age (q : IndirectQueue) : list ShortAddress * IndirectQueue :=
  let '(entries, expired) := iq_age_loop (iq_entries q) [] in
  (expired, mk_IndirectQueue entries (iq_next_order q)).

(** * The abstract queue *)
Record tx := mk_tx {
  tx_dst : ShortAddress; tx_frame : list Z; tx_kind : IndirectFrameKind; tx_ttl : Z }.

Definition tx_for (child : ShortAddress) (t : tx) : bool := tx_dst t =? child.

(** Remove the first transaction for [child]. *)
Fixpoint aq_pop (child : ShortAddress) (a : list tx) : list tx :=
  match a with
  | [] => []
  | t :: a => if tx_for child t then a else t :: aq_pop child a
  end.

Definition aq_tick (a : list tx) : list tx :=
  (λ t, mk_tx (tx_dst t) (tx_frame t) (tx_kind t) (tx_ttl t - 1)) <$>
  List.filter (λ t, 1 <? tx_ttl t) a.

(** * The representation relation *)
Definition ie_tx (e : IndirectEntry) : tx :=
  mk_tx (ie_dst_addr e) (take (ie_len e) (ie_frame e)) (ie_kind e) (ie_ttl e).

Definition slot_age (q : IndirectQueue) (i : nat) : Z :=
  wrapping_sub_u32 (iq_next_order q) (ie_order (iq_entries q !!! i)).

Definition ie_wf (e : IndirectEntry) : Prop :=
  length (ie_frame e) = MAX_FRAME_SIZE ∧ (ie_len e <= MAX_FRAME_SIZE)%nat ∧
  is_u32 (ie_order e) ∧ (ie_active e = true → 0 < ie_ttl e <= 8).

Definition iq_wf (q : IndirectQueue) : Prop :=
  length (iq_entries q) = MAX_INDIRECT ∧ is_u32 (iq_next_order q) ∧
  Forall ie_wf (iq_entries q).

(** [slots] lists the occupied slots, oldest first. *)
Definition fifo (q : IndirectQueue) (slots : list nat) : Prop :=
  NoDup slots ∧
  (∀ i, i ∈ slots ↔ (i < length (iq_entries q))%nat ∧ ie_active (iq_entries q !!! i) = true) ∧
  StronglySorted (λ i j, slot_age q j < slot_age q i) slots ∧
  (∀ i, i ∈ slots → 0 < slot_age q i).

Definition repr (q : IndirectQueue) (a : list tx) : Prop :=
  iq_wf q ∧ ∃ slots, fifo q slots ∧ a = (λ i, ie_tx (iq_entries q !!! i)) <$> slots.

(** No queued frame has seen [2^32 - 1] later enqueues. *)
Definition no_order_wrap (q : IndirectQueue) : Prop :=
  ∀ i, (i < length (iq_entries q))%nat → ie_active (iq_entries q !!! i) = true →
    slot_age q i < 4294967295.

(** ** Sublists of the slot list *)
Lemma StronglySorted_filter {A} (R : A → A → Prop) (P : A → Prop) `{∀ x, Decision (P x)} l :
  StronglySorted R l → StronglySorted R (filter P l).
Proof.
  induction 1 as [|x l Hl IH Hx]; [constructor|].
  rewrite filter_cons. case_decide; [|done]. constructor; [done|].
  rewrite Forall_forall in *. intros y [_ Hy]%list_elem_of_filter. auto.
Qed.

Lemma StronglySorted_impl {A} (R R' : A → A → Prop) l :
  (∀ x y, x ∈ l → y ∈ l → R x y → R' x y) → StronglySorted R l → StronglySorted R' l.
Proof.
  intros Himpl Hs. induction Hs as [|x l Hl IH Hx]; [constructor|]. constructor.
  - apply IH. intros y z ? ?. apply Himpl; by right.
  - rewrite Forall_forall in *. intros y Hy. apply Himpl; [by left|by right|auto].
Qed.

(** An operation that only clears [active] bits and keeps the order numbers
    keeps the remaining slots in FIFO order. *)
Lemma fifo_shrink q q' slots :
  fifo q slots →
  length (iq_entries q') = length (iq_entries q) → iq_next_order q' = iq_next_order q →
  (∀ i, (i < length (iq_entries q))%nat →
     ie_order (iq_entries q' !!! i) = ie_order (iq_entries q !!! i) ∧
     (ie_active (iq_entries q' !!! i) = true → ie_active (iq_entries q !!! i) = true)) →
  fifo q' (filter (λ i, ie_active (iq_entries q' !!! i) = true) slots).
Proof.
  intros (Hnd & Hin & Hs & Hpos) Hlen Hnext Hpt.
  assert (∀ i, i ∈ slots → slot_age q' i = slot_age q i) as Hage.
  { intros i Hi. apply Hin in Hi as [Hi _]. unfold slot_age. rewrite Hnext.
    by destruct (Hpt i Hi) as [-> _]. }
  split_and!.
  - by apply NoDup_filter.
  - intros i. rewrite list_elem_of_filter, Hin, Hlen. split; [tauto|]. intros [Hi Ha].
    split_and!; [done..|]. by apply Hpt.
  - apply StronglySorted_filter. eapply StronglySorted_impl; [|exact Hs].
    intros x y Hx Hy. by rewrite !Hage.
  - intros i [_ Hi]%list_elem_of_filter. rewrite Hage by done. auto.
Qed.

Lemma fifo_fun q l1 l2 : fifo q l1 → fifo q l2 → l1 = l2.
Proof.
  intros (Hn1 & Hi1 & Hs1 & _) (Hn2 & Hi2 & Hs2 & _).
  eapply (StronglySorted_unique_strong (λ i j, slot_age q j < slot_age q i)).
  all: try done.
  - intros x y _ _ ? ?. lia.
  - apply NoDup_Permutation; [done..|]. intros i. by rewrite Hi1, Hi2.
Qed.

(** The abstract list is determined by the queue. *)
Lemma repr_fun q a1 a2 : repr q a1 → repr q a2 → a1 = a2.
Proof. intros (_ & l1 & H1 & ->) (_ & l2 & H2 & ->). by rewrite (fifo_fun q l1 l2). Qed.

(** The slot chosen for delivery is the first one waiting for the child. *)
Lemma iq_oldest_index_fifo q slots child :
  fifo q slots →
  iq_oldest_index q child =
  head (filter (λ i, ie_dst_addr (iq_entries q !!! i) = child) slots).
Proof.
  intros (Hnd & Hin & Hs & _). unfold iq_oldest_index.
  destruct (max_position _ _ _) as [[i k]|] eqn:Hm; simpl.
  - apply max_position_Some in Hm as (e & He & Hw & Hk & Hmax).
    unfold waits_for in Hw. bool_simpl.
    pose proof (lookup_lt_Some _ _ _ He) as Hi.
    pose proof (list_lookup_total_correct _ _ _ He) as Het.
    assert (i ∈ slots) as Hislots by (apply Hin; by rewrite Het).
    apply (StronglySorted_filter _ (λ i, ie_dst_addr (iq_entries q !!! i) = child)) in Hs.
    assert (i ∈ filter (λ i, ie_dst_addr (iq_entries q !!! i) = child) slots) as Hf
      by (apply list_elem_of_filter; by rewrite Het).
    destruct (filter _ slots) as [|h l] eqn:Heq; [by apply elem_of_nil in Hf|]. simpl. f_equal.
    apply StronglySorted_cons in Hs as [Hh _]. rewrite Forall_forall in Hh.
    apply elem_of_cons in Hf as [->|Hf]; [done|]. specialize (Hh i Hf).
    assert (h ∈ filter (λ i, ie_dst_addr (iq_entries q !!! i) = child) slots) as Hhin
      by (rewrite Heq; left).
    apply list_elem_of_filter in Hhin as [Hdst Hhin]. apply Hin in Hhin as [Hhl Hha].
    destruct (Hmax h (iq_entries q !!! h)) as [Hle _].
    { by apply list_lookup_lookup_total_lt. }
    { unfold waits_for. by rewrite Hha, (proj2 (Z.eqb_eq _ _) Hdst). }
    unfold slot_age in Hh. rewrite Het, Hk in Hh. lia.
  - apply max_position_None in Hm. rewrite position_None in Hm.
    destruct (filter _ slots) as [|h l] eqn:Heq; [done|]. exfalso.
    assert (h ∈ filter (λ i, ie_dst_addr (iq_entries q !!! i) = child) slots) as Hhin
      by (rewrite Heq; left).
    apply list_elem_of_filter in Hhin as [Hdst Hhin]. apply Hin in Hhin as [Hhl Hha].
    specialize (Hm (iq_entries q !!! h)). unfold waits_for in Hm.
    rewrite Hha, (proj2 (Z.eqb_eq _ _) Hdst) in Hm.
    assert (true && true = false) as Hc; [|done].
    apply Hm. apply list_elem_of_lookup. exists h. by apply list_lookup_lookup_total_lt.
Qed.

(** ** Correspondence of searches on slots and on the abstract list *)
Lemma head_filter_fmap {A B} (f : A → B) (P : A → Prop) (p : B → bool)
    `{∀ x, Decision (P x)} l :
  (∀ x, P x ↔ p (f x) = true) →
  f <$> head (filter P l) = List.find p (f <$> l).
Proof.
  intros HP. induction l as [|x l IH]; [done|]. rewrite filter_cons. simpl.
  case_decide as HPx.
  - by rewrite (proj1 (HP x) HPx).
  - destruct (p (f x)) eqn:Hp; [|done]. by apply HP in Hp.
Qed.

Lemma aq_pop_filter slots (f : nat → tx) child h :
  NoDup slots →
  head (filter (λ i, tx_dst (f i) = child) slots) = Some h →
  aq_pop child (f <$> slots) = f <$> filter (λ i, i ≠ h) slots.
Proof.
  induction 1 as [|x l Hx Hl IH]; [done|].
  rewrite !filter_cons, fmap_cons. cbn [aq_pop]. unfold tx_for.
  case_decide as Hd.
  - intros [= ->]. rewrite (proj2 (Z.eqb_eq _ _) Hd). rewrite decide_False by tauto.
    f_equal. clear IH Hl. induction l as [|y l IH]; [done|]. rewrite filter_cons.
    rewrite decide_True by set_solver. f_equal. apply IH. set_solver.
  - intros Hh. rewrite (proj2 (Z.eqb_neq _ _) Hd). rewrite decide_True; [by rewrite fmap_cons, IH|].
    intros ->. destruct (filter _ l) as [|y l'] eqn:Heq; [done|]. injection Hh as ->.
    assert (h ∈ filter (λ i, tx_dst (f i) = child) l) as Hf by (rewrite Heq; left).
    by apply list_elem_of_filter in Hf as [? _].
Qed.

(** ** Occupancy *)
Lemma fifo_length q slots :
  iq_wf q → fifo q slots →
  (length slots <= MAX_INDIRECT)%nat ∧
  (position (λ e, negb (ie_active e)) (iq_entries q) = None ↔ length slots = MAX_INDIRECT).
Proof.
  intros (Hlen & _ & _) (Hnd & Hin & _).
  assert (∀ l : list nat, NoDup l → (∀ i, i ∈ l → (i < MAX_INDIRECT)%nat) →
    (length l <= MAX_INDIRECT)%nat) as Hbound.
  { intros l Hl Hb. rewrite <- (length_seq MAX_INDIRECT 0). apply submseteq_length.
    apply NoDup_submseteq; [done|]. intros i Hi%Hb. apply elem_of_seq. lia. }
  split; [apply Hbound; [done|]; intros i Hi%Hin; lia|]. rewrite position_None. split.
  - intros Hall. apply Nat.le_antisymm.
    { apply Hbound; [done|]. intros i Hi%Hin. lia. }
    rewrite <- (length_seq MAX_INDIRECT 0) at 1. apply submseteq_length.
    apply NoDup_submseteq; [apply NoDup_seq|]. intros i Hi%elem_of_seq. apply Hin.
    split; [lia|]. specialize (Hall (iq_entries q !!! i)). apply negb_false_iff, Hall.
    apply list_elem_of_lookup. exists i. apply list_lookup_lookup_total_lt. lia.
  - intros Hfull e [i He]%list_elem_of_lookup. apply negb_false_iff.
    destruct (ie_active e) eqn:Ha; [done|]. exfalso.
    assert (length (i :: slots) <= MAX_INDIRECT)%nat as Hc; [|simpl in Hc; lia].
    pose proof (lookup_lt_Some _ _ _ He). apply Hbound.
    + constructor; [|done]. intros [_ Hi]%Hin.
      rewrite (list_lookup_total_correct _ _ _ He) in Hi. congruence.
    + intros j [->|Hj]%elem_of_cons; [lia|]. apply Hin in Hj. lia.
Qed.

(** ** Enqueue *)
Lemma iq_new_repr : repr iq_new [].
Proof.
  split.
  - split_and!; [done|simpl; ulia|]. unfold iq_new; simpl.
    repeat constructor; simpl; try lia; done.
  - exists []. split; [|done]. split_and!; [constructor| |constructor|].
    + intros i. split; [by intros ?%elem_of_nil|]. intros [Hi Ha]. exfalso. simpl in Ha, Hi.
      do 8 (destruct i as [|i]; [done|]). lia.
    + by intros i ?%elem_of_nil.
Qed.

Lemma slot_age_enqueue q entries j :
  is_u32 (iq_next_order q) → is_u32 (ie_order (iq_entries q !!! j)) →
  entries !!! j = iq_entries q !!! j → slot_age q j < 4294967295 →
  slot_age (mk_IndirectQueue entries (wrapping_add_u32 (iq_next_order q) 1)) j =
  slot_age q j + 1.
Proof.
  unfold slot_age; simpl. intros Hn Ho -> Hlt. revert Hlt.
  unfold wrapping_sub_u32, wrapping_add_u32. rewrite Zminus_mod_idemp_l.
  replace (iq_next_order q + 1 - ie_order (iq_entries q !!! j))
    with (iq_next_order q - ie_order (iq_entries q !!! j) + 1) by lia.
  generalize (iq_next_order q - ie_order (iq_entries q !!! j)). intros z Hz.
  Z.div_mod_to_equations. lia.
Qed.

Lemma Forall_lookup_total {A} `{Inhabited A} (P : A → Prop) l i :
  Forall P l → (i < length l)%nat → P (l !!! i).
Proof. intros Hl Hi. eapply Forall_lookup_1; [done|]. by apply list_lookup_lookup_total_lt. Qed.

(** Filling a free slot puts it at the end of the FIFO order. *)
Lemma fifo_enqueue q slots i e' :
  iq_wf q → no_order_wrap q → fifo q slots → (i < length (iq_entries q))%nat →
  i ∉ slots → ie_order e' = iq_next_order q → ie_active e' = true →
  fifo (mk_IndirectQueue (<[i:=e']> (iq_entries q)) (wrapping_add_u32 (iq_next_order q) 1))
       (slots ++ [i]).
Proof.
  intros (Hlen & Hnext & Hall) Hnw (Hnd & Hin & Hs & Hpos) Hi Hni Ho Ha.
  set (q' := mk_IndirectQueue _ _).
  assert (iq_entries q' !!! i = e') as Hself by by apply list_lookup_total_insert_eq.
  assert (∀ j, j ∈ slots → slot_age q' j = slot_age q j + 1) as Hage.
  { intros j Hj. pose proof (proj1 (Hin j) Hj) as [Hjl Hja].
    apply slot_age_enqueue; [done| | |by apply Hnw].
    - by apply (Forall_lookup_total ie_wf).
    - apply list_lookup_total_insert_ne. by intros ->. }
  assert (slot_age q' i = 1) as Hage_i.
  { unfold slot_age. rewrite Hself, Ho. simpl. unfold wrapping_sub_u32, wrapping_add_u32.
    rewrite Zminus_mod_idemp_l. by replace (_ + 1 - _) with 1 by lia. }
  split_and!.
  - apply NoDup_app. split_and!; [done| |apply NoDup_singleton].
    by intros j Hj ->%list_elem_of_singleton.
  - intros j. rewrite elem_of_app, list_elem_of_singleton, Hin.
    assert (length (iq_entries q') = length (iq_entries q)) as -> by apply length_insert.
    destruct (decide (j = i)) as [->|Hne].
    + rewrite Hself. tauto.
    + assert (iq_entries q' !!! j = iq_entries q !!! j) as ->
        by by apply list_lookup_total_insert_ne. tauto.
  - apply StronglySorted_app. split_and!; [| |repeat constructor].
    + intros x y Hx ->%list_elem_of_singleton. rewrite Hage_i, Hage by done.
      specialize (Hpos x Hx). lia.
    + eapply StronglySorted_impl; [|exact Hs]. intros x y Hx Hy. rewrite !Hage by done. lia.
  - intros j [Hj| ->%list_elem_of_singleton]%elem_of_app; [|lia].
    rewrite Hage by done. specialize (Hpos j Hj). lia.
Qed.

Lemma iq_enqueue_spec q a dst frame kind :
  repr q a → no_order_wrap q →
  if (MAX_FRAME_SIZE <? length frame)%nat || (length a =? MAX_INDIRECT)%nat
  then iq_enqueue_tagged_with_slot q dst frame kind = Err tt
  else ∃ i q', iq_enqueue_tagged_with_slot q dst frame kind = Ok (i, q') ∧
         repr q' (a ++ [mk_tx dst frame kind 8]).
Proof.
  intros (Hwf & slots & Hfifo & ->) Hnw. rewrite length_fmap.
  pose proof (fifo_length q slots Hwf Hfifo) as [Hle Hfull].
  pose proof Hwf as (Hlen & Hnext & Hall). unfold iq_enqueue_tagged_with_slot.
  destruct (_ <? _)%nat eqn:Hfl; [done|]. bool_simpl. simpl orb.
  destruct (position _ _) as [i|] eqn:Hp; simpl try_opt; simpl mbind.
  2: { rewrite (proj2 (Nat.eqb_eq _ _)); [done|]. by apply Hfull. }
  destruct (_ =? _)%nat eqn:Hc; bool_simpl; [by apply Hfull in Hc|].
  pose proof (position_lt _ _ _ Hp) as Hi.
  apply position_Some in Hp as (e & He & Hina & _). apply negb_true_iff in Hina.
  rewrite (index_Some _ _ _ He). simpl mbind.
  assert (ie_wf e) as (Hef & _) by (eapply Forall_lookup_1; eauto).
  rewrite (copy_written [] (ie_frame e)) by (simpl; lia). simpl mbind. unfold put. rewrite (proj2 (Nat.ltb_lt _ _)) by done. simpl mbind.
  eexists _, _. split; [reflexivity|].
  assert (i ∉ slots) as Hni.
  { intros [_ Ha]%Hfifo. rewrite (list_lookup_total_correct _ _ _ He) in Ha. congruence. }
  split.
  { split_and!; simpl; [by rewrite length_insert|ulia|].
    apply Forall_insert; [done|]. unfold ie_wf; simpl.
    rewrite length_written by lia. split_and!; [done|lia|done..]. }
  exists (slots ++ [i]). split; [by apply fifo_enqueue|].
  rewrite fmap_app. simpl. rewrite list_lookup_total_insert_eq by done.
  f_equal; [|unfold ie_tx, written; simpl; by rewrite take_app_length].
  apply list_fmap_ext. intros k j Hk. f_equal. symmetry. apply list_lookup_total_insert_ne.
  intros ->. by apply list_elem_of_lookup_2 in Hk.
Qed.

(** ** Removal and delivery *)
Lemma fmap_filter_comm {A B C} (f : A → B) (h : B → C) (g : A → C) (P : A → Prop)
    (p : B → bool) `{∀ x, Decision (P x)} l :
  (∀ x, x ∈ l → (P x ↔ p (f x) = true)) → (∀ x, x ∈ l → P x → g x = h (f x)) →
  g <$> filter P l = h <$> List.filter p (f <$> l).
Proof.
  induction l as [|x l IH]; intros HP Hg; [done|]. rewrite filter_cons, fmap_cons. simpl.
  specialize (IH ltac:(intros; apply HP; by right) ltac:(intros; apply Hg; [by right|done])).
  destruct (p (f x)) eqn:Hp; case_decide as HPx.
  - rewrite !fmap_cons, IH, Hg by (done || left). done.
  - exfalso. apply HPx, HP; [left|done].
  - exfalso. apply HP in HPx; [congruence|left].
  - done.
Qed.

(** An operation that rewrites every slot with [f], where [f] never activates
    a slot nor changes its order number. *)
Lemma repr_map q a f p g :
  repr q a →
  (∀ e, ie_wf e → ie_wf (f e) ∧ ie_order (f e) = ie_order e ∧
        (ie_active (f e) = true ↔ ie_active e = true ∧ p (ie_tx e) = true) ∧
        (ie_active (f e) = true → ie_tx (f e) = g (ie_tx e))) →
  repr (mk_IndirectQueue (f <$> iq_entries q) (iq_next_order q)) (g <$> List.filter p a).
Proof.
  intros ((Hlen & Hnext & Hall) & slots & Hfifo & ->) Hf.
  set (q' := mk_IndirectQueue _ _).
  assert (∀ i, (i < length (iq_entries q))%nat → iq_entries q' !!! i = f (iq_entries q !!! i)
           ∧ ie_wf (iq_entries q !!! i)) as Hpt.
  { intros i Hi. split; [|by apply Forall_lookup_total].
    apply list_lookup_total_correct. simpl. rewrite list_lookup_fmap.
    by rewrite (list_lookup_lookup_total_lt _ _ Hi). }
  assert (∀ i, i ∈ slots → (i < length (iq_entries q))%nat ∧
            ie_active (iq_entries q !!! i) = true) as Hslots by (intros i; apply Hfifo).
  split.
  { split_and!; [etrans; [apply length_fmap|done]|done|]. apply Forall_fmap.
    eapply Forall_impl; [exact Hall|]. intros e He. by apply Hf. }
  eexists. split; [eapply (fifo_shrink q q'); [exact Hfifo|apply length_fmap|done|]|].
  - intros i Hi. destruct (Hpt i Hi) as [-> Hw]. destruct (Hf _ Hw) as (_ & -> & -> & _). tauto.
  - symmetry. apply fmap_filter_comm.
    + intros i [Hi Hia]%Hslots. destruct (Hpt i Hi) as [-> Hw].
      destruct (Hf _ Hw) as (_ & _ & -> & _). tauto.
    + intros i [Hi Hia]%Hslots Ha. destruct (Hpt i Hi) as [Heq Hw]. rewrite Heq in *.
      by apply Hf.
Qed.

Lemma repr_existsb q a p :
  repr q a →
  existsb (λ e, ie_active e && p (ie_tx e)) (iq_entries q) = existsb p a.
Proof.
  intros (_ & slots & (_ & Hin & _) & ->). apply eq_true_iff_eq. rewrite !existsb_exists.
  setoid_rewrite <- list_elem_of_In. split.
  - intros (e & [i He]%list_elem_of_lookup & Hp). bool_simpl.
    exists (ie_tx e). split; [|done]. apply list_elem_of_fmap. exists i.
    pose proof (list_lookup_total_correct _ _ _ He) as Het. rewrite Het. split; [done|].
    apply Hin. rewrite Het. split; [by eapply lookup_lt_Some|done].
  - intros (t & (i & -> & Hi)%list_elem_of_fmap & Hp). apply Hin in Hi as [Hi Ha].
    exists (iq_entries q !!! i). split; [|by rewrite Ha].
    apply list_elem_of_lookup. exists i. by apply list_lookup_lookup_total_lt.
Qed.

Lemma iq_has_pending_spec q a child :
  repr q a → iq_has_pending q child = existsb (tx_for child) a.
Proof. intros Hr. by rewrite <- (repr_existsb q a (tx_for child)). Qed.

Lemma iq_has_pending_kind_spec q a child kind :
  repr q a →
  iq_has_pending_kind q child kind = existsb (λ t, tx_for child t && kind_eqb (tx_kind t) kind) a.
Proof.
  intros Hr. rewrite <- (repr_existsb q a) by done. unfold iq_has_pending_kind, waits_for, tx_for.
  induction (iq_entries q) as [|e l IH]; [done|]. simpl. by rewrite IH, andb_assoc.
Qed.

Lemma iq_pending_children_spec q a child :
  repr q a → child ∈ iq_pending_children q ↔ existsb (tx_for child) a = true.
Proof.
  intros Hr. rewrite <- (repr_existsb q a) by done. unfold iq_pending_children.
  rewrite list_elem_of_fmap, existsb_exists. setoid_rewrite list_elem_of_In.
  setoid_rewrite filter_In. unfold tx_for; simpl. setoid_rewrite andb_true_iff.
  setoid_rewrite Z.eqb_eq. split.
  - intros (e & -> & He & Ha). by exists e.
  - intros (e & He & Ha & Hd). by exists e.
Qed.

Lemma ie_wf_deactivate e : ie_wf e → ie_wf (ie_deactivate e).
Proof. intros (H1 & H2 & H3 & _). by split_and!. Qed.

(** Dropping every transaction that satisfies [p]. *)
Lemma repr_drop q a (p : tx → bool) sel :
  repr q a → (∀ e, sel e = ie_active e && p (ie_tx e)) →
  repr (mk_IndirectQueue ((λ e, if sel e then ie_deactivate e else e) <$> iq_entries q)
          (iq_next_order q)) (List.filter (λ t, negb (p t)) a).
Proof.
  intros Hr Hsel. rewrite <- (list_fmap_id (List.filter _ a)). apply repr_map; [done|].
  intros e Hw. rewrite Hsel.
  destruct (ie_active e) eqn:Ha, (p (ie_tx e)) eqn:Hp; simpl; rewrite ?Ha;
    (split_and!; [by try apply ie_wf_deactivate|done|split; [done|by intros []]|done])
    || (split_and!; [done|done|done|done]).
Qed.

Lemma iq_remove_all_spec q a child :
  repr q a → repr (iq_remove_all q child) (List.filter (λ t, negb (tx_for child t)) a).
Proof. intros Hr. by apply repr_drop. Qed.

Lemma iq_remove_kind_spec q a child kind :
  repr q a →
  let sel := λ t, tx_for child t && kind_eqb (tx_kind t) kind in
  (iq_remove_kind q child kind).1 = existsb sel a ∧
  repr (iq_remove_kind q child kind).2 (List.filter (λ t, negb (sel t)) a).
Proof.
  intros Hr sel. split; [by apply iq_has_pending_kind_spec|].
  apply repr_drop; [done|]. intros e. unfold waits_for, sel, tx_for. simpl. by rewrite andb_assoc.
Qed.

(** ** Delivery *)
Lemma repr_remove_slot q slots h :
  iq_wf q → fifo q slots → h ∈ slots →
  repr (iq_remove_slot q h) ((λ i, ie_tx (iq_entries q !!! i)) <$> filter (λ i, i ≠ h) slots).
Proof.
  intros (Hlen & Hnext & Hall) Hfifo Hh. pose proof (proj1 (proj2 Hfifo)) as Hin.
  set (q' := iq_remove_slot q h).
  assert (∀ i, (i < length (iq_entries q))%nat →
    iq_entries q' !!! i = if decide (i = h) then ie_deactivate (iq_entries q !!! i)
                          else iq_entries q !!! i) as Hpt.
  { intros i Hi. unfold q', iq_remove_slot; simpl. case_decide as Hd.
    - subst. apply list_lookup_total_correct. rewrite list_lookup_alter, decide_True by done.
      by rewrite (list_lookup_lookup_total_lt _ _ Hi).
    - apply list_lookup_total_alter_ne. done. }
  split.
  { split_and!; [etrans; [apply length_alter|done]|done|]. apply Forall_alter; [done|].
    intros e He Hw. by apply ie_wf_deactivate. }
  exists (filter (λ i, ie_active (iq_entries q' !!! i) = true) slots). split.
  - apply (fifo_shrink q q'); [done|apply length_alter|done|]. intros i Hi.
    rewrite Hpt by done. case_decide; [done|tauto].
  - assert (filter (λ i, ie_active (iq_entries q' !!! i) = true) slots
            = filter (λ i, i ≠ h) slots) as ->.
    { apply filter_ext_elem. intros i [Hi Ha]%Hin. rewrite Hpt by done.
      case_decide; simpl; [done|tauto]. }
    apply list_fmap_ext. intros k i Hk. apply list_elem_of_lookup_2 in Hk.
    apply list_elem_of_filter in Hk as [Hne Hi]. apply Hin in Hi as [Hi _].
    by rewrite Hpt, decide_False.
Qed.

(** Delivery picks the oldest transaction of the child: the slot, its entry
    and the queue without it. *)
Lemma iq_oldest_index_spec q a child :
  repr q a →
  match List.find (tx_for child) a with
  | None => iq_oldest_index q child = None
  | Some t => ∃ h e, iq_oldest_index q child = Some h ∧ iq_entries q !! h = Some e ∧
      ie_wf e ∧ ie_tx e = t ∧ repr (iq_remove_slot q h) (aq_pop child a)
  end.
Proof.
  intros (Hwf & slots & Hfifo & ->). rewrite (iq_oldest_index_fifo _ _ _ Hfifo).
  set (f := λ i, ie_tx (iq_entries q !!! i)).
  assert (List.find (tx_for child) (f <$> slots) =
    f <$> head (filter (λ i, ie_dst_addr (iq_entries q !!! i) = child) slots)) as ->.
  { symmetry. apply head_filter_fmap. intros. unfold tx_for. by rewrite Z.eqb_eq. }
  destruct (head _) as [h|] eqn:Hh; simpl; [|done].
  assert (h ∈ slots) as Hhs.
  { destruct (filter _ slots) as [|y l'] eqn:Heq; [done|]. injection Hh as ->.
    assert (h ∈ filter (λ i, ie_dst_addr (iq_entries q !!! i) = child) slots) as Hf
      by (rewrite Heq; left). by apply list_elem_of_filter in Hf as [_ ?]. }
  pose proof Hhs as [Hl _]%Hfifo. exists h, (iq_entries q !!! h). split_and!; [done| | |done|].
  - by apply list_lookup_lookup_total_lt.
  - by apply Forall_lookup_total; [apply Hwf|].
  - rewrite (aq_pop_filter slots f child h); [|apply Hfifo|done].
    by apply repr_remove_slot.
Qed.

(** ** Aging *)
Definition expires (e : IndirectEntry) : bool := ie_active e && (ie_ttl (ie_age e) =? 0).

Lemma iq_age_loop_spec entries expired entries' expired' :
  iq_age_loop entries expired = (entries', expired') →
  (length expired + length entries <= MAX_INDIRECT)%nat → NoDup expired →
  entries' = ie_age <$> entries ∧ NoDup expired' ∧
  ∀ d, d ∈ expired' ↔ d ∈ expired ∨ ∃ e, e ∈ entries ∧ expires e = true ∧ ie_dst_addr e = d.
Proof.
  revert expired entries' expired'. induction entries as [|e l IH]; simpl.
  { intros expired ? ? [= <- <-] _ Hnd. split_and!; [done..|]. intros d.
    split; [by left|]. by intros [?|(e & ?%elem_of_nil & _)]. }
  intros expired entries' expired'. fold (expires e).
  set (exp1 := if expires e then _ else _).
  destruct (iq_age_loop l exp1) as [l' x'] eqn:Hl. intros [= <- <-] Hlen Hnd.
  assert (NoDup exp1 ∧ (length exp1 <= length expired + 1)%nat ∧
    ∀ d, d ∈ exp1 ↔ d ∈ expired ∨ (expires e = true ∧ ie_dst_addr e = d)) as (Hnd1 & Hlen1 & Hin1).
  { unfold exp1. destruct (expires e) eqn:He.
    2: { split_and!; [done|lia|]. intros d. split; [by left|]. by intros [?|[? _]]. }
    destruct (existsb _ _) eqn:Hex.
    - apply existsb_exists in Hex as (x & Hx%list_elem_of_In & ->%Z.eqb_eq).
      split_and!; [done|lia|]. intros d. split; [by left|]. by intros [?|[_ <-]].
    - assert (ie_dst_addr e ∉ expired) as Hni.
      { intros Hin. apply not_true_iff_false in Hex. apply Hex, existsb_exists.
        exists (ie_dst_addr e). split; [by apply list_elem_of_In|by apply Z.eqb_eq]. }
      unfold vec_push_ignore, vec_push. rewrite (proj2 (Nat.ltb_lt _ _)) by lia.
      split_and!; [|rewrite length_app; simpl; lia|].
      + apply NoDup_app. split_and!; [done| |apply NoDup_singleton].
        by intros d Hd ->%list_elem_of_singleton.
      + intros d. rewrite elem_of_app, list_elem_of_singleton. naive_solver. }
  apply IH in Hl as (-> & Hnd' & Hin'); [|lia|done]. split_and!; [done..|].
  intros d. rewrite Hin', Hin1. setoid_rewrite elem_of_cons. naive_solver.
Qed.

Lemma ie_age_repr e :
  ie_wf e →
  ie_wf (ie_age e) ∧ ie_order (ie_age e) = ie_order e ∧
  (ie_active (ie_age e) = true ↔ ie_active e = true ∧ (1 <? tx_ttl (ie_tx e)) = true) ∧
  (ie_active (ie_age e) = true →
   ie_tx (ie_age e) = mk_tx (ie_dst_addr e) (take (ie_len e) (ie_frame e)) (ie_kind e) (ie_ttl e - 1)).
Proof.
  intros (H1 & H2 & H3 & H4). unfold ie_age. destruct (ie_active e) eqn:Ha; simpl.
  - specialize (H4 eq_refl). unfold saturating_sub, ie_tx; simpl.
    rewrite Z.max_r by lia. split_and!; [|done| |done].
    + unfold ie_wf; simpl. split_and!; [done..|]. rewrite negb_true_iff, Z.eqb_neq. lia.
    + rewrite negb_true_iff, Z.eqb_neq, Z.ltb_lt. split; [split; [done|lia]|lia].
  - rewrite Ha. split_and!; [|done|split; [done|by intros []]|done]. split_and!; try done. congruence.
Qed.

Lemma expires_ttl e : ie_wf e → expires e = ie_active e && (tx_ttl (ie_tx e) =? 1).
Proof.
  intros (_ & _ & _ & H4). unfold expires, ie_age. destruct (ie_active e) eqn:Ha; [|done].
  specialize (H4 eq_refl). simpl. unfold saturating_sub. rewrite Z.max_r by lia.
  destruct (_ =? 0) eqn:?, (_ =? 1) eqn:?; bool_simpl; lia.
Qed.

Lemma iq_age_spec q a :
  repr q a →
  let '(expired, q') := iq_age q in
  repr q' (aq_tick a) ∧ NoDup expired ∧
  ∀ d, d ∈ expired ↔ existsb (λ t, tx_for d t && (tx_ttl t =? 1)) a = true.
Proof.
  intros Hr. unfold iq_age. destruct (iq_age_loop _ _) as [entries expired] eqn:Hl.
  pose proof Hr as ((Hlen & _ & Hall) & _).
  apply iq_age_loop_spec in Hl as (-> & Hnd & Hin); [|simpl; lia|constructor].
  split_and!; [|done|].
  - unfold aq_tick. apply repr_map; [done|]. intros e He. by apply ie_age_repr.
  - intros d. rewrite Hin, <- (repr_existsb q a), existsb_exists by done. split.
    + intros [?%elem_of_nil|(e & He & Hx & <-)]; [done|]. exists e.
      rewrite <- list_elem_of_In. split; [done|].
      rewrite expires_ttl in Hx by by apply (proj1 (Forall_forall _ _) Hall).
      apply andb_true_iff in Hx as [Hx1 Hx2]. unfold tx_for. rewrite Hx1, Hx2. simpl.
      by rewrite Z.eqb_refl.
    + intros (e & He%list_elem_of_In & Hx). right. exists e.
      apply andb_true_iff in Hx as [Hx1 Hx2]. apply andb_true_iff in Hx2 as [Hx2 Hx3].
      rewrite expires_ttl, Hx1, Hx3 by by apply (proj1 (Forall_forall _ _) Hall).
      split_and!; [done|done|by apply Z.eqb_eq].
Qed.

Lemma iq_new_no_wrap : no_order_wrap iq_new.
Proof.
  intros i Hi Ha. exfalso. simpl in Hi, Ha. do 8 (destruct i as [|i]; [done|]). lia.
Qed.

(** A queue holding one transaction, for the witnesses. *)
Lemma sample_queue_repr :
  ∃ i q, iq_enqueue_tagged_with_slot iq_new 5 [1; 2; 3] IkLeave = Ok (i, q) ∧
         repr q [mk_tx 5 [1; 2; 3] IkLeave 8].
Proof. exact (iq_enqueue_spec iq_new [] 5 [1; 2; 3] IkLeave iq_new_repr iq_new_no_wrap). Qed.

(** * Properties *)

(** Buffering a frame refines appending to a FIFO list: the queue refuses
    a frame longer than 128 octets or a ninth transaction, changing nothing;
    otherwise the transaction becomes the last one, whichever slot it reuses. *)
Theorem indirect_enqueue_refines (q : IndirectQueue) (a : list tx) (dst : ShortAddress)
    (frame : list Z) (kind : IndirectFrameKind) :
  repr q a → no_order_wrap q →
  (iq_enqueue_tagged_with_slot q dst frame kind = Err tt ↔
   (MAX_FRAME_SIZE < length frame)%nat ∨ length a = MAX_INDIRECT) ∧
  (iq_enqueue_tagged_with_slot q dst frame kind ≠ Panic) ∧
  (∀ i q', iq_enqueue_tagged_with_slot q dst frame kind = Ok (i, q') →
     repr q' (a ++ [mk_tx dst frame kind 8])).
Proof.
  intros Hr Hnw. pose proof (iq_enqueue_spec q a dst frame kind Hr Hnw) as H.
  destruct (_ || _) eqn:Hc; bool_simpl.
  - rewrite H. split_and!; [tauto|done|done].
  - rewrite H. split_and!; [tauto|done|done].
  - destruct H as (i & q' & -> & Hq'). split_and!; [split; [done|lia]|done|].
    by intros ? ? [= <- <-].
Qed.

Lemma indirect_enqueue_refines_witness :
  ∃ i q', iq_enqueue_tagged_with_slot iq_new 5 [1; 2; 3] IkLeave = Ok (i, q') ∧
    repr q' [mk_tx 5 [1; 2; 3] IkLeave 8].
Proof.
  destruct (indirect_enqueue_refines iq_new [] 5 [1; 2; 3] IkLeave) as (_ & _ & H).
  - apply iq_new_repr.
  - apply iq_new_no_wrap.
  - eexists _, _. split; [reflexivity|]. eapply H. reflexivity.
Defined.

(** C29. Delivery refines a FIFO per child: [peek] copies the child's oldest
    transaction without removing it, [complete_one] and [dequeue] remove
    exactly that one and report whether the child has more, and a child with
    no transaction gets none. *)
Theorem indirect_delivery_refines (q : IndirectQueue) (a : list tx) (child : ShortAddress) :
  repr q a →
  match List.find (tx_for child) a with
  | None => iq_peek q child = Err tt ∧ iq_complete_one q child = Err tt ∧
            iq_dequeue q child = Err tt
  | Some t =>
      let more := existsb (tx_for child) (aq_pop child a) in
      ∃ p q', iq_peek q child = Ok p ∧ pf_as_slice (E:=Empty_set) p = Ok (tx_frame t) ∧
        pf_kind p = tx_kind t ∧
        iq_complete_one q child = Ok (more, q') ∧
        iq_dequeue q child = Ok ((tx_frame t, more), q') ∧
        repr q' (aq_pop child a)
  end.
Proof.
  intros Hr. pose proof (iq_oldest_index_spec q a child Hr) as Ho.
  unfold iq_peek, iq_complete_one, iq_dequeue.
  destruct (List.find _ _) as [t|]; [|by rewrite Ho].
  destruct Ho as (h & e & -> & He & (Hf & Hl & _) & <- & Hr'). cbv zeta. simpl try_opt.
  simpl mbind. rewrite (index_Some _ _ _ He). simpl mbind.
  assert (∀ E, slice (E:=E) (ie_frame e) 0 (ie_len e) = Ok (take (ie_len e) (ie_frame e))) as Hs.
  { intros E. apply slice_Ok, slice_get_0. exists (drop (ie_len e) (ie_frame e)).
    rewrite take_drop, length_take. split; [done|lia]. }
  rewrite Hs. simpl mbind.
  rewrite (copy_written [] (replicate MAX_FRAME_SIZE 0)) by
    (rewrite ?length_take, ?length_replicate; unfold MAX_FRAME_SIZE in *; simpl length; lia).
  simpl mbind. eexists _, _. split_and!; [reflexivity| |reflexivity| | |exact Hr'].
  - apply slice_Ok. cbn [pf_len pf_frame]. apply slice_get_0. eexists. split; [done|].
    simpl. rewrite length_take. lia.
  - by rewrite (iq_has_pending_spec _ _ child Hr').
  - assert (index (E:=unit) (alter ie_deactivate h (iq_entries q)) h = Ok (ie_deactivate e)) as ->.
    { apply index_Some. rewrite list_lookup_alter, decide_True by done. by rewrite He. }
    simpl mbind. rewrite Hs. simpl mbind. by rewrite <- (iq_has_pending_spec _ _ child Hr').
Qed.

Lemma indirect_delivery_refines_witness :
  ∃ q p, repr q [mk_tx 5 [1; 2; 3] IkLeave 8] ∧ iq_peek q 5 = Ok p ∧
    pf_as_slice (E:=Empty_set) p = Ok [1; 2; 3].
Proof.
  destruct sample_queue_repr as (i & q & _ & Hr).
  destruct (indirect_delivery_refines q _ 5 Hr) as (p & q' & Hp & Hs & _). by exists q, p.
Defined.

(** Once a second every transaction's remaining lifetime drops by one;
    those that reach zero are removed, the others keep their order, and the
    returned list names each child that lost a transaction exactly once. *)
Theorem indirect_age_refines (q : IndirectQueue) (a : list tx) :
  repr q a →
  let '(expired, q') := iq_age q in
  repr q' (aq_tick a) ∧ NoDup expired ∧
  ∀ d, d ∈ expired ↔ existsb (λ t, tx_for d t && (tx_ttl t =? 1)) a = true.
Proof. apply iq_age_spec. Qed.

Lemma indirect_age_refines_witness :
  ∃ q, repr q [mk_tx 5 [1; 2; 3] IkLeave 8] ∧ repr (iq_age q).2 [mk_tx 5 [1; 2; 3] IkLeave 7].
Proof.
  destruct sample_queue_repr as (i & q & _ & Hr). exists q. split; [done|].
  pose proof (indirect_age_refines q _ Hr) as H.
  destruct (iq_age q) as [x q']. exact (proj1 H).
Defined.
