(* ===== verification/NwkNeighbor.v ===== *)
(** The NWK neighbor table: [zigbee-nwk/src/neighbor.rs] (router build).

    The table is an array of [MAX_NEIGHBORS] slots and a high-water mark
    [count]: lookups search the slots below the mark only, insertion and aging
    walk the whole array.  The invariant [nt_wf] says that every active slot
    is below the mark and that no two active slots share either address, which
    is what makes the two kinds of walk and the two kinds of lookup agree. *)
From S2P Require Import Prelude.
From S2P Require Import ZigbeeTypes.
From S2P Require Import NwkFrames.

Local Open Scope Z_scope.

Definition MAX_NEIGHBORS : nat := 32.

(** * Entries *)
Inductive Relationship := Parent | Child | Sibling | PreviousChild | UnauthenticatedChild.
Inductive NeighborDeviceType := NCoordinator | NRouter | NEndDevice | NUnknown.

#[export] Instance Relationship_eq_dec : EqDecision Relationship.
Proof. solve_decision. Defined.
#[export] Instance NeighborDeviceType_eq_dec : EqDecision NeighborDeviceType.
Proof. solve_decision. Defined.

Record NeighborEntry := mk_NeighborEntry {
  ne_ieee_address : IeeeAddress;
  ne_network_address : ShortAddress;
  ne_device_type : NeighborDeviceType;
  ne_rx_on_when_idle : bool;
  ne_security_capable : bool;
  ne_relationship : Relationship;
  ne_lqi : Z;
  ne_incoming_cost : Z;
  ne_outgoing_cost : Z;
  ne_link_status_age : Z;
  ne_depth : Z;
  ne_permit_joining : bool;
  ne_age : Z;
  ne_end_device_timeout : Z;
  ne_keepalive_remaining_secs : Z;
  ne_keepalive_confirmed : bool;
  ne_parent_annce_pending : bool;
  ne_awaiting_link_status : bool;
  ne_extended_pan_id : IeeeAddress;
  ne_active : bool }.

#[export] Instance NeighborEntry_eq_dec : EqDecision NeighborEntry.
Proof. solve_decision. Defined.

Definition LINK_STATUS_PERIOD_SECS : Z := 15.
Definition ROUTER_AGE_LIMIT : Z := 3.

Definition link_cost_from_lqi (lqi : Z) : Z :=
  if lqi <=? 50 then 7
  else if lqi <=? 100 then 5
  else if lqi <=? 150 then 3
  else if lqi <=? 200 then 2
  else 1.

Definition ne_empty : NeighborEntry :=
  mk_NeighborEntry (repeat 0 8) 0xFFFF NUnknown false false Sibling
    0 (link_cost_from_lqi 0) 0 0 0 false 0 ED_TIMEOUT_ENUM_DEFAULT 0 false false false
    (repeat 0 8) false.

(** Field assignments. *)
Definition set_active (b : bool) (e : NeighborEntry) : NeighborEntry :=
  let 'mk_NeighborEntry ieee nwk dt rx sc rel lqi ic oc lsa d pj age edt kr kc pa aw ep _ := e in
  mk_NeighborEntry ieee nwk dt rx sc rel lqi ic oc lsa d pj age edt kr kc pa aw ep b.
Definition set_age (v : Z) (e : NeighborEntry) : NeighborEntry :=
  let 'mk_NeighborEntry ieee nwk dt rx sc rel lqi ic oc lsa d pj _ edt kr kc pa aw ep ac := e in
  mk_NeighborEntry ieee nwk dt rx sc rel lqi ic oc lsa d pj v edt kr kc pa aw ep ac.
Definition set_lqi (v : Z) (e : NeighborEntry) : NeighborEntry :=
  let 'mk_NeighborEntry ieee nwk dt rx sc rel _ ic oc lsa d pj age edt kr kc pa aw ep ac := e in
  mk_NeighborEntry ieee nwk dt rx sc rel v ic oc lsa d pj age edt kr kc pa aw ep ac.
Definition set_incoming_cost (v : Z) (e : NeighborEntry) : NeighborEntry :=
  let 'mk_NeighborEntry ieee nwk dt rx sc rel lqi _ oc lsa d pj age edt kr kc pa aw ep ac := e in
  mk_NeighborEntry ieee nwk dt rx sc rel lqi v oc lsa d pj age edt kr kc pa aw ep ac.
Definition set_outgoing_cost (v : Z) (e : NeighborEntry) : NeighborEntry :=
  let 'mk_NeighborEntry ieee nwk dt rx sc rel lqi ic _ lsa d pj age edt kr kc pa aw ep ac := e in
  mk_NeighborEntry ieee nwk dt rx sc rel lqi ic v lsa d pj age edt kr kc pa aw ep ac.
Definition set_link_status_age (v : Z) (e : NeighborEntry) : NeighborEntry :=
  let 'mk_NeighborEntry ieee nwk dt rx sc rel lqi ic oc _ d pj age edt kr kc pa aw ep ac := e in
  mk_NeighborEntry ieee nwk dt rx sc rel lqi ic oc v d pj age edt kr kc pa aw ep ac.
Definition set_keepalive_remaining_secs (v : Z) (e : NeighborEntry) : NeighborEntry :=
  let 'mk_NeighborEntry ieee nwk dt rx sc rel lqi ic oc lsa d pj age edt _ kc pa aw ep ac := e in
  mk_NeighborEntry ieee nwk dt rx sc rel lqi ic oc lsa d pj age edt v kc pa aw ep ac.
Definition set_addresses (nwk : ShortAddress) (ieee : IeeeAddress) (e : NeighborEntry) : NeighborEntry :=
  let 'mk_NeighborEntry _ _ dt rx sc rel lqi ic oc lsa d pj age edt kr kc pa aw ep ac := e in
  mk_NeighborEntry ieee nwk dt rx sc rel lqi ic oc lsa d pj age edt kr kc pa aw ep ac.

Definition new_from_annce (nwk_addr : ShortAddress) (ieee_addr : IeeeAddress) : NeighborEntry :=
  set_active true (set_addresses nwk_addr ieee_addr ne_empty).

Definition update_incoming_cost_from_lqi (e : NeighborEntry) : NeighborEntry :=
  set_incoming_cost (link_cost_from_lqi (ne_lqi e)) e.

(** [((lqi as u16) * 3 + sample as u16) / 4] stays within [u16]. *)
Definition observe_frame (lqi : Z) (e : NeighborEntry) : NeighborEntry :=
  update_incoming_cost_from_lqi
    (set_lqi (if ne_lqi e =? 0 then lqi else as_u8 ((ne_lqi e * 3 + lqi) / 4)) e).

Definition is_router (e : NeighborEntry) : bool :=
  match ne_device_type e with NRouter | NCoordinator => true | _ => false end.

(** [(1..7).contains(&cost)] *)
Definition cost_usable (cost : Z) : bool := (1 <=? cost) && (cost <? 7).

Definition is_confirmed_direct_hop (e : NeighborEntry) : bool :=
  let bidirectional := cost_usable (ne_outgoing_cost e) && cost_usable (ne_incoming_cost e) in
  match ne_relationship e with
  | Child | UnauthenticatedChild =>
      if negb (is_router e) then true
      else bidirectional
           || (ne_awaiting_link_status e && (ne_link_status_age e <=? ROUTER_AGE_LIMIT))
  | _ => bidirectional
  end.

Definition is_stale_router_child (e : NeighborEntry) : bool :=
  bool_decide (ne_relationship e = Child) && is_router e
  && (ROUTER_AGE_LIMIT <? ne_link_status_age e).

Definition is_evictable (e : NeighborEntry) : bool :=
  if is_stale_router_child e then true
  else match ne_relationship e with
       | Parent | Child | UnauthenticatedChild => false
       | _ => true
       end.

Definition eviction_rank (e : NeighborEntry) : bool * Z :=
  (negb (bool_decide (ne_relationship e = Child)), ne_age e).

(** The lexicographic order of a [(bool, u16)] as an integer. *)
Definition rank_key (r : bool * Z) : Z := (if r.1 then 65536 else 0) + r.2.

Definition refresh_end_device_timeout (e : NeighborEntry) : NeighborEntry :=
  set_keepalive_remaining_secs
    (match ed_timeout_enum_to_seconds (ne_end_device_timeout e) with
     | Some s => s
     | None => match ed_timeout_enum_to_seconds ED_TIMEOUT_ENUM_DEFAULT with
               | Some s => s
               | None => 1
               end
     end) e.

(** * The table *)
Record NeighborTable := mk_NeighborTable {
  nt_entries : list NeighborEntry; nt_count : nat }.

Definition nt_new : NeighborTable :=
  mk_NeighborTable (repeat ne_empty MAX_NEIGHBORS) 0.

(** [self.entries[..self.count]]; [nt_wf] keeps [count] within the array. *)
Definition nt_counted (t : NeighborTable) : list NeighborEntry :=
  take (nt_count t) (nt_entries t).

Definition at_short (addr : ShortAddress) (e : NeighborEntry) : bool :=
  ne_active e && (ne_network_address e =? addr).
Definition at_ieee (addr : IeeeAddress) (e : NeighborEntry) : bool :=
  ne_active e && ieee_eqb (ne_ieee_address e) addr.

Definition find_by_short (t : NeighborTable) (addr : ShortAddress) : option NeighborEntry :=
  List.find (at_short addr) (nt_counted t).

Definition find_by_ieee (t : NeighborTable) (addr : IeeeAddress) : option NeighborEntry :=
  List.find (at_ieee addr) (nt_counted t).

(** A write [f] through the reference that [find_by_ieee_mut] returns. *)
Definition find_by_ieee_mut (t : NeighborTable) (addr : IeeeAddress)
    (f : NeighborEntry → NeighborEntry) : NeighborTable :=
  mk_NeighborTable (modify_first (at_ieee addr) f (nt_counted t) ++ drop (nt_count t) (nt_entries t))
    (nt_count t).

Definition find_by_short_mut (t : NeighborTable) (addr : ShortAddress)
    (f : NeighborEntry → NeighborEntry) : NeighborTable :=
  mk_NeighborTable (modify_first (at_short addr) f (nt_counted t) ++ drop (nt_count t) (nt_entries t))
    (nt_count t).

Definition nt_parent (t : NeighborTable) : option NeighborEntry :=
  List.find (λ e, ne_active e && bool_decide (ne_relationship e = Parent)) (nt_counted t).

Definition is_child (e : NeighborEntry) : bool :=
  match ne_relationship e with Child | UnauthenticatedChild => true | _ => false end.

Definition nt_children (t : NeighborTable) : list NeighborEntry :=
  List.filter (λ e, ne_active e && is_child e) (nt_counted t).

Definition has_child_slot (t : NeighborTable) : bool :=
  existsb (λ e, negb (ne_active e)) (nt_entries t)
  || existsb (λ e, ne_active e && is_evictable e) (nt_entries t).

(** The loop of [add_or_update]: remember the first active slot that names
    either address and deactivate the later ones. *)
Definition names_either (entry e : NeighborEntry) : bool :=
  ne_active e && ((ne_network_address e =? ne_network_address entry)
                  || ieee_eqb (ne_ieee_address e) (ne_ieee_address entry)).

Fixpoint merge_stale (entry : NeighborEntry) (existing_index : option nat) (index : nat)
    (l : list NeighborEntry) : option nat * list NeighborEntry :=
  match l with
  | [] => (existing_index, [])
  | e :: l' =>
      let '(existing, e) :=
        if names_either entry e then
          match existing_index with
          | None => (Some index, e)
          | Some _ => (existing_index, set_active false e)
          end
        else (existing_index, e) in
      let '(existing, l'') := merge_stale entry existing (S index) l' in
      (existing, e :: l'')
  end.

Definition add_or_update (t : NeighborTable) (entry : NeighborEntry) : fallible NeighborTable :=
  let '(existing_index, scanned) := merge_stale entry None 0 (nt_counted t) in
  let entries := scanned ++ drop (nt_count t) (nt_entries t) in
  match existing_index with
  | Some index => Ok (mk_NeighborTable (<[index := set_active true entry]> entries) (nt_count t))
  | None =>
      match position (λ e, negb (ne_active e)) entries with
      | Some slot =>
          Ok (mk_NeighborTable (<[slot := set_active true entry]> entries)
                (if (nt_count t <? MAX_NEIGHBORS)%nat then S (nt_count t) else nt_count t))
      | None =>
          match max_position (λ e, ne_active e && is_evictable e)
                  (λ e, rank_key (eviction_rank e)) entries with
          | Some (victim, _) =>
              Ok (mk_NeighborTable (<[victim := set_active true entry]> entries) (nt_count t))
          | None => Err tt
          end
      end
  end.

Definition nt_remove (t : NeighborTable) (addr : ShortAddress) : NeighborTable :=
  mk_NeighborTable (modify_first (at_short addr) (set_active false) (nt_entries t)) (nt_count t).

(** A write [f] to every active entry that satisfies [p]:
    [for e in entries.iter_mut().filter(..)]. *)
Definition update_where (p : NeighborEntry → bool) (f : NeighborEntry → NeighborEntry)
    (t : NeighborTable) : NeighborTable :=
  mk_NeighborTable ((λ e, if ne_active e && p e then f e else e) <$> nt_entries t) (nt_count t).

Definition age_tick (t : NeighborTable) : NeighborTable :=
  update_where (λ _, true) (λ e, set_age (saturating_add_u16 (ne_age e) 1) e) t.

Definition age_link_status (e : NeighborEntry) : NeighborEntry :=
  let e := set_link_status_age
             (Z.min (saturating_add_u8 (ne_link_status_age e) 1)
                    (saturating_add_u8 ROUTER_AGE_LIMIT 1)) e in
  if (ROUTER_AGE_LIMIT <? ne_link_status_age e) && negb (ne_outgoing_cost e =? 0)
  then set_outgoing_cost 0 e else e.

Definition age_router_link_status (t : NeighborTable) : NeighborTable :=
  update_where is_router age_link_status t.

Definition nt_iter (t : NeighborTable) : list NeighborEntry :=
  List.filter ne_active (nt_entries t).

Definition nt_iter_mut_all (t : NeighborTable) (f : NeighborEntry → NeighborEntry) : NeighborTable :=
  update_where (λ _, true) f t.

Definition nt_len (t : NeighborTable) : nat := count ne_active (nt_entries t).

Definition nt_is_empty (t : NeighborTable) : bool := (nt_len t =? 0)%nat.

(** [while index > position { entries.swap(index, index - 1); index -= 1 }];
    [k] is the number of iterations, [index - position]. *)
Fixpoint shift_to (k index : nat) (l : list LinkStatusEntry) : list LinkStatusEntry :=
  match k with
  | O => l
  | S k' => shift_to k' (index - 1) (slice_swap l index (index - 1))
  end.

Definition listed_router (e : NeighborEntry) : bool :=
  is_router e && (ne_network_address e <? 0xFFF8).

Definition link_status_of (e : NeighborEntry) : LinkStatusEntry :=
  mk_LinkStatusEntry (ne_network_address e)
    (Z.min 7 (Z.max 1 (ne_incoming_cost e))) (ne_outgoing_cost e).

Fixpoint link_status_loop (neighbors : list NeighborEntry) (entries : list LinkStatusEntry)
    : list LinkStatusEntry :=
  match neighbors with
  | [] => entries
  | n :: rest =>
      let entry := link_status_of n in
      let pos := default (length entries)
                   (position (λ x, ls_address entry <? ls_address x) entries) in
      match vec_push MAX_NEIGHBORS entries entry with
      | None => entries
      | Some entries =>
          let index := (length entries - 1)%nat in
          link_status_loop rest (shift_to (index - pos) index entries)
      end
  end.

Definition router_link_status_entries (t : NeighborTable) : list LinkStatusEntry :=
  link_status_loop (List.filter listed_router (nt_iter t)) [].

Definition expires (max_age : Z) (e : NeighborEntry) : bool :=
  ne_active e && bool_decide (ne_relationship e = UnauthenticatedChild) && (max_age <=? ne_age e).

Fixpoint expire_loop (max_age : Z) (l : list NeighborEntry) (expired : list ShortAddress)
    : list NeighborEntry * list ShortAddress :=
  match l with
  | [] => ([], expired)
  | e :: l' =>
      let '(e, expired) :=
        if expires max_age e
        then (set_active false e, vec_push_ignore MAX_NEIGHBORS expired (ne_network_address e))
        else (e, expired) in
      let '(l'', expired) := expire_loop max_age l' expired in
      (e :: l'', expired)
  end.

Definition expire_unauthenticated (t : NeighborTable) (max_age : Z)
    : NeighborTable * list ShortAddress :=
  let '(entries, expired) := expire_loop max_age (nt_entries t) [] in
  (mk_NeighborTable entries (nt_count t), expired).

(** * Invariant *)

(** Field ranges of one slot. *)
Definition ne_wf (e : NeighborEntry) : Prop :=
  is_u8 (ne_lqi e) ∧ 1 <= ne_incoming_cost e <= 7 ∧ 0 <= ne_outgoing_cost e <= 7 ∧
  0 <= ne_link_status_age e <= ROUTER_AGE_LIMIT + 1 ∧ is_u16 (ne_age e).

#[export] Instance ne_wf_dec e : Decision (ne_wf e).
Proof. unfold ne_wf. apply _. Defined.

Definition nt_active_at (t : NeighborTable) (i : nat) (e : NeighborEntry) : Prop :=
  nt_entries t !! i = Some e ∧ ne_active e = true.

Record nt_wf (t : NeighborTable) : Prop := {
  nt_wf_length : length (nt_entries t) = MAX_NEIGHBORS;
  nt_wf_count : (nt_count t <= MAX_NEIGHBORS)%nat;
  nt_wf_below : ∀ i e, nt_active_at t i e → (i < nt_count t)%nat;
  nt_wf_unique : ∀ i j e e', nt_active_at t i e → nt_active_at t j e' →
    ne_network_address e = ne_network_address e' ∨ ne_ieee_address e = ne_ieee_address e' →
    i = j;
  nt_wf_fields : Forall ne_wf (nt_entries t) }.

(** A write through a mutable reference that keeps the slot's identity. *)
Definition keeps_identity (f : NeighborEntry → NeighborEntry) : Prop :=
  ∀ e, ne_network_address (f e) = ne_network_address e ∧
       ne_ieee_address (f e) = ne_ieee_address e ∧
       ne_active (f e) = ne_active e ∧ (ne_wf e → ne_wf (f e)).

Inductive nt_reachable : NeighborTable → Prop :=
| nt_reach_new : nt_reachable nt_new
| nt_reach_add t entry t' :
    nt_reachable t → ne_wf entry → add_or_update t entry = Ok t' → nt_reachable t'
| nt_reach_remove t addr : nt_reachable t → nt_reachable (nt_remove t addr)
| nt_reach_age t : nt_reachable t → nt_reachable (age_tick t)
| nt_reach_router_age t : nt_reachable t → nt_reachable (age_router_link_status t)
| nt_reach_expire t max_age : nt_reachable t → nt_reachable (expire_unauthenticated t max_age).1
| nt_reach_ieee_mut t addr f :
    nt_reachable t → keeps_identity f → nt_reachable (find_by_ieee_mut t addr f)
| nt_reach_short_mut t addr f :
    nt_reachable t → keeps_identity f → nt_reachable (find_by_short_mut t addr f)
| nt_reach_iter_mut t f :
    nt_reachable t → keeps_identity f → nt_reachable (nt_iter_mut_all t f).

(** ** Slot-wise updates

    Every operation except insertion only rewrites slots in place without
    activating any or renaming an active one. *)
Definition slot_le (e e' : NeighborEntry) : Prop :=
  (ne_wf e → ne_wf e') ∧
  (ne_active e' = true → ne_active e = true ∧
     ne_network_address e' = ne_network_address e ∧ ne_ieee_address e' = ne_ieee_address e).

#[export] Instance slot_le_refl : Reflexive slot_le.
Proof. intros e. split; auto. Qed.

Lemma nt_wf_slotwise t entries :
  nt_wf t → Forall2 slot_le (nt_entries t) entries →
  nt_wf (mk_NeighborTable entries (nt_count t)).
Proof.
  intros [Hlen Hcount Hbelow Huniq Hf] Hs.
  assert (∀ i e', entries !! i = Some e' → ne_active e' = true →
    ∃ e, nt_active_at t i e ∧ ne_network_address e' = ne_network_address e ∧
         ne_ieee_address e' = ne_ieee_address e) as Hback.
  { intros i e' Hi Ha. destruct (Forall2_lookup_r _ _ _ _ _ Hs Hi) as (e & He & _ & Hle).
    destruct (Hle Ha) as (? & ? & ?). exists e. done. }
  split; simpl.
  - apply Forall2_length in Hs. lia.
  - done.
  - intros i e' [Hi Ha]. destruct (Hback i e' Hi Ha) as (e & He & _). eauto.
  - intros i j e1 e2 [Hi Ha1] [Hj Ha2].
    destruct (Hback _ _ Hi Ha1) as (x & Hx & -> & ->), (Hback _ _ Hj Ha2) as (y & Hy & -> & ->).
    eauto.
  - apply Forall_lookup. intros i e' Hi.
    destruct (Forall2_lookup_r _ _ _ _ _ Hs Hi) as (e & He & Hle & _).
    apply Hle. by eapply Forall_lookup_1.
Qed.

Lemma slot_le_set_active_false e : slot_le e (set_active false e).
Proof. destruct e. split; [done|simpl; done]. Qed.

Lemma slot_le_keeps_identity f e : keeps_identity f → slot_le e (f e).
Proof. intros Hf. destruct (Hf e) as (H1 & H2 & H3 & H4). unfold slot_le. rewrite H1, H2, H3. auto. Qed.

Lemma slotwise_fmap f l : (∀ e, slot_le e (f e)) → Forall2 slot_le l (f <$> l).
Proof. intros Hf. induction l; constructor; auto. Qed.

Lemma slotwise_refl l : Forall2 slot_le l l.
Proof. induction l; constructor; done. Qed.

Lemma slotwise_modify_first p f l :
  (∀ e, slot_le e (f e)) → Forall2 slot_le l (modify_first p f l).
Proof.
  intros Hf. unfold modify_first. destruct (position p l) as [i|]; [|apply slotwise_refl].
  revert i. induction l as [|x l IH]; intros [|i]; constructor; auto using slotwise_refl; done.
Qed.

Lemma slotwise_counted t l :
  Forall2 slot_le (nt_counted t) l →
  Forall2 slot_le (nt_entries t) (l ++ drop (nt_count t) (nt_entries t)).
Proof.
  intros H. rewrite <- (take_drop (nt_count t) (nt_entries t)) at 1.
  apply Forall2_app; [done|apply slotwise_refl].
Qed.

Lemma nt_wf_update_where p f t :
  nt_wf t → (∀ e, slot_le e (f e)) → nt_wf (update_where p f t).
Proof.
  intros Ht Hf. apply nt_wf_slotwise; [done|]. apply slotwise_fmap.
  intros e. destruct (_ && _); [apply Hf|done].
Qed.

Lemma slot_le_age v e : is_u16 v → slot_le e (set_age v e).
Proof. intros. destruct e. unfold slot_le, ne_wf. simpl. naive_solver. Qed.

Lemma link_cost_range lqi : 1 <= link_cost_from_lqi lqi <= 7.
Proof. unfold link_cost_from_lqi. repeat case_match; lia. Qed.

Lemma slot_le_age_link_status e : slot_le e (age_link_status e).
Proof.
  unfold age_link_status, slot_le, ne_wf, ROUTER_AGE_LIMIT, saturating_add_u8.
  destruct e; simpl. case_match; simpl; (split; [|done]); intros; split_and!; naive_solver lia.
Qed.

Lemma age_link_status_keeps e :
  ne_active (age_link_status e) = ne_active e ∧ is_router (age_link_status e) = is_router e ∧
  ne_relationship (age_link_status e) = ne_relationship e ∧
  ne_incoming_cost (age_link_status e) = ne_incoming_cost e.
Proof. unfold age_link_status. case_match; by destruct e. Qed.

Lemma vec_push_ignore_room {A} cap (l : list A) x :
  (length l < cap)%nat → vec_push_ignore cap l x = l ++ [x].
Proof. intros. unfold vec_push_ignore, vec_push. by rewrite (proj2 (Nat.ltb_lt _ _)). Qed.

Lemma expire_loop_eq max_age l expired :
  (length expired + length l <= MAX_NEIGHBORS)%nat →
  expire_loop max_age l expired =
  ((λ e, if expires max_age e then set_active false e else e) <$> l,
   expired ++ (ne_network_address <$> List.filter (expires max_age) l)).
Proof.
  revert expired. induction l as [|e l IH]; intros expired Hlen; simpl in *.
  { by rewrite app_nil_r. }
  destruct (expires max_age e).
  - rewrite vec_push_ignore_room, IH by (rewrite ?length_app; simpl; lia).
    by rewrite <- app_assoc.
  - by rewrite IH by lia.
Qed.

(** ** Lookups

    Below the mark is everything that is active, so searches of the counted
    prefix are searches of the whole array. *)
Lemma inactive_above t e : nt_wf t → e ∈ drop (nt_count t) (nt_entries t) → ne_active e = false.
Proof.
  intros Ht [i Hi]%list_elem_of_lookup. rewrite lookup_drop in Hi.
  destruct (ne_active e) eqn:Ha; [|done].
  pose proof (nt_wf_below _ Ht _ e (conj Hi Ha)). lia.
Qed.

Lemma position_counted t p :
  nt_wf t → (∀ e, p e = true → ne_active e = true) →
  position p (nt_counted t) = position p (nt_entries t).
Proof.
  intros Ht Hp. rewrite <- (take_drop (nt_count t) (nt_entries t)) at 1.
  symmetry. apply position_app_None. intros e He%inactive_above; [|done].
  destruct (p e) eqn:Hpe; [|done]. apply Hp in Hpe. congruence.
Qed.

Lemma find_counted t p :
  nt_wf t → (∀ e, p e = true → ne_active e = true) →
  List.find p (nt_counted t) = List.find p (nt_entries t).
Proof.
  intros Ht Hp. rewrite !find_position, position_counted by done.
  destruct (position p (nt_entries t)) as [i|] eqn:Hi; [|done]. simpl.
  apply position_Some in Hi as (e & He & Hpe & _).
  unfold nt_counted. rewrite lookup_take_lt; [done|].
  eapply nt_wf_below; [done|]. split; [exact He|auto].
Qed.

Lemma elem_of_nt_iter t e : e ∈ nt_iter t ↔ ∃ i, nt_active_at t i e.
Proof.
  unfold nt_iter, nt_active_at. fold (retain ne_active (nt_entries t)).
  rewrite elem_of_retain, list_elem_of_lookup. naive_solver.
Qed.

Lemma find_active t p e :
  nt_wf t → (∀ x, p x = true → ne_active x = true) →
  (∀ i j x y, nt_active_at t i x → nt_active_at t j y → p x = true → p y = true → i = j) →
  List.find p (nt_counted t) = Some e ↔ e ∈ nt_iter t ∧ p e = true.
Proof.
  intros Ht Hp Hu. rewrite find_counted, find_position, elem_of_nt_iter by done. split.
  - destruct (position p _) as [i|] eqn:Hi; [|done]. simpl. intros He.
    apply position_Some in Hi as (x & Hx & Hpx & _). simplify_eq.
    split; [|done]. exists i. split; auto.
  - intros [[i [Hi Ha]] Hpe]. destruct (position p _) as [j|] eqn:Hj.
    + apply position_Some in Hj as (x & Hx & Hpx & _). simpl.
      rewrite (Hu i j e x (conj Hi Ha) (conj Hx (Hp _ Hpx)) Hpe Hpx) in Hi. congruence.
    + rewrite position_None in Hj. rewrite Hj in Hpe; [done|]. by eapply list_elem_of_lookup_2.
Qed.

Lemma ieee_eqb_eq a b : ieee_eqb a b = true ↔ a = b.
Proof. apply bool_decide_eq_true. Qed.

Lemma find_by_short_Some t s e :
  nt_wf t → find_by_short t s = Some e ↔ e ∈ nt_iter t ∧ ne_network_address e = s.
Proof.
  intros Ht. unfold find_by_short. rewrite find_active; [|done|..].
  - split; intros [Hin Hs]; (split; [done|]).
    + unfold at_short in Hs. by bool_simpl.
    + apply elem_of_nt_iter in Hin as (i & _ & Ha). unfold at_short. rewrite Ha, Hs, Z.eqb_refl. done.
  - intros x Hx. unfold at_short in Hx. by bool_simpl.
  - intros i j x y Hx Hy Hpx Hpy. unfold at_short in *. bool_simpl.
    eapply nt_wf_unique; [done..|]. left. congruence.
Qed.

Lemma find_by_ieee_Some t a e :
  nt_wf t → find_by_ieee t a = Some e ↔ e ∈ nt_iter t ∧ ne_ieee_address e = a.
Proof.
  intros Ht. unfold find_by_ieee. rewrite find_active; [|done|..].
  - split; intros [Hin Hs]; (split; [done|]).
    + unfold at_ieee in Hs. bool_simpl. by apply ieee_eqb_eq.
    + apply elem_of_nt_iter in Hin as (i & _ & Ha). unfold at_ieee.
      by rewrite Ha, (proj2 (ieee_eqb_eq _ _) Hs).
  - intros x Hx. unfold at_ieee in Hx. by bool_simpl.
  - intros i j x y Hx Hy Hpx Hpy. unfold at_ieee in *. bool_simpl.
    eapply nt_wf_unique; [done..|]. right.
    rewrite ieee_eqb_eq in *. congruence.
Qed.

(** ** Insertion *)
Definition deactivate_named (entry e : NeighborEntry) : NeighborEntry :=
  if names_either entry e then set_active false e else e.

Lemma merge_stale_found entry k i l :
  merge_stale entry (Some k) i l = (Some k, deactivate_named entry <$> l).
Proof.
  revert i. induction l as [|e l IH]; intros i; simpl; [done|].
  unfold deactivate_named at 1. destruct (names_either entry e); by rewrite IH.
Qed.

Lemma merge_stale_first entry i l :
  merge_stale entry None i l =
  match position (names_either entry) l with
  | None => (None, l)
  | Some j => (Some (i + j)%nat, take (S j) l ++ (deactivate_named entry <$> drop (S j) l))
  end.
Proof.
  revert i. induction l as [|e l IH]; intros i; [done|]. simpl.
  destruct (names_either entry e).
  - rewrite merge_stale_found. by rewrite drop_0, Nat.add_0_r.
  - rewrite IH. destruct (position _ l) as [j|]; simpl; [|done].
    by rewrite Nat.add_succ_r.
Qed.

Lemma deactivate_others entry l j entry' :
  position (names_either entry) l = Some j →
  <[j:=entry']> (take (S j) l ++ (deactivate_named entry <$> drop (S j) l)) =
  <[j:=entry']> (deactivate_named entry <$> l).
Proof.
  intros (e & He & _ & Hmin)%position_Some. apply list_eq. intros i.
  destruct (decide (i = j)) as [->|Hne].
  - pose proof (lookup_lt_Some _ _ _ He).
    rewrite !list_lookup_insert_eq; [done|..]; autorewrite with lens;
      rewrite ?length_fmap; autorewrite with lens; lia.
  - rewrite !list_lookup_insert_ne, list_lookup_fmap by done.
    pose proof (lookup_lt_Some _ _ _ He).
    destruct (decide (i < j)%nat) as [Hlt|].
    + rewrite lookup_app_l by (rewrite length_take; lia). rewrite lookup_take_lt by lia.
      destruct (l !! i) as [x|] eqn:Hx; [|done]. simpl.
      unfold deactivate_named. by rewrite (Hmin i x).
    + rewrite lookup_app_r, length_take, list_lookup_fmap, lookup_drop by (rewrite length_take; lia).
      do 3 f_equal. lia.
Qed.

Definition vacant (e : NeighborEntry) : bool := negb (ne_active e).
Definition victim_ok (e : NeighborEntry) : bool := ne_active e && is_evictable e.

(** Which relationships another device may displace: those that promise
    nothing, and a child that routes and has missed more than three Link
    Status periods. *)
Definition expendable (e : NeighborEntry) : Prop :=
  match ne_relationship e with
  | Sibling | PreviousChild => True
  | Child => (ne_device_type e = NRouter ∨ ne_device_type e = NCoordinator) ∧ 3 < ne_link_status_age e
  | Parent | UnauthenticatedChild => False
  end.

Lemma is_evictable_expendable e : is_evictable e = true ↔ expendable e.
Proof.
  unfold is_evictable, is_stale_router_child, expendable.
  destruct (ne_relationship e); simpl; try done. rewrite Z.ltb_antisym. unfold is_router, ROUTER_AGE_LIMIT.
  destruct (Z.leb_spec (ne_link_status_age e) 3), (ne_device_type e); simpl; intuition (done || lia).
Qed.

(** The order among expendable entries: whoever is not a child goes before
    every child, and among those alike the one silent for longest. *)
Definition lost_before (v x : NeighborEntry) : Prop :=
  (ne_relationship v = Child → ne_relationship x = Child) ∧
  ((ne_relationship v = Child ↔ ne_relationship x = Child) → ne_age x <= ne_age v).

(** Write [entry] to slot [j]. *)
Definition place (t : NeighborTable) (j : nat) (entry : NeighborEntry) (c : nat) : NeighborTable :=
  mk_NeighborTable (<[j := set_active true entry]> (nt_entries t)) c.

Definition without_named (t : NeighborTable) (entry : NeighborEntry) : NeighborTable :=
  mk_NeighborTable (deactivate_named entry <$> nt_entries t) (nt_count t).

Lemma add_or_update_eq t entry :
  nt_wf t →
  add_or_update t entry =
  match position (names_either entry) (nt_entries t) with
  | Some j => Ok (place (without_named t entry) j entry (nt_count t))
  | None =>
      match position vacant (nt_entries t) with
      | Some slot =>
          Ok (place t slot entry
                (if (nt_count t <? MAX_NEIGHBORS)%nat then S (nt_count t) else nt_count t))
      | None =>
          match max_position victim_ok (λ e, rank_key (eviction_rank e)) (nt_entries t) with
          | Some (victim, _) => Ok (place t victim entry (nt_count t))
          | None => Err tt
          end
      end
  end.
Proof.
  intros Ht. unfold add_or_update.
  assert (∀ e, names_either entry e = true → ne_active e = true) as Hact
    by (intros e He; unfold names_either in He; by bool_simpl).
  rewrite merge_stale_first, position_counted by done.
  destruct (position (names_either entry) (nt_entries t)) as [j|] eqn:Hj.
  - do 2 f_equal. unfold place, without_named; simpl.
    rewrite <- position_counted in Hj by done.
    pose proof (position_lt _ _ _ Hj) as Hlt.
    rewrite insert_app_l, deactivate_others
      by (done || autorewrite with lens; rewrite length_fmap; autorewrite with lens; lia).
    rewrite <- (take_drop (nt_count t) (nt_entries t)) at 2.
    rewrite fmap_app, insert_app_l by by rewrite length_fmap.
    fold (nt_counted t). do 2 f_equal. apply list_eq. intros i. rewrite list_lookup_fmap.
    destruct (drop _ _ !! i) as [y|] eqn:Hy; [|done]. simpl. f_equal. unfold deactivate_named.
    destruct (names_either entry y) eqn:Hn; [|done]. apply Hact in Hn.
    rewrite (inactive_above t y) in Hn by (done || by eapply list_elem_of_lookup_2). done.
  - unfold nt_counted. rewrite take_drop. done.
Qed.

Lemma set_active_true_fields entry :
  ne_network_address (set_active true entry) = ne_network_address entry ∧
  ne_ieee_address (set_active true entry) = ne_ieee_address entry ∧
  ne_active (set_active true entry) = true ∧ (ne_wf entry → ne_wf (set_active true entry)).
Proof. destruct entry. done. Qed.

Lemma place_active_at t j entry c i e :
  (j < length (nt_entries t))%nat →
  nt_active_at (place t j entry c) i e ↔
  (i = j ∧ e = set_active true entry) ∨ (i ≠ j ∧ nt_active_at t i e).
Proof.
  intros Hj. unfold nt_active_at, place; simpl.
  destruct (decide (i = j)) as [->|Hne].
  - rewrite list_lookup_insert_eq by done. pose proof (set_active_true_fields entry). naive_solver.
  - rewrite list_lookup_insert_ne by done. naive_solver.
Qed.

Lemma names_either_false entry e :
  ne_active e = true → names_either entry e = false →
  ne_network_address e ≠ ne_network_address entry ∧ ne_ieee_address e ≠ ne_ieee_address entry.
Proof.
  unfold names_either. intros -> H. simpl in H. bool_simpl. split; [done|].
  intros Heq%ieee_eqb_eq. congruence.
Qed.

Lemma nt_wf_place t j entry c :
  nt_wf t → (j < MAX_NEIGHBORS)%nat → (j < c)%nat → (nt_count t <= c <= MAX_NEIGHBORS)%nat →
  ne_wf entry → (∀ i e, i ≠ j → nt_active_at t i e → names_either entry e = false) →
  nt_wf (place t j entry c).
Proof.
  intros Ht Hj Hjc Hc Hwf Hn. pose proof (nt_wf_length _ Ht) as Hlen.
  destruct (set_active_true_fields entry) as (Hs1 & Hs2 & Hs3 & Hs4).
  assert (∀ i e, nt_active_at (place t j entry c) i e ↔
    (i = j ∧ e = set_active true entry) ∨ (i ≠ j ∧ nt_active_at t i e)) as Hat
    by (intros; apply place_active_at; lia).
  split.
  - simpl. by rewrite length_insert.
  - simpl. lia.
  - intros i e [[-> _]|[_ He%nt_wf_below]]%Hat; simpl; [lia|lia|done].
  - intros i i' e e' [[-> ->]|[Hi He]]%Hat [[-> ->]|[Hi' He']]%Hat; rewrite ?Hs1, ?Hs2; [done| | |].
    + destruct (names_either_false entry e') as [??]; [apply He'|eauto|]. intros [?|?]; congruence.
    + destruct (names_either_false entry e) as [??]; [apply He|eauto|]. intros [?|?]; congruence.
    + by apply (nt_wf_unique _ Ht).
  - apply Forall_insert; [apply Ht|auto].
Qed.

Lemma slot_le_deactivate_named entry e : slot_le e (deactivate_named entry e).
Proof. unfold deactivate_named. case_match; [apply slot_le_set_active_false|done]. Qed.

Lemma nt_wf_without_named t entry : nt_wf t → nt_wf (without_named t entry).
Proof.
  intros. apply nt_wf_slotwise; [done|]. apply slotwise_fmap, slot_le_deactivate_named.
Qed.

Lemma without_named_active_at t entry i e :
  nt_active_at (without_named t entry) i e ↔ nt_active_at t i e ∧ names_either entry e = false.
Proof.
  unfold nt_active_at, without_named; simpl. rewrite list_lookup_fmap. split.
  - intros [(x & Hx & ->)%fmap_Some Ha]. unfold deactivate_named in *.
    destruct (names_either entry x) eqn:?; [by destruct x|done].
  - intros [[-> Ha] Hn]. simpl. unfold deactivate_named. by rewrite Hn.
Qed.

(** The first vacant slot is at most the mark. *)
Lemma vacant_slot_below t slot :
  nt_wf t → position vacant (nt_entries t) = Some slot → (slot <= nt_count t)%nat.
Proof.
  intros Ht (e & He & _ & Hmin)%position_Some.
  destruct (decide (slot <= nt_count t)%nat); [done|].
  pose proof (lookup_lt_Some _ _ _ He).
  destruct (lookup_lt_is_Some_2 (nt_entries t) (nt_count t)) as [x Hx]; [lia|].
  specialize (Hmin (nt_count t) x ltac:(lia) Hx). unfold vacant in Hmin. bool_simpl.
  pose proof (nt_wf_below _ Ht _ _ (conj Hx Hmin)). lia.
Qed.

Lemma position_None_active t p i e :
  position p (nt_entries t) = None → nt_active_at t i e → p e = false.
Proof. intros Hp [Hi _]. rewrite position_None in Hp. apply Hp. by eapply list_elem_of_lookup_2. Qed.

(** What a successful insertion does: slot [j] of a table [t0] that has no
    other entry of either address, where [t0] is [t] less the named entries. *)
Lemma add_or_update_place t entry t' :
  nt_wf t → ne_wf entry → add_or_update t entry = Ok t' →
  ∃ j c, t' = place (without_named t entry) j entry c ∧
    nt_wf t' ∧ (j < MAX_NEIGHBORS)%nat ∧
    ∀ e, nt_entries t !! j = Some e →
      names_either entry e = true ∨
      (position (names_either entry) (nt_entries t) = None ∧
       (ne_active e = false ∨
        position vacant (nt_entries t) = None ∧ is_evictable e = true ∧
        ∀ i x, nt_active_at t i x → is_evictable x = true →
               rank_key (eviction_rank x) <= rank_key (eviction_rank e))).
Proof.
  intros Ht Hwf. rewrite add_or_update_eq by done.
  pose proof (nt_wf_length _ Ht) as Hlen. pose proof (nt_wf_count _ Ht) as Hcount.
  assert (∀ j c, (j < MAX_NEIGHBORS)%nat → (j < c)%nat → (nt_count t <= c <= MAX_NEIGHBORS)%nat →
    nt_wf (place (without_named t entry) j entry c)) as Hplace.
  { intros. apply nt_wf_place; [by apply nt_wf_without_named|done..|].
    intros i e _ [_ ?]%without_named_active_at. done. }
  destruct (position (names_either entry) (nt_entries t)) as [j|] eqn:Hn.
  - apply position_Some in Hn as (x & Hx & Hpx & _). intros [= <-].
    pose proof (lookup_lt_Some _ _ _ Hx).
    assert (j < nt_count t)%nat.
    { eapply nt_wf_below; [done|]. split; [exact Hx|]. unfold names_either in Hpx. by bool_simpl. }
    exists j, (nt_count t). split_and!; [done|apply Hplace; lia|lia|]. intros e He. simplify_eq. by left.
  - assert (without_named t entry = t) as Heq.
    { unfold without_named. destruct t as [l c]. simpl in *. f_equal. apply list_eq. intros i.
      rewrite list_lookup_fmap. destruct (l !! i) as [x|] eqn:Hx; [|done]. simpl.
      unfold deactivate_named. rewrite position_None in Hn. rewrite Hn; [done|].
      by eapply list_elem_of_lookup_2. }
    rewrite Heq in *.
    destruct (position vacant (nt_entries t)) as [slot|] eqn:Hv.
    + intros [= <-]. pose proof (vacant_slot_below _ _ Ht Hv). pose proof (position_lt _ _ _ Hv).
      eexists slot, _. split_and!; [done| |lia|].
      * destruct (_ <? _)%nat eqn:?; bool_simpl; apply Hplace; lia.
      * apply position_Some in Hv as (x & Hx & Hpx & _). unfold vacant in Hpx.
        intros e He. simplify_eq. bool_simpl. auto.
    + destruct (max_position _ _ _) as [[j k]|] eqn:Hm; [|done]. intros [= <-].
      apply max_position_Some in Hm as (x & Hx & Hpx & <- & Hmax).
      pose proof (lookup_lt_Some _ _ _ Hx). unfold victim_ok in Hpx. bool_simpl.
      pose proof (nt_wf_below _ Ht j x ltac:(done)).
      exists j, (nt_count t). split_and!; [done|apply Hplace; lia|lia|].
      intros e He. simplify_eq. right. split; [done|]. right. split_and!; [done..|].
      intros i y [Hy Hay] Hev. apply (Hmax i y); [done|]. unfold victim_ok. by rewrite Hay.
Qed.

Lemma add_or_update_wf t entry t' :
  nt_wf t → ne_wf entry → add_or_update t entry = Ok t' → nt_wf t'.
Proof. intros Ht Hwf Ha. by destruct (add_or_update_place _ _ _ Ht Hwf Ha) as (? & ? & _ & ? & _). Qed.

Lemma nt_new_wf : nt_wf nt_new.
Proof.
  split; simpl; try (unfold MAX_NEIGHBORS; lia).
  - intros i e [Hi%(list_elem_of_lookup_2 _ _ _) Ha]. change (e ∈ repeat ne_empty 32) in Hi.
    apply list_elem_of_In, repeat_spec in Hi. by subst.
  - intros i j e e' [Hi%(list_elem_of_lookup_2 _ _ _) Ha]. change (e ∈ repeat ne_empty 32) in Hi.
    apply list_elem_of_In, repeat_spec in Hi. by subst.
  - by apply (bool_decide_unpack (Forall ne_wf (nt_entries nt_new))).
Qed.

Lemma nt_reachable_wf t : nt_reachable t → nt_wf t.
Proof.
  induction 1 as [|t entry t' _ IH Hwf Ha|t addr _ IH|t _ IH|t _ IH|t max_age _ IH
    |t addr f _ IH Hf|t addr f _ IH Hf|t f _ IH Hf].
  - apply nt_new_wf.
  - by eapply add_or_update_wf.
  - apply nt_wf_slotwise; [done|]. apply slotwise_modify_first, slot_le_set_active_false.
  - apply nt_wf_slotwise; [done|]. unfold age_tick, update_where. simpl.
    apply Forall2_fmap_r, Forall2_same_length_lookup. split; [done|].
    intros i e e' He He'. simplify_eq/=. case_match; [|done].
    pose proof (Forall_lookup_1 _ _ _ _ (nt_wf_fields _ IH) He) as (_ & _ & _ & _ & ?).
    apply slot_le_age. ulia.
  - apply nt_wf_update_where; [done|]. apply slot_le_age_link_status.
  - unfold expire_unauthenticated. rewrite expire_loop_eq by (rewrite (nt_wf_length _ IH); done).
    apply nt_wf_slotwise; [done|]. apply slotwise_fmap. intros e.
    case_match; [apply slot_le_set_active_false|done].
  - apply nt_wf_slotwise; [done|]. apply slotwise_counted, slotwise_modify_first.
    intros e. by apply slot_le_keeps_identity.
  - apply nt_wf_slotwise; [done|]. apply slotwise_counted, slotwise_modify_first.
    intros e. by apply slot_le_keeps_identity.
  - apply nt_wf_update_where; [done|]. intros e. by apply slot_le_keeps_identity.
Qed.

Lemma rank_key_lex x y a b :
  is_u16 a → is_u16 b →
  rank_key (x, a) <= rank_key (y, b) ↔ (x = false ∧ y = true) ∨ (x = y ∧ a <= b).
Proof. unfold rank_key, is_u16. destruct x, y; simpl; intros; split; intuition (try done); lia. Qed.

Lemma rank_lost_before v x :
  is_u16 (ne_age v) → is_u16 (ne_age x) →
  rank_key (eviction_rank x) <= rank_key (eviction_rank v) → lost_before v x.
Proof.
  intros Hv Hx. unfold eviction_rank. rewrite rank_key_lex by done. rewrite !negb_false_iff, negb_true_iff.
  unfold lost_before. repeat case_bool_decide; intuition (try done).
Qed.

(** ** The link status list *)
Lemma swap_adjacent {A} (l1 l2 : list A) x y :
  slice_swap (l1 ++ y :: x :: l2) (S (length l1)) (length l1) = l1 ++ x :: y :: l2.
Proof.
  unfold slice_swap. rewrite !lookup_app_r, Nat.sub_diag by lia.
  replace (S (length l1) - length l1)%nat with 1%nat by lia. simpl.
  rewrite insert_app_r_alt, Nat.sub_diag by lia. simpl.
  rewrite insert_app_r_alt by lia.
  by replace (S (length l1) - length l1)%nat with 1%nat by lia.
Qed.

Lemma shift_to_insert l1 l2 x r :
  shift_to (length l2) (length l1 + length l2) (l1 ++ l2 ++ x :: r) = l1 ++ x :: l2 ++ r.
Proof.
  revert r. induction l2 as [|y l2 IH] using rev_ind; intros r; [done|].
  rewrite length_app, Nat.add_1_r. cbn [shift_to].
  replace (length l1 + S (length l2))%nat with (S (length (l1 ++ l2))) by (rewrite length_app; lia).
  rewrite Nat.sub_1_r. cbn [pred].
  replace (l1 ++ (l2 ++ [y]) ++ x :: r) with ((l1 ++ l2) ++ y :: x :: r) by by rewrite <- !app_assoc.
  rewrite swap_adjacent, length_app, <- !app_assoc. apply IH.
Qed.

(** One round of the loop inserts the entry in front of the first larger one. *)
Lemma link_status_round entries entry :
  (length entries < MAX_NEIGHBORS)%nat →
  let pos := default (length entries)
               (position (λ x, ls_address entry <? ls_address x) entries) in
  vec_push MAX_NEIGHBORS entries entry = Some (entries ++ [entry]) ∧
  shift_to (length entries - pos) (length entries) (entries ++ [entry]) =
  take pos entries ++ entry :: drop pos entries.
Proof.
  intros Hlen pos. split; [unfold vec_push; by rewrite (proj2 (Nat.ltb_lt _ _))|].
  assert (pos <= length entries)%nat.
  { unfold pos. destruct (position _ _) eqn:Hp; simpl; [|lia]. apply position_lt in Hp. lia. }
  pose proof (shift_to_insert (take pos entries) (drop pos entries) entry []) as H'.
  revert H'. rewrite app_nil_r, app_assoc, take_drop, length_take, length_drop.
  by replace (pos `min` length entries + (length entries - pos))%nat with (length entries) by lia.
Qed.

Definition ls_lt (a b : LinkStatusEntry) : Prop := ls_address a < ls_address b.

#[export] Instance ls_lt_transitive : Transitive ls_lt.
Proof. unfold ls_lt. intros a b c. lia. Qed.

Lemma sorted_insert entries entry :
  StronglySorted ls_lt entries → ls_address entry ∉ ls_address <$> entries →
  let pos := default (length entries)
               (position (λ x, ls_address entry <? ls_address x) entries) in
  StronglySorted ls_lt (take pos entries ++ entry :: drop pos entries).
Proof.
  intros Hs Hnot. induction Hs as [|x l Hs IH Hx]; simpl; [repeat constructor|].
  rewrite fmap_cons, not_elem_of_cons in Hnot. destruct Hnot as [Hne Hnot].
  destruct (Z.ltb_spec (ls_address entry) (ls_address x)) as [Hlt|Hge]; simpl.
  - constructor; [by constructor|]. constructor; [done|].
    eapply Forall_impl; [exact Hx|]. intros y. unfold ls_lt. lia.
  - specialize (IH Hnot). simpl in IH.
    destruct (position _ l) as [j|]; simpl in *; (constructor; [exact IH|]);
      (apply Forall_app; split; [by apply Forall_take|]);
      (constructor; [unfold ls_lt; lia|by apply Forall_drop]).
Qed.

Lemma link_status_loop_spec neighbors entries :
  (length entries + length neighbors <= MAX_NEIGHBORS)%nat →
  NoDup ((ls_address <$> entries) ++ (ne_network_address <$> neighbors)) →
  StronglySorted ls_lt entries →
  link_status_loop neighbors entries ≡ₚ entries ++ (link_status_of <$> neighbors) ∧
  StronglySorted ls_lt (link_status_loop neighbors entries).
Proof.
  revert entries. induction neighbors as [|n ns IH]; intros entries Hlen Hnd Hs; simpl in *.
  { by rewrite app_nil_r. }
  destruct (link_status_round entries (link_status_of n)) as [-> Hsh]; [lia|].
  rewrite length_app, Nat.add_sub. simpl in Hsh.
  change (ls_address (link_status_of n)) with (ne_network_address n) in *. rewrite Hsh.
  set (pos := default _ _).
  assert (ls_address (link_status_of n) ∉ ls_address <$> entries) as Hnot.
  { simpl. intros Hin. apply NoDup_app in Hnd as (_ & Hd & _). apply (Hd _ Hin). by left. }
  pose proof (sorted_insert entries (link_status_of n) Hs Hnot) as Hs'.
  assert (take pos entries ++ link_status_of n :: drop pos entries ≡ₚ link_status_of n :: entries)
    as Hperm by (rewrite <- Permutation_middle, take_drop; done).
  destruct (IH (take pos entries ++ link_status_of n :: drop pos entries)) as [Hp HS].
  - rewrite Hperm. simpl. lia.
  - rewrite Hperm. simpl. rewrite Permutation_middle. done.
  - exact Hs'.
  - split; [|done]. rewrite Hp, Hperm. simpl. by rewrite Permutation_middle.
Qed.

Lemma NoDup_fmap_filter {A K} (f : A → K) (p : A → bool) (l : list A) :
  (∀ i j x y, l !! i = Some x → l !! j = Some y → p x = true → p y = true → f x = f y → i = j) →
  NoDup (f <$> List.filter p l).
Proof.
  induction l as [|x l IH]; intros H; simpl; [constructor|].
  assert (NoDup (f <$> List.filter p l)) as Hnd.
  { apply IH. intros i j y z Hy Hz ? ? ?. cut (S i = S j); [lia|]. by eapply H. }
  destruct (p x) eqn:Hp; [|done]. rewrite fmap_cons. constructor; [|done].
  intros (y & Heq & Hy)%list_elem_of_fmap. fold (retain p l) in Hy.
  apply elem_of_retain in Hy as [[j Hj]%list_elem_of_lookup Hpy].
  by specialize (H 0%nat (S j) x y eq_refl Hj Hp Hpy Heq).
Qed.

Lemma nt_iter_NoDup t :
  nt_wf t → NoDup (ne_network_address <$> nt_iter t) ∧ NoDup (ne_ieee_address <$> nt_iter t).
Proof.
  intros Ht. split; apply NoDup_fmap_filter; intros i j x y Hi Hj Hx Hy Heq;
    eapply (nt_wf_unique t Ht); [by split|by split|auto..|by split|by split|auto].
Qed.

Lemma sublist_filter_fmap {A K} (f : A → K) (p : A → bool) (l : list A) :
  NoDup (f <$> l) → NoDup (f <$> List.filter p l).
Proof. intros H. eapply sublist_NoDup; [exact H|]. apply fmap_sublist. apply (retain_sublist p). Qed.

Lemma nt_len_iter t : nt_len t = length (nt_iter t).
Proof. unfold nt_len, nt_iter. induction (nt_entries t); simpl; [done|]. case_match; simpl; lia. Qed.

(** ** Aging of one slot *)
Definition age_if_router (e : NeighborEntry) : NeighborEntry :=
  if is_router e then age_link_status e else e.

Lemma find_by_short_aged t s :
  nt_wf t → find_by_short (age_router_link_status t) s = age_if_router <$> find_by_short t s.
Proof.
  intros Ht. unfold find_by_short.
  rewrite !find_counted; [|done|unfold at_short; intros; by bool_simpl
    |by apply nt_wf_update_where; [|apply slot_le_age_link_status]
    |unfold at_short; intros; by bool_simpl].
  unfold age_router_link_status, update_where. simpl.
  induction (nt_entries t) as [|e l IH]; [done|]. simpl.
  assert (at_short s (if ne_active e && is_router e then age_link_status e else e) = at_short s e) as ->.
  { case_match; [|done]. unfold at_short, age_link_status. case_match; by destruct e. }
  destruct (at_short s e) eqn:Hs; [|exact IH].
  apply andb_true_iff in Hs as [-> _]. done.
Qed.

Lemma age_iter n e :
  (0 < n)%nat → is_router e = true → ne_wf e →
  let e' := Nat.iter n age_if_router e in
  is_router e' = true ∧ ne_wf e' ∧ ne_relationship e' = ne_relationship e ∧
  ne_incoming_cost e' = ne_incoming_cost e ∧
  ne_awaiting_link_status e' = ne_awaiting_link_status e ∧
  ne_link_status_age e' = Z.min (ne_link_status_age e + Z.of_nat n) (ROUTER_AGE_LIMIT + 1) ∧
  ne_outgoing_cost e' =
    if ROUTER_AGE_LIMIT <? ne_link_status_age e + Z.of_nat n then 0 else ne_outgoing_cost e.
Proof.
  intros Hn Hr Hwf. induction n as [|n IH]; [lia|]. cbv zeta. rewrite Nat.iter_succ.
  assert (∀ x, is_router x = true → ne_wf x →
    let x' := age_if_router x in
    is_router x' = true ∧ ne_wf x' ∧ ne_relationship x' = ne_relationship x ∧
    ne_incoming_cost x' = ne_incoming_cost x ∧
    ne_awaiting_link_status x' = ne_awaiting_link_status x ∧
    ne_link_status_age x' = Z.min (ne_link_status_age x + 1) (ROUTER_AGE_LIMIT + 1) ∧
    ne_outgoing_cost x' = if ROUTER_AGE_LIMIT <? ne_link_status_age x + 1 then 0 else ne_outgoing_cost x)
    as Hstep.
  { clear. intros x Hr Hwf. unfold age_if_router. rewrite Hr.
    pose proof (slot_le_age_link_status x) as [Hle _].
    split_and!; [| |unfold age_link_status; destruct x; simpl; case_match; done ..| |];
      [by destruct (age_link_status_keeps x) as (_ & -> & _)|by apply Hle|..];
      destruct Hwf as (_ & _ & _ & Hage & _); unfold age_link_status; destruct x; simpl in *;
      unfold ROUTER_AGE_LIMIT, saturating_add_u8 in *; repeat case_match; bool_simpl; simpl; lia. }
  destruct (decide (n = 0%nat)) as [->|Hn0].
  { destruct (Hstep e Hr Hwf) as (?&?&?&?&?&?&?). done. }
  destruct IH as (H1 & H2 & H3 & H4 & H5 & H6 & H7); [lia|].
  destruct (Hstep _ H1 H2) as (?&?&?&?&?&G6&G7). destruct Hwf as (_ & _ & _ & Hage & _).
  split_and!; [done|done|congruence..| |].
  - rewrite G6, H6. unfold ROUTER_AGE_LIMIT. lia.
  - rewrite G7, H7, H6. unfold ROUTER_AGE_LIMIT in *. repeat case_match; bool_simpl; lia.
Qed.

Lemma nt_reachable_iter_age n t :
  nt_reachable t → nt_reachable (Nat.iter n age_router_link_status t).
Proof. intros Ht. induction n; [done|]. rewrite Nat.iter_succ. by constructor. Qed.

Lemma find_by_short_iter_aged n t s :
  nt_reachable t →
  find_by_short (Nat.iter n age_router_link_status t) s =
  Nat.iter n age_if_router <$> find_by_short t s.
Proof.
  intros Ht. induction n as [|n IH]; [by rewrite option_fmap_id|].
  rewrite Nat.iter_succ, find_by_short_aged, IH by by apply nt_reachable_wf, nt_reachable_iter_age.
  by destruct (find_by_short t s).
Qed.

Lemma find_by_short_fields t s e : nt_wf t → find_by_short t s = Some e → ne_wf e.
Proof.
  intros Ht (Hin & _)%find_by_short_Some; [|done].
  apply elem_of_nt_iter in Hin as (i & Hi & _).
  by eapply Forall_lookup_1; [apply nt_wf_fields|].
Qed.

Lemma observe_frame_keeps_identity lqi : is_u8 lqi → keeps_identity (observe_frame lqi).
Proof.
  intros Hl e. unfold observe_frame, update_incoming_cost_from_lqi, ne_wf. destruct e; simpl.
  split_and!; [done..|]. intros (H1 & _ & H). split_and!; [|apply link_cost_range|apply link_cost_range|apply H..].
  case_match; [done|]. ulia.
Qed.

Lemma link_cost_antitone a b : a <= b → link_cost_from_lqi b <= link_cost_from_lqi a.
Proof. intros. unfold link_cost_from_lqi. repeat case_match; bool_simpl; lia. Qed.

Lemma neighbor_absent t entry :
  nt_wf t → position (names_either entry) (nt_entries t) = None →
  find_by_short t (ne_network_address entry) = None ∧
  find_by_ieee t (ne_ieee_address entry) = None.
Proof.
  intros Ht Hn. split; apply eq_None_not_Some; intros [e He].
  - apply find_by_short_Some in He as [(i & Hi)%elem_of_nt_iter Heq]; [|done].
    pose proof (position_None_active _ _ _ _ Hn Hi) as Hf.
    apply names_either_false in Hf; [by destruct Hf|apply Hi].
  - apply find_by_ieee_Some in He as [(i & Hi)%elem_of_nt_iter Heq]; [|done].
    pose proof (position_None_active _ _ _ _ Hn Hi) as Hf.
    apply names_either_false in Hf; [by destruct Hf|apply Hi].
Qed.

Lemma nt_full_len t : nt_wf t → position vacant (nt_entries t) = None → nt_len t = MAX_NEIGHBORS.
Proof.
  intros Ht Hv. rewrite <- (nt_wf_length _ Ht). unfold nt_len. rewrite position_None in Hv.
  induction (nt_entries t) as [|e l IH]; [done|]. simpl.
  specialize (Hv e ltac:(left)) as He. unfold vacant in He. bool_simpl. rewrite He.
  f_equal. apply IH. intros x Hx. apply Hv. by right.
Qed.

Lemma existsb_position {A} (p : A → bool) l :
  existsb p l = match position p l with Some _ => true | None => false end.
Proof.
  induction l as [|x l IH]; [done|]. simpl. rewrite IH.
  destruct (p x); [done|]. by destruct (position p l).
Qed.

(** ** Concrete tables for the witnesses *)
Definition ex_entry (n : Z) (rel : Relationship) (dt : NeighborDeviceType) : NeighborEntry :=
  mk_NeighborEntry [n] n dt true true rel 200 2 3 0 1 false 0 8 0 true false false [9] true.

Definition ex_table : NeighborTable :=
  match add_or_update nt_new (ex_entry 7 Sibling NRouter) with
  | Ok t => match add_or_update t (ex_entry 3 UnauthenticatedChild NCoordinator) with
            | Ok t => t
            | _ => nt_new
            end
  | _ => nt_new
  end.

Lemma ex_table_reachable : nt_reachable ex_table.
Proof.
  eapply (nt_reach_add _ (ex_entry 3 UnauthenticatedChild NCoordinator)).
  - eapply (nt_reach_add _ (ex_entry 7 Sibling NRouter)); [constructor| |reflexivity].
    by apply (bool_decide_unpack _).
  - by apply (bool_decide_unpack _).
  - vm_compute. reflexivity.
Qed.

(** Successive insertions, a refused one leaving the table. *)
Definition add_all (l : list NeighborEntry) (t : NeighborTable) : NeighborTable :=
  fold_left (λ t e, match add_or_update t e with Ok t => t | _ => t end) l t.

Lemma add_all_reachable l t : nt_reachable t → Forall ne_wf l → nt_reachable (add_all l t).
Proof.
  intros Ht Hl. revert t Ht. induction Hl as [|e l He _ IH]; intros t Ht; [done|]. apply IH.
  destruct (add_or_update t e) eqn:Ha; [by eapply nt_reach_add|done..].
Qed.

(** What an insertion into slot [j] loses. *)
Lemma placed_lost t entry j c :
  nt_wf t →
  (∀ e, e ∈ nt_iter (place (without_named t entry) j entry c) ↔
    e = set_active true entry ∨ ∃ i, i ≠ j ∧ nt_active_at t i e ∧ names_either entry e = false) →
  (∀ e, nt_entries t !! j = Some e →
    names_either entry e = true ∨
    (position (names_either entry) (nt_entries t) = None ∧
     (ne_active e = false ∨
      position vacant (nt_entries t) = None ∧ is_evictable e = true ∧
      ∀ i x, nt_active_at t i x → is_evictable x = true →
             rank_key (eviction_rank x) <= rank_key (eviction_rank e)))) →
  ∃ lost : option NeighborEntry,
    (∀ e, e ∈ nt_iter (place (without_named t entry) j entry c) ↔ e = set_active true entry ∨
       (e ∈ nt_iter t ∧ ne_network_address e ≠ ne_network_address entry ∧
        ne_ieee_address e ≠ ne_ieee_address entry ∧ lost ≠ Some e)) ∧
    match lost with
    | None => True
    | Some v =>
        v ∈ nt_iter t ∧ nt_len t = MAX_NEIGHBORS ∧ expendable v ∧
        find_by_short t (ne_network_address entry) = None ∧
        find_by_ieee t (ne_ieee_address entry) = None ∧
        ∀ x, x ∈ nt_iter t → expendable x → lost_before v x
    end.
Proof.
  intros Ht Hin Hev.
  assert (∀ e, ne_active e = true → names_either entry e = false ↔
    ne_network_address e ≠ ne_network_address entry ∧ ne_ieee_address e ≠ ne_ieee_address entry) as Hname.
  { intros e He. unfold names_either, ieee_eqb. rewrite He, andb_true_l, orb_false_iff, Z.eqb_neq, bool_decide_eq_false. done. }
  assert (∀ e i, nt_active_at t i e → nt_active_at t j e → i = j) as Huniq
    by (intros e i H1 H2; eapply (nt_wf_unique _ Ht); eauto).
  destruct (nt_entries t !! j) as [v|] eqn:Hv.
  2:{ exists None. split; [|done]. intros e. rewrite Hin. setoid_rewrite elem_of_nt_iter. split.
      - intros [->|(i & ? & He & Hn)]; [by left|]. right. apply Hname in Hn as [??]; [|apply He]. eauto 10.
      - intros [->|([i He] & ? & ? & _)]; [by left|]. right. exists i. split_and!; [|done|apply Hname; [apply He|done]].
        intros ->. destruct He. congruence. }
  specialize (Hev v eq_refl).
  destruct (decide (ne_active v = true ∧ names_either entry v = false)) as [[Hav Hnv]|Hno].
  - exists (Some v). assert (nt_active_at t j v) as Hjv by done. split.
    + intros e. rewrite Hin. setoid_rewrite elem_of_nt_iter. split.
      * intros [->|(i & Hij & He & Hn)]; [by left|]. right. apply Hname in Hn as [??]; [|apply He].
        split_and!; [eauto|done..|]. intros [= ->]. by apply Hij, (Huniq e).
      * intros [->|([i He] & ? & ? & Hne)]; [by left|]. right. exists i.
        split_and!; [|done|apply Hname; [apply He|done]]. intros ->. destruct He. congruence.
    + destruct Hev as [?|[Hnone [?|(Hfull & Hevi & Hrank)]]]; [congruence..|].
      apply neighbor_absent in Hnone as [??]; [|done].
      assert (∀ i x, nt_active_at t i x → is_u16 (ne_age x)) as Hage.
      { intros i x [Hx _]. by apply (Forall_lookup_1 _ _ _ _ (nt_wf_fields _ Ht) Hx). }
      split_and!; [rewrite elem_of_nt_iter; eauto|by apply nt_full_len|by apply is_evictable_expendable|done|done|].
      intros x (i & Hx)%elem_of_nt_iter ?%is_evictable_expendable. apply rank_lost_before; eauto.
  - exists None. split; [|done]. intros e. rewrite Hin. setoid_rewrite elem_of_nt_iter. split.
    + intros [->|(i & ? & He & Hn)]; [by left|]. right. apply Hname in Hn as [??]; [|apply He]. eauto 10.
    + intros [->|([i He] & ? & ? & _)]; [by left|]. right. exists i.
      assert (names_either entry e = false) by (apply Hname; [apply He|done]). split_and!; [|done..].
      intros ->. destruct He as [He ?]. assert (e = v) as -> by congruence. by apply Hno.
Qed.

(** * Properties *)

(** In every table reached from an empty one by insertions, removals,
    aging, expiry and identity-preserving writes, a lookup by network address
    or by IEEE address finds exactly the active entry of that address, so the
    two lookups agree on every entry, and the table holds at most 32. *)
Theorem neighbor_lookups_agree (t : NeighborTable) (s : ShortAddress) (a : IeeeAddress)
    (e : NeighborEntry) :
  nt_reachable t →
  (find_by_short t s = Some e ↔ e ∈ nt_iter t ∧ ne_network_address e = s) ∧
  (find_by_ieee t a = Some e ↔ e ∈ nt_iter t ∧ ne_ieee_address e = a) ∧
  (find_by_short t s = Some e → find_by_ieee t (ne_ieee_address e) = Some e) ∧
  (nt_len t <= MAX_NEIGHBORS)%nat ∧ (nt_count t <= MAX_NEIGHBORS)%nat.
Proof.
  intros Ht%nt_reachable_wf. split_and!.
  - by apply find_by_short_Some.
  - by apply find_by_ieee_Some.
  - rewrite find_by_short_Some, find_by_ieee_Some by done. by intros [? _].
  - rewrite <- (nt_wf_length _ Ht). apply count_le_length.
  - by apply nt_wf_count.
Qed.

Lemma neighbor_lookups_agree_witness :
  find_by_ieee ex_table [7] = Some (ex_entry 7 Sibling NRouter).
Proof.
  apply (neighbor_lookups_agree ex_table 7 [7] (ex_entry 7 Sibling NRouter));
    [apply ex_table_reachable|reflexivity].
Defined.

(** C27. Inserting an entry succeeds unless no active entry has either of its
    addresses and every slot holds a protected relationship.  On success both
    lookups return the new entry, every entry that shared an address is gone,
    and the others are kept but for at most one: a full table with no entry of
    either address loses a single expendable entry, a child only when every
    expendable entry is a child, and among those alike the one silent for
    longest.  A parent, a joining child or a live child is never displaced by
    another device. *)
Theorem neighbor_add_or_update_spec (t : NeighborTable) (entry : NeighborEntry) :
  nt_reachable t → ne_wf entry →
  match add_or_update t entry with
  | Ok t' =>
      find_by_short t' (ne_network_address entry) = Some (set_active true entry) ∧
      find_by_ieee t' (ne_ieee_address entry) = Some (set_active true entry) ∧
      ∃ lost : option NeighborEntry,
        (∀ e, e ∈ nt_iter t' ↔ e = set_active true entry ∨
           (e ∈ nt_iter t ∧ ne_network_address e ≠ ne_network_address entry ∧
            ne_ieee_address e ≠ ne_ieee_address entry ∧ lost ≠ Some e)) ∧
        match lost with
        | None => True
        | Some v =>
            v ∈ nt_iter t ∧ nt_len t = 32%nat ∧ expendable v ∧
            find_by_short t (ne_network_address entry) = None ∧
            find_by_ieee t (ne_ieee_address entry) = None ∧
            ∀ x, x ∈ nt_iter t → expendable x → lost_before v x
        end
  | Err _ =>
      find_by_short t (ne_network_address entry) = None ∧
      find_by_ieee t (ne_ieee_address entry) = None ∧ has_child_slot t = false ∧
      nt_len t = 32%nat ∧ ∀ x, x ∈ nt_iter t → ¬ expendable x
  | Panic => False
  end.
Proof.
  intros Ht%nt_reachable_wf Hwf. destruct (add_or_update t entry) as [t'|[]|] eqn:Ha.
  - destruct (add_or_update_place _ _ _ Ht Hwf Ha) as (j & c & -> & Ht' & Hj & Hev).
    assert (∀ e, e ∈ nt_iter (place (without_named t entry) j entry c) ↔
      e = set_active true entry ∨ ∃ i, i ≠ j ∧ nt_active_at t i e ∧ names_either entry e = false) as Hin.
    { intros e. rewrite elem_of_nt_iter. setoid_rewrite place_active_at;
        [|simpl; rewrite length_fmap, (nt_wf_length _ Ht); lia].
      setoid_rewrite without_named_active_at. naive_solver. }
    destruct (set_active_true_fields entry) as (Hs1 & Hs2 & _).
    split_and!; [apply find_by_short_Some; [done|]; rewrite Hin; auto
                |apply find_by_ieee_Some; [done|]; rewrite Hin; auto|].
    by eapply placed_lost.
  - rewrite add_or_update_eq in Ha by done.
    destruct (position (names_either entry) _) eqn:Hn; [done|].
    destruct (position vacant _) eqn:Hv; [done|].
    destruct (max_position _ _ _) as [[??]|] eqn:Hm; [done|].
    apply neighbor_absent in Hn as [??]; [|done]. apply max_position_None in Hm. split_and!; [done..| | |].
    + unfold has_child_slot. by rewrite (existsb_position vacant), (existsb_position victim_ok), Hv, Hm.
    + by apply nt_full_len.
    + intros x (i & Hx & Hax)%elem_of_nt_iter Hex%is_evictable_expendable.
      pose proof (proj1 (position_None _ _) Hm x ltac:(by eapply list_elem_of_lookup_2)) as Hvo. unfold victim_ok in Hvo.
      by rewrite Hax, Hex in Hvo.
  - rewrite add_or_update_eq in Ha by done. repeat case_match; done.
Qed.

(** A full table: a parent, thirty siblings of which that of address 9 has been
    silent for longest, and a router child that has missed four Link Status
    periods and been silent for longer still. *)
Definition ex_full_entry (n : Z) : NeighborEntry :=
  mk_NeighborEntry [n] n NRouter true true
    (if n =? 0 then Parent else if n =? 31 then Child else Sibling)
    200 2 3 (if n =? 31 then 4 else 0) 1 false
    (if n =? 31 then 500 else if n =? 9 then 300 else 100) 8 0 true false false [9] true.

Definition ex_full : NeighborTable :=
  add_all (ex_full_entry <$> [0; 1; 2; 3; 4; 5; 6; 7; 8; 9; 10; 11; 12; 13; 14; 15; 16; 17; 18; 19; 20;
    21; 22; 23; 24; 25; 26; 27; 28; 29; 30; 31]) nt_new.

Lemma neighbor_add_or_update_spec_witness :
  match add_or_update ex_full (ex_entry 77 Sibling NRouter) with
  | Ok t' =>
      find_by_short t' 77 = Some (ex_entry 77 Sibling NRouter) ∧
      find_by_short t' 9 = None ∧ find_by_short t' 31 = Some (ex_full_entry 31)
  | _ => False
  end.
Proof.
  assert (nt_reachable ex_full) as Hr.
  { apply add_all_reachable; [constructor|]. by apply (bool_decide_unpack _). }
  pose proof (neighbor_add_or_update_spec ex_full (ex_entry 77 Sibling NRouter) Hr
    (bool_decide_unpack (ne_wf (ex_entry 77 Sibling NRouter)) I)) as H.
  destruct (add_or_update ex_full (ex_entry 77 Sibling NRouter)) as [t'| |] eqn:Ha; [|vm_compute in Ha; discriminate Ha..].
  split; [apply H|]. vm_compute in Ha. injection Ha as <-. split; reflexivity.
Defined.

(** The link status list of a reachable table names exactly the active
    routers and coordinators with a unicast address, once each, in strictly
    ascending address order, with an incoming cost of 1 to 7 and the recorded
    outgoing cost; the bounded insertion never drops an entry. *)
Theorem neighbor_link_status_list (t : NeighborTable) :
  nt_reachable t →
  let entries := router_link_status_entries t in
  entries ≡ₚ (λ e, mk_LinkStatusEntry (ne_network_address e)
                     (Z.min 7 (Z.max 1 (ne_incoming_cost e))) (ne_outgoing_cost e)) <$>
             List.filter (λ e, is_router e && (ne_network_address e <? 0xFFF8)) (nt_iter t) ∧
  StronglySorted ls_lt entries ∧
  Forall (λ x, 1 <= ls_incoming_cost x <= 7 ∧ 0 <= ls_outgoing_cost x <= 7) entries.
Proof.
  intros Ht%nt_reachable_wf entries.
  assert (length (List.filter listed_router (nt_iter t)) <= MAX_NEIGHBORS)%nat as Hlen.
  { rewrite <- (nt_wf_length _ Ht). pose proof (count_le_length ne_active (nt_entries t)) as Hc.
    fold (nt_len t) in Hc. rewrite nt_len_iter in Hc.
    pose proof (sublist_length _ _ (retain_sublist listed_router (nt_iter t))) as Hl.
    unfold retain in Hl. lia. }
  destruct (link_status_loop_spec (List.filter listed_router (nt_iter t)) []) as [Hp Hs];
    [done|apply sublist_filter_fmap; by apply nt_iter_NoDup|constructor|].
  split_and!; [exact Hp|exact Hs|].
  unfold entries, router_link_status_entries. rewrite Hp, app_nil_l, Forall_fmap.
  apply Forall_forall. intros e He%elem_of_retain. destruct He as [[i [He _]]%elem_of_nt_iter _].
  pose proof (Forall_lookup_1 _ _ _ _ (nt_wf_fields _ Ht) He) as (_ & H1 & H2 & _).
  simpl. lia.
Qed.

Lemma neighbor_link_status_list_witness :
  StronglySorted ls_lt (router_link_status_entries ex_table) ∧
  router_link_status_entries ex_table = [mk_LinkStatusEntry 3 2 3; mk_LinkStatusEntry 7 2 3].
Proof.
  split; [apply (neighbor_link_status_list ex_table), ex_table_reachable|vm_compute; reflexivity].
Defined.

(** A router neighbor from which no Link Status arrives for [n > 0]
    periods has its age raised by [n] up to the limit plus one; its outgoing
    cost is kept while the age is within [nwkRouterAgeLimit] and is discarded
    after it, and from then on it is no confirmed direct hop and, if it is a
    router child, its slot may be reused. *)
Theorem neighbor_router_staleness (t : NeighborTable) (s : ShortAddress) (e : NeighborEntry)
    (n : nat) :
  nt_reachable t → find_by_short t s = Some e → is_router e = true → (0 < n)%nat →
  ∃ e', find_by_short (Nat.iter n age_router_link_status t) s = Some e' ∧
    ne_link_status_age e' = Z.min (ne_link_status_age e + Z.of_nat n) (ROUTER_AGE_LIMIT + 1) ∧
    (ne_link_status_age e + Z.of_nat n <= ROUTER_AGE_LIMIT →
       ne_outgoing_cost e' = ne_outgoing_cost e ∧
       is_confirmed_direct_hop e' = is_confirmed_direct_hop e) ∧
    (ROUTER_AGE_LIMIT < ne_link_status_age e + Z.of_nat n →
       ne_outgoing_cost e' = 0 ∧ is_confirmed_direct_hop e' = false ∧
       (ne_relationship e = Child → is_evictable e' = true)).
Proof.
  intros Ht Hf Hr Hn. exists (Nat.iter n age_if_router e).
  rewrite find_by_short_iter_aged, Hf by done. split; [done|].
  pose proof (find_by_short_fields _ _ _ (nt_reachable_wf _ Ht) Hf) as Hwf.
  destruct (age_iter n e Hn Hr Hwf) as (H1 & _ & H3 & H4 & H5 & H6 & H7).
  split_and!; [done|..]; intros Hlim.
  - rewrite (proj2 (Z.ltb_ge _ _)) in H7 by done. split; [done|].
    unfold is_confirmed_direct_hop. rewrite H1, H3, H4, H5, H6, H7, Hr.
    rewrite !(proj2 (Z.leb_le _ _)) by (unfold ROUTER_AGE_LIMIT in *; lia). done.
  - rewrite (proj2 (Z.ltb_lt _ _)) in H7 by done. split_and!; [done|..].
    + unfold is_confirmed_direct_hop. rewrite H1, H3, H6, H7.
      rewrite (proj2 (Z.leb_gt _ _)) by (unfold ROUTER_AGE_LIMIT in *; lia).
      rewrite andb_false_r. by destruct (ne_relationship e).
    + intros Hc. unfold is_evictable, is_stale_router_child.
      rewrite H1, H3, Hc, H6, bool_decide_true by done.
      rewrite (proj2 (Z.ltb_lt _ _)) by (unfold ROUTER_AGE_LIMIT in *; lia). done.
Qed.

Lemma neighbor_router_staleness_witness :
  is_confirmed_direct_hop (ex_entry 7 Sibling NRouter) = true ∧
  ∃ e', find_by_short (Nat.iter 4 age_router_link_status ex_table) 7 = Some e' ∧
        is_confirmed_direct_hop e' = false.
Proof.
  split; [reflexivity|].
  destruct (neighbor_router_staleness ex_table 7 (ex_entry 7 Sibling NRouter) 4) as (e' & H & _ & _ & H');
    [apply ex_table_reachable|reflexivity|reflexivity|lia|].
  exists e'. split; [exact H|]. apply H'. reflexivity.
Defined.

Lemma filter_expires max_age l :
  List.filter (expires max_age) l =
  List.filter (λ x, bool_decide (ne_relationship x = UnauthenticatedChild) && (max_age <=? ne_age x))
    (List.filter ne_active l).
Proof.
  induction l as [|x l IH]; [done|]. simpl. unfold expires at 1.
  destruct (ne_active x); simpl; by rewrite IH.
Qed.

(** Expiring provisional children reports the addresses of exactly the
    active unauthenticated children whose age has reached the limit, in slot
    order, removes exactly those, and leaves every other entry in place. *)
Theorem neighbor_expire_spec (t : NeighborTable) (max_age : Z) (e : NeighborEntry) :
  nt_reachable t →
  let '(t', expired) := expire_unauthenticated t max_age in
  expired = ne_network_address <$>
    List.filter (λ x, bool_decide (ne_relationship x = UnauthenticatedChild) && (max_age <=? ne_age x))
      (nt_iter t) ∧
  (e ∈ nt_iter t' ↔
   e ∈ nt_iter t ∧ ¬ (ne_relationship e = UnauthenticatedChild ∧ max_age <= ne_age e)) ∧
  (ne_network_address e ∈ expired → find_by_short t' (ne_network_address e) = None).
Proof.
  intros Hr. pose proof (nt_reachable_wf _ Hr) as Ht.
  pose proof (nt_reachable_wf _ (nt_reach_expire t max_age Hr)) as Ht'. revert Ht'.
  unfold expire_unauthenticated.
  rewrite expire_loop_eq by (simpl; rewrite (nt_wf_length _ Ht); done). simpl. intros Ht'.
  assert (∀ i e, nt_active_at (mk_NeighborTable ((λ e, if expires max_age e then set_active false e else e)
      <$> nt_entries t) (nt_count t)) i e ↔ nt_active_at t i e ∧ expires max_age e = false) as Hat.
  { clear. intros i e. unfold nt_active_at; simpl. rewrite list_lookup_fmap. split.
    - intros [(x & Hx & ->)%fmap_Some Ha]. destruct (expires max_age x) eqn:?; [by destruct x|done].
    - intros [[-> Ha] Hx]. simpl. by rewrite Hx. }
  split_and!; [by rewrite filter_expires|..].
  - rewrite !elem_of_nt_iter. setoid_rewrite Hat. unfold expires, nt_active_at.
    split.
    + intros (i & [Hi Ha] & Hx). split; [eauto|]. rewrite Ha in Hx. simpl in Hx.
      intros [Hu Hg]. rewrite bool_decide_true in Hx by done. simpl in Hx. bool_simpl. lia.
    + intros [(i & Hi & Ha) Hno]. exists i. split; [done|]. rewrite Ha. simpl.
      apply not_true_is_false. intros Hx. bool_simpl. by apply Hno.
  - intros (x & Heq & Hx)%list_elem_of_fmap. apply eq_None_not_Some. intros [y Hy].
    apply find_by_short_Some in Hy as [(j & [Hj Hex]%Hat)%elem_of_nt_iter Hny]; [|done].
    fold (retain (expires max_age) (nt_entries t)) in Hx.
    apply elem_of_retain in Hx as [[i Hi]%list_elem_of_lookup Hxe].
    assert (ne_active x = true) as Hxa by (unfold expires in Hxe; by bool_simpl).
    assert (i = j) as ->.
    { apply (nt_wf_unique _ Ht i j x y); [by split|done|left; congruence]. }
    destruct Hj. simplify_eq. congruence.
Qed.

Lemma neighbor_expire_spec_witness :
  find_by_short (expire_unauthenticated ex_table 0).1 3 = None.
Proof.
  pose proof (neighbor_expire_spec ex_table 0 (ex_entry 3 UnauthenticatedChild NCoordinator)
    ex_table_reachable) as H.
  destruct (expire_unauthenticated ex_table 0) as [t' x] eqn:Hx.
  destruct H as (Hexp & _ & H). apply H. rewrite Hexp. vm_compute. left.
Defined.
