(* ===== verification/NwkRouting.v ===== *)
(** Routing state: the first part of [zigbee-nwk/src/routing.rs] (router
    build): concentrator types, the source route table of a concentrator, the
    routing table with its route discoveries, and tree routing.

    All tables are arrays of slots with an [active] flag; an operation finds
    a slot with the iterator searches of the prelude and rewrites it. *)
From S2P Require Import Prelude.
From S2P Require Import ZigbeeTypes.

Local Open Scope Z_scope.

(** * Concentrators *)
Inductive ConcentratorType := LowRam | HighRam.

#[export] Instance ConcentratorType_eq_dec : EqDecision ConcentratorType.
Proof. solve_decision. Defined.

Definition rreq_options (c : ConcentratorType) : Z :=
  match c with LowRam => 0x10 | HighRam => 0x08 end.

Definition from_rreq_options (options : Z) : option ConcentratorType :=
  match Z.land (Z.shiftr options 3) 0x03 with
  | 1 => Some HighRam
  | 2 => Some LowRam
  | _ => None
  end.

(** [seed << k] on [u32] drops the bits that leave the word. *)
Definition shl_u32 (x k : Z) : Z := as_u32 (Z.shiftl x k).

Definition routing_random_sample (seed : Z) : Z :=
  let seed := Z.lxor seed 0xA511E9B3 in
  let seed := Z.lxor seed (shl_u32 seed 13) in
  let seed := Z.lxor seed (Z.shiftr seed 17) in
  Z.lxor seed (shl_u32 seed 5).

(** * Source routes *)
Definition MAX_SOURCE_ROUTE_RELAYS : nat := 8.
Definition MAX_SOURCE_ROUTES : nat := 32.

Record SourceRouteEntry := mk_SourceRouteEntry {
  sr_destination : ShortAddress; sr_relay_list : list ShortAddress;
  sr_age : Z; sr_active : bool }.

#[export] Instance SourceRouteEntry_eq_dec : EqDecision SourceRouteEntry.
Proof. solve_decision. Defined.

Definition sr_empty : SourceRouteEntry := mk_SourceRouteEntry 0xFFFF [] 0 false.

Abbreviation SourceRouteTable := (list SourceRouteEntry) (only parsing).

Definition srt_new : SourceRouteTable := repeat sr_empty MAX_SOURCE_ROUTES.

Definition sr_live (destination : ShortAddress) (e : SourceRouteEntry) : bool :=
  sr_active e && (sr_destination e =? destination).

(** [clear], then push the first eight relays; every push has room. *)
Definition copy_relays (relay_list : list ShortAddress) : list ShortAddress :=
  fold_left (vec_push_ignore MAX_SOURCE_ROUTE_RELAYS)
    (take MAX_SOURCE_ROUTE_RELAYS relay_list) [].

Definition srt_insert (t : SourceRouteTable) (destination : ShortAddress)
    (relay_list : list ShortAddress) : SourceRouteTable :=
  match position (sr_live destination) t with
  | Some i =>
      alter (λ e, mk_SourceRouteEntry (sr_destination e) (copy_relays relay_list) 0 (sr_active e)) i t
  | None =>
      let slot :=
        match position (λ e, negb (sr_active e)) t with
        | Some i => Some i
        | None => fst <$> max_position sr_active sr_age t
        end in
      match slot with
      | Some i => <[i := mk_SourceRouteEntry destination (copy_relays relay_list) 0 true]> t
      | None => t
      end
  end.

Definition srt_lookup (t : SourceRouteTable) (destination : ShortAddress) : option (list ShortAddress) :=
  sr_relay_list <$> List.find (sr_live destination) t.

Definition srt_entry_age (t : SourceRouteTable) (destination : ShortAddress) : option Z :=
  sr_age <$> List.find (sr_live destination) t.

Definition srt_remove (t : SourceRouteTable) (destination : ShortAddress) : SourceRouteTable :=
  modify_first (sr_live destination)
    (λ e, mk_SourceRouteEntry (sr_destination e) (sr_relay_list e) (sr_age e) false) t.

Definition srt_note_used (t : SourceRouteTable) (destination : ShortAddress) : SourceRouteTable :=
  modify_first (sr_live destination)
    (λ e, mk_SourceRouteEntry (sr_destination e) (sr_relay_list e) 0 (sr_active e)) t.

Definition srt_age_and_expire (t : SourceRouteTable) (elapsed_secs max_age : Z) : SourceRouteTable :=
  (λ e, if sr_active e then
          let age := saturating_add_u16 (sr_age e) elapsed_secs in
          mk_SourceRouteEntry (sr_destination e) (sr_relay_list e) age
            (if max_age <? age then false else sr_active e)
        else e) <$> t.

Definition srt_age_by (t : SourceRouteTable) (elapsed_secs : Z) : SourceRouteTable :=
  (λ e, if sr_active e then
          mk_SourceRouteEntry (sr_destination e) (sr_relay_list e)
            (saturating_add_u16 (sr_age e) elapsed_secs) (sr_active e)
        else e) <$> t.

Definition srt_len (t : SourceRouteTable) : nat := count sr_active t.
Definition srt_is_empty (t : SourceRouteTable) : bool := (srt_len t =? 0)%nat.

(** * The routing table *)
Definition MAX_ROUTES : nat := 32.
Definition MAX_ROUTE_DISCOVERIES : nat := 8.
Definition ROUTE_EXPIRY_SECS : Z := 600.
Definition ROUTE_EVICTION_MIN_AGE_SECS : Z := 10.
Definition ROUTE_DISCOVERY_TIMEOUT_US : Z := 10000000.

Inductive RouteStatus :=
| Active | DiscoveryUnderway | DiscoveryFailed | Inactive | ValidationUnderway.

#[export] Instance RouteStatus_eq_dec : EqDecision RouteStatus.
Proof. solve_decision. Defined.

Definition status_eqb (a b : RouteStatus) : bool := bool_decide (a = b).

Record RouteEntry := mk_RouteEntry {
  re_destination : ShortAddress;
  re_next_hop : ShortAddress;
  re_status : RouteStatus;
  re_many_to_one : bool;
  re_route_record_required : bool;
  re_route_record_every_frame : bool;
  re_group_id : bool;
  re_path_cost : Z;
  re_age : Z;
  re_active : bool }.

#[export] Instance RouteEntry_eq_dec : EqDecision RouteEntry.
Proof. solve_decision. Defined.

Definition re_empty : RouteEntry :=
  mk_RouteEntry 0xFFFF 0xFFFF Inactive false false false false 0xFF 0 false.

(** Field assignments. *)
Definition set_re_status (s : RouteStatus) (r : RouteEntry) : RouteEntry :=
  let 'mk_RouteEntry d h _ m rr rf g c a ac := r in mk_RouteEntry d h s m rr rf g c a ac.
Definition set_re_age (v : Z) (r : RouteEntry) : RouteEntry :=
  let 'mk_RouteEntry d h s m rr rf g c _ ac := r in mk_RouteEntry d h s m rr rf g c v ac.
Definition retire (r : RouteEntry) : RouteEntry :=
  let 'mk_RouteEntry d h _ m rr rf g c a _ := r in mk_RouteEntry d h Inactive m rr rf g c a false.
Definition set_re_record_required (b : bool) (r : RouteEntry) : RouteEntry :=
  let 'mk_RouteEntry d h s m _ rf g c a ac := r in mk_RouteEntry d h s m b rf g c a ac.

Record RouteDiscovery := mk_RouteDiscovery {
  rd_request_id : Z;
  rd_originator : ShortAddress;
  rd_destination : ShortAddress;
  rd_sender : ShortAddress;
  rd_forward_cost : Z;
  rd_residual_cost : Z;
  rd_timestamp : Z;
  rd_active : bool }.

#[export] Instance RouteDiscovery_eq_dec : EqDecision RouteDiscovery.
Proof. solve_decision. Defined.

Definition rd_empty : RouteDiscovery :=
  mk_RouteDiscovery 0 0xFFFF 0xFFFF 0xFFFF 0xFF 0xFF 0 false.

Definition set_rd_active (b : bool) (d : RouteDiscovery) : RouteDiscovery :=
  let 'mk_RouteDiscovery i o ds s f rc ts _ := d in mk_RouteDiscovery i o ds s f rc ts b.

Record RoutingTable := mk_RoutingTable {
  rt_routes : list RouteEntry; rt_discoveries : list RouteDiscovery }.

Definition rt_new : RoutingTable :=
  mk_RoutingTable (repeat re_empty MAX_ROUTES) (repeat rd_empty MAX_ROUTE_DISCOVERIES).

Definition with_routes (t : RoutingTable) (routes : list RouteEntry) : RoutingTable :=
  mk_RoutingTable routes (rt_discoveries t).
Definition with_discoveries (t : RoutingTable) (ds : list RouteDiscovery) : RoutingTable :=
  mk_RoutingTable (rt_routes t) ds.

(** [r.active && r.destination == destination], without and with
    [r.status == RouteStatus::Active]. *)
Definition re_for (destination : ShortAddress) (r : RouteEntry) : bool :=
  re_active r && (re_destination r =? destination).
Definition re_usable (destination : ShortAddress) (r : RouteEntry) : bool :=
  re_active r && (re_destination r =? destination) && status_eqb (re_status r) Active.

Definition rt_get_entry (t : RoutingTable) (destination : ShortAddress) : option RouteEntry :=
  List.find (re_usable destination) (rt_routes t).

Definition rt_next_hop (t : RoutingTable) (destination : ShortAddress) : option ShortAddress :=
  re_next_hop <$> List.find (re_usable destination) (rt_routes t).

(** [reclaim_slot]: the four classes of slots in order. *)
Definition reclaim_free (r : RouteEntry) : bool := negb (re_active r) && negb (re_many_to_one r).
Definition reclaim_idle (r : RouteEntry) : bool :=
  re_active r && negb (status_eqb (re_status r) Active).
Definition reclaim_lru (r : RouteEntry) : bool :=
  re_active r && status_eqb (re_status r) Active && negb (re_many_to_one r)
  && (ROUTE_EVICTION_MIN_AGE_SECS <=? re_age r).

Definition reclaim_slot (routes : list RouteEntry) : option nat :=
  match position reclaim_free routes with
  | Some i => Some i
  | None =>
      match max_position reclaim_idle re_age routes with
      | Some (i, _) => Some i
      | None =>
          match max_position reclaim_lru re_age routes with
          | Some (i, _) => Some i
          | None => position (λ r, negb (re_active r)) routes
          end
      end
  end.

Definition update_route (t : RoutingTable) (destination next_hop : ShortAddress) (cost : Z)
    : fallible RoutingTable :=
  match position (re_for destination) (rt_routes t) with
  | Some i =>
      Ok (with_routes t
            (alter (λ r, mk_RouteEntry (re_destination r) next_hop Active (re_many_to_one r)
                           (re_route_record_required r) (re_route_record_every_frame r)
                           (re_group_id r) cost 0 (re_active r)) i (rt_routes t)))
  | None =>
      match reclaim_slot (rt_routes t) with
      | None => Err tt
      | Some i =>
          Ok (with_routes t
                (<[i := mk_RouteEntry destination next_hop Active false false false false cost 0 true]>
                   (rt_routes t)))
      end
  end.

Definition rt_note_used (t : RoutingTable) (destination next_hop : ShortAddress) : RoutingTable :=
  with_routes t
    (modify_first
       (λ r, re_active r && status_eqb (re_status r) Active && (re_destination r =? destination)
             && (re_next_hop r =? next_hop))
       (set_re_age 0) (rt_routes t)).

Definition mark_discovery (t : RoutingTable) (destination : ShortAddress) : RoutingTable :=
  with_routes t (modify_first (re_for destination) (set_re_status DiscoveryUnderway) (rt_routes t)).

Definition rt_remove (t : RoutingTable) (destination : ShortAddress) : RoutingTable :=
  with_routes t (modify_first (re_for destination) retire (rt_routes t)).

Definition remove_through (t : RoutingTable) (addr : ShortAddress) : RoutingTable :=
  with_routes t
    ((λ r, if re_active r && negb (re_many_to_one r)
              && ((re_destination r =? addr) || (re_next_hop r =? addr))
           then retire r else r) <$> rt_routes t).

(** ** Route discoveries *)
Definition add_discovery (t : RoutingTable) (discovery : RouteDiscovery) : fallible RoutingTable :=
  match position (λ d, negb (rd_active d)) (rt_discoveries t) with
  | Some i => Ok (with_discoveries t (<[i := set_rd_active true discovery]> (rt_discoveries t)))
  | None => Err tt
  end.

Definition discoveries (t : RoutingTable) : list RouteDiscovery :=
  List.filter rd_active (rt_discoveries t).

Definition rd_identified (originator : ShortAddress) (request_id : Z) (d : RouteDiscovery) : bool :=
  rd_active d && (rd_originator d =? originator) && (rd_request_id d =? request_id).
Definition rd_numbered (request_id : Z) (d : RouteDiscovery) : bool :=
  rd_active d && (rd_request_id d =? request_id).

Definition find_discovery_for (t : RoutingTable) (originator : ShortAddress) (request_id : Z)
    : option RouteDiscovery :=
  List.find (rd_identified originator request_id) (rt_discoveries t).

(** A write [f] through the reference that [find_discovery_for_mut] returns. *)
Definition find_discovery_for_mut (t : RoutingTable) (originator : ShortAddress) (request_id : Z)
    (f : RouteDiscovery → RouteDiscovery) : RoutingTable :=
  with_discoveries t (modify_first (rd_identified originator request_id) f (rt_discoveries t)).

Definition complete_discovery_for (t : RoutingTable) (originator : ShortAddress) (request_id : Z)
    : RoutingTable :=
  find_discovery_for_mut t originator request_id (set_rd_active false).

Definition find_discovery (t : RoutingTable) (request_id : Z) : option RouteDiscovery :=
  List.find (rd_numbered request_id) (rt_discoveries t).

Definition has_active_discovery (t : RoutingTable) (destination : ShortAddress) : bool :=
  existsb (λ d, rd_active d && (rd_destination d =? destination)) (rt_discoveries t).

(** The route half of [fail_discovery_entry]. *)
Definition fail_route (destination : ShortAddress) (routes : list RouteEntry) : list RouteEntry :=
  modify_first
    (λ r, (re_destination r =? destination) && status_eqb (re_status r) DiscoveryUnderway)
    (set_re_status DiscoveryFailed) routes.

(** Abandon the discovery in slot [i]. *)
Definition fail_discovery_entry (t : RoutingTable) (i : nat) (d : RouteDiscovery) : RoutingTable :=
  mk_RoutingTable (fail_route (rd_destination d) (rt_routes t))
    (<[i := set_rd_active false d]> (rt_discoveries t)).

Definition fail_first (p : RouteDiscovery → bool) (t : RoutingTable) : RoutingTable :=
  match position p (rt_discoveries t) with
  | Some i => match rt_discoveries t !! i with
              | Some d => fail_discovery_entry t i d
              | None => t
              end
  | None => t
  end.

Definition fail_discovery (t : RoutingTable) (request_id : Z) : RoutingTable :=
  fail_first (rd_numbered request_id) t.

Definition fail_discovery_for (t : RoutingTable) (originator : ShortAddress) (request_id : Z)
    : RoutingTable :=
  fail_first (rd_identified originator request_id) t.

Definition complete_discovery (t : RoutingTable) (request_id : Z) : RoutingTable :=
  with_discoveries t (modify_first (rd_numbered request_id) (set_rd_active false) (rt_discoveries t)).

(** [expire_discoveries]: the loop over the discoveries threads the routes. *)
Fixpoint expire_discoveries_loop (max_age current_time : Z) (ds : list RouteDiscovery)
    (routes : list RouteEntry) : list RouteDiscovery * list RouteEntry :=
  match ds with
  | [] => ([], routes)
  | d :: ds' =>
      let '(d, routes) :=
        if rd_active d && (max_age <? wrapping_sub_u32 current_time (rd_timestamp d))
        then (set_rd_active false d, fail_route (rd_destination d) routes)
        else (d, routes) in
      let '(ds'', routes) := expire_discoveries_loop max_age current_time ds' routes in
      (d :: ds'', routes)
  end.

Definition expire_discoveries (t : RoutingTable) (max_age current_time : Z) : RoutingTable :=
  let '(ds, routes) := expire_discoveries_loop max_age current_time (rt_discoveries t) (rt_routes t) in
  mk_RoutingTable routes ds.

(** ** Many-to-one routes, aging and expiry *)
Definition has_failed_many_to_one (t : RoutingTable) (destination : ShortAddress) : bool :=
  match rt_get_entry t destination with
  | Some _ => false
  | None => existsb (λ r, negb (re_active r) && (re_destination r =? destination) && re_many_to_one r)
              (rt_routes t)
  end.

Definition update_route_many_to_one (t : RoutingTable) (destination next_hop : ShortAddress)
    (cost : Z) (concentrator_type : ConcentratorType) : fallible RoutingTable :=
  let no_route_cache := bool_decide (concentrator_type = LowRam) in
  match position (λ r, re_destination r =? destination) (rt_routes t) with
  | Some i =>
      Ok (with_routes t
            (alter (λ r,
               let new_or_changed_path := negb (re_active r) || negb (re_next_hop r =? next_hop) in
               mk_RouteEntry (re_destination r) next_hop Active true
                 (if no_route_cache || new_or_changed_path then true else re_route_record_required r)
                 no_route_cache (re_group_id r) cost 0 true) i (rt_routes t)))
  | None =>
      match reclaim_slot (rt_routes t) with
      | None => Err tt
      | Some i =>
          Ok (with_routes t
                (<[i := mk_RouteEntry destination next_hop Active true true no_route_cache false
                          cost 0 true]> (rt_routes t)))
      end
  end.

Definition clear_route_record_required (t : RoutingTable) (destination : ShortAddress) : RoutingTable :=
  with_routes t
    (modify_first (re_for destination)
       (λ r, if negb (re_route_record_every_frame r) then set_re_record_required false r else r)
       (rt_routes t)).

Definition rt_iter (t : RoutingTable) : list RouteEntry := List.filter re_active (rt_routes t).

Definition rt_age_by (t : RoutingTable) (elapsed_secs : Z) : RoutingTable :=
  with_routes t
    ((λ r, if re_active r then set_re_age (saturating_add_u16 (re_age r) elapsed_secs) r else r)
       <$> rt_routes t).

Definition rt_len (t : RoutingTable) : nat := count re_active (rt_routes t).
Definition rt_is_empty (t : RoutingTable) : bool := (rt_len t =? 0)%nat.

Definition expire_stale (t : RoutingTable) (max_age : Z) : RoutingTable :=
  with_routes t
    ((λ r, if re_active r && negb (re_many_to_one r)
              && negb (status_eqb (re_status r) DiscoveryUnderway)
           then if max_age <? re_age r then retire r else r
           else r) <$> rt_routes t).

(** ** Tree routing *)

(** [u32::checked_mul], [checked_add], [checked_sub] and [checked_pow]. *)
Definition checked_u32 (x : Z) : option Z :=
  if (0 <=? x) && (x <? 4294967296) then Some x else None.

Definition cskip_value (depth max_routers max_depth : Z) : Z :=
  if max_depth <=? depth then 0
  else
    let rm := max_routers in
    if rm =? 0 then 0
    else if rm =? 1 then 1
    else
      let cm := 20 in
      let remaining := max_depth - depth - 1 in
      match checked_u32 (rm ^ remaining) with
      | None => 0
      | Some rm_pow =>
          match (v ← checked_u32 (cm * rm_pow); v ← checked_u32 (v + rm); checked_u32 (v - (cm + 1))) with
          | None => 0
          | Some numerator =>
              let cskip := numerator / (rm - 1) in
              if cskip <? 65536 then cskip else 0
          end
      end.

(** [for i in 1..=max_routers]: [k] iterations are left, starting at [i]. *)
Fixpoint tree_route_loop (k : nat) (i our dst cskip : Z) : option Z :=
  match k with
  | O => None
  | S k' =>
      let child_addr := our + (i - 1) * cskip + 1 in
      if (child_addr <=? dst) && (dst <? child_addr + cskip)
      then Some (as_u16 child_addr)
      else tree_route_loop k' (i + 1) our dst cskip
  end.

Definition tree_route (our dst depth max_routers max_depth : Z) : option ShortAddress :=
  let cskip := cskip_value depth max_routers max_depth in
  if cskip =? 0 then None
  else if (our <? dst) && (dst <? our + cskip) then
    match tree_route_loop (Z.to_nat max_routers) 1 our dst cskip with
    | Some child => Some child
    | None => Some (as_u16 dst)
    end
  else None.

(** * Source routes: invariant *)
Record srt_wf (t : SourceRouteTable) : Prop := {
  srt_wf_length : length t = MAX_SOURCE_ROUTES;
  srt_wf_unique : ∀ i j e e', t !! i = Some e → t !! j = Some e' →
    sr_active e = true → sr_active e' = true → sr_destination e = sr_destination e' → i = j;
  srt_wf_relays : Forall (λ e, (length (sr_relay_list e) <= MAX_SOURCE_ROUTE_RELAYS)%nat) t }.

Inductive srt_reachable : SourceRouteTable → Prop :=
| srt_reach_new : srt_reachable srt_new
| srt_reach_insert t d relays : srt_reachable t → srt_reachable (srt_insert t d relays)
| srt_reach_remove t d : srt_reachable t → srt_reachable (srt_remove t d)
| srt_reach_note_used t d : srt_reachable t → srt_reachable (srt_note_used t d)
| srt_reach_expire t elapsed max_age :
    srt_reachable t → srt_reachable (srt_age_and_expire t elapsed max_age)
| srt_reach_age t elapsed : srt_reachable t → srt_reachable (srt_age_by t elapsed).

Lemma fold_push_room {A} cap (l acc : list A) :
  (length acc + length l <= cap)%nat → fold_left (vec_push_ignore cap) l acc = acc ++ l.
Proof.
  revert acc. induction l as [|x l IH]; intros acc Hlen; simpl in *; [by rewrite app_nil_r|].
  unfold vec_push_ignore at 2, vec_push. rewrite (proj2 (Nat.ltb_lt _ _)) by lia.
  rewrite IH by (rewrite length_app; simpl; lia). by rewrite <- app_assoc.
Qed.

Lemma copy_relays_eq relays : copy_relays relays = take MAX_SOURCE_ROUTE_RELAYS relays.
Proof. unfold copy_relays. rewrite fold_push_room; [done|]. rewrite length_take. cbn [length]. lia. Qed.

Lemma copy_relays_length relays : (length (copy_relays relays) <= MAX_SOURCE_ROUTE_RELAYS)%nat.
Proof. rewrite copy_relays_eq, length_take. lia. Qed.

Lemma sr_live_true d e : sr_live d e = true ↔ sr_active e = true ∧ sr_destination e = d.
Proof. unfold sr_live. by rewrite andb_true_iff, Z.eqb_eq. Qed.

(** Slot-wise rewriting that neither activates nor renames a slot. *)
Definition sr_le (e e' : SourceRouteEntry) : Prop :=
  sr_destination e' = sr_destination e ∧ (sr_active e' = true → sr_active e = true) ∧
  sr_relay_list e' = sr_relay_list e.

Lemma srt_wf_slotwise t t' : srt_wf t → Forall2 sr_le t t' → srt_wf t'.
Proof.
  intros [Hlen Hu Hr] Hs. split.
  - apply Forall2_length in Hs. lia.
  - intros i j e e' Hi Hj Ha Ha' Heq.
    destruct (Forall2_lookup_r _ _ _ _ _ Hs Hi) as (x & Hx & Hd & Hxa & _).
    destruct (Forall2_lookup_r _ _ _ _ _ Hs Hj) as (y & Hy & Hd' & Hya & _).
    eapply Hu; [done..| | |]; [auto|auto|congruence].
  - apply Forall_lookup. intros i e' Hi.
    destruct (Forall2_lookup_r _ _ _ _ _ Hs Hi) as (x & Hx & _ & _ & ->).
    by eapply (Forall_lookup_1 _ _ _ _ Hr).
Qed.

Lemma sr_le_fmap f t : (∀ e, sr_le e (f e)) → Forall2 sr_le t (f <$> t).
Proof. intros Hf. induction t; constructor; auto. Qed.

Lemma sr_le_modify_first p f t :
  (∀ e, sr_le e (f e)) → Forall2 sr_le t (modify_first p f t).
Proof.
  intros Hf. assert (Reflexive sr_le) by (by intros []). unfold modify_first.
  destruct (position p t) as [i|]; [|done].
  revert i. induction t as [|x t IH]; intros [|i]; constructor; auto; done.
Qed.

(** The slot that [srt_insert] writes, if no live entry has the destination. *)
Definition srt_slot (t : SourceRouteTable) : option nat :=
  match position (λ e, negb (sr_active e)) t with
  | Some i => Some i
  | None => fst <$> max_position sr_active sr_age t
  end.

Lemma srt_slot_Some t :
  t ≠ [] → ∃ i e, srt_slot t = Some i ∧ t !! i = Some e ∧
    (sr_active e = true → srt_len t = length t ∧ ∀ x, x ∈ t → sr_age x <= sr_age e).
Proof.
  intros Hne. unfold srt_slot. destruct (position _ t) as [i|] eqn:Hp.
  - apply position_Some in Hp as (e & He & Hpe & _). exists i, e. split_and!; [done..|].
    bool_simpl. congruence.
  - rewrite position_None in Hp.
    assert (∀ x, x ∈ t → sr_active x = true) as Hall.
    { intros x Hx. specialize (Hp x Hx). simpl in Hp. by bool_simpl. }
    destruct (max_position sr_active sr_age t) as [[i k]|] eqn:Hm; simpl.
    + apply max_position_Some in Hm as (e & He & Hpe & <- & Hmax). exists i, e.
      split_and!; [done..|]. intros _. split.
      * unfold srt_len. clear -Hall. induction t as [|x t IH]; [done|]. simpl.
        rewrite (Hall x) by left. f_equal. apply IH. intros. apply Hall. by right.
      * intros x [j Hj]%list_elem_of_lookup. apply (Hmax j x Hj), Hall.
        by eapply list_elem_of_lookup_2.
    + apply max_position_None in Hm. rewrite position_None in Hm.
      destruct t as [|x t]; [done|]. specialize (Hm x ltac:(left)). rewrite Hall in Hm by left. done.
Qed.

(** Insertion as one slot write. *)
Lemma srt_insert_eq t d relays :
  srt_wf t → ∃ i e,
    srt_insert t d relays = <[i := mk_SourceRouteEntry d (copy_relays relays) 0 true]> t ∧
    t !! i = Some e ∧
    (sr_live d e = true ∨
     position (sr_live d) t = None ∧
     (sr_active e = true → srt_len t = MAX_SOURCE_ROUTES ∧ ∀ x, x ∈ t → sr_age x <= sr_age e)).
Proof.
  intros Ht. unfold srt_insert. fold (srt_slot t).
  destruct (position (sr_live d) t) as [i|] eqn:Hp.
  - apply position_Some in Hp as (e & He & Hpe & _). exists i, e.
    rewrite (alter_insert _ _ _ e) by done. apply sr_live_true in Hpe as Hpe'. destruct Hpe' as [-> ->].
    auto.
  - destruct (srt_slot_Some t) as (i & e & -> & He & Hold).
    { intros ->. by apply srt_wf_length in Ht. }
    exists i, e. split_and!; [done..|]. right. split; [done|]. by rewrite <- (srt_wf_length _ Ht).
Qed.

Lemma srt_insert_wf t d relays : srt_wf t → srt_wf (srt_insert t d relays).
Proof.
  intros Ht. destruct (srt_insert_eq t d relays Ht) as (k & e & -> & He & Hcase).
  pose proof (lookup_lt_Some _ _ _ He) as Hk.
  assert (∀ j x, j ≠ k → t !! j = Some x → sr_active x = true → sr_destination x ≠ d) as Hno.
  { intros j x Hj Hx Hxa Hxd.
    assert (sr_live d x = true) as Hl by by apply sr_live_true. destruct Hcase as [Hl'|[Hnone _]].
    - apply sr_live_true in Hl' as [??]. apply Hj.
      apply (srt_wf_unique _ Ht j k x e); [done..|]. congruence.
    - rewrite position_None in Hnone. rewrite Hnone in Hl; [done|]. by eapply list_elem_of_lookup_2. }
  split.
  - rewrite length_insert. apply Ht.
  - intros i j x y Hi Hj Hxa Hya Heq.
    apply list_lookup_insert_Some in Hi as [(<- & <- & _)|[Hik Hi]],
      Hj as [(<- & <- & _)|[Hjk Hj]]; simpl in *; [done| | |].
    + by destruct (Hno j y).
    + by destruct (Hno i x).
    + by eapply (srt_wf_unique _ Ht).
  - apply Forall_insert; [apply Ht|]. apply copy_relays_length.
Qed.

Lemma srt_reachable_wf t : srt_reachable t → srt_wf t.
Proof.
  induction 1 as [|t d relays _ IH|t d _ IH|t d _ IH|t el m _ IH|t el _ IH].
  - split.
    + by rewrite <- (repeat_length sr_empty MAX_SOURCE_ROUTES).
    + intros i j e e' Hi _ Ha. apply list_elem_of_lookup_2 in Hi.
      apply list_elem_of_In, repeat_spec in Hi. by subst.
    + apply Forall_forall. intros e He%list_elem_of_In%repeat_spec. subst. simpl. lia.
  - by apply srt_insert_wf.
  - eapply srt_wf_slotwise; [done|]. apply sr_le_modify_first. by intros [].
  - eapply srt_wf_slotwise; [done|]. apply sr_le_modify_first. by intros [].
  - eapply srt_wf_slotwise; [done|]. apply sr_le_fmap. intros [? ? ? []]; repeat split; done.
  - eapply srt_wf_slotwise; [done|]. apply sr_le_fmap. intros [? ? ? []]; repeat split; done.
Qed.

Lemma srt_find_Some t d e :
  srt_wf t → List.find (sr_live d) t = Some e ↔ e ∈ t ∧ sr_active e = true ∧ sr_destination e = d.
Proof.
  intros Ht. rewrite find_unique_slot; [by rewrite sr_live_true|].
  intros i j x y Hi Hj [??]%sr_live_true [??]%sr_live_true.
  apply (srt_wf_unique _ Ht i j x y); [done..|]. congruence.
Qed.

Lemma find_live_expired el m d t :
  srt_wf t →
  List.find (sr_live d) (srt_age_and_expire t el m) =
  match List.find (sr_live d) t with
  | Some e => let age := saturating_add_u16 (sr_age e) el in
              if m <? age then None
              else Some (mk_SourceRouteEntry (sr_destination e) (sr_relay_list e) age true)
  | None => None
  end.
Proof.
  intros Ht.
  assert (srt_wf (srt_age_and_expire t el m)) as Ht'.
  { eapply srt_wf_slotwise; [done|]. apply sr_le_fmap. intros [? ? ? []]; repeat split; done. }
  apply option_eq. intros e'. rewrite srt_find_Some by done.
  unfold srt_age_and_expire. rewrite list_elem_of_fmap. split.
  - intros ((e & -> & He) & Ha & Hd). destruct (sr_active e) eqn:Hea; [|congruence]. simpl in *.
    assert (List.find (sr_live d) t = Some e) as -> by by apply srt_find_Some.
    destruct (m <? _); [done|]. by simplify_eq.
  - destruct (List.find _ t) as [e|] eqn:Hf; [|done].
    apply srt_find_Some in Hf as (He & Hea & Hd); [|done]. simpl.
    destruct (m <? _) eqn:Hm; intros [= <-]. simpl. split; [|done].
    exists e. rewrite Hea, Hm. done.
Qed.

(** * Routes: reclaiming a slot *)

(** What [reclaim_slot] may overwrite. *)
Definition reclaimable (r : RouteEntry) : bool :=
  negb (re_active r) || reclaim_idle r || reclaim_lru r.

Lemma status_eqb_eq a b : status_eqb a b = true ↔ a = b.
Proof. apply bool_decide_eq_true. Qed.

Lemma reclaim_slot_Some routes i :
  reclaim_slot routes = Some i → ∃ r, routes !! i = Some r ∧ reclaimable r = true.
Proof.
  unfold reclaim_slot, reclaimable.
  destruct (position reclaim_free routes) as [j|] eqn:H1.
  { intros [= <-]. apply position_Some in H1 as (r & Hr & Hp & _). exists r. split; [done|].
    unfold reclaim_free in Hp. by apply andb_true_iff in Hp as [-> _]. }
  destruct (max_position reclaim_idle re_age routes) as [[j k]|] eqn:H2.
  { intros [= <-]. apply max_position_Some in H2 as (r & Hr & Hp & _). exists r.
    by rewrite Hp, orb_true_r. }
  destruct (max_position reclaim_lru re_age routes) as [[j k]|] eqn:H3.
  { intros [= <-]. apply max_position_Some in H3 as (r & Hr & Hp & _). exists r.
    by rewrite Hp, orb_true_r. }
  intros (r & Hr & Hp & _)%position_Some. exists r. by rewrite Hp.
Qed.

Lemma reclaim_slot_None routes :
  reclaim_slot routes = None ↔ ∀ r, r ∈ routes → reclaimable r = false.
Proof.
  unfold reclaim_slot, reclaimable. split.
  - destruct (position reclaim_free routes) eqn:H1; [done|].
    destruct (max_position reclaim_idle re_age routes) as [[??]|] eqn:H2; [done|].
    destruct (max_position reclaim_lru re_age routes) as [[??]|] eqn:H3; [done|].
    rewrite max_position_None, position_None in H2, H3. rewrite position_None.
    intros H4 r Hr. by rewrite (H2 r), (H3 r), (H4 r).
  - intros H.
    assert (∀ p, (∀ r, p r = true → reclaimable r = true) → position p routes = None) as Hnone.
    { intros p Hp. apply position_None. intros r Hr. destruct (p r) eqn:Hpr; [|done].
      apply Hp in Hpr. unfold reclaimable in Hpr. by rewrite H in Hpr. }
    rewrite (Hnone reclaim_free); [|unfold reclaimable, reclaim_free; by intros r [-> _]%andb_true_iff].
    assert (max_position reclaim_idle re_age routes = None) as ->.
    { apply max_position_None, Hnone. unfold reclaimable. intros r ->. by rewrite orb_true_r. }
    assert (max_position reclaim_lru re_age routes = None) as ->.
    { apply max_position_None, Hnone. unfold reclaimable. intros r ->. by rewrite orb_true_r. }
    apply Hnone. unfold reclaimable. by intros r ->.
Qed.

(** A route that must survive: established, and either many-to-one or used
    within the last [ROUTE_EVICTION_MIN_AGE_SECS]. *)
Definition route_protected (r : RouteEntry) : bool :=
  re_active r && status_eqb (re_status r) Active
  && (re_many_to_one r || (re_age r <? ROUTE_EVICTION_MIN_AGE_SECS)).

Lemma reclaimable_protected r : reclaimable r = negb (route_protected r).
Proof.
  unfold reclaimable, reclaim_idle, reclaim_lru, route_protected.
  rewrite Z.leb_antisym.
  by destruct (re_active r), (status_eqb _ _), (re_many_to_one r), (re_age r <? _).
Qed.

Lemma re_usable_true d r :
  re_usable d r = true ↔ re_active r = true ∧ re_destination r = d ∧ re_status r = Active.
Proof. unfold re_usable. rewrite !andb_true_iff, Z.eqb_eq, status_eqb_eq. tauto. Qed.

Lemma re_for_true d r : re_for d r = true ↔ re_active r = true ∧ re_destination r = d.
Proof. unfold re_for. by rewrite andb_true_iff, Z.eqb_eq. Qed.

Lemma re_usable_for d r : re_usable d r = true → re_for d r = true.
Proof. intros (? & ? & _)%re_usable_true. by apply re_for_true. Qed.

(** Both installers write one slot of the array: that of the destination, or
    a reclaimed one. *)
Lemma install_route t (p : RouteEntry → bool) (f : RouteEntry → RouteEntry) fresh d t' :
  match position p (rt_routes t) with
  | Some i => Ok (with_routes t (alter f i (rt_routes t)))
  | None => match reclaim_slot (rt_routes t) with
            | None => Err tt
            | Some i => Ok (with_routes t (<[i := fresh]> (rt_routes t)))
            end
  end = Ok t' →
  (∀ r, p r = true → re_destination r = d) →
  (∀ r, re_for d r = true → p r = true) →
  (∀ r, p r = true → re_usable d (f r) = true) → re_usable d fresh = true →
  ∃ i r x, rt_routes t !! i = Some r ∧ rt_routes t' = <[i := x]> (rt_routes t) ∧
    rt_discoveries t' = rt_discoveries t ∧
    rt_get_entry t' d = Some x ∧ List.find (re_for d) (rt_routes t') = Some x ∧
    (p r = true ∧ List.find p (rt_routes t) = Some r ∧ x = f r ∨
     position p (rt_routes t) = None ∧ reclaimable r = true ∧ x = fresh).
Proof.
  intros H Hpd Hup Hfu Hfresh.
  assert (∀ i x, (i < length (rt_routes t))%nat → re_usable d x = true →
    (∀ j y, (j < i)%nat → rt_routes t !! j = Some y → p y = false) →
    List.find (re_usable d) (<[i:=x]> (rt_routes t)) = Some x ∧
    List.find (re_for d) (<[i:=x]> (rt_routes t)) = Some x) as Hfind.
  { intros i x Hi Hx Hmin. split; (apply find_insert_first; [done|by auto using re_usable_for|]);
      intros j y Hj Hy; apply not_true_is_false; intros Hc;
      specialize (Hmin j y Hj Hy); rewrite (Hup y) in Hmin; auto using re_usable_for; done. }
  destruct (position p (rt_routes t)) as [i|] eqn:Hp.
  - injection H as <-. pose proof (find_position p (rt_routes t)) as Hfp. rewrite Hp in Hfp.
    apply position_Some in Hp as (r & Hr & Hpr & Hmin). simpl in Hfp. rewrite Hr in Hfp.
    destruct (Hfind i (f r)) as [H1 H2]; [by eapply lookup_lt_Some|auto|done|].
    exists i, r, (f r). unfold rt_get_entry. simpl. rewrite (alter_insert _ _ _ r) by done.
    split_and!; auto.
  - destruct (reclaim_slot (rt_routes t)) as [i|] eqn:Hs; [|done]. injection H as <-.
    destruct (reclaim_slot_Some _ _ Hs) as (r & Hr & Hrec).
    destruct (Hfind i fresh) as [H1 H2]; [by eapply lookup_lt_Some|done| |].
    { intros j y _ Hy. rewrite position_None in Hp. apply Hp. by eapply list_elem_of_lookup_2. }
    exists i, r, fresh. unfold rt_get_entry. simpl. split_and!; auto.
Qed.

(** One slot write keeps the answer for every destination that neither the
    old nor the new content names. *)
Lemma get_entry_insert_other t i r x d' :
  rt_routes t !! i = Some r → re_usable d' r = false → re_usable d' x = false →
  rt_get_entry (with_routes t (<[i := x]> (rt_routes t))) d' = rt_get_entry t d'.
Proof.
  intros Hr Hu Hx. unfold rt_get_entry. simpl. apply find_insert_other; [done|].
  intros y Hy. by simplify_eq.
Qed.

(** Rewriting the entry of a destination in place keeps it the one found. *)
Lemma get_entry_modify t d x f :
  List.find (re_for d) (rt_routes t) = Some x → re_usable d (f x) = true →
  rt_get_entry (with_routes t (modify_first (re_for d) f (rt_routes t))) d = Some (f x).
Proof.
  rewrite find_position. unfold modify_first, rt_get_entry. simpl.
  destruct (position (re_for d) (rt_routes t)) as [i|] eqn:Hp; [|done]. simpl. intros Hx Hf.
  apply position_Some in Hp as (y & Hy & _ & Hmin). rewrite (alter_insert _ _ _ x) by done.
  apply find_insert_first; [by eapply lookup_lt_Some|done|].
  intros j z Hj Hz. apply not_true_is_false. intros Hc%re_usable_for.
  by rewrite (Hmin j z) in Hc.
Qed.

Lemma many_to_one_entry t d h cost c t' :
  update_route_many_to_one t d h cost c = Ok t' →
  ∃ x, rt_get_entry t' d = Some x ∧ re_next_hop x = h.
Proof.
  intros Hu. destruct (install_route t (λ r, re_destination r =? d) _ _ d t' Hu)
    as (i & r & x & _ & _ & _ & Hget & _ & Hcase).
  - by intros ? ?%Z.eqb_eq.
  - intros ? [_ ?]%re_for_true. by apply Z.eqb_eq.
  - intros ? ?%Z.eqb_eq. apply re_usable_true. auto.
  - by apply re_usable_true.
  - exists x. split; [done|]. by destruct Hcase as [(_ & _ & ->)|(_ & _ & ->)].
Qed.

(** * Route discoveries *)
Definition rd_expired (max_age current_time : Z) (d : RouteDiscovery) : bool :=
  max_age <? wrapping_sub_u32 current_time (rd_timestamp d).

Definition underway (destination : ShortAddress) (r : RouteEntry) : bool :=
  (re_destination r =? destination) && status_eqb (re_status r) DiscoveryUnderway.

(** Only the status changes, and only from underway to failed. *)
Definition fail_step (r r' : RouteEntry) : Prop :=
  r' = r ∨ (re_status r = DiscoveryUnderway ∧ r' = set_re_status DiscoveryFailed r).

#[export] Instance fail_step_refl : Reflexive fail_step.
Proof. by left. Qed.

#[export] Instance fail_step_trans : Transitive fail_step.
Proof.
  intros r1 r2 r3 [->|[H1 ->]] [->|[H2 ->]]; [by left|by right| |by destruct r1].
  right. done.
Qed.

Lemma fail_route_steps d routes : Forall2 fail_step routes (fail_route d routes).
Proof.
  unfold fail_route, modify_first. destruct (position _ routes) as [i|] eqn:Hp; [|done].
  apply position_Some in Hp as (r & Hr & Hpr & _). rewrite (alter_insert _ _ _ r) by done.
  rewrite <- (list_insert_id routes i r Hr) at 1. apply Forall2_insert; [done|].
  right. bool_simpl. by rewrite status_eqb_eq in *.
Qed.

Lemma fail_route_first d routes i :
  position (underway d) routes = Some i →
  ∃ r, fail_route d routes !! i = Some r ∧ re_status r = DiscoveryFailed ∧ re_destination r = d.
Proof.
  intros Hp. unfold fail_route, modify_first.
  change (λ r, (re_destination r =? d) && status_eqb (re_status r) DiscoveryUnderway) with (underway d).
  rewrite Hp. apply position_Some in Hp as (r & Hr & Hpr & _). unfold underway in Hpr.
  rewrite (alter_insert _ _ _ r), list_lookup_insert_eq by (done || by eapply lookup_lt_Some).
  eexists. split; [done|]. bool_simpl. by destruct r.
Qed.

Lemma fail_steps_failed routes routes' i r :
  Forall2 fail_step routes routes' → routes !! i = Some r → re_status r = DiscoveryFailed →
  ∃ r', routes' !! i = Some r' ∧ re_status r' = DiscoveryFailed.
Proof.
  intros Hs Hr Hf. destruct (Forall2_lookup_l _ _ _ _ _ Hs Hr) as (r' & Hr' & [->|[Hu _]]);
    [eauto|congruence].
Qed.

(** The first route underway to a destination either fails or stays first. *)
Lemma fail_steps_first d routes routes' i :
  Forall2 fail_step routes routes' → position (underway d) routes = Some i →
  position (underway d) routes' = Some i ∨
  ∃ r', routes' !! i = Some r' ∧ re_status r' = DiscoveryFailed.
Proof.
  intros Hs (r & Hr & Hpr & Hmin)%position_Some.
  destruct (Forall2_lookup_l _ _ _ _ _ Hs Hr) as (r' & Hr' & [->|[_ ->]]);
    [left|right; eexists; split; [done|by destruct r]].
  apply position_Some. exists r. split_and!; [done..|]. intros j y Hj Hy.
  destruct (Forall2_lookup_r _ _ _ _ _ Hs Hy) as (x & Hx & [->|[_ ->]]); [by eapply Hmin|].
  unfold underway. destruct x; simpl. apply andb_false_r.
Qed.

Lemma fail_route_changes d routes i r r' :
  routes !! i = Some r → fail_route d routes !! i = Some r' → r' ≠ r → re_destination r = d.
Proof.
  intros Hr. unfold fail_route, modify_first. destruct (position _ routes) as [j|] eqn:Hp.
  - apply position_Some in Hp as (x & Hx & Hpx & _). rewrite (alter_insert _ _ _ x) by done.
    destruct (decide (i = j)) as [->|Hne].
    + simplify_eq. intros _ _. by bool_simpl.
    + rewrite list_lookup_insert_ne by done. congruence.
  - congruence.
Qed.

Definition expiring (m now : Z) (d : RouteDiscovery) : bool := rd_active d && rd_expired m now d.

Lemma expire_loop_spec m now ds routes :
  let '(ds', routes') := expire_discoveries_loop m now ds routes in
  ds' = ((λ d, if expiring m now d then set_rd_active false d else d) <$> ds) ∧
  Forall2 fail_step routes routes' ∧
  (∀ d i, d ∈ ds → expiring m now d = true →
     position (underway (rd_destination d)) routes = Some i →
     ∃ r', routes' !! i = Some r' ∧ re_status r' = DiscoveryFailed) ∧
  (∀ i r r', routes !! i = Some r → routes' !! i = Some r' → r' ≠ r →
     ∃ d, d ∈ ds ∧ expiring m now d = true ∧ rd_destination d = re_destination r).
Proof.
  revert routes. induction ds as [|d0 ds IH]; intros routes; simpl.
  { split_and!; [done..| |congruence]. by intros ? ? ?%elem_of_nil. }
  change (rd_active d0 && (m <? wrapping_sub_u32 now (rd_timestamp d0))) with (expiring m now d0).
  destruct (expiring m now d0) eqn:He.
  - specialize (IH (fail_route (rd_destination d0) routes)).
    destruct (expire_discoveries_loop _ _ _ _) as [ds' routes'].
    destruct IH as (-> & Hs & Hfail & Hwhy). pose proof (fail_route_steps (rd_destination d0) routes) as Hs0.
    split_and!; [done|by etrans|..].
    + intros d i [->|Hd]%elem_of_cons Hex Hpos.
      * destruct (fail_route_first _ _ _ Hpos) as (r & Hr & Hst & _). by eapply fail_steps_failed.
      * destruct (fail_steps_first _ _ _ _ Hs0 Hpos) as [Hpos'|(r & Hr & Hst)]; [by eapply Hfail|].
        by eapply fail_steps_failed.
    + intros i r r' Hr Hr' Hne. destruct (Forall2_lookup_l _ _ _ _ _ Hs0 Hr) as (r1 & Hr1 & Hst).
      destruct (decide (r1 = r)) as [->|Hne1].
      * destruct (Hwhy i r r' Hr1 Hr' Hne) as (d & ? & ? & ?). exists d. split; [by right|done].
      * exists d0. split_and!; [left|done|]. symmetry. by eapply fail_route_changes.
  - specialize (IH routes). destruct (expire_discoveries_loop _ _ _ _) as [ds' routes'].
    destruct IH as (-> & Hs & Hfail & Hwhy). split_and!; [done..| |].
    + intros d i [->|Hd]%elem_of_cons; [congruence|by apply Hfail].
    + intros i r r' Hr Hr' Hne. destruct (Hwhy i r r' Hr Hr' Hne) as (d & ? & ? & ?).
      exists d. split; [by right|done].
Qed.

Lemma filter_active_expired m now ds :
  List.filter rd_active ((λ d, if expiring m now d then set_rd_active false d else d) <$> ds) =
  List.filter (λ d, negb (rd_expired m now d)) (List.filter rd_active ds).
Proof.
  induction ds as [|d ds IH]; [done|]. rewrite fmap_cons. cbn [List.filter]. rewrite IH.
  destruct (rd_active d) eqn:Ha, (rd_expired m now d) eqn:Hx;
    unfold expiring; cbn [List.filter]; rewrite ?Ha, ?Hx; simpl; rewrite ?Ha; try done.
  by destruct d.
Qed.

(** * Tree routing *)

(** The number of addresses below a router: itself and twenty times the
    geometric series, [1 + Cm * (1 + Rm + ... + Rm^(k-1))]. *)
Fixpoint geometric (rm : Z) (k : nat) : Z :=
  match k with O => 0 | S k' => 1 + rm * geometric rm k' end.

Definition tree_block (rm : Z) (k : nat) : Z := 1 + 20 * geometric rm k.

Lemma geometric_pow rm k : geometric rm k * (rm - 1) = rm ^ Z.of_nat k - 1.
Proof.
  induction k as [|k IH]; [simpl; lia|]. cbn [geometric].
  rewrite Nat2Z.inj_succ, Z.pow_succ_r by lia.
  replace ((1 + rm * geometric rm k) * (rm - 1))
    with (rm - 1 + rm * (geometric rm k * (rm - 1))) by ring. rewrite IH. lia.
Qed.

Lemma geometric_nonneg rm k : 0 <= rm → 0 <= geometric rm k.
Proof. intros. induction k; cbn [geometric]; nia. Qed.

Lemma checked_u32_fits x : 0 <= x < 4294967296 → checked_u32 x = Some x.
Proof. intros. unfold checked_u32. destruct (_ && _) eqn:H'; [done|]. bool_simpl; lia. Qed.

Lemma checked_u32_large x : 4294967296 <= x → checked_u32 x = None.
Proof. intros. unfold checked_u32. destruct (_ && _) eqn:H'; [|done]. bool_simpl; lia. Qed.

Lemma tree_block_div rm k :
  2 <= rm → (20 * rm ^ Z.of_nat k + rm - 21) / (rm - 1) = tree_block rm k.
Proof.
  intros. pose proof (geometric_pow rm k). unfold tree_block.
  symmetry. apply (Z.div_unique_exact); [lia|]. nia.
Qed.

Lemma cskip_value_block depth rm max_depth :
  2 <= rm < 256 → depth < max_depth →
  let b := tree_block rm (Z.to_nat (max_depth - depth - 1)) in
  cskip_value depth rm max_depth = if b <? 65536 then b else 0.
Proof.
  intros Hrm Hd b. unfold cskip_value.
  rewrite (proj2 (Z.leb_gt _ _)), !(proj2 (Z.eqb_neq _ _)) by lia.
  set (k := Z.to_nat (max_depth - depth - 1)) in *.
  replace (max_depth - depth - 1) with (Z.of_nat k) by lia.
  pose proof (geometric_pow rm k) as Hg. pose proof (geometric_nonneg rm k).
  assert (b = 1 + 20 * geometric rm k) as Hb by done. clearbody b.
  pose proof (tree_block_div rm k ltac:(lia)) as Hdiv. unfold tree_block in Hdiv. rewrite <- Hb in Hdiv.
  set (q := rm ^ Z.of_nat k) in *.
  destruct (Z.ltb_spec b 65536) as [Hlt|Hge].
  - assert (q < 838861 * 256) by nia.
    rewrite checked_u32_fits by nia.
    assert (20 * q < 4294967296 - 1000) by nia.
    cbn [mbind option_bind]. rewrite checked_u32_fits by nia. cbn [mbind option_bind].
    rewrite checked_u32_fits by nia. cbn [mbind option_bind]. rewrite checked_u32_fits by nia.
    replace (20 * q + rm - (20 + 1)) with (20 * q + rm - 21) by lia. rewrite Hdiv.
    by rewrite (proj2 (Z.ltb_lt _ _)).
  - destruct (checked_u32 q) as [v|] eqn:Hq; [|done].
    assert (v = q) as -> by (unfold checked_u32 in Hq; by case_match; simplify_eq).
    destruct (checked_u32 (20 * q)) as [v|] eqn:Hq2; [|done].
    assert (v = 20 * q) as -> by (unfold checked_u32 in Hq2; by case_match; simplify_eq).
    cbn [mbind option_bind].
    destruct (checked_u32 (20 * q + rm)) as [v|] eqn:Hq3; [|done].
    assert (v = 20 * q + rm) as -> by (unfold checked_u32 in Hq3; by case_match; simplify_eq).
    cbn [mbind option_bind].
    destruct (checked_u32 (20 * q + rm - (20 + 1))) as [v|] eqn:Hq4; [|done].
    assert (v = 20 * q + rm - 21) as -> by (unfold checked_u32 in Hq4; case_match; simplify_eq; lia).
    rewrite Hdiv. by rewrite (proj2 (Z.ltb_ge _ _)).
Qed.

Lemma cskip_value_cases depth rm max_depth :
  0 <= rm < 256 → cskip_value depth rm max_depth ≠ 0 → 0 < rm ∧ 0 < cskip_value depth rm max_depth.
Proof.
  intros Hrm Hne. destruct (decide (depth < max_depth)) as [Hd|Hd].
  2:{ unfold cskip_value in Hne. by rewrite (proj2 (Z.leb_le _ _)) in Hne by lia. }
  destruct (decide (rm = 0)) as [->|]; [|destruct (decide (rm = 1)) as [->|]].
  - unfold cskip_value in Hne. by case_match.
  - split; [lia|]. unfold cskip_value in *. rewrite (proj2 (Z.leb_gt _ _)) by lia. simpl. lia.
  - split; [lia|]. rewrite cskip_value_block in * by lia.
    pose proof (geometric_nonneg rm (Z.to_nat (max_depth - depth - 1)) ltac:(lia)).
    unfold tree_block in *. case_match; lia.
Qed.

(** * Properties *)

(** ** Concrete tables for the witnesses *)
Definition ex_sources : SourceRouteTable := srt_insert (srt_insert srt_new 5 [1; 2]) 6 [3].

Lemma ex_sources_reachable : srt_reachable ex_sources.
Proof. repeat constructor. Qed.

Definition ok_or {A} (d : A) (m : fallible A) : A := match m with Ok a => a | _ => d end.

Definition ex_routes : RoutingTable :=
  ok_or rt_new (update_route_many_to_one (ok_or rt_new (update_route rt_new 5 9 3)) 0 8 2 HighRam).

(** After a route record is stored, a lookup returns its first eight
    relays with a fresh age; every other destination keeps its path, except
    that a full table without the destination forgets one path of the highest
    age. *)
Theorem source_route_insert_spec (t : SourceRouteTable) (d : ShortAddress)
    (relays : list ShortAddress) :
  srt_reachable t →
  let t' := srt_insert t d relays in
  srt_lookup t' d = Some (take MAX_SOURCE_ROUTE_RELAYS relays) ∧ srt_entry_age t' d = Some 0 ∧
  ∀ d', d' ≠ d →
    srt_lookup t' d' = srt_lookup t d' ∨
    (srt_lookup t d = None ∧ srt_len t = MAX_SOURCE_ROUTES ∧ srt_lookup t' d' = None ∧
     ∃ a, srt_entry_age t d' = Some a ∧
          ∀ d'' a'', srt_entry_age t d'' = Some a'' → a'' <= a).
Proof.
  intros Ht%srt_reachable_wf t'. pose proof (srt_insert_wf t d relays Ht) as Ht'. fold t' in Ht'.
  destruct (srt_insert_eq t d relays Ht) as (i & e & Heq & He & Hcase). fold t' in Heq.
  set (new := mk_SourceRouteEntry d (copy_relays relays) 0 true) in *.
  pose proof (lookup_lt_Some _ _ _ He) as Hi.
  assert (List.find (sr_live d) t' = Some new) as Hnew.
  { apply srt_find_Some; [done|]. split; [|done]. rewrite Heq.
    eapply list_elem_of_lookup_2. by apply list_lookup_insert_eq. }
  unfold srt_lookup, srt_entry_age. rewrite Hnew. cbn [fmap option_fmap option_map].
  rewrite <- copy_relays_eq. split_and!; [done..|]. intros d' Hd'.
  assert (sr_live d' new = false) as Hn.
  { unfold sr_live, new. simpl. by apply Z.eqb_neq. }
  destruct (sr_live d' e) eqn:Hl.
  - right. apply sr_live_true in Hl as [Ha Hde]. destruct Hcase as [[_ ?]%sr_live_true|[Hnone Hold]];
      [congruence|]. destruct (Hold Ha) as [Hlen Hmax].
    assert (List.find (sr_live d') t = Some e) as ->.
    { apply srt_find_Some; [done|]. split; [by eapply list_elem_of_lookup_2|done]. }
    split_and!; [|done| |].
    + by rewrite find_position, Hnone.
    + destruct (List.find (sr_live d') t') as [x|] eqn:Hx; [|done]. exfalso.
      apply srt_find_Some in Hx as ([j Hj]%list_elem_of_lookup & Hxa & Hxd); [|done].
      rewrite Heq in Hj. apply list_lookup_insert_Some in Hj as [(<- & <- & _)|[Hne Hj]];
        [simpl in Hxd; congruence|].
      apply Hne. apply (srt_wf_unique _ Ht i j e x); [done..|]. congruence.
    + exists (sr_age e). split; [done|]. intros d'' a'' (x & Hx & ->)%fmap_Some.
      apply srt_find_Some in Hx as [Hx _]; [auto|done].
  - left. rewrite Heq, find_insert_other; [done|done|]. intros y Hy. by simplify_eq.
Qed.

Lemma source_route_insert_spec_witness :
  srt_lookup (srt_insert ex_sources 5 [1;2;3;4;5;6;7;8;9]) 5 = Some [1;2;3;4;5;6;7;8].
Proof. apply (source_route_insert_spec ex_sources 5), ex_sources_reachable. Defined.

(** Aging forgets exactly the paths whose age, advanced by the elapsed
    seconds and saturated at the [u16] limit, exceeds the maximum; a path that
    stays keeps its relays and carries the advanced age. *)
Theorem source_route_aging (t : SourceRouteTable) (elapsed max_age : Z) (d : ShortAddress) :
  srt_reachable t →
  let t' := srt_age_and_expire t elapsed max_age in
  srt_lookup t' d =
    (a ← srt_entry_age t d;
     if max_age <? saturating_add_u16 a elapsed then None else srt_lookup t d) ∧
  srt_entry_age t' d =
    (a ← srt_entry_age t d;
     if max_age <? saturating_add_u16 a elapsed then None else Some (saturating_add_u16 a elapsed)).
Proof.
  intros Ht%srt_reachable_wf t'. unfold t', srt_lookup, srt_entry_age.
  rewrite find_live_expired by done. destruct (List.find (sr_live d) t) as [e|]; [|done]. simpl.
  by destruct (max_age <? _).
Qed.

Lemma source_route_aging_witness :
  srt_lookup (srt_age_and_expire ex_sources 65535 600) 5 = None.
Proof. rewrite (proj1 (source_route_aging ex_sources 65535 600 5 ex_sources_reachable)). reflexivity. Defined.

(** Installing a route either fails, exactly when the destination has no
    entry and every slot holds a protected route, or makes the given hop the
    next hop of the destination.  It then leaves every other destination's
    route alone unless its slot was reclaimed, and a protected route (an
    established many-to-one route, or an established route used less than ten
    seconds ago) is never reclaimed. *)
Theorem route_update_spec (t : RoutingTable) (d h : ShortAddress) (cost : Z) :
  match update_route t d h cost with
  | Ok t' =>
      rt_next_hop t' d = Some h ∧ rt_discoveries t' = rt_discoveries t ∧
      (∀ d' r, d' ≠ d → rt_get_entry t d' = Some r → route_protected r = true →
         rt_get_entry t' d' = Some r) ∧
      (∀ d' r, d' ≠ d → rt_get_entry t' d' = Some r → r ∈ rt_routes t ∧ re_usable d' r = true)
  | Err _ =>
      (∀ r, r ∈ rt_routes t → route_protected r = true ∧ re_destination r ≠ d)
  | Panic => False
  end.
Proof.
  destruct (update_route t d h cost) as [t'|[]|] eqn:Hu.
  - destruct (install_route t (re_for d) _ _ d t' Hu) as (i & r & x & Hr & Hrs & Hds & Hget & _ & Hcase).
    + by intros ? [_ ?]%re_for_true.
    + done.
    + intros r [Ha Hd]%re_for_true. apply re_usable_true. simpl. auto.
    + apply re_usable_true. auto.
    + assert (re_next_hop x = h ∧ re_destination x = d) as [Hxh Hxd].
      { destruct Hcase as [(Hp & _ & ->)|(_ & _ & ->)]; [|done]. by apply re_for_true in Hp as [_ ?]. }
      assert (∀ d', d' ≠ d → re_usable d' x = false) as Hxo.
      { intros d' Hne. apply not_true_is_false. intros (_ & ? & _)%re_usable_true. congruence. }
      split_and!; [|done|..].
      * unfold rt_next_hop. fold (rt_get_entry t' d). by rewrite Hget, <- Hxh.
      * intros d' y Hne Hy Hprot. unfold rt_get_entry in *. rewrite Hrs, (find_insert_keep _ _ _ _ r y); [done|done|by apply Hxo|done|].
        intros ->. destruct Hcase as [(Hp & _)|(_ & Hrec & _)].
        -- apply re_for_true in Hp as [_ ?]. apply find_some in Hy as [_ Hy].
           apply re_usable_true in Hy as (_ & ? & _). congruence.
        -- rewrite reclaimable_protected, Hprot in Hrec. done.
      * intros d' y Hne Hy. unfold rt_get_entry in Hy. rewrite Hrs in Hy.
        apply find_some in Hy as [Hin Hus]. split; [|done]. apply list_elem_of_In in Hin.
        apply elem_of_list_insert in Hin as [->|?]; [|done]. by rewrite Hxo in Hus.
  - unfold update_route in Hu. destruct (position (re_for d) _) eqn:Hp; [done|].
    destruct (reclaim_slot _) eqn:Hs; [done|]. intros r Hr.
    rewrite reclaim_slot_None in Hs. specialize (Hs r Hr).
    rewrite reclaimable_protected, negb_false_iff in Hs. split; [done|].
    rewrite position_None in Hp. specialize (Hp r Hr). intros Hd.
    unfold route_protected in Hs. bool_simpl; unfold re_for in Hp;
      rewrite (proj2 (Z.eqb_eq _ _)) in Hp by done; by bool_simpl; congruence.
  - unfold update_route in Hu. repeat case_match; done.
Qed.

(** After a many-to-one route request is accepted, the destination has an
    established many-to-one route over the given hop.  A concentrator without
    a route cache needs a route record before every frame, and acknowledging
    one does not clear the need; a concentrator with a cache needs one exactly
    when the path is new or its hop changed or an earlier need is outstanding,
    and acknowledging it clears the need. *)
Theorem many_to_one_route_record_cadence (t t' : RoutingTable) (d h : ShortAddress) (cost : Z)
    (c : ConcentratorType) :
  update_route_many_to_one t d h cost c = Ok t' →
  ∃ r, rt_get_entry t' d = Some r ∧ re_next_hop r = h ∧ re_many_to_one r = true ∧
    re_route_record_every_frame r = bool_decide (c = LowRam) ∧
    (c = LowRam → re_route_record_required r = true) ∧
    (re_route_record_required r = false →
       ∃ r0, List.find (λ r, re_destination r =? d) (rt_routes t) = Some r0 ∧
         re_active r0 = true ∧ re_next_hop r0 = h ∧ re_route_record_required r0 = false) ∧
    ∃ r', rt_get_entry (clear_route_record_required t' d) d = Some r' ∧
      re_route_record_required r' = bool_decide (c = LowRam).
Proof.
  intros Hu. pose proof Hu as Hu'. unfold update_route_many_to_one in Hu'.
  destruct (install_route t (λ r, re_destination r =? d) _ _ d t' Hu')
    as (i & r & x & Hr & Hrs & Hds & Hget & Hfor & Hcase); clear Hu'.
  - by intros ? ?%Z.eqb_eq.
  - intros ? [_ ?]%re_for_true. by apply Z.eqb_eq.
  - intros ? ?%Z.eqb_eq. apply re_usable_true. auto.
  - by apply re_usable_true.
  - assert (re_next_hop x = h ∧ re_many_to_one x = true ∧
      re_route_record_every_frame x = bool_decide (c = LowRam) ∧
      (c = LowRam → re_route_record_required x = true)) as (Hh & Hm & Hf & Hl).
    { destruct Hcase as [(_ & _ & ->)|(_ & _ & ->)]; [|done]. simpl. split_and!; [done..|].
      intros ->. by rewrite bool_decide_true. }
    exists x. split_and!; [done..| |].
    + destruct Hcase as [(_ & Hfr & ->)|(_ & _ & ->)]; [|done]. simpl.
      destruct (bool_decide _ || _) eqn:Hb; [done|]. intros Hrr. bool_simpl. eauto 10.
    + exists (if negb (re_route_record_every_frame x) then set_re_record_required false x else x). split.
      * unfold clear_route_record_required. apply (get_entry_modify _ _ x); [done|].
        apply find_some in Hget as [_ Hget]. destruct (re_route_record_every_frame x); [done|]. by destruct x.
      * rewrite Hf. destruct (bool_decide_reflect (c = LowRam)); simpl; [auto|by destruct x].
Qed.

Lemma many_to_one_route_record_cadence_witness :
  ∃ r, rt_get_entry ex_routes 0 = Some r ∧ re_next_hop r = 8.
Proof.
  destruct (many_to_one_route_record_cadence (ok_or rt_new (update_route rt_new 5 9 3)) ex_routes 0 8 2 HighRam)
    as (r & H1 & H2 & _); [vm_compute; reflexivity|]. exists r. split; [exact H1|exact H2].
Defined.

(** Retiring the only entry of a many-to-one destination leaves a
    tombstone that reports the failure and offers no next hop; the next
    many-to-one route request that is accepted clears it and restores the
    route over its own hop. *)
Theorem many_to_one_tombstone (t : RoutingTable) (d : ShortAddress) (r : RouteEntry) :
  rt_get_entry t d = Some r → re_many_to_one r = true →
  (∀ i j x y, rt_routes t !! i = Some x → rt_routes t !! j = Some y →
     re_for d x = true → re_for d y = true → i = j) →
  let t' := rt_remove t d in
  rt_next_hop t' d = None ∧ has_failed_many_to_one t' d = true ∧
  ∀ h cost c, ∃ t'', update_route_many_to_one t' d h cost c = Ok t'' ∧
    rt_next_hop t'' d = Some h ∧ has_failed_many_to_one t'' d = false.
Proof.
  intros Hget Hm Hu t'. unfold rt_get_entry in Hget.
  apply find_some in Hget as [Hin Hus]. apply re_usable_true in Hus as (Ha & Hd & Hst).
  apply list_elem_of_In, list_elem_of_lookup in Hin as [k Hk].
  assert (re_for d r = true) as Hrf by by apply re_for_true.
  assert (position (re_for d) (rt_routes t) = Some k) as Hp.
  { destruct (position (re_for d) (rt_routes t)) as [i|] eqn:Hp.
    - apply position_Some in Hp as (x & Hx & Hpx & _). f_equal. by eapply Hu.
    - rewrite position_None in Hp. rewrite Hp in Hrf; [done|]. by eapply list_elem_of_lookup_2. }
  assert (rt_routes t' = <[k := retire r]> (rt_routes t)) as Hrs.
  { unfold t', rt_remove, modify_first. simpl. rewrite Hp. by apply alter_insert. }
  pose proof (lookup_lt_Some _ _ _ Hk) as Hlt.
  assert (retire r ∈ rt_routes t') as Hin'.
  { rewrite Hrs. eapply list_elem_of_lookup_2. by apply list_lookup_insert_eq. }
  assert (∀ x, x ∈ rt_routes t' → re_usable d x = false) as Hnone.
  { intros x [i Hi]%list_elem_of_lookup. apply not_true_is_false. intros (Hxa & Hxd & _)%re_usable_true.
    rewrite Hrs in Hi. apply list_lookup_insert_Some in Hi as [(_ & <- & _)|[Hne Hi]]; [by destruct r|].
    apply Hne. eapply Hu; [done..|]. by apply re_for_true. }
  assert (rt_get_entry t' d = None) as Hg by by apply find_None_elem.
  split_and!.
  - unfold rt_next_hop. fold (rt_get_entry t' d). by rewrite Hg.
  - unfold has_failed_many_to_one. rewrite Hg. apply existsb_exists. exists (retire r).
    split; [by apply list_elem_of_In|]. destruct r; simpl in *. subst. by rewrite Z.eqb_refl.
  - intros h cost c. destruct (update_route_many_to_one t' d h cost c) as [t''|[]|] eqn:Hup.
    + exists t''. split; [done|].
      destruct (many_to_one_entry _ _ _ _ _ _ Hup) as (x & Hx & Hxh).
      unfold rt_next_hop, has_failed_many_to_one. fold (rt_get_entry t'' d). by rewrite Hx, <- Hxh.
    + unfold update_route_many_to_one in Hup. case_match eqn:Hpos; [done|].
      rewrite position_None in Hpos. specialize (Hpos _ Hin'). destruct r; simpl in *.
      bool_simpl. congruence.
    + unfold update_route_many_to_one in Hup. repeat case_match; done.
Qed.

Lemma many_to_one_tombstone_witness :
  has_failed_many_to_one (rt_remove ex_routes 0) 0 = true.
Proof.
  apply (many_to_one_tombstone ex_routes 0
           (mk_RouteEntry 0 8 Active true true false false 2 0 true)); [reflexivity|reflexivity|].
  intros i j x y Hx Hy.
  assert (∀ i x, rt_routes ex_routes !! i = Some x → re_for 0 x = true → i = 1%nat) as H.
  { clear. intros i x Hx. do 32 (destruct i as [|i]; [vm_compute in Hx; injection Hx as <-; by vm_compute|]).
    vm_compute in Hx. destruct i; discriminate Hx. }
  intros Hfx Hfy. by rewrite (H i x), (H j y).
Defined.

(** Expiry keeps exactly the discoveries whose age, computed modulo
    2^32 microseconds, is within the limit, so a discovery started [delta]
    ticks ago is judged by [delta] even across a clock wrap.  For every
    expired one the first route underway to its destination is marked failed;
    no other route changes, and no route changes in any other way. *)
Theorem discovery_expiry_spec (t : RoutingTable) (max_age current_time : Z) :
  let t' := expire_discoveries t max_age current_time in
  discoveries t' = List.filter (λ d, negb (rd_expired max_age current_time d)) (discoveries t) ∧
  (∀ d delta, 0 <= delta < 4294967296 → is_u32 (rd_timestamp d) →
     current_time = wrapping_add_u32 (rd_timestamp d) delta →
     rd_expired max_age current_time d = (max_age <? delta)) ∧
  (∀ d i, d ∈ discoveries t → rd_expired max_age current_time d = true →
     position (underway (rd_destination d)) (rt_routes t) = Some i →
     ∃ r', rt_routes t' !! i = Some r' ∧ re_status r' = DiscoveryFailed) ∧
  (∀ i r r', rt_routes t !! i = Some r → rt_routes t' !! i = Some r' → r' ≠ r →
     r' = set_re_status DiscoveryFailed r ∧ re_status r = DiscoveryUnderway ∧
     ∃ d, d ∈ discoveries t ∧ rd_expired max_age current_time d = true ∧
          rd_destination d = re_destination r).
Proof.
  unfold expire_discoveries.
  pose proof (expire_loop_spec max_age current_time (rt_discoveries t) (rt_routes t)) as H.
  destruct (expire_discoveries_loop _ _ _ _) as [ds routes]. destruct H as (-> & Hs & Hfail & Hwhy).
  assert (∀ d, d ∈ discoveries t ↔ d ∈ rt_discoveries t ∧ rd_active d = true) as Hin
    by (intros; apply (elem_of_retain rd_active)).
  cbn [rt_routes]. split_and!.
  - apply filter_active_expired.
  - intros d delta Hd Hts ->. unfold rd_expired. f_equal.
    unfold wrapping_sub_u32, wrapping_add_u32. rewrite Zminus_mod_idemp_l.
    replace (rd_timestamp d + delta - rd_timestamp d) with delta by lia. by apply Z.mod_small.
  - intros d i [Hd Ha]%Hin Hx. apply Hfail; [done|]. unfold expiring. by rewrite Ha.
  - intros i r r' Hr Hr' Hne. destruct (Forall2_lookup_l _ _ _ _ _ Hs Hr) as (x & Hx & Hst).
    simplify_eq. destruct Hst as [->|[Hst ->]]; [done|]. split_and!; [done..|].
    destruct (Hwhy i r _ Hr Hr' Hne) as (d & Hd & [Ha He]%andb_true_iff & Hdd).
    exists d. rewrite Hin. done.
Qed.

(** For two or more routers per router, CSkip is the closed form
    [1 + Cm * (1 + Rm + ... + Rm^(Lm-d-2))] with [Cm = 20], and zero exactly
    when that number does not fit in 16 bits: none of the checked 32-bit steps
    ever gives up on a block that fits. *)
Theorem cskip_value_exact (depth max_routers max_depth : Z) :
  is_u8 depth → is_u8 max_depth → 2 <= max_routers < 256 →
  let block := tree_block max_routers (Z.to_nat (max_depth - depth - 1)) in
  cskip_value depth max_routers max_depth =
  if (depth <? max_depth) && (block <? 65536) then block else 0.
Proof.
  intros Hd Hm Hr block. destruct (Z.ltb_spec depth max_depth) as [Hlt|Hge]; simpl.
  - by apply cskip_value_block.
  - unfold cskip_value. by rewrite (proj2 (Z.leb_le _ _)).
Qed.

Lemma cskip_value_exact_witness : cskip_value 12 5 15 = 1 + 20 * (1 + 5).
Proof. rewrite (cskip_value_exact 12 5 15); [reflexivity|done|done|lia]. Defined.

(** C40. Tree routing answers only destinations within one CSkip above this
    device, and the answer is always its first router child: a destination in
    the block of any later child, [our + 1 + CSkip] and above, is left to the
    parent. *)
Theorem tree_route_first_child (our dst depth max_routers max_depth : Z) :
  is_u16 our → is_u16 dst → is_u8 max_routers →
  let cskip := cskip_value depth max_routers max_depth in
  tree_route our dst depth max_routers max_depth =
  if (our <? dst) && (dst <? our + cskip) then Some (our + 1) else None.
Proof.
  intros Ho Hd Hr cskip. unfold tree_route. fold cskip.
  destruct (Z.eqb_spec cskip 0) as [Hz|Hnz].
  { rewrite Hz. destruct (_ && _) eqn:Hc; [|done]. bool_simpl. lia. }
  destruct (cskip_value_cases depth max_routers max_depth Hr Hnz) as [Hrm Hpos]. fold cskip in Hpos.
  destruct (_ && _) eqn:Hc; [|done]. bool_simpl.
  destruct (Z.to_nat max_routers) as [|k] eqn:Hk; [lia|]. cbn [tree_route_loop].
  rewrite (proj2 (Z.leb_le _ _)), (proj2 (Z.ltb_lt _ _)) by lia. cbn [andb].
  f_equal. ulia.
Qed.

Lemma tree_route_first_child_witness :
  tree_route 0 122 12 5 15 = None ∧ cskip_value 12 5 15 = 121.
Proof. split; [rewrite (tree_route_first_child 0 122 12 5 15); done|reflexivity]. Defined.

(** Dropping an address removes every normal route to it or through it,
    and keeps every many-to-one route and every other route unchanged. *)
Theorem remove_through_spec (t : RoutingTable) (addr : ShortAddress) (r : RouteEntry) :
  r ∈ rt_iter (remove_through t addr) ↔
  r ∈ rt_iter t ∧
  (re_many_to_one r = true ∨ (re_destination r ≠ addr ∧ re_next_hop r ≠ addr)).
Proof.
  unfold rt_iter, remove_through. simpl.
  fold (retain re_active (rt_routes t)).
  match goal with |- context [List.filter re_active ?l] => fold (retain re_active l) end.
  rewrite !elem_of_retain, list_elem_of_fmap. split.
  - intros [(x & -> & Hx) Ha]. destruct (_ && _ && _) eqn:Hc; [by destruct x|]. split; [done|].
    rewrite Ha in Hc. simpl in Hc. destruct (re_many_to_one x); [by left|right]. simpl in Hc.
    by bool_simpl.
  - intros [[Hr Ha] Hor]. split; [|done]. exists r. split; [|done].
    destruct (_ && _ && _) eqn:Hc; [|done]. exfalso. bool_simpl; destruct Hor as [?|[??]]; congruence.
Qed.

(** A retired many-to-one entry, a normal route installed beside it and a new
    many-to-one request leave two active entries of one destination; removing
    the destination then uncovers the older one. *)
Example duplicate_route_survives_removal :
  let steps :=
    t ← update_route_many_to_one rt_new 0 8 2 HighRam;
    t ← update_route (rt_remove t 0) 0 9 3;
    t ← update_route_many_to_one t 0 10 2 HighRam;
    Ok (rt_next_hop t 0, rt_next_hop (rt_remove t 0) 0) in
  steps = (Ok (Some 10, Some 9) : fallible _).
Proof. vm_compute. reflexivity. Qed.
