(* ===== verification/NwkBroadcast.v ===== *)
(** Broadcast state: the second part of [zigbee-nwk/src/routing.rs] (router
    build): the broadcast transaction records, the transmission schedule of
    relayed broadcasts, and the route request forwarding records.

    The transaction records refine a finite map from (source, sequence number)
    to remaining seconds; the forwarding records have a measure that decreases
    with every admission, which bounds a discovery flood. *)
From S2P Require Import Prelude.
From S2P Require Import ZigbeeTypes.
From S2P Require Import NwkNeighbor.

Local Open Scope Z_scope.

(** * Broadcast transaction records *)
Definition MAX_BTR : nat := 16.

Record BtrEntry := mk_BtrEntry {
  btr_src_addr : ShortAddress; btr_seq_number : Z; btr_expiry : Z; btr_active : bool }.

#[export] Instance BtrEntry_eq_dec : EqDecision BtrEntry.
Proof. solve_decision. Defined.

Definition btr_empty : BtrEntry := mk_BtrEntry 0xFFFF 0 0 false.

Abbreviation BtrTable := (list BtrEntry) (only parsing).

Definition btr_new : BtrTable := repeat btr_empty MAX_BTR.

Definition btr_is_duplicate (t : BtrTable) (src : ShortAddress) (seq : Z) : bool :=
  existsb (λ e, btr_active e && (btr_src_addr e =? src) && (btr_seq_number e =? seq)) t.

Definition btr_is_full (t : BtrTable) : bool := forallb btr_active t.

Definition btr_record (t : BtrTable) (src : ShortAddress) (seq : Z) : BtrTable * bool :=
  match position (λ e, negb (btr_active e)) t with
  | None => (t, false)
  | Some i => (<[i := mk_BtrEntry src seq 9 true]> t, true)
  end.

Definition btr_age_entry (e : BtrEntry) : BtrEntry :=
  if btr_active e then
    let expiry := saturating_sub (btr_expiry e) 1 in
    mk_BtrEntry (btr_src_addr e) (btr_seq_number e) expiry
      (if expiry =? 0 then false else btr_active e)
  else e.

Definition btr_age (t : BtrTable) : BtrTable := btr_age_entry <$> t.

(** * Transmission schedule *)
Definition MAX_PENDING_BROADCASTS : nat := 4.
Definition MAX_PASSIVE_ACK_NEIGHBORS : nat := 8.

Record PendingBroadcast := mk_PendingBroadcast {
  pb_src : ShortAddress;
  pb_seq : Z;
  pb_frame : list Z;
  pb_retries_left : Z;
  pb_deadline_us : Z;
  pb_sent : bool;
  pb_rreq : bool;
  pb_handle : Z;
  pb_heard : list ShortAddress }.

Abbreviation BroadcastTxTable := (list PendingBroadcast) (only parsing).

Definition btx_new : BroadcastTxTable := [].

Definition btx_full (t : BroadcastTxTable) : bool := (length t =? MAX_PENDING_BROADCASTS)%nat.

Definition can_schedule (t : BroadcastTxTable) : bool := negb (btx_full t) || existsb pb_sent t.

Definition unsent (t : BroadcastTxTable) : nat := count (λ e, negb (pb_sent e)) t.

Definition can_schedule_route_request (t : BroadcastTxTable) : bool :=
  (unsent t + 1 <? MAX_PENDING_BROADCASTS)%nat.

Definition unsent_route_requests (t : BroadcastTxTable) : nat :=
  count (λ e, pb_rreq e && negb (pb_sent e)) t.

Definition schedule_victim (t : BroadcastTxTable) : option nat :=
  match position (λ e, pb_sent e && negb (pb_rreq e)) t with
  | Some i => Some i
  | None => position pb_sent t
  end.

Definition schedule (t : BroadcastTxTable) (pending : PendingBroadcast) : BroadcastTxTable * bool :=
  let t :=
    if btx_full t && negb (pb_sent pending) then
      match schedule_victim t with Some index => swap_remove t index | None => t end
    else t in
  match vec_push MAX_PENDING_BROADCASTS t pending with
  | Some t' => (t', true)
  | None => (t, false)
  end.

Definition heard_from (by_ : ShortAddress) (e : PendingBroadcast) : PendingBroadcast :=
  if bool_decide (by_ ∈ pb_heard e) then e
  else mk_PendingBroadcast (pb_src e) (pb_seq e) (pb_frame e) (pb_retries_left e)
         (pb_deadline_us e) (pb_sent e) (pb_rreq e) (pb_handle e)
         (vec_push_ignore MAX_PASSIVE_ACK_NEIGHBORS (pb_heard e) by_).

Definition note_relay (t : BroadcastTxTable) (src : ShortAddress) (seq : Z) (by_ : ShortAddress)
    : BroadcastTxTable :=
  modify_first (λ e, (pb_src e =? src) && (pb_seq e =? seq)) (heard_from by_) t.

Definition btx_clear (t : BroadcastTxTable) : BroadcastTxTable := [].

(** * Route request forwarding records *)
Definition MAX_RREQ_RECORDS : nat := 8.
Definition RREQ_RECORD_LIFETIME_SECS : Z := 12.
Definition MAX_RREQ_SENDERS : nat := MAX_NEIGHBORS.

Record RreqRecord := mk_RreqRecord {
  rr_originator : ShortAddress;
  rr_route_request_id : Z;
  rr_senders : list ShortAddress;
  rr_sender_count : Z;
  rr_forward_cost : Z;
  rr_expiry : Z;
  rr_active : bool }.

#[export] Instance RreqRecord_eq_dec : EqDecision RreqRecord.
Proof. solve_decision. Defined.

Definition no_senders : list ShortAddress := repeat 0xFFFF MAX_RREQ_SENDERS.

Definition rr_empty : RreqRecord := mk_RreqRecord 0xFFFF 0 no_senders 0 0xFF 0 false.

Abbreviation RreqRecordTable := (list RreqRecord) (only parsing).

Definition rrt_new : RreqRecordTable := repeat rr_empty MAX_RREQ_RECORDS.

Definition rr_identified (originator : ShortAddress) (id : Z) (e : RreqRecord) : bool :=
  rr_active e && (rr_originator e =? originator) && (rr_route_request_id e =? id).

(** The body of [admit] for a record that exists: [Ok None] is [return false]. *)
Definition readmit (e : RreqRecord) (sender : ShortAddress) (forward_cost : Z)
    : fallible (option RreqRecord) :=
  if rr_forward_cost e <? forward_cost then Ok None
  else if forward_cost <? rr_forward_cost e then
    senders ← put (rr_senders e) 0 sender;
    Ok (Some (mk_RreqRecord (rr_originator e) (rr_route_request_id e) senders 1 forward_cost
                RREQ_RECORD_LIFETIME_SECS (rr_active e)))
  else
    let sender_count := Z.to_nat (rr_sender_count e) in
    known ← slice (rr_senders e) 0 sender_count;
    if bool_decide (sender ∈ known) then Ok None
    else if (sender_count =? length (rr_senders e))%nat then Ok None
    else
      senders ← put (rr_senders e) sender_count sender;
      n ← add_u8 (rr_sender_count e) 1;
      Ok (Some (mk_RreqRecord (rr_originator e) (rr_route_request_id e) senders n forward_cost
                  RREQ_RECORD_LIFETIME_SECS (rr_active e))).

(** [RreqRecordTable::admit]. *)
Definition rreq_admit (t : RreqRecordTable) (originator : ShortAddress) (route_request_id : Z)
    (sender : ShortAddress) (forward_cost : Z) : fallible (RreqRecordTable * bool) :=
  match position (rr_identified originator route_request_id) t with
  | Some i =>
      e ← index t i;
      r ← readmit e sender forward_cost;
      match r with
      | Some e' => Ok (<[i := e']> t, true)
      | None => Ok (t, false)
      end
  | None =>
      match position (λ e, negb (rr_active e)) t with
      | None => Ok (t, false)
      | Some i =>
          senders ← put no_senders 0 sender;
          Ok (<[i := mk_RreqRecord originator route_request_id senders 1 forward_cost
                       RREQ_RECORD_LIFETIME_SECS true]> t, true)
      end
  end.

Definition rreq_remove (t : RreqRecordTable) (originator : ShortAddress) (route_request_id : Z)
    : RreqRecordTable :=
  modify_first (rr_identified originator route_request_id)
    (λ e, mk_RreqRecord (rr_originator e) (rr_route_request_id e) (rr_senders e)
            (rr_sender_count e) (rr_forward_cost e) (rr_expiry e) false) t.

Definition rreq_age (t : RreqRecordTable) : RreqRecordTable :=
  (λ e, if rr_active e then
          let expiry := saturating_sub (rr_expiry e) 1 in
          mk_RreqRecord (rr_originator e) (rr_route_request_id e) (rr_senders e)
            (rr_sender_count e) (rr_forward_cost e) expiry
            (if expiry =? 0 then false else rr_active e)
        else e) <$> t.

Definition recorded_cost (t : RreqRecordTable) (originator : ShortAddress) (route_request_id : Z)
    : option Z :=
  rr_forward_cost <$> List.find (rr_identified originator route_request_id) t.

(** * The records as a finite map *)
Definition btr_key (e : BtrEntry) : Z * Z := (btr_src_addr e, btr_seq_number e).

Definition btr_view (t : BtrTable) : gmap (Z * Z) Z :=
  list_to_map ((λ e, (btr_key e, btr_expiry e)) <$> List.filter btr_active t).

Record btr_wf (t : BtrTable) : Prop := {
  btr_wf_length : length t = MAX_BTR;
  btr_wf_unique : ∀ i j e e', t !! i = Some e → t !! j = Some e' →
    btr_active e = true → btr_active e' = true → btr_key e = btr_key e' → i = j;
  btr_wf_expiry : ∀ e, e ∈ t → btr_active e = true → 1 <= btr_expiry e <= 9 }.

Lemma btr_keys_NoDup t :
  btr_wf t → NoDup ((λ e, (btr_key e, btr_expiry e)) <$> List.filter btr_active t).*1.
Proof.
  intros Ht. rewrite <- list_fmap_compose. apply NoDup_fmap_filter.
  intros i j x y Hi Hj Hx Hy Heq. by eapply (btr_wf_unique _ Ht).
Qed.

Lemma btr_view_Some t k v :
  btr_wf t →
  btr_view t !! k = Some v ↔ ∃ e, e ∈ t ∧ btr_active e = true ∧ btr_key e = k ∧ btr_expiry e = v.
Proof.
  intros Ht. unfold btr_view. rewrite <- elem_of_list_to_map by by apply btr_keys_NoDup.
  rewrite list_elem_of_fmap. fold (retain btr_active t). setoid_rewrite elem_of_retain. naive_solver.
Qed.

Lemma btr_view_size t : btr_wf t → size (btr_view t) = count btr_active t.
Proof.
  intros Ht. unfold btr_view. rewrite map_size_list_to_map by by apply btr_keys_NoDup.
  rewrite length_fmap. clear. induction t as [|e t IH]; [done|]. simpl.
  destruct (btr_active e); simpl; lia.
Qed.

Lemma btr_key_eq e src seq :
  (btr_src_addr e =? src) && (btr_seq_number e =? seq) = true ↔ btr_key e = (src, seq).
Proof. unfold btr_key. rewrite andb_true_iff, !Z.eqb_eq. naive_solver. Qed.

Lemma btr_is_duplicate_view t src seq :
  btr_wf t → btr_is_duplicate t src seq = bool_decide (is_Some (btr_view t !! (src, seq))).
Proof.
  intros Ht. apply eq_bool_prop_intro. rewrite bool_decide_spec, Is_true_true.
  unfold btr_is_duplicate. rewrite existsb_exists. split.
  - intros (e & He & Hk). rewrite <- andb_assoc, andb_true_iff, btr_key_eq in Hk.
    exists (btr_expiry e). apply btr_view_Some; [done|]. exists e. rewrite list_elem_of_In. tauto.
  - intros [v (e & He & Ha & Hk & _)%btr_view_Some]; [|done]. exists e.
    rewrite <- list_elem_of_In, <- andb_assoc, andb_true_iff, btr_key_eq. done.
Qed.

Lemma count_all {A} (p : A → bool) l : forallb p l = (count p l =? length l)%nat.
Proof.
  induction l as [|x l IH]; [done|]. simpl. pose proof (count_le_length p l).
  destruct (p x); simpl; [done|]. symmetry. apply Nat.eqb_neq. lia.
Qed.

Lemma btr_is_full_view t :
  btr_wf t → btr_is_full t = (size (btr_view t) =? MAX_BTR)%nat.
Proof.
  intros Ht. unfold btr_is_full. by rewrite count_all, btr_view_size, (btr_wf_length _ Ht).
Qed.

Lemma btr_full_position t :
  position (λ e, negb (btr_active e)) t = None ↔ btr_is_full t = true.
Proof.
  rewrite position_None. unfold btr_is_full. rewrite forallb_forall.
  setoid_rewrite list_elem_of_In. by setoid_rewrite negb_false_iff.
Qed.

Lemma btr_record_slot t src seq i e :
  btr_wf t → t !! i = Some e → btr_active e = false → btr_view t !! (src, seq) = None →
  let t' := <[i := mk_BtrEntry src seq 9 true]> t in
  btr_wf t' ∧ btr_view t' = <[(src, seq) := 9]> (btr_view t).
Proof.
  intros Ht He Ha Hnone t'. pose proof (lookup_lt_Some _ _ _ He) as Hi.
  assert (∀ x, x ∈ t → btr_active x = true → btr_key x ≠ (src, seq)) as Hno.
  { intros x Hx Hxa Hk. assert (btr_view t !! (src, seq) = Some (btr_expiry x)) as Hc; [|congruence].
    apply btr_view_Some; [done|]. eauto. }
  assert (btr_wf t') as Ht'.
  { split.
    - unfold t'. rewrite length_insert. apply Ht.
    - intros j k x y Hj Hk Hx Hy Heq.
      apply list_lookup_insert_Some in Hj as [(<- & <- & _)|[Hne Hj]],
        Hk as [(<- & <- & _)|[Hne' Hk]]; [done|..].
      + destruct (Hno y); [by eapply list_elem_of_lookup_2|done|by rewrite <- Heq].
      + destruct (Hno x); [by eapply list_elem_of_lookup_2|done|by rewrite Heq].
      + by eapply (btr_wf_unique _ Ht).
    - intros x [->|Hx]%elem_of_list_insert Hxa; [simpl; lia|]. by eapply btr_wf_expiry. }
  split; [done|]. apply map_eq. intros k. apply option_eq. intros v.
  rewrite btr_view_Some, lookup_insert_Some, btr_view_Some by done. split.
  - intros (x & [->|Hx]%elem_of_list_insert & Hxa & <- & <-); [by left|]. right.
    split; [|eauto]. intros Hk. by destruct (Hno x).
  - intros [[<- <-]|[Hne (x & [j Hj]%list_elem_of_lookup & Hxa & <- & <-)]].
    + exists (mk_BtrEntry src seq 9 true). split; [|done]. eapply list_elem_of_lookup_2. by apply list_lookup_insert_eq.
    + exists x. split; [|done]. eapply list_elem_of_lookup_2.
      unfold t'. rewrite list_lookup_insert_ne; [done|]. intros ->. congruence.
Qed.

Definition btr_tick (v : Z) : option Z := if v - 1 =? 0 then None else Some (v - 1).

Lemma btr_age_view t :
  btr_wf t → btr_wf (btr_age t) ∧ btr_view (btr_age t) = omap btr_tick (btr_view t).
Proof.
  intros Ht.
  assert (∀ e, btr_key (btr_age_entry e) = btr_key e) as Hkey by (intros e; unfold btr_age_entry; by case_match).
  assert (∀ e, btr_active (btr_age_entry e) = true → btr_active e = true) as Hact
    by (intros e; unfold btr_age_entry; destruct (btr_active e) eqn:?; [done|congruence]).
  assert (∀ e, btr_active e = true → 1 <= btr_expiry e →
    btr_active (btr_age_entry e) = negb (btr_expiry e - 1 =? 0) ∧ btr_expiry (btr_age_entry e) = btr_expiry e - 1) as Hf.
  { intros e Ha Hx. unfold btr_age_entry. rewrite Ha. simpl. unfold saturating_sub. rewrite Z.max_r by lia.
    by destruct (_ =? 0). }
  assert (btr_wf (btr_age t)) as Ht'.
  { split.
    - unfold btr_age. rewrite length_fmap. apply Ht.
    - intros i j x y Hi Hj Hx Hy Heq. unfold btr_age in *. rewrite list_lookup_fmap in Hi, Hj.
      apply fmap_Some in Hi as (x' & Hx' & ->), Hj as (y' & Hy' & ->). 
      rewrite !Hkey in Heq. eapply (btr_wf_unique _ Ht); eauto.
    - intros x (y & -> & Hy)%list_elem_of_fmap.  intros Ha.
      pose proof (btr_wf_expiry _ Ht y Hy (Hact _ Ha)). destruct (Hf y) as [H1 H2]; [auto|lia|].
      rewrite H1 in Ha. bool_simpl. lia. }
  split; [done|]. apply map_eq. intros k. apply option_eq. intros v.
  rewrite lookup_omap, bind_Some, btr_view_Some by done. unfold btr_age. split.
  - intros (x & (y & -> & Hy)%list_elem_of_fmap & Ha & Hk & Hv).  rewrite Hkey in Hk.
    pose proof (btr_wf_expiry _ Ht y Hy (Hact _ Ha)). destruct (Hf y) as [H1 H2]; [auto|lia|].
    exists (btr_expiry y). split; [apply btr_view_Some; [done|]; exists y; auto|]. unfold btr_tick.
    rewrite H1 in Ha. apply negb_true_iff in Ha. rewrite Ha. congruence.
  - intros (w & (y & Hy & Ha & <- & <-)%btr_view_Some & Hw); [|done].
    pose proof (btr_wf_expiry _ Ht y Hy Ha). destruct (Hf y) as [H1 H2]; [auto|lia|].
    unfold btr_tick in Hw. destruct (_ =? 0) eqn:Hz; [done|]. injection Hw as <-.
    exists (btr_age_entry y). split_and!; [apply list_elem_of_fmap; eauto|by rewrite H1|apply Hkey|done].
Qed.

(** ** Traces of receptions and seconds *)
Inductive btr_op := BtrReceive (src : ShortAddress) (seq : Z) | BtrSecond.

(** A received broadcast is checked and then recorded; the boolean says that
    it is accepted. *)
Definition btr_receive (t : BtrTable) (src : ShortAddress) (seq : Z) : BtrTable * bool :=
  if btr_is_duplicate t src seq then (t, false) else btr_record t src seq.

Definition btr_step (t : BtrTable) (op : btr_op) : BtrTable :=
  match op with
  | BtrReceive src seq => (btr_receive t src seq).1
  | BtrSecond => btr_age t
  end.

Definition btr_run (t : BtrTable) (ops : list btr_op) : BtrTable := fold_left btr_step ops t.

Definition seconds (ops : list btr_op) : nat :=
  count (λ op, match op with BtrSecond => true | _ => false end) ops.

(** The abstract reception. *)
Definition map_receive (m : gmap (Z * Z) Z) (src seq : Z) : gmap (Z * Z) Z * bool :=
  match m !! (src, seq) with
  | Some _ => (m, false)
  | None => if (size m =? MAX_BTR)%nat then (m, false) else (<[(src, seq) := 9]> m, true)
  end.

Lemma btr_receive_refines t src seq :
  btr_wf t →
  btr_wf (btr_receive t src seq).1 ∧
  (btr_view (btr_receive t src seq).1, (btr_receive t src seq).2) = map_receive (btr_view t) src seq.
Proof.
  intros Ht. unfold btr_receive, map_receive. rewrite btr_is_duplicate_view by done.
  destruct (btr_view t !! (src, seq)) as [v|] eqn:Hv.
  { by rewrite bool_decide_true by eauto. }
  rewrite bool_decide_false by by intros [].
  unfold btr_record. rewrite <- btr_is_full_view by done.
  destruct (position _ t) as [i|] eqn:Hp.
  - destruct (btr_is_full t) eqn:Hf; [apply btr_full_position in Hf; congruence|].
    apply position_Some in Hp as (e & He & Hpe & _). apply negb_true_iff in Hpe.
    destruct (btr_record_slot t src seq i e) as [H1 H2]; [done..|]. simpl. by rewrite H2.
  - by rewrite (proj1 (btr_full_position t) Hp).
Qed.

Lemma btr_step_wf t op : btr_wf t → btr_wf (btr_step t op).
Proof. intros Ht. destruct op; [by apply btr_receive_refines|by apply btr_age_view]. Qed.

Lemma btr_run_wf ops t : btr_wf t → btr_wf (btr_run t ops).
Proof. revert t. induction ops as [|op ops IH]; intros t Ht; [done|]. apply IH, btr_step_wf, Ht. Qed.

Lemma btr_new_wf : btr_wf btr_new.
Proof.
  split.
  - done.
  - intros i j e e' Hi _ Ha. apply list_elem_of_lookup_2, list_elem_of_In, repeat_spec in Hi. by subst.
  - intros e He%list_elem_of_In%repeat_spec Ha. by subst.
Qed.

(** A recorded broadcast loses one second per tick, whatever else happens. *)
Lemma btr_run_lifetime ops t src seq v :
  btr_wf t → btr_view t !! (src, seq) = Some v → Z.of_nat (seconds ops) < v →
  btr_view (btr_run t ops) !! (src, seq) = Some (v - Z.of_nat (seconds ops)).
Proof.
  revert t v. induction ops as [|op ops IH]; intros t v Ht Hv Hlt.
  { simpl. rewrite Hv. f_equal. unfold seconds. simpl. lia. }
  change (btr_run t (op :: ops)) with (btr_run (btr_step t op) ops).
  destruct op as [s q|]; unfold seconds in *; cbn [count] in *.
  - apply IH; [by apply btr_step_wf| |done]. simpl.
    destruct (btr_receive_refines t s q Ht) as [_ Heq].
    apply (f_equal fst) in Heq. simpl in Heq. rewrite Heq. unfold map_receive.
    destruct (btr_view t !! (s, q)) eqn:Hs; [done|]. case_match; [done|]. simpl.
    rewrite lookup_insert_ne; [done|]. congruence.
  - change (btr_step t BtrSecond) with (btr_age t). erewrite (IH (btr_age t) (v - 1)); [f_equal; lia|by apply btr_age_view| |lia].
    destruct (btr_age_view t Ht) as [_ ->]. rewrite lookup_omap, Hv. simpl. unfold btr_tick.
    rewrite (proj2 (Z.eqb_neq _ _)) by lia. done.
Qed.

(** * The transmission schedule *)
Lemma schedule_victim_None t : schedule_victim t = None ↔ existsb pb_sent t = false.
Proof.
  unfold schedule_victim. rewrite (existsb_position pb_sent).
  destruct (position (λ e, pb_sent e && negb (pb_rreq e)) t) as [i|] eqn:Hp; [|by destruct (position pb_sent t)].
  split; [done|]. apply position_Some in Hp as (e & He & Hpe & _). bool_simpl.
  destruct (position pb_sent t) eqn:Hn; [done|]. rewrite position_None in Hn.
  rewrite Hn in *; [done|]. by eapply list_elem_of_lookup_2.
Qed.

Lemma schedule_victim_Some t i :
  schedule_victim t = Some i →
  ∃ e, t !! i = Some e ∧ pb_sent e = true ∧
    (pb_rreq e = true → ∀ x, x ∈ t → pb_sent x = true → pb_rreq x = true).
Proof.
  unfold schedule_victim.
  destruct (position (λ e, pb_sent e && negb (pb_rreq e)) t) as [j|] eqn:Hp.
  - intros [= <-]. apply position_Some in Hp as (e & He & Hpe & _). bool_simpl. exists e.
    split_and!; [done..|]. congruence.
  - intros (e & He & Hpe & _)%position_Some. exists e. split_and!; [done..|]. intros _ x Hx Hsx.
    rewrite position_None in Hp. specialize (Hp x Hx). cbn beta in Hp. rewrite Hsx in Hp. simpl in Hp.
    by bool_simpl.
Qed.

(** The entries that stay and the one that is displaced. *)
Lemma schedule_split t p :
  (length t <= MAX_PENDING_BROADCASTS)%nat →
  let '(t', ok) := schedule t p in
  ok = negb (btx_full t) || (negb (pb_sent p) && existsb pb_sent t) ∧
  (ok = false → t' = t) ∧
  (ok = true → ∃ kept dropped, t ≡ₚ dropped ++ kept ∧ t' = kept ++ [p] ∧
     (length kept < MAX_PENDING_BROADCASTS)%nat ∧
     (dropped = [] ∨ ∃ e, dropped = [e] ∧ btx_full t = true ∧ pb_sent p = false ∧ pb_sent e = true ∧
        (pb_rreq e = true → ∀ x, x ∈ t → pb_sent x = true → pb_rreq x = true))).
Proof.
  intros Hlen. unfold schedule, vec_push, btx_full.
  destruct (length t =? MAX_PENDING_BROADCASTS)%nat eqn:Hf; bool_simpl; simpl.
  - destruct (pb_sent p) eqn:Hs; simpl.
    { by rewrite Hf, Nat.ltb_irrefl. }
    destruct (schedule_victim t) as [i|] eqn:Hv.
    + apply schedule_victim_Some in Hv as (e & He & Hse & Hr).
      pose proof (swap_remove_perm _ _ _ He) as Hperm. pose proof (Permutation_length Hperm) as Hl.
      simpl in Hl. rewrite (proj2 (Nat.ltb_lt _ _)) by lia.
      assert (existsb pb_sent t = true) as ->.
      { apply existsb_exists. exists e. rewrite <- list_elem_of_In. split; [|done].
        by eapply list_elem_of_lookup_2. }
      split_and!; [done..|]. intros _. exists (swap_remove t i), [e]. split_and!; [done|done|lia|].
      right. eauto 10.
    + rewrite Hf, Nat.ltb_irrefl. by rewrite (proj1 (schedule_victim_None t) Hv).
  - rewrite (proj2 (Nat.ltb_lt _ _)) by lia. split_and!; [done..|]. intros _.
    exists t, []. split_and!; [done|done|lia|by left].
Qed.

Lemma unsent_all_sent t : existsb pb_sent t = (unsent t <? length t)%nat.
Proof.
  unfold unsent. induction t as [|e t IH]; [done|]. simpl.
  pose proof (count_le_length (λ e, negb (pb_sent e)) t).
  destruct (pb_sent e); simpl; [symmetry; apply Nat.ltb_lt; lia|exact IH].
Qed.

(** * Forwarding records: invariant and measure *)
Record rr_wf (e : RreqRecord) : Prop := {
  rr_wf_senders : length (rr_senders e) = MAX_RREQ_SENDERS;
  rr_wf_count : 0 <= rr_sender_count e <= Z.of_nat MAX_RREQ_SENDERS;
  rr_wf_cost : is_u8 (rr_forward_cost e) }.

Record rrt_wf (t : RreqRecordTable) : Prop := {
  rrt_wf_length : length t = MAX_RREQ_RECORDS;
  rrt_wf_records : Forall rr_wf t;
  rrt_wf_unique : ∀ i j e e', t !! i = Some e → t !! j = Some e' →
    rr_active e = true → rr_active e' = true → rr_originator e = rr_originator e' →
    rr_route_request_id e = rr_route_request_id e' → i = j }.

(** What is left to admit under a record: a cheaper copy, or another sender
    at the same cost. *)
Definition rr_budget (e : RreqRecord) : Z :=
  rr_forward_cost e * (Z.of_nat MAX_RREQ_SENDERS + 1)
  + (Z.of_nat MAX_RREQ_SENDERS - rr_sender_count e).

Definition rr_accepts (e : RreqRecord) (sender : ShortAddress) (forward_cost : Z) : bool :=
  (forward_cost <? rr_forward_cost e)
  || ((forward_cost =? rr_forward_cost e)
      && negb (bool_decide (sender ∈ take (Z.to_nat (rr_sender_count e)) (rr_senders e)))
      && (rr_sender_count e <? Z.of_nat MAX_RREQ_SENDERS)).

Lemma readmit_spec e sender c :
  rr_wf e → is_u8 c →
  if rr_accepts e sender c
  then ∃ e', readmit e sender c = Ok (Some e') ∧ rr_wf e' ∧ rr_originator e' = rr_originator e ∧
         rr_route_request_id e' = rr_route_request_id e ∧ rr_active e' = rr_active e ∧
         rr_forward_cost e' = c ∧ rr_budget e' < rr_budget e
  else readmit e sender c = Ok None.
Proof.
  intros [Hs Hc Hf] Hu. unfold rr_accepts, readmit, rr_budget, MAX_RREQ_SENDERS, MAX_NEIGHBORS in *.
  destruct (Z.ltb_spec c (rr_forward_cost e)) as [Hlt|Hge]; simpl.
  - rewrite (proj2 (Z.ltb_ge _ _)), put_lt by lia. simpl. eexists. split; [done|].
    split_and!; [|done..|simpl; lia]. split; simpl; unfold MAX_RREQ_SENDERS, MAX_NEIGHBORS in *; [by rewrite length_insert|lia|done].
  - destruct (Z.eqb_spec c (rr_forward_cost e)) as [->|Hne]; simpl.
    2:{ by rewrite (proj2 (Z.ltb_lt _ _)) by lia. }
    rewrite Z.ltb_irrefl, slice_0_take by lia. cbn [mbind outcome_bind].
    case_bool_decide; simpl; [done|].
    destruct (Z.ltb_spec (rr_sender_count e) (Z.of_nat 32)) as [Hr|Hr].
    + rewrite (proj2 (Nat.eqb_neq _ _)), put_lt by lia. cbn [mbind outcome_bind].
      unfold add_u8. rewrite (proj2 (Z.ltb_lt _ _)) by lia. simpl. eexists. split; [done|].
      split_and!; [|done..|simpl; lia]. split; simpl; unfold MAX_RREQ_SENDERS, MAX_NEIGHBORS in *; [by rewrite length_insert|lia|done].
    + by rewrite (proj2 (Nat.eqb_eq _ _)) by lia.
Qed.

Lemma rr_identified_true o id e :
  rr_identified o id e = true ↔
  rr_active e = true ∧ rr_originator e = o ∧ rr_route_request_id e = id.
Proof. unfold rr_identified. rewrite !andb_true_iff, !Z.eqb_eq. tauto. Qed.

(** Writing a record of a key at a slot that no other record of the key has. *)
Lemma rrt_wf_insert t i e :
  rrt_wf t → (i < length t)%nat → rr_wf e →
  (∀ j x, j ≠ i → t !! j = Some x →
     rr_identified (rr_originator e) (rr_route_request_id e) x = false) →
  rrt_wf (<[i := e]> t).
Proof.
  intros Ht Hi He Hno. split.
  - rewrite length_insert. apply Ht.
  - apply Forall_insert; [apply Ht|done].
  - intros j k x y Hj Hk Hx Hy Ho Hd.
    apply list_lookup_insert_Some in Hj as [(<- & <- & _)|[Hne Hj]],
      Hk as [(<- & <- & _)|[Hne' Hk]]; [done|..].
    + specialize (Hno k y ltac:(done) Hk). apply not_true_iff_false in Hno. destruct Hno.
      by apply rr_identified_true.
    + specialize (Hno j x ltac:(done) Hj). apply not_true_iff_false in Hno. destruct Hno.
      by apply rr_identified_true.
    + by eapply (rrt_wf_unique _ Ht).
Qed.

Lemma recorded_cost_insert t i e o id x :
  t !! i = Some x → rr_identified o id e = false → rr_identified o id x = false →
  recorded_cost (<[i := e]> t) o id = recorded_cost t o id.
Proof.
  intros Hx He Hxo. unfold recorded_cost. rewrite find_insert_other; [done|done|].
  intros y Hy. by simplify_eq.
Qed.

(** * Properties *)

(** The broadcast transaction records implement a map from (source,
    sequence number) to remaining seconds: a reception is a duplicate exactly
    when its key is present, a new one is refused exactly when 16 keys are
    live (nothing live is ever evicted) and otherwise present with nine
    seconds; a tick takes one second from every key and drops those at zero. *)
Theorem btr_refines_map (ops : list btr_op) (src : ShortAddress) (seq : Z) :
  let t := btr_run btr_new ops in
  let m := btr_view t in
  btr_is_duplicate t src seq = bool_decide (is_Some (m !! (src, seq))) ∧
  btr_is_full t = (size m =? MAX_BTR)%nat ∧
  (btr_view (btr_receive t src seq).1, (btr_receive t src seq).2) = map_receive m src seq ∧
  btr_view (btr_age t) = omap btr_tick m ∧
  (size m <= MAX_BTR)%nat.
Proof.
  intros t m. assert (btr_wf t) as Ht by apply btr_run_wf, btr_new_wf. split_and!.
  - by apply btr_is_duplicate_view.
  - by apply btr_is_full_view.
  - by apply btr_receive_refines.
  - by apply btr_age_view.
  - unfold m. rewrite btr_view_size, <- (btr_wf_length _ Ht) by done. apply count_le_length.
Qed.

(** A broadcast that was accepted is rejected as a duplicate during the
    next eight seconds, whatever other broadcasts arrive in between, so no
    copy that circulates for that long is relayed twice. *)
Theorem btr_no_second_relay (before after : list btr_op) (src : ShortAddress) (seq : Z) :
  let t0 := btr_run btr_new before in
  (btr_receive t0 src seq).2 = true → (seconds after < 9)%nat →
  let t := btr_run (btr_receive t0 src seq).1 after in
  btr_is_duplicate t src seq = true ∧ (btr_receive t src seq).2 = false.
Proof.
  intros t0 Hacc Hsec t. assert (btr_wf t0) as Ht0 by apply btr_run_wf, btr_new_wf.
  destruct (btr_receive_refines t0 src seq Ht0) as [Hwf Heq].
  assert (btr_view (btr_receive t0 src seq).1 !! (src, seq) = Some 9) as H9.
  { unfold map_receive in Heq. rewrite Hacc in Heq.
    destruct (_ !! _); [congruence|]. case_match; [congruence|].
    apply (f_equal fst) in Heq. simpl in Heq. by rewrite Heq, lookup_insert_eq. }
  assert (btr_is_duplicate t src seq = true) as Hd.
  { unfold t. rewrite btr_is_duplicate_view by by apply btr_run_wf.
    rewrite bool_decide_true; [done|]. rewrite (btr_run_lifetime _ _ _ _ 9); [eauto|done..|lia]. }
  split; [done|]. unfold btr_receive. by rewrite Hd.
Qed.

Lemma btr_no_second_relay_witness :
  btr_is_duplicate (btr_run (btr_receive btr_new 5 1).1 [BtrSecond; BtrReceive 6 1; BtrSecond]) 5 1 = true.
Proof.
  apply (btr_no_second_relay [] [BtrSecond; BtrReceive 6 1; BtrSecond] 5 1); [reflexivity|].
  vm_compute. lia.
Defined.

(** Scheduling a broadcast succeeds exactly when there is room or an
    unsent broadcast may displace a transmitted one.  It then keeps every
    scheduled broadcast except at most one, which has been on air already and
    is a route request only if no other transmitted broadcast remains; a
    refused one changes nothing. A route request forward admitted by
    [can_schedule_route_request] is always accepted and leaves room for an
    ordinary relay. *)
Theorem broadcast_schedule_spec (t : BroadcastTxTable) (p : PendingBroadcast) :
  (length t <= MAX_PENDING_BROADCASTS)%nat →
  let '(t', ok) := schedule t p in
  (length t' <= MAX_PENDING_BROADCASTS)%nat ∧
  ok = negb (btx_full t) || (negb (pb_sent p) && existsb pb_sent t) ∧
  (ok = false → t' = t) ∧
  (ok = true → ∃ kept dropped, t ≡ₚ dropped ++ kept ∧ t' = kept ++ [p] ∧
     (dropped = [] ∨ ∃ e, dropped = [e] ∧ btx_full t = true ∧ pb_sent p = false ∧ pb_sent e = true ∧
        (pb_rreq e = true → ∀ x, x ∈ t → pb_sent x = true → pb_rreq x = true))) ∧
  (can_schedule_route_request t = true → pb_sent p = false → ok = true ∧ can_schedule t' = true).
Proof.
  intros Hlen. pose proof (schedule_split t p Hlen) as H. destruct (schedule t p) as [t' ok].
  destruct H as (Hok & Hno & Hyes). split_and!; [|done|done| |].
  - destruct ok; [|by rewrite Hno]. destruct (Hyes eq_refl) as (kept & _ & _ & -> & Hk & _).
    rewrite length_app. simpl. lia.
  - intros H. destruct (Hyes H) as (kept & dropped & ? & ? & _ & ?). eauto.
  - intros Hr Hs. unfold can_schedule_route_request in Hr. bool_simpl.
    assert (ok = true) as ->.
    { rewrite Hok, Hs, unsent_all_sent. unfold btx_full. destruct (_ =? _)%nat eqn:Hf; bool_simpl; [|done].
      simpl. apply Nat.ltb_lt. lia. }
    split; [done|]. destruct (Hyes eq_refl) as (kept & dropped & Hp & -> & Hk & Hd).
    assert (unsent kept = unsent t) as Hu.
    { unfold unsent. rewrite Hp, count_app. destruct Hd as [->|(e & -> & _ & _ & He & _)]; [done|].
      simpl. by rewrite He. }
    unfold can_schedule, btx_full. rewrite unsent_all_sent.
    assert (unsent (kept ++ [p]) = S (unsent t)) as ->.
    { unfold unsent in *. rewrite count_app, Hu. simpl. rewrite Hs. simpl. lia. }
    destruct (_ =? _)%nat eqn:Hf; bool_simpl; [|done]. rewrite Hf. simpl. apply Nat.ltb_lt. lia.
Qed.

Definition ex_pending (n : Z) (sent rreq : bool) : PendingBroadcast :=
  mk_PendingBroadcast 0 n [] 2 0 sent rreq 0 [].

Lemma broadcast_schedule_spec_witness :
  can_schedule (schedule [ex_pending 1 true true; ex_pending 2 true false; ex_pending 3 false false;
    ex_pending 4 false false] (ex_pending 5 false true)).1 = true.
Proof.
  pose proof (broadcast_schedule_spec [ex_pending 1 true true; ex_pending 2 true false;
    ex_pending 3 false false; ex_pending 4 false false] (ex_pending 5 false true)) as H.
  destruct (schedule _ _) as [t' ok]. apply H; [vm_compute; lia|reflexivity|reflexivity].
Defined.

(** Deciding on a route request never panics.  A known request is
    admitted exactly when it is cheaper, or equally cheap from a neighbor not
    yet listed while the list has room; an unknown one exactly when a slot is
    free.  A refusal changes nothing; an admission records the cost, leaves
    every other request's record alone, and strictly lowers the non-negative
    budget of a known request, so one flood is admitted only finitely often
    while its record lives. *)
Theorem rreq_admit_spec (t : RreqRecordTable) (o : ShortAddress) (id : Z) (s : ShortAddress) (c : Z) :
  rrt_wf t → is_u8 c →
  ∃ t' ok, rreq_admit t o id s c = Ok (t', ok) ∧ rrt_wf t' ∧
    ok = match List.find (rr_identified o id) t with
         | Some e => rr_accepts e s c
         | None => existsb (λ e, negb (rr_active e)) t
         end ∧
    (ok = false → t' = t) ∧
    (ok = true → recorded_cost t' o id = Some c ∧
       ∀ o' id', (o', id') ≠ (o, id) → recorded_cost t' o' id' = recorded_cost t o' id') ∧
    (∀ e, ok = true → List.find (rr_identified o id) t = Some e →
       ∃ e', List.find (rr_identified o id) t' = Some e' ∧ 0 <= rr_budget e' < rr_budget e).
Proof.
  intros Ht Hc. unfold rreq_admit. rewrite find_position.
  assert (∀ o' id' e, rr_identified o id e = true → (o', id') ≠ (o, id) → rr_identified o' id' e = false) as Hoth.
  { intros o' id' e (_ & <- & <-)%rr_identified_true Hne. apply not_true_iff_false.
    intros (_ & <- & <-)%rr_identified_true. done. }
  destruct (position (rr_identified o id) t) as [i|] eqn:Hp; cbn [mbind option_bind].
  - apply position_Some in Hp as (e & He & Hpe & Hmin). unfold index. rewrite He. simpl.
    pose proof (lookup_lt_Some _ _ _ He) as Hi.
    pose proof (Forall_lookup_1 _ _ _ _ (rrt_wf_records _ Ht) He) as Hew.
    pose proof (readmit_spec e s c Hew Hc) as Hr. destruct (rr_accepts e s c) eqn:Hacc.
    2:{ rewrite Hr. simpl. exists t, false. split_and!; done. }
    destruct Hr as (e' & -> & Hwf' & Ho & Hid & Ha & Hcost & Hb). simpl.
    apply rr_identified_true in Hpe as Hpe'. destruct Hpe' as (Hea & Heo & Hei).
    assert (rr_identified o id e' = true) as Hpe' by (apply rr_identified_true; rewrite Ha, Ho, Hid; done).
    assert (List.find (rr_identified o id) (<[i:=e']> t) = Some e') as Hfind by by apply find_insert_first.
    exists (<[i:=e']> t), true. split_and!; [done| |done|done| |].
    + apply rrt_wf_insert; [done..|]. intros j x Hj Hx. apply not_true_iff_false.
      intros (Hxa & Hxo & Hxi)%rr_identified_true. apply Hj.
      apply (rrt_wf_unique _ Ht j i x e); congruence.
    + intros _. split; [unfold recorded_cost; by rewrite Hfind, <- Hcost|].
      intros o' id' Hne. eapply recorded_cost_insert; eauto.
    + intros x _ [= <-]. exists e'. split; [done|]. split; [|done].
      destruct Hwf' as [_ Hn Hcc]. unfold rr_budget, MAX_RREQ_SENDERS, MAX_NEIGHBORS in *. ulia.
  - rewrite (existsb_position (λ e, negb (rr_active e))).
    destruct (position (λ e, negb (rr_active e)) t) as [i|] eqn:Hv.
    2:{ exists t, false. split_and!; done. }
    rewrite put_lt by (unfold no_senders; rewrite repeat_length; unfold MAX_RREQ_SENDERS, MAX_NEIGHBORS; lia).
    cbn [mbind outcome_bind]. apply position_Some in Hv as (x & Hx & Hxa & _). apply negb_true_iff in Hxa.
    pose proof (lookup_lt_Some _ _ _ Hx) as Hi. rewrite position_None in Hp.
    set (e' := mk_RreqRecord _ _ _ _ _ _ _).
    assert (rr_identified o id e' = true) as Hpe' by by apply rr_identified_true.
    eexists _, true. split_and!; [reflexivity| |done|done| |done].
    + apply rrt_wf_insert; [done..| |].
      * split; simpl; [done|unfold MAX_RREQ_SENDERS, MAX_NEIGHBORS; lia|done].
      * intros j y _ Hy. apply Hp. by eapply list_elem_of_lookup_2.
    + intros _. split.
      * unfold recorded_cost. rewrite find_insert_first; [done|done|done|].
        intros j y _ Hy. apply Hp. by eapply list_elem_of_lookup_2.
      * intros o' id' Hne. eapply recorded_cost_insert; [done|eauto|]. unfold rr_identified.
        by rewrite Hxa.
Qed.

Lemma rrt_new_wf : rrt_wf rrt_new.
Proof.
  split.
  - done.
  - apply Forall_forall. intros e He%list_elem_of_In%repeat_spec. subst.
    split; [done|simpl; lia|done].
  - intros i j e e' Hi _ Ha. apply list_elem_of_lookup_2, list_elem_of_In, repeat_spec in Hi. by subst.
Qed.

Lemma rreq_admit_spec_witness :
  ∃ t' ok, rreq_admit rrt_new 5 1 9 10 = Ok (t', ok) ∧ recorded_cost t' 5 1 = Some 10.
Proof.
  destruct (rreq_admit_spec rrt_new 5 1 9 10) as (t' & ok & Ha & _ & Hok & _ & Hc & _);
    [apply rrt_new_wf|done|].
  exists t', ok. split; [exact Ha|]. apply Hc. rewrite Hok. reflexivity.
Defined.

(** The other two operations keep the invariant. *)
Lemma rrt_wf_slotwise t t' :
  rrt_wf t →
  Forall2 (λ e e', rr_originator e' = rr_originator e ∧
     rr_route_request_id e' = rr_route_request_id e ∧ (rr_wf e → rr_wf e') ∧
     (rr_active e' = true → rr_active e = true)) t t' →
  rrt_wf t'.
Proof.
  intros Ht Hs. split.
  - apply Forall2_length in Hs. pose proof (rrt_wf_length _ Ht). lia.
  - apply Forall_lookup. intros i e' Hi.
    destruct (Forall2_lookup_r _ _ _ _ _ Hs Hi) as (e & He & _ & _ & Hw & _).
    apply Hw. by eapply Forall_lookup_1; [apply rrt_wf_records|].
  - intros i j x y Hi Hj Hx Hy Ho Hd.
    destruct (Forall2_lookup_r _ _ _ _ _ Hs Hi) as (x' & Hx' & Ho1 & Hd1 & _ & Ha1).
    destruct (Forall2_lookup_r _ _ _ _ _ Hs Hj) as (y' & Hy' & Ho2 & Hd2 & _ & Ha2).
    apply (rrt_wf_unique _ Ht i j x' y'); auto; congruence.
Qed.

Lemma rreq_age_wf t : rrt_wf t → rrt_wf (rreq_age t).
Proof.
  intros Ht. apply (rrt_wf_slotwise t); [done|]. unfold rreq_age. clear Ht.
  induction t as [|e t IH]; constructor; [|done].
  destruct (rr_active e) eqn:Ha; split_and!; try done; by intros [].
Qed.

Lemma rreq_remove_wf t o id : rrt_wf t → rrt_wf (rreq_remove t o id).
Proof.
  intros Ht. apply (rrt_wf_slotwise t); [done|]. unfold rreq_remove, modify_first.
  destruct (position _ t) as [i|].
  - clear Ht. revert i. induction t as [|e t IH]; intros [|i]; constructor;
      [split_and!; try done; by intros []|by apply Forall_Forall2_diag, Forall_true|done|apply IH].
  - by apply Forall_Forall2_diag, Forall_true.
Qed.
