(* ===== verification/NwkNib.v ===== *)
(** The network information base: [zigbee-nwk/src/nib.rs].

    The NIB holds the NWK layer's scalar state.  Its operations draw sequence
    numbers, route request identifiers and frame counters, hold the network
    update identifier with its validity, and run the end device timeout
    negotiation with the parent; the latter is a small state machine whose
    reachable states are characterised at the end of the file. *)
From S2P Require Import Prelude.
From S2P Require Import ZigbeeTypes.
From S2P Require Import NwkFrames.

Local Open Scope Z_scope.

Inductive AddressAssignMethod := TreeBased | Stochastic.

Record Nib := mk_Nib {
  nib_extended_pan_id : IeeeAddress;
  nib_pan_id : PanId;
  nib_network_address : ShortAddress;
  nib_logical_channel : Z;
  nib_stack_profile : Z;
  nib_depth : Z;
  nib_max_depth : Z;
  nib_max_routers : Z;
  nib_max_children : Z;
  nib_update_id : Z;
  nib_update_id_valid : bool;
  nib_nwk_manager_addr : ShortAddress;
  nib_device_announce_pending : bool;
  nib_parent_link_provisional : bool;
  nib_ieee_address : IeeeAddress;
  nib_parent_address : ShortAddress;
  nib_address_assign : AddressAssignMethod;
  nib_broadcast_delivery_time : Z;
  nib_passive_ack_timeout : Z;
  nib_max_broadcast_retries : Z;
  nib_transaction_persistence_time : Z;
  nib_use_tree_routing : bool;
  nib_source_routing : bool;
  nib_route_discovery_retries : Z;
  nib_security_level : Z;
  nib_security_enabled : bool;
  nib_active_key_seq_number : Z;
  nib_outgoing_frame_counter : Z;
  nib_outgoing_frame_counter_limit : Z;
  nib_sequence_number : Z;
  nib_route_request_id : Z;
  nib_permit_joining : bool;
  nib_permit_joining_duration : Z;
  nib_parent_information : Z;
  nib_parent_information_valid : bool;
  nib_end_device_timeout : Z;
  nib_requested_end_device_timeout : Z;
  nib_end_device_timeout_accepts : Z;
  nib_end_device_timeout_response_pending : bool }.

Definition nib_new : Nib := {|
  nib_extended_pan_id := repeat 0 8;
  nib_pan_id := 0xFFFF;
  nib_network_address := 0xFFFF;
  nib_logical_channel := 0;
  nib_stack_profile := 0x02;
  nib_depth := 0;
  nib_max_depth := 15;
  nib_max_routers := 5;
  nib_max_children := 20;
  nib_update_id := 0;
  nib_update_id_valid := false;
  nib_nwk_manager_addr := COORDINATOR;
  nib_device_announce_pending := false;
  nib_parent_link_provisional := false;
  nib_ieee_address := repeat 0 8;
  nib_parent_address := 0xFFFF;
  nib_address_assign := Stochastic;
  nib_broadcast_delivery_time := 9;
  nib_passive_ack_timeout := 500;
  nib_max_broadcast_retries := 3;
  nib_transaction_persistence_time := 500;
  nib_use_tree_routing := false;
  nib_source_routing := false;
  nib_route_discovery_retries := 3;
  nib_security_level := 5;
  nib_security_enabled := false;
  nib_active_key_seq_number := 0;
  nib_outgoing_frame_counter := 0;
  nib_outgoing_frame_counter_limit := 0;
  nib_sequence_number := 0;
  nib_route_request_id := 0;
  nib_permit_joining := false;
  nib_permit_joining_duration := 0;
  nib_parent_information := 0;
  nib_parent_information_valid := false;
  nib_end_device_timeout := ED_TIMEOUT_ENUM_DEFAULT;
  nib_requested_end_device_timeout := ED_TIMEOUT_ENUM_DEFAULT;
  nib_end_device_timeout_accepts := 0;
  nib_end_device_timeout_response_pending := false |}.

(** Field assignments. *)
Definition set_network_address (v : ShortAddress) (n : Nib) : Nib :=
  mk_Nib
    (nib_extended_pan_id n) (nib_pan_id n) v (nib_logical_channel n) (nib_stack_profile
    n) (nib_depth n) (nib_max_depth n) (nib_max_routers n) (nib_max_children n)
    (nib_update_id n) (nib_update_id_valid n) (nib_nwk_manager_addr n)
    (nib_device_announce_pending n) (nib_parent_link_provisional n) (nib_ieee_address n)
    (nib_parent_address n) (nib_address_assign n) (nib_broadcast_delivery_time n)
    (nib_passive_ack_timeout n) (nib_max_broadcast_retries n)
    (nib_transaction_persistence_time n) (nib_use_tree_routing n) (nib_source_routing n)
    (nib_route_discovery_retries n) (nib_security_level n) (nib_security_enabled n)
    (nib_active_key_seq_number n) (nib_outgoing_frame_counter n)
    (nib_outgoing_frame_counter_limit n) (nib_sequence_number n) (nib_route_request_id
    n) (nib_permit_joining n) (nib_permit_joining_duration n) (nib_parent_information n)
    (nib_parent_information_valid n) (nib_end_device_timeout n)
    (nib_requested_end_device_timeout n) (nib_end_device_timeout_accepts n)
    (nib_end_device_timeout_response_pending n).
Definition set_parent_address (v : ShortAddress) (n : Nib) : Nib :=
  mk_Nib
    (nib_extended_pan_id n) (nib_pan_id n) (nib_network_address n) (nib_logical_channel
    n) (nib_stack_profile n) (nib_depth n) (nib_max_depth n) (nib_max_routers n)
    (nib_max_children n) (nib_update_id n) (nib_update_id_valid n) (nib_nwk_manager_addr
    n) (nib_device_announce_pending n) (nib_parent_link_provisional n) (nib_ieee_address
    n) v (nib_address_assign n) (nib_broadcast_delivery_time n) (nib_passive_ack_timeout
    n) (nib_max_broadcast_retries n) (nib_transaction_persistence_time n)
    (nib_use_tree_routing n) (nib_source_routing n) (nib_route_discovery_retries n)
    (nib_security_level n) (nib_security_enabled n) (nib_active_key_seq_number n)
    (nib_outgoing_frame_counter n) (nib_outgoing_frame_counter_limit n)
    (nib_sequence_number n) (nib_route_request_id n) (nib_permit_joining n)
    (nib_permit_joining_duration n) (nib_parent_information n)
    (nib_parent_information_valid n) (nib_end_device_timeout n)
    (nib_requested_end_device_timeout n) (nib_end_device_timeout_accepts n)
    (nib_end_device_timeout_response_pending n).
Definition set_update_id (v : Z) (n : Nib) : Nib :=
  mk_Nib
    (nib_extended_pan_id n) (nib_pan_id n) (nib_network_address n) (nib_logical_channel
    n) (nib_stack_profile n) (nib_depth n) (nib_max_depth n) (nib_max_routers n)
    (nib_max_children n) v (nib_update_id_valid n) (nib_nwk_manager_addr n)
    (nib_device_announce_pending n) (nib_parent_link_provisional n) (nib_ieee_address n)
    (nib_parent_address n) (nib_address_assign n) (nib_broadcast_delivery_time n)
    (nib_passive_ack_timeout n) (nib_max_broadcast_retries n)
    (nib_transaction_persistence_time n) (nib_use_tree_routing n) (nib_source_routing n)
    (nib_route_discovery_retries n) (nib_security_level n) (nib_security_enabled n)
    (nib_active_key_seq_number n) (nib_outgoing_frame_counter n)
    (nib_outgoing_frame_counter_limit n) (nib_sequence_number n) (nib_route_request_id
    n) (nib_permit_joining n) (nib_permit_joining_duration n) (nib_parent_information n)
    (nib_parent_information_valid n) (nib_end_device_timeout n)
    (nib_requested_end_device_timeout n) (nib_end_device_timeout_accepts n)
    (nib_end_device_timeout_response_pending n).
Definition set_update_id_valid (v : bool) (n : Nib) : Nib :=
  mk_Nib
    (nib_extended_pan_id n) (nib_pan_id n) (nib_network_address n) (nib_logical_channel
    n) (nib_stack_profile n) (nib_depth n) (nib_max_depth n) (nib_max_routers n)
    (nib_max_children n) (nib_update_id n) v (nib_nwk_manager_addr n)
    (nib_device_announce_pending n) (nib_parent_link_provisional n) (nib_ieee_address n)
    (nib_parent_address n) (nib_address_assign n) (nib_broadcast_delivery_time n)
    (nib_passive_ack_timeout n) (nib_max_broadcast_retries n)
    (nib_transaction_persistence_time n) (nib_use_tree_routing n) (nib_source_routing n)
    (nib_route_discovery_retries n) (nib_security_level n) (nib_security_enabled n)
    (nib_active_key_seq_number n) (nib_outgoing_frame_counter n)
    (nib_outgoing_frame_counter_limit n) (nib_sequence_number n) (nib_route_request_id
    n) (nib_permit_joining n) (nib_permit_joining_duration n) (nib_parent_information n)
    (nib_parent_information_valid n) (nib_end_device_timeout n)
    (nib_requested_end_device_timeout n) (nib_end_device_timeout_accepts n)
    (nib_end_device_timeout_response_pending n).
Definition set_outgoing_frame_counter (v : Z) (n : Nib) : Nib :=
  mk_Nib
    (nib_extended_pan_id n) (nib_pan_id n) (nib_network_address n) (nib_logical_channel
    n) (nib_stack_profile n) (nib_depth n) (nib_max_depth n) (nib_max_routers n)
    (nib_max_children n) (nib_update_id n) (nib_update_id_valid n) (nib_nwk_manager_addr
    n) (nib_device_announce_pending n) (nib_parent_link_provisional n) (nib_ieee_address
    n) (nib_parent_address n) (nib_address_assign n) (nib_broadcast_delivery_time n)
    (nib_passive_ack_timeout n) (nib_max_broadcast_retries n)
    (nib_transaction_persistence_time n) (nib_use_tree_routing n) (nib_source_routing n)
    (nib_route_discovery_retries n) (nib_security_level n) (nib_security_enabled n)
    (nib_active_key_seq_number n) v (nib_outgoing_frame_counter_limit n)
    (nib_sequence_number n) (nib_route_request_id n) (nib_permit_joining n)
    (nib_permit_joining_duration n) (nib_parent_information n)
    (nib_parent_information_valid n) (nib_end_device_timeout n)
    (nib_requested_end_device_timeout n) (nib_end_device_timeout_accepts n)
    (nib_end_device_timeout_response_pending n).
Definition set_outgoing_frame_counter_limit (v : Z) (n : Nib) : Nib :=
  mk_Nib
    (nib_extended_pan_id n) (nib_pan_id n) (nib_network_address n) (nib_logical_channel
    n) (nib_stack_profile n) (nib_depth n) (nib_max_depth n) (nib_max_routers n)
    (nib_max_children n) (nib_update_id n) (nib_update_id_valid n) (nib_nwk_manager_addr
    n) (nib_device_announce_pending n) (nib_parent_link_provisional n) (nib_ieee_address
    n) (nib_parent_address n) (nib_address_assign n) (nib_broadcast_delivery_time n)
    (nib_passive_ack_timeout n) (nib_max_broadcast_retries n)
    (nib_transaction_persistence_time n) (nib_use_tree_routing n) (nib_source_routing n)
    (nib_route_discovery_retries n) (nib_security_level n) (nib_security_enabled n)
    (nib_active_key_seq_number n) (nib_outgoing_frame_counter n) v (nib_sequence_number
    n) (nib_route_request_id n) (nib_permit_joining n) (nib_permit_joining_duration n)
    (nib_parent_information n) (nib_parent_information_valid n) (nib_end_device_timeout
    n) (nib_requested_end_device_timeout n) (nib_end_device_timeout_accepts n)
    (nib_end_device_timeout_response_pending n).
Definition set_sequence_number (v : Z) (n : Nib) : Nib :=
  mk_Nib
    (nib_extended_pan_id n) (nib_pan_id n) (nib_network_address n) (nib_logical_channel
    n) (nib_stack_profile n) (nib_depth n) (nib_max_depth n) (nib_max_routers n)
    (nib_max_children n) (nib_update_id n) (nib_update_id_valid n) (nib_nwk_manager_addr
    n) (nib_device_announce_pending n) (nib_parent_link_provisional n) (nib_ieee_address
    n) (nib_parent_address n) (nib_address_assign n) (nib_broadcast_delivery_time n)
    (nib_passive_ack_timeout n) (nib_max_broadcast_retries n)
    (nib_transaction_persistence_time n) (nib_use_tree_routing n) (nib_source_routing n)
    (nib_route_discovery_retries n) (nib_security_level n) (nib_security_enabled n)
    (nib_active_key_seq_number n) (nib_outgoing_frame_counter n)
    (nib_outgoing_frame_counter_limit n) v (nib_route_request_id n) (nib_permit_joining
    n) (nib_permit_joining_duration n) (nib_parent_information n)
    (nib_parent_information_valid n) (nib_end_device_timeout n)
    (nib_requested_end_device_timeout n) (nib_end_device_timeout_accepts n)
    (nib_end_device_timeout_response_pending n).
Definition set_route_request_id (v : Z) (n : Nib) : Nib :=
  mk_Nib
    (nib_extended_pan_id n) (nib_pan_id n) (nib_network_address n) (nib_logical_channel
    n) (nib_stack_profile n) (nib_depth n) (nib_max_depth n) (nib_max_routers n)
    (nib_max_children n) (nib_update_id n) (nib_update_id_valid n) (nib_nwk_manager_addr
    n) (nib_device_announce_pending n) (nib_parent_link_provisional n) (nib_ieee_address
    n) (nib_parent_address n) (nib_address_assign n) (nib_broadcast_delivery_time n)
    (nib_passive_ack_timeout n) (nib_max_broadcast_retries n)
    (nib_transaction_persistence_time n) (nib_use_tree_routing n) (nib_source_routing n)
    (nib_route_discovery_retries n) (nib_security_level n) (nib_security_enabled n)
    (nib_active_key_seq_number n) (nib_outgoing_frame_counter n)
    (nib_outgoing_frame_counter_limit n) (nib_sequence_number n) v (nib_permit_joining
    n) (nib_permit_joining_duration n) (nib_parent_information n)
    (nib_parent_information_valid n) (nib_end_device_timeout n)
    (nib_requested_end_device_timeout n) (nib_end_device_timeout_accepts n)
    (nib_end_device_timeout_response_pending n).
Definition set_parent_information (v : Z) (n : Nib) : Nib :=
  mk_Nib
    (nib_extended_pan_id n) (nib_pan_id n) (nib_network_address n) (nib_logical_channel
    n) (nib_stack_profile n) (nib_depth n) (nib_max_depth n) (nib_max_routers n)
    (nib_max_children n) (nib_update_id n) (nib_update_id_valid n) (nib_nwk_manager_addr
    n) (nib_device_announce_pending n) (nib_parent_link_provisional n) (nib_ieee_address
    n) (nib_parent_address n) (nib_address_assign n) (nib_broadcast_delivery_time n)
    (nib_passive_ack_timeout n) (nib_max_broadcast_retries n)
    (nib_transaction_persistence_time n) (nib_use_tree_routing n) (nib_source_routing n)
    (nib_route_discovery_retries n) (nib_security_level n) (nib_security_enabled n)
    (nib_active_key_seq_number n) (nib_outgoing_frame_counter n)
    (nib_outgoing_frame_counter_limit n) (nib_sequence_number n) (nib_route_request_id
    n) (nib_permit_joining n) (nib_permit_joining_duration n) v
    (nib_parent_information_valid n) (nib_end_device_timeout n)
    (nib_requested_end_device_timeout n) (nib_end_device_timeout_accepts n)
    (nib_end_device_timeout_response_pending n).
Definition set_parent_information_valid (v : bool) (n : Nib) : Nib :=
  mk_Nib
    (nib_extended_pan_id n) (nib_pan_id n) (nib_network_address n) (nib_logical_channel
    n) (nib_stack_profile n) (nib_depth n) (nib_max_depth n) (nib_max_routers n)
    (nib_max_children n) (nib_update_id n) (nib_update_id_valid n) (nib_nwk_manager_addr
    n) (nib_device_announce_pending n) (nib_parent_link_provisional n) (nib_ieee_address
    n) (nib_parent_address n) (nib_address_assign n) (nib_broadcast_delivery_time n)
    (nib_passive_ack_timeout n) (nib_max_broadcast_retries n)
    (nib_transaction_persistence_time n) (nib_use_tree_routing n) (nib_source_routing n)
    (nib_route_discovery_retries n) (nib_security_level n) (nib_security_enabled n)
    (nib_active_key_seq_number n) (nib_outgoing_frame_counter n)
    (nib_outgoing_frame_counter_limit n) (nib_sequence_number n) (nib_route_request_id
    n) (nib_permit_joining n) (nib_permit_joining_duration n) (nib_parent_information n)
    v (nib_end_device_timeout n) (nib_requested_end_device_timeout n)
    (nib_end_device_timeout_accepts n) (nib_end_device_timeout_response_pending n).
Definition set_end_device_timeout (v : Z) (n : Nib) : Nib :=
  mk_Nib
    (nib_extended_pan_id n) (nib_pan_id n) (nib_network_address n) (nib_logical_channel
    n) (nib_stack_profile n) (nib_depth n) (nib_max_depth n) (nib_max_routers n)
    (nib_max_children n) (nib_update_id n) (nib_update_id_valid n) (nib_nwk_manager_addr
    n) (nib_device_announce_pending n) (nib_parent_link_provisional n) (nib_ieee_address
    n) (nib_parent_address n) (nib_address_assign n) (nib_broadcast_delivery_time n)
    (nib_passive_ack_timeout n) (nib_max_broadcast_retries n)
    (nib_transaction_persistence_time n) (nib_use_tree_routing n) (nib_source_routing n)
    (nib_route_discovery_retries n) (nib_security_level n) (nib_security_enabled n)
    (nib_active_key_seq_number n) (nib_outgoing_frame_counter n)
    (nib_outgoing_frame_counter_limit n) (nib_sequence_number n) (nib_route_request_id
    n) (nib_permit_joining n) (nib_permit_joining_duration n) (nib_parent_information n)
    (nib_parent_information_valid n) v (nib_requested_end_device_timeout n)
    (nib_end_device_timeout_accepts n) (nib_end_device_timeout_response_pending n).
Definition set_requested_end_device_timeout (v : Z) (n : Nib) : Nib :=
  mk_Nib
    (nib_extended_pan_id n) (nib_pan_id n) (nib_network_address n) (nib_logical_channel
    n) (nib_stack_profile n) (nib_depth n) (nib_max_depth n) (nib_max_routers n)
    (nib_max_children n) (nib_update_id n) (nib_update_id_valid n) (nib_nwk_manager_addr
    n) (nib_device_announce_pending n) (nib_parent_link_provisional n) (nib_ieee_address
    n) (nib_parent_address n) (nib_address_assign n) (nib_broadcast_delivery_time n)
    (nib_passive_ack_timeout n) (nib_max_broadcast_retries n)
    (nib_transaction_persistence_time n) (nib_use_tree_routing n) (nib_source_routing n)
    (nib_route_discovery_retries n) (nib_security_level n) (nib_security_enabled n)
    (nib_active_key_seq_number n) (nib_outgoing_frame_counter n)
    (nib_outgoing_frame_counter_limit n) (nib_sequence_number n) (nib_route_request_id
    n) (nib_permit_joining n) (nib_permit_joining_duration n) (nib_parent_information n)
    (nib_parent_information_valid n) (nib_end_device_timeout n) v
    (nib_end_device_timeout_accepts n) (nib_end_device_timeout_response_pending n).
Definition set_end_device_timeout_accepts (v : Z) (n : Nib) : Nib :=
  mk_Nib
    (nib_extended_pan_id n) (nib_pan_id n) (nib_network_address n) (nib_logical_channel
    n) (nib_stack_profile n) (nib_depth n) (nib_max_depth n) (nib_max_routers n)
    (nib_max_children n) (nib_update_id n) (nib_update_id_valid n) (nib_nwk_manager_addr
    n) (nib_device_announce_pending n) (nib_parent_link_provisional n) (nib_ieee_address
    n) (nib_parent_address n) (nib_address_assign n) (nib_broadcast_delivery_time n)
    (nib_passive_ack_timeout n) (nib_max_broadcast_retries n)
    (nib_transaction_persistence_time n) (nib_use_tree_routing n) (nib_source_routing n)
    (nib_route_discovery_retries n) (nib_security_level n) (nib_security_enabled n)
    (nib_active_key_seq_number n) (nib_outgoing_frame_counter n)
    (nib_outgoing_frame_counter_limit n) (nib_sequence_number n) (nib_route_request_id
    n) (nib_permit_joining n) (nib_permit_joining_duration n) (nib_parent_information n)
    (nib_parent_information_valid n) (nib_end_device_timeout n)
    (nib_requested_end_device_timeout n) v (nib_end_device_timeout_response_pending n).
Definition set_end_device_timeout_response_pending (v : bool) (n : Nib) : Nib :=
  mk_Nib
    (nib_extended_pan_id n) (nib_pan_id n) (nib_network_address n) (nib_logical_channel
    n) (nib_stack_profile n) (nib_depth n) (nib_max_depth n) (nib_max_routers n)
    (nib_max_children n) (nib_update_id n) (nib_update_id_valid n) (nib_nwk_manager_addr
    n) (nib_device_announce_pending n) (nib_parent_link_provisional n) (nib_ieee_address
    n) (nib_parent_address n) (nib_address_assign n) (nib_broadcast_delivery_time n)
    (nib_passive_ack_timeout n) (nib_max_broadcast_retries n)
    (nib_transaction_persistence_time n) (nib_use_tree_routing n) (nib_source_routing n)
    (nib_route_discovery_retries n) (nib_security_level n) (nib_security_enabled n)
    (nib_active_key_seq_number n) (nib_outgoing_frame_counter n)
    (nib_outgoing_frame_counter_limit n) (nib_sequence_number n) (nib_route_request_id
    n) (nib_permit_joining n) (nib_permit_joining_duration n) (nib_parent_information n)
    (nib_parent_information_valid n) (nib_end_device_timeout n)
    (nib_requested_end_device_timeout n) (nib_end_device_timeout_accepts n) v.

(** ** Sequences and counters *)
Definition next_seq (n : Nib) : Z * Nib :=
  let seq := nib_sequence_number n in
  (seq, set_sequence_number (wrapping_add_u8 (nib_sequence_number n) 1) n).

Definition next_route_request_id (n : Nib) : Z * Nib :=
  let id := nib_route_request_id n in
  (id, set_route_request_id (wrapping_add_u8 (nib_route_request_id n) 1) n).

(** [None] when the reservation is exhausted; the plain [+= 1] panics on
    overflow. *)
Definition next_frame_counter (n : Nib) : fallible (Z * Nib) :=
  if nib_outgoing_frame_counter_limit n <=? nib_outgoing_frame_counter n then Err tt
  else
    let fc := nib_outgoing_frame_counter n in
    c ← add_u32 (nib_outgoing_frame_counter n) 1;
    Ok (fc, set_outgoing_frame_counter c n).

Definition set_frame_counter_reservation (current limit : Z) (n : Nib) : bool * Nib :=
  if limit <? current then (false, n)
  else (true, set_outgoing_frame_counter_limit limit (set_outgoing_frame_counter current n)).

(** ** [nwkUpdateId] *)
Definition nwk_update_id (n : Nib) : option Z :=
  if nib_update_id_valid n then Some (nib_update_id n) else None.

Definition set_nwk_update_id (update_id : Z) (n : Nib) : Nib :=
  set_update_id_valid true (set_update_id update_id n).

Definition clear_nwk_update_id (n : Nib) : Nib :=
  set_update_id_valid false (set_update_id 0 n).

Definition restore_nwk_update_id (update_id : option Z) (n : Nib) : Nib :=
  match update_id with
  | Some value => set_nwk_update_id value n
  | None => clear_nwk_update_id n
  end.

(** ** End device timeout negotiation *)
Definition reset_end_device_timeout_negotiation (n : Nib) : Nib :=
  set_end_device_timeout_response_pending false
    (set_requested_end_device_timeout ED_TIMEOUT_ENUM_REQUESTED
       (set_end_device_timeout ED_TIMEOUT_ENUM_DEFAULT
          (set_parent_information_valid false (set_parent_information 0 n)))).

Definition restore_end_device_timeout (parent_information : Z) (parent_information_valid : bool)
    (end_device_timeout : Z) (n : Nib) : bool * Nib :=
  if (ED_TIMEOUT_ENUM_MAX <? end_device_timeout)
     || has_bits parent_information (not_u8 PARENT_INFO_MASK)
     || (negb parent_information_valid && negb (parent_information =? 0))
  then (false, n)
  else
    let n := set_parent_information parent_information n in
    let n := set_parent_information_valid parent_information_valid n in
    let n := set_end_device_timeout end_device_timeout n in
    let n := set_requested_end_device_timeout
               (if parent_information_valid then end_device_timeout
                else ED_TIMEOUT_ENUM_REQUESTED) n in
    (true, set_end_device_timeout_response_pending false n).

Definition mark_end_device_timeout_response_pending (n : Nib) : Nib :=
  set_end_device_timeout_response_pending true n.

Definition take_end_device_timeout_response_pending (n : Nib) : bool * Nib :=
  (nib_end_device_timeout_response_pending n, set_end_device_timeout_response_pending false n).

Definition clear_end_device_timeout_response_pending (n : Nib) : Nib :=
  set_end_device_timeout_response_pending false n.

Definition accept_end_device_timeout (parent_information : Z) (n : Nib) : Nib :=
  let n := set_parent_information (Z.land parent_information PARENT_INFO_MASK) n in
  let n := set_parent_information_valid true n in
  let n := set_end_device_timeout (nib_requested_end_device_timeout n) n in
  set_end_device_timeout_accepts (wrapping_add_u8 (nib_end_device_timeout_accepts n) 1) n.

Definition lower_requested_end_device_timeout (n : Nib) : bool * Nib :=
  if nib_requested_end_device_timeout n <=? ED_TIMEOUT_ENUM_DEFAULT then (false, n)
  else (true, set_requested_end_device_timeout (nib_requested_end_device_timeout n - 1) n).

Definition end_device_timeout_seconds (n : Nib) : Z :=
  match ed_timeout_enum_to_seconds (nib_end_device_timeout n) with
  | Some s => s
  | None => match ed_timeout_enum_to_seconds ED_TIMEOUT_ENUM_DEFAULT with
            | Some s => s
            | None => 10
            end
  end.

(** ** The response handler of [zigbee-nwk/src/nlde.rs] *)
Inductive DeviceType := Coordinator | Router | EndDevice.

#[export] Instance DeviceType_eq_dec : EqDecision DeviceType.
Proof. solve_decision. Defined.

Definition is_unicast_address (addr : ShortAddress) : bool := addr <? 0xFFF8.

(** [NwkLayer::handle_ed_timeout_response]: the effect is NIB state only. *)
Definition handle_ed_timeout_response (device_type : DeviceType) (n : Nib)
    (src dst : ShortAddress) (payload : list Z) : Nib :=
  if negb (bool_decide (device_type = EndDevice)) then n
  else
    let parent := nib_parent_address n in
    if negb (is_unicast_address parent) || negb (src =? parent) || negb (dst =? nib_network_address n)
    then n
    else
      match ed_timeout_response_parse payload with
      | Ok response =>
          if etr_status response =? ED_TIMEOUT_STATUS_SUCCESS then
            let '(pending, n) := take_end_device_timeout_response_pending n in
            if negb pending then n else accept_end_device_timeout (etr_parent_info response) n
          else if etr_status response =? ED_TIMEOUT_STATUS_INCORRECT_VALUE then
            let '(pending, n) := take_end_device_timeout_response_pending n in
            if negb pending then n else (lower_requested_end_device_timeout n).2
          else n
      | _ => n
      end.

(** ** The negotiation as a state machine *)
Inductive nego_step (device_type : DeviceType) : Nib → Nib → Prop :=
| nego_reset n : nego_step device_type n (reset_end_device_timeout_negotiation n)
| nego_restore n info valid timeout :
    is_u8 info → is_u8 timeout →
    nego_step device_type n (restore_end_device_timeout info valid timeout n).2
| nego_request n : nego_step device_type n (mark_end_device_timeout_response_pending n)
| nego_cancel n : nego_step device_type n (clear_end_device_timeout_response_pending n)
| nego_response n src dst payload :
    Forall is_u8 payload →
    nego_step device_type n (handle_ed_timeout_response device_type n src dst payload).

Inductive nego_reachable (device_type : DeviceType) : Nib → Prop :=
| nego_start : nego_reachable device_type nib_new
| nego_next n n' :
    nego_reachable device_type n → nego_step device_type n n' → nego_reachable device_type n'.

Record nego_inv (n : Nib) : Prop := {
  nego_timeout : 0 <= nib_end_device_timeout n <= ED_TIMEOUT_ENUM_MAX;
  nego_requested : 0 <= nib_requested_end_device_timeout n <= ED_TIMEOUT_ENUM_MAX;
  nego_info : Z.land (nib_parent_information n) (not_u8 PARENT_INFO_MASK) = 0 ∧
              is_u8 (nib_parent_information n);
  nego_valid : nib_parent_information_valid n = false → nib_parent_information n = 0 }.

Lemma parent_info_masked x :
  is_u8 x → Z.land (Z.land x PARENT_INFO_MASK) (not_u8 PARENT_INFO_MASK) = 0 ∧
            is_u8 (Z.land x PARENT_INFO_MASK).
Proof.
  intros Hx.
  pose proof (range_forall 256 (λ x, bool_decide
    (Z.land (Z.land x PARENT_INFO_MASK) (not_u8 PARENT_INFO_MASK) = 0 ∧
     is_u8 (Z.land x PARENT_INFO_MASK))) eq_refl x Hx) as H.
  by apply bool_decide_eq_true in H.
Qed.

Lemma ed_response_octets payload r :
  Forall is_u8 payload → ed_timeout_response_parse payload = Ok r → is_u8 (etr_parent_info r).
Proof.
  intros Hp. unfold ed_timeout_response_parse. destruct payload as [|a [|b l]]; [done..|].
  simpl. intros [= <-]. simpl. rewrite !Forall_cons in Hp. tauto.
Qed.

(** The pending flag is the only gate: without a request in flight a response
    changes nothing but the flag itself, which is already clear. *)
Lemma response_unsolicited dt n src dst payload :
  nib_end_device_timeout_response_pending n = false →
  handle_ed_timeout_response dt n src dst payload = n.
Proof.
  intros Hp. unfold handle_ed_timeout_response, take_end_device_timeout_response_pending.
  assert (set_end_device_timeout_response_pending false n = n) as Hid.
  { destruct n; simpl in *. by subst. }
  rewrite Hp, Hid. simpl. by repeat case_match.
Qed.

Lemma nego_inv_step dt n n' : nego_inv n → nego_step dt n n' → nego_inv n'.
Proof.
  intros Hi Hs. destruct Hi as [H1 H2 H3 H4]. destruct Hs as [n|n info valid timeout Hinfo Ht|n|n|n src dst payload Hp].
  - split; simpl; done.
  - unfold restore_end_device_timeout. destruct (_ || _ || _) eqn:Hc; [by split|].
    bool_simpl; (split; simpl; [ulia|destruct valid; unfold ED_TIMEOUT_ENUM_REQUESTED, ED_TIMEOUT_ENUM_MAX in *; ulia| |]);
      unfold has_bits in *; bool_simpl; split_and?; try done; intros; congruence.
  - by split.
  - by split.
  - unfold handle_ed_timeout_response, take_end_device_timeout_response_pending.
    destruct (negb _); [by split|]. destruct (_ || _ || _); [by split|].
    destruct (ed_timeout_response_parse payload) as [r| |] eqn:Hr; [|by split..].
    destruct (_ =? ED_TIMEOUT_STATUS_SUCCESS).
    + destruct (nib_end_device_timeout_response_pending n); simpl; [|by split].
      split; simpl; [done|done| |done]. by apply parent_info_masked, (ed_response_octets payload).
    + destruct (_ =? ED_TIMEOUT_STATUS_INCORRECT_VALUE); [|by split].
      destruct (nib_end_device_timeout_response_pending n); simpl; [|by split].
      unfold lower_requested_end_device_timeout. simpl. case_match eqn:Hc; [by split|]. bool_simpl.
      split; simpl; [done|unfold ED_TIMEOUT_ENUM_DEFAULT in *; lia|done|done].
Qed.

Lemma nego_reachable_inv dt n : nego_reachable dt n → nego_inv n.
Proof.
  induction 1 as [|n n' _ IH Hs]; [|by eapply nego_inv_step].
  split; simpl; try done; unfold ED_TIMEOUT_ENUM_DEFAULT, ED_TIMEOUT_ENUM_MAX; lia.
Qed.

(** ** Drawing frame counters *)
Fixpoint draw_counters (k : nat) (n : Nib) : list Z * Nib :=
  match k with
  | O => ([], n)
  | S k' =>
      match next_frame_counter n with
      | Ok (fc, n) => let '(l, n) := draw_counters k' n in (fc :: l, n)
      | _ => ([], n)
      end
  end.

Lemma next_frame_counter_eq n :
  is_u32 (nib_outgoing_frame_counter_limit n) →
  next_frame_counter n =
  if nib_outgoing_frame_counter n <? nib_outgoing_frame_counter_limit n
  then Ok (nib_outgoing_frame_counter n,
           set_outgoing_frame_counter (nib_outgoing_frame_counter n + 1) n)
  else Err tt.
Proof.
  intros Hl. unfold next_frame_counter. rewrite Z.leb_antisym.
  destruct (Z.ltb_spec (nib_outgoing_frame_counter n) (nib_outgoing_frame_counter_limit n)); simpl; [|done].
  unfold add_u32. rewrite (proj2 (Z.ltb_lt _ _)) by ulia. done.
Qed.

Lemma draw_counters_eq k n :
  is_u32 (nib_outgoing_frame_counter_limit n) →
  nib_outgoing_frame_counter n <= nib_outgoing_frame_counter_limit n →
  let m := Z.min (Z.of_nat k) (nib_outgoing_frame_counter_limit n - nib_outgoing_frame_counter n) in
  draw_counters k n =
  (seqZ (nib_outgoing_frame_counter n) m,
   set_outgoing_frame_counter (nib_outgoing_frame_counter n + m) n).
Proof.
  revert n. induction k as [|k IH]; intros n Hl Hle; cbv zeta.
  { rewrite Z.min_l by lia. simpl. rewrite Z.add_0_r. f_equal. by destruct n. }
  cbn [draw_counters]. rewrite next_frame_counter_eq by done.
  destruct (Z.ltb_spec (nib_outgoing_frame_counter n) (nib_outgoing_frame_counter_limit n)) as [Hlt|Hge].
  - rewrite IH by (simpl; lia || done). simpl.
    set (c := nib_outgoing_frame_counter n) in *. set (l := nib_outgoing_frame_counter_limit n) in *.
    rewrite (seqZ_cons c) by lia.
    replace (Z.pred (Z.min (Z.of_nat (S k)) (l - c))) with (Z.min (Z.of_nat k) (l - (c + 1))) by lia.
    replace (c + Z.min (Z.of_nat (S k)) (l - c)) with (c + 1 + Z.min (Z.of_nat k) (l - (c + 1))) by lia.
    done.
  - rewrite Z.min_r by lia. replace (_ - _) with 0 by lia. simpl. rewrite Z.add_0_r.
    f_equal. by destruct n.
Qed.

(** * Properties *)

(** Drawing frame counters returns the reserved range in order, never
    past its limit and without overflow, until it is exhausted; counters
    drawn after a restart from the previous limit are all different from
    those drawn before, so no counter is ever used twice with one key. *)
Theorem frame_counters_unique (n : Nib) (k1 k2 : nat) (limit' : Z) :
  is_u32 (nib_outgoing_frame_counter_limit n) → is_u32 limit' →
  nib_outgoing_frame_counter n <= nib_outgoing_frame_counter_limit n →
  let c := nib_outgoing_frame_counter n in
  let limit := nib_outgoing_frame_counter_limit n in
  let '(drawn, n1) := draw_counters k1 n in
  let '(ok, n2) := set_frame_counter_reservation limit limit' n1 in
  let '(drawn', n3) := draw_counters k2 n2 in
  drawn = seqZ c (Z.min (Z.of_nat k1) (limit - c)) ∧
  Forall (λ x, c <= x < limit) drawn ∧
  (limit - c <= Z.of_nat k1 → next_frame_counter n1 = Err tt) ∧
  ok = negb (limit' <? limit) ∧
  (ok = true → NoDup (drawn ++ drawn')) ∧
  (ok = false → n2 = n1).
Proof.
  intros Hl Hl' Hle c limit. rewrite draw_counters_eq by done. cbv zeta. fold c limit.
  set (m := Z.min (Z.of_nat k1) (limit - c)).
  unfold set_frame_counter_reservation. destruct (Z.ltb_spec limit' limit) as [Hlt|Hge].
  - destruct (draw_counters k2 _) as [drawn' n3]. split_and!; [done| | |done|done|done].
    + apply Forall_forall. intros x Hx%elem_of_seqZ. lia.
    + intros. rewrite next_frame_counter_eq by done. simpl. fold c limit.
      by rewrite (proj2 (Z.ltb_ge _ _)) by lia.
  - rewrite draw_counters_eq by (simpl; done). simpl. split_and!; [done| | |done| |done].
    + apply Forall_forall. intros x Hx%elem_of_seqZ. lia.
    + intros. rewrite next_frame_counter_eq by done. simpl. fold c limit.
      by rewrite (proj2 (Z.ltb_ge _ _)) by lia.
    + intros _. apply NoDup_app. split_and!; [apply NoDup_seqZ| |apply NoDup_seqZ].
      intros x Hx%elem_of_seqZ Hx'%elem_of_seqZ. lia.
Qed.

Lemma frame_counters_unique_witness :
  let n := (set_frame_counter_reservation 0xFFFFFFFD 0xFFFFFFFF nib_new).2 in
  (draw_counters 5 n).1 = [0xFFFFFFFD; 0xFFFFFFFE].
Proof.
  pose proof (frame_counters_unique (set_frame_counter_reservation 0xFFFFFFFD 0xFFFFFFFF nib_new).2
    5 0 0xFFFFFFFF) as H. cbv zeta in *.
  destruct (draw_counters 5 _) as [d n1]. destruct (set_frame_counter_reservation _ _ n1) as [ok n2].
  destruct (draw_counters 0 n2) as [d' n3].
  destruct H as [H _]; [done|done|vm_compute; congruence|]. simpl. rewrite H. reflexivity.
Defined.

(** In every state the negotiation can reach, the timeout in effect and
    the requested one are defined enumerations, so the keepalive deadline is
    between 10 and 983040 seconds; only the two defined parent information
    bits are ever stored, and none while the information is not valid.  A
    response without a request in flight changes nothing. *)
Theorem ed_timeout_negotiation_safe (dt : DeviceType) (n : Nib) :
  nego_reachable dt n →
  0 <= nib_end_device_timeout n <= 14 ∧ 0 <= nib_requested_end_device_timeout n <= 14 ∧
  10 <= end_device_timeout_seconds n <= 983040 ∧
  Z.land (nib_parent_information n) (not_u8 PARENT_INFO_MASK) = 0 ∧
  (nib_parent_information_valid n = false → nib_parent_information n = 0) ∧
  (nib_end_device_timeout_response_pending n = false →
   ∀ src dst payload, handle_ed_timeout_response dt n src dst payload = n).
Proof.
  intros Hr. destruct (nego_reachable_inv dt n Hr) as [H1 H2 [H3 _] H4].
  unfold ED_TIMEOUT_ENUM_MAX in *.
  assert (10 <= end_device_timeout_seconds n <= 983040) as Hsec.
  { unfold end_device_timeout_seconds. rewrite ed_timeout_seconds_cases by ulia.
    destruct (Z.eqb_spec (nib_end_device_timeout n) 0); [lia|].
    rewrite (proj2 (Z.leb_le _ _)) by lia.
    pose proof (Z.pow_le_mono_r 2 1 (nib_end_device_timeout n)).
    pose proof (Z.pow_le_mono_r 2 (nib_end_device_timeout n) 14). lia. }
  split_and!; try lia; try done. intros. by apply response_unsolicited.
Qed.

Lemma ed_timeout_negotiation_safe_witness :
  10 <= end_device_timeout_seconds (reset_end_device_timeout_negotiation nib_new) <= 983040.
Proof.
  apply (ed_timeout_negotiation_safe EndDevice).
  eapply nego_next; [apply nego_start|]. apply nego_reset.
Defined.

(** Every request answered with a refusal lowers the requested timeout by
    one until it is the default, and an acceptance makes the requested timeout
    the one in effect: from a fresh negotiation the first acceptance after
    [k] refused requests yields the enumeration [max 8 (14 - k)]. *)
Theorem ed_timeout_negotiation_converges (n : Nib) (src dst : ShortAddress) (info : Z) (k : nat) :
  is_unicast_address (nib_parent_address n) = true →
  src = nib_parent_address n → dst = nib_network_address n →
  let respond status n :=
    handle_ed_timeout_response EndDevice (mark_end_device_timeout_response_pending n) src dst
      [status; info] in
  let refused := Nat.iter k (respond ED_TIMEOUT_STATUS_INCORRECT_VALUE)
                   (reset_end_device_timeout_negotiation n) in
  let accepted := respond ED_TIMEOUT_STATUS_SUCCESS refused in
  nib_requested_end_device_timeout refused = Z.max 8 (14 - Z.of_nat k) ∧
  nib_end_device_timeout refused = 8 ∧ nib_parent_information_valid refused = false ∧
  nib_end_device_timeout accepted = Z.max 8 (14 - Z.of_nat k) ∧
  nib_parent_information accepted = Z.land info PARENT_INFO_MASK ∧
  nib_parent_information_valid accepted = true ∧
  nib_end_device_timeout_response_pending accepted = false.
Proof.
  intros Hu -> -> respond refused.
  assert (∀ status m, nib_parent_address m = nib_parent_address n →
    nib_network_address m = nib_network_address n →
    respond status m =
      let m := set_end_device_timeout_response_pending false (mark_end_device_timeout_response_pending m) in
      if status =? ED_TIMEOUT_STATUS_SUCCESS then accept_end_device_timeout info m
      else if status =? ED_TIMEOUT_STATUS_INCORRECT_VALUE then (lower_requested_end_device_timeout m).2
      else mark_end_device_timeout_response_pending m) as Hresp.
  { intros status m Hm1 Hm2. unfold respond, handle_ed_timeout_response. simpl.
    rewrite Hm1, Hm2, Hu, !Z.eqb_refl. simpl. repeat case_match; done. }
  assert (nib_parent_address refused = nib_parent_address n ∧
    nib_network_address refused = nib_network_address n ∧
    nib_requested_end_device_timeout refused = Z.max 8 (14 - Z.of_nat k) ∧
    nib_end_device_timeout refused = 8 ∧ nib_parent_information_valid refused = false)
    as (Ha & Hb & Hc & Hd & He).
  { unfold refused. clear refused. induction k as [|k IH]; [done|]. rewrite Nat.iter_succ.
    destruct IH as (I1 & I2 & I3 & I4 & I5). rewrite Hresp by done. simpl.
    unfold lower_requested_end_device_timeout. simpl. unfold ED_TIMEOUT_ENUM_DEFAULT.
    rewrite I3. destruct (Z.leb_spec (Z.max 8 (14 - Z.of_nat k)) 8); simpl; split_and!; try done; lia. }
  cbv zeta. rewrite Hresp by done. simpl. by rewrite Hc, Hd, He.
Qed.

Definition ex_nib : Nib := set_network_address 0x1234 (set_parent_address 0 nib_new).

Lemma ed_timeout_negotiation_converges_witness :
  let respond status n :=
    handle_ed_timeout_response EndDevice (mark_end_device_timeout_response_pending n) 0 0x1234
      [status; 3] in
  nib_end_device_timeout
    (respond ED_TIMEOUT_STATUS_SUCCESS
       (Nat.iter 1 (respond ED_TIMEOUT_STATUS_INCORRECT_VALUE)
          (reset_end_device_timeout_negotiation ex_nib))) = Z.max 8 (14 - Z.of_nat 1).
Proof.
  destruct (ed_timeout_negotiation_converges ex_nib 0 0x1234 3 1) as (_ & _ & _ & H & _);
    [reflexivity|reflexivity|reflexivity|]. exact H.
Defined.
