(* ===== verification/Crypto.v ===== *)
(** Cryptographic primitives: [zigbee-crypto/src/lib.rs].

    The AES-128 forward permutation is a parameter: [Aes128Forward] is the
    trait of the crate, a stateful backend whose [encrypt_block] may fail.
    What the source relies on is the class [LawfulAes]: every success of a
    keyed backend is the value of one fixed permutation of 16-octet blocks.
    Key fingerprints, the AES-MMO hash, install codes and CCM* are translated
    in full on top of it. *)
From S2P Require Import Prelude.

Local Open Scope Z_scope.

Abbreviation AesKey := (list Z) (only parsing).

(** [hash.wrapping_mul(0x0100_0193)] *)
Definition key_fingerprint (key : AesKey) : Z :=
  fold_left (λ hash byte, as_u32 (Z.lxor hash byte * 0x01000193)) key 0x811C9DC5.

(** [zeroize] and [zeroize_key]: the buffer after the wipe. *)
Definition zeroize (buf : list Z) : list Z := (λ _, 0) <$> buf.
Definition zeroize_key (key : AesKey) : AesKey := zeroize key.

Definition CCM_STAR_NONCE_LEN : nat := 13.
Definition CCM_STAR_MIC_LEN : nat := 4.
Definition CCM_STAR_MAX_AAD_LEN : nat := N.to_nat 0xFEFF.
Definition CCM_STAR_MAX_PLAINTEXT_LEN : nat := 124.
Definition CCM_STAR_BUFFER_CAPACITY : nat := (CCM_STAR_MAX_PLAINTEXT_LEN + CCM_STAR_MIC_LEN)%nat.

Definition CCM_B0_FLAGS_ADATA : Z := 0x49.
Definition CCM_B0_FLAGS_NO_ADATA : Z := 0x09.
Definition CCM_AI_FLAGS : Z := 0x01.

(** * Backends

    A computation over a backend of state [C] with errors [E]; a failed call
    ends it, as [?] does. *)
Definition run (C E A : Type) : Type := C → outcome E (A * C).

#[export] Instance run_ret C E : MRet (run C E) := λ A a c, Ok (a, c).
#[export] Instance run_bind C E : MBind (run C E) := λ A B f m c,
  match m c with Ok (a, c) => f a c | Err e => Err e | Panic => Panic end.

(** [trait Aes128Forward] *)
Class Aes128Forward (C E : Type) := encrypt_block : list Z → run C E (list Z).

(** [trait ForwardAesProvider]: a keyed backend for every key. *)
Class ForwardAesProvider (P C E : Type) := {
  provider_cipher :: Aes128Forward C E;
  forward_cipher : P → AesKey → C;
  (** The borrow of the provider ends with the keyed backend. *)
  cipher_done : C → P }.

Definition block_wf (b : list Z) : Prop := length b = 16%nat ∧ Forall is_u8 b.

(** A backend in state [c] is keyed with the permutation [aes]. *)
Class LawfulAes {C E} `{Aes128Forward C E} (keyed : C → Prop) (aes : list Z → list Z) : Prop := {
  aes_block : ∀ b, block_wf b → block_wf (aes b);
  aes_success : ∀ c b b' c', keyed c → block_wf b → encrypt_block b c = Ok (b', c') →
    b' = aes b ∧ keyed c';
  aes_no_panic : ∀ c b, keyed c → block_wf b → no_panic (encrypt_block b c) }.

(** The keyed backend reports [e] on some block: no backend that always
    succeeds does. *)
Definition backend_fails {C E} `{Aes128Forward C E} (keyed : C → Prop) (e : E) : Prop :=
  ∃ c b, keyed c ∧ block_wf b ∧ encrypt_block b c = Err e.

(** * CCM* *)
Section CCM.
Context {C E : Type} `{Aes128Forward C E}.

(** [block[..n].copy_from_slice(chunk)] on a zeroed block. *)
Definition pad_block (chunk : list Z) : list Z := written chunk (repeat 0 16).

Definition build_ai (nonce : list Z) (counter : Z) : list Z :=
  [CCM_AI_FLAGS] ++ nonce ++ [as_u8 (Z.shiftr counter 8); as_u8 counter].

Definition xor_list (a b : list Z) : list Z := zip_with Z.lxor a b.

Definition mac_fold (tag block : list Z) : run C E (list Z) :=
  encrypt_block (xor_list tag block).

(** [while offset < data.len()]: [data] is what is left from [offset]; every
    round consumes at least one octet, so [length data] rounds are enough. *)
Fixpoint mac_loop (fuel : nat) (tag data : list Z) : run C E (list Z) :=
  match fuel, data with
  | O, _ | _, [] => mret tag
  | S fuel, _ =>
      tag ← mac_fold tag (pad_block (take 16 data));
      mac_loop fuel tag (drop 16 data)
  end.

Definition ccm_mac (nonce aad payload : list Z) : run C E (list Z) :=
  let flags := if (length aad =? 0)%nat then CCM_B0_FLAGS_NO_ADATA else CCM_B0_FLAGS_ADATA in
  let payload_len := as_u16 (Z.of_nat (length payload)) in
  tag ← encrypt_block ([flags] ++ nonce ++ [as_u8 (Z.shiftr payload_len 8); as_u8 payload_len]);
  tag ← (if (length aad =? 0)%nat then mret tag
         else
           let aad_len := as_u16 (Z.of_nat (length aad)) in
           let first_chunk_len := Nat.min (length aad) 14 in
           tag ← mac_fold tag
                   (pad_block ([as_u8 (Z.shiftr aad_len 8); as_u8 aad_len] ++ take first_chunk_len aad));
           mac_loop (length aad) tag (drop first_chunk_len aad));
  mac_loop (length payload) tag payload.

Fixpoint ctr_loop (fuel : nat) (nonce : list Z) (counter : Z) (data : list Z) : run C E (list Z) :=
  match fuel, data with
  | O, _ | _, [] => mret data
  | S fuel, _ =>
      key_stream ← encrypt_block (build_ai nonce counter);
      rest ← ctr_loop fuel nonce (as_u16 (counter + 1)) (drop 16 data);
      mret (xor_list (take 16 data) key_stream ++ rest)
  end.

Definition ccm_ctr_xor (nonce data : list Z) : run C E (list Z) :=
  ctr_loop (length data) nonce 1 data.

(** [extend_from_slice]: refuses what exceeds the capacity. *)
Definition extend (cap : nat) (v s : list Z) : option (list Z) :=
  if (length v + length s <=? cap)%nat then Some (v ++ s) else None.

Definition ccm_star_encrypt_with (nonce aad plaintext : list Z) : run C E (option (list Z)) :=
  if ((CCM_STAR_MAX_PLAINTEXT_LEN <? length plaintext)
      || (CCM_STAR_MAX_AAD_LEN <? length aad))%nat then mret None
  else
    tag ← ccm_mac nonce aad plaintext;
    s0 ← encrypt_block (build_ai nonce 0);
    let mic := xor_list (take CCM_STAR_MIC_LEN tag) (take CCM_STAR_MIC_LEN s0) in
    buffer ← ccm_ctr_xor nonce plaintext;
    mret (output ← extend CCM_STAR_BUFFER_CAPACITY [] buffer;
          extend CCM_STAR_BUFFER_CAPACITY output mic).

Definition constant_time_mic_eq (expected actual : list Z) : bool :=
  fold_left Z.lor (xor_list expected actual) 0 =? 0.

Definition ccm_star_decrypt_with (nonce aad ciphertext_and_mic : list Z) : run C E (option (list Z)) :=
  if ((length ciphertext_and_mic <? CCM_STAR_MIC_LEN)
      || (CCM_STAR_MAX_AAD_LEN <? length aad))%nat then mret None
  else
    let ciphertext_len := (length ciphertext_and_mic - CCM_STAR_MIC_LEN)%nat in
    if (CCM_STAR_MAX_PLAINTEXT_LEN <? ciphertext_len)%nat then mret None
    else
      buffer ← ccm_ctr_xor nonce (take ciphertext_len ciphertext_and_mic);
      tag ← ccm_mac nonce aad buffer;
      s0 ← encrypt_block (build_ai nonce 0);
      let expected_mic := xor_list (take CCM_STAR_MIC_LEN tag) (take CCM_STAR_MIC_LEN s0) in
      if negb (constant_time_mic_eq expected_mic
                 (take CCM_STAR_MIC_LEN (drop ciphertext_len ciphertext_and_mic)))
      then mret None
      else mret (extend CCM_STAR_BUFFER_CAPACITY [] buffer).
End CCM.

(** * AES-MMO and install codes *)
Inductive AesMmoError := InputTooLong | CipherFailure.
Inductive InstallCodeError := InvalidLength | InvalidCrc | InstallCipherFailure.

Definition map_err {E E' A} (f : E → E') (m : outcome E A) : outcome E' A :=
  match m with Ok a => Ok a | Err e => Err (f e) | Panic => Panic end.

Section MMO.
Context {P C E : Type} `{ForwardAesProvider P C E}.

Definition aes_mmo_compress (hash message : list Z) : run P AesMmoError (list Z) := λ p,
  '(encrypted, c) ← map_err (λ _, CipherFailure) (encrypt_block message (forward_cipher p hash));
  Ok (xor_list encrypted message, cipher_done c).

(** [for chunk in data.chunks_exact(16)]; returns the remainder too. *)
Fixpoint mmo_chunks (fuel : nat) (hash data : list Z) : run P AesMmoError (list Z * list Z) :=
  match fuel with
  | O => mret (hash, data)
  | S fuel =>
      if (length data <? 16)%nat then mret (hash, data)
      else
        hash ← aes_mmo_compress hash (take 16 data);
        mmo_chunks fuel hash (drop 16 data)
  end.

Definition aes_mmo_hash_with (data : list Z) : run P AesMmoError (list Z) := λ p,
  let bits := Z.of_nat (length data) * 8 in
  if negb (bits <? 65536) then Err InputTooLong
  else
    '((hash, remainder), p) ← mmo_chunks (length data) (repeat 0 16) data p;
    let final_block := written (remainder ++ [0x80]) (repeat 0 16) in
    '((hash, final_block), p) ←
      (if (13 <? length remainder)%nat then
         '(hash, p) ← aes_mmo_compress hash final_block p;
         Ok ((hash, repeat 0 16), p)
       else Ok ((hash, final_block), p));
    let final_block := take 14 final_block ++ [as_u8 (Z.shiftr bits 8); as_u8 bits] in
    aes_mmo_compress hash final_block p.

Definition crc_bit (crc : Z) : Z :=
  if has_bits crc 1 then Z.lxor (Z.shiftr crc 1) 0x8408 else Z.shiftr crc 1.

Definition crc_byte (crc byte : Z) : Z := Nat.iter 8 crc_bit (Z.lxor crc byte).

(** [!crc] on [u16]. *)
Definition install_code_crc (data : list Z) : Z :=
  Z.lxor (fold_left crc_byte data 0xFFFF) 0xFFFF.

Definition derive_install_code_key_with (code : list Z) (p : P)
    : outcome InstallCodeError (list Z * P) :=
  if negb (existsb (Nat.eqb (length code)) [8; 10; 14; 18]%nat) then Err InvalidLength
  else
    let data_len := (length code - 2)%nat in
    c0 ← index code data_len;
    c1 ← index code (data_len + 1);
    let expected_crc := u16_from_le c0 c1 in
    data ← slice code 0 data_len;
    if negb (install_code_crc data =? expected_crc) then Err InvalidCrc
    else map_err (λ _, InstallCipherFailure) (aes_mmo_hash_with code p).
End MMO.

(** * Octet lists *)
Lemma lxor_u8 a b : is_u8 a → is_u8 b → is_u8 (Z.lxor a b).
Proof.
  intros Ha Hb. assert (0 <= Z.lxor a b) by (apply Z.lxor_nonneg; unfold is_u8 in *; lia).
  split; [done|]. destruct (decide (Z.lxor a b = 0)) as [->|Hne]; [lia|].
  apply Z.log2_lt_cancel. change (Z.log2 256) with 8.
  pose proof (Z.log2_lxor a b ltac:(unfold is_u8 in *; lia) ltac:(unfold is_u8 in *; lia)) as Hl.
  assert (∀ x, is_u8 x → Z.log2 x < 8) as Hx.
  { intros x Hx. destruct (decide (x = 0)) as [->|]; [done|].
    apply Z.log2_lt_pow2; unfold is_u8 in Hx; simpl; lia. }
  pose proof (Hx a Ha). pose proof (Hx b Hb). lia.
Qed.

Lemma as_u8_octet x : is_u8 (as_u8 x).
Proof. unfold as_u8, is_u8. apply Z.mod_pos_bound. lia. Qed.

Lemma xor_list_octets a b : Forall is_u8 a → Forall is_u8 b → Forall is_u8 (xor_list a b).
Proof.
  intros Ha. revert b. induction Ha; intros b Hb; [constructor|].
  destruct Hb; [constructor|]. constructor; [by apply lxor_u8|]. by apply IHHa.
Qed.

Lemma length_xor_list a b : length (xor_list a b) = Nat.min (length a) (length b).
Proof. apply length_zip_with. Qed.

Lemma xor_list_involutive a b : (length a <= length b)%nat → xor_list (xor_list a b) b = a.
Proof.
  revert b. induction a as [|x a IH]; intros b Hl; [done|]. destruct b as [|y b]; simpl in *; [lia|].
  rewrite Z.lxor_assoc, Z.lxor_nilpotent, Z.lxor_0_r. f_equal. apply IH. lia.
Qed.

Lemma xor_list_zero b n : length b = n → xor_list (repeat 0 n) b = b.
Proof.
  intros <-. induction b as [|x b IH]; [done|]. cbn [length repeat xor_list zip_with].
  change (Z.lxor 0 x) with x. f_equal. exact IH.
Qed.

Lemma xor_list_app a k r :
  length k = 16%nat →
  xor_list a (k ++ r) = xor_list (take 16 a) k ++ xor_list (drop 16 a) r.
Proof.
  intros Hk. rewrite <- (take_drop 16 a) at 1. unfold xor_list.
  destruct (decide (16 <= length a)%nat).
  - apply zip_with_app. rewrite length_take. lia.
  - rewrite drop_ge, take_ge, !app_nil_r by lia.
    assert (length a <= length k)%nat as Hl by lia. clear -Hl.
    revert k Hl. induction a as [|x a IH]; intros k Hl; [done|].
    destruct k; simpl in *; [lia|]. f_equal. apply IH. lia.
Qed.

Lemma xor_list_eq a b : length a = length b → fold_left Z.lor (xor_list a b) 0 = 0 ↔ a = b.
Proof.
  intros Hl.
  assert (∀ l acc, fold_left Z.lor l acc = 0 ↔ acc = 0 ∧ Forall (eq 0) l) as Hf.
  { induction l as [|x l IH]; intros acc; simpl; [by rewrite Forall_nil; tauto|].
    rewrite IH, Z.lor_eq_0_iff, Forall_cons. split; intros; intuition. }
  rewrite Hf. clear Hf. split.
  - intros [_ H]. revert b Hl H. induction a as [|x a IH]; intros [|y b] Hl H; simplify_eq/=; [done|].
    inversion H as [|? ? Hx Ht]; subst. f_equal; [by apply Z.lxor_eq|by apply IH].
  - intros <-. split; [done|]. clear Hl. induction a as [|x a IH]; constructor; [|done].
    by rewrite Z.lxor_nilpotent.
Qed.

Lemma pad_block_wf l : (length l <= 16)%nat → Forall is_u8 l → block_wf (pad_block l).
Proof.
  intros Hl Ho. unfold pad_block, written. split.
  - rewrite length_app, length_drop, repeat_length. lia.
  - apply Forall_app. split; [done|]. apply Forall_drop, Forall_forall.
    intros x Hx%list_elem_of_In%repeat_spec. subst. done.
Qed.

Lemma build_ai_wf nonce counter :
  length nonce = CCM_STAR_NONCE_LEN → Forall is_u8 nonce → block_wf (build_ai nonce counter).
Proof.
  intros Hl Ho. split; unfold build_ai.
  - rewrite !length_app, Hl. done.
  - apply Forall_app. split; [by repeat constructor|]. apply Forall_app.
    split; [done|]. repeat constructor; apply as_u8_octet.
Qed.

(** * The reference: CBC-MAC and counter mode of RFC 3610

    Written from the RFC with [M] = 4 octets of authentication field and
    [L] = 2 octets of length field, and from nothing of the implementation:
    the octets of every block are spelled out. *)
Definition rfc_M : Z := 4.
Definition rfc_L : Z := 2.

(** Two octets, most significant first. *)
Definition be16 (n : Z) : list Z := [n / 256 mod 256; n mod 256].

(** Zeros up to the end of a 16-octet block. *)
Definition zero_pad (b : list Z) : list Z := b ++ repeat 0 (16 - length b).

(** The counter block [A_i]: flags [L - 1], nonce, counter. *)
Definition ref_a (nonce : list Z) (i : Z) : list Z := [rfc_L - 1] ++ nonce ++ be16 i.

(** The first block [B_0]: flags [64 * Adata + 8 * M' + L'] with
    [M' = (M - 2) / 2] and [L' = L - 1], nonce, length of the message. *)
Definition ref_b0 (nonce aad payload : list Z) : list Z :=
  [64 * Z.b2z (negb (length aad =? 0)%nat) + 8 * ((rfc_M - 2) / 2) + (rfc_L - 1)]
  ++ nonce ++ be16 (Z.of_nat (length payload)).

Section Reference.
Context (aes : list Z → list Z).

(** Cut into 16-octet blocks, the last one padded with zeros. *)
Fixpoint blocks (fuel : nat) (l : list Z) : list (list Z) :=
  match fuel, l with
  | O, _ | _, [] => []
  | S fuel, _ => zero_pad (take 16 l) :: blocks fuel (drop 16 l)
  end.

(** [X_{i+1} = E (K, X_i xor B_i)] *)
Definition cbc_mac (bs : list (list Z)) (tag : list Z) : list Z :=
  fold_left (λ tag b, aes (zip_with Z.lxor tag b)) bs tag.

(** The blocks of the additional data: its length (below 0xFF00, so in two
    octets) before it. *)
Definition ref_aad_blocks (aad : list Z) : list (list Z) :=
  if (length aad =? 0)%nat then []
  else blocks (S (length aad)) (be16 (Z.of_nat (length aad)) ++ aad).

Definition ref_mac (nonce aad payload : list Z) : list Z :=
  cbc_mac (ref_b0 nonce aad payload :: ref_aad_blocks aad ++ blocks (length payload) payload)
    (repeat 0 16).

(** [S_i = E (K, A_i)], from [i = counter] on. *)
Fixpoint key_stream (n : nat) (nonce : list Z) (counter : Z) : list Z :=
  match n with
  | O => []
  | S n => aes (ref_a nonce counter) ++ key_stream n nonce (counter + 1)
  end.

(** The message xor [S_1 S_2 ...]. *)
Definition ref_ctr (nonce data : list Z) : list Z :=
  zip_with Z.lxor data (key_stream (length data) nonce 1).

(** [U = T xor first-M-bytes (S_0)] *)
Definition ref_mic (nonce aad payload : list Z) : list Z :=
  zip_with Z.lxor (take (Z.to_nat rfc_M) (ref_mac nonce aad payload))
    (take (Z.to_nat rfc_M) (aes (ref_a nonce 0))).

(** Encrypted payload and MIC. *)
Definition ref_ccm (nonce aad payload : list Z) : list Z :=
  ref_ctr nonce payload ++ ref_mic nonce aad payload.

Context (Haes : ∀ b, block_wf b → block_wf (aes b)).

(** ** The blocks the code builds are those of the reference *)
Lemma drop_of_repeat {A} (x : A) n m : drop n (repeat x m) = repeat x (m - n).
Proof using Type. revert n. induction m as [|m IH]; intros [|n]; [done..|]. simpl. apply IH. Qed.

Lemma pad_block_zero l : pad_block l = zero_pad l.
Proof using Type. unfold pad_block, zero_pad, written. by rewrite drop_of_repeat. Qed.

Lemma be16_code n : [as_u8 (Z.shiftr (as_u16 n) 8); as_u8 (as_u16 n)] = be16 n.
Proof using Type.
  unfold be16, as_u8, as_u16. rewrite Z.shiftr_div_pow2 by lia. change (2 ^ 8) with 256.
  change (2 ^ 16) with 65536. f_equal; [|f_equal]; Z.div_mod_to_equations; lia.
Qed.

Lemma build_ai_ref nonce i j : i mod 65536 = j mod 65536 → build_ai nonce i = ref_a nonce j.
Proof using Type.
  intros Hij. unfold build_ai, ref_a. do 2 f_equal. unfold be16, as_u8.
  rewrite Z.shiftr_div_pow2 by lia. change (2 ^ 8) with 256.
  f_equal; [|f_equal]; Z.div_mod_to_equations; lia.
Qed.

Lemma ref_a_wf nonce i :
  length nonce = CCM_STAR_NONCE_LEN → Forall is_u8 nonce → block_wf (ref_a nonce i).
Proof using Type. intros. rewrite <- (build_ai_ref nonce i i) by done. by apply build_ai_wf. Qed.

Lemma length_key_stream n nonce counter :
  length nonce = CCM_STAR_NONCE_LEN → Forall is_u8 nonce →
  length (key_stream n nonce counter) = (16 * n)%nat.
Proof using Haes.
  intros Hl Ho. revert counter. induction n as [|n IH]; intros counter; [done|]. cbn [key_stream].
  rewrite length_app, IH. destruct (Haes _ (ref_a_wf nonce counter Hl Ho)). lia.
Qed.

Lemma cbc_mac_wf bs tag : Forall block_wf bs → block_wf tag → block_wf (cbc_mac bs tag).
Proof using Haes.
  intros Hb. revert tag. induction Hb as [|b bs [Hl Ho] _ IH]; intros tag [Ht Hto]; [done|]. simpl.
  apply IH, Haes. split; [rewrite length_xor_list; lia|by apply xor_list_octets].
Qed.

Lemma blocks_wf fuel l : Forall is_u8 l → Forall block_wf (blocks fuel l).
Proof using Type.
  revert l. induction fuel as [|fuel IH]; intros l Ho; [constructor|].
  destruct l as [|x l]; [constructor|]. constructor.
  - rewrite <- pad_block_zero. apply pad_block_wf; [rewrite length_take; lia|by apply Forall_take].
  - by apply IH, Forall_drop.
Qed.

Lemma be16_octets n : Forall is_u8 (be16 n).
Proof using Type. repeat constructor; apply Z.mod_pos_bound; lia. Qed.

Lemma ref_b0_wf nonce aad payload :
  length nonce = CCM_STAR_NONCE_LEN → Forall is_u8 nonce → block_wf (ref_b0 nonce aad payload).
Proof using Type.
  intros Hn Ho. unfold ref_b0. split; [rewrite !length_app, Hn; done|]. apply Forall_app. split.
  - repeat constructor; destruct (length aad =? 0)%nat; done.
  - apply Forall_app. split; [done|apply be16_octets].
Qed.

Lemma ref_aad_blocks_wf aad : Forall is_u8 aad → Forall block_wf (ref_aad_blocks aad).
Proof using Type.
  intros Ha. unfold ref_aad_blocks. case_match; [constructor|]. apply blocks_wf, Forall_app.
  split; [apply be16_octets|done].
Qed.
End Reference.

(** * Refinement: every success computes the reference *)
Section Refinement.
Context {C E : Type} `{Aes128Forward C E} (keyed : C → Prop) (aes : list Z → list Z).
Context `{!LawfulAes keyed aes}.

Definition yields {A} (m : run C E A) (a : A) : Prop := ∀ c, keyed c →
  match m c with
  | Ok (a', c') => a' = a ∧ keyed c'
  | Err e => backend_fails keyed e
  | Panic => False
  end.

Lemma yields_ret {A} (a : A) : yields (mret a) a.
Proof. by intros c Hc. Qed.

Lemma yields_bind {A B} (m : run C E A) (f : A → run C E B) a b :
  yields m a → yields (f a) b → yields (m ≫= f) b.
Proof.
  intros Hm Hf c Hc. specialize (Hm c Hc). unfold mbind, run_bind.
  destruct (m c) as [[a' c']| |]; [|done..]. destruct Hm as [-> Hc']. by apply Hf.
Qed.

Lemma yields_encrypt b : block_wf b → yields (encrypt_block b) (aes b).
Proof using Type*.
  intros Hb c Hc. destruct (encrypt_block b c) as [[b' c']|e|] eqn:He.
  - by eapply aes_success.
  - by exists c, b.
  - pose proof (aes_no_panic c b Hc Hb) as Hp. by rewrite He in Hp.
Qed.

Lemma xor_block_wf a b : block_wf a → block_wf b → block_wf (xor_list a b).
Proof. intros [? ?] [? ?]. split; [rewrite length_xor_list; lia|by apply xor_list_octets]. Qed.

Lemma yields_mac_fold tag b : block_wf tag → block_wf b → yields (mac_fold tag b) (aes (xor_list tag b)).
Proof using Type*. intros. by apply yields_encrypt, xor_block_wf. Qed.

Lemma yields_mac_loop fuel tag data :
  block_wf tag → Forall is_u8 data →
  yields (mac_loop fuel tag data) (cbc_mac aes (blocks fuel data) tag).
Proof using Type*.
  revert tag data. induction fuel as [|fuel IH]; intros tag data Ht Hd; [apply yields_ret|].
  destruct data as [|x data]; [apply yields_ret|]. cbn [mac_loop blocks cbc_mac fold_left].
  assert (block_wf (pad_block (take 16 (x :: data)))) as Hb.
  { apply pad_block_wf; [rewrite length_take; lia|by apply Forall_take]. }
  rewrite pad_block_zero in *. eapply yields_bind; [by apply yields_mac_fold|].
  apply IH; [by apply aes_block, xor_block_wf|by apply Forall_drop].
Qed.

Lemma aad_blocks_eq aad :
  aad ≠ [] →
  ref_aad_blocks aad =
  zero_pad (be16 (Z.of_nat (length aad)) ++ take (Nat.min (length aad) 14) aad)
  :: blocks (length aad) (drop (Nat.min (length aad) 14) aad).
Proof.
  intros Hne. unfold ref_aad_blocks. destruct aad as [|x aad]; [done|].
  cbn [length Nat.eqb blocks]. set (l := x :: aad). change (S (length aad)) with (length l).
  assert (∀ n, take (Nat.min (length l) n) l = take n l ∧ drop (Nat.min (length l) n) l = drop n l) as Hm.
  { intros n. destruct (decide (n <= length l)%nat); [by rewrite Nat.min_r by lia|].
    rewrite Nat.min_l by lia. by rewrite !take_ge, !drop_ge by lia. }
  destruct (Hm 14%nat) as [-> ->]. unfold be16 at 1. cbn [app]. cbn [take drop].
  done.
Qed.

(** The additional data in the code: a block of its own for the length and
    the first octets, then the rest. *)
Lemma yields_aad tag aad :
  block_wf tag → Forall is_u8 aad →
  yields (if (length aad =? 0)%nat then mret tag
    else
      let aad_len := as_u16 (Z.of_nat (length aad)) in
      let first_chunk_len := Nat.min (length aad) 14 in
      tag ← mac_fold tag
              (pad_block ([as_u8 (Z.shiftr aad_len 8); as_u8 aad_len] ++ take first_chunk_len aad));
      mac_loop (length aad) tag (drop first_chunk_len aad))
    (cbc_mac aes (ref_aad_blocks aad) tag).
Proof using Type*.
  intros Ht Ha. cbv zeta. rewrite be16_code, pad_block_zero.
  destruct (length aad =? 0)%nat eqn:Hz; [unfold ref_aad_blocks; rewrite Hz; apply yields_ret|].
  bool_simpl. rewrite aad_blocks_eq by by intros ->.
  assert (block_wf (zero_pad (be16 (Z.of_nat (length aad)) ++ take (Nat.min (length aad) 14) aad))) as Hb.
  { rewrite <- pad_block_zero. apply pad_block_wf.
    - rewrite length_app, length_take. simpl. lia.
    - apply Forall_app. split; [apply be16_octets|by apply Forall_take]. }
  eapply yields_bind; [by apply yields_mac_fold|].
  apply yields_mac_loop; [by apply aes_block, xor_block_wf|by apply Forall_drop].
Qed.

Lemma yields_ccm_mac nonce aad payload :
  length nonce = CCM_STAR_NONCE_LEN → Forall is_u8 nonce → Forall is_u8 aad → Forall is_u8 payload →
  yields (ccm_mac nonce aad payload) (ref_mac aes nonce aad payload).
Proof using Type*.
  intros Hn Hno Ha Hp. unfold ccm_mac, ref_mac. pose proof (ref_b0_wf nonce aad payload Hn Hno) as Hb0.
  cbv zeta. rewrite (be16_code (Z.of_nat (length payload))).
  assert ([if (length aad =? 0)%nat then CCM_B0_FLAGS_NO_ADATA else CCM_B0_FLAGS_ADATA]
    ++ nonce ++ be16 (Z.of_nat (length payload)) = ref_b0 nonce aad payload) as ->
    by (unfold ref_b0; by destruct (length aad =? 0)%nat).
  cbn [cbc_mac fold_left]. fold (xor_list (repeat 0 16) (ref_b0 nonce aad payload)).
  rewrite xor_list_zero by apply Hb0. fold (cbc_mac aes).
  eapply yields_bind; [by apply yields_encrypt|].
  assert (block_wf (aes (ref_b0 nonce aad payload))) as Ht by by apply aes_block.
  unfold cbc_mac. rewrite fold_left_app. fold (cbc_mac aes (ref_aad_blocks aad) (aes (ref_b0 nonce aad payload))).
  eapply yields_bind; [by apply yields_aad|]. apply yields_mac_loop; [|done].
  apply cbc_mac_wf; [apply aes_block|by apply ref_aad_blocks_wf|done].
Qed.

Lemma yields_ctr_loop fuel nonce counter i data :
  length nonce = CCM_STAR_NONCE_LEN → Forall is_u8 nonce → (length data <= fuel)%nat →
  counter mod 65536 = i mod 65536 →
  yields (ctr_loop fuel nonce counter data) (xor_list data (key_stream aes fuel nonce i)).
Proof using Type*.
  intros Hn Ho. revert counter i data. induction fuel as [|fuel IH]; intros counter i data Hl Hi.
  { destruct data; [apply yields_ret|simpl in Hl; lia]. }
  destruct data as [|x data]; [apply yields_ret|]. cbn [ctr_loop key_stream].
  rewrite (build_ai_ref nonce counter i) by done. pose proof (ref_a_wf nonce i Hn Ho) as Hai.
  rewrite xor_list_app by apply aes_block, Hai.
  eapply yields_bind; [by apply yields_encrypt|]. eapply yields_bind.
  { apply IH with (i := i + 1); [rewrite length_drop; simpl in *; lia|]. unfold as_u16.
    rewrite Z.mod_mod by lia. by rewrite <- Zplus_mod_idemp_l, Hi, Zplus_mod_idemp_l. }
  apply yields_ret.
Qed.

Lemma yields_ctr nonce data :
  length nonce = CCM_STAR_NONCE_LEN → Forall is_u8 nonce →
  yields (ccm_ctr_xor nonce data) (ref_ctr aes nonce data).
Proof using Type*. intros. by apply (yields_ctr_loop _ _ 1 1). Qed.

Lemma length_ref_ctr nonce data :
  length nonce = CCM_STAR_NONCE_LEN → Forall is_u8 nonce →
  length (ref_ctr aes nonce data) = length data.
Proof using Type*.
  intros Hn Ho. unfold ref_ctr. rewrite length_zip_with, (length_key_stream aes); [lia|apply aes_block|done..].
Qed.

Lemma ref_ctr_involutive nonce data :
  length nonce = CCM_STAR_NONCE_LEN → Forall is_u8 nonce →
  ref_ctr aes nonce (ref_ctr aes nonce data) = data.
Proof using Type*.
  intros Hn Ho. unfold ref_ctr at 1. rewrite length_ref_ctr by done. unfold ref_ctr.
  apply xor_list_involutive. rewrite (length_key_stream aes); [lia|apply aes_block|done..].
Qed.

Lemma ref_mac_wf nonce aad payload :
  length nonce = CCM_STAR_NONCE_LEN → Forall is_u8 nonce → Forall is_u8 aad → Forall is_u8 payload →
  block_wf (ref_mac aes nonce aad payload).
Proof using Type*.
  intros Hn Ho Ha Hp. apply cbc_mac_wf; [apply aes_block| |split; [done|by repeat constructor]].
  constructor; [by apply ref_b0_wf|]. apply Forall_app. split; [by apply ref_aad_blocks_wf|by apply blocks_wf].
Qed.

Lemma length_ref_mic nonce aad payload :
  length nonce = CCM_STAR_NONCE_LEN → Forall is_u8 nonce → Forall is_u8 aad → Forall is_u8 payload →
  length (ref_mic aes nonce aad payload) = CCM_STAR_MIC_LEN.
Proof using Type*.
  intros Hn Ho Ha Hp. unfold ref_mic. rewrite length_zip_with, !length_take.
  destruct (ref_mac_wf nonce aad payload Hn Ho Ha Hp) as [-> _].
  destruct (aes_block _ (ref_a_wf nonce 0 Hn Ho)) as [-> _]. done.
Qed.

Lemma ref_ctr_octets nonce data :
  length nonce = CCM_STAR_NONCE_LEN → Forall is_u8 nonce → Forall is_u8 data →
  Forall is_u8 (ref_ctr aes nonce data).
Proof using Type*.
  intros Hn Ho Hd. apply xor_list_octets; [done|]. generalize 1. generalize (length data).
  induction n as [|n IH]; intros k; [constructor|]. cbn [key_stream]. apply Forall_app.
  split; [apply aes_block, ref_a_wf; done|apply IH].
Qed.
End Refinement.

(** * AES-MMO: the reference and its refinement *)
Class LawfulProvider {P C E} `{ForwardAesProvider P C E} (ready : P → Prop)
    (keyed : list Z → C → Prop) (aes : list Z → list Z → list Z) : Prop := {
  provider_lawful : ∀ key, block_wf key → LawfulAes (keyed key) (aes key);
  provider_keyed : ∀ p key, ready p → block_wf key → keyed key (forward_cipher p key);
  provider_done : ∀ key c, keyed key c → ready (cipher_done c) }.

(** [0x80], zeros up to two octets short of a block, and the bit length. *)
Definition mmo_pad (data : list Z) : list Z :=
  let r := (length data mod 16)%nat in
  let zeros := if (r <=? 13)%nat then (13 - r)%nat else (29 - r)%nat in
  let bits := Z.of_nat (length data) * 8 in
  data ++ [0x80] ++ repeat 0 zeros ++ [as_u8 (Z.shiftr bits 8); as_u8 bits].

(** Matyas-Meyer-Oseas over 16-octet blocks: the running hash is the key. *)
Definition mmo_fold (aes : list Z → list Z → list Z) (l hash : list Z) : list Z :=
  fold_left (λ h b, xor_list (aes h b) b) (blocks (length l) l) hash.

Definition ref_mmo (aes : list Z → list Z → list Z) (data : list Z) : list Z :=
  mmo_fold aes (mmo_pad data) (repeat 0 16).

Lemma blocks_fuel n m l : (length l <= n)%nat → (length l <= m)%nat → blocks n l = blocks m l.
Proof.
  revert m l. induction n as [|n IH]; intros m l Hn Hm.
  { destruct l; [by destruct m|simpl in Hn; lia]. }
  destruct l as [|x l]; [by destruct m|]. destruct m as [|m]; [simpl in Hm; lia|].
  cbn [blocks]. f_equal. apply IH; rewrite length_drop; simpl in *; lia.
Qed.

Lemma zero_pad_full b : length b = 16%nat → zero_pad b = b.
Proof. intros Hb. unfold zero_pad. rewrite Hb. simpl. apply app_nil_r. Qed.

Lemma mmo_fold_block aes b l hash :
  length b = 16%nat → mmo_fold aes (b ++ l) hash = mmo_fold aes l (xor_list (aes hash b) b).
Proof.
  intros Hb. unfold mmo_fold. destruct b as [|x b]; [done|]. rewrite length_app. simpl length.
  cbn [Nat.add blocks]. change ((x :: b) ++ l) with (x :: (b ++ l)). cbn [fold_left].
  change (x :: b ++ l) with ((x :: b) ++ l).
  rewrite take_app_length' by done. rewrite drop_app_length' by done.
  rewrite zero_pad_full by done. f_equal. apply blocks_fuel; lia.
Qed.

Lemma mmo_fold_last aes b hash :
  length b = 16%nat → mmo_fold aes b hash = xor_list (aes hash b) b.
Proof. intros Hb. rewrite <- (app_nil_r b) at 1. by rewrite mmo_fold_block. Qed.

Section MmoRefinement.
Context {P C E : Type} `{HF : ForwardAesProvider P C E} (ready : P → Prop)
  (keyed : list Z → C → Prop) (aes : list Z → list Z → list Z).
Context `{HL : !LawfulProvider ready keyed aes}.

Definition provider_fails : Prop := ∃ key e, block_wf key ∧ backend_fails (keyed key) e.

(** Every success is [a]; the only error is a failing backend. *)
Definition mmo_yields {A} (m : run P AesMmoError A) (a : A) : Prop := ∀ p, ready p →
  match m p with
  | Ok (a', p') => a' = a ∧ ready p'
  | Err e => e = CipherFailure ∧ provider_fails
  | Panic => False
  end.

Lemma mmo_yields_bind {A B} (m : run P AesMmoError A) (f : A → run P AesMmoError B) a b :
  mmo_yields m a → mmo_yields (f a) b → mmo_yields (m ≫= f) b.
Proof.
  intros Hm Hf p Hp. specialize (Hm p Hp). unfold mbind, run_bind.
  destruct (m p) as [[a' p']| |]; [|done..]. destruct Hm as [-> Hp']. by apply Hf.
Qed.

Lemma mmo_compress_wf hash b :
  block_wf hash → block_wf b → block_wf (xor_list (aes hash b) b).
Proof using Type*.
  intros Hh Hb. pose proof (provider_lawful hash Hh). apply xor_block_wf; [by apply aes_block|done].
Qed.

Lemma yields_compress hash b :
  block_wf hash → block_wf b → mmo_yields (aes_mmo_compress hash b) (xor_list (aes hash b) b).
Proof using Type*.
  intros Hh Hb p Hp. unfold aes_mmo_compress.
  pose proof (provider_lawful hash Hh) as HL'. pose proof (provider_keyed p hash Hp Hh) as Hk.
  destruct (encrypt_block b (forward_cipher p hash)) as [[b' c']|e|] eqn:He; simpl.
  - destruct (aes_success _ _ _ _ Hk Hb He) as [-> Hk']. split; [done|]. by eapply provider_done.
  - split; [done|]. exists hash, e. split; [done|]. by exists (forward_cipher p hash), b.
  - pose proof (aes_no_panic _ _ Hk Hb) as Hn. by rewrite He in Hn.
Qed.

Lemma take_block_wf l : (16 <= length l)%nat → Forall is_u8 l → block_wf (take 16 l).
Proof. intros. split; [rewrite length_take; lia|by apply Forall_take]. Qed.

Lemma yields_chunks fuel hash data :
  block_wf hash → Forall is_u8 data → (length data <= fuel)%nat →
  ∃ hash' rem, mmo_yields (mmo_chunks fuel hash data) (hash', rem) ∧ block_wf hash' ∧
    Forall is_u8 rem ∧ (length rem < 16)%nat ∧ length rem = (length data mod 16)%nat ∧
    ∀ tail, mmo_fold aes (data ++ tail) hash = mmo_fold aes (rem ++ tail) hash'.
Proof using Type*.
  revert hash data. induction fuel as [|fuel IH]; intros hash data Hh Hd Hl.
  { exists hash, data. destruct data; [|simpl in Hl; lia]. split_and!; [by intros p Hp|done|done|simpl; lia|done|done]. }
  cbn [mmo_chunks]. destruct (length data <? 16)%nat eqn:Hlt; bool_simpl.
  - exists hash, data. split_and!; [by intros p Hp|done|done|done| |done].
    by rewrite Nat.mod_small.
  - pose proof (take_block_wf data ltac:(lia) Hd) as Hb.
    destruct (IH (xor_list (aes hash (take 16 data)) (take 16 data)) (drop 16 data))
      as (hash' & rem & Hy & Hh' & Hr & Hrl & Hrm & Hf);
      [by apply mmo_compress_wf|by apply Forall_drop|rewrite length_drop; lia|].
    exists hash', rem. split_and!; [|done|done|done| |].
    + eapply mmo_yields_bind; [by apply yields_compress|done].
    + rewrite Hrm, length_drop. replace (length data) with (length data - 16 + 1 * 16)%nat at 2 by lia.
      by rewrite Nat.Div0.mod_add.
    + intros tail. rewrite <- Hf. rewrite <- (take_drop 16 data) at 1. rewrite <- app_assoc.
      apply mmo_fold_block. by destruct Hb.
Qed.

Lemma repeat_block_wf : block_wf (repeat 0 16).
Proof. split; [done|]. by repeat constructor. Qed.

Lemma yields_mmo_hash data :
  Forall is_u8 data → Z.of_nat (length data) * 8 < 65536 →
  mmo_yields (aes_mmo_hash_with data) (ref_mmo aes data).
Proof using Type*.
  intros Hd Hlen p Hp. unfold aes_mmo_hash_with. rewrite (proj2 (Z.ltb_lt _ _)) by done. cbn [negb].
  destruct (yields_chunks (length data) (repeat 0 16) data repeat_block_wf Hd ltac:(lia))
    as (hash & rem & Hy & Hh & Hr & Hrl & Hrm & Hf).
  specialize (Hy p Hp). unfold mbind at 1, outcome_bind.
  destruct (mmo_chunks _ _ _ p) as [[[hash' rem'] p']| |]; [|done..].
  destruct Hy as [[= -> ->] Hp'].
  set (bits := Z.of_nat (length data) * 8). set (be := [as_u8 (Z.shiftr bits 8); as_u8 bits]).
  assert (Forall is_u8 be) as Hbe by (repeat constructor; apply as_u8_octet).
  unfold ref_mmo, mmo_pad. rewrite <- Hrm, Hf. fold bits be.
  assert (Forall is_u8 (rem ++ [128])) as Hr8 by (apply Forall_app; split; [done|by repeat constructor]).
  assert (∀ n, Forall is_u8 (repeat 0 n)) as Hz.
  { intros n. apply Forall_forall. intros x Hx%list_elem_of_In%repeat_spec. by subst. }
  assert (written (rem ++ [128]) (repeat 0 16) = rem ++ [128] ++ repeat 0 (15 - length rem)) as Hw.
  { unfold written. rewrite <- app_assoc. do 2 f_equal. rewrite length_app. cbn [length].
    change (repeat 0 16) with (replicate 16 0). rewrite drop_replicate.
    replace (16 - (length rem + 1))%nat with (15 - length rem)%nat by lia.
    generalize (15 - length rem)%nat. induction n; simpl; congruence. }
  rewrite Hw. destruct (13 <? length rem)%nat eqn:H13; bool_simpl.
  - rewrite (proj2 (Nat.leb_gt _ _)) by lia.
    set (b1 := rem ++ [128] ++ repeat 0 (15 - length rem)).
    assert (block_wf b1) as Hb1.
    { split; [unfold b1; rewrite !length_app, repeat_length; simpl; lia|].
      unfold b1. rewrite app_assoc. by apply Forall_app. }
    pose proof (yields_compress hash b1 Hh Hb1 p' Hp') as Hc.
    destruct (aes_mmo_compress hash b1 p') as [[h1 p1]| |]; cbn [mbind outcome_bind]; [|done..].
    destruct Hc as [-> Hp1].
    replace (rem ++ [128] ++ repeat 0 (29 - length rem) ++ be) with (b1 ++ repeat 0 14 ++ be).
    2:{ unfold b1. rewrite <- !app_assoc. do 2 f_equal. rewrite app_assoc. f_equal.
        rewrite <- repeat_app. f_equal. lia. }
    rewrite mmo_fold_block by apply Hb1.
    change (take 14 (repeat 0 16) ++ be) with (repeat 0 14 ++ be).
    rewrite mmo_fold_last by done.
    apply yields_compress; [by apply mmo_compress_wf| |done].
    split; [done|]. apply Forall_app. done.
  - rewrite (proj2 (Nat.leb_le _ _)) by lia. cbn [mbind outcome_bind].
    assert (take 14 (rem ++ [128] ++ repeat 0 (15 - length rem)) =
      rem ++ [128] ++ repeat 0 (13 - length rem)) as ->.
    { rewrite take_app_ge by lia. f_equal. destruct (14 - length rem)%nat as [|k] eqn:Hk; [lia|].
      cbn [app take]. f_equal. replace (15 - length rem)%nat with (k + 2)%nat by lia.
      rewrite repeat_app, take_app_le, take_ge by (rewrite repeat_length; lia). f_equal. lia. }
    replace (rem ++ [128] ++ repeat 0 (13 - length rem) ++ be)
      with ((rem ++ [128] ++ repeat 0 (13 - length rem)) ++ be) by by rewrite <- !app_assoc.
    assert (length ((rem ++ [128] ++ repeat 0 (13 - length rem)) ++ be) = 16%nat) as Hl16.
    { rewrite !length_app, repeat_length. simpl. lia. }
    rewrite mmo_fold_last by done.
    apply yields_compress; [done| |done]. split; [done|].
    apply Forall_app. split; [|done]. rewrite app_assoc. by apply Forall_app.
Qed.
End MmoRefinement.

(** ** What the two operations return *)
Lemma ccm_encrypt_eq {C E} `{Aes128Forward C E} (keyed : C → Prop)
    (aes : list Z → list Z) `{!LawfulAes keyed aes} (nonce aad plaintext : list Z) (c : C) :
  keyed c → length nonce = CCM_STAR_NONCE_LEN → Forall is_u8 nonce → Forall is_u8 aad →
  Forall is_u8 plaintext →
  match ccm_star_encrypt_with nonce aad plaintext c with
  | Ok (r, c') =>
      keyed c' ∧
      r = (if ((length plaintext <=? CCM_STAR_MAX_PLAINTEXT_LEN)
               && (length aad <=? CCM_STAR_MAX_AAD_LEN))%nat
           then Some (ref_ccm aes nonce aad plaintext) else None) ∧
      length (ref_ccm aes nonce aad plaintext) = (length plaintext + CCM_STAR_MIC_LEN)%nat
  | Err e => backend_fails keyed e
  | Panic => False
  end.
Proof.
  intros Hc Hn Ho Ha Hp.
  assert (length (ref_ccm aes nonce aad plaintext) = (length plaintext + CCM_STAR_MIC_LEN)%nat) as Hlen.
  { unfold ref_ccm. by rewrite length_app, (length_ref_ctr keyed aes), (length_ref_mic keyed aes). }
  unfold ccm_star_encrypt_with. rewrite !Nat.leb_antisym.
  destruct (_ <? length plaintext)%nat eqn:H1; [done|].
  destruct (_ <? length aad)%nat eqn:H2; [done|]. cbn [orb negb andb]. bool_simpl.
  assert (yields keyed (tag ← ccm_mac nonce aad plaintext;
    s0 ← encrypt_block (build_ai nonce 0);
    buffer ← ccm_ctr_xor nonce plaintext;
    mret (output ← extend CCM_STAR_BUFFER_CAPACITY [] buffer;
          extend CCM_STAR_BUFFER_CAPACITY output
            (xor_list (take CCM_STAR_MIC_LEN tag) (take CCM_STAR_MIC_LEN s0))))
    (Some (ref_ccm aes nonce aad plaintext))) as Hy.
  { eapply yields_bind; [by apply yields_ccm_mac|]. rewrite (build_ai_ref nonce 0 0) by done.
    eapply yields_bind; [by apply yields_encrypt, ref_a_wf|].
    eapply yields_bind; [by apply yields_ctr|]. change (xor_list _ _) with (ref_mic aes nonce aad plaintext).
    unfold extend. rewrite (length_ref_ctr keyed aes) by done.
    rewrite (proj2 (Nat.leb_le _ _)) by (unfold CCM_STAR_BUFFER_CAPACITY; cbn [length]; lia).
    cbn [mbind option_bind app].
    rewrite (length_ref_ctr keyed aes), (length_ref_mic keyed aes) by done.
    rewrite (proj2 (Nat.leb_le _ _)) by (unfold CCM_STAR_BUFFER_CAPACITY; lia).
    apply yields_ret. }
  specialize (Hy c Hc). cbv zeta. destruct ((ccm_mac _ _ _ ≫= _) c) as [[r c']| |]; [|done..].
  by destruct Hy as [-> ?].
Qed.

(** An accepted frame splits into the two parts of the construction. *)
Lemma ref_ccm_split {C E} `{Aes128Forward C E} (keyed : C → Prop)
    (aes : list Z → list Z) `{!LawfulAes keyed aes} (nonce aad received pt : list Z) :
  length nonce = CCM_STAR_NONCE_LEN → Forall is_u8 nonce → Forall is_u8 aad → Forall is_u8 received →
  received = ref_ccm aes nonce aad pt →
  length received = (length pt + CCM_STAR_MIC_LEN)%nat ∧ Forall is_u8 pt ∧
  take (length received - CCM_STAR_MIC_LEN) received = ref_ctr aes nonce pt ∧
  drop (length received - CCM_STAR_MIC_LEN) received = ref_mic aes nonce aad pt.
Proof.
  intros Hn Ho Ha Hr Heq. assert (Forall is_u8 (ref_ctr aes nonce pt)) as Hro.
  { rewrite Heq in Hr. by apply Forall_app in Hr as [? _]. }
  assert (Forall is_u8 pt) as Hpo.
  { rewrite <- (ref_ctr_involutive keyed aes nonce pt) by done. by apply (ref_ctr_octets keyed aes). }
  assert (length received = (length pt + CCM_STAR_MIC_LEN)%nat) as Hl.
  { rewrite Heq. unfold ref_ccm. by rewrite length_app, (length_ref_ctr keyed aes), (length_ref_mic keyed aes). }
  rewrite Hl, Nat.add_sub. unfold ref_ccm in Heq. rewrite Heq.
  rewrite take_app_length', drop_app_length' by by rewrite (length_ref_ctr keyed aes). done.
Qed.

(** The cipher steps of a decryption, once the lengths have been checked. *)
Lemma yields_open {C E} `{Aes128Forward C E} (keyed : C → Prop)
    (aes : list Z → list Z) `{!LawfulAes keyed aes} (nonce aad body mic : list Z) :
  length nonce = CCM_STAR_NONCE_LEN → Forall is_u8 nonce → Forall is_u8 aad → Forall is_u8 body →
  (length body <= CCM_STAR_MAX_PLAINTEXT_LEN)%nat → (length aad <= CCM_STAR_MAX_AAD_LEN)%nat →
  length mic = CCM_STAR_MIC_LEN →
  let buffer := ref_ctr aes nonce body in
  yields keyed (buffer ← ccm_ctr_xor nonce body;
      tag ← ccm_mac nonce aad buffer;
      s0 ← encrypt_block (build_ai nonce 0);
      if negb (constant_time_mic_eq
                 (xor_list (take CCM_STAR_MIC_LEN tag) (take CCM_STAR_MIC_LEN s0)) mic)
      then mret None
      else mret (extend CCM_STAR_BUFFER_CAPACITY [] buffer))
    (if bool_decide (ref_mic aes nonce aad buffer = mic) then Some buffer else None).
Proof.
  intros Hn Ho Ha Hb Hbl Hal Hml buffer.
  assert (Forall is_u8 buffer) as Hbo by by apply (ref_ctr_octets keyed aes).
  assert (length buffer = length body) as Hl by (unfold buffer; by rewrite (length_ref_ctr keyed aes)).
  eapply yields_bind; [by apply yields_ctr|]. fold buffer.
  eapply yields_bind; [apply yields_ccm_mac; (done || lia)|].
  rewrite (build_ai_ref nonce 0 0) by done. eapply yields_bind; [by apply yields_encrypt, ref_a_wf|].
  change (xor_list (take _ _) _) with (ref_mic aes nonce aad buffer). unfold constant_time_mic_eq.
  assert ((fold_left Z.lor (xor_list (ref_mic aes nonce aad buffer) mic) 0 =? 0)
    = bool_decide (ref_mic aes nonce aad buffer = mic)) as ->.
  { apply eq_bool_prop_intro. rewrite bool_decide_spec, Is_true_true, Z.eqb_eq.
    apply xor_list_eq. by rewrite (length_ref_mic keyed aes), Hml. }
  case_bool_decide; simpl; [|apply yields_ret]. unfold extend. cbn [length Nat.add app].
  rewrite (proj2 (Nat.leb_le _ _)) by (unfold CCM_STAR_BUFFER_CAPACITY; lia). apply yields_ret.
Qed.

Lemma ccm_decrypt_iff {C E} `{Aes128Forward C E} (keyed : C → Prop)
    (aes : list Z → list Z) `{!LawfulAes keyed aes} (nonce aad received : list Z) (c : C) :
  keyed c → length nonce = CCM_STAR_NONCE_LEN → Forall is_u8 nonce → Forall is_u8 aad →
  Forall is_u8 received →
  match ccm_star_decrypt_with nonce aad received c with
  | Ok (r, c') =>
      keyed c' ∧ ∀ plaintext, r = Some plaintext ↔
        (length plaintext <= CCM_STAR_MAX_PLAINTEXT_LEN)%nat ∧
        (length aad <= CCM_STAR_MAX_AAD_LEN)%nat ∧
        received = ref_ccm aes nonce aad plaintext
  | Err e => backend_fails keyed e
  | Panic => False
  end.
Proof.
  intros Hc Hn Ho Ha Hr.
  pose proof (λ pt, ref_ccm_split keyed aes nonce aad received pt Hn Ho Ha Hr) as Hinv.
  unfold ccm_star_decrypt_with.
  destruct ((_ <? CCM_STAR_MIC_LEN) || _)%nat eqn:H1.
  { split; [done|]. intros pt. split; [done|]. intros (_ & Hal & [Hl _]%Hinv).
    bool_simpl; unfold CCM_STAR_MIC_LEN in *; lia. }
  destruct (_ <? _ - _)%nat eqn:H2.
  { split; [done|]. intros pt. split; [done|]. intros (Hpl & _ & [Hl _]%Hinv). bool_simpl. lia. }
  bool_simpl. set (n := (length received - CCM_STAR_MIC_LEN)%nat) in *.
  set (buffer := ref_ctr aes nonce (take n received)).
  assert (length (take n received) = n) as Htl by (rewrite length_take; lia).
  assert (length buffer = n) as Hbl by (unfold buffer; by rewrite (length_ref_ctr keyed aes)).
  set (mic := take CCM_STAR_MIC_LEN (drop n received)).
  assert (length mic = CCM_STAR_MIC_LEN) as Hml.
  { unfold mic. rewrite length_take, length_drop. lia. }
  assert (Forall is_u8 (take n received)) as Hbo by by apply Forall_take.
  pose proof (yields_open keyed aes nonce aad (take n received) mic Hn Ho Ha Hbo
                ltac:(lia) ltac:(lia) Hml) as Hy. fold buffer in Hy.
  specialize (Hy c Hc). cbv zeta. destruct ((ccm_ctr_xor _ _ ≫= _) c) as [[r c']| |]; [|done..].
  destruct Hy as [-> Hc'].
  split; [done|]. intros pt. case_bool_decide as Hmic.
  - assert (received = ref_ccm aes nonce aad buffer) as Hrec.
    { unfold ref_ccm. rewrite Hmic. unfold buffer. rewrite (ref_ctr_involutive keyed aes) by done.
      unfold mic. rewrite (take_ge (drop n received)) by (rewrite length_drop; lia). by rewrite take_drop. }
    split.
    + intros [= <-]. split_and!; [lia|lia|done].
    + intros (_ & _ & (_ & _ & Ht & _)%Hinv). fold n in Ht. f_equal. unfold buffer.
      rewrite Ht. by rewrite (ref_ctr_involutive keyed aes).
  - split; [done|]. intros (_ & _ & (_ & _ & Ht & Hd)%Hinv). fold n in Ht, Hd.
    destruct Hmic. unfold buffer, mic. rewrite Ht, (ref_ctr_involutive keyed aes), Hd by done.
    rewrite take_ge; [done|]. rewrite <- Hd, length_drop. lia.
Qed.

(** The forms the NWK layer uses. *)
Lemma ccm_encrypt_success {C E} `{Aes128Forward C E} (keyed : C → Prop)
    (aes : list Z → list Z) `{!LawfulAes keyed aes} (nonce aad plaintext : list Z) (c : C) :
  keyed c → length nonce = CCM_STAR_NONCE_LEN → Forall is_u8 nonce → Forall is_u8 aad →
  Forall is_u8 plaintext →
  match ccm_star_encrypt_with nonce aad plaintext c with
  | Ok (Some ct, _) =>
      ct = ref_ccm aes nonce aad plaintext ∧
      (length plaintext <= CCM_STAR_MAX_PLAINTEXT_LEN)%nat ∧
      (length aad <= CCM_STAR_MAX_AAD_LEN)%nat ∧
      length ct = (length plaintext + CCM_STAR_MIC_LEN)%nat
  | Ok (None, _) =>
      (CCM_STAR_MAX_PLAINTEXT_LEN < length plaintext)%nat ∨ (CCM_STAR_MAX_AAD_LEN < length aad)%nat
  | Err e => backend_fails keyed e
  | Panic => False
  end.
Proof.
  intros Hc Hn Ho Ha Hp. pose proof (ccm_encrypt_eq keyed aes nonce aad plaintext c Hc Hn Ho Ha Hp) as He.
  destruct (ccm_star_encrypt_with _ _ _ _) as [[[ct|] c']| |]; [| |done..];
    destruct He as (_ & Hr & Hl); destruct (_ && _)%nat eqn:Hb; try done.
  - injection Hr as ->. apply andb_true_iff in Hb as [?%Nat.leb_le ?%Nat.leb_le]. done.
  - apply andb_false_iff in Hb as [?%Nat.leb_gt|?%Nat.leb_gt]; [by left|by right].
Qed.

Lemma ccm_decrypt_image {C E} `{Aes128Forward C E} (keyed : C → Prop)
    (aes : list Z → list Z) `{!LawfulAes keyed aes} (nonce aad plaintext : list Z) (c : C) :
  keyed c → length nonce = CCM_STAR_NONCE_LEN → Forall is_u8 nonce → Forall is_u8 aad →
  Forall is_u8 plaintext → (length plaintext <= CCM_STAR_MAX_PLAINTEXT_LEN)%nat →
  (length aad <= CCM_STAR_MAX_AAD_LEN)%nat →
  match ccm_star_decrypt_with nonce aad (ref_ccm aes nonce aad plaintext) c with
  | Ok (r, _) => r = Some plaintext
  | Err e => backend_fails keyed e
  | Panic => False
  end.
Proof.
  intros Hc Hn Ho Ha Hp Hlp Hla.
  assert (Forall is_u8 (ref_ccm aes nonce aad plaintext)) as Hr.
  { apply Forall_app. split; [by apply (ref_ctr_octets keyed aes)|].
    apply xor_list_octets; apply Forall_take.
    - by apply (ref_mac_wf keyed aes).
    - by apply aes_block, ref_a_wf. }
  pose proof (ccm_decrypt_iff keyed aes nonce aad _ c Hc Hn Ho Ha Hr) as Hd.
  destruct (ccm_star_decrypt_with _ _ _ _) as [[r c']| |]; [|done..]. by apply Hd.
Qed.

(** ** The CRC stays within 16 bits *)
Lemma lxor_u16 a b : is_u16 a → is_u16 b → is_u16 (Z.lxor a b).
Proof.
  intros Ha Hb. assert (0 <= Z.lxor a b) by (apply Z.lxor_nonneg; unfold is_u16 in *; lia).
  split; [done|]. destruct (decide (Z.lxor a b = 0)) as [->|Hne]; [lia|].
  apply Z.log2_lt_cancel. change (Z.log2 65536) with 16.
  pose proof (Z.log2_lxor a b ltac:(unfold is_u16 in *; lia) ltac:(unfold is_u16 in *; lia)) as Hl.
  assert (∀ x, is_u16 x → Z.log2 x < 16) as Hx.
  { intros x Hx. destruct (decide (x = 0)) as [->|]; [done|].
    apply Z.log2_lt_pow2; unfold is_u16 in Hx; simpl; lia. }
  pose proof (Hx a Ha). pose proof (Hx b Hb). lia.
Qed.

Lemma crc_bit_u16 crc : is_u16 crc → is_u16 (crc_bit crc).
Proof.
  intros Hc. assert (is_u16 (Z.shiftr crc 1)) as Hs by (rewrite shiftr_div by lia; ulia).
  unfold crc_bit. case_match; [by apply lxor_u16|done].
Qed.

Lemma install_code_crc_u16 data : Forall is_u8 data → is_u16 (install_code_crc data).
Proof.
  intros Hd. unfold install_code_crc. apply lxor_u16; [|done].
  assert (∀ crc, is_u16 crc → is_u16 (fold_left crc_byte data crc)) as H; [|by apply H].
  induction Hd as [|b data Hb _ IH]; intros crc Hc; [done|]. simpl. apply IH. unfold crc_byte.
  assert (is_u16 (Z.lxor crc b)) as Hx by (apply lxor_u16; [done|unfold is_u8, is_u16 in *; lia]).
  generalize 8%nat. intros k. induction k; [done|]. rewrite Nat.iter_succ. by apply crc_bit_u16.
Qed.

(** ** A concrete backend for the witnesses: an octet-wise permutation *)
Module ToyAes.
Definition aes (key b : list Z) : list Z := zip_with Z.lxor b key.
Definition toy_key : list Z := repeat 90 16.

#[export] Instance toy_cipher : Aes128Forward (list Z) Empty_set := λ b key, Ok (aes key b, key).

#[export] Instance toy_provider : ForwardAesProvider unit (list Z) Empty_set := {|
  provider_cipher := toy_cipher; forward_cipher := λ _ key, key; cipher_done := λ _, tt |}.

Lemma toy_lawful_key key : block_wf key → LawfulAes (λ c, c = key) (aes key).
Proof.
  intros [Hk Hko]. split.
  - intros b [Hb Hbo]. split; [|by apply xor_list_octets].
    unfold aes. rewrite length_zip_with, Hb, Hk. done.
  - intros c b b' c' -> _ [= <- <-]. done.
  - done.
Qed.

#[export] Instance toy_lawful : LawfulAes (λ c, c = toy_key) (aes toy_key).
Proof. apply toy_lawful_key. split; [done|]. by repeat constructor. Qed.

#[export] Instance toy_lawful_provider :
  LawfulProvider (λ _ : unit, True) (λ key (c : list Z), c = key) aes.
Proof. split; [apply toy_lawful_key|done|done]. Qed.
End ToyAes.
Import ToyAes.

(** * Properties *)

(** C28. Whatever backend provides the permutation, CCM* encryption either
    reports an error the backend itself gave on some block (so never with a
    backend that does not fail) or returns the RFC 3610 construction with
    a four-octet MIC: the counter-mode payload followed by the masked CBC-MAC
    over the length-prefixed header and the payload; it refuses exactly a
    plaintext over 124 octets or a header over 0xFEFF octets. *)
Theorem ccm_encrypt_reference {C E} `{Aes128Forward C E} (keyed : C → Prop)
    (aes : list Z → list Z) `{!LawfulAes keyed aes} (nonce aad plaintext : list Z) (c : C) :
  keyed c → length nonce = 13%nat → Forall is_u8 nonce → Forall is_u8 aad →
  Forall is_u8 plaintext →
  match ccm_star_encrypt_with nonce aad plaintext c with
  | Ok (r, c') =>
      keyed c' ∧
      r = (if bool_decide ((length plaintext <= 124)%nat ∧ Z.of_nat (length aad) < 0xFF00)
           then Some (ref_ccm aes nonce aad plaintext) else None) ∧
      length (ref_ccm aes nonce aad plaintext) = (length plaintext + 4)%nat
  | Err e => backend_fails keyed e
  | Panic => False
  end.
Proof.
  intros Hc Hn Ho Ha Hp. pose proof (ccm_encrypt_eq keyed aes nonce aad plaintext c Hc Hn Ho Ha Hp) as He.
  destruct (ccm_star_encrypt_with _ _ _ _) as [[r c']| |]; [|done..].
  destruct He as (Hc' & -> & Hl). split_and!; [done| |done].
  unfold CCM_STAR_MAX_PLAINTEXT_LEN, CCM_STAR_MAX_AAD_LEN.
  case_bool_decide as Hd; destruct (_ <=? _)%nat eqn:H1; destruct (length aad <=? _)%nat eqn:H2;
    bool_simpl; try done; destruct Hd; lia.
Qed.

Lemma ccm_encrypt_reference_witness :
  ccm_star_encrypt_with (repeat 1 13) [2] [3; 4] ToyAes.toy_key
  = Ok (Some (ref_ccm (ToyAes.aes ToyAes.toy_key) (repeat 1 13) [2] [3; 4]), ToyAes.toy_key).
Proof.
  pose proof (ccm_encrypt_reference (λ c, c = ToyAes.toy_key) (ToyAes.aes ToyAes.toy_key)
    (repeat 1 13) [2] [3; 4] ToyAes.toy_key eq_refl eq_refl) as H.
  destruct (ccm_star_encrypt_with _ _ _ _) as [[r c']|[]|].
  - destruct H as (-> & -> & _); [by repeat constructor..|].
    by rewrite bool_decide_eq_true_2 by (cbn [length]; lia).
  - destruct H; by repeat constructor.
Defined.

(** The reference on a vector of its own: the octets of [A_1] and of [B_0]. *)
Example ref_blocks_octets :
  ref_a (repeat 7 13) 1 = [0x01] ++ repeat 7 13 ++ [0x00; 0x01] ∧
  ref_b0 (repeat 7 13) [2] (repeat 0 300) = [0x49] ++ repeat 7 13 ++ [0x01; 0x2C] ∧
  ref_b0 (repeat 7 13) [] [3; 4] = [0x09] ++ repeat 7 13 ++ [0x00; 0x02].
Proof. done. Qed.

(** C8. CCM* decryption accepts exactly the encryptions: when the backend
    does not fail, it returns a plaintext if and only if the received octets
    are the CCM* encryption of that plaintext under the same nonce and
    header, so round trips succeed and every other octet string is refused;
    an error is one the backend itself gave on some block. *)
Theorem ccm_decrypt_exact {C E} `{Aes128Forward C E} (keyed : C → Prop)
    (aes : list Z → list Z) `{!LawfulAes keyed aes} (nonce aad received : list Z) (c : C) :
  keyed c → length nonce = CCM_STAR_NONCE_LEN → Forall is_u8 nonce → Forall is_u8 aad →
  Forall is_u8 received →
  match ccm_star_decrypt_with nonce aad received c with
  | Ok (r, c') =>
      keyed c' ∧ ∀ plaintext, r = Some plaintext ↔
        (length plaintext <= CCM_STAR_MAX_PLAINTEXT_LEN)%nat ∧
        (length aad <= CCM_STAR_MAX_AAD_LEN)%nat ∧
        received = ref_ccm aes nonce aad plaintext
  | Err e => backend_fails keyed e
  | Panic => False
  end.
Proof. apply ccm_decrypt_iff; done. Qed.

Lemma ccm_decrypt_exact_witness :
  ccm_star_decrypt_with (repeat 1 13) [2]
    (ref_ccm (ToyAes.aes ToyAes.toy_key) (repeat 1 13) [2] [3; 4]) ToyAes.toy_key
  = Ok (Some [3; 4], ToyAes.toy_key).
Proof.
  pose proof (ccm_decrypt_exact (λ c, c = ToyAes.toy_key) (ToyAes.aes ToyAes.toy_key)
    (repeat 1 13) [2] (ref_ccm (ToyAes.aes ToyAes.toy_key) (repeat 1 13) [2] [3; 4])
    ToyAes.toy_key eq_refl eq_refl) as H.
  destruct (ccm_star_decrypt_with _ _ _ _) as [[r c']|[]|].
  - destruct H as [-> H]; [by repeat constructor..| |].
    + vm_compute. by repeat constructor.
    + rewrite (proj2 (H [3; 4])); [reflexivity|]. split_and!; [|unfold CCM_STAR_MAX_AAD_LEN; cbn [length]; lia|reflexivity].
      unfold CCM_STAR_MAX_PLAINTEXT_LEN. cbn [length]. lia.
  - destruct H; [by repeat constructor..|]. vm_compute. by repeat constructor.
Defined.

(** Deriving a key from an install code answers on every input: a code
    of the wrong length or with the wrong trailing CRC is refused with that
    error and without using the cipher; otherwise the key is the AES-MMO hash
    of the whole padded code, or a failure the backend had is reported. *)
Theorem install_code_key_spec {P C E} `{ForwardAesProvider P C E} (ready : P → Prop)
    (keyed : list Z → C → Prop) (aes : list Z → list Z → list Z)
    `{!LawfulProvider ready keyed aes} (code : list Z) (p : P) :
  ready p → Forall is_u8 code →
  let n := (length code - 2)%nat in
  let well_sized := existsb (Nat.eqb (length code)) [8; 10; 14; 18]%nat in
  let crc_ok := bool_decide (drop n code = u16_to_le (install_code_crc (take n code))) in
  match derive_install_code_key_with code p with
  | Ok (key, p') => well_sized = true ∧ crc_ok = true ∧ key = ref_mmo aes code ∧ ready p'
  | Err InvalidLength => well_sized = false
  | Err InvalidCrc => well_sized = true ∧ crc_ok = false
  | Err InstallCipherFailure => well_sized = true ∧ crc_ok = true ∧ provider_fails keyed
  | Panic => False
  end.
Proof.
  intros Hp Ho n well_sized crc_ok. unfold derive_install_code_key_with. fold well_sized n.
  destruct well_sized eqn:Hw; [|done]. cbn [negb].
  assert (8 <= length code <= 18)%nat as Hlen.
  { unfold well_sized in Hw. simpl in Hw. bool_simpl; lia. }
  destruct (index_lt (E:=InstallCodeError) code n) as (c0 & H0 & ->); [unfold n; lia|].
  destruct (index_lt (E:=InstallCodeError) code (n + 1)) as (c1 & H1 & ->); [unfold n; lia|].
  cbn [mbind outcome_bind]. unfold slice, slice_get.
  rewrite (proj2 (Nat.leb_le n (length code))) by (unfold n; lia). cbn [Nat.leb andb mbind outcome_bind].
  rewrite drop_0, Nat.sub_0_r.
  assert (is_u8 c0 ∧ is_u8 c1) as [Hc0 Hc1] by (split; by eapply Forall_lookup_1).
  assert (drop n code = [c0; c1]) as Hd.
  { rewrite (drop_S _ _ _ H0). replace (S n) with (n + 1)%nat by lia. rewrite (drop_S _ _ _ H1).
    by rewrite drop_ge by (unfold n; lia). }
  assert (crc_ok = (install_code_crc (take n code) =? u16_from_le c0 c1)) as Hcrc.
  { unfold crc_ok. rewrite Hd. apply eq_bool_prop_intro.
    rewrite bool_decide_spec, Is_true_true, Z.eqb_eq. split.
    - intros Heq. pose proof (u16_from_to_le _ (install_code_crc_u16 (take n code)
        (Forall_take _ _ _ Ho))) as Hft. unfold u16_to_le in Heq.
      injection Heq as Heq0 Heq1. by rewrite <- Heq0, <- Heq1 in Hft.
    - intros ->. by rewrite u16_to_from_le. }
  rewrite <- Hcrc. destruct crc_ok; cbn [negb]; [|done].
  pose proof (yields_mmo_hash ready keyed aes code Ho ltac:(lia) p Hp) as Hy.
  destruct (aes_mmo_hash_with code p) as [[key p']|e|]; simpl; [by destruct Hy| |done].
  by destruct Hy as [-> Hf].
Qed.

Definition ex_code : list Z := [0x83; 0xFE; 0xD3; 0x40; 0x7A; 0x93; 0x2B; 0x70].

Lemma install_code_key_spec_witness :
  match derive_install_code_key_with ex_code tt with
  | Ok (key, _) => key = ref_mmo ToyAes.aes ex_code
  | _ => False
  end.
Proof.
  pose proof (install_code_key_spec (λ _ : unit, True) (λ key (c : list Z), c = key) ToyAes.aes
    ex_code tt I) as H.
  assert (match derive_install_code_key_with ex_code tt with Ok _ => true | _ => false end = true) as Hok
    by (vm_compute; reflexivity).
  destruct (derive_install_code_key_with ex_code tt) as [[key p']|e|]; [|discriminate Hok..].
  apply H. by repeat constructor.
Defined.
