(* ===== verification/NwkSecurity.v ===== *)
(** NWK security: [zigbee-nwk/src/security.rs] (router build).

    The auxiliary header, the installed network keys with their staging and
    activation, the replay floors per (source, key sequence), and the CCM*
    calls with the nonce they use.  The replay table admits a new source only
    if it can record its floor; which floors may be given up for it is the
    subject of the theorems. *)
From S2P Require Import Prelude.
From S2P Require Import ZigbeeTypes.
From S2P Require Import Crypto.

Local Open Scope Z_scope.

Definition MAX_FRAME_COUNTER_ENTRIES : nat := 64.
Definition DEFAULT_REPLAY_STALE_SECS : Z := 3600.
Definition NWK_AUX_HEADER_LEN : nat := 14.

Inductive ReplayAdmission := Fresh | Replay | TableFull.

#[export] Instance ReplayAdmission_eq_dec : EqDecision ReplayAdmission.
Proof. solve_decision. Defined.

Record NetworkKeyEntry := mk_NetworkKeyEntry {
  nk_key : AesKey; nk_seq_number : Z; nk_active : bool }.

#[export] Instance NetworkKeyEntry_eq_dec : EqDecision NetworkKeyEntry.
Proof. solve_decision. Defined.

Record NwkReplayCounter := mk_NwkReplayCounter {
  rc_source : IeeeAddress; rc_key_sequence : Z; rc_key_fingerprint : Z; rc_counter : Z }.

Definition from_verified (source : IeeeAddress) (key_sequence : Z) (key : AesKey) (counter : Z)
    : NwkReplayCounter :=
  mk_NwkReplayCounter source key_sequence (key_fingerprint key) counter.

(** * Auxiliary header *)
Record NwkSecurityHeader := mk_NwkSecurityHeader {
  sh_security_control : Z; sh_frame_counter : Z;
  sh_source_address : IeeeAddress; sh_key_seq_number : Z }.

Definition ZIGBEE_DEFAULT : Z := Z.lor 0x05 (Z.lor (Z.shiftl 0x01 3) (Z.shiftl 1 5)).

Definition uses_network_key_with_extended_nonce (h : NwkSecurityHeader) : bool :=
  Z.land (sh_security_control h) (not_u8 0x07) =? Z.land ZIGBEE_DEFAULT (not_u8 0x07).

Definition aux_parse (data : list Z) : fallible (NwkSecurityHeader * nat) :=
  if (length data <? NWK_AUX_HEADER_LEN)%nat then Err tt
  else
    security_control ← index data 0;
    b1 ← index data 1; b2 ← index data 2; b3 ← index data 3; b4 ← index data 4;
    source_address ← slice data 5 13;
    key_seq_number ← index data 13;
    Ok (mk_NwkSecurityHeader security_control (u32_from_le b1 b2 b3 b4) source_address
          key_seq_number, NWK_AUX_HEADER_LEN).

Definition aux_serialize {E} (h : NwkSecurityHeader) (buf : list Z) : outcome E (list Z * nat) :=
  buf ← put buf 0 (sh_security_control h);
  buf ← copy_from_slice buf 1 5 (u32_to_le (sh_frame_counter h));
  buf ← copy_from_slice buf 5 13 (sh_source_address h);
  buf ← put buf 13 (sh_key_seq_number h);
  Ok (buf, NWK_AUX_HEADER_LEN).

Definition build_nonce (h : NwkSecurityHeader) : list Z :=
  let actual_sc := Z.lor (Z.land (sh_security_control h) (not_u8 0x07)) 0x05 in
  sh_source_address h ++ u32_to_le (sh_frame_counter h) ++ [actual_sc].

(** * The security context *)
Record FrameCounterEntry := mk_FrameCounterEntry {
  fc_source : IeeeAddress; fc_key_sequence : Z; fc_counter : Z; fc_silent_secs : Z }.

#[export] Instance FrameCounterEntry_eq_dec : EqDecision FrameCounterEntry.
Proof. solve_decision. Defined.

Record NwkSecurity := mk_NwkSecurity {
  keys0 : option NetworkKeyEntry;
  keys1 : option NetworkKeyEntry;
  staged_key_sequence : option Z;
  activation_pending : bool;
  frame_counter_table : list FrameCounterEntry;
  previous_key_replay_sealed : bool;
  replay_stale_secs : Z }.

Definition sec_new : NwkSecurity :=
  mk_NwkSecurity None None None false [] false DEFAULT_REPLAY_STALE_SECS.

(** Field assignments. *)
Definition set_keys (k0 k1 : option NetworkKeyEntry) (s : NwkSecurity) : NwkSecurity :=
  let 'mk_NwkSecurity _ _ st ap t sl ss := s in mk_NwkSecurity k0 k1 st ap t sl ss.
Definition set_staged (v : option Z) (s : NwkSecurity) : NwkSecurity :=
  let 'mk_NwkSecurity k0 k1 _ ap t sl ss := s in mk_NwkSecurity k0 k1 v ap t sl ss.
Definition set_activation_pending (v : bool) (s : NwkSecurity) : NwkSecurity :=
  let 'mk_NwkSecurity k0 k1 st _ t sl ss := s in mk_NwkSecurity k0 k1 st v t sl ss.
Definition set_table (v : list FrameCounterEntry) (s : NwkSecurity) : NwkSecurity :=
  let 'mk_NwkSecurity k0 k1 st ap _ sl ss := s in mk_NwkSecurity k0 k1 st ap v sl ss.
Definition set_sealed (v : bool) (s : NwkSecurity) : NwkSecurity :=
  let 'mk_NwkSecurity k0 k1 st ap t _ ss := s in mk_NwkSecurity k0 k1 st ap t v ss.
Definition set_replay_stale_timeout_secs (v : Z) (s : NwkSecurity) : NwkSecurity :=
  let 'mk_NwkSecurity k0 k1 st ap t sl _ := s in mk_NwkSecurity k0 k1 st ap t sl v.

Definition unseal_previous_key (s : NwkSecurity) : NwkSecurity := set_sealed false s.

Definition replay_stale_timeout_secs (s : NwkSecurity) : Z := replay_stale_secs s.

Definition age_replay_floors (elapsed_secs : Z) (s : NwkSecurity) : NwkSecurity :=
  set_table ((λ e, mk_FrameCounterEntry (fc_source e) (fc_key_sequence e) (fc_counter e)
                     (saturating_add_u16 (fc_silent_secs e) elapsed_secs))
               <$> frame_counter_table s) s.

Definition clear_network_keys (s : NwkSecurity) : NwkSecurity :=
  unseal_previous_key
    (set_table [] (set_activation_pending false (set_staged None (set_keys None None s)))).

Definition clear_frame_counters_for_key (key_sequence : Z) (s : NwkSecurity) : NwkSecurity :=
  set_table (retain (λ e, negb (fc_key_sequence e =? key_sequence)) (frame_counter_table s)) s.

(** [Some(sequence) == slot.map(|entry| entry.seq_number)] *)
Definition slot_has_seq (slot : option NetworkKeyEntry) (seq : Z) : bool :=
  match slot with Some k => nk_seq_number k =? seq | None => false end.

Definition retain_frame_counters_for_installed_keys (s : NwkSecurity) : NwkSecurity :=
  let s := unseal_previous_key s in
  set_table (retain (λ e, slot_has_seq (keys0 s) (fc_key_sequence e)
                          || slot_has_seq (keys1 s) (fc_key_sequence e))
               (frame_counter_table s)) s.

Definition clear_frame_counters_for_source (source : IeeeAddress) (s : NwkSecurity) : NwkSecurity :=
  set_table (retain (λ e, negb (ieee_eqb (fc_source e) source)) (frame_counter_table s)) s.

Definition key_eqb (a b : AesKey) : bool := bool_decide (a = b).

Definition with_active (b : bool) (k : NetworkKeyEntry) : NetworkKeyEntry :=
  mk_NetworkKeyEntry (nk_key k) (nk_seq_number k) b.

(** [keys.swap(0, 1)] with the flags that follow it. *)
Definition swap_keys (s : NwkSecurity) : NwkSecurity :=
  set_keys (with_active true <$> keys1 s) (with_active false <$> keys0 s) s.

Definition slot_is (slot : option NetworkKeyEntry) (seq : Z) (key : AesKey) : bool :=
  match slot with Some k => (nk_seq_number k =? seq) && key_eqb (nk_key k) key | None => false end.

(** The rest of [set_network_key], when the active key has another sequence. *)
Definition replace_network_key (key : AesKey) (seq_number : Z) (s : NwkSecurity) : NwkSecurity :=
  if slot_is (keys1 s) seq_number key then
    unseal_previous_key (set_staged None (swap_keys s))
  else
    let s := clear_frame_counters_for_key seq_number s in
    let previous := with_active false <$> keys0 s in
    let s := set_keys (Some (mk_NetworkKeyEntry key seq_number true))
               (match previous with
                | Some entry => if nk_seq_number entry =? seq_number then None else Some entry
                | None => None
                end) s in
    retain_frame_counters_for_installed_keys (set_staged None s).

Definition set_network_key (key : AesKey) (seq_number : Z) (s : NwkSecurity) : NwkSecurity :=
  match keys0 s with
  | Some active =>
      if nk_seq_number active =? seq_number then
        let key_changed := negb (key_eqb (nk_key active) key) in
        let s := set_keys (Some (mk_NetworkKeyEntry key (nk_seq_number active) true)) (keys1 s) s in
        let s := set_staged None s in
        if key_changed then clear_frame_counters_for_key seq_number s else s
      else replace_network_key key seq_number s
  | None => replace_network_key key seq_number s
  end.

(** Strict serial-number recency of 8-bit sequences. *)
Definition key_sequence_is_newer (candidate active : Z) : bool :=
  let delta := as_u8 (candidate - active) in
  negb (delta =? 0) && (delta <? 0x80).

Definition stage_network_key (key : AesKey) (seq_number : Z) (s : NwkSecurity) : NwkSecurity * bool :=
  match keys0 s with
  | None => (set_network_key key seq_number s, true)
  | Some active =>
      if nk_seq_number active =? seq_number then (s, key_eqb (nk_key active) key)
      else
        let newer := key_sequence_is_newer seq_number (nk_seq_number active) in
        if slot_is (keys1 s) seq_number key then
          (if newer then set_staged (Some seq_number) s else s, true)
        else if negb newer then (s, false)
        else
          let s := clear_frame_counters_for_key seq_number s in
          let s := set_keys (keys0 s) (Some (mk_NetworkKeyEntry key seq_number false)) s in
          let s := set_staged (Some seq_number) s in
          (retain_frame_counters_for_installed_keys s, true)
  end.

Definition key_by_seq (s : NwkSecurity) (seq : Z) : option NetworkKeyEntry :=
  if slot_has_seq (keys0 s) seq then keys0 s
  else if slot_has_seq (keys1 s) seq then keys1 s else None.

Definition staged_key (s : NwkSecurity) : option NetworkKeyEntry :=
  sequence ← staged_key_sequence s; key_by_seq s sequence.

Definition secondary_key (s : NwkSecurity) : option NetworkKeyEntry := keys1 s.

Definition active_key (s : NwkSecurity) : option NetworkKeyEntry :=
  match keys0 s with Some k => if nk_active k then Some k else None | None => None end.

Definition key_fingerprint_is_live (s : NwkSecurity) (fp : Z) : bool :=
  existsb (λ slot, match slot with Some k => key_fingerprint (nk_key k) =? fp | None => false end)
    [keys0 s; keys1 s].

Definition replay_counter_key_is_live (s : NwkSecurity) (replay : NwkReplayCounter) : bool :=
  match key_by_seq s (rc_key_sequence replay) with
  | Some k => key_fingerprint (nk_key k) =? rc_key_fingerprint replay
  | None => false
  end.

Definition restore_previous_network_key (key : AesKey) (seq_number : Z) (s : NwkSecurity)
    : NwkSecurity * bool :=
  match keys0 s with
  | None => (s, false)
  | Some active =>
      if nk_seq_number active =? seq_number then (s, key_eqb (nk_key active) key)
      else
        let s := clear_frame_counters_for_key seq_number s in
        let s := set_keys (keys0 s) (Some (mk_NetworkKeyEntry key seq_number false)) s in
        (retain_frame_counters_for_installed_keys (set_staged None s), true)
  end.

Definition staged_is (s : NwkSecurity) (seq : Z) : bool :=
  match staged_key_sequence s with Some x => x =? seq | None => false end.

Definition activate_network_key (seq_number : Z) (s : NwkSecurity) : NwkSecurity * bool :=
  if slot_has_seq (keys0 s) seq_number then
    (set_keys (with_active true <$> keys0 s) (with_active false <$> keys1 s) s, true)
  else if negb (staged_is s seq_number)
          || negb (match active_key s with
                   | Some active => key_sequence_is_newer seq_number (nk_seq_number active)
                   | None => false
                   end) then (s, false)
  else if slot_has_seq (keys1 s) seq_number then
    (unseal_previous_key (set_staged None (swap_keys s)), true)
  else (s, false).

Definition activate_received_key (seq_number : Z) (s : NwkSecurity) : NwkSecurity * bool :=
  if staged_is s seq_number then activate_network_key seq_number s else (s, false).

Definition retire_previous_network_key (s : NwkSecurity) : NwkSecurity * option NetworkKeyEntry :=
  match staged_key_sequence s with
  | Some _ => (s, None)
  | None =>
      match keys1 s with
      | None => (s, None)
      | Some retired =>
          (retain_frame_counters_for_installed_keys (set_keys (keys0 s) None s), Some retired)
      end
  end.

(** * Replay floors *)
Definition fc_of (source : IeeeAddress) (key_sequence : Z) (e : FrameCounterEntry) : bool :=
  ieee_eqb (fc_source e) source && (fc_key_sequence e =? key_sequence).

(** [Some(e.key_sequence) == reclaim_from] *)
Definition of_previous (reclaim_from : option Z) (e : FrameCounterEntry) : bool :=
  match reclaim_from with Some previous => fc_key_sequence e =? previous | None => false end.

(** The sequence of the retained previous key: installed and not staged. *)
Definition previous_sequence (s : NwkSecurity) : option Z :=
  match keys1 s with
  | Some k => if staged_is s (nk_seq_number k) then None else Some (nk_seq_number k)
  | None => None
  end.

Definition reclaimable_key_sequence (s : NwkSecurity) (key_sequence : Z) : option (option Z) :=
  match previous_sequence s with
  | Some previous =>
      if previous =? key_sequence
      then (if negb (previous_key_replay_sealed s) then Some None else None)
      else Some (Some previous)
  | None => Some None
  end.

Definition stale_unprotected (s : NwkSecurity) (protect : IeeeAddress → bool) (e : FrameCounterEntry) : bool :=
  (replay_stale_secs s <=? fc_silent_secs e) && negb (protect (fc_source e)).

(** [reserved] and [protect] are the closures of the caller. *)
Definition check_frame_counter_reserving (s : NwkSecurity) (source : IeeeAddress)
    (key_sequence counter : Z) (reserved : nat) (protect : IeeeAddress → bool) : ReplayAdmission :=
  match List.find (fc_of source key_sequence) (frame_counter_table s) with
  | Some entry => if fc_counter entry <? counter then Fresh else Replay
  | None =>
      match reclaimable_key_sequence s key_sequence with
      | None => TableFull
      | Some reclaim_from =>
          let reclaimable :=
            match reclaim_from with
            | None => 0%nat
            | Some _ => count (of_previous reclaim_from) (frame_counter_table s)
            end in
          let available := (MAX_FRAME_COUNTER_ENTRIES - length (frame_counter_table s) + reclaimable)%nat in
          if (reserved <? available)%nat then Fresh
          else
            let stale :=
              Nat.min (reserved + 1 - available)
                (count (λ e, negb (of_previous reclaim_from e) && stale_unprotected s protect e)
                   (frame_counter_table s)) in
            if (reserved <? available + stale)%nat then Fresh else TableFull
      end
  end.

Definition check_frame_counter_for_key (s : NwkSecurity) (source : IeeeAddress)
    (key_sequence counter : Z) : bool :=
  bool_decide (check_frame_counter_reserving s source key_sequence counter 0 (λ _, true) = Fresh).

(** [active_key().map(|entry| entry.seq_number).unwrap_or(0)] *)
Definition active_sequence (s : NwkSecurity) : Z :=
  match active_key s with Some k => nk_seq_number k | None => 0 end.

Definition check_frame_counter (s : NwkSecurity) (source : IeeeAddress) (counter : Z) : bool :=
  check_frame_counter_for_key s source (active_sequence s) counter.

Definition commit_frame_counter_for_key_protecting (s : NwkSecurity) (source : IeeeAddress)
    (key_sequence counter : Z) (protect : IeeeAddress → bool) : NwkSecurity * bool :=
  let table := frame_counter_table s in
  match position (fc_of source key_sequence) table with
  | Some i =>
      (set_table (alter (λ e, mk_FrameCounterEntry (fc_source e) (fc_key_sequence e)
                                (Z.max (fc_counter e) counter) 0) i table) s, true)
  | None =>
      match reclaimable_key_sequence s key_sequence with
      | None => (s, false)
      | Some reclaim_from =>
          let entry := mk_FrameCounterEntry source key_sequence counter 0 in
          match vec_push MAX_FRAME_COUNTER_ENTRIES table entry with
          | Some table' => (set_table table' s, true)
          | None =>
              match (match reclaim_from with
                     | Some _ => position (of_previous reclaim_from) table
                     | None => None
                     end) with
              | Some i => (set_sealed true (set_table (<[i := entry]> table) s), true)
              | None =>
                  match max_position (stale_unprotected s protect) fc_silent_secs table with
                  | None => (s, false)
                  | Some (i, _) => (set_table (<[i := entry]> table) s, true)
                  end
              end
          end
      end
  end.

Definition commit_frame_counter_for_key (s : NwkSecurity) (source : IeeeAddress)
    (key_sequence counter : Z) : NwkSecurity * bool :=
  commit_frame_counter_for_key_protecting s source key_sequence counter (λ _, true).

Definition commit_frame_counter (s : NwkSecurity) (source : IeeeAddress) (counter : Z)
    : NwkSecurity * bool :=
  commit_frame_counter_for_key s source (active_sequence s) counter.

Definition has_frame_counter_for_key (s : NwkSecurity) (source : IeeeAddress) (key_sequence : Z) : bool :=
  existsb (fc_of source key_sequence) (frame_counter_table s).

Definition restore_replay_counter (s : NwkSecurity) (replay : NwkReplayCounter) : NwkSecurity * bool :=
  match key_by_seq s (rc_key_sequence replay) with
  | None => (s, false)
  | Some k =>
      if negb (key_fingerprint (nk_key k) =? rc_key_fingerprint replay) then (s, false)
      else commit_frame_counter_for_key s (rc_source replay) (rc_key_sequence replay) (rc_counter replay)
  end.

(** * Encryption

    A backend failure becomes [None]; the frame is dropped. *)
Section Encryption.
Context {P C E : Type} `{ForwardAesProvider P C E}.

Definition drop_failure {A} (m : outcome E (option A * C)) : outcome Empty_set (option A) :=
  match m with Ok (r, _) => Ok r | Err _ => Ok None | Panic => Panic end.

Definition encrypt_with (p : P) (nwk_header payload : list Z) (key : AesKey)
    (security_header : NwkSecurityHeader) : outcome Empty_set (option (list Z)) :=
  let nonce := build_nonce security_header in
  drop_failure (ccm_star_encrypt_with nonce nwk_header payload (forward_cipher p key)).

Definition decrypt_with (p : P) (nwk_header ciphertext : list Z) (key : AesKey)
    (security_header : NwkSecurityHeader) : outcome Empty_set (option (list Z)) :=
  let nonce := build_nonce security_header in
  drop_failure (ccm_star_decrypt_with nonce nwk_header ciphertext (forward_cipher p key)).
End Encryption.

(** * Header and nonce *)
Record aux_wf (h : NwkSecurityHeader) : Prop := {
  aux_wf_control : is_u8 (sh_security_control h);
  aux_wf_counter : is_u32 (sh_frame_counter h);
  aux_wf_source : ieee_wf (sh_source_address h);
  aux_wf_key : is_u8 (sh_key_seq_number h) }.

Definition aux_bytes (h : NwkSecurityHeader) : list Z :=
  [sh_security_control h] ++ u32_to_le (sh_frame_counter h) ++ sh_source_address h
  ++ [sh_key_seq_number h].

Lemma length_u32_to_le x : length (u32_to_le x) = 4%nat.
Proof. done. Qed.

Lemma aux_serialize_eq {E} h buf :
  ieee_wf (sh_source_address h) → (14 <= length buf)%nat →
  aux_serialize (E:=E) h buf = Ok (written (aux_bytes h) buf, NWK_AUX_HEADER_LEN).
Proof.
  intros [Hl _] Hb. unfold aux_serialize. rewrite <- (written_nil buf) at 1.
  rewrite put_written by (done || simpl; lia). cbn [mbind outcome_bind].
  rewrite copy_written by (done || (rewrite ?length_app, ?length_u32_to_le; simpl; lia)).
  cbn [mbind outcome_bind].
  rewrite copy_written by (rewrite ?length_app, ?length_u32_to_le, ?Hl; simpl; lia).
  cbn [mbind outcome_bind].
  rewrite put_written by (rewrite ?length_app, ?length_u32_to_le, ?Hl; simpl; lia).
  cbn [mbind outcome_bind]. unfold aux_bytes. by rewrite <- !app_assoc.
Qed.

Lemma u32_to_le_inj x y : is_u32 x → is_u32 y → u32_to_le x = u32_to_le y → x = y.
Proof.
  intros Hx Hy Heq. rewrite <- (u32_from_to_le x Hx), <- (u32_from_to_le y Hy).
  unfold u32_to_le in Heq. by injection Heq as -> -> -> ->.
Qed.

Lemma build_nonce_ok h :
  aux_wf h → length (build_nonce h) = CCM_STAR_NONCE_LEN ∧ Forall is_u8 (build_nonce h).
Proof.
  intros [Hc Hf [Hl Ho] Hk]. unfold build_nonce. split.
  - rewrite !length_app, Hl. done.
  - apply Forall_app. split; [done|]. apply Forall_app. split; [apply u32_to_le_octets|].
    repeat constructor.
    all: pose proof (range_forall 256 (λ x, bool_decide (is_u8 (Z.lor (Z.land x (not_u8 7)) 5))) eq_refl
      (sh_security_control h) Hc) as H; apply bool_decide_eq_true in H; apply H.
Qed.

(** * Replay floors: lookups and invariant *)
Definition floor (s : NwkSecurity) (source : IeeeAddress) (key_sequence : Z) : option Z :=
  fc_counter <$> List.find (fc_of source key_sequence) (frame_counter_table s).

Record fct_wf (s : NwkSecurity) : Prop := {
  fct_wf_length : (length (frame_counter_table s) <= MAX_FRAME_COUNTER_ENTRIES)%nat;
  fct_wf_unique : ∀ i j e e', frame_counter_table s !! i = Some e → frame_counter_table s !! j = Some e' →
    fc_source e = fc_source e' → fc_key_sequence e = fc_key_sequence e' → i = j }.

Lemma fc_of_true src k e : fc_of src k e = true ↔ fc_source e = src ∧ fc_key_sequence e = k.
Proof. unfold fc_of, ieee_eqb. by rewrite andb_true_iff, bool_decide_eq_true, Z.eqb_eq. Qed.

Lemma fc_of_other src k e src' k' :
  fc_of src k e = true → (src', k') ≠ (src, k) → fc_of src' k' e = false.
Proof. intros [<- <-]%fc_of_true Hne. apply not_true_iff_false. intros [<- <-]%fc_of_true. done. Qed.

Lemma table_set_table v s : frame_counter_table (set_table v s) = v.
Proof. by destruct s. Qed.

Lemma table_set_sealed v s : frame_counter_table (set_sealed v s) = frame_counter_table s.
Proof. by destruct s. Qed.

(** The three ways a commit changes the table. *)
Inductive commit_case (s : NwkSecurity) (src : IeeeAddress) (k c : Z) (protect : IeeeAddress → bool)
    : NwkSecurity → Prop :=
| commit_known i e :
    frame_counter_table s !! i = Some e → fc_of src k e = true →
    commit_case s src k c protect
      (set_table (<[i := mk_FrameCounterEntry src k (Z.max (fc_counter e) c) 0]> (frame_counter_table s)) s)
| commit_free :
    position (fc_of src k) (frame_counter_table s) = None →
    (length (frame_counter_table s) < MAX_FRAME_COUNTER_ENTRIES)%nat →
    commit_case s src k c protect
      (set_table (frame_counter_table s ++ [mk_FrameCounterEntry src k c 0]) s)
| commit_reclaim i e previous :
    position (fc_of src k) (frame_counter_table s) = None →
    (MAX_FRAME_COUNTER_ENTRIES <= length (frame_counter_table s))%nat →
    frame_counter_table s !! i = Some e → reclaimable_key_sequence s k = Some (Some previous) →
    fc_key_sequence e = previous →
    commit_case s src k c protect
      (set_sealed true (set_table (<[i := mk_FrameCounterEntry src k c 0]> (frame_counter_table s)) s))
| commit_evict i e :
    position (fc_of src k) (frame_counter_table s) = None →
    (MAX_FRAME_COUNTER_ENTRIES <= length (frame_counter_table s))%nat →
    frame_counter_table s !! i = Some e → stale_unprotected s protect e = true →
    commit_case s src k c protect
      (set_table (<[i := mk_FrameCounterEntry src k c 0]> (frame_counter_table s)) s).

Lemma commit_cases s src k c protect s' :
  commit_frame_counter_for_key_protecting s src k c protect = (s', true) →
  commit_case s src k c protect s'.
Proof.
  unfold commit_frame_counter_for_key_protecting, vec_push.
  destruct (position (fc_of src k) (frame_counter_table s)) as [i|] eqn:Hp.
  { apply position_Some in Hp as (e & He & Hpe & _). intros [= <-].
    rewrite (alter_insert _ _ _ e) by done. pose proof Hpe as [Hs Hk]%fc_of_true.
    rewrite Hs, Hk. by apply commit_known. }
  destruct (reclaimable_key_sequence s k) as [rf|] eqn:Hrf; [|done].
  destruct (_ <? _)%nat eqn:Hl; bool_simpl.
  { intros [= <-]. by apply commit_free. }
  destruct (match rf with Some _ => _ | None => _ end) as [i|] eqn:Hr.
  { destruct rf as [previous|]; [|done]. intros [= <-].
    apply position_Some in Hr as (e & He & Hpe & _). simpl in Hpe. bool_simpl.
    by eapply commit_reclaim. }
  destruct (max_position _ _ _) as [[i m]|] eqn:Hm; [|done]. intros [= <-].
  apply max_position_Some in Hm as (e & He & Hpe & _). by eapply commit_evict.
Qed.

Lemma fct_wf_insert s i src k c :
  fct_wf s → (i < length (frame_counter_table s))%nat →
  (∀ j e, j ≠ i → frame_counter_table s !! j = Some e → fc_of src k e = false) →
  ∀ s', frame_counter_table s' = <[i := mk_FrameCounterEntry src k c 0]> (frame_counter_table s) →
  fct_wf s'.
Proof.
  intros Hs Hi Hno s' Ht. split; rewrite Ht.
  - rewrite length_insert. apply Hs.
  - intros j j' e e' Hj Hj' Hse Hke.
    apply list_lookup_insert_Some in Hj as [(<- & <- & _)|[Hne Hj]],
      Hj' as [(<- & <- & _)|[Hne' Hj']]; simpl in *; [done|..].
    + specialize (Hno j' e' ltac:(done) Hj'). apply not_true_iff_false in Hno. destruct Hno.
      by apply fc_of_true.
    + specialize (Hno j e ltac:(done) Hj). apply not_true_iff_false in Hno. destruct Hno.
      by apply fc_of_true.
    + by eapply (fct_wf_unique _ Hs).
Qed.

Lemma commit_case_wf s src k c protect s' :
  fct_wf s → commit_case s src k c protect s' → fct_wf s'.
Proof.
  intros Hs Hc.
  assert (position (fc_of src k) (frame_counter_table s) = None →
    ∀ j e, frame_counter_table s !! j = Some e → fc_of src k e = false) as Hnone.
  { intros Hp j e He. rewrite position_None in Hp. apply Hp. by eapply list_elem_of_lookup_2. }
  destruct Hc as [i e He Hf|Hp Hl|i e previous Hp Hl He Hr Hk|i e Hp Hl He Hst].
  - eapply fct_wf_insert; [done|by eapply lookup_lt_Some| |apply table_set_table].
    intros j x Hj Hx. apply not_true_iff_false. intros [??]%fc_of_true.
    apply fc_of_true in Hf as [??]. apply Hj. eapply (fct_wf_unique _ Hs j i x e); congruence.
  - split; rewrite table_set_table.
    + rewrite length_app. simpl. lia.
    + intros i j e e' Hi Hj Hse Hke. specialize (Hnone Hp).
      rewrite lookup_app in Hi, Hj.
      destruct (frame_counter_table s !! i) as [x|] eqn:Hi', (frame_counter_table s !! j) as [y|] eqn:Hj';
        simplify_eq.
      * by eapply (fct_wf_unique _ Hs).
      * apply list_lookup_singleton_Some in Hj as [_ <-]. simpl in *.
        specialize (Hnone _ _ Hi'). apply not_true_iff_false in Hnone. destruct Hnone. by apply fc_of_true.
      * apply list_lookup_singleton_Some in Hi as [_ <-]. simpl in *.
        specialize (Hnone _ _ Hj'). apply not_true_iff_false in Hnone. destruct Hnone. by apply fc_of_true.
      * apply list_lookup_singleton_Some in Hi as [Hi _], Hj as [Hj _].
        apply lookup_ge_None in Hi', Hj'. lia.
  - eapply fct_wf_insert; [done|by eapply lookup_lt_Some| |by rewrite table_set_sealed, table_set_table].
    intros. by eapply Hnone.
  - eapply fct_wf_insert; [done|by eapply lookup_lt_Some| |apply table_set_table].
    intros. by eapply Hnone.
Qed.

Lemma floor_Some s src k f :
  fct_wf s →
  floor s src k = Some f ↔
  ∃ i e, frame_counter_table s !! i = Some e ∧ fc_source e = src ∧ fc_key_sequence e = k ∧ fc_counter e = f.
Proof.
  intros Hs. unfold floor. rewrite fmap_Some.
  assert (∀ e, List.find (fc_of src k) (frame_counter_table s) = Some e ↔
    e ∈ frame_counter_table s ∧ fc_of src k e = true) as Hf.
  { intros e. apply find_unique_slot. intros i j x y Hi Hj [??]%fc_of_true [??]%fc_of_true.
    apply (fct_wf_unique _ Hs i j x y); congruence. }
  setoid_rewrite Hf. setoid_rewrite fc_of_true. setoid_rewrite list_elem_of_lookup. naive_solver.
Qed.

Lemma floor_None s src k :
  floor s src k = None ↔ position (fc_of src k) (frame_counter_table s) = None.
Proof.
  unfold floor. rewrite fmap_None, find_position.
  destruct (position _ _) as [i|] eqn:Hp; simpl; [|done].
  apply position_lt, lookup_lt_is_Some in Hp as [x ->]. done.
Qed.

(** A commit records the higher of the old floor and the new counter. *)
Lemma commit_case_floor s src k c protect s' :
  fct_wf s → commit_case s src k c protect s' →
  floor s' src k = Some (match floor s src k with Some f => Z.max f c | None => c end).
Proof.
  intros Hs Hc. pose proof (commit_case_wf _ _ _ _ _ _ Hs Hc) as Hs'. rewrite floor_Some by done.
  destruct Hc as [i e He Hf|Hp Hl|i e previous Hp Hl He Hr Hk|i e Hp Hl He Hst].
  - apply fc_of_true in Hf as [Hse Hke].
    assert (floor s src k = Some (fc_counter e)) as -> by (apply floor_Some; [done|]; eauto 10).
    exists i. eexists. rewrite table_set_table, list_lookup_insert_eq by by eapply lookup_lt_Some.
    done.
  - apply floor_None in Hp as ->. exists (length (frame_counter_table s)). eexists.
    rewrite table_set_table, lookup_app_r, Nat.sub_diag by lia. done.
  - apply floor_None in Hp as ->. exists i. eexists.
    rewrite table_set_sealed, table_set_table, list_lookup_insert_eq by by eapply lookup_lt_Some. done.
  - apply floor_None in Hp as ->. exists i. eexists.
    rewrite table_set_table, list_lookup_insert_eq by by eapply lookup_lt_Some. done.
Qed.

(** Why another floor may be lost. *)
Definition given_up (s : NwkSecurity) (k : Z) (protect : IeeeAddress → bool)
    (src' : IeeeAddress) (k' : Z) (s' : NwkSecurity) : Prop :=
  floor s' src' k' = None ∧
  (MAX_FRAME_COUNTER_ENTRIES <= length (frame_counter_table s))%nat ∧
  ((reclaimable_key_sequence s k = Some (Some k') ∧ previous_key_replay_sealed s' = true) ∨
   (∃ e, e ∈ frame_counter_table s ∧ fc_source e = src' ∧ fc_key_sequence e = k' ∧
         stale_unprotected s protect e = true)).

Lemma floor_insert_other s s' i e0 src k c src' k' f :
  fct_wf s → fct_wf s' → frame_counter_table s !! i = Some e0 →
  frame_counter_table s' = <[i := mk_FrameCounterEntry src k c 0]> (frame_counter_table s) →
  (src', k') ≠ (src, k) → floor s src' k' = Some f →
  floor s' src' k' = Some f ∨
  (floor s' src' k' = None ∧ fc_source e0 = src' ∧ fc_key_sequence e0 = k').
Proof.
  intros Hs Hs' Hi Ht Hk (j & e & Hj & H1 & H2 & H3)%floor_Some; [|done].
  destruct (decide (i = j)) as [->|Hne]; [right|left].
  { simplify_eq. split; [|done]. apply eq_None_not_Some. intros [f (j' & x & Hx & Hx1 & Hx2 & _)%floor_Some]; [|done].
    rewrite Ht in Hx. apply list_lookup_insert_Some in Hx as [(<- & <- & _)|[Hne Hx]]; [by simplify_eq/=|].
    apply Hne. apply (fct_wf_unique _ Hs j j' e0 x); congruence. }
  apply floor_Some; [done|]. exists j, e. by rewrite Ht, list_lookup_insert_ne.
Qed.

Lemma commit_case_other s src k c protect s' src' k' f :
  fct_wf s → commit_case s src k c protect s' → (src', k') ≠ (src, k) →
  floor s src' k' = Some f →
  floor s' src' k' = Some f ∨ (floor s src k = None ∧ given_up s k protect src' k' s').
Proof.
  intros Hs Hc Hne Hf. pose proof (commit_case_wf _ _ _ _ _ _ Hs Hc) as Hs'.
  destruct Hc as [i e He Hfc|Hp Hl|i e previous Hp Hl He Hr Hk|i e Hp Hl He Hst].
  - destruct (floor_insert_other s _ i e src k (Z.max (fc_counter e) c) src' k' f Hs Hs' He
      (table_set_table _ _) Hne Hf) as [?|(_ & <- & <-)]; [by left|].
    apply fc_of_true in Hfc as [? ?]. congruence.
  - left. apply floor_Some in Hf as (j & x & Hj & ?); [|done]. apply floor_Some; [done|].
    exists j, x. rewrite table_set_table, lookup_app_l by by eapply lookup_lt_Some. done.
  - destruct (floor_insert_other s _ i e src k c src' k' f Hs Hs' He
      ltac:(by rewrite table_set_sealed, table_set_table) Hne Hf) as [?|(? & <- & <-)]; [by left|].
    right. split; [by apply floor_None|]. split; [done|]. split; [done|]. left. rewrite Hr, Hk. split; [done|by destruct s].
  - destruct (floor_insert_other s _ i e src k c src' k' f Hs Hs' He
      (table_set_table _ _) Hne Hf) as [?|(? & <- & <-)]; [by left|].
    right. split; [by apply floor_None|]. split; [done|]. split; [done|]. right. exists e.
    split; [by eapply list_elem_of_lookup_2|done].
Qed.

(** Only the table and the seal change. *)
Lemma commit_case_frame s src k c protect s' :
  commit_case s src k c protect s' →
  keys0 s' = keys0 s ∧ keys1 s' = keys1 s ∧ staged_key_sequence s' = staged_key_sequence s ∧
  replay_stale_secs s' = replay_stale_secs s.
Proof. destruct 1; by destruct s. Qed.

Lemma previous_sequence_frame s s' :
  keys1 s' = keys1 s → staged_key_sequence s' = staged_key_sequence s →
  previous_sequence s' = previous_sequence s.
Proof. unfold previous_sequence, staged_is. by intros -> ->. Qed.

Lemma reclaimable_previous s k k' :
  reclaimable_key_sequence s k = Some (Some k') → previous_sequence s = Some k'.
Proof. unfold reclaimable_key_sequence. intros H. by repeat case_match; simplify_eq. Qed.

(** A floor given up for the previous key cannot come back under it. *)
Lemma sealed_refuses s k' :
  previous_sequence s = Some k' → previous_key_replay_sealed s = true →
  reclaimable_key_sequence s k' = None.
Proof. unfold reclaimable_key_sequence. intros -> ->. by rewrite Z.eqb_refl. Qed.

(** Admission and commit agree. *)
Lemma fresh_commits s src k c reserved protect :
  fct_wf s → check_frame_counter_reserving s src k c reserved protect = Fresh →
  ∃ s', commit_frame_counter_for_key_protecting s src k c protect = (s', true).
Proof.
  intros Hs. unfold check_frame_counter_reserving, commit_frame_counter_for_key_protecting.
  rewrite find_position.
  destruct (position (fc_of src k) (frame_counter_table s)) as [i|] eqn:Hp; [eauto|]. simpl.
  destruct (reclaimable_key_sequence s k) as [rf|]; [|done]. unfold vec_push.
  destruct (length _ <? _)%nat eqn:Hl; [eauto|]. bool_simpl.
  destruct (match rf with Some _ => position _ _ | None => _ end) as [i|] eqn:Hr; [eauto|].
  assert (match rf with None => 0%nat | Some _ => count (of_previous rf) (frame_counter_table s) end = 0%nat) as ->.
  { destruct rf; [|done]. by apply count_zero. }
  replace (MAX_FRAME_COUNTER_ENTRIES - length (frame_counter_table s) + 0)%nat with 0%nat by lia.
  cbn [Nat.ltb Nat.leb]. intros Hf.
  destruct (max_position (stale_unprotected s protect) fc_silent_secs (frame_counter_table s)) as [[i m]|] eqn:Hm;
    [eauto|]. exfalso.
  apply max_position_None in Hm.
  assert (count (λ e, negb (of_previous rf e) && stale_unprotected s protect e) (frame_counter_table s) = 0%nat) as Hz.
  { apply count_zero. apply position_None. intros e He. rewrite position_None in Hm.
    rewrite (Hm e He). apply andb_false_r. }
  rewrite Hz, Nat.min_0_r in Hf. done.
Qed.

(** ** Traces of received frames and seconds *)
Inductive sec_event :=
| EvFrame (src : IeeeAddress) (k c : Z)
| EvSeconds (n : Z).

(** A frame is checked, verified elsewhere, and then committed. *)
Definition sec_receive (reserved : nat) (protect : IeeeAddress → bool) (s : NwkSecurity)
    (src : IeeeAddress) (k c : Z) : NwkSecurity * bool :=
  if bool_decide (check_frame_counter_reserving s src k c reserved protect = Fresh)
  then commit_frame_counter_for_key_protecting s src k c protect
  else (s, false).

(** The counters accepted in the domain [(src, k)], in order. *)
Fixpoint accepted_counters (reserved : nat) (protect : IeeeAddress → bool) (src : IeeeAddress) (k : Z)
    (s : NwkSecurity) (evs : list sec_event) : list Z :=
  match evs with
  | [] => []
  | EvSeconds n :: evs => accepted_counters reserved protect src k (age_replay_floors n s) evs
  | EvFrame src' k' c :: evs =>
      let '(s', ok) := sec_receive reserved protect s src' k' c in
      let rest := accepted_counters reserved protect src k s' evs in
      if ok && ieee_eqb src' src && (k' =? k) then c :: rest else rest
  end.

Lemma floor_age n s src k : floor (age_replay_floors n s) src k = floor s src k.
Proof.
  unfold floor, age_replay_floors. rewrite table_set_table, find_fmap_same by done.
  by destruct (List.find _ _).
Qed.

Lemma age_wf n s : fct_wf s → fct_wf (age_replay_floors n s).
Proof.
  intros Hs. unfold age_replay_floors. split; rewrite table_set_table.
  - rewrite length_fmap. apply Hs.
  - intros i j e e' Hi Hj Hse Hke. rewrite list_lookup_fmap in Hi, Hj.
    apply fmap_Some in Hi as (x & Hx & ->), Hj as (y & Hy & ->). by eapply (fct_wf_unique _ Hs).
Qed.

Lemma age_frame n s :
  keys1 (age_replay_floors n s) = keys1 s ∧
  staged_key_sequence (age_replay_floors n s) = staged_key_sequence s.
Proof. by destruct s. Qed.

Lemma check_fresh_floor s src k c reserved protect f :
  check_frame_counter_reserving s src k c reserved protect = Fresh → floor s src k = Some f → f < c.
Proof.
  unfold check_frame_counter_reserving, floor. destruct (List.find _ _) as [e|]; [|done].
  intros H [= <-]. destruct (fc_counter e <? c) eqn:Hc; [by bool_simpl|done].
Qed.

Lemma accepted_increasing reserved protect src k evs s :
  fct_wf s → protect src = true → previous_sequence s ≠ Some k →
  StronglySorted Z.lt (accepted_counters reserved protect src k s evs) ∧
  ∀ f, floor s src k = Some f → Forall (Z.lt f) (accepted_counters reserved protect src k s evs).
Proof.
  intros Hs Hprot. revert s Hs. induction evs as [|ev evs IH]; intros s Hs Hprev; simpl.
  { split; [constructor|]. constructor. }
  destruct ev as [src' k' c|n].
  - unfold sec_receive. case_bool_decide as Hfresh; simpl; [|by apply IH].
    destruct (fresh_commits _ _ _ _ _ _ Hs Hfresh) as (s' & Hcm). rewrite Hcm.
    pose proof (commit_cases _ _ _ _ _ _ Hcm) as Hc.
    pose proof (commit_case_wf _ _ _ _ _ _ Hs Hc) as Hs'.
    destruct (commit_case_frame _ _ _ _ _ _ Hc) as (_ & Hk1 & Hst & _).
    destruct (IH s' Hs') as [Hsort Hall]; [by rewrite (previous_sequence_frame s)|].
    cbn [andb]. destruct (ieee_eqb src' src && (k' =? k)) eqn:Hd.
    + unfold ieee_eqb in Hd. bool_simpl. subst.
      pose proof (commit_case_floor _ _ _ _ _ _ Hs Hc) as Hfl.
      assert (floor s' src k = Some c) as Hfc.
      { rewrite Hfl. destruct (floor s src k) as [f|] eqn:Hf; [|done].
        pose proof (check_fresh_floor _ _ _ _ _ _ _ Hfresh Hf). f_equal. lia. }
      specialize (Hall c Hfc). split; [by constructor|]. intros f Hf.
      pose proof (check_fresh_floor _ _ _ _ _ _ _ Hfresh Hf). constructor; [done|].
      eapply Forall_impl; [exact Hall|]. intros x ?. lia.
    + split; [done|]. intros f Hf. apply Hall.
      destruct (commit_case_other _ _ _ _ _ _ src k f Hs Hc) as [?|(_ & _ & _ & [[Hr _]|(e & _ & <- & _ & Hstale)])];
        [|done|done|..].
      * intros [= -> ->]. unfold ieee_eqb in Hd. by rewrite bool_decide_true, Z.eqb_refl in Hd.
      * by apply reclaimable_previous in Hr.
      * unfold stale_unprotected in Hstale. by rewrite Hprot, andb_false_r in Hstale.
  - destruct (IH (age_replay_floors n s)) as [Hsort Hall].
    + by apply age_wf.
    + destruct (age_frame n s). by rewrite (previous_sequence_frame s).
    + split; [done|]. intros f Hf. apply Hall. by rewrite floor_age.
Qed.

(** * Installed keys *)
Record keys_inv (s : NwkSecurity) : Prop := {
  ki_pair : keys0 s = None → keys1 s = None;
  ki_active : ∀ k, keys0 s = Some k → nk_active k = true;
  ki_inactive : ∀ k, keys1 s = Some k → nk_active k = false;
  ki_distinct : ∀ a b, keys0 s = Some a → keys1 s = Some b → nk_seq_number a ≠ nk_seq_number b;
  ki_staged : ∀ q, staged_key_sequence s = Some q → ∃ a b,
    keys0 s = Some a ∧ keys1 s = Some b ∧ nk_seq_number b = q ∧
    key_sequence_is_newer q (nk_seq_number a) = true }.

Inductive keys_reachable : NwkSecurity → Prop :=
| kr_new : keys_reachable sec_new
| kr_set key q s : keys_reachable s → keys_reachable (set_network_key key q s)
| kr_stage key q s : keys_reachable s → keys_reachable (stage_network_key key q s).1
| kr_restore key q s : keys_reachable s → keys_reachable (restore_previous_network_key key q s).1
| kr_activate q s : keys_reachable s → keys_reachable (activate_network_key q s).1
| kr_received q s : keys_reachable s → keys_reachable (activate_received_key q s).1
| kr_retire s : keys_reachable s → keys_reachable (retire_previous_network_key s).1
| kr_clear s : keys_reachable s → keys_reachable (clear_network_keys s)
| kr_commit src k c protect s :
    keys_reachable s →
    keys_reachable (commit_frame_counter_for_key_protecting s src k c protect).1
| kr_age n s : keys_reachable s → keys_reachable (age_replay_floors n s)
| kr_clear_source src s : keys_reachable s → keys_reachable (clear_frame_counters_for_source src s).

(** The invariant reads only the keys and the staged sequence. *)
Lemma keys_inv_eq s s' :
  keys0 s' = keys0 s → keys1 s' = keys1 s → staged_key_sequence s' = staged_key_sequence s →
  keys_inv s → keys_inv s'.
Proof. intros H0 H1 H2 [? ? ? ? ?]. split; rewrite ?H0, ?H1, ?H2; done. Qed.

Lemma keys_of_retain s :
  keys0 (retain_frame_counters_for_installed_keys s) = keys0 s ∧
  keys1 (retain_frame_counters_for_installed_keys s) = keys1 s ∧
  staged_key_sequence (retain_frame_counters_for_installed_keys s) = staged_key_sequence s.
Proof. by destruct s. Qed.

Lemma keys_of_clear q s :
  keys0 (clear_frame_counters_for_key q s) = keys0 s ∧
  keys1 (clear_frame_counters_for_key q s) = keys1 s ∧
  staged_key_sequence (clear_frame_counters_for_key q s) = staged_key_sequence s.
Proof. by destruct s. Qed.

Lemma slot_has_seq_true slot q :
  slot_has_seq slot q = true ↔ ∃ k, slot = Some k ∧ nk_seq_number k = q.
Proof. destruct slot as [k|]; simpl; [rewrite Z.eqb_eq|]; naive_solver. Qed.

Lemma keys_inv_swap s :
  keys_inv s → (∃ b, keys1 s = Some b) →
  keys_inv (unseal_previous_key (set_staged None (swap_keys s))).
Proof.
  intros [Hp Ha Hi Hd Hs] [b Hb]. destruct (keys0 s) as [a|] eqn:Ha0; [|by rewrite Hp in Hb].
  specialize (Hd _ _ eq_refl Hb). destruct s; simpl in *; subst.
  split; simpl; try done; naive_solver.
Qed.

Lemma keys_inv_replace key q s :
  keys_inv s → slot_has_seq (keys0 s) q = false → keys_inv (replace_network_key key q s).
Proof.
  intros Hinv Hq. unfold replace_network_key.
  destruct (slot_is (keys1 s) q key) eqn:Hslot.
  { apply keys_inv_swap; [done|]. unfold slot_is in Hslot. case_match; [eauto|done]. }
  destruct s as [[a|] k1 st ap t sl ss]; simpl in *; split; simpl; try done.
  - intros k [= <-]. done.
  - rewrite Hq. by intros k [= <-].
  - rewrite Hq. intros x y [= <-] [= <-]. simpl. bool_simpl. congruence.
  - intros k [= <-]. done.
Qed.

Lemma keys_inv_stage_slot key q s a :
  keys_inv s → keys0 s = Some a → nk_seq_number a ≠ q →
  ∀ st s', keys0 s' = keys0 s → keys1 s' = Some (mk_NetworkKeyEntry key q false) →
  staged_key_sequence s' = st →
  (st = None ∨ st = Some q ∧ key_sequence_is_newer q (nk_seq_number a) = true) → keys_inv s'.
Proof.
  intros [Hp Hac Hi Hd Hs] Ha Hne st s' H0 H1 H2 Hst. split; rewrite ?H0, ?H1, ?H2, ?Ha.
  - done.
  - intros k [= <-]. auto.
  - by intros k [= <-].
  - by intros x y [= <-] [= <-].
  - intros x ->. destruct Hst as [?|[[= ->] Hn]]; [done|]. eauto 10.
Qed.

Lemma keys_inv_set key q s : keys_inv s → keys_inv (set_network_key key q s).
Proof.
  intros Hinv. unfold set_network_key. destruct (keys0 s) as [a|] eqn:Ha.
  - destruct (nk_seq_number a =? q) eqn:Hq; [|apply keys_inv_replace; [done|by rewrite Ha]].
    assert (keys_inv (set_staged None
      (set_keys (Some (mk_NetworkKeyEntry key (nk_seq_number a) true)) (keys1 s) s))) as Hk.
    { destruct Hinv as [? ? ? Hd ?]. destruct s; simpl in *; subst. split; simpl; try done.
      - by intros k [= <-].
      - intros x y [= <-] Hy. simpl. by apply (Hd a y). }
    case_match; [|done]. eapply keys_inv_eq; [apply keys_of_clear..|done].
  - apply keys_inv_replace; [done|by rewrite Ha].
Qed.

Lemma keys_inv_stage key q s : keys_inv s → keys_inv (stage_network_key key q s).1.
Proof.
  intros Hinv. unfold stage_network_key. destruct (keys0 s) as [a|] eqn:Ha; [|by apply keys_inv_set].
  destruct (Z.eqb_spec (nk_seq_number a) q) as [Hq|Hq]; [done|].
  destruct (slot_is (keys1 s) q key) eqn:Hslot.
  - unfold slot_is in Hslot. destruct (keys1 s) as [b|] eqn:Hb; [|done].
    destruct (key_sequence_is_newer q (nk_seq_number a)) eqn:Hn; simpl; [|done].
    destruct Hinv as [Hp Hac Hi Hd Hs]. destruct s; simpl in *; subst. bool_simpl.
    split; simpl; try done. intros x [= <-]. eauto 10.
  - destruct (key_sequence_is_newer q (nk_seq_number a)) eqn:Hn; simpl; [|done].
    eapply (keys_inv_stage_slot key q s a Hinv Ha Hq (Some q)); [..|by right];
      destruct s; simpl in *; by subst.
Qed.

Lemma keys_inv_restore key q s : keys_inv s → keys_inv (restore_previous_network_key key q s).1.
Proof.
  intros Hinv. unfold restore_previous_network_key. destruct (keys0 s) as [a|] eqn:Ha; [|done].
  destruct (Z.eqb_spec (nk_seq_number a) q) as [Hq|Hq]; [done|].
  eapply (keys_inv_stage_slot key q s a Hinv Ha Hq None); [..|by left];
    destruct s; simpl in *; by subst.
Qed.

(** Activation on every branch. *)
Lemma activate_cases q s :
  keys_inv s →
  activate_network_key q s =
  if slot_has_seq (keys0 s) q then (s, true)
  else if staged_is s q then (unseal_previous_key (set_staged None (swap_keys s)), true)
  else (s, false).
Proof.
  intros [Hp Ha Hi Hd Hs]. unfold activate_network_key.
  destruct (slot_has_seq (keys0 s) q) eqn:H0.
  { f_equal. apply slot_has_seq_true in H0 as (a & H0 & _). specialize (Ha _ H0).
    destruct s as [k0 [b|] st ap t sl ss]; simpl in *; subst; unfold set_keys; simpl.
    - specialize (Hi b eq_refl). destruct a, b; simpl in *; by subst.
    - destruct a; simpl in *; by subst. }
  unfold staged_is in *. destruct (staged_key_sequence s) as [x|] eqn:Hst; [|done].
  destruct (Z.eqb_spec x q) as [->|]; [|done].
  destruct (Hs q eq_refl) as (a & b & Ha0 & Hb & Hbq & Hn).
  unfold active_key. rewrite Ha0, (Ha _ Ha0), Hn. simpl. rewrite Hb. simpl.
  by rewrite (proj2 (Z.eqb_eq _ _)).
Qed.

Lemma staged_slot q s : keys_inv s → staged_is s q = true → ∃ b, keys1 s = Some b ∧ nk_seq_number b = q.
Proof.
  intros Hinv. unfold staged_is. destruct (staged_key_sequence s) as [x|] eqn:Hx; [|done].
  intros ->%Z.eqb_eq. destruct (ki_staged _ Hinv q Hx) as (a & b & _ & ? & ? & _). eauto.
Qed.

Lemma keys_inv_activate q s : keys_inv s → keys_inv (activate_network_key q s).1.
Proof.
  intros Hinv. rewrite activate_cases by done. case_match; [done|].
  destruct (staged_is s q) eqn:Hst; [|done]. apply keys_inv_swap; [done|].
  destruct (staged_slot q s Hinv Hst) as (b & ? & _). eauto.
Qed.

Lemma keys_reachable_inv s : keys_reachable s → keys_inv s.
Proof.
  induction 1 as [|key q s _ IH|key q s _ IH|key q s _ IH|q s _ IH|q s _ IH|s _ IH|s _ IH
    |src k c protect s _ IH|n s _ IH|src s _ IH].
  - split; simpl; done.
  - by apply keys_inv_set.
  - by apply keys_inv_stage.
  - by apply keys_inv_restore.
  - by apply keys_inv_activate.
  - unfold activate_received_key. case_match; [by apply keys_inv_activate|done].
  - unfold retire_previous_network_key. destruct (staged_key_sequence s) eqn:Hst; [done|].
    destruct (keys1 s); [|done]. destruct IH as [Hp Ha Hi Hd Hs]. destruct s; simpl in *; subst.
    split; simpl; done.
  - destruct s. split; simpl; done.
  - destruct (commit_frame_counter_for_key_protecting s src k c protect) as [s' []] eqn:Hc.
    + apply commit_cases, commit_case_frame in Hc as (H0 & H1 & H2 & _). by eapply keys_inv_eq.
    + unfold commit_frame_counter_for_key_protecting in Hc. repeat case_match; simplify_eq; done.
  - eapply keys_inv_eq; [..|exact IH]; by destruct s.
  - eapply keys_inv_eq; [..|exact IH]; by destruct s.
Qed.

(** * Properties *)

(** The auxiliary header survives serialization and parsing, touching
    the first fourteen octets of the buffer only, and two headers have the
    same CCM* nonce only if they name the same source, the same frame counter
    and the same control bits above the security level: fresh counters give
    fresh nonces. *)
Theorem aux_header_roundtrip (h h' : NwkSecurityHeader) (buf : list Z) :
  aux_wf h → aux_wf h' → (NWK_AUX_HEADER_LEN <= length buf)%nat →
  (∃ buf', aux_serialize (E:=unit) h buf = Ok (buf', NWK_AUX_HEADER_LEN) ∧
     aux_parse buf' = Ok (h, NWK_AUX_HEADER_LEN) ∧
     drop NWK_AUX_HEADER_LEN buf' = drop NWK_AUX_HEADER_LEN buf ∧ length buf' = length buf) ∧
  (build_nonce h = build_nonce h' →
     sh_source_address h = sh_source_address h' ∧ sh_frame_counter h = sh_frame_counter h' ∧
     Z.shiftr (sh_security_control h) 3 = Z.shiftr (sh_security_control h') 3).
Proof.
  intros [Hc Hf [Hl Ho] Hk] [Hc' Hf' [Hl' Ho'] Hk'] Hb. unfold NWK_AUX_HEADER_LEN in *. split.
  - exists (written (aux_bytes h) buf). rewrite aux_serialize_eq by done.
    assert (length (aux_bytes h) = 14%nat) as H14 by (unfold aux_bytes; rewrite !length_app, Hl; done).
    split_and!; [done| | |apply length_written; lia].
    + unfold written. rewrite H14. generalize (drop 14 buf). intros r. unfold aux_parse.
      rewrite (proj2 (Nat.ltb_ge _ _)) by (rewrite length_app, H14; unfold NWK_AUX_HEADER_LEN; lia).
      destruct h as [sc fc src ks]; cbn [sh_source_address sh_frame_counter] in Hl, Hf.
      do 8 (destruct src as [|? src]; [done|]). destruct src; [|done].
      unfold aux_bytes, u32_to_le. simpl. by rewrite u32_from_to_le.
    + unfold written. rewrite drop_app_ge by lia. by rewrite H14, Nat.sub_diag, drop_0.
  - unfold build_nonce. intros Heq. apply app_inj_1 in Heq as [Hs Heq]; [|congruence].
    apply app_inj_1 in Heq as [Hu Heq]; [|done]. split_and!; [done|by apply u32_to_le_inj|].
    injection Heq as Heq.
    pose proof (range_forall 256 (λ x, Z.shiftr (Z.lor (Z.land x (not_u8 7)) 5) 3 =? Z.shiftr x 3) eq_refl) as Hr.
    pose proof (Hr _ Hc) as H1%Z.eqb_eq. pose proof (Hr _ Hc') as H2%Z.eqb_eq. congruence.
Qed.

Definition ex_header : NwkSecurityHeader := mk_NwkSecurityHeader 0x2D 0x01020304 (repeat 7 8) 1.

Lemma ex_header_wf : aux_wf ex_header.
Proof. split; [done|done|by apply (bool_decide_unpack (ieee_wf (repeat 7 8)))|done]. Qed.

Lemma aux_header_roundtrip_witness :
  ∃ buf', aux_serialize (E:=unit) ex_header (repeat 0 20) = Ok (buf', NWK_AUX_HEADER_LEN) ∧
          aux_parse buf' = Ok (ex_header, NWK_AUX_HEADER_LEN).
Proof.
  destruct (aux_header_roundtrip ex_header ex_header (repeat 0 20) ex_header_wf ex_header_wf) as [H _];
    [vm_compute; lia|]. destruct H as (buf' & H1 & H2 & _). exists buf'. split; [exact H1|exact H2].
Defined.

(** A frame secured with one header is recovered under the header as it
    travels, with the security level bits cleared on the air: the receiver
    obtains the payload, or nothing if its backend fails on some block; the
    sender gives up only on an oversized frame or a failing backend. *)
Theorem secured_frame_roundtrip {P C E} `{ForwardAesProvider P C E} (ready : P → Prop)
    (keyed : list Z → C → Prop) (aes : list Z → list Z → list Z)
    `{!LawfulProvider ready keyed aes} (p p' : P) (h : NwkSecurityHeader)
    (key nwk_header payload : list Z) :
  ready p → ready p' → aux_wf h → block_wf key → Forall is_u8 nwk_header → Forall is_u8 payload →
  let on_air := mk_NwkSecurityHeader (Z.land (sh_security_control h) (not_u8 0x07))
                  (sh_frame_counter h) (sh_source_address h) (sh_key_seq_number h) in
  match encrypt_with p nwk_header payload key h with
  | Ok (Some ciphertext) =>
      length ciphertext = (length payload + CCM_STAR_MIC_LEN)%nat ∧
      (decrypt_with p' nwk_header ciphertext key on_air = Ok (Some payload) ∨
       decrypt_with p' nwk_header ciphertext key on_air = Ok None ∧
       ∃ e, backend_fails (keyed key) e)
  | Ok None =>
      (CCM_STAR_MAX_PLAINTEXT_LEN < length payload)%nat ∨
      (CCM_STAR_MAX_AAD_LEN < length nwk_header)%nat ∨ ∃ e, backend_fails (keyed key) e
  | _ => False
  end.
Proof.
  intros Hp Hp' Hh Hk Hn Hpl on_air.
  assert (aux_wf on_air) as Hoa.
  { destruct Hh as [Hc ? ? ?]. split; simpl; try done.
    pose proof (range_forall 256 (λ x, bool_decide (is_u8 (Z.land x (not_u8 7)))) eq_refl _ Hc) as H'.
    by apply bool_decide_eq_true in H'. }
  assert (build_nonce on_air = build_nonce h) as Hnonce.
  { unfold build_nonce, on_air. simpl. by rewrite <- Z.land_assoc. }
  destruct (build_nonce_ok h Hh) as [Hnl Hno].
  pose proof (provider_lawful key Hk) as HL.
  unfold encrypt_with, decrypt_with. rewrite Hnonce.
  pose proof (ccm_encrypt_success (keyed key) (aes key) (build_nonce h) nwk_header payload
    (forward_cipher p key) (provider_keyed p key Hp Hk) Hnl Hno Hn Hpl) as He.
  destruct (ccm_star_encrypt_with _ _ _ _) as [[[ct|] c1]| |]; simpl; [|naive_solver..].
  destruct He as (-> & Hlp & Hla & Hlen). split; [done|].
  pose proof (ccm_decrypt_image (keyed key) (aes key) (build_nonce h) nwk_header payload
    (forward_cipher p' key) (provider_keyed p' key Hp' Hk) Hnl Hno Hn Hpl Hlp Hla) as Hd.
  destruct (ccm_star_decrypt_with _ _ _ _) as [[r c2]|e|]; simpl; [subst; by left| |done].
  right. split; [done|]. by exists e.
Qed.

Import ToyAes.

Lemma secured_frame_roundtrip_witness :
  match encrypt_with tt [1; 2] [3; 4; 5] ToyAes.toy_key ex_header with
  | Ok (Some ciphertext) => length ciphertext = (3 + CCM_STAR_MIC_LEN)%nat
  | _ => False
  end.
Proof.
  pose proof (secured_frame_roundtrip (P:=unit) (H:=ToyAes.toy_provider) (λ _ : unit, True)
    (λ key (c : list Z), c = key) ToyAes.aes
    (LawfulProvider0:=ToyAes.toy_lawful_provider) tt tt ex_header ToyAes.toy_key [1; 2] [3; 4; 5] I I
    ex_header_wf) as H.
  assert (match encrypt_with tt [1; 2] [3; 4; 5] ToyAes.toy_key ex_header with
          | Ok (Some _) => true | _ => false end = true) as Hok by (vm_compute; reflexivity).
  destruct (encrypt_with tt _ _ _ _) as [[ct|]|[]|]; [|discriminate Hok..].
  apply H; [split; [reflexivity|]|..]; by repeat constructor.
Defined.

(** A sequence is strictly ahead of another when it is 1 to 127 steps further
    on the circle of 256. *)
Lemma newer_ahead q a : key_sequence_is_newer q a = true ↔ 0 < (q - a) mod 256 < 128.
Proof.
  unfold key_sequence_is_newer, as_u8. pose proof (Z.mod_pos_bound (q - a) 256 ltac:(lia)) as Hm.
  rewrite andb_true_iff, negb_true_iff, Z.eqb_neq, Z.ltb_lt. lia.
Qed.

(** Staging beside an active key. *)
Lemma stage_cases s key q a :
  keys_inv s → keys0 s = Some a →
  let '(s', ok) := stage_network_key key q s in
  keys0 s' = Some a ∧
  (0 < (q - nk_seq_number a) mod 256 < 128 →
     ok = true ∧ staged_key_sequence s' = Some q ∧
     secondary_key s' = Some (mk_NetworkKeyEntry key q false)) ∧
  (~ 0 < (q - nk_seq_number a) mod 256 < 128 → s' = s).
Proof.
  intros Hinv Ha. unfold stage_network_key. rewrite Ha.
  destruct (Z.eqb_spec (nk_seq_number a) q) as [Hq|Hq].
  { subst q. rewrite Z.sub_diag. split_and!; [done|by intros []|done]. }
  pose proof (newer_ahead q (nk_seq_number a)) as Hiff.
  destruct (slot_is (keys1 s) q key) eqn:Hslot.
  - destruct (key_sequence_is_newer _ _) eqn:Hn; rewrite <- Hiff; [|done]. split_and!; [by destruct s|intros _|done].
    unfold slot_is in Hslot. destruct (keys1 s) as [[bk bq ba]|] eqn:Hb; [|done].
    pose proof (ki_inactive _ Hinv _ Hb) as Hba. bool_simpl. simpl in *. subst.
    destruct s; simpl in *; subst. repeat split. unfold key_eqb in *. bool_simpl. congruence.
  - destruct (key_sequence_is_newer _ _) eqn:Hn; simpl; rewrite <- Hiff; [|done]. split_and!; [by destruct s|intros _|done].
    by destruct s; simpl in *; subst.
Qed.

Lemma staged_is_true s q : staged_is s q = true ↔ staged_key_sequence s = Some q.
Proof. unfold staged_is. case_match; [rewrite Z.eqb_eq|]; naive_solver. Qed.

(** C30. In every reachable key state, activating a sequence succeeds exactly
    when it is active already or is the staged one.  A successful switch makes
    the key installed under that sequence the active one, keeps the former
    active key as the inactive secondary, is always to a sequence 1 to 127
    steps ahead of the active one modulo 256, and leaves nothing staged; a
    refusal changes nothing.  Staging a key beside an active one never changes
    which key is active: a sequence 1 to 127 steps ahead is staged with that
    very key, any other leaves the state as it was. *)
Theorem key_activation_spec (s : NwkSecurity) (q : Z) :
  keys_reachable s →
  let '(s', ok) := activate_network_key q s in
  (ok = true ↔ nk_seq_number <$> active_key s = Some q ∨ staged_key_sequence s = Some q) ∧
  (ok = false → s' = s) ∧
  (nk_seq_number <$> active_key s = Some q → s' = s) ∧
  (nk_seq_number <$> active_key s ≠ Some q → ok = true →
     ∃ a b, active_key s = Some a ∧ secondary_key s = Some b ∧ nk_seq_number b = q ∧
       0 < (q - nk_seq_number a) mod 256 < 128 ∧
       active_key s' = Some (mk_NetworkKeyEntry (nk_key b) q true) ∧
       secondary_key s' = Some (mk_NetworkKeyEntry (nk_key a) (nk_seq_number a) false) ∧
       staged_key_sequence s' = None) ∧
  (∀ key q' a, active_key s = Some a →
     let '(t, ok) := stage_network_key key q' s in
     active_key t = Some a ∧
     (0 < (q' - nk_seq_number a) mod 256 < 128 →
        ok = true ∧ staged_key_sequence t = Some q' ∧
        secondary_key t = Some (mk_NetworkKeyEntry key q' false)) ∧
     (~ 0 < (q' - nk_seq_number a) mod 256 < 128 → t = s)).
Proof.
  intros Hinv%keys_reachable_inv. rewrite activate_cases by done.
  assert (active_key s = keys0 s) as Hact.
  { unfold active_key. destruct (keys0 s) as [k|] eqn:Hk; [|done]. by rewrite (ki_active _ Hinv k Hk). }
  pose proof (λ key q' a, stage_cases s key q' a Hinv) as Hstage.
  assert (∀ key q' a, keys0 s = Some a →
     let '(t, ok) := stage_network_key key q' s in
     active_key t = Some a ∧
     (0 < (q' - nk_seq_number a) mod 256 < 128 →
        ok = true ∧ staged_key_sequence t = Some q' ∧
        secondary_key t = Some (mk_NetworkKeyEntry key q' false)) ∧
     (~ 0 < (q' - nk_seq_number a) mod 256 < 128 → t = s)) as Hst.
  { intros key q' a Ha. specialize (Hstage key q' a Ha). destruct (stage_network_key key q' s) as [t ok].
    destruct Hstage as (Ht & H1 & H2). split_and!; [|done..]. unfold active_key. rewrite Ht.
    by rewrite (ki_active _ Hinv a Ha). }
  clear Hstage. pose proof (slot_has_seq_true (keys0 s) q) as Hslot. pose proof (staged_is_true s q) as Hsd.
  assert (nk_seq_number <$> keys0 s = Some q ↔ slot_has_seq (keys0 s) q = true) as Hseq.
  { rewrite Hslot, fmap_Some. naive_solver. }
  destruct (slot_has_seq (keys0 s) q) eqn:H0; rewrite Hact; [split_and!; naive_solver|].
  destruct (staged_is s q) eqn:Hq; cbn [orb];
    [|split_and!; [|done|done|done|exact Hst]; split; [done|intros [?%Hseq|?%Hsd]; done]].
  assert (staged_key_sequence s = Some q) as Hsq by by apply Hsd.
  split_and!; [by split; [right|]|done|by intros ?%Hseq| |exact Hst]. intros _ _.
  destruct (ki_staged _ Hinv q Hsq) as (a & b & Ha & Hb & Hbq & Hn). exists a, b.
  apply newer_ahead in Hn. pose proof (ki_inactive _ Hinv b Hb) as Hbi.
  destruct s as [k0 k1]; simpl in *; subst. by destruct b, a.
Qed.

Definition ex_keys : NwkSecurity :=
  (stage_network_key (repeat 2 16) 0 (set_network_key (repeat 1 16) 255 sec_new)).1.

Lemma ex_keys_reachable : keys_reachable ex_keys.
Proof. unfold ex_keys. repeat constructor. Qed.

Lemma key_activation_spec_witness :
  let '(s', ok) := activate_network_key 0 ex_keys in
  ok = true ∧ active_key s' = Some (mk_NetworkKeyEntry (repeat 2 16) 0 true) ∧
  secondary_key s' = Some (mk_NetworkKeyEntry (repeat 1 16) 255 false).
Proof.
  pose proof (key_activation_spec ex_keys 0 ex_keys_reachable) as H.
  destruct (activate_network_key 0 ex_keys) as [s' ok]. destruct H as ([_ Hok] & _ & _ & H & _).
  specialize (Hok (or_intror eq_refl)). subst ok. split; [reflexivity|].
  destruct (H ltac:(discriminate) eq_refl) as (a & b & Ha & Hb & _ & _ & -> & -> & _).
  vm_compute in Ha, Hb. injection Ha as <-. injection Hb as <-. split; reflexivity.
Defined.

(** A verified counter that is committed raises the floor of its source
    and key to the maximum, so that counter and every lower one is a replay
    from then on.  An admitted frame can always be committed.  Another floor
    is lost only when a full table takes in a new source, and then only a
    floor of the retained previous key, which is refused as a new source
    afterwards, or one that is stale and not protected. *)
Theorem replay_commit_spec (s s' : NwkSecurity) (src : IeeeAddress) (k c : Z) (reserved : nat)
    (protect : IeeeAddress → bool) :
  fct_wf s →
  (check_frame_counter_reserving s src k c reserved protect = Fresh →
     ∃ s1, commit_frame_counter_for_key_protecting s src k c protect = (s1, true)) ∧
  (commit_frame_counter_for_key_protecting s src k c protect = (s', true) →
     fct_wf s' ∧
     floor s' src k = Some (match floor s src k with Some f => Z.max f c | None => c end) ∧
     (∀ c' reserved' protect', c' <= c →
        check_frame_counter_reserving s' src k c' reserved' protect' = Replay) ∧
     (∀ src' k' f, (src', k') ≠ (src, k) → floor s src' k' = Some f →
        floor s' src' k' = Some f ∨
        floor s' src' k' = None ∧ floor s src k = None ∧
        length (frame_counter_table s) = MAX_FRAME_COUNTER_ENTRIES ∧
        ((∀ c' reserved' protect',
            check_frame_counter_reserving s' src' k' c' reserved' protect' = TableFull) ∨
         ∃ e, e ∈ frame_counter_table s ∧ fc_source e = src' ∧ fc_key_sequence e = k' ∧
              replay_stale_secs s <= fc_silent_secs e ∧ protect src' = false))).
Proof.
  intros Hs. split; [by apply fresh_commits|]. intros Hc%commit_cases.
  pose proof (commit_case_wf _ _ _ _ _ _ Hs Hc) as Hs'.
  pose proof (commit_case_floor _ _ _ _ _ _ Hs Hc) as Hfl. split_and!; [done|done|..].
  - intros c' r' p' Hle. unfold check_frame_counter_reserving. unfold floor in Hfl at 1.
    apply fmap_Some in Hfl as (e & -> & He). rewrite (proj2 (Z.ltb_ge _ _)); [done|].
    rewrite <- He. case_match; lia.
  - intros src' k' f Hne Hf.
    destruct (commit_case_other _ _ _ _ _ _ src' k' f Hs Hc Hne Hf) as [?|(Hnone & Hn & Hfull & Hwhy)]; [by left|].
    right. split; [done|]. split; [done|]. split; [pose proof (fct_wf_length _ Hs); lia|].
    destruct Hwhy as [[Hr Hseal]|(e & He & <- & <- & Hst)].
    + left. intros c' r' p'. unfold check_frame_counter_reserving.
      unfold floor in Hn. apply fmap_None in Hn. rewrite Hn.
      destruct (commit_case_frame _ _ _ _ _ _ Hc) as (_ & H1 & H2 & _).
      rewrite sealed_refuses; [done| |done].
      rewrite (previous_sequence_frame s) by done. by eapply reclaimable_previous.
    + right. exists e. unfold stale_unprotected in Hst. bool_simpl. auto.
Qed.

Lemma sec_new_wf : fct_wf sec_new.
Proof. split; simpl; [unfold MAX_FRAME_COUNTER_ENTRIES; lia|done]. Qed.

Lemma replay_commit_spec_witness :
  let '(s', ok) := commit_frame_counter_for_key_protecting sec_new [1] 0 7 (λ _, false) in
  ok = true ∧ check_frame_counter_reserving s' [1] 0 7 0 (λ _, false) = Replay.
Proof.
  destruct (commit_frame_counter_for_key_protecting sec_new [1] 0 7 (λ _, false)) as [s' ok] eqn:Hc.
  assert (ok = true) as Hok by (vm_compute in Hc; injection Hc as _ <-; reflexivity).
  split; [exact Hok|]. rewrite Hok in Hc.
  apply (replay_commit_spec sec_new s' [1] 0 7 0 (λ _, false) sec_new_wf); [exact Hc|lia].
Defined.

(** C2. Whatever frames of whatever sources arrive and however long the
    silences between them, the counters accepted from a protected source (a
    parent or child) under a key that is not the retained previous one are
    strictly increasing and above its floor at the start: no frame of it is
    ever accepted twice. *)
Theorem no_replay_of_protected_source (s : NwkSecurity) (reserved : nat)
    (protect : IeeeAddress → bool) (src : IeeeAddress) (k : Z) (evs : list sec_event) :
  fct_wf s → protect src = true → previous_sequence s ≠ Some k →
  StronglySorted Z.lt (accepted_counters reserved protect src k s evs) ∧
  ∀ f, floor s src k = Some f → Forall (Z.lt f) (accepted_counters reserved protect src k s evs).
Proof. apply accepted_increasing. Qed.

Lemma no_replay_of_protected_source_witness :
  let evs := [EvFrame [1] 0 5; EvFrame [2] 0 9; EvSeconds 60000; EvFrame [1] 0 5; EvFrame [1] 0 6] in
  accepted_counters 0 (λ a, bool_decide (a = [1])) [1] 0 sec_new evs = [5; 6] ∧
  StronglySorted Z.lt (accepted_counters 0 (λ a, bool_decide (a = [1])) [1] 0 sec_new evs).
Proof.
  split; [vm_compute; reflexivity|].
  apply (no_replay_of_protected_source sec_new 0 (λ a, bool_decide (a = [1])) [1] 0);
    [apply sec_new_wf|reflexivity|discriminate].
Defined.
