(* ===== verification/ApsFrames.v ===== *)
(** APS frame construction and parsing: [zigbee-aps/src/frames.rs].

    The presence of every addressing field depends on the frame type, the
    delivery mode and the acknowledgement format, and the extended header of a
    fragment has three shapes.  [encode_aps_header] is the grammar the parser
    is compared with; its argument [r] is the value of the six reserved bits
    of the extended frame control, which the parser ignores. *)
From S2P Require Import Prelude.
From S2P Require Import ZigbeeTypes.
From S2P Require Import NwkFrames.

Local Open Scope Z_scope.

Inductive ApsFrameType := AftData | AftCommand | AftAck | AftInterPan.

Definition aps_frame_type_from_u8 (v : Z) : option ApsFrameType :=
  match v with
  | 0x00 => Some AftData
  | 0x01 => Some AftCommand
  | 0x02 => Some AftAck
  | 0x03 => Some AftInterPan
  | _ => None
  end.

Inductive ApsDeliveryMode := AdmUnicast | AdmIndirect | AdmBroadcast | AdmGroup.

#[export] Instance ApsFrameType_eq_dec : EqDecision ApsFrameType.
Proof. solve_decision. Defined.
#[export] Instance ApsDeliveryMode_eq_dec : EqDecision ApsDeliveryMode.
Proof. solve_decision. Defined.

Definition aps_delivery_mode_from_u8 (v : Z) : option ApsDeliveryMode :=
  match v with
  | 0x00 => Some AdmUnicast
  | 0x01 => Some AdmIndirect
  | 0x02 => Some AdmBroadcast
  | 0x03 => Some AdmGroup
  | _ => None
  end.

Record ApsFrameControl := mk_ApsFrameControl {
  afc_frame_type : Z;
  afc_delivery_mode : Z;
  afc_ack_format : bool;
  afc_security : bool;
  afc_ack_request : bool;
  afc_extended_header : bool }.

#[export] Instance ApsFrameControl_eq_dec : EqDecision ApsFrameControl.
Proof. solve_decision. Defined.

Definition aps_frame_control_parse (raw : Z) : ApsFrameControl :=
  mk_ApsFrameControl (Z.land raw 0x03) (Z.land (Z.shiftr raw 2) 0x03)
    (has_bits (Z.shiftr raw 4) 1) (has_bits (Z.shiftr raw 5) 1)
    (has_bits (Z.shiftr raw 6) 1) (has_bits (Z.shiftr raw 7) 1).

Definition aps_frame_control_serialize (s : ApsFrameControl) : Z :=
  let fc := 0 in
  let fc := Z.lor fc (Z.land (afc_frame_type s) 0x03) in
  let fc := Z.lor fc (Z.shiftl (Z.land (afc_delivery_mode s) 0x03) 2) in
  let fc := if afc_ack_format s then Z.lor fc (Z.shiftl 1 4) else fc in
  let fc := if afc_security s then Z.lor fc (Z.shiftl 1 5) else fc in
  let fc := if afc_ack_request s then Z.lor fc (Z.shiftl 1 6) else fc in
  let fc := if afc_extended_header s then Z.lor fc (Z.shiftl 1 7) else fc in
  fc.

Record ApsExtendedHeader := mk_ApsExtendedHeader {
  aeh_fragmentation : Z;
  aeh_block_number : Z;
  aeh_ack_bitfield : option Z }.

Definition FRAG_NONE : Z := 0x00.
Definition FRAG_FIRST : Z := 0x01.
Definition FRAG_SUBSEQUENT : Z := 0x02.
Definition FRAG_RESERVED : Z := 0x03.

Record ApsHeader := mk_ApsHeader {
  ah_frame_control : ApsFrameControl;
  ah_dst_endpoint : option Z;
  ah_group_address : option Z;
  ah_cluster_id : option Z;
  ah_profile_id : option Z;
  ah_src_endpoint : option Z;
  ah_aps_counter : Z;
  ah_extended_header : option ApsExtendedHeader }.

(** [if data.len() <= offset { return None; } let b = data[offset];] *)
Definition read_octet (data : list Z) (offset : nat) : fallible (Z * nat) :=
  if (length data <=? offset)%nat then Err tt else
  b ← index data offset; Ok (b, (offset + 1)%nat).

Definition read_octet_if (present : bool) (data : list Z) (offset : nat)
    : fallible (option Z * nat) :=
  if present then '(b, offset) ← read_octet data offset; Ok (Some b, offset)
  else Ok (None, offset).

(** [if data.len() < offset + 2 { return None; }] and a 16-bit field. *)
Definition read_word_if (present : bool) (data : list Z) (offset : nat)
    : fallible (option Z * nat) :=
  if present then
    if (length data <? offset + 2)%nat then Err tt else
    v ← read_u16 data offset; Ok (Some v, (offset + 2)%nat)
  else Ok (None, offset).

(** The extended header that follows the APS counter. *)
Definition read_extended_header (frame_type : ApsFrameType) (data : list Z) (offset : nat)
    : fallible (ApsExtendedHeader * nat) :=
  '(ext_fc, offset) ← read_octet data offset;
  let fragmentation := Z.land ext_fc 0x03 in
  if fragmentation =? FRAG_RESERVED then Err tt else
  if negb (fragmentation =? FRAG_NONE) then
    '(bn, offset) ← read_octet data offset;
    '(abf, offset) ← read_octet_if (bool_decide (frame_type = AftAck)) data offset;
    Ok (mk_ApsExtendedHeader fragmentation bn abf, offset)
  else Ok (mk_ApsExtendedHeader fragmentation 0 None, offset).

(** Whether the frame carries endpoints, cluster and profile. *)
Definition aps_addressed (frame_type : ApsFrameType) (ack_format : bool) : bool :=
  match frame_type with
  | AftData => true
  | AftAck => negb ack_format
  | AftCommand | AftInterPan => false
  end.

Definition aps_has_dst_endpoint (delivery_mode : ApsDeliveryMode) : bool :=
  match delivery_mode with AdmUnicast | AdmBroadcast => true | _ => false end.

Definition aps_header_parse (data : list Z) : fallible (ApsHeader * nat) :=
  if (length data =? 0)%nat then Err tt else
  raw ← index data 0;
  let fc := aps_frame_control_parse raw in
  let offset := 1%nat in
  frame_type ← try_opt (aps_frame_type_from_u8 (afc_frame_type fc));
  delivery_mode ← try_opt (aps_delivery_mode_from_u8 (afc_delivery_mode fc));
  let addressed := aps_addressed frame_type (afc_ack_format fc) in
  '(dst_endpoint, offset) ←
    read_octet_if (addressed && aps_has_dst_endpoint delivery_mode) data offset;
  '(group_address, offset) ← read_word_if (bool_decide (delivery_mode = AdmGroup)) data offset;
  '(cluster_id, offset) ← read_word_if addressed data offset;
  '(profile_id, offset) ← read_word_if addressed data offset;
  '(src_endpoint, offset) ← read_octet_if addressed data offset;
  '(aps_counter, offset) ← read_octet data offset;
  '(extended_header, offset) ←
    (if afc_extended_header fc then
       '(ext, offset) ← read_extended_header frame_type data offset; Ok (Some ext, offset)
     else Ok (None, offset));
  Ok (mk_ApsHeader fc dst_endpoint group_address cluster_id profile_id src_endpoint
        aps_counter extended_header, offset).

(** [if let Some(v) = field { buf[offset] = v; offset += 1; }], and the
    two-octet form. *)
Definition put_octet_opt {E} (v : option Z) (buf : list Z) (offset : nat) : outcome E (list Z * nat) :=
  match v with
  | Some b => buf ← put buf offset b; Ok (buf, (offset + 1)%nat)
  | None => Ok (buf, offset)
  end.

Definition put_word_opt {E} (v : option Z) (buf : list Z) (offset : nat) : outcome E (list Z * nat) :=
  match v with
  | Some w => buf ← put_u16 buf offset w; Ok (buf, (offset + 2)%nat)
  | None => Ok (buf, offset)
  end.

Definition aps_header_serialize {E} (h : ApsHeader) (buf : list Z) : outcome E (list Z * nat) :=
  let offset := 0%nat in
  buf ← put buf offset (aps_frame_control_serialize (ah_frame_control h));
  let offset := (offset + 1)%nat in
  '(buf, offset) ← put_octet_opt (ah_dst_endpoint h) buf offset;
  '(buf, offset) ← put_word_opt (ah_group_address h) buf offset;
  '(buf, offset) ← put_word_opt (ah_cluster_id h) buf offset;
  '(buf, offset) ← put_word_opt (ah_profile_id h) buf offset;
  '(buf, offset) ← put_octet_opt (ah_src_endpoint h) buf offset;
  buf ← put buf offset (ah_aps_counter h);
  let offset := (offset + 1)%nat in
  match ah_extended_header h with
  | Some ext =>
      buf ← put buf offset (Z.land (aeh_fragmentation ext) 0x03);
      let offset := (offset + 1)%nat in
      if negb (aeh_fragmentation ext =? FRAG_NONE) then
        buf ← put buf offset (aeh_block_number ext);
        let offset := (offset + 1)%nat in
        if afc_frame_type (ah_frame_control h) =? 0x02 then
          buf ← put buf offset (default 0 (aeh_ack_bitfield ext));
          Ok (buf, (offset + 1)%nat)
        else Ok (buf, offset)
      else Ok (buf, offset)
  | None => Ok (buf, offset)
  end.

Inductive ApsCommandId :=
| AcTransportKey | AcUpdateDevice | AcRemoveDevice | AcRequestKey | AcSwitchKey
| AcTunnel | AcVerifyKey | AcConfirmKey.

Definition aps_command_id_from_u8 (v : Z) : option ApsCommandId :=
  match v with
  | 0x05 => Some AcTransportKey
  | 0x06 => Some AcUpdateDevice
  | 0x07 => Some AcRemoveDevice
  | 0x08 => Some AcRequestKey
  | 0x09 => Some AcSwitchKey
  | 0x0E => Some AcTunnel
  | 0x0F => Some AcVerifyKey
  | 0x10 => Some AcConfirmKey
  | _ => None
  end.

(** * The grammar *)
Definition encode_word_opt (v : option Z) : list Z :=
  match v with Some w => u16_to_le w | None => [] end.

Definition encode_extended (r : Z) (e : option ApsExtendedHeader) : list Z :=
  match e with
  | Some e =>
      (aeh_fragmentation e + 4 * r)
      :: (if aeh_fragmentation e =? FRAG_NONE then []
          else aeh_block_number e :: option_list (aeh_ack_bitfield e))
  | None => []
  end.

Definition encode_aps_header (r : Z) (h : ApsHeader) : list Z :=
  [aps_frame_control_serialize (ah_frame_control h)]
  ++ option_list (ah_dst_endpoint h) ++ encode_word_opt (ah_group_address h)
  ++ encode_word_opt (ah_cluster_id h) ++ encode_word_opt (ah_profile_id h)
  ++ option_list (ah_src_endpoint h) ++ [ah_aps_counter h]
  ++ encode_extended r (ah_extended_header h).

(** A field is present exactly when announced and is in range. *)
Definition opt_field (range : Z → Prop) (present : bool) (v : option Z) : Prop :=
  match v with Some x => present = true ∧ range x | None => present = false end.

Definition extended_wf (is_ack : bool) (e : ApsExtendedHeader) : Prop :=
  0 <= aeh_fragmentation e < 3 ∧
  if aeh_fragmentation e =? FRAG_NONE
  then aeh_block_number e = 0 ∧ aeh_ack_bitfield e = None
  else is_u8 (aeh_block_number e) ∧ opt_field is_u8 is_ack (aeh_ack_bitfield e).

Definition aps_header_wf (h : ApsHeader) : Prop :=
  let fc := ah_frame_control h in
  let addressed := (afc_frame_type fc =? 0) || ((afc_frame_type fc =? 2) && negb (afc_ack_format fc)) in
  0 <= afc_frame_type fc < 4 ∧ 0 <= afc_delivery_mode fc < 4 ∧
  opt_field is_u8 (addressed && ((afc_delivery_mode fc =? 0) || (afc_delivery_mode fc =? 2)))
    (ah_dst_endpoint h) ∧
  opt_field is_u16 (afc_delivery_mode fc =? 3) (ah_group_address h) ∧
  opt_field is_u16 addressed (ah_cluster_id h) ∧
  opt_field is_u16 addressed (ah_profile_id h) ∧
  opt_field is_u8 addressed (ah_src_endpoint h) ∧
  is_u8 (ah_aps_counter h) ∧
  match ah_extended_header h with
  | Some e => afc_extended_header fc = true ∧ extended_wf (afc_frame_type fc =? 2) e
  | None => afc_extended_header fc = false
  end.

(** ** Frame control octet *)
Lemma aps_frame_control_serialize_parse raw :
  is_u8 raw → aps_frame_control_serialize (aps_frame_control_parse raw) = raw.
Proof.
  intros Hraw. apply Z.eqb_eq. revert raw Hraw.
  apply (range_forall 256 (λ raw, aps_frame_control_serialize (aps_frame_control_parse raw) =? raw)).
  vm_compute. reflexivity.
Qed.

Lemma aps_frame_control_parse_serialize fc :
  0 <= afc_frame_type fc < 4 → 0 <= afc_delivery_mode fc < 4 →
  aps_frame_control_parse (aps_frame_control_serialize fc) = fc ∧
  is_u8 (aps_frame_control_serialize fc).
Proof.
  destruct fc as [ft dm af se ar eh]; simpl. intros Hft Hdm.
  assert (forallb (λ b, bool_decide
    (aps_frame_control_parse (aps_frame_control_serialize (mk_ApsFrameControl ft dm af se ar eh))
       = mk_ApsFrameControl ft dm af se ar eh ∧
     is_u8 (aps_frame_control_serialize (mk_ApsFrameControl ft dm af se ar eh)))) [tt] = true) as H.
  { revert ft dm Hft Hdm. apply (range_forall2 4 4 (λ ft dm, _)).
    destruct af, se, ar, eh; vm_compute; reflexivity. }
  simpl in H. apply andb_true_iff in H as [H _]. by apply bool_decide_eq_true in H.
Qed.

Lemma aps_frame_control_parse_range raw :
  0 <= afc_frame_type (aps_frame_control_parse raw) < 4 ∧
  0 <= afc_delivery_mode (aps_frame_control_parse raw) < 4.
Proof.
  simpl. change 3 with (2 ^ 2 - 1). rewrite !land_ones_mod by lia. simpl.
  split; apply Z.mod_pos_bound; lia.
Qed.

(** The two-bit fields decode to the constructor of the same number. *)
Lemma aps_frame_type_decode v :
  0 <= v < 4 →
  ∃ ft, aps_frame_type_from_u8 v = Some ft ∧
    (∀ b, aps_addressed ft b = (v =? 0) || ((v =? 2) && negb b)) ∧
    bool_decide (ft = AftAck) = (v =? 2).
Proof.
  intros Hv. assert (v = 0 ∨ v = 1 ∨ v = 2 ∨ v = 3) as [-> | [-> | [-> | ->]]] by lia;
    eexists; by split_and!; [|intros []|].
Qed.

Lemma aps_delivery_mode_decode v :
  0 <= v < 4 →
  ∃ dm, aps_delivery_mode_from_u8 v = Some dm ∧
    aps_has_dst_endpoint dm = (v =? 0) || (v =? 2) ∧ bool_decide (dm = AdmGroup) = (v =? 3).
Proof.
  intros Hv. assert (v = 0 ∨ v = 1 ∨ v = 2 ∨ v = 3) as [-> | [-> | [-> | ->]]] by lia;
    by eexists.
Qed.

(** ** Readers against the grammar *)
Section Readers.
Context (data : list Z).
Hypothesis Hoct : Forall is_u8 data.

Lemma read_octet_iff off b off' :
  read_octet data off = Ok (b, off') ↔ is_u8 b ∧ slice_get data off off' = Some [b].
Proof using Hoct.
  unfold read_octet. destruct (_ <=? _)%nat eqn:Hl; bool_simpl.
  - split; [done|]. intros [_ Hs]. apply slice_get_end in Hs as He.
    apply slice_get_bound in Hs. simpl in He. lia.
  - rewrite bind_Ok. split.
    + intros (x & Hx & [= <- <-]). split; [by eapply index_u8|by apply index_slice in Hx].
    + intros [Hb Hs]. pose proof (slice_get_end _ _ _ _ Hs) as ->. simpl in Hs.
      exists b. split; [by apply index_slice|done].
Qed.

(** An absent field reads nothing. *)
Lemma read_absent {A} (off off' : nat) (v : option A) :
  (off <= length data)%nat →
  Ok (E:=unit) (@None A, off) = Ok (v, off') ↔ v = None ∧ slice_get data off off' = Some [].
Proof using.
  intros Hoff. split.
  - intros [= <- <-]. split; [done|]. by apply slice_get_nil.
  - intros [-> Hs]. apply slice_get_end in Hs. simpl in Hs. by rewrite Hs, Nat.add_0_r.
Qed.

Lemma read_octet_if_iff p off v off' :
  (off <= length data)%nat →
  read_octet_if p data off = Ok (v, off') ↔
  opt_field is_u8 p v ∧ slice_get data off off' = Some (option_list v).
Proof using Hoct.
  intros Hoff. unfold read_octet_if. destruct p.
  - rewrite bind_Ok. split.
    + intros ([b n] & [Hb Hs]%read_octet_iff & [= <- <-]). done.
    + intros [Hw Hs]. destruct v as [b|]; [|done]. exists (b, off'). split; [|done].
      apply read_octet_iff. split; [apply Hw|done].
  - rewrite read_absent by done. destruct v; simpl; intuition congruence.
Qed.

Lemma read_word_if_iff p off v off' :
  (off <= length data)%nat →
  read_word_if p data off = Ok (v, off') ↔
  opt_field is_u16 p v ∧ slice_get data off off' = Some (encode_word_opt v).
Proof using Hoct.
  intros Hoff. unfold read_word_if. destruct p.
  - destruct (_ <? _)%nat eqn:Hl; bool_simpl.
    + split; [done|]. intros [Hw Hs]. destruct v; [|done].
      apply slice_get_end in Hs as He. apply slice_get_bound in Hs. simpl in He. lia.
    + rewrite bind_Ok. split.
      * intros (x & [Hx Hs]%read_u16_iff & [= <- <-]); done.
      * intros [Hw Hs]. destruct v as [w|]; [|done]. destruct Hw as [_ Hw].
        pose proof (slice_get_end _ _ _ _ Hs) as ->. exists w. split; [|done].
        by apply read_u16_iff.
  - rewrite read_absent by done. destruct v; simpl; intuition congruence.
Qed.

Lemma ext_fc_split x :
  is_u8 x → x = Z.land x 3 + 4 * (x / 4) ∧ 0 <= x / 4 < 64 ∧ 0 <= Z.land x 3 < 4.
Proof using.
  intros Hx. change 3 with (2 ^ 2 - 1). rewrite land_ones_mod by lia. ulia.
Qed.

Lemma ext_fc_join f r : 0 <= f < 4 → Z.land (f + 4 * r) 3 = f.
Proof using. intros. change 3 with (2 ^ 2 - 1). rewrite land_ones_mod by lia. ulia. Qed.

Lemma read_extended_header_iff ft off e off' :
  read_extended_header ft data off = Ok (e, off') ↔
  extended_wf (bool_decide (ft = AftAck)) e ∧
  ∃ r, 0 <= r < 64 ∧ slice_get data off off' = Some (encode_extended r (Some e)).
Proof using Hoct.
  unfold read_extended_header. rewrite bind_Ok. split.
  - intros ([x n] & [Hx Hs]%read_octet_iff & H). cbv zeta beta iota in H.
    destruct (ext_fc_split x Hx) as (Hxe & Hr & Hf).
    pose proof (slice_get_bound _ _ _ _ Hs) as Hb. pose proof (slice_get_end _ _ _ _ Hs) as Hn.
    simpl in Hn. subst n.
    destruct (_ =? FRAG_RESERVED) eqn:Hres; [done|]. bool_simpl. unfold FRAG_RESERVED in Hres.
    destruct (Z.land x 3 =? FRAG_NONE) eqn:Hnone; cbn [negb] in H.
    + injection H as <- <-. unfold extended_wf; simpl. rewrite Hnone. split_and!; [lia|lia|done|done|].
      exists (x / 4). split; [done|]. rewrite <- Hxe. done.
    + apply bind_Ok in H as ([bn n2] & [Hbn Hs2]%read_octet_iff & H).
      apply bind_Ok in H as ([abf n3] & [Hw Hs3]%read_octet_if_iff & [= <- <-]);
        [|by eapply slice_get_bound].
      unfold extended_wf; simpl. rewrite Hnone. split_and!; [lia..|done|done|].
      exists (x / 4). split; [done|]. rewrite <- Hxe.
      apply (slice_get_app_iff _ _ _ [x] (bn :: _)). split; [done|].
      pose proof (slice_get_end _ _ _ _ Hs2) as ->.
      by apply (slice_get_app_iff _ _ _ [bn]).
  - destruct e as [f bn abf]. unfold extended_wf; simpl. intros ((Hf & Hw) & r & Hr & Hs).
    apply (slice_get_app_iff _ _ _ [f + 4 * r]) in Hs as [Hs1 Hs]. simpl length in *.
    exists (f + 4 * r, (off + 1)%nat). split; [apply read_octet_iff; split; [ulia|done]|].
    cbv beta iota zeta. rewrite ext_fc_join by lia.
    rewrite (proj2 (Z.eqb_neq f FRAG_RESERVED)) by (unfold FRAG_RESERVED; lia).
    destruct (f =? FRAG_NONE); cbn [negb].
    + destruct Hw as [-> ->]. apply slice_get_end in Hs. simpl in Hs.
      by replace off' with (off + 1)%nat by lia.
    + destruct Hw as [Hbn Hw]. apply (slice_get_app_iff _ _ _ [bn]) in Hs as [Hs2 Hs].
      simpl length in *. apply bind_Ok. exists (bn, (off + 1 + 1)%nat).
      split; [by apply read_octet_iff|]. apply bind_Ok. exists (abf, off'). split; [|done].
      apply read_octet_if_iff; [by eapply slice_get_bound|done].
Qed.

Lemma read_extended_if_iff (p : bool) ft off e off' :
  (off <= length data)%nat →
  (if p then '(x, off) ← read_extended_header ft data off; Ok (Some x, off) else Ok (None, off))
  = Ok (e, off') ↔
  match e with
  | Some e => p = true ∧ extended_wf (bool_decide (ft = AftAck)) e
  | None => p = false end ∧
  ∃ r, 0 <= r < 64 ∧ slice_get data off off' = Some (encode_extended r e).
Proof using Hoct.
  intros Hoff. destruct p.
  - rewrite bind_Ok. split.
    + intros ([x n] & H & [= <- <-]). apply read_extended_header_iff in H. tauto.
    + intros [Hw Hs]. destruct e as [x|]; [|done]. exists (x, off'). split; [|done].
      apply read_extended_header_iff. tauto.
  - rewrite read_absent by done. destruct e; simpl.
    + intuition congruence.
    + split; [intros [_ Hs]; split; [done|exists 0; split; [lia|done]]|].
      intros [_ (r & _ & Hs)]. done.
Qed.
End Readers.

(** ** The header parser accepts exactly the grammar *)
Lemma aps_header_parse_sound data h n :
  Forall is_u8 data → aps_header_parse data = Ok (h, n) →
  aps_header_wf h ∧ ∃ r, 0 <= r < 64 ∧ slice_get data 0 n = Some (encode_aps_header r h).
Proof.
  intros Hoct. unfold aps_header_parse. destruct (_ =? _)%nat eqn:Hlen; [done|]; bool_simpl.
  intros (raw & Hraw & H)%bind_Ok. cbv zeta in H. pose proof (index_u8 _ Hoct _ _ Hraw) as Hu.
  apply index_slice in Hraw. destruct (aps_frame_control_parse_range raw) as [Hft Hdm].
  destruct (aps_frame_type_decode _ Hft) as (ft & Hfte & Haddr & Hack).
  destruct (aps_delivery_mode_decode _ Hdm) as (dm & Hdme & Hdst & Hgrp).
  rewrite Hfte, Hdme in H. cbn [try_opt mbind outcome_bind] in H. rewrite Haddr, Hdst, Hgrp in H.
  apply bind_Ok in H as ([v1 n1] & [Hw1 Hs1]%read_octet_if_iff & H); [|done|lia].
  pose proof (slice_get_bound _ _ _ _ Hs1) as Hb1.
  apply bind_Ok in H as ([v2 n2] & [Hw2 Hs2]%read_word_if_iff & H); [|done..].
  pose proof (slice_get_bound _ _ _ _ Hs2) as Hb2.
  apply bind_Ok in H as ([v3 n3] & [Hw3 Hs3]%read_word_if_iff & H); [|done..].
  pose proof (slice_get_bound _ _ _ _ Hs3) as Hb3.
  apply bind_Ok in H as ([v4 n4] & [Hw4 Hs4]%read_word_if_iff & H); [|done..].
  pose proof (slice_get_bound _ _ _ _ Hs4) as Hb4.
  apply bind_Ok in H as ([v5 n5] & [Hw5 Hs5]%read_octet_if_iff & H); [|done..].
  apply bind_Ok in H as ([c n6] & [Hw6 Hs6]%read_octet_iff & H); [|done..].
  pose proof (slice_get_bound _ _ _ _ Hs6) as Hb6.
  apply bind_Ok in H as ([e n7] & [Hw7 (r & Hr & Hs7)]%read_extended_if_iff & [= <- <-]); [|done..].
  rewrite Hack in Hw7. split.
  - unfold aps_header_wf. cbn [ah_frame_control ah_dst_endpoint ah_group_address ah_cluster_id
      ah_profile_id ah_src_endpoint ah_aps_counter ah_extended_header]. cbv zeta.
    split_and!; first [done | lia].
  - exists r. split; [done|]. unfold encode_aps_header. cbn [ah_frame_control ah_dst_endpoint
      ah_group_address ah_cluster_id ah_profile_id ah_src_endpoint ah_aps_counter ah_extended_header].
    rewrite aps_frame_control_serialize_parse by done.
    pose proof (slice_get_end _ _ _ _ Hs1) as ->. pose proof (slice_get_end _ _ _ _ Hs2) as ->.
    pose proof (slice_get_end _ _ _ _ Hs3) as ->. pose proof (slice_get_end _ _ _ _ Hs4) as ->.
    pose proof (slice_get_end _ _ _ _ Hs5) as ->. pose proof (slice_get_end _ _ _ _ Hs6) as ->.
    do 7 (apply slice_get_app_iff; split; [eassumption|]). eassumption.
Qed.

Lemma aps_header_parse_complete data h n r :
  Forall is_u8 data → aps_header_wf h → 0 <= r < 64 →
  slice_get data 0 n = Some (encode_aps_header r h) → aps_header_parse data = Ok (h, n).
Proof.
  intros Hoct Hwf Hr Hs. destruct h as [fc v1 v2 v3 v4 v5 c e].
  unfold aps_header_wf in Hwf; simpl in Hwf.
  destruct Hwf as (Hft & Hdm & Hw1 & Hw2 & Hw3 & Hw4 & Hw5 & Hw6 & Hw7).
  unfold encode_aps_header in Hs. cbn [ah_frame_control ah_dst_endpoint
      ah_group_address ah_cluster_id ah_profile_id ah_src_endpoint ah_aps_counter ah_extended_header] in Hs.
  destruct (aps_frame_control_parse_serialize fc Hft Hdm) as [Hfc Hu].
  destruct (aps_frame_type_decode _ Hft) as (ft & Hfte & Haddr & Hack).
  destruct (aps_delivery_mode_decode _ Hdm) as (dm & Hdme & Hdst & Hgrp).
  apply slice_get_app_iff in Hs as [Hs0 Hs]. cbn [length Nat.add] in Hs0, Hs.
  pose proof (slice_get_bound _ _ _ _ Hs0) as Hb.
  do 6 (apply slice_get_app_iff in Hs as [? Hs]).
  unfold aps_header_parse. destruct (_ =? _)%nat eqn:Hl; bool_simpl; [lia|].
  apply bind_Ok. eexists. split; [apply index_slice; eassumption|]. cbv zeta.
  rewrite Hfc, Hfte, Hdme. cbn [try_opt mbind outcome_bind]. rewrite Haddr, Hdst, Hgrp.
  apply bind_Ok. eexists (_, _). split; [apply read_octet_if_iff; [done..|eauto]|].
  apply bind_Ok. eexists (_, _). split; [apply read_word_if_iff; [done|by eapply slice_get_bound|eauto]|].
  apply bind_Ok. eexists (_, _). split; [apply read_word_if_iff; [done|by eapply slice_get_bound|eauto]|].
  apply bind_Ok. eexists (_, _). split; [apply read_word_if_iff; [done|by eapply slice_get_bound|eauto]|].
  apply bind_Ok. eexists (_, _). split; [apply read_octet_if_iff; [done|by eapply slice_get_bound|eauto]|].
  apply bind_Ok. eexists (_, _). split; [apply read_octet_iff; [done|split; [exact Hw6|eassumption]]|].
  apply bind_Ok. eexists (_, _). split; [|done].
  apply read_extended_if_iff; [done|by eapply slice_get_bound|]. rewrite Hack.
  split; [done|]. exists r. split; [done|]. eassumption.
Qed.

(** ** The serializer writes the grammar *)
Section Writers.
Context {E : Type} (buf : list Z).

Lemma put_octet_opt_written pre i v :
  i = length pre → (length pre + length (option_list v) <= length buf)%nat →
  put_octet_opt (E:=E) v (written pre buf) i =
  Ok (written (pre ++ option_list v) buf, length (pre ++ option_list v)).
Proof.
  intros -> Hlen. destruct v as [b|]; simpl in *.
  - rewrite put_written by lia. simpl. by rewrite length_app.
  - by rewrite app_nil_r.
Qed.

Lemma put_word_opt_written pre i v :
  i = length pre → (length pre + length (encode_word_opt v) <= length buf)%nat →
  put_word_opt (E:=E) v (written pre buf) i =
  Ok (written (pre ++ encode_word_opt v) buf, length (pre ++ encode_word_opt v)).
Proof.
  intros -> Hlen. destruct v as [w|]; simpl in *.
  - rewrite put_u16_written by lia. cbn [mbind outcome_bind]. by rewrite length_app.
  - by rewrite app_nil_r.
Qed.
End Writers.

Lemma aps_header_serialize_written {E} h buf :
  aps_header_wf h → (length (encode_aps_header 0 h) <= length buf)%nat →
  aps_header_serialize (E:=E) h buf =
  Ok (written (encode_aps_header 0 h) buf, length (encode_aps_header 0 h)).
Proof.
  destruct h as [fc v1 v2 v3 v4 v5 c e]. unfold aps_header_wf.
  intros (_ & _ & _ & _ & _ & _ & _ & _ & Hw) Hlen.
  unfold encode_aps_header, aps_header_serialize in *.
  cbn [ah_frame_control ah_dst_endpoint ah_group_address ah_cluster_id ah_profile_id
    ah_src_endpoint ah_aps_counter ah_extended_header] in *. cbv zeta.
  rewrite !length_app in Hlen. simpl length in Hlen.
  rewrite <- (written_nil buf) at 1. rewrite put_written by write_side. cbn [mbind outcome_bind app].
  rewrite put_octet_opt_written by write_side. cbn [mbind outcome_bind].
  rewrite !put_word_opt_written by write_side. cbn [mbind outcome_bind].
  rewrite put_word_opt_written by write_side. cbn [mbind outcome_bind].
  rewrite put_word_opt_written by write_side. cbn [mbind outcome_bind].
  rewrite put_octet_opt_written by write_side. cbn [mbind outcome_bind].
  rewrite put_written by write_side. cbn [mbind outcome_bind].
  destruct e as [[f bn abf]|]; [|write_done].
  destruct Hw as [_ [Hf Hw]]. cbn [encode_extended aeh_fragmentation aeh_block_number aeh_ack_bitfield] in *.
  rewrite Z.add_0_r in *.
  assert (Z.land f 3 = f) as Hland by (pose proof (ext_fc_join f 0); replace (f + 4 * 0) with f in *; lia).
  rewrite Hland. cbn [length] in Hlen. rewrite put_written by write_side. cbn [mbind outcome_bind].
  destruct (f =? FRAG_NONE); cbn [negb]; [write_done|]. destruct Hw as [_ Hw].
  cbn [length] in Hlen. rewrite put_written by write_side. cbn [mbind outcome_bind].
  destruct (afc_frame_type fc =? 2); destruct abf as [a|]; simpl in Hw; try (by destruct Hw); try done;
    cbn [default]; [|write_done]. simpl in Hlen.
  rewrite put_written by write_side. cbn [mbind outcome_bind]. write_done.
Qed.

Lemma opt_field_octets p v : opt_field is_u8 p v → Forall is_u8 (option_list v).
Proof. destruct v; simpl; [intros [_ ?]; by constructor|constructor]. Qed.

Lemma encode_word_opt_octets v : Forall is_u8 (encode_word_opt v).
Proof. destruct v; simpl; [apply u16_to_le_octets|constructor]. Qed.

Lemma encode_aps_header_octets h : aps_header_wf h → Forall is_u8 (encode_aps_header 0 h).
Proof.
  intros (Hft & Hdm & Hw1 & _ & _ & _ & Hw5 & Hw6 & Hw7). unfold encode_aps_header.
  destruct (aps_frame_control_parse_serialize _ Hft Hdm) as [_ Hu].
  repeat (apply Forall_app; split); eauto using opt_field_octets, encode_word_opt_octets.
  destruct (ah_extended_header h) as [[f bn abf]|]; [|constructor].
  destruct Hw7 as [_ [Hf Hw]]; simpl in *. constructor; [unfold is_u8; lia|].
  destruct (f =? FRAG_NONE); [constructor|]. destruct Hw. constructor; [done|].
  by eapply opt_field_octets.
Qed.

Lemma no_panic_read_octet data off : no_panic (read_octet data off).
Proof. unfold read_octet. no_panic_tac. Qed.
#[export] Hint Resolve no_panic_read_octet : exec.

Lemma no_panic_read_octet_if p data off : no_panic (read_octet_if p data off).
Proof. unfold read_octet_if. no_panic_tac. Qed.

Lemma no_panic_read_word_if p data off : no_panic (read_word_if p data off).
Proof. unfold read_word_if. no_panic_tac. apply no_panic_read_u16. lia. Qed.
#[export] Hint Resolve no_panic_read_octet_if no_panic_read_word_if : exec.

Lemma no_panic_read_extended ft data off : no_panic (read_extended_header ft data off).
Proof. unfold read_extended_header. no_panic_tac. Qed.
#[export] Hint Resolve no_panic_read_extended : exec.

Lemma no_panic_aps_header_parse data : no_panic (aps_header_parse data).
Proof. unfold aps_header_parse. no_panic_tac. Qed.

(** * Properties *)
Definition sample_aps_header : ApsHeader :=
  mk_ApsHeader (mk_ApsFrameControl 2 0 false false false true) (Some 1) None (Some 0x0006)
    (Some 0x0104) (Some 2) 0x5A (Some (mk_ApsExtendedHeader FRAG_FIRST 0 (Some 0xFD))).

Lemma sample_aps_header_wf : aps_header_wf sample_aps_header.
Proof. unfold aps_header_wf; simpl. repeat split; done. Qed.

(** The APS header parser never panics and accepts exactly the header
    grammar: it returns [h] and [n] if and only if [h] is well formed (every
    optional field present exactly when frame type, delivery mode and
    acknowledgement format announce it, no reserved fragmentation value, an
    acknowledgement bitfield exactly in a fragmented acknowledgement) and the
    first [n] octets encode [h], up to the reserved extended control bits. *)
Theorem aps_header_parse_exact (data : list Z) (h : ApsHeader) (n : nat) :
  Forall is_u8 data →
  no_panic (aps_header_parse data) ∧
  (aps_header_parse data = Ok (h, n) ↔
   aps_header_wf h ∧ ∃ r, 0 <= r < 64 ∧ slice_get data 0 n = Some (encode_aps_header r h)).
Proof.
  intros Hoct. split; [apply no_panic_aps_header_parse|]. split.
  - by apply aps_header_parse_sound.
  - intros [Hwf (r & Hr & Hs)]. by eapply aps_header_parse_complete.
Qed.

Lemma aps_header_parse_exact_witness :
  aps_header_parse (encode_aps_header 5 sample_aps_header ++ [1; 2]) = Ok (sample_aps_header, 11%nat).
Proof.
  apply (aps_header_parse_exact (encode_aps_header 5 sample_aps_header ++ [1; 2]));
    [repeat constructor; done|].
  split; [apply sample_aps_header_wf|]. exists 5. split; [lia|vm_compute; reflexivity].
Defined.

(** A well-formed APS header is written into any buffer that is large
    enough without touching the rest of it, and the parser recovers it with
    its length. *)
Theorem aps_header_roundtrip (h : ApsHeader) (buf : list Z) :
  aps_header_wf h → Forall is_u8 buf → (length (encode_aps_header 0 h) <= length buf)%nat →
  ∃ out n, aps_header_serialize (E:=Empty_set) h buf = Ok (out, n) ∧
    length out = length buf ∧ drop n out = drop n buf ∧
    aps_header_parse out = Ok (h, n).
Proof.
  intros Hwf Hbuf Hlen. eexists _, _.
  split; [by apply aps_header_serialize_written|].
  split_and!; [by apply length_written|by apply drop_written|].
  eapply (aps_header_parse_complete _ _ _ 0); [|done|lia|apply written_slice].
  apply written_octets; [by apply encode_aps_header_octets|done].
Qed.

Lemma aps_header_roundtrip_witness :
  ∃ out n, aps_header_serialize (E:=Empty_set) sample_aps_header (replicate 16 0) = Ok (out, n) ∧
    length out = 16%nat ∧ drop n out = drop n (replicate 16 0) ∧
    aps_header_parse out = Ok (sample_aps_header, n).
Proof.
  apply (aps_header_roundtrip sample_aps_header (replicate 16 0));
    [apply sample_aps_header_wf|repeat constructor; done|vm_compute; lia].
Defined.
