(* ===== verification/ApsTables.v ===== *)
(** The binding table, the group table and the information base of the APS
    layer: [zigbee-aps/src/binding.rs], [group.rs] (router build) and [aib.rs].

    Both tables are bounded vectors from which entries are removed by swapping
    in the last one, so their order means nothing: the binding table is a set
    of (source, endpoint, cluster, destination) keys and the group table a set
    of (group, endpoint) memberships.  The loop of [remove_all_groups] does not
    advance after a removal; its model carries an iteration count and answers
    [None] when that is exhausted, which the theorem excludes. *)
From S2P Require Import Prelude.
From S2P Require Import ZigbeeTypes.

Local Open Scope Z_scope.

(** * Binding table *)
Definition MAX_BINDING_ENTRIES : nat := 32.

Inductive BindingDst :=
| BdGroup (group : Z)
| BdUnicast (dst_addr : IeeeAddress) (dst_endpoint : Z).

Inductive BindingDstMode := BdmGroup | BdmExtended.

#[export] Instance BindingDst_eq_dec : EqDecision BindingDst.
Proof. solve_decision. Defined.
#[export] Instance BindingDstMode_eq_dec : EqDecision BindingDstMode.
Proof. solve_decision. Defined.

Record BindingEntry := mk_BindingEntry {
  be_src_addr : IeeeAddress;
  be_src_endpoint : Z;
  be_cluster_id : Z;
  be_dst_addr_mode : BindingDstMode;
  be_dst : BindingDst }.

#[export] Instance BindingEntry_eq_dec : EqDecision BindingEntry.
Proof. solve_decision. Defined.

Definition binding_unicast (src_addr : IeeeAddress) (src_endpoint cluster_id : Z)
    (dst_addr : IeeeAddress) (dst_endpoint : Z) : BindingEntry :=
  mk_BindingEntry src_addr src_endpoint cluster_id BdmExtended (BdUnicast dst_addr dst_endpoint).

Definition binding_group (src_addr : IeeeAddress) (src_endpoint cluster_id group_address : Z)
    : BindingEntry :=
  mk_BindingEntry src_addr src_endpoint cluster_id BdmGroup (BdGroup group_address).

Abbreviation BindingTable := (list BindingEntry) (only parsing).

Definition bt_new : BindingTable := [].
Definition bt_len (t : BindingTable) : nat := length t.
Definition bt_is_empty (t : BindingTable) : bool := (length t =? 0)%nat.
Definition bt_is_full (t : BindingTable) : bool := (length t =? MAX_BINDING_ENTRIES)%nat.
Definition bt_clear (t : BindingTable) : BindingTable := [].

(** The comparison of [remove] and [find_exact]. *)
Definition be_matches (src_addr : IeeeAddress) (src_endpoint cluster_id : Z) (dst : BindingDst)
    (e : BindingEntry) : bool :=
  ieee_eqb (be_src_addr e) src_addr && (be_src_endpoint e =? src_endpoint)
  && (be_cluster_id e =? cluster_id) && bool_decide (be_dst e = dst).

Definition bt_find_exact (t : BindingTable) (entry : BindingEntry) : option nat :=
  position (be_matches (be_src_addr entry) (be_src_endpoint entry) (be_cluster_id entry)
              (be_dst entry)) t.

Definition bt_add (t : BindingTable) (entry : BindingEntry) : outcome BindingEntry BindingTable :=
  match bt_find_exact t entry with
  | Some _ => Err entry
  | None => match vec_push MAX_BINDING_ENTRIES t entry with
            | Some t' => Ok t'
            | None => Err entry
            end
  end.

Definition bt_remove (t : BindingTable) (src_addr : IeeeAddress) (src_endpoint cluster_id : Z)
    (dst : BindingDst) : BindingTable * bool :=
  match position (be_matches src_addr src_endpoint cluster_id dst) t with
  | Some idx => (swap_remove t idx, true)
  | None => (t, false)
  end.

Definition bt_find_by_source (t : BindingTable) (src_addr : IeeeAddress)
    (src_endpoint cluster_id : Z) : list BindingEntry :=
  List.filter (λ e, ieee_eqb (be_src_addr e) src_addr && (be_src_endpoint e =? src_endpoint)
                    && (be_cluster_id e =? cluster_id)) t.

Definition bt_find_by_cluster (t : BindingTable) (cluster_id : Z) : list BindingEntry :=
  List.filter (λ e, be_cluster_id e =? cluster_id) t.

Definition bt_find_by_endpoint (t : BindingTable) (src_endpoint : Z) : list BindingEntry :=
  List.filter (λ e, be_src_endpoint e =? src_endpoint) t.

(** * Group table *)
Definition MAX_GROUPS : nat := 16.
Definition MAX_ENDPOINTS_PER_GROUP : nat := 8.

Record GroupEntry := mk_GroupEntry {
  ge_group_address : Z; ge_endpoint_list : list Z }.

#[export] Instance GroupEntry_eq_dec : EqDecision GroupEntry.
Proof. solve_decision. Defined.

Abbreviation GroupTable := (list GroupEntry) (only parsing).

Definition gt_new : GroupTable := [].
Definition gt_len (t : GroupTable) : nat := length t.
Definition gt_is_empty (t : GroupTable) : bool := (length t =? 0)%nat.
Definition gt_clear (t : GroupTable) : GroupTable := [].

Definition ge_named (group_address : Z) (g : GroupEntry) : bool := ge_group_address g =? group_address.

(** [endpoint_list.contains(&endpoint)] *)
Definition ge_contains (endpoint : Z) (g : GroupEntry) : bool :=
  existsb (λ e, e =? endpoint) (ge_endpoint_list g).

Definition gt_add_group (t : GroupTable) (group_address endpoint : Z) : GroupTable * bool :=
  match position (ge_named group_address) t with
  | Some i =>
      match t !! i with
      | Some group =>
          if ge_contains endpoint group then (t, true)
          else match vec_push MAX_ENDPOINTS_PER_GROUP (ge_endpoint_list group) endpoint with
               | Some l => (<[i := mk_GroupEntry (ge_group_address group) l]> t, true)
               | None => (t, false)
               end
      | None => (t, false)
      end
  | None =>
      match vec_push MAX_ENDPOINTS_PER_GROUP [] endpoint with
      | None => (t, false)
      | Some ep_list =>
          match vec_push MAX_GROUPS t (mk_GroupEntry group_address ep_list) with
          | Some t' => (t', true)
          | None => (t, false)
          end
      end
  end.

(** Swap the endpoint out of the list of a group, if it is there. *)
Definition ge_drop (endpoint : Z) (g : GroupEntry) : GroupEntry :=
  match position (λ e, e =? endpoint) (ge_endpoint_list g) with
  | Some ep_idx => mk_GroupEntry (ge_group_address g) (swap_remove (ge_endpoint_list g) ep_idx)
  | None => g
  end.

Definition ge_empty (g : GroupEntry) : bool := (length (ge_endpoint_list g) =? 0)%nat.

Definition gt_remove_group (t : GroupTable) (group_address endpoint : Z) : GroupTable * bool :=
  match position (ge_named group_address) t with
  | Some idx =>
      match t !! idx with
      | Some group =>
          if ge_contains endpoint group then
            let group := ge_drop endpoint group in
            let t := <[idx := group]> t in
            ((if ge_empty group then swap_remove t idx else t), true)
          else (t, false)
      | None => (t, false)
      end
  | None => (t, false)
  end.

(** The [while i < self.groups.len()] loop; [None]: out of iterations. *)
Fixpoint remove_all_loop (fuel i : nat) (t : GroupTable) (endpoint : Z) : option GroupTable :=
  match t !! i with
  | None => Some t
  | Some group =>
      match fuel with
      | O => None
      | S fuel =>
          let group := ge_drop endpoint group in
          let t := <[i := group]> t in
          if ge_empty group then remove_all_loop fuel i (swap_remove t i) endpoint
          else remove_all_loop fuel (i + 1) t endpoint
      end
  end.

Definition gt_remove_all_groups (t : GroupTable) (endpoint : Z) : option GroupTable :=
  remove_all_loop (length t) 0 t endpoint.

Definition gt_find (t : GroupTable) (group_address : Z) : option GroupEntry :=
  List.find (ge_named group_address) t.

Definition gt_is_member (t : GroupTable) (group_address endpoint : Z) : bool :=
  existsb (λ g, ge_named group_address g && ge_contains endpoint g) t.

(** * Information base *)
Record Aib := mk_Aib {
  aib_designated_coordinator : bool;
  aib_channel_mask : Z;
  aib_use_extended_pan_id : IeeeAddress;
  aib_use_insecure_join : bool;
  aib_interframe_delay : Z;
  aib_last_channel_energy : Z;
  aib_last_channel_failure_rate : Z;
  aib_channel_timer : Z;
  aib_max_window_size : Z;
  aib_max_frame_retries : Z;
  aib_duplicate_rejection_timeout : Z;
  aib_trust_center_address : IeeeAddress;
  aib_security_enabled : bool;
  aib_outgoing_frame_counter : Z }.

Definition aib_new : Aib :=
  mk_Aib false 0x07FFF800 (repeat 0 8) true 10 0 0 0 8 3 3000 (repeat 0 8) true 0.

Definition aib_next_frame_counter (a : Aib) : Z * Aib :=
  let fc := aib_outgoing_frame_counter a in
  let 'mk_Aib c m x j d e f t w r u g s _ := a in
  (fc, mk_Aib c m x j d e f t w r u g s (wrapping_add_u32 fc 1)).

Inductive AibAttribute :=
| AaDesignatedCoordinator | AaChannelMaskList | AaUseExtendedPanId | AaGroupTable
| AaUseInsecureJoin | AaInterframeDelay | AaLastChannelEnergy | AaLastChannelFailureRate
| AaChannelTimer | AaMaxWindowSize | AaTrustCenterAddress | AaSecurityEnabled.

Definition aib_attribute_from_u8 (v : Z) : option AibAttribute :=
  match v with
  | 0xC2 => Some AaDesignatedCoordinator
  | 0xC3 => Some AaChannelMaskList
  | 0xC4 => Some AaUseExtendedPanId
  | 0xC5 => Some AaGroupTable
  | 0xC8 => Some AaUseInsecureJoin
  | 0xC9 => Some AaInterframeDelay
  | 0xCA => Some AaLastChannelEnergy
  | 0xCB => Some AaLastChannelFailureRate
  | 0xCC => Some AaChannelTimer
  | 0xCD => Some AaMaxWindowSize
  | 0xAB => Some AaTrustCenterAddress
  | 0xCF => Some AaSecurityEnabled
  | _ => None
  end.

(** * The binding table is a set *)
Definition be_key (e : BindingEntry) : IeeeAddress * Z * Z * BindingDst :=
  (be_src_addr e, be_src_endpoint e, be_cluster_id e, be_dst e).

Lemma be_matches_key s p c d e : be_matches s p c d e = true ↔ be_key e = (s, p, c, d).
Proof.
  unfold be_matches, be_key, ieee_eqb. rewrite !andb_true_iff, !bool_decide_eq_true, !Z.eqb_eq.
  intuition congruence.
Qed.

Inductive bt_reachable : BindingTable → Prop :=
| btr_new_ : bt_reachable bt_new
| btr_add t e t' : bt_reachable t → bt_add t e = Ok t' → bt_reachable t'
| btr_remove t s p c d : bt_reachable t → bt_reachable (bt_remove t s p c d).1
| btr_clear t : bt_reachable t → bt_reachable (bt_clear t).

Definition bt_wf (t : BindingTable) : Prop :=
  NoDup (be_key <$> t) ∧ (length t <= MAX_BINDING_ENTRIES)%nat.

Lemma bt_position_None s p c d t :
  position (be_matches s p c d) t = None ↔ (s, p, c, d) ∉ (be_key <$> t).
Proof.
  rewrite position_None. split.
  - intros H (x & Hk & Hx)%list_elem_of_fmap. specialize (H x Hx).
    by rewrite (proj2 (be_matches_key s p c d x)) in H.
  - intros H x Hx. apply not_true_is_false. intros Hm%be_matches_key. apply H.
    apply list_elem_of_fmap. eauto.
Qed.

Lemma bt_position_Some s p c d t i :
  position (be_matches s p c d) t = Some i → ∃ x, t !! i = Some x ∧ be_key x = (s, p, c, d).
Proof. intros (x & Hx & Hm & _)%position_Some. exists x. by rewrite <- be_matches_key. Qed.

Lemma bt_add_cases t e :
  (bt_add t e = Ok (t ++ [e]) ∧ (be_key e ∉ (be_key <$> t)) ∧ (length t < MAX_BINDING_ENTRIES)%nat) ∨
  (bt_add t e = Err e ∧ (be_key e ∈ (be_key <$> t) ∨ (MAX_BINDING_ENTRIES <= length t)%nat)).
Proof.
  unfold bt_add, bt_find_exact, vec_push. destruct (position _ t) as [i|] eqn:Hp.
  - right. split; [done|left]. apply bt_position_Some in Hp as (x & Hx & Hk).
    unfold be_key at 1. rewrite <- Hk. apply list_elem_of_fmap_2. by eapply list_elem_of_lookup_2.
  - apply bt_position_None in Hp. destruct (_ <? _)%nat eqn:Hl; bool_simpl; [by left|].
    right. auto.
Qed.

Lemma bt_wf_add t e : bt_wf t → be_key e ∉ (be_key <$> t) → (length t < MAX_BINDING_ENTRIES)%nat →
  bt_wf (t ++ [e]).
Proof.
  intros [Hn Hl] He Hlt. split; [|rewrite length_app; simpl; lia].
  rewrite fmap_app. apply NoDup_app. split_and!; [done| |apply NoDup_singleton].
  intros x Hx Hx'. simpl in Hx'. apply list_elem_of_singleton in Hx' as ->. done.
Qed.

Lemma bt_remove_cases t s p c d :
  (((s, p, c, d) ∉ (be_key <$> t)) ∧ bt_remove t s p c d = (t, false)) ∨
  (∃ x t', be_key x = (s, p, c, d) ∧ x :: t' ≡ₚ t ∧ bt_remove t s p c d = (t', true)).
Proof.
  unfold bt_remove. destruct (position _ t) as [i|] eqn:Hp.
  - right. apply bt_position_Some in Hp as (x & Hx & Hk). exists x, (swap_remove t i).
    split_and!; [done|by apply swap_remove_perm|done].
  - left. by apply bt_position_None in Hp.
Qed.

Lemma bt_wf_perm t t' : t ≡ₚ t' → bt_wf t → bt_wf t'.
Proof. intros Hp [? ?]. split; by rewrite <- Hp. Qed.

Lemma bt_reachable_wf t : bt_reachable t → bt_wf t.
Proof.
  induction 1 as [|t e t' _ IH Ha|t s p c d _ IH|t _ IH].
  - split; [constructor|simpl; lia].
  - destruct (bt_add_cases t e) as [(Ha' & ? & ?)|[Ha' _]]; rewrite Ha' in Ha; [|done].
    injection Ha as <-. by apply bt_wf_add.
  - destruct (bt_remove_cases t s p c d) as [[_ ->]|(x & t' & _ & Hp & ->)]; [done|].
    destruct (bt_wf_perm _ _ (symmetry Hp) IH) as [Hn Hl]. simpl in *.
    apply NoDup_cons in Hn as [_ Hn]. split; simpl; [done|lia].
  - split; [constructor|simpl; lia].
Qed.

(** * The group table is a set of memberships *)
Inductive gt_reachable : GroupTable → Prop :=
| gtr_new : gt_reachable gt_new
| gtr_add t g e : gt_reachable t → gt_reachable (gt_add_group t g e).1
| gtr_remove t g e : gt_reachable t → gt_reachable (gt_remove_group t g e).1
| gtr_remove_all t e t' : gt_reachable t → gt_remove_all_groups t e = Some t' → gt_reachable t'
| gtr_clear t : gt_reachable t → gt_reachable (gt_clear t).

Definition ge_wf (g : GroupEntry) : Prop :=
  NoDup (ge_endpoint_list g) ∧ ge_endpoint_list g ≠ [] ∧
  (length (ge_endpoint_list g) <= MAX_ENDPOINTS_PER_GROUP)%nat.

Definition gt_wf (t : GroupTable) : Prop :=
  NoDup (ge_group_address <$> t) ∧ Forall ge_wf t ∧ (length t <= MAX_GROUPS)%nat.

Lemma ge_contains_elem e g : ge_contains e g = true ↔ e ∈ ge_endpoint_list g.
Proof.
  unfold ge_contains. rewrite existsb_exists. split.
  - intros (x & Hx & ->%Z.eqb_eq). by apply list_elem_of_In.
  - intros He. exists e. split; [by apply list_elem_of_In|by rewrite Z.eqb_eq].
Qed.

Lemma gt_is_member_elem t g e :
  gt_is_member t g e = true ↔ ∃ x, x ∈ t ∧ ge_group_address x = g ∧ e ∈ ge_endpoint_list x.
Proof.
  unfold gt_is_member, ge_named. rewrite existsb_exists. setoid_rewrite andb_true_iff.
  setoid_rewrite Z.eqb_eq. setoid_rewrite ge_contains_elem. by setoid_rewrite list_elem_of_In.
Qed.

Lemma bool_eq_iff (a b : bool) : (a = true ↔ b = true) → a = b.
Proof. destruct a, b; intuition. Qed.

Lemma gt_wf_perm t t' : t ≡ₚ t' → gt_wf t → gt_wf t'.
Proof. intros Hp (? & ? & ?). split_and!; by rewrite <- Hp. Qed.

Lemma gt_wf_tail g t : gt_wf (g :: t) → gt_wf t.
Proof.
  intros (Hn & Hf & Hl). apply NoDup_cons in Hn as [_ Hn]. apply Forall_cons in Hf as [_ Hf].
  split_and!; [done|done|simpl in Hl; lia].
Qed.

(** Splitting off the entry at a position. *)
Lemma insert_perm {A} (l : list A) i x y : l !! i = Some x → ∃ r, l ≡ₚ x :: r ∧ <[i:=y]> l ≡ₚ y :: r.
Proof.
  intros Hi. exists (take i l ++ drop (S i) l). split.
  - rewrite <- (take_drop_middle l i x Hi) at 1. by rewrite <- Permutation_middle.
  - rewrite insert_take_drop by by eapply lookup_lt_Some. by rewrite <- Permutation_middle.
Qed.

Lemma ge_drop_elem e g x :
  NoDup (ge_endpoint_list g) →
  x ∈ ge_endpoint_list (ge_drop e g) ↔ x ∈ ge_endpoint_list g ∧ x ≠ e.
Proof.
  intros Hn. unfold ge_drop. destruct (position _ _) as [i|] eqn:Hp.
  - apply position_Some in Hp as (y & Hy & ->%Z.eqb_eq & _). simpl.
    pose proof (swap_remove_perm _ _ _ Hy) as Hperm.
    assert (∀ z, z ∈ e :: swap_remove (ge_endpoint_list g) i ↔ z ∈ ge_endpoint_list g) as Hel
      by (intros z; by rewrite Hperm).
    assert (NoDup (e :: swap_remove (ge_endpoint_list g) i)) as Hn' by by rewrite Hperm.
    apply NoDup_cons in Hn' as [Hni _]. setoid_rewrite <- Hel. rewrite elem_of_cons. split.
    + intros Hx. split; [auto|]. intros ->. done.
    + intros [[?|?] ?]; done.
  - rewrite position_None in Hp. split; [|tauto]. intros Hx. split; [done|]. intros ->.
    specialize (Hp e Hx). by rewrite Z.eqb_refl in Hp.
Qed.

Lemma ge_drop_fields e g :
  ge_group_address (ge_drop e g) = ge_group_address g ∧
  (NoDup (ge_endpoint_list g) → NoDup (ge_endpoint_list (ge_drop e g))) ∧
  (length (ge_endpoint_list (ge_drop e g)) <= length (ge_endpoint_list g))%nat.
Proof.
  unfold ge_drop. destruct (position _ _) as [i|] eqn:Hp; [|done].
  apply position_Some in Hp as (y & Hy & _). pose proof (swap_remove_perm _ _ _ Hy) as Hperm. simpl.
  apply Permutation_length in Hperm as Hlen. simpl in Hlen. split_and!; [done| |lia].
  intros Hn. assert (NoDup (y :: swap_remove (ge_endpoint_list g) i)) as Hn' by by rewrite Hperm.
  by apply NoDup_cons in Hn' as [_ ?].
Qed.

Lemma ge_empty_nil g : ge_empty g = true ↔ ge_endpoint_list g = [].
Proof. unfold ge_empty. rewrite Nat.eqb_eq. apply length_zero_iff_nil. Qed.

Lemma ge_wf_drop e g : ge_wf g → ge_empty (ge_drop e g) = false → ge_wf (ge_drop e g).
Proof.
  intros (Hn & _ & Hl) He. destruct (ge_drop_fields e g) as (_ & Hn' & Hl').
  split_and!; [auto| |lia]. intros Hnil. apply ge_empty_nil in Hnil. congruence.
Qed.

(** ** The loop of [remove_all_groups] *)
Definition dropped (e : Z) (l : list GroupEntry) : list GroupEntry :=
  List.filter (λ g, negb (ge_empty g)) (ge_drop e <$> l).

#[local] Instance dropped_perm e : Proper ((≡ₚ) ==> (≡ₚ)) (dropped e).
Proof.
  intros l l' Hp. unfold dropped.
  assert (∀ m m' : list GroupEntry, m ≡ₚ m' →
    List.filter (λ g, negb (ge_empty g)) m ≡ₚ List.filter (λ g, negb (ge_empty g)) m') as Hf.
  { induction 1 as [|x m m' _ IH|x y m|? ? ? _ IH1 _ IH2]; simpl; [done| | |by etrans].
    - case_match; by rewrite IH.
    - repeat case_match; try done. apply Permutation_swap. }
  apply Hf. by rewrite Hp.
Qed.

Lemma swap_remove_middle {A} (pre rest : list A) g :
  ∃ rest', swap_remove (pre ++ g :: rest) (length pre) = pre ++ rest' ∧ rest' ≡ₚ rest.
Proof.
  destruct rest as [|y r _] using rev_ind.
  - exists []. split; [|done]. unfold swap_remove. rewrite last_snoc.
    rewrite length_app. simpl. rewrite Nat.add_sub, insert_app_r_alt, Nat.sub_diag by lia. simpl.
    by rewrite take_app_length, app_nil_r.
  - exists (y :: r). split; [|by rewrite Permutation_cons_append].
    unfold swap_remove. replace (pre ++ g :: r ++ [y]) with ((pre ++ g :: r) ++ [y])
      by by rewrite <- app_assoc.
    rewrite last_snoc, length_app. simpl. rewrite Nat.add_sub.
    rewrite insert_app_l by (rewrite length_app; simpl; lia).
    rewrite take_app_le, take_ge by (rewrite length_insert; lia).
    by rewrite insert_app_r_alt, Nat.sub_diag by lia.
Qed.

Lemma remove_all_loop_spec e fuel pre rest :
  (length rest <= fuel)%nat →
  ∃ t', remove_all_loop fuel (length pre) (pre ++ rest) e = Some t' ∧ t' ≡ₚ pre ++ dropped e rest.
Proof.
  revert pre rest. induction fuel as [|fuel IH]; intros pre rest Hf.
  { destruct rest; [|simpl in Hf; lia]. exists pre. split; [|by rewrite app_nil_r].
    simpl. by rewrite app_nil_r, lookup_ge_None_2 by lia. }
  destruct rest as [|g rest].
  { exists pre. split; [|by rewrite app_nil_r]. simpl. by rewrite app_nil_r, lookup_ge_None_2 by lia. }
  simpl in Hf. cbn [remove_all_loop].
  rewrite lookup_app_r, Nat.sub_diag by lia. cbn [lookup list_lookup].
  rewrite insert_app_r_alt, Nat.sub_diag by lia. cbn [insert list_insert].
  unfold dropped. cbn [fmap list_fmap List.filter]. fold (dropped e rest).
  destruct (ge_empty (ge_drop e g)) eqn:He; cbn [negb].
  - destruct (swap_remove_middle pre rest (ge_drop e g)) as (rest' & -> & Hp).
    destruct (IH pre rest') as (t' & Ht & Hp'); [by rewrite Hp; lia|].
    exists t'. split; [done|]. rewrite Hp'. by rewrite Hp.
  - replace (length pre + 1)%nat with (length (pre ++ [ge_drop e g])) by (rewrite length_app; simpl; lia).
    replace (pre ++ ge_drop e g :: rest) with ((pre ++ [ge_drop e g]) ++ rest)
      by by rewrite <- app_assoc.
    destruct (IH (pre ++ [ge_drop e g]) rest) as (t' & Ht & Hp'); [lia|].
    exists t'. split; [done|]. rewrite Hp'. by rewrite <- app_assoc.
Qed.

Lemma remove_all_total t e :
  ∃ t', gt_remove_all_groups t e = Some t' ∧ t' ≡ₚ dropped e t.
Proof. apply (remove_all_loop_spec e (length t) [] t). lia. Qed.

Lemma gt_wf_dropped e t : gt_wf t → gt_wf (dropped e t).
Proof.
  intros (Hn & Hf & Hl). unfold dropped. split_and!.
  - assert (ge_group_address <$> t = ge_group_address <$> (ge_drop e <$> t)) as Heq.
    { rewrite <- list_fmap_compose. apply list_fmap_ext. intros i g _. simpl.
      symmetry. apply ge_drop_fields. }
    rewrite Heq in Hn. eapply sublist_NoDup; [exact Hn|]. apply fmap_sublist, retain_sublist.
  - apply Forall_forall. intros g Hg. apply elem_of_retain in Hg as [Hg Hne].
    apply list_elem_of_fmap in Hg as (x & -> & Hx). apply ge_wf_drop; [|by bool_simpl].
    by eapply Forall_forall in Hf.
  - pose proof (sublist_length _ _ (retain_sublist (λ g, negb (ge_empty g)) (ge_drop e <$> t))) as Hs.
    rewrite length_fmap in Hs. unfold retain in Hs. lia.
Qed.

Lemma dropped_member e t g x :
  gt_wf t → gt_is_member (dropped e t) g x = gt_is_member t g x && negb (x =? e).
Proof.
  intros (_ & Hf & _). apply bool_eq_iff.
  rewrite andb_true_iff, negb_true_iff, Z.eqb_neq, !gt_is_member_elem. unfold dropped. split.
  - intros (y & [(z & -> & Hz)%list_elem_of_fmap _]%elem_of_retain & Ha & Hx).
    apply ge_drop_elem in Hx as [Hx Hne]; [|by eapply Forall_forall in Hf as [? _]].
    split; [|done]. exists z. split_and!; [done| |done]. rewrite <- Ha. symmetry. apply ge_drop_fields.
  - intros [(z & Hz & Ha & Hx) Hne]. exists (ge_drop e z).
    assert (x ∈ ge_endpoint_list (ge_drop e z)) as Hx'.
    { apply ge_drop_elem; [|done]. by eapply Forall_forall in Hf as [? _]. }
    split_and!; [|rewrite <- Ha; apply ge_drop_fields|done].
    apply elem_of_retain. split; [by apply list_elem_of_fmap_2|].
    apply negb_true_iff, not_true_is_false. intros Hnil%ge_empty_nil. rewrite Hnil in Hx'.
    by apply elem_of_nil in Hx'.
Qed.

(** ** Adding and removing one membership *)
Lemma gt_slot_unique t g x y :
  gt_wf t → x ∈ t → y ∈ t → ge_group_address x = g → ge_group_address y = g → x = y.
Proof.
  intros (Hn & _) [i Hi]%list_elem_of_lookup [j Hj]%list_elem_of_lookup Hx Hy.
  assert (i = j) as ->; [|congruence].
  eapply (NoDup_lookup _ i j g Hn); rewrite list_lookup_fmap; [by rewrite Hi, <- Hx|by rewrite Hj, <- Hy].
Qed.

Lemma gt_position_named t g i :
  position (ge_named g) t = Some i → ∃ x, t !! i = Some x ∧ ge_group_address x = g.
Proof. intros (x & Hx & Hm%Z.eqb_eq & _)%position_Some. eauto. Qed.

Lemma gt_is_member_slot t i x g e :
  gt_wf t → t !! i = Some x → ge_group_address x = g → gt_is_member t g e = ge_contains e x.
Proof.
  intros Ht Hx Hg. apply bool_eq_iff. rewrite gt_is_member_elem, ge_contains_elem.
  assert (x ∈ t) as Hin by by eapply list_elem_of_lookup_2. split; [|eauto].
  intros (y & Hy & Hyg & He). by rewrite (gt_slot_unique t g x y).
Qed.

(** Replacing one entry by one of the same group. *)
Lemma gt_is_member_insert t i x y g e :
  gt_wf t → t !! i = Some x → ge_group_address y = ge_group_address x →
  gt_is_member (<[i:=y]> t) g e =
  if g =? ge_group_address x then ge_contains e y else gt_is_member t g e.
Proof.
  intros Ht Hx Hy. destruct (insert_perm t i x y Hx) as (r & Hp & Hp').
  assert (∀ g', gt_is_member (<[i:=y]> t) g' e = gt_is_member (y :: r) g' e) as ->.
  { intros g'. apply bool_eq_iff. rewrite !gt_is_member_elem. by setoid_rewrite Hp'. }
  assert (gt_is_member t g e = gt_is_member (x :: r) g e) as ->.
  { apply bool_eq_iff. rewrite !gt_is_member_elem. by setoid_rewrite Hp. }
  unfold gt_is_member. simpl. unfold ge_named at 1 3. rewrite Hy, (Z.eqb_sym (ge_group_address x)).
  destruct (g =? ge_group_address x) eqn:Hg; [|done]. bool_simpl. simpl.
  apply bool_eq_iff. rewrite orb_true_iff. split; [|auto]. intros [?|Hr]; [done|].
  apply gt_is_member_elem in Hr as (z & Hz & Hzg & _).
  pose proof (gt_wf_perm _ _ Hp Ht) as (Hn & _). simpl in Hn. apply NoDup_cons in Hn as [Hni _].
  destruct Hni. rewrite <- Hg, <- Hzg. by apply list_elem_of_fmap_2.
Qed.

Lemma gt_wf_insert t i x y :
  gt_wf t → t !! i = Some x → ge_group_address y = ge_group_address x → ge_wf y → gt_wf (<[i:=y]> t).
Proof.
  intros (Hn & Hf & Hl) Hx Hy Hw. split_and!; [|by apply Forall_insert|by rewrite length_insert].
  rewrite list_fmap_insert, Hy, list_insert_id; [done|]. by rewrite list_lookup_fmap, Hx.
Qed.

Lemma gt_add_group_spec t g e :
  gt_wf t →
  let '(t', ok) := gt_add_group t g e in
  gt_wf t' ∧
  (ok = true → ∀ g' e', gt_is_member t' g' e' = gt_is_member t g' e' || ((g' =? g) && (e' =? e))) ∧
  (ok = false → t' = t ∧ gt_is_member t g e = false ∧
     ((gt_find t g = None ∧ gt_len t = MAX_GROUPS) ∨
      ∃ x, gt_find t g = Some x ∧ length (ge_endpoint_list x) = MAX_ENDPOINTS_PER_GROUP)).
Proof.
  intros Ht. unfold gt_add_group, gt_find. rewrite find_position.
  destruct (position (ge_named g) t) as [i|] eqn:Hp; cbn [mbind option_bind].
  - apply gt_position_named in Hp as (x & Hx & Hg). rewrite Hx.
    pose proof (gt_is_member_slot t i x g e Ht Hx Hg) as Hm.
    assert (ge_wf x) as (Hn & Hne & Hlx).
    { destruct Ht as (_ & Hf & _). by eapply Forall_lookup_1. }
    destruct (ge_contains e x) eqn:Hc.
    { split_and!; [done| |done]. intros _ g' e'.
      destruct ((g' =? g) && (e' =? e)) eqn:Hge; [|by rewrite orb_false_r]. bool_simpl. subst. by rewrite Hm. }
    unfold vec_push. destruct (_ <? _)%nat eqn:Hl; bool_simpl.
    + set (y := mk_GroupEntry (ge_group_address x) (ge_endpoint_list x ++ [e])). split_and!; [| |done].
      * apply (gt_wf_insert _ _ x); [done..|]. split_and!; simpl; [|by destruct (ge_endpoint_list x)|
          rewrite length_app; simpl; lia].
        apply NoDup_app. split_and!; [done| |apply NoDup_singleton]. intros z Hz ->%list_elem_of_singleton.
        by apply ge_contains_elem in Hz; congruence.
      * intros _ g' e'. rewrite (gt_is_member_insert t i x y) by done. rewrite Hg.
        destruct (g' =? g) eqn:Hg'; [|by rewrite andb_false_l, orb_false_r]. bool_simpl. subst g'.
        rewrite (gt_is_member_slot t i x g e') by done. unfold ge_contains; simpl.
        rewrite existsb_app. simpl. by rewrite orb_false_r, Z.eqb_sym.
    + split_and!; [done|done|]. intros _. split_and!; [done|done|]. right. exists x. split; [done|lia].
  - assert (gt_is_member t g e = false) as Hm.
    { apply not_true_is_false. intros (x & Hx & Hg & _)%gt_is_member_elem.
      rewrite position_None in Hp. specialize (Hp x Hx). unfold ge_named in Hp. bool_simpl. done. }
    change (vec_push MAX_ENDPOINTS_PER_GROUP [] e) with (Some [e]). unfold vec_push.
    destruct (length t <? MAX_GROUPS)%nat eqn:Hl; bool_simpl.
    + destruct Ht as (Hn & Hf & _). split; [split_and!|split; [|done]].
      * rewrite fmap_app. simpl. apply NoDup_app. split_and!; [done| |apply NoDup_singleton].
        intros z (x & -> & Hx)%list_elem_of_fmap Hz%list_elem_of_singleton.
        rewrite position_None in Hp. specialize (Hp x Hx). unfold ge_named in Hp. bool_simpl. done.
      * apply Forall_app. split; [done|]. apply Forall_singleton.
        split_and!; simpl; [apply NoDup_singleton|done|unfold MAX_ENDPOINTS_PER_GROUP; lia].
      * rewrite length_app. simpl. lia.
      * intros _ g' e'. unfold gt_is_member. rewrite existsb_app. simpl. unfold ge_named at 2, ge_contains at 2.
        simpl. by rewrite !orb_false_r, (Z.eqb_sym g g'), (Z.eqb_sym e e').
    + split_and!; [done|done|]. intros _. split_and!; [done|done|]. left. split; [done|].
      destruct Ht as (_ & _ & Hle). unfold gt_len. lia.
Qed.

Lemma gt_remove_group_spec t g e :
  gt_wf t →
  let '(t', ok) := gt_remove_group t g e in
  gt_wf t' ∧ ok = gt_is_member t g e ∧
  (∀ g' e', gt_is_member t' g' e' = gt_is_member t g' e' && negb ((g' =? g) && (e' =? e))).
Proof.
  intros Ht. unfold gt_remove_group.
  assert (gt_is_member t g e = false → ∀ g' e',
    gt_is_member t g' e' = gt_is_member t g' e' && negb ((g' =? g) && (e' =? e))) as Hkeep.
  { intros Hm g' e'. destruct ((g' =? g) && (e' =? e)) eqn:Hge; [|by rewrite andb_true_r].
    bool_simpl. subst. by rewrite Hm. }
  destruct (position (ge_named g) t) as [i|] eqn:Hp.
  - apply gt_position_named in Hp as (x & Hx & Hg). rewrite Hx.
    pose proof (gt_is_member_slot t i x g e Ht Hx Hg) as Hm. rewrite Hm in Hkeep.
    assert (ge_wf x) as Hwx by (destruct Ht as (_ & Hf & _); by eapply Forall_lookup_1).
    destruct (ge_contains e x) eqn:Hc; [|split_and!; [done|done|by apply Hkeep]].
    destruct (ge_drop_fields e x) as (Hy & _ & _).
    pose proof (λ g' e', gt_is_member_insert t i x (ge_drop e x) g' e' Ht Hx Hy) as Hins.
    assert (∀ e', ge_contains e' (ge_drop e x) = ge_contains e' x && negb (e' =? e)) as Hdrop.
    { intros e'. apply bool_eq_iff. rewrite andb_true_iff, negb_true_iff, Z.eqb_neq, !ge_contains_elem.
      apply ge_drop_elem. apply Hwx. }
    assert (∀ g' e', gt_is_member (<[i:=ge_drop e x]> t) g' e'
              = gt_is_member t g' e' && negb ((g' =? g) && (e' =? e))) as Hall.
    { intros g' e'. rewrite Hins, Hg. destruct (g' =? g) eqn:Hg'; [|by rewrite andb_true_r].
      bool_simpl. subst g'. by rewrite Hdrop, (gt_is_member_slot t i x g e'). }
    destruct (ge_empty (ge_drop e x)) eqn:Hempty.
    + destruct (insert_perm t i x (ge_drop e x) Hx) as (r & Hp & Hp').
      assert (<[i:=ge_drop e x]> t !! i = Some (ge_drop e x)) as Hlk.
      { apply list_lookup_insert_eq. by eapply lookup_lt_Some. }
      pose proof (Permutation_cons_inv (transitivity (swap_remove_perm _ _ _ Hlk) Hp')) as Hsw. split_and!; [|done|].
      * apply (gt_wf_perm r); [by symmetry|]. eapply (gt_wf_tail x), gt_wf_perm; done.
      * intros g' e'. rewrite <- Hall. apply bool_eq_iff. rewrite !gt_is_member_elem.
        setoid_rewrite Hsw. setoid_rewrite Hp'. setoid_rewrite elem_of_cons. split.
        -- intros (z & Hz & ?). eauto.
        -- intros (z & [->|Hz] & Ha & He'); [|by eauto]. apply ge_empty_nil in Hempty.
           rewrite Hempty in He'. by apply elem_of_nil in He'.
    + split_and!; [|done|done]. apply (gt_wf_insert _ _ x); [done..|]. by apply ge_wf_drop.
  - split_and!; [done| |]; [|apply Hkeep]; [symmetry|]; apply not_true_is_false;
      intros (x & Hx & Hg & _)%gt_is_member_elem; rewrite position_None in Hp;
      specialize (Hp x Hx); unfold ge_named in Hp; bool_simpl; done.
Qed.

Lemma gt_reachable_wf t : gt_reachable t → gt_wf t.
Proof.
  induction 1 as [|t g e _ IH|t g e _ IH|t e t' _ IH Hr|t _ IH].
  - split_and!; [constructor|constructor|simpl; lia].
  - pose proof (gt_add_group_spec t g e IH) as H. destruct (gt_add_group t g e). apply H.
  - pose proof (gt_remove_group_spec t g e IH) as H. destruct (gt_remove_group t g e). apply H.
  - destruct (remove_all_total t e) as (t2 & Ht2 & Hp). rewrite Hr in Ht2. injection Ht2 as <-.
    eapply gt_wf_perm; [by symmetry|]. by apply gt_wf_dropped.
  - split_and!; [constructor|constructor|simpl; lia].
Qed.

(** * Properties *)
Definition ex_binding : BindingEntry := binding_unicast (repeat 1 8) 1 6 (repeat 2 8) 1.

(** The binding table is a set of bindings of at most 32: adding one
    succeeds exactly when no entry has the same source, cluster and
    destination and there is room, and then adds just that entry; removing
    one reports whether it was there and removes just that entry; the lookup
    for indirect addressing returns exactly the bindings of the source. *)
Theorem binding_table_is_set (t : BindingTable) (entry : BindingEntry) (src : IeeeAddress)
    (endpoint cluster : Z) (dst : BindingDst) :
  bt_reachable t →
  (length t <= MAX_BINDING_ENTRIES)%nat ∧ NoDup (be_key <$> t) ∧
  match bt_add t entry with
  | Ok t' => (be_key entry ∉ (be_key <$> t)) ∧ ∀ e, e ∈ t' ↔ e ∈ t ∨ e = entry
  | Err e => e = entry ∧ (be_key entry ∈ (be_key <$> t) ∨ bt_is_full t = true)
  | Panic => False
  end ∧
  (let '(t', ok) := bt_remove t src endpoint cluster dst in
   (ok = true ↔ (src, endpoint, cluster, dst) ∈ (be_key <$> t)) ∧
   ∀ e, e ∈ t' ↔ e ∈ t ∧ be_key e ≠ (src, endpoint, cluster, dst)) ∧
  (∀ e, e ∈ bt_find_by_source t src endpoint cluster ↔
     e ∈ t ∧ be_src_addr e = src ∧ be_src_endpoint e = endpoint ∧ be_cluster_id e = cluster).
Proof.
  intros [Hn Hl]%bt_reachable_wf. split_and!; [done|done| | |].
  - destruct (bt_add_cases t entry) as [(-> & ? & ?)|[-> Hf]].
    + split; [done|]. intros e. by rewrite elem_of_app, list_elem_of_singleton.
    + split; [done|]. destruct Hf; [by left|right]. apply Nat.eqb_eq. lia.
  - destruct (bt_remove_cases t src endpoint cluster dst) as [[Hni ->]|(x & t' & Hk & Hp & ->)].
    + split; [done|]. intros e. split; [|tauto]. intros He. split; [done|]. intros Hk.
      apply Hni. rewrite <- Hk. by apply list_elem_of_fmap_2.
    + rewrite <- Hp in Hn. setoid_rewrite <- Hp. simpl in Hn. apply NoDup_cons in Hn as [Hni _].
      setoid_rewrite elem_of_cons. rewrite <- Hk. split; [split; [by left|done]|].
      intros e. split; [|intros [[->|?] ?]; done]. intros He. split; [by right|]. intros Heq.
      apply Hni. rewrite <- Heq. by apply list_elem_of_fmap_2.
  - intros e. unfold bt_find_by_source, ieee_eqb. fold (retain (A:=BindingEntry)).
    rewrite elem_of_retain, !andb_true_iff, bool_decide_eq_true, !Z.eqb_eq. tauto.
Qed.

Lemma binding_table_is_set_witness :
  bt_reachable [ex_binding] ∧ bt_add [ex_binding] ex_binding = Err ex_binding ∧
  bt_find_by_source [ex_binding] (repeat 1 8) 1 6 = [ex_binding].
Proof.
  assert (bt_reachable [ex_binding]) as H by (eapply (btr_add bt_new ex_binding); [constructor|reflexivity]).
  pose proof (binding_table_is_set [ex_binding] ex_binding (repeat 1 8) 1 6 (BdGroup 0) H) as (_ & _ & Ha & _).
  split_and!; [done| |vm_compute; reflexivity].
  destruct (bt_add [ex_binding] ex_binding) eqn:Hb; [vm_compute in Hb; discriminate Hb|by destruct Ha as [-> _]|done].
Defined.

(** The group table is a bounded set of (group, endpoint) memberships:
    joining a group adds just that membership, and is refused, changing
    nothing, only when the group has eight other endpoints or is new while
    sixteen groups exist; leaving one reports whether it was a member and
    removes just that membership. *)
Theorem group_table_is_membership (t : GroupTable) (g e : Z) :
  gt_reachable t →
  (let '(t', ok) := gt_add_group t g e in
   (ok = true → ∀ g' e', gt_is_member t' g' e' = gt_is_member t g' e' || ((g' =? g) && (e' =? e))) ∧
   (ok = false → t' = t ∧ gt_is_member t g e = false ∧
      ((gt_find t g = None ∧ gt_len t = MAX_GROUPS) ∨
       ∃ x, gt_find t g = Some x ∧ length (ge_endpoint_list x) = MAX_ENDPOINTS_PER_GROUP))) ∧
  (let '(t', ok) := gt_remove_group t g e in
   ok = gt_is_member t g e ∧
   ∀ g' e', gt_is_member t' g' e' = gt_is_member t g' e' && negb ((g' =? g) && (e' =? e))).
Proof.
  intros Ht%gt_reachable_wf.
  pose proof (gt_add_group_spec t g e Ht) as Ha. pose proof (gt_remove_group_spec t g e Ht) as Hr.
  destruct (gt_add_group t g e), (gt_remove_group t g e). tauto.
Qed.

Lemma group_table_is_membership_witness :
  gt_is_member (gt_remove_group [mk_GroupEntry 7 [1; 2]] 7 1).1 7 2 = true.
Proof.
  assert (gt_reachable [mk_GroupEntry 7 [1; 2]]) as H.
  { apply (gtr_add [mk_GroupEntry 7 [1]] 7 2), (gtr_add gt_new 7 1), gtr_new. }
  pose proof (group_table_is_membership _ 7 1 H) as [_ Hr].
  destruct (gt_remove_group [mk_GroupEntry 7 [1; 2]] 7 1) as [t' ok]. destruct Hr as [_ ->]. reflexivity.
Defined.

(** Removing an endpoint from all groups terminates within one iteration
    per group, although the loop does not advance after dropping a group; it
    then removes exactly the memberships of that endpoint, and no group is
    left without endpoints. *)
Theorem group_remove_all_terminates (t : GroupTable) (e : Z) :
  gt_reachable t →
  ∃ t', gt_remove_all_groups t e = Some t' ∧
    (∀ g x, gt_is_member t' g x = gt_is_member t g x && negb (x =? e)) ∧
    (∀ g, g ∈ t' → ge_endpoint_list g ≠ []) ∧ (gt_len t' <= gt_len t)%nat.
Proof.
  intros Ht%gt_reachable_wf. destruct (remove_all_total t e) as (t' & Hr & Hp).
  exists t'. split_and!; [done| | |].
  - intros g x. rewrite <- dropped_member by done. apply bool_eq_iff.
    rewrite !gt_is_member_elem. by setoid_rewrite Hp.
  - intros g Hg. rewrite Hp in Hg. apply gt_wf_dropped with (e := e) in Ht as (_ & Hf & _).
    eapply Forall_forall in Hf; [|done]. apply Hf.
  - unfold gt_len. rewrite Hp. unfold dropped.
    pose proof (sublist_length _ _ (retain_sublist (λ g, negb (ge_empty g)) (ge_drop e <$> t))) as Hs.
    rewrite length_fmap in Hs. exact Hs.
Qed.

Lemma group_remove_all_terminates_witness :
  ∃ t', gt_remove_all_groups [mk_GroupEntry 7 [1]; mk_GroupEntry 8 [1; 2]] 1 = Some t' ∧
    gt_is_member t' 8 2 = true ∧ gt_is_member t' 7 1 = false.
Proof.
  assert (gt_reachable [mk_GroupEntry 7 [1]; mk_GroupEntry 8 [1; 2]]) as H.
  { apply (gtr_add [mk_GroupEntry 7 [1]; mk_GroupEntry 8 [1]] 8 2),
      (gtr_add [mk_GroupEntry 7 [1]] 8 1), (gtr_add gt_new 7 1), gtr_new. }
  destruct (group_remove_all_terminates _ 1 H) as (t' & Hr & Hm & _).
  exists t'. split_and!; [done|rewrite Hm; reflexivity|rewrite Hm; reflexivity].
Defined.
