(* ===== verification/ApsFragment.v ===== *)
(** APS fragmentation, receive side: [zigbee-aps/src/fragment.rs] (router
    build, which implies the [fragmentation] feature).

    A session stores blocks in arrival order and remembers offset and length
    of each by block number; the ASDU is put together when it is read.  The
    invariant [ra_wf] is about that layout; the correctness theorem fixes the
    blocks each sender has cut its ASDU into and lets fragments of several
    sessions arrive in any order, repeated, with gaps, and interleaved with
    expiry, roll back and delivery. *)
From S2P Require Import Prelude.
From S2P Require Import ZigbeeTypes.
From S2P Require Import ApsFrames.

Local Open Scope Z_scope.

Definition APS_ACK_WAIT_DURATION_US : Z := 1500000.
Definition APS_MAX_FRAGMENTED_ASDU : nat := 256.
Definition APS_MAX_FRAGMENT_BLOCKS : Z := 16.
Definition APS_MAX_WINDOW_SIZE : Z := 8.
Definition APSC_MAX_FRAME_RETRIES : Z := 3.
Definition APS_FRAGMENT_RX_TIMEOUT_US : Z := APS_ACK_WAIT_DURATION_US * (1 + APSC_MAX_FRAME_RETRIES).
Definition MAX_ENTRIES : nat := 4.
Definition MAX_BLOCKS : nat := Z.to_nat APS_MAX_FRAGMENT_BLOCKS.

Definition clamp_window_size (window_size : Z) : Z :=
  if window_size =? 0 then 1
  else if APS_MAX_WINDOW_SIZE <? window_size then APS_MAX_WINDOW_SIZE
  else window_size.

Record FragmentAck := mk_FragmentAck {
  fa_fragmentation : Z; fa_window_start : Z; fa_bitfield : Z }.

Inductive FragmentOutcome :=
| FoPending (ack : option FragmentAck) (stored : bool)
| FoComplete (ack : FragmentAck)
| FoRejected.

#[export] Instance FragmentAck_eq_dec : EqDecision FragmentAck.
Proof. solve_decision. Defined.
#[export] Instance FragmentOutcome_eq_dec : EqDecision FragmentOutcome.
Proof. solve_decision. Defined.

Record ReassemblyEntry := mk_ReassemblyEntry {
  ra_active : bool;
  ra_delivered : bool;
  ra_src_addr : Z;
  ra_src_ieee : option IeeeAddress;
  ra_aps_counter : Z;
  ra_total_blocks : Z;
  ra_received : Z;
  ra_window_start : Z;
  ra_block_offset : list Z;
  ra_block_len : list Z;
  ra_data : list Z;
  ra_data_len : Z;
  ra_last_progress_us : Z }.

#[export] Instance ReassemblyEntry_eq_dec : EqDecision ReassemblyEntry.
Proof. solve_decision. Defined.

Definition ra_empty : ReassemblyEntry :=
  mk_ReassemblyEntry false false 0 None 0 0 0 0 (repeat 0 MAX_BLOCKS) (repeat 0 MAX_BLOCKS)
    (repeat 0 APS_MAX_FRAGMENTED_ASDU) 0 0.

(** Field assignments. *)
Definition set_ra_delivered (v : bool) (e : ReassemblyEntry) : ReassemblyEntry :=
  let 'mk_ReassemblyEntry a _ s i c t r w o l b n p := e in mk_ReassemblyEntry a v s i c t r w o l b n p.
Definition set_ra_src_ieee (v : option IeeeAddress) (e : ReassemblyEntry) : ReassemblyEntry :=
  let 'mk_ReassemblyEntry a d s _ c t r w o l b n p := e in mk_ReassemblyEntry a d s v c t r w o l b n p.
Definition set_ra_total_blocks (v : Z) (e : ReassemblyEntry) : ReassemblyEntry :=
  let 'mk_ReassemblyEntry a d s i c _ r w o l b n p := e in mk_ReassemblyEntry a d s i c v r w o l b n p.
Definition set_ra_received (v : Z) (e : ReassemblyEntry) : ReassemblyEntry :=
  let 'mk_ReassemblyEntry a d s i c t _ w o l b n p := e in mk_ReassemblyEntry a d s i c t v w o l b n p.
Definition set_ra_window_start (v : Z) (e : ReassemblyEntry) : ReassemblyEntry :=
  let 'mk_ReassemblyEntry a d s i c t r _ o l b n p := e in mk_ReassemblyEntry a d s i c t r v o l b n p.
Definition set_ra_data_len (v : Z) (e : ReassemblyEntry) : ReassemblyEntry :=
  let 'mk_ReassemblyEntry a d s i c t r w o l b _ p := e in mk_ReassemblyEntry a d s i c t r w o l b v p.
Definition set_ra_last_progress_us (v : Z) (e : ReassemblyEntry) : ReassemblyEntry :=
  let 'mk_ReassemblyEntry a d s i c t r w o l b n _ := e in mk_ReassemblyEntry a d s i c t r w o l b n v.

Definition ra_reset (e : ReassemblyEntry) : ReassemblyEntry :=
  let 'mk_ReassemblyEntry _ _ s i c _ _ _ o l b _ p := e in
  mk_ReassemblyEntry false false s i c 0 0 0 o l ((λ _, 0) <$> b) 0 p.

Definition ra_matches (src_addr : Z) (src_ieee : option IeeeAddress) (aps_counter : Z)
    (e : ReassemblyEntry) : bool :=
  ra_active e && (ra_src_addr e =? src_addr) && (ra_aps_counter e =? aps_counter)
  && match ra_src_ieee e, src_ieee with
     | Some known, Some offered => ieee_eqb known offered
     | _, _ => true
     end.

Definition ra_has (e : ReassemblyEntry) (block : Z) : bool :=
  (Z.to_nat block <? MAX_BLOCKS)%nat && has_bits (ra_received e) (Z.shiftl 1 block).

Definition ra_window_end (e : ReassemblyEntry) (window_size : Z) : Z :=
  let end_ := saturating_add_u8 (ra_window_start e) window_size in
  if negb (ra_total_blocks e =? 0) then Z.min end_ (ra_total_blocks e)
  else Z.min end_ APS_MAX_FRAGMENT_BLOCKS.

(** [(a..b).all(|block| self.has(block))] *)
Definition ra_all (e : ReassemblyEntry) (a b : Z) : bool := forallb (ra_has e) (seqZ a (b - a)).

Definition ra_window_complete (e : ReassemblyEntry) (window_size : Z) : bool :=
  negb (ra_total_blocks e =? 0)
  && ra_all e (ra_window_start e) (ra_window_end e window_size).

Definition ra_is_complete (e : ReassemblyEntry) : bool :=
  negb (ra_total_blocks e =? 0) && ra_all e 0 (ra_total_blocks e).

Definition ra_ack (e : ReassemblyEntry) (fragmentation window_size : Z) : FragmentAck :=
  let bitfield :=
    fold_left (λ bitfield bit,
      let block := ra_window_start e + bit in
      let set := (window_size <=? bit)
                 || (negb (ra_total_blocks e =? 0) && (ra_total_blocks e <=? block))
                 || ((block <? Z.of_nat MAX_BLOCKS) && ra_has e block) in
      if set then Z.lor bitfield (Z.shiftl 1 bit) else bitfield)
      (seqZ 0 APS_MAX_WINDOW_SIZE) 0 in
  mk_FragmentAck fragmentation (ra_window_start e) bitfield.

Abbreviation FragmentReassembly := (list ReassemblyEntry) (only parsing).

Definition fr_new : FragmentReassembly := repeat ra_empty MAX_ENTRIES.
Definition fr_supported : bool := negb (MAX_ENTRIES =? 0)%nat.
Definition fr_active_sessions (t : FragmentReassembly) : nat := count ra_active t.

(** * Offering a fragment *)

(** The block number and the announced total, within the protocol bounds. *)
Definition fragment_fields (fragmentation block_field : Z) (payload : list Z) : option (Z * option Z) :=
  '(block, total) ←
    (if fragmentation =? FRAG_FIRST then Some (0, Some block_field)
     else if fragmentation =? FRAG_SUBSEQUENT then Some (block_field, None)
     else None);
  if match total with Some t => (t =? 0) || (APS_MAX_FRAGMENT_BLOCKS <? t) | None => false end then None
  else if ((fragmentation =? FRAG_SUBSEQUENT) && (block =? 0)) || (APS_MAX_FRAGMENT_BLOCKS <=? block) then None
  else if (255 <? length payload)%nat then None
  else Some (block, total).

Definition ra_open (now_us src_addr : Z) (src_ieee : option IeeeAddress) (aps_counter : Z)
    (e : ReassemblyEntry) : ReassemblyEntry :=
  let 'mk_ReassemblyEntry _ d _ _ _ t r w o l b n _ := ra_reset e in
  mk_ReassemblyEntry true d src_addr src_ieee aps_counter t r w o l b n now_us.

(** The session of the fragment, opened if it is new; [None]: no free slot. *)
Definition fr_session (t : FragmentReassembly) (now_us src_addr : Z) (src_ieee : option IeeeAddress)
    (aps_counter : Z) : option (nat * FragmentReassembly) :=
  match position (ra_matches src_addr src_ieee aps_counter) t with
  | Some idx => Some (idx, t)
  | None =>
      match position (λ e, negb (ra_active e)) t with
      | None => None
      | Some idx => Some (idx, alter (ra_open now_us src_addr src_ieee aps_counter) idx t)
      end
  end.

(** The total from the first block; [true]: the fragment is rejected. *)
Definition ra_announce (total : option Z) (block : Z) (e : ReassemblyEntry) : ReassemblyEntry * bool :=
  let '(e, rejected) :=
    match total with
    | Some total =>
        if ra_total_blocks e =? 0 then
          if negb (Z.shiftr (ra_received e) total =? 0) then (ra_reset e, true)
          else (set_ra_total_blocks total e, false)
        else (e, negb (ra_total_blocks e =? total))
    | None => (e, false)
    end in
  if rejected then (e, true)
  else (e, negb (ra_total_blocks e =? 0) && (ra_total_blocks e <=? block)).

(** The receive window, moved if the block opens the next one; [None]: the
    block is outside. *)
Definition ra_window (now_us window_size block : Z) (e : ReassemblyEntry) : option ReassemblyEntry :=
  if block <? ra_window_start e then None
  else if ra_window_start e + window_size <=? block then
    if negb (ra_window_complete e window_size) then None
    else
      let next_start := saturating_add_u8 (ra_window_start e) window_size in
      if next_start + window_size <=? block then None
      else Some (set_ra_last_progress_us now_us (set_ra_window_start next_start e))
  else Some e.

(** Append a block that is not there yet; [None]: it does not fit. *)
Definition ra_store {E} (now_us block : Z) (payload : list Z) (e : ReassemblyEntry)
    : outcome E (option ReassemblyEntry) :=
  let offset := Z.to_nat (ra_data_len e) in
  let end_ := (offset + length payload)%nat in
  if (length (ra_data e) <? end_)%nat then Ok None
  else
    data ← copy_from_slice (ra_data e) offset end_ payload;
    offsets ← put (ra_block_offset e) (Z.to_nat block) (as_u16 (Z.of_nat offset));
    lens ← put (ra_block_len e) (Z.to_nat block) (as_u8 (Z.of_nat (length payload)));
    let 'mk_ReassemblyEntry a d s i c t r w _ _ _ _ _ := e in
    Ok (Some (mk_ReassemblyEntry a d s i c t (Z.lor r (Z.shiftl 1 block)) w offsets lens data
                (as_u16 (Z.of_nat end_)) now_us)).

(** What [insert_block_inner] does with the entry of the session. *)
Definition ra_offer {E} (now_us window_size : Z) (src_ieee : option IeeeAddress)
    (fragmentation block : Z) (total : option Z) (payload : list Z) (e : ReassemblyEntry)
    : outcome E (ReassemblyEntry * FragmentOutcome) :=
  if ra_delivered e then Ok (e, FoPending None false)
  else
    let e := match ra_src_ieee e with None => set_ra_src_ieee src_ieee e | Some _ => e end in
    let '(e, rejected) := ra_announce total block e in
    if rejected then Ok (e, FoRejected)
    else
      match ra_window now_us window_size block e with
      | None => Ok (e, FoPending None false)
      | Some e =>
          r ← (if ra_has e block then Ok (Some (e, false))
               else e' ← ra_store now_us block payload e; Ok ((λ e', (e', true)) <$> e')
               : outcome E (option (ReassemblyEntry * bool)));
          match r with
          | None => Ok (ra_reset e, FoRejected)
          | Some (e, stored) =>
              if ra_is_complete e then Ok (e, FoComplete (ra_ack e fragmentation window_size))
              else
                let window_end := ra_window_end e window_size in
                let ack := if ra_all e (saturating_add_u8 block 1) window_end
                           then Some (ra_ack e fragmentation window_size) else None in
                Ok (e, FoPending ack stored)
          end
      end.

Definition insert_block_inner {E} (t : FragmentReassembly) (now_us window_size src_addr : Z)
    (src_ieee : option IeeeAddress) (aps_counter fragmentation block_field : Z) (payload : list Z)
    : outcome E (FragmentReassembly * FragmentOutcome) :=
  if (length t =? 0)%nat then Ok (t, FoRejected)
  else
    let window_size := clamp_window_size window_size in
    match fragment_fields fragmentation block_field payload with
    | None => Ok (t, FoRejected)
    | Some (block, total) =>
        match fr_session t now_us src_addr src_ieee aps_counter with
        | None => Ok (t, FoRejected)
        | Some (idx, t) =>
            entry ← index t idx;
            '(entry, out) ← ra_offer now_us window_size src_ieee fragmentation block total payload entry;
            Ok (<[idx := entry]> t, out)
        end
    end.

(** Sessions that hold no block are freed. *)
Definition fr_sweep (t : FragmentReassembly) : FragmentReassembly :=
  (λ e, if ra_active e && (ra_received e =? 0) then ra_reset e else e) <$> t.

Definition insert_block {E} (t : FragmentReassembly) (now_us window_size src_addr : Z)
    (src_ieee : option IeeeAddress) (aps_counter fragmentation block_field : Z) (payload : list Z)
    : outcome E (FragmentReassembly * FragmentOutcome) :=
  '(t, out) ← insert_block_inner t now_us window_size src_addr src_ieee aps_counter fragmentation
                block_field payload;
  Ok (if bool_decide (out = FoRejected) then fr_sweep t else t, out).

(** * Reading the ASDU and managing sessions *)

(** [for block in 0..total]: [k] blocks are left. *)
Fixpoint copy_blocks {E} (k block : nat) (e : ReassemblyEntry) (out : list Z) (written : nat)
    : outcome E (list Z * nat) :=
  match k with
  | O => Ok (out, written)
  | S k =>
      offset ← index (ra_block_offset e) block;
      len ← index (ra_block_len e) block;
      let offset := Z.to_nat offset in
      let len := Z.to_nat len in
      s ← slice (ra_data e) offset (offset + len);
      out ← copy_from_slice out written (written + len) s;
      copy_blocks k (S block) e out (written + len)
  end.

Definition take_reassembled {E} (t : FragmentReassembly) (src_addr : Z)
    (src_ieee : option IeeeAddress) (aps_counter : Z) (out : list Z)
    : outcome E (FragmentReassembly * list Z * option nat) :=
  match position (λ e, ra_matches src_addr src_ieee aps_counter e && negb (ra_delivered e)) t with
  | None => Ok (t, out, None)
  | Some idx =>
      entry ← index t idx;
      if negb (ra_is_complete entry) || (length out <? Z.to_nat (ra_data_len entry))%nat
      then Ok (t, out, None)
      else
        '(out, written) ← copy_blocks (Z.to_nat (ra_total_blocks entry)) 0 entry out 0;
        Ok (<[idx := set_ra_delivered true entry]> t, out, Some written)
  end.

Definition finalize_delivered (t : FragmentReassembly) : FragmentReassembly :=
  (λ e, if ra_active e && ra_delivered e then ra_reset e else e) <$> t.

Definition ra_named (src_addr aps_counter : Z) (e : ReassemblyEntry) : bool :=
  ra_active e && (ra_src_addr e =? src_addr) && (ra_aps_counter e =? aps_counter).

(** Forget one block and reclaim its storage if it was stored last. *)
Definition ra_clear_block {E} (block : Z) (e : ReassemblyEntry) : outcome E ReassemblyEntry :=
  if ra_has e block then
    let e := set_ra_received (Z.land (ra_received e) (not_u16 (Z.shiftl 1 block))) e in
    offset ← index (ra_block_offset e) (Z.to_nat block);
    len ← index (ra_block_len e) (Z.to_nat block);
    sum ← add_u16 offset len;
    Ok (if sum =? ra_data_len e then set_ra_data_len offset e else e)
  else Ok e.

(** The write through the session found by [rollback_block]. *)
Definition ra_rollback {E} (block : Z) (e : ReassemblyEntry) : outcome E ReassemblyEntry :=
  e ← ra_clear_block block (set_ra_delivered false e);
  Ok (if ra_received e =? 0 then ra_reset e else e).

Definition rollback_block {E} (t : FragmentReassembly) (src_addr aps_counter block : Z)
    : outcome E FragmentReassembly :=
  if (MAX_BLOCKS <=? Z.to_nat block)%nat then Ok t
  else
    match position (ra_named src_addr aps_counter) t with
    | None => Ok t
    | Some idx => entry ← index t idx; entry ← ra_rollback block entry; Ok (<[idx := entry]> t)
    end.

Definition complete_entry (t : FragmentReassembly) (src_addr aps_counter : Z) : FragmentReassembly :=
  modify_first (ra_named src_addr aps_counter) ra_reset t.

Definition fr_expire (t : FragmentReassembly) (now_us : Z) : FragmentReassembly :=
  (λ e, if ra_active e && negb (ra_delivered e)
           && (APS_FRAGMENT_RX_TIMEOUT_US <=? wrapping_sub_u32 now_us (ra_last_progress_us e))
        then ra_reset e else e) <$> t.

(** * The layout invariant *)
Definition seg_offset (e : ReassemblyEntry) (n : Z) : Z := ra_block_offset e !!! Z.to_nat n.
Definition seg_len (e : ReassemblyEntry) (n : Z) : Z := ra_block_len e !!! Z.to_nat n.
Definition ra_block (e : ReassemblyEntry) (n : Z) : list Z :=
  take (Z.to_nat (seg_len e n)) (drop (Z.to_nat (seg_offset e n)) (ra_data e)).

(** Octets stored for received blocks. *)
Definition stored_len (e : ReassemblyEntry) (n : Z) : Z :=
  if Z.testbit (ra_received e) n then seg_len e n else 0.

Record ra_wf (e : ReassemblyEntry) : Prop := {
  ra_wf_offsets : length (ra_block_offset e) = 16%nat;
  ra_wf_lens : length (ra_block_len e) = 16%nat;
  ra_wf_data : length (ra_data e) = 256%nat;
  ra_wf_received : is_u16 (ra_received e);
  ra_wf_total : 0 <= ra_total_blocks e <= 16;
  ra_wf_window : is_u8 (ra_window_start e);
  ra_wf_data_len : 0 <= ra_data_len e <= 256;
  ra_wf_seg : ∀ n, 0 <= n < 16 → Z.testbit (ra_received e) n = true →
    0 <= seg_offset e n ∧ 0 <= seg_len e n < 256 ∧ seg_offset e n + seg_len e n <= 256 ∧
    (seg_len e n = 0 ∨ seg_offset e n + seg_len e n <= ra_data_len e);
  ra_wf_disjoint : ∀ n m, 0 <= n < 16 → 0 <= m < 16 → n ≠ m →
    Z.testbit (ra_received e) n = true → Z.testbit (ra_received e) m = true →
    seg_len e n = 0 ∨ seg_len e m = 0 ∨
    seg_offset e n + seg_len e n <= seg_offset e m ∨ seg_offset e m + seg_len e m <= seg_offset e n;
  ra_wf_sum : sumZ (stored_len e) (seqZ 0 16) <= ra_data_len e }.

Lemma ra_has_testbit e b : 0 <= b < 16 → ra_has e b = Z.testbit (ra_received e) b.
Proof.
  intros Hb. unfold ra_has. rewrite has_bits_testbit by lia.
  by rewrite (proj2 (Nat.ltb_lt _ _)) by (unfold MAX_BLOCKS, APS_MAX_FRAGMENT_BLOCKS; lia).
Qed.

(** Changing fields the layout does not mention. *)
Lemma ra_wf_ext e e' :
  ra_block_offset e' = ra_block_offset e → ra_block_len e' = ra_block_len e → ra_data e' = ra_data e →
  ra_received e' = ra_received e → ra_data_len e' = ra_data_len e →
  0 <= ra_total_blocks e' <= 16 → is_u8 (ra_window_start e') → ra_wf e → ra_wf e'.
Proof.
  intros Ho Hl Hd Hr Hn Ht Hw [].
  assert (∀ n, seg_offset e' n = seg_offset e n) as Hso by (intros; unfold seg_offset; by rewrite Ho).
  assert (∀ n, seg_len e' n = seg_len e n) as Hsl by (intros; unfold seg_len; by rewrite Hl).
  split; rewrite ?Ho, ?Hl, ?Hd, ?Hr, ?Hn; try done.
  - intros n. rewrite Hso, Hsl. auto.
  - intros n m. rewrite !Hso, !Hsl. auto.
  - rewrite (sumZ_ext _ (stored_len e)); [done|]. intros n _. unfold stored_len. by rewrite Hr, Hsl.
Qed.

Lemma ra_block_ext e e' n :
  ra_block_offset e' = ra_block_offset e → ra_block_len e' = ra_block_len e → ra_data e' = ra_data e →
  ra_block e' n = ra_block e n.
Proof. intros Ho Hl Hd. unfold ra_block, seg_len, seg_offset. by rewrite Ho, Hl, Hd. Qed.

Lemma ra_wf_fresh e :
  length (ra_block_offset e) = 16%nat → length (ra_block_len e) = 16%nat →
  length (ra_data e) = 256%nat → ra_received e = 0 → ra_total_blocks e = 0 →
  ra_window_start e = 0 → ra_data_len e = 0 → ra_wf e.
Proof.
  intros Ho Hl Hd Hr Ht Hw Hn. split; rewrite ?Hr, ?Ht, ?Hw, ?Hn; try done.
  - intros n _. by rewrite Z.bits_0.
  - intros n m _ _ _. by rewrite Z.bits_0.
  - rewrite (sumZ_ext _ (λ _, 0)); [done|]. intros n _. unfold stored_len. by rewrite Hr, Z.bits_0.
Qed.

Lemma ra_wf_empty : ra_wf ra_empty.
Proof. by apply ra_wf_fresh. Qed.

Lemma ra_wf_reset e : ra_wf e → ra_wf (ra_reset e).
Proof.
  intros [Ho Hl Hd]. destruct e. apply ra_wf_fresh; simpl in *; try done. by rewrite length_fmap.
Qed.

Lemma ra_wf_open now src ieee c e : ra_wf e → ra_wf (ra_open now src ieee c e).
Proof.
  intros [Ho Hl Hd]. destruct e. apply ra_wf_fresh; simpl in *; try done. by rewrite length_fmap.
Qed.

(** ** Storing a block *)
Lemma take_drop_copy {A} (d p : list A) (o n k : nat) :
  (o + n <= k)%nat → (k <= length d)%nat →
  take n (drop o (take k d ++ p ++ drop (k + length p) d)) = take n (drop o d).
Proof.
  intros Hon Hk. rewrite drop_app_le by (rewrite length_take; lia).
  rewrite take_app_le by (rewrite length_drop, length_take; lia).
  rewrite skipn_firstn_comm, take_take. f_equal. lia.
Qed.

Lemma lookup_total_put (l : list Z) i j v :
  (i < length l)%nat → <[i:=v]> l !!! j = if decide (i = j) then v else l !!! j.
Proof.
  intros Hi. destruct (decide (i = j)) as [->|Hne].
  - by rewrite list_lookup_total_insert_eq.
  - by rewrite list_lookup_total_insert_ne.
Qed.

Lemma ra_store_spec {E} now b p e :
  ra_wf e → 0 <= b < 16 → Z.testbit (ra_received e) b = false → (length p < 256)%nat →
  ra_store (E:=E) now b p e = Ok None ∨
  ∃ e', ra_store (E:=E) now b p e = Ok (Some e') ∧ ra_wf e' ∧ ra_block e' b = p ∧
    (∀ n, 0 <= n < 16 → n ≠ b → Z.testbit (ra_received e) n = true → ra_block e' n = ra_block e n) ∧
    (∀ n, 0 <= n → Z.testbit (ra_received e') n = Z.testbit (ra_received e) n || (n =? b)) ∧
    ra_active e' = ra_active e ∧ ra_delivered e' = ra_delivered e ∧
    ra_src_addr e' = ra_src_addr e ∧ ra_aps_counter e' = ra_aps_counter e ∧
    ra_total_blocks e' = ra_total_blocks e ∧ ra_window_start e' = ra_window_start e ∧
    ra_src_ieee e' = ra_src_ieee e ∧ ra_data_len e' = ra_data_len e + Z.of_nat (length p).
Proof.
  intros Hwf Hb Hnb Hp. pose proof Hwf as [Ho Hl Hd Hr Ht Hw Hn Hseg Hdis Hsum].
  unfold ra_store. destruct (_ <? _)%nat eqn:Hfit; [by left|right]. bool_simpl. rewrite Hd in Hfit.
  unfold copy_from_slice. rewrite Hd.
  replace ((Z.to_nat (ra_data_len e) <=? Z.to_nat (ra_data_len e) + length p)%nat
    && (Z.to_nat (ra_data_len e) + length p <=? 256)%nat
    && (length p =? Z.to_nat (ra_data_len e) + length p - Z.to_nat (ra_data_len e))%nat) with true.
  2:{ symmetry. rewrite !andb_true_iff, !Nat.leb_le, Nat.eqb_eq. lia. }
  cbn [mbind outcome_bind]. unfold put. rewrite Ho, Hl.
  rewrite !(proj2 (Nat.ltb_lt _ _)) by lia. cbn [mbind outcome_bind].
  destruct e as [a d s i c t r w o l b' n q]. cbn [ra_block_offset ra_block_len ra_data ra_received
    ra_total_blocks ra_window_start ra_data_len] in *.
  replace (as_u16 (Z.of_nat (Z.to_nat n))) with n by (unfold as_u16; rewrite Z.mod_small; lia).
  replace (as_u16 (Z.of_nat (Z.to_nat n + length p))) with (n + Z.of_nat (length p))
    by (unfold as_u16; rewrite Z.mod_small; lia).
  replace (as_u8 (Z.of_nat (length p))) with (Z.of_nat (length p))
    by (unfold as_u8; rewrite Z.mod_small; lia).
  eexists. split; [reflexivity|]. set (e' := mk_ReassemblyEntry _ _ _ _ _ _ _ _ _ _ _ _ _).
  set (e := mk_ReassemblyEntry a d s i c t r w o l b' n q) in *.
  assert (∀ m, 0 <= m → seg_offset e' m = if decide (m = b) then n else seg_offset e m) as Hso.
  { intros m Hm. unfold seg_offset; simpl. rewrite lookup_total_put by lia.
    destruct (decide (m = b)) as [->|]; [by rewrite decide_True|rewrite decide_False by lia; done]. }
  assert (∀ m, 0 <= m → seg_len e' m = if decide (m = b) then Z.of_nat (length p) else seg_len e m) as Hsl.
  { intros m Hm. unfold seg_len; simpl. rewrite lookup_total_put by lia.
    destruct (decide (m = b)) as [->|]; [by rewrite decide_True|rewrite decide_False by lia; done]. }
  assert (∀ m, 0 <= m → Z.testbit (ra_received e') m = Z.testbit r m || (m =? b)) as Hbits.
  { intros m Hm. simpl. apply testbit_set; lia. }
  assert (∀ m, m ≠ b → 0 <= m → Z.testbit (ra_received e') m = Z.testbit r m) as Hother.
  { intros m Hne Hm. rewrite Hbits, (proj2 (Z.eqb_neq _ _) Hne) by done. apply orb_false_r. }
  assert (∀ m, 0 <= m < 16 → m ≠ b → Z.testbit r m = true → ra_block e' m = ra_block e m) as Hblk.
  { intros m Hm Hne Hrm. specialize (Hseg m Hm Hrm). unfold ra_block. rewrite Hso, Hsl by lia.
    rewrite !decide_False by done. simpl ra_data. destruct Hseg as (? & ? & ? & [->|?]); [done|].
    apply take_drop_copy; lia. }
  split_and!; try done.
  - split; simpl ra_data_len; simpl ra_total_blocks; simpl ra_window_start; try done.
    + simpl. by rewrite length_insert.
    + simpl. by rewrite length_insert.
    + simpl. rewrite !length_app, length_take, length_drop. lia.
    + by apply set_bit_u16.
    + lia.
    + intros m Hm Hrm. rewrite Hso, Hsl by lia. destruct (decide (m = b)) as [->|Hne]; [lia|].
      rewrite Hother in Hrm by lia. specialize (Hseg m Hm Hrm). lia.
    + intros m k Hm Hk Hmk Hrm Hrk. rewrite !Hso, !Hsl by lia.
      destruct (decide (m = b)) as [->|Hmb], (decide (k = b)) as [->|Hkb]; [done|..].
      * rewrite Hother in Hrk by lia. specialize (Hseg k Hk Hrk). lia.
      * rewrite Hother in Hrm by lia. specialize (Hseg m Hm Hrm). lia.
      * rewrite Hother in Hrm, Hrk by lia. auto.
    + rewrite (sumZ_update (stored_len e) _ _ b); [|apply NoDup_seqZ|apply elem_of_seqZ; lia|].
      * unfold stored_len at 2 3. simpl ra_received at 1. rewrite Hnb, Hbits, Z.eqb_refl, orb_true_r by lia.
        rewrite Hsl, decide_True by (done || lia). lia.
      * intros m Hm Hne. apply elem_of_seqZ in Hm. unfold stored_len.
        by rewrite Hother, Hsl, decide_False by (done || lia).
  - unfold ra_block. rewrite Hso, Hsl, !decide_True by (done || lia). simpl ra_data.
    rewrite Nat2Z.id, drop_app_length' by (rewrite length_take; lia). apply take_app_length.
Qed.

(** * Agreement with what the sender cut its ASDU into *)
Record ra_honest (truth : list (list Z)) (e : ReassemblyEntry) : Prop := {
  ra_honest_total : ra_total_blocks e = 0 ∨ ra_total_blocks e = Z.of_nat (length truth);
  ra_honest_block : ∀ n, 0 <= n < 16 → Z.testbit (ra_received e) n = true →
    truth !! Z.to_nat n = Some (ra_block e n) }.

(** Same session, same layout. *)
Record same_layout (e e' : ReassemblyEntry) : Prop := {
  sl_offset : ra_block_offset e' = ra_block_offset e;
  sl_len : ra_block_len e' = ra_block_len e;
  sl_data : ra_data e' = ra_data e;
  sl_received : ra_received e' = ra_received e;
  sl_data_len : ra_data_len e' = ra_data_len e;
  sl_active : ra_active e' = ra_active e;
  sl_src : ra_src_addr e' = ra_src_addr e;
  sl_counter : ra_aps_counter e' = ra_aps_counter e }.

Lemma same_layout_wf e e' :
  same_layout e e' → 0 <= ra_total_blocks e' <= 16 → is_u8 (ra_window_start e') → ra_wf e → ra_wf e'.
Proof. intros []. by apply ra_wf_ext. Qed.

Lemma same_layout_honest truth e e' :
  same_layout e e' → ra_total_blocks e' = 0 ∨ ra_total_blocks e' = Z.of_nat (length truth) →
  ra_honest truth e → ra_honest truth e'.
Proof.
  intros [] Ht [_ Hb]. split; [done|]. intros n Hn Hr. rewrite (ra_block_ext e e') by done.
  apply Hb; [done|congruence].
Qed.

Lemma same_layout_refl e : same_layout e e.
Proof. done. Qed.

Lemma same_layout_trans a b c : same_layout a b → same_layout b c → same_layout a c.
Proof. intros [] []. split; congruence. Qed.

(** What one step may do to an entry. *)
Definition entry_kept (truth_ok : list (list Z) → Prop) (e e' : ReassemblyEntry) : Prop :=
  ra_wf e' ∧
  (ra_active e' = true →
     ra_active e = true ∧ ra_src_addr e' = ra_src_addr e ∧ ra_aps_counter e' = ra_aps_counter e ∧
     ∀ truth, truth_ok truth → ra_honest truth e → ra_honest truth e').

Lemma entry_kept_reset ok e : ra_wf e → entry_kept ok e (ra_reset e).
Proof. intros Hwf. split; [by apply ra_wf_reset|]. by destruct e. Qed.

Lemma entry_kept_refl ok e : ra_wf e → entry_kept ok e e.
Proof. done. Qed.

Lemma entry_kept_trans ok e1 e2 e3 : entry_kept ok e1 e2 → entry_kept ok e2 e3 → entry_kept ok e1 e3.
Proof.
  intros [_ H12] [Hwf H23]. split; [done|]. intros Ha.
  destruct (H23 Ha) as (Ha2 & ? & ? & Hh23). destruct (H12 Ha2) as (? & ? & ? & Hh12).
  split_and!; [done|congruence|congruence|]. eauto.
Qed.

Lemma entry_kept_layout ok e e' :
  ra_wf e → same_layout e e' → ra_total_blocks e' = ra_total_blocks e → is_u8 (ra_window_start e') →
  entry_kept ok e e'.
Proof.
  intros Hwf Hs Ht Hw. split.
  - eapply same_layout_wf; [done|rewrite Ht; apply Hwf|done|done].
  - intros Ha. pose proof Hs as []. split_and!; [congruence|done|done|].
    intros truth _ Hh. eapply same_layout_honest; [done| |done]. rewrite Ht. apply Hh.
Qed.

(** The fragment agrees with the sender's blocks. *)
Definition fragment_honest (block : Z) (total : option Z) (payload : list Z) (truth : list (list Z)) : Prop :=
  truth !! Z.to_nat block = Some payload ∧ ∀ t, total = Some t → t = Z.of_nat (length truth).

Lemma ra_announce_kept total b p e :
  ra_wf e → (∀ t, total = Some t → 1 <= t <= 16) →
  entry_kept (fragment_honest b total p) e (ra_announce total b e).1 ∧
  ((ra_announce total b e).2 = false →
     ra_delivered (ra_announce total b e).1 = ra_delivered e ∧
     ra_active (ra_announce total b e).1 = ra_active e ∧
     ra_src_ieee (ra_announce total b e).1 = ra_src_ieee e).
Proof.
  intros Hwf Ht. unfold ra_announce. destruct total as [t|]; [|done].
  specialize (Ht t eq_refl). destruct (ra_total_blocks e =? 0) eqn:H0.
  - destruct (negb _); [split; [by apply entry_kept_reset|done]|]. cbn [fst snd].
    split; [|by destruct e]. split.
    + apply (same_layout_wf e); [by destruct e|destruct e; simpl; lia|destruct e; apply Hwf|done].
    + intros Ha. split_and!; [by destruct e..|]. intros truth [_ Htr] Hh.
      apply (same_layout_honest truth e); [by destruct e|right|done]. destruct e. simpl. auto.
  - destruct (negb (_ =? t)); done.
Qed.

Lemma ra_window_kept ok now ws b e e' :
  ra_wf e → 1 <= ws <= 8 → ra_window now ws b e = Some e' →
  entry_kept ok e e' ∧ ra_delivered e' = ra_delivered e ∧ ra_active e' = ra_active e ∧
  ra_src_ieee e' = ra_src_ieee e.
Proof.
  intros Hwf Hws. unfold ra_window. pose proof (ra_wf_window _ Hwf) as Hw.
  repeat case_match; try done; intros [= <-]; [|done]. split_and!; [|by destruct e..].
  apply entry_kept_layout; [done|by destruct e|by destruct e|]. destruct e. simpl in *.
  unfold is_u8, saturating_add_u8 in *. lia.
Qed.

Lemma ra_store_kept {E} now b total p e :
  ra_wf e → 0 <= b < 16 → ra_has e b = false → (length p < 256)%nat →
  ra_store (E:=E) now b p e = Ok None ∨
  ∃ e', ra_store (E:=E) now b p e = Ok (Some e') ∧ entry_kept (fragment_honest b total p) e e' ∧
    ra_delivered e' = ra_delivered e ∧ ra_active e' = ra_active e ∧ ra_src_ieee e' = ra_src_ieee e.
Proof.
  intros Hwf Hb Hnb Hp. rewrite ra_has_testbit in Hnb by done.
  destruct (ra_store_spec (E:=E) now b p e Hwf Hb Hnb Hp)
    as [?|(e' & He' & Hwf' & Hbp & Hblk & Hbits & Ha & Hd & Hs & Hc & Ht & _ & Hi & _)]; [by left|right].
  exists e'. split_and!; [done| |done..]. split; [done|]. intros Ha'.
  split_and!; [congruence|done|done|]. intros truth [Htr _] [Htot Hh]. split; [by rewrite Ht|].
  intros n Hn Hr. destruct (decide (n = b)) as [->|Hne]; [by rewrite Hbp|].
  rewrite Hbits, (proj2 (Z.eqb_neq _ _) Hne), orb_false_r in Hr by lia. rewrite Hblk by done. auto.
Qed.

Lemma ra_offer_kept {E} now ws ieee frag b total p e :
  ra_wf e → ra_active e = true → 1 <= ws <= 8 → 0 <= b < 16 → (length p < 256)%nat →
  (∀ t, total = Some t → 1 <= t <= 16) →
  ∃ e' out, ra_offer (E:=E) now ws ieee frag b total p e = Ok (e', out) ∧
    entry_kept (fragment_honest b total p) e e' ∧
    (∀ ack, out = FoComplete ack → ra_is_complete e' = true ∧ ra_delivered e' = false ∧
       ra_active e' = true ∧ ra_src_ieee e' = match ra_src_ieee e with Some i => Some i | None => ieee end).
Proof.
  intros Hwf Hact Hws Hb Hp Ht. unfold ra_offer. destruct (ra_delivered e) eqn:Hdel; [by eexists _, _|].
  set (e1 := match ra_src_ieee e with None => set_ra_src_ieee ieee e | Some _ => e end).
  assert (entry_kept (fragment_honest b total p) e e1) as K1.
  { unfold e1. destruct (ra_src_ieee e); [done|]. apply entry_kept_layout; [done|by destruct e..|].
    destruct e. apply Hwf. }
  assert (ra_delivered e1 = false ∧ ra_active e1 = true ∧
    ra_src_ieee e1 = match ra_src_ieee e with Some i => Some i | None => ieee end) as (Hd1 & Ha1 & Hi1).
  { unfold e1. destruct (ra_src_ieee e) eqn:?; [done|]. by destruct e. }
  destruct (ra_announce_kept total b p e1 (proj1 K1) Ht) as [K2 Hk2].
  destruct (ra_announce total b e1) as [e2 rejected]. cbn [fst snd] in *.
  pose proof (entry_kept_trans _ _ _ _ K1 K2) as K12.
  destruct rejected; [by eexists _, _|]. destruct (Hk2 eq_refl) as (Hd2 & Ha2 & Hi2).
  destruct (ra_window now ws b e2) as [e3|] eqn:Hwin; [|by eexists _, _].
  destruct (ra_window_kept (fragment_honest b total p) _ _ _ _ _ (proj1 K2) Hws Hwin) as (K3 & Hd3 & Ha3 & Hi3).
  pose proof (entry_kept_trans _ _ _ _ K12 K3) as K13.
  assert (∃ r, (if ra_has e3 b then Ok (Some (e3, false))
      else e' ← ra_store now b p e3; Ok ((λ e', (e', true)) <$> e')) = Ok (E:=E) r ∧
    match r with
    | None => True
    | Some (e4, _) => entry_kept (fragment_honest b total p) e3 e4 ∧ ra_delivered e4 = ra_delivered e3 ∧
        ra_active e4 = ra_active e3 ∧ ra_src_ieee e4 = ra_src_ieee e3
    end) as (r & -> & Hr).
  { destruct (ra_has e3 b) eqn:Hh; [eexists; split; [done|]; split_and!; [apply entry_kept_refl, K3|done..]|].
    destruct (ra_store_kept (E:=E) now b total p e3 (proj1 K3) Hb Hh Hp) as [->|(e4 & -> & K4 & ?)];
      cbn [mbind outcome_bind fmap option_fmap option_map]; eexists; split; [done|done|done|done]. }
  cbn [mbind outcome_bind]. destruct r as [[e4 stored]|].
  - destruct Hr as (K4 & Hd4 & Ha4 & Hi4). pose proof (entry_kept_trans _ _ _ _ K13 K4) as K14.
    destruct (ra_is_complete e4) eqn:Hc; eexists _, _; (split; [reflexivity|]); (split; [done|]);
      [|done]. intros ack _. split_and!; congruence.
  - eexists _, _. split; [reflexivity|]. split; [|done].
    eapply entry_kept_trans; [exact K13|]. apply entry_kept_reset, K3.
Qed.

(** ** Roll back *)
Lemma ra_clear_block_kept {E} ok b e0 :
  ra_wf e0 → 0 <= b < 16 →
  ∃ e', ra_clear_block (E:=E) b e0 = Ok e' ∧ entry_kept ok e0 e'.
Proof.
  intros Hwf0 Hb. unfold ra_clear_block. destruct (ra_has e0 b) eqn:Hh; [|by exists e0].
  rewrite ra_has_testbit in Hh by done. pose proof Hwf0 as [Ho Hl Hd Hr Ht Hw Hn Hseg Hdis Hsum].
  destruct (Hseg b Hb Hh) as (Ho0 & Hl0 & Hol & Hend).
  cbv zeta. set (r' := Z.land _ _).
  assert (ra_block_offset e0 !! Z.to_nat b = Some (seg_offset e0 b)) as Hlo.
  { unfold seg_offset. apply list_lookup_lookup_total_lt. lia. }
  assert (ra_block_len e0 !! Z.to_nat b = Some (seg_len e0 b)) as Hll.
  { unfold seg_len. apply list_lookup_lookup_total_lt. lia. }
  replace (ra_block_offset (set_ra_received r' e0)) with (ra_block_offset e0) by by destruct e0.
  replace (ra_block_len (set_ra_received r' e0)) with (ra_block_len e0) by by destruct e0.
  rewrite (index_Some _ _ _ Hlo), (index_Some _ _ _ Hll). cbn [mbind outcome_bind].
  unfold add_u16. rewrite (proj2 (Z.ltb_lt _ _)) by lia. cbn [mbind outcome_bind].
  replace (ra_data_len (set_ra_received r' e0)) with (ra_data_len e0) by by destruct e0.
  eexists. split; [reflexivity|]. match goal with |- entry_kept _ _ ?x => set (e1 := x) end.
  set (n1 := if seg_offset e0 b + seg_len e0 b =? ra_data_len e0 then seg_offset e0 b else ra_data_len e0).
  assert (ra_block_offset e1 = ra_block_offset e0 ∧ ra_block_len e1 = ra_block_len e0 ∧
    ra_data e1 = ra_data e0 ∧ ra_received e1 = r' ∧ ra_data_len e1 = n1 ∧
    ra_total_blocks e1 = ra_total_blocks e0 ∧ ra_window_start e1 = ra_window_start e0 ∧
    ra_active e1 = ra_active e0 ∧ ra_src_addr e1 = ra_src_addr e0 ∧ ra_aps_counter e1 = ra_aps_counter e0)
    as (Fo & Fl & Fd & Fr & Fn & Ft & Fw & Fa & Fs & Fc).
  { unfold e1, n1. case_match; by destruct e0. }
  clearbody e1.
  assert (∀ n, seg_offset e1 n = seg_offset e0 n) as Hso by (intros; unfold seg_offset; by rewrite Fo).
  assert (∀ n, seg_len e1 n = seg_len e0 n) as Hsl by (intros; unfold seg_len; by rewrite Fl).
  assert (∀ n, 0 <= n < 16 → Z.testbit r' n = Z.testbit (ra_received e0) n && negb (n =? b)) as Hbits.
  { intros n Hn'. apply testbit_clear16; lia. }
  assert (∀ n, 0 <= n < 16 → Z.testbit r' n = true → n ≠ b ∧ Z.testbit (ra_received e0) n = true) as Hkeep.
  { intros n Hn' Hr'. rewrite Hbits in Hr' by done. bool_simpl. done. }
  split.
  - split; rewrite ?Fo, ?Fl, ?Fd, ?Fr, ?Ft, ?Fw, ?Fn; try done.
    + apply land_u16; [done|]. apply Z.land_nonneg. left. apply Hr.
    + unfold n1. case_match; lia.
    + intros n Hn' Hr'. destruct (Hkeep n Hn' Hr') as [Hne Hrn]. rewrite Hso, Hsl.
      destruct (Hseg n Hn' Hrn) as (? & ? & ? & ?). split_and!; [lia..|].
      specialize (Hdis n b Hn' Hb Hne Hrn Hh). unfold n1. case_match; bool_simpl; lia.
    + intros n m Hn' Hm Hne Hrn Hrm. rewrite !Hso, !Hsl.
      apply Hdis; [done..|by apply Hkeep|by apply Hkeep].
    + rewrite (sumZ_update (stored_len e0) _ _ b); [|apply NoDup_seqZ|apply elem_of_seqZ; lia|].
      * unfold stored_len at 2 3. rewrite Fr, Hh, Hbits, Z.eqb_refl, andb_false_r by done.
        unfold n1. case_match; bool_simpl; lia.
      * intros n Hn'%elem_of_seqZ Hne. unfold stored_len. rewrite Fr, Hbits, Hsl by lia.
        by rewrite (proj2 (Z.eqb_neq _ _) Hne), andb_true_r.
  - intros Ha. split_and!; [congruence|done|done|]. intros truth _ [Htot Hblk].
    split; [by rewrite Ft|]. intros n Hn' Hr'. rewrite Fr in Hr'. destruct (Hkeep n Hn' Hr') as [_ Hrn].
    rewrite (ra_block_ext e0 e1) by done. auto.
Qed.

Lemma ra_rollback_kept {E} ok b e :
  ra_wf e → 0 <= b < 16 →
  ∃ e', ra_rollback (E:=E) b e = Ok e' ∧ entry_kept ok e e'.
Proof.
  intros Hwf Hb. unfold ra_rollback.
  assert (entry_kept ok e (set_ra_delivered false e)) as K0.
  { apply entry_kept_layout; [done|by destruct e..|]. destruct e. apply Hwf. }
  destruct (ra_clear_block_kept (E:=E) ok b _ (proj1 K0) Hb) as (e1 & -> & K1).
  cbn [mbind outcome_bind]. pose proof (entry_kept_trans _ _ _ _ K0 K1) as K01.
  eexists. split; [reflexivity|]. case_match; [|done].
  eapply entry_kept_trans; [exact K01|]. apply entry_kept_reset, K1.
Qed.

(** * The table *)
Inductive fr_op :=
| FopInsert (now_us window_size src_addr : Z) (src_ieee : option IeeeAddress)
    (aps_counter fragmentation block_field : Z) (payload : list Z)
| FopTake (src_addr : Z) (src_ieee : option IeeeAddress) (aps_counter : Z) (out : list Z)
| FopFinalize
| FopRollback (src_addr aps_counter block : Z)
| FopComplete (src_addr aps_counter : Z)
| FopExpire (now_us : Z).

Definition fr_step {E} (t : FragmentReassembly) (op : fr_op) : outcome E FragmentReassembly :=
  match op with
  | FopInsert now ws src ieee c frag field p =>
      '(t, _) ← insert_block t now ws src ieee c frag field p; Ok t
  | FopTake src ieee c out => '(t, _, _) ← take_reassembled t src ieee c out; Ok t
  | FopFinalize => Ok (finalize_delivered t)
  | FopRollback src c b => rollback_block t src c b
  | FopComplete src c => Ok (complete_entry t src c)
  | FopExpire now => Ok (fr_expire t now)
  end.

Fixpoint fr_run {E} (t : FragmentReassembly) (ops : list fr_op) : outcome E FragmentReassembly :=
  match ops with [] => Ok t | op :: ops => t ← fr_step t op; fr_run t ops end.

(** Octet-valued arguments are octets. *)
Definition op_wf (op : fr_op) : Prop :=
  match op with
  | FopInsert _ ws _ _ _ _ field _ => is_u8 ws ∧ is_u8 field
  | FopRollback _ _ b => is_u8 b
  | _ => True
  end.

(** What every sender, identified by short address and APS counter, has cut
    its ASDU into. *)
Abbreviation senders := (Z → Z → list (list Z)) (only parsing).

Definition op_honest (truth : senders) (op : fr_op) : Prop :=
  match op with
  | FopInsert _ _ src _ c frag field p =>
      ∀ b total, fragment_fields frag field p = Some (b, total) → fragment_honest b total p (truth src c)
  | _ => True
  end.

Definition entry_ok (truth : option senders) (e : ReassemblyEntry) : Prop :=
  ra_wf e ∧ ∀ tr, truth = Some tr → ra_active e = true → ra_honest (tr (ra_src_addr e) (ra_aps_counter e)) e.

Definition fr_inv (truth : option senders) (t : FragmentReassembly) : Prop :=
  length t = MAX_ENTRIES ∧ Forall (entry_ok truth) t.

Lemma entry_ok_kept truth ok e e' :
  entry_ok truth e → entry_kept ok e e' →
  (∀ tr, truth = Some tr → ok (tr (ra_src_addr e) (ra_aps_counter e))) → entry_ok truth e'.
Proof.
  intros [Hwf Hh] [Hwf' Hk] Hok. split; [done|]. intros tr Htr Ha.
  destruct (Hk Ha) as (Ha0 & -> & -> & Hk'). eauto.
Qed.

Lemma entry_ok_reset truth e : entry_ok truth e → entry_ok truth (ra_reset e).
Proof. intros [Hwf _]. split; [by apply ra_wf_reset|]. by destruct e. Qed.

Lemma fr_inv_new truth : fr_inv truth fr_new.
Proof.
  split; [done|]. apply Forall_forall. intros x ->%list_elem_of_In%repeat_spec.
  split; [apply ra_wf_empty|done].
Qed.

Lemma fr_inv_map truth (f : ReassemblyEntry → ReassemblyEntry) t :
  (∀ e, entry_ok truth e → entry_ok truth (f e)) → fr_inv truth t → fr_inv truth (f <$> t).
Proof.
  intros Hf [Hl Ht]. split; [by rewrite length_fmap|]. apply Forall_fmap.
  eapply Forall_impl; [done|]. auto.
Qed.

Lemma fr_inv_insert truth t i e : fr_inv truth t → entry_ok truth e → fr_inv truth (<[i:=e]> t).
Proof. intros [Hl Ht] He. split; [by rewrite length_insert|by apply Forall_insert]. Qed.

Lemma fr_inv_lookup truth t i e : fr_inv truth t → t !! i = Some e → entry_ok truth e.
Proof. intros [_ Ht] He. by eapply Forall_lookup_1. Qed.

Lemma entry_ok_open truth now src ieee c e :
  entry_ok truth e → entry_ok truth (ra_open now src ieee c e).
Proof.
  intros [Hwf _]. split; [by apply ra_wf_open|]. intros tr _ _. destruct e. split; [by left|].
  intros n _. simpl. by rewrite Z.bits_0.
Qed.

Lemma fragment_fields_bounds frag field p b total :
  is_u8 field → fragment_fields frag field p = Some (b, total) →
  0 <= b < 16 ∧ (length p < 256)%nat ∧ ∀ t, total = Some t → 1 <= t <= 16.
Proof.
  intros Hf. unfold fragment_fields. unfold is_u8 in Hf. unfold APS_MAX_FRAGMENT_BLOCKS.
  destruct (frag =? FRAG_FIRST); [|destruct (frag =? FRAG_SUBSEQUENT); [|done]]; cbn [mbind option_bind].
  - destruct ((field =? 0) || (16 <? field)) eqn:H1; [done|].
    destruct (((frag =? FRAG_SUBSEQUENT) && (0 =? 0)) || (16 <=? 0)); [done|].
    destruct (255 <? _)%nat eqn:H3; [done|]. intros [= <- <-].
    apply orb_false_iff in H1 as [?%Z.eqb_neq ?%Z.ltb_ge]. apply Nat.ltb_ge in H3.
    split_and!; [lia..|]. intros t [= <-]. lia.
  - destruct ((true && (field =? 0)) || (16 <=? field)) eqn:H2; [done|].
    destruct (255 <? _)%nat eqn:H3; [done|]. intros [= <- <-].
    apply orb_false_iff in H2 as [_ ?%Z.leb_gt]. apply Nat.ltb_ge in H3. split_and!; [lia..|done].
Qed.

(** The session a fragment belongs to. *)
Lemma fr_session_Some truth t now src ieee c idx t1 :
  fr_inv truth t → fr_session t now src ieee c = Some (idx, t1) →
  fr_inv truth t1 ∧ ∃ e, t1 !! idx = Some e ∧ ra_active e = true ∧ ra_src_addr e = src ∧ ra_aps_counter e = c ∧
    ra_matches src ieee c e = true ∧
    ∀ j x, (j < idx)%nat → t1 !! j = Some x → ra_matches src ieee c x = false.
Proof.
  intros Hinv. unfold fr_session. destruct (position (ra_matches src ieee c) t) as [i|] eqn:Hp.
  - intros [= <- <-]. apply position_Some in Hp as (e & He & Hm & Hbefore). split; [done|]. exists e.
    assert (ra_active e = true ∧ ra_src_addr e = src ∧ ra_aps_counter e = c) as (? & ? & ?).
    { unfold ra_matches in Hm. rewrite !andb_true_iff, !Z.eqb_eq in Hm. tauto. }
    repeat (split; [done|]). intros j x Hj Hx. eapply Hbefore; done.
  - destruct (position (λ e, negb (ra_active e)) t) as [i|] eqn:Hi; [|done]. intros [= <- <-].
    apply position_Some in Hi as (e & He & Hna & _). rewrite (alter_insert _ _ _ _ He).
    split; [apply fr_inv_insert; [done|]; eapply entry_ok_open, fr_inv_lookup; done|].
    exists (ra_open now src ieee c e). rewrite list_lookup_insert_eq by by eapply lookup_lt_Some.
    split_and!; [done|by destruct e..| |].
    + unfold ra_matches. destruct e. simpl. rewrite !Z.eqb_refl. simpl.
      destruct ieee; [|done]. unfold ieee_eqb. by rewrite bool_decide_true.
    + intros j x Hj Hx. rewrite list_lookup_insert_ne in Hx by lia. rewrite position_None in Hp.
      apply Hp. by eapply list_elem_of_lookup_2.
Qed.

Lemma clamp_window_size_bounds w : 0 <= w → 1 <= clamp_window_size w <= 8.
Proof. intros Hw. unfold clamp_window_size, APS_MAX_WINDOW_SIZE. repeat case_match; bool_simpl; lia. Qed.

(** The entry a read will find: the first one of this sender that is not
    delivered, with every block there. *)
Definition ready_session (t : FragmentReassembly) (src : Z) (ieee : option IeeeAddress) (c : Z)
    (idx : nat) (e : ReassemblyEntry) : Prop :=
  t !! idx = Some e ∧ ra_is_complete e = true ∧
  position (λ e, ra_matches src ieee c e && negb (ra_delivered e)) t = Some idx.

Lemma ready_session_intro t src ieee c idx e :
  t !! idx = Some e → ra_is_complete e = true → ra_matches src ieee c e = true → ra_delivered e = false →
  (∀ j x, (j < idx)%nat → t !! j = Some x → ra_matches src ieee c x = false) →
  ready_session t src ieee c idx e.
Proof.
  intros He Hc Hm Hd Hb. split_and!; [done|done|]. apply position_Some. exists e.
  split_and!; [done|by rewrite Hm, Hd|]. intros j y Hj Hy. by rewrite (Hb j y).
Qed.

Lemma ra_matches_learned src ieee c e e' :
  ra_matches src ieee c e = true → ra_active e' = true → ra_src_addr e' = ra_src_addr e →
  ra_aps_counter e' = ra_aps_counter e →
  ra_src_ieee e' = match ra_src_ieee e with Some i => Some i | None => ieee end →
  ra_matches src ieee c e' = true.
Proof.
  unfold ra_matches. intros Hm -> -> -> ->. rewrite !andb_true_iff in *.
  destruct Hm as (((_ & ?) & ?) & Hi). split_and!; [done..|].
  destruct (ra_src_ieee e), ieee; try done. unfold ieee_eqb. by rewrite bool_decide_true.
Qed.

Lemma insert_block_inner_inv {E} truth t now ws src ieee c frag field p :
  fr_inv truth t → is_u8 ws → is_u8 field →
  (∀ tr, truth = Some tr → op_honest tr (FopInsert now ws src ieee c frag field p)) →
  ∃ t' out, insert_block_inner (E:=E) t now ws src ieee c frag field p = Ok (t', out) ∧
    fr_inv truth t' ∧ (∀ ack, out = FoComplete ack → ∃ idx e, ready_session t' src ieee c idx e ∧
      ra_active e = true ∧ ra_src_addr e = src ∧ ra_aps_counter e = c).
Proof.
  intros Hinv Hws Hf Hop. unfold insert_block_inner. destruct (_ =? 0)%nat; [by eexists _, _|].
  destruct (fragment_fields frag field p) as [[b total]|] eqn:Hff; [|by eexists _, _].
  destruct (fragment_fields_bounds _ _ _ _ _ Hf Hff) as (Hb & Hp & Ht).
  destruct (fr_session t now src ieee c) as [[idx t1]|] eqn:Hs; [|by eexists _, _].
  destruct (fr_session_Some truth t now src ieee c idx t1 Hinv Hs)
    as (Hinv1 & e & He & Ha & Hsrc & Hc & Hm & Hbefore).
  pose proof (fr_inv_lookup _ _ _ _ Hinv1 He) as Hok.
  rewrite (index_Some _ _ _ He). cbn [mbind outcome_bind].
  destruct (ra_offer_kept (E:=E) now (clamp_window_size ws) ieee frag b total p e (proj1 Hok) Ha
    (clamp_window_size_bounds _ (proj1 Hws)) Hb Hp Ht) as (e' & out & -> & K & Hcomp).
  cbn [mbind outcome_bind]. eexists _, _. split; [reflexivity|]. split.
  - apply fr_inv_insert; [done|]. eapply entry_ok_kept; [done|done|]. intros tr Htr. rewrite Hsrc, Hc.
    by apply (Hop tr Htr).
  - intros ack ->. destruct (Hcomp ack eq_refl) as (Hc' & Hd' & Ha' & Hi').
    destruct (proj2 K Ha') as (_ & Hs' & Hn' & _). exists idx, e'.
    split_and!; [|done|congruence..]. apply ready_session_intro; [|done| |done|].
    + apply list_lookup_insert_eq. by eapply lookup_lt_Some.
    + by eapply ra_matches_learned.
    + intros j x Hj Hx. rewrite list_lookup_insert_ne in Hx by lia. eauto.
Qed.

Lemma fr_inv_sweep truth t : fr_inv truth t → fr_inv truth (fr_sweep t).
Proof. apply fr_inv_map. intros e He. case_match; [by apply entry_ok_reset|done]. Qed.

Lemma insert_block_inv {E} truth t now ws src ieee c frag field p :
  fr_inv truth t → is_u8 ws → is_u8 field →
  (∀ tr, truth = Some tr → op_honest tr (FopInsert now ws src ieee c frag field p)) →
  ∃ t' out, insert_block (E:=E) t now ws src ieee c frag field p = Ok (t', out) ∧
    fr_inv truth t' ∧ (∀ ack, out = FoComplete ack → ∃ idx e, ready_session t' src ieee c idx e ∧
      ra_active e = true ∧ ra_src_addr e = src ∧ ra_aps_counter e = c).
Proof.
  intros Hinv Hws Hf Hop. unfold insert_block.
  destruct (insert_block_inner_inv (E:=E) truth t now ws src ieee c frag field p Hinv Hws Hf Hop)
    as (t' & out & -> & Hinv' & Hr). cbn [mbind outcome_bind]. eexists _, _. split; [reflexivity|].
  destruct (bool_decide_reflect (out = FoRejected)) as [->|]; [|done].
  split; [by apply fr_inv_sweep|done].
Qed.

(** ** Reading *)
Lemma seqZ_S (n : nat) : seqZ 0 (Z.of_nat (S n)) = seqZ 0 (Z.of_nat n) ++ [Z.of_nat n].
Proof. replace (Z.of_nat (S n)) with (Z.of_nat n + 1) by lia. rewrite seqZ_app by lia. done. Qed.

Definition ra_prefix (e : ReassemblyEntry) (n : nat) : list Z :=
  concat (ra_block e <$> seqZ 0 (Z.of_nat n)).

Lemma ra_prefix_S e n : ra_prefix e (S n) = ra_prefix e n ++ ra_block e (Z.of_nat n).
Proof. unfold ra_prefix. rewrite seqZ_S, fmap_app, concat_app. simpl. by rewrite app_nil_r. Qed.

Lemma ra_block_length e n :
  ra_wf e → 0 <= n < 16 → Z.testbit (ra_received e) n = true →
  Z.of_nat (length (ra_block e n)) = stored_len e n.
Proof.
  intros Hwf Hn Hr. destruct (ra_wf_seg e Hwf n Hn Hr) as (? & ? & ? & _).
  unfold stored_len, ra_block. rewrite Hr, length_take, length_drop, (ra_wf_data e Hwf). lia.
Qed.

Lemma ra_is_complete_bits e :
  ra_wf e → ra_is_complete e = true →
  1 <= ra_total_blocks e <= 16 ∧
  ∀ n, 0 <= n < ra_total_blocks e → Z.testbit (ra_received e) n = true.
Proof.
  intros Hwf. pose proof (ra_wf_total e Hwf) as Ht. unfold ra_is_complete, ra_all.
  rewrite andb_true_iff, negb_true_iff, Z.eqb_neq, forallb_forall. intros [H0 Hall]. split; [lia|].
  intros n Hn. rewrite <- ra_has_testbit by lia. apply Hall, list_elem_of_In, elem_of_seqZ. lia.
Qed.

Lemma sumZ_prefix f (n m : nat) :
  (n <= m)%nat → (∀ k, 0 <= k → 0 <= f k) → sumZ f (seqZ 0 (Z.of_nat n)) <= sumZ f (seqZ 0 (Z.of_nat m)).
Proof.
  intros Hnm Hf. replace (Z.of_nat m) with (Z.of_nat n + Z.of_nat (m - n)) by lia.
  rewrite seqZ_app, sumZ_app by lia. assert (0 <= sumZ f (seqZ (0 + Z.of_nat n) (Z.of_nat (m - n)))); [|lia].
  apply sumZ_nonneg. intros k Hk%elem_of_seqZ. apply Hf. lia.
Qed.

Lemma ra_prefix_length e n :
  ra_wf e → ra_is_complete e = true → Z.of_nat n <= ra_total_blocks e →
  Z.of_nat (length (ra_prefix e n)) <= ra_data_len e.
Proof.
  intros Hwf [Ht Hbits]%ra_is_complete_bits Hn; [|done].
  assert (Z.of_nat (length (ra_prefix e n)) = sumZ (stored_len e) (seqZ 0 (Z.of_nat n))) as ->.
  { induction n as [|n IH]; [done|]. rewrite ra_prefix_S, length_app, seqZ_S, sumZ_app.
    rewrite Nat2Z.inj_add, IH, ra_block_length by (done || lia || (apply Hbits; lia)). simpl. lia. }
  etrans; [|apply (ra_wf_sum e Hwf)]. apply (sumZ_prefix _ n 16); [lia|].
  intros k Hk. unfold stored_len. destruct (Z.testbit _ _) eqn:Hb; [|done].
  destruct (decide (k < 16)); [by apply (ra_wf_seg e Hwf k)|].
  rewrite (testbit_above _ 16) in Hb; [done|apply (ra_wf_received e Hwf)|lia].
Qed.

Lemma copy_blocks_spec {E} e out k n :
  ra_wf e → ra_is_complete e = true → Z.of_nat (n + k) = ra_total_blocks e →
  (Z.to_nat (ra_data_len e) <= length out)%nat →
  copy_blocks (E:=E) k n e (written (ra_prefix e n) out) (length (ra_prefix e n)) =
  Ok (written (ra_prefix e (n + k)) out, length (ra_prefix e (n + k))).
Proof.
  intros Hwf Hc. revert n. induction k as [|k IH]; intros n Hn Hout; simpl.
  - by rewrite Nat.add_0_r.
  - destruct (ra_is_complete_bits e Hwf Hc) as [Ht Hbits].
    assert (Z.testbit (ra_received e) (Z.of_nat n) = true) as Hb by (apply Hbits; lia).
    destruct (ra_wf_seg e Hwf (Z.of_nat n) ltac:(lia) Hb) as (Ho & Hl & Hend & _).
    pose proof (ra_prefix_length e (S n) Hwf Hc ltac:(lia)) as Hlen.
    assert (ra_block_offset e !! n = Some (seg_offset e (Z.of_nat n))) as Hlo.
    { unfold seg_offset. rewrite Nat2Z.id. apply list_lookup_lookup_total_lt. rewrite (ra_wf_offsets e Hwf). lia. }
    assert (ra_block_len e !! n = Some (seg_len e (Z.of_nat n))) as Hll.
    { unfold seg_len. rewrite Nat2Z.id. apply list_lookup_lookup_total_lt. rewrite (ra_wf_lens e Hwf). lia. }
    rewrite (index_Some _ _ _ Hlo), (index_Some _ _ _ Hll). cbn [mbind outcome_bind].
    replace (slice _ _ _) with (Ok (E:=E) (ra_block e (Z.of_nat n))).
    2:{ symmetry. apply slice_Ok, slice_get_Some. rewrite (ra_wf_data e Hwf).
        split; [lia|]. unfold ra_block. f_equal. lia. }
    cbn [mbind outcome_bind]. pose proof (ra_block_length e (Z.of_nat n) Hwf ltac:(lia) Hb) as Hbl.
    unfold stored_len in Hbl. rewrite Hb in Hbl. rewrite ra_prefix_S, length_app in Hlen.
    rewrite copy_written by lia. cbn [mbind outcome_bind]. rewrite <- ra_prefix_S.
    replace (length (ra_prefix e n) + _)%nat with (length (ra_prefix e (S n)))
      by (rewrite ra_prefix_S, length_app; lia).
    rewrite IH by lia. by rewrite Nat.add_succ_r.
Qed.

Lemma take_ready {E} t src ieee c idx e out :
  ra_wf e → ready_session t src ieee c idx e → (Z.to_nat (ra_data_len e) <= length out)%nat →
  let asdu := ra_prefix e (Z.to_nat (ra_total_blocks e)) in
  take_reassembled (E:=E) t src ieee c out =
  Ok (<[idx := set_ra_delivered true e]> t, written asdu out, Some (length asdu)).
Proof.
  intros Hwf (He & Hc & Hp) Hout asdu. unfold take_reassembled. rewrite Hp, (index_Some _ _ _ He).
  cbn [mbind outcome_bind]. rewrite Hc, (proj2 (Nat.ltb_ge _ _) Hout). simpl.
  destruct (ra_is_complete_bits e Hwf Hc) as [Ht _].
  pose proof (copy_blocks_spec (E:=E) e out (Z.to_nat (ra_total_blocks e)) 0 Hwf Hc ltac:(lia) Hout) as Hcopy.
  change (ra_prefix e 0) with (@nil Z) in Hcopy. rewrite written_nil in Hcopy. simpl in Hcopy.
  by rewrite Hcopy.
Qed.

Lemma entry_ok_delivered truth v e : entry_ok truth e → entry_ok truth (set_ra_delivered v e).
Proof.
  intros Hok. eapply (entry_ok_kept _ (λ _, True)); [done| |done].
  destruct Hok as [Hwf _]. apply entry_kept_layout; [done|by destruct e..|]. destruct e. apply Hwf.
Qed.

Lemma take_reassembled_inv {E} truth t src ieee c out :
  fr_inv truth t →
  ∃ t' out' r, take_reassembled (E:=E) t src ieee c out = Ok (t', out', r) ∧ fr_inv truth t'.
Proof.
  intros Hinv. unfold take_reassembled.
  destruct (position (λ e, ra_matches src ieee c e && negb (ra_delivered e)) t) as [idx|] eqn:Hp; [|by eexists _, _, _].
  pose proof Hp as (e & He & _)%position_Some. pose proof (fr_inv_lookup _ _ _ _ Hinv He) as Hok.
  rewrite (index_Some _ _ _ He). cbn [mbind outcome_bind].
  destruct (ra_is_complete e) eqn:Hc; [|by eexists _, _, _]. simpl.
  destruct (_ <? _)%nat eqn:Hl; [by eexists _, _, _|]. bool_simpl.
  assert (take_reassembled (E:=E) t src ieee c out =
    Ok (<[idx := set_ra_delivered true e]> t, written (ra_prefix e (Z.to_nat (ra_total_blocks e))) out,
        Some (length (ra_prefix e (Z.to_nat (ra_total_blocks e)))))) as Ht
    by (apply take_ready; [apply Hok|done|done]).
  unfold take_reassembled in Ht. rewrite Hp, (index_Some _ _ _ He) in Ht. cbn [mbind outcome_bind] in Ht.
  rewrite Hc, (proj2 (Nat.ltb_ge _ _) Hl) in Ht. simpl in Ht. rewrite Ht.
  eexists _, _, _. split; [reflexivity|]. apply fr_inv_insert; [done|]. by apply entry_ok_delivered.
Qed.

Lemma rollback_block_inv {E} truth t src c b :
  fr_inv truth t → is_u8 b → ∃ t', rollback_block (E:=E) t src c b = Ok t' ∧ fr_inv truth t'.
Proof.
  intros Hinv Hb. unfold rollback_block. destruct (_ <=? _)%nat eqn:Hlt; [by eexists|].
  unfold MAX_BLOCKS, APS_MAX_FRAGMENT_BLOCKS, is_u8 in *. bool_simpl.
  destruct (position (ra_named src c) t) as [idx|] eqn:Hp; [|by eexists].
  apply position_Some in Hp as (e & He & _). pose proof (fr_inv_lookup _ _ _ _ Hinv He) as Hok.
  rewrite (index_Some _ _ _ He). cbn [mbind outcome_bind].
  destruct (ra_rollback_kept (E:=E) (λ _, True) b e (proj1 Hok) ltac:(lia)) as (e' & -> & K).
  cbn [mbind outcome_bind]. eexists. split; [reflexivity|]. apply fr_inv_insert; [done|].
  by eapply entry_ok_kept.
Qed.

Lemma fr_step_inv {E} truth t op :
  fr_inv truth t → op_wf op → (∀ tr, truth = Some tr → op_honest tr op) →
  ∃ t', fr_step (E:=E) t op = Ok t' ∧ fr_inv truth t'.
Proof.
  intros Hinv Hwf Hop. destruct op as [now ws src ieee c frag field p|src ieee c out| |src c b|src c|now]; simpl.
  - destruct Hwf as [Hws Hf].
    destruct (insert_block_inv (E:=E) truth t now ws src ieee c frag field p Hinv Hws Hf Hop)
      as (t' & out & -> & ? & _). by eexists.
  - destruct (take_reassembled_inv (E:=E) truth t src ieee c out Hinv) as (t' & out' & r & -> & ?). by eexists.
  - eexists. split; [done|]. revert Hinv. apply fr_inv_map. intros e He. case_match; [by apply entry_ok_reset|done].
  - by apply rollback_block_inv.
  - eexists. split; [done|]. unfold complete_entry, modify_first.
    destruct (position _ t) as [idx|] eqn:Hp; [|done].
    apply position_Some in Hp as (e & He & _). rewrite (alter_insert _ _ _ _ He).
    apply fr_inv_insert; [done|]. by eapply entry_ok_reset, fr_inv_lookup.
  - eexists. split; [done|]. revert Hinv. apply fr_inv_map. intros e He. case_match; [by apply entry_ok_reset|done].
Qed.

Lemma fr_run_inv {E} truth ops t :
  fr_inv truth t → Forall op_wf ops → (∀ tr, truth = Some tr → Forall (op_honest tr) ops) →
  ∃ t', fr_run (E:=E) t ops = Ok t' ∧ fr_inv truth t'.
Proof.
  revert t. induction ops as [|op ops IH]; intros t Hinv Hwf Hop; simpl; [by eexists|].
  apply Forall_cons in Hwf as [Hw1 Hw].
  destruct (fr_step_inv (E:=E) truth t op Hinv Hw1) as (t' & -> & Hinv').
  { intros tr Htr. specialize (Hop tr Htr). by apply Forall_cons in Hop as [? _]. }
  cbn [mbind outcome_bind]. apply IH; [done|done|]. intros tr Htr. specialize (Hop tr Htr).
  by apply Forall_cons in Hop as [_ ?].
Qed.

(** A complete entry that agrees with the sender holds the sender's ASDU. *)
Lemma ra_honest_asdu truth e :
  ra_wf e → ra_honest truth e → ra_is_complete e = true →
  ra_prefix e (Z.to_nat (ra_total_blocks e)) = concat truth.
Proof.
  intros Hwf [Ht Hb] Hc. destruct (ra_is_complete_bits e Hwf Hc) as [Htot Hbits].
  assert (Z.to_nat (ra_total_blocks e) = length truth) as Hlen by lia.
  unfold ra_prefix. f_equal. apply list_eq. intros i. rewrite list_lookup_fmap.
  destruct (decide (i < length truth)%nat) as [Hi|Hi].
  - rewrite lookup_seqZ_lt by lia. simpl. specialize (Hb (Z.of_nat i) ltac:(lia)).
    rewrite Nat2Z.id in Hb. symmetry. apply Hb, Hbits. lia.
  - rewrite lookup_seqZ_ge by lia. simpl. symmetry. apply lookup_ge_None. lia.
Qed.

(** Reassembly is safe: from the empty table, no sequence of operations
    with octet-valued arguments indexes out of bounds or overflows, whatever
    the fragments claim; the table keeps its four slots and every slot its
    layout: stored blocks lie inside the buffer and do not overlap. *)
Theorem fragment_reassembly_safe (ops : list fr_op) :
  Forall op_wf ops →
  ∃ t, fr_run (E:=unit) fr_new ops = Ok t ∧ length t = MAX_ENTRIES ∧ Forall ra_wf t.
Proof.
  intros Hops. destruct (fr_run_inv (E:=unit) None ops fr_new) as (t & Ht & Hl & Hf);
    [apply fr_inv_new|done|done|]. exists t. split_and!; [done|done|].
  eapply Forall_impl; [done|]. by intros e [? _].
Qed.

(** C26. Reassembly is correct: after any honest history (fragments of any
    number of senders out of order, repeated, interleaved with expiry, roll
    back, delivery and completion), if a fragment completes its session then
    reading into a buffer of at least 256 octets gives exactly the ASDU the
    sender has cut up, and leaves the rest of the buffer alone. *)
Theorem fragment_reassembly_correct (truth : senders) (ops : list fr_op)
    (now ws src : Z) (ieee : option IeeeAddress) (c frag field : Z) (p out : list Z)
    (t t' : FragmentReassembly) (ack : FragmentAck) :
  Forall op_wf ops → Forall (op_honest truth) ops → fr_run (E:=unit) fr_new ops = Ok t →
  is_u8 ws → is_u8 field → op_honest truth (FopInsert now ws src ieee c frag field p) →
  insert_block (E:=unit) t now ws src ieee c frag field p = Ok (t', FoComplete ack) →
  (APS_MAX_FRAGMENTED_ASDU <= length out)%nat →
  ∃ t'', take_reassembled (E:=unit) t' src ieee c out =
    Ok (t'', written (concat (truth src c)) out, Some (length (concat (truth src c)))).
Proof.
  intros Hwf Hops Hrun Hws Hf Hop Hins Hout.
  destruct (fr_run_inv (E:=unit) (Some truth) ops fr_new) as (t0 & Ht0 & Hinv);
    [apply fr_inv_new|done|by intros tr [= <-]|].
  rewrite Hrun in Ht0. injection Ht0 as <-.
  destruct (insert_block_inv (E:=unit) (Some truth) t now ws src ieee c frag field p Hinv Hws Hf)
    as (t0 & o & Hr & Hinv' & Hready); [by intros tr [= <-]|].
  rewrite Hins in Hr. injection Hr as <- <-.
  destruct (Hready ack eq_refl) as (idx & e & Hre & Ha & Hs & Hc).
  destruct (fr_inv_lookup _ _ _ _ Hinv' (proj1 Hre)) as [Hwf' Hh].
  specialize (Hh truth eq_refl Ha). rewrite Hs, Hc in Hh.
  rewrite <- (ra_honest_asdu _ e) by (done || apply Hre). eexists. apply take_ready; [done|done|].
  pose proof (ra_wf_data_len e Hwf'). unfold APS_MAX_FRAGMENTED_ASDU in Hout. lia.
Qed.

(** * Progress: fragments offered in order complete the session *)
Record in_order (blocks : list (list Z)) (ws : Z) (k : nat) (e : ReassemblyEntry) : Prop := {
  io_wf : ra_wf e;
  io_honest : ra_honest blocks e;
  io_active : ra_active e = true;
  io_delivered : ra_delivered e = false;
  io_total : ra_total_blocks e = if decide (k = 0%nat) then 0 else Z.of_nat (length blocks);
  io_received : ∀ n, 0 <= n → Z.testbit (ra_received e) n = (n <? Z.of_nat k);
  io_len : ra_data_len e = Z.of_nat (length (concat (take k blocks)));
  io_window : 0 <= ra_window_start e <= Z.of_nat k ∧ Z.of_nat k <= ra_window_start e + ws }.

Lemma ra_all_below e a b (k : nat) :
  (∀ n, 0 <= n → Z.testbit (ra_received e) n = (n <? Z.of_nat k)) →
  0 <= a → b <= Z.of_nat k → b <= 16 → ra_all e a b = true.
Proof.
  intros Hr Ha Hb H16. unfold ra_all. apply forallb_forall. intros n Hn%list_elem_of_In%elem_of_seqZ.
  rewrite ra_has_testbit, Hr by lia. apply Z.ltb_lt. lia.
Qed.

Lemma ra_announce_in_order blocks ws k e :
  in_order blocks ws k e → (k < length blocks)%nat →
  ∃ e1, ra_announce (if decide (k = 0%nat) then Some (Z.of_nat (length blocks)) else None) (Z.of_nat k) e
        = (e1, false) ∧
    same_layout e e1 ∧ ra_total_blocks e1 = Z.of_nat (length blocks) ∧
    ra_window_start e1 = ra_window_start e ∧ ra_delivered e1 = false ∧ ra_src_ieee e1 = ra_src_ieee e.
Proof.
  intros [Hwf Hh Ha Hd Ht Hr Hl Hw] Hk. unfold ra_announce. destruct (decide (k = 0%nat)) as [->|Hk0].
  - rewrite Ht. simpl. replace (ra_received e) with 0.
    2:{ apply Z.bits_inj'. intros n Hn. rewrite Z.bits_0, Hr by done. symmetry. apply Z.ltb_ge. lia. }
    rewrite Z.shiftr_0_l. simpl. exists (set_ra_total_blocks (Z.of_nat (length blocks)) e).
    split_and!; [|by destruct e..].
    destruct e. simpl. f_equal. rewrite (proj2 (Z.leb_gt _ _)) by lia. by rewrite andb_false_r.
  - exists e. rewrite Ht. rewrite (proj2 (Z.leb_gt (Z.of_nat (length blocks)) _)), andb_false_r by lia. done.
Qed.

(** Where the receive window starts once block [k] is in. *)
Definition next_window (e : ReassemblyEntry) (ws : Z) (k : nat) : Z :=
  if Z.of_nat k <? ra_window_start e + ws then ra_window_start e else ra_window_start e + ws.

Lemma ra_window_in_order now ws e (k : nat) :
  1 <= ws <= 8 → ra_wf e → Z.of_nat k < ra_total_blocks e → 
  (∀ n, 0 <= n → Z.testbit (ra_received e) n = (n <? Z.of_nat k)) →
  0 <= ra_window_start e <= Z.of_nat k → Z.of_nat k <= ra_window_start e + ws →
  ∃ e1, ra_window now ws (Z.of_nat k) e = Some e1 ∧ same_layout e e1 ∧
    ra_total_blocks e1 = ra_total_blocks e ∧ ra_delivered e1 = ra_delivered e ∧
    ra_src_ieee e1 = ra_src_ieee e ∧
    (0 <= ra_window_start e1 <= Z.of_nat k ∧ Z.of_nat (S k) <= ra_window_start e1 + ws) ∧
    ra_window_start e1 = next_window e ws k.
Proof.
  intros Hws Hwf Hk Hr Hw1 Hw2. pose proof (ra_wf_total e Hwf) as Htot. unfold ra_window.
  rewrite (proj2 (Z.ltb_ge _ _)) by lia. destruct (_ <=? _) eqn:Hc; bool_simpl.
  - assert (ra_window_start e + ws = Z.of_nat k) as Hkw by lia.
    assert (ra_window_complete e ws = true) as ->.
    { unfold ra_window_complete. apply andb_true_iff. split; [apply negb_true_iff, Z.eqb_neq; lia|].
      unfold ra_window_end, saturating_add_u8. rewrite (proj2 (Z.eqb_neq _ _)) by lia. simpl.
      apply (ra_all_below e _ _ k); [done|lia..]. }
    simpl. unfold saturating_add_u8. rewrite (proj2 (Z.leb_gt _ _)) by lia.
    eexists. split; [reflexivity|]. unfold next_window. rewrite (proj2 (Z.ltb_ge _ _)) by lia.
    destruct e; simpl in *. split_and!; (done || lia).
  - exists e. unfold next_window. rewrite (proj2 (Z.ltb_lt _ _)) by lia. split_and!; (done || lia).
Qed.

Lemma ra_store_fits {E} now b p e :
  ra_wf e → ra_data_len e + Z.of_nat (length p) <= 256 → ra_store (E:=E) now b p e ≠ Ok None.
Proof.
  intros Hwf Hfit. unfold ra_store. pose proof (ra_wf_data_len e Hwf).
  rewrite (proj2 (Nat.ltb_ge _ _)) by (rewrite (ra_wf_data e Hwf); lia).
  destruct (copy_from_slice _ _ _ _); cbn [mbind outcome_bind]; [|done..].
  destruct (put (ra_block_offset e) _ _); cbn [mbind outcome_bind]; [|done..].
  destruct (put _ _ _); cbn [mbind outcome_bind]; [|done..]. by destruct e.
Qed.

Lemma concat_take_le (blocks : list (list Z)) k :
  (length (concat (take k blocks)) <= length (concat blocks))%nat.
Proof. rewrite <- (take_drop k blocks) at 2. rewrite concat_app, length_app. lia. Qed.

Lemma concat_take_S (blocks : list (list Z)) k p :
  blocks !! k = Some p → concat (take (S k) blocks) = concat (take k blocks) ++ p.
Proof. intros Hp. rewrite (take_S_r _ _ _ Hp), concat_app. simpl. by rewrite app_nil_r. Qed.

(** What the block of a session offered in order is answered. *)
Definition in_order_answer (n : nat) (ws frag : Z) (k : nat) (e : ReassemblyEntry) : FragmentOutcome :=
  if bool_decide (S k = n) then FoComplete (ra_ack e frag ws)
  else FoPending (if bool_decide (Z.of_nat (S k) = ra_window_start e + ws) then Some (ra_ack e frag ws) else None) true.

(** One more block: the session goes on, or completes with the last one. *)
Lemma ra_offer_in_order {E} now ws ieee frag blocks k p e :
  in_order blocks ws k e → 1 <= ws <= 8 → blocks !! k = Some p → (length blocks <= 16)%nat →
  (length p < 256)%nat → (length (concat blocks) <= 256)%nat →
  ∃ e' out, ra_offer (E:=E) now ws ieee frag (Z.of_nat k)
      (if decide (k = 0%nat) then Some (Z.of_nat (length blocks)) else None) p e = Ok (e', out) ∧
    in_order blocks ws (S k) e' ∧ out ≠ FoRejected ∧
    ((∃ ack, out = FoComplete ack) ↔ S k = length blocks) ∧
    ra_src_addr e' = ra_src_addr e ∧ ra_aps_counter e' = ra_aps_counter e ∧
    ra_src_ieee e' = match ra_src_ieee e with Some i => Some i | None => ieee end ∧
    ra_window_start e' = next_window e ws k ∧ out = in_order_answer (length blocks) ws frag k e'.
Proof.
  intros Hio Hws Hp Hn Hpl Hfit. pose proof Hio as [Hwf Hh Ha Hd Ht Hr Hl Hw].
  pose proof (lookup_lt_Some _ _ _ Hp) as Hk.
  set (total := if decide (k = 0%nat) then Some (Z.of_nat (length blocks)) else None).
  destruct (ra_offer_kept (E:=E) now ws ieee frag (Z.of_nat k) total p e Hwf Ha Hws ltac:(lia) Hpl)
    as (e' & out & Hoff & [Hwf' K] & _).
  { intros t. unfold total. destruct (decide _); [intros [= <-]; lia|done]. }
  exists e', out. split; [done|]. revert Hoff. unfold ra_offer. rewrite Hd.
  set (e1 := match ra_src_ieee e with None => set_ra_src_ieee ieee e | Some _ => e end).
  assert (same_layout e e1 ∧ ra_total_blocks e1 = ra_total_blocks e ∧
    ra_window_start e1 = ra_window_start e ∧ ra_delivered e1 = false ∧
    ra_src_ieee e1 = match ra_src_ieee e with Some i => Some i | None => ieee end) as (S1 & T1 & W1 & D1 & I1).
  { unfold e1. destruct (ra_src_ieee e) eqn:Hi; [done|]. by destruct e. }
  clearbody e1.
  assert (in_order blocks ws k e1) as Hio1.
  { pose proof S1 as []. split; try congruence.
    - eapply same_layout_wf; [done|rewrite T1; apply Hwf|rewrite W1; apply Hwf|done].
    - eapply same_layout_honest; [done|rewrite T1; apply Hh|done].
    - intros n Hn'. rewrite sl_received0. auto. }
  destruct (ra_announce_in_order blocks ws k e1 Hio1 Hk) as (e2 & Ha2 & S2 & T2 & W2 & D2 & I2).
  fold total in Ha2. rewrite Ha2. pose proof (same_layout_trans _ _ _ S1 S2) as S12.
  assert (ra_wf e2) as Hwf2.
  { eapply same_layout_wf; [exact S12|lia|rewrite W2, W1; apply Hwf|done]. }
  destruct (ra_window_in_order now ws e2 k Hws Hwf2) as (e3 & -> & S3 & T3 & D3 & I3 & [W3 W3'] & Wn).
  { lia. } { intros n Hn'. rewrite (sl_received _ _ S12). auto. } { lia. } { lia. }
  pose proof (same_layout_trans _ _ _ S12 S3) as S13.
  assert (ra_wf e3) as Hwf3.
  { eapply same_layout_wf; [exact S3|rewrite T3; lia|unfold is_u8; lia|done]. }
  assert (Z.testbit (ra_received e3) (Z.of_nat k) = false) as Hnk.
  { rewrite (sl_received _ _ S13), Hr by lia. apply Z.ltb_irrefl. }
  rewrite ra_has_testbit, Hnk by lia.
  pose proof (concat_take_S blocks k p Hp) as Hcat. pose proof (concat_take_le blocks (S k)) as Hcl.
  rewrite Hcat, length_app in Hcl.
  destruct (ra_store_spec (E:=E) now (Z.of_nat k) p e3 Hwf3 ltac:(lia) Hnk Hpl)
    as [Hno|(e4 & -> & Hwf4 & _ & _ & Hb4 & A4 & D4 & Sr4 & C4 & T4 & W4 & I4 & L4)].
  { exfalso. revert Hno. apply ra_store_fits; [done|]. rewrite (sl_data_len _ _ S13). lia. }
  cbn [mbind outcome_bind fmap option_fmap option_map].
  assert (∀ n, 0 <= n → Z.testbit (ra_received e4) n = (n <? Z.of_nat (S k))) as Hr4.
  { intros n Hn'. rewrite Hb4, (sl_received _ _ S13), Hr by done.
    destruct (Z.ltb_spec n (Z.of_nat k)), (Z.eqb_spec n (Z.of_nat k)), (Z.ltb_spec n (Z.of_nat (S k))); (done || lia). }
  assert (ra_is_complete e4 = bool_decide (S k = length blocks)) as ->.
  { unfold ra_is_complete. rewrite T4, T3, T2, (proj2 (Z.eqb_neq _ _)) by lia. simpl.
    case_bool_decide as Hlast.
    - apply (ra_all_below e4 _ _ (S k)); [done|lia..].
    - apply not_true_iff_false. unfold ra_all. rewrite forallb_forall. intros Hall.
      specialize (Hall (Z.of_nat (S k)) ltac:(apply list_elem_of_In, elem_of_seqZ; lia)).
      rewrite ra_has_testbit, Hr4, Z.ltb_irrefl in Hall by lia. done. }
  intros Hoff. assert (e' = e4) as -> by (revert Hoff; case_bool_decide; congruence).
  assert (in_order blocks ws (S k) e4) as Hio4.
  { assert (ra_active e4 = true) as A4' by (rewrite A4, (sl_active _ _ S13); done).
    destruct (K A4') as (_ & _ & _ & Hhon). split; try done.
    - apply Hhon; [|done]. split; [by rewrite Nat2Z.id|]. intros t. unfold total.
      destruct (decide _); [by intros [= <-]|done].
    - congruence.
    - rewrite T4, T3, T2, decide_False; done.
    - rewrite L4, (sl_data_len _ _ S13), Hl, Hcat, length_app. lia.
    - rewrite W4. split; [lia|done]. }
  assert (ra_window_start e4 = next_window e ws k) as Hwn.
  { rewrite W4, Wn. unfold next_window. by rewrite W2, W1. }
  assert (out = in_order_answer (length blocks) ws frag k e4) as ->.
  { unfold in_order_answer. revert Hoff. case_bool_decide as Hlast; [congruence|]. intros [= <-]. f_equal.
    unfold saturating_add_u8. rewrite Z.min_l by lia.
    assert (ra_window_end e4 ws = Z.min (ra_window_start e4 + ws) (Z.of_nat (length blocks))) as ->.
    { unfold ra_window_end, saturating_add_u8. rewrite T4, T3, T2, (proj2 (Z.eqb_neq _ _)) by lia. simpl. rewrite W4. lia. }
    case_bool_decide as Hend.
    - rewrite (ra_all_below e4 _ _ (S k)); [done|done|lia..].
    - replace (ra_all _ _ _) with false; [done|]. symmetry. apply not_true_iff_false. unfold ra_all.
      rewrite forallb_forall. intros Hall. rewrite W4 in *.
      specialize (Hall (Z.of_nat (S k)) ltac:(apply list_elem_of_In, elem_of_seqZ; lia)).
      rewrite ra_has_testbit, Hr4, Z.ltb_irrefl in Hall by lia. done. }
  split; [done|]. rewrite Sr4, C4, I4, (sl_src _ _ S13), (sl_counter _ _ S13). unfold in_order_answer.
  split_and!; try done; try congruence; case_bool_decide; try done.
  - split; [done|]. by eexists.
  - split; [by intros [? ?]|done].
Qed.

(** The acknowledgement of a whole window names all its blocks. *)
Lemma ra_ack_full blocks ws frag k e :
  in_order blocks ws (S k) e → 1 <= ws <= 8 → (S k <= length blocks <= 16)%nat →
  (S k = length blocks ∨ Z.of_nat (S k) = ra_window_start e + ws) →
  ra_ack e frag ws = mk_FragmentAck frag (ra_window_start e) 255.
Proof.
  intros [Hwf _ _ _ Ht Hr _ Hw] Hws Hk Hend. unfold ra_ack. f_equal.
  rewrite decide_False in Ht by done. change APS_MAX_WINDOW_SIZE with 8.
  assert (∀ bit, 0 <= bit → (ws <=? bit) || (negb (ra_total_blocks e =? 0) && (ra_total_blocks e <=? ra_window_start e + bit))
    || ((ra_window_start e + bit <? Z.of_nat MAX_BLOCKS) && ra_has e (ra_window_start e + bit)) = true) as Hset.
  { intros bit Hb. destruct (Z.leb_spec ws bit); [done|]. cbn [orb]. rewrite Ht, (proj2 (Z.eqb_neq _ _)) by lia. cbn [negb andb].
    destruct (Z.leb_spec (Z.of_nat (length blocks)) (ra_window_start e + bit)); [done|]. cbn [orb].
    rewrite (proj2 (Z.ltb_lt _ _)) by (change (Z.of_nat MAX_BLOCKS) with 16; lia).
    rewrite ra_has_testbit, Hr by lia. apply Z.ltb_lt. lia. }
  change (seqZ 0 8) with [0; 1; 2; 3; 4; 5; 6; 7]. cbn [fold_left]. rewrite !Hset by lia. done.
Qed.

(** How block [k] of [n] is announced. *)
Definition fragment_kind (k : nat) : Z := if decide (k = 0%nat) then FRAG_FIRST else FRAG_SUBSEQUENT.
Definition fragment_number (n k : nat) : Z := Z.of_nat (if decide (k = 0%nat) then n else k).

(** The fragments from block [k] on, offered one after the other. *)
Fixpoint offer_blocks {E} (clock : nat → Z) (ws src : Z) (ieee : option IeeeAddress) (c : Z) (n k : nat)
    (rest : list (list Z)) (t : FragmentReassembly) : outcome E (FragmentReassembly * list FragmentOutcome) :=
  match rest with
  | [] => Ok (t, [])
  | p :: rest =>
      '(t, out) ← insert_block t (clock k) ws src ieee c (fragment_kind k) (fragment_number n k) p;
      '(t, outs) ← offer_blocks clock ws src ieee c n (S k) rest t;
      Ok (t, out :: outs)
  end.

Definition session_at (blocks : list (list Z)) (ws src : Z) (ieee : option IeeeAddress) (c : Z) (k idx : nat)
    (t : FragmentReassembly) : Prop :=
  ∃ e, t !! idx = Some e ∧ in_order blocks (clamp_window_size ws) k e ∧ ra_matches src ieee c e = true ∧
    ∀ j x, (j < idx)%nat → t !! j = Some x → ra_matches src ieee c x = false.

Lemma session_at_found blocks ws src ieee c k idx t now :
  session_at blocks ws src ieee c k idx t → fr_session t now src ieee c = Some (idx, t).
Proof.
  intros (e & He & _ & Hm & Hb). unfold fr_session.
  by rewrite (proj2 (position_Some _ _ idx)) by (exists e; done).
Qed.

Lemma session_at_opened blocks ws src ieee c t now idx t1 :
  fr_inv None t → 1 <= clamp_window_size ws → position (ra_matches src ieee c) t = None →
  fr_session t now src ieee c = Some (idx, t1) → session_at blocks ws src ieee c 0 idx t1.
Proof.
  intros Hinv Hws Hno Hs. pose proof Hs as Hs'. unfold fr_session in Hs'. rewrite Hno in Hs'.
  destruct (position (λ e, negb (ra_active e)) t) as [i|] eqn:Hi; [|done]. injection Hs' as -> <-.
  destruct (fr_session_Some None t now src ieee c idx _ Hinv Hs) as (Hinv1 & e & He & Ha & _ & _ & Hm & Hb).
  apply position_Some in Hi as (e0 & He0 & _). rewrite (alter_insert _ _ _ _ He0) in *.
  rewrite list_lookup_insert_eq in He by by eapply lookup_lt_Some. injection He as <-.
  pose proof (fr_inv_lookup _ _ _ _ Hinv He0) as [Hwf _].
  exists (ra_open now src ieee c e0). split_and!; [|split|done|done].
  - apply list_lookup_insert_eq. by eapply lookup_lt_Some.
  - by apply ra_wf_open.
  - split; [left; by destruct e0|]. intros n _. destruct e0. simpl. by rewrite Z.bits_0.
  - done.
  - by destruct e0.
  - by destruct e0.
  - intros n Hn. destruct e0. simpl. rewrite Z.bits_0. symmetry. apply Z.ltb_ge. lia.
  - by destruct e0.
  - destruct e0. simpl. lia.
Qed.

(** A session that holds every block is read back whole. *)
Lemma session_at_take {E} blocks ws src ieee c idx t out :
  session_at blocks ws src ieee c (length blocks) idx t → (1 <= length blocks <= 16)%nat →
  (length (concat blocks) <= length out)%nat →
  ∃ t', take_reassembled (E:=E) t src ieee c out = Ok (t', written (concat blocks) out, Some (length (concat blocks))).
Proof.
  intros (e & He & Hio & Hm & Hb) Hn Hout.
  assert (ra_is_complete e = true) as Hc.
  { unfold ra_is_complete. rewrite (io_total _ _ _ _ Hio), decide_False by lia.
    rewrite (proj2 (Z.eqb_neq _ _)) by lia. simpl. eapply ra_all_below; [apply Hio|lia..]. }
  exists (<[idx := set_ra_delivered true e]> t).
  rewrite <- (ra_honest_asdu blocks e) by (done || apply Hio). apply take_ready; [apply Hio| |].
  - apply ready_session_intro; [done|done|done|apply Hio|done].
  - rewrite (io_len _ _ _ _ Hio), firstn_all. lia.
Qed.

Lemma fragment_fields_sender n k p :
  (k < n)%nat → (n <= 16)%nat → (length p < 256)%nat →
  fragment_fields (fragment_kind k) (fragment_number n k) p =
  Some (Z.of_nat k, if decide (k = 0%nat) then Some (Z.of_nat n) else None).
Proof.
  intros Hk Hn Hp. unfold fragment_fields, fragment_kind, fragment_number, APS_MAX_FRAGMENT_BLOCKS.
  destruct (decide (k = 0%nat)) as [->|]; cbn -[Nat.ltb Z.of_nat Z.eqb Z.ltb Z.leb].
  - change (FRAG_FIRST =? FRAG_FIRST) with true. change (FRAG_FIRST =? FRAG_SUBSEQUENT) with false.
    cbn -[Nat.ltb Z.of_nat Z.eqb Z.ltb Z.leb].
    rewrite (proj2 (Z.eqb_neq (Z.of_nat n) 0)), (proj2 (Z.ltb_ge _ _)), (proj2 (Nat.ltb_ge _ _)) by lia. done.
  - change (FRAG_SUBSEQUENT =? FRAG_FIRST) with false. change (FRAG_SUBSEQUENT =? FRAG_SUBSEQUENT) with true.
    cbn -[Nat.ltb Z.of_nat Z.eqb Z.ltb Z.leb].
    rewrite (proj2 (Z.eqb_neq (Z.of_nat k) 0)), (proj2 (Z.leb_gt _ _)), (proj2 (Nat.ltb_ge _ _)) by lia. done.
Qed.

Section InOrder.
Context {E : Type} (blocks : list (list Z)) (ws src : Z) (ieee : option IeeeAddress) (c : Z) (clock : nat → Z).
Hypothesis Hws : is_u8 ws.
Hypothesis Hn : (1 <= length blocks <= 16)%nat.
Hypothesis Hblk : Forall (λ p, (length p < 256)%nat) blocks.
Hypothesis Hfit : (length (concat blocks) <= APS_MAX_FRAGMENTED_ASDU)%nat.

Lemma insert_block_in_order t now k p idx t1 :
  fr_session t now src ieee c = Some (idx, t1) → session_at blocks ws src ieee c k idx t1 →
  (length t ≠ 0)%nat → blocks !! k = Some p →
  ∃ t' out, insert_block (E:=E) t now ws src ieee c (fragment_kind k) (fragment_number (length blocks) k) p
      = Ok (t', out) ∧
    session_at blocks ws src ieee c (S k) idx t' ∧ length t' = length t1 ∧
    ((∃ ack, out = FoComplete ack) ↔ S k = length blocks) ∧
    ∃ e e', t1 !! idx = Some e ∧ t' !! idx = Some e' ∧
      ra_window_start e' = next_window e (clamp_window_size ws) k ∧
      out = in_order_answer (length blocks) (clamp_window_size ws) (fragment_kind k) k e'.
Proof using Type*.
  intros Hs (e & He & Hio & Hm & Hb) Ht Hp. pose proof (lookup_lt_Some _ _ _ Hp) as Hk.
  pose proof (Forall_lookup_1 _ _ _ _ Hblk Hp) as Hpl. simpl in Hpl.
  pose proof (clamp_window_size_bounds ws (proj1 Hws)) as Hw. unfold insert_block, insert_block_inner.
  rewrite (proj2 (Nat.eqb_neq _ _)), fragment_fields_sender by (done || lia). cbv zeta.
  rewrite Hs, (index_Some _ _ _ He). cbn [mbind outcome_bind].
  destruct (ra_offer_in_order (E:=E) now (clamp_window_size ws) ieee (fragment_kind k) blocks k p e)
    as (e' & out & -> & Hio' & Hrej & Hdone & Hsrc & Hc & Hi & Hwn & Hans); [done|done|done|lia|done|done|].
  cbn [mbind outcome_bind]. eexists _, _. split; [reflexivity|]. rewrite bool_decide_false by done.
  assert (<[idx:=e']> t1 !! idx = Some e') as Hlk by (apply list_lookup_insert_eq; by eapply lookup_lt_Some).
  split_and!; [|by rewrite length_insert|done|by exists e, e']. exists e'. split_and!; [|done| |].
  - apply list_lookup_insert_eq. by eapply lookup_lt_Some.
  - eapply ra_matches_learned; [done|apply Hio'|done..].
  - intros j x Hj Hx. rewrite list_lookup_insert_ne in Hx by lia. eauto.
Qed.

Lemma offer_blocks_in_order rest t k idx t1 :
  rest ≠ [] → blocks = take k blocks ++ rest → (k < length blocks)%nat →
  fr_session t (clock k) src ieee c = Some (idx, t1) → session_at blocks ws src ieee c k idx t1 →
  length t1 = length t →
  ∃ t' outs ack, offer_blocks (E:=E) clock ws src ieee c (length blocks) k rest t = Ok (t', outs ++ [FoComplete ack]) ∧
    Forall (λ o, ∀ a, o ≠ FoComplete a) outs ∧ session_at blocks ws src ieee c (length blocks) idx t'.
Proof using Type*.
  revert t t1 k. induction rest as [|p rest IH]; intros t t1 k Hne Hsplit Hk Hs Hat Hlen; [done|]. simpl.
  assert (blocks !! k = Some p) as Hp.
  { rewrite Hsplit, lookup_app_r by (rewrite length_take; lia). rewrite length_take, Nat.min_l, Nat.sub_diag by lia. done. }
  assert (length t ≠ 0%nat) as Ht.
  { destruct Hat as (e & He & _). apply lookup_lt_Some in He. lia. }
  destruct (insert_block_in_order t (clock k) k p idx t1 Hs Hat Ht Hp) as (t' & out & -> & Hat' & Hl' & Hdone & _).
  cbn [mbind outcome_bind]. destruct rest as [|q rest].
  - assert (S k = length blocks) as Hlast.
    { apply (f_equal length) in Hsplit. rewrite length_app, length_take in Hsplit. cbn [length] in Hsplit. lia. }
    simpl. destruct (proj2 Hdone Hlast) as [ack ->]. exists t', [], ack.
    split_and!; [done..|]. by rewrite <- Hlast.
  - assert (blocks = take (S k) blocks ++ q :: rest) as Hsplit'.
    { rewrite (take_S_r _ _ _ Hp), <- app_assoc. done. }
    assert (S k < length blocks)%nat as HSk.
    { apply (f_equal length) in Hsplit'. rewrite length_app, length_take in Hsplit'. cbn [length] in Hsplit'. lia. }
    destruct (IH t' t' (S k)) as (t'' & outs & ack & Hoff & Hall & Hat'');
      [done|done|done|by eapply session_at_found|done|done|].
    unfold mbind in Hoff |- *. rewrite Hoff. cbn [mbind outcome_bind]. exists t'', (out :: outs), ack.
    split_and!; [done| |done]. constructor; [|done]. intros a ->. assert (S k = length blocks); [|lia]. apply Hdone. by eexists.
Qed.
End InOrder.

(** Progress: when a table has a free slot and no session of the sender,
    offering the blocks of an ASDU of at most 16 blocks and 256 octets in
    order, at any times and with any window size, answers [Complete] to the
    last block and to no earlier one, and the ASDU read back is the
    concatenation of the blocks. *)
Theorem fragment_in_order_completes (blocks : list (list Z)) (ws src : Z) (ieee : option IeeeAddress) (c : Z)
    (clock : nat → Z) (t : FragmentReassembly) (out : list Z) :
  fr_inv None t → position (ra_matches src ieee c) t = None → (fr_active_sessions t < MAX_ENTRIES)%nat →
  is_u8 ws → (1 <= length blocks <= 16)%nat → Forall (λ p, (length p < 256)%nat) blocks →
  (length (concat blocks) <= APS_MAX_FRAGMENTED_ASDU <= length out)%nat →
  ∃ t' t'' outs ack,
    offer_blocks (E:=unit) clock ws src ieee c (length blocks) 0 blocks t = Ok (t', outs ++ [FoComplete ack]) ∧
    Forall (λ o, ∀ a, o ≠ FoComplete a) outs ∧
    take_reassembled (E:=unit) t' src ieee c out = Ok (t'', written (concat blocks) out, Some (length (concat blocks))).
Proof.
  intros Hinv Hno Hfree Hws Hn Hblk [Hfit Hout].
  assert (∃ idx t1, fr_session t (clock 0%nat) src ieee c = Some (idx, t1)) as (idx & t1 & Hs).
  { unfold fr_session. rewrite Hno. destruct (position (λ e, negb (ra_active e)) t) as [i|] eqn:Hi; [by eexists _, _|].
    exfalso. apply count_zero in Hi. unfold fr_active_sessions in Hfree. destruct Hinv as [Hl _].
    pose proof (count_negb ra_active t). lia. }
  pose proof (clamp_window_size_bounds ws (proj1 Hws)) as Hw.
  pose proof (session_at_opened blocks ws src ieee c t _ idx t1 Hinv (proj1 Hw) Hno Hs) as Hat.
  destruct (fr_session_Some None t _ src ieee c idx t1 Hinv Hs) as [[Hl1 _] _].
  destruct (offer_blocks_in_order (E:=unit) blocks ws src ieee c clock Hws Hn Hblk Hfit blocks t 0 idx t1)
    as (t' & outs & ack & Hoff & Hall & e & He & Hio & Hm & Hb);
    [by destruct blocks; simpl in *; [lia|]|done|lia|done|done|destruct Hinv; congruence|].
  destruct (session_at_take (E:=unit) blocks ws src ieee c idx t' out) as [t'' Htake]; [by exists e|lia..|].
  exists t', t'', outs, ack. split_and!; done.
Qed.

(** * Witnesses *)
Definition demo_blocks : list (list Z) := [[1; 2]; [3]; [4; 5]].
Definition demo_ops : list fr_op :=
  [FopInsert 5 8 291 None 7 FRAG_SUBSEQUENT 2 [4; 5]; FopInsert 6 8 291 None 7 FRAG_FIRST 3 [1; 2];
   FopInsert 6 8 291 None 7 FRAG_FIRST 3 [1; 2]; FopExpire 100].

Lemma demo_wf : Forall op_wf demo_ops.
Proof. repeat constructor; lia. Qed.

Lemma demo_honest : Forall (op_honest (λ _ _, demo_blocks)) demo_ops.
Proof. repeat constructor; vm_compute in H; simplify_eq; try done; by intros t [= <-]. Qed.

Lemma fragment_reassembly_safe_witness :
  ∃ t, fr_run (E:=unit) fr_new demo_ops = Ok t ∧ length t = MAX_ENTRIES ∧ Forall ra_wf t.
Proof. apply (fragment_reassembly_safe demo_ops). apply demo_wf. Defined.

Lemma fragment_reassembly_correct_witness :
  ∃ t t' ack, fr_run (E:=unit) fr_new demo_ops = Ok t ∧
    insert_block (E:=unit) t 9 8 291 None 7 FRAG_SUBSEQUENT 1 [3] = Ok (t', FoComplete ack) ∧
    ∃ t'', take_reassembled (E:=unit) t' 291 None 7 (repeat 0 256) =
      Ok (t'', written [1; 2; 3; 4; 5] (repeat 0 256), Some 5%nat).
Proof.
  eexists _, _, _. split; [vm_compute; reflexivity|]. split; [vm_compute; reflexivity|].
  eapply (fragment_reassembly_correct (λ _ _, demo_blocks) demo_ops 9 8 291 None 7 FRAG_SUBSEQUENT 1 [3]).
  - apply demo_wf.
  - apply demo_honest.
  - vm_compute. reflexivity.
  - done.
  - done.
  - intros b total Hf. vm_compute in Hf. simplify_eq. by split.
  - vm_compute. reflexivity.
  - rewrite repeat_length. done.
Defined.

Lemma fragment_in_order_completes_witness :
  ∃ t' t'' outs ack,
    offer_blocks (E:=unit) (λ k, Z.of_nat k) 2 291 None 7 3 0 demo_blocks fr_new =
      Ok (t', outs ++ [FoComplete ack]) ∧
    Forall (λ o, ∀ a, o ≠ FoComplete a) outs ∧
    take_reassembled (E:=unit) t' 291 None 7 (repeat 0 256) =
      Ok (t'', written [1; 2; 3; 4; 5] (repeat 0 256), Some 5%nat).
Proof.
  apply (fragment_in_order_completes demo_blocks 2 291 None 7 (λ k, Z.of_nat k) fr_new (repeat 0 256)).
  - apply fr_inv_new.
  - reflexivity.
  - apply Nat.ltb_lt. reflexivity.
  - done.
  - simpl. lia.
  - repeat constructor; simpl; lia.
  - rewrite repeat_length. unfold APS_MAX_FRAGMENTED_ASDU. simpl. lia.
Defined.

(** A first fragment outside the window opens a session that holds no block:
    it is not rejected, so the sweep that frees such sessions does not run. *)
Example out_of_window_opens_empty_session :
  ∃ t e, insert_block (E:=unit) fr_new 0 8 291 None 7 FRAG_SUBSEQUENT 12 [1] = Ok (t, FoPending None false) ∧
    fr_active_sessions t = 1%nat ∧ t !! 0%nat = Some e ∧ ra_received e = 0.
Proof. eexists _, _. split_and!; vm_compute; reflexivity. Qed.
