(* ===== verification/ApsSecurity.v ===== *)
(** APS security material: [zigbee-aps/src/security.rs] (build without the
    [trust-center] feature).

    The auxiliary header, the link key table with its outgoing counters and
    incoming replay floors, the aggregate floors of the two global keys, the
    list of floors that predate a key change, and the keyed hashes.  The key
    table is a finite map from (partner, key type): [asec_wf] says so, every
    operation keeps it, and the theorems on replay and on outgoing counters are
    about that map. *)
From S2P Require Import Prelude.
From S2P Require Import ZigbeeTypes.
From S2P Require Import Crypto.

Local Open Scope Z_scope.

Definition MAX_KEY_TABLE_ENTRIES : nat := 16.
Definition MAX_KEY_PAIRS_PER_PARTNER : nat := 2.
Definition MAX_GLOBAL_REPLAY_ENTRIES : nat := 16.
Definition MAX_ACTIVE_GLOBAL_REPLAY_DOMAINS : nat := 2.

Definition DEFAULT_TC_LINK_KEY : AesKey :=
  [0x5A; 0x69; 0x67; 0x42; 0x65; 0x65; 0x41; 0x6C; 0x6C; 0x69; 0x61; 0x6E; 0x63; 0x65; 0x30; 0x39].
Definition DISTRIBUTED_SECURITY_TEST_LINK_KEY : AesKey :=
  [0xD0; 0xD1; 0xD2; 0xD3; 0xD4; 0xD5; 0xD6; 0xD7; 0xD8; 0xD9; 0xDA; 0xDB; 0xDC; 0xDD; 0xDE; 0xDF].

Inductive ApsKeyType := TrustCenterMasterKey | TrustCenterLinkKey | NetworkKey | ApplicationLinkKey.

#[export] Instance ApsKeyType_eq_dec : EqDecision ApsKeyType.
Proof. solve_decision. Defined.

Definition aps_key_type_from_u8 (v : Z) : option ApsKeyType :=
  match v with
  | 0x00 => Some TrustCenterMasterKey
  | 0x01 => Some TrustCenterLinkKey
  | 0x02 => Some NetworkKey
  | 0x03 => Some ApplicationLinkKey
  | _ => None
  end.

Definition key_type_eqb (a b : ApsKeyType) : bool := bool_decide (a = b).

(** * Auxiliary header *)
Record ApsSecurityHeader := mk_ApsSecurityHeader {
  ash_security_control : Z;
  ash_frame_counter : Z;
  ash_source_address : option IeeeAddress;
  ash_key_seq_number : option Z }.

Definition SEC_LEVEL_NONE : Z := 0x00.
Definition SEC_LEVEL_ENC_MIC_32 : Z := 0x05.
Definition KEY_ID_DATA_KEY : Z := 0x00.
Definition KEY_ID_NETWORK_KEY : Z := 0x01.
Definition KEY_ID_KEY_TRANSPORT : Z := 0x02.
Definition KEY_ID_KEY_LOAD : Z := 0x03.

Definition APS_DEFAULT : Z := Z.lor SEC_LEVEL_ENC_MIC_32 (Z.shiftl KEY_ID_DATA_KEY 3).
Definition APS_DEFAULT_EXT_NONCE : Z :=
  Z.lor (Z.lor SEC_LEVEL_ENC_MIC_32 (Z.shiftl KEY_ID_DATA_KEY 3)) (Z.shiftl 1 5).

Definition security_level (sc : Z) : Z := Z.land sc 0x07.
Definition key_identifier (sc : Z) : Z := Z.land (Z.shiftr sc 3) 0x03.
Definition extended_nonce (sc : Z) : bool := negb (Z.land (Z.shiftr sc 5) 1 =? 0).

Definition aps_aux_parse (data : list Z) : fallible (ApsSecurityHeader * nat) :=
  if (length data <? 5)%nat then Err tt
  else
    security_control ← index data 0;
    b1 ← index data 1;
    b2 ← index data 2;
    b3 ← index data 3;
    b4 ← index data 4;
    let frame_counter := u32_from_le b1 b2 b3 b4 in
    '(source_address, offset) ←
      (if extended_nonce security_control then
         if (length data <? 5 + 8)%nat then Err tt
         else addr ← slice data 5 (5 + 8); Ok (Some addr, (5 + 8)%nat)
       else Ok (None, 5%nat));
    '(key_seq_number, offset) ←
      (if key_identifier security_control =? KEY_ID_NETWORK_KEY then
         if (length data <=? offset)%nat then Err tt
         else seq ← index data offset; Ok (Some seq, (offset + 1)%nat)
       else Ok (None, offset));
    Ok (mk_ApsSecurityHeader security_control frame_counter source_address key_seq_number, offset).

Definition aps_aux_serialize {E} (h : ApsSecurityHeader) (buf : list Z) : outcome E (list Z * nat) :=
  buf ← put buf 0 (ash_security_control h);
  buf ← copy_from_slice buf 1 5 (u32_to_le (ash_frame_counter h));
  '(buf, offset) ←
    (match ash_source_address h with
     | Some addr => buf ← copy_from_slice buf 5 (5 + 8) addr; Ok (buf, (5 + 8)%nat)
     | None => Ok (buf, 5%nat)
     end : outcome E (list Z * nat));
  match ash_key_seq_number h with
  | Some seq => buf ← put buf offset seq; Ok (buf, (offset + 1)%nat)
  | None => Ok (buf, offset)
  end.

(** [source_address(8) || frame_counter(4) || security_control(1)] with the
    security level in use in place of the one on the air. *)
Definition aps_build_nonce (h : ApsSecurityHeader) : list Z :=
  match ash_source_address h with Some addr => addr | None => repeat 0 8 end
  ++ u32_to_le (ash_frame_counter h)
  ++ [Z.lor (Z.land (ash_security_control h) (not_u8 0x07)) SEC_LEVEL_ENC_MIC_32].

(** * Key origins and replay domains *)
Inductive ApsKeyOrigin :=
| KoKeyPair (partner : IeeeAddress) (key_type : ApsKeyType)
| KoPreconfiguredGlobal
| KoDistributedGlobal.

#[export] Instance ApsKeyOrigin_eq_dec : EqDecision ApsKeyOrigin.
Proof. solve_decision. Defined.

Inductive ApsReplayOrigin :=
| RoKeyPair (partner : IeeeAddress) (key_type : ApsKeyType)
| RoPreconfiguredGlobal (source : IeeeAddress)
| RoDistributedGlobal (source : IeeeAddress).

#[export] Instance ApsReplayOrigin_eq_dec : EqDecision ApsReplayOrigin.
Proof. solve_decision. Defined.

(** [impl PartialEq for ApsReplayOrigin]: the source is not compared. *)
Definition replay_origin_eqb (a b : ApsReplayOrigin) : bool :=
  match a, b with
  | RoKeyPair p k, RoKeyPair p' k' => ieee_eqb p p' && key_type_eqb k k'
  | RoPreconfiguredGlobal _, RoPreconfiguredGlobal _ => true
  | RoDistributedGlobal _, RoDistributedGlobal _ => true
  | _, _ => false
  end.

Record ApsReplayCounter := mk_ApsReplayCounter {
  arc_origin : ApsReplayOrigin; arc_key_fingerprint : Z; arc_counter : Z }.

Definition replay_origin_of (origin : ApsKeyOrigin) (source : IeeeAddress) : ApsReplayOrigin :=
  match origin with
  | KoKeyPair partner key_type => RoKeyPair partner key_type
  | KoPreconfiguredGlobal => RoPreconfiguredGlobal source
  | KoDistributedGlobal => RoDistributedGlobal source
  end.

Definition aps_replay_from_verified (origin : ApsKeyOrigin) (source : IeeeAddress) (key : AesKey)
    (counter : Z) : ApsReplayCounter :=
  mk_ApsReplayCounter (replay_origin_of origin source) (key_fingerprint key) counter.

Record ApsKeyPair := mk_ApsKeyPair { kp_key_type : ApsKeyType; kp_key : AesKey }.

Record ApsLinkKeyEntry := mk_ApsLinkKeyEntry {
  lk_partner_address : IeeeAddress;
  lk_key : AesKey;
  lk_key_type : ApsKeyType;
  lk_outgoing_frame_counter : Z;
  lk_outgoing_frame_counter_limit : Z;
  lk_incoming_frame_counter : Z;
  lk_incoming_frame_counter_valid : bool }.

#[export] Instance ApsLinkKeyEntry_eq_dec : EqDecision ApsLinkKeyEntry.
Proof. solve_decision. Defined.

Record ApsSecurity := mk_ApsSecurity {
  key_table : list ApsLinkKeyEntry;
  default_tc_link_key : AesKey;
  distributed_security_link_key : option AesKey;
  global_replay_table : list ApsReplayCounter;
  stale_incoming_floors : list (IeeeAddress * ApsKeyType) }.

Definition asec_new : ApsSecurity := mk_ApsSecurity [] DEFAULT_TC_LINK_KEY None [] [].

(** Field assignments. *)
Definition set_key_table (v : list ApsLinkKeyEntry) (s : ApsSecurity) : ApsSecurity :=
  let 'mk_ApsSecurity _ d g r f := s in mk_ApsSecurity v d g r f.
Definition set_default_key (v : AesKey) (s : ApsSecurity) : ApsSecurity :=
  let 'mk_ApsSecurity t _ g r f := s in mk_ApsSecurity t v g r f.
Definition set_distributed_key (v : option AesKey) (s : ApsSecurity) : ApsSecurity :=
  let 'mk_ApsSecurity t d _ r f := s in mk_ApsSecurity t d v r f.
Definition set_global_replay (v : list ApsReplayCounter) (s : ApsSecurity) : ApsSecurity :=
  let 'mk_ApsSecurity t d g _ f := s in mk_ApsSecurity t d g v f.
Definition set_stale (v : list (IeeeAddress * ApsKeyType)) (s : ApsSecurity) : ApsSecurity :=
  let 'mk_ApsSecurity t d g r _ := s in mk_ApsSecurity t d g r v.

Definition set_lk_key (v : AesKey) (e : ApsLinkKeyEntry) : ApsLinkKeyEntry :=
  let 'mk_ApsLinkKeyEntry p _ t o l i b := e in mk_ApsLinkKeyEntry p v t o l i b.
Definition set_lk_outgoing (v : Z) (e : ApsLinkKeyEntry) : ApsLinkKeyEntry :=
  let 'mk_ApsLinkKeyEntry p k t _ l i b := e in mk_ApsLinkKeyEntry p k t v l i b.
Definition set_lk_incoming (v : Z) (valid : bool) (e : ApsLinkKeyEntry) : ApsLinkKeyEntry :=
  let 'mk_ApsLinkKeyEntry p k t o l _ _ := e in mk_ApsLinkKeyEntry p k t o l v valid.

(** * The key table *)
Definition lk_is (partner : IeeeAddress) (key_type : ApsKeyType) (e : ApsLinkKeyEntry) : bool :=
  ieee_eqb (lk_partner_address e) partner && key_type_eqb (lk_key_type e) key_type.

Definition key_index (s : ApsSecurity) (partner : IeeeAddress) (key_type : ApsKeyType) : option nat :=
  position (lk_is partner key_type) (key_table s).

Definition find_key (s : ApsSecurity) (partner : IeeeAddress) (key_type : ApsKeyType)
    : option ApsLinkKeyEntry :=
  index ← key_index s partner key_type; key_table s !! index.

(** A write through [find_key_mut]. *)
Definition update_key (f : ApsLinkKeyEntry → ApsLinkKeyEntry) (partner : IeeeAddress)
    (key_type : ApsKeyType) (s : ApsSecurity) : ApsSecurity :=
  match key_index s partner key_type with
  | Some index => set_key_table (alter f index (key_table s)) s
  | None => s
  end.

Definition find_any_key (s : ApsSecurity) (partner : IeeeAddress) : option ApsLinkKeyEntry :=
  match find_key s partner TrustCenterLinkKey with
  | Some e => Some e
  | None => find_key s partner ApplicationLinkKey
  end.

Definition key_pairs_for (s : ApsSecurity) (partner : IeeeAddress) : list ApsKeyPair :=
  fold_left (λ pairs key_type,
    match find_key s partner key_type with
    | Some entry => vec_push_ignore MAX_KEY_PAIRS_PER_PARTNER pairs (mk_ApsKeyPair key_type (lk_key entry))
    | None => pairs
    end) [TrustCenterLinkKey; ApplicationLinkKey] [].

Definition key_for_origin (s : ApsSecurity) (origin : ApsKeyOrigin) : option AesKey :=
  match origin with
  | KoKeyPair partner key_type => lk_key <$> find_key s partner key_type
  | KoPreconfiguredGlobal => Some (default_tc_link_key s)
  | KoDistributedGlobal => distributed_security_link_key s
  end.

Definition key_count (s : ApsSecurity) : nat := length (key_table s).

(** * Floors that predate the key *)
Definition stale_floor_index (s : ApsSecurity) (partner : IeeeAddress) (key_type : ApsKeyType) : option nat :=
  position (λ '(address, kind), ieee_eqb address partner && key_type_eqb kind key_type)
    (stale_incoming_floors s).

Definition set_stale_incoming_floor (partner : IeeeAddress) (key_type : ApsKeyType) (stale : bool)
    (s : ApsSecurity) : ApsSecurity :=
  match stale_floor_index s partner key_type, stale with
  | None, true =>
      set_stale (vec_push_ignore MAX_KEY_TABLE_ENTRIES (stale_incoming_floors s) (partner, key_type)) s
  | Some index, false => set_stale (swap_remove (stale_incoming_floors s) index) s
  | _, _ => s
  end.

Definition incoming_floor_predates_key (s : ApsSecurity) (partner : IeeeAddress) (key_type : ApsKeyType) : bool :=
  bool_decide (is_Some (stale_floor_index s partner key_type)).

Definition reset_stale_incoming_floor (partner : IeeeAddress) (key_type : ApsKeyType) (s : ApsSecurity)
    : ApsSecurity * bool :=
  if negb (incoming_floor_predates_key s partner key_type) then (s, false)
  else
    let s := set_stale_incoming_floor partner key_type false s in
    match find_key s partner key_type with
    | Some _ => (update_key (set_lk_incoming 0 false) partner key_type s, true)
    | None => (s, false)
    end.

(** * Global keys *)
Definition is_preconfigured (o : ApsReplayOrigin) : bool :=
  match o with RoPreconfiguredGlobal _ => true | _ => false end.
Definition is_distributed (o : ApsReplayOrigin) : bool :=
  match o with RoDistributedGlobal _ => true | _ => false end.

Definition set_default_tc_link_key (key : AesKey) (s : ApsSecurity) : ApsSecurity :=
  let s := if negb (bool_decide (default_tc_link_key s = key))
           then set_global_replay
                  (retain (λ e, negb (is_preconfigured (arc_origin e))) (global_replay_table s)) s
           else s in
  set_default_key key s.

Definition set_distributed_security_link_key (key : AesKey) (s : ApsSecurity) : ApsSecurity :=
  let s := if negb (bool_decide (distributed_security_link_key s = Some key))
           then set_global_replay
                  (retain (λ e, negb (is_distributed (arc_origin e))) (global_replay_table s)) s
           else s in
  set_distributed_key (Some key) s.

Definition clear_distributed_security_link_key (s : ApsSecurity) : ApsSecurity :=
  let s := set_distributed_key None s in
  set_global_replay (retain (λ e, negb (is_distributed (arc_origin e))) (global_replay_table s)) s.

Definition aps_key_fingerprint_is_live (s : ApsSecurity) (fp : Z) : bool :=
  (key_fingerprint (default_tc_link_key s) =? fp)
  || match distributed_security_link_key s with Some key => key_fingerprint key =? fp | None => false end
  || existsb (λ e, key_fingerprint (lk_key e) =? fp) (key_table s).

(** The key a replay record names. *)
Definition replay_key (s : ApsSecurity) (origin : ApsReplayOrigin) : option AesKey :=
  match origin with
  | RoKeyPair partner key_type => lk_key <$> find_key s partner key_type
  | RoPreconfiguredGlobal _ => Some (default_tc_link_key s)
  | RoDistributedGlobal _ => distributed_security_link_key s
  end.

Definition aps_replay_counter_key_is_live (s : ApsSecurity) (replay : ApsReplayCounter) : bool :=
  match replay_key s (arc_origin replay) with
  | Some key => key_fingerprint key =? arc_key_fingerprint replay
  | None => false
  end.

(** * Installing and removing keys *)

(** What [add_key] writes into an existing entry. *)
Definition lk_overwrite (entry e : ApsLinkKeyEntry) : ApsLinkKeyEntry :=
  mk_ApsLinkKeyEntry (lk_partner_address e) (lk_key entry) (lk_key_type e)
    (lk_outgoing_frame_counter entry) (lk_outgoing_frame_counter_limit entry)
    (lk_incoming_frame_counter entry) (lk_incoming_frame_counter_valid entry).

Definition add_key (entry : ApsLinkKeyEntry) (s : ApsSecurity) : outcome ApsLinkKeyEntry ApsSecurity :=
  let partner := lk_partner_address entry in
  let key_type := lk_key_type entry in
  match find_key s partner key_type with
  | Some existing =>
      let key_changed := negb (bool_decide (lk_key existing = lk_key entry)) in
      let s := update_key (lk_overwrite entry) partner key_type s in
      Ok (if key_changed
          then set_stale_incoming_floor partner key_type (lk_incoming_frame_counter_valid entry) s
          else s)
  | None =>
      match vec_push MAX_KEY_TABLE_ENTRIES (key_table s) entry with
      | Some t => Ok (set_key_table t s)
      | None => Err entry
      end
  end.

(** The entry goes to the tail, is wiped there, and is popped. *)
Definition wipe_and_remove_key_slot {E} (i : nat) (s : ApsSecurity) : outcome E ApsSecurity :=
  let t := key_table s in
  if (length t =? 0)%nat then Panic
  else
    let last := (length t - 1)%nat in
    x ← index t i;
    y ← index t last;
    let t := <[i := y]> (<[last := x]> t) in
    removed ← index t last;
    t ← put t last (set_lk_key (zeroize_key (lk_key removed)) removed);
    Ok (set_key_table (take last t) s).

Definition remove_key {E} (partner : IeeeAddress) (key_type : ApsKeyType) (s : ApsSecurity)
    : outcome E (ApsSecurity * bool) :=
  match key_index s partner key_type with
  | Some idx =>
      s ← wipe_and_remove_key_slot idx s;
      Ok (set_stale_incoming_floor partner key_type false s, true)
  | None => Ok (s, false)
  end.

Definition clear_keys (s : ApsSecurity) : ApsSecurity :=
  set_stale [] (set_global_replay [] (set_key_table [] s)).

(** [while index < self.key_table.len()]; [None]: out of fuel. *)
Fixpoint clear_application_loop {E} (fuel i : nat) (s : ApsSecurity) : outcome E (option ApsSecurity) :=
  match fuel with
  | O => Ok None
  | S fuel =>
      if (i <? length (key_table s))%nat then
        e ← index (key_table s) i;
        if key_type_eqb (lk_key_type e) ApplicationLinkKey then
          s ← wipe_and_remove_key_slot i s;
          clear_application_loop fuel i s
        else clear_application_loop fuel (S i) s
      else Ok (Some s)
  end.

Definition clear_application_link_keys {E} (s : ApsSecurity) : outcome E (option ApsSecurity) :=
  r ← clear_application_loop (E:=E) (S (length (key_table s))) 0 s;
  Ok (match r with
      | Some s =>
          Some (set_stale (retain (λ '(_, kind), negb (key_type_eqb kind ApplicationLinkKey))
                             (stale_incoming_floors s)) s)
      | None => None
      end).

(** * Replay protection *)
Definition lk_fresh (counter : Z) (e : ApsLinkKeyEntry) : bool :=
  negb (lk_incoming_frame_counter_valid e) || (lk_incoming_frame_counter e <? counter).

Definition aps_check_frame_counter (s : ApsSecurity) (partner : IeeeAddress) (key_type : ApsKeyType)
    (counter : Z) : bool :=
  match find_key s partner key_type with
  | Some entry => lk_fresh counter entry
  | None => true
  end.

Definition aps_commit_frame_counter (partner : IeeeAddress) (key_type : ApsKeyType) (counter : Z)
    (s : ApsSecurity) : ApsSecurity :=
  match find_key s partner key_type with
  | Some entry =>
      if lk_fresh counter entry then
        set_stale_incoming_floor partner key_type false
          (update_key (set_lk_incoming counter true) partner key_type s)
      else s
  | None => s
  end.

Definition check_frame_counter_for (s : ApsSecurity) (origin : ApsKeyOrigin) (counter : Z) : bool :=
  match origin with
  | KoKeyPair partner key_type => aps_check_frame_counter s partner key_type counter
  | KoPreconfiguredGlobal | KoDistributedGlobal => true
  end.

Definition commit_frame_counter_for (origin : ApsKeyOrigin) (counter : Z) (s : ApsSecurity) : ApsSecurity :=
  match origin with
  | KoKeyPair partner key_type => aps_commit_frame_counter partner key_type counter s
  | _ => s
  end.

Definition same_domain (origin : ApsReplayOrigin) (e : ApsReplayCounter) : bool :=
  replay_origin_eqb (arc_origin e) origin.

Definition check_replay_counter (s : ApsSecurity) (replay : ApsReplayCounter) : bool :=
  match arc_origin replay with
  | RoKeyPair partner key_type => aps_check_frame_counter s partner key_type (arc_counter replay)
  | origin =>
      match List.find (same_domain origin) (global_replay_table s) with
      | Some entry => arc_counter entry <? arc_counter replay
      | None => negb (length (global_replay_table s) =? MAX_ACTIVE_GLOBAL_REPLAY_DOMAINS)%nat
      end
  end.

Definition commit_replay_counter (replay : ApsReplayCounter) (s : ApsSecurity) : ApsSecurity :=
  match arc_origin replay with
  | RoKeyPair partner key_type => aps_commit_frame_counter partner key_type (arc_counter replay) s
  | origin =>
      match position (same_domain origin) (global_replay_table s) with
      | Some i =>
          set_global_replay
            (alter (λ entry, if arc_counter entry <? arc_counter replay then replay else entry) i
               (global_replay_table s)) s
      | None =>
          set_global_replay
            (vec_push_ignore MAX_ACTIVE_GLOBAL_REPLAY_DOMAINS (global_replay_table s) replay) s
      end
  end.

Definition aps_restore_replay_counter (replay : ApsReplayCounter) (s : ApsSecurity) : ApsSecurity * bool :=
  match replay_key s (arc_origin replay) with
  | None => (s, false)
  | Some key =>
      if negb (key_fingerprint key =? arc_key_fingerprint replay) then (s, false)
      else (commit_replay_counter replay s, true)
  end.

(** * Outgoing counters *)
Definition next_frame_counter {E} (partner : IeeeAddress) (key_type : ApsKeyType) (s : ApsSecurity)
    : outcome E (ApsSecurity * option Z) :=
  match find_key s partner key_type with
  | Some entry =>
      if lk_outgoing_frame_counter_limit entry <=? lk_outgoing_frame_counter entry then Ok (s, None)
      else
        let fc := lk_outgoing_frame_counter entry in
        next ← add_u32 fc 1;
        Ok (update_key (set_lk_outgoing next) partner key_type s, Some fc)
  | None => Ok (s, None)
  end.

(** * Encryption and key derivation

    The provider is threaded; a backend failure drops the frame, and the model
    goes on with the provider it had before the failed call. *)
Section Encryption.
Context {P C E : Type} `{ForwardAesProvider P C E}.

Definition hard_failure {A} (p : P) (m : outcome E (option A * C)) : outcome Empty_set (option A * P) :=
  match m with
  | Ok (r, c) => Ok (r, cipher_done c)
  | Err _ => Ok (None, p)
  | Panic => Panic
  end.

Definition aps_encrypt_with (p : P) (aps_header payload : list Z) (key : AesKey) (h : ApsSecurityHeader)
    : outcome Empty_set (option (list Z) * P) :=
  hard_failure p (ccm_star_encrypt_with (aps_build_nonce h) aps_header payload (forward_cipher p key)).

Definition aps_decrypt_with (p : P) (aps_header ciphertext : list Z) (key : AesKey) (h : ApsSecurityHeader)
    : outcome Empty_set (option (list Z) * P) :=
  if (length ciphertext <? 4)%nat then Ok (None, p)
  else hard_failure p (ccm_star_decrypt_with (aps_build_nonce h) aps_header ciphertext (forward_cipher p key)).

(** [aes_mmo_hash_with(..).ok()] *)
Definition hash_ok (p : P) (data : list Z) : outcome Empty_set (option (list Z) * P) :=
  match aes_mmo_hash_with data p with
  | Ok (h, p) => Ok (Some h, p)
  | Err _ => Ok (None, p)
  | Panic => Panic
  end.

Definition hmac_mmo_with (p : P) (key message : list Z) : outcome Empty_set (option (list Z) * P) :=
  let ipad_key := xor_list (repeat 0x36 16) key in
  let opad_key := xor_list (repeat 0x5C 16) key in
  inner_input ← copy_from_slice (repeat 0 48) 0 16 ipad_key;
  let inner_len := (16 + length message)%nat in
  inner_input ← copy_from_slice inner_input 16 inner_len message;
  inner ← slice inner_input 0 inner_len;
  '(inner_hash, p) ← hash_ok p inner;
  match inner_hash with
  | None => Ok (None, p)
  | Some inner_hash =>
      outer_input ← copy_from_slice (repeat 0 32) 0 16 opad_key;
      outer_input ← copy_from_slice outer_input 16 32 inner_hash;
      hash_ok p outer_input
  end.

Definition derive_key_transport_key_with (p : P) (link_key : AesKey) := hmac_mmo_with p link_key [0x00].
Definition derive_key_load_key_with (p : P) (link_key : AesKey) := hmac_mmo_with p link_key [0x02].
Definition derive_verify_key_hash_with (p : P) (link_key : AesKey) := hmac_mmo_with p link_key [0x03].
End Encryption.

(** * The key table is a map *)
Definition lk_id (e : ApsLinkKeyEntry) : IeeeAddress * ApsKeyType := (lk_partner_address e, lk_key_type e).

Record asec_wf (s : ApsSecurity) : Prop := {
  asec_keys : NoDup (lk_id <$> key_table s);
  asec_capacity : (length (key_table s) <= MAX_KEY_TABLE_ENTRIES)%nat;
  asec_stale : NoDup (stale_incoming_floors s);
  asec_stale_keys : ∀ id, id ∈ stale_incoming_floors s → id ∈ lk_id <$> key_table s;
  asec_global : ∀ e, e ∈ global_replay_table s → is_preconfigured (arc_origin e) || is_distributed (arc_origin e) = true;
  asec_domains : ∀ i j e e', global_replay_table s !! i = Some e → global_replay_table s !! j = Some e' →
    replay_origin_eqb (arc_origin e) (arc_origin e') = true → i = j }.

Lemma lk_is_true p k e : lk_is p k e = true ↔ lk_id e = (p, k).
Proof.
  unfold lk_is, lk_id, ieee_eqb, key_type_eqb. rewrite andb_true_iff, !bool_decide_eq_true.
  split; [intros [-> ->]; done|by intros [= -> ->]].
Qed.

Lemma key_index_Some s p k i :
  key_index s p k = Some i → ∃ e, key_table s !! i = Some e ∧ lk_id e = (p, k).
Proof. intros (e & He & Hm%lk_is_true & _)%position_Some. eauto. Qed.

Lemma find_key_Some s p k e : find_key s p k = Some e → e ∈ key_table s ∧ lk_id e = (p, k).
Proof.
  unfold find_key. destruct (key_index s p k) as [i|] eqn:Hi; [|done]. simpl. intros He.
  apply key_index_Some in Hi as (e' & He' & Hid). simplify_eq. split; [by eapply list_elem_of_lookup_2|done].
Qed.

Lemma find_key_None s p k : find_key s p k = None ↔ (p, k) ∉ lk_id <$> key_table s.
Proof.
  unfold find_key. destruct (key_index s p k) as [i|] eqn:Hi; simpl.
  - apply key_index_Some in Hi as (e & He & Hid). rewrite He. split; [done|]. intros [].
    apply list_elem_of_fmap. exists e. split; [done|]. by eapply list_elem_of_lookup_2.
  - split; [intros _|done]. unfold key_index in Hi. rewrite position_None in Hi.
    rewrite list_elem_of_fmap. intros (e & Hid & He). specialize (Hi e He).
    apply not_true_iff_false in Hi. apply Hi, lk_is_true. done.
Qed.

Lemma find_key_elem s e : asec_wf s → e ∈ key_table s → find_key s (lk_id e).1 (lk_id e).2 = Some e.
Proof.
  intros Hwf He. destruct (find_key s _ _) as [e'|] eqn:Hf.
  - apply find_key_Some in Hf as [He' Hid]. f_equal.
    eapply (NoDup_fmap_elem lk_id); [apply Hwf|done|done|]. by destruct (lk_id e).
  - apply find_key_None in Hf. destruct Hf. apply list_elem_of_fmap. exists e. split; [by destruct (lk_id e)|done].
Qed.

Lemma find_key_iff s p k e :
  asec_wf s → find_key s p k = Some e ↔ e ∈ key_table s ∧ lk_id e = (p, k).
Proof.
  intros Hwf. split; [apply find_key_Some|]. intros [He Hid].
  pose proof (find_key_elem s e Hwf He) as Hf. by rewrite Hid in Hf.
Qed.

(** ** Writing through [find_key_mut] *)
Lemma update_key_fields f p k s :
  default_tc_link_key (update_key f p k s) = default_tc_link_key s ∧
  distributed_security_link_key (update_key f p k s) = distributed_security_link_key s ∧
  global_replay_table (update_key f p k s) = global_replay_table s ∧
  stale_incoming_floors (update_key f p k s) = stale_incoming_floors s.
Proof. unfold update_key. case_match; [by destruct s|done]. Qed.

Lemma key_table_update f p k s :
  key_table (update_key f p k s) =
  match key_index s p k with Some i => alter f i (key_table s) | None => key_table s end.
Proof. unfold update_key. case_match; [by destruct s|done]. Qed.

Section Update.
Context (f : ApsLinkKeyEntry → ApsLinkKeyEntry) (Hf : ∀ e, lk_id (f e) = lk_id e).

Lemma update_key_ids p k s : lk_id <$> key_table (update_key f p k s) = lk_id <$> key_table s.
Proof using Hf.
  rewrite key_table_update. destruct (key_index s p k) as [n|]; [|done].
  apply list_eq. intros i. rewrite !list_lookup_fmap. destruct (decide (i = n)) as [->|Hne].
  - rewrite list_lookup_alter_eq. destruct (key_table s !! n); simpl; [by rewrite Hf|done].
  - by rewrite list_lookup_alter_ne.
Qed.

Lemma find_key_update p k s p' k' :
  find_key (update_key f p k s) p' k' =
  if decide ((p', k') = (p, k)) then f <$> find_key s p k else find_key s p' k'.
Proof using Hf.
  assert (∀ p' k', key_index (update_key f p k s) p' k' = key_index s p' k') as Hi.
  { intros p'' k''. unfold key_index. rewrite key_table_update. case_match; [|done].
    apply position_alter. intros e. unfold lk_is. pose proof (Hf e) as [= -> ->]. done. }
  unfold find_key. rewrite Hi, key_table_update. destruct (decide _) as [[= -> ->]|Hne].
  - destruct (key_index s p k) as [i|]; [|done]. simpl. apply list_lookup_alter_eq.
  - destruct (key_index s p' k') as [i|] eqn:Hi'; [|done]. simpl.
    destruct (key_index s p k) as [j|] eqn:Hj; [|done]. apply list_lookup_alter_ne. intros ->.
    apply key_index_Some in Hi' as (e & He & Hid), Hj as (e' & He' & Hid'). congruence.
Qed.

Lemma update_key_wf p k s : asec_wf s → asec_wf (update_key f p k s).
Proof using Hf.
  intros [Hk Hc Hs Hsk Hg Hd]. destruct (update_key_fields f p k s) as (_ & _ & Eg & Es).
  split; rewrite ?update_key_ids, ?Eg, ?Es; try done.
  rewrite <- (length_fmap lk_id), update_key_ids, length_fmap. done.
Qed.
End Update.

Lemma lk_id_set_incoming v b e : lk_id (set_lk_incoming v b e) = lk_id e.
Proof. by destruct e. Qed.
Lemma lk_id_set_outgoing v e : lk_id (set_lk_outgoing v e) = lk_id e.
Proof. by destruct e. Qed.
Lemma lk_id_overwrite entry e : lk_id (lk_overwrite entry e) = lk_id e.
Proof. done. Qed.

(** ** The list of stale floors *)
Lemma stale_floor_index_Some s p k i :
  stale_floor_index s p k = Some i → stale_incoming_floors s !! i = Some (p, k).
Proof.
  intros ([p' k'] & He & Hm & _)%position_Some. rewrite He. unfold ieee_eqb, key_type_eqb in Hm.
  apply andb_true_iff in Hm as [?%bool_decide_eq_true ?%bool_decide_eq_true]. by subst.
Qed.

Lemma stale_floor_index_None s p k :
  stale_floor_index s p k = None ↔ (p, k) ∉ stale_incoming_floors s.
Proof.
  unfold stale_floor_index. rewrite position_None. split.
  - intros Hno Hin. specialize (Hno _ Hin). simpl in Hno. unfold ieee_eqb, key_type_eqb in Hno.
    by rewrite !bool_decide_true in Hno.
  - intros Hnin [p' k'] Hin. apply not_true_iff_false. unfold ieee_eqb, key_type_eqb.
    rewrite andb_true_iff, !bool_decide_eq_true. intros [-> ->]. done.
Qed.

Lemma incoming_floor_predates_key_iff s p k :
  incoming_floor_predates_key s p k = true ↔ (p, k) ∈ stale_incoming_floors s.
Proof.
  unfold incoming_floor_predates_key. rewrite bool_decide_eq_true.
  destruct (stale_floor_index s p k) as [i|] eqn:Hi.
  - apply stale_floor_index_Some in Hi. split; [|by eexists]. intros _. by eapply list_elem_of_lookup_2.
  - apply stale_floor_index_None in Hi. split; [by intros [? ?]|done].
Qed.

Lemma set_stale_floor_fields p k b s :
  key_table (set_stale_incoming_floor p k b s) = key_table s ∧
  default_tc_link_key (set_stale_incoming_floor p k b s) = default_tc_link_key s ∧
  distributed_security_link_key (set_stale_incoming_floor p k b s) = distributed_security_link_key s ∧
  global_replay_table (set_stale_incoming_floor p k b s) = global_replay_table s.
Proof. unfold set_stale_incoming_floor. destruct s. by repeat case_match. Qed.

Lemma stale_room s p k :
  asec_wf s → (p, k) ∈ lk_id <$> key_table s → (p, k) ∉ stale_incoming_floors s →
  (length (stale_incoming_floors s) < MAX_KEY_TABLE_ENTRIES)%nat.
Proof.
  intros [Hk Hc Hs Hsk _ _] Hin Hnin.
  assert (((p, k) :: stale_incoming_floors s) ⊆+ (lk_id <$> key_table s)) as Hsub.
  { apply NoDup_submseteq; [by constructor|]. intros x [->|Hx]%elem_of_cons; auto. }
  apply submseteq_length in Hsub. rewrite length_fmap in Hsub. simpl in Hsub. lia.
Qed.

(** The push never fails: the comment of the source. *)
Lemma stale_set_true s p k :
  asec_wf s → (p, k) ∈ lk_id <$> key_table s →
  ∀ id, id ∈ stale_incoming_floors (set_stale_incoming_floor p k true s) ↔
        id ∈ stale_incoming_floors s ∨ id = (p, k).
Proof.
  intros Hwf Hin id. unfold set_stale_incoming_floor. destruct (stale_floor_index s p k) as [i|] eqn:Hi.
  - apply stale_floor_index_Some, list_elem_of_lookup_2 in Hi. split; [by left|]. by intros [? | ->].
  - apply stale_floor_index_None in Hi. pose proof (stale_room s p k Hwf Hin Hi) as Hr.
    unfold vec_push_ignore, vec_push. rewrite (proj2 (Nat.ltb_lt _ _)) by done. destruct s. simpl.
    rewrite elem_of_app, list_elem_of_singleton. done.
Qed.

Lemma stale_set_false s p k :
  NoDup (stale_incoming_floors s) →
  ∀ id, id ∈ stale_incoming_floors (set_stale_incoming_floor p k false s) ↔
        id ∈ stale_incoming_floors s ∧ id ≠ (p, k).
Proof.
  intros Hnd id. unfold set_stale_incoming_floor. destruct (stale_floor_index s p k) as [i|] eqn:Hi.
  - apply stale_floor_index_Some in Hi. destruct s as [t d g r f]. simpl in *.
    pose proof (swap_remove_perm f i _ Hi) as Hp. rewrite <- Hp in Hnd.
    apply NoDup_cons in Hnd as [Hni _].
    assert (id ∈ f ↔ id = (p, k) ∨ id ∈ swap_remove f i) as -> by (by rewrite <- elem_of_cons, Hp).
    split; [|by intros [[-> | ?] ?]]. intros Hin. split; [by right|]. by intros ->.
  - apply stale_floor_index_None in Hi. split; [|by intros [? _]]. intros Hin. split; [done|]. by intros ->.
Qed.

Lemma stale_set_NoDup s p k b :
  NoDup (stale_incoming_floors s) → NoDup (stale_incoming_floors (set_stale_incoming_floor p k b s)).
Proof.
  intros Hnd. unfold set_stale_incoming_floor. destruct (stale_floor_index s p k) as [i|] eqn:Hi, b; try done.
  - apply stale_floor_index_Some in Hi. destruct s as [t d g r f]. simpl in *.
    rewrite <- (swap_remove_perm f i _ Hi) in Hnd. by apply NoDup_cons in Hnd as [_ ?].
  - apply stale_floor_index_None in Hi. destruct s as [t d g r f]. simpl in *.
    unfold vec_push_ignore, vec_push. case_match; simplify_eq; [|done].
    case_match; simplify_eq. apply NoDup_app. split_and!; [done| |apply NoDup_singleton].
    intros x Hx Hs%list_elem_of_singleton. by subst.
Qed.

Lemma set_stale_floor_wf s p k b :
  asec_wf s → (b = true → (p, k) ∈ lk_id <$> key_table s) → asec_wf (set_stale_incoming_floor p k b s).
Proof.
  intros Hwf Hb. pose proof Hwf as [Hk Hc Hs Hsk Hg Hd].
  destruct (set_stale_floor_fields p k b s) as (Et & _ & _ & Eg).
  split; rewrite ?Et, ?Eg; try done; [by apply stale_set_NoDup|]. intros id Hid. destruct b.
  - apply stale_set_true in Hid as [? | ->]; auto.
  - apply stale_set_false in Hid as [? _]; auto.
Qed.

Lemma find_key_ext s s' p k : key_table s' = key_table s → find_key s' p k = find_key s p k.
Proof. intros Ht. unfold find_key, key_index. by rewrite Ht. Qed.

(** ** Installing a key *)
Lemma lk_overwrite_same entry e : lk_id e = lk_id entry → lk_overwrite entry e = entry.
Proof. destruct entry, e. unfold lk_id. simpl. by intros [= -> ->]. Qed.

Lemma find_key_push s entry t p k :
  find_key s (lk_partner_address entry) (lk_key_type entry) = None →
  vec_push MAX_KEY_TABLE_ENTRIES (key_table s) entry = Some t →
  find_key (set_key_table t s) p k = if decide ((p, k) = lk_id entry) then Some entry else find_key s p k.
Proof.
  intros Hno Hpush. unfold vec_push in Hpush. case_match; simplify_eq. apply find_key_None in Hno.
  unfold find_key, key_index. replace (key_table (set_key_table _ s)) with (key_table s ++ [entry]) by by destruct s.
  destruct (position (lk_is p k) (key_table s)) as [i|] eqn:Hi.
  - apply position_Some in Hi as (e & He & Hm & Hb).
    rewrite (proj2 (position_Some (lk_is p k) (key_table s ++ [entry]) i)).
    2:{ exists e. split_and!; [by apply lookup_app_l_Some|done|]. intros j y Hj Hy.
        eapply Hb; [done|]. rewrite lookup_app_l in Hy; [done|]. pose proof (lookup_lt_Some _ _ _ He). lia. }
    simpl. rewrite He. erewrite lookup_app_l_Some by done. rewrite decide_False; [done|].
    intros Hid. destruct Hno. apply lk_is_true in Hm. apply list_elem_of_fmap. exists e.
    split; [|by eapply list_elem_of_lookup_2]. unfold lk_id in *. congruence.
  - rewrite position_app_r by done. simpl. unfold lk_is at 1.
    destruct (decide ((p, k) = lk_id entry)) as [Heq|Hne].
    + unfold lk_id in Heq. simplify_eq. unfold ieee_eqb, key_type_eqb. rewrite !bool_decide_true by done. simpl.
      rewrite lookup_app_r by lia. replace (_ + 0 - _)%nat with 0%nat by lia. done.
    + replace (ieee_eqb _ _ && key_type_eqb _ _) with false; [done|]. symmetry. apply not_true_iff_false.
      intros Hm. apply Hne. symmetry. apply lk_is_true. done.
Qed.

Lemma set_key_table_wf t s :
  asec_wf s → NoDup (lk_id <$> t) → (length t <= MAX_KEY_TABLE_ENTRIES)%nat →
  (∀ id, id ∈ stale_incoming_floors s → id ∈ lk_id <$> t) → asec_wf (set_key_table t s).
Proof. intros [_ _ Hs _ Hg Hd] Ht Hl Hst. destruct s. by split. Qed.

(** The stale mark of the entry after a key has been installed. *)
Definition stale_after_add (entry : ApsLinkKeyEntry) (s : ApsSecurity) : bool :=
  match find_key s (lk_partner_address entry) (lk_key_type entry) with
  | Some existing =>
      if bool_decide (lk_key existing = lk_key entry)
      then incoming_floor_predates_key s (lk_partner_address entry) (lk_key_type entry)
      else lk_incoming_frame_counter_valid entry
  | None => false
  end.

Lemma add_key_spec entry s :
  asec_wf s →
  match add_key entry s with
  | Ok s' =>
      asec_wf s' ∧
      (∀ p k, find_key s' p k = if decide ((p, k) = lk_id entry) then Some entry else find_key s p k) ∧
      (∀ p k, incoming_floor_predates_key s' p k =
         if decide ((p, k) = lk_id entry) then stale_after_add entry s else incoming_floor_predates_key s p k) ∧
      default_tc_link_key s' = default_tc_link_key s ∧
      distributed_security_link_key s' = distributed_security_link_key s ∧
      global_replay_table s' = global_replay_table s
  | Err e =>
      e = entry ∧ find_key s (lk_partner_address entry) (lk_key_type entry) = None ∧
      length (key_table s) = MAX_KEY_TABLE_ENTRIES
  | Panic => False
  end.
Proof.
  intros Hwf. unfold add_key. cbv zeta. set (P := lk_partner_address entry). set (K := lk_key_type entry).
  destruct (find_key s P K) as [ex|] eqn:Hf.
  - pose proof (find_key_Some _ _ _ _ Hf) as [Hex Hid].
    set (s1 := update_key (lk_overwrite entry) P K s).
    assert (asec_wf s1) as Hwf1 by (by apply update_key_wf).
    destruct (update_key_fields (lk_overwrite entry) P K s) as (Ed & Eg & Er & Es). fold s1 in Ed, Eg, Er, Es.
    assert (∀ p k, find_key s1 p k = if decide ((p, k) = lk_id entry) then Some entry else find_key s p k) as Hfind.
    { intros p k. unfold s1. rewrite find_key_update by done. change (P, K) with (lk_id entry).
      case_decide; [|done]. rewrite Hf. simpl. by rewrite lk_overwrite_same. }
    assert ((P, K) ∈ lk_id <$> key_table s1) as Hin.
    { unfold s1. rewrite update_key_ids by done. apply list_elem_of_fmap. by exists ex. }
    unfold stale_after_add. fold P K. rewrite Hf.
    destruct (bool_decide_reflect (lk_key ex = lk_key entry)) as [Heq|Hne]; simpl.
    + split_and!; [done|done| |done..]. intros p k. apply eq_true_iff_eq.
      rewrite incoming_floor_predates_key_iff, Es, <- incoming_floor_predates_key_iff.
      case_decide as Hd; [|done]. by injection Hd as -> ->.
    + set (b := lk_incoming_frame_counter_valid entry).
      destruct (set_stale_floor_fields P K b s1) as (E1 & E2 & E3 & E4).
      split_and!; [by apply set_stale_floor_wf| | |congruence..].
      * intros p k. rewrite (find_key_ext s1) by done. apply Hfind.
      * intros p k. apply eq_true_iff_eq. rewrite incoming_floor_predates_key_iff. destruct b.
        -- rewrite stale_set_true, Es by done. case_decide as Hd.
           ++ split; [done|]. intros _. right. rewrite Hd. done.
           ++ rewrite incoming_floor_predates_key_iff. split; [|by left]. by intros [? | ?].
        -- rewrite stale_set_false, Es by apply Hwf1. case_decide as Hd.
           ++ split; [|done]. intros [_ Hn]. destruct Hn. rewrite Hd. done.
           ++ rewrite incoming_floor_predates_key_iff. split; [by intros [? _]|]. by intros Hin'.
  - destruct (vec_push _ _ _) as [t|] eqn:Hp.
    + pose proof (find_key_push s entry t) as Hfp.
      split_and!; try by destruct s.
      * unfold vec_push in Hp. case_match eqn:Hl; simplify_eq. apply Nat.ltb_lt in Hl.
        apply find_key_None in Hf. apply set_key_table_wf; [done|..].
        -- rewrite fmap_app. apply NoDup_app. split_and!; [apply Hwf| |apply NoDup_singleton].
           intros id Hin ->%list_elem_of_singleton. done.
        -- rewrite length_app. simpl. lia.
        -- intros id Hid. rewrite fmap_app. apply elem_of_app. left. by apply (asec_stale_keys s Hwf).
      * intros p k. by apply Hfp.
      * intros p k. replace (incoming_floor_predates_key (set_key_table t s) p k)
          with (incoming_floor_predates_key s p k) by by destruct s.
        case_decide as Hd; [|done]. unfold stale_after_add. fold P K. rewrite Hf.
        apply not_true_iff_false. rewrite incoming_floor_predates_key_iff. intros Hin.
        apply find_key_None in Hf. apply Hf. rewrite Hd in Hin. by apply (asec_stale_keys s Hwf).
    + split_and!; [done|done|]. unfold vec_push in Hp. case_match eqn:Hl; [done|].
      apply Nat.ltb_ge in Hl. pose proof (asec_capacity s Hwf). lia.
Qed.

(** ** Removing a key *)
Lemma wipe_and_remove_spec {E} s i x :
  key_table s !! i = Some x →
  wipe_and_remove_key_slot (E:=E) i s = Ok (set_key_table (swap_remove (key_table s) i) s).
Proof.
  intros Hx. pose proof (lookup_lt_Some _ _ _ Hx) as Hi. unfold wipe_and_remove_key_slot.
  rewrite (proj2 (Nat.eqb_neq _ _)) by lia. cbv zeta. rewrite (index_Some _ _ _ Hx). cbn [mbind outcome_bind].
  destruct (lookup_lt_is_Some_2 (key_table s) (length (key_table s) - 1)) as [y Hy]; [lia|].
  rewrite (index_Some _ _ _ Hy). cbn [mbind outcome_bind]. set (t := <[i:=y]> _).
  assert (length t = length (key_table s)) as Hlt by (unfold t; by rewrite !length_insert).
  destruct (index_lt (E:=E) t (length (key_table s) - 1)) as (r & _ & ->); [lia|]. cbn [mbind outcome_bind].
  unfold put. rewrite Hlt, (proj2 (Nat.ltb_lt _ _)) by lia. cbn [mbind outcome_bind]. do 2 f_equal.
  unfold swap_remove. rewrite last_lookup. replace (Nat.pred (length (key_table s))) with (length (key_table s) - 1)%nat by lia.
  rewrite Hy. rewrite take_insert_ge by lia. unfold t. destruct (decide (i = length (key_table s) - 1)%nat) as [->|Hne].
  - by rewrite !take_insert_ge by lia.
  - rewrite list_insert_insert_ne by lia. by rewrite take_insert_ge by lia.
Qed.

Lemma swap_remove_ids t i x : t !! i = Some x → lk_id x :: (lk_id <$> swap_remove t i) ≡ₚ lk_id <$> t.
Proof. intros Hx. by rewrite <- (swap_remove_perm t i x Hx) at 2. Qed.

Lemma remove_key_spec {E} p k s :
  asec_wf s →
  ∃ s', remove_key (E:=E) p k s = Ok (s', bool_decide (is_Some (find_key s p k))) ∧ asec_wf s' ∧
    (∀ p' k', find_key s' p' k' = if decide ((p', k') = (p, k)) then None else find_key s p' k') ∧
    (∀ p' k', incoming_floor_predates_key s' p' k' =
       if decide ((p', k') = (p, k)) then false else incoming_floor_predates_key s p' k') ∧
    default_tc_link_key s' = default_tc_link_key s ∧
    distributed_security_link_key s' = distributed_security_link_key s ∧
    global_replay_table s' = global_replay_table s.
Proof.
  intros Hwf. unfold remove_key. destruct (key_index s p k) as [i|] eqn:Hi.
  - pose proof (key_index_Some _ _ _ _ Hi) as (x & Hx & Hid).
    rewrite (wipe_and_remove_spec _ _ _ Hx). cbn [mbind outcome_bind].
    set (s1 := set_key_table (swap_remove (key_table s) i) s). eexists. split.
    { unfold find_key. rewrite Hi. simpl. rewrite Hx. reflexivity. }
    pose proof (swap_remove_ids _ _ _ Hx) as Hperm. rewrite Hid in Hperm.
    pose proof (asec_keys s Hwf) as Hnd. rewrite <- Hperm in Hnd. apply NoDup_cons in Hnd as [Hni Hnd].
    destruct (set_stale_floor_fields p k false s1) as (E1 & E2 & E3 & E4).
    assert (key_table s1 = swap_remove (key_table s) i) as Et by (by destruct s).
    assert (stale_incoming_floors s1 = stale_incoming_floors s) as Es by (by destruct s).
    assert (global_replay_table s1 = global_replay_table s) as Eg by (by destruct s).
    set (s2 := set_stale_incoming_floor p k false s1) in *.
    assert (∀ id, id ∈ stale_incoming_floors s2 ↔ id ∈ stale_incoming_floors s ∧ id ≠ (p, k)) as Hst.
    { intros id. unfold s2. rewrite stale_set_false; rewrite Es; [done|apply Hwf]. }
    assert (asec_wf s2) as Hwf2.
    { split; rewrite ?E1, ?E4, ?Et, ?Eg; try apply Hwf; [done| | |].
      - pose proof (Permutation_length Hperm) as Hl. simpl in Hl. rewrite !length_fmap in Hl.
        pose proof (asec_capacity s Hwf). lia.
      - apply stale_set_NoDup. rewrite Es. apply Hwf.
      - intros id [Hin Hne]%Hst. pose proof (asec_stale_keys s Hwf id Hin) as Hin'.
        rewrite <- Hperm in Hin'. by apply elem_of_cons in Hin' as [->|?]. }
    split_and!; [done| | |by destruct s..].
    + intros p' k'. case_decide as Hd.
      * apply find_key_None. rewrite E1, Et, Hd. done.
      * apply option_eq. intros e. rewrite !find_key_iff, E1, Et by done.
        assert (e ∈ key_table s ↔ e = x ∨ e ∈ swap_remove (key_table s) i) as ->
          by (by rewrite <- elem_of_cons, (swap_remove_perm _ _ _ Hx)).
        split; [intros [? ?]; split; [by right|done]|]. intros [[-> | ?] ?]; [congruence|done].
    + intros p' k'. apply eq_true_iff_eq. rewrite incoming_floor_predates_key_iff, Hst.
      case_decide as Hd; [by split; [intros [_ []]|]|]. rewrite incoming_floor_predates_key_iff. tauto.
  - exists s. assert (find_key s p k = None) as Hf by (unfold find_key; by rewrite Hi).
    rewrite Hf. split_and!; [by rewrite bool_decide_false by by intros [? ?]|done| | |done..].
    + intros p' k'. case_decide as Hd; [|done]. by injection Hd as -> ->.
    + intros p' k'. case_decide as Hd; [|done]. injection Hd as -> ->. apply not_true_iff_false.
      rewrite incoming_floor_predates_key_iff. intros Hin. apply find_key_None in Hf. apply Hf.
      by apply (asec_stale_keys s Hwf).
Qed.

(** ** Dropping the application link keys *)
Lemma lookup_swap_remove_lt {A} (t : list A) i j x :
  t !! i = Some x → (j < i)%nat → swap_remove t i !! j = t !! j.
Proof.
  intros Hx Hj. pose proof (lookup_lt_Some _ _ _ Hx) as Hi. unfold swap_remove.
  destruct (last t) as [y|]; [|done]. rewrite lookup_take_lt by lia. by rewrite list_lookup_insert_ne by lia.
Qed.

Lemma length_swap_remove {A} (t : list A) i x : t !! i = Some x → length t = S (length (swap_remove t i)).
Proof. intros Hx. by rewrite <- (Permutation_length (swap_remove_perm t i x Hx)). Qed.

Lemma key_type_eqb_true a b : key_type_eqb a b = true ↔ a = b.
Proof. apply bool_decide_eq_true. Qed.

Lemma clear_application_loop_spec {E} fuel i s :
  (i <= length (key_table s))%nat → (length (key_table s) - i < fuel)%nat →
  (∀ j e, (j < i)%nat → key_table s !! j = Some e → lk_key_type e ≠ ApplicationLinkKey) →
  ∃ t, clear_application_loop (E:=E) fuel i s = Ok (Some (set_key_table t s)) ∧
    (∃ dropped, dropped ++ t ≡ₚ key_table s ∧ Forall (λ e, lk_key_type e = ApplicationLinkKey) dropped) ∧
    Forall (λ e, lk_key_type e ≠ ApplicationLinkKey) t.
Proof.
  revert i s. induction fuel as [|fuel IH]; intros i s Hi Hfuel Hbefore; [lia|]. simpl.
  destruct (Nat.ltb_spec i (length (key_table s))) as [Hlt|Hge].
  - destruct (lookup_lt_is_Some_2 _ _ Hlt) as [x Hx]. rewrite (index_Some _ _ _ Hx). cbn [mbind outcome_bind].
    destruct (key_type_eqb _ _) eqn:Ht.
    + apply key_type_eqb_true in Ht. rewrite (wipe_and_remove_spec _ _ _ Hx). cbn [mbind outcome_bind].
      set (s1 := set_key_table _ s). assert (key_table s1 = swap_remove (key_table s) i) as Et by by destruct s.
      pose proof (length_swap_remove _ _ _ Hx) as Hl.
      destruct (IH i s1) as (t & Hr & (dr & Hp & Hd) & Hall).
      { rewrite Et. lia. } { rewrite Et. lia. }
      { intros j e Hj. rewrite Et, (lookup_swap_remove_lt _ _ _ _ Hx Hj). by apply Hbefore. }
      exists t. split_and!; [|exists (x :: dr); split; [|by constructor]|done].
      * rewrite Hr. by destruct s.
      * simpl. rewrite Hp, Et. by apply swap_remove_perm.
    + apply IH; [lia|lia|]. intros j e Hj He. destruct (decide (j = i)) as [->|]; [|apply (Hbefore j); [lia|done]].
      simplify_eq. intros Happ. apply key_type_eqb_true in Happ. congruence.
  - exists (key_table s). split_and!; [by destruct s|by exists []|]. apply Forall_lookup. intros j e He.
    apply (Hbefore j); [|done]. apply lookup_lt_Some in He. lia.
Qed.

Lemma elem_of_retain_stale l id :
  id ∈ retain (λ '(_, kind), negb (key_type_eqb kind ApplicationLinkKey)) l ↔
  id ∈ l ∧ (id : IeeeAddress * ApsKeyType).2 ≠ ApplicationLinkKey.
Proof.
  rewrite elem_of_retain. destruct id as [p k]. simpl. rewrite negb_true_iff, <- not_true_iff_false, key_type_eqb_true. done.
Qed.

Lemma clear_application_link_keys_spec {E} s :
  asec_wf s →
  ∃ s', clear_application_link_keys (E:=E) s = Ok (Some s') ∧ asec_wf s' ∧
    (∀ p k, find_key s' p k = if decide (k = ApplicationLinkKey) then None else find_key s p k) ∧
    (∀ p k, incoming_floor_predates_key s' p k =
       if decide (k = ApplicationLinkKey) then false else incoming_floor_predates_key s p k) ∧
    default_tc_link_key s' = default_tc_link_key s ∧
    distributed_security_link_key s' = distributed_security_link_key s ∧
    global_replay_table s' = global_replay_table s.
Proof.
  intros Hwf. unfold clear_application_link_keys.
  destruct (clear_application_loop_spec (E:=E) (S (length (key_table s))) 0 s)
    as (t & -> & (dr & Hp & Hdr) & Hall); [lia|lia|intros j e Hj; lia|].
  cbn [mbind outcome_bind]. eexists. split; [reflexivity|].
  set (s1 := set_stale _ _). assert (key_table s1 = t) as Et by by destruct s.
  assert (stale_incoming_floors s1 = retain (λ '(_, kind), negb (key_type_eqb kind ApplicationLinkKey))
    (stale_incoming_floors s)) as Es by by destruct s.
  assert (∀ e, e ∈ t ↔ e ∈ key_table s ∧ lk_key_type e ≠ ApplicationLinkKey) as Hmem.
  { intros e. rewrite <- Hp, elem_of_app. rewrite Forall_forall in Hdr, Hall. split.
    - intros He. split; [by right|auto].
    - intros [[He|He] Hne]; [by specialize (Hdr e He)|done]. }
  assert (asec_wf s1) as Hwf1.
  { split; rewrite ?Et, ?Es.
    - pose proof (asec_keys s Hwf) as Hnd. rewrite <- Hp, fmap_app in Hnd. by apply NoDup_app in Hnd as (_ & _ & ?).
    - pose proof (asec_capacity s Hwf). apply Permutation_length in Hp. rewrite length_app in Hp. lia.
    - eapply sublist_NoDup; [apply (asec_stale s Hwf)|apply retain_sublist].
    - intros id [Hin Hne]%elem_of_retain_stale. pose proof (asec_stale_keys s Hwf id Hin) as Hk.
      apply list_elem_of_fmap in Hk as (e & -> & He). apply list_elem_of_fmap. exists e. split; [done|]. by apply Hmem.
    - replace (global_replay_table s1) with (global_replay_table s) by by destruct s. apply Hwf.
    - replace (global_replay_table s1) with (global_replay_table s) by by destruct s. apply Hwf. }
  split_and!; [done| | |by destruct s..].
  - intros p k. apply option_eq. intros e. rewrite find_key_iff, Et, Hmem by done. case_decide as Hk.
    + split; [|done]. intros [[_ Hne] Hid]. unfold lk_id in Hid. congruence.
    + rewrite find_key_iff by done. split; [tauto|]. intros [He Hid]. split_and!; [done| |done].
      unfold lk_id in Hid. congruence.
  - intros p k. apply eq_true_iff_eq. rewrite incoming_floor_predates_key_iff, Es, elem_of_retain_stale. simpl.
    case_decide; [by split; [intros [_ []]|]|]. rewrite incoming_floor_predates_key_iff. tauto.
Qed.

(** ** Replay floors *)

(** The committed floor of a replay domain. *)
Definition replay_floor (s : ApsSecurity) (origin : ApsReplayOrigin) : option Z :=
  match origin with
  | RoKeyPair p k =>
      e ← find_key s p k;
      if lk_incoming_frame_counter_valid e then Some (lk_incoming_frame_counter e) else None
  | _ => arc_counter <$> List.find (same_domain origin) (global_replay_table s)
  end.

(** The domain exists: a key-pair needs its entry. *)
Definition domain_live (s : ApsSecurity) (origin : ApsReplayOrigin) : bool :=
  match origin with RoKeyPair p k => bool_decide (is_Some (find_key s p k)) | _ => true end.

Lemma replay_origin_eqb_sym a b : replay_origin_eqb a b = replay_origin_eqb b a.
Proof.
  destruct a, b; simpl; try done. unfold ieee_eqb, key_type_eqb. f_equal; apply bool_decide_ext; done.
Qed.

Lemma replay_origin_eqb_trans a b c :
  replay_origin_eqb a b = true → replay_origin_eqb b c = replay_origin_eqb a c.
Proof.
  destruct a, b; simpl; try done. unfold ieee_eqb, key_type_eqb.
  rewrite andb_true_iff, !bool_decide_eq_true. by intros [-> ->].
Qed.

Lemma replay_origin_eqb_refl a : replay_origin_eqb a a = true.
Proof. destruct a; simpl; try done. unfold ieee_eqb, key_type_eqb. by rewrite !bool_decide_true. Qed.

(** Two domains of global keys. *)
Definition domain_code (o : ApsReplayOrigin) : nat :=
  match o with RoKeyPair _ _ => 2 | RoPreconfiguredGlobal _ => 0 | RoDistributedGlobal _ => 1 end.

Lemma global_room s origin :
  asec_wf s → (∀ p k, origin ≠ RoKeyPair p k) →
  List.find (same_domain origin) (global_replay_table s) = None →
  (length (global_replay_table s) < MAX_ACTIVE_GLOBAL_REPLAY_DOMAINS)%nat.
Proof.
  intros Hwf Hg Hno. rewrite find_None_elem in Hno.
  pose proof (asec_global s Hwf) as Hglob. pose proof (asec_domains s Hwf) as Hdom.
  destruct (global_replay_table s) as [|a [|b l]]; [simpl; unfold MAX_ACTIVE_GLOBAL_REPLAY_DOMAINS; lia..|].
  exfalso. pose proof (Hno a ltac:(left)) as Ha. pose proof (Hno b ltac:(right; left)) as Hb.
  pose proof (Hglob a ltac:(left)) as Ga. pose proof (Hglob b ltac:(right; left)) as Gb.
  pose proof (Hdom 0%nat 1%nat a b eq_refl eq_refl) as Hab. unfold same_domain in Ha, Hb.
  destruct (arc_origin a), (arc_origin b), origin; simpl in *; try done;
    first [by specialize (Hab eq_refl)|by eapply Hg].
Qed.

(** A counter is admitted exactly above the floor of its domain. *)
Lemma check_replay_floor s replay :
  asec_wf s →
  check_replay_counter s replay =
  match replay_floor s (arc_origin replay) with Some f => f <? arc_counter replay | None => true end.
Proof.
  intros Hwf. destruct replay as [o fp c]. unfold check_replay_counter. simpl.
  assert ((∀ p k, o ≠ RoKeyPair p k) →
    match List.find (same_domain o) (global_replay_table s) with
    | Some entry => arc_counter entry <? c
    | None => negb (length (global_replay_table s) =? MAX_ACTIVE_GLOBAL_REPLAY_DOMAINS)%nat
    end = match arc_counter <$> List.find (same_domain o) (global_replay_table s) with
          | Some f => f <? c | None => true end) as Hglob.
  { intros Hg. destruct (List.find _ _) eqn:Hf; [done|]. simpl.
    pose proof (global_room s o Hwf Hg Hf). rewrite (proj2 (Nat.eqb_neq _ _)) by lia. done. }
  destruct o as [p k|src|src]; simpl; [|by apply Hglob..].
  unfold aps_check_frame_counter, lk_fresh. destruct (find_key s p k) as [e|]; [|done]. simpl.
  by destruct (lk_incoming_frame_counter_valid e).
Qed.

(** The floor of a domain after a counter has been committed to it. *)
Definition raised_floor (floor : option Z) (c : Z) : Z :=
  match floor with Some f => Z.max f c | None => c end.

Lemma commit_key_pair p k c s :
  asec_wf s →
  let s' := aps_commit_frame_counter p k c s in
  asec_wf s' ∧
  (∀ p' k', find_key s' p' k' =
     if decide ((p', k') = (p, k)) then
       (λ e, set_lk_incoming (if lk_fresh c e then c else lk_incoming_frame_counter e)
               (lk_fresh c e || lk_incoming_frame_counter_valid e) e) <$> find_key s p k
     else find_key s p' k') ∧
  default_tc_link_key s' = default_tc_link_key s ∧
  distributed_security_link_key s' = distributed_security_link_key s ∧
  global_replay_table s' = global_replay_table s.
Proof.
  intros Hwf. unfold aps_commit_frame_counter. destruct (find_key s p k) as [e|] eqn:Hf; cbn [fmap option_fmap option_map].
  - destruct (lk_fresh c e) eqn:Hfr; cbv zeta.
    + set (s1 := update_key _ p k s).
      assert (asec_wf s1) as Hwf1 by (apply update_key_wf; [apply lk_id_set_incoming|done]).
      destruct (update_key_fields (set_lk_incoming c true) p k s) as (Ed & Eg & Er & _). fold s1 in Ed, Eg, Er.
      destruct (set_stale_floor_fields p k false s1) as (E1 & E2 & E3 & E4).
      split_and!; [by apply set_stale_floor_wf| |congruence..]. intros p' k'.
      rewrite (find_key_ext s1) by done. unfold s1. rewrite find_key_update by apply lk_id_set_incoming.
      rewrite Hf. done.
    + split_and!; [done| |done..]. intros p' k'. case_decide as Hd; [|done]. injection Hd as -> ->.
      rewrite Hf. unfold lk_fresh in Hfr. destruct e as [? ? ? ? ? ? [|]]; done.
  - split_and!; [done| |done..]. intros p' k'. case_decide as Hd; [|done]. by injection Hd as -> ->.
Qed.

Lemma same_domain_congr a b e :
  replay_origin_eqb a b = true → same_domain a e = same_domain b e.
Proof.
  intros Hab. unfold same_domain. rewrite (replay_origin_eqb_sym _ a), (replay_origin_eqb_sym _ b).
  symmetry. by apply replay_origin_eqb_trans.
Qed.

Lemma replay_floor_congr s a b :
  replay_origin_eqb a b = true → replay_floor s a = replay_floor s b.
Proof.
  destruct a as [p k|x|x], b as [p' k'|y|y]; simpl; try done.
  unfold ieee_eqb, key_type_eqb. rewrite andb_true_iff, !bool_decide_eq_true. by intros [-> ->].
Qed.

(** Committing to the domain of a global key. *)
Definition commit_global (replay : ApsReplayCounter) (t : list ApsReplayCounter) : list ApsReplayCounter :=
  match position (same_domain (arc_origin replay)) t with
  | Some i => alter (λ entry, if arc_counter entry <? arc_counter replay then replay else entry) i t
  | None => vec_push_ignore MAX_ACTIVE_GLOBAL_REPLAY_DOMAINS t replay
  end.

Lemma commit_global_eq replay s :
  (∀ p k, arc_origin replay ≠ RoKeyPair p k) →
  commit_replay_counter replay s = set_global_replay (commit_global replay (global_replay_table s)) s.
Proof.
  intros Hg. unfold commit_replay_counter, commit_global.
  destruct (arc_origin replay) as [p k|x|x] eqn:Ho; [by destruct (Hg p k)|..];
    destruct (position _ _); done.
Qed.

Lemma commit_global_replaced replay s i x :
  global_replay_table s !! i = Some x → same_domain (arc_origin replay) x = true →
  let y := if arc_counter x <? arc_counter replay then replay else x in
  replay_origin_eqb (arc_origin y) (arc_origin replay) = true.
Proof. intros Hx Hs. simpl. case_match; [apply replay_origin_eqb_refl|done]. Qed.

Lemma find_snoc {A} (p : A → bool) l x :
  List.find p (l ++ [x]) = match List.find p l with Some y => Some y | None => if p x then Some x else None end.
Proof. induction l as [|y l IH]; simpl; [done|]. by destruct (p y). Qed.

Lemma commit_global_spec replay s :
  asec_wf s → (∀ p k, arc_origin replay ≠ RoKeyPair p k) →
  let t' := commit_global replay (global_replay_table s) in
  asec_wf (set_global_replay t' s) ∧
  ∀ o, arc_counter <$> List.find (same_domain o) t' =
    if replay_origin_eqb o (arc_origin replay)
    then Some (raised_floor (arc_counter <$> List.find (same_domain o) (global_replay_table s)) (arc_counter replay))
    else arc_counter <$> List.find (same_domain o) (global_replay_table s).
Proof.
  intros Hwf Hg. pose proof Hwf as [Hk Hc Hs Hsk Hglob Hdom]. unfold commit_global.
  set (t := global_replay_table s) in *. destruct (position _ t) as [i|] eqn:Hi; cbv zeta.
  - apply position_Some in Hi as (x & Hx & Hsame & Hb). rewrite (alter_insert _ _ _ _ Hx).
    set (y := if arc_counter x <? arc_counter replay then replay else x).
    assert (replay_origin_eqb (arc_origin y) (arc_origin replay) = true) as Hy
      by (by apply (commit_global_replaced replay s i x)).
    pose proof (lookup_lt_Some _ _ _ Hx) as Hlt. split.
    + destruct s as [kt dk gk rt fl]. simpl in t. split; try done; simpl.
      * intros e [->|He]%elem_of_list_insert; [|auto].
        specialize (Hglob x ltac:(by eapply list_elem_of_lookup_2)). unfold same_domain in Hsame.
        destruct (arc_origin y), (arc_origin x), (arc_origin replay); simpl in *; done.
      * intros a b e e' Ha Hb' Heq.
        assert (∀ z, replay_origin_eqb (arc_origin y) (arc_origin z) = replay_origin_eqb (arc_origin x) (arc_origin z)) as Hxy.
        { intros z. rewrite <- (replay_origin_eqb_trans (arc_origin y) (arc_origin replay)) by done.
          symmetry. rewrite <- (replay_origin_eqb_trans (arc_origin x) (arc_origin replay)) by done. done. }
        apply list_lookup_insert_Some in Ha as [(<- & <- & _)|[Hna Ha]],
          Hb' as [(<- & <- & _)|[Hnb Hb']]; [done| | |by eapply Hdom].
        -- rewrite Hxy in Heq. by eapply Hdom.
        -- rewrite replay_origin_eqb_sym, Hxy, replay_origin_eqb_sym in Heq. by eapply Hdom.
    + intros o. destruct (replay_origin_eqb o (arc_origin replay)) eqn:Ho.
      * assert (∀ e, same_domain o e = same_domain (arc_origin replay) e) as Hoe
          by (intros; by apply same_domain_congr).
        rewrite find_insert_first; [|done|by rewrite Hoe|intros j z Hj Hz; rewrite Hoe; by eapply Hb].
        assert (List.find (same_domain o) t = Some x) as ->.
        { rewrite find_position. rewrite (proj2 (position_Some _ _ i)); [done|].
          exists x. split_and!; [done|by rewrite Hoe|]. intros j z Hj Hz. rewrite Hoe. by eapply Hb. }
        simpl. f_equal. unfold y. case_match; bool_simpl; lia.
      * f_equal. apply find_insert_other.
        -- unfold same_domain. rewrite (replay_origin_eqb_sym _ o). apply not_true_iff_false. intros Hoy.
           rewrite (replay_origin_eqb_trans _ _ _ Hoy) in Hy. congruence.
        -- intros z Hz. simplify_eq. unfold same_domain. apply not_true_iff_false. intros Hzo.
           rewrite replay_origin_eqb_sym in Hzo. unfold same_domain in Hsame.
           rewrite (replay_origin_eqb_trans _ _ _ Hzo) in Hsame. congruence.
  - rewrite position_None in Hi.
    assert (List.find (same_domain (arc_origin replay)) t = None) as Hn by (by apply find_None_elem).
    pose proof (global_room s _ Hwf Hg Hn) as Hroom.
    unfold vec_push_ignore, vec_push. rewrite (proj2 (Nat.ltb_lt _ _)) by done. split.
    + destruct s as [kt dk gk rt fl]. simpl in t. split; try done; simpl.
      * intros e [He| ->%list_elem_of_singleton]%elem_of_app; [auto|].
        destruct (arc_origin replay) eqn:?; simpl; [|done..]. by destruct (Hg partner key_type).
      * intros a b e e' Ha Hb Heq.
        apply lookup_app_Some in Ha as [Ha|[Hla Ha]], Hb as [Hb|[Hlb Hb]].
        -- by eapply Hdom.
        -- apply list_lookup_singleton_Some in Hb as [? <-]. exfalso.
           pose proof (Hi e ltac:(by eapply list_elem_of_lookup_2)). unfold same_domain in *. congruence.
        -- apply list_lookup_singleton_Some in Ha as [? <-]. exfalso. rewrite replay_origin_eqb_sym in Heq.
           pose proof (Hi e' ltac:(by eapply list_elem_of_lookup_2)). unfold same_domain in *. congruence.
        -- apply list_lookup_singleton_Some in Ha as [? _], Hb as [? _]. lia.
    + intros o. destruct (replay_origin_eqb o (arc_origin replay)) eqn:Ho.
      * assert (∀ e, same_domain o e = same_domain (arc_origin replay) e) as Hoe
          by (intros; by apply same_domain_congr).
        assert (List.find (same_domain o) t = None) as Hno
          by (apply find_None_elem; intros e He; rewrite Hoe; by apply Hi).
        rewrite find_snoc, Hno. rewrite Hoe. unfold same_domain.
        by rewrite replay_origin_eqb_refl.
      * rewrite find_snoc. destruct (List.find (same_domain o) t); [done|]. unfold same_domain. rewrite replay_origin_eqb_sym, Ho. done.
Qed.

Lemma find_key_set_global t s p k : find_key (set_global_replay t s) p k = find_key s p k.
Proof. apply find_key_ext. by destruct s. Qed.

(** What committing a verified counter does. *)
Lemma commit_replay_spec_aux replay s :
  asec_wf s →
  let s' := commit_replay_counter replay s in
  asec_wf s' ∧
  (∀ o, replay_floor s' o =
     if replay_origin_eqb o (arc_origin replay) && domain_live s (arc_origin replay)
     then Some (raised_floor (replay_floor s o) (arc_counter replay)) else replay_floor s o) ∧
  (∀ p k, ∃ c b, find_key s' p k = set_lk_incoming c b <$> find_key s p k) ∧
  (∀ o, key_for_origin s' o = key_for_origin s o).
Proof.
  intros Hwf s'. assert (∀ e : ApsLinkKeyEntry, set_lk_incoming (lk_incoming_frame_counter e)
    (lk_incoming_frame_counter_valid e) e = e) as Hid by by intros [].
  destruct (arc_origin replay) as [p k|x|x] eqn:Ho.
  1:{ subst s'. unfold commit_replay_counter. rewrite Ho. set (c := arc_counter replay).
      destruct (commit_key_pair p k c s Hwf) as (Hwf' & Hf & Ed & Eg & Er).
      set (s' := aps_commit_frame_counter p k c s) in *. split_and!; [done|..].
      - intros [p' k'|y|y]; cbn [replay_origin_eqb andb replay_floor]; [|by rewrite Er..]. rewrite Hf.
        unfold ieee_eqb, key_type_eqb, domain_live. case_decide as Hd.
        + injection Hd as -> ->. rewrite !bool_decide_true by done. simpl.
          destruct (find_key s p k) as [e|]; simpl; [|done]. unfold raised_floor, lk_fresh.
          destruct e as [? ? ? ? ? f [|]]; simpl; [|done]. destruct (Z.ltb_spec f c); simpl; f_equal; lia.
        + assert (bool_decide (p' = p) && bool_decide (k' = k) = false) as ->; [|done].
          apply not_true_iff_false. rewrite andb_true_iff, !bool_decide_eq_true. by intros [-> ->].
      - intros p' k'. rewrite Hf. case_decide as Hd.
        + injection Hd as -> ->. destruct (find_key s p k) as [e|]; [|by exists 0, false]. simpl. eauto.
        + destruct (find_key s p' k') as [e|]; [|by exists 0, false]. simpl. eexists _, _. by rewrite Hid.
      - intros [p' k'| |]; cbn [key_for_origin]; [|congruence..]. rewrite Hf. case_decide as Hd; [|done].
        injection Hd as -> ->. destruct (find_key s p k) as [e|]; [|done]. simpl. by destruct e. }
  all: assert (∀ p k, arc_origin replay ≠ RoKeyPair p k) as Hg by (intros; congruence);
    subst s'; rewrite commit_global_eq by done;
    destruct (commit_global_spec replay s Hwf Hg) as [Hwf' Hfind]; split_and!; [done|..];
    [intros [p' k'|y|y]; simpl; rewrite ?find_key_set_global; try done;
       replace (global_replay_table (set_global_replay _ s)) with (commit_global replay (global_replay_table s))
         by (by destruct s); rewrite Hfind, Ho; done
    |intros p' k'; rewrite find_key_set_global; destruct (find_key s p' k') as [e|]; [|by exists 0, false];
       simpl; eexists _, _; by rewrite Hid
    |intros [p' k'| |]; cbn [key_for_origin]; rewrite ?find_key_set_global; by destruct s].
Qed.

(** * Histories *)
Inductive asec_event :=
| EvReceive (replay : ApsReplayCounter)
| EvSend (partner : IeeeAddress) (key_type : ApsKeyType)
| EvAdd (entry : ApsLinkKeyEntry)
| EvRemove (partner : IeeeAddress) (key_type : ApsKeyType)
| EvClearApplication
| EvClearAll
| EvResetStale (partner : IeeeAddress) (key_type : ApsKeyType)
| EvSetDefault (key : AesKey)
| EvSetDistributed (key : AesKey)
| EvClearDistributed
| EvRestore (replay : ApsReplayCounter).

(** The counter accepted or reserved by an event is its answer. *)
Definition asec_step (ev : asec_event) (s : ApsSecurity) : outcome Empty_set (ApsSecurity * option Z) :=
  match ev with
  | EvReceive replay =>
      Ok (if check_replay_counter s replay then (commit_replay_counter replay s, Some (arc_counter replay))
          else (s, None))
  | EvSend p k => next_frame_counter p k s
  | EvAdd entry =>
      match add_key entry s with Ok s' => Ok (s', None) | Err _ => Ok (s, None) | Panic => Panic end
  | EvRemove p k => '(s, _) ← remove_key p k s; Ok (s, None)
  | EvClearApplication =>
      r ← clear_application_link_keys (E:=Empty_set) s;
      match r with Some s => Ok (s, None) | None => Panic end
  | EvClearAll => Ok (clear_keys s, None)
  | EvResetStale p k => Ok ((reset_stale_incoming_floor p k s).1, None)
  | EvSetDefault key => Ok (set_default_tc_link_key key s, None)
  | EvSetDistributed key => Ok (set_distributed_security_link_key key s, None)
  | EvClearDistributed => Ok (clear_distributed_security_link_key s, None)
  | EvRestore replay => Ok ((aps_restore_replay_counter replay s).1, None)
  end.

Fixpoint asec_run (evs : list asec_event) (s : ApsSecurity) : outcome Empty_set ApsSecurity :=
  match evs with
  | [] => Ok s
  | ev :: evs => '(s, _) ← asec_step ev s; asec_run evs s
  end.

Definition event_wf (ev : asec_event) : Prop :=
  match ev with EvAdd entry => is_u32 (lk_outgoing_frame_counter_limit entry) | _ => True end.

Record asec_inv (s : ApsSecurity) : Prop := {
  ainv_wf : asec_wf s;
  ainv_limit : ∀ p k e, find_key s p k = Some e → is_u32 (lk_outgoing_frame_counter_limit e) }.

Lemma asec_inv_new : asec_inv asec_new.
Proof.
  split; [split|by intros p k e]; simpl; try apply NoDup_nil_2; try done.
  - lia.
  - intros id Hid. by apply elem_of_nil in Hid.
Qed.

Lemma set_global_retain_wf q s : asec_wf s → asec_wf (set_global_replay (retain q (global_replay_table s)) s).
Proof.
  intros [Hk Hc Hs Hsk Hg Hd]. destruct s as [t d g r f]. split; try done; simpl in *.
  - intros e [He _]%elem_of_retain. auto.
  - intros i j e e' Hi Hj Heq.
    assert (e ∈ r ∧ e' ∈ r) as [[a Ha]%list_elem_of_lookup [b Hb]%list_elem_of_lookup].
    { split; eapply elem_of_retain; by eapply list_elem_of_lookup_2. }
    assert (a = b) as -> by (by eapply Hd). simplify_eq.
    eapply (NoDup_lookup (retain q r)); [|done|done]. eapply sublist_NoDup; [|apply retain_sublist].
    apply NoDup_alt. intros i' j' x Hi' Hj'. eapply Hd; [done..|apply replay_origin_eqb_refl].
Qed.

Lemma set_default_key_wf v s : asec_wf s → asec_wf (set_default_key v s).
Proof. intros []. by destruct s. Qed.
Lemma set_distributed_key_wf v s : asec_wf s → asec_wf (set_distributed_key v s).
Proof. intros []. by destruct s. Qed.

Lemma reset_stale_spec p k s :
  asec_wf s →
  let s' := (reset_stale_incoming_floor p k s).1 in
  asec_wf s' ∧
  (∀ p' k', find_key s' p' k' =
     if decide ((p', k') = (p, k)) then
       if incoming_floor_predates_key s p k then set_lk_incoming 0 false <$> find_key s p k else find_key s p k
     else find_key s p' k') ∧
  global_replay_table s' = global_replay_table s.
Proof.
  intros Hwf. unfold reset_stale_incoming_floor. destruct (incoming_floor_predates_key s p k) eqn:Hst; simpl.
  - set (s1 := set_stale_incoming_floor p k false s).
    destruct (set_stale_floor_fields p k false s) as (E1 & E2 & E3 & E4). fold s1 in E1, E2, E3, E4.
    assert (asec_wf s1) as Hwf1 by (by apply set_stale_floor_wf).
    assert (∀ p' k', find_key s1 p' k' = find_key s p' k') as Hf by (intros; by apply find_key_ext).
    rewrite Hf. destruct (find_key s p k) as [e|] eqn:Hfk; simpl.
    + destruct (update_key_fields (set_lk_incoming 0 false) p k s1) as (_ & _ & Er & _).
      split_and!; [by apply update_key_wf; [apply lk_id_set_incoming|]| |congruence].
      intros p' k'. rewrite find_key_update by apply lk_id_set_incoming. rewrite !Hf, Hfk. done.
    + split_and!; [done| |done]. intros p' k'. rewrite Hf. case_decide as Hd; [|done]. by injection Hd as -> ->.
  - split_and!; [done| |done]. intros p' k'. case_decide as Hd; [|done]. by injection Hd as -> ->.
Qed.

Lemma next_frame_counter_spec {E} p k s :
  asec_inv s →
  ∃ s' r, next_frame_counter (E:=E) p k s = Ok (s', r) ∧ asec_wf s' ∧
    r = (e ← find_key s p k;
         if lk_outgoing_frame_counter e <? lk_outgoing_frame_counter_limit e
         then Some (lk_outgoing_frame_counter e) else None) ∧
    (∀ p' k', find_key s' p' k' =
       if decide ((p', k') = (p, k)) then
         match r with Some c => set_lk_outgoing (c + 1) <$> find_key s p k | None => find_key s p k end
       else find_key s p' k') ∧
    global_replay_table s' = global_replay_table s.
Proof.
  intros [Hwf Hlim]. unfold next_frame_counter. destruct (find_key s p k) as [e|] eqn:Hf; simpl.
  - rewrite Z.leb_antisym. destruct (Z.ltb_spec (lk_outgoing_frame_counter e) (lk_outgoing_frame_counter_limit e)) as [Hl|Hl]; simpl.
    + specialize (Hlim p k e Hf). unfold add_u32. unfold is_u32 in Hlim. rewrite (proj2 (Z.ltb_lt _ _)) by lia.
      cbn [mbind outcome_bind]. eexists _, _. split; [reflexivity|].
      destruct (update_key_fields (set_lk_outgoing (lk_outgoing_frame_counter e + 1)) p k s) as (_ & _ & Er & _).
      split_and!; [by apply update_key_wf; [apply lk_id_set_outgoing|]|done| |done].
      intros p' k'. rewrite find_key_update by apply lk_id_set_outgoing. by rewrite Hf.
    + eexists _, _. split; [reflexivity|]. split_and!; [done..| |done]. intros p' k'.
      case_decide as Hd; [|done]. by injection Hd as -> ->.
  - eexists _, _. split; [reflexivity|]. split_and!; [done..| |done]. intros p' k'.
    case_decide as Hd; [|done]. by injection Hd as -> ->.
Qed.

Lemma set_default_tc_spec key s :
  asec_wf s → asec_wf (set_default_tc_link_key key s) ∧
  (∀ p k, find_key (set_default_tc_link_key key s) p k = find_key s p k).
Proof.
  intros Hwf. unfold set_default_tc_link_key. split.
  - apply set_default_key_wf. case_match; [by apply set_global_retain_wf|done].
  - intros. apply find_key_ext. case_match; by destruct s.
Qed.

Lemma set_distributed_spec key s :
  asec_wf s → asec_wf (set_distributed_security_link_key key s) ∧
  (∀ p k, find_key (set_distributed_security_link_key key s) p k = find_key s p k).
Proof.
  intros Hwf. unfold set_distributed_security_link_key. split.
  - apply set_distributed_key_wf. case_match; [by apply set_global_retain_wf|done].
  - intros. apply find_key_ext. case_match; by destruct s.
Qed.

Lemma clear_distributed_spec s :
  asec_wf s → asec_wf (clear_distributed_security_link_key s) ∧
  (∀ p k, find_key (clear_distributed_security_link_key s) p k = find_key s p k).
Proof.
  intros Hwf. unfold clear_distributed_security_link_key. split.
  - apply set_global_retain_wf, set_distributed_key_wf, Hwf.
  - intros. apply find_key_ext. by destruct s.
Qed.

Lemma clear_keys_wf s : asec_wf (clear_keys s) ∧ (∀ p k, find_key (clear_keys s) p k = None).
Proof.
  split; [|intros; by destruct s]. pose proof (ainv_wf _ asec_inv_new) as []. destruct s. by split.
Qed.

Lemma restore_spec replay s :
  let s' := (aps_restore_replay_counter replay s).1 in s' = s ∨ s' = commit_replay_counter replay s.
Proof. unfold aps_restore_replay_counter. repeat case_match; (by left) || (by right). Qed.

Lemma lk_limit_incoming c b e : lk_outgoing_frame_counter_limit (set_lk_incoming c b e) = lk_outgoing_frame_counter_limit e.
Proof. by destruct e. Qed.

Lemma commit_replay_inv replay s : asec_inv s → asec_inv (commit_replay_counter replay s).
Proof.
  intros [Hwf Hlim]. destruct (commit_replay_spec_aux replay s Hwf) as (Hwf' & _ & Hf & _). split; [done|].
  intros p k e He. destruct (Hf p k) as (c & b & Hf'). rewrite Hf' in He.
  apply fmap_Some in He as (e0 & He0 & ->). rewrite lk_limit_incoming. eauto.
Qed.

(** Every operation keeps the invariant and none panics. *)
Lemma asec_step_inv ev s :
  asec_inv s → event_wf ev → ∃ s' r, asec_step ev s = Ok (s', r) ∧ asec_inv s'.
Proof.
  intros Hinv Hev. pose proof Hinv as [Hwf Hlim].
  destruct ev as [replay|p k|entry|p k| | |p k|key|key| |replay]; simpl.
  - case_match; eexists _, _; (split; [reflexivity|]); [by apply commit_replay_inv|done].
  - destruct (next_frame_counter_spec (E:=Empty_set) p k s Hinv) as (s' & r & -> & Hwf' & _ & Hf & _).
    eexists _, _. split; [done|]. split; [done|]. intros p' k' e. rewrite Hf. case_decide; [|by apply Hlim].
    destruct r; [|by apply Hlim]. intros (e0 & He0 & ->)%fmap_Some. destruct e0. by eapply Hlim in He0.
  - pose proof (add_key_spec entry s Hwf) as Ha. destruct (add_key entry s) as [s'| |]; [|by eexists _, _|done].
    destruct Ha as (Hwf' & Hf & _). eexists _, _. split; [done|]. split; [done|]. intros p' k' e. rewrite Hf.
    case_decide; [by intros [= <-]|]. by apply Hlim.
  - destruct (remove_key_spec (E:=Empty_set) p k s Hwf) as (s' & -> & Hwf' & Hf & _). cbn [mbind outcome_bind].
    eexists _, _. split; [done|]. split; [done|]. intros p' k' e. rewrite Hf. case_decide; [done|]. by apply Hlim.
  - destruct (clear_application_link_keys_spec (E:=Empty_set) s Hwf) as (s' & -> & Hwf' & Hf & _).
    cbn [mbind outcome_bind]. eexists _, _. split; [done|]. split; [done|]. intros p' k' e. rewrite Hf.
    case_decide; [done|]. by apply Hlim.
  - destruct (clear_keys_wf s) as [Hwf' Hf]. eexists _, _. split; [done|]. split; [done|]. intros p k e. by rewrite Hf.
  - destruct (reset_stale_spec p k s Hwf) as (Hwf' & Hf & _). eexists _, _. split; [done|]. split; [done|].
    intros p' k' e. rewrite Hf. case_decide; [|by apply Hlim]. case_match; [|by apply Hlim].
    intros (e0 & He0 & ->)%fmap_Some. rewrite lk_limit_incoming. eauto.
  - destruct (set_default_tc_spec key s Hwf) as [Hwf' Hf]. eexists _, _. split; [done|]. split; [done|].
    intros p k e. rewrite Hf. apply Hlim.
  - destruct (set_distributed_spec key s Hwf) as [Hwf' Hf]. eexists _, _. split; [done|]. split; [done|].
    intros p k e. rewrite Hf. apply Hlim.
  - destruct (clear_distributed_spec s Hwf) as [Hwf' Hf]. eexists _, _. split; [done|]. split; [done|].
    intros p k e. rewrite Hf. apply Hlim.
  - eexists _, _. split; [done|]. destruct (restore_spec replay s) as [-> | ->]; [done|by apply commit_replay_inv].
Qed.

Lemma asec_run_inv evs s :
  asec_inv s → Forall event_wf evs → ∃ s', asec_run evs s = Ok s' ∧ asec_inv s'.
Proof.
  revert s. induction evs as [|ev evs IH]; intros s Hinv Hevs; simpl; [by eexists|].
  apply Forall_cons in Hevs as [Hev Hevs]. destruct (asec_step_inv ev s Hinv Hev) as (s' & r & -> & Hinv').
  cbn [mbind outcome_bind]. auto.
Qed.

(** ** Counters seen over a history *)

(** Events that leave a replay domain its key: everything but installing,
    removing, or resetting the very key of the domain. *)
Definition keeps_domain (o : ApsReplayOrigin) (ev : asec_event) : bool :=
  match ev with
  | EvReceive _ | EvSend _ _ | EvRestore _ => true
  | EvAdd entry => negb (replay_origin_eqb o (RoKeyPair (lk_partner_address entry) (lk_key_type entry)))
  | EvRemove p k | EvResetStale p k => negb (replay_origin_eqb o (RoKeyPair p k))
  | EvClearApplication => match o with RoKeyPair _ k => negb (key_type_eqb k ApplicationLinkKey) | _ => true end
  | EvClearAll => false
  | EvSetDefault _ => negb (is_preconfigured o)
  | EvSetDistributed _ | EvClearDistributed => negb (is_distributed o)
  end.

Definition received_in (o : ApsReplayOrigin) (ev : asec_event) : bool :=
  match ev with EvReceive replay => replay_origin_eqb o (arc_origin replay) | _ => false end.

(** Counters accepted in the domain, in order of arrival. *)
Fixpoint accepted_in (o : ApsReplayOrigin) (evs : list asec_event) (s : ApsSecurity) : list Z :=
  match evs with
  | [] => []
  | ev :: evs =>
      match asec_step ev s with
      | Ok (s', r) =>
          (if received_in o ev then option_list r else []) ++ accepted_in o evs s'
      | _ => []
      end
  end.

Definition floor_le (a b : option Z) : Prop :=
  match a with None => True | Some f => ∃ f', b = Some f' ∧ f <= f' end.

Lemma floor_le_refl a : floor_le a a.
Proof. destruct a as [f|]; [exists f; split; [done|lia]|done]. Qed.

Lemma floor_le_trans a b c : floor_le a b → floor_le b c → floor_le a c.
Proof.
  destruct a as [f|]; [|done]. intros (f' & -> & ?) (f'' & -> & ?). exists f''. split; [done|lia].
Qed.

Lemma raised_floor_le a c : floor_le a (Some (raised_floor a c)).
Proof. destruct a as [f|]; [|done]. eexists. split; [done|]. simpl. lia. Qed.

Lemma key_pair_floor s s' p k :
  find_key s' p k = find_key s p k → replay_floor s' (RoKeyPair p k) = replay_floor s (RoKeyPair p k).
Proof. simpl. by intros ->. Qed.

Lemma retain_find (q : ApsReplayCounter → bool) o t :
  (∀ e, same_domain o e = true → q e = true) →
  List.find (same_domain o) (retain q t) = List.find (same_domain o) t.
Proof.
  intros Hq. induction t as [|x t IH]; simpl; [done|]. destruct (same_domain o x) eqn:Hs.
  - rewrite (Hq x Hs). simpl. by rewrite Hs.
  - destruct (q x); simpl; rewrite ?Hs; done.
Qed.

Lemma same_domain_preconfigured o e :
  is_preconfigured o = false → same_domain o e = true → is_preconfigured (arc_origin e) = false.
Proof. unfold same_domain. destruct (arc_origin e), o; done. Qed.

Lemma same_domain_distributed o e :
  is_distributed o = false → same_domain o e = true → is_distributed (arc_origin e) = false.
Proof. unfold same_domain. destruct (arc_origin e), o; done. Qed.

(** State changes that a domain does not notice. *)
Lemma domain_same s s' o :
  (∀ p k, o = RoKeyPair p k → find_key s' p k = find_key s p k) →
  ((∀ p k, o ≠ RoKeyPair p k) →
     List.find (same_domain o) (global_replay_table s') = List.find (same_domain o) (global_replay_table s)) →
  replay_floor s' o = replay_floor s o ∧ domain_live s' o = domain_live s o.
Proof.
  intros Hk Hg. destruct o as [p k|x|x]; simpl; [by rewrite (Hk p k)|..];
    rewrite Hg by done; done.
Qed.

Lemma replay_origin_pair p k p' k' :
  negb (replay_origin_eqb (RoKeyPair p k) (RoKeyPair p' k')) = true ↔ (p, k) ≠ (p', k').
Proof.
  simpl. unfold ieee_eqb, key_type_eqb. rewrite negb_true_iff, <- not_true_iff_false, andb_true_iff, !bool_decide_eq_true.
  split; intros H Heq; apply H; [by injection Heq as -> ->|by destruct Heq as [-> ->]].
Qed.

Lemma commit_domain replay s o :
  asec_wf s → domain_live s o = true →
  floor_le (replay_floor s o) (replay_floor (commit_replay_counter replay s) o) ∧
  domain_live (commit_replay_counter replay s) o = true.
Proof.
  intros Hwf Hlive. destruct (commit_replay_spec_aux replay s Hwf) as (_ & Hfl & Hf & _). split.
  - rewrite Hfl. case_match; [apply raised_floor_le|apply floor_le_refl].
  - destruct o as [p k|x|x]; [|done..]. simpl in *. destruct (Hf p k) as (c & b & ->).
    apply bool_decide_eq_true in Hlive. apply bool_decide_eq_true. by apply fmap_is_Some.
Qed.

(** A step never lowers the floor of a domain it keeps, and accepts a counter
    only above the floor, which it becomes. *)
Lemma asec_step_domain o ev s s' r :
  asec_inv s → event_wf ev → domain_live s o = true → keeps_domain o ev = true →
  asec_step ev s = Ok (s', r) →
  domain_live s' o = true ∧ floor_le (replay_floor s o) (replay_floor s' o) ∧
  ∀ c, received_in o ev = true → r = Some c →
    (∀ f, replay_floor s o = Some f → f < c) ∧ replay_floor s' o = Some c.
Proof.
  intros Hinv Hev Hlive Hkeep Hstep. pose proof Hinv as [Hwf Hlim].
  assert ((replay_floor s' o = replay_floor s o ∧ domain_live s' o = domain_live s o) → received_in o ev = false →
    domain_live s' o = true ∧ floor_le (replay_floor s o) (replay_floor s' o) ∧
    ∀ c, received_in o ev = true → r = Some c →
      (∀ f, replay_floor s o = Some f → f < c) ∧ replay_floor s' o = Some c) as Hsame.
  { intros [-> ->] Hno. split_and!; [done|apply floor_le_refl|]. intros c Hc. congruence. }
  destruct ev as [replay|p k|entry|p k| | |p k|key|key| |replay]; simpl in Hstep, Hkeep.
  - clear Hsame. destruct (check_replay_counter s replay) eqn:Hchk; injection Hstep as <- <-;
      [|split_and!; [done|apply floor_le_refl|done]].
    destruct (commit_domain replay s o Hwf Hlive) as [Hle Hl']. split_and!; [done|done|].
    intros c Ho [= <-]. cbn [received_in] in Ho. rewrite check_replay_floor in Hchk by done.
    rewrite <- (replay_floor_congr s _ _ Ho) in Hchk.
    destruct (commit_replay_spec_aux replay s Hwf) as (_ & Hfl & _). rewrite Hfl, Ho. simpl.
    assert (domain_live s (arc_origin replay) = true) as ->.
    { destruct o as [p k|x|x], (arc_origin replay) as [p' k'|y|y]; try done.
      simpl in Ho. unfold ieee_eqb, key_type_eqb in Ho. rewrite andb_true_iff, !bool_decide_eq_true in Ho.
      by destruct Ho as [-> ->]. }
    destruct (replay_floor s o) as [f|]; simpl; [|done]. apply Z.ltb_lt in Hchk.
    split; [by intros f' [= <-]|]. f_equal. lia.
  - apply Hsame; [|done]. destruct (next_frame_counter_spec (E:=Empty_set) p k s Hinv) as (s1 & r1 & Hn & _ & _ & Hf & Er).
    rewrite Hstep in Hn. injection Hn as <- <-. destruct o as [p' k'|x|x]; simpl; [|by rewrite Er..].
    rewrite Hf. case_decide as Hd; [|done]. injection Hd as -> ->.
    destruct r; [|done]. destruct (find_key s p k) as [e|]; [|done]. by destruct e.
  - apply Hsame; [|done]. pose proof (add_key_spec entry s Hwf) as Ha.
    destruct (add_key entry s) as [s1| |]; simplify_eq; [|done]. destruct Ha as (_ & Hf & _ & _ & _ & Er).
    apply domain_same; [|by rewrite Er]. intros p k ->. rewrite Hf. apply replay_origin_pair in Hkeep.
    by rewrite decide_False.
  - apply Hsame; [|done]. destruct (remove_key_spec (E:=Empty_set) p k s Hwf) as (s1 & Hr & _ & Hf & _ & _ & _ & Er).
    rewrite Hr in Hstep. cbn [mbind outcome_bind] in Hstep. simplify_eq.
    apply domain_same; [|by rewrite Er]. intros p' k' ->. rewrite Hf. apply replay_origin_pair in Hkeep.
    by rewrite decide_False.
  - apply Hsame; [|done].
    destruct (clear_application_link_keys_spec (E:=Empty_set) s Hwf) as (s1 & Hr & _ & Hf & _ & _ & _ & Er).
    rewrite Hr in Hstep. cbn [mbind outcome_bind] in Hstep. simplify_eq.
    apply domain_same; [|by rewrite Er]. intros p' k' ->. rewrite Hf. rewrite decide_False; [done|].
    intros ->. done.
  - done.
  - apply Hsame; [|done]. destruct (reset_stale_spec p k s Hwf) as (_ & Hf & Er). injection Hstep as <- <-.
    apply domain_same; [|by rewrite Er]. intros p' k' ->. rewrite Hf. apply replay_origin_pair in Hkeep.
    by rewrite decide_False.
  - apply Hsame; [|done]. injection Hstep as <- <-. apply negb_true_iff in Hkeep. apply domain_same.
    + intros. by apply set_default_tc_spec.
    + intros _. unfold set_default_tc_link_key. case_match; [|by destruct s]. destruct s as [t d g rt f]. simpl.
      apply retain_find. intros e He. by rewrite (same_domain_preconfigured o).
  - apply Hsame; [|done]. injection Hstep as <- <-. apply negb_true_iff in Hkeep. apply domain_same.
    + intros. by apply set_distributed_spec.
    + intros _. unfold set_distributed_security_link_key. case_match; [|by destruct s]. destruct s as [t d g rt f]. simpl.
      apply retain_find. intros e He. by rewrite (same_domain_distributed o).
  - apply Hsame; [|done]. injection Hstep as <- <-. apply negb_true_iff in Hkeep. apply domain_same.
    + intros. by apply clear_distributed_spec.
    + intros _. unfold clear_distributed_security_link_key. destruct s as [t d g rt f]. simpl.
      apply retain_find. intros e He. by rewrite (same_domain_distributed o).
  - injection Hstep as <- <-. destruct (restore_spec replay s) as [-> | ->].
    + split_and!; [done|apply floor_le_refl|done].
    + destruct (commit_domain replay s o Hwf Hlive) as [Hle Hl']. by split_and!.
Qed.

Lemma accepted_in_increasing o evs s :
  asec_inv s → Forall event_wf evs → domain_live s o = true → Forall (λ ev, keeps_domain o ev = true) evs →
  StronglySorted Z.lt (accepted_in o evs s) ∧
  ∀ f c, replay_floor s o = Some f → c ∈ accepted_in o evs s → f < c.
Proof.
  revert s. induction evs as [|ev evs IH]; intros s Hinv Hwf Hlive Hkeep; simpl.
  { split; [constructor|]. intros f c _ Hc. by apply elem_of_nil in Hc. }
  apply Forall_cons in Hwf as [Hev Hwf], Hkeep as [Hk Hkeep].
  destruct (asec_step_inv ev s Hinv Hev) as (s' & r & Hstep & Hinv'). rewrite Hstep.
  destruct (asec_step_domain o ev s s' r Hinv Hev Hlive Hk Hstep) as (Hlive' & Hle & Hacc).
  destruct (IH s' Hinv' Hwf Hlive' Hkeep) as [Hsort Hfloor].
  assert (∀ f c, replay_floor s o = Some f → c ∈ accepted_in o evs s' → f < c) as Hlater.
  { intros f c Hf Hc. rewrite Hf in Hle. destruct Hle as (f' & Hf' & ?). specialize (Hfloor f' c Hf' Hc). lia. }
  destruct (received_in o ev) eqn:Ho; [|done]. destruct r as [c0|]; [|done]. simpl.
  destruct (Hacc c0 eq_refl eq_refl) as [Habove Hnew]. split.
  - constructor; [done|]. apply Forall_forall. intros c Hc. by eapply Hfloor.
  - intros f c Hf [->|Hc]%elem_of_cons; eauto.
Qed.

(** ** Outgoing counters over a history *)
Definition keeps_pair (p : IeeeAddress) (k : ApsKeyType) (ev : asec_event) : bool :=
  match ev with
  | EvAdd entry => negb (replay_origin_eqb (RoKeyPair p k) (RoKeyPair (lk_partner_address entry) (lk_key_type entry)))
  | EvRemove p' k' => negb (replay_origin_eqb (RoKeyPair p k) (RoKeyPair p' k'))
  | EvClearApplication => negb (key_type_eqb k ApplicationLinkKey)
  | EvClearAll => false
  | _ => true
  end.

Definition sent_for (p : IeeeAddress) (k : ApsKeyType) (ev : asec_event) : bool :=
  match ev with EvSend p' k' => ieee_eqb p' p && key_type_eqb k' k | _ => false end.

(** Outgoing counters reserved for the pair, in order. *)
Fixpoint reserved_for (p : IeeeAddress) (k : ApsKeyType) (evs : list asec_event) (s : ApsSecurity) : list Z :=
  match evs with
  | [] => []
  | ev :: evs =>
      match asec_step ev s with
      | Ok (s', r) => (if sent_for p k ev then option_list r else []) ++ reserved_for p k evs s'
      | _ => []
      end
  end.

Definition outgoing (s : ApsSecurity) (p : IeeeAddress) (k : ApsKeyType) : option (Z * Z) :=
  (λ e, (lk_outgoing_frame_counter e, lk_outgoing_frame_counter_limit e)) <$> find_key s p k.

Lemma outgoing_fmap s s' p k f :
  find_key s' p k = f <$> find_key s p k →
  (∀ e, lk_outgoing_frame_counter (f e) = lk_outgoing_frame_counter e ∧
        lk_outgoing_frame_counter_limit (f e) = lk_outgoing_frame_counter_limit e) →
  outgoing s' p k = outgoing s p k.
Proof.
  intros Hf He. unfold outgoing. rewrite Hf, <- option_fmap_compose. apply option_fmap_ext. intros e. simpl.
  by destruct (He e) as [-> ->].
Qed.

Lemma outgoing_same s s' p k : find_key s' p k = find_key s p k → outgoing s' p k = outgoing s p k.
Proof. unfold outgoing. by intros ->. Qed.

Lemma commit_outgoing replay s p k :
  asec_wf s → outgoing (commit_replay_counter replay s) p k = outgoing s p k.
Proof.
  intros Hwf. destruct (commit_replay_spec_aux replay s Hwf) as (_ & _ & Hf & _).
  destruct (Hf p k) as (c & b & Hf'). apply (outgoing_fmap _ _ _ _ _ Hf'). by intros [].
Qed.

Lemma asec_step_outgoing p k ev s s' r n lim :
  asec_inv s → event_wf ev → keeps_pair p k ev = true → asec_step ev s = Ok (s', r) →
  outgoing s p k = Some (n, lim) →
  if sent_for p k ev then
    (r = Some n ∧ n < lim ∧ outgoing s' p k = Some (n + 1, lim)) ∨ (r = None ∧ outgoing s' p k = Some (n, lim))
  else outgoing s' p k = Some (n, lim).
Proof.
  intros Hinv Hev Hkeep Hstep Hout. pose proof Hinv as [Hwf _].
  destruct ev as [replay|p' k'|entry|p' k'| | |p' k'|key|key| |replay]; simpl in Hstep, Hkeep |- *.
  - case_match; simplify_eq; [|done]. by rewrite commit_outgoing.
  - destruct (next_frame_counter_spec (E:=Empty_set) p' k' s Hinv) as (s1 & r1 & Hn & _ & Hr & Hf & _).
    rewrite Hstep in Hn. injection Hn as <- <-. unfold ieee_eqb, key_type_eqb.
    destruct (decide ((p, k) = (p', k'))) as [[= <- <-]|Hne].
    + rewrite !bool_decide_true by done. simpl. unfold outgoing in *. rewrite Hf, decide_True by done.
      destruct (find_key s p k) as [e|]; [|done]. simpl in *. injection Hout as <- <-.
      destruct (Z.ltb_spec (lk_outgoing_frame_counter e) (lk_outgoing_frame_counter_limit e)); subst r; [left|by right].
      split_and!; [done|done|]. by destruct e.
    + assert (bool_decide (p' = p) && bool_decide (k' = k) = false) as ->.
      { apply not_true_iff_false. rewrite andb_true_iff, !bool_decide_eq_true. by intros [-> ->]. }
      rewrite (outgoing_same s); [done|]. by rewrite Hf, decide_False.
  - pose proof (add_key_spec entry s Hwf) as Ha. destruct (add_key entry s) as [s1| |]; simplify_eq; [|done].
    destruct Ha as (_ & Hf & _). rewrite (outgoing_same s); [done|]. rewrite Hf.
    apply replay_origin_pair in Hkeep. by rewrite decide_False.
  - destruct (remove_key_spec (E:=Empty_set) p' k' s Hwf) as (s1 & Hr & _ & Hf & _).
    rewrite Hr in Hstep. cbn [mbind outcome_bind] in Hstep. simplify_eq.
    rewrite (outgoing_same s); [done|]. rewrite Hf. apply replay_origin_pair in Hkeep. by rewrite decide_False.
  - destruct (clear_application_link_keys_spec (E:=Empty_set) s Hwf) as (s1 & Hr & _ & Hf & _).
    rewrite Hr in Hstep. cbn [mbind outcome_bind] in Hstep. simplify_eq.
    rewrite (outgoing_same s); [done|]. rewrite Hf, decide_False; [done|]. by intros ->.
  - done.
  - destruct (reset_stale_spec p' k' s Hwf) as (_ & Hf & _). injection Hstep as <- <-.
    destruct (decide ((p, k) = (p', k'))) as [[= <- <-]|Hne].
    + destruct (incoming_floor_predates_key s p k) eqn:Hst.
      * rewrite (outgoing_fmap s _ p k (set_lk_incoming 0 false)); [done| |by intros []].
        by rewrite Hf, decide_True.
      * rewrite (outgoing_same s); [done|]. by rewrite Hf, decide_True.
    + rewrite (outgoing_same s); [done|]. by rewrite Hf, decide_False.
  - injection Hstep as <- <-. rewrite (outgoing_same s); [done|]. by apply set_default_tc_spec.
  - injection Hstep as <- <-. rewrite (outgoing_same s); [done|]. by apply set_distributed_spec.
  - injection Hstep as <- <-. rewrite (outgoing_same s); [done|]. by apply clear_distributed_spec.
  - injection Hstep as <- <-. destruct (restore_spec replay s) as [-> | ->]; [done|]. by rewrite commit_outgoing.
Qed.

Lemma reserved_for_increasing p k evs s n lim :
  asec_inv s → Forall event_wf evs → Forall (λ ev, keeps_pair p k ev = true) evs →
  outgoing s p k = Some (n, lim) →
  reserved_for p k evs s = seqZ n (Z.of_nat (length (reserved_for p k evs s))) ∧
  ∀ c, c ∈ reserved_for p k evs s → n <= c < lim.
Proof.
  revert s n. induction evs as [|ev evs IH]; intros s n Hinv Hwf Hkeep Hout; simpl.
  { split; [done|]. intros c Hc. by apply elem_of_nil in Hc. }
  apply Forall_cons in Hwf as [Hev Hwf], Hkeep as [Hk Hkeep].
  destruct (asec_step_inv ev s Hinv Hev) as (s' & r & Hstep & Hinv'). rewrite Hstep.
  pose proof (asec_step_outgoing p k ev s s' r n lim Hinv Hev Hk Hstep Hout) as Ho.
  destruct (sent_for p k ev); [|by apply IH]. destruct Ho as [(-> & Hlt & Ho)|[-> Ho]]; [|by apply IH].
  destruct (IH s' (n + 1) Hinv' Hwf Hkeep Ho) as [Hseq Hb]. cbn [option_list option_rect app length]. split.
  - rewrite Hseq at 1. rewrite Nat2Z.inj_succ, (seqZ_cons n) by lia. f_equal. by rewrite Z.pred_succ, <- Z.add_1_r.
  - intros c [->|Hc]%elem_of_cons; [lia|]. specialize (Hb c Hc). lia.
Qed.

(** * The auxiliary header *)
Record aps_aux_wf (h : ApsSecurityHeader) : Prop := {
  awf_control : is_u8 (ash_security_control h);
  awf_counter : is_u32 (ash_frame_counter h);
  awf_source : match ash_source_address h with
               | Some a => extended_nonce (ash_security_control h) = true ∧ ieee_wf a
               | None => extended_nonce (ash_security_control h) = false
               end;
  awf_seq : match ash_key_seq_number h with
            | Some q => key_identifier (ash_security_control h) = KEY_ID_NETWORK_KEY ∧ is_u8 q
            | None => key_identifier (ash_security_control h) ≠ KEY_ID_NETWORK_KEY
            end }.

Definition aps_aux_bytes (h : ApsSecurityHeader) : list Z :=
  [ash_security_control h] ++ u32_to_le (ash_frame_counter h)
  ++ match ash_source_address h with Some a => a | None => [] end
  ++ match ash_key_seq_number h with Some q => [q] | None => [] end.

Lemma aps_aux_serialize_eq {E} h buf :
  (∀ a, ash_source_address h = Some a → length a = 8%nat) → (length (aps_aux_bytes h) <= length buf)%nat →
  aps_aux_serialize (E:=E) h buf = Ok (written (aps_aux_bytes h) buf, length (aps_aux_bytes h)).
Proof.
  intros Ha Hb. unfold aps_aux_serialize, aps_aux_bytes in *. destruct h as [sc fc src seq]. cbn [ash_security_control
    ash_frame_counter ash_source_address ash_key_seq_number] in *.
  rewrite !length_app in Hb. rewrite <- (written_nil buf) at 1.
  rewrite put_written by (done || simpl in *; lia). cbn [mbind outcome_bind].
  rewrite copy_written by (done || (simpl in *; lia)). cbn [mbind outcome_bind].
  destruct src as [a|].
  - pose proof (Ha a eq_refl) as Hl. rewrite copy_written by (rewrite ?Hl; simpl in *; lia). cbn [mbind outcome_bind].
    destruct seq as [q|].
    + rewrite put_written by (rewrite ?length_app, ?Hl; simpl in *; lia). cbn [mbind outcome_bind].
      rewrite !length_app, Hl, <- !app_assoc. done.
    + rewrite !length_app, Hl, <- !app_assoc, app_nil_r. done.
  - cbn [mbind outcome_bind]. destruct seq as [q|].
    + rewrite put_written by (done || (simpl in *; lia)). cbn [mbind outcome_bind]. done.
    + done.
Qed.

Lemma aps_aux_parse_bytes h rest :
  aps_aux_wf h → aps_aux_parse (aps_aux_bytes h ++ rest) = Ok (h, length (aps_aux_bytes h)).
Proof.
  intros [Hc Hf Hs Hq]. destruct h as [sc fc src seq]; cbn [ash_security_control
    ash_frame_counter ash_source_address ash_key_seq_number] in *. unfold aps_aux_parse, aps_aux_bytes.
  cbn [ash_security_control ash_frame_counter ash_source_address ash_key_seq_number].
  rewrite (proj2 (Nat.ltb_ge _ _)) by (rewrite !length_app; simpl; lia).
  unfold u32_to_le. cbn [app]. cbn [index lookup list_lookup mbind outcome_bind].
  replace (u32_from_le _ _ _ _) with fc by (symmetry; by apply u32_from_to_le).
  destruct src as [a|].
  - destruct Hs as [-> [Hl Ho]]. do 8 (destruct a as [|? a]; [done|]). destruct a; [|done].
    cbn -[u32_from_le Z.land Z.shiftr key_identifier]. destruct seq as [q|].
    + destruct Hq as [-> Hq]. done.
    + rewrite (proj2 (Z.eqb_neq _ _) Hq). done.
  - rewrite Hs. cbn -[u32_from_le Z.land Z.shiftr key_identifier]. destruct seq as [q|].
    + destruct Hq as [-> Hq]. done.
    + rewrite (proj2 (Z.eqb_neq _ _) Hq). done.
Qed.

Local Ltac split_octets :=
  repeat match goal with H : Forall is_u8 (_ :: _) |- _ => apply Forall_cons in H as [? H] end.

Lemma aps_aux_parse_inv data h n :
  Forall is_u8 data → aps_aux_parse data = Ok (h, n) →
  aps_aux_wf h ∧ ∃ rest, data = aps_aux_bytes h ++ rest ∧ n = length (aps_aux_bytes h).
Proof.
  intros Ho. unfold aps_aux_parse. destruct (Nat.ltb_spec (length data) 5) as [|Hlen]; [done|].
  do 5 (destruct data as [|? data]; [simpl in Hlen; lia|]).
  cbn [index lookup list_lookup mbind outcome_bind]. clear Hlen. split_octets.
  assert (∀ src seq, aps_aux_bytes (mk_ApsSecurityHeader z (u32_from_le z0 z1 z2 z3) src seq) =
    [z; z0; z1; z2; z3] ++ match src with Some a => a | None => [] end ++ match seq with Some q => [q] | None => [] end) as Hby.
  { intros. unfold aps_aux_bytes. cbn [ash_security_control ash_frame_counter ash_source_address ash_key_seq_number].
    rewrite u32_to_from_le by done. done. }
  assert (is_u32 (u32_from_le z0 z1 z2 z3)) as Hfc.
  { rewrite u32_from_le_eq by done. unfold is_u8, is_u32 in *. lia. }
  destruct (extended_nonce z) eqn:Hx.
  - destruct (Nat.ltb_spec (length (z :: z0 :: z1 :: z2 :: z3 :: data)) (5 + 8)) as [|Hlen]; [done|]. simpl in Hlen.
    do 8 (destruct data as [|? data]; [simpl in Hlen; lia|]). split_octets.
    cbn -[u32_from_le key_identifier Nat.leb aps_aux_bytes]. destruct (key_identifier z =? KEY_ID_NETWORK_KEY) eqn:Hk.
    + destruct data as [|q data]; [done|]. split_octets. intros Hr. simpl in Hr. injection Hr as <- <-. split.
      * apply Z.eqb_eq in Hk. split; simpl; try done. split; [done|]. split; [done|]. repeat (constructor; [done|]). done.
      * exists data. by rewrite Hby.
    + intros Hr. simpl in Hr. injection Hr as <- <-. split.
      * apply Z.eqb_neq in Hk. split; simpl; try done. split; [done|]. split; [done|]. repeat (constructor; [done|]). done.
      * exists data. by rewrite Hby.
  - cbn -[u32_from_le key_identifier Nat.leb aps_aux_bytes]. destruct (key_identifier z =? KEY_ID_NETWORK_KEY) eqn:Hk.
    + destruct data as [|q data]; [done|]. split_octets. intros Hr. simpl in Hr. injection Hr as <- <-. split.
      * apply Z.eqb_eq in Hk. by split.
      * exists data. by rewrite Hby.
    + intros Hr. simpl in Hr. injection Hr as <- <-. split.
      * apply Z.eqb_neq in Hk. by split.
      * exists data. by rewrite Hby.
Qed.

Lemma aps_aux_parse_no_panic data : no_panic (aps_aux_parse data).
Proof.
  unfold aps_aux_parse. destruct (Nat.ltb_spec (length data) 5) as [|Hlen]; [done|].
  do 5 (destruct data as [|? data]; [simpl in Hlen; lia|]).
  cbn [index lookup list_lookup mbind outcome_bind]. destruct (extended_nonce z).
  - destruct (Nat.ltb_spec (length (z :: z0 :: z1 :: z2 :: z3 :: data)) (5 + 8)) as [|Hlen']; [done|]. simpl in Hlen'.
    do 8 (destruct data as [|? data]; [simpl in Hlen'; lia|]). cbn -[u32_from_le key_identifier Nat.leb].
    destruct (key_identifier z =? KEY_ID_NETWORK_KEY); [|done]. by destruct data.
  - cbn -[u32_from_le key_identifier Nat.leb]. destruct (key_identifier z =? KEY_ID_NETWORK_KEY); [|done].
    by destruct data.
Qed.

Lemma patched_level x : is_u8 x →
  is_u8 (Z.lor (Z.land x (not_u8 7)) SEC_LEVEL_ENC_MIC_32) ∧
  Z.shiftr (Z.lor (Z.land x (not_u8 7)) SEC_LEVEL_ENC_MIC_32) 3 = Z.shiftr x 3.
Proof.
  intros Hx. pose proof (range_forall 256 (λ x, bool_decide (is_u8 (Z.lor (Z.land x (not_u8 7)) SEC_LEVEL_ENC_MIC_32))
    && (Z.shiftr (Z.lor (Z.land x (not_u8 7)) SEC_LEVEL_ENC_MIC_32) 3 =? Z.shiftr x 3)) eq_refl x Hx) as H.
  apply andb_true_iff in H as [H1%bool_decide_eq_true H2%Z.eqb_eq]. done.
Qed.

Lemma aps_build_nonce_ok h :
  is_u8 (ash_security_control h) → (∀ a, ash_source_address h = Some a → ieee_wf a) →
  length (aps_build_nonce h) = CCM_STAR_NONCE_LEN ∧ Forall is_u8 (aps_build_nonce h).
Proof.
  intros Hc Ha. unfold aps_build_nonce.
  assert (ieee_wf (match ash_source_address h with Some a => a | None => repeat 0 8 end)) as [Hl Ho].
  { destruct (ash_source_address h) as [a|]; [auto|]. split; [done|]. by repeat constructor. }
  split; [rewrite !length_app, Hl; done|]. apply Forall_app. split; [done|]. apply Forall_app.
  split; [apply u32_to_le_octets|]. constructor; [|done]. by apply patched_level.
Qed.

(** * Properties *)

(** The auxiliary header parser accepts exactly the serializations: it
    returns a header and a length if and only if the data starts with the
    octets of that (well-formed) header, never panics, and the serializer
    writes just those octets; two extended-nonce headers share a CCM* nonce
    only if they agree on source, counter and the control bits above the
    level. *)
Theorem aps_aux_header_exact (data : list Z) (h h' : ApsSecurityHeader) (n : nat) (buf : list Z) :
  Forall is_u8 data → aps_aux_wf h → aps_aux_wf h' → (length (aps_aux_bytes h) <= length buf)%nat →
  no_panic (aps_aux_parse data) ∧
  (aps_aux_parse data = Ok (h, n) ↔
     n = length (aps_aux_bytes h) ∧ ∃ rest, data = aps_aux_bytes h ++ rest) ∧
  aps_aux_serialize (E:=unit) h buf = Ok (written (aps_aux_bytes h) buf, length (aps_aux_bytes h)) ∧
  (∀ a a', ash_source_address h = Some a → ash_source_address h' = Some a' →
     aps_build_nonce h = aps_build_nonce h' →
     a = a' ∧ ash_frame_counter h = ash_frame_counter h' ∧
     Z.shiftr (ash_security_control h) 3 = Z.shiftr (ash_security_control h') 3).
Proof.
  intros Ho Hwf Hwf' Hbuf. split_and!; [apply aps_aux_parse_no_panic| | |].
  - split.
    + intros Hp. destruct (aps_aux_parse_inv _ _ _ Ho Hp) as (_ & rest & ? & ?). eauto.
    + intros [-> [rest ->]]. by apply aps_aux_parse_bytes.
  - apply aps_aux_serialize_eq; [|done]. intros a Ha. pose proof (awf_source h Hwf) as Hs. rewrite Ha in Hs. apply Hs.
  - intros a a' Ha Ha' Hn. unfold aps_build_nonce in Hn. rewrite Ha, Ha' in Hn.
    pose proof (awf_source h Hwf) as Hs. rewrite Ha in Hs. destruct Hs as [_ [Hl _]].
    pose proof (awf_source h' Hwf') as Hs. rewrite Ha' in Hs. destruct Hs as [_ [Hl' _]].
    apply app_inj_1 in Hn as [-> Hn]; [|congruence]. apply app_inj_1 in Hn as [Hu Hn]; [|done].
    split_and!; [done| |].
    + pose proof (awf_counter h Hwf). pose proof (awf_counter h' Hwf').
      rewrite <- (u32_from_to_le (ash_frame_counter h)), <- (u32_from_to_le (ash_frame_counter h')) by done.
      unfold u32_to_le in Hu. by injection Hu as -> -> -> ->.
    + injection Hn as Hn. rewrite <- (proj2 (patched_level _ (awf_control h Hwf))),
        <- (proj2 (patched_level _ (awf_control h' Hwf'))). congruence.
Qed.

Definition ex_aux : ApsSecurityHeader := mk_ApsSecurityHeader 0x25 0x01020304 (Some (repeat 7 8)) None.

Lemma ex_aux_wf : aps_aux_wf ex_aux.
Proof. split; try done. split; [done|]. by apply (bool_decide_unpack (ieee_wf (repeat 7 8))). Qed.

Lemma aps_aux_header_exact_witness :
  aps_aux_parse (aps_aux_bytes ex_aux ++ [1; 2]) = Ok (ex_aux, 13%nat).
Proof.
  destruct (aps_aux_header_exact (aps_aux_bytes ex_aux ++ [1; 2]) ex_aux ex_aux 13 (repeat 0 20)) as (_ & H & _).
  - by repeat constructor.
  - apply ex_aux_wf.
  - apply ex_aux_wf.
  - vm_compute. lia.
  - apply H. split; [done|by exists [1; 2]].
Defined.

(** After any history of operations none of which panics, the link key
    table is a finite map of at most 16 entries keyed by partner and key
    type: installing a key binds its own pair only and is refused, handing the
    entry back, just for a new pair in a full table; removing unbinds just its
    pair.  Every floor marked as predating its key belongs to an entry, so
    recording one never overflows. *)
Theorem aps_key_table_is_map (evs : list asec_event) (entry : ApsLinkKeyEntry)
    (p : IeeeAddress) (k : ApsKeyType) :
  Forall event_wf evs →
  ∃ s, asec_run evs asec_new = Ok s ∧
    NoDup (lk_id <$> key_table s) ∧ (length (key_table s) <= MAX_KEY_TABLE_ENTRIES)%nat ∧
    (∀ id, id ∈ stale_incoming_floors s → id ∈ lk_id <$> key_table s) ∧
    match add_key entry s with
    | Ok s' =>
        (∀ p k, find_key s' p k = if decide ((p, k) = lk_id entry) then Some entry else find_key s p k) ∧
        (∀ p k, incoming_floor_predates_key s' p k =
           if decide ((p, k) = lk_id entry) then stale_after_add entry s else incoming_floor_predates_key s p k)
    | Err e => e = entry ∧ find_key s (lk_partner_address entry) (lk_key_type entry) = None ∧
               length (key_table s) = MAX_KEY_TABLE_ENTRIES
    | Panic => False
    end ∧
    ∃ s', remove_key (E:=Empty_set) p k s = Ok (s', bool_decide (is_Some (find_key s p k))) ∧
      ∀ p' k', find_key s' p' k' = if decide ((p', k') = (p, k)) then None else find_key s p' k'.
Proof.
  intros Hevs. destruct (asec_run_inv evs asec_new asec_inv_new Hevs) as (s & Hs & [Hwf _]).
  exists s. split_and!; [done|apply Hwf..| |].
  - pose proof (add_key_spec entry s Hwf) as Ha. destruct (add_key entry s); naive_solver.
  - destruct (remove_key_spec (E:=Empty_set) p k s Hwf) as (s' & ? & _ & ? & _). eauto.
Qed.

Definition ex_link (p : Z) (k : ApsKeyType) : ApsLinkKeyEntry :=
  mk_ApsLinkKeyEntry (repeat p 8) (repeat (p + 16) 16) k 5 9 40 true.

Definition ex_history : list asec_event :=
  [EvAdd (ex_link 1 TrustCenterLinkKey); EvAdd (ex_link 1 ApplicationLinkKey); EvAdd (ex_link 2 ApplicationLinkKey);
   EvSend (repeat 1 8) TrustCenterLinkKey; EvReceive (mk_ApsReplayCounter (RoKeyPair (repeat 1 8) TrustCenterLinkKey) 0 50)].

Lemma ex_history_wf : Forall event_wf ex_history.
Proof. by repeat constructor. Qed.

Lemma aps_key_table_is_map_witness :
  ∃ s, asec_run ex_history asec_new = Ok s ∧ (length (key_table s) <= MAX_KEY_TABLE_ENTRIES)%nat ∧
    ∃ s', remove_key (E:=Empty_set) (repeat 1 8) ApplicationLinkKey s = Ok (s', true).
Proof.
  destruct (aps_key_table_is_map ex_history (ex_link 3 TrustCenterLinkKey) (repeat 1 8) ApplicationLinkKey ex_history_wf)
    as (s & Hs & _ & Hl & _ & _ & s' & Hr & _).
  exists s. split_and!; [exact Hs|exact Hl|]. exists s'. rewrite Hr.
  assert (asec_run ex_history asec_new = Ok s) as Hs' by exact Hs. vm_compute in Hs'. injection Hs' as <-.
  reflexivity.
Defined.

(** C15. Replay protection of APS keys: for a domain (a key pair that is
    installed, or one of the two global keys, whatever sender it is used by),
    over any history that does not replace or reset the key of that domain,
    the counters accepted in it are strictly increasing, and all above the
    floor the history started with. *)
Theorem aps_no_replay (o : ApsReplayOrigin) (evs evs' : list asec_event) (s : ApsSecurity) :
  Forall event_wf evs → asec_run evs asec_new = Ok s → domain_live s o = true →
  Forall event_wf evs' → Forall (λ ev, keeps_domain o ev = true) evs' →
  StronglySorted Z.lt (accepted_in o evs' s) ∧
  ∀ f c, replay_floor s o = Some f → c ∈ accepted_in o evs' s → f < c.
Proof.
  intros Hevs Hs Hlive Hwf Hkeep. destruct (asec_run_inv evs asec_new asec_inv_new Hevs) as (s0 & Hs0 & Hinv).
  rewrite Hs in Hs0. injection Hs0 as <-. by apply accepted_in_increasing.
Qed.

Definition ex_replays : list asec_event :=
  let o := RoKeyPair (repeat 1 8) TrustCenterLinkKey in
  [EvReceive (mk_ApsReplayCounter o 0 50); EvReceive (mk_ApsReplayCounter o 0 60);
   EvRemove (repeat 2 8) ApplicationLinkKey; EvReceive (mk_ApsReplayCounter o 0 60);
   EvReceive (mk_ApsReplayCounter o 0 61)].

Lemma aps_no_replay_witness :
  let o := RoKeyPair (repeat 1 8) TrustCenterLinkKey in
  ∃ s, asec_run ex_history asec_new = Ok s ∧ accepted_in o ex_replays s = [60; 61] ∧
    StronglySorted Z.lt (accepted_in o ex_replays s).
Proof.
  intros o. eexists. split; [vm_compute; reflexivity|]. split; [vm_compute; reflexivity|].
  eapply (aps_no_replay o ex_history ex_replays _ ex_history_wf).
  - vm_compute. reflexivity.
  - vm_compute. reflexivity.
  - by repeat constructor.
  - by repeat constructor.
Defined.

(** Outgoing counters: over any history that does not replace or remove a
    key pair, the counters reserved for it are consecutive from its current
    counter and stay below its durably reserved limit, so no CCM* nonce is
    used twice under one key. *)
Theorem aps_outgoing_counters_fresh (p : IeeeAddress) (k : ApsKeyType) (evs evs' : list asec_event)
    (s : ApsSecurity) (n lim : Z) :
  Forall event_wf evs → asec_run evs asec_new = Ok s → outgoing s p k = Some (n, lim) →
  Forall event_wf evs' → Forall (λ ev, keeps_pair p k ev = true) evs' →
  reserved_for p k evs' s = seqZ n (Z.of_nat (length (reserved_for p k evs' s))) ∧
  ∀ c, c ∈ reserved_for p k evs' s → n <= c < lim.
Proof.
  intros Hevs Hs Hout Hwf Hkeep. destruct (asec_run_inv evs asec_new asec_inv_new Hevs) as (s0 & Hs0 & Hinv).
  rewrite Hs in Hs0. injection Hs0 as <-. by apply reserved_for_increasing.
Qed.

Lemma aps_outgoing_counters_fresh_witness :
  let sends := repeat (EvSend (repeat 1 8) TrustCenterLinkKey) 5 in
  ∃ s, asec_run ex_history asec_new = Ok s ∧
    reserved_for (repeat 1 8) TrustCenterLinkKey sends s = [6; 7; 8] ∧
    ∀ c, c ∈ reserved_for (repeat 1 8) TrustCenterLinkKey sends s → 6 <= c < 9.
Proof.
  intros sends. eexists. split; [vm_compute; reflexivity|]. split; [vm_compute; reflexivity|].
  apply (aps_outgoing_counters_fresh (repeat 1 8) TrustCenterLinkKey ex_history sends _ 6 9 ex_history_wf).
  - vm_compute. reflexivity.
  - vm_compute. reflexivity.
  - by repeat constructor.
  - by repeat constructor.
Defined.

(** Dropping the application link keys terminates within one loop
    iteration per entry, although the index does not advance after a removal,
    and never indexes out of range; afterwards exactly the application keys
    and their stale marks are gone. *)
Theorem clear_application_keys_terminates (evs : list asec_event) :
  Forall event_wf evs →
  ∃ s s', asec_run evs asec_new = Ok s ∧ clear_application_link_keys (E:=Empty_set) s = Ok (Some s') ∧
    (∀ p k, find_key s' p k = if decide (k = ApplicationLinkKey) then None else find_key s p k) ∧
    (∀ p k, incoming_floor_predates_key s' p k =
       if decide (k = ApplicationLinkKey) then false else incoming_floor_predates_key s p k).
Proof.
  intros Hevs. destruct (asec_run_inv evs asec_new asec_inv_new Hevs) as (s & Hs & [Hwf _]).
  destruct (clear_application_link_keys_spec (E:=Empty_set) s Hwf) as (s' & Hc & _ & Hf & Hst & _).
  by exists s, s'.
Qed.

Lemma clear_application_keys_terminates_witness :
  ∃ s s', asec_run ex_history asec_new = Ok s ∧ clear_application_link_keys (E:=Empty_set) s = Ok (Some s') ∧
    find_key s' (repeat 2 8) ApplicationLinkKey = None.
Proof.
  destruct (clear_application_keys_terminates ex_history ex_history_wf) as (s & s' & Hs & Hc & Hf & _).
  exists s, s'. split_and!; [exact Hs|exact Hc|]. rewrite Hf. reflexivity.
Defined.
