(* ===== verification/ApsSecured.v ===== *)
(** Securing and opening APS frames: the security half of
    [zigbee-aps/src/apsde.rs].

    [assemble_secured_frame] builds header, auxiliary header and CCM*
    ciphertext of an outgoing frame; [aps_decrypt_incoming] is the receive path:
    it collects the candidate keys of the sender, tries each with the derived
    or raw key and the patched or raw header, and decides what happens to the
    replay floor.  The theorems relate both to the CCM* reference of
    [Crypto.v]: what one node secures the other opens, whatever is accepted
    was secured under a candidate key, and the floor moves at most once. *)
From S2P Require Import Prelude.
From S2P Require Import ZigbeeTypes.
From S2P Require Import Crypto.
From S2P Require Import ApsFrames.
From S2P Require Import ApsFragment.
From S2P Require Import ApsSecurity.

Local Open Scope Z_scope.

Definition BROADCAST_IEEE : IeeeAddress := repeat 0xFF 8.
Definition WIRE_KEY_TYPE_NETWORK : Z := 0x01.
Definition WIRE_KEY_TYPE_APPLICATION_LINK : Z := 0x03.

Definition nonzero_ieee (address : IeeeAddress) : option IeeeAddress :=
  if negb (ieee_eqb address (repeat 0 8)) then Some address else None.

Definition centralized_trust_center (address : IeeeAddress) : option IeeeAddress :=
  a ← nonzero_ieee address;
  if negb (ieee_eqb a BROADCAST_IEEE) then Some a else None.

(** [ApsFrameBuffer] *)
Definition APS_FRAME_BUFFER_LEN : nat := APS_MAX_FRAGMENTED_ASDU.
Record ApsFrameBuffer := mk_ApsFrameBuffer { fb_data : list Z; fb_len : nat }.

Definition frame_buffer_new : ApsFrameBuffer := mk_ApsFrameBuffer (repeat 0 APS_FRAME_BUFFER_LEN) 0.
Definition frame_buffer_clear (b : ApsFrameBuffer) : ApsFrameBuffer := mk_ApsFrameBuffer (zeroize (fb_data b)) 0.
Definition frame_buffer_payload {E} (b : ApsFrameBuffer) : outcome E (list Z) := slice (fb_data b) 0 (fb_len b).

(** [struct ApsDecryptOutcome] *)
Record ApsDecryptOutcome := mk_ApsDecryptOutcome {
  ado_aps_security_source : option IeeeAddress;
  ado_aps_key_identifier : option Z;
  ado_aps_used_default_link_key : bool;
  ado_aps_used_distributed_link_key : bool;
  ado_deferred_application_key_replay : option ApsReplayCounter;
  ado_deferred_network_key_replay : option ApsReplayCounter;
  ado_deferred_data_replay : option ApsReplayCounter;
  ado_deferred_security_indication_replay : option ApsReplayCounter;
  ado_replay_duplicate : bool;
  ado_key_origin : ApsKeyOrigin }.

(** The candidate keys of a sender, most specific first. *)
Definition decrypt_candidates (s : ApsSecurity) (source : option IeeeAddress) : list (ApsKeyOrigin * AesKey) :=
  let candidates :=
    match source with
    | Some address =>
        fold_left (λ c pair, vec_push_ignore MAX_KEY_PAIRS_PER_PARTNER c
                               (KoKeyPair address (kp_key_type pair), kp_key pair))
          (key_pairs_for s address) []
    | None => []
    end in
  match candidates with
  | [] =>
      let c := vec_push_ignore MAX_KEY_PAIRS_PER_PARTNER [] (KoPreconfiguredGlobal, default_tc_link_key s) in
      match distributed_security_link_key s with
      | Some key => vec_push_ignore MAX_KEY_PAIRS_PER_PARTNER c (KoDistributedGlobal, key)
      | None => c
      end
  | _ => candidates
  end.

(** [security_control] with the level in use. *)
Definition patch_level (x : Z) : Z := Z.lor (Z.land x (not_u8 0x07)) SEC_LEVEL_ENC_MIC_32.

Definition is_global (o : ApsKeyOrigin) : bool :=
  match o with KoPreconfiguredGlobal | KoDistributedGlobal => true | _ => false end.

Section Secured.
Context {P C E : Type} `{ForwardAesProvider P C E}.

(** * Outgoing frames *)
Definition assemble_secured_frame (p : P) (aps_header payload : list Z) (key : AesKey)
    (sec_hdr : ApsSecurityHeader) : outcome Empty_set (option (list Z) * P) :=
  let frame := repeat 0 128 in
  let hl := length aps_header in
  if (length frame <=? hl)%nat then Ok (None, p)
  else
    frame ← copy_from_slice frame 0 hl aps_header;
    tail ← slice frame hl (length frame);
    '(tail, sec_hdr_len) ← aps_aux_serialize sec_hdr tail;
    let frame := take hl frame ++ tail in
    let aad_len := (hl + sec_hdr_len)%nat in
    aad ← slice frame 0 aad_len;
    authenticated_header ← copy_from_slice (repeat 0 64) 0 aad_len aad;
    control ← index authenticated_header hl;
    authenticated_header ← put authenticated_header hl (patch_level control);
    aad ← slice authenticated_header 0 aad_len;
    '(encrypted, p) ← aps_encrypt_with p aad payload key sec_hdr;
    match encrypted with
    | None => Ok (None, p)
    | Some encrypted =>
        let total := (aad_len + length encrypted)%nat in
        if (length frame <? total)%nat then Ok (None, p)
        else
          frame ← copy_from_slice frame aad_len total encrypted;
          out ← slice frame 0 total;
          Ok (Some out, p)
    end.

(** * Incoming frames *)
Definition decrypt_into (p : P) (aad ciphertext : list Z) (key : AesKey) (h : ApsSecurityHeader)
    (buf : ApsFrameBuffer) : outcome Empty_set (bool * ApsFrameBuffer * P) :=
  '(plaintext, p) ← aps_decrypt_with p aad ciphertext key h;
  match plaintext with
  | None => Ok (false, buf, p)
  | Some plaintext =>
      let pt_len := Nat.min (length plaintext) (length (fb_data buf)) in
      data ← copy_from_slice (fb_data buf) 0 pt_len (take pt_len plaintext);
      Ok (true, mk_ApsFrameBuffer data pt_len, p)
  end.

(** The first of several attempts that verifies. *)
Fixpoint decrypt_attempts (attempts : list (list Z * AesKey)) (p : P) (ciphertext : list Z)
    (h : ApsSecurityHeader) (buf : ApsFrameBuffer) : outcome Empty_set (bool * ApsFrameBuffer * P) :=
  match attempts with
  | [] => Ok (false, buf, p)
  | (aad, key) :: attempts =>
      '(ok, buf, p) ← decrypt_into p aad ciphertext key h buf;
      if (ok : bool) then Ok (true, buf, p) else decrypt_attempts attempts p ciphertext h buf
  end.

(** The key of a key identifier: [None] when the derivation failed. *)
Definition frame_key (p : P) (key_id : Z) (base_link_key : AesKey) : outcome Empty_set (option AesKey * P) :=
  if key_id =? KEY_ID_KEY_TRANSPORT then derive_key_transport_key_with p base_link_key
  else if key_id =? KEY_ID_KEY_LOAD then derive_key_load_key_with p base_link_key
  else Ok (Some base_link_key, p).

Definition decrypt_with_link_key (p : P) (key_id : Z) (base_link_key : AesKey)
    (uses_global_link_key nwk_has_active_key : bool) (aad aad_raw ciphertext : list Z)
    (h : ApsSecurityHeader) (buf : ApsFrameBuffer) : outcome Empty_set (bool * ApsFrameBuffer * P) :=
  '(key, p) ← frame_key p key_id base_link_key;
  match key with
  | None => Ok (false, buf, p)
  | Some key =>
      let raw_key := (key_id =? KEY_ID_KEY_TRANSPORT) && uses_global_link_key && negb nwk_has_active_key in
      decrypt_attempts
        ([(aad, key); (aad_raw, key)] ++ (if raw_key then [(aad, base_link_key); (aad_raw, base_link_key)] else []))
        p ciphertext h buf
  end.

(** [for (origin, base_link_key) in candidates]: the one that verifies. *)
Fixpoint try_candidates (candidates : list (ApsKeyOrigin * AesKey)) (p : P) (key_id : Z)
    (nwk_has_active_key : bool) (aad aad_raw ciphertext : list Z) (h : ApsSecurityHeader)
    (buf : ApsFrameBuffer) : outcome Empty_set (option (ApsKeyOrigin * AesKey) * ApsFrameBuffer * P) :=
  match candidates with
  | [] => Ok (None, buf, p)
  | (origin, base_link_key) :: candidates =>
      '(ok, buf, p) ← decrypt_with_link_key p key_id base_link_key (is_global origin) nwk_has_active_key
                        aad aad_raw ciphertext h buf;
      if (ok : bool) then Ok (Some (origin, base_link_key), buf, p)
      else try_candidates candidates p key_id nwk_has_active_key aad aad_raw ciphertext h buf
  end.

(** [decrypted_buf.data[i]] of a fixed-size array. *)
Definition buf_octet (buf : ApsFrameBuffer) (i : nat) : Z := nth i (fb_data buf) 0.

Definition is_transport_key (buf : ApsFrameBuffer) (types : list Z) : bool :=
  (2 <=? fb_len buf)%nat && (buf_octet buf 0 =? 0x05) && existsb (Z.eqb (buf_octet buf 1)) types.

Definition is_security_indication (buf : ApsFrameBuffer) : bool :=
  negb (fb_len buf =? 0)%nat
  && match aps_command_id_from_u8 (buf_octet buf 0) with
     | Some (AcUpdateDevice | AcRemoveDevice | AcRequestKey | AcVerifyKey) => true
     | _ => false
     end.

(** What happens to the replay floor of an accepted frame, and the outcome. *)
Definition settle_replay (s : ApsSecurity) (buf : ApsFrameBuffer) (source : option IeeeAddress) (key_id : Z)
    (origin : ApsKeyOrigin) (base_link_key : AesKey) (replay : ApsReplayCounter)
    (defer_application_key_replay defer_network_key_replay defer_security_indication_replay
     defer_data_replay : bool) (replay_commit : ApsReplayCounter → bool)
    : option ApsDecryptOutcome * ApsSecurity :=
  let replay_duplicate := negb (check_replay_counter s replay) in
  let uses_default_link_key :=
    match origin with
    | KoPreconfiguredGlobal => true
    | KoKeyPair _ _ => bool_decide (base_link_key = default_tc_link_key s)
    | KoDistributedGlobal => false
    end in
  let then_some (b : bool) := if b then Some replay else None in
  let deferred_application_key_replay :=
    then_some (negb replay_duplicate && defer_application_key_replay
               && is_transport_key buf [WIRE_KEY_TYPE_APPLICATION_LINK]) in
  let deferred_network_key_replay :=
    then_some (negb replay_duplicate && defer_network_key_replay
               && is_transport_key buf [WIRE_KEY_TYPE_NETWORK; 0x05]) in
  let deferred_security_indication_replay :=
    then_some (negb replay_duplicate && defer_security_indication_replay && is_security_indication buf) in
  let deferred_data_replay := then_some (negb replay_duplicate && defer_data_replay) in
  let outcome :=
    mk_ApsDecryptOutcome source (Some key_id) uses_default_link_key
      (is_distributed (arc_origin replay)) deferred_application_key_replay deferred_network_key_replay
      deferred_data_replay deferred_security_indication_replay replay_duplicate origin in
  if negb replay_duplicate
     && negb (bool_decide (is_Some deferred_application_key_replay))
     && negb (bool_decide (is_Some deferred_network_key_replay))
     && negb (bool_decide (is_Some deferred_security_indication_replay))
     && negb (bool_decide (is_Some deferred_data_replay))
  then if negb (replay_commit replay) then (None, s) else (Some outcome, commit_replay_counter replay s)
  else (Some outcome, s).

Definition aps_decrypt_incoming (p : P) (s : ApsSecurity) (nwk_src_ieee : option IeeeAddress)
    (nwk_has_active_key : bool) (tc_address : IeeeAddress) (nwk_payload : list Z) (consumed : nat)
    (buf : ApsFrameBuffer) (defer_application_key_replay defer_network_key_replay
    defer_security_indication_replay defer_data_replay : bool) (replay_commit : ApsReplayCounter → bool)
    : outcome Empty_set (option ApsDecryptOutcome * ApsSecurity * ApsFrameBuffer * P) :=
  after_header ← slice nwk_payload consumed (length nwk_payload);
  match aps_aux_parse after_header with
  | Panic => Panic
  | Err _ => Ok (None, s, buf, p)
  | Ok (sec_hdr, sec_consumed) =>
      let source :=
        match ash_source_address sec_hdr with
        | Some a => Some a
        | None =>
            match nwk_src_ieee ≫= nonzero_ieee with
            | Some a => Some a
            | None => nonzero_ieee tc_address
            end
        end in
      let sec_hdr := mk_ApsSecurityHeader (ash_security_control sec_hdr) (ash_frame_counter sec_hdr) source
                       (ash_key_seq_number sec_hdr) in
      ciphertext ← slice after_header sec_consumed (length after_header);
      let aad_end := (consumed + sec_consumed)%nat in
      let aad_len := Nat.min aad_end 64 in
      head ← slice nwk_payload 0 aad_len;
      patched ← copy_from_slice (repeat 0 64) 0 aad_len head;
      control ← index patched consumed;
      patched ← put patched consumed (patch_level control);
      aad ← slice patched 0 aad_len;
      let key_id := key_identifier (ash_security_control sec_hdr) in
      if negb (key_id =? KEY_ID_DATA_KEY) && negb (key_id =? KEY_ID_KEY_TRANSPORT)
         && negb (key_id =? KEY_ID_KEY_LOAD)
      then Ok (None, s, buf, p)
      else
        let candidates := decrypt_candidates s source in
        aad_raw ← slice nwk_payload 0 (Nat.min aad_end (length nwk_payload));
        match source with
        | None => Ok (None, s, buf, p)
        | Some replay_source =>
            '(accepted, buf, p) ← try_candidates candidates p key_id nwk_has_active_key aad aad_raw ciphertext
                                    sec_hdr buf;
            match accepted with
            | None => Ok (None, s, buf, p)
            | Some (origin, base_link_key) =>
                let replay := aps_replay_from_verified origin replay_source base_link_key
                                (ash_frame_counter sec_hdr) in
                let '(r, s) := settle_replay s buf source key_id origin base_link_key replay
                                 defer_application_key_replay defer_network_key_replay
                                 defer_security_indication_replay defer_data_replay replay_commit in
                Ok (r, s, buf, p)
            end
        end
  end.
End Secured.

(** * Reference semantics *)
Section Buffers.
Context {A E : Type}.
Implicit Types a b c : list A.

Lemma slice_app_l a b : slice (E:=E) (a ++ b) 0 (length a) = Ok a.
Proof.
  apply slice_Ok, slice_get_Some. rewrite length_app. split; [lia|]. by rewrite Nat.sub_0_r, drop_0, take_app_length.
Qed.

Lemma slice_app_r a b n : n = length (a ++ b) → slice (E:=E) (a ++ b) (length a) n = Ok b.
Proof.
  intros ->. apply slice_Ok, slice_get_Some. rewrite length_app. split; [lia|].
  rewrite drop_app_length, take_ge; [done|lia].
Qed.

Lemma slice_from a n : (n <= length a)%nat → slice (E:=E) a n (length a) = Ok (drop n a).
Proof.
  intros Hn. apply slice_Ok, slice_get_Some. split; [lia|]. by rewrite take_ge by (rewrite length_drop; lia).
Qed.

Lemma put_app_mid a x b y : put (E:=E) (a ++ x :: b) (length a) y = Ok (a ++ y :: b).
Proof.
  unfold put. rewrite (proj2 (Nat.ltb_lt _ _)) by (rewrite length_app; simpl; lia).
  by rewrite insert_app_r_alt, Nat.sub_diag by lia.
Qed.

Lemma copy_app_l a b c : length a = length b → copy_from_slice (E:=E) (b ++ c) 0 (length a) a = Ok (a ++ c).
Proof.
  intros Hl. unfold copy_from_slice. rewrite (proj2 (Nat.leb_le 0 _)), length_app, (proj2 (Nat.leb_le _ _)) by lia.
  rewrite Nat.sub_0_r, Nat.eqb_refl. simpl. by rewrite Hl, drop_app_length.
Qed.
End Buffers.

(** [HMAC(key, m)] over the reference MMO hash. *)
Definition ref_hmac (aes : list Z → list Z → list Z) (key m : list Z) : list Z :=
  ref_mmo aes (xor_list (repeat 0x5C 16) key ++ ref_mmo aes (xor_list (repeat 0x36 16) key ++ m)).

(** The key a key identifier selects. *)
Definition ref_frame_key (aes : list Z → list Z → list Z) (key_id : Z) (base : list Z) : list Z :=
  if key_id =? KEY_ID_KEY_TRANSPORT then ref_hmac aes base [0x00]
  else if key_id =? KEY_ID_KEY_LOAD then ref_hmac aes base [0x02]
  else base.

Section Reference.
Context {P C E : Type} `{HF : ForwardAesProvider P C E} (ready : P → Prop)
  (keyed : list Z → C → Prop) (aes : list Z → list Z → list Z).
Context `{HL : !LawfulProvider ready keyed aes}.

Abbreviation fails := (provider_fails keyed).

Lemma fails_intro key e : block_wf key → backend_fails (keyed key) e → fails.
Proof. intros. by exists key, e. Qed.

Lemma aps_encrypt_spec p aad payload key h :
  ready p → block_wf key → is_u8 (ash_security_control h) → (∀ a, ash_source_address h = Some a → ieee_wf a) →
  Forall is_u8 aad → Forall is_u8 payload → (length aad <= CCM_STAR_MAX_AAD_LEN)%nat →
  match aps_encrypt_with p aad payload key h with
  | Ok (Some ct, p') =>
      ready p' ∧ ct = ref_ccm (aes key) (aps_build_nonce h) aad payload ∧
      (length payload <= CCM_STAR_MAX_PLAINTEXT_LEN)%nat ∧ length ct = (length payload + 4)%nat
  | Ok (None, p') => ready p' ∧ ((CCM_STAR_MAX_PLAINTEXT_LEN < length payload)%nat ∨ fails)
  | _ => False
  end.
Proof using HL.
  intros Hp Hk Hc Hs Ha Hpl Hal. destruct (aps_build_nonce_ok h Hc Hs) as [Hnl Hno].
  pose proof (provider_lawful key Hk) as Hlaw. unfold aps_encrypt_with.
  pose proof (ccm_encrypt_eq (keyed key) (aes key) (aps_build_nonce h) aad payload (forward_cipher p key)
    (provider_keyed p key Hp Hk) Hnl Hno Ha Hpl) as He.
  destruct (ccm_star_encrypt_with _ _ _ _) as [[r c']|e|]; simpl; [|split; [done|right; by eapply fails_intro]|done].
  destruct He as (Hc' & -> & Hl). rewrite (proj2 (Nat.leb_le (length aad) _)), andb_true_r by done.
  destruct (Nat.leb_spec (length payload) CCM_STAR_MAX_PLAINTEXT_LEN).
  - split_and!; [by eapply provider_done|done|done|done].
  - split; [by eapply provider_done|by left].
Qed.

Definition opens (key nonce aad ct pt : list Z) : Prop :=
  (length pt <= CCM_STAR_MAX_PLAINTEXT_LEN)%nat ∧ ct = ref_ccm (aes key) nonce aad pt.

Lemma aps_decrypt_spec p aad ct key h :
  ready p → block_wf key → is_u8 (ash_security_control h) → (∀ a, ash_source_address h = Some a → ieee_wf a) →
  Forall is_u8 aad → Forall is_u8 ct → (length aad <= CCM_STAR_MAX_AAD_LEN)%nat →
  ∃ r p', aps_decrypt_with p aad ct key h = Ok (r, p') ∧ ready p' ∧
    ((∀ pt, r = Some pt ↔ opens key (aps_build_nonce h) aad ct pt) ∨ r = None ∧ fails).
Proof using HL.
  intros Hp Hk Hc Hs Ha Hct Hal. destruct (aps_build_nonce_ok h Hc Hs) as [Hnl Hno].
  pose proof (provider_lawful key Hk) as Hlaw. unfold aps_decrypt_with.
  destruct (Nat.ltb_spec (length ct) 4) as [Hlt|_].
  - eexists _, _. split; [done|]. split; [done|]. left. intros pt. split; [done|]. intros [_ Hr].
    pose proof (ref_ccm_split (keyed key) (aes key) (aps_build_nonce h) aad ct pt Hnl Hno Ha Hct) as Hsp.
    apply Hsp in Hr as [Hl _]. unfold CCM_STAR_MIC_LEN in *. lia.
  - pose proof (ccm_decrypt_iff (keyed key) (aes key) (aps_build_nonce h) aad ct (forward_cipher p key)
      (provider_keyed p key Hp Hk) Hnl Hno Ha Hct) as Hd.
    destruct (ccm_star_decrypt_with _ _ _ _) as [[r c']|e|]; simpl; [| |done].
    + destruct Hd as [Hc' Hr]. eexists _, _. split; [done|]. split; [by eapply provider_done|]. left.
      intros pt. rewrite Hr. unfold opens. tauto.
    + eexists _, _. split; [done|]. split; [done|]. right. split; [done|]. by eapply fails_intro.
Qed.

(** ** Derived keys *)
Lemma block_wf_xor a b : block_wf a → block_wf b → block_wf (xor_list a b).
Proof. intros [Ha Hao] [Hb Hbo]. split; [rewrite length_xor_list; lia|by apply xor_list_octets]. Qed.

Lemma mmo_fold_wf l hash : Forall is_u8 l → block_wf hash → block_wf (mmo_fold aes l hash).
Proof using HL.
  intros Hl. unfold mmo_fold. pose proof (blocks_wf (length l) l Hl) as Hb. revert hash.
  induction Hb as [|b bs Hb _ IH]; intros hash Hh; simpl; [done|]. apply IH. apply block_wf_xor; [|done].
  pose proof (provider_lawful hash Hh) as Hlaw. by apply aes_block.
Qed.

Lemma ref_mmo_wf data : Forall is_u8 data → block_wf (ref_mmo aes data).
Proof using HL.
  intros Hd. unfold ref_mmo. apply mmo_fold_wf; [|apply repeat_block_wf]. unfold mmo_pad.
  apply Forall_app; split; [done|]. constructor; [done|]. apply Forall_app; split.
  - apply Forall_forall. intros x Hx%list_elem_of_In%repeat_spec. by subst.
  - repeat constructor; apply as_u8_octet.
Qed.

Lemma hash_ok_spec p data :
  ready p → Forall is_u8 data → Z.of_nat (length data) * 8 < 65536 →
  ∃ r p', hash_ok p data = Ok (r, p') ∧ ready p' ∧ (r = Some (ref_mmo aes data) ∨ r = None ∧ fails).
Proof using HL.
  intros Hp Hd Hl. unfold hash_ok. pose proof (yields_mmo_hash ready keyed aes data Hd Hl p Hp) as Hy.
  destruct (aes_mmo_hash_with data p) as [[h p']|e|]; [| |done].
  - destruct Hy as [-> Hp']. eexists _, _. split; [done|]. split; [done|]. by left.
  - eexists _, _. split; [done|]. split; [done|]. right. by destruct Hy.
Qed.

Lemma hmac_spec p key m :
  ready p → block_wf key → Forall is_u8 m → (length m <= 32)%nat →
  ∃ r p', hmac_mmo_with p key m = Ok (r, p') ∧ ready p' ∧ (r = Some (ref_hmac aes key m) ∨ r = None ∧ fails).
Proof using HL.
  intros Hp Hk Hm Hl. unfold hmac_mmo_with. set (ipad := xor_list (repeat 0x36 16) key).
  set (opad := xor_list (repeat 0x5C 16) key).
  assert (block_wf ipad) as [Hil Hio].
  { apply block_wf_xor; [|done]. split; [done|]. by repeat constructor. }
  assert (block_wf opad) as [Hol Hoo].
  { apply block_wf_xor; [|done]. split; [done|]. by repeat constructor. }
  rewrite <- (written_nil (repeat 0 48)).
  rewrite copy_written by (done || (rewrite ?Hil; simpl; lia)). cbn [mbind outcome_bind].
  rewrite copy_written by (rewrite ?repeat_length; simpl in *; lia). cbn [mbind outcome_bind]. unfold written at 1.
  replace (16 + length m)%nat with (length ([] ++ ipad ++ m)) by (simpl; rewrite length_app; lia).
  rewrite slice_app_l. cbn [mbind outcome_bind app].
  destruct (hash_ok_spec p (ipad ++ m)) as (r & p' & -> & Hp' & Hr); [done|by apply Forall_app| |].
  { rewrite length_app. lia. }
  cbn [mbind outcome_bind]. destruct Hr as [->|[-> Hf]].
  2:{ eexists _, _. split; [done|]. split; [done|]. by right. }
  destruct (ref_mmo_wf (ipad ++ m)) as [Hml Hmo]; [by apply Forall_app|].
  rewrite <- (written_nil (repeat 0 32)).
  rewrite copy_written by (done || (rewrite ?Hol; simpl; lia)). cbn [mbind outcome_bind].
  rewrite copy_written by (rewrite ?repeat_length; simpl in *; lia). cbn [mbind outcome_bind].
  rewrite written_all by (rewrite length_app; simpl; lia). cbn [app].
  destruct (hash_ok_spec p' (opad ++ ref_mmo aes (ipad ++ m))) as (r' & p'' & -> & Hp'' & Hr');
    [done|by apply Forall_app|rewrite length_app; lia|]. by eexists _, _.
Qed.

Lemma ref_frame_key_wf key_id key : block_wf key → block_wf (ref_frame_key aes key_id key).
Proof using HL.
  intros Hk. assert (∀ n, is_u8 n → block_wf (ref_hmac aes key [n])) as Hh.
  { intros n Hn. apply ref_mmo_wf. apply Forall_app; split.
    - apply block_wf_xor; [|done]. split; [done|]. by repeat constructor.
    - apply ref_mmo_wf. apply Forall_app; split; [|by constructor].
      apply block_wf_xor; [|done]. split; [done|]. by repeat constructor. }
  unfold ref_frame_key. repeat case_match; [by apply Hh..|done].
Qed.

Lemma frame_key_spec p key_id key :
  ready p → block_wf key →
  ∃ r p', frame_key p key_id key = Ok (r, p') ∧ ready p' ∧ (r = Some (ref_frame_key aes key_id key) ∨ r = None ∧ fails).
Proof using HL.
  intros Hp Hk. unfold frame_key, ref_frame_key. repeat case_match.
  - apply hmac_spec; [done|done|by repeat constructor|simpl; lia].
  - apply hmac_spec; [done|done|by repeat constructor|simpl; lia].
  - eexists _, _. split; [done|]. split; [done|]. by left.
Qed.

(** ** One frame: header, auxiliary header, payload *)
Definition patched_aux (h : ApsSecurityHeader) : list Z :=
  patch_level (ash_security_control h) :: drop 1 (aps_aux_bytes h).

Definition secured_frame (key header payload : list Z) (h : ApsSecurityHeader) : list Z :=
  header ++ aps_aux_bytes h ++ ref_ccm (aes key) (aps_build_nonce h) (header ++ patched_aux h) payload.

Lemma aux_bytes_cons h : aps_aux_bytes h = ash_security_control h :: drop 1 (aps_aux_bytes h).
Proof. done. Qed.

Lemma length_patched_aux h : length (patched_aux h) = length (aps_aux_bytes h).
Proof. by rewrite aux_bytes_cons. Qed.

Lemma aux_bytes_octets h : aps_aux_wf h → Forall is_u8 (aps_aux_bytes h).
Proof.
  intros [Hc _ Hs Hq]. unfold aps_aux_bytes. apply Forall_app; split; [by constructor|].
  apply Forall_app; split; [apply u32_to_le_octets|]. apply Forall_app; split.
  - destruct (ash_source_address h); [apply Hs|done].
  - destruct (ash_key_seq_number h); [constructor; [apply Hq|done]|done].
Qed.

Lemma patched_aux_octets h : aps_aux_wf h → Forall is_u8 (patched_aux h).
Proof.
  intros Hwf. constructor; [apply patched_level, Hwf|]. apply Forall_drop. by apply aux_bytes_octets.
Qed.

Lemma assemble_secured_frame_spec p header payload key h :
  ready p → block_wf key → aps_aux_wf h → Forall is_u8 header → Forall is_u8 payload →
  (length header + length (aps_aux_bytes h) <= 64)%nat →
  match assemble_secured_frame p header payload key h with
  | Ok (Some frame, p') =>
      ready p' ∧ frame = secured_frame key header payload h ∧
      (length payload <= CCM_STAR_MAX_PLAINTEXT_LEN)%nat ∧ (length frame <= 128)%nat
  | Ok (None, p') =>
      ready p' ∧ ((128 < length header + length (aps_aux_bytes h) + length payload + 4)%nat ∨ fails)
  | _ => False
  end.
Proof using HL.
  intros Hp Hk Hh Ho Hpl Hlen. unfold assemble_secured_frame. rewrite repeat_length.
  destruct (Nat.leb_spec 128 (length header)) as [|_]; [lia|].
  set (B := aps_aux_bytes h) in *. set (z1 := repeat 0 (128 - length header)).
  set (z2 := repeat 0 (128 - length header - length B)).
  assert (repeat 0 128 = repeat 0 (length header) ++ z1) as Hz by (unfold z1; rewrite <- repeat_app; f_equal; lia).
  rewrite Hz, copy_app_l by (by rewrite repeat_length). cbn [mbind outcome_bind].
  rewrite (slice_app_r header z1) by done. cbn [mbind outcome_bind].
  assert (z1 = repeat 0 (length B) ++ z2) as Hz1 by (unfold z1, z2; rewrite <- repeat_app; f_equal; lia).
  rewrite aps_aux_serialize_eq.
  2:{ intros a Ha. pose proof (awf_source h Hh) as Hs. rewrite Ha in Hs. apply Hs. }
  2:{ fold B. unfold z1. rewrite repeat_length. lia. }
  fold B. cbn [mbind outcome_bind]. rewrite take_app_length. unfold written.
  rewrite Hz1, drop_app_length' by (by rewrite repeat_length).
  replace (length header + length B)%nat with (length (header ++ B)) by (by rewrite length_app).
  rewrite (app_assoc header B z2), slice_app_l. cbn [mbind outcome_bind].
  set (z3 := repeat 0 (64 - length (header ++ B))).
  assert (repeat 0 64 = repeat 0 (length (header ++ B)) ++ z3) as Hz3.
  { unfold z3. rewrite <- repeat_app, length_app. f_equal. lia. }
  rewrite Hz3, copy_app_l by (by rewrite repeat_length). cbn [mbind outcome_bind].
  replace ((header ++ B) ++ z3) with (header ++ ash_security_control h :: drop 1 (aps_aux_bytes h) ++ z3)
    by (by rewrite <- app_assoc).
  rewrite index_app_mid. cbn [mbind outcome_bind]. rewrite put_app_mid. cbn [mbind outcome_bind].
  change (patch_level (ash_security_control h) :: drop 1 (aps_aux_bytes h) ++ z3) with (patched_aux h ++ z3).
  rewrite app_assoc. replace (length (header ++ B)) with (length (header ++ patched_aux h))
    by (rewrite !length_app, length_patched_aux; done).
  rewrite slice_app_l. cbn [mbind outcome_bind]. set (aad := header ++ patched_aux h).
  assert (length aad = length (header ++ B)) as Hal by (unfold aad; rewrite !length_app, length_patched_aux; done).
  assert (Forall is_u8 aad) as Hao by (apply Forall_app; split; [done|by apply patched_aux_octets]).
  pose proof (aps_encrypt_spec p aad payload key h Hp Hk (awf_control h Hh)) as He.
  specialize (He ltac:(intros a Ha; pose proof (awf_source h Hh) as Hs; rewrite Ha in Hs; apply Hs) Hao Hpl).
  specialize (He ltac:(rewrite Hal, length_app; unfold CCM_STAR_MAX_AAD_LEN; lia)).
  destruct (aps_encrypt_with p aad payload key h) as [[[ct|] p']| |]; [| |done..].
  - destruct He as (Hp' & Hct & Hpl' & Hcl). cbn [mbind outcome_bind].
    assert (length ((header ++ B) ++ z2) = 128%nat) as H128.
    { unfold z2. rewrite !length_app, repeat_length. lia. }
    rewrite H128, Hal. destruct (Nat.ltb_spec 128 (length (header ++ B) + length ct)) as [Hlt|Hge].
    + split; [done|]. left. rewrite length_app in Hlt |- *. lia.
    + replace ((header ++ B) ++ z2) with (written (header ++ B) ((header ++ B) ++ z2))
        by (unfold written; by rewrite drop_app_length).
      rewrite copy_written by lia. cbn [mbind outcome_bind]. unfold written.
      replace (length (header ++ B) + length ct)%nat with (length ((header ++ B) ++ ct)) by (by rewrite !length_app).
      rewrite slice_app_l. cbn [mbind outcome_bind]. split_and!; [done| |done|].
      * unfold secured_frame. fold aad B. rewrite <- Hct, app_assoc. done.
      * rewrite length_app. lia.
  - destruct He as [Hp' Hd]. cbn [mbind outcome_bind]. split; [done|]. destruct Hd as [Hd|]; [left|by right].
    unfold CCM_STAR_MAX_PLAINTEXT_LEN in Hd. lia.
Qed.

(** ** Attempts *)
Definition hdr_ok (h : ApsSecurityHeader) : Prop :=
  is_u8 (ash_security_control h) ∧ ∀ a, ash_source_address h = Some a → ieee_wf a.

Definition attempt_ok (a : list Z * list Z) : Prop :=
  Forall is_u8 a.1 ∧ (length a.1 <= 64)%nat ∧ block_wf a.2.

Definition filled (pt : list Z) (buf : ApsFrameBuffer) : ApsFrameBuffer :=
  mk_ApsFrameBuffer (written pt (fb_data buf)) (length pt).

Lemma decrypt_into_spec p aad ct key h buf :
  ready p → attempt_ok (aad, key) → hdr_ok h → Forall is_u8 ct → length (fb_data buf) = APS_FRAME_BUFFER_LEN →
  ∃ r p', decrypt_into p aad ct key h buf =
      Ok (match r with Some pt => (true, filled pt buf, p') | None => (false, buf, p') end) ∧ ready p' ∧
    ((∀ pt, r = Some pt ↔ opens key (aps_build_nonce h) aad ct pt) ∨ r = None ∧ fails).
Proof using HL.
  intros Hp (Ha & Hal & Hk) [Hc Hs] Hct Hbuf. simpl in *. unfold decrypt_into.
  destruct (aps_decrypt_spec p aad ct key h) as (r & p' & -> & Hp' & Hr);
    [done..|unfold CCM_STAR_MAX_AAD_LEN; lia|]. cbn [mbind outcome_bind].
  exists r, p'. split; [|done]. destruct r as [pt|]; [|done].
  assert (length pt <= CCM_STAR_MAX_PLAINTEXT_LEN)%nat as Hpt.
  { destruct Hr as [Hr|[? _]]; [|done]. by destruct (proj1 (Hr pt) eq_refl). }
  unfold CCM_STAR_MAX_PLAINTEXT_LEN, APS_FRAME_BUFFER_LEN, APS_MAX_FRAGMENTED_ASDU in *.
  rewrite Nat.min_l, firstn_all by lia. rewrite <- (written_nil (fb_data buf)) at 1.
  rewrite copy_written by (done || lia). done.
Qed.

Lemma filled_length pt buf :
  (length pt <= length (fb_data buf))%nat → length (fb_data (filled pt buf)) = length (fb_data buf).
Proof. intros. simpl. by apply length_written. Qed.

Lemma filled_payload pt buf : frame_buffer_payload (E:=Empty_set) (filled pt buf) = Ok pt.
Proof. unfold frame_buffer_payload, filled, written. simpl. apply slice_app_l. Qed.

(** The attempt that verified, and what it found. *)
Definition verified (attempts : list (list Z * list Z)) (nonce ct pt : list Z) : Prop :=
  ∃ aad key, (aad, key) ∈ attempts ∧ opens key nonce aad ct pt.

Lemma decrypt_attempts_spec attempts p ct h buf :
  ready p → Forall attempt_ok attempts → hdr_ok h → Forall is_u8 ct →
  length (fb_data buf) = APS_FRAME_BUFFER_LEN →
  ∃ r p', decrypt_attempts attempts p ct h buf =
      Ok (match r with Some pt => (true, filled pt buf, p') | None => (false, buf, p') end) ∧ ready p' ∧
    (∀ pt, r = Some pt → verified attempts (aps_build_nonce h) ct pt) ∧
    (∀ aad key rest pt, attempts = (aad, key) :: rest → opens key (aps_build_nonce h) aad ct pt → r = Some pt ∨ fails) ∧
    (r = None → fails ∨ ∀ pt, ¬ verified attempts (aps_build_nonce h) ct pt).
Proof using HL.
  intros Hp Hall Hh Hct Hbuf. revert p Hp. induction Hall as [|[aad key] attempts Ha _ IH]; intros p Hp; simpl.
  { exists None, p. split_and!; [done..|]. right. intros pt (? & ? & Hin & _). by apply elem_of_nil in Hin. }
  destruct (decrypt_into_spec p aad ct key h buf) as (r & p' & -> & Hp' & Hr); [done..|].
  destruct r as [pt|]; cbn [mbind outcome_bind].
  - exists (Some pt), p'. destruct Hr as [Hr|[? _]]; [|done]. split_and!; [done|done|..|done].
    + intros pt' [= <-]. exists aad, key. split; [by left|]. by apply Hr.
    + intros aad' key' rest pt' [= <- <- <-] Ho. left. by apply Hr.
  - destruct (IH p' Hp') as (r & p'' & -> & Hp'' & Hin & _ & Hnone). exists r, p''. split_and!; [done|done|..].
    + intros pt (aad' & key' & He & Ho)%Hin. exists aad', key'. split; [by right|done].
    + intros aad' key' rest pt [= <- <- <-] Ho. right. destruct Hr as [Hr|[_ ?]]; [|done]. by apply Hr in Ho.
    + intros ->. destruct (Hnone eq_refl) as [|Hn]; [by left|]. destruct Hr as [Hr|[_ ?]]; [|by left].
      right. intros pt (aad' & key' & He & Ho). apply elem_of_cons in He as [[= -> ->]|He].
      * by apply Hr in Ho.
      * apply (Hn pt). by exists aad', key'.
Qed.

(** The attempts for one candidate key. *)
Definition attempts_for (key_id : Z) (global active : bool) (aad aad_raw base : list Z) : list (list Z * list Z) :=
  [(aad, ref_frame_key aes key_id base); (aad_raw, ref_frame_key aes key_id base)]
  ++ if (key_id =? KEY_ID_KEY_TRANSPORT) && global && negb active then [(aad, base); (aad_raw, base)] else [].

Lemma attempts_for_ok key_id global active aad aad_raw base :
  Forall is_u8 aad → (length aad <= 64)%nat → Forall is_u8 aad_raw → (length aad_raw <= 64)%nat → block_wf base →
  Forall attempt_ok (attempts_for key_id global active aad aad_raw base).
Proof using HL.
  intros. pose proof (ref_frame_key_wf key_id base) as Hk. unfold attempts_for. apply Forall_app; split.
  - do 2 (apply Forall_cons; split; [split_and!; [done|done|by apply Hk]|]). done.
  - case_match; [|done]. do 2 (apply Forall_cons; split; [done|]). done.
Qed.

Lemma decrypt_with_link_key_spec p key_id base global active aad aad_raw ct h buf :
  ready p → Forall is_u8 aad → (length aad <= 64)%nat → Forall is_u8 aad_raw → (length aad_raw <= 64)%nat →
  block_wf base → hdr_ok h → Forall is_u8 ct → length (fb_data buf) = APS_FRAME_BUFFER_LEN →
  let attempts := attempts_for key_id global active aad aad_raw base in
  ∃ r p', decrypt_with_link_key p key_id base global active aad aad_raw ct h buf =
      Ok (match r with Some pt => (true, filled pt buf, p') | None => (false, buf, p') end) ∧ ready p' ∧
    (∀ pt, r = Some pt → verified attempts (aps_build_nonce h) ct pt) ∧
    (∀ pt, opens (ref_frame_key aes key_id base) (aps_build_nonce h) aad ct pt → r = Some pt ∨ fails) ∧
    (r = None → fails ∨ ∀ pt, ¬ verified attempts (aps_build_nonce h) ct pt).
Proof using HL.
  intros Hp Ha Hal Hr Hrl Hb Hh Hct Hbuf attempts. unfold decrypt_with_link_key.
  destruct (frame_key_spec p key_id base Hp Hb) as (k & p' & -> & Hp' & Hk). cbn [mbind outcome_bind].
  destruct Hk as [-> | [-> Hf]].
  - destruct (decrypt_attempts_spec attempts p' ct h buf) as (r & p'' & Hd & Hp'' & H1 & H2 & H3);
      [done|by apply attempts_for_ok|done..|]. exists r, p''. split_and!; [exact Hd|done|done| |done].
    intros pt Ho. by eapply H2.
  - exists None, p'. split_and!; [done|done|done| |by left]. intros; by right.
Qed.

(** ** Candidates *)
Definition keys_wf (s : ApsSecurity) : Prop := ∀ o k, key_for_origin s o = Some k → block_wf k.

Lemma key_pairs_for_eq s a :
  key_pairs_for s a =
  match find_key s a TrustCenterLinkKey with Some e => [mk_ApsKeyPair TrustCenterLinkKey (lk_key e)] | None => [] end ++
  match find_key s a ApplicationLinkKey with Some e => [mk_ApsKeyPair ApplicationLinkKey (lk_key e)] | None => [] end.
Proof.
  unfold key_pairs_for. simpl. destruct (find_key s a TrustCenterLinkKey), (find_key s a ApplicationLinkKey); done.
Qed.

Lemma decrypt_candidates_eq s a :
  decrypt_candidates s (Some a) =
  match key_pairs_for s a with
  | [] => (KoPreconfiguredGlobal, default_tc_link_key s)
          :: match distributed_security_link_key s with Some k => [(KoDistributedGlobal, k)] | None => [] end
  | pairs => (λ pair, (KoKeyPair a (kp_key_type pair), kp_key pair)) <$> pairs
  end.
Proof.
  unfold decrypt_candidates. rewrite key_pairs_for_eq.
  destruct (find_key s a TrustCenterLinkKey), (find_key s a ApplicationLinkKey); simpl; try done.
  by destruct (distributed_security_link_key s).
Qed.

Lemma decrypt_candidates_live s a o k :
  (o, k) ∈ decrypt_candidates s (Some a) → key_for_origin s o = Some k.
Proof.
  rewrite decrypt_candidates_eq, key_pairs_for_eq.
  destruct (find_key s a TrustCenterLinkKey) eqn:H1, (find_key s a ApplicationLinkKey) eqn:H2; simpl;
    rewrite ?elem_of_cons, ?elem_of_nil; intros Hin.
  - destruct Hin as [[= -> ->]|[[= -> ->]|[]]]; simpl; by rewrite ?H1, ?H2.
  - destruct Hin as [[= -> ->]|[]]; simpl; by rewrite H1.
  - destruct Hin as [[= -> ->]|[]]; simpl; by rewrite H2.
  - destruct Hin as [[= -> ->]|Hin]; [done|]. destruct (distributed_security_link_key s) eqn:Hd; [|by apply elem_of_nil in Hin].
    apply list_elem_of_singleton in Hin. by injection Hin as -> ->.
Qed.

Lemma try_candidates_spec candidates p key_id active aad aad_raw ct h buf :
  ready p → Forall is_u8 aad → (length aad <= 64)%nat → Forall is_u8 aad_raw → (length aad_raw <= 64)%nat →
  Forall (λ c, block_wf c.2) candidates → hdr_ok h → Forall is_u8 ct →
  length (fb_data buf) = APS_FRAME_BUFFER_LEN →
  ∃ r p', try_candidates candidates p key_id active aad aad_raw ct h buf =
      Ok (match r with Some (o, k, pt) => (Some (o, k), filled pt buf, p') | None => (None, buf, p') end) ∧ ready p' ∧
    (∀ o k pt, r = Some (o, k, pt) → (o, k) ∈ candidates ∧
       verified (attempts_for key_id (is_global o) active aad aad_raw k) (aps_build_nonce h) ct pt) ∧
    (∀ o k rest pt, candidates = (o, k) :: rest →
       opens (ref_frame_key aes key_id k) (aps_build_nonce h) aad ct pt → r = Some (o, k, pt) ∨ fails).
Proof using HL.
  intros Hp Ha Hal Hr Hrl Hc Hh Hct Hbuf. revert p Hp. induction Hc as [|[o k] candidates Hk _ IH]; intros p Hp; simpl.
  { by exists None, p. }
  destruct (decrypt_with_link_key_spec p key_id k (is_global o) active aad aad_raw ct h buf)
    as (r & p' & -> & Hp' & Hv & Hfirst & Hnone); [done..|].
  destruct r as [pt|]; cbn [mbind outcome_bind].
  - exists (Some (o, k, pt)), p'. split_and!; [done|done|..].
    + intros o' k' pt' [= <- <- <-]. split; [by left|auto].
    + intros o' k' rest pt' [= <- <- <-] Ho. destruct (Hfirst pt' Ho) as [[= ->]|]; [by left|by right].
  - destruct (IH p' Hp') as (r & p'' & -> & Hp'' & Hin & _). exists r, p''. split_and!; [done|done|..].
    + intros o' k' pt' Hr'. destruct (Hin o' k' pt' Hr') as [??]. split; [by right|done].
    + intros o' k' rest pt' [= <- <- <-] Ho. destruct (Hfirst pt' Ho); [done|by right].
Qed.
End Reference.

(** * Properties *)

(** Some part of the stack has taken charge of committing the floor. *)
Definition replay_deferred (o : ApsDecryptOutcome) : bool :=
  bool_decide (is_Some (ado_deferred_application_key_replay o))
  || bool_decide (is_Some (ado_deferred_network_key_replay o))
  || bool_decide (is_Some (ado_deferred_security_indication_replay o))
  || bool_decide (is_Some (ado_deferred_data_replay o)).

(** The verified counter of an accepted frame. *)
Definition accepted_replay (o : ApsDecryptOutcome) (source : IeeeAddress) (base : AesKey) (counter : Z)
    : ApsReplayCounter :=
  aps_replay_from_verified (ado_key_origin o) source base counter.

Lemma settle_replay_spec s buf source key_id origin base replay da dn di dd commit :
  let '(r, s') := settle_replay s buf source key_id origin base replay da dn di dd commit in
  match r with
  | None => s' = s ∧ commit replay = false ∧ check_replay_counter s replay = true
  | Some o =>
      ado_key_origin o = origin ∧ ado_aps_security_source o = source ∧
      ado_replay_duplicate o = negb (check_replay_counter s replay) ∧
      (if ado_replay_duplicate o || replay_deferred o then s' = s
       else s' = commit_replay_counter replay s ∧ commit replay = true)
  end.
Proof.
  unfold settle_replay, replay_deferred. destruct (check_replay_counter s replay) eqn:Hc; cbn [negb andb].
  2:{ split_and!; done. }
  set (a := da && _). set (b := dn && _). set (c := di && _).
  destruct a, b, c, dd; simpl; try (split_and!; done).
  destruct (commit replay) eqn:Hcm; simpl; split_and!; done.
Qed.

Lemma length_aux_bytes h : aps_aux_wf h → (5 <= length (aps_aux_bytes h) <= 14)%nat.
Proof.
  intros [_ _ Hs Hq]. unfold aps_aux_bytes. rewrite !length_app.
  destruct (ash_source_address h) as [a|]; [destruct Hs as [_ [-> _]]|]; destruct (ash_key_seq_number h); simpl; lia.
Qed.

(** The sender's address of a parsed header. *)
Definition header_source (h : ApsSecurityHeader) (nwk_src_ieee : option IeeeAddress) (tc_address : IeeeAddress)
    : option IeeeAddress :=
  match ash_source_address h with
  | Some a => Some a
  | None => match nwk_src_ieee ≫= nonzero_ieee with Some a => Some a | None => nonzero_ieee tc_address end
  end.

Definition with_source (h : ApsSecurityHeader) (source : option IeeeAddress) : ApsSecurityHeader :=
  mk_ApsSecurityHeader (ash_security_control h) (ash_frame_counter h) source (ash_key_seq_number h).

Definition key_id_supported (key_id : Z) : bool :=
  (key_id =? KEY_ID_DATA_KEY) || (key_id =? KEY_ID_KEY_TRANSPORT) || (key_id =? KEY_ID_KEY_LOAD).

Section Incoming.
Context {P C E : Type} `{HF : ForwardAesProvider P C E}.

(** The receive path on a frame whose auxiliary header parses. *)
Lemma decrypt_incoming_eq p s nwk_src active tc header h ct buf da dn di dd commit :
  aps_aux_wf h → (length header <= 50)%nat →
  let source := header_source h nwk_src tc in
  let h' := with_source h source in
  let key_id := key_identifier (ash_security_control h) in
  aps_decrypt_incoming p s nwk_src active tc (header ++ aps_aux_bytes h ++ ct) (length header) buf da dn di dd commit =
  if key_id_supported key_id then
    match source with
    | None => Ok (None, s, buf, p)
    | Some a =>
        '(accepted, buf, p) ← try_candidates (decrypt_candidates s source) p key_id active
                                (header ++ patched_aux h) (header ++ aps_aux_bytes h) ct h' buf;
        match accepted with
        | None => Ok (None, s, buf, p)
        | Some (origin, base) =>
            let '(r, s') := settle_replay s buf source key_id origin base
                              (aps_replay_from_verified origin a base (ash_frame_counter h)) da dn di dd commit in
            Ok (r, s', buf, p)
        end
    end
  else Ok (None, s, buf, p).
Proof.
  intros Hh Hlen source h' key_id. pose proof (length_aux_bytes h Hh) as HB. unfold aps_decrypt_incoming.
  rewrite slice_app_r by done. cbn [mbind outcome_bind]. rewrite aps_aux_parse_bytes by done.
  fold (header_source h nwk_src tc). fold source. fold (with_source h source). fold h'. cbv zeta.
  rewrite slice_app_r by done. cbn [mbind outcome_bind].
  rewrite (Nat.min_l _ 64) by lia. replace (length header + length (aps_aux_bytes h))%nat
    with (length (header ++ aps_aux_bytes h)) by (by rewrite length_app).
  rewrite (app_assoc header), slice_app_l. cbn [mbind outcome_bind].
  set (z := repeat 0 (64 - length (header ++ aps_aux_bytes h))).
  assert (repeat 0 64 = repeat 0 (length (header ++ aps_aux_bytes h)) ++ z) as ->.
  { unfold z. rewrite <- repeat_app, length_app. f_equal. lia. }
  rewrite copy_app_l by (by rewrite repeat_length). cbn [mbind outcome_bind].
  replace ((header ++ aps_aux_bytes h) ++ z) with (header ++ ash_security_control h :: drop 1 (aps_aux_bytes h) ++ z)
    by (by rewrite <- app_assoc).
  rewrite index_app_mid. cbn [mbind outcome_bind]. rewrite put_app_mid. cbn [mbind outcome_bind].
  change (patch_level (ash_security_control h) :: drop 1 (aps_aux_bytes h) ++ z) with (patched_aux h ++ z).
  replace (length (header ++ aps_aux_bytes h)) with (length (header ++ patched_aux h)) at 1
    by (rewrite !length_app, length_patched_aux; done).
  rewrite (app_assoc header), slice_app_l. cbn [mbind outcome_bind].
  rewrite Nat.min_l by (rewrite !length_app; lia). rewrite slice_app_l. cbn [mbind outcome_bind].
  change (ash_security_control h') with (ash_security_control h). fold key_id.
  unfold key_id_supported. rewrite <- !negb_orb, negb_if. by destruct (_ || _ || _).
Qed.
End Incoming.

Lemma nonzero_ieee_Some a b : nonzero_ieee a = Some b → a = b.
Proof. unfold nonzero_ieee. case_match; congruence. Qed.

Lemma attempts_for_inv aes key_id global active aad aad_raw base a k :
  (a, k) ∈ attempts_for aes key_id global active aad aad_raw base →
  (a = aad ∨ a = aad_raw) ∧ (k = ref_frame_key aes key_id base ∨ k = base).
Proof.
  unfold attempts_for. rewrite elem_of_app. intros [Hin|Hin].
  - rewrite !elem_of_cons in Hin. destruct Hin as [[= -> ->]|[[= -> ->]|Hin]]; [tauto|tauto|by apply elem_of_nil in Hin].
  - case_match; [|by apply elem_of_nil in Hin]. rewrite !elem_of_cons in Hin.
    destruct Hin as [[= -> ->]|[[= -> ->]|Hin]]; [tauto|tauto|by apply elem_of_nil in Hin].
Qed.

Lemma header_source_wf h nwk_src tc :
  aps_aux_wf h → (∀ a, nwk_src = Some a → ieee_wf a) → ieee_wf tc →
  ∀ a, header_source h nwk_src tc = Some a → ieee_wf a.
Proof.
  intros Hh Hn Ht a. unfold header_source. pose proof (awf_source h Hh) as Hs.
  destruct (ash_source_address h) as [x|]; [intros [= ->]; apply Hs|].
  destruct (nwk_src ≫= nonzero_ieee) as [x|] eqn:Hx.
  - intros [= ->]. apply bind_Some in Hx as (y & -> & ->%nonzero_ieee_Some). by apply Hn.
  - by intros ->%nonzero_ieee_Some.
Qed.

(** C1. Whatever the radio delivers, the APS receive path does not panic, and
    a frame it accepts carries the CCM* encryption of the delivered payload
    under a key the node holds for that origin (the key itself or its
    key-transport or key-load derivation) and over the received header, with
    the security level patched or as received.  The replay verdict is that of
    the floors, and the security state changes only by committing the frame's
    own counter: exactly when the frame is fresh, nobody has deferred the
    commit and the durable store has agreed. *)
Theorem aps_accepts_only_authentic {P C E} `{HF : ForwardAesProvider P C E} (ready : P → Prop)
    (keyed : list Z → C → Prop) (aes : list Z → list Z → list Z) `{HL : !LawfulProvider ready keyed aes}
    (p : P) (s : ApsSecurity) (nwk_src : option IeeeAddress) (active : bool) (tc : IeeeAddress)
    (payload : list Z) (consumed : nat) (buf : ApsFrameBuffer) (da dn di dd : bool)
    (commit : ApsReplayCounter → bool) :
  ready p → keys_wf s → Forall is_u8 payload → (consumed <= length payload)%nat → (consumed <= 50)%nat →
  length (fb_data buf) = APS_FRAME_BUFFER_LEN → (∀ a, nwk_src = Some a → ieee_wf a) → ieee_wf tc →
  ∃ r s' buf' p',
    aps_decrypt_incoming p s nwk_src active tc payload consumed buf da dn di dd commit = Ok (r, s', buf', p') ∧
    match r with
    | None => s' = s
    | Some o =>
        ∃ h rest source base key aad pt,
          drop consumed payload = aps_aux_bytes h ++ rest ∧ aps_aux_wf h ∧
          header_source h nwk_src tc = Some source ∧
          key_for_origin s (ado_key_origin o) = Some base ∧
          key ∈ [base; ref_hmac aes base [0x00]; ref_hmac aes base [0x02]] ∧
          aad ∈ [take consumed payload ++ patched_aux h; take consumed payload ++ aps_aux_bytes h] ∧
          rest = ref_ccm (aes key) (aps_build_nonce (with_source h (Some source))) aad pt ∧
          frame_buffer_payload (E:=Empty_set) buf' = Ok pt ∧
          let replay := accepted_replay o source base (ash_frame_counter h) in
          ado_replay_duplicate o = negb (check_replay_counter s replay) ∧
          (if ado_replay_duplicate o || replay_deferred o then s' = s
           else s' = commit_replay_counter replay s ∧ commit replay = true)
    end.
Proof.
  intros Hp Hkeys Ho Hc H50 Hbuf Hn Ht.
  destruct (aps_aux_parse (drop consumed payload)) as [[h n]|[]|] eqn:Hparse.
  2:{ exists None, s, buf, p. split; [|done]. unfold aps_decrypt_incoming.
      rewrite slice_from by done. cbn [mbind outcome_bind]. by rewrite Hparse. }
  2:{ pose proof (aps_aux_parse_no_panic (drop consumed payload)) as Hnp. by rewrite Hparse in Hnp. }
  destruct (aps_aux_parse_inv _ _ _ ltac:(by apply Forall_drop) Hparse) as (Hh & rest & Hdrop & ->).
  set (header := take consumed payload).
  assert (length header = consumed) as Hhl by (by apply length_take_le).
  assert (Forall is_u8 header) as Hho by (by apply Forall_take).
  assert (Forall is_u8 rest) as Hro.
  { assert (Forall is_u8 (aps_aux_bytes h ++ rest)) as Hx by (rewrite <- Hdrop; by apply Forall_drop).
    by apply Forall_app in Hx as [_ ?]. }
  assert (payload = header ++ aps_aux_bytes h ++ rest) as Hpay by (rewrite <- Hdrop; symmetry; apply take_drop).
  assert (aps_decrypt_incoming p s nwk_src active tc payload consumed buf da dn di dd commit =
    aps_decrypt_incoming p s nwk_src active tc (header ++ aps_aux_bytes h ++ rest) (length header) buf da dn di dd commit)
    as -> by (by rewrite Hhl, <- Hpay).
  rewrite decrypt_incoming_eq by (done || lia).
  destruct (key_id_supported _); [|by exists None, s, buf, p].
  destruct (header_source h nwk_src tc) as [source|] eqn:Hsrc; [|by exists None, s, buf, p].
  pose proof (header_source_wf h nwk_src tc Hh Hn Ht source Hsrc) as Hsw. pose proof (length_aux_bytes h Hh) as HB.
  destruct (try_candidates_spec ready keyed aes (decrypt_candidates s (Some source)) p
    (key_identifier (ash_security_control h)) active (header ++ patched_aux h) (header ++ aps_aux_bytes h) rest
    (with_source h (Some source)) buf) as (r & p' & -> & Hp' & Hr & _).
  { done. } { apply Forall_app; split; [done|by apply patched_aux_octets]. }
  { rewrite length_app, length_patched_aux. lia. }
  { apply Forall_app; split; [done|by apply aux_bytes_octets]. } { rewrite length_app. lia. }
  { apply Forall_forall. intros [o k] Hin%decrypt_candidates_live. by eapply Hkeys. }
  { split; [apply Hh|]. by intros a [= <-]. } { done. } { done. }
  cbn [mbind outcome_bind]. destruct r as [[[o k] pt]|]; [|by exists None, s, buf, p'].
  destruct (Hr o k pt eq_refl) as [Hin (aad & key & Hatt & _ & Hct)].
  set (replay := aps_replay_from_verified o source k (ash_frame_counter h)).
  pose proof (settle_replay_spec s (filled pt buf) (Some source) (key_identifier (ash_security_control h)) o k
    replay da dn di dd commit) as Hset.
  destruct (settle_replay _ _ _ _ _ _ _ _ _ _ _ _) as [r s']. exists r, s', (filled pt buf), p'. split; [done|].
  destruct r as [oc|]; [|by destruct Hset as [-> _]]. destruct Hset as (Eo & Es & Ed & Hs').
  exists h, rest, source, k, key, aad, pt. unfold accepted_replay. rewrite Eo. fold replay.
  split_and!; [done|done|done|by eapply decrypt_candidates_live| | |done|apply filled_payload|done|done].
  - destruct (attempts_for_inv _ _ _ _ _ _ _ _ _ Hatt) as [_ Hk]. rewrite !elem_of_cons. unfold ref_frame_key in Hk.
    repeat case_match; tauto.
  - destruct (attempts_for_inv _ _ _ _ _ _ _ _ _ Hatt) as [Ha _]. rewrite !elem_of_cons. tauto.
Qed.

(** C31. End to end: a frame assembled under a Trust Center link key, from a
    header of at most 50 octets, is opened by a receiver that holds this key
    for the sender: it delivers exactly the payload, attributes it to that
    key pair and commits the counter, so that receiving the same frame again
    is reported as a duplicate and changes nothing; the only way this can go
    wrong is a failing AES backend. *)
Theorem aps_secured_roundtrip {P C E} `{HF : ForwardAesProvider P C E} (ready : P → Prop)
    (keyed : list Z → C → Prop) (aes : list Z → list Z → list Z) `{HL : !LawfulProvider ready keyed aes}
    (p q q' : P) (s : ApsSecurity) (nwk_src : option IeeeAddress) (active : bool) (tc src : IeeeAddress)
    (header payload : list Z) (counter : Z) (e : ApsLinkKeyEntry) (frame : list Z) (p' : P) (buf : ApsFrameBuffer) :
  let h := mk_ApsSecurityHeader APS_DEFAULT_EXT_NONCE counter (Some src) None in
  let origin := KoKeyPair src TrustCenterLinkKey in
  ready p → ready q → ready q' → asec_wf s → keys_wf s → ieee_wf src → is_u32 counter →
  Forall is_u8 header → Forall is_u8 payload → (length header <= 50)%nat →
  find_key s src TrustCenterLinkKey = Some e → lk_fresh counter e = true →
  assemble_secured_frame p header payload (lk_key e) h = Ok (Some frame, p') →
  length (fb_data buf) = APS_FRAME_BUFFER_LEN →
  provider_fails keyed ∨
  ∃ o s1 buf1 q1 o2 buf2 q2,
    aps_decrypt_incoming q s nwk_src active tc frame (length header) buf false false false false (λ _, true)
      = Ok (Some o, s1, buf1, q1) ∧
    frame_buffer_payload (E:=Empty_set) buf1 = Ok payload ∧ ado_key_origin o = origin ∧
    ado_replay_duplicate o = false ∧
    s1 = commit_replay_counter (aps_replay_from_verified origin src (lk_key e) counter) s ∧
    aps_decrypt_incoming q' s1 nwk_src active tc frame (length header) buf false false false false (λ _, true)
      = Ok (Some o2, s1, buf2, q2) ∧
    ado_replay_duplicate o2 = true.
Proof.
  intros h origin Hp Hq Hq' Hwf Hkeys Hsrc Hcnt Hho Hpo Hhl Hfind Hfresh Hasm Hbuf.
  assert (aps_aux_wf h) as Hh by (by split). assert (block_wf (lk_key e)) as Hk.
  { apply (Hkeys (KoKeyPair src TrustCenterLinkKey)). simpl. by rewrite Hfind. }
  pose proof (length_aux_bytes h Hh) as HB.
  pose proof (assemble_secured_frame_spec ready keyed aes p header payload (lk_key e) h Hp Hk Hh Hho Hpo ltac:(lia)) as Ha.
  rewrite Hasm in Ha. destruct Ha as (_ & -> & Hpl & _). unfold secured_frame.
  set (ct := ref_ccm (aes (lk_key e)) (aps_build_nonce h) (header ++ patched_aux h) payload).
  assert (Forall is_u8 (header ++ patched_aux h)) as Hao by (apply Forall_app; split; [done|by apply patched_aux_octets]).
  assert (Forall is_u8 ct) as Hct.
  { destruct (aps_build_nonce_ok h) as [Hnl Hno]; [done|by intros a [= <-]|]. pose proof (provider_lawful _ Hk) as Hlaw.
    unfold ct, ref_ccm. apply Forall_app. split; [by apply (ref_ctr_octets (keyed (lk_key e)))|].
    apply xor_list_octets; apply Forall_take; [by apply (ref_mac_wf (keyed (lk_key e)))|by apply aes_block, ref_a_wf]. }
  set (replay := aps_replay_from_verified origin src (lk_key e) counter).
  assert (check_replay_counter s replay = true) as Hchk.
  { unfold check_replay_counter, aps_check_frame_counter. simpl. by rewrite Hfind. }
  destruct (commit_replay_spec_aux replay s Hwf) as (Hwf1 & Hfloor & Hfk & Hkfo).
  set (s1 := commit_replay_counter replay s) in *. destruct (Hfk src TrustCenterLinkKey) as (c1 & b1 & Hf1).
  rewrite Hfind in Hf1. simpl in Hf1.
  assert (∀ st x k, find_key st src TrustCenterLinkKey = Some x → lk_key x = lk_key e → keys_wf st → ready k →
    provider_fails keyed ∨ ∃ q1, try_candidates (decrypt_candidates st (Some src)) k (key_identifier APS_DEFAULT_EXT_NONCE)
      active (header ++ patched_aux h) (header ++ aps_aux_bytes h) ct h buf
      = Ok (Some (origin, lk_key e), filled payload buf, q1)) as Htry.
  { intros st x k Hx Hkx Hkst Hr.
    destruct (try_candidates_spec ready keyed aes (decrypt_candidates st (Some src)) k
      (key_identifier APS_DEFAULT_EXT_NONCE) active (header ++ patched_aux h) (header ++ aps_aux_bytes h) ct h buf)
      as (r & q1 & -> & _ & _ & Hfirst).
    { done. } { done. } { rewrite length_app, length_patched_aux. lia. }
    { apply Forall_app; split; [done|by apply aux_bytes_octets]. } { rewrite length_app. lia. }
    { apply Forall_forall. intros [o k'] Hin%decrypt_candidates_live. by eapply Hkst. }
    { split; [done|]. by intros a [= <-]. } { done. } { done. }
    assert (∃ rest, decrypt_candidates st (Some src) = (origin, lk_key e) :: rest) as [rest Hrest].
    { rewrite decrypt_candidates_eq, key_pairs_for_eq, Hx. simpl. rewrite Hkx. by eexists. }
    destruct (Hfirst origin (lk_key e) rest payload Hrest) as [->|]; [done| |by left]. right. by eexists. }
  destruct (Htry s e q Hfind eq_refl Hkeys Hq) as [|[q1 Ht1]]; [by left|].
  assert (keys_wf s1) as Hkeys1 by (intros o k Hok; rewrite Hkfo in Hok; by eapply Hkeys).
  destruct (Htry s1 _ q' Hf1) as [|[q2 Ht2]]; [by destruct e|done|done|by left|]. right.
  rewrite decrypt_incoming_eq by (done || lia).
  change (key_id_supported _) with true. change (header_source h nwk_src tc) with (Some src). cbv iota beta zeta.
  change (with_source h (Some src)) with h. change (ash_security_control h) with APS_DEFAULT_EXT_NONCE.
  change (ash_frame_counter h) with counter. rewrite Ht1. cbn [mbind outcome_bind]. fold replay.
  assert (check_replay_counter s1 replay = false) as Hchk1.
  { rewrite check_replay_floor by done. rewrite Hfloor, replay_origin_eqb_refl.
    replace (domain_live s (arc_origin replay)) with true
      by (symmetry; simpl; rewrite Hfind; by apply bool_decide_eq_true; eexists).
    cbn [andb]. apply Z.ltb_ge. unfold raised_floor. simpl. case_match; lia. }
  unfold settle_replay at 1. rewrite Hchk. cbn [negb andb]. eexists _, s1, _, _, _, _, _.
  split_and!; [reflexivity|apply filled_payload|done|done|done| |].
  - rewrite !decrypt_incoming_eq by (done || lia).
    change (key_id_supported _) with true. change (header_source h nwk_src tc) with (Some src). cbv iota beta zeta.
    change (with_source h (Some src)) with h. change (ash_security_control h) with APS_DEFAULT_EXT_NONCE.
    change (ash_frame_counter h) with counter. rewrite Ht2. cbn [mbind outcome_bind]. fold replay. unfold settle_replay. rewrite Hchk1. cbn [negb andb].
    reflexivity.
  - done.
Qed.

(** * Witnesses *)
Import ToyAes.
Lemma keys_wf_intro s :
  Forall (λ e, block_wf (lk_key e)) (key_table s) → block_wf (default_tc_link_key s) →
  (∀ k, distributed_security_link_key s = Some k → block_wf k) → keys_wf s.
Proof.
  intros Ht Hd Hg [p k| |] x; simpl; [|by intros [= <-]|apply Hg].
  intros (e & [He _]%find_key_Some & ->)%fmap_Some. rewrite Forall_forall in Ht. auto.
Qed.

Definition ex_receiver : ApsSecurity := set_key_table [ex_link 1 TrustCenterLinkKey] asec_new.

Lemma ex_receiver_keys : keys_wf ex_receiver.
Proof.
  apply keys_wf_intro; [|split; [done|by repeat constructor]|done].
  repeat constructor; simpl; try done.
Qed.

Lemma ex_receiver_wf : asec_wf ex_receiver.
Proof.
  assert (asec_run [EvAdd (ex_link 1 TrustCenterLinkKey)] asec_new = Ok ex_receiver) as Hr by reflexivity.
  destruct (asec_run_inv [EvAdd (ex_link 1 TrustCenterLinkKey)] asec_new asec_inv_new) as (s & Hs & Hinv);
    [by repeat constructor|]. rewrite Hr in Hs. injection Hs as <-. apply Hinv.
Qed.

Definition ex_sender_header : ApsSecurityHeader :=
  mk_ApsSecurityHeader APS_DEFAULT_EXT_NONCE 77 (Some (repeat 1 8)) None.
Definition ex_frame : list Z :=
  secured_frame ToyAes.aes (repeat 17 16) [0x21; 5] [10; 20; 30] ex_sender_header.

Lemma ex_frame_octets : Forall is_u8 ex_frame.
Proof. vm_compute. by repeat constructor. Qed.

Lemma aps_accepts_only_authentic_witness :
  ∃ o s' buf' p',
    aps_decrypt_incoming tt ex_receiver None true (repeat 9 8) ex_frame 2 frame_buffer_new
      false false false false (λ _, true) = Ok (Some o, s', buf', p') ∧
    key_for_origin ex_receiver (ado_key_origin o) = Some (repeat 17 16).
Proof.
  destruct (aps_accepts_only_authentic (P:=unit) (HF:=ToyAes.toy_provider) (λ _ : unit, True)
    (λ key (c : list Z), c = key) ToyAes.aes (HL:=ToyAes.toy_lawful_provider) tt ex_receiver None true (repeat 9 8)
    ex_frame 2 frame_buffer_new false false false false (λ _, true)) as (r & s' & buf' & p' & Hr & Hprop).
  - done.
  - apply ex_receiver_keys.
  - apply ex_frame_octets.
  - vm_compute. lia.
  - lia.
  - reflexivity.
  - done.
  - by apply (bool_decide_unpack (ieee_wf (repeat 9 8))).
  - destruct r as [o|].
    + exists o, s', buf', p'. split; [exact Hr|]. vm_compute in Hr. injection Hr as <- <- <- <-. reflexivity.
    + exfalso. vm_compute in Hr. discriminate Hr.
Defined.

Lemma aps_secured_roundtrip_witness :
  provider_fails (HF:=ToyAes.toy_provider) (λ key (c : list Z), c = key) ∨
  ∃ o s1 buf1 q1,
    aps_decrypt_incoming tt ex_receiver None true (repeat 9 8) ex_frame 2 frame_buffer_new
      false false false false (λ _, true) = Ok (Some o, s1, buf1, q1) ∧
    frame_buffer_payload (E:=Empty_set) buf1 = Ok [10; 20; 30].
Proof.
  destruct (aps_secured_roundtrip (P:=unit) (HF:=ToyAes.toy_provider) (λ _ : unit, True)
    (λ key (c : list Z), c = key) ToyAes.aes (HL:=ToyAes.toy_lawful_provider) tt tt tt ex_receiver None true
    (repeat 9 8) (repeat 1 8) [0x21; 5] [10; 20; 30] 77 (ex_link 1 TrustCenterLinkKey) ex_frame tt frame_buffer_new)
    as [Hf|(o & s1 & buf1 & q1 & _ & _ & _ & H1 & H2 & _)].
  - done.
  - done.
  - done.
  - apply ex_receiver_wf.
  - apply ex_receiver_keys.
  - by apply (bool_decide_unpack (ieee_wf (repeat 1 8))).
  - done.
  - by repeat constructor.
  - by repeat constructor.
  - simpl. lia.
  - reflexivity.
  - reflexivity.
  - vm_compute. reflexivity.
  - reflexivity.
  - by left.
  - right. exists o, s1, buf1, q1. split; [exact H1|exact H2].
Defined.
