(* ===== verification/ApsDelivery.v ===== *)
(** Delivery state of the APS layer: [zigbee-aps/src/lib.rs] (router build).

    The duplicate rejection table, the table of unicasts awaiting their
    acknowledgement with its retry timer, the completions kept for the upper
    layer, and the reception state undone when a durable commit aborts.  The
    monotonic clock is an argument of the operations that read it; it is a
    [u32] of microseconds that wraps. *)
From S2P Require Import Prelude.
From S2P Require Import ZigbeeTypes.
From S2P Require Import Crypto.
From S2P Require Import NwkNib.
From S2P Require Import ApsFrames.
From S2P Require Import ApsTables.
From S2P Require Import ApsFragment.
From S2P Require Import ApsSecurity.
From S2P Require Import ApsSecured.

Local Open Scope Z_scope.

Definition U32_MAX : Z := 4294967295.
Definition APS_DUP_TABLE_SIZE : nat := 16.
Definition APS_ACK_TABLE_SIZE : nat := 8.

(** * Duplicate rejection *)
Record ApsDuplicateEntry := mk_ApsDuplicateEntry {
  dup_src_addr : Z;
  dup_aps_counter : Z;
  dup_fragment_window : option Z;
  dup_accepted_at_us : Z;
  dup_active : bool }.

Definition dup_empty : ApsDuplicateEntry := mk_ApsDuplicateEntry 0 0 None 0 false.
Definition dup_table_new : list ApsDuplicateEntry := repeat dup_empty APS_DUP_TABLE_SIZE.

Definition set_dup_active (v : bool) (e : ApsDuplicateEntry) : ApsDuplicateEntry :=
  mk_ApsDuplicateEntry (dup_src_addr e) (dup_aps_counter e) (dup_fragment_window e) (dup_accepted_at_us e) v.

Definition duplicate_rejection_timeout_us (a : Aib) : Z :=
  Z.min (aib_duplicate_rejection_timeout a * 1000) U32_MAX.

Definition dup_entry_live (e : ApsDuplicateEntry) (now timeout_us : Z) : bool :=
  dup_active e && (wrapping_sub_u32 now (dup_accepted_at_us e) <? timeout_us).

Definition dup_matches (now timeout src_addr aps_counter : Z) (fragmented : bool) (e : ApsDuplicateEntry) : bool :=
  dup_entry_live e now timeout && (dup_src_addr e =? src_addr) && (dup_aps_counter e =? aps_counter)
  && Bool.eqb (bool_decide (is_Some (dup_fragment_window e))) fragmented.

Definition find_duplicate (t : list ApsDuplicateEntry) (now timeout src_addr aps_counter : Z) (fragmented : bool)
    : option nat :=
  position (dup_matches now timeout src_addr aps_counter fragmented) t.

(** The slot [record_duplicate] reuses: the first expired one, or the last of
    those that have waited longest. *)
Fixpoint record_slot (i : nat) (t : list ApsDuplicateEntry) (now timeout : Z) (best : option (nat * Z))
    : option (nat * Z) :=
  match t with
  | [] => best
  | e :: t =>
      if negb (dup_entry_live e now timeout) then Some (i, U32_MAX)
      else
        let waited := wrapping_sub_u32 now (dup_accepted_at_us e) in
        let best := if match best with None => true | Some (_, oldest) => oldest <=? waited end
                    then Some (i, waited) else best in
        record_slot (S i) t now timeout best
  end.

Definition record_duplicate (t : list ApsDuplicateEntry) (now timeout src_addr aps_counter : Z)
    (fragment_window : option Z) : list ApsDuplicateEntry :=
  match record_slot 0 t now timeout None with
  | Some (idx, _) => <[idx := mk_ApsDuplicateEntry src_addr aps_counter fragment_window now true]> t
  | None => t
  end.

Definition is_aps_duplicate (t : list ApsDuplicateEntry) (now timeout src_addr aps_counter : Z)
    : list ApsDuplicateEntry * bool :=
  match find_duplicate t now timeout src_addr aps_counter false with
  | Some _ => (t, true)
  | None => (record_duplicate t now timeout src_addr aps_counter None, false)
  end.

Definition age_dup_table (t : list ApsDuplicateEntry) (fragment_rx : list ReassemblyEntry) (now timeout : Z)
    : list ApsDuplicateEntry * list ReassemblyEntry :=
  ((λ e, if dup_active e && negb (dup_entry_live e now timeout) then set_dup_active false e else e) <$> t,
   fr_expire fragment_rx now).

(** * Reception state of the frame being committed *)
Inductive ApsRxRollback :=
| RbDuplicate (src_addr aps_counter : Z)
| RbFragmentBlock (src_addr aps_counter block : Z).

Record ApsRx := mk_ApsRx {
  rx_dup_table : list ApsDuplicateEntry;
  rx_fragment_rx : list ReassemblyEntry;
  rx_security : ApsSecurity;
  rx_pending_data_replay : option ApsReplayCounter;
  rx_pending_rollback : option ApsRxRollback }.

Definition complete_data_persistence (r : ApsRx) : ApsRx :=
  mk_ApsRx (rx_dup_table r) (rx_fragment_rx r)
    (match rx_pending_data_replay r with
     | Some replay => commit_replay_counter replay (rx_security r)
     | None => rx_security r
     end) None None.

Definition dup_deactivate (p : ApsDuplicateEntry → bool) (t : list ApsDuplicateEntry) : list ApsDuplicateEntry :=
  (λ e, if dup_active e && p e then set_dup_active false e else e) <$> t.

Definition abort_data_persistence {E} (r : ApsRx) : outcome E ApsRx :=
  let t := rx_dup_table r in
  match rx_pending_rollback r with
  | Some (RbDuplicate src c) =>
      let t := dup_deactivate (λ e, (dup_src_addr e =? src) && (dup_aps_counter e =? c)) t in
      Ok (mk_ApsRx t (rx_fragment_rx r) (rx_security r) None None)
  | Some (RbFragmentBlock src c block) =>
      let t := dup_deactivate (λ e, bool_decide (is_Some (dup_fragment_window e))
                                    && (dup_src_addr e =? src) && (dup_aps_counter e =? c)) t in
      f ← rollback_block (rx_fragment_rx r) src c block;
      Ok (mk_ApsRx t f (rx_security r) None None)
  | None => Ok (mk_ApsRx t (rx_fragment_rx r) (rx_security r) None None)
  end.

(** * Unicasts awaiting their acknowledgement *)
Record PendingApsSecurity := mk_PendingApsSecurity {
  ps_origin : ApsKeyOrigin; ps_src_ieee : IeeeAddress; ps_header_len : Z }.

Record PendingApsAckEntry := mk_PendingApsAckEntry {
  pa_active : bool;
  pa_generation : Z;
  pa_aps_counter : Z;
  pa_dst_addr : Z;
  pa_confirmed : bool;
  pa_retries : Z;
  pa_waiting_since_us : Z;
  pa_original_frame : list Z;
  pa_security : option PendingApsSecurity }.

Record ApsAckHandle := mk_ApsAckHandle { ak_dst_addr : Z; ak_generation : Z; ak_aps_counter : Z }.
#[export] Instance ApsAckHandle_eq_dec : EqDecision ApsAckHandle.
Proof. solve_decision. Defined.

Inductive ApsAckStatus := AckPending | AckConfirmed.

Record AckState := mk_AckState {
  ack_table : list PendingApsAckEntry;
  ack_completions : list ApsAckHandle;
  next_ack_generation : Z;
  consecutive_ack_failures : Z }.

Definition ack_new : AckState := mk_AckState [] [] 1 0.

(** Field assignments. *)
Definition set_ack_table (v : list PendingApsAckEntry) (s : AckState) : AckState :=
  mk_AckState v (ack_completions s) (next_ack_generation s) (consecutive_ack_failures s).
Definition pa_release (e : PendingApsAckEntry) : PendingApsAckEntry :=
  mk_PendingApsAckEntry false (pa_generation e) (pa_aps_counter e) (pa_dst_addr e) (pa_confirmed e)
    (pa_retries e) (pa_waiting_since_us e) [] (pa_security e).
Definition pa_deactivate (e : PendingApsAckEntry) : PendingApsAckEntry :=
  mk_PendingApsAckEntry false (pa_generation e) (pa_aps_counter e) (pa_dst_addr e) (pa_confirmed e)
    (pa_retries e) (pa_waiting_since_us e) (pa_original_frame e) (pa_security e).
Definition pa_confirm (e : PendingApsAckEntry) : PendingApsAckEntry :=
  mk_PendingApsAckEntry (pa_active e) (pa_generation e) (pa_aps_counter e) (pa_dst_addr e) true
    (pa_retries e) (pa_waiting_since_us e) (pa_original_frame e) (pa_security e).
Definition pa_retry (now : Z) (e : PendingApsAckEntry) : PendingApsAckEntry :=
  mk_PendingApsAckEntry (pa_active e) (pa_generation e) (pa_aps_counter e) (pa_dst_addr e) (pa_confirmed e)
    (saturating_sub (pa_retries e) 1) now (pa_original_frame e) (pa_security e).

(** [heapless::Vec::<u8, 128>::extend_from_slice] whose failure is ignored:
    a frame that does not fit is not kept at all. *)
Definition kept_frame (frame_bytes : list Z) : list Z :=
  if (length frame_bytes <=? 128)%nat then frame_bytes else [].

Definition pa_new (generation aps_counter dst_addr now : Z) (frame_bytes : list Z)
    (security : option PendingApsSecurity) : PendingApsAckEntry :=
  mk_PendingApsAckEntry true generation aps_counter dst_addr false 3 now (kept_frame frame_bytes) security.

(** The entry that has waited longest; the first of them. *)
Fixpoint ack_victim (i : nat) (t : list PendingApsAckEntry) (now : Z) (victim : option (nat * Z)) : option (nat * Z) :=
  match t with
  | [] => victim
  | e :: t =>
      let waited := wrapping_sub_u32 now (pa_waiting_since_us e) in
      let victim := if match victim with None => true | Some (_, longest) => longest <? waited end
                    then Some (i, waited) else victim in
      ack_victim (S i) t now victim
  end.

Definition next_generation (g : Z) : Z :=
  let g := as_u16 (g + 1) in if g =? 0 then 1 else g.

Definition register_ack_pending_inner (now aps_counter dst_addr : Z) (frame_bytes : list Z)
    (security : option PendingApsSecurity) (s : AckState) : AckState * option nat :=
  let generation := next_ack_generation s in
  let s := mk_AckState (ack_table s) (ack_completions s) (next_generation generation) (consecutive_ack_failures s) in
  let entry := pa_new generation aps_counter dst_addr now frame_bytes security in
  match position (λ e, negb (pa_active e)) (ack_table s) with
  | Some i => (set_ack_table (<[i := entry]> (ack_table s)) s, Some i)
  | None =>
      let idx := length (ack_table s) in
      match vec_push APS_ACK_TABLE_SIZE (ack_table s) entry with
      | Some t => (set_ack_table t s, Some idx)
      | None =>
          match ack_victim 0 (ack_table s) now None with
          | None => (s, None)
          | Some (idx, _) => (set_ack_table (<[idx := entry]> (ack_table s)) s, Some idx)
          end
      end
  end.

Definition register_ack_pending (now aps_counter dst_addr : Z) (frame_bytes : list Z) (s : AckState) :=
  register_ack_pending_inner now aps_counter dst_addr frame_bytes None s.
Definition register_secured_ack_pending (now aps_counter dst_addr : Z) (plaintext : list Z)
    (security : PendingApsSecurity) (s : AckState) :=
  register_ack_pending_inner now aps_counter dst_addr plaintext (Some security) s.

Definition clear_ack_failures (s : AckState) : AckState :=
  mk_AckState (ack_table s) (ack_completions s) (next_ack_generation s) 0.

Definition unicast_ack_pending (s : AckState) : bool :=
  existsb (λ e, pa_active e && negb (pa_confirmed e)) (ack_table s).

Definition pa_awaits (src_addr aps_counter : Z) (e : PendingApsAckEntry) : bool :=
  pa_active e && (pa_aps_counter e =? aps_counter) && (pa_dst_addr e =? src_addr) && negb (pa_confirmed e).

(** Remember a completion; the oldest gives way. *)
Definition push_completion {E} (handle : ApsAckHandle) (l : list ApsAckHandle) : outcome E (list ApsAckHandle) :=
  if bool_decide (handle ∈ l) then Ok l
  else
    let l := if (length l =? APS_ACK_TABLE_SIZE)%nat then vec_remove l 0 else l in
    match vec_push APS_ACK_TABLE_SIZE l handle with Some l => Ok l | None => Panic end.

Definition confirm_ack_with_security {E} (src_addr aps_counter : Z) (aps_secured_ack : bool) (s : AckState)
    : outcome E (AckState * bool) :=
  match position (pa_awaits src_addr aps_counter) (ack_table s) with
  | None => Ok (s, false)
  | Some i =>
      entry ← index (ack_table s) i;
      if bool_decide (is_Some (pa_security entry)) && negb aps_secured_ack then Ok (s, false)
      else
        let handle := mk_ApsAckHandle src_addr (pa_generation entry) aps_counter in
        l ← push_completion handle (ack_completions s);
        Ok (mk_AckState (<[i := pa_confirm entry]> (ack_table s)) l (next_ack_generation s) 0, true)
  end.

Definition confirm_ack {E} (src_addr aps_counter : Z) (s : AckState) : outcome E (AckState * bool) :=
  confirm_ack_with_security src_addr aps_counter false s.

Definition pa_handle (h : ApsAckHandle) (e : PendingApsAckEntry) : bool :=
  pa_active e && (pa_generation e =? ak_generation h) && (pa_aps_counter e =? ak_aps_counter h)
  && (pa_dst_addr e =? ak_dst_addr h).

Definition ack_status (s : AckState) (h : ApsAckHandle) : option ApsAckStatus :=
  if bool_decide (h ∈ ack_completions s) then Some AckConfirmed
  else (λ e, if pa_confirmed e then AckConfirmed else AckPending) <$> List.find (pa_handle h) (ack_table s).

Definition clear_ack_status (h : ApsAckHandle) (s : AckState) : AckState :=
  let l := match position (λ c, bool_decide (c = h)) (ack_completions s) with
           | Some i => swap_remove (ack_completions s) i
           | None => ack_completions s
           end in
  mk_AckState (modify_first (pa_handle h) pa_release (ack_table s)) l (next_ack_generation s)
    (consecutive_ack_failures s).

Definition cancel_all_ack_tracking (s : AckState) : AckState :=
  mk_AckState (pa_release <$> ack_table s) [] (next_ack_generation s) (consecutive_ack_failures s).

Definition take_ack_status (aps_counter : Z) (s : AckState) : AckState * option bool :=
  match position (λ e, pa_active e && (pa_aps_counter e =? aps_counter)) (ack_table s) with
  | Some i =>
      (set_ack_table (alter pa_deactivate i (ack_table s)) s, pa_confirmed <$> (ack_table s !! i))
  | None => (s, None)
  end.

(** * Aging *)

(** What a maintenance call does to one entry. *)
Inductive ack_action := AgeKeep | AgeRelease | AgeTimeout | AgeRetry.

Definition age_action (now : Z) (e : PendingApsAckEntry) : ack_action :=
  if negb (pa_active e) then AgeKeep
  else if pa_confirmed e then AgeRelease
  else if wrapping_sub_u32 now (pa_waiting_since_us e) <? APS_ACK_WAIT_DURATION_US then AgeKeep
  else if pa_retries e =? 0 then AgeTimeout
  else AgeRetry.

(** First pass: the table, the indices due and the failure count. *)
Fixpoint age_entries {E} (now : Z) (i : nat) (t : list PendingApsAckEntry) (due : list nat) (failures : Z)
    : outcome E (list PendingApsAckEntry * list nat * Z) :=
  match t with
  | [] => Ok ([], due, failures)
  | e :: t =>
      '(e, due, failures) ←
        (match age_action now e with
         | AgeKeep => Ok (e, due, failures)
         | AgeRelease => Ok (pa_release e, due, failures)
         | AgeTimeout => Ok (pa_release e, due, saturating_add_u8 failures 1)
         | AgeRetry =>
             let e := pa_retry now e in
             if negb (length (pa_original_frame e) =? 0)%nat then
               match vec_push APS_ACK_TABLE_SIZE due i with
               | Some due => Ok (e, due, failures)
               | None => Panic
               end
             else Ok (e, due, failures)
         end : outcome E (PendingApsAckEntry * list nat * Z));
      '(t, due, failures) ← age_entries now (S i) t due failures;
      Ok (e :: t, due, failures)
  end.

(** * Securing with the key of an origin *)
Record OutgoingApsSecurity := mk_OutgoingApsSecurity {
  os_key : AesKey; os_frame_counter : Z; os_origin : ApsKeyOrigin }.

(** The parts of the layer that securing a frame changes: the key table, the
    information base with the counter of the global keys, and the MAC that
    provides AES. *)
Record TxSecurity (P : Type) := mk_TxSecurity {
  tx_security : ApsSecurity; tx_nib : Nib; tx_mac : P }.
Arguments mk_TxSecurity {P}.
Arguments tx_security {P}.
Arguments tx_nib {P}.
Arguments tx_mac {P}.

Definition aps_data_key_origin (s : ApsSecurity) (tc_address : IeeeAddress)
    (destination : option IeeeAddress) (nwk_destination : ShortAddress) : option ApsKeyOrigin :=
  let trust_center := centralized_trust_center tc_address in
  let destination :=
    match destination with
    | Some a => Some a
    | None => if nwk_destination =? COORDINATOR then trust_center else None
    end in
  let fallback :=
    if bool_decide (is_Some trust_center) && bool_decide (destination = trust_center)
    then Some KoPreconfiguredGlobal else None in
  match destination with
  | Some d =>
      match find_any_key s d with
      | Some entry =>
          let key := lk_key entry in
          Some (if bool_decide (key = default_tc_link_key s) then KoPreconfiguredGlobal
                else if bool_decide (distributed_security_link_key s = Some key) then KoDistributedGlobal
                else KoKeyPair d (lk_key_type entry))
      | None => fallback
      end
  | None => fallback
  end.

Section Tx.
Context {P C E : Type} `{ForwardAesProvider P C E}.

Definition next_default_tc_link_key_frame_counter (x : TxSecurity P)
    : outcome Empty_set (TxSecurity P * option Z) :=
  match NwkNib.next_frame_counter (tx_nib x) with
  | Ok (fc, nib) => Ok (mk_TxSecurity (tx_security x) nib (tx_mac x), Some fc)
  | Err _ => Ok (x, None)
  | Panic => Panic
  end.

Definition next_frame_counter_for (origin : ApsKeyOrigin) (x : TxSecurity P)
    : outcome Empty_set (TxSecurity P * option Z) :=
  match origin with
  | KoKeyPair partner key_type =>
      '(s, r) ← ApsSecurity.next_frame_counter partner key_type (tx_security x);
      Ok (mk_TxSecurity s (tx_nib x) (tx_mac x), r)
  | KoPreconfiguredGlobal | KoDistributedGlobal => next_default_tc_link_key_frame_counter x
  end.

Definition next_aps_link_key_material (tc_address : IeeeAddress) (destination : option IeeeAddress)
    (nwk_destination : ShortAddress) (x : TxSecurity P)
    : outcome Empty_set (TxSecurity P * option OutgoingApsSecurity) :=
  match aps_data_key_origin (tx_security x) tc_address destination nwk_destination with
  | None => Ok (x, None)
  | Some origin =>
      match key_for_origin (tx_security x) origin with
      | None => Ok (x, None)
      | Some key =>
          '(x, fc) ← next_frame_counter_for origin x;
          Ok (x, option_map (λ fc, mk_OutgoingApsSecurity key fc origin) fc)
      end
  end.

Definition next_key_pair_material (partner : IeeeAddress) (key_type : ApsKeyType) (x : TxSecurity P)
    : outcome Empty_set (TxSecurity P * option OutgoingApsSecurity) :=
  match find_key (tx_security x) partner key_type with
  | None => Ok (x, None)
  | Some entry =>
      let key := lk_key entry in
      if bool_decide (key = default_tc_link_key (tx_security x)) then
        '(x, fc) ← next_default_tc_link_key_frame_counter x;
        Ok (x, option_map (λ fc, mk_OutgoingApsSecurity key fc KoPreconfiguredGlobal) fc)
      else if bool_decide (distributed_security_link_key (tx_security x) = Some key) then
        '(x, fc) ← next_default_tc_link_key_frame_counter x;
        Ok (x, option_map (λ fc, mk_OutgoingApsSecurity key fc KoDistributedGlobal) fc)
      else
        '(s, fc) ← ApsSecurity.next_frame_counter partner key_type (tx_security x);
        Ok (mk_TxSecurity s (tx_nib x) (tx_mac x),
            option_map (λ fc, mk_OutgoingApsSecurity key fc (KoKeyPair partner key_type)) fc)
  end.

Definition secure_with_origin (origin : ApsKeyOrigin) (src_ieee : IeeeAddress) (header payload : list Z)
    (x : TxSecurity P) : outcome Empty_set (TxSecurity P * option (list Z)) :=
  match key_for_origin (tx_security x) origin with
  | None => Ok (x, None)
  | Some key =>
      '(x, fc) ← next_frame_counter_for origin x;
      match fc with
      | None => Ok (x, None)
      | Some frame_counter =>
          let sec_hdr := mk_ApsSecurityHeader APS_DEFAULT_EXT_NONCE frame_counter (Some src_ieee) None in
          '(frame, p) ← assemble_secured_frame (tx_mac x) header payload key sec_hdr;
          Ok (mk_TxSecurity (tx_security x) (tx_nib x) p, frame)
      end
  end.

Definition resecure_retransmission (security : PendingApsSecurity) (plaintext_frame : list Z) (x : TxSecurity P)
    : outcome Empty_set (TxSecurity P * option (list Z)) :=
  let header_len := Z.to_nat (ps_header_len security) in
  if (length plaintext_frame <? header_len)%nat then Ok (x, None)
  else
    secure_with_origin (ps_origin security) (ps_src_ieee security) (take header_len plaintext_frame)
      (drop header_len plaintext_frame) x.

Record ApsRetransmission := mk_ApsRetransmission { rt_dst_addr : Z; rt_frame : list Z }.

Definition push_retransmission (r : ApsRetransmission) (l : list ApsRetransmission)
    : outcome Empty_set (list ApsRetransmission) :=
  match vec_push APS_ACK_TABLE_SIZE l r with Some l => Ok l | None => Panic end.

(** Second pass of [age_ack_table]: the frames of the due indices. *)
Fixpoint build_retransmissions (due : list nat) (t : list PendingApsAckEntry) (x : TxSecurity P)
    (retransmit : list ApsRetransmission)
    : outcome Empty_set (list PendingApsAckEntry * TxSecurity P * list ApsRetransmission) :=
  match due with
  | [] => Ok (t, x, retransmit)
  | i :: due =>
      entry ← index t i;
      match pa_security entry with
      | None =>
          retransmit ← push_retransmission (mk_ApsRetransmission (pa_dst_addr entry) (pa_original_frame entry)) retransmit;
          build_retransmissions due t x retransmit
      | Some security =>
          '(x, frame) ← resecure_retransmission security (pa_original_frame entry) x;
          match frame with
          | Some frame =>
              retransmit ← push_retransmission (mk_ApsRetransmission (pa_dst_addr entry) frame) retransmit;
              build_retransmissions due t x retransmit
          | None => build_retransmissions due (<[i := pa_release entry]> t) x retransmit
          end
      end
  end.

(** The unicast half of [age_ack_table]. *)
Definition age_unicasts (now : Z) (s : AckState) (x : TxSecurity P)
    : outcome Empty_set (AckState * TxSecurity P * list ApsRetransmission) :=
  '(t, due, failures) ← age_entries now 0 (ack_table s) [] (consecutive_ack_failures s);
  '(t, x, retransmit) ← build_retransmissions due t x [];
  Ok (mk_AckState t (ack_completions s) (next_ack_generation s) failures, x, retransmit).
End Tx.

(** * Duplicate rejection: the slot that is reused *)
Definition dup_waited (now : Z) (e : ApsDuplicateEntry) : Z := wrapping_sub_u32 now (dup_accepted_at_us e).

Lemma record_slot_spec t now timeout i best :
  (∃ j e, t !! j = Some e ∧ dup_entry_live e now timeout = false ∧
     record_slot i t now timeout best = Some ((i + j)%nat, U32_MAX)) ∨
  (∀ e, e ∈ t → dup_entry_live e now timeout = true) ∧
  match record_slot i t now timeout best with
  | None => t = [] ∧ best = None
  | Some (idx, w) =>
      (best = Some (idx, w) ∨ ∃ j e, idx = (i + j)%nat ∧ t !! j = Some e ∧ w = dup_waited now e) ∧
      (∀ e, e ∈ t → dup_waited now e <= w) ∧ (∀ b wb, best = Some (b, wb) → wb <= w)
  end.
Proof.
  revert i best. induction t as [|e t IH]; intros i best; simpl.
  { right. split; [by intros e ?%elem_of_nil|]. destruct best as [[b wb]|]; [|done].
    split_and!; [by left|by intros e ?%elem_of_nil|]. intros ? ? [= -> ->]. lia. }
  destruct (dup_entry_live e now timeout) eqn:Hl; simpl.
  2:{ left. exists 0%nat, e. split_and!; [done|done|]. by rewrite Nat.add_0_r. }
  fold (dup_waited now e). set (best' := if match best with None => true | Some (_, oldest) => _ end then _ else best).
  assert (∃ b wb, best' = Some (b, wb) ∧ dup_waited now e <= wb ∧
    (best = Some (b, wb) ∨ (b = i ∧ wb = dup_waited now e)) ∧ ∀ b0 wb0, best = Some (b0, wb0) → wb0 <= wb) as Hb.
  { unfold best'. destruct best as [[b wb]|]; [destruct (Z.leb_spec wb (dup_waited now e))|].
    - exists i, (dup_waited now e). split_and!; [done|lia|by right|]. intros ? ? [= <- <-]. done.
    - exists b, wb. split_and!; [done|lia|by left|]. intros ? ? [= <- <-]. lia.
    - exists i, (dup_waited now e). split_and!; [done|lia|by right|done]. }
  destruct Hb as (b & wb & Hb & Hle & Hor & Hold).
  destruct (IH (S i) best') as [(j & x & Hx & Hnl & Hr)|[Hlive Hr]].
  - left. exists (S j), x. split_and!; [done|done|]. rewrite Hr. do 2 f_equal. lia.
  - right. split; [intros x [->|Hx]%elem_of_cons; auto|].
    destruct (record_slot (S i) t now timeout best') as [[idx w]|]; [|destruct Hr; congruence].
    destruct Hr as (Hwho & Hmax & Hmono). specialize (Hmono b wb Hb). split_and!.
    + destruct Hwho as [Hwho|(j & x & -> & Hx & ->)].
      * rewrite Hb in Hwho. injection Hwho as -> ->. destruct Hor as [?|[-> ->]]; [by left|].
        right. exists 0%nat, e. by rewrite Nat.add_0_r.
      * right. exists (S j), x. split_and!; [lia|done|done].
    + intros x [->|Hx]%elem_of_cons; [lia|auto].
    + intros b0 wb0 Hb0. specialize (Hold b0 wb0 Hb0). lia.
Qed.

Lemma wrapping_sub_self now : wrapping_sub_u32 now now = 0.
Proof. unfold wrapping_sub_u32. by rewrite Z.sub_diag. Qed.

Lemma recorded_is_duplicate t idx src c now now' timeout :
  (idx < length t)%nat → wrapping_sub_u32 now' now < timeout →
  let t' := <[idx := mk_ApsDuplicateEntry src c None now true]> t in
  is_aps_duplicate t' now' timeout src c = (t', true).
Proof.
  intros Hi Hn t'. unfold is_aps_duplicate, find_duplicate.
  destruct (position (dup_matches now' timeout src c false) t') eqn:Hp; [done|]. exfalso.
  rewrite position_None in Hp. specialize (Hp (mk_ApsDuplicateEntry src c None now true)).
  unfold dup_matches, dup_entry_live in Hp. simpl in Hp. rewrite (proj2 (Z.ltb_lt _ _) Hn), !Z.eqb_refl in Hp.
  by discriminate Hp; eapply list_elem_of_lookup_2, list_lookup_insert_eq.
Qed.

(** A frame is recorded in some slot of the table. *)
Lemma record_duplicate_slot t now timeout src c :
  t ≠ [] → ∃ idx, (idx < length t)%nat ∧
    record_duplicate t now timeout src c None = <[idx := mk_ApsDuplicateEntry src c None now true]> t.
Proof.
  intros Hne. unfold record_duplicate.
  destruct (record_slot_spec t now timeout 0 None) as [(j & old & Ho & _ & ->)|[_ Hr]].
  - exists j. split; [by eapply lookup_lt_Some|done].
  - destruct (record_slot 0 t now timeout None) as [[idx w]|]; [|by destruct Hr as [-> _]].
    destruct Hr as ([?|(j & old & -> & Ho & _)] & _); [done|]. exists j. split; [by eapply lookup_lt_Some|done].
Qed.

Lemma record_duplicate_rejects t now timeout src c now' :
  t ≠ [] → wrapping_sub_u32 now' now < timeout →
  let t' := record_duplicate t now timeout src c None in
  is_aps_duplicate t' now' timeout src c = (t', true).
Proof.
  intros Hne Hn. destruct (record_duplicate_slot t now timeout src c Hne) as (idx & Hi & ->).
  by apply recorded_is_duplicate.
Qed.

(** Duplicate rejection: a frame is rejected exactly when the table holds
    a live entry of the same sender and counter for unfragmented traffic, and
    then nothing changes.  Otherwise it is recorded in a slot that had
    expired, or, with every slot live, in one that has waited longest; and for
    the whole rejection timeout from then on, however often the clock wraps,
    the same frame is rejected. *)
Theorem duplicate_rejection_spec (t : list ApsDuplicateEntry) (now timeout src c : Z) :
  length t = APS_DUP_TABLE_SIZE →
  let '(t', duplicate) := is_aps_duplicate t now timeout src c in
  (duplicate = true ↔ ∃ e, e ∈ t ∧ dup_matches now timeout src c false e = true) ∧
  if duplicate then t' = t
  else ∃ idx old,
    t !! idx = Some old ∧ t' = <[idx := mk_ApsDuplicateEntry src c None now true]> t ∧
    (dup_entry_live old now timeout = true →
       ∀ e, e ∈ t → dup_entry_live e now timeout = true ∧ dup_waited now e <= dup_waited now old) ∧
    (∀ now', wrapping_sub_u32 now' now < timeout → is_aps_duplicate t' now' timeout src c = (t', true)).
Proof.
  intros Hlen. unfold is_aps_duplicate. unfold find_duplicate at 1.
  destruct (position (dup_matches now timeout src c false) t) as [i|] eqn:Hp.
  - split; [|done]. split; [intros _|done]. apply position_Some in Hp as (e & He & Hm & _).
    exists e. split; [by eapply list_elem_of_lookup_2|done].
  - rewrite position_None in Hp. split.
    { split; [done|]. intros (e & He & Hm). by rewrite Hp in Hm. }
    unfold record_duplicate.
    destruct (record_slot_spec t now timeout 0 None) as [(j & old & Ho & Hnl & ->)|[Hlive Hr]].
    + exists j, old. split_and!; [done|done|congruence|]. intros now' Hn'.
      apply recorded_is_duplicate; [by eapply lookup_lt_Some|done].
    + destruct (record_slot 0 t now timeout None) as [[idx w]|]; [|destruct Hr as [-> _]; done].
      destruct Hr as ([?|(j & old & -> & Ho & ->)] & Hmax & _); [done|]. exists j, old.
      split_and!; [done|done|auto|]. intros now' Hn'. apply recorded_is_duplicate; [by eapply lookup_lt_Some|done].
Qed.

Lemma duplicate_rejection_spec_witness :
  let '(t', duplicate) := is_aps_duplicate dup_table_new 10 3000000 291 7 in
  duplicate = false ∧ ∀ now', wrapping_sub_u32 now' 10 < 3000000 → is_aps_duplicate t' now' 3000000 291 7 = (t', true).
Proof.
  pose proof (duplicate_rejection_spec dup_table_new 10 3000000 291 7 eq_refl) as H.
  destruct (is_aps_duplicate dup_table_new 10 3000000 291 7) as [t' d] eqn:Hd. vm_compute in Hd. injection Hd as <- <-.
  destruct H as [_ (idx & old & _ & _ & _ & H)]. split; [reflexivity|exact H].
Defined.

(** * Aborting a durable commit *)
Lemma dup_deactivate_matches q t now timeout src c f :
  (∀ e, dup_matches now timeout src c f e = true → q e = true) →
  find_duplicate (dup_deactivate q t) now timeout src c f = None.
Proof.
  intros Hq. apply position_None. intros e (x & -> & Hx)%list_elem_of_fmap.
  destruct (dup_active x && q x) eqn:Ha.
  - unfold dup_matches, dup_entry_live. done.
  - apply not_true_iff_false. intros Hm. rewrite (Hq x Hm), andb_true_r in Ha.
    unfold dup_matches, dup_entry_live in Hm. rewrite Ha in Hm. done.
Qed.

(** When the durable commit of a frame is abandoned, everything its
    reception recorded is undone: the deferred floor is dropped without being
    committed, and the sender's retransmission is not taken for a duplicate,
    whether the frame was a whole one or the block of a fragmented
    transaction; for such a block the reassembly table keeps its invariant.
    Completing the commit keeps the record and moves the floor. *)
Theorem aborted_frame_accepted_again (r : ApsRx) (now timeout src c block : Z) :
  fr_inv None (rx_fragment_rx r) → is_u8 block →
  (rx_pending_rollback r = Some (RbDuplicate src c) →
     ∃ r', abort_data_persistence (E:=unit) r = Ok r' ∧ rx_security r' = rx_security r ∧
       rx_pending_data_replay r' = None ∧ rx_fragment_rx r' = rx_fragment_rx r ∧
       (is_aps_duplicate (rx_dup_table r') now timeout src c).2 = false) ∧
  (rx_pending_rollback r = Some (RbFragmentBlock src c block) →
     ∃ r', abort_data_persistence (E:=unit) r = Ok r' ∧ rx_security r' = rx_security r ∧
       rx_pending_data_replay r' = None ∧ fr_inv None (rx_fragment_rx r') ∧
       find_duplicate (rx_dup_table r') now timeout src c true = None) ∧
  rx_dup_table (complete_data_persistence r) = rx_dup_table r ∧
  (∀ replay, rx_pending_data_replay r = Some replay →
     rx_security (complete_data_persistence r) = commit_replay_counter replay (rx_security r)).
Proof.
  intros Hf Hb. split_and!.
  - intros Hr. unfold abort_data_persistence. rewrite Hr. eexists. split; [done|]. split_and!; try done. simpl.
    unfold is_aps_duplicate. rewrite dup_deactivate_matches; [done|]. intros e. unfold dup_matches.
    rewrite !andb_true_iff. tauto.
  - intros Hr. unfold abort_data_persistence. rewrite Hr.
    destruct (rollback_block_inv (E:=unit) None (rx_fragment_rx r) src c block Hf Hb) as (f & -> & Hf').
    cbn [mbind outcome_bind]. eexists. split; [done|]. split_and!; try done. simpl.
    apply dup_deactivate_matches. intros e. unfold dup_matches. rewrite !andb_true_iff, Bool.eqb_true_iff. tauto.
  - done.
  - intros replay Hr. unfold complete_data_persistence. by rewrite Hr.
Qed.

Lemma aborted_frame_accepted_again_witness :
  let r := mk_ApsRx (is_aps_duplicate dup_table_new 10 3000000 291 7).1 fr_new asec_new None (Some (RbDuplicate 291 7)) in
  ∃ r', abort_data_persistence (E:=unit) r = Ok r' ∧ (is_aps_duplicate (rx_dup_table r') 20 3000000 291 7).2 = false.
Proof.
  intros r. destruct (aborted_frame_accepted_again r 20 3000000 291 7 0 (fr_inv_new None) ltac:(done)) as [H _].
  destruct (H eq_refl) as (r' & H1 & _ & _ & _ & H2). exists r'. split; [exact H1|exact H2].
Defined.

(** * Registering a unicast *)
Definition pa_waited (now : Z) (e : PendingApsAckEntry) : Z := wrapping_sub_u32 now (pa_waiting_since_us e).

Lemma ack_victim_spec t now i victim :
  match ack_victim i t now victim with
  | None => t = [] ∧ victim = None
  | Some (idx, w) =>
      (victim = Some (idx, w) ∨ ∃ j e, idx = (i + j)%nat ∧ t !! j = Some e ∧ w = pa_waited now e) ∧
      (∀ e, e ∈ t → pa_waited now e <= w) ∧ (∀ b wb, victim = Some (b, wb) → wb <= w)
  end.
Proof.
  revert i victim. induction t as [|e t IH]; intros i victim; simpl.
  { destruct victim as [[b wb]|]; [|done]. split_and!; [by left|by intros e ?%elem_of_nil|]. intros ? ? [= -> ->]. lia. }
  fold (pa_waited now e). set (v := if match victim with None => true | Some (_, longest) => _ end then _ else victim).
  assert (∃ b wb, v = Some (b, wb) ∧ pa_waited now e <= wb ∧
    (victim = Some (b, wb) ∨ (b = i ∧ wb = pa_waited now e)) ∧ ∀ b0 wb0, victim = Some (b0, wb0) → wb0 <= wb) as Hv.
  { unfold v. destruct victim as [[b wb]|]; [destruct (Z.ltb_spec wb (pa_waited now e))|].
    - exists i, (pa_waited now e). split_and!; [done|lia|by right|]. intros ? ? [= <- <-]. lia.
    - exists b, wb. split_and!; [done|lia|by left|]. intros ? ? [= <- <-]. lia.
    - exists i, (pa_waited now e). split_and!; [done|lia|by right|done]. }
  destruct Hv as (b & wb & Hv & Hle & Hor & Hold). specialize (IH (S i) v).
  destruct (ack_victim (S i) t now v) as [[idx w]|]; [|destruct IH; congruence].
  destruct IH as (Hwho & Hmax & Hmono). specialize (Hmono b wb Hv). split_and!.
  - destruct Hwho as [Hwho|(j & x & -> & Hx & ->)].
    + rewrite Hv in Hwho. injection Hwho as -> ->. destruct Hor as [?|[-> ->]]; [by left|].
      right. exists 0%nat, e. by rewrite Nat.add_0_r.
    + right. exists (S j), x. split_and!; [lia|done|done].
  - intros x [->|Hx]%elem_of_cons; [lia|auto].
  - intros b0 wb0 Hb0. specialize (Hold b0 wb0 Hb0). lia.
Qed.

Record ack_wf (s : AckState) : Prop := {
  ack_wf_table : (length (ack_table s) <= APS_ACK_TABLE_SIZE)%nat;
  ack_wf_completions : (length (ack_completions s) <= APS_ACK_TABLE_SIZE)%nat;
  ack_wf_generation : 1 <= next_ack_generation s < 65536;
  ack_wf_failures : is_u8 (consecutive_ack_failures s) }.

Lemma ack_new_wf : ack_wf ack_new.
Proof. split; simpl; unfold APS_ACK_TABLE_SIZE; (lia || done). Qed.

Lemma next_generation_range g : 1 <= g < 65536 → 1 <= next_generation g < 65536.
Proof.
  intros Hg. unfold next_generation, as_u16. pose proof (Z.mod_pos_bound (g + 1) 65536 ltac:(lia)).
  case_match; bool_simpl; lia.
Qed.

(** Registering an acknowledged unicast always succeeds: the new entry,
    with three retries and the next non-zero generation, takes a free slot,
    grows the table, or, with eight transmissions in flight, replaces one
    that has waited longest; no other entry and no completion changes. *)
Lemma register_ack_spec (now c dst : Z) (frame : list Z) (sec : option PendingApsSecurity) (s : AckState) :
  ack_wf s →
  ∃ idx, let '(s', r) := register_ack_pending_inner now c dst frame sec s in
    r = Some idx ∧ ack_wf s' ∧ ack_completions s' = ack_completions s ∧
    consecutive_ack_failures s' = consecutive_ack_failures s ∧
    ack_table s' !! idx = Some (pa_new (next_ack_generation s) c dst now frame sec) ∧
    (∀ j, j ≠ idx → ack_table s' !! j = ack_table s !! j) ∧
    (∀ old, ack_table s !! idx = Some old → pa_active old = true →
       length (ack_table s) = APS_ACK_TABLE_SIZE ∧
       ∀ e, e ∈ ack_table s → pa_active e = true ∧ pa_waited now e <= pa_waited now old).
Proof.
  intros [Ht Hc Hg Hf]. pose proof (next_generation_range _ Hg) as Hg'.
  assert (∀ t, (length t <= APS_ACK_TABLE_SIZE)%nat → ack_wf (mk_AckState t (ack_completions s)
    (next_generation (next_ack_generation s)) (consecutive_ack_failures s))) as Hwf by (by intros; split).
  unfold register_ack_pending_inner. cbn [ack_table ack_completions next_ack_generation consecutive_ack_failures].
  destruct (position (λ e, negb (pa_active e)) (ack_table s)) as [i|] eqn:Hp.
  - apply position_Some in Hp as (e & He & Hna & _). pose proof (lookup_lt_Some _ _ _ He) as Hi. exists i.
    split_and!; [done|apply Hwf; by rewrite length_insert|done|done|by apply list_lookup_insert_eq| |].
    + intros j Hj. by apply list_lookup_insert_ne.
    + intros old Ho Ha. simplify_eq. by rewrite Ha in Hna.
  - rewrite position_None in Hp.
    assert (∀ e, e ∈ ack_table s → pa_active e = true) as Hact.
    { intros e He. specialize (Hp e He). by apply negb_false_iff in Hp. }
    unfold vec_push. destruct (Nat.ltb_spec (length (ack_table s)) APS_ACK_TABLE_SIZE) as [Hlt|Hge].
    + exists (length (ack_table s)). split_and!; [done|apply Hwf; rewrite length_app; simpl; lia|done|done| | |].
      * simpl. by rewrite lookup_app_r, Nat.sub_diag by lia.
      * intros j Hj. simpl. destruct (decide (j < length (ack_table s))%nat); [by rewrite lookup_app_l|].
        rewrite lookup_app_r by lia. rewrite (lookup_ge_None_2 (ack_table s)) by lia.
        apply lookup_ge_None_2. simpl. lia.
      * intros old Ho. apply lookup_lt_Some in Ho. lia.
    + pose proof (ack_victim_spec (ack_table s) now 0 None) as Hv.
      destruct (ack_victim 0 (ack_table s) now None) as [[idx w]|].
      2:{ destruct Hv as [Hv _]. rewrite Hv in Hge. unfold APS_ACK_TABLE_SIZE in Hge. simpl in Hge. lia. }
      destruct Hv as ([?|(j & e & -> & He & ->)] & Hmax & _); [done|]. pose proof (lookup_lt_Some _ _ _ He) as Hj.
      exists j. split_and!; [done|apply Hwf; by rewrite length_insert|done|done|by apply list_lookup_insert_eq| |].
      * intros j' Hj'. by apply list_lookup_insert_ne.
      * intros old Ho _. simpl in Ho. simplify_eq. split; [lia|]. auto.
Qed.

(** * Aging, entry by entry *)
Definition age_entry (now : Z) (e : PendingApsAckEntry) : PendingApsAckEntry :=
  match age_action now e with
  | AgeKeep => e
  | AgeRelease | AgeTimeout => pa_release e
  | AgeRetry => pa_retry now e
  end.

Definition age_due (now : Z) (e : PendingApsAckEntry) : bool :=
  match age_action now e with AgeRetry => negb (length (pa_original_frame e) =? 0)%nat | _ => false end.

Definition age_failed (now : Z) (e : PendingApsAckEntry) : bool :=
  match age_action now e with AgeTimeout => true | _ => false end.

Fixpoint due_indices (now : Z) (i : nat) (t : list PendingApsAckEntry) : list nat :=
  match t with
  | [] => []
  | e :: t => (if age_due now e then [i] else []) ++ due_indices now (S i) t
  end.

Lemma length_due_indices now i t : (length (due_indices now i t) <= length t)%nat.
Proof. revert i. induction t as [|e t IH]; intros i; simpl; [done|]. specialize (IH (S i)). case_match; simpl; lia. Qed.

Lemma elem_of_due_indices now i t j :
  j ∈ due_indices now i t ↔ ∃ k e, j = (i + k)%nat ∧ t !! k = Some e ∧ age_due now e = true.
Proof.
  revert i. induction t as [|e t IH]; intros i; simpl.
  { split; [by intros ?%elem_of_nil|]. by intros (k & x & _ & ? & _). }
  rewrite elem_of_app, IH. split.
  - intros [Hj|(k & x & -> & Hx & Hd)].
    + case_match; [|by apply elem_of_nil in Hj]. apply list_elem_of_singleton in Hj as ->.
      exists 0%nat, e. by rewrite Nat.add_0_r.
    + exists (S k), x. split_and!; [lia|done|done].
  - intros ([|k] & x & -> & Hx & Hd); simpl in Hx.
    + left. injection Hx as ->. rewrite Hd, Nat.add_0_r. by left.
    + right. exists k, x. split_and!; [lia|done|done].
Qed.

Fixpoint add_failures (now : Z) (t : list PendingApsAckEntry) (f : Z) : Z :=
  match t with
  | [] => f
  | e :: t => add_failures now t (if age_failed now e then saturating_add_u8 f 1 else f)
  end.

Lemma age_entries_eq {E} now i t due f :
  (length due + length t <= APS_ACK_TABLE_SIZE)%nat →
  age_entries (E:=E) now i t due f =
  Ok (age_entry now <$> t, due ++ due_indices now i t, add_failures now t f).
Proof.
  revert i due f. induction t as [|e t IH]; intros i due f Hl; simpl in *; [by rewrite app_nil_r|].
  unfold age_due, age_failed, age_entry at 1. destruct (age_action now e); cbn [mbind outcome_bind].
  - rewrite IH by lia. done.
  - rewrite IH by lia. done.
  - rewrite IH by lia. done.
  - change (pa_original_frame (pa_retry now e)) with (pa_original_frame e).
    destruct (negb _); cbn [mbind outcome_bind].
    + unfold vec_push. rewrite (proj2 (Nat.ltb_lt _ _)) by lia. cbn [mbind outcome_bind].
      rewrite IH by (rewrite length_app; simpl; lia). rewrite <- app_assoc. done.
    + rewrite IH by lia. done.
Qed.

(** A series of maintenance calls: the table and the indices due in each. *)
Fixpoint age_times {E} (nows : list Z) (t : list PendingApsAckEntry) (f : Z)
    : outcome E (list PendingApsAckEntry * list (list nat) * Z) :=
  match nows with
  | [] => Ok (t, [], f)
  | now :: nows =>
      '(t, due, f) ← age_entries now 0 t [] f;
      '(t, dues, f) ← age_times nows t f;
      Ok (t, due :: dues, f)
  end.

(** How often the entry is handed out for retransmission. *)
Definition handed_out (i : nat) (dues : list (list nat)) : nat := count (λ due, bool_decide (i ∈ due)) dues.

(** Every call comes at least one acknowledgement window after the one
    before. *)
Fixpoint spaced (last : Z) (nows : list Z) : Prop :=
  match nows with
  | [] => True
  | now :: nows => APS_ACK_WAIT_DURATION_US <= wrapping_sub_u32 now last ∧ spaced now nows
  end.

Lemma age_inactive now e : pa_active e = false → age_entry now e = e ∧ age_due now e = false.
Proof. intros Ha. unfold age_entry, age_due, age_action. by rewrite Ha. Qed.

Lemma age_step now e :
  0 <= pa_retries e →
  0 <= pa_retries (age_entry now e) ∧
  (if age_due now e then pa_retries (age_entry now e) = pa_retries e - 1 ∧ 1 <= pa_retries e
   else pa_retries (age_entry now e) <= pa_retries e).
Proof.
  intros Hr. unfold age_entry, age_due, age_action.
  destruct (pa_active e); simpl; [|lia]. destruct (pa_confirmed e); simpl; [lia|].
  destruct (wrapping_sub_u32 now (pa_waiting_since_us e) <? APS_ACK_WAIT_DURATION_US); simpl; [lia|].
  destruct (Z.eqb_spec (pa_retries e) 0); simpl; [lia|]. unfold saturating_sub. destruct (negb _); lia.
Qed.

Lemma age_progress now e :
  pa_active e = true → pa_confirmed e = false → 0 <= pa_retries e →
  APS_ACK_WAIT_DURATION_US <= wrapping_sub_u32 now (pa_waiting_since_us e) →
  if pa_retries e =? 0 then pa_active (age_entry now e) = false
  else age_entry now e = pa_retry now e ∧ pa_retries (pa_retry now e) = pa_retries e - 1.
Proof.
  intros Ha Hc Hr Hw. unfold age_entry, age_action. rewrite Ha, Hc, (proj2 (Z.ltb_ge _ _) Hw). simpl.
  destruct (Z.eqb_spec (pa_retries e) 0); [done|]. split; [done|]. simpl. unfold saturating_sub. lia.
Qed.

Lemma age_times_spec {E} nows t f i e :
  (length t <= APS_ACK_TABLE_SIZE)%nat → t !! i = Some e → 0 <= pa_retries e →
  ∃ t' dues f', age_times (E:=E) nows t f = Ok (t', dues, f') ∧ length t' = length t ∧
    (handed_out i dues <= Z.to_nat (pa_retries e))%nat ∧
    (pa_active e = false → t' !! i = Some e ∧ handed_out i dues = 0%nat) ∧
    (pa_active e = true → pa_confirmed e = false → spaced (pa_waiting_since_us e) nows →
       (Z.to_nat (pa_retries e) < length nows)%nat → ∃ e', t' !! i = Some e' ∧ pa_active e' = false).
Proof.
  revert t f e. induction nows as [|now nows IH]; intros t f e Hl He Hr; simpl.
  { eexists _, _, _. split; [done|]. split_and!; [done|unfold handed_out; simpl; lia|done|]. intros. lia. }
  rewrite age_entries_eq by (simpl; lia). cbn [mbind outcome_bind app].
  destruct (age_step now e Hr) as [Hr' Hstep].
  destruct (IH (age_entry now <$> t) (add_failures now t f) (age_entry now e)) as (t' & dues & f' & -> & Hl' & Hh & Hina & Hact).
  { by rewrite length_fmap. } { by rewrite list_lookup_fmap, He. } { done. }
  cbn [mbind outcome_bind]. eexists _, _, _. split; [done|]. rewrite length_fmap in Hl'. split; [done|].
  assert (bool_decide (i ∈ due_indices now 0 t) = age_due now e) as Hdue.
  { apply eq_true_iff_eq. rewrite bool_decide_eq_true, elem_of_due_indices. split.
    - intros (k & x & -> & Hx & Hd). simpl in *. by simplify_eq.
    - intros Hd. by exists i, e. }
  unfold handed_out in *. cbn [count]. rewrite Hdue. split_and!.
  - destruct (age_due now e); [|lia]. lia.
  - intros Ha. destruct (age_inactive now e Ha) as [Hi Hd]. rewrite Hi in Hina. rewrite Hd. by apply Hina.
  - intros Ha Hc [Hw Hsp] Hlen. pose proof (age_progress now e Ha Hc Hr Hw) as Hp.
    destruct (Z.eqb_spec (pa_retries e) 0) as [H0|H0].
    + destruct (Hina Hp) as [? _]. by eexists.
    + destruct Hp as [Hp Hpr]. rewrite Hp in *. apply Hact; [done|done|done|]. rewrite Hpr. lia.
Qed.

(** Retries are bounded: whatever the calls to maintenance, an entry is
    handed out for retransmission at most as often as it has retries left, and
    an acknowledged one is never touched again; and if calls keep coming an
    acknowledgement window apart, an unacknowledged entry is released after
    one call more than its retries.  Maintenance never panics. *)
Theorem ack_retries_bounded (nows : list Z) (s : AckState) (i : nat) (e : PendingApsAckEntry) :
  ack_wf s → ack_table s !! i = Some e → 0 <= pa_retries e →
  ∃ t' dues f', age_times (E:=unit) nows (ack_table s) (consecutive_ack_failures s) = Ok (t', dues, f') ∧
    length t' = length (ack_table s) ∧
    (handed_out i dues <= Z.to_nat (pa_retries e))%nat ∧
    (pa_active e = true → pa_confirmed e = true → handed_out i dues = 0%nat) ∧
    (pa_active e = true → pa_confirmed e = false → spaced (pa_waiting_since_us e) nows →
       (Z.to_nat (pa_retries e) < length nows)%nat → ∃ e', t' !! i = Some e' ∧ pa_active e' = false).
Proof.
  intros Hwf He Hr. pose proof (ack_wf_table s Hwf) as Hl.
  destruct (age_times_spec (E:=unit) nows (ack_table s) (consecutive_ack_failures s) i e Hl He Hr)
    as (t' & dues & f' & Hrun & Hl' & Hb & _ & Hd). exists t', dues, f'. split_and!; [done|done|done| |done].
  intros Ha Hc. destruct nows as [|now nows]; simpl in Hrun; [by injection Hrun as <- <- <-|].
  rewrite age_entries_eq in Hrun by (simpl; lia). cbn [mbind outcome_bind app] in Hrun.
  assert (age_action now e = AgeRelease) as Hact by (unfold age_action; by rewrite Ha, Hc).
  destruct (age_times_spec (E:=unit) nows (age_entry now <$> ack_table s) (add_failures now (ack_table s)
    (consecutive_ack_failures s)) i (age_entry now e)) as (t2 & dues2 & f2 & Hr2 & _ & _ & Hina & _).
  { by rewrite length_fmap. } { by rewrite list_lookup_fmap, He. } { by apply age_step. }
  rewrite Hr2 in Hrun. cbn [mbind outcome_bind] in Hrun. injection Hrun as <- <- <-.
  unfold handed_out in *. cbn [count]. rewrite bool_decide_false.
  - apply Hina. unfold age_entry. by rewrite Hact.
  - rewrite elem_of_due_indices. intros (k & x & -> & Hx & Hdue). simpl in Hx, He.
    assert (x = e) as -> by congruence. unfold age_due in Hdue. by rewrite Hact in Hdue.
Qed.

Lemma ack_retries_bounded_witness :
  let s := (register_ack_pending 0 7 291 [1; 2; 3] ack_new).1 in
  ∃ t' dues f', age_times (E:=unit) [1500000; 3000000; 4500000; 6000000] (ack_table s) 0 = Ok (t', dues, f') ∧
    (handed_out 0 dues <= 3)%nat ∧ ∃ e', t' !! 0%nat = Some e' ∧ pa_active e' = false.
Proof.
  intros s. assert (ack_wf s) as Hwf.
  { split; vm_compute; intuition (discriminate || lia). }
  destruct (ack_retries_bounded [1500000; 3000000; 4500000; 6000000] s 0 (pa_new 1 7 291 0 [1; 2; 3] None) Hwf)
    as (t' & dues & f' & H1 & _ & H2 & _ & H3); [reflexivity|simpl; lia|].
  exists t', dues, f'. split_and!; [exact H1|exact H2|]. apply H3; [reflexivity|reflexivity| |simpl; lia].
  vm_compute. by repeat split.
Defined.

(** * Confirming *)
Lemma push_completion_spec {E} h l :
  (length l <= APS_ACK_TABLE_SIZE)%nat →
  ∃ l', push_completion (E:=E) h l = Ok l' ∧ h ∈ l' ∧ (length l' <= APS_ACK_TABLE_SIZE)%nat ∧
    (∀ x, x ∈ l' → x = h ∨ x ∈ l) ∧ ((length l < APS_ACK_TABLE_SIZE)%nat → ∀ x, x ∈ l → x ∈ l').
Proof.
  intros Hl. unfold push_completion. destruct (bool_decide_reflect (h ∈ l)); [exists l; split_and!; auto|].
  unfold vec_push. destruct (Nat.eqb_spec (length l) APS_ACK_TABLE_SIZE) as [Heq|Hne].
  - destruct l as [|x l]; [done|]. unfold vec_remove. simpl in *. rewrite drop_0, (proj2 (Nat.ltb_lt _ _)) by lia.
    eexists. split; [done|]. split_and!; [set_solver|rewrite length_app; simpl; lia|set_solver|lia].
  - rewrite (proj2 (Nat.ltb_lt _ _)) by lia. eexists. split; [done|].
    split_and!; [set_solver|rewrite length_app; simpl; lia|set_solver|set_solver].
Qed.

(** The transmission [e] waits for the acknowledgement [c] of [src]. *)
Definition awaiting (src c : Z) (e : PendingApsAckEntry) : Prop :=
  pa_active e = true ∧ pa_confirmed e = false ∧ pa_dst_addr e = src ∧ pa_aps_counter e = c.

Lemma pa_awaits_iff src c e : pa_awaits src c e = true ↔ awaiting src c e.
Proof. unfold pa_awaits, awaiting. rewrite !andb_true_iff, negb_true_iff, !Z.eqb_eq. tauto. Qed.

(** The first awaiting position is the one the code looks up. *)
Lemma first_awaiting src c l i e :
  l !! i = Some e → awaiting src c e →
  (∀ j e', (j < i)%nat → l !! j = Some e' → ~ awaiting src c e') →
  position (pa_awaits src c) l = Some i.
Proof.
  intros He Ha Hf. apply position_Some. exists e. split_and!; [done|by apply pa_awaits_iff|].
  intros j y Hj Hy. apply not_true_is_false. rewrite pa_awaits_iff. by eapply Hf.
Qed.

(** C34. An acknowledgement settles the first unconfirmed transmission with
    its sender and counter and no other: that entry of the table keeps
    everything and is marked confirmed, every other entry stays, its handle is
    then reported as confirmed, and the run of failures restarts at zero.  A
    transmission sent under APS security is settled only by a secured
    acknowledgement; an acknowledgement that settles nothing leaves the state
    as it was.  Nothing panics. *)
Theorem confirm_ack_spec (src c : Z) (secured : bool) (s : AckState) :
  ack_wf s →
  ∃ s' r, confirm_ack_with_security (E:=unit) src c secured s = Ok (s', r) ∧ ack_wf s' ∧
    (∀ i e, ack_table s !! i = Some e → awaiting src c e →
       (∀ j e', (j < i)%nat → ack_table s !! j = Some e' → ~ awaiting src c e') →
       if secured || bool_decide (pa_security e = None) then
         r = true ∧
         ack_table s' = <[i := mk_PendingApsAckEntry true (pa_generation e) c src true (pa_retries e)
                                 (pa_waiting_since_us e) (pa_original_frame e) (pa_security e)]> (ack_table s) ∧
         consecutive_ack_failures s' = 0 ∧ next_ack_generation s' = next_ack_generation s ∧
         ack_status s' (mk_ApsAckHandle src (pa_generation e) c) = Some AckConfirmed ∧
         (∀ h, h ∈ ack_completions s' → h = mk_ApsAckHandle src (pa_generation e) c ∨ h ∈ ack_completions s)
       else r = false ∧ s' = s) ∧
    ((∀ e, e ∈ ack_table s → ~ awaiting src c e) → r = false ∧ s' = s).
Proof.
  intros Hwf. unfold confirm_ack_with_security.
  destruct (position (pa_awaits src c) (ack_table s)) as [i|] eqn:Hp.
  2:{ exists s, false. split_and!; [done|done| |done]. intros i e He Ha Hf.
      by rewrite (first_awaiting src c _ i e He Ha Hf) in Hp. }
  assert (∀ j e, ack_table s !! j = Some e → awaiting src c e →
    (∀ k e', (k < j)%nat → ack_table s !! k = Some e' → ~ awaiting src c e') → j = i) as Hfirst.
  { intros j e He Ha Hf. pose proof (first_awaiting src c _ j e He Ha Hf). congruence. }
  apply position_Some in Hp as (e & He & Ha%pa_awaits_iff & _).
  rewrite (index_Some _ _ _ He). cbn [mbind outcome_bind].
  assert (¬ ∀ x, x ∈ ack_table s → ~ awaiting src c x) as Hsome.
  { intros H. by apply (H e); [eapply list_elem_of_lookup_2|]. }
  assert (bool_decide (is_Some (pa_security e)) && negb secured
    = negb (secured || bool_decide (pa_security e = None))) as ->.
  { destruct (pa_security e), secured; done. }
  destruct (secured || bool_decide (pa_security e = None)) eqn:Hsec; simpl.
  - destruct (push_completion_spec (E:=unit) (mk_ApsAckHandle src (pa_generation e) c) (ack_completions s)
      (ack_wf_completions s Hwf)) as (l & -> & Hin & Hl & Hback & _). cbn [mbind outcome_bind].
    eexists _, true. split; [done|]. split_and!; [|intros j e' He' Ha' Hf|done].
    + split; simpl; [rewrite length_insert; by apply Hwf|done|by apply Hwf|done].
    + pose proof (Hfirst j e' He' Ha' Hf) as ->. assert (e' = e) as -> by congruence. rewrite Hsec.
      destruct Ha as (Hact & _ & Hd & Hc). split_and!; try done.
      * simpl. unfold pa_confirm. by rewrite Hact, Hd, Hc.
      * unfold ack_status. simpl. by rewrite bool_decide_true.
  - exists s, false. split_and!; [done|done| |done]. intros j e' He' Ha' Hf.
    pose proof (Hfirst j e' He' Ha' Hf) as ->. assert (e' = e) as -> by congruence. by rewrite Hsec.
Qed.

Definition ex_tracking : AckState :=
  (register_secured_ack_pending 0 7 291 [1; 2; 3]
     (mk_PendingApsSecurity KoPreconfiguredGlobal (repeat 1 8) 2) ack_new).1.

Lemma confirm_ack_spec_witness :
  confirm_ack_with_security (E:=unit) 291 7 false ex_tracking = Ok (ex_tracking, false) ∧
  ∃ s', confirm_ack_with_security (E:=unit) 291 7 true ex_tracking = Ok (s', true) ∧
    pa_confirmed <$> (ack_table s' !! 0%nat) = Some true ∧
    ack_status s' (mk_ApsAckHandle 291 1 7) = Some AckConfirmed.
Proof.
  assert (ack_wf ex_tracking) as Hwf by (split; vm_compute; intuition (discriminate || lia)).
  destruct (ack_table ex_tracking !! 0%nat) as [e|] eqn:He; [|discriminate He].
  assert (awaiting 291 7 e) as Ha by (vm_compute in He; injection He as <-; repeat split).
  destruct (confirm_ack_spec 291 7 false ex_tracking Hwf) as (s1 & r1 & H1 & _ & H & _).
  specialize (H 0%nat e He Ha ltac:(intros j ? ?; lia)).
  destruct (confirm_ack_spec 291 7 true ex_tracking Hwf) as (s2 & r2 & H2 & _ & H' & _).
  specialize (H' 0%nat e He Ha ltac:(intros j ? ?; lia)). vm_compute in He. injection He as <-.
  destruct H as [-> ->]. destruct H' as (-> & Ht & _ & _ & Hs & _). split; [exact H1|].
  exists s2. split_and!; [exact H2| |exact Hs]. rewrite Ht. reflexivity.
Defined.

(** * Securing under the key of an origin *)

(** The outgoing counter of an origin and the limit reserved for it. *)
Definition origin_counter {P} (x : TxSecurity P) (o : ApsKeyOrigin) : option (Z * Z) :=
  match o with
  | KoKeyPair p k =>
      (λ e, (lk_outgoing_frame_counter e, lk_outgoing_frame_counter_limit e)) <$> find_key (tx_security x) p k
  | _ => Some (nib_outgoing_frame_counter (tx_nib x), nib_outgoing_frame_counter_limit (tx_nib x))
  end.

Definition tx_header (counter : Z) (src : IeeeAddress) : ApsSecurityHeader :=
  mk_ApsSecurityHeader APS_DEFAULT_EXT_NONCE counter (Some src) None.

Lemma tx_header_wf counter src : is_u32 counter → ieee_wf src → aps_aux_wf (tx_header counter src).
Proof. intros Hc Hs. split; try done; simpl; auto. Qed.

(** The counters are machine words: what has been used is at least zero and
    the reserved limit fits the field. *)
Definition counter_wf (c : option (Z * Z)) : Prop :=
  match c with Some (n, limit) => 0 <= n ∧ is_u32 limit | None => True end.

Lemma next_frame_counter_for_spec {P} (o : ApsKeyOrigin) (x : TxSecurity P) :
  counter_wf (origin_counter x o) →
  ∃ x', next_frame_counter_for o x =
      Ok (x', match origin_counter x o with
              | Some (n, limit) => if n <? limit then Some n else None
              | None => None
              end) ∧
    tx_mac x' = tx_mac x ∧ (∀ o', key_for_origin (tx_security x') o' = key_for_origin (tx_security x) o') ∧
    (∀ o', counter_wf (origin_counter x o') → counter_wf (origin_counter x' o')) ∧
    match origin_counter x o with
    | Some (n, limit) => if n <? limit then origin_counter x' o = Some (n + 1, limit) else x' = x
    | None => x' = x
    end.
Proof.
  destruct x as [s nib mac], o as [p k| |]; simpl; intros Hc.
  - unfold ApsSecurity.next_frame_counter. destruct (find_key s p k) as [e|] eqn:Hf; simpl in *.
    2:{ eexists. split; [done|]. split_and!; done. }
    destruct Hc as [Hn Hl]. rewrite Z.leb_antisym. destruct (Z.ltb_spec (lk_outgoing_frame_counter e) (lk_outgoing_frame_counter_limit e)); simpl.
    2:{ eexists. split; [done|]. split_and!; done. }
    unfold add_u32. rewrite (proj2 (Z.ltb_lt _ _)) by ulia. cbn [mbind outcome_bind]. eexists. split; [done|]. simpl.
    set (f := set_lk_outgoing _). destruct (update_key_fields f p k s) as (E1 & E2 & _). split_and!; [done| | |].
    + intros [p' k'| |]; simpl; [|by rewrite E1|by rewrite E2].
      rewrite find_key_update by apply lk_id_set_outgoing. case_decide as Hd; [|done]. injection Hd as -> ->. rewrite Hf. by destruct e.
    + intros [p' k'| |]; simpl; [|done..]. rewrite find_key_update by apply lk_id_set_outgoing.
      case_decide as Hd; [|done]. injection Hd as -> ->. rewrite Hf. destruct e; simpl in *. split; [lia|done].
    + rewrite find_key_update by apply lk_id_set_outgoing. rewrite decide_True, Hf by done. by destruct e.
  - unfold next_default_tc_link_key_frame_counter. simpl. rewrite next_frame_counter_eq by apply Hc.
    destruct (_ <? _) eqn:Hlt; eexists; (split; [done|]); simpl; rewrite ?Hlt; split_and!; try done.
    intros []; simpl; [done|..]; (intros [? ?]; split; [lia|done]).
  - unfold next_default_tc_link_key_frame_counter. simpl. rewrite next_frame_counter_eq by apply Hc.
    destruct (_ <? _) eqn:Hlt; eexists; (split; [done|]); simpl; rewrite ?Hlt; split_and!; try done.
    intros []; simpl; [done|..]; (intros [? ?]; split; [lia|done]).
Qed.

(** The parts are fit for sending: the AES backend answers, keys are blocks
    and counters words. *)
Record tx_ok {P} (ready : P → Prop) (x : TxSecurity P) : Prop := {
  txok_ready : ready (tx_mac x);
  txok_keys : keys_wf (tx_security x);
  txok_counters : ∀ o, counter_wf (origin_counter x o) }.

Section Securing.
Context {P C E : Type} `{HF : ForwardAesProvider P C E} (ready : P → Prop) (keyed : list Z → C → Prop)
  (aes : list Z → list Z → list Z) `{HL : !LawfulProvider ready keyed aes}.

(** What [secure_with_origin] answers. *)
Definition secured_answer (x x' : TxSecurity P) (origin : ApsKeyOrigin) (src : IeeeAddress)
    (header payload : list Z) (r : option (list Z)) : Prop :=
  match key_for_origin (tx_security x) origin, origin_counter x origin with
  | Some key, Some (n, limit) =>
      if n <? limit then
        origin_counter x' origin = Some (n + 1, limit) ∧
        match r with
        | Some frame => frame = secured_frame aes key header payload (tx_header n src) ∧ (length frame <= 128)%nat
        | None => (128 < length header + 13 + length payload + 4)%nat ∨ provider_fails keyed
        end
      else r = None ∧ x' = x
  | _, _ => r = None ∧ x' = x
  end.

Lemma secure_with_origin_answer x origin src header payload :
  tx_ok ready x → ieee_wf src → Forall is_u8 header → Forall is_u8 payload → (length header <= 50)%nat →
  ∃ x' r, secure_with_origin origin src header payload x = Ok (x', r) ∧ tx_ok ready x' ∧
    secured_answer x x' origin src header payload r.
Proof using Type*.
  intros Hok Hs Hh Hp Hl. pose proof Hok as [Hrd Hk Hc]. unfold secure_with_origin, secured_answer.
  destruct (key_for_origin (tx_security x) origin) as [key|] eqn:Hkey; [|exists x, None; by split_and!].
  destruct (next_frame_counter_for_spec origin x (Hc origin)) as (x1 & -> & Hmac & Hkeys & Hcs & Hx1). cbn [mbind outcome_bind].
  specialize (Hc origin).
  destruct (origin_counter x origin) as [[n limit]|]; [|subst x1; exists x, None; by split_and!].
  destruct (Z.ltb_spec n limit); [|subst x1; exists x, None; by split_and!]. fold (tx_header n src).
  assert (aps_aux_wf (tx_header n src)) as Hwf by (apply tx_header_wf; [simpl in Hc; ulia|done]).
  assert (length (aps_aux_bytes (tx_header n src)) = 13%nat) as Hb.
  { unfold aps_aux_bytes. rewrite !length_app. simpl. destruct Hs as [-> _]. done. }
  pose proof (assemble_secured_frame_spec ready keyed aes (tx_mac x1) header payload key (tx_header n src)) as Ha.
  rewrite Hb in Ha. rewrite Hmac in *.
  specialize (Ha Hrd (Hk _ _ Hkey) Hwf Hh Hp ltac:(lia)).
  assert (∀ p', ready p' → tx_ok ready (mk_TxSecurity (tx_security x1) (tx_nib x1) p')) as Hok'.
  { intros p' Hp'. split; [done| |].
    - intros o k Ho. simpl in Ho. rewrite Hkeys in Ho. by eapply Hk.
    - intros o. apply (Hcs o). apply Hok. }
  destruct (assemble_secured_frame (tx_mac x) header payload key (tx_header n src)) as [[[frame|] p']| |];
    [| |done|done]; cbn [mbind outcome_bind]; destruct Ha as (Hr' & Ha); (eexists _, _; split; [done|]).
  - split; [by apply Hok'|]. split; [done|]. split; apply Ha.
  - split; [by apply Hok'|]. split; done.
Qed.
End Securing.

(** Securing a frame under the key of an origin: with a key and counters
    left, the counter used is the next one, it is spent whatever happens, and
    the frame is the CCM* frame of header and payload under this key and
    counter, refused only when it exceeds 128 octets or the AES backend fails;
    so a retransmission is a fresh frame of the same content.  Without the key
    or at the reserved limit there is no frame and nothing changes. *)
Theorem secure_with_origin_spec {P C E} `{HF : ForwardAesProvider P C E} (ready : P → Prop)
    (keyed : list Z → C → Prop) (aes : list Z → list Z → list Z) `{HL : !LawfulProvider ready keyed aes}
    (x : TxSecurity P) (origin : ApsKeyOrigin) (src : IeeeAddress) (header payload : list Z) :
  tx_ok ready x → ieee_wf src → Forall is_u8 header → Forall is_u8 payload → (length header <= 50)%nat →
  ∃ x' r, secure_with_origin origin src header payload x = Ok (x', r) ∧
    match key_for_origin (tx_security x) origin, origin_counter x origin with
    | Some key, Some (n, limit) =>
        if n <? limit then
          origin_counter x' origin = Some (n + 1, limit) ∧
          match r with
          | Some frame => frame = secured_frame aes key header payload (tx_header n src) ∧ (length frame <= 128)%nat
          | None => (128 < length header + 13 + length payload + 4)%nat ∨ provider_fails keyed
          end
        else r = None ∧ x' = x
    | _, _ => r = None ∧ x' = x
    end.
Proof.
  intros Hx Hs Hh Hp Hl.
  destruct (secure_with_origin_answer ready keyed aes x origin src header payload Hx Hs Hh Hp Hl)
    as (x' & r & Hr & _ & Ha). by exists x', r.
Qed.

Import ToyAes.
Definition ex_tx : TxSecurity unit :=
  mk_TxSecurity (set_key_table [set_lk_outgoing 5 (ex_link 1 TrustCenterLinkKey)] asec_new) nib_new tt.

Lemma secure_with_origin_spec_witness :
  ∃ x' r, secure_with_origin (KoKeyPair (repeat 1 8) TrustCenterLinkKey) (repeat 2 8) [0x21; 5] [10; 20; 30] ex_tx
      = Ok (x', r) ∧ origin_counter x' (KoKeyPair (repeat 1 8) TrustCenterLinkKey) = Some (6, 9).
Proof.
  destruct (secure_with_origin_spec (P:=unit) (HF:=ToyAes.toy_provider) (λ _ : unit, True)
    (λ key (c : list Z), c = key) ToyAes.aes (HL:=ToyAes.toy_lawful_provider) ex_tx
    (KoKeyPair (repeat 1 8) TrustCenterLinkKey) (repeat 2 8) [0x21; 5] [10; 20; 30]) as (x' & r & H1 & H2).
  - split; [done| |].
    + apply keys_wf_intro; [|split; [done|by repeat constructor]|done]. repeat constructor; simpl; try done.
    + intros [p k| |]; [|vm_compute; intuition discriminate..]. unfold ex_tx. cbn [origin_counter tx_security].
      destruct (find_key _ p k) as [e|] eqn:He; [|done]. apply find_key_Some in He as [He _].
      apply list_elem_of_singleton in He as ->. vm_compute. intuition discriminate.
  - by apply (bool_decide_unpack (ieee_wf (repeat 2 8))).
  - by repeat constructor.
  - by repeat constructor.
  - simpl. lia.
  - exists x', r. split; [exact H1|]. exact (proj1 H2).
Defined.
