(* ===== verification/ApsFragmentTx.v ===== *)
(** Transmit side of APS fragmentation: [zigbee-aps/src/fragment_tx.rs], with
    the request, confirm and status types of [lib.rs] and [apsde.rs].

    One fragmented transaction is in flight: its session remembers which
    blocks are acknowledged and which are due, a window at a time.  The NWK
    layer below is an interface: its address tables, its clock, the request
    that hands it a frame.  The theorems show that success is reported only
    for a wholly acknowledged ASDU, that a session is never stuck and ends
    after a bounded number of unanswered timeouts, and that a lossless exchange
    with the reassembly table of the receiver delivers the ASDU. *)
From S2P Require Import Prelude.
From S2P Require Import ZigbeeTypes.
From S2P Require Import NwkAddressMap.
From S2P Require Import NwkNeighbor.
From S2P Require Import NwkNib.
From S2P Require Import Crypto.
From S2P Require Import ApsFrames.
From S2P Require Import ApsTables.
From S2P Require Import ApsFragment.
From S2P Require Import ApsSecurity.
From S2P Require Import ApsSecured.
From S2P Require Import ApsDelivery.

Local Open Scope Z_scope.

(** * Service primitives *)
Inductive ApsStatus :=
| AsSuccess | AsAsduTooLong | AsDefragDeferred | AsDefragUnsupported | AsIllegalRequest
| AsInvalidBinding | AsInvalidParameter | AsNoAck | AsNoBoundDevice | AsNoShortAddress
| AsTableFull | AsUnsecuredKey | AsUnsupportedAttribute | AsSecurityFail | AsDecryptionError
| AsInsufficientSpace | AsNotFound.

#[export] Instance ApsStatus_eq_dec : EqDecision ApsStatus.
Proof. solve_decision. Defined.

Inductive ApsAddressMode := AmIndirect | AmGroup | AmShort | AmExtended.
Inductive ApsAddress := AaShort (a : ShortAddress) | AaExtended (a : IeeeAddress) | AaGroup (g : Z).

Record ApsTxOptions := mk_ApsTxOptions {
  to_security_enabled : bool;
  to_use_nwk_key : bool;
  to_ack_request : bool;
  to_fragmentation_permitted : bool;
  to_include_extended_nonce : bool }.

Record ApsdeDataRequest := mk_ApsdeDataRequest {
  dr_dst_addr_mode : ApsAddressMode;
  dr_dst_address : ApsAddress;
  dr_dst_endpoint : Z;
  dr_profile_id : Z;
  dr_cluster_id : Z;
  dr_src_endpoint : Z;
  dr_payload : list Z;
  dr_tx_options : ApsTxOptions;
  dr_radius : Z;
  dr_alias_src_addr : option ShortAddress;
  dr_alias_seq : option Z }.

Record ApsdeDataConfirm := mk_ApsdeDataConfirm {
  dc_status : ApsStatus;
  dc_dst_addr_mode : ApsAddressMode;
  dc_dst_address : ApsAddress;
  dc_dst_endpoint : Z;
  dc_src_endpoint : Z;
  dc_aps_counter : Z }.

(** The confirm of a request that was accepted. *)
Definition data_confirm (status : ApsStatus) (req : ApsdeDataRequest) (aps_counter : Z) : ApsdeDataConfirm :=
  mk_ApsdeDataConfirm status (dr_dst_addr_mode req) (dr_dst_address req) (dr_dst_endpoint req)
    (dr_src_endpoint req) aps_counter.

Inductive NwkStatus :=
| NsSuccess | NsInvalidParameter | NsInvalidRequest | NsNotPermitted | NsStartupFailure
| NsAlreadyPresent | NsSyncFailure | NsNeighborTableFull | NsUnknownDevice | NsUnsupportedAttribute
| NsNoNetworks | NsMaxFrmCounterReached | NsNoKey | NsBadCcmOutput | NsRouteDiscoveryFailed
| NsRouteError | NsBtTableFull | NsFrameNotBuffered | NsFrameTooLong.

Definition nwk_status_to_aps (nwk_err : NwkStatus) : ApsStatus :=
  match nwk_err with
  | NsFrameTooLong => AsAsduTooLong
  | NsInvalidRequest => AsIllegalRequest
  | NsRouteError | NsRouteDiscoveryFailed => AsNoShortAddress
  | _ => AsNoAck
  end.

(** * The NWK layer as the APS layer sees it

    [P] is the NWK layer apart from its information base; handing it a frame
    changes both and succeeds or answers an error. *)
Class NwkService (P : Type) := {
  nwk_neighbors : P → NeighborTable;
  nwk_address_map : P → list AddressMapEntry;
  nwk_has_active_key : P → bool;
  monotonic_micros : P → Z;
  delay_micros : Z → P → P;
  nlde_data_request : ShortAddress → Z → list Z → bool → bool → Nib * P → Nib * P * option NwkStatus }.

Definition find_short_by_ieee {P} `{NwkService P} (nwk : P) (ieee : IeeeAddress) : option ShortAddress :=
  match find_by_ieee (nwk_neighbors nwk) ieee with
  | Some e => Some (ne_network_address e)
  | None => am_short_of (nwk_address_map nwk) ieee
  end.

Definition find_ieee_by_short {P} `{NwkService P} (nwk : P) (short : ShortAddress) : option IeeeAddress :=
  match find_by_short (nwk_neighbors nwk) short with
  | Some e => Some (ne_ieee_address e)
  | None => am_ieee_of (nwk_address_map nwk) short
  end.

(** * The session *)
Definition APS_FRAGMENT_BLOCK_SIZE : nat := 64.
Definition APS_SECURED_FRAGMENT_BLOCK_SIZE : nat := 48.

Record FragmentTxSecurity := mk_FragmentTxSecurity {
  fs_origin : ApsKeyOrigin; fs_src_ieee : IeeeAddress }.

Record FragmentTxSession := mk_FragmentTxSession {
  ft_dst : ShortAddress;
  ft_confirm : ApsdeDataConfirm;
  ft_dst_endpoint : Z;
  ft_src_endpoint : Z;
  ft_cluster_id : Z;
  ft_profile_id : Z;
  ft_radius : Z;
  ft_use_nwk_key : bool;
  ft_security : option FragmentTxSecurity;
  ft_payload : list Z;
  ft_len : Z;
  ft_block_size : Z;
  ft_total : Z;
  ft_window_size : Z;
  ft_window_start : Z;
  ft_acked : Z;
  ft_due : Z;
  ft_retries : Z;
  ft_max_retries : Z;
  ft_waiting : bool;
  ft_waiting_since_us : Z }.

(** Assignments to the fields that change during a transaction. *)
Definition ft_update (window_start acked due retries : Z) (waiting : bool) (since : Z) (s : FragmentTxSession)
    : FragmentTxSession :=
  mk_FragmentTxSession (ft_dst s) (ft_confirm s) (ft_dst_endpoint s) (ft_src_endpoint s) (ft_cluster_id s)
    (ft_profile_id s) (ft_radius s) (ft_use_nwk_key s) (ft_security s) (ft_payload s) (ft_len s)
    (ft_block_size s) (ft_total s) (ft_window_size s) window_start acked due retries (ft_max_retries s)
    waiting since.
Definition set_ft_window_start (v : Z) (s : FragmentTxSession) : FragmentTxSession :=
  ft_update v (ft_acked s) (ft_due s) (ft_retries s) (ft_waiting s) (ft_waiting_since_us s) s.
Definition set_ft_acked (v : Z) (s : FragmentTxSession) : FragmentTxSession :=
  ft_update (ft_window_start s) v (ft_due s) (ft_retries s) (ft_waiting s) (ft_waiting_since_us s) s.
Definition set_ft_due (v : Z) (s : FragmentTxSession) : FragmentTxSession :=
  ft_update (ft_window_start s) (ft_acked s) v (ft_retries s) (ft_waiting s) (ft_waiting_since_us s) s.
Definition set_ft_retries (v : Z) (s : FragmentTxSession) : FragmentTxSession :=
  ft_update (ft_window_start s) (ft_acked s) (ft_due s) v (ft_waiting s) (ft_waiting_since_us s) s.
Definition set_ft_waiting (v : bool) (s : FragmentTxSession) : FragmentTxSession :=
  ft_update (ft_window_start s) (ft_acked s) (ft_due s) (ft_retries s) v (ft_waiting_since_us s) s.
Definition set_ft_waiting_since (v : Z) (s : FragmentTxSession) : FragmentTxSession :=
  ft_update (ft_window_start s) (ft_acked s) (ft_due s) (ft_retries s) (ft_waiting s) v s.

Definition ft_window_end (s : FragmentTxSession) : Z :=
  Z.min (saturating_add_u8 (ft_window_start s) (ft_window_size s)) (ft_total s).

(** [self.window_start..self.window_end()] *)
Definition ft_window (s : FragmentTxSession) : list Z :=
  seqZ (ft_window_start s) (ft_window_end s - ft_window_start s).

Definition ft_window_mask (s : FragmentTxSession) : Z :=
  fold_left (λ mask block, Z.lor mask (Z.shiftl 1 block)) (ft_window s) 0.

Definition ft_all_mask (s : FragmentTxSession) : Z :=
  if 16 <=? ft_total s then 65535 else Z.shiftl 1 (ft_total s) - 1.

Definition ft_lowest_unacked (s : FragmentTxSession) : option Z :=
  List.find (λ block, negb (has_bits (ft_acked s) (Z.shiftl 1 block))) (ft_window s).

Definition ft_block {E} (s : FragmentTxSession) (block : Z) : outcome E (list Z) :=
  let start := (Z.to_nat block * Z.to_nat (ft_block_size s))%nat in
  let end_ := Nat.min (start + Z.to_nat (ft_block_size s)) (Z.to_nat (ft_len s)) in
  slice (ft_payload s) start end_.

Definition ft_header (s : FragmentTxSession) (block : Z) : ApsHeader :=
  mk_ApsHeader
    (mk_ApsFrameControl 0 0 false (bool_decide (is_Some (ft_security s))) true true)
    (Some (ft_dst_endpoint s)) None (Some (ft_cluster_id s)) (Some (ft_profile_id s))
    (Some (ft_src_endpoint s)) (dc_aps_counter (ft_confirm s))
    (Some (mk_ApsExtendedHeader (if block =? 0 then FRAG_FIRST else FRAG_SUBSEQUENT)
             (if block =? 0 then ft_total s else block) None)).

(** The blocks of the window that the bitfield newly acknowledges; the loop
    leaves at the first block past the last. *)
Fixpoint newly_acked (s : FragmentTxSession) (bitfield : Z) (bits : list Z) (newly : Z) : Z :=
  match bits with
  | [] => newly
  | bit :: bits =>
      let block := saturating_add_u8 (ft_window_start s) bit in
      if ft_total s <=? block then newly
      else
        newly_acked s bitfield bits
          (if has_bits bitfield (Z.shiftl 1 bit) && negb (has_bits (ft_acked s) (Z.shiftl 1 block))
           then Z.lor newly (Z.shiftl 1 block) else newly)
  end.

Definition ft_apply_ack (window_start bitfield : Z) (s : FragmentTxSession) : FragmentTxSession * bool :=
  if negb (window_start =? ft_window_start s) then (s, false)
  else
    let newly := newly_acked s bitfield (seqZ 0 (ft_window_size s)) 0 in
    if newly =? 0 then (s, false)
    else
      let s := set_ft_acked (Z.lor (ft_acked s) newly) s in
      let s := set_ft_due (Z.land (ft_due s) (not_u16 (ft_acked s))) s in
      let s := set_ft_retries 0 s in
      let s := set_ft_waiting false s in
      let window := ft_window_mask s in
      let s :=
        if (Z.land (ft_acked s) window =? window) && (ft_window_end s <? ft_total s) then
          let s := set_ft_window_start (ft_window_end s) s in
          set_ft_due (Z.lor (ft_due s) (Z.land (ft_window_mask s) (not_u16 (ft_acked s)))) s
        else
          match ft_lowest_unacked s with
          | Some block => set_ft_due (Z.lor (ft_due s) (Z.shiftl 1 block)) s
          | None => s
          end in
      (s, true).

Definition ft_complete (s : FragmentTxSession) : bool := ft_acked s =? ft_all_mask s.

(** [u16::trailing_zeros] *)
Definition trailing_zeros_u16 (x : Z) : Z := default 16 (List.find (Z.testbit x) (seqZ 0 16)).

(** * The layer *)

(** The parts of the APS layer that sending changes. *)
Record ApsTx (P : Type) := mk_ApsTx {
  tx_layer : TxSecurity P;
  tx_aib : Aib;
  tx_binding_table : list BindingEntry;
  tx_aps_counter : Z;
  tx_ack : AckState;
  tx_fragment : option FragmentTxSession;
  tx_fragment_confirm : option ApsdeDataConfirm }.
Arguments mk_ApsTx {P}.
Arguments tx_layer {P}.
Arguments tx_aib {P}.
Arguments tx_binding_table {P}.
Arguments tx_aps_counter {P}.
Arguments tx_ack {P}.
Arguments tx_fragment {P}.
Arguments tx_fragment_confirm {P}.

Section Layer.
Context {P C E : Type} `{ForwardAesProvider P C E} `{NwkService P}.

Definition set_tx_layer (x : TxSecurity P) (l : ApsTx P) : ApsTx P :=
  mk_ApsTx x (tx_aib l) (tx_binding_table l) (tx_aps_counter l) (tx_ack l) (tx_fragment l) (tx_fragment_confirm l).
Definition set_tx_ack (a : AckState) (l : ApsTx P) : ApsTx P :=
  mk_ApsTx (tx_layer l) (tx_aib l) (tx_binding_table l) (tx_aps_counter l) a (tx_fragment l) (tx_fragment_confirm l).
Definition set_tx_fragment (s : option FragmentTxSession) (l : ApsTx P) : ApsTx P :=
  mk_ApsTx (tx_layer l) (tx_aib l) (tx_binding_table l) (tx_aps_counter l) (tx_ack l) s (tx_fragment_confirm l).
Definition set_tx_fragment_confirm (c : option ApsdeDataConfirm) (l : ApsTx P) : ApsTx P :=
  mk_ApsTx (tx_layer l) (tx_aib l) (tx_binding_table l) (tx_aps_counter l) (tx_ack l) (tx_fragment l) c.

Definition tx_nwk (l : ApsTx P) : P := tx_mac (tx_layer l).
Definition tx_now (l : ApsTx P) : Z := monotonic_micros (tx_nwk l).

Definition next_aps_counter (l : ApsTx P) : Z * ApsTx P :=
  (tx_aps_counter l,
   mk_ApsTx (tx_layer l) (tx_aib l) (tx_binding_table l) (wrapping_add_u8 (tx_aps_counter l) 1) (tx_ack l)
     (tx_fragment l) (tx_fragment_confirm l)).

(** [self.nwk.nlde_data_request(..)] *)
Definition hand_down (dst radius : Z) (frame : list Z) (use_nwk_key discover : bool) (l : ApsTx P)
    : ApsTx P * option NwkStatus :=
  let x := tx_layer l in
  let '(nib, nwk, r) := nlde_data_request dst radius frame use_nwk_key discover (tx_nib x, tx_mac x) in
  (set_tx_layer (mk_TxSecurity (tx_security x) nib nwk) l, r).

Definition drop_fragment_tx (l : ApsTx P) : ApsTx P := set_tx_fragment None l.

Definition finish_fragment_tx (status : ApsStatus) (l : ApsTx P) : ApsTx P :=
  let l :=
    match tx_fragment l with
    | Some session =>
        let c := ft_confirm session in
        set_tx_fragment_confirm
          (Some (mk_ApsdeDataConfirm status (dc_dst_addr_mode c) (dc_dst_address c) (dc_dst_endpoint c)
                   (dc_src_endpoint c) (dc_aps_counter c))) l
    | None => l
    end in
  drop_fragment_tx l.

Definition take_fragmented_tx_confirm (l : ApsTx P) : ApsTx P * option ApsdeDataConfirm :=
  (set_tx_fragment_confirm None l, tx_fragment_confirm l).

Definition fragmented_tx_active (l : ApsTx P) : bool := bool_decide (is_Some (tx_fragment l)).

Definition secure_fragment (header chunk : list Z) (security : FragmentTxSecurity) (x : TxSecurity P)
    : outcome Empty_set (TxSecurity P * option (list Z)) :=
  match key_for_origin (tx_security x) (fs_origin security) with
  | None => Ok (x, None)
  | Some key =>
      '(x, fc) ← next_frame_counter_for (fs_origin security) x;
      match fc with
      | None => Ok (x, None)
      | Some frame_counter =>
          let sec_hdr := mk_ApsSecurityHeader APS_DEFAULT_EXT_NONCE frame_counter (Some (fs_src_ieee security)) None in
          '(frame, p) ← assemble_secured_frame (tx_mac x) header chunk key sec_hdr;
          Ok (mk_TxSecurity (tx_security x) (tx_nib x) p, frame)
      end
  end.

(** [heapless::Vec::<u8, 128>::extend_from_slice] *)
Definition extend128 (v s : list Z) : option (list Z) :=
  if (length v + length s <=? 128)%nat then Some (v ++ s) else None.

(** The frame of a block.  [None]: the function returns at once ([.ok()?]);
    [Some None]: the block cannot be secured. *)
Definition fragment_frame (session : FragmentTxSession) (block : Z) (header : list Z) (x : TxSecurity P)
    : outcome Empty_set (TxSecurity P * option (option (list Z))) :=
  match ft_security session with
  | None =>
      chunk ← ft_block session block;
      Ok (x, frame ← extend128 [] header; frame ← extend128 frame chunk; Some (Some frame))
  | Some security =>
      block_data ← ft_block session block;
      chunk ← copy_from_slice (repeat 0 APS_SECURED_FRAGMENT_BLOCK_SIZE) 0 (length block_data) block_data;
      chunk ← slice chunk 0 (length block_data);
      '(x, frame) ← secure_fragment header chunk security x;
      Ok (x, Some frame)
  end.

Definition next_due_fragment (l : ApsTx P)
    : outcome Empty_set (ApsTx P * option (ShortAddress * bool * Z * list Z)) :=
  match tx_fragment l with
  | None => Ok (l, None)
  | Some session =>
      if ft_due session =? 0 then Ok (l, None)
      else
        let block := trailing_zeros_u16 (ft_due session) in
        '(header_buf, header_len) ← aps_header_serialize (ft_header session block) (repeat 0 16);
        header ← slice header_buf 0 header_len;
        '(x, r) ← fragment_frame session block header (tx_layer l);
        let l := set_tx_layer x l in
        match r with
        | None => Ok (l, None)
        | Some None => Ok (finish_fragment_tx AsSecurityFail l, None)
        | Some (Some frame) =>
            let session := set_ft_due (Z.land (ft_due session) (not_u16 (Z.shiftl 1 block))) session in
            let session :=
              if ft_due session =? 0 then set_ft_waiting_since (tx_now l) (set_ft_waiting true session)
              else session in
            Ok (set_tx_fragment (Some session) l,
                Some (ft_dst session, ft_use_nwk_key session, ft_radius session, frame))
        end
  end.

(** Send every due block; [fuel] is the number of blocks left to look for,
    and [Ok None] stands for running out of it. *)
Fixpoint send_due_loop (fuel : nat) (l : ApsTx P) : outcome Empty_set (option (ApsTx P)) :=
  match tx_fragment l with
  | None => Ok (Some l)
  | Some session =>
      if ft_due session =? 0 then Ok (Some l)
      else
        match fuel with
        | O => Ok None
        | S fuel =>
            let delay_us := aib_interframe_delay (tx_aib l) * 1000 in
            let x := tx_layer l in
            let l := set_tx_layer (mk_TxSecurity (tx_security x) (tx_nib x) (delay_micros delay_us (tx_mac x))) l in
            '(l, r) ← next_due_fragment l;
            match r with
            | None => Ok (Some l)
            | Some (dst, use_nwk_key, radius, frame) =>
                send_due_loop fuel (hand_down dst radius frame use_nwk_key true l).1
            end
        end
  end.

(** A transaction has at most 16 blocks and every turn sends one. *)
Definition send_due_fragments (l : ApsTx P) : outcome Empty_set (option (ApsTx P)) := send_due_loop 16 l.

Definition poll_fragment_tx_timeout (l : ApsTx P) : outcome Empty_set (ApsTx P) :=
  let now := tx_now l in
  match tx_fragment l with
  | None => Ok l
  | Some session =>
      if negb (ft_waiting session)
         || (wrapping_sub_u32 now (ft_waiting_since_us session) <? APS_ACK_WAIT_DURATION_US)
      then Ok l
      else if ft_max_retries session <=? ft_retries session then Ok (finish_fragment_tx AsNoAck l)
      else
        retries ← add_u8 (ft_retries session) 1;
        let session := set_ft_waiting false (set_ft_retries retries session) in
        let session :=
          match ft_lowest_unacked session with
          | Some block => set_ft_due (Z.lor (ft_due session) (Z.shiftl 1 block)) session
          | None => session
          end in
        Ok (set_tx_fragment (Some session) l)
  end.

Definition handle_fragment_ack (src aps_counter : Z) (ext : ApsExtendedHeader) (aps_secured : bool) (l : ApsTx P)
    : ApsTx P * bool :=
  match tx_fragment l with
  | None => (l, false)
  | Some session =>
      if negb (ft_dst session =? src) || negb (dc_aps_counter (ft_confirm session) =? aps_counter) then (l, false)
      else if bool_decide (is_Some (ft_security session)) && negb aps_secured then (l, true)
      else
        match aeh_ack_bitfield ext with
        | None => (l, true)
        | Some bitfield =>
            let '(session, progress) := ft_apply_ack (aeh_block_number ext) bitfield session in
            let l := set_tx_fragment (Some session) l in
            (if progress && ft_complete session then finish_fragment_tx AsSuccess l else l, true)
        end
  end.

Definition service_fragment_tx (l : ApsTx P) : outcome Empty_set (option (ApsTx P)) :=
  l ← poll_fragment_tx_timeout l;
  send_due_fragments l.

(** [payload.len().div_ceil(block_size)] *)
Definition div_ceil (a b : nat) : nat := ((a + b - 1) / b)%nat.

Definition ft_open (req : ApsdeDataRequest) (nwk_dst radius : Z) (security : option FragmentTxSecurity)
    (block_size total : nat) (aps_counter window max_retries now : Z) (payload : list Z) : FragmentTxSession :=
  let session :=
    mk_FragmentTxSession nwk_dst (data_confirm AsSuccess req aps_counter) (dr_dst_endpoint req)
      (dr_src_endpoint req) (dr_cluster_id req) (dr_profile_id req) radius
      (to_use_nwk_key (dr_tx_options req)) security payload (as_u16 (Z.of_nat (length (dr_payload req))))
      (as_u8 (Z.of_nat block_size)) (as_u8 (Z.of_nat total)) (clamp_window_size window) 0 0 0 0 max_retries
      false now in
  set_ft_due (ft_window_mask session) session.

Definition start_fragmented_tx (req : ApsdeDataRequest) (nwk_dst : ShortAddress) (delivery_mode : ApsDeliveryMode)
    (radius : Z) (l : ApsTx P) : outcome Empty_set (option (ApsTx P * (ApsdeDataConfirm + ApsStatus))) :=
  let len := length (dr_payload req) in
  if negb (bool_decide (delivery_mode = AdmUnicast)) || negb (to_ack_request (dr_tx_options req))
     || (APS_MAX_FRAGMENTED_ASDU <? len)%nat
  then Ok (Some (l, inr AsAsduTooLong))
  else if bool_decide (is_Some (tx_fragment l)) then Ok (Some (l, inr AsInsufficientSpace))
  else
    let security :=
      if to_security_enabled (dr_tx_options req) then
        option_map (λ origin, Some (mk_FragmentTxSecurity origin (nib_ieee_address (tx_nib (tx_layer l)))))
          (aps_data_key_origin (tx_security (tx_layer l)) (aib_trust_center_address (tx_aib l))
             (find_ieee_by_short (tx_nwk l) nwk_dst) nwk_dst)
      else Some None in
    match security with
    | None => Ok (Some (l, inr AsSecurityFail))
    | Some security =>
        let block_size := if bool_decide (is_Some security) then APS_SECURED_FRAGMENT_BLOCK_SIZE
                          else APS_FRAGMENT_BLOCK_SIZE in
        let total := div_ceil len block_size in
        if (Z.to_nat APS_MAX_FRAGMENT_BLOCKS <? total)%nat || (total <? 2)%nat
        then Ok (Some (l, inr AsAsduTooLong))
        else
          let '(aps_counter, l) := next_aps_counter l in
          payload ← copy_from_slice (repeat 0 APS_MAX_FRAGMENTED_ASDU) 0 len (dr_payload req);
          let session := ft_open req nwk_dst radius security block_size total aps_counter
                           (aib_max_window_size (tx_aib l)) (aib_max_frame_retries (tx_aib l)) (tx_now l) payload in
          let l := set_tx_fragment_confirm None (set_tx_fragment (Some session) l) in
          '(l, r) ← next_due_fragment l;
          match r with
          | None => Ok (Some (drop_fragment_tx l, inr AsSecurityFail))
          | Some (dst, use_nwk_key, radius, frame) =>
              let '(l, r) := hand_down dst radius frame use_nwk_key true l in
              match r with
              | Some error => Ok (Some (drop_fragment_tx l, inr (nwk_status_to_aps error)))
              | None =>
                  l ← send_due_fragments l;
                  Ok (option_map (λ l, (l, inl (data_confirm AsSuccess req aps_counter))) l)
              end
          end
    end.
(** The fragment half of [age_ack_table]: as many due blocks as there is room
    for. *)
Fixpoint age_fragments (room : nat) (l : ApsTx P) (retransmit : list ApsRetransmission)
    : outcome Empty_set (ApsTx P * list ApsRetransmission) :=
  match room with
  | O => Ok (l, retransmit)
  | S room =>
      '(l, r) ← next_due_fragment l;
      match r with
      | None => Ok (l, retransmit)
      | Some (dst_addr, _, _, frame) =>
          retransmit ← push_retransmission (mk_ApsRetransmission dst_addr frame) retransmit;
          age_fragments room l retransmit
      end
  end.

Definition age_ack_table (l : ApsTx P) : outcome Empty_set (ApsTx P * list ApsRetransmission) :=
  '(a, x, retransmit) ← age_unicasts (tx_now l) (tx_ack l) (tx_layer l);
  l ← poll_fragment_tx_timeout (set_tx_layer x (set_tx_ack a l));
  age_fragments (APS_ACK_TABLE_SIZE - length retransmit) l retransmit.

Definition has_pending_ack (l : ApsTx P) : bool :=
  if bool_decide (is_Some (tx_fragment l)) then true else unicast_ack_pending (tx_ack l).

Definition awaits_unicast_ack_only (l : ApsTx P) : bool :=
  if bool_decide (is_Some (tx_fragment l)) then false else unicast_ack_pending (tx_ack l).
End Layer.

(** * The session invariant *)
Record ft_static (s : FragmentTxSession) : Prop := {
  fts_total : 2 <= ft_total s <= 16;
  fts_window : 1 <= ft_window_size s <= 8;
  fts_block_size : 1 <= ft_block_size s <= if bool_decide (is_Some (ft_security s)) then 48 else 64;
  fts_len : ft_block_size s * (ft_total s - 1) < ft_len s <= ft_block_size s * ft_total s;
  fts_payload : length (ft_payload s) = 256%nat ∧ ft_len s <= 256 ∧ Forall is_u8 (ft_payload s);
  fts_fields : is_u8 (ft_dst_endpoint s) ∧ is_u8 (ft_src_endpoint s) ∧ is_u16 (ft_cluster_id s) ∧
               is_u16 (ft_profile_id s) ∧ is_u8 (dc_aps_counter (ft_confirm s));
  fts_retries : is_u8 (ft_max_retries s);
  fts_security : ∀ x, ft_security s = Some x → ieee_wf (fs_src_ieee x) }.

Record ft_wf (s : FragmentTxSession) : Prop := {
  ftw_static : ft_static s;
  ftw_start : 0 <= ft_window_start s < ft_total s;
  ftw_nonneg : 0 <= ft_acked s ∧ 0 <= ft_due s;
  ftw_acked : ∀ n, 0 <= n → Z.testbit (ft_acked s) n = true → n < ft_window_end s;
  ftw_below : ∀ n, 0 <= n < ft_window_start s → Z.testbit (ft_acked s) n = true;
  ftw_due : ∀ n, 0 <= n → Z.testbit (ft_due s) n = true →
    ft_window_start s <= n < ft_window_end s ∧ Z.testbit (ft_acked s) n = false;
  ftw_open : ∃ n, ft_window_start s <= n < ft_window_end s ∧ Z.testbit (ft_acked s) n = false;
  ftw_live : ft_waiting s = true ↔ ft_due s = 0;
  ftw_retries : 0 <= ft_retries s <= ft_max_retries s }.

Lemma ft_window_end_eq s :
  ft_static s → 0 <= ft_window_start s < ft_total s →
  ft_window_end s = Z.min (ft_window_start s + ft_window_size s) (ft_total s).
Proof. intros [] Hs. unfold ft_window_end, saturating_add_u8. lia. Qed.

(** Bits set one after the other. *)
Lemma testbit_fold_bits bits mask n :
  0 <= n → Forall (λ b, 0 <= b) bits →
  Z.testbit (fold_left (λ mask block, Z.lor mask (Z.shiftl 1 block)) bits mask) n =
  Z.testbit mask n || bool_decide (n ∈ bits).
Proof.
  intros Hn. revert mask. induction bits as [|b bits IH]; intros mask Hb; simpl.
  - by rewrite orb_false_r.
  - apply Forall_cons in Hb as [Hb Hbs]. rewrite IH by done. rewrite Z.lor_spec, testbit_shiftl_1 by done.
    rewrite <- orb_assoc. f_equal. destruct (Z.eqb_spec n b) as [->|Hne]; simpl.
    + symmetry. apply bool_decide_eq_true. set_solver.
    + apply bool_decide_ext. set_solver.
Qed.

Lemma ft_window_mask_bits s n :
  0 <= n → 0 <= ft_window_start s →
  Z.testbit (ft_window_mask s) n = bool_decide (ft_window_start s <= n < ft_window_end s).
Proof.
  intros Hn Hs. unfold ft_window_mask. rewrite testbit_fold_bits; [|done|].
  - rewrite Z.bits_0. simpl. apply bool_decide_ext. unfold ft_window. rewrite elem_of_seqZ. lia.
  - apply Forall_forall. intros b Hb%elem_of_seqZ. lia.
Qed.

Lemma fold_bits_nonneg bits mask :
  0 <= mask → Forall (λ b, 0 <= b) bits → 0 <= fold_left (λ mask block, Z.lor mask (Z.shiftl 1 block)) bits mask.
Proof.
  revert mask. induction bits as [|b bits IH]; intros mask Hm Hb; simpl; [done|].
  apply Forall_cons in Hb as [Hb Hbs]. apply IH; [|done]. apply Z.lor_nonneg. split; [done|].
  apply Z.shiftl_nonneg. lia.
Qed.

Lemma ft_window_mask_nonneg s : 0 <= ft_window_start s → 0 <= ft_window_mask s.
Proof.
  intros Hs. apply fold_bits_nonneg; [done|]. apply Forall_forall. intros b Hb%elem_of_seqZ. lia.
Qed.

(** Which blocks an acknowledgement names. *)
Lemma newly_acked_bits s bitfield (k : nat) j newly n :
  0 <= n → 0 <= j → 0 <= ft_window_start s → ft_window_start s + j + Z.of_nat k <= 255 →
  Z.testbit (newly_acked s bitfield (seqZ j (Z.of_nat k)) newly) n =
  Z.testbit newly n ||
  bool_decide (ft_window_start s + j <= n < Z.min (ft_window_start s + j + Z.of_nat k) (ft_total s))
  && Z.testbit bitfield (n - ft_window_start s) && negb (Z.testbit (ft_acked s) n).
Proof.
  intros Hn. revert j newly. induction k as [|k IH]; intros j newly Hj Hs Hle.
  { simpl. rewrite bool_decide_false by lia. by rewrite orb_false_r. }
  rewrite Nat2Z.inj_succ, seqZ_cons, Z.pred_succ by lia. cbn [newly_acked].
  unfold saturating_add_u8. rewrite Z.min_l by lia.
  destruct (Z.leb_spec (ft_total s) (ft_window_start s + j)) as [Ht|Ht].
  { rewrite bool_decide_false by lia. by rewrite orb_false_r. }
  rewrite IH by lia. rewrite !has_bits_testbit by lia.
  destruct (decide (n = ft_window_start s + j)) as [->|Hne].
  - rewrite (bool_decide_false (_ <= _ < _)), (bool_decide_true (_ <= _ < _)) by lia.
    replace (ft_window_start s + j - ft_window_start s) with j by lia. rewrite orb_false_r. cbn [andb].
    destruct (Z.testbit bitfield j && negb (Z.testbit (ft_acked s) (ft_window_start s + j))).
    + rewrite testbit_set, Z.eqb_refl by lia. done.
    + by rewrite orb_false_r.
  - assert (∀ b : bool, Z.testbit (if b then Z.lor newly (Z.shiftl 1 (ft_window_start s + j)) else newly) n
      = Z.testbit newly n) as ->.
    { intros []; [|done]. rewrite testbit_set by lia. rewrite (proj2 (Z.eqb_neq _ _)) by done. apply orb_false_r. }
    f_equal. f_equal. f_equal. apply bool_decide_ext. lia.
Qed.

Lemma newly_acked_nonneg s bitfield bits newly :
  0 <= newly → 0 <= ft_window_start s → Forall (λ b, 0 <= b) bits → 0 <= newly_acked s bitfield bits newly.
Proof.
  intros Hn Hs Hb. revert newly Hn. induction Hb as [|b bits Hb _ IH]; intros newly Hn; simpl; [done|].
  case_match; [done|]. apply IH. case_match; [|done]. apply Z.lor_nonneg. split; [done|].
  apply Z.shiftl_nonneg. lia.
Qed.

(** The blocks named by a window acknowledgement. *)
Definition names_block (s : FragmentTxSession) (window_start bitfield n : Z) : Prop :=
  window_start <= n < window_start + ft_window_size s ∧ Z.testbit bitfield (n - window_start) = true.

#[export] Instance names_block_dec s w b n : Decision (names_block s w b n).
Proof. unfold names_block. apply _. Defined.

(** All blocks of the transaction are acknowledged. *)
Definition all_acked (s : FragmentTxSession) : Prop := ∀ n, 0 <= n < ft_total s → Z.testbit (ft_acked s) n = true.

Lemma all_mask_bits s n : ft_static s → 0 <= n → Z.testbit (ft_all_mask s) n = (n <? ft_total s).
Proof.
  intros Hst Hn. pose proof (fts_total s Hst). unfold ft_all_mask.
  replace (if 16 <=? ft_total s then 65535 else Z.shiftl 1 (ft_total s) - 1) with (Z.ones (ft_total s)).
  - destruct (Z.ltb_spec n (ft_total s)); [by rewrite Z.ones_spec_low by lia|by rewrite Z.ones_spec_high by lia].
  - destruct (Z.leb_spec 16 (ft_total s)); [replace (ft_total s) with 16 by lia; done|].
    rewrite Z.ones_equiv, Z.shiftl_1_l. lia.
Qed.

Lemma ft_complete_iff s :
  ft_static s → (∀ n, 0 <= n → Z.testbit (ft_acked s) n = true → n < ft_total s) →
  ft_complete s = true ↔ all_acked s.
Proof.
  intros Hst Ha. unfold ft_complete. rewrite Z.eqb_eq. split.
  - intros He n Hn. rewrite He, all_mask_bits by (done || lia). apply Z.ltb_lt. lia.
  - intros Hall. apply Z.bits_inj'. intros n Hn. rewrite all_mask_bits by done.
    destruct (Z.ltb_spec n (ft_total s)); [by apply Hall; lia|].
    apply not_true_iff_false. intros Ht%Ha; lia.
Qed.

Lemma lowest_unacked_spec s :
  ft_static s → 0 <= ft_window_start s < ft_total s →
  match ft_lowest_unacked s with
  | Some b => ft_window_start s <= b < ft_window_end s ∧ Z.testbit (ft_acked s) b = false ∧
              ∀ n, ft_window_start s <= n < b → Z.testbit (ft_acked s) n = true
  | None => ∀ n, ft_window_start s <= n < ft_window_end s → Z.testbit (ft_acked s) n = true
  end.
Proof.
  intros Hst Hs. unfold ft_lowest_unacked, ft_window. generalize (ft_window_end s) as e. intros e.
  assert (∀ (k : nat) a, 0 <= a →
    match List.find (λ block, negb (has_bits (ft_acked s) (Z.shiftl 1 block))) (seqZ a (Z.of_nat k)) with
    | Some b => a <= b < a + Z.of_nat k ∧ Z.testbit (ft_acked s) b = false ∧ ∀ n, a <= n < b → Z.testbit (ft_acked s) n = true
    | None => ∀ n, a <= n < a + Z.of_nat k → Z.testbit (ft_acked s) n = true
    end) as Hgen.
  { induction k as [|k IH]; intros a Ha; [simpl; lia|].
    rewrite Nat2Z.inj_succ, seqZ_cons, Z.pred_succ by lia. cbn [List.find]. rewrite has_bits_testbit by done.
    destruct (Z.testbit (ft_acked s) a) eqn:Hb; simpl.
    - specialize (IH (Z.succ a) ltac:(lia)). destruct (List.find _ _) as [b|].
      + destruct IH as (H1 & H2 & H3). split_and!; [lia|lia|done|]. intros n Hn.
        destruct (decide (n = a)) as [->|]; [done|]. apply H3. lia.
      + intros n Hn. destruct (decide (n = a)) as [->|]; [done|]. apply IH. lia.
    - split_and!; [lia|lia|done|lia]. }
  specialize (Hgen (Z.to_nat (e - ft_window_start s)) (ft_window_start s) ltac:(lia)).
  destruct (decide (ft_window_start s <= e)).
  - rewrite Z2Nat.id in Hgen by lia. replace (ft_window_start s + (e - ft_window_start s)) with e in Hgen by lia. done.
  - replace (seqZ (ft_window_start s) (e - ft_window_start s)) with (@nil Z); [simpl; lia|].
    unfold seqZ. replace (Z.to_nat (e - ft_window_start s)) with 0%nat by lia. done.
Qed.

Lemma ft_static_update ws a d r w t s : ft_static s → ft_static (ft_update ws a d r w t s).
Proof. intros []. by split. Qed.

Lemma testbit_not_u16 x n : 0 <= n < 16 → Z.testbit (not_u16 x) n = negb (Z.testbit x n).
Proof.
  intros Hn. unfold not_u16. rewrite Z.lxor_spec. change 65535 with (Z.ones 16).
  rewrite Z.ones_spec_low by lia. apply xorb_true_r.
Qed.

Lemma not_u16_nonneg x : 0 <= x → 0 <= not_u16 x.
Proof. intros. unfold not_u16. apply Z.lxor_nonneg. split; intros; lia. Qed.

Lemma due_nonzero x n : 0 <= n → Z.testbit x n = true → x ≠ 0.
Proof. intros Hn Ht ->. by rewrite Z.bits_0 in Ht. Qed.

(** ** Acknowledged blocks and due blocks *)
Record ack_set (s : FragmentTxSession) (acked due : Z) : Prop := {
  as_static : ft_static s;
  as_start : 0 <= ft_window_start s < ft_total s;
  as_nonneg : 0 <= acked ∧ 0 <= due;
  as_acked : ∀ n, 0 <= n → Z.testbit acked n = true → n < ft_window_end s;
  as_below : ∀ n, 0 <= n < ft_window_start s → Z.testbit acked n = true;
  as_due : ∀ n, 0 <= n → Z.testbit due n = true →
    ft_window_start s <= n < ft_window_end s ∧ Z.testbit acked n = false }.

Lemma ft_wf_ack_set s : ft_wf s → ack_set s (ft_acked s) (ft_due s).
Proof. intros []. by split. Qed.

(** The window moves on when all of it is acknowledged: the next window is
    due as a whole. *)
Lemma advance_due s acked due since :
  ack_set s acked due → (∀ n, ft_window_start s <= n < ft_window_end s → Z.testbit acked n = true) →
  ft_window_end s < ft_total s →
  let s2 := ft_update (ft_window_end s) acked due 0 false since s in
  ft_window_end s2 = Z.min (ft_window_end s + ft_window_size s) (ft_total s) ∧
  ∀ n, 0 <= n → Z.testbit (Z.lor due (Z.land (ft_window_mask s2) (not_u16 acked))) n =
                bool_decide (ft_window_end s <= n < ft_window_end s2).
Proof.
  intros [Hst Hs Hnn Hak Hbel Hdue] Hwin Hmore s2. pose proof Hst as [Ht Hws _ _ _ _ _ _].
  pose proof (ft_window_end_eq s Hst Hs) as Hend.
  assert (ft_static s2) as Hst2 by (by apply ft_static_update).
  assert (ft_window_end s2 = Z.min (ft_window_end s + ft_window_size s) (ft_total s)) as He2.
  { rewrite ft_window_end_eq by (done || simpl; lia). done. }
  split; [done|]. intros n Hn. rewrite Z.lor_spec, Z.land_spec, ft_window_mask_bits by (simpl; lia).
  replace (Z.testbit due n) with false.
  2:{ symmetry. apply not_true_iff_false. intros Hd. apply Hdue in Hd as [Hw Ha]; [|done]. by rewrite Hwin in Ha. }
  cbn [orb]. change (ft_window_start s2) with (ft_window_end s).
  destruct (bool_decide_reflect (ft_window_end s <= n < ft_window_end s2)); [|done]. cbn [andb].
  rewrite testbit_not_u16 by lia. apply negb_true_iff, not_true_iff_false. intros Ha%Hak; lia.
Qed.

Lemma ack_set_advance s acked due since :
  ack_set s acked due → (∀ n, ft_window_start s <= n < ft_window_end s → Z.testbit acked n = true) →
  ft_window_end s < ft_total s →
  let s2 := ft_update (ft_window_end s) acked due 0 false since s in
  ft_wf (set_ft_due (Z.lor due (Z.land (ft_window_mask s2) (not_u16 acked))) s2).
Proof.
  intros Has Hwin Hmore s2. destruct (advance_due s acked due since Has Hwin Hmore) as [He2 Hd2]. fold s2 in He2, Hd2.
  destruct Has as [Hst Hs Hnn Hak Hbel Hdue]. pose proof Hst as [Ht Hws _ _ _ _ Hr _].
  pose proof (ft_window_end_eq s Hst Hs) as Hend. set (due2 := Z.lor due _) in *.
  assert (0 <= due2) as Hdn.
  { apply Z.lor_nonneg. split; [lia|]. apply Z.land_nonneg. left. apply ft_window_mask_nonneg. simpl. lia. }
  split; cbn [set_ft_due ft_update ft_window_start ft_total ft_acked ft_due ft_waiting ft_retries ft_max_retries s2];
    change (ft_window_end (set_ft_due due2 s2)) with (ft_window_end s2).
  - by apply (ft_static_update _ _ _ _ _ _ s).
  - lia.
  - lia.
  - intros n Hn Ha%Hak; lia.
  - intros n Hn. destruct (decide (n < ft_window_start s)); [apply Hbel|apply Hwin]; lia.
  - intros n Hn. rewrite Hd2, bool_decide_eq_true by done. intros Hw. split; [done|].
    apply not_true_iff_false. intros Ha%Hak; lia.
  - exists (ft_window_end s). split; [lia|]. apply not_true_iff_false. intros Ha%Hak; lia.
  - split; [done|]. intros H0. exfalso. revert H0. apply (due_nonzero _ (ft_window_end s)); [lia|].
    rewrite Hd2 by lia. apply bool_decide_eq_true. lia.
  - unfold is_u8 in Hr. lia.
Qed.

(** The lowest block that is missing is sent again. *)
Lemma ack_set_resend s acked due b r since :
  ack_set s acked due → ft_window_start s <= b < ft_window_end s → Z.testbit acked b = false →
  0 <= r <= ft_max_retries s →
  ft_wf (ft_update (ft_window_start s) acked (Z.lor due (Z.shiftl 1 b)) r false since s).
Proof.
  intros [Hst Hs Hnn Hak Hbel Hdue] Hb Hba Hr.
  split; cbn [ft_update ft_window_start ft_total ft_acked ft_due ft_waiting ft_retries ft_max_retries];
    change (ft_window_end (ft_update _ _ _ _ _ _ _)) with (ft_window_end s); try done.
  - by apply ft_static_update.
  - split; [lia|]. apply Z.lor_nonneg. split; [lia|]. apply Z.shiftl_nonneg. lia.
  - intros n Hn. rewrite testbit_set, orb_true_iff, Z.eqb_eq by lia. intros [Hd | ->]; [auto|done].
  - by exists b.
  - split; [done|]. intros H0. exfalso. revert H0. apply (due_nonzero _ b); [lia|].
    rewrite testbit_set, Z.eqb_refl by lia. apply orb_true_r.
Qed.

Lemma newly_acked_spec s bitfield n :
  ft_static s → 0 <= ft_window_start s < ft_total s → 0 <= n →
  Z.testbit (newly_acked s bitfield (seqZ 0 (ft_window_size s)) 0) n =
  bool_decide (n < ft_total s ∧ names_block s (ft_window_start s) bitfield n) && negb (Z.testbit (ft_acked s) n).
Proof.
  intros [Ht Hws] Hs Hn.
  pose proof (newly_acked_bits s bitfield (Z.to_nat (ft_window_size s)) 0 0 n Hn) as Hb.
  rewrite Z2Nat.id, Z.add_0_r in Hb by lia. rewrite Hb by lia. rewrite Z.bits_0. cbn [orb]. f_equal.
  destruct (Z.testbit bitfield (n - ft_window_start s)) eqn:Hbit.
  - rewrite andb_true_r. apply bool_decide_ext. unfold names_block. rewrite Hbit. intuition lia.
  - rewrite andb_false_r, bool_decide_false; [done|]. intros (_ & _ & ?). congruence.
Qed.

(** Recording the acknowledged blocks keeps the sets in order. *)
Lemma ack_set_record s bitfield :
  ft_wf s →
  let newly := newly_acked s bitfield (seqZ 0 (ft_window_size s)) 0 in
  let acked := Z.lor (ft_acked s) newly in
  ack_set s acked (Z.land (ft_due s) (not_u16 acked)) ∧
  ∀ n, 0 <= n → Z.testbit acked n =
    Z.testbit (ft_acked s) n || bool_decide (n < ft_total s ∧ names_block s (ft_window_start s) bitfield n).
Proof.
  intros [Hst Hs Hnn Hak Hbel Hdue Hop Hli Hr] newly acked. pose proof Hst as [Ht Hws _ _ _ _ _].
  pose proof (ft_window_end_eq s Hst Hs) as Hend.
  assert (∀ n, 0 <= n → Z.testbit acked n =
    Z.testbit (ft_acked s) n || bool_decide (n < ft_total s ∧ names_block s (ft_window_start s) bitfield n)) as Hacked.
  { intros n Hn. unfold acked, newly. rewrite Z.lor_spec, newly_acked_spec by done.
    by destruct (Z.testbit (ft_acked s) n), (bool_decide _). }
  split; [|done]. split; try done.
  - split; [|apply Z.land_nonneg; left; apply Hnn]. apply Z.lor_nonneg. split; [apply Hnn|].
    apply newly_acked_nonneg; [lia|lia|]. apply Forall_forall. intros b Hb%elem_of_seqZ. lia.
  - intros n Hn. rewrite Hacked, orb_true_iff, bool_decide_eq_true by done. intros [?|[? [? _]]]; [auto|lia].
  - intros n Hn. rewrite Hacked, Hbel by lia. done.
  - intros n Hn. rewrite Z.land_spec, andb_true_iff. intros [Hd Hna].
    destruct (Hdue n Hn Hd) as [Hw _]. split; [done|]. rewrite testbit_not_u16 in Hna by lia.
    by apply negb_true_iff in Hna.
Qed.

Lemma window_full s acked :
  0 <= ft_window_start s →
  (Z.land acked (ft_window_mask s) =? ft_window_mask s) = true ↔
  ∀ n, ft_window_start s <= n < ft_window_end s → Z.testbit acked n = true.
Proof.
  intros Hs. rewrite Z.eqb_eq. split.
  - intros Hf n Hn. apply (f_equal (λ z, Z.testbit z n)) in Hf.
    rewrite Z.land_spec, ft_window_mask_bits, bool_decide_true, andb_true_r in Hf by lia. done.
  - intros Hall. apply Z.bits_inj'. intros n Hn. rewrite Z.land_spec, ft_window_mask_bits by lia.
    case_bool_decide; [|apply andb_false_r]. rewrite andb_true_r. auto.
Qed.

Lemma ft_apply_ack_spec s window_start bitfield :
  ft_wf s →
  let '(s', progress) := ft_apply_ack window_start bitfield s in
  if progress then
    window_start = ft_window_start s ∧
    (∃ ws d, s' = ft_update ws (ft_acked s') d 0 false (ft_waiting_since_us s) s) ∧
    (∀ n, 0 <= n → Z.testbit (ft_acked s') n =
       Z.testbit (ft_acked s) n || bool_decide (n < ft_total s ∧ names_block s window_start bitfield n)) ∧
    (if ft_complete s' then all_acked s' else ft_wf s')
  else s' = s.
Proof.
  intros Hwf. pose proof (ft_window_end_eq s (ftw_static s Hwf) (ftw_start s Hwf)) as Hend.
  destruct (ack_set_record s bitfield Hwf) as [Has Hacked]. unfold ft_apply_ack.
  destruct (Z.eqb_spec window_start (ft_window_start s)) as [->|]; [|done]. cbn [negb]. cbv zeta.
  destruct (_ =? 0); [done|].
  set (acked := Z.lor (ft_acked s) (newly_acked s bitfield (seqZ 0 (ft_window_size s)) 0)) in *.
  set (s1 := ft_update (ft_window_start s) acked (Z.land (ft_due s) (not_u16 acked)) 0 false (ft_waiting_since_us s) s).
  change (set_ft_waiting false _) with s1.
  assert (∀ ws d, let s' := ft_update ws acked d 0 false (ft_waiting_since_us s) s in
    (ft_complete s' = true ↔ all_acked s')) as Hcomplete.
  { intros ws d s'. apply ft_complete_iff; [apply ft_static_update, Has|]. intros n Hn Ha.
    apply (as_acked _ _ _ Has) in Ha; [|done]. simpl. lia. }
  assert (∀ ws d, let s' := ft_update ws acked d 0 false (ft_waiting_since_us s) s in
    (ft_complete s' = false → ft_wf s') → if ft_complete s' then all_acked s' else ft_wf s') as Hout.
  { intros ws d s' Hw. destruct (ft_complete s') eqn:Hc; [by apply Hcomplete|auto]. }
  assert (0 <= ft_max_retries s) as Hmr by (pose proof (fts_retries s (ftw_static s Hwf)); unfold is_u8 in *; lia).
  change (ft_window_mask s1) with (ft_window_mask s). change (ft_acked s1) with acked.
  change (ft_window_end s1) with (ft_window_end s). change (ft_total s1) with (ft_total s).
  destruct ((Z.land acked (ft_window_mask s) =? ft_window_mask s) && (ft_window_end s <? ft_total s)) eqn:Hadv.
  - apply andb_true_iff in Hadv as [Hfull Hmore]. rewrite window_full in Hfull by apply Hwf. apply Z.ltb_lt in Hmore.
    split_and!; [done|by eexists _, _|done|]. apply Hout. intros _.
    exact (ack_set_advance s acked _ (ft_waiting_since_us s) Has Hfull Hmore).
  - pose proof (lowest_unacked_spec s1 (ft_static_update _ _ _ _ _ _ _ (as_static _ _ _ Has)) (as_start _ _ _ Has)) as Hlow.
    destruct (ft_lowest_unacked s1) as [b|].
    + destruct Hlow as (Hb & Hba & _). split_and!; [done|by eexists _, _|done|]. apply Hout. intros _.
      refine (ack_set_resend s acked _ b 0 (ft_waiting_since_us s) Has Hb Hba _). lia.
    + split_and!; [done|by eexists _, _|done|]. apply Hout. intros Hnc. exfalso.
      rewrite (proj2 (Hcomplete _ _)) in Hnc; [done|]. intros n Hn. cbn [ft_total ft_acked ft_update] in *.
      destruct (decide (n < ft_window_start s)); [apply (as_below _ _ _ Has); lia|]. apply Hlow.
      apply andb_false_iff in Hadv as [Hnf|Hlast].
      * exfalso. rewrite (proj2 (window_full s acked (proj1 (ftw_start s Hwf)))) in Hnf; done.
      * apply Z.ltb_ge in Hlast. simpl in *. change (ft_window_end s1) with (ft_window_end s) in *. lia.
Qed.

(** ** Sending a block *)
Definition ft_asdu (s : FragmentTxSession) : list Z := take (Z.to_nat (ft_len s)) (ft_payload s).
Definition ft_block_data (s : FragmentTxSession) (b : Z) : list Z :=
  take (Z.to_nat (ft_block_size s)) (drop (Z.to_nat b * Z.to_nat (ft_block_size s)) (ft_asdu s)).

Lemma ft_block_Ok {E} s b : ft_static s → 0 <= b < ft_total s → ft_block (E:=E) s b = Ok (ft_block_data s b).
Proof.
  intros [Ht _ Hbs Hlen (Hpl & Hl & _)] Hb. unfold ft_block, ft_block_data, ft_asdu. apply slice_Ok, slice_get_Some.
  assert (ft_block_size s * b <= ft_block_size s * (ft_total s - 1)) as Hm by (apply Z.mul_le_mono_nonneg_l; lia).
  rewrite <- Z2Nat.inj_mul by lia. replace (b * ft_block_size s) with (ft_block_size s * b) by lia.
  split; [split; [|rewrite Hpl]; lia|].
  rewrite skipn_firstn_comm, take_take. f_equal. lia.
Qed.

Lemma ft_block_data_length s b : (length (ft_block_data s b) <= Z.to_nat (ft_block_size s))%nat.
Proof. unfold ft_block_data. rewrite length_take. lia. Qed.

Lemma ft_block_data_octets s b : ft_static s → Forall is_u8 (ft_block_data s b).
Proof. intros [_ _ _ _ (_ & _ & Hp)]. by apply Forall_take, Forall_drop, Forall_take. Qed.

(** The blocks one after the other are the ASDU. *)
Lemma concat_chunks (n k : nat) (l : list Z) :
  (length l <= k * n)%nat → concat ((λ i, take n (drop (i * n) l)) <$> seq 0 k) = l.
Proof.
  revert l. induction k as [|k IH]; intros l Hl; simpl in *.
  { by destruct l; [|simpl in Hl; lia]. }
  rewrite drop_0, <- fmap_S_seq, <- list_fmap_compose.
  rewrite (list_fmap_ext _ (λ i, take n (drop (i * n) (drop n l)))).
  - rewrite IH by (rewrite length_drop; lia). apply take_drop.
  - intros i x _. simpl. by rewrite drop_drop.
Qed.

Definition ft_blocks (s : FragmentTxSession) : list (list Z) :=
  (λ i, ft_block_data s (Z.of_nat i)) <$> seq 0 (Z.to_nat (ft_total s)).

Lemma ft_blocks_concat s : ft_static s → concat (ft_blocks s) = ft_asdu s.
Proof.
  intros [Ht _ Hbs Hlen (Hpl & _)]. unfold ft_blocks.
  rewrite (list_fmap_ext _ (λ i, take (Z.to_nat (ft_block_size s)) (drop (i * Z.to_nat (ft_block_size s)) (ft_asdu s)))).
  - apply concat_chunks. unfold ft_asdu. rewrite length_take, <- Z2Nat.inj_mul by lia. lia.
  - intros i x _. unfold ft_block_data. by rewrite Nat2Z.id.
Qed.

Lemma ft_header_wf s b : ft_static s → 0 <= b < ft_total s → aps_header_wf (ft_header s b).
Proof.
  intros [Ht _ _ _ _ (H1 & H2 & H3 & H4 & H5) _] Hb. unfold aps_header_wf, ft_header. simpl.
  split_and!; try done; unfold extended_wf; simpl; destruct (Z.eqb_spec b 0); simpl;
    (split_and!; try done; unfold is_u8; lia).
Qed.

Lemma ft_header_length s b : length (encode_aps_header 0 (ft_header s b)) = 10%nat.
Proof. unfold encode_aps_header, ft_header, encode_extended. simpl. by destruct (b =? 0). Qed.

Lemma find_first_bit x (k : nat) a :
  0 <= a →
  match List.find (Z.testbit x) (seqZ a (Z.of_nat k)) with
  | Some b => a <= b < a + Z.of_nat k ∧ Z.testbit x b = true ∧ ∀ n, a <= n < b → Z.testbit x n = false
  | None => ∀ n, a <= n < a + Z.of_nat k → Z.testbit x n = false
  end.
Proof.
  revert a. induction k as [|k IH]; intros a Ha; [simpl; lia|].
  rewrite Nat2Z.inj_succ, seqZ_cons, Z.pred_succ by lia. cbn [List.find].
  destruct (Z.testbit x a) eqn:Hb; [split_and!; (done || lia)|].
  specialize (IH (Z.succ a) ltac:(lia)). destruct (List.find _ _) as [b|].
  - destruct IH as (H1 & H2 & H3). split_and!; [lia|lia|done|]. intros n Hn.
    destruct (decide (n = a)) as [->|]; [done|]. apply H3. lia.
  - intros n Hn. destruct (decide (n = a)) as [->|]; [done|]. apply IH. lia.
Qed.

Lemma trailing_zeros_spec s :
  ft_wf s → ft_due s ≠ 0 →
  let b := trailing_zeros_u16 (ft_due s) in
  ft_window_start s <= b < ft_window_end s ∧ Z.testbit (ft_due s) b = true ∧
  ∀ n, 0 <= n < b → Z.testbit (ft_due s) n = false.
Proof.
  intros Hwf Hnz b. pose proof (find_first_bit (ft_due s) 16 0 ltac:(lia)) as Hf.
  pose proof (ft_window_end_eq s (ftw_static s Hwf) (ftw_start s Hwf)) as He.
  pose proof (fts_total s (ftw_static s Hwf)) as Ht.
  unfold trailing_zeros_u16 in b. change (Z.of_nat 16) with 16 in Hf.
  destruct (List.find (Z.testbit (ft_due s)) (seqZ 0 16)) as [b'|]; simpl in b.
  - destruct Hf as (Hb & Hbit & Hlow). destruct (ftw_due s Hwf b' ltac:(lia) Hbit) as [Hw _].
    unfold b. split_and!; [apply Hw|apply Hw|done|done].
  - exfalso. apply Hnz. apply Z.bits_inj'. intros n Hn. rewrite Z.bits_0.
    apply not_true_iff_false. intros Hd. destruct (ftw_due s Hwf n Hn Hd) as [Hw _]. rewrite Hf in Hd by lia. done.
Qed.

(** ** The next due block *)
Section Due.
Context {P C E : Type} `{HF : ForwardAesProvider P C E} `{HN : NwkService P} (ready : P → Prop)
  (keyed : list Z → C → Prop) (aes : list Z → list Z → list Z) `{HL : !LawfulProvider ready keyed aes}.

Definition ft_header_bytes (s : FragmentTxSession) (b : Z) : list Z := encode_aps_header 0 (ft_header s b).

Lemma secure_fragment_eq header chunk security (x : TxSecurity P) :
  secure_fragment header chunk security x =
  secure_with_origin (fs_origin security) (fs_src_ieee security) header chunk x.
Proof using. done. Qed.

(** A block sent without APS security is its header and its data; one sent
    with it is the secured frame of both, or cannot be secured. *)
Lemma fragment_frame_spec s b (x : TxSecurity P) :
  ft_static s → 0 <= b < ft_total s → tx_ok ready x →
  ∃ x' r, fragment_frame s b (ft_header_bytes s b) x = Ok (x', Some r) ∧ tx_ok ready x' ∧
    match ft_security s with
    | None => x' = x ∧ r = Some (ft_header_bytes s b ++ ft_block_data s b)
    | Some security =>
        secured_answer keyed aes x x' (fs_origin security) (fs_src_ieee security) (ft_header_bytes s b)
          (ft_block_data s b) r
    end.
Proof using HL.
  intros Hst Hb Hx. unfold fragment_frame. pose proof (ft_block_data_length s b) as Hlen.
  pose proof (ft_header_length s b) as Hhl. fold (ft_header_bytes s b) in Hhl.
  pose proof (fts_block_size s Hst) as Hbs. destruct (ft_security s) as [sec|] eqn:Hsec; simpl in Hbs.
  - rewrite ft_block_Ok by done. cbn [mbind outcome_bind].
    unfold copy_from_slice, APS_SECURED_FRAGMENT_BLOCK_SIZE.
    rewrite (proj2 (Nat.leb_le 0 _)), (proj2 (Nat.leb_le _ (length (repeat 0 48)))), (proj2 (Nat.eqb_eq _ _))
      by (rewrite ?repeat_length; lia).
    cbn [andb mbind outcome_bind app firstn]. unfold slice.
    rewrite (slice_get_app [] (ft_block_data s b) _ 0) by done. cbn [mbind outcome_bind]. rewrite secure_fragment_eq.
    destruct (secure_with_origin_answer ready keyed aes x (fs_origin sec) (fs_src_ieee sec) (ft_header_bytes s b)
      (ft_block_data s b)) as (x' & r & -> & Hx' & Ha).
    + done.
    + by apply (fts_security s Hst).
    + by apply encode_aps_header_octets, ft_header_wf.
    + by apply ft_block_data_octets.
    + lia.
    + cbn [mbind outcome_bind]. by exists x', r.
  - rewrite ft_block_Ok by done. cbn [mbind outcome_bind]. eexists _, _. split; [|by split_and!].
    unfold extend128. rewrite (proj2 (Nat.leb_le (length [] + length (ft_header_bytes s b)) 128)) by (cbn [length]; lia).
    cbn [mbind option_bind app]. rewrite (proj2 (Nat.leb_le _ 128)) by lia. done.
Qed.

(** The session after its lowest due block was sent. *)
Definition ft_sent (s : FragmentTxSession) (now : Z) : FragmentTxSession :=
  let due := Z.land (ft_due s) (not_u16 (Z.shiftl 1 (trailing_zeros_u16 (ft_due s)))) in
  ft_update (ft_window_start s) (ft_acked s) due (ft_retries s) (if due =? 0 then true else ft_waiting s)
    (if due =? 0 then now else ft_waiting_since_us s) s.

Lemma ft_sent_due s now n :
  ft_wf s → ft_due s ≠ 0 → 0 <= n →
  Z.testbit (ft_due (ft_sent s now)) n = Z.testbit (ft_due s) n && negb (n =? trailing_zeros_u16 (ft_due s)).
Proof using.
  intros Hwf Hnz Hn. destruct (trailing_zeros_spec s Hwf Hnz) as (Hb & _).
  pose proof (ft_window_end_eq s (ftw_static s Hwf) (ftw_start s Hwf)) as He.
  pose proof (fts_total s (ftw_static s Hwf)) as Ht. pose proof (ftw_start s Hwf) as Hs. cbn [ft_due ft_sent ft_update].
  destruct (decide (n < 16)); [by apply testbit_clear16; lia|]. rewrite Z.land_spec.
  replace (Z.testbit (ft_due s) n) with false; [done|]. symmetry. apply not_true_iff_false.
  intros Hd. apply (ftw_due s Hwf) in Hd; lia.
Qed.

Lemma ft_sent_wf s now : ft_wf s → ft_due s ≠ 0 → ft_wf (ft_sent s now).
Proof using.
  intros Hwf Hnz. pose proof (λ n, ft_sent_due s now n Hwf Hnz) as Hbits.
  assert (ft_waiting s = false) as Hw.
  { apply not_true_iff_false. intros Hw. by apply (ftw_live s Hwf) in Hw. }
  pose proof Hwf as []. split; try done.
  - by apply ft_static_update.
  - split; [apply ftw_nonneg0|]. apply Z.land_nonneg. left. apply ftw_nonneg0.
  - intros n Hn. rewrite Hbits by done. rewrite andb_true_iff. intros [Hd _]. by apply ftw_due0.
  - cbn [ft_waiting ft_sent ft_update ft_due]. rewrite Hw. destruct (Z.eqb_spec
      (Z.land (ft_due s) (not_u16 (Z.shiftl 1 (trailing_zeros_u16 (ft_due s))))) 0); done.
Qed.

(** What one call of [next_due_fragment] does. *)
Lemma next_due_spec (l : ApsTx P) s :
  tx_fragment l = Some s → ft_wf s → tx_ok ready (tx_layer l) →
  ∃ x' l' r, next_due_fragment l = Ok (l', r) ∧ tx_ok ready x' ∧
    if ft_due s =? 0 then l' = l ∧ r = None
    else
      (r = None ∧ ft_security s ≠ None ∧ l' = finish_fragment_tx AsSecurityFail (set_tx_layer x' l)) ∨
      ∃ frame, r = Some (ft_dst s, ft_use_nwk_key s, ft_radius s, frame) ∧
        l' = set_tx_fragment (Some (ft_sent s (monotonic_micros (tx_mac x')))) (set_tx_layer x' l) ∧
        (ft_security s = None → x' = tx_layer l ∧
           frame = ft_header_bytes s (trailing_zeros_u16 (ft_due s)) ++ ft_block_data s (trailing_zeros_u16 (ft_due s))).
Proof using HL.
  intros Hs Hwf Hx. unfold next_due_fragment. rewrite Hs.
  destruct (Z.eqb_spec (ft_due s) 0) as [|Hnz]; [by exists (tx_layer l), l, None|].
  destruct (trailing_zeros_spec s Hwf Hnz) as (Hb & _).
  pose proof (ft_window_end_eq s (ftw_static s Hwf) (ftw_start s Hwf)) as He. pose proof (ftw_start s Hwf) as Hst.
  cbv zeta. set (b := trailing_zeros_u16 (ft_due s)) in *.
  rewrite aps_header_serialize_written.
  2:{ apply ft_header_wf; [apply Hwf|lia]. } 2:{ rewrite ft_header_length, repeat_length. lia. }
  cbn [mbind outcome_bind]. fold (ft_header_bytes s b). unfold slice, written.
  change (?x ++ ?y) with ([] ++ x ++ y) at 1. rewrite slice_get_app by done. cbn [mbind outcome_bind].
  destruct (fragment_frame_spec s b (tx_layer l) (ftw_static s Hwf) ltac:(lia) Hx) as (x' & r & -> & Hx' & Hr).
  cbn [mbind outcome_bind]. destruct r as [frame|].
  - eexists x', _, _. split; [reflexivity|]. split; [done|]. right. exists frame.
    split; [by cbn [ft_due set_ft_due ft_update]; destruct (_ =? 0)|].
    split; [|intros Hsec; rewrite Hsec in Hr; destruct Hr as [-> Hr]; split; [done|congruence]].
    unfold tx_now, tx_nwk. f_equal. f_equal. unfold ft_sent. fold b.
    cbn [ft_due set_ft_due ft_update]. by destruct (_ =? 0).
  - eexists x', _, _. split; [reflexivity|]. split; [done|]. left. split_and!; [done| |done].
    intros Hsec. rewrite Hsec in Hr. by destruct Hr.
Qed.
End Due.

(** * Histories of a transaction *)
Inductive ft_event (P : Type) :=
| FtDue
| FtPoll
| FtAck (src aps_counter : Z) (ext : ApsExtendedHeader) (aps_secured : bool)
| FtEnv (x : TxSecurity P).
Arguments FtDue {P}.
Arguments FtPoll {P}.
Arguments FtAck {P}.
Arguments FtEnv {P}.

Section History.
Context {P C E : Type} `{HF : ForwardAesProvider P C E} `{HN : NwkService P} (ready : P → Prop)
  (keyed : list Z → C → Prop) (aes : list Z → list Z → list Z) `{HL : !LawfulProvider ready keyed aes}.

(** A block is handed out, the timer runs, an acknowledgement arrives, or the
    lower layers and the clock move on by themselves. *)
Definition ft_step (l : ApsTx P) (ev : ft_event P) : outcome Empty_set (ApsTx P) :=
  match ev with
  | FtDue => '(l, _) ← next_due_fragment l; Ok l
  | FtPoll => poll_fragment_tx_timeout l
  | FtAck src c ext secured => Ok (handle_fragment_ack src c ext secured l).1
  | FtEnv x => Ok (set_tx_layer x l)
  end.

Fixpoint ft_run (l : ApsTx P) (evs : list (ft_event P)) : outcome Empty_set (ApsTx P) :=
  match evs with
  | [] => Ok l
  | ev :: evs => l ← ft_step l ev; ft_run l evs
  end.

Definition ev_ok (ev : ft_event P) : Prop := match ev with FtEnv x => tx_ok ready x | _ => True end.

(** The history holds an acknowledgement of block [n] that counts: from the
    destination, for the counter, secured if the transaction is, its window
    and bitfield naming the block. *)
Definition acknowledges (s : FragmentTxSession) (n : Z) (ev : ft_event P) : Prop :=
  match ev with
  | FtAck src c ext secured =>
      src = ft_dst s ∧ c = dc_aps_counter (ft_confirm s) ∧ (ft_security s ≠ None → secured = true) ∧
      ∃ bitfield, aeh_ack_bitfield ext = Some bitfield ∧ names_block s (aeh_block_number ext) bitfield n
  | _ => False
  end.

Definition ft_same (s0 s : FragmentTxSession) : Prop := ∃ ws a d r w t, s = ft_update ws a d r w t s0.

Definition with_status (st : ApsStatus) (c : ApsdeDataConfirm) : ApsdeDataConfirm :=
  mk_ApsdeDataConfirm st (dc_dst_addr_mode c) (dc_dst_address c) (dc_dst_endpoint c) (dc_src_endpoint c)
    (dc_aps_counter c).

(** [G] are the blocks acknowledged so far. *)
Record tx_inv (s0 : FragmentTxSession) (G : Z → Prop) (l : ApsTx P) : Prop := {
  txi_ok : tx_ok ready (tx_layer l);
  txi_state :
    match tx_fragment l with
    | Some s => ft_wf s ∧ ft_same s0 s ∧ (∀ n, 0 <= n → Z.testbit (ft_acked s) n = true → G n) ∧
                tx_fragment_confirm l = None
    | None => ∃ st, tx_fragment_confirm l = Some (with_status st (ft_confirm s0)) ∧
                (st = AsSuccess ∧ (∀ n, 0 <= n < ft_total s0 → G n) ∨ st = AsNoAck ∨
                 st = AsSecurityFail ∧ ft_security s0 ≠ None)
    end }.

Lemma ft_same_trans s0 s ws a d r w t : ft_same s0 s → ft_same s0 (ft_update ws a d r w t s).
Proof using. intros (? & ? & ? & ? & ? & ? & ->). by repeat eexists. Qed.

Lemma tx_inv_mono s0 (G G' : Z → Prop) l : (∀ n, G n → G' n) → tx_inv s0 G l → tx_inv s0 G' l.
Proof using.
  intros HG [Hok Hst]. split; [done|]. destruct (tx_fragment l) as [s|].
  - destruct Hst as (H1 & H2 & H3 & H4). split_and!; auto.
  - destruct Hst as (st & H1 & H2). exists st. split; [done|]. destruct H2 as [[-> H2]|H2]; [left|by right]. auto.
Qed.

Lemma finish_inv s0 (G : Z → Prop) l s st :
  tx_ok ready (tx_layer l) → tx_fragment l = Some s → ft_same s0 s →
  (st = AsSuccess ∧ (∀ n, 0 <= n < ft_total s0 → G n) ∨ st = AsNoAck ∨ st = AsSecurityFail ∧ ft_security s0 ≠ None) →
  tx_inv s0 G (finish_fragment_tx st l).
Proof using.
  intros Hok Hs (? & ? & ? & ? & ? & ? & ->) Hst. unfold finish_fragment_tx. rewrite Hs. split; [done|]. simpl.
  exists st. split; done.
Qed.

Lemma poll_inv s0 G l :
  tx_inv s0 G l → ∃ l', poll_fragment_tx_timeout l = Ok l' ∧ tx_inv s0 G l'.
Proof using.
  intros Hi. pose proof Hi as [Hok Hst]. unfold poll_fragment_tx_timeout.
  destruct (tx_fragment l) as [s|] eqn:Hs; [|by eauto]. destruct Hst as (Hwf & Hsame & HG & Hc).
  destruct (_ || _) eqn:Hcond; [by eauto|]. apply orb_false_iff in Hcond as [Hw _]. apply negb_false_iff in Hw.
  destruct (Z.leb_spec (ft_max_retries s) (ft_retries s)) as [|Hr].
  { eexists. split; [done|]. eapply finish_inv; [done|done|done|]. auto. }
  pose proof (ftw_retries s Hwf). pose proof (fts_retries s (ftw_static s Hwf)) as Hmax. unfold add_u8.
  rewrite (proj2 (Z.ltb_lt _ _)) by (unfold is_u8 in Hmax; lia). cbn [mbind outcome_bind].
  change (ft_lowest_unacked (set_ft_waiting _ _)) with (ft_lowest_unacked s).
  pose proof (lowest_unacked_spec s (ftw_static s Hwf) (ftw_start s Hwf)) as Hlow.
  destruct (ft_lowest_unacked s) as [b|].
  - eexists. split; [done|]. split; [done|]. simpl. destruct Hlow as (Hb & Hba & _). split_and!; [|by do 3 apply ft_same_trans|done|done].
    refine (ack_set_resend s _ _ b (ft_retries s + 1) _ (ft_wf_ack_set s Hwf) Hb Hba _). lia.
  - exfalso. destruct (ftw_open s Hwf) as (n & Hn & Hna). rewrite Hlow in Hna by done. done.
Qed.

Lemma due_inv s0 G l :
  tx_inv s0 G l → ∃ l' r, next_due_fragment l = Ok (l', r) ∧ tx_inv s0 G l'.
Proof using HL.
  intros Hi. pose proof Hi as [Hok Hst]. destruct (tx_fragment l) as [s|] eqn:Hs.
  2:{ exists l, None. split; [|done]. unfold next_due_fragment. by rewrite Hs. }
  destruct Hst as (Hwf & Hsame & HG & Hc).
  destruct (next_due_spec ready keyed aes l s Hs Hwf Hok) as (x' & l' & r & Hd & Hx' & Hr). exists l', r. split; [done|].
  destruct (Z.eqb_spec (ft_due s) 0) as [|Hnz]; [by destruct Hr as [-> _]|].
  destruct Hr as [(_ & Hsec & ->)|(frame & _ & -> & _)].
  - eapply finish_inv; [done|done|done|]. right; right. split; [done|].
    by destruct Hsame as (? & ? & ? & ? & ? & ? & ->).
  - split; [done|]. simpl. split_and!; [by apply ft_sent_wf|by apply ft_same_trans|done|done].
Qed.

Lemma ack_inv s0 G l src c ext secured :
  tx_inv s0 G l →
  tx_inv s0 (λ n, G n ∨ acknowledges s0 n (FtAck src c ext secured)) (handle_fragment_ack src c ext secured l).1.
Proof using.
  intros Hi. pose proof (tx_inv_mono s0 G (λ n, G n ∨ acknowledges s0 n (FtAck src c ext secured)) l ltac:(intros; by left) Hi) as Hi'.
  unfold handle_fragment_ack. destruct (tx_fragment l) as [s|] eqn:Hs; [|done].
  pose proof Hi as [Hok Hst]. rewrite Hs in Hst. destruct Hst as (Hwf & Hsame & HG & Hc).
  destruct (_ || _) eqn:Hcond; [done|]. apply orb_false_iff in Hcond as [Hsrc Hctr].
  apply negb_false_iff, Z.eqb_eq in Hsrc, Hctr.
  destruct (_ && _) eqn:Hsec; [done|]. destruct (aeh_ack_bitfield ext) as [bf|] eqn:Hbf; [|done].
  pose proof (ft_apply_ack_spec s (aeh_block_number ext) bf Hwf) as Ha.
  destruct (ft_apply_ack (aeh_block_number ext) bf s) as [s' progress]. destruct progress; simpl.
  2:{ subst s'. replace (set_tx_fragment (Some s) l) with l; [done|]. destruct l. simpl in Hs. by subst. }
  destruct Ha as (_ & (ws & d & Hs') & Hacked & Hwf').
  assert (ft_same s0 s') as Hsame' by (rewrite Hs'; by apply ft_same_trans).
  assert (∀ n, 0 <= n → Z.testbit (ft_acked s') n = true → G n ∨ acknowledges s0 n (FtAck src c ext secured)) as HG'.
  { intros n Hn. rewrite Hacked, orb_true_iff, bool_decide_eq_true by done. intros [?|[_ Hb]]; [by left; auto|right].
    destruct Hsame as (? & ? & ? & ? & ? & ? & ->). simpl in *. split_and!; [done|done| |by exists bf].
    intros Hne. destruct secured; [done|]. rewrite andb_true_r in Hsec. apply bool_decide_eq_false in Hsec.
    destruct (ft_security s0); [|done]. destruct Hsec. by eexists. }
  destruct (ft_complete s').
  - eapply finish_inv; [done|done|done|]. left. split; [done|]. intros n Hn. apply HG'; [lia|]. apply Hwf'.
    destruct Hsame' as (? & ? & ? & ? & ? & ? & ->). done.
  - split; [done|]. simpl. done.
Qed.

Lemma ft_step_inv s0 G l ev :
  tx_inv s0 G l → ev_ok ev → ∃ l', ft_step l ev = Ok l' ∧ tx_inv s0 (λ n, G n ∨ acknowledges s0 n ev) l'.
Proof using HL.
  intros Hi Hev. destruct ev as [| |src c ext secured|x]; simpl.
  - destruct (due_inv s0 G l Hi) as (l' & r & -> & Hi'). cbn [mbind outcome_bind]. eexists. split; [done|].
    eapply tx_inv_mono; [|done]. intros; by left.
  - destruct (poll_inv s0 G l Hi) as (l' & -> & Hi'). eexists. split; [done|]. eapply tx_inv_mono; [|done]. intros; by left.
  - eexists. split; [done|]. by apply ack_inv.
  - eexists. split; [done|]. destruct Hi as [_ Hst]. eapply (tx_inv_mono s0 G); [intros; by left|]. by split.
Qed.

Lemma ft_run_inv s0 G l evs :
  tx_inv s0 G l → Forall ev_ok evs →
  ∃ l', ft_run l evs = Ok l' ∧ tx_inv s0 (λ n, G n ∨ Exists (acknowledges s0 n) evs) l'.
Proof using HL.
  intros Hi Hev. revert G l Hi. induction Hev as [|ev evs Hev _ IH]; intros G l Hi; simpl.
  { exists l. split; [done|]. eapply tx_inv_mono; [|done]. intros; by left. }
  destruct (ft_step_inv s0 G l ev Hi Hev) as (l1 & -> & Hi1). cbn [mbind outcome_bind].
  destruct (IH _ l1 Hi1) as (l' & Hr & Hi'). exists l'. split; [done|].
  eapply tx_inv_mono; [|done]. simpl. intros n. rewrite Exists_cons. tauto.
Qed.
End History.

(** * Sending all that is due *)

(** What the layer below keeps: a delay and a request leave keys, counters and
    AES backend usable. *)
Class NwkServiceOk {P} `{NwkService P} (ready : P → Prop) : Prop := {
  delay_ok : ∀ d p, ready p → ready (delay_micros d p);
  nlde_ok : ∀ dst radius frame k d (x : TxSecurity P), tx_ok ready x →
    let '(nib, p, _) := nlde_data_request dst radius frame k d (tx_nib x, tx_mac x) in
    tx_ok ready (mk_TxSecurity (tx_security x) nib p) }.

Definition due_count (s : FragmentTxSession) : nat := count (Z.testbit (ft_due s)) (seqZ 0 16).

Lemma count_remove (p q : Z → bool) l b :
  NoDup l → b ∈ l → p b = true → (∀ n, n ∈ l → q n = p n && negb (n =? b)) → count p l = S (count q l).
Proof.
  induction l as [|x l IH]; intros Hnd Hb Hp Hq; [by apply elem_of_nil in Hb|].
  apply NoDup_cons in Hnd as [Hx Hnd]. cbn [count]. rewrite (Hq x) by (by left).
  destruct (Z.eqb_spec x b) as [->|Hne].
  - rewrite Hp. cbn [andb negb]. assert (count q l = count p l) as ->; [|done].
    clear -Hq Hx. induction l as [|y l IH]; [done|]. cbn [count]. rewrite (Hq y) by (by right; left).
    rewrite (proj2 (Z.eqb_neq y b)) by (intros ->; apply Hx; by left). rewrite andb_true_r, IH; [done|set_solver|].
    intros n Hn. apply Hq. set_solver.
  - apply elem_of_cons in Hb as [->|Hb]; [done|]. rewrite andb_true_r, (IH Hnd Hb Hp) by (intros; apply Hq; by right).
    by destruct (p x).
Qed.

Lemma ft_sent_count s now : ft_wf s → ft_due s ≠ 0 → due_count s = S (due_count (ft_sent s now)).
Proof.
  intros Hwf Hnz. destruct (trailing_zeros_spec s Hwf Hnz) as (Hb & Hbit & _).
  pose proof (ft_window_end_eq s (ftw_static s Hwf) (ftw_start s Hwf)) as He.
  pose proof (fts_total s (ftw_static s Hwf)). pose proof (ftw_start s Hwf).
  apply (count_remove _ _ _ (trailing_zeros_u16 (ft_due s))); [apply NoDup_seqZ|apply elem_of_seqZ; lia|done|].
  intros n Hn%elem_of_seqZ. by apply ft_sent_due; [| |lia].
Qed.

Lemma due_count_le s : (due_count s <= 16)%nat.
Proof. unfold due_count. etrans; [apply count_le_length|]. by rewrite length_seqZ. Qed.

Section SendDue.
Context {P C E : Type} `{HF : ForwardAesProvider P C E} `{HN : NwkService P} (ready : P → Prop)
  (keyed : list Z → C → Prop) (aes : list Z → list Z → list Z) `{HL : !LawfulProvider ready keyed aes}
  `{HO : !NwkServiceOk ready}.

Lemma set_tx_layer_inv s0 G (l : ApsTx P) x : tx_inv ready s0 G l → tx_ok ready x → tx_inv ready s0 G (set_tx_layer x l).
Proof using. intros [_ Hst] Hx. by split. Qed.

Lemma delayed_ok (x : TxSecurity P) d :
  tx_ok ready x → tx_ok ready (mk_TxSecurity (tx_security x) (tx_nib x) (delay_micros d (tx_mac x))).
Proof using HO. intros [Hr Hk Hc]. split; [by apply delay_ok|done|done]. Qed.

Lemma hand_down_spec s0 G dst radius frame k d (l : ApsTx P) :
  tx_inv ready s0 G l → ∃ x r, hand_down dst radius frame k d l = (set_tx_layer x l, r) ∧ tx_ok ready x.
Proof using HO.
  intros [Hok _]. unfold hand_down. pose proof (nlde_ok dst radius frame k d (tx_layer l) Hok) as Hn.
  destruct (nlde_data_request _ _ _ _ _ _) as [[nib p] r]. by eexists _, _.
Qed.

(** Sixteen turns send every due block: the loop ends, and then waits for the
    acknowledgement unless a block could not be secured. *)
Lemma send_due_loop_inv s0 G fuel (l : ApsTx P) :
  tx_inv ready s0 G l → (match tx_fragment l with Some s => due_count s | None => 0 end <= fuel)%nat →
  ∃ l', send_due_loop fuel l = Ok (Some l') ∧ tx_inv ready s0 G l' ∧ (∀ s, tx_fragment l' = Some s → ft_due s = 0).
Proof using Type*.
  revert l. induction fuel as [|fuel IH]; intros l Hi Hf; cbn [send_due_loop].
  all: pose proof Hi as [Hok Hst]; destruct (tx_fragment l) as [s|] eqn:Hs; [|exists l; split_and!; [done|done|congruence]].
  all: destruct (Z.eqb_spec (ft_due s) 0) as [H0|Hnz]; [exists l; split_and!; [done|done|congruence]|].
  { destruct Hst as [Hwf _]. rewrite (ft_sent_count s 0 Hwf Hnz) in Hf. lia. }
  destruct Hst as (Hwf & Hsame & HG & Hc).
  set (x1 := mk_TxSecurity _ _ (delay_micros _ _)).
  assert (tx_ok ready x1) as Hx1 by (by apply delayed_ok).
  destruct (next_due_spec ready keyed aes (set_tx_layer x1 l) s Hs Hwf Hx1) as (x' & l' & r & Hd & Hx' & Hr).
  destruct (due_inv ready keyed aes s0 G (set_tx_layer x1 l)) as (l2 & r2 & Hd2 & Hi2); [by apply set_tx_layer_inv|].
  rewrite Hd in Hd2. injection Hd2 as <- <-. rewrite Hd. cbn [mbind outcome_bind].
  rewrite (proj2 (Z.eqb_neq _ _) Hnz) in Hr. destruct Hr as [(-> & _ & ->)|(frame & -> & -> & _)].
  - eexists. split_and!; [done|done|]. intros s' Hs'. unfold finish_fragment_tx in Hs'.
    change (tx_fragment (set_tx_layer x' (set_tx_layer x1 l))) with (tx_fragment l) in Hs'. rewrite Hs in Hs'. done.
  - destruct (hand_down_spec s0 G (ft_dst s) (ft_radius s) frame (ft_use_nwk_key s) true _ Hi2) as (x2 & r2 & -> & Hx2).
    cbn [fst]. apply IH; [by apply set_tx_layer_inv|]. cbn [tx_fragment set_tx_fragment set_tx_layer].
    rewrite (ft_sent_count s (monotonic_micros (tx_mac x')) Hwf Hnz) in Hf. lia.
Qed.

Lemma send_due_fragments_inv s0 G (l : ApsTx P) :
  tx_inv ready s0 G l →
  ∃ l', send_due_fragments l = Ok (Some l') ∧ tx_inv ready s0 G l' ∧ (∀ s, tx_fragment l' = Some s → ft_due s = 0).
Proof using Type*.
  intros Hi. apply send_due_loop_inv; [done|]. destruct (tx_fragment l); [apply due_count_le|lia].
Qed.
End SendDue.

(** * Opening a transaction *)
Record req_wf (req : ApsdeDataRequest) : Prop := {
  rqw_payload : Forall is_u8 (dr_payload req);
  rqw_endpoints : is_u8 (dr_dst_endpoint req) ∧ is_u8 (dr_src_endpoint req);
  rqw_ids : is_u16 (dr_cluster_id req) ∧ is_u16 (dr_profile_id req) }.

Record tx_layer_wf {P} (ready : P → Prop) (l : ApsTx P) : Prop := {
  tlw_ok : tx_ok ready (tx_layer l);
  tlw_counter : is_u8 (tx_aps_counter l);
  tlw_window : is_u8 (aib_max_window_size (tx_aib l));
  tlw_retries : is_u8 (aib_max_frame_retries (tx_aib l));
  tlw_ieee : ieee_wf (nib_ieee_address (tx_nib (tx_layer l))) }.

Lemma div_ceil_spec a b : (0 < b)%nat → (0 < a)%nat → (b * (div_ceil a b - 1) < a <= b * div_ceil a b)%nat ∧ (1 <= div_ceil a b)%nat.
Proof.
  intros Hb Ha. unfold div_ceil. pose proof (Nat.div_mod_eq (a + b - 1) b) as Hd.
  pose proof (Nat.mod_upper_bound (a + b - 1) b ltac:(lia)) as Hm. set (q := ((a + b - 1) / b)%nat) in *.
  assert (1 <= q)%nat; [destruct q; [rewrite Nat.mul_0_r in Hd|]; lia|]. rewrite Nat.mul_sub_distr_l. lia.
Qed.

(** Two blocks are needed, and sixteen are always enough. *)
Lemma block_count_guard len bs :
  (bs = 64 ∨ bs = 48)%nat → (len <= 256)%nat →
  (Z.to_nat APS_MAX_FRAGMENT_BLOCKS <? div_ceil len bs)%nat || (div_ceil len bs <? 2)%nat = (len <=? bs)%nat.
Proof.
  intros Hbs Hlen. change (Z.to_nat APS_MAX_FRAGMENT_BLOCKS) with 16%nat. destruct (decide (len = 0%nat)) as [->|].
  - destruct Hbs as [-> | ->]; done.
  - pose proof (div_ceil_spec len bs ltac:(lia) ltac:(lia)) as Hd. destruct (Nat.leb_spec len bs).
    + apply orb_true_iff. right. apply Nat.ltb_lt. destruct Hbs as [-> | ->]; lia.
    + apply orb_false_iff. rewrite !Nat.ltb_ge. destruct Hbs as [-> | ->]; lia.
Qed.

Definition block_size_for (secured : bool) : nat :=
  if secured then APS_SECURED_FRAGMENT_BLOCK_SIZE else APS_FRAGMENT_BLOCK_SIZE.

Lemma ft_open_wf req nwk_dst radius security c window max_retries now :
  let len := length (dr_payload req) in
  let bs := block_size_for (bool_decide (is_Some security)) in
  let s := ft_open req nwk_dst radius security bs (div_ceil len bs) c window max_retries now
             (written (dr_payload req) (repeat 0 256)) in
  req_wf req → is_u8 c → is_u8 window → is_u8 max_retries → (∀ x, security = Some x → ieee_wf (fs_src_ieee x)) →
  (bs < len <= 256)%nat →
  ft_wf s ∧ ft_acked s = 0 ∧ ft_asdu s = dr_payload req ∧ ft_total s = Z.of_nat (div_ceil len bs).
Proof.
  intros len bs s Hreq Hc Hw Hr Hsec Hlen.
  assert (bs = 64 ∨ bs = 48)%nat as Hbs by (unfold bs; destruct (bool_decide _); auto).
  pose proof (div_ceil_spec len bs ltac:(lia) ltac:(lia)) as [Hdiv H1]. set (t := div_ceil len bs) in *.
  assert (2 <= t <= 6)%nat as Ht by (destruct Hbs as [-> | ->]; lia).
  assert (ft_total s = Z.of_nat t) as Et by (unfold s, ft_open; simpl; unfold as_u8; apply Z.mod_small; lia).
  assert (ft_len s = Z.of_nat len) as El by (unfold s, ft_open; simpl; unfold as_u16; apply Z.mod_small; lia).
  assert (ft_block_size s = Z.of_nat bs) as Eb by (unfold s, ft_open; simpl; unfold as_u8; apply Z.mod_small; lia).
  assert (length (ft_payload s) = 256%nat) as Ep.
  { change (ft_payload s) with (written (dr_payload req) (repeat 0 256)). rewrite length_written by (rewrite repeat_length; lia).
    apply repeat_length. }
  assert (ft_static s) as Hst.
  { split; rewrite ?Et, ?El, ?Eb.
    - lia.
    - apply clamp_window_size_bounds, Hw.
    - change (ft_security s) with security. unfold bs, block_size_for, APS_SECURED_FRAGMENT_BLOCK_SIZE, APS_FRAGMENT_BLOCK_SIZE.
      destruct (bool_decide _); lia.
    - nia.
    - split_and!; [done|lia|]. apply Forall_app. split; [apply Hreq|]. apply Forall_drop. by repeat constructor.
    - destruct Hreq as [_ [] []]. simpl. done.
    - done.
    - done. }
  assert (0 <= ft_window_start s < ft_total s) as Hs by (rewrite Et; simpl; lia).
  pose proof (ft_window_end_eq s Hst Hs) as He. pose proof (fts_window s Hst). change (ft_window_start s) with 0 in *.
  assert (∀ n, 0 <= n → Z.testbit (ft_due s) n = bool_decide (0 <= n < ft_window_end s)) as Hdue.
  { intros n Hn. change (ft_due s) with (ft_window_mask s). rewrite ft_window_mask_bits by (done || lia). done. }
  split_and!; [|done| |done].
  - split; try done.
    + split; [done|]. change (ft_due s) with (ft_window_mask s). apply ft_window_mask_nonneg. done.
    + intros n Hn. change (ft_acked s) with 0. by rewrite Z.bits_0.
    + intros n Hn. change (ft_window_start s) with 0 in Hn. lia.
    + intros n Hn. rewrite Hdue, bool_decide_eq_true by done. change (ft_acked s) with 0. rewrite Z.bits_0. done.
    + exists 0. change (ft_acked s) with 0. rewrite Z.bits_0. change (ft_window_start s) with 0. split; [lia|done].
    + split; [done|]. intros H0. exfalso. revert H0. apply (due_nonzero _ 0); [lia|]. rewrite Hdue by lia.
      apply bool_decide_eq_true. lia.
    + unfold is_u8 in Hr. simpl. lia.
  - unfold ft_asdu. rewrite El, Nat2Z.id.
    change (ft_payload s) with (dr_payload req ++ drop len (repeat 0 256)). apply take_app_length.
Qed.

Section Start.
Context {P C E : Type} `{HF : ForwardAesProvider P C E} `{HN : NwkService P} (ready : P → Prop)
  (keyed : list Z → C → Prop) (aes : list Z → list Z → list Z) `{HL : !LawfulProvider ready keyed aes}
  `{HO : !NwkServiceOk ready}.

(** The key a secured request is sent under. *)
Definition request_origin (req : ApsdeDataRequest) (nwk_dst : ShortAddress) (l : ApsTx P) : option ApsKeyOrigin :=
  aps_data_key_origin (tx_security (tx_layer l)) (aib_trust_center_address (tx_aib l))
    (find_ieee_by_short (tx_nwk l) nwk_dst) nwk_dst.

(** The guards of [start_fragmented_tx], in their order. *)
Definition start_refusal (req : ApsdeDataRequest) (nwk_dst : ShortAddress) (mode : ApsDeliveryMode) (l : ApsTx P)
    : option ApsStatus :=
  let secured := to_security_enabled (dr_tx_options req) in
  if negb (bool_decide (mode = AdmUnicast)) || negb (to_ack_request (dr_tx_options req))
     || (APS_MAX_FRAGMENTED_ASDU <? length (dr_payload req))%nat then Some AsAsduTooLong
  else if fragmented_tx_active l then Some AsInsufficientSpace
  else if secured && bool_decide (request_origin req nwk_dst l = None) then Some AsSecurityFail
  else if (length (dr_payload req) <=? block_size_for secured)%nat then Some AsAsduTooLong
  else None.

(** The session opened for a request. *)
Definition opened_session (req : ApsdeDataRequest) (nwk_dst : ShortAddress) (l : ApsTx P) (s : FragmentTxSession) : Prop :=
  ft_static s ∧ ft_asdu s = dr_payload req ∧ ft_dst s = nwk_dst ∧
  ft_confirm s = data_confirm AsSuccess req (tx_aps_counter l) ∧
  ft_max_retries s = aib_max_frame_retries (tx_aib l) ∧
  ft_total s = Z.of_nat (div_ceil (length (dr_payload req)) (block_size_for (to_security_enabled (dr_tx_options req)))) ∧
  (ft_security s ≠ None ↔ to_security_enabled (dr_tx_options req) = true).

Lemma start_cases req nwk_dst mode radius (l : ApsTx P) :
  tx_layer_wf ready l → req_wf req →
  ∃ l' r, start_fragmented_tx req nwk_dst mode radius l = Ok (Some (l', r)) ∧
    match start_refusal req nwk_dst mode l with
    | Some st => l' = l ∧ r = inr st
    | None =>
        ∃ s, opened_session req nwk_dst l s ∧
        match r with
        | inl c => c = data_confirm AsSuccess req (tx_aps_counter l) ∧ tx_inv ready s (λ _, False) l' ∧
            ∀ s', tx_fragment l' = Some s' → ft_due s' = 0
        | inr st =>
            tx_fragment l' = None ∧
            (st = AsSecurityFail ∧ ft_security s ≠ None ∧
             tx_fragment_confirm l' = Some (data_confirm AsSecurityFail req (tx_aps_counter l)) ∨
             tx_fragment_confirm l' = None ∧ ∃ error, st = nwk_status_to_aps error)
        end
    end.
Proof using Type*.
  intros Hl Hreq. unfold start_fragmented_tx, start_refusal.
  destruct (_ || (_ <? _)%nat) eqn:Hg1; [by eexists _, _|]. apply orb_false_iff in Hg1 as [Hg1 Hlen%Nat.ltb_ge].
  unfold fragmented_tx_active. destruct (bool_decide (is_Some (tx_fragment l))) eqn:Hact; [by eexists _, _|].
  set (secured := to_security_enabled (dr_tx_options req)).
  fold (request_origin req nwk_dst l).
  set (security := if secured then _ else Some None).
  assert (match security with
    | None => secured && bool_decide (request_origin req nwk_dst l = None) = true
    | Some sec => secured && bool_decide (request_origin req nwk_dst l = None) = false ∧
        bool_decide (is_Some sec) = secured ∧ (∀ x, sec = Some x → ieee_wf (fs_src_ieee x)) ∧ (sec ≠ None ↔ secured = true)
    end) as Hsec.
  { unfold security. destruct secured; [|by split_and!]. destruct (request_origin req nwk_dst l); [|done]. cbn [option_map].
    split_and!; [done|done| |done]. intros x [= <-]. apply Hl. }
  destruct security as [sec|]; [|rewrite Hsec; by eexists _, _]. destruct Hsec as (-> & Hbsec & Hieee & Hiff).
  rewrite Hbsec. fold (block_size_for secured). set (bs := block_size_for secured) in *.
  set (len := length (dr_payload req)) in *. unfold APS_MAX_FRAGMENTED_ASDU in Hlen.
  assert (bs = 64 ∨ bs = 48)%nat as Hbs by (unfold bs; destruct secured; auto).
  rewrite block_count_guard by lia.
  destruct (Nat.leb_spec len bs) as [|Hbig]; [by eexists _, _|]. cbn [next_aps_counter fst snd].
  unfold copy_from_slice. rewrite (proj2 (Nat.leb_le 0 len)), (proj2 (Nat.leb_le len _)), (proj2 (Nat.eqb_eq _ _))
    by (rewrite ?repeat_length; unfold APS_MAX_FRAGMENTED_ASDU; lia).
  cbn [andb mbind outcome_bind]. change (take 0 (repeat 0 APS_MAX_FRAGMENTED_ASDU)) with (@nil Z). cbn [app].
  change (dr_payload req ++ drop len (repeat 0 APS_MAX_FRAGMENTED_ASDU)) with (written (dr_payload req) (repeat 0 256)).
  set (s := ft_open _ _ _ _ _ _ _ _ _ _ _). cbv zeta. set (l1 := set_tx_fragment_confirm None _).
  pose proof (ft_open_wf req nwk_dst radius sec (tx_aps_counter l) (aib_max_window_size (tx_aib l))
    (aib_max_frame_retries (tx_aib l)) (tx_now l)) as Hopen. cbv zeta in Hopen. rewrite Hbsec in Hopen.
  destruct Hopen as (Hwf & Ha0 & Hasdu & Htot); [done|apply Hl|apply Hl|apply Hl|done|fold bs len; lia|].
  fold bs len in Hwf, Ha0, Hasdu, Htot. change (ft_wf s) in Hwf. change (ft_acked s = 0) in Ha0.
  change (ft_asdu s = dr_payload req) in Hasdu. change (ft_total s = Z.of_nat (div_ceil len bs)) in Htot.
  assert (opened_session req nwk_dst l s) as Hos by (split_and!; [apply Hwf|done|done|done|done|done|done]).
  assert (tx_inv ready s (λ _, False) l1) as Hi1.
  { split; [apply Hl|]. simpl. split_and!; [done| |intros n Hn; by rewrite Z.bits_0|done]. by repeat eexists. }
  destruct (next_due_spec ready keyed aes l1 s eq_refl Hwf (tlw_ok _ _ Hl)) as (x' & l2 & r & Hd & Hx' & Hr).
  destruct (due_inv ready keyed aes s (λ _, False) l1 Hi1) as (l2' & r' & Hd' & Hi2). rewrite Hd in Hd'. injection Hd' as <- <-.
  rewrite Hd. cbn [mbind outcome_bind]. destruct (Z.eqb_spec (ft_due s) 0) as [H0|Hnz].
  { exfalso. apply (ftw_live s Hwf) in H0. done. }
  destruct Hr as [(-> & Hsn & ->)|(frame & -> & -> & _)].
  { eexists _, _. split; [reflexivity|]. exists s. split; [done|]. split; [done|]. left. done. }
  destruct (hand_down_spec ready s (λ _, False) (ft_dst s) (ft_radius s) frame (ft_use_nwk_key s) true _ Hi2) as (x2 & r2 & -> & Hx2).
  destruct r2 as [error|].
  { eexists _, _. split; [reflexivity|]. exists s. split; [done|]. split; [done|]. right. split; [done|by eexists]. }
  destruct (send_due_fragments_inv ready keyed aes s (λ _, False) _ (set_tx_layer_inv ready s _ _ x2 Hi2 Hx2)) as (l3 & -> & Hi3 & H3).
  cbn [mbind outcome_bind option_map]. eexists _, _. split; [reflexivity|]. exists s. done.
Qed.
End Start.

(** * Termination *)
Section Termination.
Context {P C E : Type} `{HF : ForwardAesProvider P C E} `{HN : NwkService P} (ready : P → Prop)
  (keyed : list Z → C → Prop) (aes : list Z → list Z → list Z) `{HL : !LawfulProvider ready keyed aes}.

(** A call of the timer finds that the acknowledgement did not come. *)
Definition timer_expired (l : ApsTx P) : bool :=
  match tx_fragment l with
  | Some s => ft_waiting s && negb (wrapping_sub_u32 (tx_now l) (ft_waiting_since_us s) <? APS_ACK_WAIT_DURATION_US)
  | None => false
  end.

Fixpoint ft_timeouts (l : ApsTx P) (evs : list (ft_event P)) : Z :=
  match evs with
  | [] => 0
  | ev :: evs =>
      (match ev with FtPoll => if timer_expired l then 1 else 0 | _ => 0 end) +
      match ft_step l ev with Ok l => ft_timeouts l evs | _ => 0 end
  end.

(** What is left of a transaction: the blocks not acknowledged, and for each
    of them a whole row of retries. *)
Definition unacked (s : FragmentTxSession) : Z :=
  Z.of_nat (count (λ n, negb (Z.testbit (ft_acked s) n)) (seqZ 0 (ft_total s))).
Definition ft_measure (l : ApsTx P) : Z :=
  match tx_fragment l with
  | Some s => unacked s * (ft_max_retries s + 1) + (ft_max_retries s - ft_retries s) + 1
  | None => 0
  end.

Lemma count_le_impl (p q : Z → bool) l : (∀ n, n ∈ l → p n = true → q n = true) → (count p l <= count q l)%nat.
Proof using.
  induction l as [|x l IH]; intros Hpq; cbn [count]; [done|].
  assert (count p l <= count q l)%nat by (apply IH; intros; apply Hpq; [by right|done]).
  pose proof (Hpq x ltac:(by left)). destruct (p x), (q x); simpl in *; try lia; by discriminate H0.
Qed.

Lemma count_lt_impl (p q : Z → bool) l b :
  (∀ n, n ∈ l → p n = true → q n = true) → b ∈ l → p b = false → q b = true → (count p l < count q l)%nat.
Proof using.
  induction l as [|x l IH]; intros Hpq Hb Hp Hq; [by apply elem_of_nil in Hb|]. cbn [count].
  apply elem_of_cons in Hb as [<-|Hb].
  - rewrite Hp, Hq. assert (count p l <= count q l)%nat; [|lia]. apply count_le_impl. intros; apply Hpq; [by right|done].
  - assert (count p l < count q l)%nat by (apply IH; [intros; apply Hpq; [by right|done]|done|done|done]).
    pose proof (Hpq x ltac:(by left)). destruct (p x), (q x); simpl in *; try lia; by discriminate H1.
Qed.

Lemma measure_pos s0 G l : tx_inv ready s0 G l → 0 <= ft_measure l.
Proof using.
  intros [_ Hst]. unfold ft_measure, unacked. destruct (tx_fragment l) as [s|]; [|done]. destruct Hst as [Hwf _].
  pose proof (ftw_retries s Hwf). nia.
Qed.

(** An acknowledgement that makes progress names a block that was missing. *)
Lemma newly_acked_witness s bf :
  ft_wf s → newly_acked s bf (seqZ 0 (ft_window_size s)) 0 ≠ 0 →
  ∃ b, 0 <= b < ft_total s ∧ names_block s (ft_window_start s) bf b ∧ Z.testbit (ft_acked s) b = false.
Proof using.
  intros Hwf Hnz. set (x := newly_acked s bf _ 0) in *. pose proof (ftw_start s Hwf).
  assert (0 <= x) as Hx.
  { apply newly_acked_nonneg; [lia|lia|]. apply Forall_forall. intros b Hb%elem_of_seqZ. lia. }
  assert (Z.testbit x (Z.log2 x) = true) as Hbit by (apply Z.bit_log2; lia). pose proof (Z.log2_nonneg x).
  unfold x at 1 in Hbit. rewrite newly_acked_spec in Hbit by (apply Hwf || done).
  apply andb_true_iff in Hbit as [Hbit Hb0]. apply negb_true_iff in Hb0. apply bool_decide_eq_true in Hbit as [Hlt Hn].
  by exists (Z.log2 x).
Qed.

Lemma measure_bound s0 G l :
  tx_inv ready s0 G l → ft_measure l <= Z.max 0 ((ft_total s0 + 1) * (ft_max_retries s0 + 1)).
Proof using.
  intros [_ Hst]. unfold ft_measure, unacked. destruct (tx_fragment l) as [s|]; [|lia].
  destruct Hst as (Hwf & (? & ? & ? & ? & ? & ? & ->) & _). pose proof (ftw_retries _ Hwf) as Hr. simpl in *.
  pose proof (fts_total _ (ftw_static _ Hwf)) as Ht. simpl in Ht.
  pose proof (count_le_length (λ n, negb (Z.testbit x0 n)) (seqZ 0 (ft_total s0))) as Hc. rewrite length_seqZ in Hc. nia.
Qed.

Lemma ack_measure s0 G l src c ext secured :
  tx_inv ready s0 G l → ft_measure (handle_fragment_ack src c ext secured l).1 <= ft_measure l.
Proof using.
  intros Hi. pose proof (measure_pos s0 G l Hi) as Hpos. pose proof Hi as [_ Hst]. unfold handle_fragment_ack.
  destruct (tx_fragment l) as [s|] eqn:Hs; [|done]. destruct Hst as [Hwf _].
  destruct (_ || _); [done|]. destruct (_ && _); [done|]. destruct (aeh_ack_bitfield ext) as [bf|]; [|done].
  pose proof (ft_apply_ack_spec s (aeh_block_number ext) bf Hwf) as Ha.
  assert (∀ s', newly_acked s bf (seqZ 0 (ft_window_size s)) 0 = 0 → ft_apply_ack (aeh_block_number ext) bf s ≠ (s', true)) as Hnew.
  { intros s' H0. unfold ft_apply_ack. destruct (negb _); [done|]. cbv zeta. by rewrite H0. }
  destruct (ft_apply_ack (aeh_block_number ext) bf s) as [s' progress]. destruct progress; simpl.
  2:{ subst s'. unfold ft_measure. simpl. by rewrite Hs. }
  destruct Ha as (Hws & (ws & d & Hs') & Hacked & _). destruct (ft_complete s'); [done|].
  unfold ft_measure. rewrite Hs. cbn [tx_fragment set_tx_fragment].
  assert (unacked s' + 1 <= unacked s) as Hlt.
  { assert (∃ b, 0 <= b < ft_total s ∧ Z.testbit (ft_acked s) b = false ∧ Z.testbit (ft_acked s') b = true) as (b & Hb & Hb0 & Hb1).
    { destruct (decide (newly_acked s bf (seqZ 0 (ft_window_size s)) 0 = 0)) as [H0|H0]; [by destruct (Hnew s' H0)|].
      destruct (newly_acked_witness s bf Hwf H0) as (b & Hb & Hn & Hb0). exists b. split_and!; [lia|lia|done|].
      rewrite Hacked, Hb0 by lia. apply bool_decide_eq_true. rewrite Hws. split; [lia|done]. }
    unfold unacked. rewrite Hs'. cbn [ft_total ft_acked ft_update].
    pose proof (count_lt_impl (λ n, negb (Z.testbit (ft_acked s') n)) (λ n, negb (Z.testbit (ft_acked s) n))
      (seqZ 0 (ft_total s)) b) as Hc. simpl in Hc. rewrite Hb0, Hb1 in Hc.
    specialize (λ H, Hc H ltac:(apply elem_of_seqZ; lia) eq_refl eq_refl).
    assert (count (λ n, negb (Z.testbit (ft_acked s') n)) (seqZ 0 (ft_total s)) <
      count (λ n, negb (Z.testbit (ft_acked s) n)) (seqZ 0 (ft_total s)))%nat; [|lia]. apply Hc.
    intros n Hn%elem_of_seqZ. rewrite !negb_true_iff, Hacked by lia. by intros [? _]%orb_false_iff. }
  rewrite Hs' in *. cbn [ft_max_retries ft_retries ft_update] in *. pose proof (ftw_retries s Hwf). unfold unacked in *. nia.
Qed.

Lemma step_measure s0 G l ev :
  tx_inv ready s0 G l → ev_ok ready ev →
  ∃ l', ft_step l ev = Ok l' ∧
    (match ev with FtPoll => if timer_expired l then 1 else 0 | _ => 0 end) + ft_measure l' <= ft_measure l.
Proof using HL.
  intros Hi Hev. pose proof (measure_pos s0 G l Hi) as Hpos. destruct ev as [| |src c ext secured|x].
  - pose proof Hi as [Hok Hst]. cbn [ft_step]. destruct (tx_fragment l) as [s|] eqn:Hs.
    2:{ exists l. split; [|lia]. unfold next_due_fragment. by rewrite Hs. }
    destruct Hst as [Hwf _]. destruct (next_due_spec ready keyed aes l s Hs Hwf Hok) as (x' & l' & r & -> & _ & Hr).
    cbn [mbind outcome_bind]. exists l'. split; [done|]. destruct (ft_due s =? 0); [destruct Hr as [-> _]; lia|].
    destruct Hr as [(_ & _ & ->)|(frame & _ & -> & _)].
    + unfold finish_fragment_tx, ft_measure at 1. simpl. lia.
    + unfold ft_measure. rewrite Hs. simpl. unfold unacked. simpl. lia.
  - cbn [ft_step]. pose proof Hi as [_ Hst]. unfold timer_expired, poll_fragment_tx_timeout.
    destruct (tx_fragment l) as [s|] eqn:Hs; [|exists l; split; [done|lia]]. destruct Hst as [Hwf _].
    destruct (ft_waiting s) eqn:Hw; cbn [negb orb andb]; [|exists l; split; [done|lia]].
    destruct (_ <? APS_ACK_WAIT_DURATION_US); cbn [negb]; [exists l; split; [done|lia]|].
    unfold ft_measure in *. rewrite Hs in *. pose proof (ftw_retries s Hwf) as Hr.
    destruct (Z.leb_spec (ft_max_retries s) (ft_retries s)) as [|Hlt].
    { eexists. split; [done|]. unfold finish_fragment_tx. simpl. unfold unacked. nia. }
    pose proof (fts_retries s (ftw_static s Hwf)) as Hmax. unfold add_u8.
    rewrite (proj2 (Z.ltb_lt _ _)) by (unfold is_u8 in Hmax; lia). cbn [mbind outcome_bind]. eexists. split; [done|].
    cbn [tx_fragment set_tx_fragment]. destruct (ft_lowest_unacked _); unfold unacked; simpl; lia.
  - eexists. split; [done|]. simpl. by apply (ack_measure s0 G).
  - eexists. split; [done|]. unfold ft_measure. simpl. lia.
Qed.

Lemma run_timeouts s0 G l evs :
  tx_inv ready s0 G l → Forall (ev_ok ready) evs → ft_timeouts l evs <= ft_measure l.
Proof using HL.
  intros Hi Hev. revert G l Hi. induction Hev as [|ev evs Hev _ IH]; intros G l Hi; cbn [ft_timeouts].
  { by apply (measure_pos s0 G). }
  destruct (step_measure s0 G l ev Hi Hev) as (l' & Hs & Hm).
  destruct (ft_step_inv ready keyed aes s0 G l ev Hi Hev) as (l1 & Hs' & Hi1). rewrite Hs in *. injection Hs' as <-.
  specialize (IH _ l' Hi1). lia.
Qed.
End Termination.

(** * Properties *)
Section Properties.
Context {P C E : Type} `{HF : ForwardAesProvider P C E} `{HN : NwkService P} (ready : P → Prop)
  (keyed : list Z → C → Prop) (aes : list Z → list Z → list Z) `{HL : !LawfulProvider ready keyed aes}
  `{HO : !NwkServiceOk ready}.

(** C36. Starting a fragmented transaction always answers.  A request that is
    not an acknowledged unicast, or whose ASDU is over 256 octets or fits one
    block, one that meets a transaction in flight, and one that has no link
    key is refused with the status the code names, and nothing changes.  Past
    these guards a failure leaves no transaction; when it is a block that
    cannot be secured, the status is also left as the result of a finished
    transaction. *)
Theorem start_fragmented_refusals (req : ApsdeDataRequest) (nwk_dst : ShortAddress) (mode : ApsDeliveryMode)
    (radius : Z) (l : ApsTx P) :
  tx_layer_wf ready l → req_wf req →
  ∃ l' r, start_fragmented_tx req nwk_dst mode radius l = Ok (Some (l', r)) ∧
    match start_refusal req nwk_dst mode l with
    | Some st => l' = l ∧ r = inr st
    | None =>
        match r with
        | inl c => c = data_confirm AsSuccess req (tx_aps_counter l)
        | inr st => tx_fragment l' = None ∧
            (st = AsSecurityFail ∧ to_security_enabled (dr_tx_options req) = true ∧
               (take_fragmented_tx_confirm l').2 = Some (data_confirm AsSecurityFail req (tx_aps_counter l)) ∨
             (take_fragmented_tx_confirm l').2 = None ∧ ∃ error, st = nwk_status_to_aps error)
        end
    end.
Proof using Type*.
  intros Hl Hreq. destruct (start_cases ready keyed aes req nwk_dst mode radius l Hl Hreq) as (l' & r & Hs & Hr).
  exists l', r. split; [done|]. destruct (start_refusal req nwk_dst mode l); [done|].
  destruct Hr as (s & (_ & _ & _ & _ & _ & _ & Hsec) & Hr). destruct r as [c|st]; [apply Hr|]. rewrite <- Hsec. done.
Qed.

(** C6. Whatever happens after a request was accepted, blocks handed out,
    timers, acknowledgements from anyone, changes in the layers below, nothing
    panics, and the result reported is the request's own and [SUCCESS] only if
    for every block of the ASDU an acknowledgement arrived that names it: from
    the destination, for this counter and, for a secured transaction, secured.
    While no result is there the transaction is never stuck: a block is due or
    the acknowledgement timer runs. *)
Theorem fragment_tx_success_sound (req : ApsdeDataRequest) (nwk_dst : ShortAddress) (mode : ApsDeliveryMode)
    (radius : Z) (l l1 : ApsTx P) (c : ApsdeDataConfirm) (evs : list (ft_event P)) :
  tx_layer_wf ready l → req_wf req → Forall (ev_ok ready) evs →
  start_fragmented_tx req nwk_dst mode radius l = Ok (Some (l1, inl c)) →
  ∃ s l', opened_session req nwk_dst l s ∧ ft_run l1 evs = Ok l' ∧
    match tx_fragment l' with
    | Some s' => tx_fragment_confirm l' = None ∧ (ft_due s' ≠ 0 ∨ ft_waiting s' = true)
    | None => ∃ st, tx_fragment_confirm l' = Some (data_confirm st req (tx_aps_counter l)) ∧
        (st = AsSuccess → ∀ n, 0 <= n < ft_total s → Exists (acknowledges s n) evs) ∧
        (st = AsSuccess ∨ st = AsNoAck ∨ st = AsSecurityFail ∧ to_security_enabled (dr_tx_options req) = true)
    end.
Proof using Type*.
  intros Hl Hreq Hev Hstart. destruct (start_cases ready keyed aes req nwk_dst mode radius l Hl Hreq) as (l' & r & Hs & Hr).
  rewrite Hstart in Hs. injection Hs as <- <-. destruct (start_refusal req nwk_dst mode l); [by destruct Hr|].
  destruct Hr as (s & Hos & _ & Hi & _). destruct (ft_run_inv ready keyed aes s _ l1 evs Hi Hev) as (l' & Hrun & [_ Hst]).
  exists s, l'. split; [done|]. split; [done|]. destruct Hos as (_ & _ & _ & Hc & _ & _ & Hsec).
  destruct (tx_fragment l') as [s'|].
  - destruct Hst as (Hwf & _ & _ & ->). split; [done|]. destruct (ft_waiting s') eqn:Hw; [by right|left].
    intros H0. apply (ftw_live s' Hwf) in H0. congruence.
  - destruct Hst as (st & -> & Hst). exists st. rewrite Hc. split; [done|]. rewrite <- Hsec. split; [|tauto].
    intros -> n Hn. destruct Hst as [[_ Hall]|[?|[? _]]]; [|done..]. destruct (Hall n Hn); done.
Qed.

(** C32. A transaction ends: over any history the acknowledgement timer expires
    at most [(total + 1) * (max_retries + 1)] times, however the destination
    answers; and [service_fragment_tx] always returns, leaving a transaction
    that is still in flight with nothing due and the timer running, so that
    the next expiry or acknowledgement is the next thing to happen. *)
Theorem fragment_tx_terminates (req : ApsdeDataRequest) (nwk_dst : ShortAddress) (mode : ApsDeliveryMode)
    (radius : Z) (l l1 : ApsTx P) (c : ApsdeDataConfirm) (evs : list (ft_event P)) :
  tx_layer_wf ready l → req_wf req → Forall (ev_ok ready) evs →
  start_fragmented_tx req nwk_dst mode radius l = Ok (Some (l1, inl c)) →
  ∃ s l' l'', opened_session req nwk_dst l s ∧
    ft_timeouts l1 evs <= (ft_total s + 1) * (aib_max_frame_retries (tx_aib l) + 1) ∧
    ft_run l1 evs = Ok l' ∧ service_fragment_tx l' = Ok (Some l'') ∧
    ∀ s'', tx_fragment l'' = Some s'' → ft_due s'' = 0 ∧ ft_waiting s'' = true.
Proof using Type*.
  intros Hl Hreq Hev Hstart. destruct (start_cases ready keyed aes req nwk_dst mode radius l Hl Hreq) as (l' & r & Hs & Hr).
  rewrite Hstart in Hs. injection Hs as <- <-. destruct (start_refusal req nwk_dst mode l); [by destruct Hr|].
  destruct Hr as (s & Hos & _ & Hi & _).
  destruct (ft_run_inv ready keyed aes s _ l1 evs Hi Hev) as (l' & Hrun & Hi').
  destruct (poll_inv ready s _ l' Hi') as (l2 & Hpoll & Hi2).
  destruct (send_due_fragments_inv ready keyed aes s _ l2 Hi2) as (l'' & Hsend & [_ Hst] & Hdue).
  exists s, l', l''. split_and!; [done| |done|unfold service_fragment_tx; by rewrite Hpoll|].
  - pose proof (run_timeouts ready keyed aes s _ l1 evs Hi Hev) as Ht.
    pose proof (measure_bound ready s _ l1 Hi). destruct Hos as (Hss & _ & _ & _ & <- & _). pose proof (fts_retries s Hss) as Hmr.
    pose proof (fts_total s Hss). unfold is_u8 in Hmr. assert (0 <= (ft_total s + 1) * (ft_max_retries s + 1)) by nia. lia.
  - intros s'' Hs''. rewrite Hs'' in Hst. specialize (Hdue s'' Hs''). split; [done|]. by apply (ftw_live s'' (proj1 Hst)).
Qed.
End Properties.

(** * Witnesses *)
Import ToyAes.

(** A lower layer that accepts every frame. *)
#[export] Instance toy_nwk : NwkService unit := {|
  nwk_neighbors := λ _, nt_new; nwk_address_map := λ _, []; nwk_has_active_key := λ _, true;
  monotonic_micros := λ _, 0; delay_micros := λ _ p, p;
  nlde_data_request := λ _ _ _ _ _ s, (s.1, s.2, None) |}.

#[export] Instance toy_nwk_ok : NwkServiceOk (λ _ : unit, True).
Proof. split; [done|]. intros dst radius frame k d [s nib []] Hx. exact Hx. Qed.

Definition ex_layer : ApsTx unit :=
  mk_ApsTx (mk_TxSecurity asec_new nib_new tt) aib_new [] 9 ack_new None None.
Definition ex_request (n : nat) : ApsdeDataRequest :=
  mk_ApsdeDataRequest AmShort (AaShort 0x1234) 2 0x0104 6 1 (repeat 7 n)
    (mk_ApsTxOptions false true true true false) 0 None None.

Lemma ex_layer_wf : tx_layer_wf (λ _ : unit, True) ex_layer.
Proof.
  split; try done.
  - split; [done| |].
    + apply keys_wf_intro; [constructor|split; [done|by repeat constructor]|done].
    + intros [p k| |]; [done|vm_compute; intuition discriminate..].
  - by apply (bool_decide_unpack (ieee_wf (repeat 0 8))).
Qed.

Lemma ex_request_wf n : req_wf (ex_request n).
Proof. split; [|done|done]. simpl. induction n; constructor; done. Qed.

Lemma start_fragmented_refusals_witness :
  ∃ l' r, start_fragmented_tx (ex_request 60) 0x1234 AdmUnicast 30 ex_layer = Ok (Some (l', r)) ∧
    l' = ex_layer ∧ r = inr AsAsduTooLong.
Proof.
  destruct (start_fragmented_refusals (λ _ : unit, True) (λ key (c : list Z), c = key) ToyAes.aes
    (ex_request 60) 0x1234 AdmUnicast 30 ex_layer ex_layer_wf (ex_request_wf 60)) as (l' & r & H1 & H2).
  exists l', r. split; [exact H1|exact H2].
Defined.

Definition ex_acks : list (ft_event unit) :=
  [FtPoll; FtAck 0x1234 9 (mk_ApsExtendedHeader FRAG_FIRST 0 (Some 1)) false; FtDue;
   FtAck 0x4321 9 (mk_ApsExtendedHeader FRAG_FIRST 0 (Some 255)) false;
   FtAck 0x1234 9 (mk_ApsExtendedHeader FRAG_SUBSEQUENT 0 (Some 255)) false].

Lemma ex_acks_ok : Forall (ev_ok (λ _ : unit, True)) ex_acks.
Proof. by repeat constructor. Qed.

Lemma fragment_tx_success_sound_witness :
  ∃ l1 l', start_fragmented_tx (ex_request 100) 0x1234 AdmUnicast 30 ex_layer
      = Ok (Some (l1, inl (data_confirm AsSuccess (ex_request 100) 9))) ∧ ft_run l1 ex_acks = Ok l' ∧
    tx_fragment_confirm l' = Some (data_confirm AsSuccess (ex_request 100) 9).
Proof.
  destruct (start_fragmented_tx (ex_request 100) 0x1234 AdmUnicast 30 ex_layer) as [[[l1 [c|]]|]| |] eqn:Hs;
    vm_compute in Hs; try discriminate Hs. injection Hs as Hl <-.
  destruct (fragment_tx_success_sound (λ _ : unit, True) (λ key (c : list Z), c = key) ToyAes.aes
    (ex_request 100) 0x1234 AdmUnicast 30 ex_layer l1 (data_confirm AsSuccess (ex_request 100) 9) ex_acks
    ex_layer_wf (ex_request_wf 100) ex_acks_ok) as (s & l' & _ & Hr & H).
  - rewrite <- Hl. vm_compute. reflexivity.
  - exists l1, l'. split; [rewrite <- Hl; vm_compute; reflexivity|]. split; [exact Hr|].
    rewrite <- Hl in Hr. vm_compute in Hr. injection Hr as <-. reflexivity.
Defined.

Lemma fragment_tx_terminates_witness :
  ∃ l1, start_fragmented_tx (ex_request 100) 0x1234 AdmUnicast 30 ex_layer
      = Ok (Some (l1, inl (data_confirm AsSuccess (ex_request 100) 9))) ∧
    ∃ l' l'', ft_run l1 ex_acks = Ok l' ∧ service_fragment_tx l' = Ok (Some l'').
Proof.
  destruct (start_fragmented_tx (ex_request 100) 0x1234 AdmUnicast 30 ex_layer) as [[[l1 [c|]]|]| |] eqn:Hs;
    vm_compute in Hs; try discriminate Hs. injection Hs as Hl <-.
  destruct (fragment_tx_terminates (λ _ : unit, True) (λ key (c : list Z), c = key) ToyAes.aes
    (ex_request 100) 0x1234 AdmUnicast 30 ex_layer l1 (data_confirm AsSuccess (ex_request 100) 9) ex_acks
    ex_layer_wf (ex_request_wf 100) ex_acks_ok) as (s & l' & l'' & _ & _ & H1 & H2 & _).
  - rewrite <- Hl. vm_compute. reflexivity.
  - exists l1. split; [rewrite <- Hl; vm_compute; reflexivity|]. exists l', l''. split; [exact H1|exact H2].
Defined.
