(* ===== verification/ApsService.v ===== *)
(** The APS data service: the send and receive paths of
    [zigbee-aps/src/apsde.rs].

    [apsde_data_request] builds, secures and hands down a data frame, or opens
    a fragmented transaction; [process_incoming] parses, decrypts and
    dispatches a received frame, rejects duplicates, feeds fragments into
    reassembly, matches acknowledgements and queues the ones it owes, which
    [send_pending_aps_ack] sends.  Command frames are handed over where the
    handlers of the security commands begin.  The theorems compose both ends:
    what one side requests is what the other side indicates, octet for octet
    through the wire format, fragmented or not, and the acknowledgement
    confirms it. *)
From S2P Require Import Prelude.
From S2P Require Import ZigbeeTypes.
From S2P Require Import NwkAddressMap.
From S2P Require Import NwkNeighbor.
From S2P Require Import NwkNib.
From S2P Require Import Crypto.
From S2P Require Import ApsFrames.
From S2P Require Import ApsTables.
From S2P Require Import ApsFragment.
From S2P Require Import ApsSecurity.
From S2P Require Import ApsSecured.
From S2P Require Import ApsDelivery.
From S2P Require Import ApsFragmentTx.

Local Open Scope Z_scope.




(** [radius], or twice the depth of the network. *)
Definition default_radius (n : Nib) : Z := Z.min (nib_max_depth n * 2) 255.

Section Request.
Context {P C E : Type} `{ForwardAesProvider P C E} `{NwkService P}.




End Request.

(** * Acknowledgements owed *)
Record PendingApsAck := mk_PendingApsAck {
  pk_dst_addr : ShortAddress;
  pk_dst_endpoint : Z;
  pk_src_endpoint : Z;
  pk_cluster_id : Z;
  pk_profile_id : Z;
  pk_aps_counter : Z;
  pk_command : bool;
  pk_fragment : option FragmentAck;
  pk_aps_security : option ApsKeyOrigin }.

Definition build_aps_ack_header (ack : PendingApsAck) (aps_secured : bool) : ApsHeader :=
  let addressed (v : Z) := if negb (pk_command ack) then Some v else None in
  mk_ApsHeader
    (mk_ApsFrameControl 2 0 (pk_command ack) aps_secured false (bool_decide (is_Some (pk_fragment ack))))
    (addressed (pk_dst_endpoint ack)) None (addressed (pk_cluster_id ack)) (addressed (pk_profile_id ack))
    (addressed (pk_src_endpoint ack)) (pk_aps_counter ack)
    (option_map (λ f, mk_ApsExtendedHeader (fa_fragmentation f) (fa_window_start f) (Some (fa_bitfield f)))
       (pk_fragment ack)).

(** [struct IncomingNwkSecurity] *)
Record IncomingNwkSecurity := mk_IncomingNwkSecurity {
  in_secured : bool; in_source : option IeeeAddress; in_originator : option IeeeAddress }.

(** [struct ApsdeDataIndication] *)
Record ApsdeDataIndication := mk_ApsdeDataIndication {
  di_dst_addr_mode : ApsAddressMode;
  di_dst_address : ApsAddress;
  di_dst_endpoint : Z;
  di_src_addr_mode : ApsAddressMode;
  di_src_address : ApsAddress;
  di_src_endpoint : Z;
  di_profile_id : Z;
  di_cluster_id : Z;
  di_payload : list Z;
  di_aps_counter : Z;
  di_security_status : bool;
  di_lqi : Z }.

(** The layer with the parts that receiving changes. *)
Record ApsLayer (P : Type) := mk_ApsLayer {
  al_tx : ApsTx P;
  al_group_table : list GroupEntry;
  al_dup_table : list ApsDuplicateEntry;
  al_fragment_rx : list ReassemblyEntry;
  al_pending_aps_ack : option PendingApsAck;
  al_pending_rx_rollback : option ApsRxRollback;
  al_pending_data_replay : option ApsReplayCounter;
  al_pending_application_key_replay : option ApsReplayCounter;
  al_pending_network_key_replay : option ApsReplayCounter;
  al_pending_security_indication_persistence : bool;
  al_application_link_key_installation_enabled : bool;
  al_network_key_persistence_enabled : bool }.
Arguments mk_ApsLayer {P}.
Arguments al_tx {P}.
Arguments al_group_table {P}.
Arguments al_dup_table {P}.
Arguments al_fragment_rx {P}.
Arguments al_pending_aps_ack {P}.
Arguments al_pending_rx_rollback {P}.
Arguments al_pending_data_replay {P}.
Arguments al_pending_application_key_replay {P}.
Arguments al_pending_network_key_replay {P}.
Arguments al_pending_security_indication_persistence {P}.
Arguments al_application_link_key_installation_enabled {P}.
Arguments al_network_key_persistence_enabled {P}.

(** What the security command handlers get of a command frame. *)
Record RxCommandFrame := mk_RxCommandFrame {
  rc_payload : list Z;
  rc_aps_secured : bool;
  rc_decrypted : option ApsDecryptOutcome }.

(** How the reception of a frame ends. *)
Inductive rx_result :=
| RxNone
| RxIndication (ind : ApsdeDataIndication)
| RxCommand (frame : RxCommandFrame).

Section Receive.
Context {P C E : Type} `{ForwardAesProvider P C E} `{NwkService P}.

Definition set_al_tx (x : ApsTx P) (l : ApsLayer P) : ApsLayer P :=
  let 'mk_ApsLayer _ g d f a b r k n s i p := l in mk_ApsLayer x g d f a b r k n s i p.
Definition set_al_dup_table (x : list ApsDuplicateEntry) (l : ApsLayer P) : ApsLayer P :=
  let 'mk_ApsLayer t g _ f a b r k n s i p := l in mk_ApsLayer t g x f a b r k n s i p.
Definition set_al_fragment_rx (x : list ReassemblyEntry) (l : ApsLayer P) : ApsLayer P :=
  let 'mk_ApsLayer t g d _ a b r k n s i p := l in mk_ApsLayer t g d x a b r k n s i p.
Definition set_al_pending_aps_ack (x : option PendingApsAck) (l : ApsLayer P) : ApsLayer P :=
  let 'mk_ApsLayer t g d f _ b r k n s i p := l in mk_ApsLayer t g d f x b r k n s i p.
Definition set_al_pending_rx_rollback (x : option ApsRxRollback) (l : ApsLayer P) : ApsLayer P :=
  let 'mk_ApsLayer t g d f a _ r k n s i p := l in mk_ApsLayer t g d f a x r k n s i p.
Definition set_al_pending_data_replay (x : option ApsReplayCounter) (l : ApsLayer P) : ApsLayer P :=
  let 'mk_ApsLayer t g d f a b _ k n s i p := l in mk_ApsLayer t g d f a b x k n s i p.

Definition al_nwk (l : ApsLayer P) : P := tx_nwk (al_tx l).
Definition al_now (l : ApsLayer P) : Z := tx_now (al_tx l).
Definition al_timeout (l : ApsLayer P) : Z := duplicate_rejection_timeout_us (tx_aib (al_tx l)).

Definition discard_pending_aps_ack (l : ApsLayer P) : ApsLayer P := set_al_pending_aps_ack None l.

Definition queue_data_ack_inner (header : ApsHeader) (nwk_src : ShortAddress) (aps_security : option ApsKeyOrigin)
    (fragment : option FragmentAck) (l : ApsLayer P) : ApsLayer P :=
  if negb (afc_ack_request (ah_frame_control header)) || negb (afc_delivery_mode (ah_frame_control header) =? 0)
  then l
  else
    set_al_pending_aps_ack
      (Some (mk_PendingApsAck nwk_src (default 0 (ah_src_endpoint header)) (default 0 (ah_dst_endpoint header))
               (default 0 (ah_cluster_id header)) (default 0 (ah_profile_id header)) (ah_aps_counter header)
               false fragment aps_security)) l.

Definition queue_data_ack (header : ApsHeader) (nwk_src : ShortAddress) (aps_security : option ApsKeyOrigin)
    (l : ApsLayer P) : ApsLayer P :=
  queue_data_ack_inner header nwk_src aps_security None l.

(** One received fragment; [true]: the ASDU is complete and in the buffer. *)
Definition receive_fragment (header : ApsHeader) (nwk_src : ShortAddress) (replay_duplicate : bool)
    (aps_security : option ApsKeyOrigin) (block_in_decrypted_buf : bool) (after_header : list Z)
    (buf : ApsFrameBuffer) (l : ApsLayer P) : outcome Empty_set (ApsLayer P * ApsFrameBuffer * bool) :=
  match ah_extended_header header with
  | None => Ok (l, buf, false)
  | Some ext =>
      if negb (afc_ack_request (ah_frame_control header)) || negb (afc_delivery_mode (ah_frame_control header) =? 0)
      then Ok (l, buf, false)
      else if replay_duplicate then Ok (l, buf, false)
      else
        let counter := ah_aps_counter header in
        match find_duplicate (al_dup_table l) (al_now l) (al_timeout l) nwk_src counter true with
        | Some i =>
            entry ← index (al_dup_table l) i;
            let window_start := default 0 (dup_fragment_window entry) in
            Ok (queue_data_ack_inner header nwk_src aps_security
                  (Some (mk_FragmentAck (aeh_fragmentation ext) window_start 0xFF)) l, buf, false)
        | None =>
            let src_ieee := match find_ieee_by_short (al_nwk l) nwk_src with Some a => nonzero_ieee a | None => None end in
            let now := al_now l in
            let window_size := aib_max_window_size (tx_aib (al_tx l)) in
            let block := if aeh_fragmentation ext =? FRAG_FIRST then 0 else aeh_block_number ext in
            payload ← (if block_in_decrypted_buf then frame_buffer_payload buf else Ok after_header);
            '(t, out) ← insert_block (al_fragment_rx l) now window_size nwk_src src_ieee counter
                          (aeh_fragmentation ext) (aeh_block_number ext) payload;
            let l := set_al_fragment_rx t l in
            let buf := if block_in_decrypted_buf then frame_buffer_clear buf else buf in
            let rollback := RbFragmentBlock nwk_src counter block in
            match out with
            | FoPending ack stored =>
                let l := if stored then set_al_pending_rx_rollback (Some rollback) l else l in
                let l := if bool_decide (is_Some ack) then queue_data_ack_inner header nwk_src aps_security ack l else l in
                Ok (l, buf, false)
            | FoComplete ack =>
                '(t, data, len) ← take_reassembled (al_fragment_rx l) nwk_src src_ieee counter (fb_data buf);
                let l := set_al_fragment_rx t l in
                match len with
                | None => Ok (l, mk_ApsFrameBuffer data (fb_len buf), false)
                | Some len =>
                    let l := set_al_dup_table (record_duplicate (al_dup_table l) (al_now l) (al_timeout l) nwk_src
                               counter (Some (fa_window_start ack))) l in
                    let l := set_al_pending_rx_rollback (Some rollback) l in
                    let l := queue_data_ack_inner header nwk_src aps_security (Some ack) l in
                    Ok (l, mk_ApsFrameBuffer data len, true)
                end
            | FoRejected => Ok (l, buf, false)
            end
        end
  end.

(** The indication of a data frame. *)
Definition data_indication (header : ApsHeader) (nwk_src nwk_dst lqi : Z) (secured : bool) (payload : list Z)
    : option ApsdeDataIndication :=
  match aps_delivery_mode_from_u8 (afc_delivery_mode (ah_frame_control header)) with
  | None => None
  | Some dm =>
      let '(mode, address, ep) :=
        match dm with
        | AdmUnicast | AdmBroadcast => (AmShort, AaShort nwk_dst, default 0 (ah_dst_endpoint header))
        | AdmGroup => (AmGroup, AaGroup (default 0 (ah_group_address header)), 0xFF)
        | AdmIndirect => (AmIndirect, AaShort nwk_dst, default 0 (ah_dst_endpoint header))
        end in
      Some (mk_ApsdeDataIndication mode address ep AmShort (AaShort nwk_src) (default 0 (ah_src_endpoint header))
              (default 0 (ah_profile_id header)) (default 0 (ah_cluster_id header)) payload
              (ah_aps_counter header) secured lqi)
  end.

(** The group of a group-addressed frame has a member on this device. *)
Definition group_accepts (header : ApsHeader) (l : ApsLayer P) : bool :=
  negb (afc_delivery_mode (ah_frame_control header) =? 3)
  || match ah_group_address header with
     | Some group => bool_decide (is_Some (gt_find (al_group_table l) group))
     | None => false
     end.

Definition is_fragmented (header : ApsHeader) : bool :=
  match ah_extended_header header with Some ext => negb (aeh_fragmentation ext =? FRAG_NONE) | None => false end.

(** [ApsFrameType::Data] and what follows it. *)
Definition receive_data (header : ApsHeader) (nwk_src nwk_dst lqi : Z) (nwk_security : IncomingNwkSecurity)
    (decrypted : option ApsDecryptOutcome) (after_header : list Z) (buf : ApsFrameBuffer) (l : ApsLayer P)
    : outcome Empty_set (ApsLayer P * ApsFrameBuffer * rx_result) :=
  let aps_secured := afc_security (ah_frame_control header) in
  let in_buf := bool_decide (is_Some decrypted) in
  let replay_duplicate := match decrypted with Some o => ado_replay_duplicate o | None => false end in
  let origin := option_map ado_key_origin decrypted in
  let indicate (in_buf : bool) (l : ApsLayer P) (buf : ApsFrameBuffer) :=
    payload ← (if in_buf then frame_buffer_payload buf else Ok after_header);
    Ok (l, buf, match data_indication header nwk_src nwk_dst lqi (aps_secured || in_secured nwk_security) payload with
                | Some ind => RxIndication ind
                | None => RxNone
                end) in
  if negb (group_accepts header l) then Ok (l, buf, RxNone)
  else if is_fragmented header then
    '(l, buf, complete) ← receive_fragment header nwk_src replay_duplicate origin in_buf after_header buf l;
    if negb complete then Ok (l, buf, RxNone) else indicate true l buf
  else if replay_duplicate then Ok (queue_data_ack header nwk_src origin l, buf, RxNone)
  else
    let '(t, duplicate) := is_aps_duplicate (al_dup_table l) (al_now l) (al_timeout l) nwk_src (ah_aps_counter header) in
    let l := set_al_dup_table t l in
    if duplicate then Ok (queue_data_ack header nwk_src origin l, buf, RxNone)
    else
      let l := set_al_pending_rx_rollback (Some (RbDuplicate nwk_src (ah_aps_counter header))) l in
      let l := queue_data_ack header nwk_src origin l in
      indicate in_buf l buf.

(** [ApsFrameType::Ack] *)
Definition receive_ack (header : ApsHeader) (nwk_src : ShortAddress) (replay_duplicate : bool) (l : ApsLayer P)
    : outcome Empty_set (ApsLayer P) :=
  let aps_secured := afc_security (ah_frame_control header) in
  if replay_duplicate then Ok l
  else
    match ah_extended_header header with
    | Some ext =>
        if negb (aeh_fragmentation ext =? FRAG_NONE)
        then Ok (set_al_tx (handle_fragment_ack nwk_src (ah_aps_counter header) ext aps_secured (al_tx l)).1 l)
        else
          '(a, _) ← confirm_ack_with_security nwk_src (ah_aps_counter header) aps_secured (tx_ack (al_tx l));
          Ok (set_al_tx (set_tx_ack a (al_tx l)) l)
    | None =>
        '(a, _) ← confirm_ack_with_security nwk_src (ah_aps_counter header) aps_secured (tx_ack (al_tx l));
        Ok (set_al_tx (set_tx_ack a (al_tx l)) l)
    end.

(** [ApsFrameType::Command], up to the handlers of the commands. *)
Definition receive_command (header : ApsHeader) (nwk_src : ShortAddress) (decrypted : option ApsDecryptOutcome)
    (after_header : list Z) (buf : ApsFrameBuffer) (l : ApsLayer P)
    : outcome Empty_set (ApsLayer P * ApsFrameBuffer * rx_result) :=
  let l :=
    if afc_ack_request (ah_frame_control header) && (afc_delivery_mode (ah_frame_control header) =? 0)
       && nwk_has_active_key (al_nwk l)
    then set_al_pending_aps_ack (Some (mk_PendingApsAck nwk_src 0 0 0 0 (ah_aps_counter header) true None None)) l
    else l in
  if match decrypted with Some o => ado_replay_duplicate o | None => false end then Ok (l, buf, RxNone)
  else
    cmd_payload ← (if bool_decide (is_Some decrypted) then frame_buffer_payload buf else Ok after_header);
    if (length cmd_payload =? 0)%nat then Ok (l, buf, RxNone)
    else Ok (l, buf, RxCommand (mk_RxCommandFrame cmd_payload (afc_security (ah_frame_control header)) decrypted)).

(** A durable commit is pending. *)
Definition commit_pending (l : ApsLayer P) : bool :=
  bool_decide (is_Some (al_pending_data_replay l)) || bool_decide (is_Some (al_pending_application_key_replay l))
  || bool_decide (is_Some (al_pending_network_key_replay l)) || al_pending_security_indication_persistence l.

(** [process_incoming_aps_frame_with_data_persistence] *)
Definition process_incoming (nwk_payload : list Z) (nwk_src nwk_dst lqi : Z) (nwk_security : IncomingNwkSecurity)
    (buf : ApsFrameBuffer) (defer_data_replay : bool) (replay_commit : ApsReplayCounter → bool) (l : ApsLayer P)
    : outcome Empty_set (ApsLayer P * ApsFrameBuffer * rx_result) :=
  if commit_pending l then Ok (l, buf, RxNone)
  else
    let l := set_al_pending_rx_rollback None l in
    let l := set_al_fragment_rx (finalize_delivered (al_fragment_rx l)) l in
    match aps_header_parse nwk_payload with
    | Panic => Panic
    | Err _ => Ok (l, buf, RxNone)
    | Ok (header, consumed) =>
        after_header ← slice nwk_payload consumed (length nwk_payload);
        let ft := afc_frame_type (ah_frame_control header) in
        '(l, buf, decrypted) ←
          (if afc_security (ah_frame_control header) then
             let x := tx_layer (al_tx l) in
             '(o, s, buf, p) ←
               aps_decrypt_incoming (tx_mac x) (tx_security x) (find_ieee_by_short (al_nwk l) nwk_src)
                 (nwk_has_active_key (al_nwk l)) (aib_trust_center_address (tx_aib (al_tx l))) nwk_payload consumed buf
                 ((ft =? 1) && al_application_link_key_installation_enabled l)
                 ((ft =? 1) && al_network_key_persistence_enabled l) (ft =? 1)
                 (defer_data_replay && (ft =? 0)) replay_commit;
             let l := set_al_tx (set_tx_layer (mk_TxSecurity s (tx_nib x) p) (al_tx l)) l in
             match o with
             | None => Ok (l, buf, None)
             | Some o => Ok (set_al_pending_data_replay (ado_deferred_data_replay o) l, buf, Some (Some o))
             end
           else Ok (l, buf, Some None)
           : outcome Empty_set (ApsLayer P * ApsFrameBuffer * option (option ApsDecryptOutcome)));
        match decrypted with
        | None => Ok (l, buf, RxNone)
        | Some decrypted =>
            match aps_frame_type_from_u8 ft with
            | None => Ok (l, buf, RxNone)
            | Some AftData => receive_data header nwk_src nwk_dst lqi nwk_security decrypted after_header buf l
            | Some AftAck =>
                l ← receive_ack header nwk_src
                      (match decrypted with Some o => ado_replay_duplicate o | None => false end) l;
                Ok (l, buf, RxNone)
            | Some AftCommand => receive_command header nwk_src decrypted after_header buf l
            | Some AftInterPan => Ok (l, buf, RxNone)
            end
        end
    end.

(** The octets of a queued acknowledgement: plain, or under the key of the
    frame it answers; [None]: they cannot be secured. *)
Definition ack_frame (ack_info : PendingApsAck) (x : TxSecurity P) : outcome Empty_set (TxSecurity P * option (list Z)) :=
  let aps_secured := bool_decide (is_Some (pk_aps_security ack_info)) && negb (pk_command ack_info) in
  '(buf, hdr_len) ← aps_header_serialize (build_aps_ack_header ack_info aps_secured) (repeat 0 16);
  header ← slice buf 0 hdr_len;
  match pk_aps_security ack_info with
  | Some origin =>
      if aps_secured then secure_with_origin origin (nib_ieee_address (tx_nib x)) header [] x else Ok (x, Some header)
  | None => Ok (x, Some header)
  end.

Definition send_pending_aps_ack (l : ApsLayer P) : outcome Empty_set (ApsLayer P * option ApsStatus) :=
  match al_pending_aps_ack l with
  | None => Ok (l, None)
  | Some ack_info =>
      '(x, frame) ← ack_frame ack_info (tx_layer (al_tx l));
      let l := set_al_tx (set_tx_layer x (al_tx l)) l in
      match frame with
      | None => Ok (l, Some AsSecurityFail)
      | Some frame =>
          let radius := default_radius (tx_nib (tx_layer (al_tx l))) in
          let '(t, r) := hand_down (pk_dst_addr ack_info) radius frame true false (al_tx l) in
          let l := set_al_tx t l in
          match r with
          | Some _ => Ok (l, Some AsNoAck)
          | None => Ok (set_al_pending_aps_ack None l, None)
          end
      end
  end.
End Receive.

(** * Frames on the wire *)
Lemma aps_header_parse_encode h rest :
  aps_header_wf h → Forall is_u8 rest →
  aps_header_parse (encode_aps_header 0 h ++ rest) = Ok (h, length (encode_aps_header 0 h)).
Proof.
  intros Hwf Hr. apply (aps_header_parse_complete _ h _ 0); [|done|lia|].
  - apply Forall_app. split; [by apply encode_aps_header_octets|done].
  - apply (slice_get_app [] (encode_aps_header 0 h) rest 0); done.
Qed.




Section Wire.
Context {P C E : Type} `{HF : ForwardAesProvider P C E} `{HN : NwkService P}.



(** The layer at the start of a reception. *)
Definition rx_start (l : ApsLayer P) : ApsLayer P :=
  let l := set_al_pending_rx_rollback None l in set_al_fragment_rx (finalize_delivered (al_fragment_rx l)) l.

Lemma rx_start_tx (l : ApsLayer P) : al_tx (rx_start l) = al_tx l.
Proof using. by destruct l. Qed.

(** A frame without APS security reaches the branch of its type. *)
Lemma process_plain h rest src dst lqi nsec buf defer commit (l : ApsLayer P) :
  commit_pending l = false → aps_header_wf h → Forall is_u8 rest → afc_security (ah_frame_control h) = false →
  process_incoming (encode_aps_header 0 h ++ rest) src dst lqi nsec buf defer commit l =
  match aps_frame_type_from_u8 (afc_frame_type (ah_frame_control h)) with
  | Some AftData => receive_data h src dst lqi nsec None rest buf (rx_start l)
  | Some AftAck => l ← receive_ack h src false (rx_start l); Ok (l, buf, RxNone)
  | Some AftCommand => receive_command h src None rest buf (rx_start l)
  | _ => Ok (rx_start l, buf, RxNone)
  end.
Proof using.
  intros Hc Hwf Hr Hs. unfold process_incoming. rewrite Hc, aps_header_parse_encode by done.
  rewrite slice_app_r by done. cbn [mbind outcome_bind]. rewrite Hs. cbn [mbind outcome_bind]. fold (rx_start l).
  by destruct (aps_frame_type_from_u8 _) as [[]|].
Qed.



(** The acknowledgement owed for it. *)
Definition expected_ack (m : ApsDeliveryMode) (req : ApsdeDataRequest) (c src : Z) : option PendingApsAck :=
  if to_ack_request (dr_tx_options req) && bool_decide (m = AdmUnicast)
  then Some (mk_PendingApsAck src (dr_src_endpoint req) (dr_dst_endpoint req) (dr_cluster_id req) (dr_profile_id req)
               c false None None)
  else None.
















End Wire.


(** * Acknowledgements *)
Record pending_ack_wf (pk : PendingApsAck) : Prop := {
  pkw_endpoints : is_u8 (pk_dst_endpoint pk) ∧ is_u8 (pk_src_endpoint pk);
  pkw_ids : is_u16 (pk_cluster_id pk) ∧ is_u16 (pk_profile_id pk);
  pkw_counter : is_u8 (pk_aps_counter pk);
  pkw_fragment : ∀ f, pk_fragment pk = Some f →
    1 <= fa_fragmentation f < 3 ∧ is_u8 (fa_window_start f) ∧ is_u8 (fa_bitfield f) }.

Lemma build_aps_ack_header_wf pk secured : pending_ack_wf pk → aps_header_wf (build_aps_ack_header pk secured).
Proof.
  intros [[H1 H2] [H3 H4] H5 H6]. unfold aps_header_wf, build_aps_ack_header.
  destruct (pk_command pk), (pk_fragment pk) as [f|]; simpl; split_and!; try done.
  all: destruct (H6 f eq_refl) as (Hf & Hw & Hb); unfold extended_wf; simpl; split; [lia|];
    unfold FRAG_NONE; rewrite (proj2 (Z.eqb_neq _ _)) by lia; done.
Qed.

Lemma build_aps_ack_header_length pk secured :
  (length (encode_aps_header 0 (build_aps_ack_header pk secured)) <= 11)%nat.
Proof.
  unfold encode_aps_header, build_aps_ack_header. destruct (pk_command pk), (pk_fragment pk) as [f|]; simpl;
    repeat case_match; simpl; lia.
Qed.

Section Acks.
Context {P C E : Type} `{HF : ForwardAesProvider P C E} `{HN : NwkService P}.

Definition ack_bytes (pk : PendingApsAck) : list Z := encode_aps_header 0 (build_aps_ack_header pk false).

Lemma ack_frame_plain pk (x : TxSecurity P) :
  pending_ack_wf pk → pk_aps_security pk = None → ack_frame pk x = Ok (x, Some (ack_bytes pk)).
Proof using.
  intros Hwf Hs. unfold ack_frame. rewrite Hs. cbn [bool_decide andb].
  change (bool_decide (is_Some (@None ApsKeyOrigin))) with false. cbn [andb].
  pose proof (build_aps_ack_header_length pk false) as Hl. fold (ack_bytes pk) in Hl.
  rewrite aps_header_serialize_written; [|by apply build_aps_ack_header_wf|rewrite repeat_length; fold (ack_bytes pk); lia].
  cbn [mbind outcome_bind]. fold (ack_bytes pk). unfold slice, written.
  change (ack_bytes pk ++ ?y) with ([] ++ ack_bytes pk ++ y). rewrite slice_get_app by done. done.
Qed.

(** An acknowledgement that is received settles what it names. *)
Lemma process_ack pk src dst lqi nsec buf commit (l : ApsLayer P) :
  pending_ack_wf pk → commit_pending l = false →
  process_incoming (ack_bytes pk) src dst lqi nsec buf false commit l =
  (l ← receive_ack (build_aps_ack_header pk false) src false (rx_start l); Ok (l, buf, RxNone)).
Proof using.
  intros Hwf Hc. rewrite <- (app_nil_r (ack_bytes pk)). unfold ack_bytes.
  rewrite process_plain; [done|done|by apply build_aps_ack_header_wf|constructor|done].
Qed.

Lemma al_tx_set t (l : ApsLayer P) : al_tx (set_al_tx t l) = t.
Proof using. by destruct l. Qed.
End Acks.

(** A transmission just registered is the one its acknowledgement finds. *)
Lemma registered_awaits now c dst frame sec s :
  ack_wf s → position (pa_awaits dst c) (ack_table s) = None →
  let s' := (register_ack_pending_inner now c dst frame sec s).1 in
  ∃ idx, position (pa_awaits dst c) (ack_table s') = Some idx ∧
    ack_table s' !! idx = Some (pa_new (next_ack_generation s) c dst now frame sec) ∧ ack_wf s'.
Proof.
  intros Hwf Hno. destruct (register_ack_spec now c dst frame sec s Hwf) as [idx H].
  destruct (register_ack_pending_inner now c dst frame sec s) as [s' r]. destruct H as (_ & Hwf' & _ & _ & Hidx & Hoth & _).
  exists idx. split_and!; [|done|done]. cbn [fst]. apply position_Some.
  exists (pa_new (next_ack_generation s) c dst now frame sec). split_and!; [done| |].
  - unfold pa_awaits. simpl. by rewrite !Z.eqb_refl.
  - intros j y Hj Hy. rewrite Hoth in Hy by lia. rewrite position_None in Hno. apply Hno. by eapply list_elem_of_lookup_2.
Qed.

(** The acknowledgement closes the loop: the acknowledgement a receiver
    owes for an unsecured unicast is eleven octets at most, and when the
    sender, who registered the transmission and has no older one to the same
    address under the same counter, receives it from that address, the
    transmission is confirmed, the failure count is cleared and nothing is
    indicated to the upper layer. *)
Theorem unicast_ack_confirms {P C E} `{HF : ForwardAesProvider P C E} `{HN : NwkService P}
    (req : ApsdeDataRequest) (pk : PendingApsAck) (c nwk_dst me now : Z) (frame : list Z) (s : AckState)
    (a : ApsLayer P) (x : TxSecurity P) (dst lqi : Z) (nsec : IncomingNwkSecurity) (buf : ApsFrameBuffer)
    (commit : ApsReplayCounter → bool) :
  req_wf req → is_u8 c → ack_wf s → position (pa_awaits nwk_dst c) (ack_table s) = None →
  expected_ack AdmUnicast req c me = Some pk →
  tx_ack (al_tx a) = (register_ack_pending now c nwk_dst frame s).1 → commit_pending a = false →
  ∃ bytes a', ack_frame pk x = Ok (x, Some bytes) ∧ (length bytes <= 11)%nat ∧ pk_dst_addr pk = me ∧
    process_incoming bytes nwk_dst dst lqi nsec buf false commit a = Ok (a', buf, RxNone) ∧
    ack_status (tx_ack (al_tx a')) (mk_ApsAckHandle nwk_dst (next_ack_generation s) c) = Some AckConfirmed ∧
    consecutive_ack_failures (tx_ack (al_tx a')) = 0.
Proof.
  intros Hreq Hc Hwf Hno Hpk Hreg Hcp.
  assert (pk = mk_PendingApsAck me (dr_src_endpoint req) (dr_dst_endpoint req) (dr_cluster_id req) (dr_profile_id req)
    c false None None) as ->.
  { unfold expected_ack in Hpk. destruct (_ && _); [by injection Hpk|done]. }
  set (pk0 := mk_PendingApsAck _ _ _ _ _ _ _ _ _) in *.
  assert (pending_ack_wf pk0) as Hpw by (destruct Hreq as [_ [] []]; by split).
  destruct (registered_awaits now c nwk_dst frame None s Hwf Hno) as (idx & Hpos & Hidx & Hwf').
  unfold register_ack_pending in Hreg. rewrite <- Hreg in *.
  destruct (push_completion_spec (E:=Empty_set) (mk_ApsAckHandle nwk_dst (next_ack_generation s) c) (ack_completions (tx_ack (al_tx a)))
    (ack_wf_completions _ Hwf')) as (l & Hl & Hin & _).
  exists (ack_bytes pk0). eexists. split; [by apply ack_frame_plain|]. split; [apply build_aps_ack_header_length|].
  split; [done|]. rewrite process_ack by done. unfold receive_ack. cbn [ah_extended_header build_aps_ack_header option_map pk0 pk_fragment].
  unfold confirm_ack_with_security. rewrite rx_start_tx. change (ah_aps_counter _) with c.
  rewrite Hpos, (index_Some _ _ _ Hidx). cbn [mbind outcome_bind].
  change (bool_decide (is_Some (pa_security (pa_new (next_ack_generation s) c nwk_dst now frame None)))) with false.
  cbn [andb]. change (pa_generation (pa_new (next_ack_generation s) c nwk_dst now frame None)) with (next_ack_generation s).
  rewrite Hl. cbn [mbind outcome_bind]. split; [reflexivity|]. rewrite al_tx_set. simpl. split; [|done].
  unfold ack_status. simpl. by rewrite bool_decide_true.
Qed.

(** * Witnesses *)
Import ToyAes.

Definition ex_service (t : ApsTx unit) : ApsLayer unit :=
  mk_ApsLayer t gt_new dup_table_new fr_new None None None None None false false false.

(** A layer below whose state is the reading of its clock. *)
Module ToyClock.
#[export] Instance clock_provider : ForwardAesProvider Z (list Z) Empty_set := {|
  provider_cipher := toy_cipher; forward_cipher := λ _ key, key; cipher_done := λ _, 0 |}.

#[export] Instance clock_nwk : NwkService Z := {|
  nwk_neighbors := λ _, nt_new; nwk_address_map := λ _, []; nwk_has_active_key := λ _, true;
  monotonic_micros := λ p, p; delay_micros := λ d p, as_u32 (p + d);
  nlde_data_request := λ _ _ _ _ _ s, (s.1, s.2, None) |}.


End ToyClock.
Import ToyClock.


Lemma unicast_ack_confirms_witness :
  let pk := mk_PendingApsAck 0x1111 1 2 6 0x0104 9 false None None in
  let a := ex_service (set_tx_ack (register_ack_pending 0 9 0x1234 [1; 2; 3] ack_new).1 ex_layer) in
  ∃ bytes a', ack_frame pk (tx_layer ex_layer) = Ok (tx_layer ex_layer, Some bytes) ∧
    process_incoming bytes 0x1234 0x1111 200 (mk_IncomingNwkSecurity true None None) frame_buffer_new false (λ _, true) a
      = Ok (a', frame_buffer_new, RxNone) ∧
    ack_status (tx_ack (al_tx a')) (mk_ApsAckHandle 0x1234 1 9) = Some AckConfirmed.
Proof.
  intros pk a.
  destruct (unicast_ack_confirms (ex_request 20) pk 9 0x1234 0x1111 0 [1; 2; 3] ack_new a (tx_layer ex_layer) 0x1111 200
    (mk_IncomingNwkSecurity true None None) frame_buffer_new (λ _, true)) as (bytes & a' & H1 & _ & _ & H2 & H3 & _).
  - apply ex_request_wf.
  - done.
  - apply ack_new_wf.
  - reflexivity.
  - reflexivity.
  - reflexivity.
  - reflexivity.
  - exists bytes, a'. split; [exact H1|]. split; [exact H2|exact H3].
Defined.
