(* ===== verification/ApsExchange.v ===== *)
(** Fragmented transfer end to end: the sender of [fragment_tx.rs] and the
    receiver of [fragment.rs] and [apsde.rs] joined by a channel that loses
    nothing.

    One turn hands out the next due block, lets the other device process the
    frame, and returns the acknowledgement it owes.  The theorem is that as
    many turns as there are blocks deliver the ASDU and report success,
    whatever the window size both sides use. *)
From S2P Require Import Prelude.
From S2P Require Import ZigbeeTypes.
From S2P Require Import NwkAddressMap.
From S2P Require Import NwkNeighbor.
From S2P Require Import NwkNib.
From S2P Require Import Crypto.
From S2P Require Import ApsFrames.
From S2P Require Import ApsTables.
From S2P Require Import ApsFragment.
From S2P Require Import ApsSecurity.
From S2P Require Import ApsSecured.
From S2P Require Import ApsDelivery.
From S2P Require Import ApsFragmentTx.
From S2P Require Import ApsService.

Local Open Scope Z_scope.

(** * The sender *)

(** Blocks below [k] were sent, the window is being sent from [k] on, and all
    blocks before the window are acknowledged. *)
Record sender_at (s0 : FragmentTxSession) (k : Z) (s : FragmentTxSession) : Prop := {
  sa_same : ft_same s0 s;
  sa_wf : ft_wf s;
  sa_k : ft_window_start s <= k < ft_window_end s;
  sa_due : ∀ n, 0 <= n → Z.testbit (ft_due s) n = bool_decide (k <= n < ft_window_end s);
  sa_acked : ∀ n, 0 <= n → Z.testbit (ft_acked s) n = (n <? ft_window_start s) }.

Lemma sender_next s0 k s : sender_at s0 k s → ft_due s ≠ 0 ∧ trailing_zeros_u16 (ft_due s) = k.
Proof.
  intros [_ Hwf Hk Hdue _]. pose proof (ftw_start s Hwf) as Hs.
  assert (ft_due s ≠ 0) as Hnz.
  { apply (due_nonzero _ k); [lia|]. rewrite Hdue by lia. apply bool_decide_eq_true. lia. }
  split; [done|]. destruct (trailing_zeros_spec s Hwf Hnz) as (Hb & Hbit & Hlow).
  set (b := trailing_zeros_u16 (ft_due s)) in *. rewrite Hdue, bool_decide_eq_true in Hbit by lia.
  destruct (decide (k < b)) as [Hlt|]; [|lia]. specialize (Hlow k ltac:(lia)).
  rewrite Hdue, bool_decide_eq_false in Hlow by lia. lia.
Qed.

(** In the middle of a window the sender just goes on. *)
Lemma sender_goes_on s0 k s now :
  sender_at s0 k s → k + 1 < ft_window_end s → sender_at s0 (k + 1) (ft_sent s now).
Proof.
  intros Hsa Hlt. destruct (sender_next s0 k s Hsa) as [Hnz Htz]. destruct Hsa as [Hsame Hwf Hk Hdue Hack].
  pose proof (ftw_start s Hwf) as Hs.
  split; [by apply ft_same_trans|by apply ft_sent_wf|simpl; change (ft_window_end (ft_sent s now)) with (ft_window_end s); lia| |done].
  intros n Hn. rewrite ft_sent_due, Hdue, Htz by done. change (ft_window_end (ft_sent s now)) with (ft_window_end s).
  destruct (Z.eqb_spec n k) as [->|]; cbn [negb].
  - rewrite andb_false_r. symmetry. apply bool_decide_eq_false. lia.
  - rewrite andb_true_r. apply bool_decide_ext. lia.
Qed.

Lemma testbit_255 n : 0 <= n < 8 → Z.testbit 255 n = true.
Proof. intros Hn. change 255 with (Z.ones 8). by apply Z.ones_spec_low. Qed.

(** The acknowledgement of a whole window acknowledges everything up to its
    end. *)
Lemma whole_window_bits s0 k s now :
  sender_at s0 k s → k + 1 = ft_window_end s →
  let s1 := ft_sent s now in
  let newly := newly_acked s1 255 (seqZ 0 (ft_window_size s1)) 0 in
  newly ≠ 0 ∧ ∀ n, 0 <= n → Z.testbit (Z.lor (ft_acked s1) newly) n = (n <? ft_window_end s).
Proof.
  intros Hsa Hend. destruct (sender_next s0 k s Hsa) as [Hnz _]. destruct Hsa as [_ Hwf Hk _ Hack].
  pose proof (ftw_start s Hwf) as Hs. pose proof (ft_window_end_eq s (ftw_static s Hwf) Hs) as He.
  pose proof (fts_window s (ftw_static s Hwf)) as Hw. intros s1 newly.
  destruct (ack_set_record s1 255 (ft_sent_wf s now Hwf Hnz)) as [_ Hbits]. fold newly in Hbits.
  assert (∀ n, 0 <= n → Z.testbit (Z.lor (ft_acked s1) newly) n = (n <? ft_window_end s)) as Hacked.
  { intros n Hn. rewrite Hbits by done. change (ft_acked s1) with (ft_acked s). rewrite Hack by done.
    unfold names_block. change (ft_total s1) with (ft_total s). change (ft_window_size s1) with (ft_window_size s).
    change (ft_window_start s1) with (ft_window_start s).
    destruct (Z.ltb_spec n (ft_window_start s)), (Z.ltb_spec n (ft_window_end s)); try lia; cbn [orb]; try done.
    - apply bool_decide_eq_true. split_and!; [lia|lia|lia|apply testbit_255; lia].
    - apply bool_decide_eq_false. lia. }
  split; [|done]. intros H0. specialize (Hacked (ft_window_start s) ltac:(lia)). rewrite H0, Z.lor_0_r in Hacked.
  change (ft_acked s1) with (ft_acked s) in Hacked. rewrite Hack in Hacked by lia.
  rewrite Z.ltb_irrefl, (proj2 (Z.ltb_lt _ _)) in Hacked by lia. done.
Qed.

(** At the end of a window the acknowledgement of all of it completes the
    transaction or opens the next window. *)
Lemma sender_acked s0 k s now :
  sender_at s0 k s → k + 1 = ft_window_end s →
  ∃ s', ft_apply_ack (ft_window_start s) 255 (ft_sent s now) = (s', true) ∧ ft_same s0 s' ∧
    if k + 1 =? ft_total s0 then ft_complete s' = true
    else ft_complete s' = false ∧ sender_at s0 (k + 1) s' ∧ ft_window_start s' = k + 1.
Proof.
  intros Hsa Hend. destruct (whole_window_bits s0 k s now Hsa Hend) as [Hnew Hacked].
  destruct (sender_next s0 k s Hsa) as [Hnz _]. destruct Hsa as [Hsame Hwf Hk Hdue Hack].
  pose proof (ftw_start s Hwf) as Hs. pose proof (ft_sent_wf s now Hwf Hnz) as Hwf1. set (s1 := ft_sent s now) in *.
  pose proof (ft_window_end_eq s (ftw_static s Hwf) Hs) as He. pose proof (fts_window s (ftw_static s Hwf)) as Hw.
  assert (ft_total s0 = ft_total s) as Et by (by destruct Hsame as (? & ? & ? & ? & ? & ? & ->)). rewrite Et.
  pose proof (ft_apply_ack_spec s1 (ft_window_start s) 255 Hwf1) as Hspec.
  destruct (ack_set_record s1 255 Hwf1) as [Has _].
  unfold ft_apply_ack in *. change (ft_window_start s1) with (ft_window_start s) in *.
  rewrite Z.eqb_refl in *. cbn [negb] in *. cbv zeta in *.
  set (newly := newly_acked s1 255 (seqZ 0 (ft_window_size s1)) 0) in *.
  rewrite (proj2 (Z.eqb_neq _ _) Hnew) in *. set (acked := Z.lor (ft_acked s1) newly) in *.
  change (set_ft_waiting false _) with (ft_update (ft_window_start s) acked (Z.land (ft_due s1) (not_u16 acked)) 0 false
    (ft_waiting_since_us s1) s1) in *. set (s2 := ft_update _ acked _ 0 false _ s1) in *.
  change (ft_window_mask s2) with (ft_window_mask s1) in *. change (ft_acked s2) with acked in *.
  change (ft_window_end s2) with (ft_window_end s1) in *. change (ft_total s2) with (ft_total s) in *.
  change (ft_window_end s1) with (ft_window_end s) in *.
  assert (∀ n, ft_window_start s1 <= n < ft_window_end s1 → Z.testbit acked n = true) as Hwin.
  { intros n Hn. change (ft_window_end s1) with (ft_window_end s) in Hn. change (ft_window_start s1) with (ft_window_start s) in Hn.
    rewrite Hacked by lia. apply Z.ltb_lt. lia. }
  rewrite (proj2 (window_full s1 acked (proj1 Hs)) Hwin) in *. cbn [andb] in *.
  destruct (Z.ltb_spec (ft_window_end s) (ft_total s)) as [Hmore|Hlast].
  - eexists. split; [reflexivity|]. split; [repeat apply ft_same_trans; exact Hsame|]. rewrite (proj2 (Z.eqb_neq _ _)) by lia.
    destruct (advance_due s1 acked _ (ft_waiting_since_us s1) Has Hwin Hmore) as [He2 Hd2].
    change (ft_window_end s1) with (ft_window_end s) in He2, Hd2.
    assert (∀ x, ft_acked x = acked → ft_all_mask x = ft_all_mask s → ft_complete x = false) as Hnc.
    { intros x Hx Hm. unfold ft_complete. rewrite Hx, Hm. apply Z.eqb_neq. intros Heq.
      apply (f_equal (λ z, Z.testbit z (ft_window_end s))) in Heq. rewrite Hacked, all_mask_bits in Heq by (apply Hwf || lia).
      rewrite Z.ltb_irrefl, (proj2 (Z.ltb_lt _ _)) in Heq by lia. done. }
    split; [by apply Hnc|]. destruct Hspec as (_ & _ & _ & Hwf2). rewrite Hnc in Hwf2 by done.
    split; [|simpl; lia]. split; [repeat apply ft_same_trans; exact Hsame|exact Hwf2| | |].
    + split; [cbn [ft_window_start set_ft_due ft_update set_ft_window_start]; lia|]. change (k + 1 < ft_window_end
        (ft_update (ft_window_end s) acked (Z.land (ft_due s1) (not_u16 acked)) 0 false (ft_waiting_since_us s1) s1)).
      rewrite He2. change (ft_window_size s1) with (ft_window_size s). change (ft_total s1) with (ft_total s). lia.
    + intros n Hn. rewrite Hend. apply Hd2. done.
    + intros n Hn. cbn [ft_acked set_ft_due ft_update]. rewrite Hacked by done. done.
  - eexists. split; [reflexivity|].
    assert (∀ x, ft_same s0 x → ft_acked x = acked → ft_complete x = true) as Hcm.
    { intros x (? & ? & ? & ? & ? & ? & ->) Hx. apply ft_complete_iff.
      - destruct Hsame as (? & ? & ? & ? & ? & ? & ->). by apply (ft_static_update _ _ _ _ _ _ _ (ftw_static _ Hwf)).
      - intros n Hn. rewrite Hx, Hacked, Z.ltb_lt by done. simpl. lia.
      - intros n Hn. rewrite Hx, Hacked, Z.ltb_lt by lia. simpl in Hn. lia. }
    rewrite (proj2 (Z.eqb_eq _ _)) by lia.
    destruct (ft_lowest_unacked s2); (split; [repeat apply ft_same_trans; exact Hsame|]); apply Hcm; try done; repeat apply ft_same_trans; exact Hsame.
Qed.

(** * The receiver *)
Section Receiver.
Context (blocks : list (list Z)) (wsz src : Z) (ieee : option IeeeAddress) (c : Z).
Hypothesis Hwsz : is_u8 wsz.
Hypothesis Hn : (1 <= length blocks <= 16)%nat.
Hypothesis Hblk : Forall (λ p, (length p < 256)%nat) blocks.
Hypothesis Hfit : (length (concat blocks) <= APS_MAX_FRAGMENTED_ASDU)%nat.

(** Blocks below [k] are stored; [start] is where the sender's window starts.
    The receive window follows the sender's, one block late. *)
Definition receiver_at (k : nat) (start : Z) (t : list ReassemblyEntry) : Prop :=
  fr_inv None t ∧
  if decide (k = 0%nat) then position (ra_matches src ieee c) t = None ∧ (fr_active_sessions t < MAX_ENTRIES)%nat
  else ∃ idx e, session_at blocks wsz src ieee c k idx t ∧ t !! idx = Some e ∧
    ra_window_start e = if Z.of_nat k =? start then start - clamp_window_size wsz else start.

Lemma matches_reset e : ra_matches src ieee c (ra_reset e) = false.
Proof using. by destruct e. Qed.

Lemma finalize_keeps k start t : receiver_at k start t → receiver_at k start (finalize_delivered t).
Proof using.
  intros [Hinv Hk]. split.
  { apply fr_inv_map; [|done]. intros e He. destruct (_ && _); [by apply entry_ok_reset|done]. }
  assert (∀ j x, finalize_delivered t !! j = Some x → ∃ y, t !! j = Some y ∧ (x = y ∨ x = ra_reset y)) as Hl.
  { intros j x. unfold finalize_delivered. rewrite list_lookup_fmap. intros (y & Hy & ->)%fmap_Some. exists y.
    split; [done|]. destruct (_ && _); auto. }
  destruct (decide (k = 0%nat)) as [->|].
  - destruct Hk as [Hp Ha]. split.
    + rewrite position_None in *. intros x [j Hx]%list_elem_of_lookup. destruct (Hl j x Hx) as (y & Hy & [-> | ->]).
      * apply Hp. by eapply list_elem_of_lookup_2.
      * apply matches_reset.
    + eapply Nat.le_lt_trans; [|done]. unfold fr_active_sessions, finalize_delivered. clear.
      induction t as [|e t IH]; [done|]. cbn [fmap list_fmap count].
      destruct (ra_active e) eqn:He; cbn [andb]; [destruct (ra_delivered e)|]; [|by rewrite He; simpl; lia..].
      destruct e; simpl in *. lia.
  - destruct Hk as (idx & e & (e0 & He0 & Hio & Hm & Hb) & He & Hw). rewrite He in He0. injection He0 as <-.
    assert (finalize_delivered t !! idx = Some e) as He'.
    { unfold finalize_delivered. rewrite list_lookup_fmap, He. simpl. by rewrite (io_delivered _ _ _ _ Hio), andb_false_r. }
    exists idx, e. split_and!; [|done|done]. exists e. split_and!; [done|done|done|]. intros j x Hj Hx.
    destruct (Hl j x Hx) as (y & Hy & [-> | ->]); [by eapply Hb|apply matches_reset].
Qed.

(** One more block arrives. *)
Lemma receiver_turn k start t now p :
  receiver_at k start t → blocks !! k = Some p → 0 <= start <= Z.of_nat k → Z.of_nat k < start + clamp_window_size wsz →
  ∃ t' idx e, insert_block (E:=Empty_set) t now wsz src ieee c (fragment_kind k) (fragment_number (length blocks) k) p
      = Ok (t', in_order_answer (length blocks) (clamp_window_size wsz) (fragment_kind k) k e) ∧
    fr_inv None t' ∧ session_at blocks wsz src ieee c (S k) idx t' ∧ t' !! idx = Some e ∧ ra_window_start e = start.
Proof using Type*.
  intros [Hinv Hk] Hp Hs Hw. pose proof (lookup_lt_Some _ _ _ Hp) as Hlt.
  assert (∃ idx t1 e, fr_session t now src ieee c = Some (idx, t1) ∧ session_at blocks wsz src ieee c k idx t1 ∧
    t1 !! idx = Some e ∧ next_window e (clamp_window_size wsz) k = start) as (idx & t1 & e & Hses & Hat & He & Hnw).
  { destruct (decide (k = 0%nat)) as [->|Hk0].
    - destruct Hk as [Hno Hact]. assert (∃ idx t1, fr_session t now src ieee c = Some (idx, t1)) as (idx & t1 & Hses).
      { unfold fr_session. rewrite Hno. destruct (position (λ e, negb (ra_active e)) t) as [i|] eqn:Hi; [by eexists _, _|].
        exfalso. apply count_zero in Hi. unfold fr_active_sessions in Hact. destruct Hinv as [Hl _].
        pose proof (count_negb ra_active t). lia. }
      pose proof (clamp_window_size_bounds wsz (proj1 Hwsz)) as Hcw.
      pose proof (session_at_opened blocks wsz src ieee c t now idx t1 Hinv (proj1 Hcw) Hno Hses) as Hat.
      pose proof Hat as (e & He & Hio & _). exists idx, t1, e. split_and!; [done|done|done|].
      pose proof (io_window _ _ _ _ Hio) as Hiw. unfold next_window. rewrite (proj2 (Z.ltb_lt _ _)) by lia. lia.
    - destruct Hk as (idx & e & Hat & He & Hwin). exists idx, t, e. split_and!; [by eapply session_at_found|done|done|].
      unfold next_window. rewrite Hwin. destruct (Z.eqb_spec (Z.of_nat k) start) as [Heq|].
      + rewrite (proj2 (Z.ltb_ge _ _)) by lia. lia.
      + rewrite (proj2 (Z.ltb_lt _ _)) by lia. done. }
  assert (length t ≠ 0%nat) as Ht by (destruct Hinv as [-> _]; done).
  destruct (insert_block_in_order (E:=Empty_set) blocks wsz src ieee c Hwsz Hn Hblk Hfit t now k p idx t1 Hses Hat Ht Hp)
    as (t' & out & Hins & Hat' & _ & _ & e1 & e' & He1 & He' & Hwn & ->).
  rewrite He in He1. injection He1 as <-. exists t', idx, e'. split; [done|].
  split; [|by split_and!; [| |congruence]].
  destruct (insert_block_inv (E:=Empty_set) None t now wsz src ieee c (fragment_kind k) (fragment_number (length blocks) k) p
    Hinv Hwsz) as (t2 & out2 & Hins2 & Hinv2 & _); [|done|congruence].
  unfold fragment_number, is_u8. case_decide; lia.
Qed.
End Receiver.

(** * The exchange *)
Section Exchange.
Context {P C E : Type} `{HF : ForwardAesProvider P C E} `{HN : NwkService P}.

(** One turn between the sender [a], at address [me], and the receiver [b], at
    address [peer]. *)
Definition exchange_turn (me peer lqi : Z) (nsec : IncomingNwkSecurity) (commit : ApsReplayCounter → bool)
    (a b : ApsLayer P) (buf : ApsFrameBuffer)
    : outcome Empty_set (ApsLayer P * ApsLayer P * ApsFrameBuffer * rx_result) :=
  '(t, r) ← next_due_fragment (al_tx a);
  let a := set_al_tx t a in
  match r with
  | None => Ok (a, b, buf, RxNone)
  | Some (_, _, _, frame) =>
      '(b, buf, res) ← process_incoming frame me peer lqi nsec buf false commit b;
      match al_pending_aps_ack b with
      | None => Ok (a, b, buf, res)
      | Some pk =>
          '(_, bytes) ← ack_frame pk (tx_layer (al_tx b));
          let b := discard_pending_aps_ack b in
          match bytes with
          | None => Ok (a, b, buf, res)
          | Some bytes =>
              '(a, _, _) ← process_incoming bytes peer me lqi nsec frame_buffer_new false commit a;
              Ok (a, b, buf, res)
          end
      end
  end.

Fixpoint exchange (turns : nat) (me peer lqi : Z) (nsec : IncomingNwkSecurity) (commit : ApsReplayCounter → bool)
    (a b : ApsLayer P) (buf : ApsFrameBuffer)
    : outcome Empty_set (ApsLayer P * ApsLayer P * list rx_result) :=
  match turns with
  | O => Ok (a, b, [])
  | S turns =>
      '(a, b, buf, res) ← exchange_turn me peer lqi nsec commit a b buf;
      '(a, b, l) ← exchange turns me peer lqi nsec commit a b buf;
      Ok (a, b, res :: l)
  end.

Context (s0 : FragmentTxSession) (me peer lqi : Z) (nsec : IncomingNwkSecurity) (commit : ApsReplayCounter → bool).
Hypothesis Hs0 : ft_static s0.
Hypothesis Hplain : ft_security s0 = None.

(** The receiver knows the sender by this IEEE address, if any. *)
Definition sender_ieee (b : ApsLayer P) : option IeeeAddress :=
  match find_ieee_by_short (al_nwk b) me with Some a => nonzero_ieee a | None => None end.

Definition counter0 : Z := dc_aps_counter (ft_confirm s0).

(** The acknowledgement owed after block [k]. *)
Definition block_ack (k : nat) (start : Z) : PendingApsAck :=
  mk_PendingApsAck me (ft_src_endpoint s0) (ft_dst_endpoint s0) (ft_cluster_id s0) (ft_profile_id s0) counter0 false
    (Some (mk_FragmentAck (fragment_kind k) start 255)) None.

Definition block_frame (k : nat) : list Z := ft_header_bytes s0 (Z.of_nat k) ++ ft_block_data s0 (Z.of_nat k).

Definition asdu_indication : ApsdeDataIndication :=
  mk_ApsdeDataIndication AmShort (AaShort peer) (ft_dst_endpoint s0) AmShort (AaShort me) (ft_src_endpoint s0)
    (ft_profile_id s0) (ft_cluster_id s0) (ft_asdu s0) counter0 (in_secured nsec) lqi.

Lemma ft_blocks_facts :
  length (ft_blocks s0) = Z.to_nat (ft_total s0) ∧ (1 <= length (ft_blocks s0) <= 16)%nat ∧
  Forall (λ p, (length p < 256)%nat) (ft_blocks s0) ∧
  (length (concat (ft_blocks s0)) <= APS_MAX_FRAGMENTED_ASDU)%nat ∧
  ∀ k, (k < length (ft_blocks s0))%nat → ft_blocks s0 !! k = Some (ft_block_data s0 (Z.of_nat k)).
Proof using Hs0.
  pose proof (fts_total s0 Hs0) as Ht. assert (length (ft_blocks s0) = Z.to_nat (ft_total s0)) as Hl.
  { unfold ft_blocks. by rewrite length_fmap, length_seq. }
  split_and!; [done|lia|lia| | |].
  - apply Forall_fmap, Forall_forall. intros i _. simpl. pose proof (ft_block_data_length s0 (Z.of_nat i)).
    pose proof (fts_block_size s0 Hs0). case_bool_decide; lia.
  - rewrite ft_blocks_concat by done. unfold ft_asdu, APS_MAX_FRAGMENTED_ASDU. rewrite length_take.
    destruct (fts_payload s0 Hs0) as (-> & ? & _). lia.
  - intros k Hk. unfold ft_blocks. rewrite list_lookup_fmap, lookup_seq_lt by lia. done.
Qed.

Lemma header_extended k :
  (k < Z.to_nat (ft_total s0))%nat →
  ah_extended_header (ft_header s0 (Z.of_nat k)) =
  Some (mk_ApsExtendedHeader (fragment_kind k) (fragment_number (length (ft_blocks s0)) k) None).
Proof using Hs0.
  intros Hk. destruct ft_blocks_facts as (-> & _). unfold ft_header, fragment_kind, fragment_number. simpl.
  destruct (decide (k = 0%nat)) as [->|Hk0]; simpl.
  - rewrite Z2Nat.id; [done|]. pose proof (fts_total s0 Hs0). lia.
  - rewrite (proj2 (Z.eqb_neq _ _)) by lia. done.
Qed.

(** What the reception of block [k] leaves behind. *)
Definition received (k : nat) (start : Z) (buf : ApsFrameBuffer) (b b' : ApsLayer P) (buf' : ApsFrameBuffer) (res : rx_result)
    : Prop :=
  let w := clamp_window_size (aib_max_window_size (tx_aib (al_tx b))) in
  let n := length (ft_blocks s0) in
  al_tx b' = al_tx b ∧ commit_pending b' = commit_pending b ∧
  if bool_decide (S k = n) then
    res = RxIndication asdu_indication ∧ al_pending_aps_ack b' = Some (block_ack k start)
  else
    res = RxNone ∧ buf' = buf ∧ al_dup_table b' = al_dup_table b ∧
    al_pending_aps_ack b' = (if bool_decide (Z.of_nat (S k) = start + w) then Some (block_ack k start) else al_pending_aps_ack b) ∧
    receiver_at (ft_blocks s0) (aib_max_window_size (tx_aib (al_tx b))) me (sender_ieee b) counter0 (S k)
      (if bool_decide (Z.of_nat (S k) = start + w) then start + w else start) (al_fragment_rx b').

Lemma receive_block k start (b : ApsLayer P) buf :
  let wsz := aib_max_window_size (tx_aib (al_tx b)) in
  is_u8 wsz → (k < length (ft_blocks s0))%nat → length (fb_data buf) = APS_FRAME_BUFFER_LEN →
  find_duplicate (al_dup_table b) (al_now b) (al_timeout b) me counter0 true = None →
  receiver_at (ft_blocks s0) wsz me (sender_ieee b) counter0 k start (al_fragment_rx b) →
  0 <= start <= Z.of_nat k → Z.of_nat k < start + clamp_window_size wsz →
  ∃ b' buf' res, receive_data (ft_header s0 (Z.of_nat k)) me peer lqi nsec None (ft_block_data s0 (Z.of_nat k)) buf b
      = Ok (b', buf', res) ∧ received k start buf b b' buf' res.
Proof using Hs0 Hplain.
  intros wsz Hwsz Hk Hbuf Hdup Hat Hst Hw. destruct ft_blocks_facts as (Hn & Hn16 & Hblk & Hfit & Hlk).
  pose proof (clamp_window_size_bounds wsz (proj1 Hwsz)) as Hcw.
  destruct (receiver_turn (ft_blocks s0) wsz me (sender_ieee b) counter0 Hwsz Hn16 Hblk Hfit k start (al_fragment_rx b) (al_now b)
    (ft_block_data s0 (Z.of_nat k)) Hat (Hlk k Hk) Hst Hw) as (t' & idx & e & Hins & Hinv & Hses & He & Hwin).
  pose proof Hses as (e0 & He0 & Hio & _). rewrite He in He0. injection He0 as <-.
  assert (∀ frag, (S k = length (ft_blocks s0) ∨ Z.of_nat (S k) = start + clamp_window_size wsz) →
    ra_ack e frag (clamp_window_size wsz) = mk_FragmentAck frag start 255) as Hack.
  { intros frag Hor. rewrite <- Hwin. eapply ra_ack_full; [done|done|lia|]. by rewrite Hwin. }
  unfold receive_data. set (h := ft_header s0 (Z.of_nat k)).
  change (group_accepts h b) with true. cbn [negb].
  pose proof (header_extended k ltac:(lia)) as Hext. fold h in Hext.
  assert (is_fragmented h = true) as ->.
  { unfold is_fragmented. rewrite Hext. unfold fragment_kind. by case_decide. }
  unfold receive_fragment. rewrite Hext. cbn [aeh_fragmentation aeh_block_number].
  change (negb (afc_ack_request (ah_frame_control h)) || negb (afc_delivery_mode (ah_frame_control h) =? 0)) with false.
  change (ah_aps_counter h) with counter0. cbv iota zeta. rewrite Hdup. fold (sender_ieee b).
  change (bool_decide (is_Some (@None ApsDecryptOutcome))) with false. cbn [mbind outcome_bind]. fold wsz. rewrite Hins.
  cbn [mbind outcome_bind]. unfold in_order_answer, received. fold wsz.
  assert (∀ f (l : ApsLayer P), queue_data_ack_inner h me (option_map ado_key_origin None) (Some f) l =
    set_al_pending_aps_ack (Some (mk_PendingApsAck me (ft_src_endpoint s0) (ft_dst_endpoint s0) (ft_cluster_id s0)
      (ft_profile_id s0) counter0 false (Some f) None)) l) as Hq by done.
  destruct (bool_decide_reflect (S k = length (ft_blocks s0))) as [Hlast|Hlast].
  - replace (al_fragment_rx (set_al_fragment_rx t' b)) with t' by (by destruct b). rewrite Hlast in Hses.
    destruct (session_at_take (E:=Empty_set) (ft_blocks s0) wsz me (sender_ieee b) counter0 idx t' (fb_data buf) Hses Hn16)
      as [t'' Htake]; [rewrite Hbuf; unfold APS_FRAME_BUFFER_LEN, APS_MAX_FRAGMENTED_ASDU in *; lia|].
    rewrite Htake. cbn [mbind outcome_bind negb]. rewrite (ft_blocks_concat s0 Hs0). unfold frame_buffer_payload. cbn [fb_data fb_len].
    unfold slice, written. change (ft_asdu s0 ++ ?y) with ([] ++ ft_asdu s0 ++ y). rewrite slice_get_app by done.
    cbn [mbind outcome_bind]. eexists _, _, _. split; [reflexivity|]. rewrite Hq, Hack by auto.
    change (afc_security (ah_frame_control h)) with (bool_decide (is_Some (ft_security s0))). rewrite Hplain.
    destruct b. done.
  - rewrite Hwin. destruct (bool_decide_reflect (Z.of_nat (S k) = start + clamp_window_size wsz)) as [Hend|Hend].
    + rewrite Hack by (by right). rewrite bool_decide_true by (by eexists). cbn [negb mbind outcome_bind].
      rewrite Hq. eexists _, _, _. split; [reflexivity|].
      destruct b; cbn. split_and!; [done..|]. split; [done|]. rewrite decide_False by done. exists idx, e. split_and!; [done|done|].
      rewrite Hwin, (proj2 (Z.eqb_eq _ _)) by lia. lia.
    + change (bool_decide (is_Some (@None FragmentAck))) with false. cbn [negb mbind outcome_bind].
      eexists _, _, _. split; [reflexivity|].
      destruct b; cbn. split_and!; [done..|]. split; [done|]. rewrite decide_False by done. exists idx, e. split_and!; [done|done|].
      rewrite Hwin, (proj2 (Z.eqb_neq _ _)) by lia. done.
Qed.

Lemma process_block k start (b : ApsLayer P) buf :
  let wsz := aib_max_window_size (tx_aib (al_tx b)) in
  is_u8 wsz → (k < length (ft_blocks s0))%nat → length (fb_data buf) = APS_FRAME_BUFFER_LEN → commit_pending b = false →
  find_duplicate (al_dup_table b) (al_now b) (al_timeout b) me counter0 true = None →
  receiver_at (ft_blocks s0) wsz me (sender_ieee b) counter0 k start (al_fragment_rx b) →
  0 <= start <= Z.of_nat k → Z.of_nat k < start + clamp_window_size wsz →
  ∃ b' buf' res, process_incoming (block_frame k) me peer lqi nsec buf false commit b = Ok (b', buf', res) ∧
    received k start buf b b' buf' res.
Proof using Hs0 Hplain.
  intros wsz Hwsz Hk Hbuf Hcp Hdup Hat Hst Hw. destruct ft_blocks_facts as (Hn & _). unfold block_frame, ft_header_bytes.
  rewrite process_plain; [|done|apply ft_header_wf; [done|lia]|by apply ft_block_data_octets|by simpl; rewrite Hplain].
  destruct (receive_block k start (rx_start b) buf) as (b' & buf' & res & Hr & Hrec);
    [by destruct b|done|done|by destruct b| |done|by destruct b|].
  { destruct b. by apply finalize_keeps. }
  exists b', buf', res. split; [exact Hr|]. by destruct b.
Qed.

Lemma block_ack_wf k start : 0 <= start < 16 → pending_ack_wf (block_ack k start).
Proof using Hs0.
  intros Hst. destruct (fts_fields s0 Hs0) as (H1 & H2 & H3 & H4 & H5). split; [done|done|done|].
  intros f [= <-]. simpl. unfold fragment_kind, FRAG_FIRST, FRAG_SUBSEQUENT, is_u8. case_decide; lia.
Qed.

(** The acknowledgement reaches the session. *)
Lemma process_block_ack k start (a : ApsLayer P) buf :
  0 <= start < 16 → commit_pending a = false →
  process_incoming (ack_bytes (block_ack k start)) peer me lqi nsec buf false commit a =
  Ok (set_al_tx (handle_fragment_ack peer counter0 (mk_ApsExtendedHeader (fragment_kind k) start (Some 255)) false (al_tx a)).1
        (rx_start a), buf, RxNone).
Proof using Hs0.
  intros Hst Hc. rewrite process_ack by (done || by apply block_ack_wf). unfold receive_ack.
  change (ah_extended_header (build_aps_ack_header (block_ack k start) false)) with
    (Some (mk_ApsExtendedHeader (fragment_kind k) start (Some 255))). cbn [aeh_fragmentation].
  replace (fragment_kind k =? FRAG_NONE) with false by (unfold fragment_kind; by case_decide).
  rewrite rx_start_tx. done.
Qed.

(** Both sides after [k] blocks. *)
Record both_at (ready : P → Prop) (k : nat) (a b : ApsLayer P) (s : FragmentTxSession) : Prop := {
  ba_session : tx_fragment (al_tx a) = Some s;
  ba_sender : sender_at s0 (Z.of_nat k) s;
  ba_receiver : receiver_at (ft_blocks s0) (aib_max_window_size (tx_aib (al_tx b))) me (sender_ieee b) counter0 k
                  (ft_window_start s) (al_fragment_rx b);
  ba_ok : tx_ok ready (tx_layer (al_tx a));
  ba_window : is_u8 (aib_max_window_size (tx_aib (al_tx b))) ∧
              clamp_window_size (aib_max_window_size (tx_aib (al_tx b))) = ft_window_size s0;
  ba_idle : commit_pending a = false ∧ commit_pending b = false ∧ al_pending_aps_ack b = None;
  ba_fresh : find_duplicate (al_dup_table b) (al_now b) (al_timeout b) me counter0 true = None }.

Context (ready : P → Prop) (keyed : list Z → C → Prop) (aes : list Z → list Z → list Z)
  `{HL : !LawfulProvider ready keyed aes}.
Hypothesis Hpeer : ft_dst s0 = peer.

Lemma same_frame s b : ft_same s0 s → ft_header_bytes s b ++ ft_block_data s b = ft_header_bytes s0 b ++ ft_block_data s0 b.
Proof using. by intros (? & ? & ? & ? & ? & ? & ->). Qed.

(** The static part of a session does not change. *)
Lemma same_static s :
  ft_same s0 s → ft_total s = ft_total s0 ∧ ft_window_size s = ft_window_size s0 ∧ ft_security s = None ∧
    ft_dst s = peer ∧ dc_aps_counter (ft_confirm s) = counter0 ∧ ft_confirm s = ft_confirm s0.
Proof using Hplain Hpeer. intros (? & ? & ? & ? & ? & ? & ->). simpl. by rewrite Hplain, Hpeer. Qed.

(** The sender takes the acknowledgement of the window it has just sent. *)
Lemma sender_takes_ack k s now (a : ApsLayer P) :
  sender_at s0 (Z.of_nat k) s → Z.of_nat k + 1 = ft_window_end s → commit_pending a = false →
  tx_fragment (al_tx a) = Some (ft_sent s now) →
  ∃ a', process_incoming (ack_bytes (block_ack k (ft_window_start s))) peer me lqi nsec frame_buffer_new false commit a
      = Ok (a', frame_buffer_new, RxNone) ∧ commit_pending a' = false ∧ tx_layer (al_tx a') = tx_layer (al_tx a) ∧
    if Z.of_nat k + 1 =? ft_total s0 then
      tx_fragment (al_tx a') = None ∧ tx_fragment_confirm (al_tx a') = Some (with_status AsSuccess (ft_confirm s0))
    else ∃ s', tx_fragment (al_tx a') = Some s' ∧ sender_at s0 (Z.of_nat k + 1) s' ∧ ft_window_start s' = Z.of_nat k + 1.
Proof using Hs0 Hplain Hpeer.
  intros Hsa Hend Hc Hses. pose proof (sa_wf _ _ _ Hsa) as Hwf. pose proof (ftw_start s Hwf) as Hstart.
  pose proof (fts_total s (ftw_static s Hwf)) as Ht.
  destruct (same_static s (sa_same _ _ _ Hsa)) as (_ & _ & Es & Ed & Ec & Ef).
  destruct (sender_acked s0 (Z.of_nat k) s now Hsa Hend) as (s' & Hap & Hsame' & Hs').
  rewrite process_block_ack by (done || lia). unfold handle_fragment_ack. rewrite Hses.
  change (ft_dst (ft_sent s now)) with (ft_dst s). change (ft_confirm (ft_sent s now)) with (ft_confirm s).
  change (ft_security (ft_sent s now)) with (ft_security s).
  rewrite Ed, Ec, Es, !Z.eqb_refl. cbn [negb orb]. change (bool_decide (is_Some (@None FragmentTxSecurity))) with false.
  cbn [andb aeh_ack_bitfield aeh_block_number]. rewrite Hap. cbn [fst andb].
  eexists. split; [reflexivity|]. rewrite al_tx_set. split; [by destruct a|].
  destruct (Z.of_nat k + 1 =? ft_total s0).
  - rewrite Hs'. split; [done|]. split; [done|]. destruct Hsame' as (? & ? & ? & ? & ? & ? & ->). done.
  - destruct Hs' as (Hnc & Hsa' & Hws'). rewrite Hnc. split; [done|]. by exists s'.
Qed.

Lemma turn_both k (a b : ApsLayer P) s buf :
  both_at ready k a b s → length (fb_data buf) = APS_FRAME_BUFFER_LEN →
  ∃ a' b' buf' res, exchange_turn me peer lqi nsec commit a b buf = Ok (a', b', buf', res) ∧
    if bool_decide (S k = length (ft_blocks s0)) then
      res = RxIndication asdu_indication ∧ tx_fragment (al_tx a') = None ∧
      tx_fragment_confirm (al_tx a') = Some (with_status AsSuccess (ft_confirm s0))
    else res = RxNone ∧ buf' = buf ∧ ∃ s', both_at ready (S k) a' b' s'.
Proof using Hs0 Hplain HL Hpeer.
  intros [Hses Hsa Hra Hok [Hwsz Hcw] (Hca & Hcb & Hpa) Hdup] Hbuf. destruct ft_blocks_facts as (Hn & _).
  pose proof (sa_wf _ _ _ Hsa) as Hwf. pose proof (ftw_start s Hwf) as Hstart. pose proof (fts_total s0 Hs0) as Htot.
  destruct (sender_next s0 (Z.of_nat k) s Hsa) as [Hnz Htz]. pose proof (sa_same _ _ _ Hsa) as Hsame.
  destruct (same_static s Hsame) as (Et & Ew & Es & _).
  pose proof (ft_window_end_eq s (ftw_static s Hwf) Hstart) as Hend. pose proof (sa_k _ _ _ Hsa) as Hk.
  unfold exchange_turn.
  destruct (next_due_spec ready keyed aes (al_tx a) s Hses Hwf Hok) as (x' & t & r & -> & Hx' & Hr).
  rewrite (proj2 (Z.eqb_neq _ _) Hnz) in Hr. cbn [mbind outcome_bind].
  destruct Hr as [(_ & Hsn & _)|(frame & -> & -> & Hfr)]; [by rewrite Es in Hsn|].
  destruct (Hfr Es) as [-> ->]. rewrite Htz, (same_frame s _ Hsame). fold (block_frame k). clear Hfr.
  set (now := monotonic_micros _). set (t1 := set_tx_fragment _ _). set (a1 := set_al_tx t1 a).
  assert (al_tx a1 = t1 ∧ commit_pending a1 = false) as [Ea Hca1] by (by destruct a).
  destruct (process_block k (ft_window_start s) b buf) as (b' & buf' & res & -> & Hrec); [done|lia|done|done|done|done|lia|lia|].
  cbn [mbind outcome_bind]. destruct Hrec as (Htx & Hcp & Hrec).
  assert (ack_frame (block_ack k (ft_window_start s)) (tx_layer (al_tx b')) =
    Ok (tx_layer (al_tx b'), Some (ack_bytes (block_ack k (ft_window_start s))))) as Hackf.
  { apply (ack_frame_plain (P:=P)); [apply block_ack_wf; lia|done]. }
  destruct (bool_decide_reflect (S k = length (ft_blocks s0))) as [Hlast|Hlast].
  - destruct (sender_takes_ack k s now a1 Hsa ltac:(lia) Hca1 ltac:(by rewrite Ea)) as (a' & Hack & _ & _ & Hdone).
    destruct Hrec as (-> & ->). rewrite Hackf. cbn [mbind outcome_bind]. rewrite Hack. cbn [mbind outcome_bind].
    eexists _, _, _, _. split; [reflexivity|]. split; [done|]. by rewrite (proj2 (Z.eqb_eq _ _)) in Hdone by lia.
  - destruct Hrec as (-> & -> & Hdt & Hpk & Hra'). rewrite Hpa in Hpk. rewrite Hcw in Hpk, Hra'.
    assert (al_now b' = al_now b ∧ al_timeout b' = al_timeout b ∧ sender_ieee b' = sender_ieee b) as (En & Eto & Ei).
    { unfold al_now, al_timeout, sender_ieee, al_nwk. by rewrite Htx. }
    destruct (bool_decide_reflect (Z.of_nat (S k) = ft_window_start s + ft_window_size s0)) as [He|He]; rewrite Hpk.
    + destruct (sender_takes_ack k s now a1 Hsa ltac:(lia) Hca1 ltac:(by rewrite Ea)) as (a' & Hack & Hca' & Hlay & Hmore).
      rewrite (proj2 (Z.eqb_neq _ _)) in Hmore by lia. destruct Hmore as (s' & Hses' & Hsa' & Hws').
      rewrite Hackf. cbn [mbind outcome_bind]. rewrite Hack. cbn [mbind outcome_bind].
      eexists _, _, _, _. split; [reflexivity|]. split; [done|]. split; [done|]. exists s'.
      assert (let d := discard_pending_aps_ack b' in al_tx d = al_tx b' ∧ al_dup_table d = al_dup_table b' ∧
        al_fragment_rx d = al_fragment_rx b' ∧ commit_pending d = commit_pending b' ∧ al_pending_aps_ack d = None ∧
        al_now d = al_now b' ∧ al_timeout d = al_timeout b' ∧ sender_ieee d = sender_ieee b')
        as (D1 & D2 & D3 & D4 & D5 & D6 & D7 & D8) by (by destruct b').
      split; rewrite ?D1, ?D2, ?D3, ?D4, ?D6, ?D7, ?D8, ?Htx, ?Hdt, ?En, ?Eto, ?Ei, ?Hlay, ?Ea; try done.
      * by replace (Z.of_nat (S k)) with (Z.of_nat k + 1) by lia.
      * rewrite Hws'. replace (Z.of_nat k + 1) with (ft_window_start s + ft_window_size s0) by lia. exact Hra'.
      * split_and!; [done|congruence|done].
    + eexists _, _, _, _. split; [reflexivity|]. split; [done|]. split; [done|]. exists (ft_sent s now).
      split; rewrite ?Ea, ?Htx, ?Hdt, ?En, ?Eto, ?Ei; try done.
      * replace (Z.of_nat (S k)) with (Z.of_nat k + 1) by lia. apply sender_goes_on; [done|lia].
      * split_and!; [done|congruence|done].
Qed.

Lemma exchange_both m k (a b : ApsLayer P) s buf :
  both_at ready k a b s → length (fb_data buf) = APS_FRAME_BUFFER_LEN → (k + S m = length (ft_blocks s0))%nat →
  ∃ a' b', exchange (S m) me peer lqi nsec commit a b buf = Ok (a', b', repeat RxNone m ++ [RxIndication asdu_indication]) ∧
    tx_fragment (al_tx a') = None ∧ tx_fragment_confirm (al_tx a') = Some (with_status AsSuccess (ft_confirm s0)).
Proof using Hs0 Hplain HL Hpeer.
  revert k a b s. induction m as [|m IH]; intros k a b s Hb Hbuf Hk; cbn [exchange];
    destruct (turn_both k a b s buf Hb Hbuf) as (a' & b' & buf' & res & -> & Ht); cbn [mbind outcome_bind].
  - rewrite bool_decide_true in Ht by lia. destruct Ht as (-> & H1 & H2). by eexists _, _.
  - rewrite bool_decide_false in Ht by lia. destruct Ht as (-> & -> & s' & Hb').
    destruct (IH (S k) a' b' s' Hb' Hbuf ltac:(lia)) as (a2 & b2 & Hx & Hres). cbn [exchange] in Hx. rewrite Hx.
    cbn [mbind outcome_bind]. by exists a2, b2.
Qed.
End Exchange.

(** A session just opened is at its first block. *)
Lemma opened_at_zero req peer radius c window retries now :
  let len := length (dr_payload req) in
  let s := ft_open req peer radius None 64 (div_ceil len 64) c window retries now
             (written (dr_payload req) (repeat 0 256)) in
  req_wf req → is_u8 c → is_u8 window → is_u8 retries → (64 < len <= 256)%nat →
  sender_at s 0 s ∧ ft_asdu s = dr_payload req ∧ ft_total s = Z.of_nat (div_ceil len 64).
Proof.
  intros len s Hreq Hc Hw Hr Hlen.
  destruct (ft_open_wf req peer radius None c window retries now Hreq Hc Hw Hr ltac:(done) Hlen) as (Hwf & Ha & Hasdu & Ht).
  split; [|split; [exact Hasdu|exact Ht]]. change (ft_wf s) in Hwf. pose proof (ftw_start s Hwf) as Hs.
  pose proof (ft_window_end_eq s (ftw_static s Hwf) Hs) as He. pose proof (fts_window s (ftw_static s Hwf)) as Hws.
  change (ft_window_start s) with 0 in *. split; [by repeat eexists|done|change (ft_window_start s) with 0; lia| |].
  - intros n Hn. change (ft_due s) with (ft_window_mask s). rewrite ft_window_mask_bits by done. done.
  - intros n Hn. change (ft_acked s) with 0. change (ft_window_start s) with 0. rewrite Z.bits_0. symmetry. apply Z.ltb_ge. lia.
Qed.

(** C5. End to end: an ASDU of 65 to 256 octets sent in blocks over a channel
    that loses nothing, between devices that use the same window size, is
    indicated by the receiver octet for octet in the turn of its last block and
    in no other, and the sender reports success; the turns needed are the
    blocks of the ASDU.  The receiver must have a free session, no session and
    no completed transaction of this sender and counter, and no commit pending. *)
Theorem fragmented_transfer_delivers {P C E} `{HF : ForwardAesProvider P C E} `{HN : NwkService P}
    (ready : P → Prop) (keyed : list Z → C → Prop) (aes : list Z → list Z → list Z)
    `{HL : !LawfulProvider ready keyed aes} (req : ApsdeDataRequest) (me peer radius c window retries now lqi : Z)
    (nsec : IncomingNwkSecurity) (commit : ApsReplayCounter → bool) (a b : ApsLayer P) (buf : ApsFrameBuffer) :
  let len := length (dr_payload req) in
  let n := div_ceil len 64 in
  let wsz := aib_max_window_size (tx_aib (al_tx b)) in
  req_wf req → is_u8 c → is_u8 window → is_u8 retries → (64 < len <= 256)%nat →
  tx_ok ready (tx_layer (al_tx a)) → commit_pending a = false →
  tx_fragment (al_tx a) = Some (ft_open req peer radius None 64 n c window retries now
                                  (written (dr_payload req) (repeat 0 256))) →
  commit_pending b = false → al_pending_aps_ack b = None → is_u8 wsz → clamp_window_size wsz = clamp_window_size window →
  fr_inv None (al_fragment_rx b) → position (ra_matches me (sender_ieee me b) c) (al_fragment_rx b) = None →
  (fr_active_sessions (al_fragment_rx b) < MAX_ENTRIES)%nat →
  find_duplicate (al_dup_table b) (al_now b) (al_timeout b) me c true = None →
  length (fb_data buf) = APS_FRAME_BUFFER_LEN →
  ∃ a' b', exchange n me peer lqi nsec commit a b buf =
      Ok (a', b', repeat RxNone (n - 1) ++
        [RxIndication (mk_ApsdeDataIndication AmShort (AaShort peer) (dr_dst_endpoint req) AmShort (AaShort me)
           (dr_src_endpoint req) (dr_profile_id req) (dr_cluster_id req) (dr_payload req) c (in_secured nsec) lqi)]) ∧
    fragmented_tx_active (al_tx a') = false ∧
    (take_fragmented_tx_confirm (al_tx a')).2 = Some (data_confirm AsSuccess req c).
Proof.
  intros len n wsz Hreq Hc Hw Hr Hlen Hok Hca Hses Hcb Hpa Hwsz Hcw Hinv Hno Hact Hdup Hbuf.
  destruct (opened_at_zero req peer radius c window retries now Hreq Hc Hw Hr Hlen) as (Hsa & Hasdu & Htot).
  fold len n in Hsa, Hasdu, Htot. set (s := ft_open req peer radius None 64 n c window retries now _) in *.
  pose proof (ftw_static s (sa_wf _ _ _ Hsa)) as Hst. pose proof (fts_total s Hst).
  destruct (ft_blocks_facts s Hst) as (Hbl & _).
  destruct (exchange_both s me peer lqi nsec commit Hst eq_refl ready keyed aes eq_refl (n - 1) 0 a b s buf)
    as (a' & b' & Hx & Hf & Hcf); [|done|lia|].
  - split; [done|done| |done|done|done|done]. split; [done|]. by rewrite decide_True by done.
  - exists a', b'. replace n with (S (n - 1)) at 1 by lia. rewrite Hx. unfold asdu_indication. rewrite Hasdu.
    split; [done|]. split; [unfold fragmented_tx_active; by rewrite Hf|exact Hcf].
Qed.

(** * Witness *)
Import ToyAes.

Definition ex_sender_layer : ApsLayer unit :=
  ex_service (set_tx_fragment (Some (ft_open (ex_request 100) 0x1234 30 None 64 2 9 8 3 0
    (written (repeat 7 100) (repeat 0 256)))) ex_layer).

Lemma fragmented_transfer_delivers_witness :
  ∃ a' b', exchange 2 0x1111 0x1234 200 (mk_IncomingNwkSecurity true None None) (λ _, true) ex_sender_layer
      (ex_service ex_layer) frame_buffer_new =
    Ok (a', b', [RxNone; RxIndication (mk_ApsdeDataIndication AmShort (AaShort 0x1234) 2 AmShort (AaShort 0x1111)
      1 0x0104 6 (repeat 7 100) 9 true 200)]) ∧
    (take_fragmented_tx_confirm (al_tx a')).2 = Some (data_confirm AsSuccess (ex_request 100) 9).
Proof.
  destruct (fragmented_transfer_delivers (λ _ : unit, True) (λ key (c : list Z), c = key) ToyAes.aes
    (ex_request 100) 0x1111 0x1234 30 9 8 3 0 200 (mk_IncomingNwkSecurity true None None) (λ _, true) ex_sender_layer
    (ex_service ex_layer) frame_buffer_new) as (a' & b' & H1 & _ & H2).
  - apply ex_request_wf.
  - done.
  - done.
  - done.
  - simpl. lia.
  - apply ex_layer_wf.
  - reflexivity.
  - reflexivity.
  - reflexivity.
  - reflexivity.
  - done.
  - reflexivity.
  - apply fr_inv_new.
  - reflexivity.
  - vm_compute. lia.
  - vm_compute. reflexivity.
  - reflexivity.
  - exists a', b'. split; [exact H1|exact H2].
Defined.
