(* ===== verification/Effects.v ===== *)
(** * Effects: state that survives an error

    A method on [&mut self] that returns [Result] keeps the changes it made
    before the error.  [stm S E A] is such a method: it takes the state and
    returns the outcome and the state left behind.  [wp m Q s] is its weakest
    precondition: running [m] from [s] ends in an outcome and a state that
    satisfy [Q].  The rules below follow the structure of the program. *)

From S2P Require Import Prelude.
Local Open Scope Z_scope.

Definition stm (S E A : Type) : Type := S → outcome E A * S.

#[export] Instance stm_ret S E : MRet (stm S E) := λ A a s, (Ok a, s).
#[export] Instance stm_bind S E : MBind (stm S E) := λ A B k m s,
  match m s with
  | (Ok a, s') => k a s'
  | (Err e, s') => (Err e, s')
  | (Panic, s') => (Panic, s')
  end.

Section Stm.
Context {S E : Type}.

(** The state, and a new state. *)
Definition get_st : stm S E S := λ s, (Ok s, s).
Definition modify_st (f : S → S) : stm S E unit := λ s, (Ok (), f s).

(** [return Err(e)] *)
Definition throw {A} (e : E) : stm S E A := λ s, (Err e, s).

(** A computation that does not touch the state. *)
Definition lift {A} (o : outcome E A) : stm S E A := λ s, (o, s).

(** The [Result] of a computation as a value. *)
Definition try_st {A} (m : stm S E A) : stm S E (A + E) := λ s,
  match m s with
  | (Ok a, s') => (Ok (inl a), s')
  | (Err e, s') => (Ok (inr e), s')
  | (Panic, s') => (Panic, s')
  end.

Definition wp {A} (m : stm S E A) (Q : outcome E A → S → Prop) (s : S) : Prop := Q (m s).1 (m s).2.

Lemma wp_ret {A} (a : A) Q s : Q (Ok a) s → wp (mret a) Q s.
Proof. done. Qed.

Lemma wp_bind {A B} (m : stm S E A) (k : A → stm S E B) Q s :
  wp m (λ r s', match r with Ok a => wp (k a) Q s' | Err e => Q (Err e) s' | Panic => Q Panic s' end) s →
  wp (m ≫= k) Q s.
Proof. unfold wp. cbv [mbind stm_bind]. by destruct (m s) as [[a|e|] s']. Qed.

Lemma wp_mono {A} (m : stm S E A) (Q Q' : outcome E A → S → Prop) s :
  wp m Q s → (∀ r s', Q r s' → Q' r s') → wp m Q' s.
Proof. unfold wp. auto. Qed.

Lemma wp_get (Q : outcome E S → S → Prop) s : Q (Ok s) s → wp get_st Q s.
Proof. done. Qed.

Lemma wp_modify f (Q : outcome E unit → S → Prop) s : Q (Ok ()) (f s) → wp (modify_st f) Q s.
Proof. done. Qed.

Lemma wp_throw {A} (e : E) (Q : outcome E A → S → Prop) s : Q (Err e) s → wp (throw e) Q s.
Proof. done. Qed.

Lemma wp_lift {A} (o : outcome E A) Q s : Q o s → wp (lift o) Q s.
Proof. done. Qed.

Lemma wp_try {A} (m : stm S E A) (Q : outcome E (A + E) → S → Prop) s :
  wp m (λ r s', match r with Ok a => Q (Ok (inl a)) s' | Err e => Q (Ok (inr e)) s' | Panic => Q Panic s' end) s →
  wp (try_st m) Q s.
Proof. unfold wp, try_st. by destruct (m s) as [[a|e|] s']. Qed.

Lemma wp_run {A} (m : stm S E A) Q s : wp m Q s ↔ ∃ r s', m s = (r, s') ∧ Q r s'.
Proof.
  unfold wp. split.
  - intros HQ. destruct (m s) as [r s']. eauto.
  - by intros (r & s' & -> & HQ).
Qed.
End Stm.
