(* ===== verification/NvStorage.v ===== *)
(** * Non-volatile storage: the interface and the store in memory

    [zigbee-runtime/src/nv_storage.rs].  [NvStorage] is the trait of the
    source, [NvStorageLaws] what its implementations promise to the code that
    persists Zigbee state: a finite map from item identifiers to octets.
    [RamNvStorage] is the volatile implementation; the flash implementation
    is in [LogNv]. *)

From S2P Require Import Prelude Effects.
Local Open Scope Z_scope.

Inductive NvItemId :=
| NwkPanId | NwkChannel | NwkShortAddress | NwkExtendedPanId | NwkIeeeAddress | NwkKey | NwkKeySeqNum
| NwkFrameCounter | NwkDepth | NwkParentAddress | NwkUpdateId
| ApsTrustCenterAddress | ApsLinkKey | ApsBindingTable | ApsGroupTable
| BdbNodeIsOnNetwork | BdbCommissioningMode | BdbPrimaryChannelSet | BdbSecondaryChannelSet
| BdbCommissioningGroupId
| AppEndpoint1 | AppEndpoint2 | AppEndpoint3 | AppCustomBase.

(** [id as u16] *)
Definition nv_item_code (id : NvItemId) : Z :=
  match id with
  | NwkPanId => 0x0001 | NwkChannel => 0x0002 | NwkShortAddress => 0x0003 | NwkExtendedPanId => 0x0004
  | NwkIeeeAddress => 0x0005 | NwkKey => 0x0006 | NwkKeySeqNum => 0x0007 | NwkFrameCounter => 0x0008
  | NwkDepth => 0x0009 | NwkParentAddress => 0x000A | NwkUpdateId => 0x000B
  | ApsTrustCenterAddress => 0x0020 | ApsLinkKey => 0x0021 | ApsBindingTable => 0x0022 | ApsGroupTable => 0x0023
  | BdbNodeIsOnNetwork => 0x0040 | BdbCommissioningMode => 0x0041 | BdbPrimaryChannelSet => 0x0042
  | BdbSecondaryChannelSet => 0x0043 | BdbCommissioningGroupId => 0x0044
  | AppEndpoint1 => 0x0100 | AppEndpoint2 => 0x0101 | AppEndpoint3 => 0x0102 | AppCustomBase => 0x0200
  end.

(** The inverse, which the flash store uses when it reads identifiers back. *)
Definition raw_to_nv_item_id (raw : Z) : option NvItemId :=
  if raw =? 0x0001 then Some NwkPanId
  else if raw =? 0x0002 then Some NwkChannel
  else if raw =? 0x0003 then Some NwkShortAddress
  else if raw =? 0x0004 then Some NwkExtendedPanId
  else if raw =? 0x0005 then Some NwkIeeeAddress
  else if raw =? 0x0006 then Some NwkKey
  else if raw =? 0x0007 then Some NwkKeySeqNum
  else if raw =? 0x0008 then Some NwkFrameCounter
  else if raw =? 0x0009 then Some NwkDepth
  else if raw =? 0x000A then Some NwkParentAddress
  else if raw =? 0x000B then Some NwkUpdateId
  else if raw =? 0x0020 then Some ApsTrustCenterAddress
  else if raw =? 0x0021 then Some ApsLinkKey
  else if raw =? 0x0022 then Some ApsBindingTable
  else if raw =? 0x0023 then Some ApsGroupTable
  else if raw =? 0x0040 then Some BdbNodeIsOnNetwork
  else if raw =? 0x0041 then Some BdbCommissioningMode
  else if raw =? 0x0042 then Some BdbPrimaryChannelSet
  else if raw =? 0x0043 then Some BdbSecondaryChannelSet
  else if raw =? 0x0044 then Some BdbCommissioningGroupId
  else if raw =? 0x0100 then Some AppEndpoint1
  else if raw =? 0x0101 then Some AppEndpoint2
  else if raw =? 0x0102 then Some AppEndpoint3
  else if 0x0200 <=? raw then Some AppCustomBase
  else None.

#[export] Instance NvItemId_eq_dec : EqDecision NvItemId.
Proof. solve_decision. Defined.

Lemma raw_of_code id : raw_to_nv_item_id (nv_item_code id) = Some id.
Proof. by destruct id. Qed.

#[export] Instance NvItemId_countable : Countable NvItemId := inj_countable nv_item_code raw_to_nv_item_id raw_of_code.

#[export] Instance nv_item_code_inj : Inj (=) (=) nv_item_code.
Proof. intros i j E. apply (inj Some). by rewrite <- !raw_of_code, E. Qed.

Lemma nv_item_code_u16 id : is_u16 (nv_item_code id).
Proof. destruct id; done. Qed.

Inductive NvError := NvNotFound | NvFull | NvBufferTooSmall | NvHardwareError | NvCorrupt.
#[export] Instance NvError_eq_dec : EqDecision NvError.
Proof. solve_decision. Defined.

(** [trait NvStorage]; a read returns the number of octets and the buffer. *)
Class NvStorage (S : Type) := {
  nv_read : NvItemId → list Z → stm S NvError (nat * list Z);
  nv_write : NvItemId → list Z → stm S NvError unit;
  nv_delete : NvItemId → stm S NvError unit;
  nv_exists : NvItemId → stm S NvError bool;
  nv_item_length : NvItemId → stm S NvError nat;
  nv_compact : stm S NvError unit }.

(** The largest item both implementations hold. *)
Definition NV_MAX_ITEM : nat := 128.

(** What an item is, and the contents of a store. *)
Definition nv_value (d : list Z) : Prop := Forall is_u8 d ∧ (length d <= NV_MAX_ITEM)%nat.
Abbreviation nv_map := (gmap NvItemId (list Z)).

(** The promise.  [repr s m]: the store holds [m].  [broken]: the medium can
    fail; where it cannot, no operation reports a hardware error.  A failed
    request for space changes nothing. *)
Class NvStorageLaws (S : Type) `{NvStorage S} (repr : S → nv_map → Prop) (broken : Prop) : Prop := {
  nv_read_law s m id buf :
    repr s m →
    wp (nv_read id buf)
      (λ r s', repr s' m ∧
        match r with
        | Ok (n, buf') => ∃ d, m !! id = Some d ∧ n = length d ∧ (n <= length buf)%nat ∧ buf' = written d buf
        | Err NvNotFound => m !! id = None
        | Err NvBufferTooSmall => ∃ d, m !! id = Some d ∧ (length buf < length d)%nat
        | Err NvHardwareError => broken
        | _ => False
        end) s;
  nv_write_law s m id d :
    repr s m → nv_value d → d ≠ [] →
    wp (nv_write id d)
      (λ r s',
        match r with
        | Ok _ => repr s' (<[id := d]> m)
        | Err NvFull => repr s' m
        | Err NvHardwareError => broken
        | _ => False
        end) s;
  nv_delete_law s m id :
    repr s m →
    wp (nv_delete id)
      (λ r s',
        match r with
        | Ok _ => repr s' (delete id m)
        | Err NvNotFound => repr s' m ∧ m !! id = None
        | Err NvFull => repr s' m
        | Err NvHardwareError => broken
        | _ => False
        end) s;
  nv_exists_law s m id :
    repr s m →
    wp (nv_exists id)
      (λ r s', repr s' m ∧
        match r with Ok b => b = bool_decide (is_Some (m !! id)) | Err NvHardwareError => broken | _ => False end) s;
  nv_item_length_law s m id :
    repr s m →
    wp (nv_item_length id)
      (λ r s', repr s' m ∧
        match r with
        | Ok n => ∃ d, m !! id = Some d ∧ n = length d
        | Err NvNotFound => m !! id = None
        | Err NvHardwareError => broken
        | _ => False
        end) s;
  nv_compact_law s m :
    repr s m →
    wp nv_compact
      (λ r s', match r with Ok _ => repr s' m | Err NvFull => repr s' m | Err NvHardwareError => broken | _ => False end) s }.

(** * [RamNvStorage] *)
Record NvItem := mk_NvItem { ni_id : NvItemId; ni_data : list Z }.
Definition RAM_NV_ITEMS : nat := 64.

(** The items, a [heapless::Vec] of 64. *)
Record RamNvStorage := mk_RamNvStorage { rn_items : list NvItem }.
Definition ram_nv_new : RamNvStorage := mk_RamNvStorage [].

Definition ni_is (id : NvItemId) (i : NvItem) : bool := bool_decide (ni_id i = id).

(** [heapless::Vec::extend_from_slice] on an empty vector of 128 octets. *)
Definition nv_data_from (d : list Z) : option (list Z) := if (length d <=? NV_MAX_ITEM)%nat then Some d else None.

Definition ram_nv_read (id : NvItemId) (buf : list Z) : stm RamNvStorage NvError (nat * list Z) :=
  s ← get_st;
  match List.find (ni_is id) (rn_items s) with
  | None => throw NvNotFound
  | Some item =>
      if (length buf <? length (ni_data item))%nat then throw NvBufferTooSmall
      else
        buf ← lift (copy_from_slice buf 0 (length (ni_data item)) (ni_data item));
        mret (length (ni_data item), buf)
  end.

Definition ram_nv_write (id : NvItemId) (d : list Z) : stm RamNvStorage NvError unit :=
  s ← get_st;
  match position (ni_is id) (rn_items s) with
  | Some i =>
      match nv_data_from d with
      | Some data => modify_st (λ s, mk_RamNvStorage (<[i := mk_NvItem id data]> (rn_items s)))
      | None =>
          _ ← modify_st (λ s, mk_RamNvStorage (<[i := mk_NvItem id []]> (rn_items s)));
          throw NvFull
      end
  | None =>
      match nv_data_from d with
      | None => throw NvFull
      | Some data =>
          match vec_push RAM_NV_ITEMS (rn_items s) (mk_NvItem id data) with
          | Some items => modify_st (λ _, mk_RamNvStorage items)
          | None => throw NvFull
          end
      end
  end.

Definition ram_nv_delete (id : NvItemId) : stm RamNvStorage NvError unit :=
  s ← get_st;
  match position (ni_is id) (rn_items s) with
  | Some pos => modify_st (λ s, mk_RamNvStorage (swap_remove (rn_items s) pos))
  | None => throw NvNotFound
  end.

Definition ram_nv_exists (id : NvItemId) : stm RamNvStorage NvError bool :=
  s ← get_st; mret (existsb (ni_is id) (rn_items s)).

Definition ram_nv_item_length (id : NvItemId) : stm RamNvStorage NvError nat :=
  s ← get_st;
  match List.find (ni_is id) (rn_items s) with Some i => mret (length (ni_data i)) | None => throw NvNotFound end.

Definition ram_nv_compact : stm RamNvStorage NvError unit := mret ().

#[export] Instance RamNvStorage_NvStorage : NvStorage RamNvStorage := {|
  nv_read := ram_nv_read; nv_write := ram_nv_write; nv_delete := ram_nv_delete; nv_exists := ram_nv_exists;
  nv_item_length := ram_nv_item_length; nv_compact := ram_nv_compact |}.

(** * The store in memory keeps the promise *)
Record ram_repr (s : RamNvStorage) (m : nv_map) : Prop := {
  rr_ids : NoDup (ni_id <$> rn_items s);
  rr_items : ∀ i, i ∈ rn_items s ↔ m !! ni_id i = Some (ni_data i);
  rr_keys : ∀ id, is_Some (m !! id) → ∃ i, i ∈ rn_items s ∧ ni_id i = id }.

Lemma ram_find s m id :
  ram_repr s m → option_map ni_data (List.find (ni_is id) (rn_items s)) = m !! id.
Proof.
  intros [Hids Hitems Hkeys]. destruct (List.find _ _) as [i|] eqn:E; simpl.
  - apply List.find_some in E as [Hi E]. apply bool_decide_eq_true in E. subst.
    symmetry. apply Hitems. by apply list_elem_of_In.
  - destruct (m !! id) as [d|] eqn:Em; [|done]. destruct (Hkeys id) as (i & Hi & <-); [eauto|].
    rewrite find_None_elem in E. specialize (E i Hi). by apply bool_decide_eq_false in E.
Qed.

Lemma ram_position s m id :
  ram_repr s m →
  match position (ni_is id) (rn_items s) with
  | Some i => ∃ d, rn_items s !! i = Some (mk_NvItem id d) ∧ m !! id = Some d
  | None => m !! id = None
  end.
Proof.
  intros Hr. pose proof (ram_find s m id Hr) as Hf. rewrite find_position in Hf.
  destruct (position (ni_is id) (rn_items s)) as [i|] eqn:E; simpl in Hf; [|done].
  apply position_Some in E as (x & Hx & Hp & _). rewrite Hx in Hf. simpl in Hf.
  apply bool_decide_eq_true in Hp. destruct x as [x d]; simpl in *; subst. eauto.
Qed.

Lemma ram_repr_lookup s m i x : ram_repr s m → rn_items s !! i = Some x → m !! ni_id x = Some (ni_data x).
Proof. intros Hr Hx. apply (rr_items _ _ Hr). by eapply list_elem_of_lookup_2. Qed.

Lemma ram_insert s m i id d d' :
  ram_repr s m → rn_items s !! i = Some (mk_NvItem id d) →
  ram_repr (mk_RamNvStorage (<[i := mk_NvItem id d']> (rn_items s))) (<[id := d']> m).
Proof.
  intros Hr Hi. pose proof (lookup_lt_Some _ _ _ Hi) as Hlt.
  assert (Hfm : ni_id <$> <[i := mk_NvItem id d']> (rn_items s) = ni_id <$> rn_items s).
  { rewrite list_fmap_insert. apply list_insert_id. by rewrite list_lookup_fmap, Hi. }
  split; simpl.
  - rewrite Hfm. apply Hr.
  - intros x. rewrite list_elem_of_lookup. split.
    + intros [j Hj]. apply list_lookup_insert_Some in Hj as [(<- & <- & _)|(Hne & Hj)]; simpl.
      * by rewrite lookup_insert_eq.
      * rewrite lookup_insert_ne; [by apply (ram_repr_lookup s m j)|].
        intros Hid. apply Hne. apply (NoDup_fmap_lookup ni_id (rn_items s) i j _ _ (rr_ids _ _ Hr) Hi Hj). done.
    + destruct (decide (id = ni_id x)) as [->|Hid].
      * rewrite lookup_insert_eq. intros [= Hd]. exists i. rewrite list_lookup_insert_eq by done.
        destruct x; simpl in *. by subst.
      * rewrite lookup_insert_ne by done. intros Hm. apply (rr_items _ _ Hr) in Hm.
        apply list_elem_of_lookup in Hm as [j Hj]. exists j. rewrite list_lookup_insert_ne; [done|].
        intros <-. rewrite Hi in Hj. by injection Hj as <-.
  - intros id' Hm. destruct (decide (id = id')) as [<-|Hid].
    + exists (mk_NvItem id d'). split; [|reflexivity]. apply list_elem_of_lookup. exists i. by rewrite list_lookup_insert_eq.
    + rewrite lookup_insert_ne in Hm by done. destruct (rr_keys _ _ Hr id' Hm) as (x & Hx & <-).
      exists x. split; [|done]. apply list_elem_of_lookup in Hx as [j Hj]. apply list_elem_of_lookup. exists j.
      rewrite list_lookup_insert_ne; [done|]. intros <-. rewrite Hi in Hj. by injection Hj as <-.
Qed.

Lemma ram_push s m id d items :
  ram_repr s m → m !! id = None → vec_push RAM_NV_ITEMS (rn_items s) (mk_NvItem id d) = Some items →
  ram_repr (mk_RamNvStorage items) (<[id := d]> m).
Proof.
  unfold vec_push. intros Hr Hm Hp. case_match; simplify_eq. split; simpl.
  - rewrite fmap_app. apply NoDup_app. split; [apply Hr|]. split; [|apply NoDup_singleton].
    intros x Hx Hin. apply list_elem_of_singleton in Hin as ->. apply list_elem_of_fmap in Hx as (i & Hid & Hi).
    simpl in Hid. apply (rr_items _ _ Hr) in Hi. rewrite <- Hid, Hm in Hi. done.
  - intros x. rewrite elem_of_app, list_elem_of_singleton, (rr_items _ _ Hr). split.
    + intros [Hx| ->]; [|by rewrite lookup_insert_eq]. rewrite lookup_insert_ne; [done|]. intros ->. congruence.
    + destruct (decide (id = ni_id x)) as [->|Hid]; [|rewrite lookup_insert_ne by done; by left].
      rewrite lookup_insert_eq. intros [= Hd]. right. destruct x; simpl in *. by subst.
  - intros id' Hid. destruct (decide (id = id')) as [<-|Hne].
    + exists (mk_NvItem id d). split; [|done]. apply elem_of_app. right. by left.
    + rewrite lookup_insert_ne in Hid by done. destruct (rr_keys _ _ Hr _ Hid) as (i & Hi & <-).
      exists i. split; [|done]. apply elem_of_app. by left.
Qed.

Lemma ram_remove s m i id d :
  ram_repr s m → rn_items s !! i = Some (mk_NvItem id d) →
  ram_repr (mk_RamNvStorage (swap_remove (rn_items s) i)) (delete id m).
Proof.
  intros Hr Hi. pose proof (swap_remove_perm _ _ _ Hi) as Hp.
  pose proof (rr_ids _ _ Hr) as Hnd. rewrite <- Hp in Hnd. simpl in Hnd. apply NoDup_cons in Hnd as [Hnew Hnd].
  assert (Hmem : ∀ x, x ∈ rn_items s ↔ x = mk_NvItem id d ∨ x ∈ swap_remove (rn_items s) i).
  { intros x. rewrite <- elem_of_cons. by rewrite Hp. }
  assert (Hnot : ∀ x, x ∈ swap_remove (rn_items s) i → ni_id x ≠ id).
  { intros x Hx <-. apply Hnew. apply list_elem_of_fmap. eauto. }
  split; simpl.
  - done.
  - intros x. split.
    + intros Hx. rewrite lookup_delete_ne; [|intros E; by apply (Hnot x Hx)].
      apply (rr_items _ _ Hr). apply Hmem. by right.
    + intros Hx. apply lookup_delete_Some in Hx as [Hid Hx]. apply (rr_items _ _ Hr), Hmem in Hx as [->|Hx]; [done|done].
  - intros id' Hid. rewrite lookup_delete_is_Some in Hid. destruct Hid as [Hne Hid].
    destruct (rr_keys _ _ Hr _ Hid) as (x & Hx & <-). exists x. split; [|done].
    apply Hmem in Hx as [->|Hx]; [done|done].
Qed.

#[export] Instance ram_laws : NvStorageLaws RamNvStorage ram_repr False.
Proof.
  split; simpl; intros s m.
  - intros id buf Hr. apply wp_bind, wp_get. pose proof (ram_find s m id Hr) as Hf.
    destruct (List.find _ _) as [i|]; simpl in *; [|by apply wp_throw].
    case_match eqn:E; [apply Nat.ltb_lt in E; apply wp_throw; eauto|]. apply Nat.ltb_ge in E.
    apply wp_bind, wp_lift. pose proof (copy_written (E:=NvError) [] buf 0 (length (ni_data i)) (ni_data i)) as Hc.
    rewrite written_nil in Hc. rewrite Hc by (simpl; lia). apply wp_ret. eauto 6.
  - intros id d Hr [_ Hd] _. apply wp_bind, wp_get. pose proof (ram_position s m id Hr) as Hpos.
    unfold nv_data_from. rewrite (proj2 (Nat.leb_le _ _) Hd).
    destruct (position _ _) as [i|].
    + destruct Hpos as (d0 & Hi & _). apply wp_modify. by eapply ram_insert.
    + destruct (vec_push _ _ _) eqn:Ep; [apply wp_modify; by eapply ram_push|by apply wp_throw].
  - intros id Hr. apply wp_bind, wp_get. pose proof (ram_position s m id Hr) as Hpos.
    destruct (position _ _) as [i|]; [|by apply wp_throw].
    destruct Hpos as (d0 & Hi & _). apply wp_modify. by eapply ram_remove.
  - intros id Hr. apply wp_bind, wp_get, wp_ret. split; [done|]. rewrite <- (ram_find s m id Hr).
    apply eq_true_iff_eq. rewrite existsb_exists, bool_decide_eq_true.
    destruct (List.find _ _) as [i|] eqn:E; simpl.
    + apply List.find_some in E. split; [eauto|intros _; eauto].
    + rewrite find_None_elem in E. split; [|by intros []].
      intros (x & Hx & Hp). rewrite E in Hp; [done|by apply list_elem_of_In].
  - intros id Hr. apply wp_bind, wp_get. pose proof (ram_find s m id Hr) as Hf.
    destruct (List.find _ _) as [i|]; simpl in *; [apply wp_ret; eauto|by apply wp_throw].
  - intros Hr. by apply wp_ret.
Qed.

(** * Histories *)
Inductive nv_op :=
| NvRead (id : NvItemId) (buf : list Z)
| NvWrite (id : NvItemId) (d : list Z)
| NvDelete (id : NvItemId)
| NvExists (id : NvItemId)
| NvLength (id : NvItemId)
| NvCompact.

(** What an operation answers. *)
Inductive nv_answer :=
| NvData (n : nat) (buf : list Z)
| NvDone
| NvFlag (b : bool)
| NvSize (n : nat)
| NvFailed (e : NvError).

#[export] Instance nv_answer_eq_dec : EqDecision nv_answer.
Proof. solve_decision. Defined.

Definition answer_of {A} (f : A → nv_answer) (r : outcome NvError A) : option nv_answer :=
  match r with Ok a => Some (f a) | Err e => Some (NvFailed e) | Panic => None end.

Section History.
Context {S : Type} `{NvStorage S}.

(** One operation: the answer ([None]: it panicked) and the store. *)
Definition nv_step (op : nv_op) (s : S) : option nv_answer * S :=
  match op with
  | NvRead id buf => let '(r, s') := nv_read id buf s in (answer_of (λ '(n, b), NvData n b) r, s')
  | NvWrite id d => let '(r, s') := nv_write id d s in (answer_of (λ _, NvDone) r, s')
  | NvDelete id => let '(r, s') := nv_delete id s in (answer_of (λ _, NvDone) r, s')
  | NvExists id => let '(r, s') := nv_exists id s in (answer_of NvFlag r, s')
  | NvLength id => let '(r, s') := nv_item_length id s in (answer_of NvSize r, s')
  | NvCompact => let '(r, s') := nv_compact s in (answer_of (λ _, NvDone) r, s')
  end.

(** A history, up to the first hardware failure. *)
Fixpoint nv_run (ops : list nv_op) (s : S) : list (option nv_answer) * S :=
  match ops with
  | [] => ([], s)
  | op :: ops =>
      let '(a, s1) := nv_step op s in
      if bool_decide (a = Some (NvFailed NvHardwareError)) then ([a], s1)
      else let '(l, s2) := nv_run ops s1 in (a :: l, s2)
  end.
End History.

(** The map seen as a store: what it may answer, and how it changes. *)
Inductive map_step (m : nv_map) : nv_op → nv_answer → nv_map → Prop :=
| MsRead id buf d : m !! id = Some d → (length d <= length buf)%nat →
    map_step m (NvRead id buf) (NvData (length d) (written d buf)) m
| MsReadAbsent id buf : m !! id = None → map_step m (NvRead id buf) (NvFailed NvNotFound) m
| MsReadShort id buf d : m !! id = Some d → (length buf < length d)%nat →
    map_step m (NvRead id buf) (NvFailed NvBufferTooSmall) m
| MsWrite id d : map_step m (NvWrite id d) NvDone (<[id := d]> m)
| MsWriteFull id d : map_step m (NvWrite id d) (NvFailed NvFull) m
| MsDelete id : map_step m (NvDelete id) NvDone (delete id m)
| MsDeleteAbsent id : m !! id = None → map_step m (NvDelete id) (NvFailed NvNotFound) m
| MsDeleteFull id : map_step m (NvDelete id) (NvFailed NvFull) m
| MsExists id : map_step m (NvExists id) (NvFlag (bool_decide (is_Some (m !! id)))) m
| MsLength id d : m !! id = Some d → map_step m (NvLength id) (NvSize (length d)) m
| MsLengthAbsent id : m !! id = None → map_step m (NvLength id) (NvFailed NvNotFound) m
| MsCompact : map_step m NvCompact NvDone m
| MsCompactFull : map_step m NvCompact (NvFailed NvFull) m.

Inductive map_run : nv_map → list nv_op → list (option nv_answer) → nv_map → Prop :=
| MrNil m : map_run m [] [] m
| MrCons m m' m'' op a ops l : map_step m op a m' → map_run m' ops l m'' → map_run m (op :: ops) (Some a :: l) m''.

Definition op_valid (op : nv_op) : Prop :=
  match op with NvWrite _ d => nv_value d ∧ d ≠ [] | _ => True end.

Lemma nv_step_refines {S} `{NvStorage S} (repr : S → nv_map → Prop) (broken : Prop)
    `{!NvStorageLaws S repr broken} (op : nv_op) (s : S) (m : nv_map) :
  repr s m → op_valid op →
  ∃ a s', nv_step op s = (Some a, s') ∧
    if decide (a = NvFailed NvHardwareError) then broken else ∃ m', map_step m op a m' ∧ repr s' m'.
Proof.
  intros Hr Hv. destruct op; simpl.
  - destruct (proj1 (wp_run _ _ _) (nv_read_law s m id buf Hr)) as (r & s' & -> & Hs & Hc).
    destruct r as [[n b]|e|]; [|destruct e|]; try done; eexists _, _; (split; [done|]); simpl.
    + destruct Hc as (d & Hd & -> & Hle & ->). eauto using map_step.
    + eauto using map_step.
    + destruct Hc as (d & Hd & Hlt). eauto using map_step.
    + done.
  - destruct (proj1 (wp_run _ _ _) (nv_write_law s m id d Hr (proj1 Hv) (proj2 Hv))) as (r & s' & -> & Hc).
    destruct r as [u|e|]; [|destruct e|]; try done; eexists _, _; (split; [done|]); simpl; eauto using map_step.
  - destruct (proj1 (wp_run _ _ _) (nv_delete_law s m id Hr)) as (r & s' & -> & Hc).
    destruct r as [u|e|]; [|destruct e|]; try done; eexists _, _; (split; [done|]); simpl; try done;
      [|destruct Hc|]; eauto using map_step.
  - destruct (proj1 (wp_run _ _ _) (nv_exists_law s m id Hr)) as (r & s' & -> & Hs & Hc).
    destruct r as [b|e|]; [|destruct e|]; try done; eexists _, _; (split; [done|]); simpl; try done.
    subst. eauto using map_step.
  - destruct (proj1 (wp_run _ _ _) (nv_item_length_law s m id Hr)) as (r & s' & -> & Hs & Hc).
    destruct r as [n|e|]; [|destruct e|]; try done; eexists _, _; (split; [done|]); simpl; try done; [|eauto using map_step].
    destruct Hc as (d & Hd & ->). eauto using map_step.
  - destruct (proj1 (wp_run _ _ _) (nv_compact_law s m Hr)) as (r & s' & -> & Hc).
    destruct r as [u|e|]; [|destruct e|]; try done; eexists _, _; (split; [done|]); simpl; eauto using map_step.
Qed.

(** A store that keeps the promise behaves as a finite map: over any history
    of valid operations nothing panics, and the answers are those the map can
    give from its contents, up to a hardware failure, which ends the history
    and which a medium that cannot fail never reports. *)
Lemma nv_store_refines_map {S} `{NvStorage S} (repr : S → nv_map → Prop) (broken : Prop)
    `{!NvStorageLaws S repr broken} (ops : list nv_op) (s : S) (m : nv_map) :
  repr s m → Forall op_valid ops →
  ∃ l s', nv_run ops s = (l, s') ∧
    ((∃ m', map_run m ops l m' ∧ repr s' m') ∨
     (broken ∧ ∃ n l' m', l = l' ++ [Some (NvFailed NvHardwareError)] ∧ map_run m (take n ops) l' m')).
Proof.
  revert s m. induction ops as [|op ops IH]; intros s m Hr Hv.
  { exists [], s. split; [done|]. left. exists m. split; [constructor|done]. }
  apply Forall_cons in Hv as [Hop Hv]. destruct (nv_step_refines repr broken op s m Hr Hop) as (a & s1 & E & Ha).
  simpl. rewrite E. destruct (decide (a = NvFailed NvHardwareError)) as [->|Hne].
  - rewrite bool_decide_eq_true_2 by done. eexists _, _. split; [done|]. right. split; [done|].
    exists 0%nat, [], m. split; [done|constructor].
  - rewrite bool_decide_eq_false_2 by congruence. destruct Ha as (m1 & Hstep & Hr1).
    destruct (IH s1 m1 Hr1 Hv) as (l & s2 & -> & Hrest). eexists _, _. split; [done|].
    destruct Hrest as [(m2 & Hrun & Hr2)|(Hb & n & l' & m2 & -> & Hrun)].
    + left. exists m2. split; [by econstructor|done].
    + right. split; [done|]. exists (1 + n)%nat, (Some a :: l'), m2. split; [done|]. simpl. by econstructor.
Qed.

Example ram_history :
  let ops := [NvWrite NwkKey [1; 2]; NvWrite NwkKey [3]; NvRead NwkKey [0; 0]; NvDelete NwkKey; NvExists NwkKey] in
  ∃ l s', nv_run ops ram_nv_new = (l, s') ∧
    ((∃ m', map_run ∅ ops l m' ∧ ram_repr s' m') ∨
     (False ∧ ∃ n l' m', l = l' ++ [Some (NvFailed NvHardwareError)] ∧ map_run ∅ (take n ops) l' m')).
Proof.
  apply (nv_store_refines_map ram_repr False).
  - split; [constructor|by intros i; split; [intros Hi; inversion Hi|]|by intros id [d Hd]].
  - repeat constructor; done.
Defined.
