(* ===== verification/LogNv.v ===== *)
(** * The log-structured store

    [zigbee-runtime/src/log_nv.rs]: items are appended to the active one of
    two flash sectors, the latest entry of an identifier wins, and compaction
    copies the live items to the other sector, whose header is committed last.

    The flash driver is not part of the repository: it is the class
    [NorFlash] (the trait of [embedded_storage]), a device whose operations
    may fail.  [LawfulFlash] states what the trait documents: a read returns
    the octets of its range; a write to erased octets stores the data and an
    erase leaves ones; when a write or an erase fails the octets of its range
    can be anything; nothing outside the range changes.  A power failure is an
    operation that fails and after which the store is opened again. *)

From S2P Require Import Prelude Effects NvStorage.
Local Open Scope Z_scope.

Definition ITEM_MAGIC : Z := 0xA55A.
Definition HEADER_SIZE : nat := 8.
Definition MAX_ITEM_SIZE : nat := 128.
Definition PAGE_HEADER_SIZE : nat := 16.
Definition PAGE_MAGIC : list Z := [0x4C; 0x4E; 0x56; 0x31].
Definition PAGE_COMMIT : list Z := [0x43; 0x4D; 0x49; 0x54].

(** [embedded_storage::nor_flash::NorFlash]; addresses are [u32], lengths [usize]. *)
Class NorFlash (F : Type) := {
  READ_SIZE : nat;
  WRITE_SIZE : nat;
  ERASE_SIZE : nat;
  flash_capacity : F → nat;
  flash_read : Z → nat → F → option (list Z) * F;
  flash_write : Z → list Z → F → bool * F;
  flash_erase : Z → Z → F → bool * F }.

Inductive PageState := PsEmpty | PsLegacy | PsCommitted (generation : Z) | PsInvalid.
#[export] Instance PageState_eq_dec : EqDecision PageState.
Proof. solve_decision. Defined.

Record LogStructuredNv (F : Type) := mk_LogStructuredNv {
  ln_flash : F;
  ln_page_a : Z;
  ln_page_b : Z;
  ln_active_page : Z;
  ln_write_offset : nat;
  ln_generation : Z }.
Arguments mk_LogStructuredNv {F}.
Arguments ln_flash {F}.
Arguments ln_page_a {F}.
Arguments ln_page_b {F}.
Arguments ln_active_page {F}.
Arguments ln_write_offset {F}.
Arguments ln_generation {F}.

(** [(n + 3) & !3] *)
Definition align4 (n : nat) : nat := Z.to_nat (Z.land (Z.of_nat (n + 3)) (Z.lnot 3)).

(** [usize::is_multiple_of] *)
Definition is_multiple_of (a b : nat) : bool := if (b =? 0)%nat then (a =? 0)%nat else (a mod b =? 0)%nat.

Definition valid_generation (state : PageState) : option Z :=
  match state with
  | PsLegacy => Some 0
  | PsCommitted generation => Some generation
  | PsEmpty | PsInvalid => None
  end.

Definition is_newer_generation (candidate current : Z) : bool :=
  negb (candidate =? current) && (wrapping_sub_u32 candidate current <? 0x80000000).

(** The state of a page with this header. *)
Definition header_state (header : list Z) : PageState :=
  match header with
  | [h0; h1; h2; h3; h4; h5; h6; h7; h8; h9; h10; h11; h12; h13; h14; h15] =>
      if forallb (Z.eqb 0xFF) header then PsEmpty
      else if bool_decide ([h0; h1; h2; h3] = PAGE_MAGIC) && bool_decide ([h12; h13; h14; h15] = PAGE_COMMIT) then
        let generation := u32_from_le h4 h5 h6 h7 in
        let inverse := u32_from_le h8 h9 h10 h11 in
        if Z.lxor generation inverse =? 0xFFFFFFFF then PsCommitted generation else PsInvalid
      else if u16_from_le h0 h1 =? ITEM_MAGIC then PsLegacy
      else PsInvalid
  | _ => PsInvalid
  end.

Section LogNv.
Context {F : Type} `{NorFlash F}.
Abbreviation Nv := (LogStructuredNv F).
Abbreviation M := (stm Nv NvError).

Definition set_flash (f : F) (s : Nv) : Nv :=
  let 'mk_LogStructuredNv _ a b p w g := s in mk_LogStructuredNv f a b p w g.
Definition set_active_page (p : Z) (s : Nv) : Nv :=
  let 'mk_LogStructuredNv f a b _ w g := s in mk_LogStructuredNv f a b p w g.
Definition set_write_offset (w : nat) (s : Nv) : Nv :=
  let 'mk_LogStructuredNv f a b p _ g := s in mk_LogStructuredNv f a b p w g.
Definition set_generation (g : Z) (s : Nv) : Nv :=
  let 'mk_LogStructuredNv f a b p w _ := s in mk_LogStructuredNv f a b p w g.

Definition read_flash (offset : Z) (n : nat) : M (list Z) := λ s,
  match flash_read offset n (ln_flash s) with
  | (Some bytes, f) => (Ok bytes, set_flash f s)
  | (None, f) => (Err NvHardwareError, set_flash f s)
  end.

Definition write_flash (offset : Z) (bytes : list Z) : M unit := λ s,
  match flash_write offset bytes (ln_flash s) with
  | (true, f) => (Ok (), set_flash f s)
  | (false, f) => (Err NvHardwareError, set_flash f s)
  end.

Definition erase_page (page : Z) : M unit := λ s,
  match add_u32 page (as_u32 (Z.of_nat ERASE_SIZE)) with
  | Ok end_ =>
      match flash_erase page end_ (ln_flash s) with
      | (true, f) => (Ok (), set_flash f s)
      | (false, f) => (Err NvHardwareError, set_flash f s)
      end
  | Err e => (Err e, s)
  | Panic => (Panic, s)
  end.

(** [page + offset as u32] *)
Definition page_offset (page : Z) (offset : nat) : M Z := lift (add_u32 page (as_u32 (Z.of_nat offset))).

Definition page_state (page : Z) : M PageState :=
  header ← read_flash page PAGE_HEADER_SIZE; mret (header_state header).

Definition page_data_start (page : Z) : M nat :=
  state ← page_state page;
  match state with
  | PsCommitted _ => mret PAGE_HEADER_SIZE
  | PsEmpty | PsLegacy => mret 0%nat
  | PsInvalid => throw NvCorrupt
  end.

Definition commit_page (page generation : Z) : M unit :=
  _ ← write_flash page (PAGE_MAGIC ++ u32_to_le generation ++ u32_to_le (Z.lxor generation 0xFFFFFFFF));
  at_ ← lift (add_u32 page 12);
  write_flash at_ PAGE_COMMIT.

(** The fields of an item header. *)
Definition item_fields (hdr : list Z) : outcome NvError (Z * Z * nat) :=
  h0 ← index hdr 0; h1 ← index hdr 1; h2 ← index hdr 2; h3 ← index hdr 3; h4 ← index hdr 4; h5 ← index hdr 5;
  Ok (u16_from_le h0 h1, u16_from_le h2 h3, Z.to_nat (u16_from_le h4 h5)).

(** The walk over the items of a page that all three loops of the source
    share: [step] is what a loop does with the item at [offset].  The fuel is
    the size of the page: every turn moves by at least a header. *)
Fixpoint scan {A} (fuel : nat) (page : Z) (step : nat → Z → nat → A → outcome NvError A) (offset : nat) (acc : A)
    : M (nat * A) :=
  if (ERASE_SIZE <? offset + HEADER_SIZE)%nat then mret (offset, acc)
  else
    match fuel with
    | O => lift Panic
    | S fuel =>
        at_ ← page_offset page offset;
        hdr ← read_flash at_ HEADER_SIZE;
        '(magic, item_id, len) ← lift (item_fields hdr);
        if negb (magic =? ITEM_MAGIC) then mret (offset, acc)
        else
          acc ← lift (step offset item_id len acc);
          let record_size := (HEADER_SIZE + align4 len)%nat in
          if (ERASE_SIZE <? offset + record_size)%nat then throw NvCorrupt
          else scan fuel page step (offset + record_size)%nat acc
    end.

Definition find_write_offset (page : Z) : M nat :=
  offset ← page_data_start page;
  '(offset, _) ← scan ERASE_SIZE page (λ _ _ _ acc, Ok acc) offset ();
  mret offset.

(** [find_latest_entry]: where the data of the latest item is, and its length. *)
Definition find_latest_entry (id : NvItemId) : M (option (Z * nat)) :=
  s ← get_st;
  offset ← page_data_start (ln_active_page s);
  '(_, found) ← scan ERASE_SIZE (ln_active_page s)
    (λ offset item_id len found,
      if item_id =? nv_item_code id then
        at_ ← add_u32 (ln_active_page s) (as_u32 (Z.of_nat (offset + HEADER_SIZE)));
        Ok (Some (at_, len))
      else Ok found) offset None;
  mret found.

Definition find_latest (id : NvItemId) (buf : list Z) : M (option nat * list Z) :=
  found ← find_latest_entry id;
  match found with
  | None => mret (None, buf)
  | Some (data_offset, len) =>
      if (len =? 0)%nat then mret (None, buf)
      else if (MAX_ITEM_SIZE <? len)%nat then throw NvCorrupt
      else if (length buf <? len)%nat then throw NvBufferTooSmall
      else
        data ← read_flash data_offset (align4 len);
        data ← lift (slice data 0 len);
        buf ← lift (copy_from_slice buf 0 len data);
        mret (Some len, buf)
  end.

(** The octets of an item. *)
Definition item_bytes (id : NvItemId) (data : list Z) : list Z :=
  u16_to_le ITEM_MAGIC ++ u16_to_le (nv_item_code id) ++ u16_to_le (Z.of_nat (length data)) ++ [0x00; 0x00]
  ++ data ++ repeat 0xFF (align4 (length data) - length data).

Definition append_item_to_active (id : NvItemId) (data : list Z) : M unit :=
  s ← get_st;
  let total := (HEADER_SIZE + align4 (length data))%nat in
  if (ERASE_SIZE <? ln_write_offset s + total)%nat then throw NvFull
  else if (MAX_ITEM_SIZE <? align4 (length data))%nat then lift Panic
  else
    at_ ← page_offset (ln_active_page s) (ln_write_offset s);
    _ ← write_flash at_ (item_bytes id data);
    modify_st (set_write_offset (ln_write_offset s + total)).

Definition scratch_page (s : Nv) : Z :=
  if ln_active_page s =? ln_page_a s then ln_page_b s else ln_page_a s.

(** The copy loop of [compact], with its buffer. *)
Fixpoint copy_items (ids : list Z) (old_active scratch : Z) (data_buf : list Z) : M unit :=
  match ids with
  | [] => mret ()
  | item_id :: ids =>
      _ ← modify_st (set_active_page old_active);
      match raw_to_nv_item_id item_id with
      | Some nv_id =>
          '(found, data_buf) ← find_latest nv_id data_buf;
          _ ← modify_st (set_active_page scratch);
          match found with
          | Some len =>
              data ← lift (slice data_buf 0 len);
              _ ← append_item_to_active nv_id data;
              copy_items ids old_active scratch data_buf
          | None => copy_items ids old_active scratch data_buf
          end
      | None =>
          _ ← modify_st (set_active_page scratch);
          copy_items ids old_active scratch data_buf
      end
  end.

Definition MAX_SEEN_IDS : nat := 32.

(** The second half of [compact]: copy, commit, erase. *)
Definition finish_compaction (scratch : Z) (seen_ids : list Z) : M unit :=
  s ← get_st;
  let old_active := ln_active_page s in
  let old_write_offset := ln_write_offset s in
  let old_generation := ln_generation s in
  let next_generation := wrapping_add_u32 old_generation 1 in
  let next_generation := if next_generation =? 0 then 1 else next_generation in
  let restore (s : Nv) := set_generation old_generation (set_write_offset old_write_offset (set_active_page old_active s)) in
  _ ← modify_st (λ s, set_write_offset PAGE_HEADER_SIZE (set_active_page scratch s));
  copy_result ← try_st (copy_items seen_ids old_active scratch (repeat 0 128));
  match copy_result with
  | inr error => _ ← modify_st restore; throw error
  | inl _ =>
      _ ← modify_st (set_active_page scratch);
      s ← get_st;
      let scratch_write_offset := ln_write_offset s in
      committed ← try_st (commit_page scratch next_generation);
      match committed with
      | inr error => _ ← modify_st restore; throw error
      | inl _ =>
          _ ← modify_st (set_generation next_generation);
          erased ← try_st (erase_page old_active);
          match erased with
          | inr error => _ ← modify_st (λ s, set_write_offset scratch_write_offset (set_active_page scratch s)); throw error
          | inl _ => mret ()
          end
      end
  end.

Definition compact : M unit :=
  s ← get_st;
  let scratch := scratch_page s in
  _ ← erase_page scratch;
  offset ← page_data_start (ln_active_page s);
  '(_, seen_ids) ← scan ERASE_SIZE (ln_active_page s)
    (λ _ item_id _ seen_ids,
      if bool_decide (item_id ∈ seen_ids) then Ok seen_ids
      else match vec_push MAX_SEEN_IDS seen_ids item_id with Some l => Ok l | None => Err NvFull end) offset [];
  finish_compaction scratch seen_ids.

Definition append_item (id : NvItemId) (data : list Z) : M unit :=
  if (MAX_ITEM_SIZE <? length data)%nat then throw NvBufferTooSmall
  else
    s ← get_st;
    let total := (HEADER_SIZE + align4 (length data))%nat in
    _ ← (if (ERASE_SIZE <? ln_write_offset s + total)%nat then compact else mret ());
    append_item_to_active id data.

Definition log_nv_read (id : NvItemId) (buf : list Z) : M (nat * list Z) :=
  '(found, buf) ← find_latest id buf;
  match found with Some len => mret (len, buf) | None => throw NvNotFound end.

Definition log_nv_write (id : NvItemId) (data : list Z) : M unit := append_item id data.
Definition log_nv_delete (id : NvItemId) : M unit := append_item id [].

Definition log_nv_exists (id : NvItemId) : M bool :=
  '(found, _) ← find_latest id (repeat 0 128);
  mret (bool_decide (is_Some found)).

Definition log_nv_item_length (id : NvItemId) : M nat :=
  found ← find_latest_entry id;
  match found with
  | Some (_, len) => if negb (len =? 0)%nat then mret len else throw NvNotFound
  | None => throw NvNotFound
  end.

Definition init : M unit :=
  s ← get_st;
  let a := ln_page_a s in
  let b := ln_page_b s in
  a_state ← page_state a;
  b_state ← page_state b;
  _ ← (match valid_generation a_state, valid_generation b_state with
       | Some ga, Some gb =>
           if is_newer_generation gb ga then
             _ ← modify_st (λ s, set_generation gb (set_active_page b s)); erase_page a
           else
             _ ← modify_st (λ s, set_generation ga (set_active_page a s)); erase_page b
       | Some ga, None =>
           _ ← modify_st (λ s, set_generation ga (set_active_page a s));
           if bool_decide (b_state = PsInvalid) then erase_page b else mret ()
       | None, Some gb =>
           _ ← modify_st (λ s, set_generation gb (set_active_page b s));
           if bool_decide (a_state = PsInvalid) then erase_page a else mret ()
       | None, None =>
           if bool_decide (a_state = PsEmpty) && bool_decide (b_state = PsEmpty)
           then modify_st (λ s, set_generation 0 (set_active_page a s))
           else throw NvCorrupt
       end);
  s ← get_st;
  offset ← find_write_offset (ln_active_page s);
  modify_st (set_write_offset offset).

Definition layout_ok (flash : F) (page_a page_b : Z) : bool :=
  negb ((READ_SIZE =? 0)%nat || (WRITE_SIZE =? 0)%nat || (ERASE_SIZE =? 0)%nat
        || negb (is_multiple_of HEADER_SIZE READ_SIZE) || negb (is_multiple_of HEADER_SIZE WRITE_SIZE)
        || negb (is_multiple_of PAGE_HEADER_SIZE READ_SIZE) || negb (is_multiple_of PAGE_HEADER_SIZE WRITE_SIZE)
        || negb (is_multiple_of 4 READ_SIZE) || negb (is_multiple_of 4 WRITE_SIZE)
        || (page_a =? page_b)
        || negb (is_multiple_of (Z.to_nat page_a) ERASE_SIZE) || negb (is_multiple_of (Z.to_nat page_b) ERASE_SIZE)
        || existsb (λ page, (flash_capacity flash <? Z.to_nat page + ERASE_SIZE)%nat) [page_a; page_b]).

(** [LogStructuredNv::new]: the outcome, and the state with the flash it leaves. *)
Definition log_nv_new (flash : F) (page_a page_b : Z) : outcome NvError unit * Nv :=
  let s := mk_LogStructuredNv flash page_a page_b page_a 0 0 in
  if layout_ok flash page_a page_b then init s else (Err NvHardwareError, s).
End LogNv.

#[export] Instance LogNv_NvStorage {F} `{NorFlash F} : NvStorage (LogStructuredNv F) := {|
  nv_read := log_nv_read; nv_write := log_nv_write; nv_delete := log_nv_delete; nv_exists := log_nv_exists;
  nv_item_length := log_nv_item_length; nv_compact := compact |}.

(** * What the flash promises *)

(** [l] with the octets from [a] on replaced. *)
Definition splice (l : list Z) (a : nat) (r : list Z) : list Z := take a l ++ r ++ drop (a + length r) l.

(** [good]: what holds of a device in use; [may_fail]: the medium can fail on
    an aligned request within its range. *)
Class LawfulFlash (F : Type) `{NorFlash F} (bytes : F → list Z) (good : F → Prop) (may_fail : Prop) : Prop := {
  lf_sizes : (PAGE_HEADER_SIZE <= ERASE_SIZE)%nat ∧ (4 | ERASE_SIZE)%nat;
  lf_capacity f : good f → flash_capacity f = length (bytes f) ∧ Z.of_nat (length (bytes f)) < 4294967296;
  lf_octets f : good f → Forall is_u8 (bytes f);
  lf_read f a n r f' :
    good f → flash_read a n f = (r, f') → 0 <= a → (Z.to_nat a + n <= length (bytes f))%nat →
    good f' ∧ bytes f' = bytes f ∧
    match r with
    | Some l => l = take n (drop (Z.to_nat a) (bytes f))
    | None => is_multiple_of (Z.to_nat a) READ_SIZE = true → is_multiple_of n READ_SIZE = true → may_fail
    end;
  lf_write f a d ok f' :
    good f → flash_write a d f = (ok, f') → 0 <= a → (Z.to_nat a + length d <= length (bytes f))%nat →
    Forall is_u8 d → take (length d) (drop (Z.to_nat a) (bytes f)) = repeat 0xFF (length d) →
    good f' ∧
    (∃ r, bytes f' = splice (bytes f) (Z.to_nat a) r ∧ length r = length d ∧ (ok = true → r = d)) ∧
    (ok = false → is_multiple_of (Z.to_nat a) WRITE_SIZE = true → is_multiple_of (length d) WRITE_SIZE = true → may_fail);
  lf_erase f a ok f' :
    good f → flash_erase a (a + Z.of_nat ERASE_SIZE) f = (ok, f') → 0 <= a →
    (Z.to_nat a + ERASE_SIZE <= length (bytes f))%nat →
    good f' ∧
    (∃ r, bytes f' = splice (bytes f) (Z.to_nat a) r ∧ length r = ERASE_SIZE ∧ (ok = true → r = repeat 0xFF ERASE_SIZE)) ∧
    (ok = false → is_multiple_of (Z.to_nat a) ERASE_SIZE = true → may_fail) }.

(** A device in memory that fails after a number of operations, leaving the
    first half of the range it was working on done; its erases may be sure. *)
Record MockFlash := mk_MockFlash { mf_bytes : list Z; mf_left : nat; mf_faulty : bool; mf_erases : bool }.
Definition mock_sector : nat := 256.
Definition mock_step (f : MockFlash) (bytes : list Z) : MockFlash := mk_MockFlash bytes (pred (mf_left f)) (mf_faulty f) (mf_erases f).
Definition mock_fails (f : MockFlash) : bool := mf_faulty f && (mf_left f =? 0)%nat.
Definition mock_put (a : nat) (r l : list Z) : list Z := splice l a (zip_with Z.land r (take (length r) (drop a l))).

#[export] Instance MockFlash_NorFlash : NorFlash MockFlash := {|
  READ_SIZE := 4; WRITE_SIZE := 1; ERASE_SIZE := mock_sector;
  flash_capacity f := length (mf_bytes f);
  flash_read a n f :=
    if mock_fails f || negb (is_multiple_of (Z.to_nat a) 4) || negb (is_multiple_of n 4)
       || (length (mf_bytes f) <? Z.to_nat a + n)%nat
    then (None, mock_step f (mf_bytes f))
    else (Some (take n (drop (Z.to_nat a) (mf_bytes f))), mock_step f (mf_bytes f));
  flash_write a d f :=
    if (length (mf_bytes f) <? Z.to_nat a + length d)%nat then (false, mock_step f (mf_bytes f))
    else if mock_fails f then (false, mock_step f (mock_put (Z.to_nat a) (take (length d / 2) d) (mf_bytes f)))
    else (true, mock_step f (mock_put (Z.to_nat a) d (mf_bytes f)));
  flash_erase a b f :=
    if (length (mf_bytes f) <? Z.to_nat b)%nat || negb (is_multiple_of (Z.to_nat a) mock_sector)
       || negb (is_multiple_of (Z.to_nat b) mock_sector)
    then (false, mock_step f (mf_bytes f))
    else if mock_fails f && negb (mf_erases f)
    then (false, mock_step f (splice (mf_bytes f) (Z.to_nat a) (repeat 0xFF (Z.to_nat (b - a) / 2))))
    else (true, mock_step f (splice (mf_bytes f) (Z.to_nat a) (repeat 0xFF (Z.to_nat (b - a))))) |}.

Definition mock_good (faulty : bool) (f : MockFlash) : Prop :=
  length (mf_bytes f) = 512%nat ∧ Forall is_u8 (mf_bytes f) ∧ mf_faulty f = faulty.

(** The device restarted: nothing fails from here on. *)
Definition mock_restart (f : MockFlash) : MockFlash := mk_MockFlash (mf_bytes f) 0 false false.
Definition mock_fresh (left : nat) (faulty : bool) : MockFlash := mk_MockFlash (repeat 0xFF 512) left faulty false.

Definition ex_open : outcome NvError unit * LogStructuredNv MockFlash := log_nv_new (mock_fresh 0 false) 0 256.
Definition ex_writes : stm (LogStructuredNv MockFlash) NvError (nat * list Z) :=
  _ ← log_nv_write NwkChannel [15]; _ ← log_nv_write NwkPanId [1; 2; 3]; _ ← log_nv_write NwkChannel [20; 21];
  _ ← compact; _ ← log_nv_delete NwkPanId; log_nv_read NwkChannel [0; 0; 0; 0].
Example ex_writes_read : ex_open.1 = Ok () ∧ (ex_writes ex_open.2).1 = Ok (2%nat, [20; 21; 0; 0]).
Proof. by vm_compute. Qed.

(** * Octets and pages *)
Lemma length_splice l a r : (a + length r <= length l)%nat → length (splice l a r) = length l.
Proof. intros Hl. unfold splice. rewrite !length_app, length_take, length_drop. lia. Qed.

Lemma splice_app pre r x post a :
  a = length pre → length r = length x → splice (pre ++ x ++ post) a r = pre ++ r ++ post.
Proof.
  intros -> Hr. unfold splice. rewrite take_app_length, Hr, drop_app_add, drop_app_length. done.
Qed.

Lemma lookup_splice l a r i :
  (a + length r <= length l)%nat →
  splice l a r !! i = if decide (a <= i < a + length r)%nat then r !! (i - a)%nat else l !! i.
Proof.
  intros Hl. unfold splice. destruct (decide (i < a)%nat) as [Hi|Hi].
  - rewrite decide_False by lia. rewrite lookup_app_l by (rewrite length_take; lia).
    by apply lookup_take_lt.
  - rewrite lookup_app_r by (rewrite length_take; lia). rewrite length_take, Nat.min_l by lia.
    destruct (decide (i < a + length r)%nat) as [Hi'|Hi'].
    + rewrite decide_True by lia. apply lookup_app_l. lia.
    + rewrite decide_False by lia. rewrite lookup_app_r by lia. rewrite lookup_drop. f_equal. lia.
Qed.

(** A splice seen through a window that it hits, or misses. *)
Lemma window_splice l p n off r :
  (off + length r <= n)%nat → (p + n <= length l)%nat →
  take n (drop p (splice l (p + off) r)) = splice (take n (drop p l)) off r.
Proof.
  intros Hr Hl. apply list_eq. intros i.
  rewrite lookup_splice by (rewrite length_take, length_drop; lia).
  destruct (decide (i < n)%nat) as [Hi|Hi].
  - rewrite lookup_take_lt, lookup_drop, lookup_splice by lia. repeat case_decide; try lia; [f_equal; lia|].
    by rewrite lookup_take_lt, lookup_drop by lia.
  - rewrite lookup_take_ge by lia. rewrite decide_False by lia. by rewrite lookup_take_ge by lia.
Qed.

Lemma window_miss l p n a r :
  (a + length r <= length l)%nat → (p + n <= a ∨ a + length r <= p)%nat →
  take n (drop p (splice l a r)) = take n (drop p l).
Proof.
  intros Hl Hm. apply list_eq. intros i. destruct (decide (i < n)%nat) as [Hi|Hi].
  - rewrite !lookup_take_lt, !lookup_drop, lookup_splice by lia. by rewrite decide_False by lia.
  - by rewrite !lookup_take_ge by lia.
Qed.

Lemma is_multiple_of_divide a b : is_multiple_of a b = true ↔ (b | a)%nat.
Proof.
  unfold is_multiple_of. destruct (Nat.eqb_spec b 0) as [->|Hb].
  - rewrite Nat.eqb_eq. split; [by intros ->|]. intros [k Hk]. lia.
  - rewrite Nat.eqb_eq. by apply Nat.Lcm0.mod_divide.
Qed.

Lemma align4_eq n : align4 n = (4 * ((n + 3) / 4))%nat.
Proof.
  unfold align4. change (Z.lnot 3) with (Z.lnot (Z.ones 2)).
  rewrite <- Z.ldiff_land, Z.ldiff_ones_r, Z.shiftl_mul_pow2, Z.shiftr_div_pow2 by lia.
  change (2 ^ 2) with (Z.of_nat 4). rewrite <- Nat2Z.inj_div, <- Nat2Z.inj_mul, Nat2Z.id. lia.
Qed.

Lemma align4_bounds n : (n <= align4 n < n + 4)%nat ∧ (4 | align4 n)%nat.
Proof.
  rewrite align4_eq. split; [|apply Nat.divide_factor_l].
  pose proof (Nat.div_mod_eq (n + 3) 4). pose proof (Nat.mod_upper_bound (n + 3) 4). lia.
Qed.

Lemma length_item_bytes id d : length (item_bytes id d) = (HEADER_SIZE + align4 (length d))%nat.
Proof.
  unfold item_bytes, HEADER_SIZE. rewrite !length_app, repeat_length. simpl. pose proof (align4_bounds (length d)). lia.
Qed.

Lemma item_bytes_octets id d : Forall is_u8 d → Forall is_u8 (item_bytes id d).
Proof.
  intros Hd. unfold item_bytes. repeat (apply Forall_app; split); auto using u16_to_le_octets.
  - repeat constructor; done.
  - apply Forall_forall. intros x Hx. apply list_elem_of_In, repeat_spec in Hx as ->. done.
Qed.

(** * Logs *)
Abbreviation log_items := (list (NvItemId * list Z)).
Definition encode_items (items : log_items) : list Z := concat ((λ i, item_bytes i.1 i.2) <$> items).
Definition page_header (g : Z) : list Z :=
  PAGE_MAGIC ++ u32_to_le g ++ u32_to_le (Z.lxor g 0xFFFFFFFF) ++ PAGE_COMMIT.
Definition header_bytes (h : option Z) : list Z := match h with Some g => page_header g | None => [] end.
Definition item_wf (i : NvItemId * list Z) : Prop := nv_value i.2.

(** What a log holds: the latest entry wins, an empty one deletes. *)
Definition log_step (m : nv_map) (i : NvItemId * list Z) : nv_map :=
  if decide (i.2 = []) then delete i.1 m else <[i.1 := i.2]> m.
Definition log_map (items : log_items) : nv_map := foldl log_step ∅ items.

(** The octets of a page with this log behind [pre]. *)
Definition log_page (pre : list Z) (items : log_items) (p : list Z) : Prop :=
  ∃ k, p = pre ++ encode_items items ++ repeat 0xFF k.

Lemma encode_items_app l1 l2 : encode_items (l1 ++ l2) = encode_items l1 ++ encode_items l2.
Proof. unfold encode_items. by rewrite fmap_app, concat_app. Qed.

Lemma encode_items_cons id d l : encode_items ((id, d) :: l) = item_bytes id d ++ encode_items l.
Proof. done. Qed.

Lemma encode_items_one id d : encode_items [(id, d)] = item_bytes id d.
Proof. apply app_nil_r. Qed.

Lemma encode_items_divide l : (4 | length (encode_items l))%nat.
Proof.
  induction l as [|[id d] l IH]; [by exists 0%nat|]. rewrite encode_items_cons, length_app, length_item_bytes.
  apply Nat.divide_add_r; [|done]. apply Nat.divide_add_r; [by exists 2%nat|apply align4_bounds].
Qed.

Lemma header_bytes_divide h : (4 | length (header_bytes h))%nat.
Proof. destruct h; [by exists 4%nat|by exists 0%nat]. Qed.

Lemma item_bytes_fields id d :
  item_wf (id, d) → item_fields (take HEADER_SIZE (item_bytes id d)) = Ok (ITEM_MAGIC, nv_item_code id, length d).
Proof.
  intros [_ Hd]. simpl in Hd. unfold NV_MAX_ITEM in Hd. unfold item_bytes, item_fields, HEADER_SIZE.
  cbn -[Z.land Z.shiftr u16_from_le nv_item_code Z.of_nat Z.to_nat].
  rewrite !u16_from_to_le; [|split; lia|apply nv_item_code_u16|done]. by rewrite Nat2Z.id.
Qed.

Lemma item_bytes_data id d :
  take (align4 (length d)) (drop HEADER_SIZE (item_bytes id d)) = d ++ repeat 0xFF (align4 (length d) - length d).
Proof.
  unfold item_bytes, HEADER_SIZE, u16_to_le. cbn [app drop]. rewrite drop_0, take_ge; [done|]. rewrite length_app, repeat_length.
  pose proof (align4_bounds (length d)). lia.
Qed.

(** The states of the headers that occur. *)
Lemma lxor_not_u32 g : is_u32 g → Z.lxor g (Z.lxor g 0xFFFFFFFF) = 0xFFFFFFFF ∧ is_u32 (Z.lxor g 0xFFFFFFFF).
Proof.
  intros Hg. split; [by rewrite <- Z.lxor_assoc, Z.lxor_nilpotent|].
  assert (Hp : 0 <= Z.lxor g 0xFFFFFFFF) by (apply Z.lxor_nonneg; unfold is_u32 in Hg; lia).
  split; [done|]. apply (bits_below _ 32); [done|lia|]. intros n Hn. rewrite Z.lxor_spec.
  rewrite !(testbit_above _ 32 n) by (unfold is_u32 in *; simpl; lia). done.
Qed.

Lemma header_state_committed g rest :
  is_u32 g → header_state (take 16 (page_header g ++ rest)) = PsCommitted g.
Proof.
  intros Hg. destruct (lxor_not_u32 g Hg) as [Hx Hn]. unfold page_header, u32_to_le, PAGE_MAGIC, PAGE_COMMIT.
  cbn -[Z.land Z.shiftr u16_from_le u32_from_le Z.lxor Z.eqb].
  rewrite (u32_from_to_le g Hg), (u32_from_to_le _ Hn), Hx. done.
Qed.

Lemma header_state_empty : header_state (repeat 0xFF 16) = PsEmpty.
Proof. done. Qed.

Lemma header_state_legacy rest : length rest = 14%nat → header_state (0x5A :: 0xA5 :: rest) = PsLegacy.
Proof.
  intros Hl. do 14 (destruct rest as [|? rest]; [done|]). destruct rest; [|done].
  unfold header_state. by rewrite (andb_false_l (forallb _ _)) || (simpl; done).
Qed.

(** ** Reading headers back *)
Lemma header_committed_inv hd g : header_state hd = PsCommitted g → take 4 hd = PAGE_MAGIC ∧ drop 12 hd = PAGE_COMMIT.
Proof.
  do 16 (destruct hd as [|? hd]; [done|]). destruct hd; [|done].
  unfold header_state. case_match; [done|]. case_match eqn:Em; [|case_match; done].
  apply andb_true_iff in Em as [Em Ec]. by apply bool_decide_eq_true in Em, Ec.
Qed.

Lemma header_empty_inv hd : header_state hd = PsEmpty → hd = repeat 0xFF 16.
Proof.
  do 16 (destruct hd as [|? hd]; [done|]). destruct hd; [|done].
  unfold header_state. case_match eqn:E; [|repeat case_match; done]. intros _.
  rewrite forallb_forall in E. apply list_eq_Forall2, Forall2_same_length_lookup_2; [done|].
  intros i x y Hx Hy. apply list_elem_of_lookup_2, list_elem_of_In, repeat_spec in Hy as ->.
  symmetry. apply Z.eqb_eq, E. by apply list_elem_of_In, (list_elem_of_lookup_2 _ i).
Qed.

(** Generation [g] is ahead of [g'], on the circle of 32-bit numbers. *)
Definition outranks (g g' : Z) : Prop := 0 < (g - g') mod 4294967296 < 2147483648.

Lemma outranks_newer g g' :
  outranks g g' → is_newer_generation g g' = true ∧ is_newer_generation g' g = false.
Proof.
  unfold outranks, is_newer_generation, wrapping_sub_u32. intros Hd.
  assert (Hne : g ≠ g') by (intros ->; rewrite Z.sub_diag, Z.mod_0_l in Hd; lia).
  rewrite (proj2 (Z.eqb_neq g g')), (proj2 (Z.eqb_neq g' g)) by congruence. cbn [negb andb].
  replace (g' - g) with (- (g - g')) by lia. rewrite Z.mod_opp_l_nz by lia. split; [apply Z.ltb_lt|apply Z.ltb_ge]; lia.
Qed.

(** The page is not taken for one as new as generation [g]. *)
Definition dominated (g : Z) (p : list Z) : Prop :=
  match valid_generation (header_state (take 16 p)) with Some g' => outranks g g' | None => True end.

(** Nor for a committed one. *)
Definition committed_below (g : Z) (p : list Z) : Prop :=
  ∀ g', header_state (take 16 p) = PsCommitted g' → outranks g g'.

Lemma dominated_committed g p : dominated g p → committed_below g p.
Proof. unfold dominated. intros Hd g' E. by rewrite E in Hd. Qed.

Lemma dominated_blank g p : take 16 p = repeat 0xFF 16 → dominated g p.
Proof. unfold dominated. by intros ->. Qed.

(** A header without its commit word. *)
Lemma uncommitted_below g p c : drop 12 (take 16 p) = c → c ≠ PAGE_COMMIT → committed_below g p.
Proof. intros Hc Hne g' E. destruct (header_committed_inv _ _ E) as [_ E']. congruence. Qed.

Definition next_gen (g : Z) : Z := let n := wrapping_add_u32 g 1 in if n =? 0 then 1 else n.

Lemma next_gen_outranks g : is_u32 g → outranks (next_gen g) g ∧ is_u32 (next_gen g).
Proof.
  intros Hg. unfold outranks, next_gen, wrapping_add_u32, is_u32 in *.
  assert (Hm : (g + 1) mod 4294967296 = if decide (g = 4294967295) then 0 else g + 1).
  { case_decide; [by subst|]. apply Z.mod_small. lia. }
  rewrite Hm. case_decide; [subst; done|]. rewrite (proj2 (Z.eqb_neq (g + 1) 0)) by lia.
  replace (g + 1 - g) with 1 by lia. split; [done|lia].
Qed.

(** The state a log gives its page. *)
Definition log_state (h : option Z) (items : log_items) : PageState :=
  match h with Some g => PsCommitted g | None => match items with [] => PsEmpty | _ => PsLegacy end end.
Definition header_wf (h : option Z) : Prop := match h with Some g => is_u32 g | None => True end.

Lemma log_header_state h items p :
  log_page (header_bytes h) items p → header_wf h → (16 <= length p)%nat →
  header_state (take 16 p) = log_state h items.
Proof.
  intros [k ->] Hh Hl. destruct h as [g|]; cbn [header_bytes log_state header_wf app] in *;
    [by apply header_state_committed|].
  destruct items as [|[id d] items].
  - cbn [encode_items fmap list_fmap concat app] in *. rewrite repeat_length in Hl. replace k with (16 + (k - 16))%nat by lia.
    rewrite repeat_app, take_app_length'; done.
  - rewrite encode_items_cons in *. unfold item_bytes in *. rewrite <- !app_assoc in *.
    change (u16_to_le ITEM_MAGIC) with [0x5A; 0xA5] in *. cbn [app take] in *. apply header_state_legacy.
    rewrite length_take. cbn [length] in Hl. lia.
Qed.

(** What a walk over a log computes. *)
Fixpoint fold_items {A} (step : nat → Z → nat → A → outcome NvError A) (offset : nat) (items : log_items) (acc : A)
    : outcome NvError A :=
  match items with
  | [] => Ok acc
  | (id, d) :: items =>
      acc ← step offset (nv_item_code id) (length d) acc;
      fold_items step (offset + (HEADER_SIZE + align4 (length d))) items acc
  end.

Lemma fold_items_cons {A} step offset id d items (acc : A) :
  fold_items step offset ((id, d) :: items) acc =
  match step offset (nv_item_code id) (length d) acc with
  | Ok acc => fold_items step (offset + (HEADER_SIZE + align4 (length d))) items acc
  | Err e => Err e
  | Panic => Panic
  end.
Proof. done. Qed.

Lemma log_map_snoc items i : log_map (items ++ [i]) = log_step (log_map items) i.
Proof. unfold log_map. by rewrite foldl_app. Qed.

Lemma foldl_log_step_other m items id : id ∉ items.*1 → foldl log_step m items !! id = m !! id.
Proof.
  revert m. induction items as [|[i d] items IH]; intros m Hid; [done|]. simpl in *. rewrite IH by set_solver.
  unfold log_step; simpl. case_decide; [apply lookup_delete_ne|apply lookup_insert_ne]; set_solver.
Qed.

Lemma log_map_latest pre id d post :
  id ∉ post.*1 → log_map (pre ++ (id, d) :: post) !! id = if decide (d = []) then None else Some d.
Proof.
  intros Hid. unfold log_map. rewrite foldl_app. simpl. rewrite foldl_log_step_other by done.
  unfold log_step; simpl. case_decide; [apply lookup_delete_eq|apply lookup_insert_eq].
Qed.

Lemma log_map_absent items id : id ∉ items.*1 → log_map items !! id = None.
Proof. intros Hid. unfold log_map. rewrite foldl_log_step_other by done. apply lookup_empty. Qed.

(** The live items of a store, for these identifiers. *)
Definition live_items (m : nv_map) (ids : list NvItemId) : log_items :=
  concat ((λ id, match m !! id with Some d => [(id, d)] | None => [] end) <$> ids).

Definition item_size (d : list Z) : nat := (HEADER_SIZE + align4 (length d))%nat.

(** The room the contents of a store need. *)
Definition live_size (m : nv_map) : nat := sum_list ((λ i, item_size i.2) <$> map_to_list m).

Lemma length_encode_items items : length (encode_items items) = sum_list ((λ i, item_size i.2) <$> items).
Proof.
  induction items as [|[id d] items IH]; [done|]. rewrite encode_items_cons, length_app, length_item_bytes, IH. done.
Qed.

Lemma log_map_value items id d :
  log_map items !! id = Some d → Forall item_wf items → d ≠ [] ∧ nv_value d.
Proof.
  revert id d. induction items as [|[i e] items IH] using rev_ind; intros id d Hm Hwf; [done|].
  apply Forall_app in Hwf as [Hwf Hi]. apply Forall_cons in Hi as [Hi _]. rewrite log_map_snoc in Hm. unfold log_step in Hm.
  simpl in Hm. case_decide.
  - apply lookup_delete_Some in Hm as [_ Hm]. by apply (IH id).
  - apply lookup_insert_Some in Hm as [[_ <-]|[_ Hm]]; [split; done|by apply (IH id)].
Qed.

Lemma log_map_ids items id : is_Some (log_map items !! id) → id ∈ items.*1.
Proof. intros [d Hd]. destruct (decide (id ∈ items.*1)) as [|Hn]; [done|]. by rewrite log_map_absent in Hd. Qed.

Lemma elem_of_live m ids id d : (id, d) ∈ live_items m ids ↔ m !! id = Some d ∧ id ∈ ids.
Proof.
  induction ids as [|i ids IH]; [simpl; set_solver|].
  change (live_items m (i :: ids)) with
    (match m !! i with Some d => [(i, d)] | None => [] end ++ live_items m ids).
  rewrite elem_of_app, IH, elem_of_cons. destruct (m !! i) as [e|] eqn:E.
  - rewrite list_elem_of_singleton. naive_solver.
  - rewrite elem_of_nil. naive_solver.
Qed.

Lemma NoDup_live m ids : NoDup ids → NoDup (live_items m ids).*1.
Proof.
  induction 1 as [|id ids Hid _ IH]; [constructor|]. unfold live_items in *. simpl.
  destruct (m !! id) as [d|] eqn:E; simpl; [|done]. constructor; [|done].
  intros Hin. apply list_elem_of_fmap in Hin as ([i e] & -> & Hin). by apply (elem_of_live m ids) in Hin as [_ ?].
Qed.

Lemma live_items_perm m ids :
  NoDup ids → (∀ id, is_Some (m !! id) → id ∈ ids) → live_items m ids ≡ₚ map_to_list m.
Proof.
  intros Hnd Hall. apply NoDup_Permutation; [apply (NoDup_fmap_1 fst), NoDup_live, Hnd|apply NoDup_map_to_list|].
  intros [id d]. rewrite elem_of_live, elem_of_map_to_list. naive_solver.
Qed.

Lemma live_items_size m ids :
  NoDup ids → (∀ id, is_Some (m !! id) → id ∈ ids) → length (encode_items (live_items m ids)) = live_size m.
Proof. intros Hnd Hall. rewrite length_encode_items. unfold live_size. by rewrite live_items_perm. Qed.

(** A log with one entry per identifier holds its entries. *)
Lemma log_map_distinct items :
  NoDup items.*1 → Forall (λ i, i.2 ≠ []) items → ∀ id d, log_map items !! id = Some d ↔ (id, d) ∈ items.
Proof.
  induction items as [|[i e] items IH] using rev_ind; intros Hnd Hne id d.
  { unfold log_map. simpl. rewrite lookup_empty, elem_of_nil. done. }
  rewrite fmap_app in Hnd. apply NoDup_app in Hnd as (Hnd & Hi & _). apply Forall_app in Hne as [Hne He].
  apply Forall_cons in He as [He _]. simpl in *. rewrite log_map_snoc. unfold log_step. simpl. rewrite decide_False by done.
  rewrite elem_of_app, list_elem_of_singleton, <- (IH Hnd Hne). rewrite lookup_insert_Some. split; [naive_solver|].
  intros [Hm|[= -> ->]]; [|by left]. right. split; [|done]. intros ->.
  assert (Hin : id ∈ items.*1) by (apply log_map_ids; eauto). by apply (Hi _ Hin), list_elem_of_here.
Qed.

Lemma log_map_live items ids :
  Forall item_wf items → NoDup ids → (∀ id, id ∈ items.*1 → id ∈ ids) →
  log_map (live_items (log_map items) ids) = log_map items.
Proof.
  intros Hwf Hnd Hall. apply map_eq. intros id. apply option_eq. intros d.
  rewrite log_map_distinct, elem_of_live.
  - split; [naive_solver|]. intros Hm. split; [done|]. apply Hall, log_map_ids. eauto.
  - by apply NoDup_live.
  - apply Forall_forall. intros [i e] Hin. apply elem_of_live in Hin as [Hm _]. by apply (log_map_value items i e).
Qed.

Lemma live_items_wf items ids : Forall item_wf items → Forall item_wf (live_items (log_map items) ids).
Proof.
  intros Hwf. apply Forall_forall. intros [i e] Hin. apply elem_of_live in Hin as [Hm _]. by apply (log_map_value items i e).
Qed.

(** The identifiers compaction sees. *)
Definition nv_item_ids : list NvItemId :=
  [NwkPanId; NwkChannel; NwkShortAddress; NwkExtendedPanId; NwkIeeeAddress; NwkKey; NwkKeySeqNum;
   NwkFrameCounter; NwkDepth; NwkParentAddress; NwkUpdateId; ApsTrustCenterAddress; ApsLinkKey; ApsBindingTable;
   ApsGroupTable; BdbNodeIsOnNetwork; BdbCommissioningMode; BdbPrimaryChannelSet; BdbSecondaryChannelSet;
   BdbCommissioningGroupId; AppEndpoint1; AppEndpoint2; AppEndpoint3; AppCustomBase].

Lemma nv_ids_bounded (ids : list NvItemId) : NoDup ids → (length ids <= 24)%nat.
Proof.
  intros Hnd. apply (submseteq_length ids nv_item_ids), NoDup_submseteq; [done|]. intros id _. destruct id; set_solver.
Qed.

Lemma fold_seen items offset ids :
  NoDup ids →
  ∃ ids', fold_items (λ _ item_id _ seen_ids,
            if bool_decide (item_id ∈ seen_ids) then Ok seen_ids
            else match vec_push MAX_SEEN_IDS seen_ids item_id with Some l => Ok l | None => Err NvFull end)
            offset items (nv_item_code <$> ids) = Ok (nv_item_code <$> ids') ∧
    NoDup ids' ∧ ∀ id, id ∈ ids' ↔ id ∈ ids ∨ id ∈ items.*1.
Proof.
  revert offset ids. induction items as [|[id d] items IH]; intros offset ids Hnd.
  { exists ids. simpl. set_solver. }
  rewrite fold_items_cons. case_bool_decide as Hin.
  - apply list_elem_of_fmap in Hin as (i & E & Hi). apply (inj nv_item_code) in E as <-.
    edestruct IH as (ids' & -> & Hnd' & Hids); [exact Hnd|]. exists ids'. split; [done|]. split; [done|].
    intros j. rewrite Hids. simpl. set_solver.
  - assert (Hid : id ∉ ids) by (intros Hid; apply Hin, list_elem_of_fmap; eauto).
    unfold vec_push. rewrite length_fmap. pose proof (nv_ids_bounded ids Hnd).
    destruct (Nat.ltb_spec (length ids) MAX_SEEN_IDS) as [_|Hb]; [|unfold MAX_SEEN_IDS in Hb; lia].
    destruct (IH (offset + (HEADER_SIZE + align4 (length d)))%nat (ids ++ [id])) as (ids' & E & Hnd' & Hids).
    { apply NoDup_app. split; [done|]. split; [|apply NoDup_singleton]. set_solver. }
    rewrite fmap_app in E. exists ids'. split; [exact E|]. split; [done|]. intros j. rewrite Hids. simpl. set_solver.
Qed.

(** The fields of a store given by its constructor. *)
Ltac nv_fields :=
  cbn [ln_flash ln_page_a ln_page_b ln_active_page ln_write_offset ln_generation
       set_flash set_active_page set_write_offset set_generation] in *.

Section Proofs.
Context {F : Type} `{HF : NorFlash F} (bytes : F → list Z) (good : F → Prop) (may_fail : Prop)
  `{HL : !LawfulFlash F bytes good may_fail}.
Abbreviation Nv := (LogStructuredNv F).

(** The octets of a page. *)
Definition page_of (f : F) (p : Z) : list Z := take ERASE_SIZE (drop (Z.to_nat p) (bytes f)).

(** Where the pages lie. *)
Record geometry (f : F) (pa pb : Z) : Prop := {
  ge_good : good f;
  ge_pos : 0 <= pa ∧ 0 <= pb;
  ge_apart : pa ≠ pb;
  ge_aligned : (ERASE_SIZE | Z.to_nat pa)%nat ∧ (ERASE_SIZE | Z.to_nat pb)%nat;
  ge_fits : (Z.to_nat pa + ERASE_SIZE <= length (bytes f))%nat ∧ (Z.to_nat pb + ERASE_SIZE <= length (bytes f))%nat;
  ge_words : (READ_SIZE | 4)%nat ∧ (WRITE_SIZE | 4)%nat }.

Definition is_page (pa pb p : Z) : Prop := p = pa ∨ p = pb.

Lemma geometry_keep f f' pa pb :
  geometry f pa pb → good f' → length (bytes f') = length (bytes f) → geometry f' pa pb.
Proof using Type. intros [] Hg Hlen. split; rewrite ?Hlen; done. Qed.

Lemma pages_disjoint f pa pb p q :
  geometry f pa pb → is_page pa pb p → is_page pa pb q → p ≠ q →
  (Z.to_nat p + ERASE_SIZE <= Z.to_nat q ∨ Z.to_nat q + ERASE_SIZE <= Z.to_nat p)%nat.
Proof using HL.
  intros [_ Hpos Hne [[ka Ha] [kb Hb]] _ _] Hp Hq Hpq. destruct (lf_sizes (F:=F)) as [Hs _]. unfold PAGE_HEADER_SIZE in Hs.
  assert (Hk : ka ≠ kb) by (intros ->; apply Hne; lia).
  assert (Hd : (ka * ERASE_SIZE + ERASE_SIZE <= kb * ERASE_SIZE ∨ kb * ERASE_SIZE + ERASE_SIZE <= ka * ERASE_SIZE)%nat) by nia.
  destruct Hp as [-> | ->], Hq as [-> | ->]; try done; lia.
Qed.

Lemma page_bounds f pa pb p :
  geometry f pa pb → is_page pa pb p → 0 <= p ∧ (Z.to_nat p + ERASE_SIZE <= length (bytes f))%nat ∧ (ERASE_SIZE | Z.to_nat p)%nat.
Proof using Type. intros [] [-> | ->]; naive_solver. Qed.

Lemma length_page f pa pb p : geometry f pa pb → is_page pa pb p → length (page_of f p) = ERASE_SIZE.
Proof using Type.
  intros Hg Hp. destruct (page_bounds _ _ _ _ Hg Hp) as (_ & ? & _). unfold page_of.
  rewrite length_take, length_drop. lia.
Qed.

(** Addresses within a page do not overflow. *)
Lemma page_address f pa pb p off :
  geometry f pa pb → is_page pa pb p → (off <= ERASE_SIZE)%nat →
  add_u32 (E:=NvError) p (as_u32 (Z.of_nat off)) = Ok (p + Z.of_nat off).
Proof using HL.
  intros Hg Hp Hoff. destruct (page_bounds _ _ _ _ Hg Hp) as (? & Hb & _).
  destruct (lf_capacity f (ge_good _ _ _ Hg)) as [_ Hc]. unfold add_u32, as_u32.
  rewrite Z.mod_small by lia. case_match; bool_simpl; [done|lia].
Qed.

(** * The flash operations on pages *)

(** The store with another device of the same contents. *)
Definition same_nv (s s' : Nv) : Prop :=
  ∃ f, good f ∧ bytes f = bytes (ln_flash s) ∧ s' = set_flash f s.

Abbreviation geom s := (geometry (ln_flash s) (ln_page_a s) (ln_page_b s)).
Abbreviation own_page s := (is_page (ln_page_a s) (ln_page_b s)).

Lemma same_nv_fields s s' :
  same_nv s s' → good (ln_flash s') ∧ bytes (ln_flash s') = bytes (ln_flash s) ∧ ln_page_a s' = ln_page_a s ∧
    ln_page_b s' = ln_page_b s ∧ ln_active_page s' = ln_active_page s ∧ ln_write_offset s' = ln_write_offset s ∧
    ln_generation s' = ln_generation s.
Proof using Type. intros (f & Hg & Hb & ->). by destruct s. Qed.

Lemma same_nv_refl s : good (ln_flash s) → same_nv s s.
Proof using Type. intros Hg. exists (ln_flash s). by destruct s. Qed.

Lemma same_nv_trans s1 s2 s3 : same_nv s1 s2 → same_nv s2 s3 → same_nv s1 s3.
Proof using Type.
  intros (f & Hf & Hb & ->) (f' & Hf' & Hb' & ->). exists f'. split; [done|].
  destruct s1; simpl in *. split; [congruence|done].
Qed.

Lemma same_nv_geom s s' : same_nv s s' → geom s → geom s'.
Proof using Type.
  intros Hs Hg. destruct (same_nv_fields _ _ Hs) as (Hgood & Hb & -> & -> & _).
  apply (geometry_keep _ _ _ _ Hg Hgood). by rewrite Hb.
Qed.

Lemma same_nv_page s s' p : same_nv s s' → page_of (ln_flash s') p = page_of (ln_flash s) p.
Proof using Type. intros Hs. destruct (same_nv_fields _ _ Hs) as (_ & Hb & _). unfold page_of. by rewrite Hb. Qed.

Lemma words_aligned k p off : (4 | ERASE_SIZE)%nat → (k | 4)%nat → (ERASE_SIZE | Z.to_nat p)%nat → (4 | off)%nat → 0 <= p →
  is_multiple_of (Z.to_nat (p + Z.of_nat off)) k = true.
Proof using Type.
  intros He Hk Hp Hoff Hpos. apply is_multiple_of_divide. rewrite Z2Nat.inj_add, Nat2Z.id by lia.
  apply Nat.divide_add_r; apply (Nat.divide_trans _ 4); try done. by apply (Nat.divide_trans _ ERASE_SIZE).
Qed.

Lemma words_multiple k n : (k | 4)%nat → (4 | n)%nat → is_multiple_of n k = true.
Proof using Type. intros. apply is_multiple_of_divide. by apply (Nat.divide_trans _ 4). Qed.

(** A read within a page. *)
Lemma wp_read_page s p off n :
  geom s → own_page s p → (4 | off)%nat → (4 | n)%nat → (off + n <= ERASE_SIZE)%nat →
  wp (read_flash (p + Z.of_nat off) n)
    (λ r s', same_nv s s' ∧
      match r with
      | Ok l => l = take n (drop off (page_of (ln_flash s) p))
      | Err e => e = NvHardwareError ∧ may_fail
      | Panic => False
      end) s.
Proof using HL.
  intros Hg Hp Ho Hn Hfit. destruct (page_bounds _ _ _ _ Hg Hp) as (Hpos & Hb & Hal).
  unfold wp, read_flash. destruct (flash_read _ _ _) as [r f'] eqn:E.
  destruct (lf_read _ _ _ _ _ (ge_good _ _ _ Hg) E) as (Hgood & Hbytes & Hr); [lia|lia|].
  assert (Hsame : same_nv s (set_flash f' s)) by (exists f'; done).
  destruct r as [l|]; simpl; (split; [done|]).
  - subst l. unfold page_of. rewrite Z2Nat.inj_add, Nat2Z.id, <- drop_drop by lia.
    rewrite skipn_firstn_comm, take_take. f_equal. lia.
  - split; [done|]. destruct (lf_sizes (F:=F)) as [_ He]. destruct (ge_words _ _ _ Hg) as [Hw _].
    apply Hr; [by apply words_aligned|by apply words_multiple].
Qed.

(** What an operation on one page may change: nothing of the fields, and
    nothing of the other pages. *)
Definition touched (p : Z) (s s' : Nv) : Prop :=
  ∃ f, geometry f (ln_page_a s) (ln_page_b s) ∧ s' = set_flash f s ∧
    ∀ q, own_page s q → q ≠ p → page_of f q = page_of (ln_flash s) q.

Lemma spliced_geometry f f' pa pb p off r :
  geometry f pa pb → is_page pa pb p → good f' → (off + length r <= ERASE_SIZE)%nat →
  bytes f' = splice (bytes f) (Z.to_nat p + off) r →
  geometry f' pa pb ∧ page_of f' p = splice (page_of f p) off r ∧
  ∀ q, is_page pa pb q → q ≠ p → page_of f' q = page_of f q.
Proof using HL.
  intros Hg Hp Hgood Hr Hb. destruct (page_bounds _ _ _ _ Hg Hp) as (Hpos & Hfit & _).
  split; [|split].
  - apply (geometry_keep _ _ _ _ Hg Hgood). rewrite Hb. apply length_splice. lia.
  - unfold page_of. rewrite Hb. apply window_splice; lia.
  - intros q Hq Hne. unfold page_of. rewrite Hb. apply window_miss; [lia|].
    pose proof (pages_disjoint _ _ _ _ _ Hg Hq Hp Hne). lia.
Qed.

(** A write to erased octets of a page. *)
Lemma wp_write_page s p off d :
  geom s → own_page s p → (4 | off)%nat → (4 | length d)%nat → (off + length d <= ERASE_SIZE)%nat → Forall is_u8 d →
  take (length d) (drop off (page_of (ln_flash s) p)) = repeat 0xFF (length d) →
  wp (write_flash (p + Z.of_nat off) d)
    (λ r s', touched p s s' ∧
      ∃ w, page_of (ln_flash s') p = splice (page_of (ln_flash s) p) off w ∧ length w = length d ∧
        match r with Ok _ => w = d | Err e => e = NvHardwareError ∧ may_fail | Panic => False end) s.
Proof using HL.
  intros Hg Hp Ho Hd Hfit Hoct Her. destruct (page_bounds _ _ _ _ Hg Hp) as (Hpos & Hb & Hal).
  unfold wp, write_flash. destruct (flash_write _ _ _) as [ok f'] eqn:E.
  assert (Ha : Z.to_nat (p + Z.of_nat off) = (Z.to_nat p + off)%nat) by lia.
  destruct (lf_write _ _ _ _ _ (ge_good _ _ _ Hg) E) as (Hgood & (w & Hw & Hlen & Hok) & Hfail); [lia|lia|done| |].
  { rewrite <- Her, Ha. unfold page_of. rewrite skipn_firstn_comm, take_take, drop_drop. f_equal. lia. }
  rewrite Ha in Hw.
  destruct (spliced_geometry (ln_flash s) f' _ _ p off w Hg Hp Hgood ltac:(lia) Hw) as (Hg' & Hpage & Hothers).
  assert (Ht : touched p s (set_flash f' s)) by (exists f'; done).
  destruct s as [f pa pb act wo g]. simpl in *. destruct ok; simpl; (split; [done|]); exists w; (split; [done|]); (split; [done|]).
  - by apply Hok.
  - split; [done|]. destruct (lf_sizes (F:=F)) as [_ He]. destruct (ge_words _ _ _ Hg) as [_ Hww].
    apply Hfail; [done|by apply words_aligned|by apply words_multiple].
Qed.

(** No erase of a whole page fails. *)
Definition erases_complete : Prop :=
  ∀ f p f', good f → 0 <= p → (Z.to_nat p + ERASE_SIZE <= length (bytes f))%nat → (ERASE_SIZE | Z.to_nat p)%nat →
    flash_erase p (p + Z.of_nat ERASE_SIZE) f ≠ (false, f').

Lemma wp_erase_page s p :
  geom s → own_page s p →
  wp (erase_page p)
    (λ r s', touched p s s' ∧
      match r with
      | Ok _ => page_of (ln_flash s') p = repeat 0xFF ERASE_SIZE
      | Err e => e = NvHardwareError ∧ may_fail ∧ ¬ erases_complete
      | Panic => False
      end) s.
Proof using HL.
  intros Hg Hp. destruct (page_bounds _ _ _ _ Hg Hp) as (Hpos & Hb & Hal).
  unfold wp, erase_page. rewrite (page_address _ _ _ _ _ Hg Hp) by lia.
  destruct (flash_erase _ _ _) as [ok f'] eqn:E.
  destruct (lf_erase _ _ _ _ (ge_good _ _ _ Hg) E) as (Hgood & (w & Hw & Hlen & Hok) & Hfail); [lia|lia|].
  rewrite <- (Nat.add_0_r (Z.to_nat p)) in Hw.
  destruct (spliced_geometry (ln_flash s) f' _ _ p 0 w Hg Hp Hgood ltac:(lia) Hw) as (Hg' & Hpage & Hothers).
  assert (Hall : page_of f' p = w).
  { rewrite Hpage. unfold splice. simpl. rewrite drop_ge, app_nil_r; [done|]. rewrite (length_page _ _ _ _ Hg Hp). lia. }
  assert (Ht : touched p s (set_flash f' s)) by (exists f'; done).
  destruct s as [f pa pb act wo g]. simpl in *. destruct ok; simpl; (split; [done|]).
  - rewrite Hall. by apply Hok.
  - split; [done|]. split; [apply Hfail; [done|]; by apply is_multiple_of_divide|].
    intros Hc. eapply Hc; [| | | |exact E]; [apply Hg|lia|lia|done].
Qed.

Lemma wp_page_state s p :
  geom s → own_page s p →
  wp (page_state p)
    (λ r s', same_nv s s' ∧
      match r with
      | Ok st => st = header_state (take 16 (page_of (ln_flash s) p))
      | Err e => e = NvHardwareError ∧ may_fail
      | Panic => False
      end) s.
Proof using HL.
  intros Hg Hp. destruct (lf_sizes (F:=F)) as [Hs _].
  apply wp_bind. eapply wp_mono.
  { rewrite <- (Z.add_0_r p) at 1. apply (wp_read_page s p 0 PAGE_HEADER_SIZE); [done|done|by exists 0%nat|by exists 4%nat|lia]. }
  intros [l|e|] s' [Hsame Hr]; [|done|done]. apply wp_ret. by subst.
Qed.

(** A page of the store that carries a log. *)
Record has_log (s : Nv) (p : Z) (h : option Z) (items : log_items) : Prop := {
  hl_geom : geom s;
  hl_own : own_page s p;
  hl_log : log_page (header_bytes h) items (page_of (ln_flash s) p);
  hl_head : header_wf h;
  hl_items : Forall item_wf items }.

Lemma has_log_same s s' p h items : same_nv s s' → has_log s p h items → has_log s' p h items.
Proof using Type.
  intros Hs []. destruct (same_nv_fields _ _ Hs) as (_ & _ & Ha & Hb & _).
  split; [by eapply same_nv_geom|by rewrite Ha, Hb|by rewrite (same_nv_page _ _ _ Hs)|done|done].
Qed.

Lemma has_log_size s p h items :
  has_log s p h items → (length (header_bytes h) + length (encode_items items) <= ERASE_SIZE)%nat.
Proof using Type.
  intros Hl. pose proof (length_page _ _ _ _ (hl_geom _ _ _ _ Hl) (hl_own _ _ _ _ Hl)) as Hlen.
  destruct (hl_log _ _ _ _ Hl) as [k Hk]. rewrite Hk, !length_app in Hlen. lia.
Qed.

Lemma wp_page_data_start s p h items :
  has_log s p h items →
  wp (page_data_start p)
    (λ r s', same_nv s s' ∧
      match r with
      | Ok n => n = length (header_bytes h)
      | Err e => e = NvHardwareError ∧ may_fail
      | Panic => False
      end) s.
Proof using HL.
  intros Hl. destruct Hl as [Hg Hp Hlog Hh Hi]. apply wp_bind. eapply wp_mono; [by apply wp_page_state|].
  intros [st|e|] s' [Hsame Hr]; [|done|done]. subst st.
  rewrite (log_header_state _ _ _ Hlog Hh);
    [|rewrite (length_page _ _ _ _ Hg Hp); apply (proj1 lf_sizes)].
  destruct h; simpl; [by apply wp_ret|]. by destruct items; apply wp_ret.
Qed.

(** The walk visits the items of the log in order and stops behind them. *)
Lemma wp_scan {A} (step : nat → Z → nat → A → outcome NvError A) s p h done_ rest fuel offset acc :
  has_log s p h (done_ ++ rest) →
  offset = (length (header_bytes h) + length (encode_items done_))%nat →
  (ERASE_SIZE <= offset + fuel)%nat →
  wp (scan fuel p step offset acc)
    (λ r s', same_nv s s' ∧
      match r with
      | Ok (o, acc') => o = (length (header_bytes h) + length (encode_items (done_ ++ rest)))%nat ∧
          fold_items step offset rest acc = Ok acc'
      | Err e => (e = NvHardwareError ∧ may_fail) ∨ fold_items step offset rest acc = Err e
      | Panic => fold_items step offset rest acc = Panic
      end) s.
Proof using HL.
  revert s done_ fuel offset acc. induction rest as [|[id d] rest IH]; intros s dn fuel offset acc Hl Ho Hf.
  - pose proof (has_log_size _ _ _ _ Hl) as Hsize. rewrite app_nil_r in *.
    assert (Hgood : good (ln_flash s)) by apply Hl.
    assert (Hdiv : (4 | offset)%nat) by (subst; apply Nat.divide_add_r; [apply header_bytes_divide|apply encode_items_divide]).
    destruct fuel as [|fuel]; cbn [scan]; (case_match eqn:E; [apply wp_ret; by auto using same_nv_refl|]);
      apply Nat.ltb_ge in E; [unfold HEADER_SIZE in *; lia|].
    destruct Hl as [Hg Hp [k Hk] Hh Hi]. apply wp_bind, wp_lift. rewrite (page_address _ _ _ _ _ Hg Hp) by lia.
    apply wp_bind. eapply wp_mono; [apply wp_read_page; [done|done|done|by exists 2%nat|done]|].
    intros [hdr|e|] s' [Hsame Hr]; [|by auto|done]. subst hdr.
    pose proof (length_page _ _ _ _ Hg Hp) as Hlen. rewrite Hk in *.
    rewrite !length_app, repeat_length in Hlen.
    rewrite app_assoc, drop_app_length' by (rewrite length_app; lia).
    replace k with (8 + (k - 8))%nat by (unfold HEADER_SIZE in *; lia).
    apply wp_bind, wp_lift. simpl. apply wp_ret. by auto.
  - assert (Hgood : good (ln_flash s)) by apply Hl.
    assert (Hl' : has_log s p h ((dn ++ [(id, d)]) ++ rest)) by (by rewrite <- app_assoc).
    pose proof (has_log_size _ _ _ _ Hl) as Hsize. pose proof (length_item_bytes id d) as Hib.
    rewrite encode_items_app, encode_items_cons, !length_app in Hsize.
    assert (Hdiv : (4 | offset)%nat) by (subst; apply Nat.divide_add_r; [apply header_bytes_divide|apply encode_items_divide]).
    destruct fuel as [|fuel]; cbn [scan]; (case_match eqn:E; [apply Nat.ltb_lt in E; lia|]);
      apply Nat.ltb_ge in E; [unfold HEADER_SIZE in *; lia|].
    destruct Hl as [Hg Hp [k Hk] Hh Hi]. apply wp_bind, wp_lift. rewrite (page_address _ _ _ _ _ Hg Hp) by lia.
    apply wp_bind. eapply wp_mono; [apply wp_read_page; [done|done|done|by exists 2%nat|done]|].
    intros [hdr|e|] s' [Hsame Hr]; [|by auto|done]. subst hdr. rewrite Hk.
    rewrite encode_items_app, encode_items_cons, <- !app_assoc.
    rewrite (app_assoc (header_bytes h)), drop_app_length' by (rewrite length_app; lia).
    rewrite take_app_le by lia.
    apply Forall_app in Hi as [_ Hi]. apply Forall_cons in Hi as [Hid _].
    apply wp_bind, wp_lift. rewrite item_bytes_fields by done. cbv beta iota.
    rewrite Z.eqb_refl. cbn [negb].
    apply wp_bind, wp_lift. destruct (step _ _ _ _) as [acc'|e|] eqn:Es; cbv zeta;
      [|by rewrite fold_items_cons, Es; auto|by rewrite fold_items_cons, Es].
    destruct (Nat.ltb_spec ERASE_SIZE (offset + (HEADER_SIZE + align4 (length d)))); [lia|].
    eapply wp_mono; [apply (IH s' (dn ++ [(id, d)]) fuel)|].
    + by eapply has_log_same.
    + rewrite encode_items_app, length_app, encode_items_cons, app_nil_r, Hib. lia.
    + unfold HEADER_SIZE in *. lia.
    + rewrite <- app_assoc. intros r s'' [Hs2 Hr]. split; [by eapply same_nv_trans|].
      destruct r as [[o a]|e|]; rewrite fold_items_cons, Es; rewrite ?encode_items_app, ?encode_items_one in Hr; exact Hr.
Qed.

(** Where the latest entry of an identifier is. *)
Definition latest_at (p : Z) (base : nat) (id : NvItemId) (items : log_items) (r : option (Z * nat)) : Prop :=
  match r with
  | None => id ∉ items.*1
  | Some (at_, len) => ∃ pre d post, items = pre ++ (id, d) :: post ∧ (id ∉ post.*1) ∧ len = length d ∧
      at_ = p + Z.of_nat (base + length (encode_items pre) + HEADER_SIZE)
  end.

Lemma fold_latest s p id base pre rest found :
  geom s → own_page s p → (base + length (encode_items (pre ++ rest)) <= ERASE_SIZE)%nat →
  latest_at p base id pre found →
  ∃ r, fold_items (λ offset item_id len found,
         if item_id =? nv_item_code id then
           at_ ← add_u32 p (as_u32 (Z.of_nat (offset + HEADER_SIZE))); Ok (Some (at_, len))
         else Ok found) (base + length (encode_items pre)) rest found = Ok r ∧ latest_at p base id (pre ++ rest) r.
Proof using HL.
  intros Hg Hp. revert pre found. induction rest as [|[i d] rest IH]; intros pre found Hfit Hf.
  - exists found. by rewrite app_nil_r.
  - rewrite fold_items_cons. pose proof (length_item_bytes i d) as Hib.
    assert (Hoff : (base + length (encode_items pre) + (HEADER_SIZE + align4 (length d)))%nat =
              (base + length (encode_items (pre ++ [(i, d)])))%nat).
    { rewrite encode_items_app, encode_items_one, length_app. lia. }
    replace (pre ++ (i, d) :: rest) with ((pre ++ [(i, d)]) ++ rest) in * by (by rewrite <- app_assoc).
    assert (Hb : (base + length (encode_items (pre ++ [(i, d)])) <= ERASE_SIZE)%nat).
    { rewrite encode_items_app, length_app in Hfit. lia. }
    rewrite Hoff. destruct (Z.eqb_spec (nv_item_code i) (nv_item_code id)) as [E|E].
    + apply (inj nv_item_code) in E. subst i. rewrite (page_address _ _ _ _ _ Hg Hp) by lia. cbn [mbind outcome_bind].
      apply IH; [done|]. exists pre, d, []. split; [done|]. split; [simpl; set_solver|done].
    + apply IH; [done|]. destruct found as [[at_ len]|].
      * destruct Hf as (pr & d' & post & -> & Hn & -> & ->). exists pr, d', (post ++ [(i, d)]).
        rewrite <- app_assoc. split; [done|]. split; [rewrite fmap_app; set_solver|done].
      * unfold latest_at in *. rewrite fmap_app. set_solver.
Qed.

Lemma wp_find_latest_entry s id h items :
  has_log s (ln_active_page s) h items →
  wp (find_latest_entry id)
    (λ r s', same_nv s s' ∧
      match r with
      | Ok found => latest_at (ln_active_page s) (length (header_bytes h)) id items found
      | Err e => e = NvHardwareError ∧ may_fail
      | Panic => False
      end) s.
Proof using HL.
  intros Hl. apply wp_bind, wp_get, wp_bind. eapply wp_mono; [by apply (wp_page_data_start s _ h items)|].
  intros [o|e|] s1 [Hs1 Hr]; [|done|done]. subst o. apply wp_bind.
  eapply wp_mono; [apply (wp_scan _ s1 _ h [] items); [by eapply has_log_same|simpl; lia|lia]|].
  pose proof (has_log_size _ _ _ _ Hl) as Hsize.
  destruct (fold_latest s (ln_active_page s) id (length (header_bytes h)) [] items None) as (r & Hr & Hat);
    [apply Hl|apply Hl|done|simpl; set_solver|].
  cbn [encode_items fmap list_fmap concat length app] in Hr, Hat. rewrite Nat.add_0_r in Hr.
  intros [[o found]|e|] s2 [Hs2 Hr2]; rewrite Hr in Hr2.
  - destruct Hr2 as [_ [= <-]]. apply wp_ret. split; [by eapply same_nv_trans|done].
  - destruct Hr2 as [[-> Hm]|[=]]. split; [by eapply same_nv_trans|done].
  - done.
Qed.

Lemma latest_data s h items id pre d post :
  has_log s (ln_active_page s) h items → items = pre ++ (id, d) :: post →
  take (align4 (length d)) (drop (length (header_bytes h) + length (encode_items pre) + HEADER_SIZE)
    (page_of (ln_flash s) (ln_active_page s))) = d ++ repeat 0xFF (align4 (length d) - length d) ∧
  (length (header_bytes h) + length (encode_items pre) + HEADER_SIZE + align4 (length d) <= ERASE_SIZE)%nat.
Proof using Type.
  intros Hl ->. pose proof (has_log_size _ _ _ _ Hl) as Hsize. destruct (hl_log _ _ _ _ Hl) as [k ->].
  pose proof (length_item_bytes id d) as Hib. rewrite encode_items_app, encode_items_cons, !length_app in Hsize.
  split; [|lia]. rewrite encode_items_app, encode_items_cons, <- !app_assoc.
  rewrite <- drop_drop, (app_assoc (header_bytes h)), drop_app_length' by (rewrite length_app; lia).
  rewrite drop_app_le, take_app_le by (rewrite ?length_drop; lia). apply item_bytes_data.
Qed.

Lemma wp_find_latest s id buf h items :
  has_log s (ln_active_page s) h items →
  wp (find_latest id buf)
    (λ r s', same_nv s s' ∧
      match r with
      | Ok (None, buf') => log_map items !! id = None ∧ buf' = buf
      | Ok (Some n, buf') => ∃ d, log_map items !! id = Some d ∧ n = length d ∧ (n <= length buf)%nat ∧
          buf' = written d buf ∧ nv_value d ∧ d ≠ []
      | Err NvBufferTooSmall => ∃ d, log_map items !! id = Some d ∧ (length buf < length d)%nat ∧ nv_value d
      | Err NvHardwareError => may_fail
      | _ => False
      end) s.
Proof using HL.
  intros Hl. apply wp_bind. eapply wp_mono; [by apply (wp_find_latest_entry s id h items)|].
  intros [found|e|] s1 [Hs1 Hr]; [|by destruct Hr as [-> ?]|done].
  destruct found as [[at_ len]|]; [|apply wp_ret; split; [done|]; split; [by apply log_map_absent|done]].
  destruct Hr as (pre & d & post & Hitems & Hid & -> & ->).
  assert (Hmap : log_map items !! id = if decide (d = []) then None else Some d) by (subst; by apply log_map_latest).
  assert (Hwf : nv_value d).
  { pose proof (hl_items _ _ _ _ Hl) as Hi. rewrite Hitems in Hi. apply Forall_app in Hi as [_ Hi].
    by apply Forall_cons in Hi as [Hi _]. }
  rewrite Hmap. destruct (Nat.eqb_spec (length d) 0) as [E|E].
  { apply nil_length_inv in E as ->. by apply wp_ret. }
  rewrite decide_False by (by intros ->).
  destruct (Nat.ltb_spec MAX_ITEM_SIZE (length d)) as [E2|_].
  { destruct Hwf as [_ Hwf]. unfold NV_MAX_ITEM, MAX_ITEM_SIZE in *. lia. }
  destruct (Nat.ltb_spec (length buf) (length d)) as [E3|E3]; [apply wp_throw; eauto 6|].
  destruct (latest_data _ _ _ _ _ _ _ Hl Hitems) as [Hdata Hfit].
  destruct (same_nv_fields _ _ Hs1) as (_ & _ & Ha & Hb & _).
  apply wp_bind. eapply wp_mono.
  { apply (wp_read_page s1); [by eapply same_nv_geom; [|apply Hl]|rewrite Ha, Hb; apply Hl| |apply align4_bounds|lia].
    repeat apply Nat.divide_add_r; [apply header_bytes_divide|apply encode_items_divide|by exists 2%nat]. }
  intros [l|e|] s2 [Hs2 Hr2]; [|by destruct Hr2 as [-> ?]; eauto using same_nv_trans|done].
  rewrite (same_nv_page _ _ _ Hs1), Hdata in Hr2. subst l.
  apply wp_bind, wp_lift. rewrite (proj2 (slice_Ok (E:=NvError) _ 0 (length d) d)) by (by apply (slice_get_app [] d)).
  apply wp_bind, wp_lift.
  pose proof (copy_written (E:=NvError) [] buf 0 (length d) d) as Hc. rewrite written_nil in Hc.
  rewrite Hc by (simpl; lia). apply wp_ret. split; [by eapply same_nv_trans|].
  exists d. repeat split; [done|apply Hwf|apply Hwf|by intros ->].
Qed.

(** * Appending *)
Record appendable (s : Nv) (pre : list Z) (items : log_items) : Prop := {
  ap_geom : geom s;
  ap_own : own_page s (ln_active_page s);
  ap_log : log_page pre items (page_of (ln_flash s) (ln_active_page s));
  ap_pre : (4 | length pre)%nat;
  ap_offset : ln_write_offset s = (length pre + length (encode_items items))%nat }.

Lemma wp_append s id d pre items :
  appendable s pre items → item_wf (id, d) →
  wp (append_item_to_active id d)
    (λ r s',
      match r with
      | Ok _ => ∃ s1, touched (ln_active_page s) s s1 ∧ s' = set_write_offset (ln_write_offset s + item_size d) s1 ∧
          log_page pre (items ++ [(id, d)]) (page_of (ln_flash s') (ln_active_page s))
      | Err NvFull => s' = s ∧ (ERASE_SIZE < ln_write_offset s + item_size d)%nat
      | Err NvHardwareError => may_fail ∧ touched (ln_active_page s) s s' ∧
          take (length pre) (page_of (ln_flash s') (ln_active_page s)) = pre
      | _ => False
      end) s.
Proof using HL.
  intros [Hg Hp [k Hk] Hpre Hoff] [Hoct Hlen]. simpl in Hoct, Hlen. unfold NV_MAX_ITEM in Hlen.
  apply wp_bind, wp_get. cbv zeta. unfold item_size.
  destruct (Nat.ltb_spec ERASE_SIZE (ln_write_offset s + (HEADER_SIZE + align4 (length d)))) as [E|E]; [by apply wp_throw|].
  assert (Hal : (align4 (length d) <= 128)%nat).
  { rewrite align4_eq. pose proof (Nat.Div0.div_le_mono (length d + 3) 131 4 ltac:(lia)) as Hd.
    change (131 / 4)%nat with 32%nat in Hd. lia. }
  destruct (Nat.ltb_spec MAX_ITEM_SIZE (align4 (length d))) as [E2|_]; [unfold MAX_ITEM_SIZE in E2; lia|].
  apply wp_bind, wp_lift. rewrite (page_address _ _ _ _ _ Hg Hp) by lia.
  pose proof (length_item_bytes id d) as Hib. pose proof (length_page _ _ _ _ Hg Hp) as Hpl.
  rewrite Hk, !length_app, repeat_length in Hpl.
  assert (Hk' : repeat 0xFF k = repeat 0xFF (length (item_bytes id d)) ++ repeat 0xFF (k - length (item_bytes id d))).
  { rewrite <- repeat_app. f_equal. lia. }
  apply wp_bind. eapply wp_mono.
  { apply wp_write_page; [done|done| | |rewrite Hib; lia|by apply item_bytes_octets|].
    - rewrite Hoff. apply Nat.divide_add_r; [done|apply encode_items_divide].
    - rewrite <- (encode_items_one id d). apply encode_items_divide.
    - rewrite Hk, app_assoc, drop_app_length' by (rewrite length_app; lia).
      rewrite Hk', take_app_length'; [done|]. by rewrite repeat_length. }
  intros r s1 (Ht & w & Hw & Hlw & Hr).
  rewrite Hk, Hk', app_assoc, splice_app in Hw by (rewrite ?length_app, ?repeat_length; lia).
  destruct r as [u|e|]; [|destruct Hr as [-> Hm]; split; [done|split; [done|]]|done].
  - apply wp_modify. exists s1. split; [done|]. split; [done|]. subst w.
    exists (k - length (item_bytes id d))%nat. destruct s1; cbn [ln_flash set_write_offset] in *. rewrite Hw, encode_items_app, encode_items_one.
    by rewrite <- !app_assoc.
  - by rewrite Hw, <- app_assoc, take_app_length.
Qed.

(** * Compaction *)
Lemma has_log_ext s s' p h items :
  ln_flash s' = ln_flash s → ln_page_a s' = ln_page_a s → ln_page_b s' = ln_page_b s →
  has_log s p h items → has_log s' p h items.
Proof using Type. intros Ef Ea Eb []. split; rewrite ?Ef, ?Ea, ?Eb; done. Qed.

Lemma has_log_touched s s' p q h items :
  touched q s s' → p ≠ q → has_log s p h items → has_log s' p h items.
Proof using Type.
  intros (f & Hg & -> & Hp) Hne []. destruct s; simpl in *. split; simpl; try done. by rewrite Hp.
Qed.

(** The old page [o] carries its log; the new page [c] has no header yet. *)
Record compacting (s : Nv) (o c : Z) (h : option Z) (items : log_items) : Prop := {
  cp_old : has_log s o h items;
  cp_own : own_page s c;
  cp_apart : c ≠ o;
  cp_blank : take 16 (page_of (ln_flash s) c) = repeat 0xFF 16 }.

Record copying (s : Nv) (o c : Z) (h : option Z) (items copied : log_items) : Prop := {
  cy_old : has_log s o h items;
  cy_own : own_page s c;
  cy_apart : c ≠ o;
  cy_log : log_page (repeat 0xFF 16) copied (page_of (ln_flash s) c);
  cy_offset : ln_write_offset s = (16 + length (encode_items copied))%nat }.

Lemma copying_compacting s o c h items copied : copying s o c h items copied → compacting s o c h items.
Proof using Type. intros [? ? ? [k Hk] ?]. split; try done. rewrite Hk. by rewrite take_app_length'. Qed.

Lemma copying_same s s' o c h items copied :
  same_nv s s' → copying s o c h items copied → copying s' o c h items copied.
Proof using Type.
  intros Hs []. destruct (same_nv_fields _ _ Hs) as (_ & _ & Ha & Hb & _ & Hw & _).
  split; rewrite ?Ha, ?Hb, ?Hw, ?(same_nv_page _ _ _ Hs); try done. by apply (has_log_same s).
Qed.

Lemma copying_active s o c h items copied p :
  copying s o c h items copied → copying (set_active_page p s) o c h items copied.
Proof using Type. intros []. destruct s. split; try done. by eapply has_log_ext; [..|exact cy_old0]. Qed.

(** The pages and the generation in memory stay. *)
Definition kept (s s' : Nv) : Prop :=
  ln_page_a s' = ln_page_a s ∧ ln_page_b s' = ln_page_b s ∧ ln_generation s' = ln_generation s.

Lemma kept_touched p s s' : touched p s s' → kept s s'.
Proof using Type. intros (f & _ & -> & _). by destruct s. Qed.
Lemma kept_same s s' : same_nv s s' → kept s s'.
Proof using Type. intros Hs. destruct (same_nv_fields _ _ Hs) as (_ & _ & ? & ? & _ & _ & ?). done. Qed.
Lemma kept_trans s1 s2 s3 : kept s1 s2 → kept s2 s3 → kept s1 s3.
Proof using Type. intros (? & ? & ?) (? & ? & ?). repeat split; congruence. Qed.
Lemma kept_active p s : kept s (set_active_page p s).
Proof using Type. by destruct s. Qed.

Definition copy_post (s : Nv) (o c : Z) (h : option Z) (items copied : log_items)
    (r : outcome NvError unit) (s' : Nv) : Prop :=
  kept s s' ∧
  match r with
  | Ok _ => copying s' o c h items copied
  | Err NvFull => compacting s' o c h items ∧ (ERASE_SIZE < 16 + length (encode_items copied))%nat
  | Err NvHardwareError => may_fail ∧ compacting s' o c h items
  | _ => False
  end.

(** One live item goes over. *)
Lemma wp_copy_one s o c h items copied id d :
  copying s o c h items copied → ln_active_page s = c → nv_value d →
  wp (append_item_to_active id d) (copy_post s o c h items (copied ++ [(id, d)])) s.
Proof using HL.
  intros Hc Ha Hd. pose proof Hc as [Hold Hown Hne Hlog Hoff].
  eapply wp_mono.
  { apply (wp_append s id d (repeat 0xFF 16) copied); [|done].
    split; rewrite ?Ha; try done; [apply Hold|by exists 4%nat]. }
  rewrite Ha. intros [u|e|] s' Hr.
  - destruct Hr as (s1 & Ht & -> & Hlog'). pose proof Ht as (f & Hg & -> & Hoth).
    split; [by destruct s|]. destruct s as [f0 pa pb act wo g]. simpl in *. split; simpl; try done.
    + eapply has_log_ext; [..|eapply (has_log_touched _ _ o c); [exact Ht|done|exact Hold]]; done.
    + rewrite encode_items_app, encode_items_one, length_app, length_item_bytes. unfold item_size. lia.
  - destruct e; try done.
    + destruct Hr as [-> Hfit]. split; [done|]. split; [by eapply copying_compacting|].
      rewrite encode_items_app, encode_items_one, length_app, length_item_bytes. unfold item_size in Hfit. lia.
    + destruct Hr as (Hm & Ht & Hpre). split; [by eapply kept_touched|]. split; [done|].
      split; [by eapply has_log_touched| |done|done].
      destruct Ht as (f & _ & -> & _). by destruct s.
  - done.
Qed.

Lemma wp_copy_items s o c h items copied ids buf :
  copying s o c h items copied → length buf = 128%nat →
  wp (copy_items (nv_item_code <$> ids) o c buf)
    (copy_post s o c h items (copied ++ live_items (log_map items) ids)) s.
Proof using HL.
  revert s copied buf. induction ids as [|id ids IH]; intros s copied buf Hc Hbuf.
  { apply wp_ret. split; [done|]. by rewrite app_nil_r. }
  cbn [fmap list_fmap copy_items]. apply wp_bind, wp_modify. rewrite raw_of_code.
  assert (Hc1 : copying (set_active_page o s) o c h items copied) by (by apply copying_active).
  assert (Hk1 : kept s (set_active_page o s)) by apply kept_active.
  assert (Ha1 : ln_active_page (set_active_page o s) = o) by (by destruct s).
  revert Hc1 Hk1 Ha1. generalize (set_active_page o s). intros s1 Hc1 Hk1 Ha1.
  apply wp_bind. eapply wp_mono.
  { apply (wp_find_latest s1 id buf h items). rewrite Ha1. apply Hc1. }
  intros r s2 [Hs2 Hr]. pose proof (copying_same _ _ _ _ _ _ _ Hs2 Hc1) as Hc2.
  pose proof (kept_trans _ _ _ Hk1 (kept_same _ _ Hs2)) as Hk2.
  destruct r as [[[n|] buf']|e|]; [| | |done].
  - destruct Hr as (d & Hm & -> & Hle & -> & Hd & Hne).
    apply wp_bind, wp_modify. apply wp_bind, wp_lift.
    rewrite (proj2 (slice_Ok (E:=NvError) _ 0 (length d) d)) by (by apply (slice_get_app [] d)).
    apply (copying_active _ _ _ _ _ _ c) in Hc2.
    pose proof (kept_trans _ _ _ Hk2 (kept_active c s2)) as Hk3.
    apply wp_bind. eapply wp_mono; [apply (wp_copy_one _ o c h items copied id d); [done|by destruct s2|done]|].
    replace (live_items (log_map items) (id :: ids)) with ((id, d) :: live_items (log_map items) ids)
      by (unfold live_items; simpl; by rewrite Hm).
    intros r s3 [Hk Hr]. pose proof (kept_trans _ _ _ Hk3 Hk) as Hk4. destruct r as [u|e|]; [| |done].
    + eapply wp_mono; [apply (IH s3 (copied ++ [(id, d)])); [done|by rewrite length_written; [|lia]]|].
      intros r s4 [Hk5 Hr4]. rewrite <- app_assoc in Hr4. split; [by eapply kept_trans|done].
    + destruct e; try done. split; [done|]. destruct Hr as [Hcp Hfit]. split; [done|].
      rewrite !encode_items_app, !length_app in *. change ((id, d) :: ?x) with ([(id, d)] ++ x).
      rewrite encode_items_app, length_app. lia.
  - destruct Hr as [Hm ->]. apply wp_bind, wp_modify. apply (copying_active _ _ _ _ _ _ c) in Hc2.
    replace (live_items (log_map items) (id :: ids)) with (live_items (log_map items) ids)
      by (unfold live_items; simpl; by rewrite Hm).
    eapply wp_mono; [by apply IH|]. intros r s4 [Hk5 Hr4]. split; [|done].
    eapply kept_trans; [exact Hk2|]. eapply kept_trans; [apply kept_active|done].
  - destruct e; try done.
    + destruct Hr as (d & _ & Hlt & [_ Hd]). unfold NV_MAX_ITEM in Hd. lia.
    + split; [done|]. split; [done|]. by eapply copying_compacting.
Qed.

(** Committing the new page: whatever is left of a failed commit, the page
    carries the whole log under its generation, or no committed header. *)
Lemma take_blank_page p copied k :
  p = repeat 0xFF 16 ++ encode_items copied ++ repeat 0xFF k →
  p = [] ++ repeat 0xFF 12 ++ (repeat 0xFF 4 ++ encode_items copied ++ repeat 0xFF k).
Proof using Type. intros ->. done. Qed.

Lemma wp_commit_page s o c h items copied g :
  copying s o c h items copied → is_u32 g →
  wp (commit_page c g)
    (λ r s', kept s s' ∧ ln_active_page s' = ln_active_page s ∧ ln_write_offset s' = ln_write_offset s ∧
      has_log s' o h items ∧ own_page s' c ∧ geom s' ∧
      match r with
      | Ok _ => log_page (page_header g) copied (page_of (ln_flash s') c)
      | Err e => e = NvHardwareError ∧ may_fail ∧
          (log_page (page_header g) copied (page_of (ln_flash s') c) ∨ ∀ g', committed_below g' (page_of (ln_flash s') c))
      | Panic => False
      end) s.
Proof using HL.
  intros [Hold Hown Hne [k Hk] Hoff] Hg. destruct (lxor_not_u32 g Hg) as [_ Hn].
  assert (Hgeo : geom s) by apply Hold. destruct (lf_sizes (F:=F)) as [Hsz _]. unfold PAGE_HEADER_SIZE in Hsz.
  set (d := PAGE_MAGIC ++ u32_to_le g ++ u32_to_le (Z.lxor g 0xFFFFFFFF)).
  assert (Hd : Forall is_u8 d).
  { repeat (apply Forall_app; split); auto using u32_to_le_octets. repeat constructor; done. }
  apply wp_bind. eapply wp_mono.
  { rewrite <- (Z.add_0_r c) at 1. apply (wp_write_page s c 0 d); [done|done|by exists 0%nat|by exists 3%nat|simpl; lia|done|].
    rewrite Hk, drop_0. done. }
  intros r s1 (Ht & w & Hw & Hlw & Hr). change (length d) with 12%nat in Hlw.
  rewrite (take_blank_page _ _ _ Hk), splice_app in Hw by done. cbn [app] in Hw.
  pose proof (has_log_touched _ _ o c _ _ Ht ltac:(done) Hold) as Hold1.
  assert (Hf1 : kept s s1 ∧ ln_active_page s1 = ln_active_page s ∧ ln_write_offset s1 = ln_write_offset s ∧ own_page s1 c).
  { destruct Ht as (f & ? & -> & ?). by destruct s. }
  destruct Hf1 as (Hk1 & Ha1 & Hw1 & Hown1).
  destruct r as [u|e|]; [|destruct Hr as [-> Hm]|done].
  2:{ repeat (split; [done|]). split; [apply Hold1|]. repeat (split; [done|]). right. intros g'.
      apply (uncommitted_below g' _ (repeat 0xFF 4)); [|done].
      rewrite Hw, app_assoc, take_app_length' by (rewrite length_app; simpl; lia). by rewrite drop_app_length'. }
  subst w. apply wp_bind, wp_lift.
  rewrite (page_address (ln_flash s1) (ln_page_a s1) (ln_page_b s1) c 12 (hl_geom _ _ _ _ Hold1) Hown1 ltac:(lia) : add_u32 c 12 = _).
  eapply wp_mono.
  { apply (wp_write_page s1 c 12 PAGE_COMMIT); [apply Hold1|done|by exists 3%nat|by exists 1%nat|simpl; lia| |].
    - repeat constructor; done.
    - rewrite Hw, drop_app_length'; [done|done]. }
  intros r s2 (Ht2 & w2 & Hw2 & Hlw2 & Hr2).
  change (length PAGE_COMMIT) with 4%nat in Hlw2. rewrite Hw, splice_app in Hw2 by done.
  pose proof (has_log_touched _ _ o c _ _ Ht2 ltac:(done) Hold1) as Hold2.
  assert (Hf2 : kept s1 s2 ∧ ln_active_page s2 = ln_active_page s1 ∧ ln_write_offset s2 = ln_write_offset s1 ∧ own_page s2 c).
  { destruct Ht2 as (f & ? & -> & ?). by destruct s1. }
  destruct Hf2 as (Hk2 & Ha2 & Hw2' & Hown2). split; [by eapply kept_trans|]. split; [congruence|]. split; [congruence|].
  split; [done|]. split; [done|]. split; [apply Hold2|].
  assert (Hdone : w2 = PAGE_COMMIT → log_page (page_header g) copied (page_of (ln_flash s2) c)).
  { intros ->. exists k. rewrite Hw2. unfold page_header, d. by rewrite <- !app_assoc. }
  destruct r as [u'|e|]; [by apply Hdone|destruct Hr2 as [-> Hm]|done]. split; [done|]. split; [done|].
  destruct (decide (w2 = PAGE_COMMIT)) as [E|E]; [by left; apply Hdone|]. right. intros g'.
  apply (uncommitted_below g' _ w2); [|done].
  rewrite Hw2, app_assoc, take_app_length' by (rewrite length_app; change (length d) with 12%nat; lia).
  by rewrite drop_app_length'.
Qed.

(** * The contents of a store *)

(** The log is on [act]; the other page does not outrank it.  A log without
    header and items is the first page of a store never written to. *)
Record stored_at (s : Nv) (act oth : Z) (h : option Z) (items : log_items) : Prop := {
  sa_log : has_log s act h items;
  sa_own : own_page s oth;
  sa_apart : oth ≠ act;
  sa_other : if decide (log_state h items = PsEmpty)
             then act = ln_page_a s ∧ take 16 (page_of (ln_flash s) oth) = repeat 0xFF 16
             else dominated (default 0 h) (page_of (ln_flash s) oth) }.

(** The other page has no header. *)
Definition idle (s : Nv) (oth : Z) : Prop := take 16 (page_of (ln_flash s) oth) = repeat 0xFF 16.

(** What a running store holds. *)
Definition nv_ok (s : Nv) (m : nv_map) : Prop :=
  ∃ oth h items, stored_at s (ln_active_page s) oth h items ∧ idle s oth ∧ m = log_map items ∧
    ln_write_offset s = (length (header_bytes h) + length (encode_items items))%nat ∧
    ln_generation s = default 0 h.

(** The active page has a header or an item. *)
Definition formatted (s : Nv) : Prop :=
  header_state (take 16 (page_of (ln_flash s) (ln_active_page s))) ≠ PsEmpty.

(** The log of [m] is whole on page [act] under generation [g], whatever the
    other page holds. *)
Definition intact_at (s : Nv) (act oth : Z) (h : option Z) (items : log_items) : Prop :=
  has_log s act h items ∧ own_page s oth ∧ oth ≠ act.
Definition intact (s : Nv) (m : nv_map) (act g : Z) : Prop :=
  ∃ oth h items, intact_at s act oth h items ∧ log_state h items ≠ PsEmpty ∧ m = log_map items ∧ g = default 0 h.

(** The other page is not taken for one as new as generation [g]. *)
Definition unmistaken (s : Nv) (act g : Z) : Prop :=
  ∀ p, own_page s p → p ≠ act → dominated g (page_of (ln_flash s) p).

Lemma stored_intact s act oth h items : stored_at s act oth h items → intact_at s act oth h items.
Proof using Type. by intros []. Qed.

Lemma intact_stored s act oth h items :
  intact_at s act oth h items → log_state h items ≠ PsEmpty → unmistaken s act (default 0 h) → stored_at s act oth h items.
Proof using Type. intros (Hl & Ho & Hne) Hns Hu. split; try done. rewrite decide_False by done. by apply Hu. Qed.

Lemma intact_other s act oth h items p : intact_at s act oth h items → own_page s p → p ≠ act → p = oth.
Proof using Type.
  intros ([Hg Ha _ _ _] & Ho & Hne) Hp Hpa. pose proof (ge_apart _ _ _ Hg).
  destruct Ha as [->| ->], Ho as [->| ->], Hp as [->| ->]; congruence.
Qed.

Lemma header_u32 h : header_wf h → is_u32 (default 0 h).
Proof using Type. by destruct h. Qed.

Lemma stored_at_ext s s' act oth h items :
  ln_flash s' = ln_flash s → ln_page_a s' = ln_page_a s → ln_page_b s' = ln_page_b s →
  stored_at s act oth h items → stored_at s' act oth h items.
Proof using Type.
  intros Ef Ea Eb []. split; rewrite ?Ef, ?Ea, ?Eb; try done. by apply (has_log_ext s).
Qed.

Lemma intact_at_ext s s' act oth h items :
  ln_flash s' = ln_flash s → ln_page_a s' = ln_page_a s → ln_page_b s' = ln_page_b s →
  intact_at s act oth h items → intact_at s' act oth h items.
Proof using Type. intros Ef Ea Eb (? & ? & ?). split; [by apply (has_log_ext s)|by rewrite Ea, Eb]. Qed.

Lemma intact_at_touched s s' act oth h items :
  touched oth s s' → intact_at s act oth h items → intact_at s' act oth h items.
Proof using Type.
  intros Ht (? & ? & ?). split; [by eapply has_log_touched|]. destruct Ht as (f & _ & -> & _). by destruct s.
Qed.

Lemma stored_at_same s s' act oth h items : same_nv s s' → stored_at s act oth h items → stored_at s' act oth h items.
Proof using Type.
  intros Hs []. destruct (same_nv_fields _ _ Hs) as (_ & _ & Ha & Hb & _).
  split; rewrite ?Ha, ?Hb, ?(same_nv_page _ _ _ Hs); try done. by apply (has_log_same s).
Qed.

Lemma nv_ok_same s s' m : same_nv s s' → nv_ok s m → nv_ok s' m.
Proof using Type.
  intros Hs (oth & h & items & Hst & Hi & Hm & Hw & Hg). destruct (same_nv_fields _ _ Hs) as (_ & _ & _ & _ & Ha & Hw' & Hg').
  exists oth, h, items. unfold idle. rewrite Ha, Hw', Hg', (same_nv_page _ _ _ Hs). split; [by apply (stored_at_same s)|done].
Qed.

Lemma scratch_is_other s act oth h items :
  stored_at s act oth h items → ln_active_page s = act → scratch_page s = oth.
Proof using Type.
  intros [[[_ _ Hne _ _ _] Hact _ _ _] Hoth Hd _] <-. unfold scratch_page. destruct (Z.eqb_spec (ln_active_page s) (ln_page_a s)) as [E|E].
  - destruct Hoth as [-> | ->]; [congruence|done].
  - destruct Hoth as [-> | ->]; [done|]. destruct Hact as [?|?]; congruence.
Qed.

(** The old page seen from the new generation. *)
Lemma log_generation h items : log_state h items ≠ PsEmpty → valid_generation (log_state h items) = Some (default 0 h).
Proof using Type. destruct h; [done|]. by destruct items. Qed.

Lemma log_header s p h items : has_log s p h items → header_state (take 16 (page_of (ln_flash s) p)) = log_state h items.
Proof using HL.
  intros [Hg Hp Hlog Hh _]. apply log_header_state; [done|done|]. rewrite (length_page _ _ _ _ Hg Hp). apply (proj1 lf_sizes).
Qed.

Lemma old_page_dominated s o h items g :
  has_log s o h items → log_state h items ≠ PsEmpty → outranks g (default 0 h) → dominated g (page_of (ln_flash s) o).
Proof using HL. intros Hl Hns Hout. unfold dominated. by rewrite (log_header _ _ _ _ Hl), log_generation. Qed.

(** Before the commit the old log is what the flash holds. *)
Lemma compacting_stored s o c h items :
  compacting s o c h items → (log_state h items = PsEmpty → o = ln_page_a s) → stored_at s o c h items.
Proof using Type.
  intros [Hold Hown Hne Hblank] Ho. split; try done. unfold idle in *. case_decide; [by split; [apply Ho|]|by apply dominated_blank].
Qed.

(** An erased page has no header. *)
Lemma erased_idle s p : page_of (ln_flash s) p = repeat 0xFF ERASE_SIZE → idle s p.
Proof using HL.
  intros E. unfold idle. rewrite E. destruct (lf_sizes (F:=F)) as [Hsz _]. unfold PAGE_HEADER_SIZE in Hsz.
  replace ERASE_SIZE with (16 + (ERASE_SIZE - 16))%nat by lia. by rewrite repeat_app, take_app_length'.
Qed.

(** * What compaction does *)
(** A log of [m] is whole, and if no erase fails no other page is taken for a
    committed one as new. *)
Definition safe (s : Nv) (m : nv_map) : Prop :=
  ∃ act oth h items, intact_at s act oth h items ∧ log_state h items ≠ PsEmpty ∧ m = log_map items ∧
    (erases_complete → committed_below (default 0 h) (page_of (ln_flash s) oth)).

Definition compact_post (s : Nv) (h : option Z) (items : log_items) (r : outcome NvError unit) (s' : Nv) : Prop :=
  (log_state h items ≠ PsEmpty → safe s' (log_map items)) ∧
  match r with
  | Ok _ => nv_ok s' (log_map items) ∧ ln_write_offset s' = (16 + live_size (log_map items))%nat
  | Err NvFull => nv_ok s' (log_map items) ∧ (ERASE_SIZE < 16 + live_size (log_map items))%nat
  | Err NvHardwareError => may_fail
  | _ => False
  end.

Lemma compacting_safe s s' o c h items :
  compacting s o c h items → ln_flash s' = ln_flash s → ln_page_a s' = ln_page_a s → ln_page_b s' = ln_page_b s →
  log_state h items ≠ PsEmpty → safe s' (log_map items).
Proof using Type.
  intros [Hold Hown Hne Hblank] Ef Ea Eb Hns. exists o, c, h, items. split; [by apply (intact_at_ext s)|].
  split; [done|]. split; [done|]. intros _. rewrite Ef. by apply dominated_committed, dominated_blank.
Qed.

(** The state the store goes back to when the copy fails. *)
Lemma compact_restore s0 s1 o c h items :
  kept s0 s1 → stored_at s0 o c h items → ln_active_page s0 = o → ln_generation s0 = default 0 h →
  ln_write_offset s0 = (length (header_bytes h) + length (encode_items items))%nat → compacting s1 o c h items →
  nv_ok (set_generation (ln_generation s0) (set_write_offset (ln_write_offset s0) (set_active_page o s1))) (log_map items).
Proof using Type.
  intros (Ha & Hb & _) Hst Hact Hgen Hwo Hc.
  assert (Hs1 : stored_at s1 o c h items).
  { apply compacting_stored; [done|]. intros E. rewrite Ha. pose proof (sa_other _ _ _ _ _ Hst) as Ho.
    rewrite decide_True in Ho by done. apply Ho. }
  exists c, h, items. pose proof (cp_blank _ _ _ _ _ Hc) as Hi. destruct s1. cbn in *. split; [|done].
  by eapply stored_at_ext; [..|exact Hs1].
Qed.

(** The last step: the new page is committed and the old one goes. *)
Lemma wp_erase_old s o c h items copied g wo :
  has_log s o h items → own_page s c → c ≠ o → log_page (page_header g) copied (page_of (ln_flash s) c) →
  is_u32 g → Forall item_wf copied → log_map copied = log_map items →
  ln_active_page s = c → ln_write_offset s = wo → ln_generation s = g → wo = (16 + length (encode_items copied))%nat →
  wp (erased ← try_st (erase_page o);
      match erased with
      | inr error => _ ← modify_st (λ s, set_write_offset wo (set_active_page c s)); throw error
      | inl _ => mret ()
      end)
    (λ r s', safe s' (log_map items) ∧
      match r with
      | Ok _ => nv_ok s' (log_map items) ∧ ln_write_offset s' = wo
      | Err e => e = NvHardwareError ∧ may_fail
      | Panic => False
      end) s.
Proof using HL.
  intros Hold Hown Hne Hlog Hg Hwf Hmap Hact Hwo Hgen Hsize. apply wp_bind, wp_try.
  eapply wp_mono; [apply wp_erase_page; [apply Hold|apply Hold]|]. intros r s' [Ht Hr].
  assert (Hnew : intact_at s' c o (Some g) copied).
  { eapply intact_at_touched; [done|]. split; [split; [apply Hold|done..]|]. split; [apply Hold|congruence]. }
  destruct r as [u|e|]; [|destruct Hr as (-> & Hm & Hc)|done].
  - pose proof (erased_idle _ _ Hr) as Hi. apply wp_ret. split.
    { exists c, o, (Some g), copied. split; [done|]. split; [done|]. split; [done|]. intros _.
      by apply dominated_committed, dominated_blank. }
    assert (Hst : stored_at s' c o (Some g) copied).
    { destruct Hnew as (? & ? & ?). split; try done. rewrite decide_False by done. by apply dominated_blank. }
    destruct Ht as (f & _ & -> & _). destruct s; cbn in *. split; [|done]. exists o, (Some g), copied. by subst.
  - apply wp_bind, wp_modify, wp_throw. split; [|done]. exists c, o, (Some g), copied.
    split; [by apply (intact_at_ext s'); destruct s'|]. split; [done|]. by split.
Qed.

Lemma wp_finish_compaction s o c h items ids :
  compacting s o c h items → (log_state h items = PsEmpty → o = ln_page_a s) → ln_active_page s = o →
  ln_write_offset s = (length (header_bytes h) + length (encode_items items))%nat → ln_generation s = default 0 h →
  page_of (ln_flash s) c = repeat 0xFF ERASE_SIZE → NoDup ids → (∀ id, id ∈ items.*1 → id ∈ ids) →
  wp (finish_compaction c (nv_item_code <$> ids)) (compact_post s h items) s.
Proof using HL.
  intros Hcp Hempty Hact Hwo Hgen Hblank Hnd Hids. pose proof (compacting_stored _ _ _ _ _ Hcp Hempty) as Hst.
  pose proof Hcp as [Hlog Hown Hne _]. assert (Hgu : is_u32 (default 0 h)) by apply header_u32, Hlog.
  set (m := log_map items). set (copied := live_items m ids).
  assert (Hsz : length (encode_items copied) = live_size m).
  { apply live_items_size; [done|]. intros id Hid. apply Hids, log_map_ids, Hid. }
  assert (Hmap : log_map copied = m) by (apply log_map_live; [apply Hlog|done|done]).
  assert (Hwf : Forall item_wf copied) by apply live_items_wf, Hlog.
  apply wp_bind, wp_get. cbv zeta. fold (next_gen (ln_generation s)). rewrite Hact, Hgen.
  destruct (next_gen_outranks _ Hgu) as [Hout Hgu'].
  apply wp_bind, wp_modify.
  assert (Hcy : copying (set_write_offset PAGE_HEADER_SIZE (set_active_page c s)) o c h items []).
  { destruct s; nv_fields. split; nv_fields; try done; [by eapply has_log_ext; [..|exact Hlog]|].
    rewrite Hblank. exists (ERASE_SIZE - 16)%nat. destruct (lf_sizes (F:=F)) as [Hz _]. unfold PAGE_HEADER_SIZE in Hz.
    change (encode_items []) with (@nil Z). rewrite app_nil_l, <- repeat_app. f_equal. lia. }
  assert (Hk0 : kept s (set_write_offset PAGE_HEADER_SIZE (set_active_page c s))) by (by destruct s).
  apply wp_bind, wp_try. eapply wp_mono; [apply (wp_copy_items _ o c h items [] ids); [done|done]|].
  intros r s1 [Hk1 Hr]. pose proof (kept_trans _ _ _ Hk0 Hk1) as Hk.
  assert (Hrest : ∀ s', kept s s' → compacting s' o c h items →
    nv_ok (set_generation (default 0 h) (set_write_offset (ln_write_offset s) (set_active_page o s'))) m).
  { intros s' Hk' Hc'. rewrite <- Hgen. by eapply compact_restore. }
  cbn [app] in Hr. fold m in Hr. fold copied in Hr. destruct r as [u|e|]; [| |done].
  2:{ destruct e; try done.
      - destruct Hr as [Hc1 Hfit]. apply wp_bind, wp_modify, wp_throw. pose proof (Hrest _ Hk Hc1) as Hok.
        split; [by apply (compacting_safe s1 _ o c); destruct s1|]. split; [done|]. fold m. by rewrite <- Hsz.
      - destruct Hr as [Hm Hc1]. apply wp_bind, wp_modify, wp_throw.
        split; [by apply (compacting_safe s1 _ o c); destruct s1|done]. }
  apply wp_bind, wp_modify, wp_bind, wp_get. apply (copying_active _ _ _ _ _ _ c) in Hr.
  pose proof (kept_trans _ _ _ Hk (kept_active c s1)) as Hk2.
  assert (Ha2 : ln_active_page (set_active_page c s1) = c) by (by destruct s1).
  revert Hr Hk2 Ha2. generalize (set_active_page c s1). clear s1 Hk1 Hk. intros s2 Hr Hk2 Ha2.
  apply wp_bind, wp_try. eapply wp_mono; [apply (wp_commit_page _ o c h items copied _ Hr Hgu')|].
  intros r s3 (Hk3 & Ha3 & Hw3 & Hold3 & Hown3 & Hg3 & Hr3). pose proof (kept_trans _ _ _ Hk2 Hk3) as Hk4.
  destruct r as [u2|e|]; [|destruct Hr3 as (-> & Hm & Hor)|done].
  - apply wp_bind, wp_modify. eapply wp_mono.
    { apply (wp_erase_old _ o c h items copied (next_gen (default 0 h)) (ln_write_offset s2)); try done; destruct s3; cbn in *; try done.
      - by eapply has_log_ext; [..|exact Hold3].
      - congruence.
      - apply Hr. }
    intros r s4 [Hst4 Hr4]. split; [by intros _|]. destruct r as [u4|e|]; [|by destruct Hr4 as [-> ?]|done].
    destruct Hr4 as [Hok ->]. split; [done|]. fold m. by rewrite (cy_offset _ _ _ _ _ _ Hr), Hsz.
  - apply wp_bind, wp_modify, wp_throw. split; [|done]. intros Hns. destruct Hor as [Hlog3|Hdead].
    + exists c, o, (Some (next_gen (default 0 h))), copied.
      split; [apply (intact_at_ext s3); [by destruct s3..|]; split; [split; done|split; [apply Hold3|congruence]]|].
      split; [done|]. split; [done|]. intros _. apply dominated_committed.
      replace (ln_flash _) with (ln_flash s3) by (by destruct s3). by apply (old_page_dominated _ o h items).
    + exists o, c, h, items. split; [by apply (intact_at_ext s3); [destruct s3..|]|]. split; [done|]. split; [done|].
      intros _. replace (ln_flash _) with (ln_flash s3) by (by destruct s3). apply Hdead.
Qed.

Lemma wp_compact s oth h items :
  stored_at s (ln_active_page s) oth h items →
  ln_write_offset s = (length (header_bytes h) + length (encode_items items))%nat → ln_generation s = default 0 h →
  wp compact (compact_post s h items) s.
Proof using HL.
  intros Hst Hwo Hgen. pose proof Hst as [Hlog Hown Hne Hother]. set (o := ln_active_page s) in *.
  assert (Hempty : log_state h items = PsEmpty → o = ln_page_a s).
  { intros E. rewrite decide_True in Hother by done. apply Hother. }
  apply wp_bind, wp_get. cbv zeta. rewrite (scratch_is_other _ _ _ _ _ Hst eq_refl). fold o.
  apply wp_bind. eapply wp_mono; [apply wp_erase_page; [apply Hlog|done]|].
  intros r s1 [Ht Hr]. pose proof (kept_touched _ _ _ Ht) as Hk1.
  assert (Hlog1 : has_log s1 o h items) by (by eapply has_log_touched).
  assert (Hown1 : own_page s1 oth) by (destruct Hk1 as (-> & -> & _); done).
  destruct r as [u|e|]; [|destruct Hr as (-> & Hm & Hc); split; [|done]|done].
  2:{ intros Hns. exists o, oth, h, items. by split; [|split; [|split]]. }
  assert (Hblank : ∀ s', same_nv s1 s' → compacting s' o oth h items).
  { intros s' Hs'. destruct (same_nv_fields _ _ Hs') as (_ & _ & Ha & Hb & _).
    split; rewrite ?Ha, ?Hb, ?(same_nv_page _ _ _ Hs'); try done; [by apply (has_log_same s1)|by apply erased_idle]. }
  assert (Hst1 : ∀ s', same_nv s1 s' → log_state h items ≠ PsEmpty → safe s' (log_map items)).
  { intros s' Hs' Hns. by apply (compacting_safe s' s' o oth h items (Hblank _ Hs')). }
  assert (Hf1 : ln_active_page s1 = o ∧ ln_write_offset s1 = ln_write_offset s ∧ ln_page_a s1 = ln_page_a s).
  { destruct Ht as (f & _ & -> & _). by destruct s. }
  destruct Hf1 as (Ha1 & Hw1 & Hpa1).
  apply wp_bind. eapply wp_mono; [by apply (wp_page_data_start s1 o h items)|].
  intros [off|e|] s2 [Hs2 Hr2]; [|destruct Hr2 as [-> ?]; by split; [apply Hst1|]|done]. subst off.
  apply wp_bind. eapply wp_mono; [apply (wp_scan _ s2 o h [] items); [by eapply has_log_same|simpl; lia|lia]|].
  destruct (fold_seen items (length (header_bytes h)) [] (NoDup_nil_2)) as (ids & Eids & Hnd & Hids).
  intros r s3 [Hs3 Hr3]. pose proof (same_nv_trans _ _ _ Hs2 Hs3) as Hs13. simpl in Eids, Hr3.
  destruct r as [[off seen]|e|]; rewrite Eids in Hr3; [|destruct Hr3 as [[-> Hm]|[=]]; by split; [apply Hst1|]|done].
  destruct Hr3 as [_ [= <-]]. destruct (same_nv_fields _ _ Hs13) as (_ & _ & Hpa & Hpb & Ha & Hw & Hg).
  destruct Hk1 as (_ & _ & Hg1).
  eapply wp_mono; [apply (wp_finish_compaction s3 o oth h items ids)|done]; rewrite ?Hpa, ?Ha, ?Hw, ?Hg, ?Hpa1; try done.
  - by apply Hblank.
  - congruence.
  - congruence.
  - by rewrite (same_nv_page _ _ _ Hs13).
  - intros id Hid. apply Hids. by right.
Qed.

(** * Reading and writing *)

(** The contents after an item was appended. *)
Lemma append_ok s id d oth h items :
  stored_at s (ln_active_page s) oth h items → idle s oth → nv_value d →
  ln_write_offset s = (length (header_bytes h) + length (encode_items items))%nat → ln_generation s = default 0 h →
  wp (append_item_to_active id d)
    (λ r s',
      match r with
      | Ok _ => nv_ok s' (log_step (log_map items) (id, d))
      | Err NvFull => s' = s ∧ (ERASE_SIZE < ln_write_offset s + item_size d)%nat
      | Err NvHardwareError => may_fail
      | _ => False
      end) s.
Proof using HL.
  intros [Hlog Hown Hne Hoth] Hidle Hd Hwo Hgen. eapply wp_mono.
  { apply (wp_append s id d (header_bytes h) items); [|done].
    split; [apply Hlog|apply Hlog|apply Hlog|apply header_bytes_divide|done]. }
  intros [u|e|] s' Hr; [|by destruct e; naive_solver|done].
  destruct Hr as (s1 & (f & Hg & -> & Hothers) & -> & Hlog'). destruct s as [f0 pa pb act wo g]; nv_fields.
  exists oth, h, (items ++ [(id, d)]). unfold idle in *. nv_fields.
  split; [|split; [by rewrite Hothers|split; [by rewrite log_map_snoc|split; [|done]]]].
  - split; nv_fields; try done.
    + destruct Hlog. split; nv_fields; try done. apply Forall_app. by split; [|constructor].
    + rewrite decide_False by (destruct h; [done|by destruct items]). rewrite Hothers by done. by apply dominated_blank.
  - rewrite encode_items_app, encode_items_one, length_app, length_item_bytes. unfold item_size. lia.
Qed.

Lemma wp_append_item s m id d :
  nv_ok s m → nv_value d →
  wp (append_item id d)
    (λ r s',
      match r with
      | Ok _ => nv_ok s' (log_step m (id, d))
      | Err NvFull => nv_ok s' m ∧ (ERASE_SIZE < 16 + live_size m + item_size d)%nat
      | Err NvHardwareError => may_fail
      | _ => False
      end) s.
Proof using HL.
  intros (oth & h & items & Hst & Hi & -> & Hwo & Hgen) Hd. unfold append_item.
  destruct (Nat.ltb_spec MAX_ITEM_SIZE (length d)) as [E|_].
  { destruct Hd as [_ Hd]. unfold NV_MAX_ITEM, MAX_ITEM_SIZE in *. lia. }
  apply wp_bind, wp_get. cbv zeta. fold (item_size d). apply wp_bind.
  destruct (Nat.ltb_spec ERASE_SIZE (ln_write_offset s + item_size d)) as [E|E].
  - eapply wp_mono; [by apply (wp_compact s oth h items)|].
    intros [u|e|] s1 [_ Hr]; [|destruct e; try done; destruct Hr as [? ?]; split; [done|lia]|done].
    destruct Hr as [(oth1 & h1 & items1 & Hst1 & Hi1 & Hm1 & Hwo1 & Hgen1) Hsize].
    eapply wp_mono; [by apply (append_ok s1 id d oth1 h1 items1)|]. rewrite Hm1 in *.
    intros [u'|e|] s2 Hr2; [done|destruct e; try done|done]. destruct Hr2 as [-> Hfull]. split; [|lia].
    exists oth1, h1, items1. done.
  - apply wp_ret. eapply wp_mono; [by apply (append_ok s id d oth h items)|].
    intros [u'|e|] s2 Hr2; [done|destruct e; try done|done]. destruct Hr2 as [-> Hfull]. lia.
Qed.

(** * Opening *)
Lemma wp_find_write_offset s p h items :
  has_log s p h items →
  wp (find_write_offset p)
    (λ r s', same_nv s s' ∧
      match r with
      | Ok n => n = (length (header_bytes h) + length (encode_items items))%nat
      | Err e => e = NvHardwareError ∧ may_fail
      | Panic => False
      end) s.
Proof using HL.
  intros Hl. apply wp_bind. eapply wp_mono; [by apply (wp_page_data_start s p h items)|].
  intros [o|e|] s1 [Hs1 Hr]; [|done|done]. subst o. apply wp_bind.
  eapply wp_mono; [apply (wp_scan _ s1 p h [] items); [by eapply has_log_same|simpl; lia|lia]|].
  assert (Hfold : ∀ off l, fold_items (λ _ _ _ acc, Ok acc) off l () = Ok ()).
  { intros off l. revert off. induction l as [|[id d] l IH]; intros off; [done|]. by rewrite fold_items_cons. }
  intros [[o []]|e|] s2 [Hs2 Hr]; rewrite Hfold in Hr.
  - apply wp_ret. split; [by eapply same_nv_trans|apply Hr].
  - destruct Hr as [?|?]; [|done]. split; [by eapply same_nv_trans|done].
  - done.
Qed.

(** What opening gives: the log stays whole; when the other page had no header
    nothing on the flash changes; and the opened store holds the log. *)
Definition opened (clean : Prop) (act oth : Z) (h : option Z) (items : log_items)
    (r : outcome NvError unit) (s' : Nv) : Prop :=
  intact_at s' act oth h items ∧ (clean → stored_at s' act oth h items ∧ idle s' oth) ∧
  match r with Ok _ => nv_ok s' (log_map items) | Err e => e = NvHardwareError ∧ may_fail | Panic => False end.

Lemma same_opened_failed clean s s' act oth h items :
  same_nv s s' → stored_at s act oth h items → (clean → idle s oth) → may_fail →
  opened clean act oth h items (Err NvHardwareError) s'.
Proof using Type.
  intros Hs Hst Hi Hm. pose proof (stored_at_same _ _ _ _ _ _ Hs Hst) as Hst'.
  split; [by apply stored_intact|]. split; [|done]. intros Hc. split; [done|]. unfold idle.
  rewrite (same_nv_page _ _ _ Hs). by apply Hi.
Qed.

(** With the active page chosen, the end of its log is found. *)
Lemma wp_init_tail clean s act oth h items :
  stored_at s act oth h items → idle s oth → ln_active_page s = act → ln_generation s = default 0 h →
  wp (s ← get_st; offset ← find_write_offset (ln_active_page s); modify_st (set_write_offset offset))
    (opened clean act oth h items) s.
Proof using HL.
  intros Hst Hi <- Hgen. apply wp_bind, wp_get, wp_bind.
  eapply wp_mono; [apply (wp_find_write_offset s _ h items), Hst|].
  intros [o|e|] s1 [Hs1 Hr]; [| |done].
  - subst o. apply wp_modify. destruct (same_nv_fields _ _ Hs1) as (_ & _ & _ & _ & Ha & _ & Hg).
    set (s' := set_write_offset _ s1).
    assert (Hst1 : stored_at s' (ln_active_page s) oth h items).
    { eapply stored_at_ext; [..|by eapply stored_at_same; [exact Hs1|]]; by destruct s1. }
    assert (Hi1 : idle s' oth).
    { unfold idle. replace (ln_flash s') with (ln_flash s1) by (by destruct s1). by rewrite (same_nv_page _ _ _ Hs1). }
    split; [by apply stored_intact|]. split; [done|]. exists oth, h, items.
    replace (ln_active_page s') with (ln_active_page s) by (rewrite <- Ha; by destruct s1).
    split; [done|]. split; [done|]. split; [done|]. split; [by destruct s1|]. rewrite <- Hgen, <- Hg. by destruct s1.
  - destruct Hr as [-> Hm]. by eapply same_opened_failed.
Qed.

(** Erasing the page that is not in use leaves the log. *)
Lemma wp_drop_other s act oth h items :
  stored_at s act oth h items → log_state h items ≠ PsEmpty →
  wp (erase_page oth)
    (λ r s', intact_at s' act oth h items ∧ ln_active_page s' = ln_active_page s ∧ ln_generation s' = ln_generation s ∧
      match r with
      | Ok _ => stored_at s' act oth h items ∧ idle s' oth
      | Err e => e = NvHardwareError ∧ may_fail
      | Panic => False
      end) s.
Proof using HL.
  intros Hst Hns. eapply wp_mono; [apply wp_erase_page; apply Hst|]. intros r s' [Ht Hr].
  pose proof (intact_at_touched _ _ _ _ _ _ Ht (stored_intact _ _ _ _ _ Hst)) as Hi.
  split; [done|]. split; [by destruct Ht as (f & _ & -> & _), s|]. split; [by destruct Ht as (f & _ & -> & _), s|].
  destruct r as [u|e|]; [|by destruct Hr as (? & ? & _)|done]. pose proof (erased_idle _ _ Hr) as Hid. split; [|done].
  destruct Hi as (? & ? & ?). split; try done. rewrite decide_False by done. by apply dominated_blank.
Qed.

(** The choice of the active page, erasing the other one when it has a header. *)
Lemma wp_choose clean s act oth h items (erase : bool) :
  stored_at s act oth h items → log_state h items ≠ PsEmpty →
  (if erase then ¬ clean else idle s oth) →
  wp (_ ← modify_st (λ s, set_generation (default 0 h) (set_active_page act s));
      if erase then erase_page oth else mret ())
    (λ r s',
      match r with
      | Ok _ => wp (s ← get_st; offset ← find_write_offset (ln_active_page s); modify_st (set_write_offset offset))
                  (opened clean act oth h items) s'
      | Err e => opened clean act oth h items (Err e) s'
      | Panic => opened clean act oth h items Panic s'
      end) s.
Proof using HL.
  intros Hst Hns Hc. apply wp_bind, wp_modify.
  assert (Hst1 : stored_at (set_generation (default 0 h) (set_active_page act s)) act oth h items).
  { destruct s. by eapply stored_at_ext; [..|exact Hst]. }
  destruct erase.
  - eapply wp_mono; [by apply wp_drop_other|]. intros r s' (Hi & Ha & Hg & Hr).
    assert (Ha' : ln_active_page s' = act) by (rewrite Ha; by destruct s).
    assert (Hg' : ln_generation s' = default 0 h) by (rewrite Hg; by destruct s).
    destruct r as [u|e|]; [destruct Hr as [? ?]; by eapply wp_init_tail| |done]. by split; [|split].
  - apply wp_ret. by eapply wp_init_tail; [exact Hst1|destruct s|destruct s|destruct s].
Qed.

(** A page that reads as none is empty or invalid; an erase follows only for
    one that is not empty. *)
Lemma other_erased s s' oth st (P : Prop) :
  st = header_state (take 16 (page_of (ln_flash s) oth)) → same_nv s s' → valid_generation st = None →
  P = idle s oth →
  if bool_decide (st = PsInvalid) then ¬ P else idle s' oth.
Proof using Type.
  intros Est Hs Hv ->. unfold idle. rewrite (same_nv_page _ _ _ Hs). case_bool_decide as E.
  - intros Hi. by rewrite Hi, E in Est.
  - apply header_empty_inv. rewrite <- Est. by destruct st.
Qed.

Lemma wp_init s act oth h items :
  stored_at s act oth h items → wp init (opened (idle s oth) act oth h items) s.
Proof using HL.
  intros Hst. pose proof Hst as [Hlog Hown Hne Hoth]. assert (Hgeo : geom s) by apply Hlog.
  assert (Hkeep : ∀ s', same_nv s s' → may_fail → opened (idle s oth) act oth h items (Err NvHardwareError) s').
  { intros s' Hs Hm. by eapply same_opened_failed. }
  apply wp_bind, wp_get. cbv zeta. apply wp_bind.
  eapply wp_mono; [apply wp_page_state; [done|by left]|].
  intros [a_state|e|] s1 [Hs1 Ha]; [|destruct Ha as [-> ?]; by apply Hkeep|done].
  destruct (same_nv_fields _ _ Hs1) as (_ & _ & Hpa & Hpb & _). apply wp_bind.
  eapply wp_mono; [apply wp_page_state; [by eapply same_nv_geom|right; by rewrite Hpb]|].
  intros [b_state|e|] s2 [Hs2 Hb]; [|destruct Hb as [-> ?]; eauto using same_nv_trans|done].
  rewrite (same_nv_page _ _ _ Hs1) in Hb. pose proof (same_nv_trans _ _ _ Hs1 Hs2) as Hs.
  pose proof (stored_at_same _ _ _ _ _ _ Hs Hst) as Hst2.
  destruct (same_nv_fields _ _ Hs) as (_ & _ & Hpa2 & Hpb2 & _).
  pose proof (log_header _ _ _ _ Hlog) as Hact. pose proof (log_generation h items) as Hlg.
  apply wp_bind. destruct (decide (log_state h items = PsEmpty)) as [E|Hns].
  { destruct Hoth as [-> Hb16]. assert (oth = ln_page_b s) as -> by (by destruct Hown).
    subst a_state b_state. rewrite Hact, Hb16, E, header_state_empty. cbn [valid_generation].
    rewrite !bool_decide_eq_true_2 by done. apply wp_modify.
    destruct h; [done|]. destruct items; [|done].
    assert (Hi : idle s2 (ln_page_b s)) by (unfold idle; by rewrite (same_nv_page _ _ _ Hs)).
    revert Hi Hst2. rewrite <- Hpa2. intros Hi Hst2.
    eapply wp_init_tail; [eapply stored_at_ext; [..|exact Hst2]|..]; by destruct s2. }
  specialize (Hlg Hns). rewrite <- Hact in Hlg. unfold dominated in Hoth.
  assert (Hval : ∀ g', valid_generation (header_state (take 16 (page_of (ln_flash s) oth))) = Some g' → ¬ idle s oth).
  { intros g' Hv Hi. by rewrite Hi in Hv. }
  destruct (hl_own _ _ _ _ Hlog) as [-> | ->].
  - assert (oth = ln_page_b s) as -> by (by destruct Hown). subst a_state. rewrite <- Hb in *. rewrite Hlg.
    destruct (valid_generation b_state) as [gb|] eqn:Ev.
    + destruct (outranks_newer _ _ Hoth) as [_ ->].
      apply (wp_choose _ s2 (ln_page_a s) (ln_page_b s) h items true); [done|done|by eapply Hval].
    + pose proof (other_erased s s2 (ln_page_b s) b_state _ Hb Hs Ev eq_refl) as Ho. case_bool_decide;
        [by apply (wp_choose _ s2 (ln_page_a s) (ln_page_b s) h items true)|by apply (wp_choose _ s2 (ln_page_a s) (ln_page_b s) h items false)].
  - assert (oth = ln_page_a s) as -> by (by destruct Hown). subst b_state. rewrite <- Ha in *. rewrite Hlg.
    destruct (valid_generation a_state) as [ga|] eqn:Ev.
    + destruct (outranks_newer _ _ Hoth) as [-> _].
      apply (wp_choose _ s2 (ln_page_b s) (ln_page_a s) h items true); [done|done|by eapply Hval].
    + pose proof (other_erased s s2 (ln_page_a s) a_state _ Ha Hs Ev eq_refl) as Ho. case_bool_decide;
        [by apply (wp_choose _ s2 (ln_page_b s) (ln_page_a s) h items true)|by apply (wp_choose _ s2 (ln_page_b s) (ln_page_a s) h items false)].
Qed.

(** * The promises of the store *)
Lemma nv_ok_log s m : nv_ok s m → ∃ h items, has_log s (ln_active_page s) h items ∧ m = log_map items.
Proof using Type. intros (oth & h & items & [Hlog _ _ _] & _ & -> & _). eauto. Qed.

Lemma wp_read_law s m id buf :
  nv_ok s m →
  wp (log_nv_read id buf)
    (λ r s', nv_ok s' m ∧
      match r with
      | Ok (n, buf') => ∃ d, m !! id = Some d ∧ n = length d ∧ (n <= length buf)%nat ∧ buf' = written d buf
      | Err NvNotFound => m !! id = None
      | Err NvBufferTooSmall => ∃ d, m !! id = Some d ∧ (length buf < length d)%nat
      | Err NvHardwareError => may_fail
      | _ => False
      end) s.
Proof using HL.
  intros Hok. destruct (nv_ok_log _ _ Hok) as (h & items & Hlog & ->). apply wp_bind.
  eapply wp_mono; [by apply (wp_find_latest s id buf h items)|]. intros r s' [Hs Hr].
  pose proof (nv_ok_same _ _ _ Hs Hok) as Hok'. destruct r as [[[n|] buf']|e|]; [| | |done].
  - destruct Hr as (d & ? & ? & ? & ? & _). apply wp_ret. eauto 8.
  - destruct Hr as [? _]. by apply wp_throw.
  - split; [done|]. destruct e; naive_solver.
Qed.

Lemma geometry_layout f pa pb : geometry f pa pb → layout_ok f pa pb = true.
Proof using HL.
  intros [Hgood Hpos Hne [Ha Hb] [Hfa Hfb] [Hr Hw]]. unfold layout_ok. apply negb_true_iff.
  destruct (lf_sizes (F:=F)) as [Hsz _]. unfold PAGE_HEADER_SIZE in Hsz.
  destruct (lf_capacity f Hgood) as [-> _].
  assert (Hm : ∀ n k, (k | 4)%nat → (4 | n)%nat → is_multiple_of n k = true) by (intros; by apply words_multiple).
  assert (H4 : ∀ k, (k | 4)%nat → k ≠ 0%nat) by (intros k [x Hx] ->; lia).
  rewrite !Hm by (first [done|by exists 1%nat|by exists 2%nat|by exists 4%nat]).
  rewrite !(proj2 (is_multiple_of_divide _ _)) by done.
  rewrite (proj2 (Nat.eqb_neq READ_SIZE 0) (H4 _ Hr)), (proj2 (Nat.eqb_neq WRITE_SIZE 0) (H4 _ Hw)).
  rewrite (proj2 (Nat.eqb_neq ERASE_SIZE 0)) by lia. rewrite (proj2 (Z.eqb_neq pa pb) Hne). cbn [negb orb existsb].
  rewrite !(proj2 (Nat.ltb_ge _ _)) by lia. done.
Qed.

Lemma log_laws : NvStorageLaws (LogStructuredNv F) nv_ok may_fail.
Proof using HL.
  split; simpl; intros s m.
  - intros id buf Hok. by apply wp_read_law.
  - intros id d Hok Hd Hne. eapply wp_mono; [by apply wp_append_item|].
    intros [u|e|] s' Hr; [|by destruct e; naive_solver|done].
    unfold log_step in Hr. simpl in Hr. by rewrite decide_False in Hr.
  - intros id Hok. eapply wp_mono; [apply (wp_append_item s m id [] Hok); split; [done|simpl; lia]|].
    intros [u|e|] s' Hr; [done|by destruct e; naive_solver|done].
  - intros id Hok. destruct (nv_ok_log _ _ Hok) as (h & items & Hlog & ->). apply wp_bind.
    eapply wp_mono; [by apply (wp_find_latest s id (repeat 0 128) h items)|]. intros r s' [Hs Hr].
    pose proof (nv_ok_same _ _ _ Hs Hok) as Hok'. destruct r as [[[n|] buf']|e|]; [| | |done].
    + destruct Hr as (d & -> & _). by apply wp_ret.
    + destruct Hr as [-> _]. by apply wp_ret.
    + split; [done|]. destruct e; try done. destruct Hr as (d & _ & Hlt & [_ Hd]).
      rewrite repeat_length in Hlt. unfold NV_MAX_ITEM in Hd. lia.
  - intros id Hok. destruct (nv_ok_log _ _ Hok) as (h & items & Hlog & ->). apply wp_bind.
    eapply wp_mono; [by apply (wp_find_latest_entry s id h items)|]. intros r s' [Hs Hr].
    pose proof (nv_ok_same _ _ _ Hs Hok) as Hok'. destruct r as [[[at_ len]|]|e|]; [| | |done].
    + destruct Hr as (pre & d & post & -> & Hid & -> & _). pose proof (log_map_latest pre id d post Hid) as Hm.
      destruct (Nat.eqb_spec (length d) 0) as [E|E]; simpl.
      * apply nil_length_inv in E as ->. by apply wp_throw.
      * rewrite decide_False in Hm by (by intros ->). apply wp_ret. eauto.
    + apply wp_throw. split; [done|]. by apply log_map_absent.
    + destruct Hr as [-> ?]. done.
  - intros Hok. destruct Hok as (oth & h & items & Hst & _ & -> & Hwo & Hgen).
    eapply wp_mono; [by apply (wp_compact s oth h items)|].
    intros [u|e|] s' [_ Hr]; [apply Hr|destruct e; try done; apply Hr|done].
Qed.

(** Opening the flash of a store, after it was restarted. *)
Lemma reopen s f act oth h items r s' :
  stored_at s act oth h items → good f → bytes f = bytes (ln_flash s) →
  log_nv_new f (ln_page_a s) (ln_page_b s) = (r, s') → opened (idle s oth) act oth h items r s'.
Proof using HL.
  intros Hst Hf Hb.
  assert (Hs : same_nv s (set_flash f s)) by (by exists f).
  set (s0 := mk_LogStructuredNv f (ln_page_a s) (ln_page_b s) (ln_page_a s) 0 0).
  assert (Hst0 : stored_at s0 act oth h items).
  { eapply (stored_at_ext (set_flash f s)); [by destruct s..|]. by eapply stored_at_same. }
  unfold log_nv_new. rewrite geometry_layout by apply Hst0. fold s0.
  assert (Hi0 : idle s0 oth = idle s oth) by (unfold idle, page_of; cbn [ln_flash s0]; by rewrite Hb).
  rewrite <- Hi0. intros E. apply wp_init in Hst0. apply wp_run in Hst0 as (r' & s1 & E' & Ho). rewrite E in E'.
  by injection E' as <- <-.
Qed.

(** A device never written to is an empty store. *)
Lemma fresh_stored f pa pb :
  geometry f pa pb → (∀ p, is_page pa pb p → page_of f p = repeat 0xFF ERASE_SIZE) →
  stored_at (mk_LogStructuredNv f pa pb pa 0 0) pa pb None [].
Proof using HL.
  intros Hg Hff. split; nv_fields.
  - split; nv_fields; [done|by left| |done|done]. exists ERASE_SIZE. rewrite Hff by (by left). done.
  - by right.
  - intros E. by apply (ge_apart _ _ _ Hg).
  - rewrite decide_True by done. split; [done|].
    apply (erased_idle (mk_LogStructuredNv f pa pb pa 0 0)), Hff. by right.
Qed.

Lemma formatted_state s oth h items :
  stored_at s (ln_active_page s) oth h items → formatted s → log_state h items ≠ PsEmpty.
Proof using HL.
  intros [Hlog _ _ _] Hf. unfold formatted in Hf. by rewrite (log_header _ _ _ _ Hlog) in Hf.
Qed.
End Proofs.

(** * The device in memory is lawful *)
Lemma zip_land_above d x : Forall is_u8 d → length x = length d → Forall is_u8 x →
  x = repeat 0xFF (length d) → zip_with Z.land d x = d.
Proof.
  intros Hd Hl Hx ->. clear Hl Hx. induction Hd as [|y d Hy Hd IH]; [done|]. simpl. rewrite IH. f_equal.
  rewrite land_255. by apply Z.mod_small.
Qed.

Lemma splice_octets l a r : Forall is_u8 l → Forall is_u8 r → Forall is_u8 (splice l a r).
Proof. intros Hl Hr. unfold splice. repeat (apply Forall_app; split); auto using Forall_take, Forall_drop. Qed.

Lemma ones_octets n : Forall is_u8 (repeat 0xFF n).
Proof. apply Forall_forall. intros x Hx. apply list_elem_of_In, repeat_spec in Hx as ->. done. Qed.

(** Half of a splice is a splice of the whole range. *)
Lemma half_splice l a r n :
  (a + n <= length l)%nat → (length r <= n)%nat →
  splice l a r = splice l a (r ++ drop (length r) (take n (drop a l))).
Proof.
  intros Hl Hr. unfold splice. f_equal. rewrite <- app_assoc. f_equal.
  rewrite length_app, length_drop, length_take, length_drop.
  replace (a + (length r + (n `min` (length l - a) - length r)))%nat with (a + n)%nat by lia.
  rewrite skipn_firstn_comm, drop_drop. rewrite <- (take_drop (n - length r) (drop (a + length r) l)) at 1.
  rewrite drop_drop. f_equal. f_equal. lia.
Qed.

Lemma mock_write_law b f a d ok f' :
  mock_good b f → flash_write a d f = (ok, f') → 0 <= a → (Z.to_nat a + length d <= length (mf_bytes f))%nat →
  Forall is_u8 d → take (length d) (drop (Z.to_nat a) (mf_bytes f)) = repeat 0xFF (length d) →
  mock_good b f' ∧
  (∃ r, mf_bytes f' = splice (mf_bytes f) (Z.to_nat a) r ∧ length r = length d ∧ (ok = true → r = d)) ∧
  (ok = false → is_multiple_of (Z.to_nat a) WRITE_SIZE = true → is_multiple_of (length d) WRITE_SIZE = true → b = true).
Proof.
  intros (Hl & Ho & Hb) E Ha Hn Hd Hff. cbn [flash_write MockFlash_NorFlash] in E. unfold mock_fails in E.
  rewrite (proj2 (Nat.ltb_ge _ _)) in E by lia.
  assert (Hput : ∀ r, Forall is_u8 r → r = take (length r) d →
    mock_put (Z.to_nat a) r (mf_bytes f) = splice (mf_bytes f) (Z.to_nat a) r ∧ (length r <= length d)%nat).
  { intros r Hr Er. assert (Hlr : (length r <= length d)%nat) by (rewrite Er, length_take; lia). split; [|done].
    unfold mock_put. f_equal. apply zip_land_above; [done| |by apply Forall_take, Forall_drop|].
    - rewrite length_take, length_drop. lia.
    - replace (length r) with (length r `min` length d)%nat at 1 by lia. rewrite <- take_take, Hff.
      replace (length d) with (length r + (length d - length r))%nat by lia.
      rewrite repeat_app, take_app_length'; [done|]. by rewrite repeat_length. }
  case_match eqn:Ec; simplify_eq; (split; [|split]).
  + destruct (Hput (take (length d / 2) d)) as [-> Hle]; [by apply Forall_take|by rewrite length_take, <- take_take, firstn_all|].
    split; [|split; [by apply splice_octets, Forall_take|done]]. cbn [mock_step mf_bytes]. rewrite length_splice by lia. done.
  + destruct (Hput (take (length d / 2) d)) as [Hp Hle]; [by apply Forall_take|by rewrite length_take, <- take_take, firstn_all|].
    exists (take (length d / 2) d ++ drop (length (take (length d / 2) d)) (take (length d) (drop (Z.to_nat a) (mf_bytes f)))).
    split; [|split; [|done]].
    * cbn [mock_step mf_bytes]. rewrite Hp. by apply (half_splice _ _ _ (length d)); lia.
    * rewrite length_app, length_drop, Hff, repeat_length. lia.
  + intros _ _ _. by destruct (mf_faulty f).
  + destruct (Hput d Hd) as [-> _]; [by rewrite firstn_all|].
    split; [|split; [by apply splice_octets|done]]. cbn [mock_step mf_bytes]. rewrite length_splice by lia. done.
  + destruct (Hput d Hd) as [Hp _]; [by rewrite firstn_all|]. by exists d.
  + done.
Qed.

Lemma mock_erase_law b f a ok f' :
  mock_good b f → flash_erase a (a + Z.of_nat ERASE_SIZE) f = (ok, f') → 0 <= a →
  (Z.to_nat a + ERASE_SIZE <= length (mf_bytes f))%nat →
  mock_good b f' ∧
  (∃ r, mf_bytes f' = splice (mf_bytes f) (Z.to_nat a) r ∧ length r = ERASE_SIZE ∧ (ok = true → r = repeat 0xFF ERASE_SIZE)) ∧
  (ok = false → is_multiple_of (Z.to_nat a) ERASE_SIZE = true → b = true).
Proof.
  intros (Hl & Ho & Hb) E Ha Hn.
  cbn [flash_erase ERASE_SIZE MockFlash_NorFlash] in *. unfold mock_fails, mock_sector in *.
  replace (a + Z.of_nat 256 - a) with 256 in E by lia. change (Z.to_nat 256) with 256%nat in E.
  assert (Hw : length (take 256 (drop (Z.to_nat a) (mf_bytes f))) = 256%nat).
  { rewrite length_take, length_drop. lia. }
  case_match eqn:Ec; [|case_match eqn:Ef]; simplify_eq; (split; [|split]).
  + done.
  + exists (take 256 (drop (Z.to_nat a) (mf_bytes f))). split; [|done]. simpl.
    unfold splice. rewrite Hw. rewrite <- (take_drop (Z.to_nat a) (mf_bytes f)) at 1. f_equal.
    rewrite <- (take_drop 256 (drop (Z.to_nat a) (mf_bytes f))) at 1. by rewrite drop_drop.
  + intros _ Hm. apply is_multiple_of_divide in Hm.
    rewrite (proj2 (Nat.ltb_ge _ _)), !(proj2 (is_multiple_of_divide _ _)) in Ec; try done; [|lia].
    rewrite Z2Nat.inj_add by lia. apply Nat.divide_add_r; [done|by exists 1%nat].
  + split; [|split; [apply splice_octets; [done|apply ones_octets]|done]]. cbn [mock_step mf_bytes].
    rewrite length_splice; [done|]. rewrite repeat_length. change (256 / 2)%nat with 128%nat. lia.
  + exists (repeat 0xFF 128 ++ drop 128 (take 256 (drop (Z.to_nat a) (mf_bytes f)))). split; [|split; [|done]].
    * cbn [mock_step mf_bytes]. change (256 / 2)%nat with 128%nat. apply (half_splice _ _ (repeat 0xFF 128) 256); [lia|].
      rewrite repeat_length. lia.
    * by rewrite length_app, length_drop, Hw.
  + intros _ _. by destruct (mf_faulty f).
  + split; [|split; [apply splice_octets; [done|apply ones_octets]|done]]. cbn [mock_step mf_bytes].
    rewrite length_splice; [done|]. rewrite repeat_length. lia.
  + by exists (repeat 0xFF 256).
  + done.
Qed.

#[export] Instance mock_lawful (b : bool) : LawfulFlash MockFlash mf_bytes (mock_good b) (b = true).
Proof.
  split.
  - split; [unfold PAGE_HEADER_SIZE; simpl; unfold mock_sector; lia|by exists 64%nat].
  - intros f (Hl & _). simpl. rewrite Hl. done.
  - intros f (_ & Ho & _). done.
  - intros f a n r f' (Hl & Ho & Hb) E Ha Hn. simpl in E. unfold mock_fails in E. rewrite Hb in E.
    case_match eqn:Ec; simplify_eq; (split; [done|]); (split; [done|]); simpl; [|done]. intros Hm1 Hm2. 
    rewrite Hm1, Hm2, (proj2 (Nat.ltb_ge _ _)) in Ec by lia. destruct (mf_faulty f); [done|]. by destruct (mf_left f).
  - intros f a d ok f'. apply mock_write_law.
  - intros f a ok f'. apply mock_erase_law.
Qed.

(** * Properties *)

(** The store opened again, and again when power fails while it opens. *)
Inductive reopened {F} `{NorFlash F} (bytes : F → list Z) (good : F → Prop) (s : LogStructuredNv F) :
    outcome NvError unit → LogStructuredNv F → Prop :=
| RoOpen f r s' : good f → bytes f = bytes (ln_flash s) → log_nv_new f (ln_page_a s) (ln_page_b s) = (r, s') →
    reopened bytes good s r s'
| RoAgain e s1 f r s' : reopened bytes good s (Err e) s1 → good f → bytes f = bytes (ln_flash s1) →
    log_nv_new f (ln_page_a s1) (ln_page_b s1) = (r, s') → reopened bytes good s r s'.

Lemma reopened_clean {F} `{NorFlash F} (bytes : F → list Z) (good : F → Prop) (may_fail : Prop)
    `{!LawfulFlash F bytes good may_fail} (s : LogStructuredNv F) act oth h items r s' :
  stored_at bytes good s act oth h items → idle bytes s oth → reopened bytes good s r s' →
  opened bytes good may_fail True act oth h items r s'.
Proof.
  intros Hst Hi Hr.
  assert (Hstep : ∀ s0 f r s', stored_at bytes good s0 act oth h items → idle bytes s0 oth → good f →
    bytes f = bytes (ln_flash s0) → log_nv_new f (ln_page_a s0) (ln_page_b s0) = (r, s') →
    opened bytes good may_fail True act oth h items r s').
  { intros s0 f r0 s0' Hst0 Hi0 Hf Hb E. destruct (reopen bytes good may_fail s0 f act oth h items r0 s0' Hst0 Hf Hb E) as (Ho1 & Ho2 & Ho3).
    split; [done|]. split; [|done]. intros _. by apply Ho2. }
  induction Hr as [f r s' Hf Hb E|e s1 f r s' _ IH Hf Hb E]; [by eapply (Hstep s)|].
  destruct IH as (_ & Hc & _). destruct (Hc I) as [Hst1 Hi1]. by eapply (Hstep s1).
Qed.

(** The store opened again after a cut-off operation left anything in its
    range, and again when the opening is cut off: each time the remains on the
    other page do not read as a page as new as the log's generation [g]. *)
Inductive recovered {F} `{NorFlash F} (bytes : F → list Z) (good : F → Prop) (act g : Z) (s : LogStructuredNv F) :
    outcome NvError unit → LogStructuredNv F → Prop :=
| RcOpen f r s' : unmistaken bytes s act g → good f → bytes f = bytes (ln_flash s) →
    log_nv_new f (ln_page_a s) (ln_page_b s) = (r, s') → recovered bytes good act g s r s'
| RcAgain e s1 f r s' : recovered bytes good act g s (Err e) s1 → unmistaken bytes s1 act g → good f →
    bytes f = bytes (ln_flash s1) → log_nv_new f (ln_page_a s1) (ln_page_b s1) = (r, s') → recovered bytes good act g s r s'.

Lemma recovered_opened {F} `{NorFlash F} (bytes : F → list Z) (good : F → Prop) (may_fail : Prop)
    `{!LawfulFlash F bytes good may_fail} (s : LogStructuredNv F) act oth h items r s' :
  intact_at bytes good s act oth h items → log_state h items ≠ PsEmpty →
  recovered bytes good act (default 0 h) s r s' → ∃ clean, opened bytes good may_fail clean act oth h items r s'.
Proof.
  intros Hia Hns Hr. induction Hr as [f r s' Hu Hf Hb E|e s1 f r s' _ IH Hu Hf Hb E].
  - exists (idle bytes s oth).
    apply (reopen bytes good may_fail s f); [by apply intact_stored|done|done|done].
  - destruct IH as (clean & Hia1 & _). exists (idle bytes s1 oth).
    apply (reopen bytes good may_fail s1 f); [by apply intact_stored|done|done|done].
Qed.

(** C3. Compaction survives a power failure: from a store that holds [m] and
    has been written to, whatever flash operation is cut off and whatever it
    leaves in its range, one page carries a whole log of [m], under its
    generation [g].  A page header written only in part is never taken for a
    committed page as new: on a device whose erases complete the other page
    reads as a committed one only under a generation behind [g].  And a store opened
    afterwards, also one whose opening is itself cut off any number of times,
    holds exactly [m], as long as what a cut-off operation left on the other
    page does not happen to read as a page header as new as [g]; opening
    reports nothing but a failing medium.  Compaction that succeeds, or is
    refused for lack of room, holds [m] without any such proviso; nothing
    panics. *)
Theorem compaction_crash_safe {F} `{NorFlash F} (bytes : F → list Z) (good : F → Prop) (may_fail : Prop)
    `{!LawfulFlash F bytes good may_fail} (s : LogStructuredNv F) (m : nv_map) :
  nv_ok bytes good s m → formatted bytes s →
  ∃ r s' act g, compact s = (r, s') ∧
    match r with Ok _ | Err NvFull => nv_ok bytes good s' m | Err NvHardwareError => may_fail | _ => False end ∧
    intact bytes good s' m act g ∧
    (erases_complete bytes good →
       ∀ p g', is_page (ln_page_a s') (ln_page_b s') p → p ≠ act →
         header_state (take 16 (page_of bytes (ln_flash s') p)) = PsCommitted g' →
         0 < (g - g') mod 4294967296 < 2147483648) ∧
    ∀ r2 s2, recovered bytes good act g s' r2 s2 →
      match r2 with Ok _ => nv_ok bytes good s2 m | Err e => e = NvHardwareError ∧ may_fail | Panic => False end.
Proof.
  intros (oth & h & items & Hst & _ & -> & Hwo & Hgen) Hf. pose proof (formatted_state bytes good may_fail s oth h items Hst Hf) as Hns.
  destruct (proj1 (wp_run _ _ _) (wp_compact bytes good may_fail s oth h items Hst Hwo Hgen)) as (r & s' & E & Hs & Hr).
  destruct (Hs Hns) as (act & oth' & h' & items' & Hia & Hns' & Hm & Hbelow).
  exists r, s', act, (default 0 h'). split; [done|]. split; [|split; [|split]].
  - destruct r as [u|e|]; [apply Hr|by destruct e; naive_solver|done].
  - by exists oth', h', items'.
  - intros Hc p g' Hp Hpa Hg'. pose proof (intact_other _ _ _ _ _ _ _ _ Hia Hp Hpa) as ->. by apply (Hbelow Hc).
  - intros r2 s2 Hro. destruct (recovered_opened bytes good may_fail s' act oth' h' items' r2 s2 Hia Hns' Hro) as (clean & _ & _ & Ho).
    by rewrite Hm.
Qed.

(** C4. The store refines a finite map: a device never written to opens as the
    empty map unless the medium fails; then over any history of valid
    operations the answers are those of the map, up to a failure of the
    medium, and closing and opening the store again gives the same map. *)
Theorem log_nv_refines_map {F} `{NorFlash F} (bytes : F → list Z) (good : F → Prop) (may_fail : Prop)
    `{!LawfulFlash F bytes good may_fail} (f : F) (pa pb : Z) (ops : list nv_op) :
  geometry bytes good f pa pb → (∀ p, is_page pa pb p → page_of bytes f p = repeat 0xFF ERASE_SIZE) →
  Forall op_valid ops →
  ∃ r s, log_nv_new f pa pb = (r, s) ∧
    match r with
    | Ok _ =>
        ∃ l s', nv_run ops s = (l, s') ∧
          ((∃ m, map_run ∅ ops l m ∧
              ∀ r2 s2, reopened bytes good s' r2 s2 → r2 = Ok () ∧ nv_ok bytes good s2 m ∨ r2 = Err NvHardwareError ∧ may_fail) ∨
           (may_fail ∧ ∃ n l' m, l = l' ++ [Some (NvFailed NvHardwareError)] ∧ map_run ∅ (take n ops) l' m))
    | Err e => e = NvHardwareError ∧ may_fail
    | Panic => False
    end.
Proof.
  intros Hg Hff Hv. pose proof (fresh_stored bytes good may_fail f pa pb Hg Hff) as Hst.
  destruct (log_nv_new f pa pb) as [r s] eqn:E. exists r, s. split; [done|].
  destruct (reopen bytes good may_fail _ f _ _ _ _ r s Hst (ge_good _ _ _ _ _ Hg) eq_refl E) as (_ & _ & Ho).
  destruct r as [u|e|]; [|done|done].
  pose proof (log_laws bytes good may_fail) as Hlaws.
  destruct (nv_store_refines_map (nv_ok bytes good) may_fail ops s ∅ Ho Hv) as (l & s' & El & Hl).
  exists l, s'. split; [done|]. destruct Hl as [(m & Hrun & Hok)|Hbad]; [|by right]. left. exists m. split; [done|].
  destruct Hok as (oth & h & items & Hst' & Hi & -> & _).
  intros r2 s2 Hro. destruct (reopened_clean bytes good may_fail s' _ oth h items r2 s2 Hst' Hi Hro) as (_ & _ & Ho2).
  destruct r2 as [[]|e|]; [by left|right|done]. by destruct Ho2 as [-> ?].
Qed.

(** C39. Room: on a medium that does not fail, writing an item either succeeds,
    binding just that identifier, or reports a full store, which happens only
    when the live items, the page header and the new item do not fit one
    sector, and then the contents are as before. *)
Theorem log_nv_write_room {F} `{NorFlash F} (bytes : F → list Z) (good : F → Prop)
    `{!LawfulFlash F bytes good False} (s : LogStructuredNv F) (m : nv_map) (id : NvItemId) (d : list Z) :
  nv_ok bytes good s m → nv_value d → d ≠ [] →
  ∃ r s', log_nv_write id d s = (r, s') ∧
    match r with
    | Ok _ => nv_ok bytes good s' (<[id := d]> m)
    | Err e => e = NvFull ∧ nv_ok bytes good s' m ∧ (ERASE_SIZE < 16 + live_size m + item_size d)%nat
    | Panic => False
    end.
Proof.
  intros Hok Hd Hne. destruct (proj1 (wp_run _ _ _) (wp_append_item bytes good False s m id d Hok Hd)) as (r & s' & E & Hr).
  exists r, s'. split; [done|]. destruct r as [u|e|]; [|by destruct e; naive_solver|done].
  unfold log_step in Hr. simpl in Hr. by rewrite decide_False in Hr.
Qed.

(** A store with one item, on a device that fails in the middle of the next
    compaction, and on one that does not fail. *)
Definition ex_device (faulty : bool) : MockFlash :=
  mk_MockFlash (item_bytes NwkChannel [15] ++ repeat 0xFF 500) 5 faulty false.
Definition ex_store (faulty : bool) : LogStructuredNv MockFlash := mk_LogStructuredNv (ex_device faulty) 0 256 0 12 0.

Lemma ex_geometry faulty : geometry mf_bytes (mock_good faulty) (ex_device faulty) 0 256.
Proof.
  split; [|done|done| |simpl; unfold mock_sector; lia|].
  - split; [done|]. split; [|done]. apply Forall_app. split; [apply item_bytes_octets; repeat constructor; done|apply ones_octets].
  - split; [by exists 0%nat|by exists 1%nat].
  - split; [by exists 1%nat|by exists 4%nat].
Qed.

Lemma ex_store_ok faulty : nv_ok mf_bytes (mock_good faulty) (ex_store faulty) {[NwkChannel := [15]]}.
Proof.
  exists 256, None, [(NwkChannel, [15])]. split; [|done]. split; [split|..]; nv_fields; try done.
  - apply ex_geometry.
  - by left.
  - by exists 244%nat.
  - repeat constructor; simpl; unfold NV_MAX_ITEM; lia.
  - by right.
Qed.

(** The same store on a device whose erases are sure and which fails in the
    middle of the commit word. *)
Definition mock_writes (f : MockFlash) : Prop := mock_good true f ∧ mf_erases f = true.

#[export] Instance mock_writes_lawful : LawfulFlash MockFlash mf_bytes mock_writes True.
Proof.
  destruct (mock_lawful true) as [H1 H2 H3 H4 H5 H6].
  split; [done|by intros f [? _]; apply H2|by intros f [? _]; apply H3|..].
  - intros f a n r f' [Hg He] E Ha Hn. destruct (H4 f a n r f' Hg E Ha Hn) as (? & ? & Hr). split; [|by destruct r].
    split; [done|]. cbn [flash_read MockFlash_NorFlash] in E. clear -E He. case_match; by injection E as <- <-.
  - intros f a d ok f' [Hg He] E Ha Hn Hd Hff. destruct (H5 f a d ok f' Hg E Ha Hn Hd Hff) as (? & ? & _). split; [|done].
    split; [done|]. cbn [flash_write MockFlash_NorFlash] in E. clear -E He. repeat case_match; by injection E as <- <-.
  - intros f a ok f' [Hg He] E Ha Hn. destruct (H6 f a ok f' Hg E Ha Hn) as (? & ? & _). split; [|done].
    split; [done|]. cbn [flash_erase MockFlash_NorFlash] in E. rewrite He, andb_false_r in E.
    clear -E He. case_match; by injection E as <- <-.
Qed.

Lemma mock_writes_erases : erases_complete mf_bytes mock_writes.
Proof.
  intros f p f' [[Hl _] He] Hp Hn Hd E. cbn [flash_erase ERASE_SIZE MockFlash_NorFlash] in E, Hn, Hd.
  rewrite He, andb_false_r in E. rewrite (proj2 (Nat.ltb_ge _ _)), !(proj2 (is_multiple_of_divide _ _)) in E; try done.
  - rewrite Z2Nat.inj_add by lia. rewrite Nat2Z.id. apply Nat.divide_add_r; [done|by exists 1%nat].
  - lia.
Qed.

Definition ex_cut : LogStructuredNv MockFlash :=
  mk_LogStructuredNv (mk_MockFlash (mf_bytes (ex_device true)) 10 true true) 0 256 0 12 0.

Lemma ex_cut_ok : nv_ok mf_bytes mock_writes ex_cut {[NwkChannel := [15]]}.
Proof.
  exists 256, None, [(NwkChannel, [15])]. split; [|done]. split; [split|..]; nv_fields; try done.
  - destruct (ex_geometry true) as [[Hl [Ho _]] ? ? ? ? ?]. split; try done.
  - by left.
  - by exists 244%nat.
  - repeat constructor; simpl; unfold NV_MAX_ITEM; lia.
  - by right.
Qed.

(** The commit word is cut off in the middle: the old page has the log, the
    new one is no committed page, and the store opens with its item. *)
Lemma compaction_crash_safe_witness :
  let s := ex_cut in
  (compact s).1 = Err NvHardwareError ∧
  take 16 (drop 256 (mf_bytes (ln_flash (compact s).2))) = PAGE_MAGIC ++ [1; 0; 0; 0; 254; 255; 255; 255; 0x43; 0x4D; 0xFF; 0xFF] ∧
  (log_nv_new (mk_MockFlash (mf_bytes (ln_flash (compact s).2)) 20 true true) 0 256).1 = Ok () ∧
  erases_complete mf_bytes mock_writes ∧
  ∃ r s' act g, compact s = (r, s') ∧
    match r with
    | Ok _ | Err NvFull => nv_ok mf_bytes mock_writes s' {[NwkChannel := [15]]}
    | Err NvHardwareError => True
    | _ => False
    end ∧
    intact mf_bytes mock_writes s' {[NwkChannel := [15]]} act g ∧
    (erases_complete mf_bytes mock_writes →
       ∀ p g', is_page (ln_page_a s') (ln_page_b s') p → p ≠ act →
         header_state (take 16 (page_of mf_bytes (ln_flash s') p)) = PsCommitted g' →
         0 < (g - g') mod 4294967296 < 2147483648) ∧
    ∀ r2 s2, recovered mf_bytes mock_writes act g s' r2 s2 →
      match r2 with
      | Ok _ => nv_ok mf_bytes mock_writes s2 {[NwkChannel := [15]]}
      | Err e => e = NvHardwareError ∧ True
      | Panic => False
      end.
Proof.
  split; [by vm_compute|]. split; [by vm_compute|]. split; [by vm_compute|]. split; [apply mock_writes_erases|].
  apply (compaction_crash_safe mf_bytes mock_writes True); [apply ex_cut_ok|by vm_compute].
Defined.

Lemma log_nv_refines_map_witness :
  let ops := [NvWrite NwkKey [1; 2]; NvWrite NwkKey [3]; NvRead NwkKey [0; 0]; NvCompact; NvDelete NwkKey; NvExists NwkKey] in
  ∃ r s, log_nv_new (mock_fresh 0 false) 0 256 = (r, s) ∧
    match r with
    | Ok _ =>
        ∃ l s', nv_run ops s = (l, s') ∧
          ((∃ m, map_run ∅ ops l m ∧
              ∀ r2 s2, reopened mf_bytes (mock_good false) s' r2 s2 →
                r2 = Ok () ∧ nv_ok mf_bytes (mock_good false) s2 m ∨ r2 = Err NvHardwareError ∧ false = true) ∨
           (false = true ∧ ∃ n l' m, l = l' ++ [Some (NvFailed NvHardwareError)] ∧ map_run ∅ (take n ops) l' m))
    | Err e => e = NvHardwareError ∧ false = true
    | Panic => False
    end.
Proof.
  apply (log_nv_refines_map mf_bytes (mock_good false) (false = true)).
  - destruct (ex_geometry false). split; try done. split; [done|]. split; [apply ones_octets|done].
  - by intros p [-> | ->].
  - repeat constructor; simpl; unfold NV_MAX_ITEM; try lia; done.
Defined.

#[export] Instance mock_reliable : LawfulFlash MockFlash mf_bytes (mock_good false) False.
Proof.
  destruct (mock_lawful false) as [H1 H2 H3 H4 H5 H6]. split; try done.
  - intros f a n r f' Hg E Ha Hn. destruct (H4 f a n r f' Hg E Ha Hn) as (? & ? & Hr). split; [done|]. split; [done|].
    destruct r; [done|]. intros Hm1 Hm2. by specialize (Hr Hm1 Hm2).
  - intros f a d ok f' Hg E Ha Hn Hd Hff. destruct (H5 f a d ok f' Hg E Ha Hn Hd Hff) as (? & ? & Hr).
    split; [done|]. split; [done|]. intros Hok Hm1 Hm2. by specialize (Hr Hok Hm1 Hm2).
  - intros f a ok f' Hg E Ha Hn. destruct (H6 f a ok f' Hg E Ha Hn) as (? & ? & Hr).
    split; [done|]. split; [done|]. intros Hok Hm. by specialize (Hr Hok Hm).
Qed.

Lemma log_nv_write_room_witness :
  ∃ r s', log_nv_write NwkPanId [1; 2] (ex_store false) = (r, s') ∧
    match r with
    | Ok _ => nv_ok mf_bytes (mock_good false) s' (<[NwkPanId := [1; 2]]> {[NwkChannel := [15]]})
    | Err e => e = NvFull ∧ nv_ok mf_bytes (mock_good false) s' {[NwkChannel := [15]]} ∧
        (ERASE_SIZE < 16 + live_size {[NwkChannel := [15%Z]]} + item_size [1%Z; 2%Z])%nat
    | Panic => False
    end.
Proof.
  apply (log_nv_write_room mf_bytes (mock_good false)); [apply ex_store_ok| |done].
  split; [repeat constructor; done|simpl; unfold NV_MAX_ITEM; lia].
Defined.

(** Appending is not protected like compaction.  A deletion interrupted after
    the identifier leaves a length of all ones: the store cannot be opened any
    more, although all its items are there. *)
Definition torn_device : MockFlash := mk_MockFlash (item_bytes NwkChannel [15] ++ repeat 0xFF 500) 0 true false.
Example torn_delete_locks_store :
  let '(r, s) := log_nv_delete NwkPanId (mk_LogStructuredNv torn_device 0 256 0 12 0) in
  r = Err NvHardwareError ∧ (log_nv_new (mock_restart (ln_flash s)) 0 256).1 = Err NvCorrupt.
Proof. by vm_compute. Qed.

(** A write interrupted behind the item header is found as a complete item:
    the old value is gone and the new one is half there. *)
Example torn_write_is_read_back :
  let '(r, s) := log_nv_write NwkChannel (repeat 1 16) (mk_LogStructuredNv torn_device 0 256 0 12 0) in
  let '(r', s') := log_nv_new (mock_restart (ln_flash s)) 0 256 in
  r = Err NvHardwareError ∧ r' = Ok () ∧
  (log_nv_read NwkChannel (repeat 0 16) s').1 = Ok (16%nat, repeat 1 4 ++ repeat 0xFF 12).
Proof. by vm_compute. Qed.

(** The compaction of a store never written to, interrupted in the commit,
    leaves no valid page. *)
Example torn_first_compaction :
  let '(r, s) := compact (mk_LogStructuredNv (mock_fresh 3 true) 0 256 0 0 0) in
  r = Err NvHardwareError ∧ (log_nv_new (mock_restart (ln_flash s)) 0 256).1 = Err NvCorrupt.
Proof. by vm_compute. Qed.

(** Why compaction's promise has a proviso: remains that happen to read as a
    committed page with a newer generation are taken for the store. *)
Example mistaken_remains_open :
  let a := page_header 1 ++ item_bytes NwkChannel [15] in
  let b := page_header 2 in
  let f := mk_MockFlash (a ++ repeat 0xFF (256 - length a) ++ b ++ repeat 0xFF 240) 0 false false in
  let '(r, s) := log_nv_new f 0 256 in
  r = Ok () ∧ ln_active_page s = 256 ∧ (log_nv_exists NwkChannel s).1 = Ok false.
Proof. by vm_compute. Qed.
