(* ===== verification/ZclValues.v ===== *)
(** * ZCL data types and values

    [zigbee-zcl/src/data_types.rs]: the data type tags, the typed values, their
    little-endian wire format and the comparison with a reportable change.  A
    floating-point value is kept as its bits; its arithmetic is the IEEE 754
    arithmetic of the Standard Library's [SpecFloat].  The build features
    [float32] and [float64] are the class [ZclFeatures]. *)

From Stdlib Require Import SpecFloat.
From S2P Require Import Prelude Effects.
Local Open Scope Z_scope.

(** * Data types *)

Inductive ZclDataType :=
| DtNoData | DtBool | DtBitmap8 | DtBitmap16 | DtBitmap32 | DtBitmap64
| DtU8 | DtU16 | DtU24 | DtU32 | DtU48 | DtU64
| DtI8 | DtI16 | DtI32 | DtI64 | DtEnum8 | DtEnum16
| DtFloat16 | DtFloat32 | DtFloat64
| DtOctetString | DtCharString | DtOctetString16 | DtCharString16
| DtArray | DtStruct | DtSet | DtBag
| DtTimeOfDay | DtDate | DtUtcTime | DtClusterId | DtAttributeId | DtBacNetOid
| DtIeeeAddr | DtSecurityKey128.

#[export] Instance ZclDataType_eq_dec : EqDecision ZclDataType.
Proof. solve_decision. Defined.

(** [dt as u8] *)
Definition data_type_code (dt : ZclDataType) : Z :=
  match dt with
  | DtNoData => 0x00 | DtBool => 0x10
  | DtBitmap8 => 0x18 | DtBitmap16 => 0x19 | DtBitmap32 => 0x1B | DtBitmap64 => 0x1F
  | DtU8 => 0x20 | DtU16 => 0x21 | DtU24 => 0x22 | DtU32 => 0x23 | DtU48 => 0x25 | DtU64 => 0x27
  | DtI8 => 0x28 | DtI16 => 0x29 | DtI32 => 0x2B | DtI64 => 0x2F
  | DtEnum8 => 0x30 | DtEnum16 => 0x31
  | DtFloat16 => 0x38 | DtFloat32 => 0x39 | DtFloat64 => 0x3A
  | DtOctetString => 0x41 | DtCharString => 0x42 | DtOctetString16 => 0x43 | DtCharString16 => 0x44
  | DtArray => 0x48 | DtStruct => 0x4C | DtSet => 0x50 | DtBag => 0x51
  | DtTimeOfDay => 0xE0 | DtDate => 0xE1 | DtUtcTime => 0xE2
  | DtClusterId => 0xE8 | DtAttributeId => 0xE9 | DtBacNetOid => 0xEA
  | DtIeeeAddr => 0xF0 | DtSecurityKey128 => 0xF1
  end.

Definition data_type_from_u8 (val : Z) : option ZclDataType :=
  match val with
  | 0x00 => Some DtNoData
  | 0x10 => Some DtBool
  | 0x18 => Some DtBitmap8
  | 0x19 => Some DtBitmap16
  | 0x1B => Some DtBitmap32
  | 0x1F => Some DtBitmap64
  | 0x20 => Some DtU8
  | 0x21 => Some DtU16
  | 0x22 => Some DtU24
  | 0x23 => Some DtU32
  | 0x25 => Some DtU48
  | 0x27 => Some DtU64
  | 0x28 => Some DtI8
  | 0x29 => Some DtI16
  | 0x2B => Some DtI32
  | 0x2F => Some DtI64
  | 0x30 => Some DtEnum8
  | 0x31 => Some DtEnum16
  | 0x38 => Some DtFloat16
  | 0x39 => Some DtFloat32
  | 0x3A => Some DtFloat64
  | 0x41 => Some DtOctetString
  | 0x42 => Some DtCharString
  | 0x43 => Some DtOctetString16
  | 0x44 => Some DtCharString16
  | 0x48 => Some DtArray
  | 0x4C => Some DtStruct
  | 0x50 => Some DtSet
  | 0x51 => Some DtBag
  | 0xE0 => Some DtTimeOfDay
  | 0xE1 => Some DtDate
  | 0xE2 => Some DtUtcTime
  | 0xE8 => Some DtClusterId
  | 0xE9 => Some DtAttributeId
  | 0xEA => Some DtBacNetOid
  | 0xF0 => Some DtIeeeAddr
  | 0xF1 => Some DtSecurityKey128
  | _ => None
  end.

Definition in_range (a b x : Z) : bool := (a <=? x) && (x <=? b).

Definition data_type_size (dt : ZclDataType) : option nat :=
  let t := data_type_code dt in
  if t =? 0x00 then Some 0%nat
  else if in_range 0x08 0x37 t then Some (Z.to_nat (Z.land t 7) + 1)%nat
  else if in_range 0x38 0x3A t then Some (Z.to_nat (Z.shiftl 2 (t - 0x38)))
  else if (t =? 0xE8) || (t =? 0xE9) then Some 2%nat
  else if in_range 0xE0 0xEA t then Some 4%nat
  else if (t =? 0xF0) || (t =? 0xF1) then Some (Z.to_nat (Z.shiftl 8 (t - 0xF0)))
  else None.

(** The build features. *)
Class ZclFeatures := { feature_float32 : bool; feature_float64 : bool }.

Definition is_data_type_enabled `{ZclFeatures} (dt : ZclDataType) : bool :=
  match dt with DtFloat32 => feature_float32 | DtFloat64 => feature_float64 | _ => true end.

Definition is_analog_type (dt : ZclDataType) : bool :=
  match dt with
  | DtU8 | DtU16 | DtU24 | DtU32 | DtU48 | DtU64 | DtI8 | DtI16 | DtI32 | DtI64
  | DtFloat16 | DtFloat32 | DtFloat64 | DtUtcTime | DtTimeOfDay | DtDate => true
  | _ => false
  end.

Definition is_discrete_type (dt : ZclDataType) : bool := negb (is_analog_type dt).

(** * Values *)

Definition MAX_STRING_LEN : nat := 32.

Inductive ZclValue :=
| ZvNoData
| ZvBool (v : bool)
| ZvBitmap8 (v : Z) | ZvBitmap16 (v : Z) | ZvBitmap32 (v : Z) | ZvBitmap64 (v : Z)
| ZvU8 (v : Z) | ZvU16 (v : Z) | ZvU24 (v : Z) | ZvU32 (v : Z) | ZvU48 (v : Z) | ZvU64 (v : Z)
| ZvI8 (v : Z) | ZvI16 (v : Z) | ZvI32 (v : Z) | ZvI64 (v : Z)
| ZvEnum8 (v : Z) | ZvEnum16 (v : Z)
| ZvFloat16 (v : Z) | ZvFloat32 (v : Z) | ZvFloat64 (v : Z)
| ZvOctetString (v : list Z) | ZvCharString (v : list Z)
| ZvUtcTime (v : Z) | ZvIeeeAddr (v : Z) | ZvSecurityKey128 (v : list Z).

#[export] Instance ZclValue_eq_dec : EqDecision ZclValue.
Proof. solve_decision. Defined.

Definition zv_data_type (v : ZclValue) : ZclDataType :=
  match v with
  | ZvNoData => DtNoData | ZvBool _ => DtBool
  | ZvBitmap8 _ => DtBitmap8 | ZvBitmap16 _ => DtBitmap16 | ZvBitmap32 _ => DtBitmap32 | ZvBitmap64 _ => DtBitmap64
  | ZvU8 _ => DtU8 | ZvU16 _ => DtU16 | ZvU24 _ => DtU24 | ZvU32 _ => DtU32 | ZvU48 _ => DtU48 | ZvU64 _ => DtU64
  | ZvI8 _ => DtI8 | ZvI16 _ => DtI16 | ZvI32 _ => DtI32 | ZvI64 _ => DtI64
  | ZvEnum8 _ => DtEnum8 | ZvEnum16 _ => DtEnum16
  | ZvFloat16 _ => DtFloat16 | ZvFloat32 _ => DtFloat32 | ZvFloat64 _ => DtFloat64
  | ZvOctetString _ => DtOctetString | ZvCharString _ => DtCharString
  | ZvUtcTime _ => DtUtcTime | ZvIeeeAddr _ => DtIeeeAddr | ZvSecurityKey128 _ => DtSecurityKey128
  end.

(** [x as uW] and [x as iW] of an integer cast. *)
Definition as_unsigned (w : Z) (x : Z) : Z := x mod 2 ^ w.
Definition as_signed (w : Z) (x : Z) : Z :=
  let y := x mod 2 ^ w in if y <? 2 ^ (w - 1) then y else y - 2 ^ w.

(** [to_le_bytes] of an [n] octet integer, and [from_le_bytes]. *)
Fixpoint le_bytes (n : nat) (x : Z) : list Z :=
  match n with O => [] | S n => x mod 256 :: le_bytes n (x / 256) end.
Fixpoint le_val (l : list Z) : Z :=
  match l with [] => 0 | b :: l => b + 256 * le_val l end.

(** [scalar_le]: the octets of the value as [u64], and how many count. *)
Definition scalar_le (v : ZclValue) : list Z * nat :=
  let '(v, n) :=
    match v with
    | ZvBool v => (Z.b2z v, 1%nat)
    | ZvU8 v | ZvEnum8 v | ZvBitmap8 v => (v, 1%nat)
    | ZvI8 v => (as_unsigned 8 v, 1%nat)
    | ZvU16 v | ZvEnum16 v | ZvBitmap16 v | ZvFloat16 v => (v, 2%nat)
    | ZvI16 v => (as_unsigned 16 v, 2%nat)
    | ZvU24 v => (v, 3%nat)
    | ZvU32 v | ZvUtcTime v | ZvBitmap32 v => (v, 4%nat)
    | ZvI32 v => (as_unsigned 32 v, 4%nat)
    | ZvFloat32 v => (v, 4%nat)
    | ZvU48 v => (v, 6%nat)
    | ZvU64 v | ZvIeeeAddr v | ZvBitmap64 v => (v, 8%nat)
    | ZvI64 v => (as_unsigned 64 v, 8%nat)
    | ZvFloat64 v => (v, 8%nat)
    | ZvNoData | ZvOctetString _ | ZvCharString _ | ZvSecurityKey128 _ => (0, 0%nat)
    end in
  (le_bytes 8 v, n).

Definition wire_len (v : ZclValue) : nat :=
  match v with
  | ZvOctetString v | ZvCharString v => (1 + length v)%nat
  | ZvSecurityKey128 _ => 16%nat
  | _ => (scalar_le v).2
  end.

(** * Writing into a buffer

    A serializer works on [&mut [u8]]: what it wrote stays when it gives up. *)
Notation writer := (stm (list Z) unit).

(** [buf.get_mut(a..b)?] *)
Definition get_range (a b : nat) : writer (list Z) :=
  buf ← get_st; lift (try_opt (slice_get buf a b)).
(** [buf[a..b].copy_from_slice(src)] and [buf[i] = v] *)
Definition put_slice {E} (a : nat) (src : list Z) : stm (list Z) E unit :=
  buf ← get_st; buf ← lift (copy_from_slice buf a (a + length src) src); modify_st (λ _, buf).
Definition put_octet {E} (i : nat) (v : Z) : stm (list Z) E unit :=
  buf ← get_st; buf ← lift (put buf i v); modify_st (λ _, buf).
(** A writer on [&mut buf[pos..]], which aborts when [pos] is out of range. *)
Definition on_rest {A} (pos : nat) (w : writer A) : writer A := λ buf,
  if (pos <=? length buf)%nat then let '(r, rest) := w (drop pos buf) in (r, take pos buf ++ rest) else (Panic, buf).
(** A writer on [buf.get_mut(pos..)?]. *)
Definition on_rest_opt {A} (pos : nat) (w : writer A) : writer A := λ buf,
  if (pos <=? length buf)%nat then on_rest pos w buf else (Err (), buf).

Definition try_serialize (v : ZclValue) : writer nat :=
  '(p, src) ← match v with
    | ZvOctetString v | ZvCharString v => mret (true, v)
    | ZvSecurityKey128 k => mret (false, k)
    | _ => let '(le, n) := scalar_le v in src ← lift (slice le 0 n); mret (false, src)
    end;
  let n := (Nat.b2n p + length src)%nat in
  _ ← get_range 0 n;
  _ ← (if p : bool then put_octet 0 (as_u8 (Z.of_nat (length src))) else mret ());
  _ ← put_slice (Nat.b2n p) src;
  mret n.

(** [.unwrap_or(0)] *)
Definition or_zero (w : writer nat) : writer nat :=
  r ← try_st w; mret (match r with inl n => n | inr _ => 0%nat end).

Definition zv_serialize (v : ZclValue) : writer nat := or_zero (try_serialize v).

(** The value of a fixed-size type whose octets are the [u64] [u]. *)
Definition scalar_value `{ZclFeatures} (dt : ZclDataType) (u : Z) : fallible ZclValue :=
  match dt with
  | DtNoData => Ok ZvNoData
  | DtBool => Ok (ZvBool (negb (u =? 0)))
  | DtU8 => Ok (ZvU8 (as_unsigned 8 u))
  | DtEnum8 => Ok (ZvEnum8 (as_unsigned 8 u))
  | DtBitmap8 => Ok (ZvBitmap8 (as_unsigned 8 u))
  | DtI8 => Ok (ZvI8 (as_signed 8 u))
  | DtU16 => Ok (ZvU16 (as_unsigned 16 u))
  | DtEnum16 => Ok (ZvEnum16 (as_unsigned 16 u))
  | DtBitmap16 => Ok (ZvBitmap16 (as_unsigned 16 u))
  | DtFloat16 => Ok (ZvFloat16 (as_unsigned 16 u))
  | DtI16 => Ok (ZvI16 (as_signed 16 u))
  | DtU24 => Ok (ZvU24 (as_unsigned 32 u))
  | DtU32 => Ok (ZvU32 (as_unsigned 32 u))
  | DtBitmap32 => Ok (ZvBitmap32 (as_unsigned 32 u))
  | DtUtcTime => Ok (ZvUtcTime (as_unsigned 32 u))
  | DtI32 => Ok (ZvI32 (as_signed 32 u))
  | DtU48 => Ok (ZvU48 u)
  | DtU64 => Ok (ZvU64 u)
  | DtBitmap64 => Ok (ZvBitmap64 u)
  | DtIeeeAddr => Ok (ZvIeeeAddr u)
  | DtI64 => Ok (ZvI64 (as_signed 64 u))
  | DtFloat32 => if feature_float32 then Ok (ZvFloat32 (as_unsigned 32 u)) else Err ()
  | DtFloat64 => if feature_float64 then Ok (ZvFloat64 u) else Err ()
  | _ => Err ()
  end.

Definition deserialize `{ZclFeatures} (dt : ZclDataType) (data : list Z) : fallible (ZclValue * nat) :=
  if negb (is_data_type_enabled dt) then Err ()
  else if bool_decide (dt = DtOctetString) || bool_decide (dt = DtCharString) then
    len ← try_opt (data !! 0%nat);
    let len := Z.to_nat len in
    bytes ← try_opt (slice_get data 1 (1 + len));
    v ← (if (length bytes <=? MAX_STRING_LEN)%nat then Ok bytes else Err ());
    Ok (if bool_decide (dt = DtOctetString) then ZvOctetString v else ZvCharString v, (1 + len)%nat)
  else
    n ← try_opt (data_type_size dt);
    b ← try_opt (slice_get data 0 n);
    if bool_decide (dt = DtSecurityKey128) then
      key ← copy_from_slice (repeat 0 16) 0 16 b;
      Ok (ZvSecurityKey128 key, 16%nat)
    else
      le ← copy_from_slice (repeat 0 8) 0 n b;
      let u := le_val le in
      value ← scalar_value dt u;
      Ok (value, n).

Definition serialize_value (val : ZclValue) : writer nat := zv_serialize val.
Definition parse_value `{ZclFeatures} (data_type : ZclDataType) (data : list Z) : fallible (ZclValue * nat) :=
  deserialize data_type data.

(** * Floating point *)

(** [from_bits] for a format with [mw] fraction and [ew] exponent bits. *)
Definition float_from_bits (mw ew : Z) (bits : Z) : spec_float :=
  let sign := Z.testbit bits (mw + ew) in
  let exp := Z.land (Z.shiftr bits mw) (2 ^ ew - 1) in
  let man := Z.land bits (2 ^ mw - 1) in
  let emin := emin (mw + 1) (2 ^ (ew - 1)) in
  if exp =? 0 then match man with Zpos m => S754_finite sign m emin | _ => S754_zero sign end
  else if exp =? 2 ^ ew - 1 then (if man =? 0 then S754_infinity sign else S754_nan)
  else match man + 2 ^ mw with Zpos m => S754_finite sign m (exp - 1 + emin) | _ => S754_nan end.

Definition f32_from_bits : Z → spec_float := float_from_bits 23 8.
Definition f64_from_bits : Z → spec_float := float_from_bits 52 11.

Definition is_nan (x : spec_float) : bool := match x with S754_nan => true | _ => false end.
Definition is_finite (x : spec_float) : bool := match x with S754_nan | S754_infinity _ => false | _ => true end.
Definition is_negative (x : spec_float) : bool := SFltb x (S754_zero false).
(** [f32::max] on numbers. *)
Definition float_max (x y : spec_float) : spec_float := if SFltb x y then y else x.

(** [f16_to_f32]: a subnormal is its fraction times [2^-24]. *)
Definition f16_to_f32 (h : Z) : spec_float :=
  let sign := Z.shiftl (Z.land h 0x8000) 16 in
  let exp := Z.land (Z.shiftr h 10) 0x1F in
  let man := Z.land h 0x3FF in
  if exp =? 0 then
    if man =? 0 then f32_from_bits sign
    else
      let v := SFmul 24 128 (binary_normalize 24 128 man 0 false) (S754_finite false 8388608 (-47)) in
      if negb (sign =? 0) then SFopp v else v
  else if exp =? 0x1F then f32_from_bits (Z.lor (Z.lor sign 0x7F800000) (Z.shiftl man 13))
  else f32_from_bits (Z.lor (Z.lor sign (Z.shiftl (exp + 112) 23)) (Z.shiftl man 13)).

(** The common text of [float32_exceeds_threshold] and
    [float64_exceeds_threshold]: a format and its [EPSILON]. *)
Definition float_exceeds_threshold (prec emax : Z) (epsilon : spec_float) (current previous threshold : spec_float) : bool :=
  if negb (is_finite current) || negb (is_finite previous) then
    if is_nan current && is_nan previous then false else negb (SFeqb current previous)
  else if SFeqb current previous || negb (is_finite threshold) || is_negative threshold then false
  else
    let difference := SFabs (SFsub prec emax current previous) in
    let two := binary_normalize prec emax 2 0 false in
    let rounding_tolerance :=
      SFmul prec emax (SFmul prec emax epsilon (float_max (float_max (SFabs current) (SFabs previous)) threshold)) two in
    SFleb threshold difference || SFleb (SFsub prec emax threshold difference) rounding_tolerance.

Definition float32_exceeds_threshold : spec_float → spec_float → spec_float → bool :=
  float_exceeds_threshold 24 128 (S754_finite false 8388608 (-46)).
Definition float64_exceeds_threshold : spec_float → spec_float → spec_float → bool :=
  float_exceeds_threshold 53 1024 (S754_finite false 4503599627370496 (-104)).

(** The derived [PartialEq]: floats compare as numbers. *)
Definition zv_eq (a b : ZclValue) : bool :=
  match a, b with
  | ZvFloat32 a, ZvFloat32 b => SFeqb (f32_from_bits a) (f32_from_bits b)
  | ZvFloat64 a, ZvFloat64 b => SFeqb (f64_from_bits a) (f64_from_bits b)
  | _, _ => bool_decide (a = b)
  end.

(** [int_bits]: the integer as [u64], and whether it is signed. *)
Definition int_bits (v : ZclValue) : option (Z * bool) :=
  match v with
  | ZvU8 v => Some (v, false)
  | ZvU16 v => Some (v, false)
  | ZvU24 v | ZvU32 v | ZvUtcTime v => Some (v, false)
  | ZvU48 v | ZvU64 v => Some (v, false)
  | ZvI8 v => Some (as_unsigned 64 v, true)
  | ZvI16 v => Some (as_unsigned 64 v, true)
  | ZvI32 v => Some (as_unsigned 64 v, true)
  | ZvI64 v => Some (as_unsigned 64 v, true)
  | _ => None
  end.

(** The last [match] of [exceeds_threshold]. *)
Definition exceeds_other `{ZclFeatures} (self other threshold : ZclValue) : bool :=
  match self, other, threshold with
  | ZvFloat16 a, ZvFloat16 b, ZvFloat16 t =>
      if feature_float32 then float32_exceeds_threshold (f16_to_f32 a) (f16_to_f32 b) (f16_to_f32 t)
      else negb (zv_eq self other)
  | ZvFloat32 a, ZvFloat32 b, _ =>
      if feature_float32 then
        match threshold with
        | ZvFloat32 t => float32_exceeds_threshold (f32_from_bits a) (f32_from_bits b) (f32_from_bits t)
        | _ => negb (zv_eq self other)
        end
      else negb (a =? b)
  | ZvFloat64 a, ZvFloat64 b, _ =>
      if feature_float64 then
        match threshold with
        | ZvFloat64 t => float64_exceeds_threshold (f64_from_bits a) (f64_from_bits b) (f64_from_bits t)
        | _ => negb (zv_eq self other)
        end
      else negb (a =? b)
  | _, _, _ => negb (zv_eq self other)
  end.

(** [core::mem::discriminant] equality. *)
Definition same_variant (a b : ZclValue) : bool := bool_decide (zv_data_type a = zv_data_type b).

Definition exceeds_threshold `{ZclFeatures} (self other threshold : ZclValue) : bool :=
  match same_variant self other && same_variant self threshold, int_bits self, int_bits other, int_bits threshold with
  | true, Some (a, signed), Some (b, _), Some (t, _) =>
      let '(diff, t) :=
        if signed : bool then (Z.abs (as_signed 64 a - as_signed 64 b), Z.abs (as_signed 64 t))
        else (Z.abs (a - b), t) in
      negb (diff =? 0) && (t <=? diff)
  | _, _, _, _ => exceeds_other self other threshold
  end.

(** * The values of the types *)

(** A value of the Rust type: integers in the range of their type, strings
    within their capacity. *)
Definition zv_wf (v : ZclValue) : Prop :=
  match v with
  | ZvNoData | ZvBool _ => True
  | ZvBitmap8 v | ZvU8 v | ZvEnum8 v => is_u8 v
  | ZvBitmap16 v | ZvU16 v | ZvEnum16 v | ZvFloat16 v => is_u16 v
  | ZvBitmap32 v | ZvU24 v | ZvU32 v | ZvFloat32 v | ZvUtcTime v => is_u32 v
  | ZvBitmap64 v | ZvU48 v | ZvU64 v | ZvFloat64 v | ZvIeeeAddr v => 0 <= v < 2 ^ 64
  | ZvI8 v => - 2 ^ 7 <= v < 2 ^ 7
  | ZvI16 v => - 2 ^ 15 <= v < 2 ^ 15
  | ZvI32 v => - 2 ^ 31 <= v < 2 ^ 31
  | ZvI64 v => - 2 ^ 63 <= v < 2 ^ 63
  | ZvOctetString v | ZvCharString v => Forall is_u8 v ∧ (length v <= MAX_STRING_LEN)%nat
  | ZvSecurityKey128 k => Forall is_u8 k ∧ length k = 16%nat
  end.

(** A value its wire format can hold: the 24 and 48 bit integers fit. *)
Definition zv_fits (v : ZclValue) : Prop :=
  zv_wf v ∧ match v with ZvU24 v => v < 2 ^ 24 | ZvU48 v => v < 2 ^ 48 | _ => True end.

(** The wire format. *)
Definition zv_octets (v : ZclValue) : list Z :=
  match v with
  | ZvOctetString v | ZvCharString v => Z.of_nat (length v) :: v
  | ZvSecurityKey128 k => k
  | _ => let '(le, n) := scalar_le v in take n le
  end.

(** The types with a value representation. *)
Definition storable `{ZclFeatures} (dt : ZclDataType) : bool :=
  is_data_type_enabled dt &&
  match dt with
  | DtOctetString16 | DtCharString16 | DtArray | DtStruct | DtSet | DtBag
  | DtTimeOfDay | DtDate | DtClusterId | DtAttributeId | DtBacNetOid => false
  | _ => true
  end.

#[local] Instance default_features : ZclFeatures := {| feature_float32 := true; feature_float64 := true |}.

Example f16_one_and_subnormal :
  f16_to_f32 0x3C00 = f32_from_bits 0x3F800000 ∧ f16_to_f32 0x0001 = f32_from_bits 0x33800000
  ∧ f16_to_f32 0x83FF = f32_from_bits 0xB87FC000.
Proof. by vm_compute. Qed.

Example thresholds :
  exceeds_threshold (ZvI64 (- 2 ^ 63)) (ZvI64 (2 ^ 63 - 1)) (ZvI64 (- 2 ^ 63)) = true
  ∧ exceeds_threshold (ZvFloat32 0x3F8CCCCD) (ZvFloat32 0x3F800000) (ZvFloat32 0x3DCCCCCD) = true
  ∧ exceeds_threshold (ZvFloat32 0x7FC00000) (ZvFloat32 0x7FC00001) (ZvFloat32 0) = false
  ∧ exceeds_threshold (ZvFloat16 0x3C00) (ZvFloat16 0x4000) (ZvFloat16 0x4200) = false.
Proof. by vm_compute. Qed.

(** * Little-endian integers *)

Lemma length_le_bytes n x : length (le_bytes n x) = n.
Proof. revert x. induction n; intros; simpl; auto. Qed.

Lemma le_bytes_octets n x : Forall is_u8 (le_bytes n x).
Proof. revert x. induction n; intros; simpl; constructor; [ulia|done]. Qed.

Lemma take_le_bytes k n x : (k <= n)%nat → take k (le_bytes n x) = le_bytes k x.
Proof.
  revert n x. induction k as [|k IH]; intros [|n] x Hle; [done|done|lia|].
  simpl. f_equal. apply IH. lia.
Qed.

Lemma le_val_le_bytes n x : le_val (le_bytes n x) = x mod 256 ^ Z.of_nat n.
Proof.
  revert x. induction n as [|n IH]; intros x; [by rewrite Z.mod_1_r|].
  cbn [le_bytes le_val]. rewrite IH, Nat2Z.inj_succ, Z.pow_succ_r, Z.rem_mul_r by lia. lia.
Qed.

Lemma le_val_app_zeros l k : le_val (l ++ repeat 0 k) = le_val l.
Proof.
  induction l as [|b l IH]; [|simpl; by rewrite IH].
  induction k as [|k IH]; [done|]. simpl in *. by rewrite IH.
Qed.

Lemma le_val_range l : Forall is_u8 l → 0 <= le_val l < 256 ^ Z.of_nat (length l).
Proof.
  induction 1 as [|b l Hb _ IH]; [simpl; lia|].
  cbn [le_val length]. rewrite Nat2Z.inj_succ, Z.pow_succ_r by lia. ulia.
Qed.

Lemma le_bytes_le_val l : Forall is_u8 l → le_bytes (length l) (le_val l) = l.
Proof.
  induction 1 as [|b l Hb Hl IH]; [done|]. cbn [length le_bytes le_val].
  rewrite (Z.mul_comm 256), Z_mod_plus_full, Z.div_add, (Z.mod_small b), (Z.div_small b) by (done || lia).
  by rewrite Z.add_0_l, IH.
Qed.

Lemma as_signed_unsigned w x : 0 < w → - 2 ^ (w - 1) <= x < 2 ^ (w - 1) → as_signed w (as_unsigned w x) = x.
Proof.
  intros Hw Hx. unfold as_signed, as_unsigned. rewrite Z.mod_mod by lia.
  assert (2 ^ w = 2 * 2 ^ (w - 1)) as -> by (rewrite <- Z.pow_succ_r by lia; f_equal; lia).
  destruct (Z_lt_ge_dec x 0).
  - rewrite <- (Z_mod_plus_full x 1), Z.mod_small by lia. destruct (Z.ltb_spec (x + 1 * (2 * 2 ^ (w - 1))) (2 ^ (w - 1))); lia.
  - rewrite Z.mod_small by lia. destruct (Z.ltb_spec x (2 ^ (w - 1))); lia.
Qed.

Lemma as_unsigned_signed w x : 0 < w → as_unsigned w (as_signed w x) = x mod 2 ^ w.
Proof.
  intros Hw. unfold as_signed, as_unsigned. destruct (Z.ltb_spec (x mod 2 ^ w) (2 ^ (w - 1))); [by rewrite Z.mod_mod by lia|].
  replace (x mod 2 ^ w - 2 ^ w) with (x mod 2 ^ w + (-1) * 2 ^ w) by lia. by rewrite Z_mod_plus_full, Z.mod_mod by lia.
Qed.

Lemma as_signed_range w x : 0 < w → - 2 ^ (w - 1) <= as_signed w x < 2 ^ (w - 1).
Proof.
  intros Hw. unfold as_signed. pose proof (Z.mod_pos_bound x (2 ^ w) ltac:(lia)).
  assert (2 ^ w = 2 * 2 ^ (w - 1)) by (rewrite <- Z.pow_succ_r by lia; f_equal; lia).
  destruct (Z.ltb_spec (x mod 2 ^ w) (2 ^ (w - 1))); lia.
Qed.

(** * Writers *)

(** [encodes w bs]: the writer [w] puts exactly [bs] at the front of its
    buffer and returns how much it wrote, or it gives up when there is no
    room. *)
Definition encodes (w : writer nat) (bs : list Z) : Prop :=
  ∀ buf, ((length bs <= length buf)%nat → w buf = (Ok (length bs), written bs buf)) ∧
    ((length buf < length bs)%nat → ∃ buf', w buf = (Err (), buf') ∧ length buf' = length buf).

(** The same, with the buffer untouched when there is no room. *)
Definition encodes_whole (w : writer nat) (bs : list Z) : Prop :=
  ∀ buf, w buf = if (length bs <=? length buf)%nat then (Ok (length bs), written bs buf) else (Err (), buf).

Lemma encodes_whole_encodes w bs : encodes_whole w bs → encodes w bs.
Proof.
  intros Hw buf. specialize (Hw buf). destruct (Nat.leb_spec (length bs) (length buf)); split; intros Hl; first [done | lia | eauto].
Qed.

Lemma stm_bind_Ok {S E A B} (m : stm S E A) (k : A → stm S E B) s a s' :
  m s = (Ok a, s') → (m ≫= k) s = k a s'.
Proof. intros Hm. unfold mbind, stm_bind. by rewrite Hm. Qed.

Lemma stm_bind_Err {S E A B} (m : stm S E A) (k : A → stm S E B) s e s' :
  m s = (Err e, s') → (m ≫= k) s = (Err e, s').
Proof. intros Hm. unfold mbind, stm_bind. by rewrite Hm. Qed.

Lemma get_range_eq n buf : get_range 0 n buf = (if (n <=? length buf)%nat then Ok (take n buf) else Err (), buf).
Proof.
  unfold get_range, slice_get. cbv [mbind stm_bind get_st lift]. rewrite drop_0, Nat.sub_0_r.
  change (0 <=? n)%nat with true. simpl. by destruct (n <=? length buf)%nat.
Qed.

Lemma put_slice_written {E} pre buf a s :
  a = length pre → (length pre + length s <= length buf)%nat →
  put_slice (E:=E) a s (written pre buf) = (Ok (), written (pre ++ s) buf).
Proof.
  intros -> Hl. unfold put_slice. cbv [mbind stm_bind get_st lift modify_st]. by rewrite (copy_written pre) by lia.
Qed.

Lemma put_octet_written {E} pre buf i v :
  i = length pre → (length pre < length buf)%nat → put_octet (E:=E) i v (written pre buf) = (Ok (), written (pre ++ [v]) buf).
Proof.
  intros -> Hl. unfold put_octet. cbv [mbind stm_bind get_st lift modify_st]. by rewrite (put_written pre).
Qed.


(** A writer behind what has been written. *)
Lemma on_rest_encodes pre w bs buf n :
  encodes w bs → n = length pre → (length pre + length bs <= length buf)%nat →
  on_rest n w (written pre buf) = (Ok (length bs), written (pre ++ bs) buf).
Proof.
  intros Hw -> Hl. unfold on_rest. rewrite length_written, (proj2 (Nat.leb_le _ _)) by lia.
  rewrite drop_written, take_written by done. rewrite (proj1 (Hw _)) by (rewrite length_drop; lia).
  unfold written. by rewrite drop_drop, length_app, app_assoc.
Qed.

Lemma on_rest_no_room pre w bs buf n :
  encodes w bs → n = length pre → (length pre <= length buf < length pre + length bs)%nat →
  ∃ buf', on_rest n w (written pre buf) = (Err (), buf') ∧ length buf' = length buf ∧ take n buf' = pre.
Proof.
  intros Hw -> Hl. unfold on_rest. rewrite length_written, (proj2 (Nat.leb_le _ _)) by lia.
  rewrite drop_written, take_written by done.
  destruct (proj2 (Hw (drop (length pre) buf))) as (rest & -> & Hlen); [rewrite length_drop; lia|].
  eexists. split; [done|]. rewrite length_app, Hlen, length_drop, take_app_length. split; [lia|done].
Qed.

(** * The wire format of values *)

Lemma length_zv_octets v : zv_wf v → length (zv_octets v) = wire_len v.
Proof. destruct v; simpl; try done. by intros [_ ?]. Qed.

Lemma zv_octets_octets v : zv_wf v → Forall is_u8 (zv_octets v).
Proof.
  destruct v; cbn [zv_octets scalar_le zv_wf]; intros Hv; try (apply Forall_take, le_bytes_octets).
  - destruct Hv as [Hv Hl]. constructor; [unfold MAX_STRING_LEN in Hl; ulia|done].
  - destruct Hv as [Hv Hl]. constructor; [unfold MAX_STRING_LEN in Hl; ulia|done].
  - apply Hv.
Qed.

(** The common tail of [try_serialize]. *)
Lemma put_prefixed_whole (p : bool) (src : list Z) :
  encodes_whole
    (_ ← get_range 0 (Nat.b2n p + length src);
     _ ← (if p then put_octet 0 (as_u8 (Z.of_nat (length src))) else mret ());
     _ ← put_slice (Nat.b2n p) src;
     mret (Nat.b2n p + length src)%nat)
    ((if p then [as_u8 (Z.of_nat (length src))] else []) ++ src).
Proof.
  intros buf.
  assert (length ((if p then [as_u8 (Z.of_nat (length src))] else []) ++ src) = Nat.b2n p + length src)%nat as -> by (by destruct p).
  pose proof (get_range_eq (Nat.b2n p + length src) buf) as Hg.
  destruct (Nat.leb_spec (Nat.b2n p + length src) (length buf)) as [Hl|Hl].
  - erewrite stm_bind_Ok by exact Hg. destruct p; cbn [Nat.b2n] in *.
    + erewrite stm_bind_Ok; [|apply (put_octet_written [] buf); [done|simpl; lia]].
      erewrite stm_bind_Ok; [|apply put_slice_written; [done|simpl; lia]]. done.
    + erewrite stm_bind_Ok by done. erewrite stm_bind_Ok; [|apply (put_slice_written [] buf); [done|simpl; lia]]. done.
  - by erewrite stm_bind_Err by exact Hg.
Qed.

Lemma try_serialize_whole v : zv_wf v → encodes_whole (try_serialize v) (zv_octets v).
Proof.
  intros Hwf. destruct v; try (apply (put_prefixed_whole false)); simpl in Hwf;
    pose proof (put_prefixed_whole true v) as Hp; change (try_serialize _) with (try_serialize (ZvOctetString v));
    intros buf; unfold MAX_STRING_LEN in Hwf; (etrans; [exact (Hp buf)|]);
    (assert (as_u8 (Z.of_nat (length v)) = Z.of_nat (length v)) as Hu by ulia); by rewrite Hu.
Qed.

(** The octets [bs] are an encoding of [v]: any octet but zero is [true]. *)
Definition denotes (bs : list Z) (v : ZclValue) : Prop :=
  match v with ZvBool b => ∃ x, bs = [x] ∧ b = negb (x =? 0) | _ => bs = zv_octets v end.

Lemma le_bytes_val l n : length l = n → (n <= 8)%nat → Forall is_u8 l → take n (le_bytes 8 (le_val l)) = l.
Proof. intros <- Hn Hl. rewrite take_le_bytes by done. by apply le_bytes_le_val. Qed.

Lemma le_val_bytes x n : (n <= 8)%nat → 0 <= x < 256 ^ Z.of_nat n → le_val (take n (le_bytes 8 x)) = x.
Proof. intros Hn Hx. rewrite take_le_bytes, le_val_le_bytes by done. by apply Z.mod_small. Qed.

Lemma as_unsigned_small w x : 0 <= x < 2 ^ w → as_unsigned w x = x.
Proof. apply Z.mod_small. Qed.

Lemma le_bytes_signed w n l : 0 < w → 2 ^ w = 256 ^ Z.of_nat n → n = length l → (n <= 8)%nat → Forall is_u8 l →
  l = take n (le_bytes 8 (as_unsigned w (as_signed w (le_val l)))).
Proof.
  intros Hw Hwn -> Hn Hl. rewrite as_unsigned_signed by done. rewrite Z.mod_small by (rewrite Hwn; by apply le_val_range).
  by rewrite le_bytes_val.
Qed.

Section Decode.
Context `{ZclFeatures}.

Lemma scalar_value_sound dt bs v :
  data_type_size dt = Some (length bs) → Forall is_u8 bs → scalar_value dt (le_val bs) = Ok v →
  storable dt = true ∧ zv_data_type v = dt ∧ zv_fits v ∧ denotes bs v.
Proof.
  intros Hn Hbs Hv. pose proof (le_val_range bs Hbs) as Hr. remember (length bs) as n eqn:Hlen.
  destruct dt; try discriminate Hv; apply (inj Some) in Hn; vm_compute in Hn; rewrite <- Hn in Hr; subst n; simpl in Hv;
    try (destruct feature_float32 eqn:Hf; [|discriminate Hv]); try (destruct feature_float64 eqn:Hf'; [|discriminate Hv]);
    injection Hv as <-; (split; [unfold storable; simpl; rewrite ?Hf, ?Hf'; done|]); (split; [done|]).
  all: try (rewrite as_unsigned_small by (simpl in *; lia)).
  all: try (split; [unfold zv_fits; simpl in *; ulia|]).
  all: try (symmetry; apply (le_bytes_val bs); [done|lia|done]).
  - by destruct bs.
  - destruct bs as [|x [|y l]]; [done| |done]. exists x. split; [done|]. simpl. by rewrite Z.add_0_r.
  - split; [split; [apply (as_signed_range 8)|]; done|by apply le_bytes_signed; [| | |lia|]].
  - split; [split; [apply (as_signed_range 16)|]; done|by apply le_bytes_signed; [| | |lia|]].
  - split; [split; [apply (as_signed_range 32)|]; done|by apply le_bytes_signed; [| | |lia|]].
  - split; [split; [apply (as_signed_range 64)|]; done|by apply le_bytes_signed; [| | |lia|]].
Qed.

Lemma scalar_value_complete bs v n :
  storable (zv_data_type v) = true → data_type_size (zv_data_type v) = Some n → (n <= 8)%nat →
  zv_fits v → denotes bs v → scalar_value (zv_data_type v) (le_val bs) = Ok v ∧ length bs = n.
Proof.
  intros Hs Hn Hn8 [Hwf Hfit] Hd. destruct v; try discriminate Hn; vm_compute in Hn; injection Hn as <-; try lia;
    cbn [denotes zv_octets scalar_le zv_data_type zv_wf] in *.
  1:{ by subst bs. }
  1:{ destruct Hd as (x & -> & ->). split; [|done]. simpl. by rewrite Z.add_0_r. }
  all: unfold storable in Hs; simpl in Hs; try (apply andb_true_iff in Hs as [Hs _]); subst bs;
    rewrite length_take, length_le_bytes; (split; [|done]); cbn [scalar_value]; rewrite ?Hs;
    rewrite le_val_bytes by (try lia; unfold as_unsigned; simpl; ulia); do 2 f_equal;
    try apply as_unsigned_small; try (apply as_signed_unsigned; [done|exact Hwf]); try (simpl in *; ulia).
Qed.

Lemma size_le_8 dt n : data_type_size dt = Some n → dt ≠ DtSecurityKey128 → (n <= 8)%nat.
Proof. by destruct dt; intros [= <-]; vm_compute; try lia. Qed.

Lemma pad_octets (b : list Z) n : length b = n → (n <= 8)%nat →
  copy_from_slice (E:=unit) (repeat 0 8) 0 n b = Ok (b ++ repeat 0 (8 - n)).
Proof.
  intros <- Hn. unfold copy_from_slice. rewrite repeat_length, Nat.sub_0_r, Nat.eqb_refl, (proj2 (Nat.leb_le (length b) 8)) by done.
  simpl. do 2 f_equal. by do 9 (destruct b; [done|]); simpl in Hn; lia.
Qed.

Lemma deserialize_no_panic dt data : Forall is_u8 data → deserialize dt data ≠ Panic.
Proof.
  intros Hd. unfold deserialize. destruct (is_data_type_enabled dt); [|done]. simpl.
  destruct (_ || _).
  - destruct (data !! 0%nat) as [len|]; [|done]. simpl. destruct (slice_get _ _ _) as [bytes|]; [|done]. simpl.
    by destruct (_ <=? _)%nat.
  - destruct (data_type_size dt) as [n|] eqn:Hn; [|done]. simpl.
    destruct (slice_get data 0 n) as [b|] eqn:Hb; [|done]. simpl. apply slice_get_length in Hb as Hl. rewrite Nat.sub_0_r in Hl.
    destruct (bool_decide (dt = DtSecurityKey128)) eqn:Hk; bool_simpl.
    + subst dt. injection Hn as <-. unfold copy_from_slice. by rewrite Hl.
    + rewrite pad_octets by eauto using size_le_8. simpl. rewrite le_val_app_zeros.
      destruct dt; simpl; try done; by case_match.
Qed.

Lemma deserialize_sound dt data v n :
  Forall is_u8 data → deserialize dt data = Ok (v, n) →
  storable dt = true ∧ zv_data_type v = dt ∧ zv_fits v ∧ ∃ bs rest, data = bs ++ rest ∧ n = length bs ∧ denotes bs v.
Proof.
  intros Hd. unfold deserialize. destruct (is_data_type_enabled dt) eqn:He; [|done]. cbn [negb].
  destruct (_ || _) eqn:Hs.
  - destruct data as [|len data]; [done|]. simpl. destruct (slice_get _ _ _) as [bytes|] eqn:Hb; [|done]. simpl.
    destruct (Nat.leb_spec (length bytes) MAX_STRING_LEN) as [Hl|]; [|done]. simpl. intros [= <- <-].
    apply slice_get_Some in Hb as [Hb ->]. apply Forall_cons in Hd as [Hlen Hd]. simpl in Hb, Hl |- *.
    rewrite Nat.sub_0_r, drop_0 in Hl |- *. rewrite length_take_le in Hl by lia.
    assert (dt = DtOctetString ∨ dt = DtCharString) as Hdt by (bool_simpl; auto).
    split; [by destruct Hdt as [-> | ->]|]. split; [by destruct Hdt as [-> | ->]|].
    split; [destruct Hdt as [-> | ->]; simpl; (split; [split; [by apply Forall_take|rewrite length_take; lia]|done])|].
    exists (len :: take (Z.to_nat len) data), (drop (Z.to_nat len) data). simpl. rewrite take_drop, length_take_le by lia.
    split; [done|]. split; [done|]. destruct Hdt as [-> | ->]; simpl; rewrite length_take_le by lia; f_equal; ulia.
  - destruct (data_type_size dt) as [m|] eqn:Hn; [|done]. simpl.
    destruct (slice_get data 0 m) as [b|] eqn:Hb; [|done]. simpl. apply slice_get_0 in Hb as (rest & -> & ->).
    apply Forall_app in Hd as [Hd _].
    destruct (bool_decide (dt = DtSecurityKey128)) eqn:Hk; bool_simpl.
    + subst dt. injection Hn as Hl. unfold copy_from_slice. rewrite <- Hl. simpl. intros [= <- <-].
      rewrite app_nil_r. split; [done|]. split; [done|]. split; [done|]. exists b, rest. by rewrite <- Hl.
    + rewrite pad_octets by eauto using size_le_8. simpl. rewrite le_val_app_zeros.
      destruct (scalar_value dt (le_val b)) as [v'| |] eqn:Hv; simpl; [|done|done]. intros [= <- <-].
      destruct (scalar_value_sound dt b v' Hn Hd Hv) as (? & ? & ? & ?). eauto 10.
Qed.

Lemma deserialize_complete bs rest v :
  storable (zv_data_type v) = true → zv_fits v → denotes bs v →
  deserialize (zv_data_type v) (bs ++ rest) = Ok (v, length bs).
Proof.
  intros Hs Hf Hd. unfold deserialize. assert (is_data_type_enabled (zv_data_type v) = true) as ->.
  { unfold storable in Hs. by apply andb_true_iff in Hs as [? _]. } cbn [negb].
  destruct (_ || _) eqn:Hstr.
  - assert (∃ s, v = ZvOctetString s ∨ v = ZvCharString s) as (s & Hv) by (bool_simpl; destruct v; naive_solver).
    assert (bs = Z.of_nat (length s) :: s ∧ Forall is_u8 s ∧ (length s <= MAX_STRING_LEN)%nat) as (-> & _ & Hl).
    { destruct Hf as [Hf _]. destruct Hv as [-> | ->]; simpl in *; naive_solver. }
    simpl. rewrite Nat2Z.id. rewrite (proj2 (slice_get_Some _ 1 (S (length s)) s)).
    2:{ split; [simpl; rewrite length_app; lia|]. simpl. by rewrite ?Nat.sub_0_r, ?drop_0, take_app_length. }
    simpl. rewrite (proj2 (Nat.leb_le _ _) Hl). simpl. by destruct Hv as [-> | ->].
  - destruct (data_type_size (zv_data_type v)) as [m|] eqn:Hn; [|by destruct v]. simpl.
    destruct (bool_decide (zv_data_type v = DtSecurityKey128)) eqn:Hk; bool_simpl.
    + destruct v; try discriminate Hk. vm_compute in Hn. injection Hn as <-. cbn [denotes zv_octets] in Hd. subst bs. destruct Hf as [[_ Hl] _].
      rewrite (proj2 (slice_get_0 (v ++ rest) 16 v)) by eauto. simpl. unfold copy_from_slice. rewrite Hl. simpl.
      by rewrite app_nil_r.
    + destruct (scalar_value_complete bs v m Hs Hn (size_le_8 _ _ Hn Hk) Hf Hd) as [Hv Hl].
      rewrite (proj2 (slice_get_0 (bs ++ rest) m bs)) by eauto. simpl.
      rewrite pad_octets by eauto using size_le_8. simpl. by rewrite le_val_app_zeros, Hv, Hl.
Qed.

(** C33. Decoding is exact: it succeeds exactly on the octets of a value that the
    type has and the build supports, and gives that value and its length; in
    no case does it abort. *)
Theorem zcl_value_decode_exact dt data v n :
  Forall is_u8 data →
  deserialize dt data ≠ Panic ∧
  (deserialize dt data = Ok (v, n) ↔
   storable dt = true ∧ zv_data_type v = dt ∧ zv_fits v ∧
   ∃ bs rest, data = bs ++ rest ∧ n = length bs ∧ denotes bs v).
Proof.
  intros Hd. split; [by apply deserialize_no_panic|]. split; [by apply deserialize_sound|].
  intros (Hs & <- & Hf & bs & rest & -> & -> & Hb). by apply deserialize_complete.
Qed.
End Decode.

(** Serializing and parsing a value: into a buffer with room the value is
    written at the front and read back as the same value with the same length,
    the rest of the buffer is untouched; without room nothing is written. *)
Theorem zcl_value_roundtrip `{ZclFeatures} v buf :
  zv_fits v → storable (zv_data_type v) = true →
  if (wire_len v <=? length buf)%nat then
    ∃ buf', zv_serialize v buf = (Ok (wire_len v), buf') ∧ length buf' = length buf ∧
      drop (wire_len v) buf' = drop (wire_len v) buf ∧
      deserialize (zv_data_type v) buf' = Ok (v, wire_len v)
  else zv_serialize v buf = (Ok 0%nat, buf).
Proof.
  intros Hf Hs. pose proof (proj1 Hf) as Hwf. pose proof (try_serialize_whole v Hwf buf) as He.
  rewrite (length_zv_octets v Hwf) in He. pose proof (length_zv_octets v Hwf) as Hl.
  unfold zv_serialize, or_zero, try_st. cbv [mbind stm_bind mret stm_ret]. rewrite He.
  destruct (Nat.leb_spec (wire_len v) (length buf)) as [Hle|Hlt]; [|done].
  eexists. split; [done|]. split; [apply length_written; lia|]. split; [by apply drop_written|].
  rewrite <- Hl. apply deserialize_complete; [done|done|].
  destruct v; cbn [denotes]; try done. destruct v; simpl; eauto.
Qed.

Lemma zcl_value_roundtrip_witness :
  ∃ buf', zv_serialize (ZvI32 (-2)) [1; 2; 3; 4; 5] = (Ok 4%nat, buf') ∧ length buf' = 5%nat ∧
    drop 4 buf' = [5] ∧ deserialize DtI32 buf' = Ok (ZvI32 (-2), 4%nat).
Proof. apply (zcl_value_roundtrip (ZvI32 (-2)) [1; 2; 3; 4; 5]); [split; simpl; lia|reflexivity]. Defined.

Lemma zcl_value_decode_exact_witness :
  deserialize DtCharString [2; 104; 105; 9] = Ok (ZvCharString [104; 105], 3%nat).
Proof.
  apply (zcl_value_decode_exact DtCharString [2; 104; 105; 9] (ZvCharString [104; 105]) 3);
    [repeat constructor; done|]. split; [done|]. split; [done|].
  split; [split; [split; [repeat constructor; done|simpl; unfold MAX_STRING_LEN; lia]|done]|].
  by exists [2; 104; 105], [9].
Defined.

(** * Reportable change *)

(** The integer a value stands for. *)
Definition int_value (v : ZclValue) : option Z :=
  match v with
  | ZvU8 v | ZvU16 v | ZvU24 v | ZvU32 v | ZvUtcTime v | ZvU48 v | ZvU64 v
  | ZvI8 v | ZvI16 v | ZvI32 v | ZvI64 v => Some v
  | _ => None
  end.

Lemma int_bits_value v x : zv_wf v → int_value v = Some x →
  ∃ u (s : bool), int_bits v = Some (u, s) ∧ (if s then as_signed 64 u else u) = x ∧ (s = false → 0 <= x).
Proof.
  destruct v; cbn [int_value int_bits zv_wf]; intros Hv [= ->]; do 2 eexists; (split; [reflexivity|]);
    simpl; (split; [|ulia || done]); try done; apply as_signed_unsigned; simpl; lia.
Qed.

(** C35. A change of an integer attribute is reportable exactly when the value
    changed by at least the magnitude of the threshold, over the whole range of
    the type; and no integer value is a change from itself. *)
Theorem exceeds_threshold_int `{ZclFeatures} self other threshold a b t :
  zv_wf self → zv_wf other → zv_wf threshold →
  zv_data_type other = zv_data_type self → zv_data_type threshold = zv_data_type self →
  int_value self = Some a → int_value other = Some b → int_value threshold = Some t →
  exceeds_threshold self other threshold = bool_decide (a ≠ b ∧ Z.abs t <= Z.abs (a - b)).
Proof.
  intros Hw1 Hw2 Hw3 Hd2 Hd3 Ha Hb Ht.
  destruct (int_bits_value self a Hw1 Ha) as (ua & s & Ea & Hua & Hsa).
  destruct (int_bits_value other b Hw2 Hb) as (ub & s2 & Eb & Hub & Hsb).
  destruct (int_bits_value threshold t Hw3 Ht) as (ut & s3 & Et & Hut & Hst).
  assert (s2 = s ∧ s3 = s) as [-> ->].
  { destruct self; try discriminate Ha; destruct other; try discriminate Hd2; destruct threshold; try discriminate Hd3;
      simpl in *; split; congruence. }
  unfold exceeds_threshold, same_variant. rewrite Hd2, Hd3, bool_decide_true by done. rewrite Ea, Eb, Et. simpl.
  destruct s; simpl in *; rewrite ?Hua, ?Hub, ?Hut; destruct (Z.eqb_spec (Z.abs (a - b)) 0) as [E|E]; simpl; symmetry.
  1, 3: apply bool_decide_eq_false; lia.
  - destruct (Z.leb_spec (Z.abs t) (Z.abs (a - b))); [apply bool_decide_eq_true|apply bool_decide_eq_false]; lia.
  - subst. specialize (Hst eq_refl). destruct (Z.leb_spec t (Z.abs (a - b))); [apply bool_decide_eq_true|apply bool_decide_eq_false]; lia.
Qed.

Lemma exceeds_threshold_int_witness :
  exceeds_threshold (ZvI64 (- 2 ^ 63)) (ZvI64 (2 ^ 63 - 1)) (ZvI64 (- 2 ^ 63)) = true.
Proof.
  apply (exceeds_threshold_int (ZvI64 (- 2 ^ 63)) (ZvI64 (2 ^ 63 - 1)) (ZvI64 (- 2 ^ 63)) (- 2 ^ 63) (2 ^ 63 - 1) (- 2 ^ 63));
    simpl; lia || reflexivity.
Defined.

(** Two floats of different formats are the same number. *)
Definition same_number (x y : spec_float) : bool :=
  match x, y with
  | S754_zero s, S754_zero s' | S754_infinity s, S754_infinity s' => Bool.eqb s s'
  | S754_nan, S754_nan => true
  | S754_finite s m e, S754_finite s' m' e' => Bool.eqb s s' && (Z.shiftl (Zpos m) (e + 64) =? Z.shiftl (Zpos m') (e' + 64))
  | _, _ => false
  end.

(** The conversion of a half-precision number is exact. *)
Lemma f16_to_f32_exact h : is_u16 h → same_number (f16_to_f32 h) (float_from_bits 10 5 h) = true.
Proof.
  intros Hh. pose proof (range_forall2 256 256 (λ x y, same_number (f16_to_f32 (x * 256 + y)) (float_from_bits 10 5 (x * 256 + y)))
    ltac:(by vm_compute) (h / 256) (h mod 256) ltac:(ulia) ltac:(ulia)) as Hx.
  cbv beta in Hx. by rewrite (Z.mul_comm _ 256), <- Z_div_mod_eq_full in Hx.
Qed.
