(* ===== verification/ZclFrame.v ===== *)
(** * ZCL frames

    [zigbee-zcl/src/frame.rs] with the identifiers and status codes of
    [lib.rs], the command identifiers of [foundation/mod.rs] and the Default
    Response of [foundation/default_response.rs]. *)

From S2P Require Import Prelude Effects ZclValues.
Local Open Scope Z_scope.

Inductive ClusterDirection := ClientToServer | ServerToClient.
#[export] Instance ClusterDirection_eq_dec : EqDecision ClusterDirection.
Proof. solve_decision. Defined.

Inductive ZclStatus :=
| StSuccess | StFailure | StNotAuthorized | StReservedFieldNotZero | StMalformedCommand
| StUnsupClusterCommand | StUnsupGeneralCommand | StUnsupManufacturerClusterCommand
| StUnsupManufacturerGeneralCommand | StInvalidField | StUnsupportedAttribute | StInvalidValue
| StReadOnly | StInsufficientSpace | StDuplicateExists | StNotFound | StUnreportableAttribute
| StInvalidDataType | StInvalidSelector | StWriteOnly | StInconsistentStartupState
| StDefinedOutOfBand | StInconsistent | StActionDenied | StTimeout | StAbort | StInvalidImage
| StWaitForData | StNoImageAvailable | StRequireMoreImage | StNotificationPending
| StHardwareFailure | StSoftwareFailure | StCalibrationError | StUnsupportedCluster.
#[export] Instance ZclStatus_eq_dec : EqDecision ZclStatus.
Proof. solve_decision. Defined.

(** [status as u8] *)
Definition status_code (s : ZclStatus) : Z :=
  match s with
  | StSuccess => 0x00 | StFailure => 0x01 | StNotAuthorized => 0x7E | StReservedFieldNotZero => 0x7F
  | StMalformedCommand => 0x80 | StUnsupClusterCommand => 0x81 | StUnsupGeneralCommand => 0x82
  | StUnsupManufacturerClusterCommand => 0x83 | StUnsupManufacturerGeneralCommand => 0x84
  | StInvalidField => 0x85 | StUnsupportedAttribute => 0x86 | StInvalidValue => 0x87 | StReadOnly => 0x88
  | StInsufficientSpace => 0x89 | StDuplicateExists => 0x8A | StNotFound => 0x8B
  | StUnreportableAttribute => 0x8C | StInvalidDataType => 0x8D | StInvalidSelector => 0x8E
  | StWriteOnly => 0x8F | StInconsistentStartupState => 0x90 | StDefinedOutOfBand => 0x91
  | StInconsistent => 0x92 | StActionDenied => 0x93 | StTimeout => 0x94 | StAbort => 0x95
  | StInvalidImage => 0x96 | StWaitForData => 0x97 | StNoImageAvailable => 0x98
  | StRequireMoreImage => 0x99 | StNotificationPending => 0x9A | StHardwareFailure => 0xC0
  | StSoftwareFailure => 0xC1 | StCalibrationError => 0xC2 | StUnsupportedCluster => 0xC3
  end.

Definition status_from_u8 (val : Z) : ZclStatus :=
  match val with
  | 0x00 => StSuccess
  | 0x01 => StFailure
  | 0x7E => StNotAuthorized
  | 0x7F => StReservedFieldNotZero
  | 0x80 => StMalformedCommand
  | 0x81 => StUnsupClusterCommand
  | 0x82 => StUnsupGeneralCommand
  | 0x83 => StUnsupManufacturerClusterCommand
  | 0x84 => StUnsupManufacturerGeneralCommand
  | 0x85 => StInvalidField
  | 0x86 => StUnsupportedAttribute
  | 0x87 => StInvalidValue
  | 0x88 => StReadOnly
  | 0x89 => StInsufficientSpace
  | 0x8A => StDuplicateExists
  | 0x8B => StNotFound
  | 0x8C => StUnreportableAttribute
  | 0x8D => StInvalidDataType
  | 0x8E => StInvalidSelector
  | 0x8F => StWriteOnly
  | 0x90 => StInconsistentStartupState
  | 0x91 => StDefinedOutOfBand
  | 0x92 => StInconsistent
  | 0x93 => StActionDenied
  | 0x94 => StTimeout
  | 0x95 => StAbort
  | 0x96 => StInvalidImage
  | 0x97 => StWaitForData
  | 0x98 => StNoImageAvailable
  | 0x99 => StRequireMoreImage
  | 0x9A => StNotificationPending
  | 0xC0 => StHardwareFailure
  | 0xC1 => StSoftwareFailure
  | 0xC2 => StCalibrationError
  | 0xC3 => StUnsupportedCluster
  | _ => StFailure
  end.

Inductive FoundationCommandId :=
| FcReadAttributes | FcReadAttributesResponse | FcWriteAttributes | FcWriteAttributesUndivided
| FcWriteAttributesResponse | FcWriteAttributesNoResponse | FcConfigureReporting
| FcConfigureReportingResponse | FcReadReportingConfig | FcReadReportingConfigResponse
| FcReportAttributes | FcDefaultResponse | FcDiscoverAttributes | FcDiscoverAttributesResponse
| FcDiscoverCommandsReceived | FcDiscoverCommandsReceivedResponse
| FcDiscoverCommandsGenerated | FcDiscoverCommandsGeneratedResponse
| FcDiscoverAttributesExtended | FcDiscoverAttributesExtendedResponse.

Definition foundation_command_code (c : FoundationCommandId) : Z :=
  match c with
  | FcReadAttributes => 0x00 | FcReadAttributesResponse => 0x01 | FcWriteAttributes => 0x02
  | FcWriteAttributesUndivided => 0x03 | FcWriteAttributesResponse => 0x04
  | FcWriteAttributesNoResponse => 0x05 | FcConfigureReporting => 0x06
  | FcConfigureReportingResponse => 0x07 | FcReadReportingConfig => 0x08
  | FcReadReportingConfigResponse => 0x09 | FcReportAttributes => 0x0A | FcDefaultResponse => 0x0B
  | FcDiscoverAttributes => 0x0C | FcDiscoverAttributesResponse => 0x0D
  | FcDiscoverCommandsReceived => 0x11 | FcDiscoverCommandsReceivedResponse => 0x12
  | FcDiscoverCommandsGenerated => 0x13 | FcDiscoverCommandsGeneratedResponse => 0x14
  | FcDiscoverAttributesExtended => 0x15 | FcDiscoverAttributesExtendedResponse => 0x16
  end.

Definition foundation_command_from_u8 (val : Z) : option FoundationCommandId :=
  match val with
  | 0x00 => Some FcReadAttributes
  | 0x01 => Some FcReadAttributesResponse
  | 0x02 => Some FcWriteAttributes
  | 0x03 => Some FcWriteAttributesUndivided
  | 0x04 => Some FcWriteAttributesResponse
  | 0x05 => Some FcWriteAttributesNoResponse
  | 0x06 => Some FcConfigureReporting
  | 0x07 => Some FcConfigureReportingResponse
  | 0x08 => Some FcReadReportingConfig
  | 0x09 => Some FcReadReportingConfigResponse
  | 0x0A => Some FcReportAttributes
  | 0x0B => Some FcDefaultResponse
  | 0x0C => Some FcDiscoverAttributes
  | 0x0D => Some FcDiscoverAttributesResponse
  | 0x11 => Some FcDiscoverCommandsReceived
  | 0x12 => Some FcDiscoverCommandsReceivedResponse
  | 0x13 => Some FcDiscoverCommandsGenerated
  | 0x14 => Some FcDiscoverCommandsGeneratedResponse
  | 0x15 => Some FcDiscoverAttributesExtended
  | 0x16 => Some FcDiscoverAttributesExtendedResponse
  | _ => None
  end.

(** * The frame header *)

Inductive ZclFrameType := FtGlobal | FtClusterSpecific.
#[export] Instance ZclFrameType_eq_dec : EqDecision ZclFrameType.
Proof. solve_decision. Defined.

Definition frame_type_code (t : ZclFrameType) : Z := match t with FtGlobal => 0x00 | FtClusterSpecific => 0x01 end.

Definition frame_type_from_u8 (val : Z) : option ZclFrameType :=
  match Z.land val 0x03 with 0x00 => Some FtGlobal | 0x01 => Some FtClusterSpecific | _ => None end.

Record ZclFrameHeader := mk_ZclFrameHeader {
  zh_frame_control : Z;
  zh_manufacturer_code : option Z;
  zh_seq_number : Z;
  zh_command_id : Z
}.

Definition FC_FRAME_TYPE_MASK : Z := 0x03.
Definition FC_MANUFACTURER_SPECIFIC : Z := Z.shiftl 1 2.
Definition FC_DIRECTION : Z := Z.shiftl 1 3.
Definition FC_DISABLE_DEFAULT_RESPONSE : Z := Z.shiftl 1 4.

Definition try_frame_type (h : ZclFrameHeader) : option ZclFrameType :=
  frame_type_from_u8 (Z.land (zh_frame_control h) FC_FRAME_TYPE_MASK).

Definition frame_type (h : ZclFrameHeader) : ZclFrameType := default FtClusterSpecific (try_frame_type h).

Definition is_manufacturer_specific (h : ZclFrameHeader) : bool := has_bits (zh_frame_control h) FC_MANUFACTURER_SPECIFIC.

Definition zh_direction (h : ZclFrameHeader) : ClusterDirection :=
  if has_bits (zh_frame_control h) FC_DIRECTION then ServerToClient else ClientToServer.

Definition disable_default_response (h : ZclFrameHeader) : bool := has_bits (zh_frame_control h) FC_DISABLE_DEFAULT_RESPONSE.

Definition manufacturer_specific_unsupported_status (h : ZclFrameHeader) : option ZclStatus :=
  if negb (is_manufacturer_specific h) then None
  else Some (match frame_type h with
    | FtGlobal => StUnsupManufacturerGeneralCommand
    | FtClusterSpecific => StUnsupManufacturerClusterCommand
    end).

Definition default_response_required (h : ZclFrameHeader) (status : ZclStatus) : bool :=
  let is_default_rsp := bool_decide (frame_type h = FtGlobal) && (zh_command_id h =? foundation_command_code FcDefaultResponse) in
  negb is_default_rsp && (bool_decide (status ≠ StSuccess) || negb (disable_default_response h)).

Definition build_frame_control (t : ZclFrameType) (manufacturer_specific : bool) (d : ClusterDirection)
    (disable : bool) : Z :=
  let fc := frame_type_code t in
  let fc := if manufacturer_specific then Z.lor fc FC_MANUFACTURER_SPECIFIC else fc in
  let fc := match d with ServerToClient => Z.lor fc FC_DIRECTION | ClientToServer => fc end in
  if disable then Z.lor fc FC_DISABLE_DEFAULT_RESPONSE else fc.

(** * Frames *)

Definition MAX_ZCL_PAYLOAD : nat := 128.

Record ZclFrame := mk_ZclFrame { zf_header : ZclFrameHeader; zf_payload : list Z }.

Inductive ZclFrameError := TooShort | PayloadTooLarge | InvalidFrameType.

(** The loop that pushes the payload. *)
Fixpoint push_payload (payload data : list Z) : outcome ZclFrameError (list Z) :=
  match data with
  | [] => Ok payload
  | b :: data =>
      match vec_push MAX_ZCL_PAYLOAD payload b with
      | Some payload => push_payload payload data
      | None => Err PayloadTooLarge
      end
  end.

Definition zcl_frame_parse (data : list Z) : outcome ZclFrameError ZclFrame :=
  if (length data <? 3)%nat then Err TooShort
  else
    frame_control ← index data 0;
    if negb (bool_decide (is_Some (frame_type_from_u8 frame_control))) then Err InvalidFrameType
    else
      let manufacturer_specific := has_bits frame_control FC_MANUFACTURER_SPECIFIC in
      let min_header := if manufacturer_specific then 5%nat else 3%nat in
      if (length data <? min_header)%nat then Err TooShort
      else
        '(manufacturer_code, seq_idx) ←
          (if manufacturer_specific then
             b1 ← index data 1; b2 ← index data 2; Ok (Some (u16_from_le b1 b2), 3%nat)
           else Ok (None, 1%nat));
        seq_number ← index data seq_idx;
        command_id ← index data (seq_idx + 1);
        payload_data ← slice data (seq_idx + 2) (length data);
        payload ← push_payload [] payload_data;
        Ok (mk_ZclFrame (mk_ZclFrameHeader frame_control manufacturer_code seq_number command_id) payload).

Definition zcl_frame_serialize (f : ZclFrame) : stm (list Z) ZclFrameError nat :=
  let h := zf_header f in
  let header_len := if bool_decide (is_Some (zh_manufacturer_code h)) then 5%nat else 3%nat in
  let total := (header_len + length (zf_payload f))%nat in
  buf ← get_st;
  if (length buf <? total)%nat then throw TooShort
  else
    _ ← put_octet 0 (zh_frame_control h);
    idx ← match zh_manufacturer_code h with
      | Some mfr =>
          b0 ← lift (index (u16_to_le mfr) 0); _ ← put_octet 1 b0;
          b1 ← lift (index (u16_to_le mfr) 1); _ ← put_octet 2 b1;
          mret 3%nat
      | None => mret 1%nat
      end;
    _ ← put_octet idx (zh_seq_number h);
    _ ← put_octet (idx + 1) (zh_command_id h);
    _ ← put_slice (idx + 2) (zf_payload f);
    mret (idx + 2 + length (zf_payload f))%nat.

Definition zcl_frame_new_global (seq command_id : Z) (d : ClusterDirection) (disable : bool) : ZclFrame :=
  mk_ZclFrame (mk_ZclFrameHeader (build_frame_control FtGlobal false d disable) None seq command_id) [].
Definition zcl_frame_new_cluster_specific (seq command_id : Z) (d : ClusterDirection) (disable : bool) : ZclFrame :=
  mk_ZclFrame (mk_ZclFrameHeader (build_frame_control FtClusterSpecific false d disable) None seq command_id) [].

(** * Default Response *)

Record DefaultResponse := mk_DefaultResponse { dr_command_id : Z; dr_status : ZclStatus }.

Definition default_response_parse (data : list Z) : fallible DefaultResponse :=
  if (length data <? 2)%nat then Err ()
  else c ← index data 0; s ← index data 1; Ok (mk_DefaultResponse c (status_from_u8 s)).

Definition default_response_serialize (r : DefaultResponse) : writer nat :=
  buf ← get_st;
  if (length buf <? 2)%nat then mret 0%nat
  else _ ← put_octet 0 (dr_command_id r); _ ← put_octet 1 (status_code (dr_status r)); mret 2%nat.

(** * Lemmas *)

Lemma status_from_code s : status_from_u8 (status_code s) = s.
Proof. by destruct s. Qed.

Lemma status_code_octet s : is_u8 (status_code s).
Proof. by destruct s. Qed.

Lemma data_type_from_code dt : data_type_from_u8 (data_type_code dt) = Some dt.
Proof. by destruct dt. Qed.

Lemma data_type_code_octet dt : is_u8 (data_type_code dt).
Proof. by destruct dt. Qed.

Lemma foundation_command_from_code c : foundation_command_from_u8 (foundation_command_code c) = Some c.
Proof. by destruct c. Qed.

Lemma data_type_from_Some x dt : is_u8 x → data_type_from_u8 x = Some dt → x = data_type_code dt.
Proof.
  intros Hx Hdt.
  pose proof (range_forall 256 (λ x, match data_type_from_u8 x with Some dt => x =? data_type_code dt | None => true end)
    ltac:(by vm_compute) x Hx) as H. cbv beta in H. rewrite Hdt in H. by apply Z.eqb_eq in H.
Qed.

(** The fields of a frame control octet are the ones it was built from. *)
Lemma build_frame_control_fields t m d r mfr seq cmd :
  let h := mk_ZclFrameHeader (build_frame_control t m d r) mfr seq cmd in
  try_frame_type h = Some t ∧ is_manufacturer_specific h = m ∧ zh_direction h = d ∧ disable_default_response h = r.
Proof. by destruct t, m, d, r. Qed.

Lemma push_payload_eq payload data :
  (length payload <= MAX_ZCL_PAYLOAD)%nat →
  push_payload payload data =
    if (length payload + length data <=? MAX_ZCL_PAYLOAD)%nat then Ok (payload ++ data) else Err PayloadTooLarge.
Proof.
  revert payload. induction data as [|b data IH]; intros payload Hl; simpl.
  { rewrite Nat.add_0_r, app_nil_r. by rewrite (proj2 (Nat.leb_le _ _) Hl). }
  unfold vec_push. destruct (Nat.ltb_spec (length payload) MAX_ZCL_PAYLOAD) as [Hlt|Hge].
  - rewrite IH, length_app by (rewrite length_app; simpl; lia). simpl. rewrite <- app_assoc. simpl.
    by replace (length payload + 1 + length data)%nat with (length payload + S (length data))%nat by lia.
  - by rewrite (proj2 (Nat.leb_gt _ _)) by lia.
Qed.

(** ** The frame format *)

Definition frame_octets (f : ZclFrame) : list Z :=
  zh_frame_control (zf_header f) ::
  match zh_manufacturer_code (zf_header f) with Some m => u16_to_le m | None => [] end ++
  zh_seq_number (zf_header f) :: zh_command_id (zf_header f) :: zf_payload f.

Record frame_wf (f : ZclFrame) : Prop := {
  fw_control : is_u8 (zh_frame_control (zf_header f));
  fw_type : is_Some (frame_type_from_u8 (zh_frame_control (zf_header f)));
  fw_manufacturer : match zh_manufacturer_code (zf_header f) with
    | Some m => is_u16 m ∧ is_manufacturer_specific (zf_header f) = true
    | None => is_manufacturer_specific (zf_header f) = false
    end;
  fw_seq : is_u8 (zh_seq_number (zf_header f));
  fw_command : is_u8 (zh_command_id (zf_header f));
  fw_payload : Forall is_u8 (zf_payload f) ∧ (length (zf_payload f) <= MAX_ZCL_PAYLOAD)%nat
}.

Lemma zcl_frame_parse_octets f : frame_wf f → zcl_frame_parse (frame_octets f) = Ok f.
Proof.
  intros [Hc [t Ht] Hm Hs Hcmd [Hp Hl]]. destruct f as [[fc mfr sq cmd] p]. unfold frame_octets, is_manufacturer_specific in *. simpl in *.
  unfold zcl_frame_parse. destruct mfr as [m|]; simpl; rewrite Ht, bool_decide_true by eauto; simpl.
  - destruct Hm as [Hm ->]. simpl. rewrite (u16_from_to_le m Hm). unfold slice, slice_get. simpl. rewrite Nat.leb_refl, Nat.sub_0_r, drop_0, firstn_all.
    cbn [mbind outcome_bind]. rewrite push_payload_eq by (simpl; lia). simpl. by rewrite (proj2 (Nat.leb_le _ _) Hl).
  - rewrite Hm. simpl. unfold slice, slice_get. simpl. rewrite Nat.leb_refl, Nat.sub_0_r, drop_0, firstn_all.
    cbn [mbind outcome_bind]. rewrite push_payload_eq by (simpl; lia). simpl. by rewrite (proj2 (Nat.leb_le _ _) Hl).
Qed.

Lemma zcl_frame_parse_sound data f :
  Forall is_u8 data → zcl_frame_parse data = Ok f → frame_wf f ∧ data = frame_octets f.
Proof.
  intros Hd. unfold zcl_frame_parse. destruct data as [|fc [|b1 [|b2 data]]]; [done..|]. simpl.
  destruct (bool_decide _) eqn:Ht; [|done]. simpl. bool_simpl. do 3 (apply Forall_cons in Hd as [? Hd]).
  destruct (has_bits fc FC_MANUFACTURER_SPECIFIC) eqn:Hm.
  - destruct data as [|sq [|cmd p]]; [done..|]. simpl. unfold slice, slice_get. simpl.
    rewrite Nat.leb_refl, Nat.sub_0_r, drop_0, firstn_all. cbn [mbind outcome_bind].
    rewrite push_payload_eq by (simpl; lia). simpl. destruct (Nat.leb_spec (length p) MAX_ZCL_PAYLOAD); [|done]. intros [= <-].
    do 2 (apply Forall_cons in Hd as [? Hd]). split; [|unfold frame_octets; cbn [zf_header zh_manufacturer_code]; by rewrite u16_to_from_le].
    split; simpl; try done. split; [by apply u16_from_le_range|done].
  - simpl. unfold slice, slice_get. simpl. rewrite Nat.leb_refl, Nat.sub_0_r, drop_0, firstn_all. cbn [mbind outcome_bind].
    rewrite push_payload_eq by (simpl; lia). simpl. destruct (Nat.leb_spec (length data) MAX_ZCL_PAYLOAD); [|done]. intros [= <-].
    split; [|done]. by split.
Qed.

Lemma zcl_frame_parse_no_panic data : zcl_frame_parse data ≠ Panic.
Proof.
  unfold zcl_frame_parse. destruct data as [|fc [|b1 [|b2 data]]]; [done..|]. simpl.
  destruct (bool_decide _); [|done]. simpl. destruct (has_bits fc FC_MANUFACTURER_SPECIFIC).
  - destruct data as [|sq [|cmd p]]; [done..|]. simpl. unfold slice, slice_get. simpl.
    rewrite Nat.leb_refl. cbn [mbind outcome_bind]. rewrite push_payload_eq by (simpl; lia). by case_match.
  - simpl. unfold slice, slice_get. simpl. rewrite Nat.leb_refl. cbn [mbind outcome_bind].
    rewrite push_payload_eq by (simpl; lia). by case_match.
Qed.

Lemma zcl_frame_serialize_eq f buf :
  zcl_frame_serialize f buf =
    if (length (frame_octets f) <=? length buf)%nat then (Ok (length (frame_octets f)), written (frame_octets f) buf)
    else (Err TooShort, buf).
Proof.
  destruct f as [[fc mfr sq cmd] p]. unfold zcl_frame_serialize, frame_octets. cbn [zf_header zf_payload zh_manufacturer_code zh_frame_control zh_seq_number zh_command_id].
  rewrite (stm_bind_Ok get_st _ buf buf buf) by done. rewrite Nat.leb_antisym.
  destruct mfr as [m|]; cbn [length app u16_to_le];
    (rewrite ?bool_decide_true by eauto); rewrite ?(bool_decide_false (is_Some None)) by (by intros []).
  - destruct (Nat.ltb_spec (length buf) (5 + length p)) as [Hlt|Hge]; [rewrite (proj2 (Nat.ltb_lt _ _)) by lia; done|].
    rewrite (proj2 (Nat.ltb_ge _ _)) by lia. cbn [negb].
    cbv [mbind stm_bind lift mret stm_ret]. unfold index, u16_to_le. cbn [lookup list_lookup]. cbv beta iota.
    rewrite <- (written_nil buf) at 1. do 1 (rewrite put_octet_written by (simpl; lia); cbn [app]; cbv beta iota).
    do 4 (rewrite put_octet_written by (simpl; lia); cbn [app]; cbv beta iota).
    by rewrite put_slice_written by (simpl; lia).
  - destruct (Nat.ltb_spec (length buf) (3 + length p)) as [Hlt|Hge]; [rewrite (proj2 (Nat.ltb_lt _ _)) by lia; done|].
    rewrite (proj2 (Nat.ltb_ge _ _)) by lia. cbn [negb].
    change buf with (written [] buf) at 1. cbv [mbind stm_bind lift mret stm_ret].
    do 3 (rewrite put_octet_written by (simpl; lia); cbn [app]; cbv beta iota).
    by rewrite put_slice_written by (simpl; lia).
Qed.

(** The codec is exact: parsing never aborts and succeeds exactly on the
    octets of a well-formed frame, which it returns; serializing writes those
    octets at the front of the buffer or, without room, reports it and writes
    nothing. *)
Theorem zcl_frame_codec_exact f data buf :
  Forall is_u8 data →
  zcl_frame_parse data ≠ Panic ∧
  (zcl_frame_parse data = Ok f ↔ frame_wf f ∧ data = frame_octets f) ∧
  zcl_frame_serialize f buf =
    (if (length (frame_octets f) <=? length buf)%nat then (Ok (length (frame_octets f)), written (frame_octets f) buf)
     else (Err TooShort, buf)).
Proof.
  intros Hd. split; [by apply zcl_frame_parse_no_panic|]. split; [|by apply zcl_frame_serialize_eq].
  split; [by apply zcl_frame_parse_sound|]. intros [Hf ->]. by apply zcl_frame_parse_octets.
Qed.

Lemma zcl_frame_codec_exact_witness :
  zcl_frame_parse [0x0D; 0x34; 0x12; 7; 1; 9] = Ok (mk_ZclFrame (mk_ZclFrameHeader 0x0D (Some 0x1234) 7 1) [9]).
Proof.
  apply (zcl_frame_codec_exact (mk_ZclFrame (mk_ZclFrameHeader 0x0D (Some 0x1234) 7 1) [9]) [0x0D; 0x34; 0x12; 7; 1; 9] []).
  - repeat constructor; done.
  - split; [|done]. split; [done|by eexists|done|done|done|]. split; [repeat constructor; done|simpl; unfold MAX_ZCL_PAYLOAD; lia].
Defined.

Lemma default_response_roundtrip r buf :
  is_u8 (dr_command_id r) → (2 <= length buf)%nat →
  ∃ buf', default_response_serialize r buf = (Ok 2%nat, buf') ∧ default_response_parse buf' = Ok r.
Proof.
  intros Hc Hl. destruct buf as [|x [|y buf]]; simpl in Hl; [lia..|]. destruct r as [c s]. eexists. split; [done|].
  unfold default_response_parse. simpl. by rewrite status_from_code.
Qed.
