(* ===== verification/ZclAttributes.v ===== *)
(** * ZCL attribute stores

    [zigbee-zcl/src/attribute.rs] and the store traits of
    [zigbee-zcl/src/clusters/mod.rs].  The traits are the classes
    [AttributeStoreAccess] and [AttributeStoreMutAccess]; what Write Attributes
    Undivided relies on is [MutAccessLaws]. *)

From Stdlib Require String.
From S2P Require Import Prelude Effects ZclValues ZclFrame.
Local Open Scope Z_scope.

Inductive AttributeAccess := AaReadOnly | AaWriteOnly | AaReadWrite | AaReportable.
#[export] Instance AttributeAccess_eq_dec : EqDecision AttributeAccess.
Proof. solve_decision. Defined.

Definition is_readable (a : AttributeAccess) : bool :=
  match a with AaReadOnly | AaReadWrite | AaReportable => true | AaWriteOnly => false end.
Definition is_writable (a : AttributeAccess) : bool :=
  match a with AaWriteOnly | AaReadWrite => true | AaReadOnly | AaReportable => false end.
Definition is_reportable (a : AttributeAccess) : bool :=
  match a with AaReportable | AaReadWrite | AaReadOnly => true | AaWriteOnly => false end.

Record AttributeDefinition := mk_AttributeDefinition {
  ad_id : Z;
  ad_data_type : ZclDataType;
  ad_access : AttributeAccess;
  ad_name : String.string
}.

Record AttributeValue := mk_AttributeValue { av_definition : AttributeDefinition; av_value : ZclValue }.

Definition has_id (id : Z) (a : AttributeValue) : bool := ad_id (av_definition a) =? id.

Definition resolve_writable_slot (attrs : list AttributeValue) (id : Z) (value : ZclValue) : outcome ZclStatus nat :=
  match position (has_id id) attrs with
  | None => Err StUnsupportedAttribute
  | Some idx =>
      a ← index attrs idx;
      let def := av_definition a in
      if negb (is_writable (ad_access def)) then Err StReadOnly
      else if negb (bool_decide (zv_data_type value = ad_data_type def)) then Err StInvalidDataType
      else Ok idx
  end.

(** The store; its capacity [N] is an argument of [as_register]. *)
Record AttributeStore := mk_AttributeStore { as_attrs : list AttributeValue }.

Definition as_new : AttributeStore := mk_AttributeStore [].

Definition push_attr (N : nat) (attrs : list AttributeValue) (entry : AttributeValue) : outcome ZclStatus (list AttributeValue) :=
  match vec_push N attrs entry with Some l => Ok l | None => Err StInsufficientSpace end.

Definition as_register (N : nat) (def : AttributeDefinition) (initial : ZclValue) : stm AttributeStore ZclStatus unit :=
  s ← get_st;
  attrs ← lift (push_attr N (as_attrs s) (mk_AttributeValue def initial));
  modify_st (λ _, mk_AttributeStore attrs).

Definition as_get (s : AttributeStore) (id : Z) : option ZclValue := av_value <$> List.find (has_id id) (as_attrs s).

(** [attrs[idx].value = value] *)
Definition set_slot (idx : nat) (value : ZclValue) : stm AttributeStore ZclStatus unit :=
  s ← get_st;
  a ← lift (index (as_attrs s) idx);
  modify_st (λ _, mk_AttributeStore (<[idx := mk_AttributeValue (av_definition a) value]> (as_attrs s))).

Definition as_set (id : Z) (value : ZclValue) : stm AttributeStore ZclStatus unit :=
  s ← get_st;
  idx ← lift (resolve_writable_slot (as_attrs s) id value);
  set_slot idx value.

Definition as_validate_set (s : AttributeStore) (id : Z) (value : ZclValue) : outcome ZclStatus unit :=
  (λ _, ()) <$> resolve_writable_slot (as_attrs s) id value.

Definition as_set_raw (id : Z) (value : ZclValue) : stm AttributeStore ZclStatus unit :=
  s ← get_st;
  match position (has_id id) (as_attrs s) with
  | None => throw StUnsupportedAttribute
  | Some idx => set_slot idx value
  end.

Definition as_find (s : AttributeStore) (id : Z) : option AttributeDefinition :=
  av_definition <$> List.find (has_id id) (as_attrs s).

Definition as_len (s : AttributeStore) : nat := length (as_attrs s).
Definition as_is_empty (s : AttributeStore) : bool := bool_decide (as_attrs s = []).

Definition MAX_ALL_IDS : nat := 32.
(** The loop of [all_ids]. *)
Definition as_all_ids (s : AttributeStore) : list Z :=
  foldl (λ ids a, vec_push_ignore MAX_ALL_IDS ids (ad_id (av_definition a))) [] (as_attrs s).

(** * The store traits *)

Class AttributeStoreAccess (S : Type) := {
  sa_get : S → Z → option ZclValue;
  sa_find : S → Z → option AttributeDefinition;
  sa_len : S → nat;
  sa_is_empty : S → bool;
  sa_all_ids : S → list Z
}.

Class AttributeStoreMutAccess (S : Type) := {
  sm_set : Z → ZclValue → stm S ZclStatus unit;
  sm_set_raw : Z → ZclValue → stm S ZclStatus unit;
  sm_find : S → Z → option AttributeDefinition;
  sm_validate_set : S → Z → ZclValue → outcome ZclStatus unit
}.

(** The default body of [AttributeStoreMutAccess::validate_set]. *)
Definition default_validate_set (found : option AttributeDefinition) (value : ZclValue) : outcome ZclStatus unit :=
  match found with
  | Some def =>
      if negb (is_writable (ad_access def)) then Err StReadOnly
      else if negb (bool_decide (zv_data_type value = ad_data_type def)) then Err StInvalidDataType
      else Ok ()
  | None => Err StUnsupportedAttribute
  end.

#[export] Instance AttributeStore_access : AttributeStoreAccess AttributeStore := {|
  sa_get := as_get; sa_find := as_find; sa_len := as_len; sa_is_empty := as_is_empty; sa_all_ids := as_all_ids |}.

#[export] Instance AttributeStore_mut_access : AttributeStoreMutAccess AttributeStore := {|
  sm_set := as_set; sm_set_raw := as_set_raw; sm_find := as_find; sm_validate_set := as_validate_set |}.

(** What a store promises: [set] answers as [validate_set] announces, a
    refused [set] changes nothing, an accepted one does not change what may be
    written; [ok] is the store's invariant. *)
Class MutAccessLaws (S : Type) `{AttributeStoreMutAccess S} (ok : S → Prop) : Prop := {
  ml_no_panic s id v : ok s → sm_validate_set s id v ≠ Panic;
  ml_error s id v e : ok s → sm_validate_set s id v = Err e → e ≠ StSuccess;
  ml_refused s id v e : ok s → sm_validate_set s id v = Err e → sm_set id v s = (Err e, s);
  ml_accepted s id v : ok s → sm_validate_set s id v = Ok () → ∃ s', sm_set id v s = (Ok (), s') ∧ ok s' ∧
    ∀ id' v', sm_validate_set s' id' v' = sm_validate_set s id' v'
}.

(** * Lemmas *)

Lemma resolve_eq attrs id v :
  (λ _, ()) <$> resolve_writable_slot attrs id v = default_validate_set (av_definition <$> List.find (has_id id) attrs) v.
Proof.
  unfold resolve_writable_slot. rewrite find_position. destruct (position (has_id id) attrs) as [i|] eqn:Hp; [|done].
  simpl. destruct (lookup_lt_is_Some_2 attrs i (position_lt _ _ _ Hp)) as [a Ha]. unfold index. rewrite Ha. simpl.
  unfold default_validate_set. by repeat case_match.
Qed.

(** The preflight of the store is the one the trait documents. *)
Lemma as_validate_set_default s id v : as_validate_set s id v = default_validate_set (as_find s id) v.
Proof. apply resolve_eq. Qed.

Lemma as_set_eq id v s :
  as_set id v s =
    match as_validate_set s id v with
    | Ok _ => (Ok (), mk_AttributeStore (modify_first (has_id id) (λ a, mk_AttributeValue (av_definition a) v) (as_attrs s)))
    | Err e => (Err e, s)
    | Panic => (Panic, s)
    end.
Proof.
  unfold as_set, as_validate_set. cbv [mbind stm_bind get_st lift set_slot modify_st]. unfold modify_first, resolve_writable_slot.
  destruct (position (has_id id) (as_attrs s)) as [i|] eqn:Hp; [|done].
  destruct (lookup_lt_is_Some_2 (as_attrs s) i (position_lt _ _ _ Hp)) as [a Ha]. unfold index. rewrite Ha. simpl.
  destruct (is_writable _); [|done]. simpl. case_bool_decide; [|done]. simpl. rewrite Ha.
  by rewrite (alter_insert _ _ _ _ Ha).
Qed.

Lemma find_definition id l :
  av_definition <$> List.find (has_id id) l = List.find (λ d, ad_id d =? id) (av_definition <$> l).
Proof. induction l as [|a l IH]; [done|]. simpl. unfold has_id. by destruct (ad_id (av_definition a) =? id). Qed.

Lemma modify_first_definitions p v l :
  av_definition <$> modify_first p (λ a, mk_AttributeValue (av_definition a) v) l = av_definition <$> l.
Proof.
  unfold modify_first. destruct (position p l) as [i|] eqn:Hp; [|done].
  destruct (lookup_lt_is_Some_2 l i (position_lt _ _ _ Hp)) as [a Ha]. rewrite (alter_insert _ _ _ _ Ha).
  rewrite list_fmap_insert. apply list_insert_id. by rewrite list_lookup_fmap, Ha.
Qed.

#[export] Instance AttributeStore_laws : MutAccessLaws AttributeStore (λ _, True).
Proof.
  split.
  - intros s id v _. unfold sm_validate_set. simpl. rewrite as_validate_set_default. unfold default_validate_set. by repeat case_match.
  - intros s id v e _. simpl. rewrite as_validate_set_default. unfold default_validate_set. repeat case_match; naive_solver.
  - intros s id v e _ He. simpl in *. by rewrite as_set_eq, He.
  - intros s id v _ Ho. simpl in *. rewrite as_set_eq, Ho. eexists. split; [done|]. split; [done|]. intros id' v'.
    rewrite !as_validate_set_default. unfold as_find. simpl. by rewrite !find_definition, modify_first_definitions.
Qed.

(** A write is read back, and no other attribute changes. *)
Lemma as_get_set id v s s' id' :
  as_set id v s = (Ok (), s') → as_get s' id' = if id' =? id then Some v else as_get s id'.
Proof.
  rewrite as_set_eq. destruct (as_validate_set s id v) as [[]|e|] eqn:Hv; [|done|done]. intros [= <-].
  unfold as_get. simpl. unfold modify_first. unfold as_validate_set, resolve_writable_slot in Hv.
  destruct (position (has_id id) (as_attrs s)) as [i|] eqn:Hp; [|done]. clear Hv.
  destruct (lookup_lt_is_Some_2 (as_attrs s) i (position_lt _ _ _ Hp)) as [a Ha]. rewrite (alter_insert _ _ _ _ Ha).
  apply position_Some in Hp as (b & Hb & Hid & Hbefore). simplify_eq.
  destruct (Z.eqb_spec id' id) as [-> | Hne].
  - by rewrite find_insert_first by (eauto using lookup_lt_Some).
  - rewrite find_insert_other; [done| |]; unfold has_id in *; simpl; apply Z.eqb_eq in Hid.
    + apply Z.eqb_neq. congruence.
    + intros y Hy. simplify_eq. apply Z.eqb_neq. congruence.
Qed.

(** Every value has the type its attribute declares. *)
Definition well_typed (s : AttributeStore) : Prop :=
  Forall (λ a, zv_data_type (av_value a) = ad_data_type (av_definition a)) (as_attrs s).

Lemma as_set_well_typed id v s : well_typed s → well_typed (as_set id v s).2.
Proof.
  intros Hs. rewrite as_set_eq. unfold as_validate_set, resolve_writable_slot.
  destruct (position (has_id id) (as_attrs s)) as [i|] eqn:Hp; [|done].
  destruct (lookup_lt_is_Some_2 (as_attrs s) i (position_lt _ _ _ Hp)) as [a Ha]. unfold index. rewrite Ha. simpl.
  destruct (is_writable _); [|done]. simpl. case_bool_decide as Ht; [|done]. simpl.
  unfold well_typed, modify_first. simpl. rewrite Hp, (alter_insert _ _ _ _ Ha). by apply Forall_insert.
Qed.

Lemma as_register_well_typed N def v s :
  zv_data_type v = ad_data_type def → well_typed s → well_typed (as_register N def v s).2.
Proof.
  intros Hv Hs. unfold as_register. cbv [mbind stm_bind get_st lift modify_st]. unfold push_attr, vec_push.
  destruct (_ <? _)%nat; [|done]. simpl. apply Forall_app. split; [done|by repeat constructor].
Qed.
