(* ===== verification/ZclFoundation.v ===== *)
(** * ZCL foundation commands: read, write, discover

    [zigbee-zcl/src/foundation/read_attributes.rs], [write_attributes.rs] and
    [discover.rs].  A [while i < data.len()] loop over a payload is a recursion
    on the rest [data[i..]] with the length of the payload as fuel; running out
    of fuel is [Panic]. *)

From S2P Require Import Prelude Effects ZclValues ZclFrame ZclAttributes.
Local Open Scope Z_scope.

(** Records written one after the other, up to the first that does not fit:
    [for rec in records { match write(&mut buf[pos..]) { Some(n) => pos += n,
    None => break } }]. *)
Fixpoint write_records {R} (write : R → writer nat) (records : list R) (pos : nat) : writer nat :=
  match records with
  | [] => mret pos
  | rec :: records =>
      r ← try_st (on_rest pos (write rec));
      match r with
      | inl n => write_records write records (pos + n)
      | inr _ => mret pos
      end
  end.

(** * Read Attributes *)

Definition MAX_READ_ATTRS : nat := 16.

Record ReadAttributesRequest := mk_ReadAttributesRequest { ra_attributes : list Z }.

Record ReadAttributeRecord := mk_ReadAttributeRecord {
  rr_id : Z; rr_status : ZclStatus; rr_data_type : ZclDataType; rr_value : option ZclValue
}.

Record ReadAttributesResponse := mk_ReadAttributesResponse { rs_records : list ReadAttributeRecord }.

(** [chunks_exact(2)] as little-endian numbers. *)
Fixpoint u16_chunks (l : list Z) : list Z :=
  match l with b0 :: b1 :: l => u16_from_le b0 b1 :: u16_chunks l | _ => [] end.

Definition read_request_parse (data : list Z) : option ReadAttributesRequest :=
  if negb (length data mod 2 =? 0)%nat then None
  else Some (mk_ReadAttributesRequest (take MAX_READ_ATTRS (u16_chunks data))).

Fixpoint put_ids (attrs : list Z) (pos : nat) : writer nat :=
  match attrs with
  | [] => mret pos
  | attr :: attrs =>
      buf ← get_st;
      if (length buf <? pos + 2)%nat then mret pos
      else
        b0 ← lift (index (u16_to_le attr) 0); _ ← put_octet pos b0;
        b1 ← lift (index (u16_to_le attr) 1); _ ← put_octet (pos + 1) b1;
        put_ids attrs (pos + 2)
  end.

Definition read_request_serialize (r : ReadAttributesRequest) : writer nat := put_ids (ra_attributes r) 0.

Definition read_record_serialize_into (rec : ReadAttributeRecord) : writer nat :=
  _ ← get_range 0 3;
  _ ← put_slice 0 (u16_to_le (rr_id rec));
  _ ← put_octet 2 (status_code (rr_status rec));
  if bool_decide (rr_status rec ≠ StSuccess) then mret 3%nat
  else
    match rr_value rec with
    | None => _ ← put_octet 2 (status_code StFailure); mret 3%nat
    | Some v =>
        n ← on_rest_opt 4 (try_serialize v);
        _ ← put_octet 3 (data_type_code (rr_data_type rec));
        mret (4 + n)%nat
    end.

(** [buf.get_mut(pos..).unwrap_or_default()]: an empty slice when [pos] is out
    of range. *)
Definition on_rest_or_empty {A} (pos : nat) (w : writer A) : writer A := λ buf,
  if (pos <=? length buf)%nat then on_rest pos w buf else ((w []).1, buf).

Fixpoint put_read_records (records : list ReadAttributeRecord) (pos : nat) : writer nat :=
  match records with
  | [] => mret pos
  | rec :: records =>
      r ← try_st (on_rest_or_empty pos (read_record_serialize_into rec));
      match r with inl n => put_read_records records (pos + n) | inr _ => mret pos end
  end.

Definition read_response_serialize (r : ReadAttributesResponse) : writer nat := put_read_records (rs_records r) 0.

Section Features.
Context `{ZclFeatures}.

Fixpoint read_response_loop (fuel : nat) (rest : list Z) (records : list ReadAttributeRecord) : fallible (list ReadAttributeRecord) :=
  if (length rest <? 3)%nat then Ok records
  else
    match fuel with
    | O => Panic
    | S fuel =>
        b0 ← index rest 0; b1 ← index rest 1;
        let id := u16_from_le b0 b1 in
        st ← index rest 2;
        let status := status_from_u8 st in
        let i := 3%nat in
        '(data_type, value, i) ←
          (if bool_decide (status = StSuccess) && (i <? length rest)%nat then
             b ← index rest i;
             dt ← try_opt (data_type_from_u8 b);
             tail ← slice rest (i + 1) (length rest);
             '(val, consumed) ← deserialize dt tail;
             Ok (dt, Some val, (i + 1 + consumed)%nat)
           else Ok (DtNoData, None, i));
        records ← try_opt (vec_push MAX_READ_ATTRS records (mk_ReadAttributeRecord id status data_type value));
        read_response_loop fuel (drop i rest) records
    end.

Definition read_response_parse (data : list Z) : fallible ReadAttributesResponse :=
  records ← read_response_loop (length data) data [];
  Ok (mk_ReadAttributesResponse records).
End Features.

Definition read_record `{AttributeStoreAccess St} (store : St) (attr_id : Z) : ReadAttributeRecord :=
  match sa_find store attr_id with
  | Some def =>
      if negb (is_readable (ad_access def)) then mk_ReadAttributeRecord attr_id StWriteOnly DtNoData None
      else match sa_get store attr_id with
      | Some val => mk_ReadAttributeRecord attr_id StSuccess (ad_data_type def) (Some val)
      | None => mk_ReadAttributeRecord attr_id StFailure DtNoData None
      end
  | None => mk_ReadAttributeRecord attr_id StUnsupportedAttribute DtNoData None
  end.

Definition process_read_dyn `{AttributeStoreAccess St} (store : St) (request : ReadAttributesRequest) : ReadAttributesResponse :=
  mk_ReadAttributesResponse
    (foldl (λ records attr_id, vec_push_ignore MAX_READ_ATTRS records (read_record store attr_id)) [] (ra_attributes request)).

(** * Write Attributes *)

Definition MAX_WRITE_ATTRS : nat := 16.

Record WriteAttributeRecord := mk_WriteAttributeRecord { wr_id : Z; wr_data_type : ZclDataType; wr_value : ZclValue }.
Record WriteAttributesRequest := mk_WriteAttributesRequest { wq_records : list WriteAttributeRecord }.
Record WriteAttributeStatusRecord := mk_WriteAttributeStatusRecord { ws_status : ZclStatus; ws_id : Z }.
Record WriteAttributesResponse := mk_WriteAttributesResponse { wp_records : list WriteAttributeStatusRecord }.
Record WriteAttributeParseFailure := mk_WriteAttributeParseFailure { wf_ordinal : Z; wf_record : WriteAttributeStatusRecord }.
Record WriteAttributesParseOutcome := mk_WriteAttributesParseOutcome {
  wo_request : WriteAttributesRequest; wo_invalid_data_types : list WriteAttributeParseFailure
}.

(** The loop of [merge_in_request_order]: each turn takes one failure or one
    applied status. *)
Fixpoint merge_loop (fuel : nat) (fails : list WriteAttributeParseFailure)
    (applied records : list WriteAttributeStatusRecord) : list WriteAttributeStatusRecord :=
  match fuel with
  | O => records
  | S fuel =>
      let '(next, applied) :=
        match fails with
        | f :: _ =>
            if (Z.to_nat (wf_ordinal f) =? length records)%nat then (None, applied)
            else (head applied, tail applied)
        | [] => (head applied, tail applied)
        end in
      let '(next, fails) :=
        match next with
        | Some rec => (Some rec, fails)
        | None => (wf_record <$> head fails, tail fails)
        end in
      match next with
      | None => records
      | Some rec =>
          match vec_push MAX_WRITE_ATTRS records rec with
          | Some records => merge_loop fuel fails applied records
          | None => records
          end
      end
  end.

Definition merge_in_request_order (o : WriteAttributesParseOutcome) (applied : WriteAttributesResponse) : WriteAttributesResponse :=
  mk_WriteAttributesResponse
    (merge_loop (S (length (wo_invalid_data_types o) + length (wp_records applied)))
       (wo_invalid_data_types o) (wp_records applied) []).

Section WriteParse.
Context `{ZclFeatures}.

(** How much to skip of a value that cannot be stored, and its status. *)
Definition skip_value (dt : ZclDataType) (rest : list Z) : fallible (nat * ZclStatus) :=
  if bool_decide (dt = DtOctetString) || bool_decide (dt = DtCharString) then
    n ← try_opt (rest !! 0%nat);
    Ok (S (if n =? 0xFF then 0%nat else Z.to_nat n), StInvalidValue)
  else
    n ← try_opt (data_type_size dt);
    Ok (n, StInvalidDataType).

Fixpoint write_request_loop (fuel : nat) (rest : list Z) (record_count : nat) (records : list WriteAttributeRecord)
    (invalid : list WriteAttributeParseFailure) : fallible WriteAttributesParseOutcome :=
  match rest with
  | [] => Ok (mk_WriteAttributesParseOutcome (mk_WriteAttributesRequest records) invalid)
  | _ =>
      match fuel with
      | O => Panic
      | S fuel =>
          if (length rest <? 3)%nat then Err ()
          else if (record_count =? MAX_WRITE_ATTRS)%nat then Err ()
          else
            let record_count := (record_count + 1)%nat in
            b0 ← index rest 0; b1 ← index rest 1;
            let id := u16_from_le b0 b1 in
            b2 ← index rest 2;
            dt ← try_opt (data_type_from_u8 b2);
            rest ← slice rest 3 (length rest);
            match deserialize dt rest with
            | Ok (value, consumed) =>
                records ← try_opt (vec_push MAX_WRITE_ATTRS records (mk_WriteAttributeRecord id dt value));
                write_request_loop fuel (drop consumed rest) record_count records invalid
            | Err _ =>
                '(skip, status) ← skip_value dt rest;
                if (length rest <? skip)%nat then Err ()
                else
                  invalid ← try_opt (vec_push MAX_WRITE_ATTRS invalid
                    (mk_WriteAttributeParseFailure (as_u8 (Z.of_nat (record_count - 1))) (mk_WriteAttributeStatusRecord status id)));
                  write_request_loop fuel (drop skip rest) record_count records invalid
            | Panic => Panic
            end
      end
  end.

Definition write_request_parse_checked (data : list Z) : fallible WriteAttributesParseOutcome :=
  if bool_decide (data = []) then Err () else write_request_loop (length data) data 0 [] [].

Definition write_request_parse (data : list Z) : fallible WriteAttributesRequest :=
  outcome ← write_request_parse_checked data;
  if bool_decide (length (wo_invalid_data_types outcome) = 0%nat) then Ok (wo_request outcome) else Err ().
End WriteParse.

Definition put_write_record (rec : WriteAttributeRecord) : writer nat :=
  _ ← get_range 0 3;
  _ ← put_slice 0 (u16_to_le (wr_id rec));
  _ ← put_octet 2 (data_type_code (wr_data_type rec));
  n ← on_rest 3 (try_serialize (wr_value rec));
  mret (3 + n)%nat.

Definition write_request_serialize (r : WriteAttributesRequest) : writer nat :=
  write_records put_write_record (wq_records r) 0.

(** The loop over the failed records of a response. *)
Fixpoint put_statuses (records : list WriteAttributeStatusRecord) (pos : nat) : writer nat :=
  match records with
  | [] => mret pos
  | rec :: records =>
      if bool_decide (ws_status rec ≠ StSuccess) then
        buf ← get_st;
        if (length buf <? pos + 3)%nat then mret pos
        else
          _ ← put_octet pos (status_code (ws_status rec));
          b0 ← lift (index (u16_to_le (ws_id rec)) 0); _ ← put_octet (pos + 1) b0;
          b1 ← lift (index (u16_to_le (ws_id rec)) 1); _ ← put_octet (pos + 2) b1;
          put_statuses records (pos + 3)
      else put_statuses records pos
  end.

Definition write_response_serialize (r : WriteAttributesResponse) : writer nat :=
  if forallb (λ r, bool_decide (ws_status r = StSuccess)) (wp_records r) then
    buf ← get_st;
    if bool_decide (buf = []) then mret 0%nat
    else _ ← put_octet 0 (status_code StSuccess); mret 1%nat
  else put_statuses (wp_records r) 0.

Section Process.
Context {St : Type} `{AttributeStoreMutAccess St}.

Definition status_of (r : unit + ZclStatus) : ZclStatus := match r with inl _ => StSuccess | inr e => e end.

Fixpoint process_write_loop (recs : list WriteAttributeRecord) (records : list WriteAttributeStatusRecord) :
    stm St ZclStatus (list WriteAttributeStatusRecord) :=
  match recs with
  | [] => mret records
  | rec :: recs =>
      r ← try_st (sm_set (wr_id rec) (wr_value rec));
      process_write_loop recs (vec_push_ignore MAX_WRITE_ATTRS records (mk_WriteAttributeStatusRecord (status_of r) (wr_id rec)))
  end.

Definition process_write_dyn (request : WriteAttributesRequest) : stm St ZclStatus WriteAttributesResponse :=
  records ← process_write_loop (wq_records request) [];
  mret (mk_WriteAttributesResponse records).

Definition process_write_no_response_dyn (request : WriteAttributesRequest) : stm St ZclStatus unit :=
  _ ← process_write_dyn request; mret ().

Fixpoint validate_loop (store : St) (recs : list WriteAttributeRecord) (records : list WriteAttributeStatusRecord) :
    outcome ZclStatus (list WriteAttributeStatusRecord) :=
  match recs with
  | [] => Ok records
  | rec :: recs =>
      status ← match sm_validate_set store (wr_id rec) (wr_value rec) with
        | Ok _ => Ok StSuccess
        | Err e => Ok e
        | Panic => Panic
        end;
      validate_loop store recs (vec_push_ignore MAX_WRITE_ATTRS records (mk_WriteAttributeStatusRecord status (wr_id rec)))
  end.

Definition validate_write_undivided_dyn (store : St) (request : WriteAttributesRequest) : outcome ZclStatus WriteAttributesResponse :=
  records ← validate_loop store (wq_records request) [];
  Ok (mk_WriteAttributesResponse records).

Definition process_write_undivided_dyn (request : WriteAttributesRequest) : stm St ZclStatus WriteAttributesResponse :=
  store ← get_st;
  validation ← lift (validate_write_undivided_dyn store request);
  if existsb (λ r, bool_decide (ws_status r ≠ StSuccess)) (wp_records validation) then mret validation
  else process_write_dyn request.
End Process.

(** [process_write] on a concrete store. *)
Definition process_write (request : WriteAttributesRequest) : stm AttributeStore ZclStatus WriteAttributesResponse :=
  process_write_dyn request.

(** The second pass of [process_write_undivided]: [let _ = store.set(..)]. *)
Fixpoint set_all (recs : list WriteAttributeRecord) : stm AttributeStore ZclStatus unit :=
  match recs with
  | [] => mret ()
  | rec :: recs => _ ← try_st (as_set (wr_id rec) (wr_value rec)); set_all recs
  end.

Definition process_write_undivided (request : WriteAttributesRequest) : stm AttributeStore ZclStatus WriteAttributesResponse :=
  store ← get_st;
  validation ← lift (validate_loop store (wq_records request) []);
  let all_ok := forallb (λ r, bool_decide (ws_status r = StSuccess)) validation in
  if all_ok then
    _ ← set_all (wq_records request);
    mret (mk_WriteAttributesResponse
      (foldl (λ l rec, vec_push_ignore MAX_WRITE_ATTRS l (mk_WriteAttributeStatusRecord StSuccess (wr_id rec))) [] (wq_records request)))
  else mret (mk_WriteAttributesResponse validation).

(** * Discover Attributes and Discover Commands *)

Definition MAX_DISCOVER : nat := 16.

Record DiscoverAttributesRequest := mk_DiscoverAttributesRequest { dq_start_id : Z; dq_max_results : Z }.
Record DiscoverAttributeInfo := mk_DiscoverAttributeInfo { di_id : Z; di_data_type : ZclDataType }.
Record DiscoverAttributesResponse := mk_DiscoverAttributesResponse { ds_complete : bool; ds_attributes : list DiscoverAttributeInfo }.

Definition discover_request_parse (data : list Z) : fallible DiscoverAttributesRequest :=
  if (length data <? 3)%nat then Err ()
  else b0 ← index data 0; b1 ← index data 1; m ← index data 2; Ok (mk_DiscoverAttributesRequest (u16_from_le b0 b1) m).

Definition discover_request_serialize (r : DiscoverAttributesRequest) : writer nat :=
  buf ← get_st;
  if (length buf <? 3)%nat then mret 0%nat
  else
    b0 ← lift (index (u16_to_le (dq_start_id r)) 0); _ ← put_octet 0 b0;
    b1 ← lift (index (u16_to_le (dq_start_id r)) 1); _ ← put_octet 1 b1;
    _ ← put_octet 2 (dq_max_results r);
    mret 3%nat.

(** The record loop of the two response serializers: each record [enc rec] has
    [size] octets; a record that does not fit clears the flag. *)
Fixpoint put_infos {R} (size : nat) (enc : R → list Z) (infos : list R) (complete : bool) (pos : nat) : writer (bool * nat) :=
  match infos with
  | [] => mret (complete, pos)
  | info :: infos =>
      r ← try_st (get_range pos (pos + size));
      match r with
      | inr _ => mret (false, pos)
      | inl _ => _ ← put_slice pos (enc info); put_infos size enc infos complete (pos + size)
      end
  end.

Definition discover_response_serialize (r : DiscoverAttributesResponse) : writer nat :=
  buf ← get_st;
  if bool_decide (buf = []) then mret 0%nat
  else
    '(complete, pos) ← put_infos 3 (λ i, u16_to_le (di_id i) ++ [data_type_code (di_data_type i)]) (ds_attributes r) (ds_complete r) 1;
    _ ← put_octet 0 (Z.b2z complete);
    mret pos.

Definition MAX_DISCOVER_COMMANDS : nat := 32.

Record DiscoverCommandsRequest := mk_DiscoverCommandsRequest { dc_start_command_id : Z; dc_max_results : Z }.
Record DiscoverCommandsResponse := mk_DiscoverCommandsResponse { dc_complete : bool; dc_command_ids : list Z }.

Definition discover_commands_request_parse (data : list Z) : fallible DiscoverCommandsRequest :=
  if (length data <? 2)%nat then Err ()
  else b0 ← index data 0; b1 ← index data 1; Ok (mk_DiscoverCommandsRequest b0 b1).

Definition discover_commands_request_serialize (r : DiscoverCommandsRequest) : writer nat :=
  buf ← get_st;
  if (length buf <? 2)%nat then mret 0%nat
  else _ ← put_octet 0 (dc_start_command_id r); _ ← put_octet 1 (dc_max_results r); mret 2%nat.

Definition discover_commands_response_serialize (r : DiscoverCommandsResponse) : writer nat :=
  buf ← get_st;
  if bool_decide (buf = []) then mret 0%nat
  else
    let n := Nat.min (length (dc_command_ids r)) (length buf - 1) in
    _ ← put_octet 0 (Z.b2z (dc_complete r && (n =? length (dc_command_ids r))%nat));
    ids ← lift (slice (dc_command_ids r) 0 n);
    _ ← put_slice 1 ids;
    mret (1 + n)%nat.

(** The smallest identifier at or above [floor], or [none]. *)
Definition smallest_from (none floor : Z) (ids : list Z) : Z :=
  foldl (λ next v, if (floor <=? v) && (v <? next) then v else next) none ids.

(** Each turn of the loop passes at least one of the commands. *)
Fixpoint discover_commands_loop (fuel : nat) (all_commands : list Z) (max_results : Z) (floor : Z) (command_ids : list Z) :
    outcome unit (bool * list Z) :=
  match fuel with
  | O => Panic
  | S fuel =>
      let next := smallest_from 0x100 floor all_commands in
      if (0xFF <? next) then Ok (true, command_ids)
      else if (Z.to_nat max_results <=? length command_ids)%nat then Ok (false, command_ids)
      else match vec_push MAX_DISCOVER_COMMANDS command_ids next with
      | None => Ok (false, command_ids)
      | Some command_ids => discover_commands_loop fuel all_commands max_results (next + 1) command_ids
      end
  end.

Definition process_discover_commands (all_commands : list Z) (start_id max_results : Z) : outcome unit DiscoverCommandsResponse :=
  '(complete, command_ids) ← discover_commands_loop (S (length all_commands)) all_commands max_results start_id [];
  Ok (mk_DiscoverCommandsResponse complete command_ids).

Record DiscoverAttributeExtendedInfo := mk_DiscoverAttributeExtendedInfo {
  de_id : Z; de_data_type : ZclDataType; de_access_control : Z
}.
Record DiscoverAttributesExtendedResponse := mk_DiscoverAttributesExtendedResponse {
  dx_complete : bool; dx_attributes : list DiscoverAttributeExtendedInfo
}.

Definition discover_extended_response_serialize (r : DiscoverAttributesExtendedResponse) : writer nat :=
  buf ← get_st;
  if bool_decide (buf = []) then mret 0%nat
  else
    '(complete, pos) ← put_infos 4 (λ i, u16_to_le (de_id i) ++ [data_type_code (de_data_type i); de_access_control i])
      (dx_attributes r) (dx_complete r) 1;
    _ ← put_octet 0 (Z.b2z complete);
    mret pos.

(** [AC[def.access as usize]] *)
Definition access_control (a : AttributeAccess) : Z :=
  match a with AaReadOnly => 5 | AaWriteOnly => 2 | AaReadWrite => 7 | AaReportable => 5 end.

Section Discover.
Context {St : Type} `{AttributeStoreAccess St}.

Fixpoint discover_loop (fuel : nat) (store : St) (all : list Z) (max_results : Z) (floor : Z)
    (attributes : list DiscoverAttributeExtendedInfo) : outcome unit (bool * list DiscoverAttributeExtendedInfo) :=
  match fuel with
  | O => Panic
  | S fuel =>
      let next := smallest_from 0x10000 floor all in
      if (0xFFFF <? next) then Ok (true, attributes)
      else if (Z.to_nat max_results <=? length attributes)%nat then Ok (false, attributes)
      else
        match sa_find store next with
        | Some def =>
            match vec_push MAX_DISCOVER attributes
                    (mk_DiscoverAttributeExtendedInfo (ad_id def) (ad_data_type def) (access_control (ad_access def))) with
            | None => Ok (false, attributes)
            | Some attributes => discover_loop fuel store all max_results (next + 1) attributes
            end
        | None => discover_loop fuel store all max_results (next + 1) attributes
        end
  end.

Definition process_discover_extended_dyn (store : St) (request : DiscoverAttributesRequest) :
    outcome unit DiscoverAttributesExtendedResponse :=
  let all := sa_all_ids store in
  '(complete, attributes) ← discover_loop (S (length all)) store all (dq_max_results request) (dq_start_id request) [];
  Ok (mk_DiscoverAttributesExtendedResponse complete attributes).

Definition process_discover_dyn (store : St) (request : DiscoverAttributesRequest) : outcome unit DiscoverAttributesResponse :=
  ext ← process_discover_extended_dyn store request;
  Ok (mk_DiscoverAttributesResponse (dx_complete ext)
        ((λ a, mk_DiscoverAttributeInfo (de_id a) (de_data_type a)) <$> dx_attributes ext)).
End Discover.

(** * Writing records *)

(** How many of the encoded records fit, one after the other. *)
Fixpoint fitting (room : nat) (l : list (list Z)) : nat :=
  match l with
  | [] => 0
  | bs :: l => if (length bs <=? room)%nat then S (fitting (room - length bs) l) else 0
  end.

Lemma fitting_le room l : (fitting room l <= length l)%nat.
Proof. revert room. induction l as [|bs l IH]; intros room; simpl; [lia|]. case_match; [|lia]. specialize (IH (room - length bs)%nat). lia. Qed.

Lemma fitting_room room l : (length (concat (take (fitting room l) l)) <= room)%nat.
Proof.
  revert room. induction l as [|bs l IH]; intros room; simpl; [lia|].
  destruct (Nat.leb_spec (length bs) room); [|simpl; lia]. simpl. rewrite length_app. specialize (IH (room - length bs)%nat). lia.
Qed.

Lemma fitting_all room l : (length (concat l) <= room)%nat → fitting room l = length l.
Proof.
  revert room. induction l as [|bs l IH]; intros room; simpl; [done|]. rewrite length_app. intros Hl.
  rewrite (proj2 (Nat.leb_le _ _)) by lia. f_equal. apply IH. lia.
Qed.

(** The record loop writes exactly the records that fit. *)
Lemma write_records_spec {R} (write : R → writer nat) (enc : R → list Z) recs pre buf :
  (∀ r, r ∈ recs → encodes (write r) (enc r)) → (length pre <= length buf)%nat →
  let out := pre ++ concat (take (fitting (length buf - length pre) (enc <$> recs)) (enc <$> recs)) in
  ∃ buf', write_records write recs (length pre) (written pre buf) = (Ok (length out), buf') ∧
    length buf' = length buf ∧ take (length out) buf' = out.
Proof.
  revert pre. induction recs as [|r recs IH]; intros pre Henc Hl; cbv zeta.
  { simpl. rewrite app_nil_r. eexists. split; [done|]. split; [by apply length_written|by apply take_written]. }
  pose proof (Henc r ltac:(by left)) as Hr. cbn [write_records fmap list_fmap fitting].
  destruct (Nat.leb_spec (length (enc r)) (length buf - length pre)) as [Hfit|Hno].
  - cbv [mbind stm_bind try_st]. rewrite (on_rest_encodes pre _ (enc r)) by (done || lia).
    cbn [take concat]. rewrite app_assoc.
    destruct (IH (pre ++ enc r)) as (buf' & Hb & Hl' & Ht); [by intros r' Hr'; apply Henc; right|rewrite length_app; lia|].
    rewrite length_app in Hb. rewrite <- Nat.sub_add_distr, <- length_app. rewrite <- length_app in Hb at 2.
    exists buf'. rewrite <- length_app in Hb. done.
  - destruct (on_rest_no_room pre _ (enc r) buf (length pre) Hr eq_refl ltac:(lia)) as (buf' & Hb & Hl' & Ht).
    exists buf'. cbv [mbind stm_bind try_st]. rewrite Hb. simpl. rewrite app_nil_r. done.
Qed.

(** * Read Attributes Response *)

Definition read_record_octets (rec : ReadAttributeRecord) : list Z :=
  u16_to_le (rr_id rec) ++
  (if bool_decide (rr_status rec ≠ StSuccess) then [status_code (rr_status rec)]
   else match rr_value rec with
   | None => [status_code StFailure]
   | Some v => status_code StSuccess :: data_type_code (rr_data_type rec) :: zv_octets v
   end).

Lemma read_record_encodes rec :
  (∀ v, rr_value rec = Some v → zv_wf v) → encodes (read_record_serialize_into rec) (read_record_octets rec).
Proof.
  intros Hwf. destruct rec as [id st dt val]. unfold read_record_octets, read_record_serialize_into. simpl in *. intros buf.
  destruct buf as [|x0 [|x1 [|x2 buf]]].
  1-3: split; [case_bool_decide; [simpl; lia|]; destruct val; simpl; lia|intros _; by eexists].
  case_bool_decide as Hst.
  { split; [done|simpl; lia]. }
  destruct val as [v|]; [|split; [done|simpl; lia]].
  pose proof (encodes_whole_encodes _ _ (try_serialize_whole v (Hwf v eq_refl))) as He.
  destruct buf as [|x3 buf]; [split; [simpl; lia|intros _; by eexists]|].
  split; intros Hl; simpl in Hl.
  - rewrite (stm_bind_Ok _ _ _ (take 3 (x0 :: x1 :: x2 :: x3 :: buf)) (x0 :: x1 :: x2 :: x3 :: buf)) by done.
    do 2 (erewrite stm_bind_Ok by done). erewrite stm_bind_Ok.
    2:{ unfold on_rest_opt, on_rest. cbn -[try_serialize zv_octets]. rewrite drop_0. by rewrite (proj1 (He buf)) by lia. }
    by subst st.
  - destruct (proj2 (He buf)) as (buf' & Hb & Hl'); [lia|]. eexists.
    rewrite (stm_bind_Ok _ _ _ (take 3 (x0 :: x1 :: x2 :: x3 :: buf)) (x0 :: x1 :: x2 :: x3 :: buf)) by done.
    do 2 (erewrite stm_bind_Ok by done). erewrite stm_bind_Err.
    2:{ unfold on_rest_opt, on_rest. cbn -[try_serialize]. rewrite drop_0. by rewrite Hb. }
    split; [done|]. simpl. by rewrite Hl'.
Qed.

Lemma put_read_records_eq recs pos buf :
  (∀ r, r ∈ recs → encodes (read_record_serialize_into r) (read_record_octets r)) → (pos <= length buf)%nat →
  put_read_records recs pos buf = write_records read_record_serialize_into recs pos buf.
Proof.
  revert pos buf. induction recs as [|r recs IH]; intros pos buf Henc Hl; [done|]. cbn [put_read_records write_records].
  pose proof (Henc r ltac:(by left)) as Hr. cbv [mbind stm_bind try_st].
  unfold on_rest_or_empty. rewrite (proj2 (Nat.leb_le _ _) Hl).
  assert (buf = written (take pos buf) buf) as Hb.
  { unfold written. by rewrite length_take_le, take_drop by done. }
  destruct (Nat.leb_spec (pos + length (read_record_octets r)) (length buf)) as [Hfit|Hno].
  - pose proof (on_rest_encodes (take pos buf) _ _ buf pos Hr) as Hw. rewrite length_take_le in Hw by done.
    rewrite <- Hb in Hw. rewrite Hw by (done || lia). apply IH; [by intros r' Hr'; apply Henc; right|].
    rewrite length_written by (rewrite length_app, length_take_le by done; lia). done.
  - pose proof (on_rest_no_room (take pos buf) _ _ buf pos Hr) as Hw. rewrite length_take_le in Hw by done.
    rewrite <- Hb in Hw. destruct (Hw eq_refl ltac:(lia)) as (buf' & -> & _). done.
Qed.

(** A record as a server makes it: a value of its own type, or an error. *)
Definition read_record_wf `{ZclFeatures} (r : ReadAttributeRecord) : Prop :=
  is_u16 (rr_id r) ∧
  match rr_value r with
  | Some v => rr_status r = StSuccess ∧ rr_data_type r = zv_data_type v ∧ zv_fits v ∧ storable (zv_data_type v) = true
  | None => rr_status r ≠ StSuccess ∧ rr_data_type r = DtNoData
  end.

Lemma zv_octets_denote v : zv_wf v → denotes (zv_octets v) v.
Proof. destruct v; cbn [denotes]; try done. intros _. destruct v; simpl; eauto. Qed.

Lemma slice_suffix {E A} (l : list A) a n : n = length l → (a <= n)%nat → slice (E:=E) l a n = Ok (drop a l).
Proof.
  intros -> Ha. unfold slice, slice_get. rewrite (proj2 (Nat.leb_le _ _) Ha), Nat.leb_refl. simpl.
  by rewrite take_ge by (rewrite length_drop; lia).
Qed.

Lemma vec_push_room {A} cap (l : list A) x : (length l < cap)%nat → vec_push cap l x = Some (l ++ [x]).
Proof. intros Hl. unfold vec_push. by rewrite (proj2 (Nat.ltb_lt _ _) Hl). Qed.

Lemma read_response_loop_octets `{ZclFeatures} recs acc fuel :
  Forall read_record_wf recs → (length acc + length recs <= MAX_READ_ATTRS)%nat →
  (length (concat (read_record_octets <$> recs)) <= fuel)%nat →
  read_response_loop fuel (concat (read_record_octets <$> recs)) acc = Ok (acc ++ recs).
Proof.
  intros Hwf. revert acc fuel. induction Hwf as [|r recs [Hid Hr] _ IH]; intros acc fuel Hl Hf.
  { rewrite app_nil_r. by destruct fuel. }
  cbn [fmap list_fmap concat] in *. rewrite length_app in Hf.
  destruct r as [id st dt val]. simpl in Hid, Hr. set (rest := concat (read_record_octets <$> recs)) in *.
  unfold read_record_octets in *. cbn [rr_id rr_status rr_value rr_data_type] in *.
  destruct val as [v|].
  - destruct Hr as (-> & -> & Hfit & Hs). rewrite bool_decide_false in * by (intros ?; done).
    destruct fuel as [|fuel]; [simpl in Hf; lia|]. cbn [app u16_to_le] in *.
    cbn -[deserialize slice vec_push data_type_code zv_octets]. rewrite (u16_from_to_le id Hid).
    rewrite data_type_from_code. cbn -[deserialize slice vec_push data_type_code zv_octets].
    rewrite bool_decide_true by done. cbn -[deserialize slice vec_push data_type_code zv_octets].
    rewrite slice_suffix by (simpl; lia). cbn [drop mbind outcome_bind].
    rewrite ?drop_0, deserialize_complete by (done || by apply zv_octets_denote, Hfit). simpl in Hl, Hf.
    cbn [mbind outcome_bind]. rewrite vec_push_room by lia. cbn [try_opt mbind outcome_bind].
    cbn [Nat.add drop]. rewrite drop_app_length, IH; [by rewrite <- app_assoc|rewrite length_app; simpl; lia|].
    fold rest. lia.
  - destruct Hr as (Hst & ->). rewrite bool_decide_true in * by done.
    destruct fuel as [|fuel]; [simpl in Hf; lia|]. cbn [app u16_to_le] in *.
    cbn -[deserialize slice vec_push data_type_code zv_octets]. rewrite (u16_from_to_le id Hid), status_from_code.
    rewrite (bool_decide_false (st = StSuccess)) by done. simpl in Hl, Hf. cbn [andb mbind outcome_bind].
    rewrite vec_push_room by lia. cbn [try_opt mbind outcome_bind drop].
    rewrite drop_0, IH; [by rewrite <- app_assoc|rewrite length_app; simpl; lia|]. fold rest. lia.
Qed.

Lemma foldl_push_ignore {A B} cap (f : A → B) xs acc :
  (length acc <= cap)%nat →
  foldl (λ l x, vec_push_ignore cap l (f x)) acc xs = acc ++ take (cap - length acc) (f <$> xs).
Proof.
  revert acc. induction xs as [|x xs IH]; intros acc Hl; simpl; [by rewrite take_nil, app_nil_r|].
  unfold vec_push_ignore at 2. destruct (decide (length acc < cap)%nat) as [Hlt|Hge].
  - rewrite vec_push_room by done. rewrite IH by (rewrite length_app; simpl; lia).
    rewrite length_app, <- app_assoc. simpl. replace (cap - length acc)%nat with (S (cap - (length acc + 1)))%nat by lia. done.
  - unfold vec_push. rewrite (proj2 (Nat.ltb_ge _ _)) by lia. simpl. rewrite IH by done.
    by replace (cap - length acc)%nat with 0%nat by lia.
Qed.

Lemma process_read_eq `{AttributeStoreAccess St} (store : St) req :
  rs_records (process_read_dyn store req) = take MAX_READ_ATTRS (read_record store <$> ra_attributes req).
Proof. unfold process_read_dyn. simpl. rewrite foldl_push_ignore by (simpl; lia). by rewrite Nat.sub_0_r. Qed.

Lemma length_u16_chunks l : length (u16_chunks l) = (length l / 2)%nat.
Proof.
  revert l. fix IH 1. intros [|b0 [|b1 l]]; [done|done|].
  cbn [u16_chunks length]. rewrite IH. replace (S (S (length l))) with (length l + 1 * 2)%nat by lia.
  rewrite Nat.div_add by lia. lia.
Qed.

Lemma u16_chunks_range l : Forall is_u8 l → Forall is_u16 (u16_chunks l).
Proof.
  revert l. fix IH 1. intros [|b0 [|b1 l]]; [done|constructor|]. intros [H0 [H1 Hl]%Forall_cons]%Forall_cons.
  constructor; [by apply u16_from_le_range|by apply IH].
Qed.

(** Every value of the store has its declared type and a wire format. *)
Definition store_readable `{ZclFeatures} (s : AttributeStore) : Prop :=
  well_typed s ∧ Forall (λ a, zv_fits (av_value a) ∧ storable (zv_data_type (av_value a)) = true) (as_attrs s).

Lemma read_record_store_wf `{ZclFeatures} s id : store_readable s → is_u16 id → read_record_wf (read_record s id).
Proof.
  intros [Ht Hf] Hid. unfold read_record. simpl. unfold as_find, as_get.
  destruct (List.find (has_id id) (as_attrs s)) as [a|] eqn:Ha; simpl; [|done].
  apply List.find_some in Ha as [Ha _]. apply list_elem_of_In in Ha.
  unfold well_typed in Ht. rewrite Forall_forall in Ht, Hf. destruct (Hf a Ha) as [Hfit Hst]. specialize (Ht a Ha).
  destruct (is_readable _); [|done]. by simpl.
Qed.

Lemma fitting_next room l : (fitting room l < length l)%nat → (room < length (concat (take (S (fitting room l)) l)))%nat.
Proof.
  revert room. induction l as [|bs l IH]; intros room; simpl; [lia|].
  destruct (Nat.leb_spec (length bs) room); simpl; rewrite length_app; [|lia].
  intros Hl. specialize (IH (room - length bs)%nat ltac:(lia)). simpl in IH. lia.
Qed.

(** Read Attributes: the answer to any well-formed request is, attribute by
    attribute in the order asked, the value with its type or the reason why
    there is none; the payload the server writes is parsed back to exactly
    those records, all of them or as many as fit the buffer. *)
Theorem read_attributes_answered `{ZclFeatures} s data req buf :
  Forall is_u8 data → store_readable s → read_request_parse data = Some req →
  let recs := read_record s <$> ra_attributes req in
  ra_attributes req = take 16 (u16_chunks data) ∧
  ∃ k n buf', read_response_serialize (process_read_dyn s req) buf = (Ok n, buf') ∧
    n = length (concat (read_record_octets <$> take k recs)) ∧ length buf' = length buf ∧ (n <= length buf)%nat ∧
    read_response_parse (take n buf') = Ok (mk_ReadAttributesResponse (take k recs)) ∧
    (k = length recs ∨ (k < length recs)%nat ∧ (length buf < length (concat (read_record_octets <$> take (S k) recs)))%nat).
Proof.
  intros Hd Hs Hreq recs. unfold read_request_parse in Hreq. destruct (negb _); [done|]. injection Hreq as <-.
  split; [done|]. unfold read_response_serialize. rewrite process_read_eq. fold recs.
  assert (length recs <= MAX_READ_ATTRS)%nat as Hlen by (unfold recs; cbn [ra_attributes]; rewrite length_fmap, length_take; lia).
  rewrite take_ge by done.
  assert (Forall read_record_wf recs) as Hwf.
  { unfold recs. cbn [ra_attributes]. apply Forall_fmap, Forall_take. eapply Forall_impl; [by apply u16_chunks_range|].
    intros id Hid. by apply read_record_store_wf. }
  assert (∀ r, r ∈ recs → encodes (read_record_serialize_into r) (read_record_octets r)) as Henc.
  { intros r Hr. apply read_record_encodes. rewrite Forall_forall in Hwf. destruct (Hwf r Hr) as [_ Hv].
    intros v Hval. rewrite Hval in Hv. apply Hv. }
  rewrite put_read_records_eq by (done || lia).
  destruct (write_records_spec read_record_serialize_into read_record_octets recs [] buf Henc ltac:(simpl; lia)) as (buf' & Hw & Hl & Ht).
  simpl in Hw, Hl, Ht. rewrite Nat.sub_0_r in Hw, Ht.
  set (k := fitting (length buf) (read_record_octets <$> recs)) in *. rewrite <- fmap_take in Hw, Ht.
  exists k, (length (concat (read_record_octets <$> take k recs))), buf'. split; [exact Hw|]. split; [done|]. split; [done|].
  pose proof (fitting_room (length buf) (read_record_octets <$> recs)) as Hroom. fold k in Hroom. rewrite <- fmap_take in Hroom.
  split; [done|]. split.
  - rewrite Ht. unfold read_response_parse. rewrite read_response_loop_octets; [done|by apply Forall_take|simpl; rewrite length_take; lia|done].
  - pose proof (fitting_le (length buf) (read_record_octets <$> recs)) as Hk. fold k in Hk. rewrite length_fmap in Hk.
    destruct (decide (k = length recs)) as [|Hne]; [by left|right]. split; [lia|]. rewrite fmap_take.
    apply fitting_next. fold k. rewrite length_fmap. lia.
Qed.

Module FoundationExamples.
#[export] Instance features : ZclFeatures := {| feature_float32 := true; feature_float64 := false |}.

Definition def (id : Z) (dt : ZclDataType) (a : AttributeAccess) : AttributeDefinition := mk_AttributeDefinition id dt a String.EmptyString.
(** An 8 bit attribute that can be written and a 16 bit one that cannot. *)
Definition store : AttributeStore :=
  mk_AttributeStore [mk_AttributeValue (def 5 DtU8 AaReadWrite) (ZvU8 1); mk_AttributeValue (def 3 DtU16 AaReadOnly) (ZvU16 770)].

Lemma store_readable_ex : store_readable store.
Proof. split; repeat constructor; simpl; lia || done. Qed.
End FoundationExamples.
Import FoundationExamples.

Lemma read_attributes_answered_witness :
  ∃ k n buf', read_response_serialize (process_read_dyn store (mk_ReadAttributesRequest [3; 9])) (repeat 0 7) = (Ok n, buf') ∧
    read_response_parse (take n buf') = Ok (mk_ReadAttributesResponse (take k (read_record store <$> [3; 9]))).
Proof.
  destruct (read_attributes_answered store [3; 0; 9; 0] (mk_ReadAttributesRequest [3; 9]) (repeat 0 7)) as (_ & k & n & buf' & Hs & _ & _ & _ & Hp & _);
    [repeat constructor; done|apply store_readable_ex|reflexivity|]. exists k, n, buf'. split; assumption.
Defined.
