(* ===== verification/ZclServer.v ===== *)
(** * The attribute commands of a ZCL server

    What [zigbee-runtime/src/zcl_dispatch.rs] does with the payload of a Write
    Attributes command on the store of the addressed cluster, and the
    properties of the write and discover commands of [ZclFoundation]. *)

From S2P Require Import Prelude Effects ZclValues ZclFrame ZclAttributes ZclFoundation.
Local Open Scope Z_scope.

Section Handlers.
Context `{ZclFeatures} {St : Type} `{AttributeStoreMutAccess St}.

(** Write Attributes (0x02): the response, unless the payload is malformed. *)
Definition handle_write (data : list Z) : stm St ZclStatus (option WriteAttributesResponse) :=
  match write_request_parse_checked data with
  | Ok outcome =>
      applied ← process_write_dyn (wo_request outcome);
      mret (Some (merge_in_request_order outcome applied))
  | Err _ => mret None
  | Panic => lift Panic
  end.

(** Write Attributes Undivided (0x03), on the store of the addressed cluster;
    for an endpoint without that cluster the source does nothing. *)
Definition handle_write_undivided (data : list Z) : stm St ZclStatus (option WriteAttributesResponse) :=
  match write_request_parse_checked data with
  | Ok outcome =>
      let has_invalid_data_types := negb (bool_decide (length (wo_invalid_data_types outcome) = 0%nat)) in
      applied ← (if has_invalid_data_types then
                   store ← get_st; lift (validate_write_undivided_dyn store (wo_request outcome))
                 else process_write_undivided_dyn (wo_request outcome));
      mret (Some (merge_in_request_order outcome applied))
  | Err _ => mret None
  | Panic => lift Panic
  end.

(** Write Attributes No Response (0x05). *)
Definition handle_write_no_response (data : list Z) : stm St ZclStatus unit :=
  match write_request_parse_checked data with
  | Ok outcome => process_write_no_response_dyn (wo_request outcome)
  | Err _ => mret ()
  | Panic => lift Panic
  end.
End Handlers.

(** * Applying a request *)

Section Apply.
Context {St : Type} `{AttributeStoreMutAccess St} (ok : St → Prop) `{!MutAccessLaws St ok}.
Implicit Types (s : St) (recs : list WriteAttributeRecord).

(** The status a record gets. *)
Definition verdict (s : St) (r : WriteAttributeRecord) : WriteAttributeStatusRecord :=
  mk_WriteAttributeStatusRecord
    (match sm_validate_set s (wr_id r) (wr_value r) with Ok _ => StSuccess | Err e => e | Panic => StFailure end) (wr_id r).

(** The store after the records have been offered to it one by one. *)
Definition apply_all (s : St) (recs : list WriteAttributeRecord) : St :=
  foldl (λ s r, (sm_set (wr_id r) (wr_value r) s).2) s recs.

Lemma sm_set_answer s r : ok s →
  ∃ x s', sm_set (wr_id r) (wr_value r) s = (x, s') ∧ ok s' ∧
    match x with Ok _ => sm_validate_set s (wr_id r) (wr_value r) = Ok () | Err e => sm_validate_set s (wr_id r) (wr_value r) = Err e ∧ s' = s | Panic => False end ∧
    ∀ id v, sm_validate_set s' id v = sm_validate_set s id v.
Proof using Type*.
  intros Hs. destruct (sm_validate_set s (wr_id r) (wr_value r)) as [[]|e|] eqn:Hv.
  - destruct (ml_accepted s _ _ Hs Hv) as (s' & Hset & Hok & Hsame). eauto 10.
  - exists (Err e), s. by rewrite (ml_refused s _ _ e Hs Hv).
  - by destruct (ml_no_panic s _ _ Hs Hv).
Qed.

Lemma verdict_same s s' : (∀ id v, sm_validate_set s' id v = sm_validate_set s id v) → ∀ r, verdict s' r = verdict s r.
Proof. intros Hs r. unfold verdict. by rewrite Hs. Qed.

(** Every record is judged by the store as it was at the start. *)
Lemma process_write_loop_eq recs s acc :
  ok s → (length acc + length recs <= MAX_WRITE_ATTRS)%nat →
  process_write_loop recs acc s = (Ok (acc ++ (verdict s <$> recs)), apply_all s recs) ∧ ok (apply_all s recs).
Proof using Type*.
  revert s acc. induction recs as [|r recs IH]; intros s acc Hs Hl; simpl; [by rewrite app_nil_r|]. simpl in Hl.
  destruct (sm_set_answer s r Hs) as (x & s' & Hset & Hok & Hx & Hsame). unfold apply_all. simpl. rewrite Hset. simpl. fold (apply_all s' recs).
  assert (∃ y, try_st (sm_set (wr_id r) (wr_value r)) s = (Ok y, s') ∧ mk_WriteAttributeStatusRecord (status_of y) (wr_id r) = verdict s r) as (y & Hy & Hst).
  { unfold try_st, verdict. rewrite Hset. destruct x as [u|e|]; [| |done].
    - exists (inl u). by rewrite Hx.
    - exists (inr e). destruct Hx as [-> _]. done. }
  erewrite stm_bind_Ok by exact Hy. rewrite Hst. unfold vec_push_ignore. rewrite vec_push_room by lia.
  destruct (IH s' (acc ++ [verdict s r])) as [-> IHo]; [done|rewrite length_app; simpl; lia|]. split; [|done].
  rewrite <- app_assoc. simpl. rewrite (list_fmap_ext (verdict s') (verdict s)); [done|].
  intros _ r' _. by apply verdict_same.
Qed.

Lemma validate_loop_eq recs s acc :
  ok s → (length acc + length recs <= MAX_WRITE_ATTRS)%nat → validate_loop s recs acc = Ok (acc ++ (verdict s <$> recs)).
Proof using Type*.
  intros Hs. revert acc. induction recs as [|r recs IH]; intros acc Hl; simpl; [by rewrite app_nil_r|]. simpl in Hl.
  destruct (sm_validate_set s (wr_id r) (wr_value r)) as [u|e|] eqn:Hv; [| |by destruct (ml_no_panic s _ _ Hs Hv)]; simpl;
    unfold vec_push_ignore; rewrite vec_push_room, IH by (rewrite ?length_app; simpl; lia); simpl;
    rewrite <- app_assoc; simpl; unfold verdict at 2; by rewrite Hv.
Qed.
End Apply.

(** * The wire format of a write request *)

(** A record of the payload: one that can be offered to the store, or one that
    is refused while parsing. *)
Notation write_item := (WriteAttributeRecord + WriteAttributeStatusRecord)%type.

Inductive write_wire `{ZclFeatures} : list Z → list write_item → Prop :=
| WwNil : write_wire [] []
| WwOk id v bs rest items :
    is_u16 id → storable (zv_data_type v) = true → zv_fits v → denotes bs v → write_wire rest items →
    write_wire (u16_to_le id ++ data_type_code (zv_data_type v) :: bs ++ rest)
      (inl (mk_WriteAttributeRecord id (zv_data_type v) v) :: items)
| WwBad id dt bs status rest items :
    is_u16 id → deserialize dt (bs ++ rest) = Err () → skip_value dt (bs ++ rest) = Ok (length bs, status) →
    write_wire rest items →
    write_wire (u16_to_le id ++ data_type_code dt :: bs ++ rest) (inr (mk_WriteAttributeStatusRecord status id) :: items).

Definition good_items (items : list write_item) : list WriteAttributeRecord :=
  omap (λ i, match i with inl r => Some r | inr _ => None end) items.

Fixpoint bad_items (n : nat) (items : list write_item) : list WriteAttributeParseFailure :=
  match items with
  | [] => []
  | inl _ :: items => bad_items (S n) items
  | inr f :: items => mk_WriteAttributeParseFailure (Z.of_nat n) f :: bad_items (S n) items
  end.

Definition item_id (i : write_item) : Z := match i with inl r => wr_id r | inr f => ws_id f end.

Lemma skip_value_no_panic dt rest : skip_value dt rest ≠ Panic.
Proof. unfold skip_value. destruct (_ || _); [by destruct (rest !! 0%nat)|by destruct (data_type_size dt)]. Qed.

Lemma write_request_loop_sound `{ZclFeatures} fuel rest cnt recs inv :
  Forall is_u8 rest → (length rest <= fuel)%nat → (cnt <= MAX_WRITE_ATTRS)%nat →
  match write_request_loop fuel rest cnt recs inv with
  | Ok o => ∃ items, write_wire rest items ∧ (cnt + length items <= MAX_WRITE_ATTRS)%nat ∧
      o = mk_WriteAttributesParseOutcome (mk_WriteAttributesRequest (recs ++ good_items items)) (inv ++ bad_items cnt items)
  | Err _ => True
  | Panic => False
  end.
Proof.
  revert rest cnt recs inv. induction fuel as [|fuel IH]; intros rest cnt recs inv Hd Hl Hc.
  { destruct rest; [|simpl in Hl; lia]. simpl. exists []. simpl. rewrite !app_nil_r. split; [constructor|]. split; [lia|done]. }
  destruct rest as [|b0 [|b1 [|b2 rest]]]; [|done|done|].
  { simpl. exists []. simpl. rewrite !app_nil_r. split; [constructor|]. split; [lia|done]. }
  do 3 (apply Forall_cons in Hd as [? Hd]). cbn -[slice deserialize vec_push MAX_WRITE_ATTRS skip_value].
  destruct (Nat.eqb_spec cnt MAX_WRITE_ATTRS) as [|Hne]; [done|].
  destruct (data_type_from_u8 b2) as [dt|] eqn:Hdt; [|done]. apply data_type_from_Some in Hdt as ->; [|done].
  cbn -[slice deserialize vec_push MAX_WRITE_ATTRS skip_value]. rewrite slice_suffix by (simpl; lia).
  cbn [drop mbind outcome_bind]. rewrite drop_0.
  destruct (deserialize dt rest) as [[v n]|[]|] eqn:Hv.
  - unfold vec_push. destruct (_ <? _)%nat; [|done]. simpl.
    destruct (deserialize_sound dt rest v n Hd Hv) as (Hs & <- & Hfit & bs & tail & -> & -> & Hden).
    apply Forall_app in Hd as [_ Hd]. rewrite drop_app_length.
    specialize (IH tail (cnt + 1)%nat (recs ++ [mk_WriteAttributeRecord (u16_from_le b0 b1) (zv_data_type v) v]) inv Hd).
    simpl in Hl. rewrite length_app in Hl. specialize (IH ltac:(lia) ltac:(lia)).
    destruct (write_request_loop fuel tail _ _ _) as [o| |]; [|done|done]. destruct IH as (items & Hw & Hlen & ->).
    exists (inl (mk_WriteAttributeRecord (u16_from_le b0 b1) (zv_data_type v) v) :: items). split; [|split].
    + pose proof (WwOk (u16_from_le b0 b1) v bs tail items) as Hx. rewrite u16_to_from_le in Hx by done. apply Hx; auto using u16_from_le_range.
    + simpl. lia.
    + simpl. by rewrite <- app_assoc, Nat.add_1_r.
  - destruct (skip_value dt rest) as [[skip status]|[]|] eqn:Hskip; [|exact I|by destruct (skip_value_no_panic dt rest)].
    cbn [mbind outcome_bind]. change (match skip with O => false | S m => (length rest <=? m)%nat end) with (length rest <? skip)%nat.
    destruct (Nat.ltb_spec (length rest) skip) as [|Hle]; [done|].
    unfold vec_push. destruct (_ <? _)%nat; [|done]. cbn [try_opt mbind outcome_bind]. simpl in Hl.
    replace (cnt + 1 - 1)%nat with cnt by lia.
    assert (as_u8 (Z.of_nat cnt) = Z.of_nat cnt) as -> by (unfold MAX_WRITE_ATTRS in *; ulia).
    set (f := mk_WriteAttributeStatusRecord status (u16_from_le b0 b1)).
    specialize (IH (drop skip rest) (cnt + 1)%nat recs (inv ++ [mk_WriteAttributeParseFailure (Z.of_nat cnt) f]) (Forall_drop _ _ _ Hd)).
    rewrite length_drop in IH. specialize (IH ltac:(lia) ltac:(lia)).
    destruct (write_request_loop fuel (drop skip rest) _ _ _) as [o| |]; [|done|done]. destruct IH as (items & Hw & Hlen & ->).
    exists (inr f :: items). split; [|split].
    + pose proof (WwBad (u16_from_le b0 b1) dt (take skip rest) status (drop skip rest) items) as Hx.
      rewrite u16_to_from_le, take_drop, length_take_le in Hx by done. apply Hx; auto using u16_from_le_range.
    + simpl. lia.
    + simpl. by rewrite <- app_assoc, Nat.add_1_r.
  - by destruct (deserialize_no_panic dt rest Hd).
Qed.

Lemma parse_checked_sound `{ZclFeatures} data :
  Forall is_u8 data →
  match write_request_parse_checked data with
  | Ok o => ∃ items, write_wire data items ∧ items ≠ [] ∧ (length items <= MAX_WRITE_ATTRS)%nat ∧
      o = mk_WriteAttributesParseOutcome (mk_WriteAttributesRequest (good_items items)) (bad_items 0 items)
  | Err _ => True
  | Panic => False
  end.
Proof.
  intros Hd. unfold write_request_parse_checked. case_bool_decide as He; [done|].
  pose proof (write_request_loop_sound (length data) data 0 [] [] Hd (le_n _) ltac:(lia)) as Hl.
  destruct (write_request_loop _ _ _ _ _); [|done|done]. destruct Hl as (items & Hw & Hlen & ->). exists items.
  split; [done|]. split; [|done]. intros ->. by inversion Hw.
Qed.

(** * The response *)

(** What the response says of an item, given the statuses of the good ones. *)
Fixpoint answers (items : list write_item) (applied : list WriteAttributeStatusRecord) : list WriteAttributeStatusRecord :=
  match items, applied with
  | inr f :: items, _ => f :: answers items applied
  | inl _ :: items, a :: applied => a :: answers items applied
  | _, _ => []
  end.

Lemma bad_items_ordinals n items f : f ∈ bad_items n items → (n <= Z.to_nat (wf_ordinal f))%nat.
Proof.
  revert n. induction items as [|[r|g] items IH]; intros n; simpl; [by intros ?%not_elem_of_nil| |].
  - intros Hf. specialize (IH _ Hf). lia.
  - intros [-> | Hf]%elem_of_cons; [simpl; lia|]. specialize (IH _ Hf). lia.
Qed.

Lemma merge_loop_eq items applied records fuel :
  length applied = length (good_items items) → (length records + length items <= MAX_WRITE_ATTRS)%nat →
  (length items < fuel)%nat →
  merge_loop fuel (bad_items (length records) items) applied records = records ++ answers items applied.
Proof.
  revert applied records fuel. induction items as [|i items IH]; intros applied records fuel Ha Hl Hf.
  { destruct applied; [|done]. destruct fuel; [lia|]. simpl. by rewrite app_nil_r. }
  destruct fuel as [|fuel]; [lia|]. simpl in Hl, Hf. destruct i as [r|f]; cbn [bad_items answers merge_loop].
  - destruct applied as [|a applied]; [done|]. simpl in Ha.
    assert (match bad_items (S (length records)) items with
      | f :: _ => if (Z.to_nat (wf_ordinal f) =? length records)%nat then (None, a :: applied) else (head (a :: applied), tail (a :: applied))
      | [] => (head (a :: applied), tail (a :: applied)) end = (Some a, applied)) as ->.
    { pose proof (bad_items_ordinals (S (length records)) items) as Ho. destruct (bad_items _ items) as [|f l]; [done|].
      rewrite (proj2 (Nat.eqb_neq _ _)); [done|]. specialize (Ho f ltac:(by left)). lia. }
    rewrite vec_push_room by lia. replace (S (length records)) with (length (records ++ [a])) by (rewrite length_app; simpl; lia).
    rewrite IH; [by rewrite <- app_assoc|simpl in *; lia|rewrite length_app; simpl; lia|lia].
  - simpl wf_ordinal. rewrite Nat2Z.id, Nat.eqb_refl. cbn [fmap option_fmap option_map head tail wf_record].
    rewrite vec_push_room by lia. replace (S (length records)) with (length (records ++ [f])) by (rewrite length_app; simpl; lia).
    rewrite IH; [by rewrite <- app_assoc|done|rewrite length_app; simpl; lia|lia].
Qed.

Lemma good_items_length items : (length (good_items items) <= length items)%nat.
Proof. induction items as [|[r|f] items IH]; simpl; lia. Qed.

Section Answers.
Context `{ZclFeatures} {St : Type} `{AttributeStoreMutAccess St} (ok : St → Prop) `{!MutAccessLaws St ok}.

Definition answer (s : St) (i : write_item) : WriteAttributeStatusRecord :=
  match i with inl r => verdict s r | inr f => f end.

Lemma answers_verdicts s items : answers items (verdict s <$> good_items items) = answer s <$> items.
Proof. induction items as [|[r|f] items IH]; simpl; [done| |]; by f_equal. Qed.

Lemma merge_answers s items :
  (length items <= MAX_WRITE_ATTRS)%nat →
  merge_in_request_order (mk_WriteAttributesParseOutcome (mk_WriteAttributesRequest (good_items items)) (bad_items 0 items))
    (mk_WriteAttributesResponse (verdict s <$> good_items items)) = mk_WriteAttributesResponse (answer s <$> items).
Proof.
  intros Hl. unfold merge_in_request_order. cbn [wo_invalid_data_types wp_records]. f_equal.
  rewrite (merge_loop_eq items _ []), answers_verdicts; [done|by rewrite length_fmap|done|].
  clear Hl. rewrite length_fmap. generalize 0%nat as n.
  induction items as [|[r|f] items IH]; intros n; simpl; [lia| |]; specialize (IH (S n)); lia.
Qed.

(** Every record of the payload can be written. *)
Definition writable (s : St) (i : write_item) : Prop :=
  match i with inl r => sm_validate_set s (wr_id r) (wr_value r) = Ok () | inr _ => False end.

Lemma verdict_success s r : ok s → ws_status (verdict s r) = StSuccess ↔ sm_validate_set s (wr_id r) (wr_value r) = Ok ().
Proof using Type*.
  intros Hs. unfold verdict. simpl. destruct (sm_validate_set s _ _) as [[]|e|] eqn:Hv; [done| |].
  - pose proof (ml_error s _ _ e Hs Hv). naive_solver.
  - by destruct (ml_no_panic s _ _ Hs Hv).
Qed.

Lemma bad_items_nil n items : bad_items n items = [] → items = inl <$> good_items items.
Proof. revert n. induction items as [|[r|f] items IH]; intros n Hb; simpl in *; [done| |done]. f_equal. by apply (IH (S n)). Qed.

Lemma bad_items_good n l : bad_items n (inl <$> l) = [].
Proof. revert n. induction l as [|r l IH]; intros n; simpl; [done|]. apply IH. Qed.

Lemma process_undivided_eq s recs :
  ok s → (length recs <= MAX_WRITE_ATTRS)%nat →
  ∃ s', process_write_undivided_dyn (mk_WriteAttributesRequest recs) s = (Ok (mk_WriteAttributesResponse (verdict s <$> recs)), s') ∧ ok s' ∧
    (Forall (writable s) (inl <$> recs) ∧ s' = apply_all s recs ∨ ¬ Forall (writable s) (inl <$> recs) ∧ s' = s).
Proof using Type*.
  intros Hs Hl. unfold process_write_undivided_dyn. erewrite stm_bind_Ok by done.
  assert (validate_write_undivided_dyn s (mk_WriteAttributesRequest recs) = Ok (mk_WriteAttributesResponse (verdict s <$> recs))) as Hv.
  { unfold validate_write_undivided_dyn. simpl. by rewrite (validate_loop_eq ok) by done. }
  unfold lift. rewrite Hv. erewrite stm_bind_Ok by done. cbn [wp_records].
  destruct (existsb _ (verdict s <$> recs)) eqn:He.
  - exists s. split; [done|]. split; [done|]. right. split; [|done]. rewrite Forall_fmap, Forall_forall. intros Hall.
    apply existsb_exists in He as (x & Hx & Hne). apply bool_decide_eq_true in Hne. apply Hne.
    apply list_elem_of_In, list_elem_of_fmap in Hx as (r & -> & Hr). by apply verdict_success, Hall.
  - destruct (process_write_loop_eq ok recs s [] Hs) as [Hp Hok]; [simpl; lia|]. exists (apply_all s recs).
    split; [|split; [done|left; split; [|done]]].
    + unfold process_write_dyn. simpl. erewrite stm_bind_Ok by exact Hp. done.
    + apply Forall_fmap, Forall_forall. intros r Hr. apply verdict_success; [done|].
      destruct (decide (ws_status (verdict s r) = StSuccess)) as [|Hne]; [done|]. exfalso.
      apply (eq_true_false_abs _ (proj2 (existsb_exists _ _) (ex_intro _ (verdict s r) (conj (proj1 (list_elem_of_In _ _) (list_elem_of_fmap_2 _ _ _ Hr)) (bool_decide_eq_true_2 _ Hne)))) He).
Qed.

(** Write Attributes answers every record of the payload in the order of the
    payload: a record that could not be decoded gets its parse status, every
    other one the verdict of the store as it was when the command arrived; the
    store ends as if the decodable records had been offered to it one by one.
    A malformed payload changes nothing, and nothing aborts. *)
Theorem write_answered_in_order s data :
  Forall is_u8 data → ok s →
  (handle_write data s = (Ok None, s) ∧ write_request_parse_checked data = Err ()) ∨
  ∃ items, write_wire data items ∧ (1 <= length items <= 16)%nat ∧
    handle_write data s = (Ok (Some (mk_WriteAttributesResponse (answer s <$> items))), apply_all s (good_items items)) ∧
    ok (apply_all s (good_items items)) ∧ ws_id <$> (answer s <$> items) = item_id <$> items.
Proof using Type*.
  intros Hd Hs. unfold handle_write. pose proof (parse_checked_sound data Hd) as Hp.
  destruct (write_request_parse_checked data) as [o|[]|]; [right|by left|done].
  destruct Hp as (items & Hw & Hne & Hl & ->). exists items. split; [done|].
  split; [unfold MAX_WRITE_ATTRS in Hl; destruct items; simpl in *; [done|lia]|].
  destruct (process_write_loop_eq ok (good_items items) s [] Hs) as [He Hok]; [pose proof (good_items_length items); simpl; lia|].
  split; [|split; [done|]].
  - unfold process_write_dyn. cbn [wo_request wq_records]. cbv [mbind stm_bind mret stm_ret]. rewrite He.
    cbn [app]. by rewrite merge_answers.
  - rewrite <- list_fmap_compose. apply list_fmap_ext. by intros _ [r|f] _.
Qed.

(** C23. Write Attributes Undivided is all or nothing: if every record of the
    payload can be written, all of them are written, in order, and every status
    is a success; otherwise the store is exactly as before and the response
    names the verdict of every record in the order of the payload. *)
Theorem write_undivided_atomic s data :
  Forall is_u8 data → ok s →
  (handle_write_undivided data s = (Ok None, s) ∧ write_request_parse_checked data = Err ()) ∨
  ∃ items s', write_wire data items ∧ (1 <= length items <= 16)%nat ∧
    handle_write_undivided data s = (Ok (Some (mk_WriteAttributesResponse (answer s <$> items))), s') ∧ ok s' ∧
    (Forall (writable s) items ∧ s' = apply_all s (good_items items) ∧ Forall (λ a, ws_status a = StSuccess) (answer s <$> items) ∨
     ¬ Forall (writable s) items ∧ s' = s).
Proof using Type*.
  intros Hd Hs. unfold handle_write_undivided. pose proof (parse_checked_sound data Hd) as Hp.
  destruct (write_request_parse_checked data) as [o|[]|]; [right|by left|done].
  destruct Hp as (items & Hw & Hne & Hl & ->). cbn [wo_request wo_invalid_data_types].
  assert (1 <= length items <= 16)%nat as Hlen by (unfold MAX_WRITE_ATTRS in Hl; destruct items; simpl in *; [done|lia]).
  pose proof (good_items_length items) as Hgl. case_bool_decide as Hb; cbn [negb].
  - apply nil_length_inv, bad_items_nil in Hb.
    destruct (process_undivided_eq s (good_items items) Hs ltac:(lia)) as (s' & He & Hok & Hcase). rewrite <- Hb in Hcase.
    exists items, s'. split; [done|]. split; [done|]. split; [|split; [done|]].
    + cbv [mbind stm_bind mret stm_ret]. rewrite He. by rewrite merge_answers.
    + destruct Hcase as [[Hall ->]|Hno]; [left|by right]. split; [done|]. split; [done|].
      apply Forall_fmap. eapply Forall_impl; [exact Hall|]. intros [r|f] Hr; [by apply verdict_success|destruct Hr].
  - exists items, s. split; [done|]. split; [done|]. split; [|split; [done|right; split; [|done]]].
    + unfold validate_write_undivided_dyn. cbn [wq_records]. cbv [get_st lift mbind stm_bind mret stm_ret].
      rewrite (validate_loop_eq ok) by (simpl; done || lia). cbn [app]. cbn. by rewrite merge_answers.
    + intros Hall. apply Hb. enough (∀ n, bad_items n items = []) as E by (by rewrite E). clear -Hall. induction Hall as [|[r|f] items Hr _ IH]; intros n; [done|apply IH|destruct Hr].
Qed.
End Answers.

(** The variant on a concrete store does the same. *)
Lemma process_write_undivided_eq s recs :
  (length recs <= MAX_WRITE_ATTRS)%nat →
  process_write_undivided (mk_WriteAttributesRequest recs) s = process_write_undivided_dyn (mk_WriteAttributesRequest recs) s.
Proof.
  intros Hl. destruct (process_undivided_eq (λ _, True) s recs I Hl) as (s' & -> & _ & Hc).
  unfold process_write_undivided. cbn [wq_records]. cbv [get_st lift mbind stm_bind].
  rewrite (validate_loop_eq (λ _, True) recs s []) by (simpl; done || lia). cbn [app].
  assert (∀ st, set_all recs st = (Ok (), apply_all st recs)) as Hset.
  { clear. induction recs as [|r recs IH]; intros st; [done|]. cbn [set_all].
    destruct (sm_set_answer (λ _, True) st r I) as (x & s' & Hset & _ & Hx & _). simpl in Hset.
    unfold apply_all. simpl. cbv [mbind stm_bind try_st]. rewrite Hset. simpl. destruct x; [apply IH|apply IH|destruct Hx]. }
  assert (forallb (λ r, bool_decide (ws_status r = StSuccess)) (verdict s <$> recs) = true ↔ Forall (writable s) (inl <$> recs)) as Hall.
  { rewrite forallb_forall, Forall_fmap, Forall_forall. split.
    - intros Hb r Hr. apply (verdict_success (λ _, True) s r I), (bool_decide_eq_true_1 _), Hb. by apply list_elem_of_In, list_elem_of_fmap_2.
    - intros Hb x Hx. apply list_elem_of_In, list_elem_of_fmap in Hx as (r & -> & Hr). apply bool_decide_eq_true.
      by apply (verdict_success (λ _, True) s r I), Hb. }
  destruct (forallb _ _) eqn:Hb.
  - destruct Hc as [[Hw ->]|[Hw _]]; [|by destruct Hw; apply Hall]. rewrite Hset. cbv [mret stm_ret]. do 3 f_equal.
    rewrite (foldl_push_ignore MAX_WRITE_ATTRS (λ rec, mk_WriteAttributeStatusRecord StSuccess (wr_id rec))) by (simpl; lia).
    rewrite Nat.sub_0_r, take_ge by (by rewrite length_fmap). simpl. apply list_fmap_ext. intros i r Hr.
    rewrite Forall_fmap, Forall_forall in Hw. specialize (Hw r (list_elem_of_lookup_2 _ _ _ Hr)). unfold verdict. simpl in Hw |- *. by rewrite Hw.
  - destruct Hc as [[Hw _]|[_ ->]]; [by apply Hall in Hw|done].
Qed.

(** * Typed stores *)

(** The three write commands with their payloads. *)
Inductive write_command := WcWrite (data : list Z) | WcUndivided (data : list Z) | WcNoResponse (data : list Z).

Definition command_payload (c : write_command) : list Z :=
  match c with WcWrite data | WcUndivided data | WcNoResponse data => data end.

Definition run_write `{ZclFeatures} (c : write_command) : stm AttributeStore ZclStatus unit :=
  match c with
  | WcWrite data => _ ← handle_write data; mret ()
  | WcUndivided data => _ ← handle_write_undivided data; mret ()
  | WcNoResponse data => handle_write_no_response data
  end.

(** What a sequence of writes may do to a store. *)
Record write_effect `{ZclFeatures} (s s' : AttributeStore) : Prop := {
  we_readable : store_readable s → store_readable s';
  we_definitions : av_definition <$> as_attrs s' = av_definition <$> as_attrs s;
  we_protected id : (∀ d, as_find s id = Some d → is_writable (ad_access d) = false) → as_get s' id = as_get s id
}.

Section Typed.
Context `{ZclFeatures}.

Lemma write_effect_refl s : write_effect s s.
Proof. by split. Qed.

Lemma as_find_definitions s s' id : av_definition <$> as_attrs s' = av_definition <$> as_attrs s → as_find s' id = as_find s id.
Proof. intros Hd. unfold as_find. by rewrite !find_definition, Hd. Qed.

Lemma write_effect_trans s1 s2 s3 : write_effect s1 s2 → write_effect s2 s3 → write_effect s1 s3.
Proof.
  intros [H1 H2 H3] [H4 H5 H6]. split; [auto|congruence|]. intros id Hid. rewrite H6, H3; [done|done|].
  intros d. rewrite (as_find_definitions s1 s2) by done. apply Hid.
Qed.

Lemma as_set_effect id v s : zv_fits v → storable (zv_data_type v) = true → write_effect s (as_set id v s).2.
Proof.
  intros Hf Hs. pose proof (as_set_well_typed id v s) as Ht. pose proof (as_get_set id v s (as_set id v s).2) as Hg. revert Ht Hg.
  rewrite as_set_eq, as_validate_set_default. destruct (default_validate_set (as_find s id) v) as [[]|e|] eqn:Hv; simpl;
    intros Ht Hg; try apply write_effect_refl. split.
  - intros [Hw Hr]. split; [by apply Ht|]. by apply modify_first_Forall.
  - apply modify_first_definitions.
  - intros id' Hid. rewrite (Hg id' eq_refl). destruct (Z.eqb_spec id' id) as [-> |]; [|done]. exfalso.
    unfold default_validate_set in Hv. destruct (as_find s id) as [d|]; [|done]. by rewrite (Hid d eq_refl) in Hv.
Qed.

Lemma write_wire_values data items r : write_wire data items → r ∈ good_items items → zv_fits (wr_value r) ∧ storable (zv_data_type (wr_value r)) = true.
Proof.
  induction 1 as [|id v bs rest items Hid Hs Hf Hd Hw IH|id dt bs st rest items Hid He Hsk Hw IH]; simpl; [by intros ?%not_elem_of_nil| |done].
  intros [-> | Hr]%elem_of_cons; [done|by apply IH].
Qed.

Lemma apply_all_effect recs s :
  (∀ r, r ∈ recs → zv_fits (wr_value r) ∧ storable (zv_data_type (wr_value r)) = true) → write_effect s (apply_all s recs).
Proof.
  revert s. induction recs as [|r recs IH]; intros s Hr; [apply write_effect_refl|].
  destruct (Hr r ltac:(by left)) as [Hf Hs]. eapply write_effect_trans; [by apply (as_set_effect (wr_id r) (wr_value r))|].
  apply IH. intros r' Hr'. apply Hr. by right.
Qed.

Lemma run_write_effect c s : Forall is_u8 (command_payload c) → write_effect s (run_write c s).2.
Proof.
  intros Hd. pose proof (parse_checked_sound (command_payload c) Hd) as Hp.
  destruct c as [data|data|data]; simpl in *; unfold handle_write, handle_write_undivided, handle_write_no_response;
    (destruct (write_request_parse_checked data) as [o|[]|]; [|apply write_effect_refl|done]);
    destruct Hp as (items & Hw & _ & Hl & ->); pose proof (good_items_length items) as Hg;
    pose proof (apply_all_effect (good_items items) s (λ r Hr, write_wire_values data items r Hw Hr)) as Heff;
    destruct (process_write_loop_eq (λ _, True) (good_items items) s [] I) as [He _]; [simpl; lia| |simpl; lia| |simpl; lia|].
  - unfold process_write_dyn. cbv [mbind stm_bind mret stm_ret]. cbn [wo_request wq_records]. by rewrite He.
  - cbn [wo_request wo_invalid_data_types]. case_bool_decide; cbn [negb].
    + destruct (process_undivided_eq (λ _, True) s (good_items items) I ltac:(lia)) as (s' & Hpu & _ & Hc).
      cbv [mbind stm_bind mret stm_ret]. rewrite Hpu. simpl. destruct Hc as [[_ ->]|[_ ->]]; [done|apply write_effect_refl].
    + cbv [get_st lift mbind stm_bind mret stm_ret]. destruct (validate_write_undivided_dyn _ _); apply write_effect_refl.
  - unfold process_write_no_response_dyn, process_write_dyn. cbv [mbind stm_bind mret stm_ret]. cbn [wo_request wq_records]. by rewrite He.
Qed.

(** C25. Write commands respect types: over any sequence of write payloads, valid
    or not, every attribute of a well-typed store keeps its definition and
    holds a value of its declared type that fits the wire format, and an
    attribute that is not writable keeps its value. *)
Theorem attribute_writes_well_typed s cs :
  store_readable s → Forall (λ c, Forall is_u8 (command_payload c)) cs →
  let s' := foldl (λ s c, (run_write c s).2) s cs in
  store_readable s' ∧ av_definition <$> as_attrs s' = av_definition <$> as_attrs s ∧
  ∀ id, (∀ d, as_find s id = Some d → is_writable (ad_access d) = false) → as_get s' id = as_get s id.
Proof.
  intros Hs Hcs. cbv zeta. enough (write_effect s (foldl (λ s c, (run_write c s).2) s cs)) as [Hr Hd Hp] by auto.
  clear Hs. revert s. induction Hcs as [|c cs Hc _ IH]; intros s; [apply write_effect_refl|].
  eapply write_effect_trans; [by apply run_write_effect|apply IH].
Qed.
End Typed.

(** * Discovery *)

(** The identifiers from [start] on, ascending, once each. *)
Definition ids_from (start : Z) (ids : list Z) : list Z :=
  merge_sort Z.le (remove_dups (filter (λ x, start <= x) ids)).

Lemma elem_of_ids_from start ids x : x ∈ ids_from start ids ↔ start <= x ∧ x ∈ ids.
Proof. unfold ids_from. by rewrite merge_sort_Permutation, elem_of_remove_dups, list_elem_of_filter. Qed.

Lemma ids_from_NoDup start ids : NoDup (ids_from start ids).
Proof. unfold ids_from. rewrite merge_sort_Permutation. apply NoDup_remove_dups. Qed.

Lemma ids_from_sorted start ids : StronglySorted Z.le (ids_from start ids).
Proof. apply StronglySorted_merge_sort; apply _. Qed.

(** Sorted lists without duplicates are determined by their elements. *)
Lemma ids_from_unique start ids l :
  StronglySorted Z.le l → NoDup l → (∀ x, x ∈ l ↔ start <= x ∧ x ∈ ids) → ids_from start ids = l.
Proof.
  intros Hs Hn Hl. eapply (StronglySorted_unique Z.le); [apply ids_from_sorted|done|].
  apply NoDup_Permutation; [apply ids_from_NoDup|done|]. intros x. by rewrite elem_of_ids_from, Hl.
Qed.

Lemma ids_from_length start ids : (length (ids_from start ids) <= length ids)%nat.
Proof.
  unfold ids_from. rewrite merge_sort_Permutation.
  trans (length (filter (λ x, start <= x) ids)); [|apply length_filter].
  generalize (filter (λ x, start <= x) ids) as l. induction l as [|x l IH]; simpl; [done|]. case_decide; simpl; lia.
Qed.

Lemma smallest_from_spec none floor ids :
  Forall (λ x, x < none) ids →
  (smallest_from none floor ids = none ∧ ids_from floor ids = []) ∨
  ∃ m, smallest_from none floor ids = m ∧ m < none ∧ m ∈ ids ∧ ids_from floor ids = m :: ids_from (m + 1) ids.
Proof.
  intros Hids.
  assert (∀ acc, acc <= none → let m := foldl (λ next v, if (floor <=? v) && (v <? next) then v else next) acc ids in
    m <= acc ∧ (m = acc ∨ m ∈ ids ∧ floor <= m) ∧ ∀ x, x ∈ ids → floor <= x → m <= x) as Hm.
  { induction Hids as [|v ids Hv _ IH]; intros acc Hacc; cbv zeta; simpl.
    { split; [done|]. split; [by left|]. by intros x ?%not_elem_of_nil. }
    destruct ((floor <=? v) && (v <? acc)) eqn:Hc; bool_simpl.
    - destruct (IH v ltac:(lia)) as (H1 & H2 & H3). split; [lia|]. split; [right; destruct H2 as [-> | [? ?]]; (split; [|done]); [by left|by right]|].
      intros x [-> | Hx]%elem_of_cons Hf; [lia|by apply H3].
    - destruct (IH acc Hacc) as (H1 & H2 & H3). split; [done|]. split; [destruct H2 as [? | [? ?]]; [by left|right; split; [by right|done]]|].
      intros x [-> | Hx]%elem_of_cons Hf; [lia|by apply H3].
    - destruct (IH acc Hacc) as (H1 & H2 & H3). split; [done|]. split; [destruct H2 as [? | [? ?]]; [by left|right; split; [by right|done]]|].
      intros x [-> | Hx]%elem_of_cons Hf; [lia|by apply H3]. }
  destruct (Hm none ltac:(lia)) as (H1 & H2 & H3). fold (smallest_from none floor ids) in *. set (m := smallest_from none floor ids) in *.
  rewrite Forall_forall in Hids. destruct (decide (m = none)) as [He|He].
  - left. split; [done|]. apply ids_from_unique; [constructor|constructor|]. intros x. split; [by intros ?%not_elem_of_nil|].
    intros [Hf Hx]. specialize (H3 x Hx Hf). specialize (Hids x Hx). simpl in Hids. lia.
  - right. exists m. destruct H2 as [? | [Hin Hf]]; [done|]. split; [done|]. split; [by apply Hids|]. split; [done|].
    apply ids_from_unique.
    + constructor; [apply ids_from_sorted|]. apply Forall_forall. intros x [? _]%elem_of_ids_from. lia.
    + constructor; [|apply ids_from_NoDup]. intros [? _]%elem_of_ids_from. lia.
    + intros x. rewrite elem_of_cons, elem_of_ids_from. split; [intros [-> | [? ?]]; [done|split; [lia|done]]|].
      intros [Hx1 Hx2]. specialize (H3 x Hx2 Hx1). destruct (decide (x = m)); [by left|right; split; [lia|done]].
Qed.

Section Discovery.
Context {St : Type} `{AttributeStoreAccess St} (store : St).

(** The store finds what it lists. *)
Definition lists_its_attributes : Prop :=
  Forall is_u16 (sa_all_ids store) ∧
  ∀ id, id ∈ sa_all_ids store → ∃ d, sa_find store id = Some d ∧ ad_id d = id.

Definition discover_info (id : Z) : DiscoverAttributeExtendedInfo :=
  match sa_find store id with
  | Some d => mk_DiscoverAttributeExtendedInfo id (ad_data_type d) (access_control (ad_access d))
  | None => mk_DiscoverAttributeExtendedInfo id DtNoData 0
  end.

Lemma discover_loop_eq fuel max floor acc :
  lists_its_attributes → (length acc <= MAX_DISCOVER)%nat → (length acc <= Z.to_nat max)%nat →
  let rest := ids_from floor (sa_all_ids store) in
  let room := (Nat.min (Z.to_nat max) MAX_DISCOVER - length acc)%nat in
  (length rest < fuel)%nat →
  discover_loop fuel store (sa_all_ids store) max floor acc =
    Ok (length rest <=? room, acc ++ (discover_info <$> take room rest))%nat.
Proof.
  intros [Hids Hfind]. revert floor acc. induction fuel as [|fuel IH]; intros floor acc Hcap Hmax rest room Hf; [lia|].
  cbn [discover_loop]. destruct (smallest_from_spec 0x10000 floor (sa_all_ids store)) as [[-> Hr]|(m & -> & Hm & Hin & Hr)].
  { eapply Forall_impl; [exact Hids|]. intros x Hx. ulia. }
  - fold rest in Hr. rewrite Hr. simpl. by rewrite take_nil, app_nil_r.
  - fold rest in Hr. rewrite Hr in Hf |- *. rewrite (proj2 (Z.ltb_ge _ _)) by lia. simpl in Hf.
    destruct (Nat.leb_spec (Z.to_nat max) (length acc)) as [Hge|Hlt].
    { replace room with 0%nat by (unfold room; lia). simpl. by rewrite app_nil_r. }
    destruct (Hfind m Hin) as (d & Hd & Hid). rewrite Hd.
    assert (mk_DiscoverAttributeExtendedInfo (ad_id d) (ad_data_type d) (access_control (ad_access d)) = discover_info m) as ->
      by (unfold discover_info; by rewrite Hd, Hid).
    destruct (decide (length acc < MAX_DISCOVER)%nat) as [Hroom|Hfull].
    + rewrite vec_push_room by done. rewrite IH by (rewrite ?length_app; simpl; lia).
      replace room with (S (Nat.min (Z.to_nat max) MAX_DISCOVER - length (acc ++ [discover_info m])))%nat
        by (unfold room; rewrite length_app; simpl; lia).
      simpl. by rewrite <- app_assoc.
    + unfold vec_push. rewrite (proj2 (Nat.ltb_ge _ _)) by lia. replace room with 0%nat by (unfold room; lia).
      simpl. by rewrite app_nil_r.
Qed.
End Discovery.

Lemma discover_commands_loop_eq fuel all max floor acc :
  Forall is_u8 all → (length acc <= MAX_DISCOVER_COMMANDS)%nat → (length acc <= Z.to_nat max)%nat →
  let rest := ids_from floor all in
  let room := (Nat.min (Z.to_nat max) MAX_DISCOVER_COMMANDS - length acc)%nat in
  (length rest < fuel)%nat →
  discover_commands_loop fuel all max floor acc = Ok (length rest <=? room, acc ++ take room rest)%nat.
Proof.
  intros Hids. revert floor acc. induction fuel as [|fuel IH]; intros floor acc Hcap Hmax rest room Hf; [lia|].
  cbn [discover_commands_loop]. destruct (smallest_from_spec 0x100 floor all) as [[-> Hr]|(m & -> & Hm & Hin & Hr)].
  { eapply Forall_impl; [exact Hids|]. intros x Hx. ulia. }
  - fold rest in Hr. rewrite Hr. simpl. by rewrite take_nil, app_nil_r.
  - fold rest in Hr. rewrite Hr in Hf |- *. rewrite (proj2 (Z.ltb_ge _ _)) by lia. simpl in Hf.
    destruct (Nat.leb_spec (Z.to_nat max) (length acc)) as [Hge|Hlt].
    { replace room with 0%nat by (unfold room; lia). simpl. by rewrite app_nil_r. }
    destruct (decide (length acc < MAX_DISCOVER_COMMANDS)%nat) as [Hroom|Hfull].
    + rewrite vec_push_room by done. rewrite IH by (rewrite ?length_app; simpl; lia).
      replace room with (S (Nat.min (Z.to_nat max) MAX_DISCOVER_COMMANDS - length (acc ++ [m])))%nat
        by (unfold room; rewrite length_app; simpl; lia).
      simpl. by rewrite <- app_assoc.
    + unfold vec_push. rewrite (proj2 (Nat.ltb_ge _ _)) by lia. replace room with 0%nat by (unfold room; lia).
      simpl. by rewrite app_nil_r.
Qed.

Lemma as_all_ids_eq s : as_all_ids s = take MAX_ALL_IDS ((λ a, ad_id (av_definition a)) <$> as_attrs s).
Proof.
  unfold as_all_ids. rewrite (foldl_push_ignore MAX_ALL_IDS (λ a, ad_id (av_definition a))) by (simpl; lia). by rewrite Nat.sub_0_r.
Qed.

Lemma store_lists_its_attributes s :
  Forall (λ a, is_u16 (ad_id (av_definition a))) (as_attrs s) → lists_its_attributes s.
Proof.
  intros Hs. unfold lists_its_attributes. simpl. rewrite as_all_ids_eq. split; [by apply Forall_take, Forall_fmap|].
  intros id Hid. apply elem_of_take in Hid as (i & Hi & _). apply list_elem_of_lookup_2, list_elem_of_fmap in Hi as (a & -> & Ha).
  unfold as_find. destruct (List.find _ _) as [b|] eqn:Hb; simpl.
  - apply List.find_some in Hb as [_ Hb]. apply Z.eqb_eq in Hb. eauto.
  - apply (List.find_none _ _) with (x := a) in Hb; [|by apply list_elem_of_In]. unfold has_id in Hb. by rewrite Z.eqb_refl in Hb.
Qed.

(** Where the last page ended, the next one goes on. *)
Lemma ids_from_next start ids k m :
  ids_from start ids !! k = Some m → ids_from (m + 1) ids = drop (S k) (ids_from start ids).
Proof.
  intros Hk. pose proof (ids_from_sorted start ids) as Hs. pose proof (ids_from_NoDup start ids) as Hn.
  rewrite <- (take_drop_middle _ _ _ Hk) in Hs, Hn. apply StronglySorted_app in Hs as (Hlt & _ & Hs).
  apply StronglySorted_inv in Hs as [Hs Hm]. apply NoDup_app in Hn as (_ & Hnd & Hn). apply NoDup_cons in Hn as [Hm' Hn].
  apply ids_from_unique; [done|done|]. intros x. rewrite Forall_forall in Hm. split.
  - intros Hx. pose proof (Hm x Hx) as Hle. assert (x ≠ m) by (by intros ->).
    assert (x ∈ ids_from start ids) as [_ ?]%elem_of_ids_from by (rewrite <- (take_drop_middle _ _ _ Hk); set_solver).
    split; [lia|done].
  - intros [Hx Hin]. assert (start <= m) by (by apply list_elem_of_lookup_2, elem_of_ids_from in Hk as [? _]).
    assert (x ∈ ids_from start ids) as Hx' by (apply elem_of_ids_from; split; [lia|done]).
    rewrite <- (take_drop_middle _ _ _ Hk) in Hx'. apply elem_of_app in Hx' as [Hx'|[-> | Hx']%elem_of_cons]; [|lia|done].
    specialize (Hlt x m Hx' ltac:(by left)). lia.
Qed.

(** Discovery is exact: the answer lists, ascending and once each, the first
    identifiers at or above the start that the request and the frame have room
    for, with the type and access the store declares; the complete flag is set
    exactly when none is left; and a request that starts behind the last answer
    goes on where it ended.  The same holds of the commands of a cluster. *)
Theorem discovery_exact s req all start max :
  Forall (λ a, is_u16 (ad_id (av_definition a))) (as_attrs s) → Forall is_u8 all →
  let listed := take 32 ((λ a, ad_id (av_definition a)) <$> as_attrs s) in
  let ids := ids_from (dq_start_id req) listed in
  let room := Nat.min (Z.to_nat (dq_max_results req)) 16 in
  let commands := ids_from start all in
  let room' := Nat.min (Z.to_nat max) 32 in
  process_discover_extended_dyn s req =
    Ok (mk_DiscoverAttributesExtendedResponse (length ids <=? room)%nat (discover_info s <$> take room ids)) ∧
  process_discover_commands all start max =
    Ok (mk_DiscoverCommandsResponse (length commands <=? room')%nat (take room' commands)) ∧
  ∀ k m, ids !! k = Some m → ids_from (m + 1) listed = drop (S k) ids.
Proof.
  intros Hs Hall listed ids room commands room'. split; [|split].
  - unfold process_discover_extended_dyn.
    rewrite (discover_loop_eq s) by (simpl; first [by apply store_lists_its_attributes | lia | pose proof (ids_from_length (dq_start_id req) (as_all_ids s)); lia]).
    simpl. by rewrite as_all_ids_eq, Nat.sub_0_r.
  - unfold process_discover_commands.
    rewrite discover_commands_loop_eq by (simpl; first [done | lia | pose proof (ids_from_length start all); lia]).
    simpl. by rewrite Nat.sub_0_r.
  - intros k m. apply ids_from_next.
Qed.

(** * Witnesses *)

Module ServerExamples.
Import FoundationExamples.
(** A good record, one of a disabled type, one for the attribute that is read only. *)
Definition payload : list Z := [5; 0; 0x20; 9] ++ [7; 0; 0x3A; 0; 0; 0; 0; 0; 0; 0; 0] ++ [3; 0; 0x21; 1; 2].

Lemma payload_octets : Forall is_u8 payload.
Proof. repeat constructor; done. Qed.

Definition payload_answers : list WriteAttributeStatusRecord :=
  [mk_WriteAttributeStatusRecord StSuccess 5; mk_WriteAttributeStatusRecord StInvalidDataType 7; mk_WriteAttributeStatusRecord StReadOnly 3].

Example payload_written :
  handle_write payload store =
    (Ok (Some (mk_WriteAttributesResponse payload_answers)),
     mk_AttributeStore [mk_AttributeValue (def 5 DtU8 AaReadWrite) (ZvU8 9); mk_AttributeValue (def 3 DtU16 AaReadOnly) (ZvU16 770)]).
Proof. by vm_compute. Qed.

Example payload_undivided : handle_write_undivided payload store = (Ok (Some (mk_WriteAttributesResponse payload_answers)), store).
Proof. by vm_compute. Qed.
End ServerExamples.

Import FoundationExamples ServerExamples.

Lemma write_answered_in_order_witness :
  ∃ items, write_wire payload items ∧ (1 <= length items <= 16)%nat ∧
    handle_write payload store = (Ok (Some (mk_WriteAttributesResponse (answer store <$> items))), apply_all store (good_items items)).
Proof.
  destruct (write_answered_in_order (λ _ : AttributeStore, True) store payload payload_octets I) as [[_ Hp]|(items & Hw & Hl & Hh & _)].
  - vm_compute in Hp. discriminate Hp.
  - exists items. split; [exact Hw|]. split; [exact Hl|exact Hh].
Defined.

Lemma write_undivided_atomic_witness :
  ∃ items, write_wire payload items ∧ ¬ Forall (writable store) items ∧ (handle_write_undivided payload store).2 = store.
Proof.
  destruct (write_undivided_atomic (λ _ : AttributeStore, True) store payload payload_octets I)
    as [[_ Hp]|(items & s' & Hw & _ & Hh & _ & [(Ha & _ & Hs)|[Hn Hs]])].
  - vm_compute in Hp. discriminate Hp.
  - exfalso. rewrite payload_undivided in Hh. injection Hh as Hh _. rewrite <- Hh in Hs.
    apply Forall_cons in Hs as [_ Hs]. apply Forall_cons in Hs as [Hs _]. discriminate Hs.
  - exists items. split; [exact Hw|]. split; [exact Hn|]. rewrite Hh. exact Hs.
Defined.

Lemma attribute_writes_well_typed_witness :
  store_readable (foldl (λ s c, (run_write c s).2) store [WcWrite payload; WcUndivided payload; WcNoResponse [1]]).
Proof.
  apply (attribute_writes_well_typed store [WcWrite payload; WcUndivided payload; WcNoResponse [1]] store_readable_ex).
  repeat constructor; done.
Defined.

Lemma discovery_exact_witness :
  process_discover_extended_dyn store (mk_DiscoverAttributesRequest 1 1) =
    Ok (mk_DiscoverAttributesExtendedResponse false [mk_DiscoverAttributeExtendedInfo 3 DtU16 5]).
Proof.
  destruct (discovery_exact store (mk_DiscoverAttributesRequest 1 1) [4; 2] 0 10) as [Hd _]; [repeat constructor; done|repeat constructor; done|].
  exact Hd.
Defined.
