(* ===== verification/ZclReporting.v ===== *)
(** * ZCL attribute reporting

    [zigbee-zcl/src/foundation/reporting.rs], in the build without the memory
    features: the records of the reporting commands and the engine that decides
    when an attribute is reported. *)

From S2P Require Import Prelude Effects ZclValues ZclFrame ZclAttributes ZclFoundation.
Local Open Scope Z_scope.

Definition MAX_REPORT_CONFIGS : nat := 16.

Inductive ReportDirection := RdSend | RdReceive.
#[export] Instance ReportDirection_eq_dec : EqDecision ReportDirection.
Proof. solve_decision. Defined.

Definition direction_code (d : ReportDirection) : Z := match d with RdSend => 0x00 | RdReceive => 0x01 end.

Record ReportingConfig := mk_ReportingConfig {
  rc_direction : ReportDirection;
  rc_attribute_id : Z;
  rc_data_type : ZclDataType;
  rc_min_interval : Z;
  rc_max_interval : Z;
  rc_reportable_change : option ZclValue
}.

(** * Configure Reporting *)

Record ConfigureReportingRequest := mk_ConfigureReportingRequest { cr_configs : list ReportingConfig }.
Record ConfigureReportingStatusRecord := mk_ConfigureReportingStatusRecord {
  cs_status : ZclStatus; cs_direction : ReportDirection; cs_attribute_id : Z
}.
Record ConfigureReportingResponse := mk_ConfigureReportingResponse { cp_records : list ConfigureReportingStatusRecord }.

Fixpoint put_config_statuses (records : list ConfigureReportingStatusRecord) (pos : nat) : writer nat :=
  match records with
  | [] => mret pos
  | rec :: records =>
      buf ← get_st;
      if (length buf <? pos + 4)%nat then mret pos
      else
        _ ← put_octet pos (status_code (cs_status rec));
        _ ← put_octet (pos + 1) (direction_code (cs_direction rec));
        b0 ← lift (index (u16_to_le (cs_attribute_id rec)) 0); _ ← put_octet (pos + 2) b0;
        b1 ← lift (index (u16_to_le (cs_attribute_id rec)) 1); _ ← put_octet (pos + 3) b1;
        put_config_statuses records (pos + 4)
  end.

Definition configure_response_serialize (r : ConfigureReportingResponse) : writer nat :=
  if forallb (λ r, bool_decide (cs_status r = StSuccess)) (cp_records r) then
    buf ← get_st;
    if bool_decide (buf = []) then mret 0%nat
    else _ ← put_octet 0 (status_code StSuccess); mret 1%nat
  else put_config_statuses (cp_records r) 0.

Definition direction_from_u8 (b : Z) : option ReportDirection :=
  match b with 0x00 => Some RdSend | 0x01 => Some RdReceive | _ => None end.

Section Features.
Context `{ZclFeatures}.

Definition parse_record (data : list Z) : fallible (ReportingConfig * nat) :=
  b ← try_opt (data !! 0%nat);
  direction ← try_opt (direction_from_u8 b);
  if (length data <? 3)%nat then Err ()
  else
    b0 ← index data 1; b1 ← index data 2;
    let attr_id := u16_from_le b0 b1 in
    match direction with
    | RdSend =>
        if (length data <? 8)%nat then Err ()
        else
          b ← index data 3;
          dt ← try_opt (data_type_from_u8 b);
          m0 ← index data 4; m1 ← index data 5;
          x0 ← index data 6; x1 ← index data 7;
          '(change, i) ←
            (if is_analog_type dt then
               rest ← slice data 8 (length data);
               '(val, consumed) ← deserialize dt rest;
               Ok (Some val, (8 + consumed)%nat)
             else Ok (None, 8%nat));
          Ok (mk_ReportingConfig RdSend attr_id dt (u16_from_le m0 m1) (u16_from_le x0 x1) change, i)
    | RdReceive =>
        if (length data <? 5)%nat then Err ()
        else
          t0 ← index data 3; t1 ← index data 4;
          Ok (mk_ReportingConfig RdReceive attr_id DtNoData 0 (u16_from_le t0 t1) None, 5%nat)
    end.

Fixpoint configure_request_loop (fuel : nat) (rest : list Z) (configs : list ReportingConfig) : fallible (list ReportingConfig) :=
  match rest with
  | [] => Ok configs
  | _ =>
      match fuel with
      | O => Panic
      | S fuel =>
          '(config, consumed) ← parse_record rest;
          configs ← try_opt (vec_push MAX_REPORT_CONFIGS configs config);
          configure_request_loop fuel (drop consumed rest) configs
      end
  end.

Definition configure_request_parse (data : list Z) : fallible ConfigureReportingRequest :=
  if bool_decide (data = []) then Err ()
  else
    configs ← configure_request_loop (length data) data [];
    Ok (mk_ConfigureReportingRequest configs).
End Features.

Definition encode_record (c : ReportingConfig) : writer nat :=
  _ ← get_range 0 3;
  _ ← put_octet 0 (direction_code (rc_direction c));
  _ ← put_slice 1 (u16_to_le (rc_attribute_id c));
  if bool_decide (rc_direction c = RdReceive) then
    _ ← get_range 3 5;
    _ ← put_slice 3 (u16_to_le (rc_max_interval c));
    mret 5%nat
  else
    _ ← get_range 3 8;
    _ ← put_octet 3 (data_type_code (rc_data_type c));
    _ ← put_slice 4 (u16_to_le (rc_min_interval c));
    _ ← put_slice 6 (u16_to_le (rc_max_interval c));
    if negb (is_analog_type (rc_data_type c)) then mret 8%nat
    else
      change ← lift (try_opt (rc_reportable_change c));
      n ← on_rest_opt 8 (try_serialize change);
      mret (8 + n)%nat.

(** * Report Attributes *)

Record AttributeReport := mk_AttributeReport { ar_id : Z; ar_data_type : ZclDataType; ar_value : ZclValue }.
Record ReportAttributes := mk_ReportAttributes { ra_reports : list AttributeReport }.

Definition put_report (rpt : AttributeReport) : writer nat :=
  _ ← get_range 0 3;
  _ ← put_slice 0 (u16_to_le (ar_id rpt));
  _ ← put_octet 2 (data_type_code (ar_data_type rpt));
  n ← on_rest 3 (try_serialize (ar_value rpt));
  mret (3 + n)%nat.

Definition report_attributes_serialize (r : ReportAttributes) : writer nat := write_records put_report (ra_reports r) 0.

Fixpoint records_fitting_loop (reports : list AttributeReport) (capacity used count : nat) : nat :=
  match reports with
  | [] => count
  | rpt :: reports =>
      let used := (used + (3 + wire_len (ar_value rpt)))%nat in
      if (capacity <? used)%nat then count else records_fitting_loop reports capacity used (count + 1)
  end.

Definition records_fitting (r : ReportAttributes) (capacity : nat) : nat := records_fitting_loop (ra_reports r) capacity 0 0.

(** * The reporting engine *)

Record ReportState := mk_ReportState {
  st_endpoint : Z;
  st_cluster_id : Z;
  st_config : ReportingConfig;
  st_elapsed : Z;
  st_last_value : option ZclValue;
  st_forced : bool
}.

Definition report_due `{ZclFeatures} (s : ReportState) (current : ZclValue) : bool :=
  let c := st_config s in
  if st_forced s then true
  else if rc_max_interval c =? 0xFFFF then false
  else if negb (rc_max_interval c =? 0) && (rc_max_interval c <=? st_elapsed s) then true
  else if st_elapsed s <? rc_min_interval c then false
  else
    match st_last_value s, rc_reportable_change c with
    | Some last, Some change => exceeds_threshold current last change
    | Some last, None => negb (zv_eq last current)
    | None, _ => true
    end.

Definition reported (current : ZclValue) (s : ReportState) : ReportState :=
  mk_ReportState (st_endpoint s) (st_cluster_id s) (st_config s) 0 (Some current) false.

Record ReportingEngine := mk_ReportingEngine { re_states : list ReportState }.

Definition engine_new : ReportingEngine := mk_ReportingEngine [].

(** The state a configuration replaces. *)
Definition configures (endpoint cluster_id : Z) (config : ReportingConfig) (s : ReportState) : bool :=
  (st_endpoint s =? endpoint) && (st_cluster_id s =? cluster_id)
  && (rc_attribute_id (st_config s) =? rc_attribute_id config) && bool_decide (rc_direction (st_config s) = rc_direction config).

Definition fresh_state (endpoint cluster_id : Z) (config : ReportingConfig) : ReportState :=
  mk_ReportState endpoint cluster_id config 0 None false.

Definition configure_for_cluster (endpoint cluster_id : Z) (config : ReportingConfig) : stm ReportingEngine ZclStatus unit :=
  e ← get_st;
  match position (configures endpoint cluster_id config) (re_states e) with
  | Some i =>
      modify_st (λ _, mk_ReportingEngine
        (alter (λ s, fresh_state (st_endpoint s) (st_cluster_id s) config) i (re_states e)))
  | None =>
      match vec_push MAX_REPORT_CONFIGS (re_states e) (fresh_state endpoint cluster_id config) with
      | Some l => modify_st (λ _, mk_ReportingEngine l)
      | None => throw StInsufficientSpace
      end
  end.

Definition configure (config : ReportingConfig) : stm ReportingEngine ZclStatus unit := configure_for_cluster 0 0 config.

Definition engine_tick (elapsed_secs : Z) (e : ReportingEngine) : ReportingEngine :=
  mk_ReportingEngine ((λ s, mk_ReportState (st_endpoint s) (st_cluster_id s) (st_config s)
    (saturating_add_u16 (st_elapsed s) elapsed_secs) (st_last_value s) (st_forced s)) <$> re_states e).

Definition force_all_due (e : ReportingEngine) : ReportingEngine :=
  mk_ReportingEngine ((λ s,
    if bool_decide (rc_direction (st_config s) = RdSend)
    then mk_ReportState (st_endpoint s) (st_cluster_id s) (st_config s) (st_elapsed s) (st_last_value s) true
    else s) <$> re_states e).

Section Check.
Context `{ZclFeatures} {St : Type} `{AttributeStoreAccess St}.

(** One turn of the loop over the states: the reports collected so far, in a
    vector of [MAX_REPORT_CONFIGS], and the state left behind. *)
Definition check_state (selected : ReportState → bool) (store : St) (out : list AttributeReport) (s : ReportState) :
    list AttributeReport * ReportState :=
  if negb (bool_decide (rc_direction (st_config s) = RdSend)) then (out, s)
  else if negb (selected s) then (out, s)
  else
    match sa_get store (rc_attribute_id (st_config s)) with
    | None => (out, s)
    | Some current =>
        if report_due s current then
          (match sa_find store (rc_attribute_id (st_config s)) with
           | Some def =>
               vec_push_ignore MAX_REPORT_CONFIGS out
                 (mk_AttributeReport (rc_attribute_id (st_config s)) (ad_data_type def) current)
           | None => out
           end, reported current s)
        else (out, s)
    end.

Fixpoint check_states (selected : ReportState → bool) (store : St) (states : list ReportState) (out : list AttributeReport) :
    list AttributeReport * list ReportState :=
  match states with
  | [] => (out, [])
  | s :: states =>
      let '(out, s) := check_state selected store out s in
      let '(out, states) := check_states selected store states out in
      (out, s :: states)
  end.

(** The filter of [check_and_report_filtered]. *)
Definition passes_filter (filter_ep filter_cluster : option Z) (s : ReportState) : bool :=
  match filter_ep with Some ep => st_endpoint s =? ep | None => true end
  && match filter_cluster with Some cl => st_cluster_id s =? cl | None => true end.

Definition check_and_report_filtered (filter_ep filter_cluster : option Z) (store : St) (e : ReportingEngine) :
    option ReportAttributes * ReportingEngine :=
  let '(reports, states) := check_states (passes_filter filter_ep filter_cluster) store (re_states e) [] in
  (if bool_decide (length reports = 0%nat) then None else Some (mk_ReportAttributes reports), mk_ReportingEngine states).

Definition check_and_report (store : St) (e : ReportingEngine) : option ReportAttributes * ReportingEngine :=
  check_and_report_filtered None None store e.

Definition check_and_report_cluster (endpoint cluster_id : Z) (store : St) (e : ReportingEngine) :
    option ReportAttributes * ReportingEngine :=
  check_and_report_filtered (Some endpoint) (Some cluster_id) store e.

Definition check_and_collect_dyn (endpoint cluster_id : Z) (store : St) (out : list AttributeReport) (e : ReportingEngine) :
    list AttributeReport * ReportingEngine :=
  let '(out, states) :=
    check_states (λ s, negb (negb (st_endpoint s =? endpoint) || negb (st_cluster_id s =? cluster_id))) store (re_states e) out in
  (out, mk_ReportingEngine states).
End Check.

Definition has_cluster_configured (endpoint cluster_id : Z) (e : ReportingEngine) : bool :=
  existsb (λ s, (st_endpoint s =? endpoint) && (st_cluster_id s =? cluster_id)) (re_states e).

(** [configured_cluster_count]: the count and the clusters seen. *)
Definition configured_cluster_count (endpoint : Z) (e : ReportingEngine) : Z :=
  (foldl (λ '(count, seen) s,
     if (st_endpoint s =? endpoint) && negb (bool_decide (st_cluster_id s ∈ seen))
     then (count + 1, vec_push_ignore MAX_REPORT_CONFIGS seen (st_cluster_id s))
     else (count, seen)) (0, []) (re_states e)).1.

Definition get_config (endpoint cluster_id : Z) (direction : ReportDirection) (attr_id : Z) (e : ReportingEngine) : option ReportingConfig :=
  st_config <$> List.find (λ s, (st_endpoint s =? endpoint) && (st_cluster_id s =? cluster_id)
    && bool_decide (rc_direction (st_config s) = direction) && (rc_attribute_id (st_config s) =? attr_id)) (re_states e).

Definition engine_configs (e : ReportingEngine) : list (Z * Z * ReportingConfig) :=
  (λ s, (st_endpoint s, st_cluster_id s, st_config s)) <$> re_states e.

(** * Read Reporting Configuration *)

Record ReadReportingConfigRecord := mk_ReadReportingConfigRecord { rq_direction : ReportDirection; rq_attribute_id : Z }.
Record ReadReportingConfigRequest := mk_ReadReportingConfigRequest { rq_records : list ReadReportingConfigRecord }.

Fixpoint read_config_loop (fuel : nat) (rest : list Z) (records : list ReadReportingConfigRecord) : fallible (list ReadReportingConfigRecord) :=
  if (length rest <? 3)%nat then Ok records
  else
    match fuel with
    | O => Panic
    | S fuel =>
        b ← index rest 0;
        direction ← try_opt (direction_from_u8 b);
        b0 ← index rest 1; b1 ← index rest 2;
        records ← try_opt (vec_push MAX_REPORT_CONFIGS records (mk_ReadReportingConfigRecord direction (u16_from_le b0 b1)));
        read_config_loop fuel (drop 3 rest) records
    end.

Definition read_config_request_parse (data : list Z) : fallible ReadReportingConfigRequest :=
  if bool_decide (data = []) || negb (length data mod 3 =? 0)%nat then Err ()
  else records ← read_config_loop (length data) data []; Ok (mk_ReadReportingConfigRequest records).

Record ReadReportingConfigResponseRecord := mk_ReadReportingConfigResponseRecord {
  rp_status : ZclStatus;
  rp_direction : ReportDirection;
  rp_attribute_id : Z;
  rp_config : option ReportingConfig;
  rp_timeout : option Z
}.
Record ReadReportingConfigResponse := mk_ReadReportingConfigResponse { rp_records : list ReadReportingConfigResponseRecord }.

(** The body of a record and the status that goes in front of it. *)
Definition config_record_body (rec : ReadReportingConfigResponseRecord) : writer (ZclStatus * nat) :=
  if bool_decide (rp_status rec = StSuccess) then
    match rp_direction rec, rp_config rec, rp_timeout rec with
    | RdSend, Some cfg, _ =>
        _ ← get_range 4 9;
        _ ← put_octet 4 (data_type_code (rc_data_type cfg));
        _ ← put_slice 5 (u16_to_le (rc_min_interval cfg));
        _ ← put_slice 7 (u16_to_le (rc_max_interval cfg));
        if is_analog_type (rc_data_type cfg) then
          match rc_reportable_change cfg with
          | Some change => n ← on_rest 9 (try_serialize change); mret (StSuccess, (9 + n)%nat)
          | None => mret (StFailure, 4%nat)
          end
        else mret (StSuccess, 9%nat)
    | RdReceive, _, Some timeout =>
        _ ← get_range 4 6;
        _ ← put_slice 4 (u16_to_le timeout);
        mret (StSuccess, 6%nat)
    | _, _, _ => mret (StFailure, 4%nat)
    end
  else mret (rp_status rec, 4%nat).

Definition config_record_serialize_into (rec : ReadReportingConfigResponseRecord) : writer nat :=
  _ ← get_range 0 4;
  _ ← put_octet 1 (direction_code (rp_direction rec));
  _ ← put_slice 2 (u16_to_le (rp_attribute_id rec));
  '(status, pos) ← config_record_body rec;
  _ ← put_octet 0 (status_code status);
  mret pos.

Definition read_config_response_serialize (r : ReadReportingConfigResponse) : writer nat :=
  write_records config_record_serialize_into (rp_records r) 0.

(** * The record format *)

Definition config_octets (c : ReportingConfig) : list Z :=
  direction_code (rc_direction c) :: u16_to_le (rc_attribute_id c) ++
  match rc_direction c with
  | RdReceive => u16_to_le (rc_max_interval c)
  | RdSend =>
      data_type_code (rc_data_type c) :: u16_to_le (rc_min_interval c) ++ u16_to_le (rc_max_interval c) ++
      match rc_reportable_change c with Some v => zv_octets v | None => [] end
  end.

(** A configuration a record can carry: an analog type has a reportable change
    of that type, no other type has one; a receiver has only a timeout. *)
Definition config_wf `{ZclFeatures} (c : ReportingConfig) : Prop :=
  is_u16 (rc_attribute_id c) ∧ is_u16 (rc_max_interval c) ∧
  match rc_direction c with
  | RdReceive => rc_data_type c = DtNoData ∧ rc_min_interval c = 0 ∧ rc_reportable_change c = None
  | RdSend =>
      is_u16 (rc_min_interval c) ∧
      match rc_reportable_change c with
      | Some v => is_analog_type (rc_data_type c) = true ∧ zv_data_type v = rc_data_type c ∧ zv_fits v ∧ storable (rc_data_type c) = true
      | None => is_analog_type (rc_data_type c) = false
      end
  end.

Lemma analog_denotes bs v : is_analog_type (zv_data_type v) = true → denotes bs v → bs = zv_octets v.
Proof. by destruct v. Qed.

Lemma direction_from_Some b d : direction_from_u8 b = Some d → b = direction_code d.
Proof. unfold direction_from_u8. repeat case_match; by intros [= <-]. Qed.

Lemma u16_low a b : is_u8 a → is_u8 b → Z.land (u16_from_le a b) 255 = a.
Proof. intros Ha Hb. by injection (u16_to_from_le a b Ha Hb). Qed.
Lemma u16_high a b : is_u8 a → is_u8 b → Z.land (u16_from_le a b ≫ 8) 255 = b.
Proof. intros Ha Hb. by injection (u16_to_from_le a b Ha Hb). Qed.

Section Codec.
Context `{ZclFeatures}.

Lemma parse_record_octets c rest : config_wf c → parse_record (config_octets c ++ rest) = Ok (c, length (config_octets c)).
Proof.
  intros (Ha & Hx & Hc). destruct c as [d a dt mn mx ch]. unfold config_octets. simpl in *.
  unfold parse_record. destruct d; cbn [direction_code u16_to_le app lookup list_lookup try_opt mbind outcome_bind direction_from_u8].
  - destruct Hc as [Hm Hch]. cbn -[deserialize slice data_type_code zv_octets u16_from_le u16_to_le data_type_from_u8].
    rewrite data_type_from_code. cbn -[deserialize slice data_type_code zv_octets u16_from_le u16_to_le].
    rewrite !u16_from_to_le by done. destruct ch as [v|].
    + destruct Hch as (-> & <- & Hf & Hs). rewrite slice_suffix by (simpl; lia). cbn [mbind outcome_bind drop].
      rewrite ?drop_0, deserialize_complete by (done || by apply zv_octets_denote, Hf). done.
    + rewrite Hch. done.
  - destruct Hc as (-> & -> & ->). cbn -[u16_from_le]. by rewrite !u16_from_to_le by done.
Qed.

Lemma parse_record_sound data c n :
  Forall is_u8 data → parse_record data = Ok (c, n) →
  config_wf c ∧ ∃ rest, data = config_octets c ++ rest ∧ n = length (config_octets c).
Proof.
  intros Hd. unfold parse_record. destruct data as [|b data]; [done|]. cbn [lookup list_lookup try_opt mbind outcome_bind].
  destruct (direction_from_u8 b) as [d|] eqn:Hdir; [|done]. apply direction_from_Some in Hdir as ->. cbn [try_opt mbind outcome_bind].
  destruct data as [|a0 [|a1 data]]; [done..|]. apply Forall_cons in Hd as [_ Hd]. do 2 (apply Forall_cons in Hd as [? Hd]).
  cbn -[deserialize slice data_type_code zv_octets u16_from_le data_type_from_u8 is_analog_type]. destruct d.
  - destruct data as [|b [|m0 [|m1 [|x0 [|x1 data]]]]]; [done..|]. do 5 (apply Forall_cons in Hd as [? Hd]).
    cbn -[deserialize slice data_type_code zv_octets u16_from_le data_type_from_u8 is_analog_type].
    destruct (data_type_from_u8 b) as [dt|] eqn:Hdt; [|done]. apply data_type_from_Some in Hdt as ->; [|done].
    cbn -[deserialize slice data_type_code zv_octets u16_from_le is_analog_type].
    destruct (is_analog_type dt) eqn:Han.
    + rewrite slice_suffix by (simpl; lia). cbn [mbind outcome_bind drop]. rewrite drop_0.
      destruct (deserialize dt data) as [[v k]| |] eqn:Hv; [|done|done]. cbn [mbind outcome_bind]. intros [= <- <-].
      destruct (deserialize_sound dt data v k Hd Hv) as (Hs & <- & Hf & bs & rest & -> & -> & Hb).
      apply analog_denotes in Hb as ->; [|done]. split; [unfold config_wf; simpl; auto 10 using u16_from_le_range|].
      exists rest. unfold config_octets, u16_to_le. cbn [rc_direction rc_attribute_id rc_data_type rc_min_interval rc_max_interval rc_reportable_change].
      rewrite !u16_low, !u16_high by done. done.
    + intros [= <- <-]. split; [unfold config_wf; simpl; auto 10 using u16_from_le_range|]. exists data. unfold config_octets.
      unfold u16_to_le. cbn [rc_direction rc_attribute_id rc_data_type rc_min_interval rc_max_interval rc_reportable_change].
      rewrite !u16_low, !u16_high by done. done.
  - destruct data as [|t0 [|t1 data]]; [done..|]. do 2 (apply Forall_cons in Hd as [? Hd]). simpl. intros [= <- <-].
    split; [unfold config_wf; simpl; auto 10 using u16_from_le_range|]. exists data. unfold config_octets, u16_to_le.
    cbn [rc_direction rc_attribute_id rc_data_type rc_min_interval rc_max_interval rc_reportable_change].
    rewrite !u16_low, !u16_high by done. done.
Qed.

Lemma parse_record_no_panic data : Forall is_u8 data → parse_record data ≠ Panic.
Proof.
  intros Hd. unfold parse_record. destruct data as [|b data]; [done|]. cbn [lookup list_lookup try_opt mbind outcome_bind].
  destruct (direction_from_u8 b) as [d|]; [|done]. cbn [try_opt mbind outcome_bind].
  destruct data as [|a0 [|a1 data]]; [done..|]. apply Forall_cons in Hd as [_ Hd]. do 2 (apply Forall_cons in Hd as [? Hd]).
  cbn -[deserialize slice u16_from_le data_type_from_u8 is_analog_type]. destruct d.
  - destruct data as [|b' [|m0 [|m1 [|x0 [|x1 data]]]]]; [done..|]. do 5 (apply Forall_cons in Hd as [? Hd]).
    cbn -[deserialize slice u16_from_le data_type_from_u8 is_analog_type].
    destruct (data_type_from_u8 b') as [dt|]; [|done]. cbn -[deserialize slice u16_from_le is_analog_type].
    destruct (is_analog_type dt); [|done]. rewrite slice_suffix by (simpl; lia). cbn [mbind outcome_bind drop]. rewrite drop_0.
    pose proof (deserialize_no_panic dt data Hd). by destruct (deserialize dt data) as [[v k]| |].
  - by destruct data as [|t0 [|t1 data]].
Qed.
End Codec.

Lemma encode_record_encodes `{ZclFeatures} c : config_wf c → encodes (encode_record c) (config_octets c).
Proof.
  intros (Ha & Hx & Hc). destruct c as [d a dt mn mx ch]. unfold config_octets. simpl in *. intros buf.
  destruct buf as [|y0 [|y1 [|y2 buf]]]; [split; [simpl; lia|intros _; by eexists]..|].
  destruct d.
  - destruct buf as [|y3 [|y4 [|y5 [|y6 [|y7 buf]]]]]; [split; [simpl; lia|intros _; by eexists]..|].
    destruct Hc as [Hm Hch]. destruct ch as [v|].
    + destruct Hch as (Han & Ht & Hf & _).
      pose proof (encodes_whole_encodes _ _ (try_serialize_whole v (proj1 Hf)) buf) as [Hok Herr].
      unfold encode_record. cbn [rc_direction rc_data_type rc_reportable_change rc_attribute_id rc_min_interval rc_max_interval].
      rewrite (bool_decide_false (RdSend = RdReceive)) by done. rewrite Han. cbn [negb].
      split; intros Hl; simpl in Hl.
      * do 8 (erewrite stm_bind_Ok by done). erewrite stm_bind_Ok.
        2:{ unfold on_rest_opt, on_rest. cbn -[try_serialize zv_octets]. rewrite ?drop_0. by rewrite Hok by lia. }
        done.
      * destruct Herr as (buf' & Hb & Hl'); [lia|]. eexists. do 8 (erewrite stm_bind_Ok by done). erewrite stm_bind_Err.
        2:{ unfold on_rest_opt, on_rest. cbn -[try_serialize zv_octets]. rewrite ?drop_0. by rewrite Hb. }
        split; [done|]. simpl. by rewrite Hl'.
    + split; [intros _|simpl; lia]. unfold encode_record. simpl. rewrite Hch. done.
  - destruct buf as [|y3 [|y4 buf]]; [split; [simpl; lia|intros _; by eexists]..|]. split; [done|simpl; lia].
Qed.

(** * Report Attributes *)

Definition report_octets (r : AttributeReport) : list Z :=
  u16_to_le (ar_id r) ++ data_type_code (ar_data_type r) :: zv_octets (ar_value r).

Lemma put_report_encodes r : zv_wf (ar_value r) → encodes (put_report r) (report_octets r).
Proof.
  intros Hwf. destruct r as [id dt v]. simpl in Hwf. intros buf.
  destruct buf as [|x0 [|x1 [|x2 buf]]]; [split; [simpl; lia|intros _; by eexists]..|].
  pose proof (encodes_whole_encodes _ _ (try_serialize_whole v Hwf) buf) as [Hok Herr]. unfold put_report, report_octets. simpl.
  split; intros Hl.
  - do 3 (erewrite stm_bind_Ok by done). erewrite stm_bind_Ok.
    2:{ unfold on_rest. cbn -[try_serialize zv_octets]. rewrite drop_0. by rewrite Hok by lia. }
    done.
  - destruct Herr as (buf' & Hb & Hl'); [lia|]. eexists. do 3 (erewrite stm_bind_Ok by done). erewrite stm_bind_Err.
    2:{ unfold on_rest. cbn -[try_serialize zv_octets]. rewrite drop_0. by rewrite Hb. }
    split; [done|]. simpl. by rewrite Hl'.
Qed.

Lemma records_fitting_loop_eq reports capacity used count :
  Forall (λ r, zv_wf (ar_value r)) reports → (used <= capacity)%nat →
  records_fitting_loop reports capacity used count = (count + fitting (capacity - used) (report_octets <$> reports))%nat.
Proof.
  intros Hwf. revert used count. induction Hwf as [|r reports Hr _ IH]; intros used count Hu; [simpl; lia|].
  cbn [records_fitting_loop fmap list_fmap fitting].
  assert (length (report_octets r) = 3 + wire_len (ar_value r))%nat as -> by (simpl; by rewrite (length_zv_octets _ Hr)).
  set (w := (3 + wire_len (ar_value r))%nat).
  destruct (Nat.ltb_spec capacity (used + w)) as [Hlt|Hge].
  - rewrite (proj2 (Nat.leb_gt _ _)) by lia. lia.
  - rewrite (proj2 (Nat.leb_le _ _)) by lia. rewrite IH by lia. rewrite Nat.sub_add_distr. lia.
Qed.

(** A Report Attributes payload carries exactly the records announced:
    [serialize] writes the octets of the first [records_fitting] reports, whole
    and in order, it is all of them when there is room, and it never aborts. *)
Theorem report_payload_exact r buf :
  Forall (λ r, zv_wf (ar_value r)) (ra_reports r) →
  let k := records_fitting r (length buf) in
  let octets := concat (report_octets <$> take k (ra_reports r)) in
  ∃ buf', report_attributes_serialize r buf = (Ok (length octets), buf') ∧ length buf' = length buf ∧
    take (length octets) buf' = octets ∧ (length octets <= length buf)%nat ∧
    (k = length (ra_reports r) ∨ (length buf < length (concat (report_octets <$> take (S k) (ra_reports r))))%nat).
Proof.
  intros Hwf. cbv zeta. unfold records_fitting. rewrite records_fitting_loop_eq by (done || lia). rewrite Nat.sub_0_r. simpl Nat.add.
  set (k := fitting (length buf) (report_octets <$> ra_reports r)).
  destruct (write_records_spec put_report report_octets (ra_reports r) [] buf) as (buf' & Hw & Hl & Ht); [|simpl; lia|].
  { intros x Hx. apply put_report_encodes. rewrite Forall_forall in Hwf. by apply Hwf. }
  simpl in Hw, Hl, Ht. rewrite Nat.sub_0_r in Hw, Ht. fold k in Hw, Ht. rewrite fmap_take. exists buf'.
  split; [done|]. split; [done|]. split; [done|]. split; [apply fitting_room|].
  pose proof (fitting_le (length buf) (report_octets <$> ra_reports r)) as Hk. fold k in Hk. rewrite length_fmap in Hk.
  destruct (decide (k = length (ra_reports r))) as [|Hne]; [by left|right]. rewrite fmap_take.
  apply fitting_next. fold k. rewrite length_fmap. lia.
Qed.

(** The reporting record codec is exact: parsing never aborts and accepts
    exactly the octets of a configuration that a record can carry, with
    anything behind them; [encode_record] is its inverse. *)
Theorem reporting_record_codec `{ZclFeatures} c data n buf :
  Forall is_u8 data →
  parse_record data ≠ Panic ∧
  (parse_record data = Ok (c, n) ↔ config_wf c ∧ ∃ rest, data = config_octets c ++ rest ∧ n = length (config_octets c)) ∧
  (config_wf c → (length (config_octets c) <= length buf)%nat →
   ∃ buf', encode_record c buf = (Ok (length (config_octets c)), buf') ∧ parse_record buf' = Ok (c, length (config_octets c))).
Proof.
  intros Hd. split; [by apply parse_record_no_panic|]. split.
  - split; [by apply parse_record_sound|]. intros (Hc & rest & -> & ->). by apply parse_record_octets.
  - intros Hc Hl. exists (written (config_octets c) buf). split; [by apply encode_record_encodes|]. by apply parse_record_octets.
Qed.

(** * When a report is due

    The specification of the engine keeps, for every configured report, the
    time of the last report on an unbounded clock. *)

Record schedule := mk_schedule {
  sd_endpoint : Z; sd_cluster : Z; sd_config : ReportingConfig; sd_since : Z; sd_last : option ZclValue; sd_forced : bool
}.

Record spec_engine := mk_spec_engine { se_now : Z; se_schedules : list schedule }.

Section Spec.
Context `{ZclFeatures}.

(** The value differs reportably from the one last reported. *)
Definition changed (last : option ZclValue) (change : option ZclValue) (v : ZclValue) : bool :=
  match last, change with
  | Some last, Some change => exceeds_threshold v last change
  | Some last, None => negb (zv_eq last v)
  | None, _ => true
  end.

(** Automatic reports stop at maximum interval 0xFFFF; otherwise a report is
    due when the maximum interval, if any, is over, or when the minimum
    interval is over and the value changed. *)
Definition due_at (now : Z) (d : schedule) (v : ZclValue) : bool :=
  let c := sd_config d in
  sd_forced d ||
  (negb (rc_max_interval c =? 0xFFFF) &&
   ((negb (rc_max_interval c =? 0) && (rc_max_interval c <=? now - sd_since d)) ||
    ((rc_min_interval c <=? now - sd_since d) && changed (sd_last d) (rc_reportable_change c) v))).

(** What the engine is asked. *)
Inductive engine_op :=
| EoConfigure (endpoint cluster_id : Z) (config : ReportingConfig)
| EoTick (secs : Z)
| EoForce
| EoCollect (endpoint cluster_id : Z) (store : AttributeStore).

Inductive engine_answer := EaConfigured (r : outcome ZclStatus unit) | EaDone | EaReports (l : list AttributeReport).

Definition engine_step (op : engine_op) (e : ReportingEngine) : engine_answer * ReportingEngine :=
  match op with
  | EoConfigure ep cl c => let '(r, e) := configure_for_cluster ep cl c e in (EaConfigured r, e)
  | EoTick n => (EaDone, engine_tick n e)
  | EoForce => (EaDone, force_all_due e)
  | EoCollect ep cl store => let '(l, e) := check_and_collect_dyn ep cl store [] e in (EaReports l, e)
  end.

Fixpoint engine_run (ops : list engine_op) (e : ReportingEngine) : list engine_answer * ReportingEngine :=
  match ops with
  | [] => ([], e)
  | op :: ops => let '(a, e) := engine_step op e in let '(l, e) := engine_run ops e in (a :: l, e)
  end.

Definition same_key (ep cl : Z) (c : ReportingConfig) (d : schedule) : bool :=
  (sd_endpoint d =? ep) && (sd_cluster d =? cl) && (rc_attribute_id (sd_config d) =? rc_attribute_id c)
  && bool_decide (rc_direction (sd_config d) = rc_direction c).

(** The report of one schedule, if it is selected, sends, and is due. *)
Definition due_report (now ep cl : Z) (store : AttributeStore) (d : schedule) : option AttributeReport :=
  if bool_decide (rc_direction (sd_config d) = RdSend) && (sd_endpoint d =? ep) && (sd_cluster d =? cl) then
    match List.find (has_id (rc_attribute_id (sd_config d))) (as_attrs store) with
    | Some a =>
        if due_at now d (av_value a)
        then Some (mk_AttributeReport (rc_attribute_id (sd_config d)) (ad_data_type (av_definition a)) (av_value a)) else None
    | None => None
    end
  else None.

Definition after_report (now ep cl : Z) (store : AttributeStore) (d : schedule) : schedule :=
  match due_report now ep cl store d with
  | Some r => mk_schedule (sd_endpoint d) (sd_cluster d) (sd_config d) now (Some (ar_value r)) false
  | None => d
  end.

Definition spec_step (op : engine_op) (e : spec_engine) : engine_answer * spec_engine :=
  match op with
  | EoConfigure ep cl c =>
      match position (same_key ep cl c) (se_schedules e) with
      | Some i => (EaConfigured (Ok ()), mk_spec_engine (se_now e) (<[i := mk_schedule ep cl c (se_now e) None false]> (se_schedules e)))
      | None =>
          if (length (se_schedules e) <? 16)%nat
          then (EaConfigured (Ok ()), mk_spec_engine (se_now e) (se_schedules e ++ [mk_schedule ep cl c (se_now e) None false]))
          else (EaConfigured (Err StInsufficientSpace), e)
      end
  | EoTick n => (EaDone, mk_spec_engine (se_now e + n) (se_schedules e))
  | EoForce =>
      (EaDone, mk_spec_engine (se_now e) ((λ d, if bool_decide (rc_direction (sd_config d) = RdSend)
         then mk_schedule (sd_endpoint d) (sd_cluster d) (sd_config d) (sd_since d) (sd_last d) true else d) <$> se_schedules e))
  | EoCollect ep cl store =>
      (EaReports (omap (due_report (se_now e) ep cl store) (se_schedules e)),
       mk_spec_engine (se_now e) (after_report (se_now e) ep cl store <$> se_schedules e))
  end.

Fixpoint spec_run (ops : list engine_op) (e : spec_engine) : list engine_answer * spec_engine :=
  match ops with
  | [] => ([], e)
  | op :: ops => let '(a, e) := spec_step op e in let '(l, e) := spec_run ops e in (a :: l, e)
  end.

(** Operations with the integers of their Rust types. *)
Definition op_wf (op : engine_op) : Prop :=
  match op with
  | EoConfigure _ _ c => is_u16 (rc_min_interval c) ∧ is_u16 (rc_max_interval c)
  | EoTick n => is_u16 n
  | _ => True
  end.

(** ** The refinement relation *)

Record state_rel (now : Z) (s : ReportState) (d : schedule) : Prop := {
  sr_endpoint : st_endpoint s = sd_endpoint d;
  sr_cluster : st_cluster_id s = sd_cluster d;
  sr_config : st_config s = sd_config d;
  sr_intervals : is_u16 (rc_min_interval (sd_config d)) ∧ is_u16 (rc_max_interval (sd_config d));
  sr_past : sd_since d <= now;
  sr_elapsed : st_elapsed s = Z.min (now - sd_since d) 65535;
  sr_last : st_last_value s = sd_last d;
  sr_forced : st_forced s = sd_forced d
}.

Definition engine_rel (e : ReportingEngine) (a : spec_engine) : Prop :=
  Forall2 (state_rel (se_now a)) (re_states e) (se_schedules a) ∧ (length (re_states e) <= MAX_REPORT_CONFIGS)%nat.

Lemma report_due_rel now s d v : state_rel now s d → report_due s v = due_at now d v.
Proof.
  intros [Hep Hcl Hc [Hmin Hmax] Hp He Hl Hf]. unfold report_due, due_at. rewrite Hc, Hf, Hl, He. fold (changed (sd_last d) (rc_reportable_change (sd_config d)) v).
  destruct (sd_forced d); [done|]. simpl. destruct (Z.eqb_spec (rc_max_interval (sd_config d)) 0xFFFF) as [|Hne]; [done|]. simpl.
  destruct (Z.eqb_spec (rc_max_interval (sd_config d)) 0) as [H0|H0]; simpl.
  - destruct (Z.ltb_spec (Z.min (now - sd_since d) 65535) (rc_min_interval (sd_config d)));
      destruct (Z.leb_spec (rc_min_interval (sd_config d)) (now - sd_since d)); try done; exfalso; ulia.
  - destruct (Z.leb_spec (rc_max_interval (sd_config d)) (Z.min (now - sd_since d) 65535));
      destruct (Z.leb_spec (rc_max_interval (sd_config d)) (now - sd_since d)); try done; try (exfalso; ulia). simpl.
    destruct (Z.ltb_spec (Z.min (now - sd_since d) 65535) (rc_min_interval (sd_config d)));
      destruct (Z.leb_spec (rc_min_interval (sd_config d)) (now - sd_since d)); try done; exfalso; ulia.
Qed.

Lemma check_state_rel now ep cl store out s d :
  state_rel now s d → (length out < MAX_REPORT_CONFIGS)%nat →
  let sel := λ s, negb (negb (st_endpoint s =? ep) || negb (st_cluster_id s =? cl)) in
  (check_state sel store out s).1 = out ++ option_list (due_report now ep cl store d) ∧
  state_rel now (check_state sel store out s).2 (after_report now ep cl store d).
Proof.
  intros Hr Hl sel. pose proof (λ v, report_due_rel now s d v Hr) as Hdue. pose proof Hr as [Hep Hcl Hc Hi Hp He Hla Hf].
  unfold check_state, after_report, due_report, sel. rewrite Hep, Hcl, Hc. simpl. unfold as_get, as_find.
  case_bool_decide; simpl; [|by rewrite app_nil_r]. rewrite negb_orb, !negb_involutive.
  destruct ((sd_endpoint d =? ep) && (sd_cluster d =? cl)); simpl; [|by rewrite app_nil_r].
  destruct (List.find _ _) as [a|]; simpl; [|by rewrite app_nil_r]. rewrite Hdue.
  destruct (due_at now d (av_value a)); simpl; [|by rewrite app_nil_r].
  unfold vec_push_ignore. rewrite vec_push_room by done. split; [done|]. split; simpl; try done; lia.
Qed.

Lemma check_states_rel now ep cl store out states ds :
  Forall2 (state_rel now) states ds → (length out + length states <= MAX_REPORT_CONFIGS)%nat →
  let sel := λ s, negb (negb (st_endpoint s =? ep) || negb (st_cluster_id s =? cl)) in
  (check_states sel store states out).1 = out ++ omap (due_report now ep cl store) ds ∧
  Forall2 (state_rel now) (check_states sel store states out).2 (after_report now ep cl store <$> ds).
Proof.
  intros Hr. revert out. induction Hr as [|s d states ds Hsd _ IH]; intros out Hl sel; simpl; [by rewrite app_nil_r|]. simpl in Hl.
  destruct (check_state_rel now ep cl store out s d Hsd ltac:(lia)) as [H1 H2]. fold sel in H1, H2.
  destruct (check_state sel store out s) as [out' s']. simpl in H1, H2. subst out'.
  destruct (IH (out ++ option_list (due_report now ep cl store d))) as [H3 H4].
  { rewrite length_app. destruct (due_report _ _ _ _ _); simpl; lia. } fold sel in H3, H4.
  destruct (check_states sel store states _) as [out' states']. simpl in H3, H4 |- *. subst out'. split; [|by constructor].
  rewrite <- app_assoc. by destruct (due_report now ep cl store d).
Qed.

Lemma position_rel now ep cl c states ds :
  Forall2 (state_rel now) states ds → position (configures ep cl c) states = position (same_key ep cl c) ds.
Proof.
  induction 1 as [|s d states ds Hr _ IH]; [done|]. simpl. rewrite IH.
  assert (configures ep cl c s = same_key ep cl c d) as ->; [|done].
  unfold configures, same_key. by rewrite (sr_endpoint _ _ _ Hr), (sr_cluster _ _ _ Hr), (sr_config _ _ _ Hr).
Qed.

Lemma fresh_rel now ep cl c :
  is_u16 (rc_min_interval c) → is_u16 (rc_max_interval c) → state_rel now (fresh_state ep cl c) (mk_schedule ep cl c now None false).
Proof. intros ? ?. split; simpl; try done; lia. Qed.

Lemma configure_rel ep cl c e a :
  engine_rel e a → is_u16 (rc_min_interval c) → is_u16 (rc_max_interval c) →
  (engine_step (EoConfigure ep cl c) e).1 = (spec_step (EoConfigure ep cl c) a).1 ∧
  engine_rel (engine_step (EoConfigure ep cl c) e).2 (spec_step (EoConfigure ep cl c) a).2.
Proof.
  intros [Hr Hl] Hmin Hmax. unfold engine_step, spec_step, configure_for_cluster. cbv [mbind stm_bind get_st modify_st throw].
  rewrite <- (position_rel _ ep cl c _ _ Hr). pose proof (Forall2_length _ _ _ Hr) as Hlen.
  destruct (position (configures ep cl c) (re_states e)) as [i|] eqn:Hp; simpl.
  - split; [done|]. apply position_Some in Hp as (s & Hs & Hk & _). split; simpl; [|by rewrite length_alter].
    rewrite (alter_insert _ _ _ _ Hs). apply Forall2_insert; [done|].
    unfold configures in Hk. bool_simpl. subst. by apply fresh_rel.
  - rewrite <- Hlen. unfold vec_push. change MAX_REPORT_CONFIGS with 16%nat in *.
    destruct (Nat.ltb_spec (length (re_states e)) 16); [|done]. split; [done|]. split; simpl; [|rewrite length_app; simpl; unfold MAX_REPORT_CONFIGS; lia].
    apply Forall2_app; [done|]. constructor; [by apply fresh_rel|constructor].
Qed.

Lemma engine_step_rel op e a :
  engine_rel e a → op_wf op →
  (engine_step op e).1 = (spec_step op a).1 ∧ engine_rel (engine_step op e).2 (spec_step op a).2.
Proof.
  intros Hrel Hop. destruct op as [ep cl c|n| |ep cl store].
  - destruct Hop. by apply configure_rel.
  - destruct Hrel as [Hr Hl]. split; [done|]. split; simpl; [|by rewrite length_fmap].
    apply Forall2_fmap_l. eapply Forall2_impl; [exact Hr|]. intros s d [? ? ? ? ? He ? ?]. simpl in Hop.
    split; simpl; try done; [ulia|]. rewrite He. unfold saturating_add_u16. ulia.
  - destruct Hrel as [Hr Hl]. split; [done|]. split; simpl; [|by rewrite length_fmap].
    apply Forall2_fmap. eapply Forall2_impl; [exact Hr|]. intros s d [? ? Hc ? ? ? ? ?]. rewrite Hc. by case_bool_decide.
  - destruct Hrel as [Hr Hl]. simpl. unfold check_and_collect_dyn.
    destruct (check_states_rel (se_now a) ep cl store [] _ _ Hr Hl) as [H1 H2]. cbv zeta in H1, H2.
    destruct (check_states _ _ _ _) as [out states]. simpl in *. subst out. split; [done|]. split; simpl; [done|].
    rewrite (Forall2_length _ _ _ H2), length_fmap, <- (Forall2_length _ _ _ Hr). done.
Qed.

Lemma engine_run_rel ops e a :
  engine_rel e a → Forall op_wf ops →
  (engine_run ops e).1 = (spec_run ops a).1 ∧ engine_rel (engine_run ops e).2 (spec_run ops a).2.
Proof.
  intros Hrel Hops. revert e a Hrel. induction Hops as [|op ops Hop _ IH]; intros e a Hrel; [done|]. simpl.
  destruct (engine_step_rel op e a Hrel Hop) as [H1 H2].
  destruct (engine_step op e) as [x e']. destruct (spec_step op a) as [y a']. simpl in *. subst y.
  destruct (IH e' a' H2) as [H3 H4]. destruct (engine_run ops e'), (spec_run ops a'). simpl in *. by subst.
Qed.

(** C24. The reporting engine keeps time: over any history of configurations,
    ticks, forced reports and collections, the engine with its saturating
    sixteen bit counters and its bounded report vector gives exactly the answers
    of the specification, in which every report remembers on an unbounded clock
    when it was last sent: no due report is missed, none is sent early and none
    is lost, however long the device runs. *)
Theorem reporting_engine_refines ops :
  Forall op_wf ops → (engine_run ops engine_new).1 = (spec_run ops (mk_spec_engine 0 [])).1.
Proof. intros Hops. apply engine_run_rel; [|done]. split; simpl; [constructor|lia]. Qed.
End Spec.

Import FoundationExamples.

Definition ex_config : ReportingConfig := mk_ReportingConfig RdSend 5 DtU8 2 60 (Some (ZvU8 1)).

Lemma reporting_record_codec_witness :
  parse_record [0; 5; 0; 0x20; 2; 0; 60; 0; 1; 99] = Ok (ex_config, 9%nat).
Proof.
  apply (reporting_record_codec ex_config [0; 5; 0; 0x20; 2; 0; 60; 0; 1; 99] 9 []); [repeat constructor; done|].
  split; [|by exists [99]]. split; [done|]. split; [done|]. split; [done|]. split; [done|]. split; [done|]. by split.
Defined.

Definition ex_reports : ReportAttributes := mk_ReportAttributes [mk_AttributeReport 5 DtU8 (ZvU8 1); mk_AttributeReport 3 DtU16 (ZvU16 770)].

Lemma report_payload_exact_witness :
  ∃ buf', report_attributes_serialize ex_reports (repeat 0 8) = (Ok 4%nat, buf') ∧ take 4 buf' = [5; 0; 0x20; 1].
Proof.
  destruct (report_payload_exact ex_reports (repeat 0 8)) as (buf' & Hs & _ & Ht & _); [repeat constructor; done|].
  exists buf'. split; [exact Hs|exact Ht].
Defined.

Definition ex_ops : list engine_op :=
  [EoConfigure 1 6 ex_config; EoTick 1; EoCollect 1 6 store; EoTick 1; EoCollect 1 6 store; EoTick 59; EoCollect 1 6 store; EoTick 1;
   EoCollect 1 6 store].

Lemma reporting_engine_refines_witness :
  (engine_run ex_ops engine_new).1 = (spec_run ex_ops (mk_spec_engine 0 [])).1.
Proof. apply (reporting_engine_refines ex_ops). repeat constructor; done. Defined.

(** The value is reported when the minimum interval is over, and again, though
    unchanged, when the maximum interval is. *)
Example ex_reported :
  (engine_run ex_ops engine_new).1 =
    [EaConfigured (Ok ()); EaDone; EaReports []; EaDone; EaReports [mk_AttributeReport 5 DtU8 (ZvU8 1)];
     EaDone; EaReports []; EaDone; EaReports [mk_AttributeReport 5 DtU8 (ZvU8 1)]].
Proof. by vm_compute. Qed.
