(* ===== verification/ZclTransition.v ===== *)
(** * Attribute transitions

    [zigbee-zcl/src/transition.rs]: the engine that moves an attribute from one
    value to another over a time in tenths of a second. *)

From S2P Require Import Prelude.
Local Open Scope Z_scope.

Definition is_i32 (x : Z) : Prop := - 2 ^ 31 <= x < 2 ^ 31.
(** [x as i32] *)
Definition as_i32 (x : Z) : Z := (x + 2 ^ 31) mod 2 ^ 32 - 2 ^ 31.

Record Transition := mk_Transition {
  tr_start_value : Z; tr_target_value : Z; tr_remaining_ds : Z; tr_total_ds : Z
}.

Definition transition_new (start target time_ds : Z) : Transition := mk_Transition start target time_ds time_ds.

Definition set_remaining (r : Z) (t : Transition) : Transition := mk_Transition (tr_start_value t) (tr_target_value t) r (tr_total_ds t).

(** [Transition::tick]: the value and the transition left; [/] on [i64]
    truncates. *)
Definition transition_tick (elapsed_ds : Z) (t : Transition) : Z * Transition :=
  if tr_remaining_ds t <=? elapsed_ds then (tr_target_value t, set_remaining 0 t)
  else
    let t := set_remaining (tr_remaining_ds t - elapsed_ds) t in
    if tr_total_ds t =? 0 then (tr_target_value t, t)
    else
      let elapsed_total := tr_total_ds t - tr_remaining_ds t in
      let delta := tr_target_value t - tr_start_value t in
      (as_i32 (tr_start_value t + Z.quot (delta * elapsed_total) (tr_total_ds t)), t).

Definition is_complete (t : Transition) : bool := tr_remaining_ds t =? 0.

(** The manager; its capacity [N] is an argument of the operations. *)
Record TransitionManager := mk_TransitionManager { tm_transitions : list (Z * Transition) }.

Definition tm_new : TransitionManager := mk_TransitionManager [].

Definition is_for (attr_id : Z) (p : Z * Transition) : bool := p.1 =? attr_id.

Definition tm_stop (attr_id : Z) (m : TransitionManager) : TransitionManager :=
  match position (is_for attr_id) (tm_transitions m) with
  | Some pos => mk_TransitionManager (swap_remove (tm_transitions m) pos)
  | None => m
  end.

Definition tm_start (N : nat) (attr_id start target time_ds : Z) (m : TransitionManager) : TransitionManager :=
  let m := tm_stop attr_id m in
  mk_TransitionManager (vec_push_ignore N (tm_transitions m) (attr_id, transition_new start target time_ds)).

Definition tm_stop_all (m : TransitionManager) : TransitionManager := mk_TransitionManager [].

(** The loop of [tick]. *)
Fixpoint tick_all (N : nat) (elapsed_ds : Z) (l : list (Z * Transition)) (results : list (Z * Z)) :
    list (Z * Z) * list (Z * Transition) :=
  match l with
  | [] => (results, [])
  | (attr_id, t) :: l =>
      let '(val, t) := transition_tick elapsed_ds t in
      let '(results, l) := tick_all N elapsed_ds l (vec_push_ignore N results (attr_id, val)) in
      (results, (attr_id, t) :: l)
  end.

Definition tm_tick (N : nat) (elapsed_ds : Z) (m : TransitionManager) : list (Z * Z) * TransitionManager :=
  let '(results, l) := tick_all N elapsed_ds (tm_transitions m) [] in
  (results, mk_TransitionManager (retain (λ p, negb (is_complete p.2)) l)).

Definition tm_is_active (m : TransitionManager) : bool := negb (bool_decide (length (tm_transitions m) = 0%nat)).

Definition tm_remaining_ds (attr_id : Z) (m : TransitionManager) : Z :=
  match List.find (is_for attr_id) (tm_transitions m) with Some p => tr_remaining_ds p.2 | None => 0 end.

Definition tm_max_remaining_ds (m : TransitionManager) : Z :=
  foldr (λ p acc, Z.max (tr_remaining_ds p.2) acc) 0 (tm_transitions m).

(** * One transition *)

(** The value after [e] of [d] tenths of a second. *)
Definition interpolate (s t d e : Z) : Z := if d <=? e then t else s + Z.quot ((t - s) * e) d.

Lemma quot_between x e d : 0 <= e → e < d → (0 <= x → 0 <= Z.quot (x * e) d <= x) ∧ (x <= 0 → x <= Z.quot (x * e) d <= 0).
Proof.
  intros He Hd. split; intros Hx.
  - rewrite Z.quot_div_nonneg by nia. split; [apply Z.div_pos; nia|]. apply Z.div_le_upper_bound; nia.
  - replace (x * e) with (- (- x * e)) by lia. rewrite Z.quot_opp_l, Z.quot_div_nonneg by nia.
    assert (0 <= - x * e / d) by (apply Z.div_pos; nia). assert (- x * e / d <= - x) by (apply Z.div_le_upper_bound; nia). lia.
Qed.

Lemma interpolate_between s t d e : 0 <= e →
  (s <= t → s <= interpolate s t d e <= t) ∧ (t <= s → t <= interpolate s t d e <= s).
Proof.
  intros He. unfold interpolate. destruct (Z.leb_spec d e) as [|Hd]; [lia|].
  pose proof (quot_between (t - s) e d He Hd) as [H1 H2]. split; intros; [specialize (H1 ltac:(lia))|specialize (H2 ltac:(lia))]; lia.
Qed.

Lemma interpolate_monotone s t d e e' : 0 <= e <= e' →
  (s <= t → interpolate s t d e <= interpolate s t d e') ∧ (t <= s → interpolate s t d e' <= interpolate s t d e).
Proof.
  intros He. pose proof (interpolate_between s t d e ltac:(lia)) as [B1 B2]. unfold interpolate in *.
  destruct (Z.leb_spec d e) as [|Hd]; [by destruct (Z.leb_spec d e'); [|lia]|].
  destruct (Z.leb_spec d e') as [|Hd']; [lia|]. split; intros Hst.
  - assert (Z.quot ((t - s) * e) d <= Z.quot ((t - s) * e') d) by (apply Z.quot_le_mono; nia). lia.
  - assert (Z.quot ((t - s) * e') d <= Z.quot ((t - s) * e) d) by (apply Z.quot_le_mono; nia). lia.
Qed.

Lemma as_i32_small x : is_i32 x → as_i32 x = x.
Proof. intros Hx. unfold as_i32, is_i32 in *. rewrite Z.mod_small by lia. lia. Qed.

(** A transition that has run for [e] of its time [d], ticked by [n]. *)
Lemma transition_tick_eq s t d e n :
  is_i32 s → is_i32 t → 0 <= e <= d → 0 <= n →
  transition_tick n (mk_Transition s t (d - e) d) =
    (interpolate s t d (e + n), mk_Transition s t (Z.max 0 (d - (e + n))) d).
Proof.
  intros Hs Ht He Hn. unfold transition_tick, set_remaining. cbn [tr_remaining_ds tr_start_value tr_target_value tr_total_ds].
  pose proof (interpolate_between s t d (e + n) ltac:(lia)) as [B1 B2]. unfold interpolate in *.
  destruct (Z.leb_spec (d - e) n) as [Hle|Hgt].
  - rewrite (proj2 (Z.leb_le _ _)) by lia. f_equal. f_equal. lia.
  - rewrite (proj2 (Z.leb_gt _ _)) in * by lia. rewrite (proj2 (Z.eqb_neq d 0)) by lia.
    f_equal; [|f_equal; lia]. replace (d - (d - e - n)) with (e + n) by lia. apply as_i32_small. unfold is_i32 in *. lia.
Qed.

(** * The manager *)

(** At most one transition per attribute, within the capacity. *)
Definition tm_wf (N : nat) (m : TransitionManager) : Prop :=
  NoDup (tm_transitions m).*1 ∧ (length (tm_transitions m) <= N)%nat.

Definition tick_entry (n : Z) (p : Z * Transition) : Z * Transition := (p.1, (transition_tick n p.2).2).
Definition tick_value (n : Z) (p : Z * Transition) : Z * Z := (p.1, (transition_tick n p.2).1).

Lemma tick_all_eq N n l results :
  (length results + length l <= N)%nat →
  tick_all N n l results = (results ++ (tick_value n <$> l), tick_entry n <$> l).
Proof.
  revert results. induction l as [|[a t] l IH]; intros results Hl; simpl; [by rewrite app_nil_r|]. simpl in Hl.
  unfold tick_value, tick_entry in *. simpl. destruct (transition_tick n t) as [v t']. simpl.
  unfold vec_push_ignore, vec_push. rewrite (proj2 (Nat.ltb_lt _ _)) by lia. simpl.
  rewrite IH by (rewrite length_app; simpl; lia). by rewrite <- app_assoc.
Qed.

Lemma tm_tick_eq N n m : tm_wf N m →
  tm_tick N n m = (tick_value n <$> tm_transitions m, mk_TransitionManager (retain (λ p, negb (is_complete p.2)) (tick_entry n <$> tm_transitions m))).
Proof. intros [_ Hl]. unfold tm_tick. by rewrite tick_all_eq. Qed.

Lemma retain_wf N p l : NoDup l.*1 → (length l <= N)%nat → tm_wf N (mk_TransitionManager (retain p l)).
Proof.
  intros Hn Hl. pose proof (retain_sublist p l) as Hs. split; simpl.
  - eapply sublist_NoDup; [exact Hn|]. by apply fmap_sublist.
  - apply sublist_length in Hs. lia.
Qed.

Lemma tm_tick_wf N n m : tm_wf N m → tm_wf N (tm_tick N n m).2.
Proof.
  intros Hm. rewrite tm_tick_eq by done. destruct Hm as [Hn Hl]. simpl. apply retain_wf; [|by rewrite length_fmap].
  by rewrite <- list_fmap_compose.
Qed.

Lemma is_for_spec a p : is_for a p = true ↔ p.1 = a.
Proof. apply Z.eqb_eq. Qed.

Lemma tm_stop_spec N a m : tm_wf N m →
  tm_wf N (tm_stop a m) ∧ (a ∉ (tm_transitions (tm_stop a m)).*1) ∧
  (length (tm_transitions (tm_stop a m)) <= length (tm_transitions m))%nat ∧
  (a ∈ (tm_transitions m).*1 → (length (tm_transitions (tm_stop a m)) < length (tm_transitions m))%nat).
Proof.
  intros [Hn Hl]. unfold tm_stop. destruct (position (is_for a) (tm_transitions m)) as [i|] eqn:Hp.
  - apply position_Some in Hp as (p & Hp & Ha & _). apply is_for_spec in Ha. pose proof (swap_remove_perm _ _ _ Hp) as Hperm.
    pose proof Hn as Hn'. rewrite <- Hperm in Hn'. simpl in Hn'. apply NoDup_cons in Hn' as [Hnot Hn'].
    apply Permutation_length in Hperm. simpl in *. subst a. split; [split; simpl; [done|lia]|]. split; [done|]. split; [lia|]. intros _. lia.
  - split; [done|]. rewrite position_None in Hp.
    assert (a ∉ (tm_transitions m).*1) as Hna.
    { intros (p & -> & Hin)%list_elem_of_fmap. specialize (Hp p Hin). unfold is_for in Hp. by rewrite Z.eqb_refl in Hp. }
    split; [done|]. split; [done|]. intros Hin. by destruct Hna.
Qed.

(** A transition can start when the attribute already has one or there is room. *)
Definition can_start (N : nat) (a : Z) (m : TransitionManager) : Prop :=
  a ∈ (tm_transitions m).*1 ∨ (length (tm_transitions m) < N)%nat.

Lemma tm_start_spec N a s t d m : tm_wf N m → can_start N a m →
  tm_wf N (tm_start N a s t d m) ∧ List.find (is_for a) (tm_transitions (tm_start N a s t d m)) = Some (a, transition_new s t d).
Proof.
  intros Hm Hc. destruct (tm_stop_spec N a m Hm) as ([Hn Hl] & Hnot & Hle & Hlt). unfold tm_start, vec_push_ignore, vec_push.
  assert (length (tm_transitions (tm_stop a m)) < N)%nat as Hroom.
  { destruct Hc as [Hin|]; [specialize (Hlt Hin); destruct Hm; lia|lia]. }
  rewrite (proj2 (Nat.ltb_lt _ _) Hroom). simpl.
  assert (NoDup (tm_transitions (tm_stop a m) ++ [(a, transition_new s t d)]).*1) as Hnd.
  { rewrite fmap_app. apply NoDup_app. split; [done|]. split; [|apply NoDup_singleton].
    intros x Hx. simpl. rewrite list_elem_of_singleton. by intros ->. }
  split; [split; simpl; [done|rewrite length_app; simpl; lia]|].
  apply (find_unique fst (is_for a) a); [apply is_for_spec|done|]. split; [apply elem_of_app; right; by left|done].
Qed.

Fixpoint run_ticks (N : nat) (ticks : list Z) (m : TransitionManager) : list (list (Z * Z)) * TransitionManager :=
  match ticks with
  | [] => ([], m)
  | n :: ticks => let '(r, m) := tm_tick N n m in let '(l, m) := run_ticks N ticks m in (r :: l, m)
  end.

(** What a tick reports of an attribute. *)
Definition reported_value (a : Z) (results : list (Z * Z)) : option Z := snd <$> List.find (λ p, p.1 =? a) results.

(** The values of a transition that has run for [e]: one for every tick until
    the time is over, then none. *)
Fixpoint expected_values (s t d e : Z) (ticks : list Z) : list (option Z) :=
  match ticks with
  | [] => []
  | n :: ticks =>
      Some (interpolate s t d (e + n)) ::
      (if d <=? e + n then repeat None (length ticks) else expected_values s t d (e + n) ticks)
  end.

Lemma find_tick_value a n l p : NoDup l.*1 → List.find (is_for a) l = Some p →
  reported_value a (tick_value n <$> l) = Some (transition_tick n p.2).1.
Proof.
  intros Hn Hf. apply (find_unique fst (is_for a) a) in Hf as [Hin Ha]; [|apply is_for_spec|done].
  assert (NoDup (tick_value n <$> l).*1) as Hn' by (by rewrite <- list_fmap_compose).
  unfold reported_value. rewrite (proj2 (find_unique fst (λ p, p.1 =? a) a (tick_value n <$> l) (tick_value n p) (λ x, Z.eqb_eq _ _) Hn')); [done|].
  split; [by apply list_elem_of_fmap_2|done].
Qed.

Lemma find_is_for_None a (l : list (Z * Transition)) : a ∉ l.*1 → List.find (is_for a) l = None.
Proof.
  intros Hn. apply find_None_elem. intros p Hp. apply not_true_iff_false. rewrite is_for_spec. intros <-.
  by apply Hn, list_elem_of_fmap_2.
Qed.

Lemma reported_None a n l : a ∉ l.*1 → reported_value a (tick_value n <$> l) = None.
Proof.
  intros Hn. unfold reported_value. rewrite (proj2 (find_None_elem _ _)); [done|].
  intros q (p & -> & Hp)%list_elem_of_fmap. apply Z.eqb_neq. simpl. intros <-. by apply Hn, list_elem_of_fmap_2.
Qed.

Lemma tick_keeps_absent N n a m : tm_wf N m → a ∉ (tm_transitions m).*1 → a ∉ (tm_transitions (tm_tick N n m).2).*1.
Proof.
  intros Hm Ha. rewrite tm_tick_eq by done. simpl. intros (p & -> & [Hp _]%elem_of_retain)%list_elem_of_fmap.
  apply list_elem_of_fmap in Hp as (q & -> & Hq). apply Ha. exact (list_elem_of_fmap_2 fst _ _ Hq).
Qed.

(** The entry of an attribute after a tick. *)
Lemma tick_find N n a m p : tm_wf N m → List.find (is_for a) (tm_transitions m) = Some p →
  if is_complete (transition_tick n p.2).2 then a ∉ (tm_transitions (tm_tick N n m).2).*1
  else List.find (is_for a) (tm_transitions (tm_tick N n m).2) = Some (tick_entry n p).
Proof.
  intros Hm Hf. pose proof (tm_tick_wf N n m Hm) as [Hnd _]. pose proof Hm as [Hn Hl].
  apply (find_unique fst (is_for a) a) in Hf as [Hin Ha]; [|apply is_for_spec|done].
  destruct (is_complete _) eqn:Hc.
  - rewrite tm_tick_eq by done. simpl. intros (q & Hq & [Hr Hcq]%elem_of_retain)%list_elem_of_fmap.
    apply list_elem_of_fmap in Hr as (q' & -> & Hq'). simpl in *.
    assert (q' = p) as ->; [|by rewrite Hc in Hcq].
    destruct (list_elem_of_lookup_1 _ _ Hq') as [i Hi]. destruct (list_elem_of_lookup_1 _ _ Hin) as [j Hj].
    rewrite (NoDup_fmap_lookup fst _ i j q' p Hn Hi Hj) in Hi by congruence. congruence.
  - apply (find_unique fst (is_for a) a); [apply is_for_spec|done|]. split; [|done].
    rewrite tm_tick_eq by done. simpl. apply elem_of_retain. split; [by apply list_elem_of_fmap_2|]. simpl. by rewrite Hc.
Qed.

Lemma run_absent N a ticks m : tm_wf N m → a ∉ (tm_transitions m).*1 →
  reported_value a <$> (run_ticks N ticks m).1 = repeat None (length ticks) ∧
  tm_wf N (run_ticks N ticks m).2 ∧ a ∉ (tm_transitions (run_ticks N ticks m).2).*1.
Proof.
  revert m. induction ticks as [|n ticks IH]; intros m Hm Ha; [done|]. cbn [run_ticks].
  pose proof (tm_tick_wf N n m Hm) as Hm'. pose proof (tick_keeps_absent N n a m Hm Ha) as Ha'.
  rewrite tm_tick_eq in * by done. cbn [fst snd] in Hm', Ha'. destruct (IH _ Hm' Ha') as (H1 & H2 & H3).
  destruct (run_ticks N ticks _) as [l m']. cbn [fst snd] in *. by rewrite fmap_cons, reported_None, H1 by done.
Qed.

Definition total_ticks (ticks : list Z) : Z := foldr Z.add 0 ticks.

Lemma run_active N a s t d e ticks m :
  tm_wf N m → is_i32 s → is_i32 t → 0 <= e <= d → Forall is_u16 ticks →
  List.find (is_for a) (tm_transitions m) = Some (a, mk_Transition s t (d - e) d) →
  reported_value a <$> (run_ticks N ticks m).1 = expected_values s t d e ticks ∧
  tm_wf N (run_ticks N ticks m).2 ∧
  (ticks ≠ [] → d <= e + total_ticks ticks → a ∉ (tm_transitions (run_ticks N ticks m).2).*1).
Proof.
  intros Hm Hs Ht He Hticks. revert e m Hm He. induction Hticks as [|n ticks Hn Hticks IH]; intros e m Hm He Hf; [done|].
  pose proof (tm_tick_wf N n m Hm) as Hm'. pose proof (tick_find N n a m _ Hm Hf) as Hf'. cbn [snd] in Hf'.
  pose proof (find_tick_value a n _ _ (proj1 Hm) Hf) as Hv. cbn [snd] in Hv. unfold tick_entry in Hf'. cbn [fst snd] in Hf'.
  rewrite transition_tick_eq in Hf', Hv by (done || ulia). cbn [fst snd] in Hf', Hv.
  cbn [run_ticks expected_values total_ticks foldr]. rewrite tm_tick_eq in * by done. cbn [fst snd] in Hm', Hf'.
  set (m' := mk_TransitionManager _) in *. unfold is_complete in Hf'. cbn [tr_remaining_ds] in Hf'.
  destruct (Z.leb_spec d (e + n)) as [Hdone|Hmore].
  - rewrite (proj2 (Z.eqb_eq _ _)) in Hf' by lia. destruct (run_absent N a ticks m' Hm' Hf') as (H1 & H2 & H3).
    destruct (run_ticks N ticks m') as [l m'']. cbn [fst snd] in *. by rewrite fmap_cons, Hv, H1.
  - rewrite (proj2 (Z.eqb_neq _ _)) in Hf' by lia. replace (Z.max 0 (d - (e + n))) with (d - (e + n)) in Hf' by lia.
    destruct (IH (e + n) m' Hm' ltac:(ulia) Hf') as (H1 & H2 & H3).
    destruct (run_ticks N ticks m') as [l m'']. cbn [fst snd] in *. rewrite fmap_cons, Hv, H1. split; [done|]. split; [done|]. intros _ Hd.
    apply H3; [|unfold total_ticks; lia]. intros ->. simpl in Hd. lia.
Qed.

(** A transition does what it is started for: whatever else the manager runs,
    every tick reports the linear interpolation at the time that has passed, a
    value between start and target that never moves away from the target; the
    tick that completes the time reports the target itself, after it nothing is
    reported and the transition is gone. *)
Theorem transition_reaches_target N a s t d ticks m :
  tm_wf N m → can_start N a m → is_i32 s → is_i32 t → is_u16 d → Forall is_u16 ticks →
  let run := run_ticks N ticks (tm_start N a s t d m) in
  reported_value a <$> run.1 = expected_values s t d 0 ticks ∧ tm_wf N run.2 ∧
  (ticks ≠ [] → d <= total_ticks ticks → a ∉ (tm_transitions run.2).*1) ∧
  ∀ e e', 0 <= e <= e' →
    Z.min s t <= interpolate s t d e <= Z.max s t ∧
    Z.abs (t - interpolate s t d e') <= Z.abs (t - interpolate s t d e).
Proof.
  intros Hm Hc Hs Ht Hd Hticks run. destruct (tm_start_spec N a s t d m Hm Hc) as [Hm' Hf].
  destruct (run_active N a s t d 0 ticks _ Hm' Hs Ht ltac:(ulia) Hticks) as (H1 & H2 & H3); [by rewrite Hf, Z.sub_0_r|].
  split; [done|]. split; [done|]. split; [done|]. intros e e' He.
  pose proof (interpolate_between s t d e ltac:(lia)). pose proof (interpolate_between s t d e' ltac:(lia)).
  pose proof (interpolate_monotone s t d e e' He). lia.
Qed.

Lemma transition_reaches_target_witness :
  reported_value 0 <$> (run_ticks 2 [1; 1; 5; 1] (tm_start 2 0 10 (-10) 3 tm_new)).1 = [Some 4; Some (-3); Some (-10); None].
Proof.
  refine (proj1 (transition_reaches_target 2 0 10 (-10) 3 [1; 1; 5; 1] tm_new _ _ _ _ _ _)).
  - split; [constructor|simpl; lia].
  - right. simpl. lia.
  - unfold is_i32. lia.
  - unfold is_i32. lia.
  - done.
  - repeat constructor; done.
Defined.

(** With the capacity used up by other attributes a new transition is dropped. *)
Example start_dropped_when_full :
  tm_start 1 7 0 100 10 (tm_start 1 3 0 50 10 tm_new) = tm_start 1 3 0 50 10 tm_new.
Proof. reflexivity. Qed.
