(* ===== verification/MacFrames.v ===== *)
(** * MAC frames

    [zigbee-mac/src/frames.rs] with the primitive types it uses from
    [primitives.rs]: builders and parsers of the IEEE 802.15.4 frames Zigbee
    uses, the address filters and the backoff generator.  A frame is the list
    of its octets without the frame check sequence.  A builder writes into a
    [heapless::Vec]; where the source ignores the result of a write the model
    keeps the vector as it is, where it maps it the builder returns
    [FrameTooLong]. *)
From S2P Require Import Prelude ZigbeeTypes.

Local Open Scope Z_scope.

(** * Primitive types *)

Inductive MacError :=
| MacNoBeacon | MacInvalidParameter | MacRadioError | MacChannelAccessFailure | MacNoAck | MacFrameTooLong
| MacUnsupported | MacSecurityError | MacTransactionOverflow | MacTransactionExpired | MacScanInProgress
| MacTrackingOff | MacAssociationDenied | MacPanAtCapacity | MacOther | MacNoData.

Record SuperframeSpec := mk_SuperframeSpec {
  sf_beacon_order : Z; sf_superframe_order : Z; sf_final_cap_slot : Z;
  sf_battery_life_ext : bool; sf_pan_coordinator : bool; sf_association_permit : bool }.

(** [(raw >> n) & 1 != 0] *)
Definition bit_of (raw n : Z) : bool := negb (Z.land (Z.shiftr raw n) 1 =? 0).

Definition superframe_from_raw (raw : Z) : SuperframeSpec :=
  mk_SuperframeSpec (Z.land raw 0x0F) (Z.land (Z.shiftr raw 4) 0x0F) (Z.land (Z.shiftr raw 8) 0x0F)
    (bit_of raw 12) (bit_of raw 14) (bit_of raw 15).

Record ZigbeeBeaconPayload := mk_ZigbeeBeaconPayload {
  zb_protocol_id : Z; zb_stack_profile : Z; zb_protocol_version : Z; zb_router_capacity : bool;
  zb_device_depth : Z; zb_end_device_capacity : bool; zb_extended_pan_id : IeeeAddress;
  zb_tx_offset : list Z; zb_update_id : Z }.

Record PanDescriptor := mk_PanDescriptor {
  pd_channel : Z; pd_coord_address : MacAddress; pd_superframe_spec : SuperframeSpec; pd_lqi : Z;
  pd_security_use : bool; pd_zigbee_beacon : ZigbeeBeaconPayload }.

Record CapabilityInfo := mk_CapabilityInfo {
  ci_device_type_ffd : bool; ci_mains_powered : bool; ci_rx_on_when_idle : bool;
  ci_security_capable : bool; ci_allocate_address : bool }.

Definition flag (set : bool) (n b : Z) : Z := if set then Z.lor b (Z.shiftl 1 n) else b.

Definition capability_to_byte (c : CapabilityInfo) : Z :=
  flag (ci_allocate_address c) 7 (flag (ci_security_capable c) 6 (flag (ci_rx_on_when_idle c) 3
    (flag (ci_mains_powered c) 2 (flag (ci_device_type_ffd c) 1 0)))).

Definition capability_from_byte (b : Z) : CapabilityInfo :=
  mk_CapabilityInfo (has_bits b (Z.shiftl 1 1)) (has_bits b (Z.shiftl 1 2)) (has_bits b (Z.shiftl 1 3))
    (has_bits b (Z.shiftl 1 6)) (has_bits b (Z.shiftl 1 7)).

Inductive AssociationStatus := AsSuccess | AsPanAtCapacity | AsPanAccessDenied.
Definition association_status_code (s : AssociationStatus) : Z :=
  match s with AsSuccess => 0 | AsPanAtCapacity => 1 | AsPanAccessDenied => 2 end.
#[export] Instance AssociationStatus_eq_dec : EqDecision AssociationStatus.
Proof. solve_decision. Defined.

Record MlmeAssociateIndication := mk_MlmeAssociateIndication {
  ai_device_address : IeeeAddress; ai_coordinator_address : MacAddress; ai_capability_info : CapabilityInfo;
  ai_lqi : Z; ai_security_use : bool }.
Record MlmeBeaconRequestIndication := mk_MlmeBeaconRequestIndication {
  bi_destination_address : MacAddress; bi_lqi : Z; bi_security_use : bool }.
Record MlmeDataRequestIndication := mk_MlmeDataRequestIndication {
  di_source_address : MacAddress; di_destination_address : MacAddress; di_lqi : Z; di_security_use : bool }.
Record MlmeAssociateResponseDelivery := mk_MlmeAssociateResponseDelivery {
  ad_device_address : IeeeAddress; ad_short_address : ShortAddress; ad_status : AssociationStatus;
  ad_result : outcome MacError unit }.
Record MlmeOrphanIndication := mk_MlmeOrphanIndication {
  oi_orphan_address : IeeeAddress; oi_destination_address : MacAddress; oi_lqi : Z; oi_security_use : bool }.
Record MlmeAssociateResponse := mk_MlmeAssociateResponse {
  ar_device_address : IeeeAddress; ar_short_address : ShortAddress; ar_status : AssociationStatus }.

Inductive MacCommandEvent :=
| BeaconRequest (i : MlmeBeaconRequestIndication)
| AssociationRequest (i : MlmeAssociateIndication)
| AssociationResponseDelivery (d : MlmeAssociateResponseDelivery)
| DataRequest (i : MlmeDataRequestIndication)
| OrphanNotification (i : MlmeOrphanIndication).

Definition MAX_BEACON_PENDING_ADDRESSES : nat := 7.

Inductive DisassociateReason := CoordinatorLeave | DeviceLeave.
Definition disassociate_code (r : DisassociateReason) : Z :=
  match r with CoordinatorLeave => 1 | DeviceLeave => 2 end.

Inductive AddressMode := AmNone | AmShort | AmExtended.
Definition address_mode_code (m : AddressMode) : Z :=
  match m with AmNone => 0 | AmShort => 2 | AmExtended => 3 end.
#[export] Instance AddressMode_eq_dec : EqDecision AddressMode.
Proof. solve_decision. Defined.

#[export] Instance MacAddress_eq_dec : EqDecision MacAddress.
Proof. solve_decision. Defined.

Record MlmeStartRequest := mk_MlmeStartRequest {
  sr_pan_id : PanId; sr_channel : Z; sr_beacon_order : Z; sr_superframe_order : Z;
  sr_pan_coordinator : bool; sr_battery_life_ext : bool }.

Definition validate_router_start (req : MlmeStartRequest) : outcome MacError unit :=
  if sr_pan_coordinator req then Err MacUnsupported
  else if negb (sr_beacon_order req =? 15) || negb (sr_superframe_order req =? 15) then Err MacUnsupported
  else if negb ((11 <=? sr_channel req) && (sr_channel req <=? 26)) then Err MacInvalidParameter
  else if sr_pan_id req =? 0xFFFF then Err MacInvalidParameter
  else Ok tt.

Definition start_requires_parent_capability (req : MlmeStartRequest) : outcome MacError unit :=
  _ ← validate_router_start req; Err MacUnsupported.

(** A frame held by value, [MacFrame]: a buffer of 127 octets and a length. *)
Definition MAX_MAC_PAYLOAD : nat := 127.
Record MacFrame := mk_MacFrame { mf_buf : list Z; mf_len : nat }.
Definition mac_frame_new : MacFrame := mk_MacFrame (repeat 0 MAX_MAC_PAYLOAD) 0.
Definition mac_frame_from_slice (data : list Z) : fallible MacFrame :=
  if (MAX_MAC_PAYLOAD <? length data)%nat then Err tt
  else buf ← copy_from_slice (mf_buf mac_frame_new) 0 (length data) data; Ok (mk_MacFrame buf (length data)).
Definition mac_frame_as_slice {E} (f : MacFrame) : outcome E (list Z) := slice (mf_buf f) 0 (mf_len f).

(** * Builders *)

Inductive FrameBuildError := FrameTooLong | InvalidParameter.

(** [frame.extend_from_slice(s)] on a [heapless::Vec] of capacity [cap], with
    the error mapped to [FrameTooLong], and with the error ignored.  [push] of
    an octet is the same with one octet. *)
Definition extend (cap : nat) (frame s : list Z) : outcome FrameBuildError (list Z) :=
  if (length frame + length s <=? cap)%nat then Ok (frame ++ s) else Err FrameTooLong.
Definition extend_ignore (cap : nat) (frame s : list Z) : list Z :=
  if (length frame + length s <=? cap)%nat then frame ++ s else frame.

(** [match address { Short(_, a) => a.to_le_bytes(), Extended(_, a) => a }] *)
Definition address_octets (a : MacAddress) : list Z :=
  match a with MacShort _ addr => u16_to_le addr | MacExtended _ addr => addr end.

Definition all_ones : IeeeAddress := repeat 0xFF 8.
Definition all_zeros : IeeeAddress := repeat 0x00 8.

Definition build_beacon_request (seq : Z) : list Z :=
  let fc := 0x0803 in
  [as_u8 fc; as_u8 (Z.shiftr fc 8); seq; 0xFF; 0xFF; 0xFF; 0xFF; 0x07].

Definition build_association_request (seq : Z) (coord : MacAddress) (own_extended : IeeeAddress)
    (cap : CapabilityInfo) : list Z :=
  let frame_control := match coord with MacShort _ _ => 0xC823 | MacExtended _ _ => 0xCC23 end in
  let frame := extend_ignore 32 [] (u16_to_le frame_control) in
  let frame := extend_ignore 32 frame [seq] in
  let frame := extend_ignore 32 frame (u16_to_le (mac_pan_id coord)) in
  let frame := extend_ignore 32 frame (address_octets coord) in
  let frame := extend_ignore 32 frame (u16_to_le 0xFFFF) in
  let frame := extend_ignore 32 frame own_extended in
  let frame := extend_ignore 32 frame [0x01] in
  extend_ignore 32 frame [capability_to_byte cap].

Definition build_data_request (seq : Z) (coord : MacAddress) (own_extended : IeeeAddress) : list Z :=
  let frame_control := match coord with MacShort _ _ => 0xC863 | MacExtended _ _ => 0xCC63 end in
  let frame := extend_ignore 24 [] (u16_to_le frame_control) in
  let frame := extend_ignore 24 frame [seq] in
  let frame := extend_ignore 24 frame (u16_to_le (mac_pan_id coord)) in
  let frame := extend_ignore 24 frame (address_octets coord) in
  let frame := extend_ignore 24 frame own_extended in
  extend_ignore 24 frame [0x04].

Definition build_data_request_short (seq : Z) (coord : MacAddress) (own_short : ShortAddress) : list Z :=
  let frame_control := match coord with MacShort _ _ => 0x8863 | MacExtended _ _ => 0x8C63 end in
  let frame := extend_ignore 24 [] (u16_to_le frame_control) in
  let frame := extend_ignore 24 frame [seq] in
  let frame := extend_ignore 24 frame (u16_to_le (mac_pan_id coord)) in
  let frame := extend_ignore 24 frame (address_octets coord) in
  let frame := extend_ignore 24 frame (u16_to_le own_short) in
  extend_ignore 24 frame [0x04].

(** [for address in pending_short_addresses] *)
Fixpoint put_pending_short (frame : list Z) (l : list ShortAddress) : outcome FrameBuildError (list Z) :=
  match l with
  | [] => Ok frame
  | address :: l =>
      if 0xFFF8 <=? address then Err InvalidParameter
      else frame ← extend 125 frame (u16_to_le address); put_pending_short frame l
  end.

(** [for address in pending_extended_addresses] *)
Fixpoint put_pending_extended (frame : list Z) (l : list IeeeAddress) : outcome FrameBuildError (list Z) :=
  match l with
  | [] => Ok frame
  | address :: l =>
      if bool_decide (address = all_ones) then Err InvalidParameter
      else frame ← extend 125 frame address; put_pending_extended frame l
  end.

Definition build_nonbeacon_beacon (sequence : Z) (source : MacAddress) (pan_coordinator association_permit : bool)
    (pending_short_addresses : list ShortAddress) (pending_extended_addresses : list IeeeAddress)
    (beacon_payload : list Z) : outcome FrameBuildError (list Z) :=
  if (MAX_BEACON_PENDING_ADDRESSES <? length pending_short_addresses)%nat
     || (MAX_BEACON_PENDING_ADDRESSES <? length pending_extended_addresses)%nat
     || (mac_pan_id source =? 0xFFFF)
  then Err InvalidParameter
  else
    frame_control ←
      match source with
      | MacShort _ address =>
          if address <? 0xFFF8 then Ok (Z.lor 0 (Z.shiftl (address_mode_code AmShort) 14)) else Err InvalidParameter
      | MacExtended _ address =>
          if bool_decide (address ≠ all_ones) then Ok (Z.lor 0 (Z.shiftl (address_mode_code AmExtended) 14))
          else Err InvalidParameter
      end;
    frame ← extend 125 [] (u16_to_le frame_control);
    frame ← extend 125 frame [sequence];
    frame ← extend 125 frame (u16_to_le (mac_pan_id source));
    frame ← extend 125 frame (address_octets source);
    let superframe_spec := flag association_permit 15 (flag pan_coordinator 14 0x0FFF) in
    frame ← extend 125 frame (u16_to_le superframe_spec);
    frame ← extend 125 frame [0];
    frame ← extend 125 frame [Z.lor (as_u8 (Z.of_nat (length pending_short_addresses)))
                                (as_u8 (Z.shiftl (as_u8 (Z.of_nat (length pending_extended_addresses))) 4))];
    frame ← put_pending_short frame pending_short_addresses;
    frame ← put_pending_extended frame pending_extended_addresses;
    extend 125 frame beacon_payload.

Definition build_association_response (sequence : Z) (pan_id : PanId) (coordinator_extended : IeeeAddress)
    (response : MlmeAssociateResponse) : outcome FrameBuildError (list Z) :=
  if (pan_id =? 0xFFFF) || bool_decide (coordinator_extended = all_ones)
     || bool_decide (ar_device_address response = all_ones)
     || bool_decide (ar_status response = AsSuccess) && (0xFFF8 <=? ar_short_address response)
  then Err InvalidParameter
  else
    frame ← extend 32 [] (u16_to_le 0xCC63);
    frame ← extend 32 frame [sequence];
    frame ← extend 32 frame (u16_to_le pan_id);
    frame ← extend 32 frame (ar_device_address response);
    frame ← extend 32 frame coordinator_extended;
    frame ← extend 32 frame [0x02];
    frame ← extend 32 frame (u16_to_le (ar_short_address response));
    extend 32 frame [association_status_code (ar_status response)].

(** The address an [AddressMode] selects for the source field. *)
Definition source_octets (mode : AddressMode) (own_short : ShortAddress) (own_extended : IeeeAddress) : list Z :=
  match mode with AmNone => [] | AmShort => u16_to_le own_short | AmExtended => own_extended end.

Definition destination_mode_bits (a : MacAddress) : Z :=
  match a with MacShort _ _ => Z.shiftl 2 10 | MacExtended _ _ => Z.shiftl 3 10 end.

Definition build_disassociation_notification (seq : Z) (destination : MacAddress) (own_short : ShortAddress)
    (own_extended : IeeeAddress) (reason : DisassociateReason) : list Z :=
  let source_mode := if (own_short =? 0xFFFE) || (own_short =? 0xFFFF) then AmExtended else AmShort in
  let frame_control := Z.lor (Z.lor 0x0003 (Z.shiftl 1 5)) (Z.shiftl 1 6) in
  let frame_control := Z.lor frame_control (destination_mode_bits destination) in
  let frame_control := Z.lor frame_control (Z.shiftl (address_mode_code source_mode) 14) in
  let frame := extend_ignore 32 [] (u16_to_le frame_control) in
  let frame := extend_ignore 32 frame [seq] in
  let frame := extend_ignore 32 frame (u16_to_le (mac_pan_id destination)) in
  let frame := extend_ignore 32 frame (address_octets destination) in
  let frame := extend_ignore 32 frame (source_octets source_mode own_short own_extended) in
  let frame := extend_ignore 32 frame [0x03] in
  extend_ignore 32 frame [disassociate_code reason].

Definition MAC_CMD_ORPHAN_NOTIFICATION : Z := 0x06.
Definition MAC_CMD_COORDINATOR_REALIGNMENT : Z := 0x08.

Definition build_orphan_notification (seq : Z) (own_extended : IeeeAddress) : list Z :=
  let frame_control := Z.lor (Z.lor (Z.lor 0x0003 (Z.shiftl 1 6)) (Z.shiftl 2 10)) (Z.shiftl 3 14) in
  let frame := extend_ignore 24 [] (u16_to_le frame_control) in
  let frame := extend_ignore 24 frame [seq] in
  let frame := extend_ignore 24 frame (u16_to_le 0xFFFF) in
  let frame := extend_ignore 24 frame (u16_to_le BROADCAST) in
  let frame := extend_ignore 24 frame own_extended in
  extend_ignore 24 frame [MAC_CMD_ORPHAN_NOTIFICATION].

Definition build_coordinator_realignment_orphan_response (seq : Z) (pan_id : PanId)
    (coordinator_short : ShortAddress) (coordinator_extended : IeeeAddress) (channel : Z)
    (orphan_extended : IeeeAddress) (orphan_short : ShortAddress) : outcome FrameBuildError (list Z) :=
  if (pan_id =? 0xFFFF) || bool_decide (coordinator_extended = all_ones)
     || bool_decide (orphan_extended = all_ones) || bool_decide (orphan_extended = all_zeros)
     || negb ((0x0001 <=? orphan_short) && (orphan_short <=? 0xFFF7))
     || (0xFFF8 <=? coordinator_short) || (orphan_short =? coordinator_short)
     || negb ((11 <=? channel) && (channel <=? 26))
  then Err InvalidParameter
  else
    let frame_control := Z.lor (Z.lor (Z.lor 0x0003 (Z.shiftl 1 5)) (Z.shiftl 3 10)) (Z.shiftl 3 14) in
    frame ← extend 32 [] (u16_to_le frame_control);
    frame ← extend 32 frame [seq];
    frame ← extend 32 frame (u16_to_le 0xFFFF);
    frame ← extend 32 frame orphan_extended;
    frame ← extend 32 frame (u16_to_le pan_id);
    frame ← extend 32 frame coordinator_extended;
    frame ← extend 32 frame [MAC_CMD_COORDINATOR_REALIGNMENT];
    frame ← extend 32 frame (u16_to_le pan_id);
    frame ← extend 32 frame (u16_to_le coordinator_short);
    frame ← extend 32 frame [channel];
    extend 32 frame (u16_to_le orphan_short).

Definition build_data_frame (seq : Z) (src_addr_mode : AddressMode) (own_short : ShortAddress)
    (own_extended : IeeeAddress) (dst_address : MacAddress) (payload : list Z) (ack_request frame_pending : bool)
    : outcome FrameBuildError (list Z) :=
  let dst_len := match dst_address with MacShort _ _ => 2%nat | MacExtended _ _ => 8%nat end in
  let src_len := match src_addr_mode with AmNone => 0%nat | AmShort => 2%nat | AmExtended => 8%nat end in
  let frame_len := (3 + 2 + dst_len + src_len + length payload)%nat in
  if (125 <? frame_len)%nat then Err FrameTooLong
  else
    let fc := 0x0001 in
    let fc := flag frame_pending 4 fc in
    let fc := flag ack_request 5 fc in
    let fc := flag (bool_decide (src_addr_mode ≠ AmNone)) 6 fc in
    let fc := Z.lor fc (destination_mode_bits dst_address) in
    let fc := Z.lor fc (Z.shiftl (address_mode_code src_addr_mode) 14) in
    frame ← extend 125 [] (u16_to_le fc);
    frame ← extend 125 frame [seq];
    frame ← extend 125 frame (u16_to_le (mac_pan_id dst_address));
    frame ← extend 125 frame (address_octets dst_address);
    frame ← extend 125 frame (source_octets src_addr_mode own_short own_extended);
    extend 125 frame payload.

(** [build_ack]: the three octets of an immediate acknowledgement. *)
Definition build_ack (sequence : Z) (frame_pending : bool) : list Z :=
  [if frame_pending then 0x12 else 0x02; 0x00; sequence].

(** * Parsers *)

(** The fields of the frame control, each [(fc >> n) & m]. *)
Definition fc_dst_mode (fc : Z) : Z := Z.land (Z.shiftr fc 10) 3.
Definition fc_src_mode (fc : Z) : Z := Z.land (Z.shiftr fc 14) 3.
Definition fc_pan_compress (fc : Z) : bool := bit_of fc 6.
Definition fc_frame_type (fc : Z) : Z := Z.land fc 7.

Definition addressing_size (fc : Z) : nat :=
  let dst_mode := fc_dst_mode fc in
  let src_mode := fc_src_mode fc in
  let pan_compress := fc_pan_compress fc in
  let size := 0%nat in
  let size := if dst_mode =? 2 then (size + (2 + 2))%nat else if dst_mode =? 3 then (size + (2 + 8))%nat else size in
  if src_mode =? 2 then (size + (if pan_compress then 2 else 4))%nat
  else if src_mode =? 3 then (size + (if pan_compress then 8 else 10))%nat
  else size.

Definition parse_source_address (data : list Z) (fc : Z) : fallible MacAddress :=
  let dst_mode := fc_dst_mode fc in
  let src_mode := fc_src_mode fc in
  let pan_compress := fc_pan_compress fc in
  let offset := 3%nat in
  '(dst_pan, offset) ←
    (if (2 <=? dst_mode) && (offset + 1 <? length data)%nat then
       pan ← read_u16 data offset; Ok (Some pan, (offset + 2)%nat)
     else Ok (None, offset));
  let offset := if dst_mode =? 2 then (offset + 2)%nat else if dst_mode =? 3 then (offset + 8)%nat else offset in
  '(src_pan, offset) ←
    (if negb pan_compress && (2 <=? src_mode) && (offset + 1 <? length data)%nat then
       pan ← read_u16 data offset; Ok (pan, (offset + 2)%nat)
     else Ok (default 0xFFFF dst_pan, offset));
  if (src_mode =? 2) && (offset + 2 <=? length data)%nat then
    addr ← read_u16 data offset; Ok (MacShort src_pan addr)
  else if (src_mode =? 3) && (offset + 8 <=? length data)%nat then
    ext ← slice data offset (offset + 8); Ok (MacExtended src_pan ext)
  else Err tt.

Definition parse_dest_address (data : list Z) (fc : Z) : fallible MacAddress :=
  let dst_mode := fc_dst_mode fc in
  let offset := 3%nat in
  if (length data <? offset + 2)%nat then Err tt
  else
    pan ← read_u16 data offset;
    let addr_offset := (offset + 2)%nat in
    if (dst_mode =? 2) && (addr_offset + 2 <=? length data)%nat then
      addr ← read_u16 data addr_offset; Ok (MacShort pan addr)
    else if (dst_mode =? 3) && (addr_offset + 8 <=? length data)%nat then
      ext ← slice data addr_offset (addr_offset + 8); Ok (MacExtended pan ext)
    else Err tt.

Definition parse_zigbee_beacon (data : list Z) : fallible ZigbeeBeaconPayload :=
  protocol_id ← index data 0;
  nwk_info ← read_u16 data 1;
  extended_pan_id ← slice data 3 11;
  tx_offset ← slice data 11 14;
  update_id ← index data 14;
  Ok (mk_ZigbeeBeaconPayload protocol_id (Z.land nwk_info 0x0F) (Z.land (Z.shiftr nwk_info 4) 0x0F)
        (bit_of nwk_info 10) (Z.land (Z.shiftr nwk_info 11) 0x0F) (bit_of nwk_info 15)
        extended_pan_id tx_offset update_id).

Definition parse_beacon (channel : Z) (data : list Z) (lqi : Z) : fallible PanDescriptor :=
  if (length data <? 11)%nat then Err tt
  else
    fc ← read_u16 data 0;
    if negb (fc_frame_type fc =? 0) then Err tt
    else
      coord_address ← parse_source_address data fc;
      let superframe_offset := (3 + addressing_size fc)%nat in
      if (length data <? superframe_offset + 4)%nat then Err tt
      else
        superframe_raw ← read_u16 data superframe_offset;
        let payload_offset := (superframe_offset + 2)%nat in
        gts_spec ← try_opt (data !! payload_offset);
        let payload_offset := (payload_offset + 1)%nat in
        let gts_count := Z.to_nat (Z.land gts_spec 7) in
        let payload_offset := if (gts_count =? 0)%nat then payload_offset else (payload_offset + (1 + gts_count * 3))%nat in
        pending_spec ← try_opt (data !! payload_offset);
        let payload_offset := (payload_offset + 1)%nat in
        let short_pending := Z.to_nat (Z.land pending_spec 7) in
        let extended_pending := Z.to_nat (Z.land (Z.shiftr pending_spec 4) 7) in
        let payload_offset := (payload_offset + (short_pending * 2 + extended_pending * 8))%nat in
        zigbee_data ← try_opt (slice_get data payload_offset (length data));
        if (length zigbee_data <? 15)%nat then Err tt
        else
          zigbee_beacon ← parse_zigbee_beacon zigbee_data;
          Ok (mk_PanDescriptor channel coord_address (superframe_from_raw superframe_raw) lqi false zigbee_beacon).

Definition parse_mac_addresses {E} (data : list Z) : outcome E (MacAddress * MacAddress * nat * bool) :=
  let default_addr := MacShort 0xFFFF 0xFFFF in
  if (length data <? 3)%nat then Ok (default_addr, default_addr, 0%nat, false)
  else
    fc ← read_u16 data 0;
    let security := bit_of fc 3 in
    let pan_compress := fc_pan_compress fc in
    let dst_mode := fc_dst_mode fc in
    let src_mode := fc_src_mode fc in
    let offset := 3%nat in
    '(dst_pan, offset) ←
      (if (0 <? dst_mode) && (offset + 2 <=? length data)%nat then
         p ← read_u16 data offset; Ok (p, (offset + 2)%nat)
       else Ok (0xFFFF, offset));
    '(dst_address, offset) ←
      (if (dst_mode =? 2) && (offset + 2 <=? length data)%nat then
         a ← read_u16 data offset; Ok (MacShort dst_pan a, (offset + 2)%nat)
       else if (dst_mode =? 3) && (offset + 8 <=? length data)%nat then
         ext ← slice data offset (offset + 8); Ok (MacExtended dst_pan ext, (offset + 8)%nat)
       else Ok (default_addr, offset));
    '(src_pan, offset) ←
      (if (0 <? src_mode) && negb pan_compress && (offset + 2 <=? length data)%nat then
         p ← read_u16 data offset; Ok (p, (offset + 2)%nat)
       else Ok (dst_pan, offset));
    '(src_address, offset) ←
      (if (src_mode =? 2) && (offset + 2 <=? length data)%nat then
         a ← read_u16 data offset; Ok (MacShort src_pan a, (offset + 2)%nat)
       else if (src_mode =? 3) && (offset + 8 <=? length data)%nat then
         ext ← slice data offset (offset + 8); Ok (MacExtended src_pan ext, (offset + 8)%nat)
       else Ok (MacShort src_pan 0xFFFF, offset));
    Ok (src_address, dst_address, offset, security).

Definition parse_association_response (data : list Z) : fallible (ShortAddress * Z) :=
  if (length data <? 5)%nat then Err tt
  else
    fc ← read_u16 data 0;
    if negb (fc_frame_type fc =? 3) then Err tt
    else
      let dst_mode := fc_dst_mode fc in
      let src_mode := fc_src_mode fc in
      let pan_compress := Z.land (Z.shiftr fc 6) 1 in
      let offset := 3%nat in
      let offset := if 0 <? dst_mode then (offset + 2)%nat else offset in
      let offset := if dst_mode =? 2 then (offset + 2)%nat else if dst_mode =? 3 then (offset + 8)%nat else offset in
      let offset := if (0 <? src_mode) && (pan_compress =? 0) then (offset + 2)%nat else offset in
      let offset := if src_mode =? 2 then (offset + 2)%nat else if src_mode =? 3 then (offset + 8)%nat else offset in
      if (length data <? offset + 4)%nat then Err tt
      else
        command ← index data offset;
        if negb (command =? 0x02) then Err tt
        else
          short ← read_u16 data (offset + 1);
          status ← index data (offset + 3);
          Ok (short, status).

(** [u16::from_le_bytes([*data.get(i)?, *data.get(i + 1)?])] *)
Definition get_u16 (data : list Z) (i : nat) : fallible Z :=
  b0 ← try_opt (data !! i); b1 ← try_opt (data !! (i + 1)%nat); Ok (u16_from_le b0 b1).

(** [!(lo..=hi).contains(x)] is written with [negb]. *)
Definition in_range (lo hi x : Z) : bool := (lo <=? x) && (x <=? hi).

Definition parse_orphan_notification (data : list Z) : fallible IeeeAddress :=
  if negb (length data =? 16)%nat then Err tt
  else
    frame_control ← get_u16 data 0;
    if negb (frame_control =? 0xC843) then Err tt
    else
      dst_pan ← get_u16 data 3;
      dst_addr ← get_u16 data 5;
      if negb (dst_pan =? 0xFFFF) || negb (dst_addr =? BROADCAST) then Err tt
      else
        orphan ← try_opt (slice_get data 7 15);
        command ← try_opt (data !! 15%nat);
        if negb (command =? MAC_CMD_ORPHAN_NOTIFICATION) then Err tt
        else if bool_decide (orphan = all_zeros) || bool_decide (orphan = all_ones) then Err tt
        else Ok orphan.

Record CoordinatorRealignment := mk_CoordinatorRealignment {
  cr_pan_id : PanId; cr_coordinator_short : ShortAddress; cr_channel : Z; cr_short_address : ShortAddress }.

Definition parse_coordinator_realignment_orphan_response (data : list Z)
    : fallible (CoordinatorRealignment * IeeeAddress * IeeeAddress) :=
  if negb (length data =? 31)%nat then Err tt
  else
    frame_control ← get_u16 data 0;
    if negb (frame_control =? 0xCC23) then Err tt
    else
      destination_pan ← get_u16 data 3;
      if negb (destination_pan =? 0xFFFF) then Err tt
      else
        destination ← try_opt (slice_get data 5 13);
        source_pan ← get_u16 data 13;
        source ← try_opt (slice_get data 15 23);
        command ← try_opt (data !! 23%nat);
        if negb (command =? MAC_CMD_COORDINATOR_REALIGNMENT) then Err tt
        else
          pan_id ← get_u16 data 24;
          coordinator_short ← get_u16 data 26;
          channel ← try_opt (data !! 28%nat);
          short_address ← get_u16 data 29;
          if negb (pan_id =? source_pan) || (pan_id =? 0xFFFF)
             || bool_decide (source = all_zeros) || bool_decide (source = all_ones)
             || bool_decide (destination = all_zeros) || bool_decide (destination = all_ones)
             || (0xFFF8 <=? coordinator_short) || negb (in_range 0x0001 0xFFF7 short_address)
             || (short_address =? coordinator_short) || negb (in_range 11 26 channel)
          then Err tt
          else Ok (mk_CoordinatorRealignment pan_id coordinator_short channel short_address, source, destination).

Definition is_unicast_mac_address (address : MacAddress) : bool :=
  match address with
  | MacShort _ address => address <? 0xFFF8
  | MacExtended _ address => bool_decide (address ≠ all_ones)
  end.

Definition parse_parent_command (data : list Z) (lqi : Z) : fallible MacCommandEvent :=
  if (length data <? 3)%nat then Err tt
  else
    frame_control ← read_u16 data 0;
    if negb (fc_frame_type frame_control =? 3) || has_bits frame_control (Z.shiftl 1 3) then Err tt
    else
      let frame_version := Z.land (Z.shiftr frame_control 12) 3 in
      let dst_mode := fc_dst_mode frame_control in
      let src_mode := fc_src_mode frame_control in
      let pan_compress := has_bits frame_control (Z.shiftl 1 6) in
      let ack_request := has_bits frame_control (Z.shiftl 1 5) in
      if (1 <? frame_version)
         || has_bits frame_control (Z.lor (Z.lor (Z.shiftl 1 7) (Z.shiftl 1 8)) (Z.shiftl 1 9))
         || (dst_mode =? 1) || (src_mode =? 1)
      then Err tt
      else
        let payload_offset := (3 + addressing_size frame_control)%nat in
        if (length data <=? payload_offset)%nat then Err tt
        else
          '(source, destination, parsed_offset, _) ← parse_mac_addresses data;
          if negb (parsed_offset =? payload_offset)%nat then Err tt
          else
            command ← index data payload_offset;
            if (command =? 0x07) && (length data =? payload_offset + 1)%nat && (dst_mode =? 2) && (src_mode =? 0)
               && negb pan_compress && negb ack_request && bool_decide (destination = MacShort 0xFFFF BROADCAST) then
              Ok (BeaconRequest (mk_MlmeBeaconRequestIndication destination lqi false))
            else if (command =? 0x01) && (length data =? payload_offset + 2)%nat
               && ((dst_mode =? 2) || (dst_mode =? 3)) && (src_mode =? 3) && negb pan_compress && ack_request then
              match source with
              | MacExtended source_pan device_address =>
                  if negb (source_pan =? 0xFFFF) || bool_decide (device_address = all_ones)
                     || (mac_pan_id destination =? 0xFFFF) || negb (is_unicast_mac_address destination)
                  then Err tt
                  else
                    capability ← index data (payload_offset + 1);
                    Ok (AssociationRequest (mk_MlmeAssociateIndication device_address destination
                          (capability_from_byte capability) lqi false))
              | MacShort _ _ => Err tt
              end
            else if (command =? 0x04) && (length data =? payload_offset + 1)%nat
               && ((dst_mode =? 2) || (dst_mode =? 3)) && ((src_mode =? 2) || (src_mode =? 3)) && ack_request then
              if negb (is_unicast_mac_address source) || negb (is_unicast_mac_address destination)
                 || negb (mac_pan_id source =? mac_pan_id destination) || (mac_pan_id destination =? 0xFFFF)
              then Err tt
              else Ok (DataRequest (mk_MlmeDataRequestIndication source destination lqi false))
            else if (command =? MAC_CMD_ORPHAN_NOTIFICATION) && (length data =? payload_offset + 1)%nat
               && (dst_mode =? 2) && (src_mode =? 3) && pan_compress && negb ack_request then
              orphan_address ← parse_orphan_notification data;
              Ok (OrphanNotification (mk_MlmeOrphanIndication orphan_address destination lqi false))
            else Err tt.

Definition ack_sequence (data : list Z) : fallible Z :=
  if (length data <? 3)%nat then Err tt
  else
    b0 ← index data 0;
    if Z.land b0 7 =? 0x02 then index data 2 else Err tt.

Definition ack_info (data : list Z) : fallible (Z * bool) :=
  sequence ← ack_sequence data;
  b0 ← index data 0;
  Ok (sequence, negb (Z.land b0 0x10 =? 0)).

(** * Address filters *)

Definition frame_is_for_us (dst : MacAddress) (our_pan : PanId) (our_short : ShortAddress)
    (our_extended : IeeeAddress) : bool :=
  let pan_ok pan := (pan =? our_pan) || (pan =? 0xFFFF) || (our_pan =? 0xFFFF) in
  match dst with
  | MacShort pan addr => pan_ok pan && ((addr =? 0xFFFF) || negb (our_short =? 0xFFFF) && (addr =? our_short))
  | MacExtended pan addr => pan_ok pan && bool_decide (addr = our_extended)
  end.

Definition is_exact_destination (dst : MacAddress) (our_pan : PanId) (our_short : ShortAddress)
    (our_extended : IeeeAddress) : bool :=
  match dst with
  | MacShort pan addr => (our_short <? 0xFFFE) && (addr =? our_short) && (pan =? our_pan)
  | MacExtended pan addr => bool_decide (addr = our_extended) && ((pan =? our_pan) || (our_pan =? 0xFFFF))
  end.

Definition software_ack_sequence (data : list Z) (our_pan : PanId) (our_short : ShortAddress)
    (our_extended : IeeeAddress) : fallible Z :=
  if (length data <? 3)%nat then Err tt
  else
    fc ← read_u16 data 0;
    let frame_type := fc_frame_type fc in
    if negb ((frame_type =? 1) || (frame_type =? 3)) || negb (has_bits fc (Z.shiftl 1 5)) then Err tt
    else
      dst ← parse_dest_address data fc;
      if is_exact_destination dst our_pan our_short our_extended then index data 2 else Err tt.

Definition is_parent_poll_response (data : list Z) (our_pan : PanId) (our_short : ShortAddress)
    (our_extended : IeeeAddress) (coord_short : ShortAddress) (coord_extended : IeeeAddress) : fallible bool :=
  if (length data <? 3)%nat then Ok false
  else
    b0 ← index data 0;
    if negb (Z.land b0 7 =? 1) then Ok false
    else
      fc ← read_u16 data 0;
      if (length data <? 3 + addressing_size fc)%nat then Ok false
      else
        match parse_dest_address data fc, parse_source_address data fc with
        | Ok dst, Ok src =>
            if negb (is_exact_destination dst our_pan our_short our_extended) then Ok false
            else
              Ok match src with
                 | MacShort pan addr => (pan =? our_pan) && (addr <? 0xFFF8) && (addr =? coord_short)
                 | MacExtended _ addr => bool_decide (coord_extended ≠ all_zeros) && bool_decide (addr = coord_extended)
                 end
        | Panic, _ | _, Panic => Panic
        | _, _ => Ok false
        end.

(** * Backoff *)

(** [(random as u16) & ((1u16 << be) - 1)] with [be] clamped to 8 *)
Definition csma_backoff_slots (random be : Z) : Z :=
  let be := Z.min be 8 in
  Z.land (as_u16 random) (as_u16 (Z.shiftl 1 be) - 1).

Record BackoffRng := mk_BackoffRng { br_state : Z }.

Definition rotate_left_u32 (x n : Z) : Z := Z.lor (as_u32 (Z.shiftl x n)) (Z.shiftr x (32 - n)).
Definition wrapping_mul_u32 (a b : Z) : Z := (a * b) mod 4294967296.

Definition br_next_u32 (r : BackoffRng) : Z * BackoffRng :=
  let x := br_state r in
  let x := Z.lxor x (as_u32 (Z.shiftl x 13)) in
  let x := Z.lxor x (Z.shiftr x 17) in
  let x := Z.lxor x (as_u32 (Z.shiftl x 5)) in
  (x, mk_BackoffRng (Z.max x 1)).

Definition br_mix (jitter : Z) (r : BackoffRng) : BackoffRng :=
  (br_next_u32 (mk_BackoffRng (Z.max (Z.lxor (br_state r) (wrapping_mul_u32 jitter 0x85EBCA6B)) 1))).2.

Definition br_new {E} (eui64 : IeeeAddress) (jitter : Z) : outcome E BackoffRng :=
  b0 ← index eui64 0; b1 ← index eui64 1; b2 ← index eui64 2; b3 ← index eui64 3;
  b4 ← index eui64 4; b5 ← index eui64 5; b6 ← index eui64 6; b7 ← index eui64 7;
  let lo := u32_from_le b0 b1 b2 b3 in
  let hi := u32_from_le b4 b5 b6 b7 in
  Ok (br_mix jitter (mk_BackoffRng (Z.max (Z.lxor (Z.lxor lo (rotate_left_u32 hi 16)) 0x9E3779B9) 1))).

(** [u64::from_be_bytes] *)
Definition ieee_address_as_be_word (address : IeeeAddress) : Z :=
  foldl (λ w b, Z.lor (Z.shiftl w 8) b) 0 address.

(** * The addressing fields of a frame *)

(** What the MAC header says: control, sequence number and the two optional
    addresses. *)
Record MacHeader := mk_MacHeader {
  mh_control : Z; mh_seq : Z; mh_dst : option MacAddress; mh_src : option MacAddress }.

Definition address_wf (a : MacAddress) : Prop :=
  is_u16 (mac_pan_id a) ∧
  match a with MacShort _ s => is_u16 s | MacExtended _ e => length e = 8%nat ∧ Forall is_u8 e end.

Definition mode_of (a : option MacAddress) : Z :=
  match a with None => 0 | Some (MacShort _ _) => 2 | Some (MacExtended _ _) => 3 end.

Definition pan_or_broadcast (a : option MacAddress) : PanId :=
  match a with Some a => mac_pan_id a | None => 0xFFFF end.

(** The modes announced are those of the addresses, and with PAN compression
    the source is in the PAN of the destination. *)
Record header_wf (h : MacHeader) : Prop := {
  hw_control : is_u16 (mh_control h);
  hw_seq : is_u8 (mh_seq h);
  hw_dst_mode : fc_dst_mode (mh_control h) = mode_of (mh_dst h);
  hw_src_mode : fc_src_mode (mh_control h) = mode_of (mh_src h);
  hw_dst : ∀ a, mh_dst h = Some a → address_wf a;
  hw_src : ∀ a, mh_src h = Some a → address_wf a;
  hw_compress : ∀ a, fc_pan_compress (mh_control h) = true → mh_src h = Some a →
    mac_pan_id a = pan_or_broadcast (mh_dst h) }.

Definition dst_octets (a : option MacAddress) : list Z :=
  match a with Some a => u16_to_le (mac_pan_id a) ++ address_octets a | None => [] end.
Definition src_octets (compress : bool) (a : option MacAddress) : list Z :=
  match a with
  | Some a => (if compress then [] else u16_to_le (mac_pan_id a)) ++ address_octets a
  | None => []
  end.
Definition header_octets (h : MacHeader) : list Z :=
  u16_to_le (mh_control h) ++ [mh_seq h] ++ dst_octets (mh_dst h) ++
  src_octets (fc_pan_compress (mh_control h)) (mh_src h).

Lemma u16_split v : is_u16 v →
  ∃ b0 b1, u16_to_le v = [b0; b1] ∧ u16_from_le b0 b1 = v ∧ is_u8 b0 ∧ is_u8 b1.
Proof.
  intros Hv. pose proof (u16_to_le_octets v) as Ho. unfold u16_to_le in *.
  apply Forall_cons in Ho as [? [? _]%Forall_cons].
  eexists _, _. split; [done|]. split; [|done]. by apply u16_from_to_le.
Qed.

Lemma ieee_split (e : IeeeAddress) : length e = 8%nat → ∃ a b c d f g h i, e = [a; b; c; d; f; g; h; i].
Proof. intros H. do 8 (destruct e as [|? e]; [done|]). destruct e; [|done]. by repeat eexists. Qed.

(** Replaces the octets of every 16-bit value and every extended address of
    the goal by variables, so that a parser computes on the frame. *)
Ltac split_u16 v :=
  let H := fresh "Hsplit" in
  destruct (u16_split v ltac:(assumption)) as (? & ? & -> & H & ? & ?).
Ltac explode :=
  repeat match goal with
  | |- context [u16_to_le ?v] => split_u16 v
  | H : length ?e = 8%nat |- _ => is_var e;
      destruct (ieee_split e H) as (? & ? & ? & ? & ? & ? & ? & ? & ->); clear H
  end.

(** Case analysis on the shape of a header. *)
Ltac header_simpl :=
  cbn [mh_control mh_seq mh_dst mh_src mac_pan_id address_octets dst_octets src_octets mode_of pan_or_broadcast
       default from_option id] in *.
Ltac header_cases h H :=
  let fc := fresh "fc" in let seq := fresh "seq" in
  destruct h as [fc seq [[? ?|? ?]|] [[? ?|? ?]|]]; destruct H as [? ? ? ? Hd Hs Hp]; header_simpl;
  try (specialize (Hd _ eq_refl); destruct Hd as [? Hd]; header_simpl);
  try (specialize (Hs _ eq_refl); destruct Hs as [? Hs]; header_simpl);
  repeat match goal with H : length _ = _ ∧ _ |- _ => destruct H end;
  try (specialize (λ E, Hp _ E eq_refl); header_simpl).

(** Evaluation on an exploded frame: the fields of the frame control stay
    folded and are rewritten with what is known of them. *)
Ltac frame_step :=
  cbn -[u16_from_le fc_dst_mode fc_src_mode fc_pan_compress fc_frame_type bit_of has_bits];
  repeat match goal with
  | H : fc_dst_mode ?f = _ |- context [fc_dst_mode ?f] => rewrite H
  | H : fc_src_mode ?f = _ |- context [fc_src_mode ?f] => rewrite H
  | H : fc_pan_compress ?f = _ |- context [fc_pan_compress ?f] => rewrite H
  end.
Ltac run_frame := do 4 frame_step; try reflexivity.

Lemma header_length h : header_wf h → length (header_octets h) = (3 + addressing_size (mh_control h))%nat.
Proof.
  intros H. unfold addressing_size. rewrite (hw_dst_mode _ H), (hw_src_mode _ H).
  unfold header_octets. header_cases h H; destruct (fc_pan_compress fc); simpl; rewrite ?length_app; simpl; lia.
Qed.

Lemma read_u16_front {E} v l : is_u16 v → read_u16 (E:=E) (u16_to_le v ++ l) 0 = Ok v.
Proof. intros. split_u16 v. cbn -[u16_from_le]. by rewrite Hsplit. Qed.

Section Header.
Context (h : MacHeader) (p : list Z) (Hh : header_wf h).

Lemma parse_mac_addresses_header {E} :
  parse_mac_addresses (E:=E) (header_octets h ++ p) =
    Ok (default (MacShort (pan_or_broadcast (mh_dst h)) 0xFFFF) (mh_src h), default (MacShort 0xFFFF 0xFFFF) (mh_dst h),
        length (header_octets h), bit_of (mh_control h) 3).
Proof using Hh.
  unfold header_octets. header_cases h Hh; destruct (fc_pan_compress fc) eqn:Hc;
    explode; try (specialize (Hp eq_refl)); subst; unfold parse_mac_addresses; run_frame.
Qed.

Lemma parse_source_address_header :
  parse_source_address (header_octets h ++ p) (mh_control h) = try_opt (mh_src h).
Proof using Hh.
  unfold header_octets. header_cases h Hh; destruct (fc_pan_compress fc) eqn:Hc;
    explode; try (specialize (Hp eq_refl)); subst; unfold parse_source_address; run_frame.
Qed.

Lemma parse_dest_address_header :
  parse_dest_address (header_octets h ++ p) (mh_control h) = try_opt (mh_dst h).
Proof using Hh.
  unfold header_octets. header_cases h Hh; destruct (fc_pan_compress fc) eqn:Hc;
    explode; try (specialize (Hp eq_refl)); subst; unfold parse_dest_address; run_frame.
  all: destruct p as [|? [|? ?]]; reflexivity.
Qed.

Lemma read_control_header {E} : read_u16 (E:=E) (header_octets h ++ p) 0 = Ok (mh_control h).
Proof using Hh. unfold header_octets. rewrite <- app_assoc. apply read_u16_front, (hw_control _ Hh). Qed.
End Header.

Lemma octets_u16 b0 b1 : is_u8 b0 → is_u8 b1 → [b0; b1] = u16_to_le (u16_from_le b0 b1).
Proof. intros. by rewrite u16_to_from_le. Qed.

Lemma land_3_cases x : Z.land x 3 = 0 ∨ Z.land x 3 = 1 ∨ Z.land x 3 = 2 ∨ Z.land x 3 = 3.
Proof. pose proof (land_ones_mod x 2 ltac:(lia)) as H. change (Z.land x 3 = x mod 4) in H. ulia. Qed.

(** Takes the next octet of a list known to be long enough. *)
Ltac next_octet l b Hoct :=
  destruct l as [|b l]; [simpl in *; lia|]; apply Forall_cons in Hoct as [? Hoct].

(** The address of a mode, read from the front of enough octets. *)
Lemma address_view m pan l :
  Forall is_u8 l → is_u16 pan → m = 2 ∧ (2 <= length l)%nat ∨ m = 3 ∧ (8 <= length l)%nat →
  ∃ a rest, mode_of (Some a) = m ∧ mac_pan_id a = pan ∧ address_wf a ∧ l = address_octets a ++ rest.
Proof.
  intros Ho Hp [[-> Hl]|[-> Hl]].
  - next_octet l b0 Ho. next_octet l b1 Ho. exists (MacShort pan (u16_from_le b0 b1)), l.
    split_and!; try done; [split; [done|by apply u16_from_le_range]|].
    cbn [address_octets]. by rewrite u16_to_from_le.
  - exists (MacExtended pan (take 8 l)), (drop 8 l). simpl. split_and!; try done; [|by rewrite take_drop].
    split; [done|]. split; [rewrite length_take; lia|by apply Forall_take].
Qed.

Lemma pan_view l : Forall is_u8 l → (2 <= length l)%nat → ∃ pan rest, is_u16 pan ∧ l = u16_to_le pan ++ rest ∧ Forall is_u8 rest.
Proof.
  intros Ho Hl. next_octet l b0 Ho. next_octet l b1 Ho. exists (u16_from_le b0 b1), l. split; [by apply u16_from_le_range|].
  by rewrite u16_to_from_le.
Qed.

Definition dst_size (m : Z) : nat := if m =? 2 then 4%nat else if m =? 3 then 10%nat else 0%nat.
Definition src_size (m : Z) (compress : bool) : nat :=
  if m =? 2 then if compress then 2%nat else 4%nat else if m =? 3 then if compress then 8%nat else 10%nat else 0%nat.

Lemma addressing_size_eq fc :
  addressing_size fc = (dst_size (fc_dst_mode fc) + src_size (fc_src_mode fc) (fc_pan_compress fc))%nat.
Proof. unfold addressing_size, dst_size, src_size. repeat case_match; lia. Qed.

Tactic Notation "sizes" "in" ident(H) := cbv [dst_size src_size Z.eqb Pos.eqb] in H; simpl in H.

Lemma dst_view m l :
  Forall is_u8 l → m = 0 ∨ m = 2 ∨ m = 3 → (dst_size m <= length l)%nat →
  ∃ a rest, mode_of a = m ∧ (∀ x, a = Some x → address_wf x) ∧ length (dst_octets a) = dst_size m ∧
    l = dst_octets a ++ rest ∧ Forall is_u8 rest.
Proof.
  intros Ho Hm Hl. destruct (decide (m = 0)) as [->|Hm0]; [exists None, l; done|].
  destruct (pan_view l) as (pan & r & Hpan & -> & Hr); [done|destruct Hm as [?|[->| ->]]; sizes in Hl; lia|].
  destruct (address_view m pan r) as (a & rest & <- & <- & Ha & ->); [done|done| |].
  { destruct Hm as [?|[->| ->]]; sizes in Hl; [done|left|right]; (split; [done|lia]). }
  exists (Some a), rest. apply Forall_app in Hr as [? ?]. unfold dst_octets.
  split_and!; [done|by intros ? [= <-]| |by rewrite app_assoc|done].
  destruct a as [? ?|? ?], Ha as [_ Ha]; [done|]. destruct Ha as [Ha _]. simpl. by rewrite Ha.
Qed.

Lemma src_view m compress pan l :
  Forall is_u8 l → m = 0 ∨ m = 2 ∨ m = 3 → (src_size m compress <= length l)%nat → is_u16 pan →
  ∃ a rest, mode_of a = m ∧ (∀ x, a = Some x → address_wf x) ∧ (∀ x, compress = true → a = Some x → mac_pan_id x = pan) ∧
    l = src_octets compress a ++ rest.
Proof.
  intros Ho Hm Hl Hpan. destruct (decide (m = 0)) as [->|Hm0]; [exists None, l; done|].
  destruct compress.
  - destruct (address_view m pan l) as (a & rest & <- & <- & Ha & ->); [done|done| |].
    { destruct Hm as [?|[->| ->]]; sizes in Hl; [done|left|right]; (split; [done|lia]). }
    exists (Some a), rest. split_and!; [done|by intros ? [= <-]|by intros ? _ [= <-]|done].
  - destruct (pan_view l) as (pan' & r & Hpan' & -> & Hr); [done|destruct Hm as [?|[->| ->]]; sizes in Hl; lia|].
    destruct (address_view m pan' r) as (a & rest & <- & <- & Ha & ->); [done|done| |].
    { destruct Hm as [?|[->| ->]]; sizes in Hl; [done|left|right]; (split; [done|lia]). }
    exists (Some a), rest. unfold src_octets. split_and!; [done|by intros ? [= <-]|done|by rewrite app_assoc].
Qed.

(** Every frame with defined addressing modes that is as long as they say is a
    header and a payload. *)
Lemma header_view data fc :
  Forall is_u8 data → read_u16 (E:=unit) data 0 = Ok fc → (3 + addressing_size fc <= length data)%nat →
  fc_dst_mode fc ≠ 1 → fc_src_mode fc ≠ 1 →
  ∃ h p, header_wf h ∧ mh_control h = fc ∧ data = header_octets h ++ p.
Proof.
  intros Ho Hr Hlen Hd Hs. rewrite addressing_size_eq in Hlen. next_octet data b0 Ho. next_octet data b1 Ho. next_octet data sq Ho.
  cbn -[u16_from_le] in Hr. injection Hr as Hr.
  assert (is_u16 fc) by (subst; by apply u16_from_le_range).
  destruct (dst_view (fc_dst_mode fc) data) as (dst & r & Hdm & Hdw & Hdl & -> & Hrest);
    [done|destruct (land_3_cases (Z.shiftr fc 10)); unfold fc_dst_mode in *; naive_solver|cbn [length] in Hlen; lia|].
  destruct (src_view (fc_src_mode fc) (fc_pan_compress fc) (pan_or_broadcast dst) r) as (src & p & Hsm & Hsw & Hsp & ->);
    [done|destruct (land_3_cases (Z.shiftr fc 14)); unfold fc_src_mode in *; naive_solver| | |].
  { rewrite <- Hdl in Hlen. cbn [length] in Hlen. rewrite length_app in Hlen. lia. }
  { destruct dst as [a|]; [apply (Hdw a eq_refl)|done]. }
  exists (mk_MacHeader fc sq dst src), p. split_and!; [by split|done|].
  unfold header_octets. cbn [mh_control mh_seq mh_dst mh_src]. replace (u16_to_le fc) with [b0; b1] by (by rewrite <- Hr, u16_to_from_le).
  cbn [app]. by rewrite <- app_assoc.
Qed.

(** * Commands a parent answers *)

(** The grammar of the four commands: the free bits of the frame control are
    frame pending, the low bit of the version and, of a Data Request, PAN
    compression. *)
Inductive ParentCommand :=
| PcBeaconRequest (pending version : bool) (seq : Z)
| PcAssociationRequest (pending version : bool) (seq : Z) (coord : MacAddress) (device : IeeeAddress) (capability : Z)
| PcDataRequest (pending version compress : bool) (seq : Z) (dst src : MacAddress)
| PcOrphanNotification (seq : Z) (orphan : IeeeAddress).

Definition command_control (pending ack compress : bool) (dst_mode : Z) (version : bool) (src_mode : Z) : Z :=
  3 + 16 * Z.b2z pending + 32 * Z.b2z ack + 64 * Z.b2z compress + 1024 * dst_mode + 4096 * Z.b2z version
  + 16384 * src_mode.

Definition broadcast_address : MacAddress := MacShort 0xFFFF 0xFFFF.

Definition command_header (c : ParentCommand) : MacHeader :=
  let header pending ack compress version seq dst src :=
    mk_MacHeader (command_control pending ack compress (mode_of dst) version (mode_of src)) seq dst src in
  match c with
  | PcBeaconRequest pending version seq => header pending false false version seq (Some broadcast_address) None
  | PcAssociationRequest pending version seq coord device _ =>
      header pending true false version seq (Some coord) (Some (MacExtended 0xFFFF device))
  | PcDataRequest pending version compress seq dst src => header pending true compress version seq (Some dst) (Some src)
  | PcOrphanNotification seq orphan =>
      header false false true false seq (Some broadcast_address) (Some (MacExtended 0xFFFF orphan))
  end.

Definition command_payload (c : ParentCommand) : list Z :=
  match c with
  | PcBeaconRequest _ _ _ => [0x07]
  | PcAssociationRequest _ _ _ _ _ capability => [0x01; capability]
  | PcDataRequest _ _ _ _ _ _ => [0x04]
  | PcOrphanNotification _ _ => [0x06]
  end.

Definition command_octets (c : ParentCommand) : list Z := header_octets (command_header c) ++ command_payload c.

(** Addresses are unicast and in the PAN; an unassociated device names none. *)
Definition command_wf (c : ParentCommand) : Prop :=
  is_u8 (mh_seq (command_header c)) ∧
  match c with
  | PcBeaconRequest _ _ _ => True
  | PcAssociationRequest _ _ _ coord device capability =>
      address_wf coord ∧ mac_pan_id coord ≠ 0xFFFF ∧ is_unicast_mac_address coord = true ∧
      ieee_wf device ∧ device ≠ all_ones ∧ is_u8 capability
  | PcDataRequest _ _ _ _ dst src =>
      address_wf dst ∧ address_wf src ∧ mac_pan_id src = mac_pan_id dst ∧ mac_pan_id dst ≠ 0xFFFF ∧
      is_unicast_mac_address dst = true ∧ is_unicast_mac_address src = true
  | PcOrphanNotification _ orphan => ieee_wf orphan ∧ orphan ≠ all_ones ∧ orphan ≠ all_zeros
  end.

Definition command_event (lqi : Z) (c : ParentCommand) : MacCommandEvent :=
  match c with
  | PcBeaconRequest _ _ _ => BeaconRequest (mk_MlmeBeaconRequestIndication broadcast_address lqi false)
  | PcAssociationRequest _ _ _ coord device capability =>
      AssociationRequest (mk_MlmeAssociateIndication device coord (capability_from_byte capability) lqi false)
  | PcDataRequest _ _ _ _ dst src => DataRequest (mk_MlmeDataRequestIndication src dst lqi false)
  | PcOrphanNotification _ orphan => OrphanNotification (mk_MlmeOrphanIndication orphan broadcast_address lqi false)
  end.

(** A frame control the parser accepts is determined by its free fields. *)
Lemma command_control_fields fc :
  is_u16 fc → fc_frame_type fc = 3 → has_bits fc (Z.shiftl 1 3) = false → Z.land (Z.shiftr fc 12) 3 <= 1 →
  has_bits fc (Z.lor (Z.lor (Z.shiftl 1 7) (Z.shiftl 1 8)) (Z.shiftl 1 9)) = false →
  fc = command_control (has_bits fc (Z.shiftl 1 4)) (has_bits fc (Z.shiftl 1 5)) (has_bits fc (Z.shiftl 1 6))
         (fc_dst_mode fc) (has_bits fc (Z.shiftl 1 12)) (fc_src_mode fc).
Proof.
  intros Hu H1 H2 H3 H4.
  pose proof (range_forall2 256 256 (λ b1 b0, let fc := b0 + b1 * 256 in
    negb (fc_frame_type fc =? 3) || has_bits fc (Z.shiftl 1 3) || negb (Z.land (Z.shiftr fc 12) 3 <=? 1)
    || has_bits fc (Z.lor (Z.lor (Z.shiftl 1 7) (Z.shiftl 1 8)) (Z.shiftl 1 9))
    || (fc =? command_control (has_bits fc (Z.shiftl 1 4)) (has_bits fc (Z.shiftl 1 5)) (has_bits fc (Z.shiftl 1 6))
         (fc_dst_mode fc) (has_bits fc (Z.shiftl 1 12)) (fc_src_mode fc)))
    ltac:(vm_compute; reflexivity) (fc / 256) (fc mod 256) ltac:(ulia) ltac:(ulia)) as H.
  cbv beta zeta in H. replace (fc mod 256 + fc / 256 * 256) with fc in H by ulia.
  rewrite H1, H2, H4 in H. rewrite (proj2 (Z.leb_le _ _) H3) in H. by apply Z.eqb_eq in H.
Qed.

Lemma has_bits_compress fc : has_bits fc (Z.shiftl 1 6) = fc_pan_compress fc.
Proof.
  rewrite has_bits_testbit by lia. unfold fc_pan_compress, bit_of.
  pose proof (land_ones_mod (Z.shiftr fc 6) 1 ltac:(lia)) as H. change (2 ^ 1 - 1) with 1 in H.
  rewrite H. change (2 ^ 1) with 2. rewrite Zmod_odd, <- Z.bit0_odd, Z.shiftr_spec by lia. change (0 + 6) with 6.
  by destruct (Z.testbit fc 6).
Qed.

Lemma command_header_wf c : command_wf c → header_wf (command_header c).
Proof.
  intros [Hseq Hc]. destruct c as [[] [] ?|[] [] ? [? ?|? ?] ? ?|[] [] [] ? [? ?|? ?] [? ?|? ?]|? ?]; simpl in Hc;
    destruct_and?; split; simpl; try done; try (intros ? [= <-]); try (intros ? ? [= <-]); try done; by split.
Qed.

(** The control fields every accepted command has. *)
Definition control_accepted (fc : Z) : bool :=
  (fc_frame_type fc =? 3) && negb (has_bits fc (Z.shiftl 1 3)) && (Z.land (Z.shiftr fc 12) 3 <=? 1)
  && negb (has_bits fc (Z.lor (Z.lor (Z.shiftl 1 7) (Z.shiftl 1 8)) (Z.shiftl 1 9))).

(** The decision of the parser on a header and what follows it. *)
Definition command_of (h : MacHeader) (p : list Z) (lqi : Z) : fallible MacCommandEvent :=
  let fc := mh_control h in
  let ack := has_bits fc (Z.shiftl 1 5) in
  match control_accepted fc, p with
  | true, command :: rest =>
      if command =? 0x07 then
        match rest, mh_dst h, mh_src h with
        | [], Some dst, None =>
            if negb (fc_pan_compress fc) && negb ack && bool_decide (dst = broadcast_address)
            then Ok (BeaconRequest (mk_MlmeBeaconRequestIndication dst lqi false)) else Err tt
        | _, _, _ => Err tt
        end
      else if command =? 0x01 then
        match rest, mh_dst h, mh_src h with
        | [capability], Some dst, Some (MacExtended pan device) =>
            if negb (fc_pan_compress fc) && ack && (pan =? 0xFFFF) && bool_decide (device ≠ all_ones)
               && negb (mac_pan_id dst =? 0xFFFF) && is_unicast_mac_address dst
            then Ok (AssociationRequest (mk_MlmeAssociateIndication device dst (capability_from_byte capability) lqi false))
            else Err tt
        | _, _, _ => Err tt
        end
      else if command =? 0x04 then
        match rest, mh_dst h, mh_src h with
        | [], Some dst, Some src =>
            if ack && is_unicast_mac_address src && is_unicast_mac_address dst && (mac_pan_id src =? mac_pan_id dst)
               && negb (mac_pan_id dst =? 0xFFFF)
            then Ok (DataRequest (mk_MlmeDataRequestIndication src dst lqi false)) else Err tt
        | _, _, _ => Err tt
        end
      else if command =? 0x06 then
        match rest, mh_dst h, mh_src h with
        | [], Some (MacShort pan addr), Some (MacExtended span orphan) =>
            if (fc =? 0xC843) && (pan =? 0xFFFF) && (addr =? 0xFFFF) && bool_decide (orphan ≠ all_zeros)
               && bool_decide (orphan ≠ all_ones)
            then Ok (OrphanNotification (mk_MlmeOrphanIndication orphan (MacShort pan addr) lqi false)) else Err tt
        | _, _, _ => Err tt
        end
      else Err tt
  | _, _ => Err tt
  end.

(** An Orphan Notification read through its header. *)
Lemma parse_orphan_header fc sq pan addr span orphan :
  header_wf (mk_MacHeader fc sq (Some (MacShort pan addr)) (Some (MacExtended span orphan))) →
  fc_pan_compress fc = true →
  parse_orphan_notification (header_octets (mk_MacHeader fc sq (Some (MacShort pan addr)) (Some (MacExtended span orphan))) ++ [6]) =
  if (fc =? 0xC843) && (pan =? 0xFFFF) && (addr =? 0xFFFF) && bool_decide (orphan ≠ all_zeros)
     && bool_decide (orphan ≠ all_ones)
  then Ok orphan else Err tt.
Proof.
  intros [? ? ? ? Hd Hs Hp] Hc. header_simpl. destruct (Hd _ eq_refl) as [? Hda], (Hs _ eq_refl) as [? [Hlen _]]. header_simpl.
  unfold header_octets. header_simpl. rewrite Hc. clear Hd Hs. explode. subst. unfold parse_orphan_notification.
  cbn -[u16_from_le all_zeros all_ones bool_decide].
  rewrite !bool_decide_not. change BROADCAST with 65535. set (o := [_; _; _; _; _; _; _; _]).
  by destruct (_ =? 51267), (_ =? 65535), (_ =? 65535), (bool_decide (o = all_zeros)), (bool_decide (o = all_ones)).
Qed.

Lemma index_app_second {E} (l : list Z) a b r : index (E:=E) (l ++ a :: b :: r) (length l + 1) = Ok b.
Proof. apply index_Some. by rewrite lookup_app_r, Nat.add_sub_swap, Nat.sub_diag by lia. Qed.

Lemma eqb_add_l n a b : ((n + a) =? (n + b))%nat = (a =? b)%nat.
Proof. destruct (Nat.eqb_spec a b); [apply Nat.eqb_eq|apply Nat.eqb_neq]; lia. Qed.

Lemma control_rejected fc : control_accepted fc = false →
  negb (fc_frame_type fc =? 3) || has_bits fc (Z.shiftl 1 3) = true ∨
  (1 <? Z.land (Z.shiftr fc 12) 3) = true ∨
  has_bits fc (Z.lor (Z.lor (Z.shiftl 1 7) (Z.shiftl 1 8)) (Z.shiftl 1 9)) = true.
Proof.
  unfold control_accepted. rewrite !andb_false_iff, !negb_false_iff, Z.leb_gt, orb_true_iff, negb_true_iff, Z.ltb_lt.
  tauto.
Qed.

(** Decides the comparisons of literals, and splits on what is left. *)
Ltac eval_eqb :=
  repeat match goal with
  | |- context [Zpos ?a =? Zpos ?b] => let r := eval vm_compute in (Zpos a =? Zpos b) in change (Zpos a =? Zpos b) with r
  | |- context [Z0 =? Zpos ?b] => change (Z0 =? Zpos b) with false
  | |- context [Zpos ?a =? Z0] => change (Zpos a =? Z0) with false
  end.
Ltac split_ifs :=
  try done; rewrite ?bool_decide_not; change (MacShort 65535 BROADCAST) with broadcast_address;
  repeat match goal with
  | |- context [?a =? ?b] => destruct (a =? b)
  | |- context [is_unicast_mac_address ?a] => destruct (is_unicast_mac_address a)
  | |- context [has_bits ?a ?b] => destruct (has_bits a b)
  | |- context [bool_decide ?P] => destruct (bool_decide P)
  end; try done.

(** The case of one command identifier, and the rest of the identifiers. *)
Ltac by_command c n this rest :=
  change MAC_CMD_ORPHAN_NOTIFICATION with 6; destruct (Z.eqb_spec c n) as [->|_];
  [eval_eqb; cbn [andb negb]; this|cbn [andb negb]; rest; try done].

Lemma parse_parent_header h p lqi : header_wf h →
  parse_parent_command (header_octets h ++ p) lqi = command_of h p lqi.
Proof.
  intros Hh. unfold parse_parent_command. rewrite (read_control_header h p Hh), (parse_mac_addresses_header h p Hh).
  cbv [mbind outcome_bind]. rewrite <- (header_length h Hh), length_app.
  rewrite (proj2 (Nat.ltb_ge _ 3)) by (rewrite header_length by done; lia).
  unfold command_of. destruct (control_accepted (mh_control h)) eqn:Hacc.
  2: { apply control_rejected in Hacc as [-> |[-> | ->]]; [done|by destruct (_ || _)|].
       rewrite orb_true_r. by destruct (_ || _). }
  unfold control_accepted in Hacc. bool_simpl.
  rewrite (proj2 (Z.eqb_eq _ _) H), H2, H0, (proj2 (Z.ltb_ge _ _) H1), Nat.eqb_refl, has_bits_compress. cbn [negb orb].
  destruct p as [|command rest].
  { rewrite Nat.add_0_r, Nat.leb_refl. by destruct (_ || _). }
  rewrite index_app_mid, !eqb_add_l. cbn [length].
  rewrite (proj2 (Nat.leb_gt _ _)) by lia.
  rewrite (hw_dst_mode _ Hh), (hw_src_mode _ Hh).
  destruct h as [fc sq [[dp da|dp de]|] [[sp sa|sp se]|]]; header_simpl; destruct rest as [|cap [|? ?]]; cbn [length Nat.eqb];
    eval_eqb; rewrite ?index_app_second, ?andb_false_r, ?andb_true_r; cbn [orb]; rewrite ?andb_false_r, ?andb_true_r; cbn [andb].
  all: destruct (fc_pan_compress fc) eqn:Hc;
    by_command command 7 split_ifs ltac:(by_command command 1 split_ifs ltac:(by_command command 4 split_ifs
      ltac:(by_command command 6 ltac:(try done) idtac))).
  - rewrite parse_orphan_header by done. destruct (Z.eqb_spec fc 51267) as [->|_]; [|by destruct (negb _)].
    cbn [andb]. change (has_bits 51267 (Z.shiftl 1 5)) with false. cbn [negb]. by destruct (_ && _).
  - destruct (Z.eqb_spec fc 51267) as [->|_]; done.
Qed.

Ltac known_bits Hfc :=
  repeat match goal with
  | H : has_bits ?f ?b = _ |- _ => rewrite H in Hfc
  | H : fc_pan_compress ?f = _ |- _ => rewrite H in Hfc
  end.

(** The commands the decision accepts are those of the grammar. *)
Lemma command_of_sound h p lqi ev :
  header_wf h → Forall is_u8 p → command_of h p lqi = Ok ev →
  ∃ c, command_wf c ∧ h = command_header c ∧ p = command_payload c ∧ ev = command_event lqi c.
Proof.
  intros Hh Ho. unfold command_of. destruct (control_accepted (mh_control h)) eqn:Hacc; [|done].
  unfold control_accepted in Hacc. bool_simpl.
  pose proof (command_control_fields _ (hw_control _ Hh) H H2 H1 H0) as Hfc. rewrite has_bits_compress in Hfc.
  rewrite (hw_dst_mode _ Hh), (hw_src_mode _ Hh) in Hfc. pose proof (hw_seq _ Hh) as Hseq.
  pose proof (hw_dst _ Hh) as Hd. pose proof (hw_src _ Hh) as Hs. pose proof (hw_compress _ Hh) as Hcp. clear Hh H H0 H1 H2.
  destruct h as [fc sq dst src]; header_simpl. destruct p as [|command rest]; [done|].
  set (pending := has_bits fc (Z.shiftl 1 4)) in *. set (version := has_bits fc (Z.shiftl 1 12)) in *.
  destruct (Z.eqb_spec command 7) as [->|_].
  { destruct rest, dst as [dst|], src; try done. case_match eqn:Hg; [|done]. intros [= <-]. bool_simpl. subst dst.
    exists (PcBeaconRequest pending version sq). known_bits Hfc.
    split; [done|]. split; [cbn [command_header]; by f_equal|done]. }
  destruct (Z.eqb_spec command 1) as [->|_].
  { destruct rest as [|cap [|? ?]], dst as [dst|], src as [[? ?|pan dev]|]; try done. case_match eqn:Hg; [|done].
    intros [= <-]. bool_simpl. subst pan. exists (PcAssociationRequest pending version sq dst dev cap).
    known_bits Hfc. inversion_clear Ho as [|? ? _ Hcap]. inversion_clear Hcap.
    destruct (Hs _ eq_refl) as [_ ?]. split; [split_and!; try done; by apply Hd|].
    split; [cbn [command_header]; by f_equal|done]. }
  destruct (Z.eqb_spec command 4) as [->|_].
  { destruct rest, dst as [dst|], src as [src|]; try done. case_match eqn:Hg; [|done]. intros [= <-]. bool_simpl.
    exists (PcDataRequest pending version (fc_pan_compress fc) sq dst src). known_bits Hfc.
    split; [split_and!; try done; auto|]. split; [cbn [command_header]; by f_equal|done]. }
  destruct (Z.eqb_spec command 6) as [->|_]; [|done].
  destruct rest, dst as [[? ?|? ?]|], src as [[? ?|? orphan]|]; try done. case_match eqn:Hg; [|done].
  intros [= <-]. bool_simpl. subst. exists (PcOrphanNotification sq orphan).
  destruct (Hs _ eq_refl) as [_ ?]. specialize (Hcp _ eq_refl eq_refl). simpl in Hcp. subst. done.
Qed.

Lemma command_control_reads pending ack compress dst version src :
  let fc := command_control pending ack compress (mode_of dst) version (mode_of src) in
  control_accepted fc = true ∧ fc_pan_compress fc = compress ∧ has_bits fc (Z.shiftl 1 5) = ack.
Proof. by destruct pending, ack, compress, dst as [[? ?|? ?]|], version, src as [[? ?|? ?]|]. Qed.

Lemma command_of_complete c lqi :
  command_wf c → command_of (command_header c) (command_payload c) lqi = Ok (command_event lqi c).
Proof.
  intros [_ Hc]. unfold command_of.
  destruct c as [pe ve sq|pe ve sq coord dev cap|pe ve co sq dst src|sq o]; cbn -[all_ones all_zeros] in Hc;
    cbn [command_header mh_control mh_dst mh_src command_payload command_event].
  - destruct (command_control_reads pe false false (Some broadcast_address) ve None) as (-> & -> & ->). done.
  - destruct (command_control_reads pe true false (Some coord) ve (Some (MacExtended 0xFFFF dev))) as (-> & -> & ->).
    eval_eqb. destruct Hc as (_ & Hp & Hu & _ & Hdev & _).
    by rewrite Hu, (bool_decide_eq_true_2 _ Hdev), (proj2 (Z.eqb_neq _ _) Hp).
  - destruct (command_control_reads pe true co (Some dst) ve (Some src)) as (-> & _ & ->).
    eval_eqb. destruct Hc as (_ & _ & Hp & Hb & Hu & Hv).
    by rewrite Hu, Hv, Hp, Z.eqb_refl, (proj2 (Z.eqb_neq _ _) Hb).
  - destruct (command_control_reads false false true (Some broadcast_address) false (Some (MacExtended 0xFFFF o))) as (-> & _ & _).
    eval_eqb. destruct Hc as (_ & H1 & H0). cbn [broadcast_address].
    by rewrite (bool_decide_eq_true_2 _ H1), (bool_decide_eq_true_2 _ H0).
Qed.

(** * No panics *)

Ltac frames_no_panic :=
  repeat first [apply no_panic_read_u16; lia | no_panic_step | apply no_panic_try_opt].

Lemma no_panic_get_u16 data i : no_panic (get_u16 data i).
Proof. unfold get_u16. frames_no_panic. Qed.
#[local] Hint Resolve no_panic_get_u16 : exec.

Lemma no_panic_source data fc : no_panic (parse_source_address data fc).
Proof. unfold parse_source_address. frames_no_panic; bool_simpl; frames_no_panic. Qed.

Lemma no_panic_dest data fc : no_panic (parse_dest_address data fc).
Proof. unfold parse_dest_address. frames_no_panic. Qed.
#[local] Hint Resolve no_panic_source no_panic_dest : exec.

Lemma no_panic_mac_addresses {E} data : no_panic (parse_mac_addresses (E:=E) data).
Proof. unfold parse_mac_addresses. frames_no_panic. Qed.

Lemma no_panic_orphan data : no_panic (parse_orphan_notification data).
Proof. unfold parse_orphan_notification. frames_no_panic. Qed.

Lemma no_panic_realignment data : no_panic (parse_coordinator_realignment_orphan_response data).
Proof. unfold parse_coordinator_realignment_orphan_response. frames_no_panic. Qed.

Lemma no_panic_association_response data : no_panic (parse_association_response data).
Proof. unfold parse_association_response. frames_no_panic. Qed.

Lemma no_panic_beacon channel data lqi : no_panic (parse_beacon channel data lqi).
Proof. unfold parse_beacon, parse_zigbee_beacon. frames_no_panic. Qed.

#[local] Hint Resolve no_panic_mac_addresses no_panic_orphan : exec.

Lemma no_panic_parent_command data lqi : no_panic (parse_parent_command data lqi).
Proof. unfold parse_parent_command. frames_no_panic; try (case_match; frames_no_panic). Qed.

Lemma no_panic_ack data : no_panic (ack_sequence data) ∧ no_panic (ack_info data).
Proof.
  assert (no_panic (ack_sequence data)) by (unfold ack_sequence; frames_no_panic).
  split; [done|]. destruct data as [|b data]; [done|]. by apply no_panic_bind.
Qed.

Lemma no_panic_filters data pan short ext cs ce :
  no_panic (software_ack_sequence data pan short ext) ∧ no_panic (is_parent_poll_response data pan short ext cs ce).
Proof.
  split; [unfold software_ack_sequence; frames_no_panic|]. unfold is_parent_poll_response. frames_no_panic.
  pose proof (no_panic_dest data a0) as Hd. pose proof (no_panic_source data a0) as Hs.
  destruct (parse_dest_address data a0), (parse_source_address data a0); try done. by destruct (negb _).
Qed.

(** * Builders and parsers together *)

Lemma extend_Ok cap f s : (length f + length s <= cap)%nat → extend cap f s = Ok (f ++ s).
Proof. intros. unfold extend. by rewrite (proj2 (Nat.leb_le _ _)). Qed.

Lemma capability_roundtrip c : capability_from_byte (capability_to_byte c) = c ∧ is_u8 (capability_to_byte c).
Proof. destruct c as [[] [] [] [] []]; (split; [reflexivity|split; vm_compute; congruence]). Qed.

Section Requests.
Context (sq : Z) (coord : MacAddress) (Hw : address_wf coord).

Ltac build := destruct coord as [pan addr|pan addr], Hw as [? ?]; destruct_and?; header_simpl; explode; reflexivity.

Lemma build_association_request_octets own cap : ieee_wf own →
  build_association_request sq coord own cap =
    command_octets (PcAssociationRequest false false sq coord own (capability_to_byte cap)).
Proof using Hw. intros [Hl _]. build. Qed.

Lemma build_data_request_octets own : ieee_wf own →
  build_data_request sq coord own =
    command_octets (PcDataRequest false false true sq coord (MacExtended (mac_pan_id coord) own)).
Proof using Hw. intros [Hl _]. build. Qed.

Lemma build_data_request_short_octets own :
  is_u16 own → build_data_request_short sq coord own =
    command_octets (PcDataRequest false false true sq coord (MacShort (mac_pan_id coord) own)).
Proof using Hw. intros Ho. build. Qed.
End Requests.

Lemma build_orphan_octets sq own : ieee_wf own →
  build_orphan_notification sq own = command_octets (PcOrphanNotification sq own).
Proof. intros [Hl _]. explode. reflexivity. Qed.

Lemma build_beacon_request_octets sq :
  build_beacon_request sq = command_octets (PcBeaconRequest false false sq).
Proof. reflexivity. Qed.

Lemma parse_command_octets c lqi :
  command_wf c → parse_parent_command (command_octets c) lqi = Ok (command_event lqi c).
Proof.
  intros Hc. unfold command_octets. rewrite parse_parent_header by (by apply command_header_wf).
  by apply command_of_complete.
Qed.

(** ** Data frames *)

(** The source address a mode selects, in the PAN of the destination. *)
Definition source_of (mode : AddressMode) (pan : PanId) (own_short : ShortAddress) (own_extended : IeeeAddress)
    : option MacAddress :=
  match mode with
  | AmNone => None
  | AmShort => Some (MacShort pan own_short)
  | AmExtended => Some (MacExtended pan own_extended)
  end.

Definition data_header (sq : Z) (ack pending : bool) (dst : MacAddress) (src : option MacAddress) : MacHeader :=
  mk_MacHeader (1 + 16 * Z.b2z pending + 32 * Z.b2z ack + 64 * Z.b2z (bool_decide (src ≠ None))
    + 1024 * mode_of (Some dst) + 16384 * mode_of src) sq (Some dst) src.

Section DataFrame.
Context (sq : Z) (mode : AddressMode) (short : ShortAddress) (ext : IeeeAddress) (dst : MacAddress) (ack pending : bool).
Context (Hsq : is_u8 sq) (Hshort : is_u16 short) (Hext : ieee_wf ext) (Hdst : address_wf dst).
Let h := data_header sq ack pending dst (source_of mode (mac_pan_id dst) short ext).

Lemma data_header_wf : header_wf h.
Proof using All.
  destruct mode, dst as [? ?|? ?], ack, pending; split; simpl; try done;
    try (by intros ? [= <-]); try (by intros ? ? [= <-]); intros ? [= <-]; by destruct Hdst.
Qed.

Lemma build_data_frame_octets payload :
  build_data_frame sq mode short ext dst payload ack pending =
    if (125 <? length (header_octets h) + length payload)%nat then Err FrameTooLong else Ok (header_octets h ++ payload).
Proof using All.
  assert (Hlen : length (header_octets h) = (5 + (match dst with MacShort _ _ => 2 | MacExtended _ _ => 8 end) +
    (match mode with AmNone => 0 | AmShort => 2 | AmExtended => 8 end))%nat).
  { rewrite header_length by apply data_header_wf. by destruct mode, dst, ack, pending. }
  unfold build_data_frame. rewrite Hlen. cbv zeta.
  change (3 + 2)%nat with 5%nat. destruct (125 <? _)%nat eqn:Hl; [done|]. apply Nat.ltb_ge in Hl.
  assert (Ha : length (address_octets dst) = match dst with MacShort _ _ => 2%nat | MacExtended _ _ => 8%nat end)
    by (destruct dst as [? ?|? ?], Hdst as [_ ?]; [done|tauto]).
  assert (Hs : length (source_octets mode short ext) = match mode with AmNone => 0%nat | AmShort => 2%nat | AmExtended => 8%nat end)
    by (destruct Hext; by destruct mode).
  do 6 (rewrite extend_Ok by (rewrite ?length_app, ?Ha, ?Hs; cbn [length u16_to_le]; lia); cbn [mbind outcome_bind]).
  rewrite <- !app_assoc. unfold header_octets, h, data_header. cbn [mh_control mh_seq mh_dst mh_src].
  by destruct mode, dst, ack, pending; rewrite <- !app_assoc.
Qed.
End DataFrame.

(** ** Beacons *)

Lemma extend_Ok_inv cap f s f' : extend cap f s = Ok f' → f' = f ++ s.
Proof. unfold extend. case_match; congruence. Qed.

Lemma put_pending_short_inv f l f' :
  put_pending_short f l = Ok f' → f' = f ++ concat (u16_to_le <$> l).
Proof.
  revert f. induction l as [|a l IH]; intros f; simpl; [intros [= <-]; by rewrite app_nil_r|].
  case_match; [done|]. rewrite bind_Ok. intros (f1 & ->%extend_Ok_inv & Hf). apply IH in Hf as ->. by rewrite <- app_assoc.
Qed.

Lemma put_pending_extended_inv f l f' : put_pending_extended f l = Ok f' → f' = f ++ concat l.
Proof.
  revert f. induction l as [|a l IH]; intros f; simpl; [intros [= <-]; by rewrite app_nil_r|].
  case_match; [done|]. rewrite bind_Ok. intros (f1 & ->%extend_Ok_inv & Hf). apply IH in Hf as ->. by rewrite <- app_assoc.
Qed.

Definition beacon_header (sq : Z) (source : MacAddress) : MacHeader :=
  mk_MacHeader (16384 * mode_of (Some source)) sq None (Some source).
Definition beacon_superframe (coordinator permit : bool) : Z :=
  4095 + 16384 * Z.b2z coordinator + 32768 * Z.b2z permit.

Lemma pending_spec_octet n m : (n <= 7)%nat → (m <= 7)%nat →
  let spec := Z.lor (as_u8 (Z.of_nat n)) (as_u8 (Z.shiftl (as_u8 (Z.of_nat m)) 4)) in
  spec = Z.of_nat n + 16 * Z.of_nat m ∧
  Z.to_nat (Z.land spec 7) = n ∧ Z.to_nat (Z.land (Z.shiftr spec 4) 7) = m.
Proof.
  intros Hn Hm. pose proof (range_forall2 8 8 (λ n m,
    let spec := Z.lor (as_u8 n) (as_u8 (Z.shiftl (as_u8 m) 4)) in
    (spec =? n + 16 * m) && (Z.land spec 7 =? n) && (Z.land (Z.shiftr spec 4) 7 =? m)) ltac:(vm_compute; reflexivity)
    (Z.of_nat n) (Z.of_nat m) ltac:(lia) ltac:(lia)) as H. cbv beta zeta in H. bool_simpl. cbv zeta.
  by rewrite H0, H1, H, !Nat2Z.id.
Qed.

(** What [build_nonbeacon_beacon] writes when it succeeds. *)
Lemma build_beacon_octets sq source coordinator permit ps pe payload frame :
  build_nonbeacon_beacon sq source coordinator permit ps pe payload = Ok frame →
  (length ps <= 7)%nat ∧ (length pe <= 7)%nat ∧
  frame = header_octets (beacon_header sq source) ++ u16_to_le (beacon_superframe coordinator permit) ++
    [0; Z.of_nat (length ps) + 16 * Z.of_nat (length pe)] ++ concat (u16_to_le <$> ps) ++ concat pe ++ payload.
Proof.
  unfold build_nonbeacon_beacon, MAX_BEACON_PENDING_ADDRESSES. destruct (_ || _) eqn:Hc; [done|]. bool_simpl.
  rewrite bind_Ok. intros (fc & Hfc & Hb). cbv zeta in Hb.
  repeat (rewrite bind_Ok in Hb; let f := fresh "f" in let H := fresh "Hf" in destruct Hb as (f & H & Hb);
    first [apply extend_Ok_inv in H | apply put_pending_short_inv in H | apply put_pending_extended_inv in H]; subst f).
  apply extend_Ok_inv in Hb as ->. split; [lia|]. split; [lia|].
  destruct (pending_spec_octet (length ps) (length pe)) as [-> _]; [lia..|].
  assert (fc = mh_control (beacon_header sq source)) as ->.
  { unfold beacon_header. destruct source as [? ?|? ?]; case_match; try done; by injection Hfc as <-. }
  replace (flag permit 15 (flag coordinator 14 4095)) with (beacon_superframe coordinator permit) by (by destruct coordinator, permit).
  unfold header_octets, beacon_header. header_simpl. destruct source; rewrite <- !app_assoc; reflexivity.
Qed.

Lemma read_u16_at {E} pre v l : is_u16 v → read_u16 (E:=E) (pre ++ u16_to_le v ++ l) (length pre) = Ok v.
Proof.
  intros Hv. split_u16 v. unfold read_u16. cbn [app]. rewrite index_app_mid, index_app_second. cbn. by rewrite Hsplit.
Qed.

Lemma beacon_header_wf sq source : is_u8 sq → address_wf source → header_wf (beacon_header sq source).
Proof.
  intros Hsq Hs. split; try done; [by destruct source|by destruct source|by destruct source|by intros ? [= <-]|].
  destruct source; by intros ? [=].
Qed.

Lemma superframe_reads coordinator permit :
  is_u16 (beacon_superframe coordinator permit) ∧
  superframe_from_raw (beacon_superframe coordinator permit) = mk_SuperframeSpec 15 15 15 false coordinator permit.
Proof. destruct coordinator, permit; (split; [split; vm_compute; congruence|reflexivity]). Qed.

Lemma lookup_app_at (pre : list Z) l k : (pre ++ l) !! (length pre + k)%nat = l !! k.
Proof. rewrite lookup_app_r by lia. f_equal. lia. Qed.

Lemma length_concat_u16 (l : list Z) : length (concat (u16_to_le <$> l)) = (2 * length l)%nat.
Proof. induction l as [|v l IH]; [done|]. rewrite fmap_cons. cbn [concat]. rewrite length_app, IH. cbn. lia. Qed.

Lemma length_concat_ieee (l : list IeeeAddress) : Forall ieee_wf l → length (concat l) = (8 * length l)%nat.
Proof. induction 1 as [|? ? [Hx _]]; simpl; [done|]. rewrite length_app. lia. Qed.

Lemma parse_beacon_octets ch lqi sq source coordinator permit ps pe payload :
  is_u8 sq → address_wf source → Forall ieee_wf pe → (length ps <= 7)%nat → (length pe <= 7)%nat →
  (15 <= length payload)%nat →
  parse_beacon ch (header_octets (beacon_header sq source) ++ u16_to_le (beacon_superframe coordinator permit) ++
    [0; Z.of_nat (length ps) + 16 * Z.of_nat (length pe)] ++ concat (u16_to_le <$> ps) ++ concat pe ++ payload) lqi =
  zb ← parse_zigbee_beacon payload;
  Ok (mk_PanDescriptor ch source (mk_SuperframeSpec 15 15 15 false coordinator permit) lqi false zb).
Proof.
  intros Hsq Hs Hpe Hn Hm Hp. pose proof (beacon_header_wf sq source Hsq Hs) as Hh.
  destruct (superframe_reads coordinator permit) as [Hsf <-].
  set (spec := Z.of_nat (length ps) + 16 * Z.of_nat (length pe)).
  unfold parse_beacon. rewrite (read_control_header _ _ Hh). cbv [mbind outcome_bind].
  rewrite (parse_source_address_header _ _ Hh), <- (header_length _ Hh). cbn [mh_src beacon_header try_opt].
  change (mk_MacHeader _ _ _ _) with (beacon_header sq source). set (H := header_octets (beacon_header sq source)).
  assert (3 <= length H)%nat by (unfold H; rewrite header_length by done; lia).
  rewrite (read_u16_at H) by done.
  replace (negb (fc_frame_type _ =? 0)) with false by (by destruct source).
  set (frame := H ++ _).
  assert (Hlf : length frame = (length H + 4 + 2 * length ps + 8 * length pe + length payload)%nat).
  { unfold frame. rewrite !length_app, length_concat_u16, length_concat_ieee by done. cbn [length u16_to_le]. lia. }
  rewrite (proj2 (Nat.ltb_ge _ 11)), (proj2 (Nat.ltb_ge (length frame) _)) by lia.
  replace (frame !! (length H + 2)%nat) with (Some 0) by (unfold frame; by rewrite lookup_app_at). cbn [try_opt].
  change (Z.to_nat (Z.land 0 7) =? 0)%nat with true. cbv iota.
  replace (frame !! (length H + 2 + 1)%nat) with (Some spec)
    by (unfold frame; by rewrite <- Nat.add_assoc, lookup_app_at). cbn [try_opt].
  destruct (pending_spec_octet (length ps) (length pe) Hn Hm) as (Hspec & Hs1 & Hs2). cbv zeta in *.
  rewrite Hspec in Hs1, Hs2. fold spec in Hs1, Hs2. rewrite Hs1, Hs2.
  replace (slice_get frame _ (length frame)) with (Some payload).
  { cbn [try_opt]. by rewrite (proj2 (Nat.ltb_ge _ 15)). }
  symmetry. unfold frame.
  rewrite (app_assoc H), (app_assoc (H ++ _)), (app_assoc ((H ++ _) ++ _)), (app_assoc (((H ++ _) ++ _) ++ _)).
  set (pre := (((H ++ _) ++ _) ++ _) ++ _).
  assert (Hpre : length pre = (length H + 2 + 1 + 1 + (length ps * 2 + length pe * 8))%nat).
  { unfold pre. rewrite !length_app, length_concat_u16, length_concat_ieee by done. cbn [length u16_to_le]. lia. }
  rewrite <- Hpre. apply slice_get_Some. rewrite length_app. split; [lia|].
  rewrite drop_app_length, take_ge; [done|lia].
Qed.

(** ** Responses *)

Lemma build_association_response_octets sq pan coord response frame :
  is_u16 pan → ieee_wf coord → ieee_wf (ar_device_address response) → is_u16 (ar_short_address response) →
  build_association_response sq pan coord response = Ok frame →
  parse_association_response frame = Ok (ar_short_address response, association_status_code (ar_status response)).
Proof.
  intros Hp [Hc _] [Hd _] Hs. unfold build_association_response. case_match; [done|].
  destruct response as [dev short status]. cbn [ar_device_address ar_short_address ar_status] in *.
  rewrite (u16_to_le_eq 0xCC63). explode. cbn -[u16_from_le]. intros [= <-]. subst. reflexivity.
Qed.

Lemma build_realignment_octets sq pan cs ce ch oe os frame :
  is_u16 pan → is_u16 cs → ieee_wf ce → ieee_wf oe → is_u16 os → ce ≠ all_zeros →
  build_coordinator_realignment_orphan_response sq pan cs ce ch oe os = Ok frame →
  parse_coordinator_realignment_orphan_response frame = Ok (mk_CoordinatorRealignment pan cs ch os, ce, oe).
Proof.
  intros Hp Hcs [Hce _] [Hoe _] Hos Hz. unfold build_coordinator_realignment_orphan_response.
  destruct (_ || _) eqn:Hg; [done|].
  assert (Hg' : negb (pan =? pan) || (pan =? 0xFFFF) || bool_decide (ce = all_zeros) || bool_decide (ce = all_ones)
    || bool_decide (oe = all_zeros) || bool_decide (oe = all_ones) || (0xFFF8 <=? cs) || negb (in_range 0x0001 0xFFF7 os)
    || (os =? cs) || negb (in_range 11 26 ch) = false).
  { unfold in_range. rewrite !orb_false_iff in *. rewrite Z.eqb_refl, (bool_decide_eq_false_2 _ Hz). tauto. }
  clear Hg. revert Hg'. cbv zeta.
  change (Z.lor (Z.lor (Z.lor 3 (Z.shiftl 1 5)) (Z.shiftl 3 10)) (Z.shiftl 3 14)) with 0xCC23.
  rewrite (u16_to_le_eq 0xCC23), (u16_to_le_eq 0xFFFF). explode.
  intros Hg. cbn -[u16_from_le]. intros [= <-]. unfold parse_coordinator_realignment_orphan_response.
  cbn -[u16_from_le all_zeros all_ones bool_decide]. subst. by rewrite Hg.
Qed.

(** * Filters and backoff *)

Lemma read_u16_lt {E} data i : (i + 1 < length data)%nat → ∃ v, read_u16 (E:=E) data i = Ok v.
Proof.
  intros H. pose proof (no_panic_read_u16 (E:=E) data i H) as Hn. unfold read_u16, index in *.
  destruct (data !! i), (data !! (i + 1)%nat); try done. by eexists.
Qed.

Lemma slice_lt {E} (data : list Z) a b : (a <= b <= length data)%nat → ∃ s, slice (E:=E) data a b = Ok s.
Proof.
  intros H. pose proof (no_panic_slice (E:=E) data a b H) as Hn. unfold slice in *.
  destruct (slice_get data a b); [by eexists|done].
Qed.

(** Runs the remaining reads of a parser whose result does not matter. *)
Ltac run_reads :=
  repeat match goal with
  | |- context [if ?b then _ else _] => destruct b eqn:?; bool_simpl; cbn [mbind outcome_bind]
  | |- context [read_u16 ?d ?i] =>
      let v := fresh "v" in let H := fresh in destruct (read_u16_lt (E:=unit) d i ltac:(lia)) as [v H]; rewrite H; cbn [mbind outcome_bind]
  | |- context [slice ?d ?a ?b] =>
      let v := fresh "v" in let H := fresh in destruct (slice_lt (E:=unit) d a b ltac:(lia)) as [v H]; rewrite H; cbn [mbind outcome_bind]
  end.

(** The destination by which a frame is acknowledged is the one by which it is
    received, even when the frame ends behind it. *)
Lemma dest_address_received data fc dst :
  read_u16 (E:=unit) data 0 = Ok fc → parse_dest_address data fc = Ok dst →
  ∃ src off sec, parse_mac_addresses (E:=unit) data = Ok (src, dst, off, sec).
Proof.
  intros Hr. unfold parse_dest_address. case_match eqn:Hl; [done|]. bool_simpl.
  destruct (read_u16_lt (E:=unit) data 3 ltac:(lia)) as [pan Hpan]. rewrite Hpan. cbn [mbind outcome_bind].
  unfold parse_mac_addresses. rewrite (proj2 (Nat.ltb_ge _ 3)), Hr by lia. cbn [mbind outcome_bind].
  rewrite (proj2 (Nat.leb_le (3 + 2) _)), Hpan by lia.
  destruct (Z.eqb_spec (fc_dst_mode fc) 2) as [Hm|_]; [|destruct (Z.eqb_spec (fc_dst_mode fc) 3) as [Hm|_]; [|done]];
    rewrite Hm; cbn [andb]; (destruct (_ <=? length data)%nat eqn:Hl'; [|done]); bool_simpl;
    rewrite bind_Ok; intros (a & Ha & [= <-]);
    cbn [Z.ltb Z.compare andb mbind outcome_bind].
  all: rewrite (proj2 (Nat.leb_le _ (length data)) Hl'); rewrite Ha; cbn [mbind outcome_bind]; run_reads; by repeat eexists.
Qed.

Lemma exact_destination_is_for_us dst pan short ext :
  is_exact_destination dst pan short ext = true → frame_is_for_us dst pan short ext = true.
Proof.
  destruct dst as [p a|p a]; simpl; intros H; bool_simpl; subst; rewrite ?Z.eqb_refl, ?orb_true_r, ?(bool_decide_eq_true_2 _ eq_refl); try done.
  rewrite (proj2 (Z.eqb_neq short 0xFFFF)) by lia. by rewrite orb_true_r.
Qed.

(** A backoff is below the window, whatever the generator returns, and the
    generator's state stays a nonzero word, on which xorshift does not stick. *)
Lemma csma_backoff_bound random be :
  0 <= be → 0 <= csma_backoff_slots random be < 2 ^ Z.min be 8.
Proof.
  intros Hbe. unfold csma_backoff_slots.
  assert (as_u16 (Z.shiftl 1 (Z.min be 8)) = 2 ^ Z.min be 8) as ->.
  { rewrite Z.shiftl_mul_pow2, Z.mul_1_l by lia. unfold as_u16. apply Z.mod_small.
    split; [lia|]. apply Z.le_lt_trans with (2 ^ 8); [apply Z.pow_le_mono_r; lia|done]. }
  rewrite land_ones_mod by lia. apply Z.mod_pos_bound. lia.
Qed.

Lemma lxor_shift_inj x k : 0 < k → Z.lxor x (as_u32 (Z.shiftl x k)) = 0 → is_u32 x → x = 0.
Proof.
  intros Hk H Hx. apply Z.lxor_eq in H. apply Z.bits_inj_0. intros n.
  destruct (Z.ltb_spec n 0); [by apply Z.testbit_neg_r|].
  revert n H0. apply (Zlt_0_ind (λ n, Z.testbit x n = false)). intros n IH Hn.
  destruct (Z.ltb_spec n 32).
  - rewrite H. unfold as_u32. change 4294967296 with (2 ^ 32). rewrite Z.mod_pow2_bits_low by lia.
    rewrite Z.shiftl_spec by lia. destruct (Z.ltb_spec (n - k) 0); [by apply Z.testbit_neg_r|]. apply IH. lia.
  - apply (testbit_above x 32); [exact Hx|lia].
Qed.

Lemma lxor_shiftr_inj x k : 0 < k → is_u32 x → Z.lxor x (Z.shiftr x k) = 0 → x = 0.
Proof.
  intros Hk Hx H. apply Z.lxor_eq in H. apply Z.bits_inj_0. intros n.
  destruct (Z.ltb_spec n 0); [by apply Z.testbit_neg_r|].
  assert (Hind : ∀ m, 0 <= m → ∀ n, 0 <= n → 32 - m <= n → Z.testbit x n = false).
  { apply (Zlt_0_ind (λ m, ∀ n, 0 <= n → 32 - m <= n → Z.testbit x n = false)). intros m IH Hm i Hi Hle.
    destruct (Z.leb_spec 32 i); [apply (testbit_above x 32); [exact Hx|lia]|].
    rewrite H, Z.shiftr_spec by lia. apply (IH (Z.max 0 (m - k))); lia. }
  apply (Hind 32); lia.
Qed.

Lemma lxor_u32 x y : is_u32 x → is_u32 y → is_u32 (Z.lxor x y).
Proof.
  unfold is_u32. intros Hx Hy. assert (0 <= Z.lxor x y) by (apply Z.lxor_nonneg; lia). split; [done|].
  apply (bits_below _ 32); [done|lia|]. intros n Hn.
  rewrite Z.lxor_spec, (testbit_above x 32), (testbit_above y 32) by (done || lia). done.
Qed.

Lemma shiftr_u32 x k : is_u32 x → 0 <= k → is_u32 (Z.shiftr x k).
Proof.
  unfold is_u32. intros Hx Hk. rewrite shiftr_div by done. pose proof (Z.pow_pos_nonneg 2 k ltac:(lia) Hk).
  split; [apply Z.div_pos; lia|]. apply Z.le_lt_trans with x; [apply Z.div_le_upper_bound; nia|lia].
Qed.

(** xorshift never produces zero from a nonzero word, so its guard never
    repeats a state. *)
Lemma br_next_u32_nonzero r :
  is_u32 (br_state r) → br_state r ≠ 0 →
  let '(x, r') := br_next_u32 r in is_u32 x ∧ x ≠ 0 ∧ br_state r' = x.
Proof.
  destruct r as [s]. cbn [br_state]. intros Hs Hn. unfold br_next_u32. cbn [br_state].
  set (x1 := Z.lxor s _). assert (H1 : is_u32 x1) by (apply lxor_u32; [done|apply Z.mod_pos_bound; lia]).
  assert (N1 : x1 ≠ 0) by (intros H; apply Hn, (lxor_shift_inj s 13); [lia|exact H|done]).
  set (x2 := Z.lxor x1 _). assert (H2 : is_u32 x2) by (apply lxor_u32; [done|apply shiftr_u32; [done|lia]]).
  assert (N2 : x2 ≠ 0) by (intros H; apply N1, (lxor_shiftr_inj x1 17); [lia|done|exact H]).
  set (x3 := Z.lxor x2 _). assert (H3 : is_u32 x3) by (apply lxor_u32; [done|apply Z.mod_pos_bound; lia]).
  assert (N3 : x3 ≠ 0) by (intros H; apply N2, (lxor_shift_inj x2 5); [lia|exact H|done]).
  split_and!; [done|done|]. unfold is_u32 in H3. lia.
Qed.

Lemma parent_command_iff data lqi ev :
  Forall is_u8 data →
  parse_parent_command data lqi = Ok ev ↔ ∃ c, command_wf c ∧ data = command_octets c ∧ ev = command_event lqi c.
Proof.
  intros Ho. split.
  - intros Hp. assert (Hp' := Hp). unfold parse_parent_command in Hp'. case_match; [done|].
    apply bind_Ok in Hp' as (fc & Hfc & Hp'). case_match eqn:Hg; [done|]. cbv zeta in Hp'.
    case_match eqn:Hm; [done|]. case_match eqn:Hl; [done|]. clear Hp'. bool_simpl.
    destruct (header_view data fc Ho Hfc ltac:(lia) ltac:(done) ltac:(done)) as (h & p & Hh & <- & ->).
    rewrite parse_parent_header in Hp by done. apply Forall_app in Ho as [_ Ho].
    destruct (command_of_sound h p lqi ev Hh Ho Hp) as (c & Hc & -> & -> & ->). by exists c.
  - intros (c & Hc & -> & ->). by apply parse_command_octets.
Qed.

(** * Theorems *)

(** No MAC parser or filter aborts, whatever octets the radio delivers. *)
Theorem mac_parsers_panic_free data fc channel lqi pan short ext cs ce :
  no_panic (parse_mac_addresses (E:=unit) data) ∧ no_panic (parse_source_address data fc) ∧
  no_panic (parse_dest_address data fc) ∧ no_panic (parse_beacon channel data lqi) ∧
  no_panic (parse_association_response data) ∧ no_panic (parse_orphan_notification data) ∧
  no_panic (parse_coordinator_realignment_orphan_response data) ∧ no_panic (parse_parent_command data lqi) ∧
  no_panic (ack_sequence data) ∧ no_panic (ack_info data) ∧
  no_panic (software_ack_sequence data pan short ext) ∧ no_panic (is_parent_poll_response data pan short ext cs ce).
Proof.
  destruct (no_panic_ack data), (no_panic_filters data pan short ext cs ce).
  split_and!; try done; auto using no_panic_mac_addresses, no_panic_source, no_panic_dest, no_panic_beacon,
    no_panic_association_response, no_panic_orphan, no_panic_realignment, no_panic_parent_command.
Qed.

(** A parent accepts exactly the frames of the grammar of Beacon Request,
    Association Request, Data Request and Orphan Notification, and reports what
    the frame says; everything else is refused without aborting. *)
Theorem parse_parent_command_exact data lqi ev :
  Forall is_u8 data →
  parse_parent_command data lqi ≠ Panic ∧
  (parse_parent_command data lqi = Ok ev ↔ ∃ c, command_wf c ∧ data = command_octets c ∧ ev = command_event lqi c).
Proof.
  intros Ho. split; [|by apply parent_command_iff].
  pose proof (no_panic_parent_command data lqi) as H. intros Hp. by rewrite Hp in H.
Qed.

Definition ex_child : IeeeAddress := [1; 2; 3; 4; 5; 6; 7; 8].

Lemma parse_parent_command_exact_witness :
  parse_parent_command [0x63; 0x88; 7; 0x62; 0x1A; 0; 0; 0x34; 0x12; 4] 200 =
    Ok (DataRequest (mk_MlmeDataRequestIndication (MacShort 0x1A62 0x1234) (MacShort 0x1A62 0) 200 false)).
Proof.
  apply (parse_parent_command_exact _ 200).
  - repeat constructor; done.
  - exists (PcDataRequest false false true 7 (MacShort 0x1A62 0) (MacShort 0x1A62 0x1234)).
    split; [|done]. repeat split; done.
Defined.

(** What a device sends to join, poll or look for its parent, the parent reads
    back: the requests a device builds are parsed to the same addresses and
    capabilities, and the answers to an association or an orphan likewise. *)
Theorem mac_commands_roundtrip sq coord own short cap pan cs channel response frame lqi :
  is_u8 sq → address_wf coord → mac_pan_id coord ≠ 0xFFFF → is_unicast_mac_address coord = true →
  ieee_wf own → own ≠ all_ones → own ≠ all_zeros → is_u16 short → short < 0xFFF8 →
  parse_parent_command (build_beacon_request sq) lqi =
    Ok (BeaconRequest (mk_MlmeBeaconRequestIndication broadcast_address lqi false)) ∧
  parse_parent_command (build_association_request sq coord own cap) lqi =
    Ok (AssociationRequest (mk_MlmeAssociateIndication own coord cap lqi false)) ∧
  parse_parent_command (build_data_request sq coord own) lqi =
    Ok (DataRequest (mk_MlmeDataRequestIndication (MacExtended (mac_pan_id coord) own) coord lqi false)) ∧
  parse_parent_command (build_data_request_short sq coord short) lqi =
    Ok (DataRequest (mk_MlmeDataRequestIndication (MacShort (mac_pan_id coord) short) coord lqi false)) ∧
  parse_parent_command (build_orphan_notification sq own) lqi =
    Ok (OrphanNotification (mk_MlmeOrphanIndication own broadcast_address lqi false)) ∧
  (is_u16 pan → ieee_wf (ar_device_address response) → is_u16 (ar_short_address response) →
   build_association_response sq pan own response = Ok frame →
   parse_association_response frame = Ok (ar_short_address response, association_status_code (ar_status response))) ∧
  (is_u16 pan → is_u16 cs → ∀ orphan, ieee_wf orphan →
   build_coordinator_realignment_orphan_response sq pan cs own channel orphan short = Ok frame →
   parse_coordinator_realignment_orphan_response frame =
     Ok (mk_CoordinatorRealignment pan cs channel short, own, orphan)).
Proof.
  intros Hsq Hw Hp Hu Ho H1 H0 Hs Hlt. destruct (capability_roundtrip cap) as [Hcap Hcu].
  assert (Hpan : is_u16 (mac_pan_id coord)) by apply Hw.
  rewrite build_beacon_request_octets, build_association_request_octets, build_data_request_octets,
    build_data_request_short_octets, build_orphan_octets by done.
  split_and!.
  - by rewrite parse_command_octets.
  - rewrite parse_command_octets by (unfold command_wf; by split_and!). cbn [command_event]. by rewrite Hcap.
  - rewrite parse_command_octets; [done|]. unfold command_wf. split_and!; try done; by apply bool_decide_eq_true_2.
  - rewrite parse_command_octets; [done|]. unfold command_wf. split_and!; try done; by apply Z.ltb_lt.
  - rewrite parse_command_octets; [done|]. unfold command_wf. by split_and!.
  - intros ? ? ?. by apply build_association_response_octets.
  - intros ? ? orphan ?. by apply build_realignment_octets.
Qed.

Lemma mac_commands_roundtrip_witness :
  parse_parent_command (build_association_request 9 (MacShort 0x1A62 0) ex_child
    (mk_CapabilityInfo false false true false true)) 100 =
    Ok (AssociationRequest (mk_MlmeAssociateIndication ex_child (MacShort 0x1A62 0)
          (mk_CapabilityInfo false false true false true) 100 false)).
Proof.
  refine (proj1 (proj2 (mac_commands_roundtrip 9 (MacShort 0x1A62 0) ex_child 0x1234 _ 0x1A62 0 11
    (mk_MlmeAssociateResponse ex_child 0x1234 AsSuccess) [] 100 _ _ _ _ _ _ _ _ _)));
    first [done | by repeat split | (split; [done|repeat constructor; done])].
Defined.

(** A data frame that fits is received with the addresses and the payload it
    was built for, in the PAN of its destination, and one that does not fit is
    refused; a beacon is received with its source, the flags of its superframe
    and the Zigbee beacon behind the pending addresses, however many there
    are. *)
Theorem mac_data_and_beacon_roundtrip sq mode short ext dst payload ack pending source coordinator permit ps pe beacon
    channel lqi :
  is_u8 sq → is_u16 short → ieee_wf ext → address_wf dst → address_wf source → Forall ieee_wf pe →
  (15 <= length beacon)%nat →
  match build_data_frame sq mode short ext dst payload ack pending with
  | Ok frame =>
      ∃ off, parse_mac_addresses (E:=unit) frame =
          Ok (default (MacShort (mac_pan_id dst) 0xFFFF) (source_of mode (mac_pan_id dst) short ext), dst, off, false) ∧
        drop off frame = payload ∧ frame !! 2%nat = Some sq ∧ (length frame <= 125)%nat
  | Err e => e = FrameTooLong ∧ (104 < length payload)%nat
  | Panic => False
  end ∧
  (∀ frame, build_nonbeacon_beacon sq source coordinator permit ps pe beacon = Ok frame →
   ∃ zb, parse_zigbee_beacon beacon = Ok zb ∧
     parse_beacon channel frame lqi =
       Ok (mk_PanDescriptor channel source (mk_SuperframeSpec 15 15 15 false coordinator permit) lqi false zb)).
Proof.
  intros Hsq Hs He Hd Hsrc Hpe Hb. split.
  - rewrite build_data_frame_octets by done. pose proof (data_header_wf sq mode short ext dst ack pending Hsq Hs He Hd) as Hh.
    set (h := data_header _ _ _ _ _) in *. destruct (125 <? _)%nat eqn:Hl; bool_simpl.
    + split; [done|]. pose proof (header_length h Hh) as Hlen. 
      assert (addressing_size (mh_control h) <= 18)%nat by (unfold h; destruct mode, dst, ack, pending; vm_compute; lia).
      lia.
    + exists (length (header_octets h)). rewrite parse_mac_addresses_header, drop_app_length, length_app by done.
      split_and!; try done. by destruct mode, ack, pending, dst.
  - intros frame (Hn & Hm & ->)%build_beacon_octets. rewrite parse_beacon_octets by done.
    pose proof (slice_lt (E:=unit) beacon) as Hsl.
    do 15 (destruct beacon as [|? beacon]; [simpl in Hb; lia|]). by eexists.
Qed.

Definition ex_beacon : list Z := [0; 0x22; 0x84; 1; 2; 3; 4; 5; 6; 7; 8; 0xFF; 0xFF; 0xFF; 3].

Lemma mac_data_and_beacon_roundtrip_witness :
  ∃ zb, parse_zigbee_beacon ex_beacon = Ok zb ∧
    parse_beacon 15 (match build_nonbeacon_beacon 1 (MacShort 0x1A62 0) true true [0x1234; 0x5678] [ex_child] ex_beacon with
      | Ok f => f | _ => [] end) 90 =
    Ok (mk_PanDescriptor 15 (MacShort 0x1A62 0) (mk_SuperframeSpec 15 15 15 false true true) 90 false zb).
Proof.
  refine (proj2 (mac_data_and_beacon_roundtrip 1 AmShort 0x1234 ex_child (MacShort 0x1A62 0) [1; 2; 3] true false
    (MacShort 0x1A62 0) true true [0x1234; 0x5678] [ex_child] ex_beacon 15 90 _ _ _ _ _ _ _) _ _);
    first [done | by repeat split | (split; [done|repeat constructor; done]) | (repeat constructor; done)
          | vm_compute; lia | vm_compute; reflexivity].
Defined.

(** A frame is acknowledged only if it is received: when the MAC answers with
    an acknowledgement, the destination the receive path extracts from the frame
    passes the address filter, names this node and not a broadcast, and the
    acknowledgement carries the sequence number of the frame. *)
Theorem acknowledged_frames_accepted data pan short ext sq :
  software_ack_sequence data pan short ext = Ok sq →
  ∃ src dst off sec, parse_mac_addresses (E:=unit) data = Ok (src, dst, off, sec) ∧
    frame_is_for_us dst pan short ext = true ∧
    (∀ p a, dst = MacShort p a → a = short ∧ p = pan ∧ a < 0xFFFE) ∧
    (∀ p a, dst = MacExtended p a → a = ext) ∧
    data !! 2%nat = Some sq ∧ ack_sequence (build_ack sq false) = Ok sq ∧ ack_info (build_ack sq true) = Ok (sq, true).
Proof.
  unfold software_ack_sequence. case_match; [done|]. rewrite bind_Ok. intros (fc & Hfc & Hp). cbv zeta in Hp.
  case_match; [done|]. apply bind_Ok in Hp as (dst & Hdst & Hp). case_match eqn:He; [|done].
  destruct (dest_address_received data fc dst Hfc Hdst) as (src & off & sec & Hm).
  exists src, dst, off, sec. split; [done|]. split; [by apply exact_destination_is_for_us|].
  unfold is_exact_destination in He. unfold index in Hp. destruct (data !! 2%nat); [|done]. injection Hp as ->.
  split_and!; try done; intros p a ->; bool_simpl; subst; try done; by split_and!.
Qed.

Lemma acknowledged_frames_accepted_witness :
  let data := [0x61; 0x88; 77; 0x62; 0x1A; 0x34; 0x12; 0; 0; 9] in
  software_ack_sequence data 0x1A62 0x1234 ex_child = Ok 77 ∧ data !! 2%nat = Some 77.
Proof.
  split; [reflexivity|].
  destruct (acknowledged_frames_accepted [0x61; 0x88; 77; 0x62; 0x1A; 0x34; 0x12; 0; 0; 9] 0x1A62 0x1234 ex_child 77
    ltac:(reflexivity)) as (? & ? & ? & ? & _ & _ & _ & _ & H & _).
  exact H.
Defined.
