(* ===== verification/MacAckPending.v ===== *)
(** * Frame pending table

    [zigbee-mac/src/ack_pending.rs]: the set of children whose Data Requests are
    acknowledged with the frame pending bit.  The array of the source is a list
    of length [N]; the entries in use are its first [ap_len]. *)
From S2P Require Import Prelude ZigbeeTypes MacFrames.

Local Open Scope Z_scope.

Definition CMD_DATA_REQUEST : Z := 0x04.

Inductive AckPendingError := ApInvalidAddress | ApTableFull.

Record AckPendingTable := mk_AckPendingTable { ap_entries : list MacAddress; ap_len : nat }.

Definition ap_EMPTY : MacAddress := MacShort 0 0.

Definition ap_new (N : nat) : AckPendingTable := mk_AckPendingTable (repeat ap_EMPTY N) 0.

Definition ap_is_empty (t : AckPendingTable) : bool := (ap_len t =? 0)%nat.

Definition valid_address (address : MacAddress) : bool :=
  match address with
  | MacShort pan short => negb (pan =? 0xFFFF) && (short <? 0xFFF8)
  | MacExtended pan ieee => negb (pan =? 0xFFFF) && bool_decide (ieee ≠ all_ones)
  end.

(** [self.entries[..self.len].iter().position(..)] *)
Definition ap_position {E} (address : MacAddress) (t : AckPendingTable) : outcome E (option nat) :=
  entries ← slice (ap_entries t) 0 (ap_len t);
  Ok (position (λ entry, bool_decide (entry = address)) entries).

Definition ap_set (address : MacAddress) (pending : bool) (t : AckPendingTable)
    : outcome AckPendingError AckPendingTable :=
  if negb (valid_address address) then Err ApInvalidAddress
  else
    found ← ap_position address t;
    match found, pending with
    | Some _, true | None, false => Ok t
    | Some i, false =>
        if (ap_len t =? 0)%nat then Panic
        else
          let len := (ap_len t - 1)%nat in
          last ← index (ap_entries t) len;
          entries ← put (ap_entries t) i last;
          entries ← put entries len ap_EMPTY;
          Ok (mk_AckPendingTable entries len)
    | None, true =>
        if (ap_len t <? length (ap_entries t))%nat then
          entries ← put (ap_entries t) (ap_len t) address;
          Ok (mk_AckPendingTable entries (ap_len t + 1))
        else Err ApTableFull
    end.

Definition ap_contains {E} (address : MacAddress) (t : AckPendingTable) : outcome E bool :=
  found ← ap_position address t; Ok (bool_decide (is_Some found)).

Definition ap_clear (t : AckPendingTable) : AckPendingTable := ap_new (length (ap_entries t)).

Definition data_request_source (frame : list Z) : fallible MacAddress :=
  fc ← get_u16 frame 0;
  let frame_type := fc_frame_type fc in
  let security := has_bits fc (Z.shiftl 1 3) in
  let ack_request := has_bits fc (Z.shiftl 1 5) in
  if negb (frame_type =? 0x03) || security || negb ack_request then Err tt
  else
    let dst_mode := fc_dst_mode fc in
    let src_mode := fc_src_mode fc in
    if negb ((dst_mode =? 2) || (dst_mode =? 3)) || negb ((src_mode =? 2) || (src_mode =? 3)) then Err tt
    else
      let offset := 3%nat in
      dst_pan ← get_u16 frame offset;
      let offset := (offset + (2 + if (dst_mode =? 2)%Z then 2 else 8))%nat in
      '(src_pan, offset) ←
        (if has_bits fc (Z.shiftl 1 6) then Ok (dst_pan, offset)
         else pan ← get_u16 frame offset; Ok (pan, (offset + 2)%nat));
      if negb (src_pan =? dst_pan) then Err tt
      else
        '(source, offset) ←
          (if src_mode =? 2 then
             short ← get_u16 frame offset; Ok (MacShort src_pan short, (offset + 2)%nat)
           else
             ieee ← try_opt (slice_get frame offset (offset + 8)); Ok (MacExtended src_pan ieee, (offset + 8)%nat));
        if negb (length frame =? offset + 1)%nat then Err tt
        else
          command ← index frame offset;
          if negb (command =? CMD_DATA_REQUEST) || negb (valid_address source) then Err tt
          else Ok source.

Definition ap_frame_pending (frame : list Z) (t : AckPendingTable) : outcome unit bool :=
  match data_request_source frame with
  | Ok source => ap_contains source t
  | Err _ => Ok false
  | Panic => Panic
  end.

(** * The table as a set *)

(** The armed children of a table. *)
Definition armed (t : AckPendingTable) : list MacAddress := take (ap_len t) (ap_entries t).

Record ap_wf (N : nat) (t : AckPendingTable) : Prop := {
  aw_capacity : length (ap_entries t) = N;
  aw_len : (ap_len t <= N)%nat;
  aw_nodup : NoDup (armed t);
  aw_valid : Forall (λ a, valid_address a = true) (armed t);
  aw_rest : drop (ap_len t) (ap_entries t) = repeat ap_EMPTY (N - ap_len t) }.

#[export] Instance MacAddress_countable : Countable MacAddress.
Proof.
  refine (inj_countable' (λ a, match a with MacShort p s => inl (p, s) | MacExtended p e => inr (p, e) end)
    (λ x, match x with inl (p, s) => MacShort p s | inr (p, e) => MacExtended p e end) _).
  by intros [].
Defined.

(** The abstract table: a finite set of at most [N] valid addresses. *)
Definition spec_set (N : nat) (a : MacAddress) (pending : bool) (S : gset MacAddress)
    : outcome AckPendingError (gset MacAddress) :=
  if negb (valid_address a) then Err ApInvalidAddress
  else if negb pending then Ok (S ∖ {[a]})
  else if bool_decide (a ∈ S) then Ok S
  else if (size S <? N)%nat then Ok ({[a]} ∪ S)
  else Err ApTableFull.

Definition ap_view (t : AckPendingTable) : gset MacAddress := list_to_set (armed t).

Section Table.
Context (N : nat) (t : AckPendingTable) (Ht : ap_wf N t).

Lemma ap_view_size : size (ap_view t) = ap_len t.
Proof using Ht.
  destruct Ht. unfold ap_view. rewrite size_list_to_set by done. unfold armed. rewrite length_take. lia.
Qed.

Lemma ap_position_armed {E} a :
  ap_position (E:=E) a t = Ok (position (λ entry, bool_decide (entry = a)) (armed t)).
Proof using Ht.
  destruct Ht. unfold ap_position.
  by rewrite slice_0_take by lia.
Qed.

Lemma ap_position_Some a i :
  position (λ entry, bool_decide (entry = a)) (armed t) = Some i → armed t !! i = Some a ∧ a ∈ ap_view t.
Proof using Type.
  intros (x & Hx & Hb & _)%position_Some. bool_simpl. subst x. split; [done|].
  apply elem_of_list_to_set. by eapply list_elem_of_lookup_2.
Qed.

Lemma ap_position_None a : position (λ entry, bool_decide (entry = a)) (armed t) = None → a ∉ ap_view t.
Proof using Type.
  intros Hp Ha%elem_of_list_to_set. pose proof (proj1 (position_None _ _) Hp _ Ha) as Hb. simpl in Hb. by bool_simpl.
Qed.

Lemma ap_contains_spec {E} a : ap_contains (E:=E) a t = Ok (bool_decide (a ∈ ap_view t)).
Proof using Ht.
  unfold ap_contains. rewrite ap_position_armed. cbn. f_equal.
  destruct (position _ _) eqn:Hp.
  - apply ap_position_Some in Hp as [_ ?]. by rewrite !bool_decide_true by (done || by eexists).
  - apply ap_position_None in Hp. rewrite !bool_decide_false; [done|done|by intros []].
Qed.

Lemma armed_lookup i a : armed t !! i = Some a → (i < ap_len t)%nat ∧ ap_entries t !! i = Some a.
Proof using Type.
  intros H. unfold armed in H. rewrite lookup_take in H. case_decide; [done|done].
Qed.

(** Disarming moves the last entry into the hole, arming writes behind the
    last one: on the armed prefix these are [swap_remove] and an append. *)
Lemma ap_set_disarm a i :
  valid_address a = true → position (λ entry, bool_decide (entry = a)) (armed t) = Some i →
  ∃ t', ap_set a false t = Ok t' ∧ ap_wf N t' ∧ a :: armed t' ≡ₚ armed t.
Proof using Ht.
  intros Hv Hp. destruct (ap_position_Some _ _ Hp) as [Hi _]. destruct (armed_lookup _ _ Hi) as [Hlt Hei].
  unfold ap_set. rewrite Hv, ap_position_armed. cbn [negb mbind outcome_bind]. rewrite Hp. destruct Ht as [Hc Hl Hnd Hval Hrest].
  rewrite (proj2 (Nat.eqb_neq _ _)) by lia.
  destruct (lookup_lt_is_Some_2 (ap_entries t) (ap_len t - 1)) as [last Hlast]; [lia|].
  rewrite (index_Some _ _ _ Hlast). cbn [mbind outcome_bind]. rewrite put_lt by lia. cbn [mbind outcome_bind].
  rewrite put_lt by (rewrite length_insert; lia). cbn [mbind outcome_bind]. eexists. split; [done|].
  set (t' := mk_AckPendingTable _ _).
  assert (Ha : armed t' = swap_remove (armed t) i).
  { unfold swap_remove. rewrite last_lookup. unfold armed at 2 3 4. rewrite length_take, Nat.min_l by lia.
    rewrite lookup_take, decide_True, <- Nat.sub_1_r, Hlast by lia. unfold armed, t'. cbn [ap_len ap_entries].
    rewrite take_insert_ge by lia. apply list_eq. intros j. rewrite !lookup_take. case_decide; [|done].
    rewrite !list_lookup_insert, length_take, lookup_take, (decide_True (P := (j < ap_len t)%nat)) by lia.
    repeat case_decide; done || lia. }
  assert (Hperm : a :: armed t' ≡ₚ armed t) by (rewrite Ha; by apply swap_remove_perm).
  split; [|done]. rewrite <- Hperm in Hnd, Hval. apply NoDup_cons in Hnd as [_ Hnd]. apply Forall_cons in Hval as [_ Hval].
  split; try done; simpl; [by rewrite !length_insert|lia|].
  rewrite drop_insert_ge, Nat.sub_diag by lia.
  destruct (lookup_lt_is_Some_2 (<[i:=last]> (ap_entries t)) (ap_len t - 1)) as [y Hy]; [rewrite length_insert; lia|].
  rewrite (drop_S _ _ _ Hy). replace (S (ap_len t - 1)) with (ap_len t) by lia.
  rewrite drop_insert_lt, Hrest by lia. by replace (N - (ap_len t - 1))%nat with (S (N - ap_len t)) by lia.
Qed.

Lemma ap_set_arm a :
  valid_address a = true → position (λ entry, bool_decide (entry = a)) (armed t) = None → (ap_len t < N)%nat →
  ∃ t', ap_set a true t = Ok t' ∧ ap_wf N t' ∧ armed t' = armed t ++ [a].
Proof using Ht.
  intros Hv Hp Hlt. assert (Hn := ap_position_None _ Hp). unfold ap_view in Hn. rewrite elem_of_list_to_set in Hn.
  unfold ap_set. rewrite Hv, ap_position_armed, Hp. cbn [negb mbind outcome_bind]. destruct Ht as [Hc Hl Hnd Hval Hrest].
  rewrite (proj2 (Nat.ltb_lt _ _)), put_lt by lia. cbn [mbind outcome_bind]. eexists. split; [done|].
  set (t' := mk_AckPendingTable _ _).
  assert (Ha : armed t' = armed t ++ [a]).
  { unfold armed, t'. cbn [ap_len ap_entries]. rewrite Nat.add_1_r.
    rewrite (take_S_r _ _ a) by (apply list_lookup_insert_eq; lia). by rewrite take_insert_ge by lia. }
  split; [|done]. split; rewrite ?Ha; simpl; [by rewrite length_insert|lia| | |].
  - apply NoDup_app. split_and!; [done| |apply NoDup_singleton]. by intros x Hx ->%list_elem_of_singleton.
  - apply Forall_app. split; [done|by repeat constructor].
  - rewrite drop_insert_lt by lia. rewrite <- drop_drop, Hrest.
    replace (N - ap_len t)%nat with (S (N - (ap_len t + 1))) by lia. done.
Qed.

(** Each operation is that of the set. *)
Lemma ap_set_refines a pending :
  match ap_set a pending t with
  | Ok t' => ap_wf N t' ∧ spec_set N a pending (ap_view t) = Ok (ap_view t')
  | Err e => spec_set N a pending (ap_view t) = Err e
  | Panic => False
  end.
Proof using Ht.
  unfold spec_set. rewrite ap_view_size. destruct (valid_address a) eqn:Hv; [|unfold ap_set; by rewrite Hv].
  destruct (position (λ entry, bool_decide (entry = a)) (armed t)) as [i|] eqn:Hp.
  - destruct (ap_position_Some _ _ Hp) as [_ Ha]. destruct pending.
    + unfold ap_set. rewrite Hv, ap_position_armed, Hp. cbn. by rewrite bool_decide_true.
    + destruct (ap_set_disarm a i Hv Hp) as (t' & -> & Hw & Hperm). split; [done|]. cbn. f_equal.
      unfold ap_view. rewrite <- Hperm. pose proof (aw_nodup _ _ Ht) as Hnd. rewrite <- Hperm in Hnd.
      apply NoDup_cons in Hnd as [Hna _]. simpl. apply set_eq. intros x. rewrite elem_of_difference, elem_of_union.
      rewrite elem_of_singleton, elem_of_list_to_set. naive_solver.
  - pose proof (ap_position_None _ Hp) as Ha. destruct pending; cbn [negb].
    + rewrite bool_decide_false by done. destruct (Nat.ltb_spec (ap_len t) N).
      * destruct (ap_set_arm a Hv Hp) as (t' & -> & Hw & Hadd); [done|]. split; [done|]. f_equal.
        unfold ap_view. rewrite Hadd. set_solver.
      * unfold ap_set. rewrite Hv, ap_position_armed, Hp. cbn [negb mbind outcome_bind]. rewrite (proj2 (Nat.ltb_ge _ _)); [done|].
        rewrite (aw_capacity _ _ Ht). lia.
    + unfold ap_set. rewrite Hv, ap_position_armed, Hp. cbn. split; [done|]. f_equal. set_solver.
Qed.
End Table.

Lemma ap_new_wf N : ap_wf N (ap_new N) ∧ ap_view (ap_new N) = ∅.
Proof.
  split; [|done]. split; simpl; [by rewrite repeat_length|lia|constructor|constructor|by rewrite Nat.sub_0_r].
Qed.

(** * Data Requests *)

(** The identity of a Data Request is the source its grammar names. *)
Lemma data_request_source_octets pending version compress sq dst src :
  let c := PcDataRequest pending version compress sq dst src in
  command_wf c → data_request_source (command_octets c) = Ok src.
Proof.
  intros c Hc. pose proof (command_header_wf c Hc) as Hh. destruct Hc as (_ & Hd & Hs & Hpan & Hb & _ & Hus).
  assert (Hv : valid_address src = true) by (destruct src; cbn in *; rewrite Hpan, (proj2 (Z.eqb_neq _ _) Hb); done).
  destruct (command_control_reads pending true compress (Some dst) version (Some src)) as (Hacc & Hcmp & Hack).
  unfold command_octets. subst c. cbn [command_header command_payload] in *.
  set (fc := command_control _ _ _ _ _ _) in *. clearbody fc. unfold control_accepted in Hacc.
  apply andb_true_iff in Hacc as [[[Hty Hsec%negb_true_iff]%andb_true_iff _]%andb_true_iff _].
  pose proof (hw_dst_mode _ Hh) as Hdm. pose proof (hw_src_mode _ Hh) as Hsm. pose proof (hw_control _ Hh) as Hu.
  cbn [mh_control mh_dst mh_src] in Hdm, Hsm, Hu. clear Hh. unfold header_octets. cbn [mh_control mh_seq mh_dst mh_src].
  rewrite Hcmp. rewrite <- has_bits_compress in Hcmp.
  destruct dst as [? ?|? ?], src as [? ?|? ?], Hd as [? Hda], Hs as [? Hsa], compress; cbn [mac_pan_id] in *;
    repeat match goal with H : length _ = _ ∧ _ |- _ => destruct H end; header_simpl; subst; explode; subst;
    unfold data_request_source; cbn -[u16_from_le fc_dst_mode fc_src_mode fc_frame_type has_bits valid_address Z.eqb];
    rewrite Hty, Hsec, Hack, Hdm, Hsm, Hcmp;
    do 3 (eval_eqb; rewrite ?Z.eqb_refl; cbn -[u16_from_le valid_address Z.eqb]); by rewrite Hv.
Qed.

(** * Theorems *)

Inductive ap_op := ApSet (a : MacAddress) (pending : bool) | ApClear.

Definition ap_step (t : AckPendingTable) (op : ap_op) : AckPendingTable :=
  match op with
  | ApSet a pending => match ap_set a pending t with Ok t' => t' | _ => t end
  | ApClear => ap_clear t
  end.
Definition spec_step (N : nat) (S : gset MacAddress) (op : ap_op) : gset MacAddress :=
  match op with
  | ApSet a pending => match spec_set N a pending S with Ok S' => S' | _ => S end
  | ApClear => ∅
  end.

Lemma ap_run_refines N ops t :
  ap_wf N t → let t' := foldl ap_step t ops in
  ap_wf N t' ∧ ap_view t' = foldl (spec_step N) (ap_view t) ops.
Proof.
  revert t. induction ops as [|op ops IH]; intros t Ht; [done|]. cbn [foldl].
  assert (ap_wf N (ap_step t op) ∧ ap_view (ap_step t op) = spec_step N (ap_view t) op) as [Hw <-]; [|by apply IH].
  destruct op as [a p|]; simpl.
  - pose proof (ap_set_refines N t Ht a p) as H. destruct (ap_set a p t) as [t'|e|]; [|by rewrite H|done].
    destruct H as [? ->]. done.
  - unfold ap_clear. rewrite (aw_capacity _ _ Ht). apply ap_new_wf.
Qed.

(** Over any history of arming, disarming and resetting, the table is a set of
    at most [N] children: each call answers as the set does and nothing aborts;
    and for every Data Request a parent accepts, the frame pending bit of the
    acknowledgement says exactly whether the child that asks is armed. *)
Theorem ack_pending_refines_set N ops :
  let t := foldl ap_step (ap_new N) ops in
  let S := foldl (spec_step N) ∅ ops in
  (size S <= N)%nat ∧ ap_is_empty t = bool_decide (S = ∅) ∧
  (∀ a pending, fmap ap_view (ap_set a pending t) = spec_set N a pending S) ∧
  (∀ a, ap_contains (E:=unit) a t = Ok (bool_decide (a ∈ S))) ∧
  (∀ data lqi i, Forall is_u8 data → parse_parent_command data lqi = Ok (DataRequest i) →
     ap_frame_pending data t = Ok (bool_decide (di_source_address i ∈ S))).
Proof.
  destruct (ap_new_wf N) as [Hn Hv]. destruct (ap_run_refines N ops _ Hn) as [Ht HS]. rewrite Hv in HS.
  cbv zeta. rewrite <- HS. set (t := foldl ap_step (ap_new N) ops) in *.
  pose proof (ap_view_size N t Ht) as Hsz. split_and!.
  - rewrite Hsz. apply Ht.
  - unfold ap_is_empty. rewrite <- Hsz. destruct (Nat.eqb_spec (size (ap_view t)) 0) as [He|He].
    + symmetry. apply bool_decide_eq_true_2. apply size_empty_inv in He. by apply leibniz_equiv.
    + symmetry. apply bool_decide_eq_false_2. intros Hemp. by rewrite Hemp, size_empty in He.
  - intros a p. pose proof (ap_set_refines N t Ht a p) as H.
    destruct (ap_set a p t) as [t'|e|]; [by destruct H as [_ ->]|by rewrite H|done].
  - intros a. by apply (ap_contains_spec N).
  - intros data lqi i Ho ([] & Hc & -> & [= ->])%parent_command_iff; [|done].
    unfold ap_frame_pending. rewrite data_request_source_octets by done. by apply (ap_contains_spec N).
Qed.

Lemma ack_pending_refines_set_witness :
  let t := foldl ap_step (ap_new 1) [ApSet (MacShort 0x1A62 0x1234) true; ApSet (MacShort 0x1A62 7) true] in
  ap_frame_pending [0x63; 0x88; 7; 0x62; 0x1A; 0; 0; 0x34; 0x12; 4] t = Ok true.
Proof.
  destruct (ack_pending_refines_set 1 [ApSet (MacShort 0x1A62 0x1234) true; ApSet (MacShort 0x1A62 7) true])
    as (_ & _ & _ & _ & H).
  cbv zeta. rewrite (H _ 200 (mk_MlmeDataRequestIndication (MacShort 0x1A62 0x1234) (MacShort 0x1A62 0) 200 false));
    [vm_compute; reflexivity|repeat constructor; done|reflexivity].
Defined.
