(* ===== verification/MacPib.v ===== *)
(** * MAC information base and link quality

    [zigbee-mac/src/pib.rs] and [zigbee-mac/src/lqi.rs].  [set] returns the new
    information base or the error; no arm of the source that fails has changed
    anything. *)
From S2P Require Import Prelude ZigbeeTypes.

Local Open Scope Z_scope.

Inductive PibAttribute :=
| MacShortAddress | MacPanId | MacExtendedAddress | MacCoordShortAddress | MacCoordExtendedAddress
| MacAssociatedPanCoord | MacRxOnWhenIdle | MacAssociationPermit | MacBeaconOrder | MacSuperframeOrder
| MacBeaconPayload | MacBeaconPayloadLength | MacAutoRequest | MacMaxCsmaBackoffs | MacMinBe | MacMaxBe
| MacMaxFrameRetries | MacMaxFrameTotalWaitTime | MacResponseWaitTime | MacDsn | MacBsn
| MacTransactionPersistenceTime | MacPromiscuousMode | PhyCurrentChannel | PhyChannelsSupported
| PhyTransmitPower | PhyCcaMode | PhyCurrentPage.

#[export] Instance PibAttribute_eq_dec : EqDecision PibAttribute.
Proof. solve_decision. Defined.

Record PibPayload := mk_PibPayload { pp_buf : list Z; pp_len : nat }.
Definition pib_payload_new : PibPayload := mk_PibPayload (repeat 0 52) 0.
Definition pib_payload_from_slice (data : list Z) : fallible PibPayload :=
  if (52 <? length data)%nat then Err tt
  else buf ← copy_from_slice (pp_buf pib_payload_new) 0 (length data) data; Ok (mk_PibPayload buf (length data)).
Definition pib_payload_as_slice {E} (p : PibPayload) : outcome E (list Z) := slice (pp_buf p) 0 (pp_len p).

Inductive PibValue :=
| PvBool (b : bool) | PvU8 (v : Z) | PvU16 (v : Z) | PvU32 (v : Z) | PvI8 (v : Z)
| PvShortAddress (a : ShortAddress) | PvPanId (p : PanId) | PvExtendedAddress (a : IeeeAddress)
| PvPayload (p : PibPayload).

Inductive PibError := PibInvalidValue | PibReadOnly.

Record MacPib := mk_MacPib {
  pib_short_address : ShortAddress;
  pib_pan_id : PanId;
  pib_extended_address : IeeeAddress;
  pib_coord_short_address : ShortAddress;
  pib_coord_extended_address : IeeeAddress;
  pib_associated_pan_coord : bool;
  pib_rx_on_when_idle : bool;
  pib_association_permit : bool;
  pib_beacon_order : Z;
  pib_superframe_order : Z;
  pib_beacon_payload : PibPayload;
  pib_auto_request : bool;
  pib_max_csma_backoffs : Z;
  pib_min_be : Z;
  pib_max_be : Z;
  pib_max_frame_retries : Z;
  pib_max_frame_total_wait_time : Z;
  pib_response_wait_time : Z;
  pib_dsn : Z;
  pib_bsn : Z;
  pib_transaction_persistence_time : Z;
  pib_promiscuous : bool;
  pib_current_channel : Z;
  pib_transmit_power : Z }.

Definition pib_new (extended_address : IeeeAddress) (dsn bsn : Z) : MacPib :=
  mk_MacPib 0xFFFF 0xFFFF extended_address 0xFFFF (repeat 0 8) false false false 15 15 pib_payload_new true 4 3 5 3 0 32
    dsn bsn 0x01F4 false 11 0.

Definition pib_reset (dsn bsn : Z) (p : MacPib) : MacPib := pib_new (pib_extended_address p) dsn bsn.

(** Assignments to one field. *)
Definition set_short_address (v : ShortAddress) (p : MacPib) : MacPib :=
  mk_MacPib v (pib_pan_id p) (pib_extended_address p) (pib_coord_short_address p) (pib_coord_extended_address p)
    (pib_associated_pan_coord p) (pib_rx_on_when_idle p) (pib_association_permit p) (pib_beacon_order p)
    (pib_superframe_order p) (pib_beacon_payload p) (pib_auto_request p) (pib_max_csma_backoffs p) (pib_min_be p)
    (pib_max_be p) (pib_max_frame_retries p) (pib_max_frame_total_wait_time p) (pib_response_wait_time p)
    (pib_dsn p) (pib_bsn p) (pib_transaction_persistence_time p) (pib_promiscuous p) (pib_current_channel p)
    (pib_transmit_power p).
Definition set_pan_id (v : PanId) (p : MacPib) : MacPib :=
  mk_MacPib (pib_short_address p) v (pib_extended_address p) (pib_coord_short_address p)
    (pib_coord_extended_address p) (pib_associated_pan_coord p) (pib_rx_on_when_idle p) (pib_association_permit p)
    (pib_beacon_order p) (pib_superframe_order p) (pib_beacon_payload p) (pib_auto_request p)
    (pib_max_csma_backoffs p) (pib_min_be p) (pib_max_be p) (pib_max_frame_retries p)
    (pib_max_frame_total_wait_time p) (pib_response_wait_time p) (pib_dsn p) (pib_bsn p)
    (pib_transaction_persistence_time p) (pib_promiscuous p) (pib_current_channel p) (pib_transmit_power p).
Definition set_extended_address (v : IeeeAddress) (p : MacPib) : MacPib :=
  mk_MacPib (pib_short_address p) (pib_pan_id p) v (pib_coord_short_address p) (pib_coord_extended_address p)
    (pib_associated_pan_coord p) (pib_rx_on_when_idle p) (pib_association_permit p) (pib_beacon_order p)
    (pib_superframe_order p) (pib_beacon_payload p) (pib_auto_request p) (pib_max_csma_backoffs p) (pib_min_be p)
    (pib_max_be p) (pib_max_frame_retries p) (pib_max_frame_total_wait_time p) (pib_response_wait_time p)
    (pib_dsn p) (pib_bsn p) (pib_transaction_persistence_time p) (pib_promiscuous p) (pib_current_channel p)
    (pib_transmit_power p).
Definition set_coord_short_address (v : ShortAddress) (p : MacPib) : MacPib :=
  mk_MacPib (pib_short_address p) (pib_pan_id p) (pib_extended_address p) v (pib_coord_extended_address p)
    (pib_associated_pan_coord p) (pib_rx_on_when_idle p) (pib_association_permit p) (pib_beacon_order p)
    (pib_superframe_order p) (pib_beacon_payload p) (pib_auto_request p) (pib_max_csma_backoffs p) (pib_min_be p)
    (pib_max_be p) (pib_max_frame_retries p) (pib_max_frame_total_wait_time p) (pib_response_wait_time p)
    (pib_dsn p) (pib_bsn p) (pib_transaction_persistence_time p) (pib_promiscuous p) (pib_current_channel p)
    (pib_transmit_power p).
Definition set_coord_extended_address (v : IeeeAddress) (p : MacPib) : MacPib :=
  mk_MacPib (pib_short_address p) (pib_pan_id p) (pib_extended_address p) (pib_coord_short_address p) v
    (pib_associated_pan_coord p) (pib_rx_on_when_idle p) (pib_association_permit p) (pib_beacon_order p)
    (pib_superframe_order p) (pib_beacon_payload p) (pib_auto_request p) (pib_max_csma_backoffs p) (pib_min_be p)
    (pib_max_be p) (pib_max_frame_retries p) (pib_max_frame_total_wait_time p) (pib_response_wait_time p)
    (pib_dsn p) (pib_bsn p) (pib_transaction_persistence_time p) (pib_promiscuous p) (pib_current_channel p)
    (pib_transmit_power p).
Definition set_associated_pan_coord (v : bool) (p : MacPib) : MacPib :=
  mk_MacPib (pib_short_address p) (pib_pan_id p) (pib_extended_address p) (pib_coord_short_address p)
    (pib_coord_extended_address p) v (pib_rx_on_when_idle p) (pib_association_permit p) (pib_beacon_order p)
    (pib_superframe_order p) (pib_beacon_payload p) (pib_auto_request p) (pib_max_csma_backoffs p) (pib_min_be p)
    (pib_max_be p) (pib_max_frame_retries p) (pib_max_frame_total_wait_time p) (pib_response_wait_time p)
    (pib_dsn p) (pib_bsn p) (pib_transaction_persistence_time p) (pib_promiscuous p) (pib_current_channel p)
    (pib_transmit_power p).
Definition set_rx_on_when_idle (v : bool) (p : MacPib) : MacPib :=
  mk_MacPib (pib_short_address p) (pib_pan_id p) (pib_extended_address p) (pib_coord_short_address p)
    (pib_coord_extended_address p) (pib_associated_pan_coord p) v (pib_association_permit p) (pib_beacon_order p)
    (pib_superframe_order p) (pib_beacon_payload p) (pib_auto_request p) (pib_max_csma_backoffs p) (pib_min_be p)
    (pib_max_be p) (pib_max_frame_retries p) (pib_max_frame_total_wait_time p) (pib_response_wait_time p)
    (pib_dsn p) (pib_bsn p) (pib_transaction_persistence_time p) (pib_promiscuous p) (pib_current_channel p)
    (pib_transmit_power p).
Definition set_association_permit (v : bool) (p : MacPib) : MacPib :=
  mk_MacPib (pib_short_address p) (pib_pan_id p) (pib_extended_address p) (pib_coord_short_address p)
    (pib_coord_extended_address p) (pib_associated_pan_coord p) (pib_rx_on_when_idle p) v (pib_beacon_order p)
    (pib_superframe_order p) (pib_beacon_payload p) (pib_auto_request p) (pib_max_csma_backoffs p) (pib_min_be p)
    (pib_max_be p) (pib_max_frame_retries p) (pib_max_frame_total_wait_time p) (pib_response_wait_time p)
    (pib_dsn p) (pib_bsn p) (pib_transaction_persistence_time p) (pib_promiscuous p) (pib_current_channel p)
    (pib_transmit_power p).
Definition set_beacon_order (v : Z) (p : MacPib) : MacPib :=
  mk_MacPib (pib_short_address p) (pib_pan_id p) (pib_extended_address p) (pib_coord_short_address p)
    (pib_coord_extended_address p) (pib_associated_pan_coord p) (pib_rx_on_when_idle p) (pib_association_permit p)
    v (pib_superframe_order p) (pib_beacon_payload p) (pib_auto_request p) (pib_max_csma_backoffs p) (pib_min_be p)
    (pib_max_be p) (pib_max_frame_retries p) (pib_max_frame_total_wait_time p) (pib_response_wait_time p)
    (pib_dsn p) (pib_bsn p) (pib_transaction_persistence_time p) (pib_promiscuous p) (pib_current_channel p)
    (pib_transmit_power p).
Definition set_superframe_order (v : Z) (p : MacPib) : MacPib :=
  mk_MacPib (pib_short_address p) (pib_pan_id p) (pib_extended_address p) (pib_coord_short_address p)
    (pib_coord_extended_address p) (pib_associated_pan_coord p) (pib_rx_on_when_idle p) (pib_association_permit p)
    (pib_beacon_order p) v (pib_beacon_payload p) (pib_auto_request p) (pib_max_csma_backoffs p) (pib_min_be p)
    (pib_max_be p) (pib_max_frame_retries p) (pib_max_frame_total_wait_time p) (pib_response_wait_time p)
    (pib_dsn p) (pib_bsn p) (pib_transaction_persistence_time p) (pib_promiscuous p) (pib_current_channel p)
    (pib_transmit_power p).
Definition set_beacon_payload (v : PibPayload) (p : MacPib) : MacPib :=
  mk_MacPib (pib_short_address p) (pib_pan_id p) (pib_extended_address p) (pib_coord_short_address p)
    (pib_coord_extended_address p) (pib_associated_pan_coord p) (pib_rx_on_when_idle p) (pib_association_permit p)
    (pib_beacon_order p) (pib_superframe_order p) v (pib_auto_request p) (pib_max_csma_backoffs p) (pib_min_be p)
    (pib_max_be p) (pib_max_frame_retries p) (pib_max_frame_total_wait_time p) (pib_response_wait_time p)
    (pib_dsn p) (pib_bsn p) (pib_transaction_persistence_time p) (pib_promiscuous p) (pib_current_channel p)
    (pib_transmit_power p).
Definition set_auto_request (v : bool) (p : MacPib) : MacPib :=
  mk_MacPib (pib_short_address p) (pib_pan_id p) (pib_extended_address p) (pib_coord_short_address p)
    (pib_coord_extended_address p) (pib_associated_pan_coord p) (pib_rx_on_when_idle p) (pib_association_permit p)
    (pib_beacon_order p) (pib_superframe_order p) (pib_beacon_payload p) v (pib_max_csma_backoffs p) (pib_min_be p)
    (pib_max_be p) (pib_max_frame_retries p) (pib_max_frame_total_wait_time p) (pib_response_wait_time p)
    (pib_dsn p) (pib_bsn p) (pib_transaction_persistence_time p) (pib_promiscuous p) (pib_current_channel p)
    (pib_transmit_power p).
Definition set_max_csma_backoffs (v : Z) (p : MacPib) : MacPib :=
  mk_MacPib (pib_short_address p) (pib_pan_id p) (pib_extended_address p) (pib_coord_short_address p)
    (pib_coord_extended_address p) (pib_associated_pan_coord p) (pib_rx_on_when_idle p) (pib_association_permit p)
    (pib_beacon_order p) (pib_superframe_order p) (pib_beacon_payload p) (pib_auto_request p) v (pib_min_be p)
    (pib_max_be p) (pib_max_frame_retries p) (pib_max_frame_total_wait_time p) (pib_response_wait_time p)
    (pib_dsn p) (pib_bsn p) (pib_transaction_persistence_time p) (pib_promiscuous p) (pib_current_channel p)
    (pib_transmit_power p).
Definition set_min_be (v : Z) (p : MacPib) : MacPib :=
  mk_MacPib (pib_short_address p) (pib_pan_id p) (pib_extended_address p) (pib_coord_short_address p)
    (pib_coord_extended_address p) (pib_associated_pan_coord p) (pib_rx_on_when_idle p) (pib_association_permit p)
    (pib_beacon_order p) (pib_superframe_order p) (pib_beacon_payload p) (pib_auto_request p)
    (pib_max_csma_backoffs p) v (pib_max_be p) (pib_max_frame_retries p) (pib_max_frame_total_wait_time p)
    (pib_response_wait_time p) (pib_dsn p) (pib_bsn p) (pib_transaction_persistence_time p) (pib_promiscuous p)
    (pib_current_channel p) (pib_transmit_power p).
Definition set_max_be (v : Z) (p : MacPib) : MacPib :=
  mk_MacPib (pib_short_address p) (pib_pan_id p) (pib_extended_address p) (pib_coord_short_address p)
    (pib_coord_extended_address p) (pib_associated_pan_coord p) (pib_rx_on_when_idle p) (pib_association_permit p)
    (pib_beacon_order p) (pib_superframe_order p) (pib_beacon_payload p) (pib_auto_request p)
    (pib_max_csma_backoffs p) (pib_min_be p) v (pib_max_frame_retries p) (pib_max_frame_total_wait_time p)
    (pib_response_wait_time p) (pib_dsn p) (pib_bsn p) (pib_transaction_persistence_time p) (pib_promiscuous p)
    (pib_current_channel p) (pib_transmit_power p).
Definition set_max_frame_retries (v : Z) (p : MacPib) : MacPib :=
  mk_MacPib (pib_short_address p) (pib_pan_id p) (pib_extended_address p) (pib_coord_short_address p)
    (pib_coord_extended_address p) (pib_associated_pan_coord p) (pib_rx_on_when_idle p) (pib_association_permit p)
    (pib_beacon_order p) (pib_superframe_order p) (pib_beacon_payload p) (pib_auto_request p)
    (pib_max_csma_backoffs p) (pib_min_be p) (pib_max_be p) v (pib_max_frame_total_wait_time p)
    (pib_response_wait_time p) (pib_dsn p) (pib_bsn p) (pib_transaction_persistence_time p) (pib_promiscuous p)
    (pib_current_channel p) (pib_transmit_power p).
Definition set_max_frame_total_wait_time (v : Z) (p : MacPib) : MacPib :=
  mk_MacPib (pib_short_address p) (pib_pan_id p) (pib_extended_address p) (pib_coord_short_address p)
    (pib_coord_extended_address p) (pib_associated_pan_coord p) (pib_rx_on_when_idle p) (pib_association_permit p)
    (pib_beacon_order p) (pib_superframe_order p) (pib_beacon_payload p) (pib_auto_request p)
    (pib_max_csma_backoffs p) (pib_min_be p) (pib_max_be p) (pib_max_frame_retries p) v (pib_response_wait_time p)
    (pib_dsn p) (pib_bsn p) (pib_transaction_persistence_time p) (pib_promiscuous p) (pib_current_channel p)
    (pib_transmit_power p).
Definition set_response_wait_time (v : Z) (p : MacPib) : MacPib :=
  mk_MacPib (pib_short_address p) (pib_pan_id p) (pib_extended_address p) (pib_coord_short_address p)
    (pib_coord_extended_address p) (pib_associated_pan_coord p) (pib_rx_on_when_idle p) (pib_association_permit p)
    (pib_beacon_order p) (pib_superframe_order p) (pib_beacon_payload p) (pib_auto_request p)
    (pib_max_csma_backoffs p) (pib_min_be p) (pib_max_be p) (pib_max_frame_retries p)
    (pib_max_frame_total_wait_time p) v (pib_dsn p) (pib_bsn p) (pib_transaction_persistence_time p)
    (pib_promiscuous p) (pib_current_channel p) (pib_transmit_power p).
Definition set_dsn (v : Z) (p : MacPib) : MacPib :=
  mk_MacPib (pib_short_address p) (pib_pan_id p) (pib_extended_address p) (pib_coord_short_address p)
    (pib_coord_extended_address p) (pib_associated_pan_coord p) (pib_rx_on_when_idle p) (pib_association_permit p)
    (pib_beacon_order p) (pib_superframe_order p) (pib_beacon_payload p) (pib_auto_request p)
    (pib_max_csma_backoffs p) (pib_min_be p) (pib_max_be p) (pib_max_frame_retries p)
    (pib_max_frame_total_wait_time p) (pib_response_wait_time p) v (pib_bsn p) (pib_transaction_persistence_time p)
    (pib_promiscuous p) (pib_current_channel p) (pib_transmit_power p).
Definition set_bsn (v : Z) (p : MacPib) : MacPib :=
  mk_MacPib (pib_short_address p) (pib_pan_id p) (pib_extended_address p) (pib_coord_short_address p)
    (pib_coord_extended_address p) (pib_associated_pan_coord p) (pib_rx_on_when_idle p) (pib_association_permit p)
    (pib_beacon_order p) (pib_superframe_order p) (pib_beacon_payload p) (pib_auto_request p)
    (pib_max_csma_backoffs p) (pib_min_be p) (pib_max_be p) (pib_max_frame_retries p)
    (pib_max_frame_total_wait_time p) (pib_response_wait_time p) (pib_dsn p) v (pib_transaction_persistence_time p)
    (pib_promiscuous p) (pib_current_channel p) (pib_transmit_power p).
Definition set_transaction_persistence_time (v : Z) (p : MacPib) : MacPib :=
  mk_MacPib (pib_short_address p) (pib_pan_id p) (pib_extended_address p) (pib_coord_short_address p)
    (pib_coord_extended_address p) (pib_associated_pan_coord p) (pib_rx_on_when_idle p) (pib_association_permit p)
    (pib_beacon_order p) (pib_superframe_order p) (pib_beacon_payload p) (pib_auto_request p)
    (pib_max_csma_backoffs p) (pib_min_be p) (pib_max_be p) (pib_max_frame_retries p)
    (pib_max_frame_total_wait_time p) (pib_response_wait_time p) (pib_dsn p) (pib_bsn p) v (pib_promiscuous p)
    (pib_current_channel p) (pib_transmit_power p).
Definition set_promiscuous (v : bool) (p : MacPib) : MacPib :=
  mk_MacPib (pib_short_address p) (pib_pan_id p) (pib_extended_address p) (pib_coord_short_address p)
    (pib_coord_extended_address p) (pib_associated_pan_coord p) (pib_rx_on_when_idle p) (pib_association_permit p)
    (pib_beacon_order p) (pib_superframe_order p) (pib_beacon_payload p) (pib_auto_request p)
    (pib_max_csma_backoffs p) (pib_min_be p) (pib_max_be p) (pib_max_frame_retries p)
    (pib_max_frame_total_wait_time p) (pib_response_wait_time p) (pib_dsn p) (pib_bsn p)
    (pib_transaction_persistence_time p) v (pib_current_channel p) (pib_transmit_power p).
Definition set_current_channel (v : Z) (p : MacPib) : MacPib :=
  mk_MacPib (pib_short_address p) (pib_pan_id p) (pib_extended_address p) (pib_coord_short_address p)
    (pib_coord_extended_address p) (pib_associated_pan_coord p) (pib_rx_on_when_idle p) (pib_association_permit p)
    (pib_beacon_order p) (pib_superframe_order p) (pib_beacon_payload p) (pib_auto_request p)
    (pib_max_csma_backoffs p) (pib_min_be p) (pib_max_be p) (pib_max_frame_retries p)
    (pib_max_frame_total_wait_time p) (pib_response_wait_time p) (pib_dsn p) (pib_bsn p)
    (pib_transaction_persistence_time p) (pib_promiscuous p) v (pib_transmit_power p).
Definition set_transmit_power (v : Z) (p : MacPib) : MacPib :=
  mk_MacPib (pib_short_address p) (pib_pan_id p) (pib_extended_address p) (pib_coord_short_address p)
    (pib_coord_extended_address p) (pib_associated_pan_coord p) (pib_rx_on_when_idle p) (pib_association_permit p)
    (pib_beacon_order p) (pib_superframe_order p) (pib_beacon_payload p) (pib_auto_request p)
    (pib_max_csma_backoffs p) (pib_min_be p) (pib_max_be p) (pib_max_frame_retries p)
    (pib_max_frame_total_wait_time p) (pib_response_wait_time p) (pib_dsn p) (pib_bsn p)
    (pib_transaction_persistence_time p) (pib_promiscuous p) (pib_current_channel p) v.

Definition pib_get (p : MacPib) (attr : PibAttribute) : PibValue :=
  match attr with
  | MacShortAddress => PvShortAddress (pib_short_address p)
  | MacPanId => PvPanId (pib_pan_id p)
  | MacExtendedAddress => PvExtendedAddress (pib_extended_address p)
  | MacCoordShortAddress => PvShortAddress (pib_coord_short_address p)
  | MacCoordExtendedAddress => PvExtendedAddress (pib_coord_extended_address p)
  | MacAssociatedPanCoord => PvBool (pib_associated_pan_coord p)
  | MacRxOnWhenIdle => PvBool (pib_rx_on_when_idle p)
  | MacAssociationPermit => PvBool (pib_association_permit p)
  | MacBeaconOrder => PvU8 (pib_beacon_order p)
  | MacSuperframeOrder => PvU8 (pib_superframe_order p)
  | MacBeaconPayload => PvPayload (pib_beacon_payload p)
  | MacBeaconPayloadLength => PvU8 (as_u8 (Z.of_nat (pp_len (pib_beacon_payload p))))
  | MacAutoRequest => PvBool (pib_auto_request p)
  | MacMaxCsmaBackoffs => PvU8 (pib_max_csma_backoffs p)
  | MacMinBe => PvU8 (pib_min_be p)
  | MacMaxBe => PvU8 (pib_max_be p)
  | MacMaxFrameRetries => PvU8 (pib_max_frame_retries p)
  | MacMaxFrameTotalWaitTime => PvU32 (pib_max_frame_total_wait_time p)
  | MacResponseWaitTime => PvU8 (pib_response_wait_time p)
  | MacDsn => PvU8 (pib_dsn p)
  | MacBsn => PvU8 (pib_bsn p)
  | MacTransactionPersistenceTime => PvU16 (pib_transaction_persistence_time p)
  | MacPromiscuousMode => PvBool (pib_promiscuous p)
  | PhyCurrentChannel => PvU8 (pib_current_channel p)
  | PhyChannelsSupported => PvU32 ALL_2_4GHZ
  | PhyTransmitPower => PvI8 (pib_transmit_power p)
  | PhyCcaMode => PvU8 1
  | PhyCurrentPage => PvU8 0
  end.

Definition pib_set (attr : PibAttribute) (value : PibValue) (p : MacPib) : outcome PibError MacPib :=
  match attr, value with
  | MacShortAddress, PvShortAddress v => Ok (set_short_address v p)
  | MacPanId, PvPanId v => Ok (set_pan_id v p)
  | MacExtendedAddress, PvExtendedAddress v => Ok (set_extended_address v p)
  | MacCoordShortAddress, PvShortAddress v => Ok (set_coord_short_address v p)
  | MacCoordExtendedAddress, PvExtendedAddress v => Ok (set_coord_extended_address v p)
  | MacAssociatedPanCoord, PvBool v => Ok (set_associated_pan_coord v p)
  | MacRxOnWhenIdle, PvBool v => Ok (set_rx_on_when_idle v p)
  | MacAssociationPermit, PvBool v => Ok (set_association_permit v p)
  | MacBeaconOrder, PvU8 v => if v <=? 15 then Ok (set_beacon_order v p) else Err PibInvalidValue
  | MacSuperframeOrder, PvU8 v => if v <=? 15 then Ok (set_superframe_order v p) else Err PibInvalidValue
  | MacBeaconPayload, PvPayload v => Ok (set_beacon_payload v p)
  | MacBeaconPayloadLength, PvU8 v =>
      if v =? Z.of_nat (pp_len (pib_beacon_payload p)) then Ok p else Err PibInvalidValue
  | MacAutoRequest, PvBool v => Ok (set_auto_request v p)
  | MacMaxCsmaBackoffs, PvU8 v => if v <=? 5 then Ok (set_max_csma_backoffs v p) else Err PibInvalidValue
  | MacMinBe, PvU8 v => if (v <=? pib_max_be p) && (v <=? 8) then Ok (set_min_be v p) else Err PibInvalidValue
  | MacMaxBe, PvU8 v => if (pib_min_be p <=? v) && (v <=? 8) then Ok (set_max_be v p) else Err PibInvalidValue
  | MacMaxFrameRetries, PvU8 v => if v <=? 7 then Ok (set_max_frame_retries v p) else Err PibInvalidValue
  | MacMaxFrameTotalWaitTime, PvU32 v => Ok (set_max_frame_total_wait_time v p)
  | MacResponseWaitTime, PvU8 v => Ok (set_response_wait_time v p)
  | MacDsn, PvU8 v => Ok (set_dsn v p)
  | MacBsn, PvU8 v => Ok (set_bsn v p)
  | MacTransactionPersistenceTime, PvU16 v => Ok (set_transaction_persistence_time v p)
  | MacPromiscuousMode, PvBool v => Ok (set_promiscuous v p)
  | PhyCurrentChannel, PvU8 v => if (11 <=? v) && (v <=? 26) then Ok (set_current_channel v p) else Err PibInvalidValue
  | PhyTransmitPower, PvI8 v => Ok (set_transmit_power v p)
  | PhyCcaMode, PvU8 v => if v =? 1 then Ok p else Err PibInvalidValue
  | PhyCurrentPage, PvU8 v => if v =? 0 then Ok p else Err PibInvalidValue
  | PhyChannelsSupported, _ => Err PibReadOnly
  | _, _ => Err PibInvalidValue
  end.

Definition next_dsn (p : MacPib) : Z * MacPib := (pib_dsn p, set_dsn (wrapping_add_u8 (pib_dsn p) 1) p).
Definition next_bsn (p : MacPib) : Z * MacPib := (pib_bsn p, set_bsn (wrapping_add_u8 (pib_bsn p) 1) p).

(** * Scan durations *)

Definition A_BASE_SUPERFRAME_DURATION : Z := 960.
Definition SYMBOL_RATE_2_4GHZ : Z := 62500.

(** [A_BASE_SUPERFRAME_DURATION * ((1u32 << exponent) + 1)]: a shift by the
    width or more and an overflow abort. *)
Definition scan_duration_symbols {E} (exponent : Z) : outcome E Z :=
  if 32 <=? exponent then Panic
  else
    sum ← add_u32 (Z.shiftl 1 exponent) 1;
    let product := A_BASE_SUPERFRAME_DURATION * sum in
    if product <? 4294967296 then Ok product else Panic.

Definition scan_duration_us {E} (exponent : Z) : outcome E Z :=
  symbols ← scan_duration_symbols exponent; Ok (symbols * 1000000 / SYMBOL_RATE_2_4GHZ).

(** * Link quality *)

Definition nrf_from_hardware (hardware_lqi : Z) : Z := Z.min (hardware_lqi * 4) 255.

Definition RSSI_FLOOR_DBM : Z := -100.
Definition RSSI_CEILING_DBM : Z := -20.

Definition from_rssi_dbm (rssi_dbm : Z) : Z :=
  let floor := RSSI_FLOOR_DBM in
  let ceiling := RSSI_CEILING_DBM in
  let raw := rssi_dbm in
  let clamped := if raw <? floor then floor else if ceiling <? raw then ceiling else raw in
  as_u8 (as_u16 (clamped - floor) * 255 / 80).

(** * Invariant *)

Definition payload_wf (p : PibPayload) : Prop := length (pp_buf p) = 52%nat ∧ (pp_len p <= 52)%nat.

Record pib_wf (p : MacPib) : Prop := {
  pw_extended : length (pib_extended_address p) = 8%nat;
  pw_orders : pib_beacon_order p <= 15 ∧ pib_superframe_order p <= 15;
  pw_payload : payload_wf (pib_beacon_payload p);
  pw_backoffs : 0 <= pib_max_csma_backoffs p <= 5;
  pw_exponents : 0 <= pib_min_be p <= pib_max_be p ∧ pib_max_be p <= 8;
  pw_retries : 0 <= pib_max_frame_retries p <= 7;
  pw_channel : 11 <= pib_current_channel p <= 26 }.

(** What the type of a value guarantees. *)
Definition value_wf (v : PibValue) : Prop :=
  match v with
  | PvPayload p => payload_wf p
  | PvU8 v => is_u8 v
  | PvExtendedAddress a => length a = 8%nat
  | _ => True
  end.

Lemma payload_from_slice data :
  (length data <= 52)%nat →
  ∃ p, pib_payload_from_slice data = Ok p ∧ payload_wf p ∧ pib_payload_as_slice (E:=unit) p = Ok data.
Proof.
  intros Hl. unfold pib_payload_from_slice. rewrite (proj2 (Nat.ltb_ge _ _)) by done.
  pose proof (copy_written (E:=unit) [] (repeat 0 52) 0 (length data) data eq_refl eq_refl) as Hc.
  rewrite written_nil, repeat_length in Hc. cbn [app] in Hc. change (pp_buf pib_payload_new) with (repeat 0 52).
  rewrite Hc by done. cbn [mbind outcome_bind]. eexists. split; [done|]. unfold payload_wf, pib_payload_as_slice. cbn [pp_buf pp_len].
  rewrite length_written by (by rewrite repeat_length). split; [done|].
  rewrite slice_0_take by (rewrite length_written, repeat_length by (by rewrite repeat_length); done).
  by rewrite take_written.
Qed.

Lemma pib_set_wf attr v p p' : pib_wf p → value_wf v → pib_set attr v p = Ok p' → pib_wf p'.
Proof.
  intros [] Hv. destruct attr, v; simpl; try done; repeat case_match; bool_simpl; intros [= <-]; split; simpl; try done; unfold value_wf, is_u8 in *; simpl in *; lia.
Qed.

Lemma no_panic_pib_set attr v p : no_panic (pib_set attr v p).
Proof. destruct attr, v; simpl; try done; by case_match. Qed.

(** The attributes whose value the radio holds too. *)
Definition radio_attribute (attr : PibAttribute) : bool :=
  match attr with
  | PhyCurrentChannel | PhyTransmitPower | MacShortAddress | MacPanId | MacExtendedAddress | MacPromiscuousMode
  | MacRxOnWhenIdle => true
  | _ => false
  end.

Lemma pib_set_restore attr v p p' :
  pib_wf p → radio_attribute attr = true → pib_set attr v p = Ok p' → pib_set attr (pib_get p attr) p' = Ok p.
Proof.
  intros [] Hr Hs. destruct p, attr; try done; destruct v; try done; simpl in *; repeat case_match; simplify_eq/=; try done.
  exfalso. bool_simpl; lia.
Qed.

(** The attributes a write may change. *)
Definition touches (attr other : PibAttribute) : Prop :=
  other = attr ∨ attr = MacBeaconPayload ∧ other = MacBeaconPayloadLength.

Lemma pib_set_get attr v p p' :
  value_wf v → payload_wf (pib_beacon_payload p) → pib_set attr v p = Ok p' →
  pib_get p' attr = v ∧ ∀ other, ¬ touches attr other → pib_get p' other = pib_get p other.
Proof.
  intros Hv [_ Hp] Hs.
  assert (Hother : ∀ other, ¬ touches attr other → pib_get p' other = pib_get p other).
  { intros other Ho. unfold touches in Ho. destruct attr, v; simpl in Hs; try done; repeat case_match; try done;
      injection Hs as <-; destruct other; try done; exfalso; apply Ho; auto. }
  split; [|done]. destruct attr, v; simpl in Hs; try done; repeat case_match; bool_simpl; try done;
    injection Hs as <-; simpl; try done; subst; try done. unfold as_u8. by rewrite Z.mod_small by lia.
Qed.

Lemma pib_set_current attr p : pib_wf p → attr ≠ PhyChannelsSupported → pib_set attr (pib_get p attr) p = Ok p.
Proof.
  intros [] Hne. destruct p, attr; simpl in *; try done; case_match eqn:Hc; try done; exfalso; bool_simpl; unfold payload_wf in *; try lia.
  unfold as_u8 in Hc. rewrite Z.mod_small in Hc; lia.
Qed.

Definition pib_write (p : MacPib) (w : PibAttribute * PibValue) : MacPib :=
  match pib_set w.1 w.2 p with Ok p' => p' | _ => p end.

Lemma pib_new_wf ext dsn bsn : length ext = 8%nat → pib_wf (pib_new ext dsn bsn).
Proof. split; simpl; unfold payload_wf; simpl; done || lia. Qed.

Lemma pib_writes_wf ws p : pib_wf p → Forall (λ w, value_wf w.2) ws → pib_wf (foldl pib_write p ws).
Proof.
  intros Hp Hw. revert p Hp. induction Hw as [|[a v] ws Hv _ IH]; intros p Hp; [done|]. simpl. apply IH.
  unfold pib_write. simpl. destruct (pib_set a v p) eqn:Hs; [by eapply pib_set_wf|done..].
Qed.

(** The MAC information base is a store: over any history of writes the
    tuning parameters stay in range (the backoff exponents ordered and at most
    eight, the channel one of the sixteen of the band); a successful write is
    read back, changes no other attribute than the length of the beacon
    payload, and writing back what was read is always accepted and changes
    nothing. *)
Theorem mac_pib_lawful ext dsn bsn ws attr v :
  length ext = 8%nat → Forall (λ w, value_wf w.2) ws → value_wf v →
  let p := foldl pib_write (pib_new ext dsn bsn) ws in
  pib_wf p ∧
  (∀ p', pib_set attr v p = Ok p' → pib_wf p' ∧ pib_get p' attr = v ∧
     ∀ other, ¬ touches attr other → pib_get p' other = pib_get p other) ∧
  (attr ≠ PhyChannelsSupported → pib_set attr (pib_get p attr) p = Ok p) ∧
  pib_get p PhyChannelsSupported = PvU32 ALL_2_4GHZ.
Proof.
  intros Hext Hws Hv p. assert (Hp : pib_wf p) by (apply pib_writes_wf; [by apply pib_new_wf|done]).
  split_and!; [done| |by apply pib_set_current|done].
  intros p' Hs. split; [by eapply pib_set_wf|]. apply pib_set_get; [done|apply Hp|done].
Qed.

Lemma mac_pib_lawful_witness :
  let p := foldl pib_write (pib_new (repeat 1 8) 0 0) [(MacMaxBe, PvU8 8); (MacMinBe, PvU8 9); (MacMinBe, PvU8 7)] in
  pib_min_be p = 7 ∧ pib_wf p ∧ pib_set MacMinBe (pib_get p MacMinBe) p = Ok p.
Proof.
  destruct (mac_pib_lawful (repeat 1 8) 0 0 [(MacMaxBe, PvU8 8); (MacMinBe, PvU8 9); (MacMinBe, PvU8 7)] MacMinBe (PvU8 0)
    eq_refl ltac:(repeat constructor; done) ltac:(done)) as (H1 & _ & H2 & _).
  split; [reflexivity|]. split; [exact H1|]. apply H2. done.
Defined.

(** ** Sequence numbers, scan durations and link quality *)

(** Consecutive sequence numbers are distinct over any window of 256. *)
Lemma next_dsn_step p : (next_dsn p).1 = pib_dsn p ∧ pib_dsn (next_dsn p).2 = (pib_dsn p + 1) mod 256.
Proof. done. Qed.

(** The scan durations Zigbee allows never overflow. *)
Lemma scan_duration_defined e : 0 <= e <= 22 →
  scan_duration_symbols (E:=unit) e = Ok (960 * (2 ^ e + 1)) ∧ ∃ us, scan_duration_us (E:=unit) e = Ok us.
Proof.
  intros He. assert (H : scan_duration_symbols (E:=unit) e = Ok (960 * (2 ^ e + 1))).
  { unfold scan_duration_symbols. rewrite (proj2 (Z.leb_gt _ _)) by lia. rewrite Z.shiftl_mul_pow2, Z.mul_1_l by lia.
    pose proof (Z.pow_pos_nonneg 2 e ltac:(lia) ltac:(lia)). pose proof (Z.pow_le_mono_r 2 e 22 ltac:(lia) ltac:(lia)) as Hle.
    change (2 ^ 22) with 4194304 in Hle.
    unfold add_u32. rewrite (proj2 (Z.ltb_lt _ _)) by lia. cbn [mbind outcome_bind]. unfold A_BASE_SUPERFRAME_DURATION.
    by rewrite (proj2 (Z.ltb_lt _ _)) by lia. }
  split; [done|]. unfold scan_duration_us. rewrite H. by eexists.
Qed.

Lemma from_rssi_dbm_range r : 0 <= from_rssi_dbm r <= 255.
Proof. unfold from_rssi_dbm, as_u8. ulia. Qed.

(** A stronger signal never gives a lower link quality. *)
Lemma from_rssi_dbm_monotone r s : r <= s → from_rssi_dbm r <= from_rssi_dbm s.
Proof.
  intros Hle. unfold from_rssi_dbm, RSSI_FLOOR_DBM, RSSI_CEILING_DBM. cbv zeta.
  assert (H : ∀ c, -100 <= c <= -20 → as_u8 (as_u16 (c - -100) * 255 / 80) = (c + 100) * 255 / 80).
  { intros c Hc. unfold as_u8, as_u16. rewrite (Z.mod_small (c - -100)) by lia.
    replace (c - -100) with (c + 100) by lia. apply Z.mod_small.
    split; [apply Z.div_pos; lia|]. apply Z.div_lt_upper_bound; lia. }
  rewrite !H by (repeat case_match; bool_simpl; lia). apply Z.div_le_mono; [lia|].
  repeat case_match; bool_simpl; lia.
Qed.
