(* ===== verification/MacRxQueue.v ===== *)
(** * Received frames and the queue that retains them

    [PhyRxFrame] of [zigbee-mac/src/phy.rs] and [RxQueue] of
    [zigbee-mac/src/soft_mac.rs]: a ring of [N] frames whose free slot behind
    the last frame is where the radio writes.  The theorems read the ring as a
    list, oldest frame first. *)
From S2P Require Import Prelude MacFrames.

Local Open Scope Z_scope.

(** * Frames as the radio delivers them *)

Inductive PhyError := ChannelBusy | InvalidChannel | PhyFrameTooLong | CrcFailed | Hardware | PhyUnsupported.

Definition MAX_PHY_FRAME_LEN : nat := 125.

Record PhyRxFrame := mk_PhyRxFrame { rf_data : list Z; rf_len : nat; rf_lqi : Z }.

Definition rx_EMPTY : PhyRxFrame := mk_PhyRxFrame (repeat 0 MAX_PHY_FRAME_LEN) 0 0.

Definition rx_set (data : list Z) (lqi : Z) (f : PhyRxFrame) : outcome PhyError PhyRxFrame :=
  if (MAX_PHY_FRAME_LEN <? length data)%nat then Err PhyFrameTooLong
  else buf ← copy_from_slice (rf_data f) 0 (length data) data; Ok (mk_PhyRxFrame buf (length data) lqi).

Definition rx_from_slice (data : list Z) (lqi : Z) : outcome PhyError PhyRxFrame :=
  if (MAX_PHY_FRAME_LEN <? length data)%nat then Err PhyFrameTooLong
  else buf ← copy_from_slice (repeat 0 MAX_PHY_FRAME_LEN) 0 (length data) data; Ok (mk_PhyRxFrame buf (length data) lqi).

Definition rx_set_len (len : nat) (lqi : Z) (f : PhyRxFrame) : outcome PhyError PhyRxFrame :=
  if (MAX_PHY_FRAME_LEN <? len)%nat then Err PhyFrameTooLong
  else Ok (mk_PhyRxFrame (rf_data f) len lqi).

Definition rx_as_slice {E} (f : PhyRxFrame) : outcome E (list Z) := slice (rf_data f) 0 (rf_len f).

(** Every frame the interface above produces is well formed. *)
Definition rx_wf (f : PhyRxFrame) : Prop := length (rf_data f) = MAX_PHY_FRAME_LEN ∧ (rf_len f <= MAX_PHY_FRAME_LEN)%nat.

(** The octets of a frame. *)
Definition octets_of (f : PhyRxFrame) : list Z := take (rf_len f) (rf_data f).

Lemma rx_as_slice_wf {E} f : rx_wf f → rx_as_slice (E:=E) f = Ok (octets_of f).
Proof. intros [H1 H2]. unfold rx_as_slice, octets_of. by rewrite slice_0_take by lia. Qed.

Lemma rx_set_wf data lqi f f' : rx_wf f → rx_set data lqi f = Ok f' → rx_wf f' ∧ octets_of f' = data ∧ rf_lqi f' = lqi.
Proof.
  intros [H1 H2]. unfold rx_set. case_match eqn:Hl; [done|]. bool_simpl.
  pose proof (copy_written (E:=PhyError) [] (rf_data f) 0 (length data) data eq_refl eq_refl) as Hc.
  rewrite written_nil in Hc. cbn [app] in Hc. rewrite Hc by lia. intros [= <-]. unfold rx_wf, octets_of. cbn [rf_data rf_len rf_lqi].
  rewrite length_written by lia. split; [lia|]. by rewrite take_written.
Qed.

(** * The queue *)

Record RxQueue := mk_RxQueue { rq_frames : list PhyRxFrame; rq_head : nat; rq_len : nat }.

Section Queue.
Context (N : nat).

Definition rq_new : RxQueue := mk_RxQueue (repeat rx_EMPTY N) 0 0.
Definition rq_clear (q : RxQueue) : RxQueue := mk_RxQueue (rq_frames q) 0 0.

Definition rq_wrap (i : nat) : nat := if (N <=? i)%nat then (i - N)%nat else i.

Definition rq_get {E} (i : nat) (q : RxQueue) : outcome E PhyRxFrame :=
  index (rq_frames q) (rq_wrap (rq_head q + i)).

Definition rq_front {E} (q : RxQueue) : outcome E (option PhyRxFrame) :=
  if (rq_len q =? 0)%nat then Ok None else f ← index (rq_frames q) (rq_head q); Ok (Some f).

Definition rq_drop_front (q : RxQueue) : RxQueue :=
  if (rq_len q =? 0)%nat then q
  else mk_RxQueue (rq_frames q) (rq_wrap (rq_head q + 1)) (rq_len q - 1).

Definition rq_pop_front {E} (q : RxQueue) : outcome E (option PhyRxFrame * RxQueue) :=
  front ← rq_front q;
  match front with Some f => Ok (Some f, rq_drop_front q) | None => Ok (None, q) end.

Definition rq_tail (q : RxQueue) : nat := rq_wrap (rq_head q + rq_len q).

(** [rx_slot]: the queue with room, and the slot the radio writes to. *)
Definition rq_rx_slot (q : RxQueue) : RxQueue * nat :=
  let q := if (rq_len q =? N)%nat then rq_drop_front q else q in (q, rq_tail q).

(** What the radio writes through the reference [rx_slot] returns. *)
Definition rq_write {E} (slot : nat) (f : PhyRxFrame) (q : RxQueue) : outcome E RxQueue :=
  frames ← put (rq_frames q) slot f; Ok (mk_RxQueue frames (rq_head q) (rq_len q)).

Definition rq_received {E} (q : RxQueue) : outcome E PhyRxFrame := index (rq_frames q) (rq_tail q).

(** [self.len += 1] on a [u8] *)
Definition inc_len {E} (n : nat) : outcome E nat := if (n =? 255)%nat then Panic else Ok (n + 1)%nat.

Definition rq_commit_back {E} (q : RxQueue) : outcome E RxQueue :=
  len ← inc_len (rq_len q); Ok (mk_RxQueue (rq_frames q) (rq_head q) len).

Definition rq_commit_front {E} (q : RxQueue) : outcome E RxQueue :=
  let tail := rq_tail q in
  let head := rq_wrap (rq_head q + N - 1) in
  f ← index (rq_frames q) tail;
  frames ← put (rq_frames q) head f;
  len ← inc_len (rq_len q);
  Ok (mk_RxQueue frames head len).

(** [for _ in 0..index] of [remove] *)
Fixpoint shift_frames {E} (n slot : nat) (frames : list PhyRxFrame) : outcome E (list PhyRxFrame) :=
  match n with
  | O => Ok frames
  | S n =>
      let previous := rq_wrap (slot + N - 1) in
      f ← index frames previous;
      frames ← put frames slot f;
      shift_frames n previous frames
  end.

Definition rq_remove {E} (i : nat) (q : RxQueue) : outcome E RxQueue :=
  frames ← shift_frames i (rq_wrap (rq_head q + i)) (rq_frames q);
  Ok (rq_drop_front (mk_RxQueue frames (rq_head q) (rq_len q))).
End Queue.

(** * The queue as a list *)

Section Refinement.
Context (N : nat) (HN : (0 < N <= 255)%nat).

Record rq_wf (q : RxQueue) : Prop := {
  qw_frames : length (rq_frames q) = N;
  qw_head : (rq_head q < N)%nat;
  qw_len : (rq_len q <= N)%nat;
  qw_rx : Forall rx_wf (rq_frames q) }.

(** The slot of the [i]-th oldest frame, and the retained frames in order. *)
Definition slot (q : RxQueue) (i : nat) : nat := rq_wrap N (rq_head q + i).
Definition rq_view (q : RxQueue) : list PhyRxFrame := omap (λ i, rq_frames q !! slot q i) (seq 0 (rq_len q)).

Lemma rq_wrap_lt i : (i < 2 * N)%nat → (rq_wrap N i < N)%nat.
Proof using HN. intros. unfold rq_wrap. case_match; bool_simpl; lia. Qed.

Lemma slot_inj q i j : rq_wf q → (i < N)%nat → (j < N)%nat → slot q i = slot q j → i = j.
Proof using HN. intros []. unfold slot, rq_wrap. repeat case_match; bool_simpl; lia. Qed.

Lemma slot_lt q i : rq_wf q → (i < N)%nat → (slot q i < N)%nat.
Proof using HN. intros [] ?. apply rq_wrap_lt. lia. Qed.

Lemma slot_lookup q i : rq_wf q → (i < N)%nat → ∃ f, rq_frames q !! slot q i = Some f ∧ rx_wf f.
Proof using HN.
  intros Hq Hi. destruct (lookup_lt_is_Some_2 (rq_frames q) (slot q i)) as [f Hf].
  { rewrite (qw_frames _ Hq). by apply slot_lt. }
  exists f. split; [done|]. eapply Forall_lookup_1; [apply (qw_rx _ Hq)|done].
Qed.

Lemma omap_seq_lookup {A} (g : nat → option A) n s i :
  (∀ j, (s <= j < s + n)%nat → is_Some (g j)) →
  omap g (seq s n) !! i = if decide (i < n)%nat then g (s + i)%nat else None.
Proof using HN.
  revert s i. induction n as [|n IH]; intros s i Hg; [by case_decide; [lia|]|].
  simpl. destruct (Hg s ltac:(lia)) as [x Hx]. rewrite Hx. destruct i as [|i]; simpl.
  - by rewrite Nat.add_0_r.
  - rewrite IH by (intros; apply Hg; lia). replace (S s + i)%nat with (s + S i)%nat by lia.
    by repeat case_decide; try lia.
Qed.

(** The view is determined by its lookups. *)
Lemma rq_view_lookup q i :
  rq_wf q → rq_view q !! i = if decide (i < rq_len q)%nat then rq_frames q !! slot q i else None.
Proof using HN.
  intros Hq. unfold rq_view. rewrite omap_seq_lookup; [done|].
  intros j Hj. destruct (slot_lookup q j Hq) as (f & -> & _); [pose proof (qw_len _ Hq); lia|done].
Qed.

Lemma rq_view_length q : rq_wf q → length (rq_view q) = rq_len q.
Proof using HN.
  intros Hq. apply Nat.le_antisymm.
  - apply lookup_ge_None. rewrite rq_view_lookup by done. by rewrite decide_False by lia.
  - destruct (decide (rq_len q = 0)%nat) as [->|]; [lia|].
    assert (is_Some (rq_view q !! (rq_len q - 1)%nat)) as Hs%lookup_lt_is_Some; [|lia].
    rewrite rq_view_lookup, decide_True by (done || lia). pose proof (qw_len _ Hq).
    destruct (slot_lookup q (rq_len q - 1) Hq) as (f & -> & _); [lia|done].
Qed.

Lemma rq_view_wf q : rq_wf q → Forall rx_wf (rq_view q).
Proof using HN.
  intros Hq. apply Forall_lookup. intros i f. rewrite rq_view_lookup by done. case_decide; [|done].
  intros Hf. by eapply Forall_lookup_1; [apply (qw_rx _ Hq)|].
Qed.

Lemma rq_new_wf : rq_wf (rq_new N) ∧ rq_view (rq_new N) = [].
Proof using HN.
  split; [|done]. split; simpl; [by rewrite repeat_length|lia|lia|].
  apply List.Forall_forall. intros f Hf%repeat_spec. subst. split; [done|unfold MAX_PHY_FRAME_LEN; simpl; lia].
Qed.

Lemma rq_clear_wf q : rq_wf q → rq_wf (rq_clear q) ∧ rq_view (rq_clear q) = [].
Proof using HN. intros []. split; [|done]. split; simpl; try done; lia. Qed.

Lemma rq_get_spec {E} q i f : rq_wf q → rq_view q !! i = Some f → rq_get (E:=E) N i q = Ok f.
Proof using HN. intros Hq Hf. rewrite rq_view_lookup in Hf by done. case_decide; [|done]. by apply index_Some. Qed.

Lemma rq_front_spec {E} q : rq_wf q → rq_front (E:=E) q = Ok (head (rq_view q)).
Proof using HN.
  intros Hq. unfold rq_front. rewrite <- (rq_view_length q Hq).
  destruct (rq_view q) as [|f l] eqn:Hv; [done|]. simpl.
  assert (Hf : rq_view q !! 0%nat = Some f) by (by rewrite Hv). rewrite rq_view_lookup in Hf by done. case_decide; [|done].
  unfold slot in Hf. rewrite Nat.add_0_r in Hf. unfold rq_wrap in Hf. pose proof (qw_head _ Hq).
  rewrite (proj2 (Nat.leb_gt _ _)) in Hf by done. by rewrite (index_Some _ _ _ Hf).
Qed.

Lemma rq_drop_front_spec q : rq_wf q → rq_wf (rq_drop_front N q) ∧ rq_view (rq_drop_front N q) = tail (rq_view q).
Proof using HN.
  intros Hq. unfold rq_drop_front. pose proof (rq_view_length q Hq) as Hlen.
  destruct (Nat.eqb_spec (rq_len q) 0) as [H0|H0].
  { split; [done|]. by destruct (rq_view q); [|simpl in *; lia]. }
  set (q' := mk_RxQueue _ _ _). assert (Hq' : rq_wf q').
  { destruct Hq. split; simpl; try done; [|lia]. apply rq_wrap_lt. lia. }
  split; [done|]. apply list_eq. intros i. rewrite lookup_tail, !rq_view_lookup by done.
  pose proof (qw_len _ Hq). pose proof (qw_head _ Hq). subst q'. cbn [rq_len rq_frames].
  destruct (decide (S i < rq_len q)%nat); [rewrite !decide_True by lia|by rewrite !decide_False by lia].
  f_equal. unfold slot, rq_wrap. cbn [rq_head]. repeat case_match; bool_simpl; lia.
Qed.

(** Writing the free slot changes no retained frame. *)
Lemma rq_rx_slot_spec q :
  rq_wf q → let '(q', i) := rq_rx_slot N q in
  rq_wf q' ∧ (rq_len q' < N)%nat ∧ i = rq_tail N q' ∧
  rq_view q' = if (length (rq_view q) =? N)%nat then tail (rq_view q) else rq_view q.
Proof using HN.
  intros Hq. unfold rq_rx_slot. rewrite rq_view_length by done. destruct (Nat.eqb_spec (rq_len q) N) as [Hf|Hf].
  - destruct (rq_drop_front_spec q Hq) as [Hw Hv]. split_and!; try done.
    pose proof (rq_view_length q Hq) as Hl. rewrite <- (rq_view_length _ Hw), Hv. destruct (rq_view q); simpl in *; lia.
  - split_and!; try done. pose proof (qw_len _ Hq). lia.
Qed.

Lemma rq_write_spec {E} q f :
  rq_wf q → (rq_len q < N)%nat → rx_wf f →
  ∃ q', rq_write (E:=E) (rq_tail N q) f q = Ok q' ∧ rq_wf q' ∧ rq_view q' = rq_view q ∧
    (rq_len q' < N)%nat ∧ rq_frames q' !! rq_tail N q' = Some f.
Proof using HN.
  intros Hq Hl Hf. unfold rq_write. assert (Ht : (rq_tail N q < N)%nat) by (apply (slot_lt q); done).
  rewrite put_lt by (by rewrite (qw_frames _ Hq)). eexists. split; [done|].
  set (q' := mk_RxQueue _ _ _).
  assert (Hq' : rq_wf q').
  { destruct Hq. split; simpl; try done; [by rewrite length_insert|]. by apply Forall_insert. }
  split_and!; [done| |done|].
  - apply list_eq. intros i. rewrite !rq_view_lookup by done. change (rq_len q') with (rq_len q).
    case_decide; [|done]. change (rq_frames q') with (<[rq_tail N q := f]> (rq_frames q)).
    rewrite list_lookup_insert_ne; [done|]. intros Heq. change (rq_tail N q) with (slot q (rq_len q)) in Heq.
    change (slot q' i) with (slot q i) in Heq. apply slot_inj in Heq; [lia|done|done|lia].
  - change (rq_tail N q') with (rq_tail N q). apply list_lookup_insert_eq. by rewrite (qw_frames _ Hq).
Qed.

Lemma rq_received_spec {E} q f : rq_frames q !! rq_tail N q = Some f → rq_received (E:=E) N q = Ok f.
Proof using HN. intros H. by apply index_Some. Qed.

Lemma rq_commit_back_spec {E} q f :
  rq_wf q → (rq_len q < N)%nat → rq_frames q !! rq_tail N q = Some f →
  ∃ q', rq_commit_back (E:=E) q = Ok q' ∧ rq_wf q' ∧ rq_view q' = rq_view q ++ [f].
Proof using HN.
  intros Hq Hl Hf. unfold rq_commit_back, inc_len. rewrite (proj2 (Nat.eqb_neq _ _)) by lia. eexists. split; [done|].
  set (q' := mk_RxQueue _ _ _). assert (Hq' : rq_wf q') by (destruct Hq; split; simpl; done || lia).
  split; [done|]. apply list_eq. intros i. rewrite rq_view_lookup by done.
  change (rq_len q') with (rq_len q + 1)%nat. change (rq_frames q') with (rq_frames q).
  change (slot q' i) with (slot q i). pose proof (rq_view_length q Hq) as Hlen.
  destruct (decide (i < rq_len q)%nat) as [Hi|Hi].
  - rewrite lookup_app_l, rq_view_lookup, !decide_True by (done || lia). done.
  - rewrite lookup_app_r, Hlen by lia. destruct (decide (i = rq_len q)) as [->|Hne].
    + by rewrite decide_True, Nat.sub_diag by lia.
    + rewrite decide_False by lia. destruct (i - rq_len q)%nat eqn:Hd; [lia|done].
Qed.

Lemma rq_commit_front_spec {E} q f :
  rq_wf q → (rq_len q < N)%nat → rq_frames q !! rq_tail N q = Some f →
  ∃ q', rq_commit_front (E:=E) N q = Ok q' ∧ rq_wf q' ∧ rq_view q' = f :: rq_view q.
Proof using HN.
  intros Hq Hl Hf. unfold rq_commit_front, inc_len. rewrite (index_Some _ _ _ Hf). cbn [mbind outcome_bind].
  set (h := rq_wrap N (rq_head q + N - 1)). pose proof (qw_head _ Hq) as Hh.
  assert (Hlt : (h < N)%nat) by (apply rq_wrap_lt; lia).
  rewrite put_lt by (by rewrite (qw_frames _ Hq)). rewrite (proj2 (Nat.eqb_neq _ _)) by lia. eexists. split; [done|].
  set (q' := mk_RxQueue _ _ _).
  assert (Hq' : rq_wf q').
  { destruct Hq. split; simpl; try done; [by rewrite length_insert|lia|].
    apply Forall_insert; [done|]. by eapply Forall_lookup_1. }
  split; [done|]. apply list_eq. intros i. rewrite rq_view_lookup by done.
  change (rq_len q') with (rq_len q + 1)%nat. change (rq_frames q') with (<[h := f]> (rq_frames q)).
  destruct i as [|i].
  - rewrite decide_True by lia. replace (slot q' 0) with h.
    { rewrite list_lookup_insert_eq; [done|]. by rewrite (qw_frames _ Hq). }
    unfold slot, q', rq_wrap. cbn [rq_head]. rewrite Nat.add_0_r. by rewrite (proj2 (Nat.leb_gt _ _)).
  - cbn [lookup list_lookup]. change (list_lookup i (rq_view q)) with (rq_view q !! i). rewrite rq_view_lookup by done.
    destruct (decide (i < rq_len q)%nat); [rewrite decide_True by lia|by rewrite decide_False by lia].
    assert (Hsl : slot q' (S i) = slot q i).
    { unfold slot, q', h, rq_wrap. cbn [rq_head]. repeat case_match; bool_simpl; lia. }
    rewrite Hsl, list_lookup_insert_ne; [done|]. intros Heq.
    assert (h = slot q (N - 1)) as Hh1 by (unfold h, slot; f_equal; lia).
    rewrite Hh1 in Heq. apply slot_inj in Heq; [lia|done|lia|lia].
Qed.

(** The shift of [remove] moves each of the older frames one slot on. *)
Lemma shift_frames_spec {E} q n frames :
  rq_wf q → length frames = N → (n < N)%nat →
  ∃ frames', shift_frames (E:=E) N n (slot q n) frames = Ok frames' ∧ length frames' = N ∧
    (Forall rx_wf frames → Forall rx_wf frames') ∧
    (∀ j, (0 < j <= n)%nat → frames' !! slot q j = frames !! slot q (j - 1)) ∧
    (∀ j, (n < j < N)%nat → frames' !! slot q j = frames !! slot q j).
Proof using HN.
  intros Hq. revert frames. induction n as [|n IH]; intros frames Hlen Hn.
  { exists frames. split_and!; try done; intros; lia. }
  pose proof (qw_head _ Hq) as Hh.
  assert (Hprev : rq_wrap N (slot q (S n) + N - 1) = slot q n).
  { unfold slot, rq_wrap. repeat case_match; bool_simpl; lia. }
  cbn [shift_frames]. rewrite Hprev.
  destruct (lookup_lt_is_Some_2 frames (slot q n)) as [f Hf]; [rewrite Hlen; apply slot_lt; [done|lia]|].
  rewrite (index_Some _ _ _ Hf). cbn [mbind outcome_bind].
  assert (Hs : (slot q (S n) < length frames)%nat) by (rewrite Hlen; by apply slot_lt).
  rewrite put_lt by done. cbn [mbind outcome_bind].
  destruct (IH (<[slot q (S n) := f]> frames)) as (frames' & Hsh & Hl' & Hwf & Hin & Hout); [by rewrite length_insert|lia|].
  exists frames'. split; [done|]. split; [done|]. split.
  { intros Ha. apply Hwf, Forall_insert; [done|]. by eapply Forall_lookup_1. }
  assert (Hother : ∀ i, (i < N)%nat → i ≠ S n → <[slot q (S n) := f]> frames !! slot q i = frames !! slot q i).
  { intros i Hi Hne. apply list_lookup_insert_ne. intros Heq. by apply slot_inj in Heq. }
  split.
  - intros j Hj. destruct (decide (j = S n)) as [->|Hne].
    + rewrite Hout, list_lookup_insert_eq by (done || lia). by replace (S n - 1)%nat with n by lia.
    + rewrite Hin by lia. apply Hother; lia.
  - intros j Hj. rewrite Hout by lia. apply Hother; lia.
Qed.

Lemma rq_remove_spec {E} q i :
  rq_wf q → (i < rq_len q)%nat →
  ∃ q', rq_remove (E:=E) N i q = Ok q' ∧ rq_wf q' ∧ rq_view q' = delete i (rq_view q).
Proof using HN.
  intros Hq Hi. pose proof (qw_len _ Hq) as Hl. unfold rq_remove. change (rq_wrap N (rq_head q + i)) with (slot q i).
  destruct (shift_frames_spec (E:=E) q i (rq_frames q)) as (frames & -> & Hlen & Hwf & Hin & Hout); [done|apply Hq|lia|].
  cbn [mbind outcome_bind]. set (q1 := mk_RxQueue frames _ _).
  assert (Hq1 : rq_wf q1) by (destruct Hq; split; simpl; auto).
  destruct (rq_drop_front_spec q1 Hq1) as [Hw Hv]. eexists. split; [done|]. split; [done|].
  rewrite Hv. apply list_eq. intros j. rewrite lookup_tail, rq_view_lookup by done.
  change (rq_len q1) with (rq_len q). change (rq_frames q1) with frames. change (slot q1 (S j)) with (slot q (S j)).
  destruct (decide (j < i)%nat) as [Hj|Hj].
  - rewrite list_lookup_delete_lt, rq_view_lookup, !decide_True by (done || lia).
    rewrite Hin by lia. by replace (S j - 1)%nat with j by lia.
  - rewrite list_lookup_delete_ge, rq_view_lookup by (done || lia). case_decide; [|done]. apply Hout. lia.
Qed.
End Refinement.

#[export] Hint Resolve rq_view_wf : exec.

(** * The queue as an abstract data type *)

(** The operations of the MAC on the queue: a frame is received and then
    dropped, kept as newest or kept as oldest; the oldest is taken; one is
    removed; all are. *)
Inductive rq_op :=
| RqReceive (f : PhyRxFrame) (keep : option bool)
| RqPop
| RqRemove (i : nat)
| RqClear.

Definition rq_step (N : nat) (op : rq_op) (q : RxQueue) : outcome unit (option PhyRxFrame * RxQueue) :=
  match op with
  | RqReceive f keep =>
      let '(q, slot) := rq_rx_slot N q in
      q ← rq_write slot f q;
      got ← rq_received N q;
      match keep with
      | None => Ok (Some got, q)
      | Some true => q ← rq_commit_back q; Ok (Some got, q)
      | Some false => q ← rq_commit_front N q; Ok (Some got, q)
      end
  | RqPop => rq_pop_front N q
  | RqRemove i => if (i <? rq_len q)%nat then q ← rq_remove N i q; Ok (None, q) else Ok (None, q)
  | RqClear => Ok (None, rq_clear q)
  end.

(** A list of at most [N] frames that gives up its oldest one for a new one. *)
Definition fifo_step (N : nat) (op : rq_op) (l : list PhyRxFrame) : option PhyRxFrame * list PhyRxFrame :=
  match op with
  | RqReceive f keep =>
      let l := if (length l =? N)%nat then tail l else l in
      (Some f, match keep with None => l | Some true => l ++ [f] | Some false => f :: l end)
  | RqPop => (head l, tail l)
  | RqRemove i => (None, delete i l)
  | RqClear => (None, [])
  end.

Definition rq_op_wf (op : rq_op) : Prop := match op with RqReceive f _ => rx_wf f | _ => True end.

Fixpoint rq_run (N : nat) (ops : list rq_op) (q : RxQueue) : outcome unit (list (option PhyRxFrame)) :=
  match ops with
  | [] => Ok []
  | op :: ops => '(a, q) ← rq_step N op q; rest ← rq_run N ops q; Ok (a :: rest)
  end.

Fixpoint fifo_run (N : nat) (ops : list rq_op) (l : list PhyRxFrame) : list (option PhyRxFrame) :=
  match ops with
  | [] => []
  | op :: ops => let '(a, l) := fifo_step N op l in a :: fifo_run N ops l
  end.

Lemma rq_step_refines N q op :
  (0 < N <= 255)%nat → rq_wf N q → rq_op_wf op →
  ∃ a q', rq_step N op q = Ok (a, q') ∧ rq_wf N q' ∧ fifo_step N op (rq_view N q) = (a, rq_view N q').
Proof.
  intros HN Hq Hop. destruct op as [f keep| |i|]; cbn [rq_step fifo_step rq_op_wf] in *.
  - pose proof (rq_rx_slot_spec N HN q Hq) as Hs. destruct (rq_rx_slot N q) as [q1 s]. destruct Hs as (H1 & Hl & -> & Hv).
    destruct (rq_write_spec (E:=unit) N HN q1 f H1 Hl Hop) as (q2 & -> & H2 & Hv2 & Hl2 & Hf). cbn [mbind outcome_bind].
    rewrite (rq_received_spec N HN q2 f Hf). cbn [mbind outcome_bind]. rewrite <- Hv, <- Hv2. destruct keep as [[]|].
    + destruct (rq_commit_back_spec (E:=unit) N HN q2 f H2 Hl2 Hf) as (q3 & -> & H3 & <-). by eexists _, _.
    + destruct (rq_commit_front_spec (E:=unit) N HN q2 f H2 Hl2 Hf) as (q3 & -> & H3 & <-). by eexists _, _.
    + by eexists _, _.
  - unfold rq_pop_front. rewrite (rq_front_spec N) by done. cbn [mbind outcome_bind].
    destruct (rq_drop_front_spec N HN q Hq) as [H1 Hv].
    destruct (rq_view N q) as [|f l] eqn:Hl; cbn [head]; eexists _, _; (split; [done|]); [by rewrite Hl|by rewrite Hv].
  - destruct (Nat.ltb_spec i (rq_len q)) as [Hi|Hi].
    + destruct (rq_remove_spec (E:=unit) N HN q i Hq Hi) as (q' & -> & H1 & <-). by eexists _, _.
    + eexists _, _. split; [done|]. split; [done|]. f_equal. rewrite delete_take_drop, take_ge, drop_ge, app_nil_r;
        rewrite ?rq_view_length by done; done || lia.
  - destruct (rq_clear_wf N HN q Hq) as [H1 <-]. by eexists _, _.
Qed.

(** Over any history the ring of retained frames answers as the list does:
    frames come out oldest first, a poll response comes out next, a removed
    frame leaves the others in order, a full queue gives up its oldest frame
    only, and nothing aborts. *)
Theorem rx_queue_refines_fifo N ops :
  (0 < N <= 255)%nat → Forall rq_op_wf ops → rq_run N ops (rq_new N) = Ok (fifo_run N ops []).
Proof.
  intros HN Hops. destruct (rq_new_wf N HN) as [Hq <-]. revert Hq. generalize (rq_new N).
  induction Hops as [|op ops Hop _ IH]; intros q Hq; [done|]. cbn [rq_run fifo_run].
  destruct (rq_step_refines N q op HN Hq Hop) as (a & q' & -> & Hq' & ->). cbn [mbind outcome_bind].
  by rewrite IH.
Qed.

Definition ex_frame (b : Z) : PhyRxFrame := mk_PhyRxFrame (b :: repeat 0 124) 1 b.

Lemma rx_queue_refines_fifo_witness :
  rq_run 2 [RqReceive (ex_frame 1) (Some true); RqReceive (ex_frame 2) (Some true); RqReceive (ex_frame 3) (Some false);
            RqPop; RqPop; RqPop] (rq_new 2) =
    Ok [Some (ex_frame 1); Some (ex_frame 2); Some (ex_frame 3); Some (ex_frame 3); Some (ex_frame 2); None].
Proof.
  refine (rx_queue_refines_fifo 2 [RqReceive (ex_frame 1) (Some true); RqReceive (ex_frame 2) (Some true);
    RqReceive (ex_frame 3) (Some false); RqPop; RqPop; RqPop] _ _); [lia|].
  repeat constructor.
Defined.
