(* ===== verification/SoftMac.v ===== *)
(** * SoftMac: the software MAC

    [zigbee-mac/src/soft_mac.rs]: transmission with CSMA-CA and retries, the
    receive window, association, polling, scanning and the information base,
    over a radio ([RadioPhy] of [phy.rs] with the clock and delay of the
    platform) and a role ([MacRole]).  The source's asynchronous methods run to
    completion here: an await is a call of the radio, which may return
    anything its laws allow; a caller that drops a future half way is not
    modelled. *)

From S2P Require Import Prelude Effects ZigbeeTypes MacFrames MacPib MacRxQueue.

Local Open Scope Z_scope.

(** * The radio interface *)

(** [P::Tx]: who backs off, waits for the acknowledgement and retries. *)
Inductive TxLevel := SoftwareTx | AckWaitTx | FullTx.

Record PhyAddressFilter := mk_PhyAddressFilter {
  paf_pan_id : PanId; paf_short_address : ShortAddress; paf_extended_address : IeeeAddress }.
Record PhyCapabilities := mk_PhyCapabilities {
  pc_hardware_auto_ack : bool; pc_hardware_address_filter : bool; pc_tx_power_min : Z; pc_tx_power_max : Z }.
Record AckResult := mk_AckResult { ack_frame_pending : bool }.
Record TxParams := mk_TxParams {
  tp_max_csma_backoffs : Z; tp_min_be : Z; tp_max_be : Z; tp_max_frame_retries : Z }.

Definition ack_default : AckResult := mk_AckResult false.

(** [RadioPhy], with [monotonic_micros] and [delay_micros] of
    [PlatformServices].  [phy_receive] gets the slot it writes and returns what
    it left there.  Reading the clock lets time pass, so it returns the radio
    too. *)
Class RadioPhy (P : Type) := {
  phy_tx : TxLevel;
  POLL_RESPONSE_WAIT_US : Z;
  POLL_EXTENDED_FALLBACK : bool;
  DEFAULT_TX_POWER_DBM : Z;
  phy_poll_response_wait_us : P → Z;
  phy_capabilities : P → PhyCapabilities;
  phy_try_transmit : list Z → stm P PhyError unit;
  phy_send_ack : Z → bool → stm P PhyError unit;
  phy_receive : Z → PhyRxFrame → P → outcome PhyError bool * PhyRxFrame * P;
  phy_set_channel : Z → stm P PhyError unit;
  phy_set_tx_power : Z → stm P PhyError unit;
  phy_energy_detect : Z → stm P PhyError Z;
  phy_set_address_filter : option PhyAddressFilter → stm P PhyError unit;
  phy_try_transmit_acknowledged : list Z → stm P PhyError (option AckResult);
  phy_transmit_offloaded : list Z → bool → TxParams → stm P PhyError (option AckResult);
  phy_set_ack_frame_pending : MacAddress → bool → stm P PhyError unit;
  phy_clear_ack_frame_pending : P → P;
  phy_set_rx_on_when_idle : bool → P → P;
  phy_sleep : stm P PhyError unit;
  phy_wake : stm P PhyError unit;
  phy_monotonic_micros : P → Z * P;
  phy_delay_micros : Z → P → P }.

(** [MacRole] *)
Class MacRole (R : Type) := {
  PARENT : bool;
  new_role : R;
  frame_pending_for : R → MacAddress → bool;
  queue_command : ∀ {E}, list Z → Z → R → outcome E R;
  take_service_request : R → bool * R;
  clear_role : R → R }.

Inductive EndDevice := end_device.
#[export] Instance EndDevice_role : MacRole EndDevice := {
  PARENT := false;
  new_role := end_device;
  frame_pending_for _ _ := false;
  queue_command _ _ _ r := Ok r;
  take_service_request r := (false, r);
  clear_role r := r }.

(** * Requests and confirms *)

Record TxOptions := mk_TxOptions {
  to_ack_tx : bool; to_indirect : bool; to_security_enabled : bool; to_frame_pending : bool }.
Record McpsDataRequest := mk_McpsDataRequest {
  dr_src_addr_mode : AddressMode; dr_dst_address : MacAddress; dr_payload : list Z; dr_msdu_handle : Z;
  dr_tx_options : TxOptions }.
Record McpsDataConfirm := mk_McpsDataConfirm { dc_msdu_handle : Z; dc_timestamp : option Z }.
Record McpsDataIndication := mk_McpsDataIndication {
  ind_src_address : MacAddress; ind_dst_address : MacAddress; ind_lqi : Z; ind_payload : MacFrame;
  ind_security_use : bool }.
Record MlmeAssociateRequest := mk_MlmeAssociateRequest {
  asr_channel : Z; asr_coord_address : MacAddress; asr_capability_info : CapabilityInfo }.
Record MlmeAssociateConfirm := mk_MlmeAssociateConfirm { asc_short_address : ShortAddress; asc_status : AssociationStatus }.
Record MlmeDisassociateRequest := mk_MlmeDisassociateRequest {
  dis_device_address : MacAddress; dis_reason : DisassociateReason; dis_tx_indirect : bool }.

Inductive ScanType := ScanEd | ScanActive | ScanPassive | ScanOrphan.
#[export] Instance ScanType_eq_dec : EqDecision ScanType.
Proof. solve_decision. Defined.
Record MlmeScanRequest := mk_MlmeScanRequest {
  scr_scan_type : ScanType; scr_channel_mask : ChannelMask; scr_scan_duration : Z }.
Record EdValue := mk_EdValue { ed_channel : Z; ed_energy : Z }.
Record MlmeScanConfirm := mk_MlmeScanConfirm {
  scc_scan_type : ScanType; scc_pan_descriptors : list PanDescriptor; scc_energy_list : list EdValue }.
Definition MAX_PAN_DESCRIPTORS : nat := 16.
Definition MAX_ED_VALUES : nat := 16.

(** [let _ = vec.push(x)] with capacity [cap] *)
Definition push_ignore {A} (cap : nat) (l : list A) (x : A) : list A :=
  if (length l <? cap)%nat then l ++ [x] else l.

(** A parser's [Option]: no value is no error. *)
Definition as_option {E A} (m : fallible A) : outcome E (option A) :=
  match m with Ok a => Ok (Some a) | Err _ => Ok None | Panic => Panic end.

Definition map_outcome_err {E F A} (f : E → F) (m : outcome E A) : outcome F A :=
  match m with Ok a => Ok a | Err e => Err (f e) | Panic => Panic end.

Definition UNIT_BACKOFF_PERIOD_US : Z := 320.
Definition ACK_WAIT_US : Z := 1200.
Definition ASSOCIATION_DIRECT_WAIT_US : Z := 500000.
Definition DEFAULT_POLL_RESPONSE_WAIT_US : Z := 30000.
Definition POST_ASSOCIATION_RX_US : Z := 250000.
Definition ASSOCIATION_POLL_DELAY_US : Z := 100000.
Definition DATA_INDICATION_WAIT_US : Z := 1000000.
Definition MAX_ASSOCIATION_POLLS : Z := 32.
Definition MAX_RX_FRAMES : nat := 256.
Definition U32_MAX : Z := 4294967295.

(** What a window waits for; the descriptors a scan collects travel with it. *)
Inductive Want :=
| WantRetained
| WantAck (sequence : Z)
| WantPollResponse
| WantAssocResponse
| WantBeacons (channel : Z) (descriptors : list PanDescriptor).

Inductive Heard :=
| HeardAck (ack : AckResult)
| HeardQueued
| HeardAssociation (address : ShortAddress) (status : Z).

Definition phy_error (error : PhyError) : MacError :=
  match error with
  | ChannelBusy => MacChannelAccessFailure
  | InvalidChannel => MacInvalidParameter
  | PhyFrameTooLong => MacFrameTooLong
  | CrcFailed | Hardware => MacRadioError
  | PhyUnsupported => MacUnsupported
  end.

Definition pib_error (error : PibError) : MacError :=
  match error with PibInvalidValue | PibReadOnly => MacInvalidParameter end.

Definition address_filter (pib : MacPib) : option PhyAddressFilter :=
  if pib_promiscuous pib then None
  else Some (mk_PhyAddressFilter (pib_pan_id pib) (pib_short_address pib) (pib_extended_address pib)).

(** [existing] and [descriptor] are beacons of the same device. *)
Definition same_pan (descriptor existing : PanDescriptor) : bool :=
  (pd_channel existing =? pd_channel descriptor)
  && bool_decide (pd_coord_address existing = pd_coord_address descriptor)
  && bool_decide (zb_extended_pan_id (pd_zigbee_beacon existing) = zb_extended_pan_id (pd_zigbee_beacon descriptor)).

Definition upsert_pan_descriptor (descriptors : list PanDescriptor) (descriptor : PanDescriptor) : list PanDescriptor :=
  if bool_decide (is_Some (position (same_pan descriptor) descriptors)) then
    modify_first (same_pan descriptor)
      (λ existing, if pd_lqi existing <? pd_lqi descriptor then descriptor else existing) descriptors
  else push_ignore MAX_PAN_DESCRIPTORS descriptors descriptor.

(** * The MAC *)

Record SoftMacCore (P R : Type) := mk_SoftMacCore {
  sm_phy : P;
  sm_pib : MacPib;
  sm_pending_rx : RxQueue;
  sm_pending_error : option MacError;
  sm_random_state : Z;
  sm_role : R }.
Arguments mk_SoftMacCore {P R}.
Arguments sm_phy {P R}.
Arguments sm_pib {P R}.
Arguments sm_pending_rx {P R}.
Arguments sm_pending_error {P R}.
Arguments sm_random_state {P R}.
Arguments sm_role {P R}.

Section Core.
Context {P R : Type} {HP : RadioPhy P} {HR : MacRole R} (RX : nat).

Local Abbreviation core := (SoftMacCore P R).
Local Abbreviation mac := (stm core MacError).

Definition with_phy (p : P) (s : core) : core :=
  mk_SoftMacCore p (sm_pib s) (sm_pending_rx s) (sm_pending_error s) (sm_random_state s) (sm_role s).
Definition with_pib (p : MacPib) (s : core) : core :=
  mk_SoftMacCore (sm_phy s) p (sm_pending_rx s) (sm_pending_error s) (sm_random_state s) (sm_role s).
Definition with_rx (q : RxQueue) (s : core) : core :=
  mk_SoftMacCore (sm_phy s) (sm_pib s) q (sm_pending_error s) (sm_random_state s) (sm_role s).
Definition with_error (e : option MacError) (s : core) : core :=
  mk_SoftMacCore (sm_phy s) (sm_pib s) (sm_pending_rx s) e (sm_random_state s) (sm_role s).
Definition with_random (r : Z) (s : core) : core :=
  mk_SoftMacCore (sm_phy s) (sm_pib s) (sm_pending_rx s) (sm_pending_error s) r (sm_role s).
Definition with_role (r : R) (s : core) : core :=
  mk_SoftMacCore (sm_phy s) (sm_pib s) (sm_pending_rx s) (sm_pending_error s) (sm_random_state s) r.

(** A field of the state. *)
Definition gets {A} (f : core → A) : mac A := λ s, (Ok (f s), s).

(** A radio operation: its result as a value, and with its error mapped. *)
Definition phy_result {A} (m : stm P PhyError A) : mac (A + PhyError) := λ s,
  match m (sm_phy s) with
  | (Ok a, p) => (Ok (inl a), with_phy p s)
  | (Err e, p) => (Ok (inr e), with_phy p s)
  | (Panic, p) => (Panic, with_phy p s)
  end.
Definition phy_op {A} (m : stm P PhyError A) : mac A := λ s,
  let '(r, p) := m (sm_phy s) in (map_outcome_err phy_error r, with_phy p s).
Definition phy_do (f : P → P) : mac unit := modify_st (λ s, with_phy (f (sm_phy s)) s).

Definition monotonic_micros : mac Z := λ s,
  let '(t, p) := phy_monotonic_micros (sm_phy s) in (Ok t, with_phy p s).

(** [self.pib.next_dsn()] and [next_bsn()] *)
Definition take_dsn : mac Z := λ s, let '(n, pib) := next_dsn (sm_pib s) in (Ok n, with_pib pib s).
Definition take_bsn : mac Z := λ s, let '(n, pib) := next_bsn (sm_pib s) in (Ok n, with_pib pib s).

(** A computation on the queue. *)
Definition on_rx {A} (m : outcome MacError (A * RxQueue)) : mac A := λ s,
  match m with
  | Ok (a, q) => (Ok a, with_rx q s)
  | Err e => (Err e, s)
  | Panic => (Panic, s)
  end.

(** ** Configuration *)

Definition apply_full_config (pib : MacPib) : stm P PhyError unit :=
  phy_set_channel (pib_current_channel pib) ;;
  phy_set_tx_power (pib_transmit_power pib) ;;
  phy_set_address_filter (address_filter pib) ;;
  modify_st (phy_set_rx_on_when_idle (pib_rx_on_when_idle pib)).

Definition apply_changed_config (attr : PibAttribute) : mac unit :=
  pib ← gets sm_pib;
  match attr with
  | PhyCurrentChannel => phy_op (phy_set_channel (pib_current_channel pib))
  | PhyTransmitPower => phy_op (phy_set_tx_power (pib_transmit_power pib))
  | MacShortAddress | MacPanId | MacExtendedAddress | MacPromiscuousMode =>
      phy_op (phy_set_address_filter (address_filter pib))
  | MacRxOnWhenIdle => phy_do (phy_set_rx_on_when_idle (pib_rx_on_when_idle pib))
  | _ => mret ()
  end.

Definition u32_from_le (a b c d : Z) : Z := a + b * 256 + c * 65536 + d * 16777216.

Definition random_seed {E} (pib : MacPib) : outcome E Z :=
  match pib_extended_address pib with
  | [a0; a1; a2; a3; a4; a5; a6; a7] =>
      Ok (Z.max 1 (Z.lxor (Z.lxor (Z.lxor (Z.lxor (u32_from_le a0 a1 a2 a3) (u32_from_le a4 a5 a6 a7)) (pib_dsn pib))
        (Z.shiftl (pib_bsn pib) 8)) 0x9E3779B9))
  | _ => Panic
  end.

Definition new_custom (phy : P) (pib : MacPib) : outcome MacError core :=
  match apply_full_config pib phy with
  | (Ok _, phy) =>
      random_state ← random_seed pib;
      Ok (mk_SoftMacCore phy pib (rq_new RX) None random_state new_role)
  | (Err e, _) => Err (phy_error e)
  | (Panic, _) => Panic
  end.

Definition get_pib (attr : PibAttribute) (s : core) : PibValue := pib_get (sm_pib s) attr.

(** [self.pib.set(attr, value)] *)
Definition pib_store (attr : PibAttribute) (value : PibValue) : mac unit := λ s,
  match pib_set attr value (sm_pib s) with
  | Ok pib => (Ok (), with_pib pib s)
  | Err e => (Err (pib_error e), s)
  | Panic => (Panic, s)
  end.

Definition set_pib (attr : PibAttribute) (value : PibValue) : mac unit :=
  previous ← gets (get_pib attr);
  pib_store attr value ;;
  result ← try_st (apply_changed_config attr);
  match result with
  | inl _ => mret ()
  | inr error => try_st (pib_store attr previous) ;; throw error
  end.

Definition clear_role_state : mac unit :=
  if PARENT then
    modify_st (λ s, with_role (clear_role (sm_role s)) s) ;;
    caps ← gets (λ s, phy_capabilities (sm_phy s));
    if pc_hardware_auto_ack caps then phy_do phy_clear_ack_frame_pending else mret ()
  else mret ().

Definition reset_pib (dsn bsn : Z) : mac unit :=
  extended ← gets (λ s, pib_extended_address (sm_pib s));
  next ← (let fresh := pib_new extended dsn bsn in
          if negb (DEFAULT_TX_POWER_DBM =? 0)
          then lift (map_outcome_err pib_error (pib_set PhyTransmitPower (PvI8 DEFAULT_TX_POWER_DBM) fresh))
          else mret fresh);
  phy_op (apply_full_config next) ;;
  modify_st (with_pib next) ;;
  modify_st (λ s, with_rx (rq_clear (sm_pending_rx s)) s) ;;
  modify_st (with_error None) ;;
  random_state ← lift (random_seed next);
  modify_st (with_random random_state) ;;
  clear_role_state.

Definition take_pending_rx : mac (option PhyRxFrame) :=
  q ← gets sm_pending_rx; on_rx (rq_pop_front RX q).

Definition accepts_destination (destination : MacAddress) (pib : MacPib) : bool :=
  if pib_promiscuous pib then true
  else match destination with
  | MacShort pan_id address =>
      ((pan_id =? pib_pan_id pib) || (pan_id =? 0xFFFF))
      && ((address =? pib_short_address pib) || (address =? 0xFFFF))
  | MacExtended pan_id address =>
      ((pan_id =? pib_pan_id pib) || (pan_id =? 0xFFFF)) && bool_decide (address = pib_extended_address pib)
  end.

Definition exact_destination (destination : MacAddress) (pib : MacPib) : bool :=
  match destination with
  | MacShort pan_id address =>
      negb (address =? 0xFFFF) && (pan_id =? pib_pan_id pib) && (address =? pib_short_address pib)
  | MacExtended pan_id address => (pan_id =? pib_pan_id pib) && bool_decide (address = pib_extended_address pib)
  end.

Definition set_channel (channel : Z) : mac unit :=
  if negb ((11 <=? channel) && (channel <=? 26)) then throw MacInvalidParameter
  else
    phy_op (phy_set_channel channel) ;;
    modify_st (λ s, with_pib (set_current_channel channel (sm_pib s)) s).

Definition set_addresses (pan_id : PanId) (short_address : ShortAddress) : mac unit :=
  pib ← gets sm_pib;
  let filter := if pib_promiscuous pib then None
                else Some (mk_PhyAddressFilter pan_id short_address (pib_extended_address pib)) in
  phy_op (phy_set_address_filter filter) ;;
  modify_st (λ s, with_pib (set_short_address short_address (set_pan_id pan_id (sm_pib s))) s).

Definition tx_params (pib : MacPib) : TxParams :=
  mk_TxParams (pib_max_csma_backoffs pib) (pib_min_be pib) (pib_max_be pib) (pib_max_frame_retries pib).

(** ** Receiving *)

(** [self.phy.receive(remaining, self.pending_rx.rx_slot())] *)
Definition receive_frame (remaining : Z) : mac (bool + PhyError) := λ s,
  let '(q, slot) := rq_rx_slot RX (sm_pending_rx s) in
  match index (E:=MacError) (rq_frames q) slot with
  | Ok buf =>
      let '(r, buf, p) := phy_receive remaining buf (sm_phy s) in
      match rq_write (E:=MacError) slot buf q with
      | Ok q =>
          let s := with_rx q (with_phy p s) in
          match r with
          | Ok b => (Ok (inl b), s)
          | Err e => (Ok (inr e), s)
          | Panic => (Panic, s)
          end
      | _ => (Panic, s)
      end
  | _ => (Panic, s)
  end.

Definition is_from_coordinator (source : MacAddress) (pib : MacPib) : bool :=
  match source with
  | MacShort pan_id address =>
      (pib_coord_short_address pib <? 0xFFF8) && (address =? pib_coord_short_address pib)
      && (pan_id =? pib_pan_id pib)
  | MacExtended _ address =>
      negb (bool_decide (pib_coord_extended_address pib = all_zeros))
      && bool_decide (address = pib_coord_extended_address pib)
  end.

Definition commit_back : mac unit :=
  q ← gets sm_pending_rx; on_rx (q ← rq_commit_back q; Ok ((), q)).
Definition commit_front : mac unit :=
  q ← gets sm_pending_rx; on_rx (q ← rq_commit_front RX q; Ok ((), q)).

(** The acknowledgement to send, and what ends the window. *)
Definition accept (want : Want) : mac (option (Z * bool) * option Heard * Want) :=
  s ← get_st;
  frame ← lift (rq_received RX (sm_pending_rx s));
  data ← lift (rx_as_slice frame);
  if (length data <? 3)%nat then mret (None, None, want)
  else
    control ← lift (index data 0);
    sequence ← lift (index data 2);
    let kind := Z.land control 0x07 in
    match want with
    | WantBeacons channel descriptors =>
        if kind =? 0x00 then
          found ← lift (as_option (parse_beacon channel data (rf_lqi frame)));
          match found with
          | Some descriptor => mret (None, None, WantBeacons channel (upsert_pan_descriptor descriptors descriptor))
          | None => mret (None, None, want)
          end
        else mret (None, None, want)
    | _ =>
        if kind =? 0x02 then
          let heard := match want with
            | WantAck expected =>
                if sequence =? expected then Some (HeardAck (mk_AckResult (has_bits control (Z.shiftl 1 4)))) else None
            | _ => None
            end in
          mret (None, heard, want)
        else
          let command := kind =? 0x03 in
          if negb (kind =? 0x01) && negb command then mret (None, None, want)
          else
            '(source, destination, payload_offset, _) ← lift (parse_mac_addresses data);
            if (payload_offset <? 3)%nat || (length data <? payload_offset)%nat then mret (None, None, want)
            else
              let exact := exact_destination destination (sm_pib s) in
              let ack :=
                if has_bits control (Z.shiftl 1 5) && exact
                   && negb (pc_hardware_auto_ack (phy_capabilities (sm_phy s)))
                then Some (sequence, PARENT && command && frame_pending_for (sm_role s) source) else None in
              let retained := match want with WantRetained => Some HeardQueued | _ => None end in
              association ← (if command && exact then lift (as_option (parse_association_response data)) else mret None);
              heard ←
                match association with
                | Some (address, status) =>
                    match want with
                    | WantAssocResponse => mret (Some (HeardAssociation address status))
                    | _ => commit_back ;; mret None
                    end
                | None =>
                    if negb (accepts_destination destination (sm_pib s)) then mret None
                    else if command then
                      if PARENT then
                        role ← lift (queue_command data (rf_lqi frame) (sm_role s));
                        modify_st (with_role role) ;;
                        mret retained
                      else mret None
                    else if match want with WantPollResponse => true | _ => false end
                            && exact && is_from_coordinator source (sm_pib s) then
                      commit_front ;; mret (Some HeardQueued)
                    else commit_back ;; mret retained
                end;
              mret (ack, heard, want)
    end.

(** [timeout_us.checked_sub(elapsed)] *)
Definition checked_sub (a b : Z) : option Z := if a <? b then None else Some (a - b).

Fixpoint listen_loop (n : nat) (started_at timeout_us : Z) (want : Want) : mac (option Heard * Want) :=
  match n with
  | O => mret (None, want)
  | S n =>
      now ← monotonic_micros;
      match checked_sub timeout_us (wrapping_sub_u32 now started_at) with
      | None => mret (None, want)
      | Some remaining =>
          received ← receive_frame remaining;
          match received with
          | inl false => mret (None, want)
          | inr CrcFailed => listen_loop n started_at timeout_us want
          | inr error => throw (phy_error error)
          | inl true =>
              '(ack, heard, want) ← accept want;
              match ack with
              | Some (sequence, frame_pending) =>
                  sent ← phy_result (phy_send_ack sequence frame_pending);
                  match sent with
                  | inl _ | inr ChannelBusy => mret ()
                  | inr error => throw (phy_error error)
                  end
              | None => mret ()
              end ;;
              match heard with
              | Some _ => mret (heard, want)
              | None => listen_loop n started_at timeout_us want
              end
          end
      end
  end.

Definition listen (timeout_us : Z) (want : Want) : mac (option Heard * Want) :=
  started_at ← monotonic_micros;
  listen_loop MAX_RX_FRAMES started_at timeout_us want.

(** ** Transmitting *)

Definition next_random_u32 : mac Z := λ s,
  let value := sm_random_state s in
  let value := Z.lxor value (as_u32 (Z.shiftl value 13)) in
  let value := Z.lxor value (Z.shiftr value 17) in
  let value := Z.lxor value (as_u32 (Z.shiftl value 5)) in
  (Ok value, with_random (Z.max value 1) s).

(** [(1u16 << exponent) - 1] aborts for an exponent of 16 or more. *)
Definition random_backoff_slots (backoff_exponent : Z) : mac Z :=
  random ← next_random_u32;
  if 16 <=? backoff_exponent then lift Panic
  else mret (Z.land (as_u16 random) (Z.shiftl 1 backoff_exponent - 1)).

(** [loop] of [csma]: the fuel is one attempt more than there are backoffs. *)
Fixpoint csma_loop (fuel : nat) (frame : list Z) (ack_wait : bool) (backoff_count backoff_exponent : Z)
    : mac (option AckResult) :=
  match fuel with
  | O => lift Panic
  | S fuel =>
      slots ← random_backoff_slots backoff_exponent;
      (if negb (slots =? 0) then phy_do (phy_delay_micros (slots * UNIT_BACKOFF_PERIOD_US)) else mret ()) ;;
      result ← (if match phy_tx with AckWaitTx => true | _ => false end && ack_wait
                then phy_result (phy_try_transmit_acknowledged frame)
                else phy_result (phy_try_transmit frame ;; mret (Some ack_default)));
      pib ← gets sm_pib;
      match result with
      | inl ack => mret ack
      | inr error =>
          if match error with ChannelBusy => true | _ => false end && (backoff_count <? pib_max_csma_backoffs pib)
          then csma_loop fuel frame ack_wait (saturating_add_u8 backoff_count 1)
                 (Z.min (saturating_add_u8 backoff_exponent 1) (pib_max_be pib))
          else throw (phy_error error)
      end
  end.

Definition csma (frame : list Z) (ack_wait : bool) : mac (option AckResult) :=
  pib ← gets sm_pib;
  csma_loop (S (Z.to_nat (pib_max_csma_backoffs pib))) frame ack_wait 0 (pib_min_be pib).

(** [TxOffload::transmit] of [SoftwareTx]; [retries] is the loop variable. *)
Fixpoint software_transmit_loop (retries : nat) (frame : list Z) (ack_requested : bool) (sequence : Z) : mac AckResult :=
  csma frame false ;;
  if negb ack_requested then mret ack_default
  else
    '(heard, _) ← listen ACK_WAIT_US (WantAck sequence);
    match heard with
    | Some (HeardAck ack) => mret ack
    | _ =>
        match retries with
        | O => throw MacNoAck
        | S retries => software_transmit_loop retries frame ack_requested sequence
        end
    end.

Definition software_transmit (frame : list Z) (ack_requested : bool) : mac AckResult :=
  sequence ← match ack_requested, frame !! 2%nat with
             | false, _ => mret 0
             | true, Some sequence => mret sequence
             | true, None => throw MacInvalidParameter
             end;
  pib ← gets sm_pib;
  software_transmit_loop (Z.to_nat (pib_max_frame_retries pib)) frame ack_requested sequence.

(** [TxOffload::transmit] of [AckWaitTx] *)
Fixpoint ack_wait_transmit_loop (retries : nat) (frame : list Z) (ack_requested : bool) : mac AckResult :=
  sent ← csma frame ack_requested;
  match sent with
  | Some ack => mret ack
  | None =>
      match retries with
      | O => throw MacNoAck
      | S retries => ack_wait_transmit_loop retries frame ack_requested
      end
  end.

Definition ack_wait_transmit (frame : list Z) (ack_requested : bool) : mac AckResult :=
  if ack_requested && (length frame <? 3)%nat then throw MacInvalidParameter
  else
    pib ← gets sm_pib;
    ack_wait_transmit_loop (Z.to_nat (pib_max_frame_retries pib)) frame ack_requested.

(** [TxOffload::transmit] of [FullTx] *)
Definition full_transmit (frame : list Z) (ack_requested : bool) : mac AckResult :=
  pib ← gets sm_pib;
  sent ← phy_op (phy_transmit_offloaded frame ack_requested (tx_params pib));
  match sent with
  | Some ack => mret ack
  | None => if ack_requested then throw MacNoAck else mret ack_default
  end.

Definition transmit (frame : list Z) (ack_requested : bool) : mac AckResult :=
  match phy_tx with
  | SoftwareTx => software_transmit frame ack_requested
  | AckWaitTx => ack_wait_transmit frame ack_requested
  | FullTx => full_transmit frame ack_requested
  end.

Definition transmit_csma (frame : list Z) : mac unit := transmit frame false ;; mret ().
Definition transmit_acknowledged (frame : list Z) : mac AckResult := transmit frame true.

(** ** Retained frames *)

Definition indication_from (frame : PhyRxFrame) (pib : MacPib) : outcome MacError (option McpsDataIndication) :=
  data ← rx_as_slice frame;
  if (length data <? 3)%nat then Ok None
  else
    control ← index data 0;
    if negb (Z.land control 0x07 =? 0x01) then Ok None
    else
      '(source, destination, payload_offset, security_use) ← parse_mac_addresses data;
      if (payload_offset <? 3)%nat || (length data <? payload_offset)%nat
         || negb (accepts_destination destination pib) then Ok None
      else
        payload ← slice data payload_offset (length data);
        held ← as_option (mac_frame_from_slice payload);
        Ok (match held with
            | Some payload => Some (mk_McpsDataIndication source destination (rf_lqi frame) payload security_use)
            | None => None
            end).

(** [while let Some(frame) = self.pending_rx.front()]: one turn per frame and
    one to stop. *)
Fixpoint take_indication_loop (fuel : nat) (pib : MacPib) (q : RxQueue)
    : outcome MacError (option McpsDataIndication * RxQueue) :=
  match fuel with
  | O => Panic
  | S fuel =>
      front ← rq_front q;
      match front with
      | None => Ok (None, q)
      | Some frame =>
          indication ← indication_from frame pib;
          let q := rq_drop_front RX q in
          match indication with
          | Some _ => Ok (indication, q)
          | None => take_indication_loop fuel pib q
          end
      end
  end.

Definition take_pending_indication : mac (option McpsDataIndication) :=
  s ← get_st;
  on_rx (take_indication_loop (S (rq_len (sm_pending_rx s))) (sm_pib s) (sm_pending_rx s)).

Definition take_pending_data : mac (option MacFrame) :=
  indication ← take_pending_indication; mret (ind_payload <$> indication).

(** [self.pending_error.take()] *)
Definition take_pending_error : mac (option MacError) :=
  e ← gets sm_pending_error; modify_st (with_error None) ;; mret e.

(** ** Association *)

(** The coordinator may be addressed. *)
Definition not_unicast (address : MacAddress) : bool :=
  match address with
  | MacShort _ address => 0xFFF8 <=? address
  | MacExtended _ address => bool_decide (address = all_zeros) || bool_decide (address = all_ones)
  end.

Definition prepare_association (req : MlmeAssociateRequest) : mac unit :=
  pib ← gets sm_pib;
  if bool_decide (pib_extended_address pib = all_zeros) || bool_decide (pib_extended_address pib = all_ones)
     || (mac_pan_id (asr_coord_address req) =? 0xFFFF) || not_unicast (asr_coord_address req)
  then throw MacInvalidParameter
  else
    set_channel (asr_channel req) ;;
    set_addresses (mac_pan_id (asr_coord_address req)) 0xFFFF ;;
    let '(coord_short, coord_extended) :=
      match asr_coord_address req with
      | MacShort _ address => (address, all_zeros)
      | MacExtended _ address => (0xFFFF, address)
      end in
    modify_st (λ s, with_pib (set_associated_pan_coord false (set_coord_extended_address coord_extended
                       (set_coord_short_address coord_short (sm_pib s)))) s) ;;
    modify_st (λ s, with_rx (rq_clear (sm_pending_rx s)) s) ;;
    modify_st (with_error None).

Definition clear_association : mac unit :=
  set_addresses 0xFFFF 0xFFFF ;;
  modify_st (λ s, with_pib (set_associated_pan_coord false (set_coord_extended_address all_zeros
                     (set_coord_short_address 0xFFFF (sm_pib s)))) s) ;;
  modify_st (λ s, with_rx (rq_clear (sm_pending_rx s)) s) ;;
  modify_st (with_error None).

Definition association_response_for_us (frame : PhyRxFrame) (pib : MacPib)
    : outcome MacError (option (ShortAddress * Z)) :=
  data ← rx_as_slice frame;
  '(_, destination, payload_offset, _) ← parse_mac_addresses data;
  if (3 <=? payload_offset)%nat && (payload_offset <=? length data)%nat && exact_destination destination pib
  then as_option (parse_association_response data)
  else Ok None.

(** [(0..len).find_map(..)] *)
Fixpoint find_response (n i : nat) (pib : MacPib) (q : RxQueue)
    : outcome MacError (option (nat * (ShortAddress * Z))) :=
  match n with
  | O => Ok None
  | S n =>
      frame ← rq_get RX i q;
      response ← association_response_for_us frame pib;
      match response with
      | Some response => Ok (Some (i, response))
      | None => find_response n (S i) pib q
      end
  end.

Definition take_pending_association_response : mac (option (ShortAddress * Z)) :=
  s ← get_st;
  on_rx (found ← find_response (rq_len (sm_pending_rx s)) 0 (sm_pib s) (sm_pending_rx s);
         match found with
         | Some (i, response) => q ← rq_remove RX i (sm_pending_rx s); Ok (Some response, q)
         | None => Ok (None, sm_pending_rx s)
         end).

Definition finish_association (response : ShortAddress * Z) : mac MlmeAssociateConfirm :=
  let '(short_address, status) := response in
  let status := if status =? 0x00 then AsSuccess else if status =? 0x01 then AsPanAtCapacity else AsPanAccessDenied in
  (if bool_decide (status = AsSuccess) then
     if 0xFFF8 <=? short_address then throw MacAssociationDenied
     else
       pib ← gets sm_pib;
       set_addresses (pib_pan_id pib) short_address ;;
       modify_st (λ s, with_pib (set_associated_pan_coord true (sm_pib s)) s)
   else mret ()) ;;
  mret (mk_MlmeAssociateConfirm short_address status).

(** [loop] of [associate], from the request at [polls = 0] to the last poll. *)
Fixpoint associate_loop (fuel : nat) (req : MlmeAssociateRequest) (polls : Z) : mac MlmeAssociateConfirm :=
  match fuel with
  | O => lift Panic
  | S fuel =>
      sequence ← take_dsn;
      own ← gets (λ s, pib_extended_address (sm_pib s));
      let frame := if polls =? 0
        then build_association_request sequence (asr_coord_address req) own (asr_capability_info req)
        else build_data_request sequence (asr_coord_address req) own in
      ack ← transmit frame true;
      let wait_us := if polls =? 0 then ASSOCIATION_DIRECT_WAIT_US
                     else if ack_frame_pending ack then POLL_RESPONSE_WAIT_US
                     else DEFAULT_POLL_RESPONSE_WAIT_US in
      pending ← take_pending_association_response;
      response ← match pending with
                 | Some response => mret (Some response)
                 | None =>
                     '(heard, _) ← listen wait_us WantAssocResponse;
                     mret match heard with
                          | Some (HeardAssociation address status) => Some (address, status)
                          | _ => None
                          end
                 end;
      match response with
      | Some response =>
          confirm ← finish_association response;
          (if bool_decide (asc_status confirm = AsSuccess) then
             heard ← try_st (listen POST_ASSOCIATION_RX_US WantPollResponse);
             match heard with
             | inl _ => mret ()
             | inr error => modify_st (with_error (Some error))
             end
           else mret ()) ;;
          mret confirm
      | None =>
          (if negb (polls =? 0) then phy_do (phy_delay_micros ASSOCIATION_POLL_DELAY_US) else mret ()) ;;
          if polls =? MAX_ASSOCIATION_POLLS then throw MacNoData
          else associate_loop fuel req (polls + 1)
      end
  end.

Definition associate (req : MlmeAssociateRequest) : mac MlmeAssociateConfirm :=
  prepare_association req ;;
  associate_loop 33 req 0.

Definition disassociation_notification (req : MlmeDisassociateRequest) : mac (list Z) :=
  pib ← gets sm_pib;
  if dis_tx_indirect req then throw MacUnsupported
  else if (0xFFF8 <=? pib_short_address pib) || negb (mac_pan_id (dis_device_address req) =? pib_pan_id pib)
          || not_unicast (dis_device_address req)
  then throw MacInvalidParameter
  else
    sequence ← take_dsn;
    mret (build_disassociation_notification sequence (dis_device_address req) (pib_short_address pib)
            (pib_extended_address pib) (dis_reason req)).

Definition disassociate (req : MlmeDisassociateRequest) : mac unit :=
  frame ← disassociation_notification req;
  transmit_result ← try_st (transmit frame true);
  clear_association ;;
  match transmit_result with inl _ => mret () | inr error => throw error end.

(** ** Reset and power *)

Definition reset (set_default_pib : bool) : mac unit :=
  if set_default_pib then
    random ← next_random_u32;
    reset_pib (as_u8 random) (as_u8 (Z.shiftr random 8))
  else
    pib ← gets sm_pib;
    phy_op (apply_full_config pib) ;;
    modify_st (λ s, with_rx (rq_clear (sm_pending_rx s)) s) ;;
    modify_st (with_error None) ;;
    clear_role_state.

Definition sleep : mac unit := phy_op phy_sleep.
Definition wake : mac unit :=
  phy_op phy_wake ;;
  pib ← gets sm_pib;
  phy_op (apply_full_config pib).

(** ** Data *)

Definition data_frame (req : McpsDataRequest) : mac (list Z * bool) :=
  pib ← gets sm_pib;
  if to_indirect (dr_tx_options req) then throw MacUnsupported
  else if to_security_enabled (dr_tx_options req) then throw MacSecurityError
  else if bool_decide (dr_src_addr_mode req = AmShort) && (0xFFF8 <=? pib_short_address pib) then throw MacInvalidParameter
  else
    let ack_requested := to_ack_tx (dr_tx_options req)
      && negb match dr_dst_address req with MacShort _ address => address =? 0xFFFF | MacExtended _ _ => false end in
    sequence ← take_dsn;
    frame ← lift (map_outcome_err (λ _, MacFrameTooLong)
              (build_data_frame sequence (dr_src_addr_mode req) (pib_short_address pib) (pib_extended_address pib)
                 (dr_dst_address req) (dr_payload req) ack_requested (to_frame_pending (dr_tx_options req))));
    mret (frame, ack_requested).

Definition send_data (frame : list Z * bool) (msdu_handle : Z) : mac McpsDataConfirm :=
  transmit frame.1 frame.2 ;;
  mret (mk_McpsDataConfirm msdu_handle None).

Definition transmit_data (req : McpsDataRequest) : mac McpsDataConfirm :=
  frame ← data_frame req;
  send_data frame (dr_msdu_handle req).

Definition poll_addresses (pib : MacPib) : outcome MacError (MacAddress * ShortAddress * bool * bool) :=
  let own_short := pib_short_address pib in
  let has_short_source := own_short <? 0xFFF8 in
  let has_extended_source := negb (bool_decide (pib_extended_address pib = all_zeros)) in
  coordinator ←
    (if pib_coord_short_address pib <? 0xFFF8 then Ok (MacShort (pib_pan_id pib) (pib_coord_short_address pib))
     else if negb (bool_decide (pib_coord_extended_address pib = all_zeros))
     then Ok (MacExtended (pib_pan_id pib) (pib_coord_extended_address pib))
     else Err MacInvalidParameter);
  if negb has_short_source && negb has_extended_source then Err MacInvalidParameter
  else Ok (coordinator, own_short, has_short_source, has_extended_source).

(** [loop] of [poll_within]: the second pass polls with the extended source. *)
Fixpoint poll_loop (fuel : nat) (started_at timeout_us : Z) (coordinator : MacAddress) (own_short : ShortAddress)
    (has_short_source has_extended_source short_source : bool) : mac (option MacFrame) :=
  match fuel with
  | O => lift Panic
  | S fuel =>
      sequence ← take_dsn;
      extended ← gets (λ s, pib_extended_address (sm_pib s));
      let request := if short_source then build_data_request_short sequence coordinator own_short
                     else build_data_request sequence coordinator extended in
      sent ← try_st (transmit request true);
      match sent with
      | inr error => if bool_decide (short_source = has_short_source) then throw error else mret None
      | inl ack =>
          now ← monotonic_micros;
          let elapsed := wrapping_sub_u32 now started_at in
          if timeout_us <=? elapsed then mret None
          else
            taken ← take_pending_data;
            match taken with
            | Some frame => mret (Some frame)
            | None =>
                heard ← (if ack_frame_pending ack then
                           window ← gets (λ s, phy_poll_response_wait_us (sm_phy s));
                           '(heard, _) ← listen (Z.min window (timeout_us - elapsed)) WantPollResponse;
                           mret heard
                         else mret None);
                match heard with
                | Some _ => take_pending_data
                | None =>
                    if negb (POLL_EXTENDED_FALLBACK && short_source && has_extended_source) then mret None
                    else poll_loop fuel started_at timeout_us coordinator own_short has_short_source
                           has_extended_source false
                end
            end
      end
  end.

Definition poll_within (timeout_us : Z) : mac (option MacFrame) :=
  started_at ← monotonic_micros;
  taken ← take_pending_data;
  match taken with
  | Some frame => mret (Some frame)
  | None =>
      pending ← take_pending_error;
      match pending with
      | Some error => throw error
      | None =>
          pib ← gets sm_pib;
          '(coordinator, own_short, has_short_source, has_extended_source) ← lift (poll_addresses pib);
          poll_loop 2 started_at timeout_us coordinator own_short has_short_source has_extended_source has_short_source
      end
  end.

Definition poll : mac (option MacFrame) := poll_within U32_MAX.

Fixpoint receive_loop (n : nat) (started_at timeout_us : Z) : mac McpsDataIndication :=
  match n with
  | O => throw MacNoData
  | S n =>
      taken ← take_pending_indication;
      match taken with
      | Some indication => mret indication
      | None =>
          service ← (if PARENT then λ s, let '(b, r) := take_service_request (sm_role s) in (Ok b, with_role r s)
                     else mret false);
          if (service : bool) then throw MacNoData
          else
            pending ← take_pending_error;
            match pending with
            | Some error => throw error
            | None =>
                now ← monotonic_micros;
                match checked_sub timeout_us (wrapping_sub_u32 now started_at) with
                | None => throw MacNoData
                | Some remaining =>
                    '(heard, _) ← listen remaining WantRetained;
                    match heard with
                    | Some _ => receive_loop n started_at timeout_us
                    | None => throw MacNoData
                    end
                end
            end
      end
  end.

Definition receive_data (timeout_us : Z) : mac McpsDataIndication :=
  started_at ← monotonic_micros;
  receive_loop MAX_RX_FRAMES started_at timeout_us.

(** ** Scanning *)

(** The body of [for channel in mask.iter()], leaving the block on an error. *)
Fixpoint scan_channels (channels : list Channel) (scan_type : ScanType) (duration_us : Z)
    (descriptors : list PanDescriptor) (energies : list EdValue) : mac (list PanDescriptor * list EdValue) :=
  match channels with
  | [] => mret (descriptors, energies)
  | c :: channels =>
      let channel := channel_number c in
      set_channel channel ;;
      if bool_decide (scan_type = ScanEd) then
        energy ← phy_op (phy_energy_detect duration_us);
        scan_channels channels scan_type duration_us descriptors
          (push_ignore MAX_ED_VALUES energies (mk_EdValue channel energy))
      else
        sent ← (if bool_decide (scan_type = ScanActive) then
                  sequence ← take_dsn;
                  try_st (transmit (build_beacon_request sequence) false)
                else mret (inl ack_default));
        match sent with
        | inr MacChannelAccessFailure => scan_channels channels scan_type duration_us descriptors energies
        | inr error => throw error
        | inl _ =>
            '(_, want) ← listen duration_us (WantBeacons channel descriptors);
            scan_channels channels scan_type duration_us
              (match want with WantBeacons _ descriptors => descriptors | _ => descriptors end) energies
        end
  end.

Definition scan (req : MlmeScanRequest) : mac MlmeScanConfirm :=
  if 14 <? scr_scan_duration req then throw MacInvalidParameter
  else if bool_decide (scr_scan_type req = ScanOrphan) then throw MacUnsupported
  else
    duration ← lift (scan_duration_us (scr_scan_duration req));
    duration_us ← (if duration <? 4294967296 then mret duration else throw MacInvalidParameter);
    original_channel ← gets (λ s, pib_current_channel (sm_pib s));
    phy_op (phy_set_address_filter None) ;;
    scan_result ← try_st (scan_channels (iter_collect 17 (mask_iter (scr_channel_mask req)))
                            (scr_scan_type req) duration_us [] []);
    set_channel original_channel ;;
    pib ← gets sm_pib;
    phy_op (phy_set_address_filter (address_filter pib)) ;;
    match scan_result with
    | inr error => throw error
    | inl (descriptors, energies) =>
        if negb (bool_decide (scr_scan_type req = ScanEd)) && (length descriptors =? 0)%nat then throw MacNoBeacon
        else mret (mk_MlmeScanConfirm (scr_scan_type req) descriptors energies)
    end.

End Core.

(** * The driver interface of an end device *)

Record MacCapabilities := mk_MacCapabilities {
  cap_coordinator : bool; cap_router : bool; cap_hardware_security : bool; cap_max_payload : Z;
  cap_tx_power_min : Z; cap_tx_power_max : Z }.

Definition mac_capabilities {P R} `{!RadioPhy P, !MacRole R} (s : SoftMacCore P R) : MacCapabilities :=
  let phy := phy_capabilities (sm_phy s) in
  mk_MacCapabilities false PARENT false 102 (pc_tx_power_min phy) (pc_tx_power_max phy).

Definition end_device_associate_response {P} (rsp : MlmeAssociateResponse)
    : stm (SoftMacCore P EndDevice) MacError unit := throw MacUnsupported.
Definition end_device_start {P} (req : MlmeStartRequest) : stm (SoftMacCore P EndDevice) MacError unit :=
  lift (start_requires_parent_capability req).
