(* ===== verification/SoftMacSafe.v ===== *)
(** * SoftMacSafe: what every operation of the software MAC keeps

    The laws of a radio and of a role, and the proof that no operation of
    [SoftMac] aborts.  The proofs are about any property of the MAC that the
    radio traffic and the bookkeeping of the operations preserve
    ([RadioInv], [DataInv]), so that they serve the well-formedness of the
    state here and the agreement of radio and information base in
    [SoftMacRadio]. *)

From S2P Require Import Prelude Effects ZigbeeTypes MacFrames MacPib MacRxQueue SoftMac.

Local Open Scope Z_scope.

(** * Laws *)

(** A radio operation returns and leaves a usable radio. *)
Definition returns {P A} (ok : P → Prop) (m : stm P PhyError A) : Prop :=
  ∀ p, ok p → (m p).1 ≠ Panic ∧ ok (m p).2.

(** What the MAC relies on: the radio operations return, and [receive] leaves a
    frame within the buffer it was given. *)
Class LawfulPhy (P : Type) {HP : RadioPhy P} := {
  phy_ok : P → Prop;
  lp_try_transmit f : returns phy_ok (phy_try_transmit f);
  lp_send_ack n b : returns phy_ok (phy_send_ack n b);
  lp_receive t b p : phy_ok p → rx_wf b →
    (phy_receive t b p).1.1 ≠ Panic ∧ rx_wf (phy_receive t b p).1.2 ∧ phy_ok (phy_receive t b p).2;
  lp_set_channel c : returns phy_ok (phy_set_channel c);
  lp_set_tx_power v : returns phy_ok (phy_set_tx_power v);
  lp_energy_detect d : returns phy_ok (phy_energy_detect d);
  lp_set_address_filter a : returns phy_ok (phy_set_address_filter a);
  lp_try_transmit_acknowledged f : returns phy_ok (phy_try_transmit_acknowledged f);
  lp_transmit_offloaded f b t : returns phy_ok (phy_transmit_offloaded f b t);
  lp_set_ack_frame_pending a b : returns phy_ok (phy_set_ack_frame_pending a b);
  lp_clear_ack_frame_pending p : phy_ok p → phy_ok (phy_clear_ack_frame_pending p);
  lp_set_rx_on_when_idle b p : phy_ok p → phy_ok (phy_set_rx_on_when_idle b p);
  lp_sleep : returns phy_ok phy_sleep;
  lp_wake : returns phy_ok phy_wake;
  lp_monotonic_micros p : phy_ok p → phy_ok (phy_monotonic_micros p).2;
  lp_delay_micros d p : phy_ok p → phy_ok (phy_delay_micros d p) }.

Class LawfulRole (R : Type) {HR : MacRole R} := {
  role_ok : R → Prop;
  lr_new : role_ok new_role;
  lr_queue E data lqi r : role_ok r → ∃ r', queue_command (E:=E) data lqi r = Ok r' ∧ role_ok r';
  lr_take r : role_ok r → role_ok (take_service_request r).2;
  lr_clear r : role_ok r → role_ok (clear_role r) }.

#[export, refine] Instance EndDevice_lawful : LawfulRole EndDevice := {| role_ok _ := True |}.
Proof. all: try done. intros. by eexists. Defined.

(** The operations of the radio that leave its configuration alone. *)
Inductive data_step {P} {HP : RadioPhy P} : P → P → Prop :=
| ds_try_transmit f p : data_step p (phy_try_transmit f p).2
| ds_send_ack n b p : data_step p (phy_send_ack n b p).2
| ds_receive t b p : rx_wf b → data_step p (phy_receive t b p).2
| ds_energy_detect d p : data_step p (phy_energy_detect d p).2
| ds_try_transmit_acknowledged f p : data_step p (phy_try_transmit_acknowledged f p).2
| ds_transmit_offloaded f b t p : data_step p (phy_transmit_offloaded f b t p).2
| ds_set_ack_frame_pending a b p : data_step p (phy_set_ack_frame_pending a b p).2
| ds_clear_ack_frame_pending p : data_step p (phy_clear_ack_frame_pending p)
| ds_monotonic_micros p : data_step p (phy_monotonic_micros p).2
| ds_delay_micros d p : data_step p (phy_delay_micros d p).

(** What receiving does to the role. *)
Inductive role_step {R} {HR : MacRole R} : R → R → Prop :=
| rs_refl r : role_step r r
| rs_queue data lqi r r' : queue_command (E:=MacError) data lqi r = Ok r' → role_step r r'
| rs_take r : role_step r (take_service_request r).2.

Section Safe.
Context {P R : Type} {HP : RadioPhy P} {HR : MacRole R} {LP : LawfulPhy P} {LR : LawfulRole R}.
Context (RX : nat).

Local Abbreviation core := (SoftMacCore P R).
Local Abbreviation mac := (stm core MacError).

Record mac_ok (s : core) : Prop := {
  mo_phy : phy_ok (sm_phy s);
  mo_pib : pib_wf (sm_pib s);
  mo_rx : rq_wf RX (sm_pending_rx s);
  mo_role : role_ok (sm_role s) }.

(** [m] returns and keeps [I]. *)
Definition keeps (I : core → Prop) {A} (m : mac A) : Prop :=
  ∀ s, I s → wp m (λ r s', r ≠ Panic ∧ I s') s.

Class RadioInv (I : core → Prop) := {
  ri_ok s : I s → mac_ok s;
  ri_phy s p : I s → data_step (sm_phy s) p → I (with_phy p s);
  ri_random s r : I s → I (with_random r s) }.

Class DataInv (I : core → Prop) := {
  di_radio :: RadioInv I;
  di_rx s q : I s → rq_wf RX q → I (with_rx q s);
  di_error s e : I s → I (with_error e s);
  di_role s r : I s → role_step (sm_role s) r → I (with_role r s);
  di_dsn s n : I s → I (with_pib (set_dsn n (sm_pib s)) s);
  di_bsn s n : I s → I (with_pib (set_bsn n (sm_pib s)) s) }.

Lemma role_step_ok r r' : role_step r r' → role_ok r → role_ok r'.
Proof.
  destruct 1 as [r|data lqi r r' Hq|r]; intros Hr; [done| |by apply LR].
  destruct (lr_queue MacError data lqi r Hr) as (r2 & Hq2 & Hok). congruence.
Qed.

Lemma data_step_ok p p' : data_step p p' → phy_ok p → phy_ok p'.
Proof. destruct 1; intros Hp; by apply LP. Qed.

#[global] Instance mac_ok_data : DataInv mac_ok.
Proof.
  split; [split|..].
  - done.
  - intros s p [] Hd. split; try done. by eapply data_step_ok.
  - intros s r []. by split.
  - intros s q [] Hq. by split.
  - intros s e []. by split.
  - intros s r [] Hr. split; try done. by eapply role_step_ok.
  - intros s n [? [] ? ?]. by split.
  - intros s n [? [] ? ?]. by split.
Qed.

#[global] Instance pib_fixed_radio I p : RadioInv I → RadioInv (λ s, I s ∧ sm_pib s = p).
Proof. intros HI. split; intros s; [intros [? _]; by apply HI|intros q [? ?] ?|intros r [? ?]]; (split; [by apply HI|done]). Qed.

(** ** Composition *)

Section Compose.
Context (I : core → Prop).

Lemma keeps_ret {A} (a : A) : keeps I (mret a).
Proof. by intros s. Qed.
Lemma keeps_throw {A} e : keeps I (throw (A:=A) e).
Proof. by intros s. Qed.
Lemma keeps_gets {A} (f : core → A) : keeps I (gets f).
Proof. by intros s. Qed.
Lemma keeps_lift {A} (o : outcome MacError A) : no_panic o → keeps I (lift o).
Proof. intros Ho s Hs. split; [by destruct o|done]. Qed.
Lemma keeps_modify f : (∀ s, I s → I (f s)) → keeps I (modify_st f).
Proof. intros Hf s Hs. split; [done|]. by apply Hf. Qed.
Lemma keeps_bind {A B} (m : mac A) (k : A → mac B) : keeps I m → (∀ a, keeps I (k a)) → keeps I (m ≫= k).
Proof.
  intros Hm Hk s Hs. apply wp_bind. eapply wp_mono; [by apply Hm|]. intros [a|e|] s' [Hr Hs']; [by apply Hk|done|done].
Qed.
Lemma keeps_try {A} (m : mac A) : keeps I m → keeps I (try_st m).
Proof. intros Hm s Hs. apply wp_try. eapply wp_mono; [by apply Hm|]. by intros [a|e|] s' [Hr Hs']. Qed.

(** A computation that starts by looking at the state. *)
Lemma keeps_gets_bind {A B} (f : core → A) (k : A → mac B) :
  (∀ s, I s → wp (k (f s)) (λ r s', r ≠ Panic ∧ I s') s) → keeps I (gets f ≫= k).
Proof. intros Hk s Hs. apply wp_bind. by apply Hk. Qed.
Lemma keeps_get_bind {B} (k : core → mac B) :
  (∀ s, I s → wp (k s) (λ r s', r ≠ Panic ∧ I s') s) → keeps I (get_st ≫= k).
Proof. intros Hk s Hs. apply wp_bind. by apply Hk. Qed.
Lemma keeps_phy_do f :
  (∀ s, I s → I (with_phy (f (sm_phy s)) s)) → keeps I (phy_do f).
Proof. intros Hf. by apply keeps_modify. Qed.
End Compose.

Lemma wp_gets_bind {A B} (f : core → A) (k : A → mac B) Q s : wp (k (f s)) Q s → wp (gets f ≫= k) Q s.
Proof. done. Qed.
Lemma wp_get_bind {B} (k : core → mac B) Q s : wp (k s) Q s → wp (get_st ≫= k) Q s.
Proof. done. Qed.
Lemma wp_lift_Ok {A B} (o : outcome MacError A) a (k : A → mac B) Q s :
  o = Ok a → wp (k a) Q s → wp (lift o ≫= k) Q s.
Proof. intros ->. done. Qed.

Lemma keeps_wand (I J : core → Prop) {A} (m : mac A) (s : core) :
  keeps J m → J s → (∀ s', J s' → I s') → wp m (λ r s', r ≠ Panic ∧ I s') s.
Proof. intros Hm Hs HJ. eapply wp_mono; [by apply Hm|]. intros r s' [? ?]. auto. Qed.
End Safe.

Create HintDb keeps.
#[export] Hint Resolve keeps_ret keeps_throw keeps_gets di_radio : keeps.

Ltac keeps_step :=
  match goal with
  | |- keeps _ (mbind _ _) => apply keeps_bind; [|intros]
  | |- keeps _ (try_st _) => apply keeps_try
  | |- keeps _ (lift _) => apply keeps_lift; try solve [auto with exec]
  | |- keeps _ (if ?b then _ else _) => destruct b eqn:?
  | |- keeps _ (match ?x with _ => _ end) => destruct x
  | |- keeps _ (let _ := _ in _) => cbv zeta
  | |- keeps _ _ => solve [eauto with keeps]
  end.
Ltac keeps_tac := repeat keeps_step.

(** * Functions that never return an error *)

Definition never_err {E A} (m : outcome E A) : Prop := ∀ e, m ≠ Err e.
Lemma never_err_bind {E A B} (m : outcome E A) (k : A → outcome E B) :
  never_err m → (∀ a, never_err (k a)) → never_err (m ≫= k).
Proof. intros Hm Hk e. destruct m as [a|e'|]; simpl; [apply Hk|by destruct (Hm e')|done]. Qed.
Lemma never_err_index {E A} (l : list A) i : never_err (index (E:=E) l i).
Proof. intros e. unfold index. by case_match. Qed.
Lemma never_err_slice {E A} (l : list A) a b : never_err (slice (E:=E) l a b).
Proof. intros e. unfold slice. by case_match. Qed.
Lemma never_err_read_u16 {E} l i : never_err (read_u16 (E:=E) l i).
Proof. unfold read_u16. repeat (apply never_err_bind; [apply never_err_index|intros]). done. Qed.
Ltac never_err_tac :=
  repeat match goal with
  | |- never_err (mbind _ _) => apply never_err_bind; [|intros]
  | |- never_err (if ?b then _ else _) => destruct b
  | |- never_err (match ?x with _ => _ end) => destruct x
  | |- never_err (let _ := _ in _) => cbv zeta
  | |- never_err (index _ _) => apply never_err_index
  | |- never_err (slice _ _ _) => apply never_err_slice
  | |- never_err (read_u16 _ _) => apply never_err_read_u16
  | |- never_err (Ok _) => done
  end.
Lemma parse_mac_addresses_Ok {E} data : ∃ r, parse_mac_addresses (E:=E) data = Ok r.
Proof.
  pose proof (no_panic_mac_addresses (E:=E) data) as Hn.
  assert (Hp : never_err (parse_mac_addresses (E:=E) data)) by (unfold parse_mac_addresses; never_err_tac).
  destruct (parse_mac_addresses data) as [r|e|]; [by eexists|by destruct (Hp e)|done].
Qed.

Lemma as_option_Ok {E A} (m : fallible A) : no_panic m → ∃ o, as_option (E:=E) m = Ok o.
Proof. intros Hm. destruct m; [by eexists|by eexists|done]. Qed.

Lemma no_panic_as_option {E A} (m : fallible A) : no_panic m → no_panic (as_option (E:=E) m).
Proof. by destruct m. Qed.

Lemma no_panic_mac_frame data : no_panic (mac_frame_from_slice data).
Proof.
  unfold mac_frame_from_slice. case_match; bool_simpl; [done|]. apply no_panic_bind; [|done].
  unfold no_panic, copy_from_slice. change (length (mf_buf mac_frame_new)) with MAX_MAC_PAYLOAD.
  rewrite Nat.sub_0_r, Nat.eqb_refl, (proj2 (Nat.leb_le 0 _)), (proj2 (Nat.leb_le _ MAX_MAC_PAYLOAD)) by lia. done.
Qed.

Lemma never_err_as_option {E A} (m : fallible A) : never_err (as_option (E:=E) m).
Proof. intros e. by destruct m. Qed.

Lemma no_panic_data_frame sq mode short ext dst payload ack pending :
  no_panic (build_data_frame sq mode short ext dst payload ack pending).
Proof. unfold build_data_frame, extend. no_panic_tac. Qed.

Lemma no_panic_map_err {E F A} (g : E → F) (m : outcome E A) : no_panic m → no_panic (map_outcome_err g m).
Proof. by destruct m. Qed.

Lemma scan_duration_Ok e : 0 <= e <= 14 → ∃ d, scan_duration_us (E:=MacError) e = Ok d ∧ d < 4294967296.
Proof.
  intros He. assert (∀ n, (n <= 14)%nat → ∃ d, scan_duration_us (E:=MacError) (Z.of_nat n) = Ok d ∧ d < 4294967296) as H.
  { intros n Hn. do 15 (destruct n as [|n]; [eexists; split; [vm_compute; reflexivity|lia]|]). lia. }
  destruct (H (Z.to_nat e)) as (d & Hd & ?); [lia|]. rewrite Z2Nat.id in Hd by lia. by exists d.
Qed.

(** The indication of a retained frame, and the first one of several. *)
Definition indication_of (pib : MacPib) (f : PhyRxFrame) : option McpsDataIndication :=
  match indication_from f pib with Ok o => o | _ => None end.

Fixpoint first_indication (pib : MacPib) (l : list PhyRxFrame) : option McpsDataIndication * list PhyRxFrame :=
  match l with
  | [] => (None, [])
  | f :: l => match indication_of pib f with Some i => (Some i, l) | None => first_indication pib l end
  end.

(** The association response a retained frame carries for this device. *)
Definition response_of (pib : MacPib) (f : PhyRxFrame) : option (ShortAddress * Z) :=
  match association_response_for_us f pib with Ok o => o | _ => None end.

(** * The operations *)

Section Ops.
Context {P R : Type} {HP : RadioPhy P} {HR : MacRole R} {LP : LawfulPhy P} {LR : LawfulRole R}.
Context (RX : nat).

Local Abbreviation core := (SoftMacCore P R).
Local Abbreviation mac := (stm core MacError).

(** ** Radio traffic *)

Section Radio.
Context (I : core → Prop) {HI : RadioInv RX I}.

(** A data operation of the radio. *)
Definition data_op {A} (m : stm P PhyError A) : Prop := returns phy_ok m ∧ ∀ p, data_step p (m p).2.

Lemma keeps_phy_result {A} (m : stm P PhyError A) : data_op m → keeps I (phy_result m).
Proof using HI.
  intros [Hm Hd] s Hs. unfold wp, phy_result. destruct (Hm (sm_phy s)) as [Hr _]; [by apply HI|].
  specialize (Hd (sm_phy s)). destruct (m (sm_phy s)) as [[a|e|] p]; split; try done; by apply HI.
Qed.

Lemma keeps_phy_op {A} (m : stm P PhyError A) : data_op m → keeps I (phy_op m).
Proof using HI.
  intros [Hm Hd] s Hs. unfold wp, phy_op. destruct (Hm (sm_phy s)) as [Hr _]; [by apply HI|].
  specialize (Hd (sm_phy s)). destruct (m (sm_phy s)) as [[a|e|] p]; split; try done; by apply HI.
Qed.

Lemma data_op_map {A B} (m : stm P PhyError A) (b : B) : data_op m → data_op (m ;; mret b).
Proof using HI.
  intros [Hm Hd]. split.
  - intros p Hp. destruct (Hm p Hp) as [Hr Ho]. cbv [mbind stm_bind mret stm_ret].
    destruct (m p) as [[a|e|] p']; simpl in *; by split.
  - intros p. specialize (Hd p). cbv [mbind stm_bind]. by destruct (m p) as [[a|e|] p'].
Qed.

Lemma data_op_try_transmit f : data_op (phy_try_transmit f).
Proof using HI. split; [apply LP|constructor]. Qed.
Lemma data_op_send_ack n b : data_op (phy_send_ack n b).
Proof using HI. split; [apply LP|constructor]. Qed.
Lemma data_op_energy_detect d : data_op (phy_energy_detect d).
Proof using HI. split; [apply LP|constructor]. Qed.
Lemma data_op_acknowledged f : data_op (phy_try_transmit_acknowledged f).
Proof using HI. split; [apply LP|constructor]. Qed.
Lemma data_op_offloaded f b t : data_op (phy_transmit_offloaded f b t).
Proof using HI. split; [apply LP|constructor]. Qed.
Lemma data_op_set_ack a b : data_op (phy_set_ack_frame_pending a b).
Proof using HI. split; [apply LP|constructor]. Qed.

Lemma keeps_delay d : keeps I (phy_do (phy_delay_micros d)).
Proof using HI. apply keeps_phy_do. intros s Hs. apply HI; [done|constructor]. Qed.

Lemma keeps_clock : keeps I monotonic_micros.
Proof using HI.
  intros s Hs. unfold wp, monotonic_micros. pose proof (ds_monotonic_micros (sm_phy s)) as Hd.
  destruct (phy_monotonic_micros (sm_phy s)) as [t p]. split; [done|]. by apply HI.
Qed.

Lemma keeps_random : keeps I next_random_u32.
Proof using HI. intros s Hs. split; [done|]. by apply HI. Qed.

Lemma keeps_backoff be : be < 16 → keeps I (random_backoff_slots be).
Proof using HI.
  intros Hb. unfold random_backoff_slots. apply keeps_bind; [apply keeps_random|]. intros r.
  rewrite (proj2 (Z.leb_gt _ _)) by done. apply keeps_ret.
Qed.
End Radio.

Hint Resolve keeps_phy_result keeps_phy_op data_op_map data_op_try_transmit data_op_send_ack data_op_energy_detect
  data_op_acknowledged data_op_offloaded data_op_set_ack keeps_delay keeps_clock keeps_random keeps_backoff : keeps.

(** The backoff loop ends within its fuel. *)
Lemma keeps_csma_loop I {HI : RadioInv RX I} pib fuel frame ack_wait count be :
  (∀ s, I s → sm_pib s = pib) → pib_wf pib →
  0 <= count <= pib_max_csma_backoffs pib → Z.of_nat fuel = pib_max_csma_backoffs pib - count + 1 →
  0 <= be <= pib_max_be pib →
  keeps I (csma_loop fuel frame ack_wait count be).
Proof.
  intros Hpib Hwf. revert count be. induction fuel as [|fuel IH]; intros count be Hc Hf Hb; [simpl in Hf; lia|].
  destruct (pw_exponents _ Hwf) as [_ Hbe]. destruct (pw_backoffs _ Hwf) as [_ Hmax]. cbn [csma_loop].
  apply keeps_bind; [apply keeps_backoff; [done|lia]|intros slots].
  apply keeps_bind; [keeps_tac|intros _].
  apply keeps_bind; [keeps_tac|intros result].
  apply keeps_gets_bind. intros s Hs. rewrite (Hpib s Hs). destruct result as [ack|error]; [by apply keeps_ret|].
  destruct (match error with ChannelBusy => true | _ => false end && _) eqn:Hbusy; [|by apply keeps_throw].
  bool_simpl. apply IH; unfold saturating_add_u8; [lia|lia|lia|done].
Qed.

Lemma keeps_csma I {HI : RadioInv RX I} frame ack_wait : keeps I (csma frame ack_wait).
Proof.
  apply keeps_gets_bind. intros s Hs. set (pib := sm_pib s).
  assert (Hwf : pib_wf pib) by (by apply (mo_pib RX s), HI).
  eapply (keeps_wand I (λ s, I s ∧ sm_pib s = pib)); [|done|by intros ? []].
  pose proof (pw_backoffs _ Hwf). pose proof (pw_exponents _ Hwf).
  eapply (keeps_csma_loop _ (HI:=pib_fixed_radio RX I pib HI)); [by intros ? []|done|lia|lia|lia].
Qed.

(** ** Receiving *)

Context (HRX : (0 < RX <= 255)%nat).

(** The radio has just written the free slot of the queue. *)
Definition slot_ready (f : PhyRxFrame) (s : core) : Prop :=
  (rq_len (sm_pending_rx s) < RX)%nat ∧
  rq_frames (sm_pending_rx s) !! rq_tail RX (sm_pending_rx s) = Some f ∧ rx_wf f.

Lemma rx_slot_lookup q : rq_wf RX q →
  let '(q', i) := rq_rx_slot RX q in
  rq_wf RX q' ∧ (rq_len q' < RX)%nat ∧ i = rq_tail RX q' ∧ ∃ f, rq_frames q' !! i = Some f ∧ rx_wf f.
Proof using HRX.
  intros Hq. pose proof (rq_rx_slot_spec RX HRX q Hq) as Hs. destruct (rq_rx_slot RX q) as [q' i].
  destruct Hs as (Hq' & Hl & -> & _). split_and!; try done. by apply (slot_lookup RX HRX q').
Qed.

(** The view of the queue once there is room for a frame. *)
Definition make_room (l : list PhyRxFrame) : list PhyRxFrame := if (length l =? RX)%nat then tail l else l.

(** Receiving writes the free slot. *)
Lemma receive_frame_spec t (s : core) :
  mac_ok RX s → ∃ buf q, rx_wf buf ∧
    let '(r, b, p) := phy_receive t buf (sm_phy s) in
    receive_frame RX t s =
      (match r with Ok x => Ok (inl x) | Err e => Ok (inr e) | Panic => Panic end, with_rx q (with_phy p s)) ∧
    r ≠ Panic ∧ rq_wf RX q ∧ slot_ready b (with_rx q (with_phy p s)) ∧
    rq_view RX q = make_room (rq_view RX (sm_pending_rx s)).
Proof using HRX.
  intros Hok. pose proof (rx_slot_lookup _ (mo_rx _ _ Hok)) as Hq. pose proof (rq_rx_slot_spec RX HRX _ (mo_rx _ _ Hok)) as Hv.
  unfold receive_frame. destruct (rq_rx_slot RX (sm_pending_rx s)) as [q i].
  destruct Hv as (_ & _ & _ & Hv). destruct Hq as (Hq & Hl & -> & f & Hf & Hwf). rewrite (index_Some _ _ _ Hf).
  pose proof (lp_receive t f (sm_phy s) (mo_phy _ _ Hok) Hwf) as (Hr & Hb & Hp). exists f.
  destruct (phy_receive t f (sm_phy s)) as [[r b] p] eqn:Hphy. simpl in *.
  destruct (rq_write_spec (E:=MacError) RX HRX q b Hq Hl Hb) as (q' & Hw & Hq' & Hv' & Hl' & Hf'). exists q'.
  rewrite Hw. split; [done|]. rewrite Hv', Hv. split_and!; try done. by destruct r.
Qed.

(** What ends a window, and why. *)
Definition imm_ack (sequence : Z) (f : PhyRxFrame) (ack : AckResult) : Prop :=
  (3 <= length (octets_of f))%nat ∧
  ∃ control, octets_of f !! 0%nat = Some control ∧ Z.land control 7 = 2 ∧ octets_of f !! 2%nat = Some sequence ∧
    ack = mk_AckResult (has_bits control (Z.shiftl 1 4)).

Definition heard_by (pib : MacPib) (want : Want) (f : PhyRxFrame) (h : Heard) : Prop :=
  match h with
  | HeardAck ack => ∃ sequence, want = WantAck sequence ∧ imm_ack sequence f ack
  | HeardAssociation address status =>
      want = WantAssocResponse ∧ response_of pib f = Some (address, status)
  | HeardQueued => want = WantRetained ∨ want = WantPollResponse
  end.

(** A data frame. *)
Definition data_kind (f : PhyRxFrame) : Prop := ∃ control, octets_of f !! 0%nat = Some control ∧ Z.land control 7 = 1.

(** The indication carries what stands behind the header of the frame. *)
Definition indicates (f : PhyRxFrame) (i : McpsDataIndication) : Prop :=
  ∃ off, parse_mac_addresses (E:=MacError) (octets_of f) = Ok (ind_src_address i, ind_dst_address i, off, ind_security_use i) ∧
    mac_frame_as_slice (E:=MacError) (ind_payload i) = Ok (drop off (octets_of f)) ∧ ind_lqi i = rf_lqi f.

(** Only the descriptors of a window change. *)
Definition same_want (want want' : Want) : Prop :=
  match want with WantBeacons c _ => ∃ ds, want' = WantBeacons c ds | _ => want' = want end.

(** What is kept of an acknowledged frame. *)
Definition accept_post (want : Want) (f : PhyRxFrame) (s : core)
    (r : outcome MacError (option (Z * bool) * option Heard * Want)) (q : RxQueue) : Prop :=
  match r with
  | Ok (ack, heard, want') =>
      same_want want want' ∧
      (∀ h, heard = Some h → heard_by (sm_pib s) want f h) ∧
      (∀ a, heard = Some (HeardAck a) → ack = None) ∧
      (∀ sequence pending, ack = Some (sequence, pending) →
         octets_of f !! 2%nat = Some sequence ∧
         (data_kind f →
            (rq_view RX q = rq_view RX (sm_pending_rx s) ++ [f] ∨ rq_view RX q = f :: rq_view RX (sm_pending_rx s)) ∧
            ∃ i, indication_of (sm_pib s) f = Some i ∧ indicates f i))
  | Err _ => False
  | Panic => False
  end.

Definition accepted (want : Want) (f : PhyRxFrame) (s : core)
    (r : outcome MacError (option (Z * bool) * option Heard * Want)) (s' : core) : Prop :=
  ∃ q role, s' = with_role role (with_rx q s) ∧ rq_wf RX q ∧ role_step (sm_role s) role ∧ accept_post want f s r q.

Lemma with_id (s : core) : s = with_role (sm_role s) (with_rx (sm_pending_rx s) s).
Proof. by destruct s. Qed.

(** Nothing is heard or acknowledged, or what is heard needs no frame. *)
Lemma accepted_same want f s heard want' :
  mac_ok RX s → same_want want want' → (∀ h, heard = Some h → heard_by (sm_pib s) want f h) →
  accepted want f s (Ok (None, heard, want')) s.
Proof. intros [] Hw Hh. exists (sm_pending_rx s), (sm_role s). split; [apply with_id|]. split_and!; try done. constructor. Qed.

(** The frame in the free slot is kept as newest or as oldest. *)
Lemma commit_back_run f (s : core) :
  mac_ok RX s → slot_ready f s →
  ∃ q, commit_back s = (Ok (), with_rx q s) ∧ rq_wf RX q ∧ rq_view RX q = rq_view RX (sm_pending_rx s) ++ [f].
Proof using HRX.
  intros Hok (Hl & Hf & _). destruct (rq_commit_back_spec (E:=MacError) RX HRX _ f (mo_rx _ _ Hok) Hl Hf) as (q & Hq & Hwf & Hv).
  exists q. unfold commit_back, on_rx. cbv [mbind stm_bind gets]. by rewrite Hq.
Qed.

Lemma commit_front_run f (s : core) :
  mac_ok RX s → slot_ready f s →
  ∃ q, commit_front RX s = (Ok (), with_rx q s) ∧ rq_wf RX q ∧ rq_view RX q = f :: rq_view RX (sm_pending_rx s).
Proof using HRX.
  intros Hok (Hl & Hf & _). destruct (rq_commit_front_spec (E:=MacError) RX HRX _ f (mo_rx _ _ Hok) Hl Hf) as (q & Hq & Hwf & Hv).
  exists q. unfold commit_front, on_rx. cbv [mbind stm_bind gets]. by rewrite Hq.
Qed.

(** The part of [accept] that decides about a data or command frame. *)
Definition retain (want : Want) (f : PhyRxFrame) (command exact : bool) (source destination : MacAddress)
    (association : option (ShortAddress * Z)) (s : core) : mac (option Heard) :=
  match association with
  | Some (address, status) =>
      match want with
      | WantAssocResponse => mret (Some (HeardAssociation address status))
      | _ => commit_back ;; mret None
      end
  | None =>
      if negb (accepts_destination destination (sm_pib s)) then mret None
      else if command then
        if PARENT then
          role ← lift (queue_command (octets_of f) (rf_lqi f) (sm_role s));
          modify_st (with_role role) ;;
          mret match want with WantRetained => Some HeardQueued | _ => None end
        else mret None
      else if match want with WantPollResponse => true | _ => false end
              && exact && is_from_coordinator source (sm_pib s) then
        commit_front RX ;; mret (Some HeardQueued)
      else commit_back ;; mret match want with WantRetained => Some HeardQueued | _ => None end
  end.

Definition retained (want : Want) (f : PhyRxFrame) (command : bool) (destination : MacAddress)
    (association : option (ShortAddress * Z)) (s : core) (r : outcome MacError (option Heard)) (s' : core) : Prop :=
  ∃ q role heard, r = Ok heard ∧ s' = with_role role (with_rx q s) ∧ rq_wf RX q ∧ role_step (sm_role s) role ∧
    (∀ h, heard = Some h → heard_by (sm_pib s) want f h) ∧ (∀ a, heard ≠ Some (HeardAck a)) ∧
    (command = false → association = None → accepts_destination destination (sm_pib s) = true →
       rq_view RX q = rq_view RX (sm_pending_rx s) ++ [f] ∨ rq_view RX q = f :: rq_view RX (sm_pending_rx s)).

Lemma retain_spec want f s command exact source destination association :
  mac_ok RX s → slot_ready f s →
  (∀ a st, association = Some (a, st) → response_of (sm_pib s) f = Some (a, st)) →
  wp (retain want f command exact source destination association s) (retained want f command destination association s) s.
Proof using HRX LR.
  intros Hok Hr Hresp.
  assert (Hback : ∀ heard, (∀ h, heard = Some h → heard_by (sm_pib s) want f h) → (∀ a, heard ≠ Some (HeardAck a)) →
    wp (commit_back ;; mret heard) (retained want f command destination association s) s).
  { intros heard Hh Hna. destruct (commit_back_run f s Hok Hr) as (q & Hrun & Hq & Hv). apply wp_bind. unfold wp at 1. rewrite Hrun.
    exists q, (sm_role s), heard. split_and!; try done; [constructor|]. intros. by left. }
  assert (Hsame : ∀ heard, (∀ h, heard = Some h → heard_by (sm_pib s) want f h) → (∀ a, heard ≠ Some (HeardAck a)) →
    (command = false → association = None → accepts_destination destination (sm_pib s) = true → False) →
    wp (mret heard) (retained want f command destination association s) s).
  { intros heard Hh Hna Hno. exists (sm_pending_rx s), (sm_role s), heard. split_and!; try done; [apply with_id|apply Hok|constructor|].
    intros. by destruct Hno. }
  unfold retain. destruct association as [[address status]|].
  { destruct want; try (by apply Hback). apply Hsame; [|done|done]. intros h [= <-]. split; [done|]. by apply Hresp. }
  destruct (accepts_destination destination (sm_pib s)) eqn:Ha; cbn [negb]; [|by apply Hsame]. destruct command.
  - destruct PARENT; [|by apply Hsame].
    destruct (lr_queue MacError (octets_of f) (rf_lqi f) (sm_role s) (mo_role _ _ Hok)) as (r & Hq & Hro).
    eapply wp_lift_Ok; [done|]. apply wp_bind, wp_modify. exists (sm_pending_rx s), r. eexists. split; [done|].
    split_and!; try done; [apply Hok|by econstructor|intros h Hh; destruct want; simplify_eq/=; auto|by destruct want].
  - destruct (_ && exact && _) eqn:Hpoll.
    + destruct (commit_front_run f s Hok Hr) as (q & Hrun & Hq & Hv). apply wp_bind. unfold wp at 1. rewrite Hrun.
      exists q, (sm_role s). eexists. split_and!; try done; [constructor| |auto]. intros h [= <-]. destruct want; try done. by right.
    + apply Hback; [intros h Hh; destruct want; simplify_eq/=; auto|by destruct want].
Qed.

Lemma exact_accepts destination pib : exact_destination destination pib = true → accepts_destination destination pib = true.
Proof.
  unfold exact_destination, accepts_destination. destruct (pib_promiscuous pib); [done|].
  destruct destination; intros H; bool_simpl; subst; by rewrite ?Z.eqb_refl, ?bool_decide_eq_true_2 by done.
Qed.

Lemma mac_frame_of data : (length data <= MAX_MAC_PAYLOAD)%nat →
  ∃ h, mac_frame_from_slice data = Ok h ∧ mac_frame_as_slice (E:=MacError) h = Ok data.
Proof.
  intros Hl. unfold mac_frame_from_slice. rewrite (proj2 (Nat.ltb_ge _ _)) by done.
  pose proof (copy_written (E:=unit) [] (repeat 0 MAX_MAC_PAYLOAD) 0 (length data) data eq_refl eq_refl) as Hc.
  rewrite written_nil, repeat_length in Hc. cbn [app] in Hc. change (mf_buf mac_frame_new) with (repeat 0 MAX_MAC_PAYLOAD).
  rewrite Hc by done. cbn [mbind outcome_bind]. eexists. split; [done|]. unfold mac_frame_as_slice. cbn [mf_buf mf_len].
  rewrite slice_0_take by (rewrite length_written, repeat_length by (by rewrite repeat_length); done).
  by rewrite take_written.
Qed.

Lemma indication_some f pib control source destination off sec :
  rx_wf f → (3 <= length (octets_of f))%nat → octets_of f !! 0%nat = Some control → Z.land control 7 = 1 →
  parse_mac_addresses (E:=MacError) (octets_of f) = Ok (source, destination, off, sec) →
  (3 <= off <= length (octets_of f))%nat → accepts_destination destination pib = true →
  ∃ i, indication_of pib f = Some i ∧ indicates f i.
Proof.
  clear HRX. intros Hf Hl Hc Hk Ha Hoff Hacc. unfold indication_of, indication_from. rewrite rx_as_slice_wf by done.
  cbn [mbind outcome_bind]. rewrite (proj2 (Nat.ltb_ge _ _)), (index_Some _ _ _ Hc) by done. cbn [mbind outcome_bind].
  rewrite Hk. cbn [negb Z.eqb Pos.eqb]. rewrite Ha. cbn [mbind outcome_bind].
  rewrite (proj2 (Nat.ltb_ge off 3)), (proj2 (Nat.ltb_ge _ off)), Hacc by lia. cbn [orb negb].
  assert (Hle : (length (octets_of f) <= 125)%nat) by (destruct Hf; unfold octets_of; rewrite length_take; unfold MAX_PHY_FRAME_LEN in *; lia).
  assert (Hsl : slice (E:=MacError) (octets_of f) off (length (octets_of f)) = Ok (drop off (octets_of f))).
  { unfold slice, slice_get. rewrite (proj2 (Nat.leb_le off _)), Nat.leb_refl by lia. cbn [andb]. f_equal. by rewrite take_ge by (rewrite length_drop; lia). }
  rewrite Hsl. cbn [mbind outcome_bind].
  destruct (mac_frame_of (drop off (octets_of f))) as (h & -> & Hh); [rewrite length_drop; unfold MAX_MAC_PAYLOAD; lia|].
  cbn [as_option mbind outcome_bind]. eexists. split; [done|]. by exists off.
Qed.

Lemma accept_spec want f s : mac_ok RX s → slot_ready f s → wp (accept RX want) (accepted want f s) s.
Proof using HRX LR.
  intros Hok Hr. pose proof Hr as (Hl & Hf & Hwf). unfold accept. apply wp_get_bind.
  eapply wp_lift_Ok; [by apply (rq_received_spec RX HRX)|]. eapply wp_lift_Ok; [by apply rx_as_slice_wf|].
  set (data := octets_of f). assert (Hnone : ∀ w, same_want want w → accepted want f s (Ok (None, None, w)) s) by (intros; by apply accepted_same).
  assert (Hsw : same_want want want) by (destruct want; by eexists).
  destruct (length data <? 3)%nat eqn:Hlen; [by apply Hnone|]. bool_simpl.
  destruct (lookup_lt_is_Some_2 data 0) as [control Hc]; [lia|].
  destruct (lookup_lt_is_Some_2 data 2) as [sq Hsq]; [lia|].
  eapply wp_lift_Ok; [by apply index_Some|]. eapply wp_lift_Ok; [by apply index_Some|]. cbv zeta.
  destruct (as_option_Ok (E:=MacError) (parse_association_response data)) as [resp Hresp]; [apply no_panic_association_response|].
  destruct (parse_mac_addresses_Ok (E:=MacError) data) as [[[[source destination] off] sec] Ha].
  assert (Htail : ∀ want', want' = want → wp
    ('(source, destination, payload_offset, _) ← lift (parse_mac_addresses data);
     if (payload_offset <? 3)%nat || (length data <? payload_offset)%nat then mret (None, None, want')
     else
       let exact := exact_destination destination (sm_pib s) in
       association ← (if (Z.land control 7 =? 3) && exact then lift (as_option (parse_association_response data)) else mret None);
       heard ← retain want' f (Z.land control 7 =? 3) exact source destination association s;
       mret (if has_bits control (Z.shiftl 1 5) && exact && negb (pc_hardware_auto_ack (phy_capabilities (sm_phy s)))
             then Some (sq, PARENT && (Z.land control 7 =? 3) && frame_pending_for (sm_role s) source) else None, heard, want'))
    (accepted want f s) s).
  { intros want' ->. eapply wp_lift_Ok; [done|]. cbv beta iota zeta. destruct (_ || _) eqn:Hoff; [by apply Hnone|].
    bool_simpl. set (exact := exact_destination destination (sm_pib s)). set (command := Z.land control 7 =? 3).
    assert (Hre : exact = true → response_of (sm_pib s) f = resp).
    { intros He. unfold response_of, association_response_for_us. rewrite rx_as_slice_wf by done. cbn [mbind outcome_bind].
      fold data. rewrite Ha. cbn [mbind outcome_bind]. rewrite (proj2 (Nat.leb_le 3 off)), (proj2 (Nat.leb_le off _)) by lia.
      fold exact. rewrite He. cbn [andb]. by rewrite Hresp. }
    match goal with |- wp (mbind ?k (if _ then _ else _)) ?Q ?st =>
      assert (Hk : ∀ a, (∀ x y, a = Some (x, y) → command && exact = true ∧ resp = Some (x, y)) → wp (k a) Q st) end.
    { intros association Has. apply wp_bind. eapply wp_mono; [apply retain_spec; [done|done|]|].
      { intros x y Hxy. destruct (Has x y Hxy) as [Hce Hrs]. bool_simpl. rewrite Hre by done. done. }
      intros r s' (q & role & heard & -> & -> & Hq & Hro & Hh & Hna & Hv). exists q, role. split_and!; try done.
      - split; [done|]. split; [done|]. split; [by intros a Ha'; destruct (Hna a)|]. intros sequence pending Hack. destruct (has_bits _ _ && exact && _) eqn:Hb; [|done]. simplify_eq/=.
        bool_simpl. split; [done|]. intros (control' & Hc' & Hk1). fold data in Hc'. rewrite Hc in Hc'. simplify_eq/=.
        assert (Hcmd : command = false) by (unfold command; rewrite Hk1; done).
        split; [|by eapply indication_some; [done|done|done|done|exact Ha|fold data; lia|apply exact_accepts]].
        apply Hv; [done| |by apply exact_accepts].
        destruct association as [[x y]|]; [|done]. destruct (Has x y eq_refl) as [Hce _]. by rewrite Hcmd in Hce. }
    destruct (command && exact) eqn:Hce; [|apply Hk; done]. eapply wp_lift_Ok; [done|]. apply Hk. done. }
  destruct want as [|sequence| | |channel descriptors].
  5: { destruct (_ =? 0); [|by apply Hnone].
       destruct (as_option_Ok (E:=MacError) (parse_beacon channel data (rf_lqi f))) as [o Ho]; [apply no_panic_beacon|].
       eapply wp_lift_Ok; [done|]. destruct o; apply Hnone; by eexists. }
  all: destruct (Z.eqb_spec (Z.land control 7) 2) as [H2|H2].
  3: { apply accepted_same; [done|done|]. intros h Hh. destruct (Z.eqb_spec sq sequence) as [->|]; [|done]. injection Hh as <-.
       exists sequence. split; [done|]. split; [done|]. by exists control. }
  1, 4, 6: by apply Hnone.
  all: destruct (negb _ && negb _); [by apply Hnone|]; apply (Htail _ eq_refl).
Qed.

(** ** Retained frames *)

Lemma indication_returns f pib : rx_wf f → indication_from f pib = Ok (indication_of pib f).
Proof using HRX.
  intros Hf. unfold indication_of.
  assert (Hn : no_panic (indication_from f pib)).
  { unfold indication_from. rewrite rx_as_slice_wf by done. cbn [mbind outcome_bind].
    no_panic_tac; try apply no_panic_mac_addresses; try apply no_panic_as_option, no_panic_mac_frame. }
  assert (He : never_err (indication_from f pib)).
  { unfold indication_from, rx_as_slice. never_err_tac; try apply never_err_as_option.
    destruct (parse_mac_addresses_Ok (E:=MacError) a) as [r ->]. done. }
  destruct (indication_from f pib) as [o|e|]; [done|by destruct (He e)|done].
Qed.

Lemma take_indication_spec fuel pib q :
  rq_wf RX q → (rq_len q < fuel)%nat →
  ∃ q', take_indication_loop RX fuel pib q = Ok ((first_indication pib (rq_view RX q)).1, q') ∧ rq_wf RX q' ∧
    rq_view RX q' = (first_indication pib (rq_view RX q)).2.
Proof using HRX.
  revert q. induction fuel as [|fuel IH]; intros q Hq Hf; [lia|]. cbn [take_indication_loop].
  rewrite (rq_front_spec RX HRX) by done. cbn [mbind outcome_bind].
  pose proof (rq_view_length RX HRX q Hq) as Hl. pose proof (rq_view_wf RX HRX q Hq) as Hw.
  destruct (rq_drop_front_spec RX HRX q Hq) as [Hq' Hv].
  destruct (rq_view RX q) as [|f l] eqn:Hview; cbn [head first_indication].
  { by exists q. }
  rewrite indication_returns by (by inversion Hw). cbn [mbind outcome_bind].
  destruct (indication_of pib f) as [i|]; [by exists (rq_drop_front RX q)|].
  destruct (IH (rq_drop_front RX q)) as (q' & -> & Hw' & Hv').
  { done. }
  { pose proof (rq_view_length RX HRX _ Hq') as Hl'. rewrite Hv in Hl'. simpl in *. lia. }
  exists q'. by rewrite Hv in Hv' |- *.
Qed.

(** The retained response found is the oldest one. *)
Lemma response_returns f pib : rx_wf f → association_response_for_us f pib = Ok (response_of pib f).
Proof using HRX.
  intros Hf. unfold response_of.
  assert (Hn : no_panic (association_response_for_us f pib)).
  { unfold association_response_for_us. rewrite rx_as_slice_wf by done. cbn [mbind outcome_bind].
    destruct (parse_mac_addresses_Ok (E:=MacError) (octets_of f)) as [[[[? ?] ?] ?] ->]. cbn [mbind outcome_bind].
    case_match; [|done]. apply no_panic_as_option, no_panic_association_response. }
  assert (He : never_err (association_response_for_us f pib)).
  { unfold association_response_for_us, rx_as_slice. never_err_tac; try apply never_err_as_option.
    destruct (parse_mac_addresses_Ok (E:=MacError) a) as [r ->]. done. }
  destruct (association_response_for_us f pib) as [o|e|]; [done|by destruct (He e)|done].
Qed.

Lemma find_response_spec n i pib q :
  rq_wf RX q → (i + n = rq_len q)%nat →
  ∃ o, find_response RX n i pib q = Ok o ∧
    match o with
    | Some (j, r) => (i <= j < rq_len q)%nat ∧ ∃ f, rq_view RX q !! j = Some f ∧ response_of pib f = Some r
    | None => ∀ j f, (i <= j)%nat → rq_view RX q !! j = Some f → response_of pib f = None
    end.
Proof using HRX.
  intros Hq. revert i. induction n as [|n IH]; intros i Hi; cbn [find_response].
  { exists None. split; [done|]. intros j f Hj Hf%lookup_lt_Some. rewrite rq_view_length in Hf by done. lia. }
  destruct (lookup_lt_is_Some_2 (rq_view RX q) i) as [f Hf]; [rewrite rq_view_length by done; lia|].
  rewrite (rq_get_spec RX HRX q i f) by done. cbn [mbind outcome_bind].
  rewrite response_returns by (by eapply Forall_lookup_1; [apply (rq_view_wf RX HRX)|]). cbn [mbind outcome_bind].
  destruct (response_of pib f) as [r|] eqn:Hr.
  { exists (Some (i, r)). split; [done|]. split; [lia|]. by exists f. }
  destruct (IH (S i)) as (o & -> & Ho); [lia|]. exists o. split; [done|]. destruct o as [[j r]|].
  - destruct Ho as (? & ?). split; [lia|done].
  - intros j f' Hj Hf'. destruct (decide (j = i)) as [->|]; [congruence|]. apply (Ho j); [lia|done].
Qed.

(** Transmitting touches nothing but the radio and what listening for the
    acknowledgement does. *)
Lemma keeps_transmit_radio I {HI : RadioInv RX I} frame ack :
  (∀ timeout want, keeps I (listen RX timeout want)) → keeps I (transmit RX frame ack).
Proof using HRX LR.
  intros Hl. pose proof (keeps_csma I) as Hcsma.
  assert (Hs : ∀ n sq, keeps I (software_transmit_loop RX n frame ack sq)).
  { induction n as [|n IH]; intros sq; cbn [software_transmit_loop]; keeps_tac; try done; apply IH. }
  assert (Ha : ∀ n, keeps I (ack_wait_transmit_loop n frame ack)).
  { induction n as [|n IH]; cbn [ack_wait_transmit_loop]; keeps_tac; apply IH. }
  unfold transmit, software_transmit, ack_wait_transmit, full_transmit. keeps_tac; auto.
Qed.

(** Whatever is accepted, the queue gains at most the frame received. *)
Definition queue_gains (f : PhyRxFrame) (s s' : core) : Prop :=
  ∀ g, g ∈ rq_view RX (sm_pending_rx s') → g = f ∨ g ∈ rq_view RX (sm_pending_rx s).

Lemma gains_lift {A B} f (o : outcome MacError A) (k : A → mac B) (s : core) :
  (∀ a, wp (k a) (λ _, queue_gains f s) s) → wp (lift o ≫= k) (λ _, queue_gains f s) s.
Proof using Type. intros Hk. destruct o as [a|e|]; [apply Hk|by right..]. Qed.

Lemma commit_gains {B} (b : B) f (s : core) :
  mac_ok RX s → slot_ready f s →
  wp (commit_back ;; mret b : mac B) (λ _, queue_gains f s) s ∧
  wp (commit_front RX ;; mret b : mac B) (λ _, queue_gains f s) s.
Proof using HRX.
  intros Hok Hr.
  destruct (commit_back_run f s Hok Hr) as (q & Hq & _ & Hv), (commit_front_run f s Hok Hr) as (q' & Hq' & _ & Hv').
  split; apply wp_bind; unfold wp at 1; rewrite ?Hq, ?Hq'; intros g; simpl; rewrite ?Hv, ?Hv'; set_solver.
Qed.

Lemma accept_gains want f (s : core) :
  mac_ok RX s → slot_ready f s → wp (accept RX want) (λ _, queue_gains f s) s.
Proof using HRX.
  intros Hok Hr. pose proof (λ B (b : B), commit_gains b f s Hok Hr) as Hcommit.
  assert (queue_gains f s s) as Hrefl by by right.
  unfold accept. apply wp_get_bind. do 2 (apply gains_lift; intros ?). case_match; [done|].
  do 2 (apply gains_lift; intros ?). cbv zeta.
  destruct want; try (case_match; [done|]; case_match; [done|]; apply gains_lift; intros [[[? ?] ?] ?]; case_match; [done|]).
  all: try (case_match; [apply gains_lift; intros [?|]; done|done]).
  all: match goal with |- wp (mbind ?k (if ?b then lift ?o else _)) _ _ =>
    assert (∀ a, wp (k a) (λ _, queue_gains f s) s) as Hk; [|destruct b; [apply gains_lift|]; auto; apply Hk] end.
  all: intros association; apply wp_bind; eapply (wp_mono _ (λ _, queue_gains f s)); [|by intros [?|?|] s'].
  all: destruct association as [[? ?]|]; [done || apply Hcommit|]; case_match; [done|]; case_match.
  all: try (case_match; [apply gains_lift; intros ?; exact Hrefl|done]).
  all: case_match; apply Hcommit.
Qed.

Section Data.
Context (I : core → Prop) {HI : DataInv RX I}.

Lemma wp_receive_frame t s : I s →
  wp (receive_frame RX t) (λ r s', r ≠ Panic ∧ I s' ∧ ∃ f, slot_ready f s') s.
Proof using HI HRX.
  intros Hs. destruct (receive_frame_spec t s (ri_ok RX s Hs)) as (buf & q & Hbuf & Hrun).
  pose proof (ds_receive t buf (sm_phy s) Hbuf) as Hd. unfold wp.
  destruct (phy_receive t buf (sm_phy s)) as [[r b] p]. destruct Hrun as (-> & Hr & Hq & Hsl & _).
  split; [by destruct r|]. split; [|by exists b]. apply (di_rx RX); [|done]. by apply (ri_phy RX).
Qed.

(** What follows keeps the property and returns. *)
Lemma wp_then {A B} (m : mac A) (k : A → mac B) s :
  wp m (λ r s', r ≠ Panic ∧ I s') s → (∀ a, keeps I (k a)) → wp (m ≫= k) (λ r s', r ≠ Panic ∧ I s') s.
Proof using HI HRX.
  intros Hm Hk. apply wp_bind. eapply wp_mono; [done|]. intros [a|e|] s' [? ?]; [by apply Hk|done|done].
Qed.

Lemma wp_accept want f s : I s → slot_ready f s →
  wp (accept RX want) (λ r s', r ≠ Panic ∧ I s') s.
Proof using HI HRX LR.
  intros Hs Hr. eapply wp_mono; [by apply (accept_spec want f s (ri_ok RX s Hs))|].
  intros r s' (q & role & -> & Hq & Hro & Hp). split; [by destruct r|].
  apply (di_role RX); [|done]. by apply (di_rx RX).
Qed.

Hint Resolve keeps_csma : keeps.

Lemma keeps_send_ack (ack : option (Z * bool)) :
  keeps I (match ack with
           | Some (sequence, frame_pending) =>
               sent ← phy_result (phy_send_ack sequence frame_pending);
               match sent with
               | inl _ | inr ChannelBusy => mret ()
               | inr error => throw (phy_error error)
               end
           | None => mret ()
           end).
Proof using HI. keeps_tac. Qed.

Lemma keeps_listen_loop n started timeout want : keeps I (listen_loop RX n started timeout want).
Proof using HI HRX LR.
  revert want. induction n as [|n IH]; intros want; cbn [listen_loop]; [apply keeps_ret|].
  apply keeps_bind; [eauto with keeps|intros now]. destruct (checked_sub _ _) as [remaining|]; [|apply keeps_ret].
  intros s Hs. apply wp_bind. eapply wp_mono; [by apply wp_receive_frame|].
  intros [[[|]|error]|e|] s' (Hr & Hs' & f & Hf); try done.
  - apply wp_then; [by eapply wp_accept|]. intros [[ack heard] want']. apply keeps_bind; [apply keeps_send_ack|].
    intros _. destruct heard; [apply keeps_ret|apply IH].
  - destruct error; try done. by apply IH.
Qed.

Lemma keeps_listen timeout want : keeps I (listen RX timeout want).
Proof using HI HRX LR. unfold listen. apply keeps_bind; [eauto with keeps|]. intros. apply keeps_listen_loop. Qed.

Hint Resolve keeps_listen : keeps.

Lemma keeps_transmit frame ack : keeps I (transmit RX frame ack).
Proof using HI HRX LR. apply (keeps_transmit_radio I). intros. apply keeps_listen. Qed.

Hint Resolve keeps_transmit : keeps.

(** *** Retained frames *)

Lemma keeps_take_indication : keeps I (take_pending_indication RX).
Proof using HI HRX.
  apply keeps_get_bind. intros s Hs.
  destruct (take_indication_spec (S (rq_len (sm_pending_rx s))) (sm_pib s) (sm_pending_rx s)) as (q & Hq & Hwf & _).
  { apply (mo_rx RX), HI, Hs. }
  { lia. }
  unfold wp, on_rx. rewrite Hq. split; [done|]. by apply HI.
Qed.

Lemma keeps_take_response : keeps I (take_pending_association_response RX).
Proof using HI HRX.
  apply keeps_get_bind. intros s Hs. assert (Hq : rq_wf RX (sm_pending_rx s)) by (apply (mo_rx RX), HI, Hs).
  unfold wp, on_rx.
  destruct (find_response_spec (rq_len (sm_pending_rx s)) 0 (sm_pib s) (sm_pending_rx s) Hq) as (o & -> & Ho); [done|].
  cbn [mbind outcome_bind]. destruct o as [[j r]|].
  - destruct (rq_remove_spec (E:=MacError) RX HRX (sm_pending_rx s) j Hq) as (q & -> & Hwf & _); [lia|].
    split; [done|]. by apply HI.
  - split; [done|]. by apply (di_rx RX).
Qed.

Lemma keeps_take_data : keeps I (take_pending_data RX).
Proof using HI HRX. unfold take_pending_data. apply keeps_bind; [apply keeps_take_indication|intros; apply keeps_ret]. Qed.

Lemma keeps_take_error : keeps I take_pending_error.
Proof using HI. unfold take_pending_error. keeps_tac. apply keeps_modify. intros s Hs. by apply (di_error RX). Qed.

Lemma keeps_take_dsn : keeps I take_dsn.
Proof using HI. intros s Hs. split; [done|]. by apply (di_dsn RX). Qed.

Lemma keeps_take_bsn : keeps I take_bsn.
Proof using HI. intros s Hs. split; [done|]. by apply (di_bsn RX). Qed.

Hint Resolve keeps_take_indication keeps_take_response keeps_take_data keeps_take_error keeps_take_dsn keeps_take_bsn : keeps.

(** *** Data *)

Lemma keeps_data_frame req : keeps I (data_frame req).
Proof using HI. unfold data_frame. keeps_tac. apply no_panic_map_err, no_panic_data_frame. Qed.

Lemma keeps_send_data frame handle : keeps I (send_data RX frame handle).
Proof using HI HRX LR. unfold send_data. keeps_tac. Qed.

Lemma keeps_poll_within timeout : keeps I (poll_within RX timeout).
Proof using HI HRX LR.
  assert (Hl : ∀ n t c o h x b, (0 < n)%nat → (b = true → (1 < n)%nat) → keeps I (poll_loop RX n t timeout c o h x b)).
  { induction n as [|n IH]; intros t c o h x b Hn Hb; [lia|]. cbn [poll_loop].
    keeps_tac. bool_simpl. apply IH; [|done]. assert (1 < S n)%nat by auto. lia. }
  unfold poll_within. keeps_tac.
  unfold poll_addresses. no_panic_tac.
Qed.

Lemma keeps_receive_data timeout : keeps I (receive_data RX timeout).
Proof using HI HRX LR.
  assert (Hl : ∀ n t, keeps I (receive_loop RX n t timeout)).
  { induction n as [|n IH]; intros t; cbn [receive_loop]; keeps_tac.
    intros s Hs. unfold wp. pose proof (rs_take (sm_role s)) as Ht. destruct (take_service_request (sm_role s)) as [b r].
    split; [done|]. by apply (di_role RX). }
  unfold receive_data. keeps_tac.
Qed.

Lemma keeps_notification req : keeps I (disassociation_notification req).
Proof using HI. unfold disassociation_notification. keeps_tac. Qed.

Hint Resolve keeps_data_frame keeps_send_data keeps_notification : keeps.

Lemma keeps_transmit_data req : keeps I (transmit_data RX req).
Proof using HI HRX LR. unfold transmit_data. keeps_tac. Qed.

(** *** Scanning *)

Lemma keeps_scan_channels channels type duration ds es :
  (∀ c, keeps I (set_channel c)) → keeps I (scan_channels RX channels type duration ds es).
Proof using HI HRX LR.
  intros Hc. revert ds es. induction channels as [|c channels IH]; intros ds es; cbn [scan_channels]; keeps_tac.
Qed.
End Data.

(** ** Association *)

(** A property that changing channel and addresses preserves too. *)
Class ConfigInv (I : core → Prop) := {
  ci_data :: DataInv RX I;
  ci_channel c : keeps I (set_channel c);
  ci_addresses pan a : keeps I (set_addresses pan a);
  ci_associated s b : I s → I (with_pib (set_associated_pan_coord b (sm_pib s)) s);
  ci_coordinator s a e : I s →
    I (with_pib (set_coord_extended_address e (set_coord_short_address a (sm_pib s))) s) }.

Section Config.
Context (I : core → Prop) {HI : ConfigInv I}.

Lemma keeps_forget_rx : keeps I (modify_st (λ s, with_rx (rq_clear (sm_pending_rx s)) s)).
Proof using HI HRX.
  apply keeps_modify. intros s Hs. apply (di_rx RX); [done|]. apply (rq_clear_wf RX HRX).
  exact (mo_rx RX s (ri_ok RX s Hs)).
Qed.

Lemma keeps_set_error e : keeps I (modify_st (with_error e)).
Proof using HI. apply keeps_modify. intros s Hs. by apply (di_error RX). Qed.

Lemma keeps_coordinator a e b :
  keeps I (modify_st (λ s, with_pib (set_associated_pan_coord b (set_coord_extended_address e
                                      (set_coord_short_address a (sm_pib s)))) s)).
Proof using HI. apply keeps_modify. intros s Hs. exact (ci_associated _ b (ci_coordinator s a e Hs)). Qed.

Hint Resolve ci_data ci_channel ci_addresses keeps_forget_rx keeps_set_error keeps_coordinator : keeps.

Lemma keeps_prepare req : keeps I (prepare_association req).
Proof using HI HRX. unfold prepare_association. keeps_tac. Qed.

Lemma keeps_clear : keeps I clear_association.
Proof using HI HRX. unfold clear_association. keeps_tac. Qed.

Lemma keeps_finish response : keeps I (finish_association response).
Proof using HI. unfold finish_association. keeps_tac. apply keeps_modify. intros s Hs. by apply ci_associated. Qed.

Hint Resolve keeps_prepare keeps_clear keeps_finish : keeps.
Hint Resolve keeps_transmit keeps_listen keeps_take_response keeps_take_dsn keeps_notification keeps_delay : keeps.

Lemma keeps_associate req : keeps I (associate RX req).
Proof using HI HRX LR.
  assert (Hl : ∀ n polls, 0 <= polls → Z.of_nat n = 33 - polls → polls <= 32 → keeps I (associate_loop RX n req polls)).
  { induction n as [|n IH]; intros polls H0 Hn Hp; [lia|]. cbn [associate_loop]. keeps_tac.
    unfold MAX_ASSOCIATION_POLLS in *. bool_simpl. apply IH; lia. }
  unfold associate. apply keeps_bind; [eauto with keeps|]. intros _. apply Hl; lia.
Qed.

Lemma keeps_disassociate req : keeps I (disassociate RX req).
Proof using HI HRX LR. unfold disassociate. keeps_tac. Qed.
End Config.

(** ** Configuration *)

Lemma keeps_phy_config {A} (m : stm P PhyError A) : returns phy_ok m → keeps (mac_ok RX) (phy_op m).
Proof.
  intros Hm s []. unfold wp, phy_op. destruct (Hm (sm_phy s)) as [Hr Hp]; [done|].
  destruct (m (sm_phy s)) as [[a|e|] p]; split; try done; by split.
Qed.

Lemma keeps_pib_update f : (∀ p, pib_wf p → pib_wf (f p)) → keeps (mac_ok RX) (modify_st (λ s, with_pib (f (sm_pib s)) s)).
Proof. intros Hf. apply keeps_modify. intros s []. split; try done. by apply Hf. Qed.

#[export] Instance mac_ok_config : ConfigInv (mac_ok RX).
Proof.
  split; [apply _|..].
  - intros c. unfold set_channel. destruct (_ && _) eqn:Hc; [|by apply keeps_throw]. bool_simpl.
    apply keeps_bind; [apply keeps_phy_config, LP|intros _]. apply keeps_pib_update. intros p []. by split.
  - intros pan a. unfold set_addresses. apply keeps_bind; [apply keeps_gets|intros pib].
    apply keeps_bind; [apply keeps_phy_config, LP|intros _].
    apply (keeps_pib_update (λ p, set_short_address a (set_pan_id pan p))). intros p []. by split.
  - intros s b [? [] ? ?]. by split.
  - intros s a e [? [] ? ?]. by split.
Qed.

Lemma returns_bind {A B} (m : stm P PhyError A) (k : A → stm P PhyError B) :
  returns phy_ok m → (∀ a, returns phy_ok (k a)) → returns phy_ok (m ≫= k).
Proof.
  intros Hm Hk p Hp. destruct (Hm p Hp) as [Hr Ho]. cbv [mbind stm_bind].
  destruct (m p) as [[a|e|] p']; simpl in *; [by apply Hk|done|done].
Qed.

Lemma returns_full_config pib : returns phy_ok (apply_full_config pib).
Proof.
  unfold apply_full_config. repeat (apply returns_bind; [apply LP|intros _]).
  intros p Hp. split; [done|]. by apply LP.
Qed.

Lemma keeps_clear_role I {HI : DataInv RX I} :
  (∀ s, I s → I (with_role (clear_role (sm_role s)) s)) → keeps I clear_role_state.
Proof.
  intros Hclear. unfold clear_role_state. destruct PARENT; [|apply keeps_ret]. apply keeps_bind; [by apply keeps_modify|intros _].
  apply keeps_bind; [apply keeps_gets|intros caps]. destruct (pc_hardware_auto_ack caps); [|apply keeps_ret].
  apply keeps_phy_do. intros s Hs. apply (ri_phy RX); [done|constructor].
Qed.

Lemma mac_ok_clear (s : core) : mac_ok RX s → mac_ok RX (with_role (clear_role (sm_role s)) s).
Proof. intros []. split; try done. by apply LR. Qed.

Lemma random_seed_Ok pib : pib_wf pib → ∃ r, random_seed (E:=MacError) pib = Ok r.
Proof.
  intros []. unfold random_seed. destruct (ieee_split (pib_extended_address pib)) as (?&?&?&?&?&?&?&?&->); [done|].
  by eexists.
Qed.


Lemma keeps_changed_config attr : keeps (mac_ok RX) (apply_changed_config attr).
Proof.
  unfold apply_changed_config. apply keeps_bind; [apply keeps_gets|intros pib].
  destruct attr; try apply keeps_ret; try (apply keeps_phy_config, LP).
  apply keeps_phy_do. intros s []. split; try done. by apply LP.
Qed.

(** A write whose effect on the radio failed is taken back. *)
Lemma changed_config_error attr (s : core) e s' :
  apply_changed_config attr s = (Err e, s') → radio_attribute attr = true ∧ sm_pib s' = sm_pib s.
Proof.
  unfold apply_changed_config, phy_op. cbv [mbind stm_bind gets]. destruct attr; try done; intros H;
    match goal with H : (let '(_, _) := ?m in _) = _ |- _ => destruct m as [[?|?|] ?]; simplify_eq/=; done end.
Qed.

Lemma set_pib_run attr v (s : core) :
  pib_wf (sm_pib s) →
  set_pib attr v s =
  match pib_set attr v (sm_pib s) with
  | Ok p =>
      match apply_changed_config attr (with_pib p s) with
      | (Err e, s') => (Err e, with_pib (sm_pib s) s')
      | r => r
      end
  | Err e => (Err (pib_error e), s)
  | Panic => (Panic, s)
  end.
Proof.
  intros Hp. unfold set_pib. cbv [mbind stm_bind gets try_st]. unfold pib_store at 1.
  destruct (pib_set attr v (sm_pib s)) as [p|e|] eqn:Hs; [|done|done].
  destruct (apply_changed_config attr (with_pib p s)) as [[[]|e|] s'] eqn:Hc; [done| |done].
  apply changed_config_error in Hc as [Hr Hs']. unfold pib_store. rewrite Hs'. cbn [sm_pib with_pib].
  unfold get_pib. rewrite (pib_set_restore _ v) by done. done.
Qed.

Lemma keeps_set_pib attr v : value_wf v → keeps (mac_ok RX) (set_pib attr v).
Proof.
  intros Hv s Hs. unfold wp. rewrite set_pib_run by apply Hs.
  pose proof (no_panic_pib_set attr v (sm_pib s)) as Hn.
  destruct (pib_set attr v (sm_pib s)) as [p|e|] eqn:Hp; [|done|done].
  assert (Hok : mac_ok RX (with_pib p s)) by (destruct Hs; split; try done; by eapply pib_set_wf).
  pose proof (keeps_changed_config attr _ Hok) as [Hr Hok']. destruct (apply_changed_config _ _) as [[[]|e|] s']; simpl in *; [done| |done].
  split; [done|]. destruct Hs, Hok'. by split.
Qed.

Hint Resolve mac_ok_config mac_ok_data mac_ok_clear keeps_forget_rx keeps_set_error keeps_clear_role : keeps.

(** The information base a reset installs. *)
Definition reset_next (ext : IeeeAddress) (dsn bsn : Z) : MacPib :=
  if negb (DEFAULT_TX_POWER_DBM =? 0) then set_transmit_power DEFAULT_TX_POWER_DBM (pib_new ext dsn bsn)
  else pib_new ext dsn bsn.

Lemma reset_pib_run dsn bsn (s : core) :
  pib_wf (sm_pib s) →
  let next := reset_next (pib_extended_address (sm_pib s)) dsn bsn in
  pib_wf next ∧ ∃ seed, reset_pib dsn bsn s =
    (phy_op (apply_full_config next) ;; modify_st (with_pib next) ;;
     modify_st (λ s, with_rx (rq_clear (sm_pending_rx s)) s) ;; modify_st (with_error None) ;;
     random_state ← lift (Ok seed); modify_st (with_random random_state) ;; clear_role_state) s.
Proof.
  intros Hp next. assert (Hn : pib_wf next).
  { pose proof (pib_new_wf _ dsn bsn (pw_extended _ Hp)) as Hw. unfold next, reset_next. destruct (negb _); [|done].
    destruct Hw. by split. }
  split; [done|]. destruct (random_seed_Ok next Hn) as [seed Hseed]. exists seed. rewrite <- Hseed.
  unfold reset_pib, next, reset_next. by destruct (negb _).
Qed.

Lemma keeps_reset_pib dsn bsn : keeps (mac_ok RX) (reset_pib dsn bsn).
Proof using HRX LR LP.
  intros s Hs. destruct (reset_pib_run dsn bsn s (mo_pib _ _ Hs)) as (Hn & seed & Hrun).
  unfold wp. rewrite Hrun. revert s Hs Hrun Hn. intros s. set (next := reset_next _ dsn bsn). intros Hs _ Hn.
  assert (Hk : keeps (mac_ok RX) (phy_op (apply_full_config next) ;; modify_st (with_pib next) ;;
    modify_st (λ s, with_rx (rq_clear (sm_pending_rx s)) s) ;; modify_st (with_error None) ;;
    random_state ← lift (Ok seed); modify_st (with_random random_state) ;; clear_role_state)); [|by apply Hk].
  apply keeps_bind; [apply keeps_phy_config, returns_full_config|intros _].
  apply keeps_bind; [apply keeps_modify; intros ? []; by split|intros _].
  keeps_tac. apply keeps_modify. intros s' []. by split.
Qed.

Lemma keeps_reset b : keeps (mac_ok RX) (reset b).
Proof using HRX LR LP.
  unfold reset. destruct b.
  - apply keeps_bind; [eauto with keeps|]. intros. apply keeps_reset_pib.
  - apply keeps_bind; [apply keeps_gets|intros pib].
    apply keeps_bind; [apply keeps_phy_config, returns_full_config|intros _]. keeps_tac.
Qed.

Lemma keeps_wake : keeps (mac_ok RX) wake.
Proof.
  unfold wake. apply keeps_bind; [apply keeps_phy_config, LP|intros _]. apply keeps_bind; [apply keeps_gets|intros pib].
  apply keeps_phy_config, returns_full_config.
Qed.

Lemma keeps_scan req : is_u8 (scr_scan_duration req) → keeps (mac_ok RX) (scan RX req).
Proof using HRX LR LP.
  intros Hd. unfold scan. destruct (14 <? _) eqn:H14; [apply keeps_throw|]. case_bool_decide; [apply keeps_throw|].
  unfold is_u8 in Hd. bool_simpl. destruct (scan_duration_Ok (scr_scan_duration req)) as (d & -> & Hlt); [lia|].
  apply keeps_bind; [by apply keeps_lift|intros d']. apply keeps_bind; [by keeps_tac|intros d''].
  apply keeps_bind; [apply keeps_gets|intros original].
  apply keeps_bind; [apply keeps_phy_config, LP|intros _].
  apply keeps_bind; [apply keeps_try, keeps_scan_channels; [apply _|]; intros c; apply mac_ok_config|intros result].
  apply keeps_bind; [apply mac_ok_config|intros _]. apply keeps_bind; [apply keeps_gets|intros pib].
  apply keeps_bind; [apply keeps_phy_config, LP|intros _].
  keeps_tac.
Qed.
End Ops.

#[export] Hint Resolve keeps_phy_result keeps_phy_op data_op_map data_op_try_transmit data_op_send_ack
  data_op_energy_detect data_op_acknowledged data_op_offloaded data_op_set_ack keeps_delay keeps_clock keeps_random
  keeps_backoff keeps_csma keeps_listen keeps_transmit keeps_take_indication keeps_take_response keeps_take_data
  keeps_take_error keeps_take_dsn keeps_take_bsn keeps_data_frame keeps_send_data keeps_notification
  ci_data ci_channel ci_addresses keeps_forget_rx keeps_set_error keeps_coordinator keeps_clear_role : keeps.

(** * Histories *)

(** The operations of the driver interface. *)
Inductive mac_op :=
| OpSetPib (attr : PibAttribute) (value : PibValue)
| OpReset (set_default_pib : bool)
| OpSleep
| OpWake
| OpAssociate (req : MlmeAssociateRequest)
| OpDisassociate (req : MlmeDisassociateRequest)
| OpData (req : McpsDataRequest)
| OpPoll (timeout_us : Z)
| OpReceive (timeout_us : Z)
| OpScan (req : MlmeScanRequest).

Definition op_wf (op : mac_op) : Prop :=
  match op with
  | OpSetPib _ v => value_wf v
  | OpScan req => is_u8 (scr_scan_duration req)
  | _ => True
  end.

Section History.
Context {P R : Type} {HP : RadioPhy P} {HR : MacRole R} (RX : nat).

Definition mac_step (op : mac_op) : stm (SoftMacCore P R) MacError unit :=
  match op with
  | OpSetPib attr v => set_pib attr v
  | OpReset b => reset b
  | OpSleep => sleep
  | OpWake => wake
  | OpAssociate req => associate RX req ;; mret ()
  | OpDisassociate req => disassociate RX req
  | OpData req => transmit_data RX req ;; mret ()
  | OpPoll t => poll_within RX t ;; mret ()
  | OpReceive t => receive_data RX t ;; mret ()
  | OpScan req => scan RX req ;; mret ()
  end.

(** The state after a history; an operation that reports an error is one of
    its steps. *)
Fixpoint mac_run (ops : list mac_op) (s : SoftMacCore P R) : outcome unit (SoftMacCore P R) :=
  match ops with
  | [] => Ok s
  | op :: ops => match mac_step op s with (Panic, _) => Panic | (_, s') => mac_run ops s' end
  end.

Context {LP : LawfulPhy P} {LR : LawfulRole R} (HRX : (0 < RX <= 255)%nat).

Lemma keeps_mac_step op : op_wf op → keeps (mac_ok RX) (mac_step op).
Proof using HRX.
  intros Hop. destruct op; cbn [mac_step op_wf] in *.
  - by apply keeps_set_pib.
  - by apply keeps_reset.
  - apply keeps_phy_config, LP.
  - apply keeps_wake.
  - apply keeps_bind; [apply keeps_associate; [done|apply mac_ok_config]|intros; apply keeps_ret].
  - apply keeps_disassociate; [done|apply mac_ok_config].
  - apply keeps_bind; [apply keeps_transmit_data; [done|apply _]|intros; apply keeps_ret].
  - apply keeps_bind; [apply keeps_poll_within; [done|apply _]|intros; apply keeps_ret].
  - apply keeps_bind; [apply keeps_receive_data; [done|apply _]|intros; apply keeps_ret].
  - apply keeps_bind; [by apply keeps_scan|intros; apply keeps_ret].
Qed.

(** A history of operations that keep a property keeps it and returns. *)
Lemma mac_run_keeps (I : SoftMacCore P R → Prop) ops s :
  (∀ op, op ∈ ops → keeps I (mac_step op)) → I s → ∃ s', mac_run ops s = Ok s' ∧ I s'.
Proof using Type.
  revert s. induction ops as [|op ops IH]; intros s Hk Hs; cbn [mac_run]; [by exists s|].
  destruct (Hk op (list_elem_of_here _ _) s Hs) as [Hr Hs'].
  destruct (mac_step op s) as [[u|e|] s']; simpl in *; [| |done]; apply IH; try done; intros; apply Hk; by constructor.
Qed.

Lemma new_custom_ok phy pib :
  phy_ok phy → pib_wf pib →
  match new_custom RX phy pib with Ok s => mac_ok (P:=P) (R:=R) RX s | Err _ => True | Panic => False end.
Proof using HRX LR.
  intros Hphy Hpib. unfold new_custom. destruct (returns_full_config pib phy Hphy) as [Hr Ho].
  destruct (apply_full_config pib phy) as [[u|e|] p]; simpl in *; [|done|done].
  destruct (random_seed_Ok pib Hpib) as [r ->]. split; simpl; try done; [|apply LR].
  by apply rq_new_wf.
Qed.
End History.
