(* ===== verification/SoftMacRadio.v ===== *)
(** * SoftMacRadio: the software MAC seen from the radio

    A radio that records what the MAC asks of it, and the properties of
    [SoftMac] that are about this record: the radio is configured as the
    information base says, and a transmission is reported acknowledged only if
    it was.  A scripted radio serves the witnesses. *)

From S2P Require Import Prelude Effects ZigbeeTypes MacFrames MacPib MacRxQueue SoftMac SoftMacSafe.

Local Open Scope Z_scope.

(** * A recording radio *)

Inductive RadioEvent :=
| EvTransmit (frame : list Z) (r : outcome PhyError unit)
| EvTransmitAcknowledged (frame : list Z) (r : outcome PhyError (option AckResult))
| EvOffloaded (frame : list Z) (ack : bool) (r : outcome PhyError (option AckResult))
| EvReceive (r : outcome PhyError bool) (f : PhyRxFrame)
| EvSendAck (sequence : Z) (frame_pending : bool) (r : outcome PhyError unit)
| EvChannel (c : Z) (r : outcome PhyError unit)
| EvPower (v : Z) (r : outcome PhyError unit)
| EvFilter (a : option PhyAddressFilter) (r : outcome PhyError unit)
| EvRxOnWhenIdle (b : bool).

(** The newest event is first. *)
Record Recorded (P : Type) := mk_Recorded { rec_phy : P; rec_log : list RadioEvent }.
Arguments mk_Recorded {P}.
Arguments rec_phy {P}.
Arguments rec_log {P}.

Section Recorder.
Context {P : Type} {HP : RadioPhy P}.

Definition rec_do (f : P → P) (p : Recorded P) : Recorded P := mk_Recorded (f (rec_phy p)) (rec_log p).
Definition rec_quiet {A} (m : stm P PhyError A) : stm (Recorded P) PhyError A := λ p,
  let '(r, p') := m (rec_phy p) in (r, mk_Recorded p' (rec_log p)).
Definition rec_op {A} (ev : outcome PhyError A → RadioEvent) (m : stm P PhyError A) : stm (Recorded P) PhyError A := λ p,
  let '(r, p') := m (rec_phy p) in (r, mk_Recorded p' (ev r :: rec_log p)).

#[export] Instance Recorded_phy : RadioPhy (Recorded P) := {
  phy_tx := phy_tx;
  POLL_RESPONSE_WAIT_US := POLL_RESPONSE_WAIT_US;
  POLL_EXTENDED_FALLBACK := POLL_EXTENDED_FALLBACK;
  DEFAULT_TX_POWER_DBM := DEFAULT_TX_POWER_DBM;
  phy_poll_response_wait_us p := phy_poll_response_wait_us (rec_phy p);
  phy_capabilities p := phy_capabilities (rec_phy p);
  phy_try_transmit f := rec_op (EvTransmit f) (phy_try_transmit f);
  phy_send_ack n b := rec_op (EvSendAck n b) (phy_send_ack n b);
  phy_receive t b p :=
    let '(r, b', p') := phy_receive t b (rec_phy p) in (r, b', mk_Recorded p' (EvReceive r b' :: rec_log p));
  phy_set_channel c := rec_op (EvChannel c) (phy_set_channel c);
  phy_set_tx_power v := rec_op (EvPower v) (phy_set_tx_power v);
  phy_energy_detect d := rec_quiet (phy_energy_detect d);
  phy_set_address_filter a := rec_op (EvFilter a) (phy_set_address_filter a);
  phy_try_transmit_acknowledged f := rec_op (EvTransmitAcknowledged f) (phy_try_transmit_acknowledged f);
  phy_transmit_offloaded f b t := rec_op (EvOffloaded f b) (phy_transmit_offloaded f b t);
  phy_set_ack_frame_pending a b := rec_quiet (phy_set_ack_frame_pending a b);
  phy_clear_ack_frame_pending := rec_do phy_clear_ack_frame_pending;
  phy_set_rx_on_when_idle b p := mk_Recorded (phy_set_rx_on_when_idle b (rec_phy p)) (EvRxOnWhenIdle b :: rec_log p);
  phy_sleep := rec_quiet phy_sleep;
  phy_wake := rec_quiet phy_wake;
  phy_monotonic_micros p := let '(t, p') := phy_monotonic_micros (rec_phy p) in (t, mk_Recorded p' (rec_log p));
  phy_delay_micros d := rec_do (phy_delay_micros d) }.

Context {LP : LawfulPhy P}.

Lemma returns_rec_op {A} ev (m : stm P PhyError A) :
  returns phy_ok m → returns (λ p, phy_ok (rec_phy p)) (rec_op ev m).
Proof using Type. intros Hm p Hp. unfold rec_op. specialize (Hm _ Hp). by destruct (m (rec_phy p)). Qed.

Lemma returns_rec_quiet {A} (m : stm P PhyError A) :
  returns phy_ok m → returns (λ p, phy_ok (rec_phy p)) (rec_quiet m).
Proof using Type. intros Hm p Hp. unfold rec_quiet. specialize (Hm _ Hp). by destruct (m (rec_phy p)). Qed.

#[export, refine] Instance Recorded_lawful : LawfulPhy (Recorded P) := {| phy_ok p := phy_ok (rec_phy p) |}.
Proof using LP.
  all: simpl; intros; try (apply returns_rec_op, LP); try (apply returns_rec_quiet, LP); try (by apply LP).
  - pose proof (lp_receive t b (rec_phy p)) as Hr. destruct (phy_receive t b (rec_phy p)) as [[r b'] p']. by apply Hr.
  - pose proof (lp_monotonic_micros (rec_phy p)) as Ht. destruct (phy_monotonic_micros (rec_phy p)) as [t p']. by apply Ht.
Defined.
End Recorder.

(** * A scripted radio *)

(** It hears a given list of frames, one per call, and fails transmissions and
    configuration commands as the two other lists say; with nothing left an
    operation succeeds. *)
Record Scripted := mk_Scripted {
  scr_frames : list (list Z);
  scr_sent : list (option PhyError);
  scr_config : list (option PhyError);
  scr_time : Z }.

Definition scr_result {A} (a : A) (l : list (option PhyError)) : outcome PhyError A :=
  match head l with Some (Some e) => Err e | _ => Ok a end.
Definition scr_next_sent {A} (a : A) : stm Scripted PhyError A := λ p,
  (scr_result a (scr_sent p), mk_Scripted (scr_frames p) (tail (scr_sent p)) (scr_config p) (scr_time p)).
Definition scr_next_config {A} (a : A) : stm Scripted PhyError A := λ p,
  (scr_result a (scr_config p), mk_Scripted (scr_frames p) (scr_sent p) (tail (scr_config p)) (scr_time p)).
Definition scr_tick (d : Z) (p : Scripted) : Scripted :=
  mk_Scripted (scr_frames p) (scr_sent p) (scr_config p) (as_u32 (scr_time p + d)).

#[export] Instance Scripted_phy : RadioPhy Scripted := {
  phy_tx := SoftwareTx;
  POLL_RESPONSE_WAIT_US := 30000;
  POLL_EXTENDED_FALLBACK := true;
  DEFAULT_TX_POWER_DBM := 0;
  phy_poll_response_wait_us _ := 30000;
  phy_capabilities _ := mk_PhyCapabilities false false (-20) 8;
  phy_try_transmit _ := scr_next_sent ();
  phy_send_ack _ _ := scr_next_sent ();
  phy_receive _ b p :=
    match scr_frames p with
    | [] => (Ok false, b, p)
    | f :: l =>
        match rx_set f 200 b with
        | Ok b' => (Ok true, b', mk_Scripted l (scr_sent p) (scr_config p) (scr_time p))
        | _ => (Err CrcFailed, b, mk_Scripted l (scr_sent p) (scr_config p) (scr_time p))
        end
    end;
  phy_set_channel _ := scr_next_config ();
  phy_set_tx_power _ := scr_next_config ();
  phy_energy_detect _ := scr_next_config 17;
  phy_set_address_filter _ := scr_next_config ();
  phy_try_transmit_acknowledged _ := scr_next_sent None;
  phy_transmit_offloaded _ _ _ := scr_next_sent None;
  phy_set_ack_frame_pending _ _ := scr_next_config ();
  phy_clear_ack_frame_pending p := p;
  phy_set_rx_on_when_idle _ p := p;
  phy_sleep := scr_next_config ();
  phy_wake := scr_next_config ();
  phy_monotonic_micros p := (scr_time p, scr_tick 100 p);
  phy_delay_micros d := scr_tick d }.

#[export, refine] Instance Scripted_lawful : LawfulPhy Scripted := {| phy_ok _ := True |}.
Proof.
  all: intros; try done; try (intros p' _; split; [|done]; simpl; unfold scr_result; by repeat case_match).
  simpl. destruct (scr_frames p) as [|f l]; [done|]. destruct (rx_set f 200 b) as [b'|e|] eqn:Hb; [|done|done].
  split; [done|]. split; [|done]. by eapply rx_set_wf.
Defined.

Definition ex_ieee : IeeeAddress := [2; 1; 2; 3; 4; 5; 6; 7].
Definition ex_pib : MacPib := pib_new ex_ieee 7 9.

Lemma ex_pib_wf : pib_wf ex_pib.
Proof. by apply pib_new_wf. Qed.

(** The MAC of the witnesses. *)
Lemma ex_start_ok (phy : Scripted) s :
  new_custom (R:=EndDevice) 4 (mk_Recorded phy []) ex_pib = Ok s → mac_ok 4 s.
Proof.
  intros Hs. pose proof (new_custom_ok (P:=Recorded Scripted) (R:=EndDevice) 4 ltac:(lia) (mk_Recorded phy []) ex_pib) as Hn.
  rewrite Hs in Hn. apply Hn; [done|apply ex_pib_wf].
Qed.

(** * The configuration of the radio *)

(** What the newest successful command of a kind set. *)
Definition latest {A} (f : RadioEvent → option A) (log : list RadioEvent) : option A := head (omap f log).

Definition set_channel_of (e : RadioEvent) : option Z := match e with EvChannel c (Ok _) => Some c | _ => None end.
Definition set_power_of (e : RadioEvent) : option Z := match e with EvPower v (Ok _) => Some v | _ => None end.
Definition set_filter_of (e : RadioEvent) : option (option PhyAddressFilter) :=
  match e with EvFilter a (Ok _) => Some a | _ => None end.
Definition set_idle_of (e : RadioEvent) : option bool := match e with EvRxOnWhenIdle b => Some b | _ => None end.

(** A configuration command the radio refused. *)
Definition config_failed (e : RadioEvent) : bool :=
  match e with EvChannel _ (Ok _) | EvPower _ (Ok _) | EvFilter _ (Ok _) => false
  | EvChannel _ _ | EvPower _ _ | EvFilter _ _ => true | _ => false end.

(** An event that is no configuration command. *)
Definition is_config (e : RadioEvent) : bool :=
  match e with EvChannel _ _ | EvPower _ _ | EvFilter _ _ | EvRxOnWhenIdle _ => true | _ => false end.

Section Configured.
Context {P R : Type} {HP : RadioPhy P} {HR : MacRole R} {LP : LawfulPhy P} {LR : LawfulRole R}.
Context (RX : nat).
Local Abbreviation core := (SoftMacCore (Recorded P) R).
Local Abbreviation mac := (stm core MacError).

Definition log_of (s : core) : list RadioEvent := rec_log (sm_phy s).

Lemma latest_skip {A} (f : RadioEvent → option A) e log : f e = None → latest f (e :: log) = latest f log.
Proof using Type. intros He. unfold latest. simpl. by rewrite He. Qed.

Lemma latest_set {A} (f : RadioEvent → option A) e log a : f e = Some a → latest f (e :: log) = Some a.
Proof using Type. intros He. unfold latest. simpl. by rewrite He. Qed.

(** The radio has the channel, the power and the idle mode of the information
    base, and the filter [flt]. *)
Record configured (flt : MacPib → option PhyAddressFilter) (s : core) : Prop := {
  cf_channel : latest set_channel_of (log_of s) = Some (pib_current_channel (sm_pib s));
  cf_power : latest set_power_of (log_of s) = Some (pib_transmit_power (sm_pib s));
  cf_filter : latest set_filter_of (log_of s) = Some (flt (sm_pib s));
  cf_idle : latest set_idle_of (log_of s) = Some (pib_rx_on_when_idle (sm_pib s)) }.

Definition failures (s : core) : nat := length (filter (λ e, config_failed e = true) (log_of s)).

(** Well formed and configured: always ([strict]), or as long as no command
    failed since there were [n] failures. *)
Record tuned (flt : MacPib → option PhyAddressFilter) (strict : bool) (n : nat) (s : core) : Prop := {
  tn_ok : mac_ok RX s;
  tn_failures : (n <= failures s)%nat;
  tn_configured : strict = true ∨ failures s = n → configured flt s }.

(** The filter depends on the addresses only. *)
Definition addresses_of (p : MacPib) : bool * PanId * ShortAddress * IeeeAddress :=
  (pib_promiscuous p, pib_pan_id p, pib_short_address p, pib_extended_address p).
Class AddressFilter (flt : MacPib → option PhyAddressFilter) : Prop :=
  address_filter_spec p p' : addresses_of p = addresses_of p' → flt p = flt p'.
#[export] Instance address_filter_addresses : AddressFilter address_filter.
Proof using Type. intros p p' H. unfold addresses_of in H. unfold address_filter. by injection H as -> -> -> ->. Qed.
#[export] Instance no_filter_addresses : AddressFilter (λ _, None).
Proof using Type. done. Qed.

Definition same_config (p p' : MacPib) : Prop :=
  addresses_of p = addresses_of p' ∧ pib_current_channel p = pib_current_channel p' ∧
  pib_transmit_power p = pib_transmit_power p' ∧ pib_rx_on_when_idle p = pib_rx_on_when_idle p'.

(** Only the log's configuration commands and these attributes matter. *)
Lemma tuned_transport flt `{!AddressFilter flt} strict n s s' :
  tuned flt strict n s → mac_ok RX s' → same_config (sm_pib s) (sm_pib s') →
  (log_of s' = log_of s ∨ ∃ e, is_config e = false ∧ log_of s' = e :: log_of s) → tuned flt strict n s'.
Proof using Type.
  intros [Hok Hn Hc] Hok' (Ha & Hch & Hpw & Hid) Hlog.
  assert (Hf : failures s' = failures s).
  { unfold failures. destruct Hlog as [->|(e & He & ->)]; [done|]. rewrite filter_cons_False; [done|]. by destruct e. }
  split; [done|lia|]. intros Hn'. destruct Hc as [H1 H2 H3 H4]; [by rewrite <- Hf|]. rewrite (address_filter_spec _ _ Ha) in H3.
  destruct Hlog as [Hl|(e & He & Hl)]; split; rewrite Hl; rewrite ?latest_skip by (by destruct e); congruence.
Qed.

Lemma data_step_log (p p' : Recorded P) :
  data_step p p' → rec_log p' = rec_log p ∨ ∃ e, is_config e = false ∧ rec_log p' = e :: rec_log p.
Proof using Type.
  destruct 1; simpl; unfold rec_op, rec_quiet; repeat case_match; simplify_eq/=; auto; right; eexists; (split; [|done]); done.
Qed.

#[global] Instance tuned_data flt strict n `{!AddressFilter flt} : DataInv RX (tuned flt strict n).
Proof using Type.
  split; [split|..].
  - by intros s [].
  - intros s p Hs Hd. apply (tuned_transport flt strict n s); [done|exact (ri_phy (I:=mac_ok RX) RX s p (tn_ok _ _ _ _ Hs) Hd)|done|]. by apply data_step_log.
  - intros s r Hs. apply (tuned_transport flt strict n s); [done|exact (ri_random (I:=mac_ok RX) RX s r (tn_ok _ _ _ _ Hs))|done|by left].
  - intros s q Hs Hq. apply (tuned_transport flt strict n s); [done|exact (di_rx (I:=mac_ok RX) RX s q (tn_ok _ _ _ _ Hs) Hq)|done|by left].
  - intros s e Hs. apply (tuned_transport flt strict n s); [done|exact (di_error (I:=mac_ok RX) RX s e (tn_ok _ _ _ _ Hs))|done|by left].
  - intros s r Hs Hr. apply (tuned_transport flt strict n s); [done|exact (di_role (I:=mac_ok RX) RX s r (tn_ok _ _ _ _ Hs) Hr)|done|by left].
  - intros s d Hs. apply (tuned_transport flt strict n s); [done|exact (di_dsn (I:=mac_ok RX) RX s d (tn_ok _ _ _ _ Hs))|done|by left].
  - intros s d Hs. apply (tuned_transport flt strict n s); [done|exact (di_bsn (I:=mac_ok RX) RX s d (tn_ok _ _ _ _ Hs))|done|by left].
Qed.

(** A configuration command: its event is on top of the log. *)
Lemma phy_op_rec {A} ev (m : stm P PhyError A) (s : core) :
  phy_op (rec_op ev m) s =
  let '(r, p) := m (rec_phy (sm_phy s)) in
  (map_outcome_err phy_error r, with_phy (mk_Recorded p (ev r :: log_of s)) s).
Proof using Type. unfold phy_op, rec_op. by destruct (m _). Qed.

Lemma configured_refused flt s s' e :
  configured flt s → log_of s' = e :: log_of s → config_failed e = true → sm_pib s' = sm_pib s → configured flt s'.
Proof using Type. intros [] Hl He Hp. split; rewrite Hl, latest_skip, ?Hp by (by destruct e as [| | | | |? []|? []|? []|]); done. Qed.

Lemma failures_cons s s' e : log_of s' = e :: log_of s → failures s' = if config_failed e then S (failures s) else failures s.
Proof using Type.
  intros Hl. unfold failures. rewrite Hl. destruct (config_failed e) eqn:He; [by rewrite filter_cons_True|].
  rewrite filter_cons_False by (by rewrite He). done.
Qed.

(** A refused command changes nothing. *)
Lemma tuned_refused flt strict n s s' e :
  tuned flt strict n s → mac_ok RX s' → log_of s' = e :: log_of s → config_failed e = true →
  sm_pib s' = sm_pib s → tuned flt strict n s'.
Proof using Type.
  intros [Hok Hn Hc] Hok' Hl He Hp. pose proof (failures_cons s s' e Hl) as Hf. rewrite He in Hf.
  split; [done|lia|]. intros [Hst|Hst]; [|lia]. eapply configured_refused; [|done|done|done]. by apply Hc; left.
Qed.

Lemma tuned_failed flt n s : mac_ok RX s → (n < failures s)%nat → tuned flt false n s.
Proof using Type. intros Hok Hn. split; [done|lia|]. intros [?|?]; [done|lia]. Qed.

Lemma tuned_weaken flt strict n m s : tuned flt strict n s → (m <= failures s)%nat → (strict = true ∨ n = failures s) → tuned flt false m s.
Proof using Type. intros [Hok Hn Hc] Hm Hs. split; [done|done|]. intros _. apply Hc. destruct Hs; auto. Qed.

Lemma keeps_tuned_channel flt `{!AddressFilter flt} strict n c : keeps (tuned flt strict n) (set_channel c).
Proof using LR LP.
  intros s Hs. pose proof (ci_channel (I:=mac_ok RX) RX c s (tn_ok _ _ _ _ Hs)) as Hk. revert Hk.
  unfold wp, set_channel. destruct (negb _); [done|]. cbv [mbind stm_bind modify_st]. simpl. rewrite phy_op_rec.
  destruct (phy_set_channel c _) as [[[]|e|] p]; simpl; intros [Hr Hok']; [| |done].
  - split; [done|]. split; [done| |].
    + rewrite (failures_cons s _ (EvChannel c (Ok ()))) by done. apply Hs.
    + rewrite (failures_cons s _ (EvChannel c (Ok ()))) by done. intros [H1 H2 H3 H4]%(tn_configured _ _ _ _ Hs).
      split; unfold log_of in *; simpl; [by rewrite (latest_set _ _ _ c)| | |]; rewrite latest_skip by done; [done| |done].
      rewrite H3. f_equal. by apply address_filter_spec.
  - split; [done|]. by eapply tuned_refused.
Qed.

Lemma keeps_tuned_addresses strict n pan a : keeps (tuned address_filter strict n) (set_addresses pan a).
Proof using LR LP.
  intros s Hs. pose proof (ci_addresses (I:=mac_ok RX) RX pan a s (tn_ok _ _ _ _ Hs)) as Hk. revert Hk.
  unfold wp, set_addresses. cbv [mbind stm_bind modify_st gets]. simpl. rewrite phy_op_rec.
  set (f := if pib_promiscuous (sm_pib s) then None else _).
  destruct (phy_set_address_filter f _) as [[[]|e|] p]; simpl; intros [Hr Hok']; [| |done].
  - split; [done|]. split; [done| |].
    + rewrite (failures_cons s _ (EvFilter f (Ok ()))) by done. apply Hs.
    + rewrite (failures_cons s _ (EvFilter f (Ok ()))) by done. intros [H1 H2 H3 H4]%(tn_configured _ _ _ _ Hs).
      split; unfold log_of in *; simpl; [by rewrite latest_skip..| |by rewrite latest_skip]. by rewrite (latest_set _ _ _ f).
  - split; [done|]. by eapply tuned_refused.
Qed.

#[global] Instance tuned_config strict n : ConfigInv RX (tuned address_filter strict n).
Proof using LR LP.
  split; [apply _|..].
  - intros c. by apply keeps_tuned_channel, _.
  - intros pan a. apply keeps_tuned_addresses.
  - intros s b Hs. apply (tuned_transport address_filter strict n s); [done| |done|by left].
    exact (ci_associated (I:=mac_ok RX) RX s b (tn_ok _ _ _ _ Hs)).
  - intros s a e Hs. apply (tuned_transport address_filter strict n s); [done| |done|by left].
    exact (ci_coordinator (I:=mac_ok RX) RX s a e (tn_ok _ _ _ _ Hs)).
Qed.

Lemma pib_set_same_config attr v p p' :
  radio_attribute attr = false → pib_set attr v p = Ok p' → same_config p p'.
Proof using Type. intros Hr Hs. destruct attr; try done; destruct v; try done; simpl in Hs; repeat case_match; by simplify_eq/=. Qed.

(** What a command set, the others keeping what they had. *)
Lemma tuned_set strict n s s' e :
  tuned address_filter strict n s → mac_ok RX s' → log_of s' = e :: log_of s → config_failed e = false →
  (configured address_filter s → configured address_filter s') → tuned address_filter strict n s'.
Proof using Type.
  intros [Hok Hn Hc] Hok' Hl He Hcf. pose proof (failures_cons s s' e Hl) as Hf. rewrite He in Hf.
  split; [done|lia|]. rewrite Hf. auto.
Qed.

Lemma keeps_tuned_set_pib n attr v : value_wf v → keeps (tuned address_filter true n) (set_pib attr v).
Proof using LR LP.
  intros Hv s Hs. pose proof (keeps_set_pib RX attr v Hv s (tn_ok _ _ _ _ Hs)) as Hk. revert Hk.
  unfold wp. rewrite !set_pib_run by apply Hs. destruct (pib_set attr v (sm_pib s)) as [p|e|] eqn:Hp; [|by intros [? _]|by intros []].
  destruct (radio_attribute attr) eqn:Hr.
  - pose proof (pib_set_restore attr v (sm_pib s) p) as Hrest.
    destruct attr; try done; unfold apply_changed_config; cbv [mbind stm_bind gets phy_do modify_st];
      cbn [phy_set_channel phy_set_tx_power phy_set_address_filter Recorded_phy sm_pib with_pib phy_set_rx_on_when_idle];
      try (rewrite !phy_op_rec; match goal with |- context [?f (rec_phy ?q)] => destruct (f (rec_phy q)) as [[[]|e|] p'] end);
      simpl; intros [Hres Hok']; try done; (split; [done|]);
      try (eapply tuned_refused; [done|done|done|done|done]).
    all: eapply (tuned_set _ _ s); [done|done|done|done|].
    all: destruct v; try done; simpl in Hp; repeat case_match; simplify_eq/=; intros [H1 H2 H3 H4];
      split; unfold log_of in *; simpl; (erewrite latest_set by done) || rewrite latest_skip by done; done.
  - assert (Hsame : same_config (sm_pib s) p) by (by eapply pib_set_same_config).
    assert (Hrun : apply_changed_config attr (with_pib p s) = (Ok (), with_pib p s)) by (by destruct attr).
    rewrite !Hrun. simpl. intros [_ Hok']. split; [done|]. by apply (tuned_transport address_filter true n s); [..|left].
Qed.

Lemma keeps_tuned_quiet flt `{!AddressFilter flt} strict n {A} (m : stm P PhyError A) :
  returns phy_ok m → keeps (tuned flt strict n) (phy_op (rec_quiet m)).
Proof using LR LP.
  intros Hm s Hs. pose proof (keeps_phy_config RX (rec_quiet m) (returns_rec_quiet m Hm) s (tn_ok _ _ _ _ Hs)) as Hk.
  revert Hk. unfold wp, phy_op, rec_quiet. destruct (m _) as [r p]. intros [Hr Hok]. split; [done|].
  by apply (tuned_transport flt strict n s); [..|left].
Qed.

(** The whole configuration is applied, or a command of it failed. *)
Lemma full_config_run pib (s : core) :
  ∃ r p new, phy_op (apply_full_config pib) s = (r, with_phy (mk_Recorded p (new ++ log_of s)) s) ∧
    match r with
    | Ok _ => new = [EvRxOnWhenIdle (pib_rx_on_when_idle pib); EvFilter (address_filter pib) (Ok ());
                     EvPower (pib_transmit_power pib) (Ok ()); EvChannel (pib_current_channel pib) (Ok ())]
    | _ => ∃ e, e ∈ new ∧ config_failed e = true
    end.
Proof using Type.
  unfold phy_op, apply_full_config. cbv [mbind stm_bind modify_st]. simpl. unfold rec_op.
  destruct (phy_set_channel (pib_current_channel pib) _) as [[[]|e|] p1]; simpl;
    [|by eexists _, _, [_]; split; [done|]; eexists; split; [left|]..].
  destruct (phy_set_tx_power (pib_transmit_power pib) p1) as [[[]|e|] p2]; simpl;
    [|by eexists _, _, [_; _]; split; [done|]; eexists; split; [left|]..].
  destruct (phy_set_address_filter (address_filter pib) p2) as [[[]|e|] p3]; simpl;
    [|by eexists _, _, [_; _; _]; split; [done|]; eexists; split; [left|]..].
  by eexists _, _, [_; _; _; _].
Qed.

Lemma failures_app (s s' : core) new :
  log_of s' = new ++ log_of s → failures s' = (length (filter (λ e, config_failed e = true) new) + failures s)%nat.
Proof using Type. intros Hl. unfold failures. by rewrite Hl, filter_app, length_app. Qed.

Lemma failures_in (s s' : core) new e :
  log_of s' = new ++ log_of s → e ∈ new → config_failed e = true → (failures s < failures s')%nat.
Proof using Type.
  intros Hl He Hf. rewrite (failures_app _ _ _ Hl).
  assert (0 < length (filter (λ e, config_failed e = true) new))%nat; [|lia].
  assert (Hin : e ∈ filter (λ e, config_failed e = true) new) by (by apply list_elem_of_filter).
  destruct (filter _ new); [by apply elem_of_nil in Hin|simpl; lia].
Qed.

(** Applying the configuration of [pib], which then is the information base. *)
Lemma full_config_tuned pib (s : core) n :
  mac_ok RX s → pib_wf pib → (n <= failures s)%nat →
  wp (phy_op (apply_full_config pib))
    (λ r s', r ≠ Panic ∧ mac_ok RX s' ∧ sm_pib s' = sm_pib s ∧ (failures s <= failures s')%nat ∧
       match r with
       | Ok _ => tuned address_filter false n (with_pib pib s')
       | _ => (failures s < failures s')%nat
       end) s.
Proof using LR LP.
  intros Hok Hpib Hn.
  pose proof (keeps_phy_config RX (apply_full_config pib) (returns_full_config pib) s Hok) as Hk. revert Hk.
  unfold wp. destruct (full_config_run pib s) as (r & p & new & Hrun & Hnew). rewrite Hrun. simpl. intros [Hr Hok'].
  set (s' := with_phy _ s) in *. assert (Hl : log_of s' = new ++ log_of s) by done.
  pose proof (failures_app s s' new Hl) as Hf. destruct r as [[]|e|]; [| |done].
  - split_and!; try done; [lia|]. split.
    + destruct Hok'. by split.
    + change (failures (with_pib pib s')) with (failures s'). lia.
    + intros _. split; unfold log_of; simpl; rewrite Hnew; done.
  - destruct Hnew as (e' & Hin & He). pose proof (failures_in s s' new e' Hl Hin He). split_and!; try done; lia.
Qed.

Lemma wp_tuned_wake n s :
  tuned address_filter true n s → wp wake (λ r s', r ≠ Panic ∧ tuned address_filter false (failures s) s') s.
Proof using LR LP.
  intros Hs. unfold wake. apply wp_bind.
  eapply wp_mono; [apply (keeps_tuned_quiet address_filter false (failures s) phy_wake); [apply LP|]|].
  { eapply tuned_weaken; [done|done|by left]. }
  intros [[]|e|] s1 [Hr1 H1]; [|done|done]. apply wp_gets_bind.
  eapply wp_mono; [apply (full_config_tuned (sm_pib s1) s1 (failures s)); [apply H1|apply H1|apply H1]|].
  intros r s2 (Hr & Hok & Hpib & Hf & Ht). split; [done|]. pose proof (tn_failures _ _ _ _ H1). destruct r as [[]|e|]; [| |done].
  - rewrite <- Hpib in Ht. by destruct s2.
  - apply tuned_failed; [done|lia].
Qed.

Context (HRX : (0 < RX <= 255)%nat).

Lemma tuned_clear strict n (s : core) :
  tuned address_filter strict n s → tuned address_filter strict n (with_role (clear_role (sm_role s)) s).
Proof using LR LP.
  intros Hs. apply (tuned_transport address_filter strict n s); [done| |done|by left]. apply mac_ok_clear, Hs.
Qed.

Hint Resolve tuned_config tuned_data tuned_clear : keeps.

(** What a reset does once the radio is configured. *)
Lemma wp_reset_tail n next (s : core) :
  tuned address_filter false n (with_pib next s) → ∀ seed,
  wp (modify_st (with_pib next) ;; modify_st (λ s, with_rx (rq_clear (sm_pending_rx s)) s) ;;
      modify_st (with_error None) ;; random_state ← lift (Ok seed); modify_st (with_random random_state) ;;
      clear_role_state) (λ r s', r ≠ Panic ∧ tuned address_filter false n s') s.
Proof using LR LP HRX.
  intros Hs seed. apply wp_bind, wp_modify.
  assert (Hk : keeps (tuned address_filter false n) (modify_st (λ s, with_rx (rq_clear (sm_pending_rx s)) s) ;;
    modify_st (with_error None) ;; random_state ← lift (Ok seed); modify_st (with_random random_state) ;; clear_role_state)).
  { keeps_tac. apply keeps_modify. intros s' Hs'. by apply (ri_random RX). }
  by apply Hk.
Qed.

Lemma wp_tuned_reset n b s :
  tuned address_filter true n s → wp (reset b) (λ r s', r ≠ Panic ∧ tuned address_filter false (failures s) s') s.
Proof using LR LP HRX.
  intros Hs. assert (Hw : tuned address_filter false (failures s) s) by (eapply tuned_weaken; [done|done|by left]).
  destruct b; unfold reset.
  - apply wp_bind, wp_run. eexists _, (with_random _ s). split; [unfold next_random_u32; reflexivity|].
    set (s1 := with_random _ s). assert (H1 : tuned address_filter false (failures s) s1) by (by apply (ri_random RX)).
    cbv beta iota. match goal with |- context [reset_pib ?d ?b] => destruct (reset_pib_run d b s1) as (Hn & seed & Hrun) end; [apply H1|].
    unfold wp. rewrite Hrun.
    eapply (wp_bind (phy_op (apply_full_config _))). eapply wp_mono; [apply (full_config_tuned _ s1 (failures s)); [apply H1|done|apply H1]|].
    intros r s2 (Hr & Hok & Hpib & Hf & Ht). destruct r as [[]|e|]; [by apply wp_reset_tail| |done].
    split; [done|]. apply tuned_failed; [done|]. change (failures s1) with (failures s) in *. lia.
  - apply wp_gets_bind, wp_bind. eapply wp_mono; [apply (full_config_tuned _ s (failures s)); [apply Hs|apply Hs|done]|].
    intros r s2 (Hr & Hok & Hpib & Hf & Ht). destruct r as [[]|e|]; [| |done].
    + rewrite <- Hpib in Ht. assert (H2 : tuned address_filter false (failures s) s2) by (by destruct s2).
      assert (Hk : keeps (tuned address_filter false (failures s)) (modify_st (λ s, with_rx (rq_clear (sm_pending_rx s)) s) ;;
        modify_st (with_error None) ;; clear_role_state)); [|by apply Hk].
      keeps_tac.
    + split; [done|]. apply tuned_failed; [done|lia].
Qed.

(** Setting the filter, and a valid channel: a failure is counted. *)
Lemma wp_tuned_channel flt `{!AddressFilter flt} n c s :
  tuned flt false n s → 11 <= c <= 26 →
  wp (set_channel c)
    (λ r s', r ≠ Panic ∧ match r with Ok _ => tuned flt false n s' | _ => mac_ok RX s' ∧ (n < failures s')%nat end) s.
Proof using LR LP.
  intros Hs Hc. pose proof (keeps_tuned_channel flt false n c s Hs) as Hk. revert Hk.
  unfold wp, set_channel. rewrite (proj2 (Z.leb_le 11 _)), (proj2 (Z.leb_le _ 26)) by apply Hc. cbv [mbind stm_bind modify_st].
  simpl. rewrite phy_op_rec. pose proof (tn_failures _ _ _ _ Hs) as Hf.
  destruct (phy_set_channel c _) as [[[]|e|] p]; simpl; intros [Hr Ht]; [done| |done].
  split; [done|]. split; [apply Ht|]. erewrite failures_cons by done. simpl. by apply Nat.lt_succ_r.
Qed.

Lemma wp_tuned_filter flt flt' n s :
  tuned flt false n s →
  wp (phy_op (phy_set_address_filter (flt' (sm_pib s))))
    (λ r s', r ≠ Panic ∧ match r with Ok _ => tuned flt' false n s' | _ => mac_ok RX s' ∧ (n < failures s')%nat end) s.
Proof using LR LP.
  intros Hs. set (f := flt' (sm_pib s)).
  pose proof (keeps_phy_config RX (phy_set_address_filter f) (lp_set_address_filter f) s (tn_ok _ _ _ _ Hs)) as Hk.
  revert Hk. unfold wp. simpl. rewrite phy_op_rec. pose proof (tn_failures _ _ _ _ Hs) as Hn.
  destruct (phy_set_address_filter f _) as [[[]|e|] p]; simpl; intros [Hr Hok]; [| |done].
  - split; [done|]. set (s' := with_phy _ s) in *. pose proof (failures_cons s s' _ eq_refl) as Hf. simpl in Hf.
    split; [done|by rewrite Hf|]. rewrite Hf. intros [H1 H2 H3 H4]%(tn_configured _ _ _ _ Hs).
    split; unfold log_of in *; simpl; rewrite ?latest_skip by done; done.
  - split; [done|]. split; [done|]. erewrite failures_cons by done. simpl. by apply Nat.lt_succ_r.
Qed.

Lemma wp_tuned_scan n req s :
  is_u8 (scr_scan_duration req) → tuned address_filter true n s →
  wp (scan RX req) (λ r s', r ≠ Panic ∧ tuned address_filter false (failures s) s') s.
Proof using LR LP HRX.
  intros Hd Hs. assert (Hw : tuned address_filter false (failures s) s) by (eapply tuned_weaken; [done|done|by left]).
  unfold scan. destruct (14 <? _) eqn:H14; [done|]. case_bool_decide; [done|]. unfold is_u8 in Hd. bool_simpl.
  destruct (scan_duration_Ok (scr_scan_duration req)) as (d & -> & Hlt); [lia|].
  eapply wp_lift_Ok; [done|]. rewrite (proj2 (Z.ltb_lt _ _)) by done. apply wp_bind, wp_ret, wp_gets_bind, wp_bind.
  eapply wp_mono; [by apply (wp_tuned_filter address_filter (λ _, None))|].
  intros [[]|e|] s1 [Hr1 H1]; [|by split; [|apply tuned_failed; apply H1]|done].
  apply wp_bind, wp_try. eapply wp_mono; [apply (keeps_scan_channels RX HRX (tuned (λ _, None) false (failures s))); [|done]|].
  { intros c. apply keeps_tuned_channel, _. }
  intros result s2 [Hr2 H2].
  assert (Hback : ∀ out : stm core MacError MlmeScanConfirm, (∀ s, out s = ((out s).1, s)) → (∀ s, (out s).1 ≠ Panic) →
    wp (set_channel (pib_current_channel (sm_pib s)) ;; pib ← gets sm_pib; phy_op (phy_set_address_filter (address_filter pib)) ;; out)
      (λ r s', r ≠ Panic ∧ tuned address_filter false (failures s) s') s2).
  { intros out Hout Hnp. apply wp_bind. eapply wp_mono; [apply (wp_tuned_channel (λ _, None)); [done|apply Hs]|].
    intros [[]|e|] s3 [Hr3 H3]; [|by split; [|apply tuned_failed; apply H3]|done].
    apply wp_gets_bind, wp_bind. eapply wp_mono; [by apply (wp_tuned_filter (λ _, None) address_filter)|].
    intros [[]|e|] s4 [Hr4 H4]; [|by split; [|apply tuned_failed; apply H4]|done].
    unfold wp. rewrite Hout. split; [apply Hnp|done]. }
  destruct result as [[ds es]|e|]; [| |done]; apply (Hback _); try done; intros; by case_match.
Qed.

(** The operations that reconfigure the radio as a whole. *)
Definition reconfigures (op : mac_op) : bool :=
  match op with OpReset _ | OpWake | OpScan _ => true | _ => false end.

Lemma wp_tuned_step n op s :
  op_wf op → tuned address_filter true n s →
  wp (mac_step RX op) (λ r s', r ≠ Panic ∧
    if reconfigures op then tuned address_filter false (failures s) s' else tuned address_filter true n s') s.
Proof using LR LP HRX.
  intros Hop Hs. destruct op; cbn [mac_step op_wf reconfigures] in *.
  - by apply keeps_tuned_set_pib.
  - by eapply wp_tuned_reset.
  - by apply keeps_tuned_quiet; [apply _|apply LP|].
  - by eapply wp_tuned_wake.
  - apply keeps_bind; [apply (keeps_associate RX HRX); apply _|intros; apply keeps_ret|done].
  - apply (keeps_disassociate RX HRX (tuned address_filter true n)); done.
  - apply keeps_bind; [apply (keeps_transmit_data RX HRX); apply _|intros; apply keeps_ret|done].
  - apply keeps_bind; [apply (keeps_poll_within RX HRX); apply _|intros; apply keeps_ret|done].
  - apply keeps_bind; [apply (keeps_receive_data RX HRX); apply _|intros; apply keeps_ret|done].
  - apply wp_bind. eapply wp_mono; [by eapply wp_tuned_scan|]. by intros [a|e|] s' [Hr Ht].
Qed.

(** No command failed while the radio was reconfigured as a whole. *)
Fixpoint clean_run (ops : list mac_op) (s : core) : Prop :=
  match ops with
  | [] => True
  | op :: ops =>
      let s' := (mac_step RX op s).2 in
      (reconfigures op = true → failures s' = failures s) ∧ clean_run ops s'
  end.

Lemma clean_run_configured n ops s :
  Forall op_wf ops → tuned address_filter true n s → clean_run ops s →
  ∃ s', mac_run RX ops s = Ok s' ∧ configured address_filter s'.
Proof using LR LP HRX.
  intros Hops. revert n s. induction Hops as [|op ops Hop Hops IH]; intros n s Hs Hc; cbn [mac_run clean_run] in *.
  { exists s. split; [done|]. by apply Hs; left. }
  destruct Hc as [Hclean Hc]. pose proof (wp_tuned_step n op s Hop Hs) as [Hr Ht].
  assert (Hs' : tuned address_filter true (if reconfigures op then failures s else n) (mac_step RX op s).2).
  { destruct (reconfigures op); [|done]. destruct Ht as [Hok Hn Hcf]. split; [done|done|]. intros _. apply Hcf. right. auto. }
  specialize (IH _ _ Hs' Hc). by destruct (mac_step RX op s) as [[u|e|] s'].
Qed.

Lemma new_custom_tuned phy pib s :
  phy_ok phy → pib_wf pib → new_custom RX (mk_Recorded phy []) pib = Ok s → tuned address_filter true 0 s.
Proof using LR LP HRX.
  intros Hphy Hpib Hs. pose proof (new_custom_ok (R:=R) RX HRX (mk_Recorded phy []) pib Hphy Hpib) as Hok. rewrite Hs in Hok.
  split; [done|lia|]. intros _. revert Hs. unfold new_custom.
  pose (s0 := mk_SoftMacCore (mk_Recorded phy []) pib (rq_new RX) None 0 (new_role (R:=R))).
  destruct (full_config_run pib s0) as (r & p & new & Hrun & Hnew). unfold phy_op in Hrun. simpl in Hrun.
  destruct (apply_full_config pib (mk_Recorded phy [])) as [[u|e|] p'] eqn:Happ; try done.
  destruct (random_seed_Ok pib Hpib) as [seed ->]. simpl. intros [= <-]. simpl in Hrun. injection Hrun as <- Hp. subst p' new.
  split; done.
Qed.
End Configured.

(** * Theorems *)

(** C19. Whatever the radio delivers and however it fails, no operation of the
    software MAC aborts: from the construction on, every history of driver
    operations runs to its end, and the information base, the ring of retained
    frames and the role stay well formed.  This covers every index into a
    received frame, the shift of the backoff exponent, the bounds on backoffs,
    retries and polls and the deadline arithmetic. *)
Theorem soft_mac_never_panics (P R : Type) {HP : RadioPhy P} {HR : MacRole R} {LP : LawfulPhy P} {LR : LawfulRole R}
    (RX : nat) phy pib ops :
  (0 < RX <= 255)%nat → phy_ok phy → pib_wf pib → Forall op_wf ops →
  new_custom (R:=R) RX phy pib ≠ Panic ∧
  ∀ s, new_custom (R:=R) RX phy pib = Ok s →
    ∃ s', mac_run RX ops s = Ok s' ∧ pib_wf (sm_pib s') ∧ rq_wf RX (sm_pending_rx s') ∧ role_ok (sm_role s').
Proof.
  intros HRX Hphy Hpib Hops. pose proof (new_custom_ok (R:=R) RX HRX phy pib Hphy Hpib) as Hn.
  split; [by intros Hp; rewrite Hp in Hn|]. intros s Hs. rewrite Hs in Hn.
  destruct (mac_run_keeps RX (mac_ok RX) ops s) as (s' & Hr & [? ? ? ?]); [|done|by exists s'].
  intros op Hop. apply keeps_mac_step; [done|]. by eapply Forall_forall in Hops.
Qed.

Lemma soft_mac_never_panics_witness :
  let ops := [OpSetPib MacMinBe (PvU8 5); OpReceive 5000; OpScan (mk_MlmeScanRequest ScanActive ALL_2_4GHZ 2); OpPoll 1000] in
  let phy := mk_Scripted [[0x41; 0x88; 1]; []; [2; 0; 9]] [Some ChannelBusy] [] 0 in
  new_custom (R:=EndDevice) 4 phy ex_pib ≠ Panic ∧
  ∀ s, new_custom (R:=EndDevice) 4 phy ex_pib = Ok s →
    ∃ s', mac_run 4 ops s = Ok s' ∧ pib_wf (sm_pib s') ∧ rq_wf 4 (sm_pending_rx s') ∧ role_ok (sm_role s').
Proof.
  intros ops phy. apply (soft_mac_never_panics Scripted EndDevice 4 phy ex_pib ops); [lia|done|apply ex_pib_wf|].
  repeat constructor; simpl; unfold is_u8; lia.
Defined.

(** C20. The radio follows the information base: from the construction on, after
    any history of operations in which no configuration command failed during a
    reset, a wake or a scan, the newest channel, transmit power, address filter
    and idle mode the radio accepted are those of the information base.  A scan
    restores channel and filter also when it fails, a refused command of any
    other operation is undone on the side of the information base, and a write
    that reports an error has left every attribute as it was. *)
Theorem radio_follows_pib (P R : Type) {HP : RadioPhy P} {HR : MacRole R} {LP : LawfulPhy P} {LR : LawfulRole R}
    (RX : nat) phy pib ops s :
  (0 < RX <= 255)%nat → phy_ok phy → pib_wf pib → Forall op_wf ops →
  new_custom (R:=R) RX (mk_Recorded phy []) pib = Ok s → clean_run RX ops s →
  ∃ s', mac_run RX ops s = Ok s' ∧ configured address_filter s' ∧
    ∀ attr v e s'', set_pib attr v s' = (Err e, s'') → sm_pib s'' = sm_pib s'.
Proof.
  intros HRX Hphy Hpib Hops Hs Hc.
  destruct (clean_run_configured RX HRX 0 ops s) as (s' & Hrun & Hcf); [done|by eapply new_custom_tuned|done|].
  exists s'. split_and!; [done|done|]. intros attr v e s'' Hset.
  assert (Hok : pib_wf (sm_pib s')).
  { destruct (mac_run_keeps RX (mac_ok RX) ops s) as (s1 & Hr1 & Hok1).
    - intros op Hop. apply keeps_mac_step; [done|]. by eapply Forall_forall in Hops.
    - pose proof (new_custom_ok (R:=R) RX HRX (mk_Recorded phy []) pib Hphy Hpib) as Hok. by rewrite Hs in Hok.
    - rewrite Hrun in Hr1. injection Hr1 as <-. apply Hok1. }
  rewrite set_pib_run in Hset by done. destruct (pib_set attr v (sm_pib s')) as [p|e'|]; [|by simplify_eq|done].
  destruct (apply_changed_config attr (with_pib p s')) as [[u|e'|] s2] eqn:Ha; simplify_eq. done.
Qed.

Definition ex_history : list mac_op :=
  [OpSetPib PhyCurrentChannel (PvU8 15); OpScan (mk_MlmeScanRequest ScanEd ALL_2_4GHZ 1);
   OpSetPib MacPanId (PvPanId 0x1AAA); OpWake].

Lemma radio_follows_pib_witness :
  let phy := mk_Scripted [] [] [None; None; None; Some Hardware] 0 in
  ∃ s s', new_custom (R:=EndDevice) 4 (mk_Recorded phy []) ex_pib = Ok s ∧
    mac_run 4 ex_history s = Ok s' ∧ configured address_filter s'.
Proof.
  intros phy. destruct (new_custom (R:=EndDevice) 4 (mk_Recorded phy []) ex_pib) as [s|e|] eqn:Hs;
    [|vm_compute in Hs; discriminate|vm_compute in Hs; discriminate].
  destruct (radio_follows_pib Scripted EndDevice 4 phy ex_pib ex_history s) as (s' & Hr & Hc & _).
  - lia.
  - done.
  - apply ex_pib_wf.
  - repeat constructor; simpl; unfold is_u8; lia.
  - done.
  - vm_compute in Hs. injection Hs as <-. vm_compute. repeat split; discriminate.
  - exists s, s'. done.
Defined.
