(* ===== verification/SoftMacLink.v ===== *)
(** * SoftMacLink: acknowledged transmission, delivery and association

    What the software MAC promises the layer above: a transmission reported as
    acknowledged was acknowledged, an acknowledged data frame is handed up, and
    an association confirm says what the information base then holds. *)

From S2P Require Import Prelude Effects ZigbeeTypes MacFrames MacPib MacRxQueue SoftMac SoftMacSafe SoftMacRadio.

Local Open Scope Z_scope.

Definition is_transmit (e : RadioEvent) : bool := match e with EvTransmit _ _ => true | _ => false end.
Definition was_sent (e : RadioEvent) : bool := match e with EvTransmit _ (Ok _) => true | _ => false end.

(** How often the radio was asked to transmit, and how often it did. *)
Definition attempts (log : list RadioEvent) : nat := length (filter (λ e, is_transmit e = true) log).
Definition sent (log : list RadioEvent) : nat := length (filter (λ e, was_sent e = true) log).

Lemma attempts_cons e l : attempts (e :: l) = if is_transmit e then S (attempts l) else attempts l.
Proof. unfold attempts. rewrite filter_cons. destruct (is_transmit e); by case_decide. Qed.
Lemma sent_cons e l : sent (e :: l) = if was_sent e then S (sent l) else sent l.
Proof. unfold sent. rewrite filter_cons. destruct (was_sent e); by case_decide. Qed.

Lemma attempts_app l l' : attempts (l ++ l') = (attempts l + attempts l')%nat.
Proof. unfold attempts. by rewrite filter_app, length_app. Qed.
Lemma sent_app l l' : sent (l ++ l') = (sent l + sent l')%nat.
Proof. unfold sent. by rewrite filter_app, length_app. Qed.
Lemma quiet_counts l : Forall (λ e, is_transmit e = false) l → attempts l = 0%nat ∧ sent l = 0%nat.
Proof. induction 1 as [|e l He Hl IH]; [done|]. rewrite attempts_cons, sent_cons, He. by destruct e. Qed.

Section Transmit.
Context {P R : Type} {HP : RadioPhy P} {HR : MacRole R} {LP : LawfulPhy P} {LR : LawfulRole R}.
Context (RX : nat) (HRX : (0 < RX <= 255)%nat).
Local Abbreviation core := (SoftMacCore (Recorded P) R).

(** The MAC has the information base [pib] and recorded [new] on top of [l]. *)
Definition logged (pib : MacPib) (l : list RadioEvent) (new : list RadioEvent) (s : core) : Prop :=
  mac_ok RX s ∧ sm_pib s = pib ∧ log_of s = new ++ l.

(** One round of CSMA-CA: busy assessments, then one that is not. *)
Definition csma_events (frame : list Z) (busy : nat) (last : outcome PhyError unit) : list RadioEvent :=
  EvTransmit frame last :: replicate busy (EvTransmit frame (Err ChannelBusy)).

Lemma backoff_run be (s : core) : be < 16 → ∃ slots r, random_backoff_slots be s = (Ok slots, with_random r s).
Proof using Type.
  intros Hb. unfold random_backoff_slots. cbv [mbind stm_bind]. unfold next_random_u32.
  rewrite (proj2 (Z.leb_gt _ _)) by done. by eexists _, _.
Qed.

Lemma transmit_run frame (s : core) :
  mac_ok RX s → ∃ r p, phy_result (phy_try_transmit frame ;; mret (Some ack_default)) s =
    (match r with Ok _ => Ok (inl (Some ack_default)) | Err e => Ok (inr e) | Panic => Panic end, with_phy p s) ∧
    r ≠ Panic ∧ rec_log p = EvTransmit frame r :: log_of s ∧ data_step (sm_phy s) p.
Proof using LP LR HRX.
  intros Hok. pose proof (lp_try_transmit frame (sm_phy s) (mo_phy _ _ Hok)) as [Hr _].
  pose proof (ds_try_transmit frame (sm_phy s)) as Hd. revert Hr Hd. unfold phy_result. cbv [mbind stm_bind]. simpl. unfold rec_op.
  destruct (phy_try_transmit frame _) as [[u|e|] p]; simpl; intros Hr Hd; [| |done].
  - by exists (Ok u), (mk_Recorded p (EvTransmit frame (Ok u) :: rec_log (sm_phy s))).
  - by exists (Err e), (mk_Recorded p (EvTransmit frame (Err e) :: rec_log (sm_phy s))).
Qed.

(** A step that adds to the log what [e] says. *)
Lemma logged_step pib l new (s s' : core) e :
  logged pib l new s → mac_ok RX s' → sm_pib s' = sm_pib s → log_of s' = e ++ log_of s → logged pib l (e ++ new) s'.
Proof using Type. intros (Hok & Hp & Hl) Hok' Hp' Hl'. split_and!; [done|congruence|]. by rewrite Hl', Hl, app_assoc. Qed.

Lemma csma_loop_spec frame fuel count be busy (s : core) pib l :
  0 <= count <= pib_max_csma_backoffs pib → Z.of_nat fuel = pib_max_csma_backoffs pib - count + 1 →
  0 <= be <= pib_max_be pib → Z.of_nat busy = count → logged pib l (replicate busy (EvTransmit frame (Err ChannelBusy))) s →
  wp (csma_loop fuel frame false count be) (λ r s', ∃ busy' last,
    Z.of_nat busy' <= pib_max_csma_backoffs pib ∧ logged pib l (csma_events frame busy' last) s' ∧
    match last with Ok _ => r = Ok (Some ack_default) | Err e => r = Err (phy_error e) | Panic => False end) s.
Proof using LP LR HRX.
  revert count be busy s. induction fuel as [|fuel IH]; intros count be busy s Hc Hf Hb Hbusy Hs; [simpl in Hf; lia|].
  pose proof Hs as (Hok & Hpib & _). pose proof (mo_pib _ _ Hok) as Hwf. rewrite Hpib in Hwf.
  pose proof (pw_exponents _ Hwf) as [_ Hbe]. pose proof (pw_backoffs _ Hwf) as Hmax. cbn [csma_loop].
  apply wp_bind. destruct (backoff_run be s) as (slots & rnd & Hrnd); [lia|]. unfold wp at 1. rewrite Hrnd. cbn [fst snd].
  set (s1 := with_random rnd s). assert (H1 : logged pib l (replicate busy (EvTransmit frame (Err ChannelBusy))) s1).
  { apply (logged_step _ _ _ s s1 []); [done|by apply (ri_random RX)|done|done]. }
  apply wp_bind. set (b := negb (slots =? 0)). set (d := slots * UNIT_BACKOFF_PERIOD_US).
  assert (∃ s2, (if b then phy_do (phy_delay_micros d) else mret ()) s1 = (Ok (), s2) ∧
    logged pib l (replicate busy (EvTransmit frame (Err ChannelBusy))) s2) as (s2 & Hd & H2).
  { destruct b; [|by exists s1]. eexists. split; [done|].
    apply (logged_step _ _ _ s1 _ []); [done|apply (ri_phy RX); [apply H1|constructor]|done|done]. }
  unfold wp at 1. rewrite Hd. cbn [fst snd].
  rewrite andb_false_r.
  apply wp_bind. destruct (transmit_run frame s2) as (r & p & Hrun & Hr & Hlog & Hds); [apply H2|].
  unfold wp at 1. rewrite Hrun. cbn [fst snd].
  set (s3 := with_phy p s2). assert (H3 : logged pib l (csma_events frame busy r) s3).
  { apply (logged_step _ _ _ s2 s3 [EvTransmit frame r]); [done|apply (ri_phy RX); [apply H2|done]|done|done]. }
  destruct r as [[]|e|]; [| |done].
  - apply wp_gets_bind. exists busy, (Ok ()). split_and!; [lia|done|done].
  - apply wp_gets_bind. rewrite (proj1 (proj2 H3)).
    destruct (match e with ChannelBusy => true | _ => false end && (count <? pib_max_csma_backoffs pib)) eqn:Hretry.
    + apply andb_true_iff in Hretry as [He Hlt]. destruct e; try done. bool_simpl. unfold saturating_add_u8.
      apply (IH _ _ (S busy)); [lia|lia|lia|lia|]. done.
    + exists busy, (Err e). split_and!; [lia|done|done].
Qed.

Lemma csma_spec frame (s : core) pib l :
  logged pib l [] s →
  wp (csma frame false) (λ r s', ∃ busy last,
    Z.of_nat busy <= pib_max_csma_backoffs pib ∧ logged pib l (csma_events frame busy last) s' ∧
    match last with Ok _ => r = Ok (Some ack_default) | Err e => r = Err (phy_error e) | Panic => False end) s.
Proof using LP LR HRX.
  intros Hs. pose proof Hs as (Hok & Hpib & _). pose proof (mo_pib _ _ Hok) as Hwf. rewrite Hpib in Hwf.
  pose proof (pw_exponents _ Hwf). pose proof (pw_backoffs _ Hwf).
  unfold csma. apply wp_gets_bind. rewrite Hpib. apply (csma_loop_spec frame _ 0 _ 0); try lia. done.
Qed.

(** ** Waiting for the acknowledgement *)

Definition window_result (sequence : Z) (new : list RadioEvent) (r : outcome MacError (option Heard * Want)) : Prop :=
  match r with
  | Ok (Some h, _) => ∃ ack f rest, h = HeardAck ack ∧ new = EvReceive (Ok true) f :: rest ∧ imm_ack sequence f ack
  | Ok (None, _) => True
  | Err e => ∃ pe, e = phy_error pe
  | Panic => False
  end.

Definition quiet (log : list RadioEvent) : Prop := Forall (λ e, is_transmit e = false) log.

Lemma clock_run (s : core) pib l new :
  logged pib l new s → ∃ t s', monotonic_micros s = (Ok t, s') ∧ logged pib l new s'.
Proof using LP LR HRX.
  intros Hs. unfold monotonic_micros. pose proof (ds_monotonic_micros (sm_phy s)) as Hd. revert Hd. simpl.
  destruct (phy_monotonic_micros (rec_phy (sm_phy s))) as [t p] eqn:Ht. intros Hd. eexists _, _. split; [done|].
  apply (logged_step _ _ _ s _ []); [done| |done|done].
  pose proof (ri_phy (I:=mac_ok RX) RX s _ (proj1 Hs) (ds_monotonic_micros (sm_phy s))) as H. simpl in H. by rewrite Ht in H.
Qed.

Lemma receive_run t (s : core) pib l new :
  logged pib l new s → quiet new → ∃ r f s', receive_frame RX t s =
    (match r with Ok x => Ok (inl x) | Err e => Ok (inr e) | Panic => Panic end, s') ∧ r ≠ Panic ∧
    logged pib l (EvReceive r f :: new) s' ∧ slot_ready RX f s'.
Proof using LP LR HRX.
  intros Hs Hq. destruct (receive_frame_spec RX HRX t s (proj1 Hs)) as (buf & q & Hbuf & Hrun).
  pose proof (ds_receive t buf (sm_phy s) Hbuf) as Hd. revert Hrun Hd. simpl.
  destruct (phy_receive t buf (rec_phy (sm_phy s))) as [[r b] p] eqn:Hp. intros (Hrun & Hr & Hqw & Hsl & _) Hd.
  exists r, b. eexists. split; [done|]. split; [done|]. split; [|done].
  apply (logged_step _ _ _ s _ [EvReceive r b]); [done| |done|done].
  apply (di_rx RX); [|done]. apply (ri_phy RX); [apply Hs|done].
Qed.

Lemma send_ack_run n b (s : core) pib l new :
  logged pib l new s → ∃ r s', phy_result (phy_send_ack n b) s =
    (match r with Ok x => Ok (inl x) | Err e => Ok (inr e) | Panic => Panic end, s') ∧ r ≠ Panic ∧
    logged pib l (EvSendAck n b r :: new) s'.
Proof using LP LR HRX.
  intros Hs. pose proof (lp_send_ack n b (sm_phy s) (mo_phy _ _ (proj1 Hs))) as [Hr _].
  pose proof (ds_send_ack n b (sm_phy s)) as Hd. revert Hr Hd. unfold phy_result. simpl. unfold rec_op.
  destruct (phy_send_ack n b _) as [r p] eqn:Hp. simpl. intros Hr Hd.
  exists r. eexists. split; [by destruct r|]. split; [done|].
  apply (logged_step _ _ _ s _ [EvSendAck n b r]); [done| |done|done]. apply (ri_phy RX); [apply Hs|done].
Qed.

Lemma listen_ack_loop n started timeout sequence (s : core) pib l new :
  logged pib l new s → quiet new →
  wp (listen_loop RX n started timeout (WantAck sequence)) (λ r s', ∃ new',
    logged pib l new' s' ∧ quiet new' ∧ window_result sequence new' r) s.
Proof using LP LR HRX.
  revert s new. induction n as [|n IH]; intros s new Hs Hq; cbn [listen_loop]; [by exists new|].
  apply wp_bind. destruct (clock_run s pib l new Hs) as (t & s1 & Hrun & H1). unfold wp at 1. rewrite Hrun. cbn [fst snd].
  destruct (checked_sub _ _) as [remaining|]; [|by exists new]. clear Hrun.
  apply wp_bind. destruct (receive_run remaining s1 pib l new H1 Hq) as (r & f & s2 & Hrun & Hr & H2 & Hsl).
  assert (Hq2 : quiet (EvReceive r f :: new)) by (by constructor).
  unfold wp at 1. rewrite Hrun. cbn [fst snd]. destruct r as [[|]|e|]; [|by eexists| |done].
  2: { destruct e; try (eexists; split; [done|]; split; [done|]; by eexists). by eapply IH. }
  clear Hrun. apply wp_bind. eapply wp_mono; [by apply (accept_spec RX HRX (WantAck sequence) f s2 (proj1 H2))|].
  intros r s3 (q & role & -> & Hqw & Hro & Hp). destruct r as [[[ack heard] want']|e|]; [|done|done].
  destruct Hp as (Hw & Hh & Hnone & _). simpl in Hw. subst want'.
  set (s3 := with_role role (with_rx q s2)). assert (H3 : logged pib l (EvReceive (Ok true) f :: new) s3).
  { apply (logged_step _ _ _ s2 s3 []); [done| |done|done]. apply (di_role RX); [|done]. apply (di_rx RX); [apply H2|done]. }
  destruct heard as [h|].
  - specialize (Hh h eq_refl). destruct h as [a| |address status]; [|by destruct Hh|by destruct Hh].
    destruct Hh as (sq & [= <-] & Hack). rewrite (Hnone a eq_refl). apply wp_bind, wp_ret, wp_ret.
    eexists. split; [done|]. split; [done|]. by eexists _, _, _.
  - apply wp_bind. destruct ack as [[sq pending]|]; [|apply wp_ret; by eapply IH].
    apply wp_bind. destruct (send_ack_run sq pending s3 pib l _ H3) as (r & s4 & Hrun & Hr4 & H4).
    assert (Hq4 : quiet (EvSendAck sq pending r :: EvReceive (Ok true) f :: new)) by (by constructor).
    unfold wp at 1. rewrite Hrun. cbn [fst snd].
    destruct r as [[]|[]|]; try done; try (apply wp_ret; by eapply IH); eexists; split_and!; try done; by eexists.
Qed.

Lemma listen_ack_spec timeout sequence (s : core) pib l :
  logged pib l [] s →
  wp (listen RX timeout (WantAck sequence)) (λ r s', ∃ new,
    logged pib l new s' ∧ quiet new ∧ window_result sequence new r) s.
Proof using LP LR HRX.
  intros Hs. unfold listen. apply wp_bind. destruct (clock_run s pib l [] Hs) as (t & s1 & Hrun & H1).
  unfold wp at 1. rewrite Hrun. apply (listen_ack_loop _ _ _ _ _ _ _ []); [done|by constructor].
Qed.

(** ** The retransmission loop *)

(** What a transmission with acknowledgement leaves in the log: with [tries]
    frames on the air at most, a success is the reception of the
    acknowledgement after the last of them, and giving up is [tries] frames
    without one. *)
Definition exchange (frame : list Z) (sequence : Z) (tries : nat) (new : list RadioEvent)
    (r : outcome MacError AckResult) : Prop :=
  (sent new <= tries)%nat ∧
  match r with
  | Ok ack => ∃ f heard before, new = EvReceive (Ok true) f :: heard ++ EvTransmit frame (Ok ()) :: before ∧
      quiet heard ∧ imm_ack sequence f ack
  | Err MacNoAck => sent new = tries
  | Err e => ∃ pe, e = phy_error pe
  | Panic => False
  end.

Lemma csma_counts frame busy last :
  attempts (csma_events frame busy last) = S busy ∧
  sent (csma_events frame busy last) = match last with Ok _ => 1%nat | _ => 0%nat end.
Proof using Type.
  assert (Hb : attempts (replicate busy (EvTransmit frame (Err ChannelBusy))) = busy ∧
               sent (replicate busy (EvTransmit frame (Err ChannelBusy))) = 0%nat).
  { induction busy as [|busy [IH1 IH2]]; [done|]. simpl. rewrite attempts_cons, sent_cons. simpl. by rewrite IH1, IH2. }
  destruct Hb as [H1 H2]. unfold csma_events. rewrite attempts_cons, sent_cons, H1, H2. by destruct last.
Qed.

Lemma wp_assoc {A B C} (m : stm core MacError A) (m' : stm core MacError B) (k : B → stm core MacError C) Q s :
  wp ((m ;; m') ≫= k) Q s → wp (m ;; (m' ≫= k)) Q s.
Proof using Type. unfold wp. cbv [mbind stm_bind]. by destruct (m s) as [[a|e|] s']. Qed.

(** One round: the frame is sent and the window opened. *)
Lemma transmit_round frame sequence (s : core) pib l :
  logged pib l [] s →
  wp (csma frame false ;; listen RX ACK_WAIT_US (WantAck sequence)) (λ r s', ∃ new,
    logged pib l new s' ∧ Z.of_nat (attempts new) <= pib_max_csma_backoffs pib + 1 ∧
    match r with
    | Ok (Some h, _) => ∃ ack, h = HeardAck ack ∧ exchange frame sequence 1 new (Ok ack)
    | Ok (None, _) => sent new = 1%nat
    | Err e => (sent new <= 1)%nat ∧ ∃ pe, e = phy_error pe
    | Panic => False
    end) s.
Proof using LP LR HRX.
  intros Hs. apply wp_bind. eapply wp_mono; [by apply (csma_spec frame s pib l)|].
  intros r s1 (busy & last & Hb & H1 & Hr). destruct (csma_counts frame busy last) as [Ha Hse].
  destruct last as [[]|e|]; [|subst r; eexists; split; [done|]; split; [lia|]; split; [lia|by eexists]|done].
  subst r. set (round := csma_events frame busy (Ok ())) in *.
  assert (H1' : logged pib (round ++ l) [] s1) by done.
  eapply wp_mono; [by apply (listen_ack_spec ACK_WAIT_US sequence s1 pib (round ++ l))|].
  intros r s2 (new & (Hok & Hp & Hl) & Hq & Hw). exists (new ++ round). destruct (quiet_counts new Hq) as [Hqa Hqs].
  rewrite attempts_app, Hqa, Ha. split; [split_and!; [done|done|by rewrite Hl, app_assoc]|]. split; [lia|].
  unfold exchange. rewrite sent_app, Hqs, Hse. destruct r as [[[h|] w]|e|]; [|done|done|done].
  destruct Hw as (ack & f & rest & -> & -> & Hack). exists ack. split; [done|]. split; [lia|].
  inversion Hq. eexists f, rest, _. split; [|done]. done.
Qed.

Lemma transmit_loop_spec retries frame sequence (s : core) pib l :
  logged pib l [] s → 0 <= pib_max_csma_backoffs pib →
  wp (software_transmit_loop RX retries frame true sequence) (λ r s', ∃ new,
    logged pib l new s' ∧ exchange frame sequence (S retries) new r ∧
    Z.of_nat (attempts new) <= Z.of_nat (S retries) * (pib_max_csma_backoffs pib + 1)) s.
Proof using LP LR HRX.
  intros Hs Hmax. revert s l Hs. induction retries as [|retries IH]; intros s l Hs; cbn [software_transmit_loop negb];
    apply wp_assoc, wp_bind; (eapply wp_mono; [by apply (transmit_round frame sequence s pib l)|]).
  - intros r s1 (new & H1 & Ha & Hr). destruct r as [[[h|] w]|e|]; [| | |done].
    + destruct Hr as (ack & -> & Hx). exists new. split_and!; [done|done|lia].
    + exists new. split_and!; [done|split; [lia|done]|lia].
    + destruct Hr as [Hse (pe & ->)]. exists new. split_and!; [done|split; [done|by destruct pe; eexists]|lia].
  - intros r s1 (new & H1 & Ha & Hr). destruct r as [[[h|] w]|e|]; [| | |done].
    + destruct Hr as (ack & -> & [Hse Hx]). exists new. split_and!; [done|split; [lia|done]|lia].
    + assert (H1' : logged pib (new ++ l) [] s1) by done.
      eapply wp_mono; [by apply (IH s1 (new ++ l))|].
      intros r s2 (new2 & (Hok & Hp & Hl) & [Hse Hx] & Ha2). exists (new2 ++ new).
      rewrite attempts_app. split_and!; [split_and!; [done|done|by rewrite Hl, app_assoc]| |lia].
      unfold exchange. rewrite sent_app, Hr. split; [lia|]. destruct r as [ack|e|]; [| |done].
      * destruct Hx as (f & heard & before & -> & Hq & Hi). exists f, heard, (before ++ new).
        split_and!; [|done|done]. by rewrite <- app_comm_cons, <- app_assoc.
      * destruct e; try done. lia.
    + destruct Hr as [Hse (pe & ->)]. exists new. split_and!; [done|split; [lia|by destruct pe; eexists]|lia].
Qed.
End Transmit.

(** * Delivery *)

Section Delivery.
Context {P R : Type} {HP : RadioPhy P} {HR : MacRole R} {LP : LawfulPhy P} {LR : LawfulRole R}.
Context (RX : nat) (HRX : (0 < RX <= 255)%nat).
Local Abbreviation core := (SoftMacCore P R).

(** The data frames the layer above can still get. *)
Definition deliverable (s : core) : list McpsDataIndication :=
  omap (indication_of (sm_pib s)) (rq_view RX (sm_pending_rx s)).

(** Asking [n] times for a data indication. *)
Fixpoint receive_all (n : nat) (timeout_us : Z) (s : core) : outcome MacError (list McpsDataIndication) :=
  match n with
  | O => Ok []
  | S n =>
      match receive_data RX timeout_us s with
      | (Ok i, s') => rest ← receive_all n timeout_us s'; Ok (i :: rest)
      | (Err e, _) => Err e
      | (Panic, _) => Panic
      end
  end.

Lemma first_indication_omap pib l :
  omap (indication_of pib) l =
  match first_indication pib l with (Some i, l') => i :: omap (indication_of pib) l' | (None, _) => [] end.
Proof using Type. induction l as [|f l IH]; [done|]. simpl. by destruct (indication_of pib f). Qed.

Lemma receive_data_run t (s : core) i l :
  mac_ok RX s → first_indication (sm_pib s) (rq_view RX (sm_pending_rx s)) = (Some i, l) →
  ∃ s', receive_data RX t s = (Ok i, s') ∧ mac_ok RX s' ∧ sm_pib s' = sm_pib s ∧ rq_view RX (sm_pending_rx s') = l.
Proof using LP LR HRX.
  intros Hok Hfirst. unfold receive_data. unfold MAX_RX_FRAMES. cbv [mbind stm_bind]. unfold monotonic_micros.
  pose proof (ds_monotonic_micros (sm_phy s)) as Hd. destruct (phy_monotonic_micros (sm_phy s)) as [now p].
  set (s1 := with_phy p s). assert (H1 : mac_ok RX s1) by (by apply (ri_phy RX)).
  cbn [receive_loop]. cbv [mbind stm_bind]. unfold take_pending_indication. cbv [mbind stm_bind get_st]. unfold on_rx.
  destruct (take_indication_spec RX HRX (S (rq_len (sm_pending_rx s1))) (sm_pib s1) (sm_pending_rx s1))
    as (q & -> & Hq & Hv); [apply H1|lia|].
  change (sm_pib s1) with (sm_pib s) in *. change (sm_pending_rx s1) with (sm_pending_rx s) in *. rewrite Hfirst in *.
  eexists. split; [done|]. split_and!; [by apply (di_rx RX)|done|done].
Qed.

Lemma receive_all_spec t (s : core) :
  mac_ok RX s → receive_all (length (deliverable s)) t s = Ok (deliverable s).
Proof using LP LR HRX.
  remember (length (deliverable s)) as n eqn:Hn. revert s Hn. induction n as [|n IH]; intros s Hn Hok.
  { by destruct (deliverable s). }
  unfold deliverable in *. rewrite first_indication_omap in *.
  destruct (first_indication (sm_pib s) (rq_view RX (sm_pending_rx s))) as [[i|] l] eqn:Hf; [|done]. cbn [receive_all].
  destruct (receive_data_run t s i l Hok Hf) as (s' & -> & Hok' & Hp & Hv). simpl in Hn.
  assert (IH' := IH s'). rewrite Hp, Hv in IH'. rewrite IH' by (done || lia). done.
Qed.
End Delivery.

(** * Association *)

(** The frame carries an association response for the device with this
    extended address in this PAN: the short address assigned and the status. *)
Definition association_answer (pan : PanId) (own : IeeeAddress) (f : PhyRxFrame) (address status : Z) : Prop :=
  (∃ source offset security,
     parse_mac_addresses (E:=MacError) (octets_of f) = Ok (source, MacExtended pan own, offset, security)) ∧
  parse_association_response (octets_of f) = Ok (address, status).

(** Without a short address, only the extended one is exact. *)
Lemma response_answers pib f address status :
  rx_wf f → pib_short_address pib = 0xFFFF → response_of pib f = Some (address, status) →
  association_answer (pib_pan_id pib) (pib_extended_address pib) f address status.
Proof.
  intros Hf Hs. unfold response_of, association_response_for_us. rewrite rx_as_slice_wf by done. cbn [mbind outcome_bind].
  unfold association_answer.
  destruct (parse_mac_addresses_Ok (E:=MacError) (octets_of f)) as [[[[source destination] off] sec] Ha].
  rewrite Ha. cbn [mbind outcome_bind]. destruct (_ && _ && exact_destination destination pib) eqn:Hb; [|done].
  apply andb_true_iff in Hb as [_ He]. intros Hr. split.
  - destruct destination as [pan a|pan a]; unfold exact_destination in He; bool_simpl; [congruence|]. subst. by eexists _, _, _.
  - destruct (parse_association_response (octets_of f)) as [[? ?]| |]; simpl in Hr; by simplify_eq.
Qed.

Section Association.
Context {P R : Type} {HP : RadioPhy P} {HR : MacRole R} {LP : LawfulPhy P} {LR : LawfulRole R}.
Context (RX : nat) (HRX : (0 < RX <= 255)%nat).
Local Abbreviation core := (SoftMacCore (Recorded P) R).

(** The coordinator addresses a request leaves in the information base. *)
Definition coordinator_of (req : MlmeAssociateRequest) : ShortAddress * IeeeAddress :=
  match asr_coord_address req with MacShort _ a => (a, all_zeros) | MacExtended _ a => (0xFFFF, a) end.

(** On the channel and in the PAN of the request, with the given address, which
    is the one the radio filters by. *)
Record member (req : MlmeAssociateRequest) (own : IeeeAddress) (short : ShortAddress) (associated : bool) (s : core)
    : Prop := {
  mb_ok : mac_ok RX s;
  mb_channel : pib_current_channel (sm_pib s) = asr_channel req;
  mb_pan : pib_pan_id (sm_pib s) = mac_pan_id (asr_coord_address req);
  mb_short : pib_short_address (sm_pib s) = short;
  mb_own : pib_extended_address (sm_pib s) = own;
  mb_associated : pib_associated_pan_coord (sm_pib s) = associated;
  mb_coordinator : (pib_coord_short_address (sm_pib s), pib_coord_extended_address (sm_pib s)) = coordinator_of req;
  mb_filter : latest set_filter_of (log_of s) =
    Some (if pib_promiscuous (sm_pib s) then None
          else Some (mk_PhyAddressFilter (mac_pan_id (asr_coord_address req)) short own)) }.

#[global] Instance member_data req own short associated : DataInv RX (member req own short associated).
Proof using Type.
  split; [split|..].
  - by intros s [].
  - intros s p [] Hd. split; try done; [by apply (ri_phy (I:=mac_ok RX) RX)|].
    destruct (data_step_log _ _ Hd) as [Hl|(e & He & Hl)]; unfold log_of in *; simpl; rewrite Hl; [done|].
    rewrite latest_skip; [done|by destruct e].
  - intros s r []. split; try done. by apply (ri_random (I:=mac_ok RX) RX).
  - intros s q [] Hq. split; try done. by apply (di_rx (I:=mac_ok RX) RX).
  - intros s e []. split; try done. by apply (di_error (I:=mac_ok RX) RX).
  - intros s r [] Hr. split; try done. by apply (di_role (I:=mac_ok RX) RX).
  - intros s n []. split; try done. by apply (di_dsn (I:=mac_ok RX) RX).
  - intros s n []. split; try done. by apply (di_bsn (I:=mac_ok RX) RX).
Qed.

(** The radio delivered the frame since the log was [base]. *)
Definition heard_since (base : list RadioEvent) (s : core) (f : PhyRxFrame) : Prop :=
  ∃ new, log_of s = new ++ base ∧ EvReceive (Ok true) f ∈ new.

Definition answered (req : MlmeAssociateRequest) (own : IeeeAddress) (base : list RadioEvent) (address status : Z)
    (s : core) : Prop :=
  ∃ f, heard_since base s f ∧ association_answer (mac_pan_id (asr_coord_address req)) own f address status.

Definition log_grows (s s' : core) : Prop := ∃ new, log_of s' = new ++ log_of s.

Lemma heard_grows base s s' f : log_grows s s' → heard_since base s f → heard_since base s' f.
Proof using Type.
  intros [new Hn] (old & Ho & Hin). exists (new ++ old). rewrite Hn, Ho, app_assoc. split; [done|].
  apply elem_of_app. by right.
Qed.

Lemma answered_grows req own base a st s s' : log_grows s s' → answered req own base a st s → answered req own base a st s'.
Proof using Type. intros Hg (f & Hf & Ha). exists f. split; [by eapply heard_grows|done]. Qed.

Lemma data_step_grows (s : core) p : data_step (sm_phy s) p → log_grows s (with_phy p s).
Proof using Type.
  intros Hd. unfold log_grows, log_of. simpl.
  destruct (data_step_log _ _ Hd) as [->|(e & _ & ->)]; [by exists []|by exists [e]].
Qed.

#[global] Instance answered_data req own short associated base a st :
  DataInv RX (λ s, member req own short associated s ∧ answered req own base a st s).
Proof using Type.
  pose proof (member_data req own short associated) as HM. split; [split|..].
  - intros s [Hm _]. apply Hm.
  - intros s p [Hm Ha] Hd. split; [by apply HM|]. eapply answered_grows; [by apply data_step_grows|done].
  - intros s r [Hm Ha]. split; [by apply HM|done].
  - intros s q [Hm Ha] Hq. split; [by apply HM|done].
  - intros s e [Hm Ha]. split; [by apply HM|done].
  - intros s r [Hm Ha] Hr. split; [by apply HM|done].
  - intros s n [Hm Ha]. split; [by apply HM|done].
  - intros s n [Hm Ha]. split; [by apply HM|done].
Qed.

(** ** While the answer is awaited *)

Section Waiting.
Context (req : MlmeAssociateRequest) (own : IeeeAddress) (base : list RadioEvent).

(** Not associated, and every retained frame was received since [base]. *)
Record waiting (s : core) : Prop := {
  wt_member : member req own 0xFFFF false s;
  wt_log : ∃ new, log_of s = new ++ base;
  wt_queue : ∀ f, f ∈ rq_view RX (sm_pending_rx s) → heard_since base s f }.

Lemma waiting_step s s' :
  waiting s → member req own 0xFFFF false s' → log_grows s s' → sm_pending_rx s' = sm_pending_rx s → waiting s'.
Proof using Type.
  intros [Hm [new Hn] Hq] Hm' Hg Heq. split; [done| |].
  - destruct Hg as [new' Hn']. exists (new' ++ new). by rewrite Hn', Hn, app_assoc.
  - intros f Hf. rewrite Heq in Hf. eapply heard_grows; [done|by apply Hq].
Qed.

Lemma grows_refl s : log_grows s s.
Proof using Type. by exists []. Qed.

#[global] Instance waiting_radio : RadioInv RX waiting.
Proof using Type.
  pose proof (member_data req own 0xFFFF false) as HM. split.
  - intros s [Hm _ _]. apply Hm.
  - intros s p Hs Hd. eapply waiting_step; [done|by apply (ri_phy RX); [apply Hs|]|by apply data_step_grows|done].
  - intros s r Hs. eapply waiting_step; [done|apply (ri_random RX), Hs|by exists []|done].
Qed.

Lemma waiting_answer s f address status :
  waiting s → heard_since base s f → rx_wf f → response_of (sm_pib s) f = Some (address, status) →
  answered req own base address status s.
Proof using Type.
  intros [[] _ _] Hf Hwf Hr. exists f. split; [done|]. subst own. rewrite <- mb_pan0. by apply response_answers.
Qed.

Lemma wp_receive_waiting t s : waiting s →
  wp (receive_frame RX t) (λ r s', r ≠ Panic ∧ waiting s' ∧
    ∃ f, slot_ready RX f s' ∧ (r = Ok (inl true) → heard_since base s' f)) s.
Proof using HRX LP LR.
  intros Hs. destruct (receive_frame_spec RX HRX t s (ri_ok RX s Hs)) as (buf & q & Hbuf & Hrun).
  pose proof (ds_receive t buf (sm_phy s) Hbuf) as Hd. unfold wp. revert Hrun Hd. simpl.
  destruct (phy_receive t buf (rec_phy (sm_phy s))) as [[r b] p]. intros (-> & Hr & Hq & Hsl & Hv) Hd. simpl.
  pose proof (data_step_grows s _ Hd) as Hg. simpl in *.
  set (p' := mk_Recorded p (EvReceive r b :: rec_log (sm_phy s))) in *. destruct Hs as [Hm [new Hn] Hqu].
  assert (log_of (with_rx q (with_phy p' s)) = (EvReceive r b :: new) ++ base) as Hlog by by rewrite <- app_comm_cons, <- Hn.
  split; [by destruct r|]. split; [split|].
  - apply (di_rx RX); [|done]. by apply (ri_phy RX).
  - by eexists.
  - intros f Hf. eapply heard_grows; [exact Hg|]. apply Hqu. simpl in Hf. rewrite Hv in Hf. unfold make_room in Hf.
    case_match; [|done]. destruct (rq_view RX (sm_pending_rx s)); [done|]. by right.
  - exists b. split; [done|]. intros Hok. destruct r as [[|]|e|]; simplify_eq. eexists. split; [exact Hlog|]. by left.
Qed.

Lemma wp_accept_waiting want f s : waiting s → slot_ready RX f s → heard_since base s f →
  wp (accept RX want) (λ r s', r ≠ Panic ∧ waiting s' ∧
    ∀ ack a st want', r = Ok (ack, Some (HeardAssociation a st), want') → answered req own base a st s') s.
Proof using HRX LP LR.
  intros Hs Hr Hf. pose proof (accept_spec RX HRX want f s (ri_ok RX s Hs) Hr) as H1.
  pose proof (accept_gains RX HRX want f s (ri_ok RX s Hs) Hr) as H2. unfold wp in *.
  destruct (accept RX want s) as [r s'] eqn:Hrun. simpl in *.
  destruct H1 as (q & role & -> & Hq & Hro & Hp). split; [by destruct r|]. split.
  - destruct Hs as [Hm Hl Hqu]. split; [apply (di_role RX); [by apply (di_rx RX)|done]|done|].
    intros g Hg. destruct (H2 g Hg) as [->|Hin]; [done|by apply Hqu].
  - intros ack a st want' ->. destruct Hp as (_ & Hh & _). destruct (Hh _ eq_refl) as [_ Hresp].
    eapply (answered_grows _ _ _ _ _ s); [by exists []|]. eapply waiting_answer; [exact Hs|done|apply Hr|done].
Qed.

(** What ends the window, if it is the answer, was received. *)
Definition window_answered (r : outcome MacError (option Heard * Want)) (s : core) : Prop :=
  ∀ a st want, r = Ok (Some (HeardAssociation a st), want) → answered req own base a st s.

Lemma listen_loop_waiting n started timeout want s :
  waiting s → wp (listen_loop RX n started timeout want) (λ r s', r ≠ Panic ∧ waiting s' ∧ window_answered r s') s.
Proof using HRX LP LR.
  revert want s. induction n as [|n IH]; intros want s Hs; cbn [listen_loop]; [by split_and!|].
  apply wp_bind. eapply wp_mono; [by apply (keeps_clock RX waiting)|].
  intros [now|e|] s1 [Hr1 H1]; [|by split_and!|done]. destruct (checked_sub _ _) as [remaining|]; [|by split_and!].
  apply wp_bind. eapply wp_mono; [by apply wp_receive_waiting|].
  intros [[[|]|error]|e|] s2 (Hr & H2 & f & Hf & Hh); try (by split_and!).
  2: { destruct error; try (by split_and!). by apply IH. }
  apply wp_bind. eapply wp_mono; [by apply (wp_accept_waiting want f s2); [| |apply Hh]|].
  intros [[[ack heard] want']|e|] s3 (Hr3 & H3 & Ha); [|by split_and!|done]. apply wp_bind.
  assert (wp (match ack with
     | Some (sequence, frame_pending) =>
         sent ← phy_result (phy_send_ack sequence frame_pending);
         match sent with inl _ | inr ChannelBusy => mret () | inr error => throw (phy_error error) end
     | None => mret () end) (λ r s', r ≠ Panic ∧ waiting s' ∧ log_grows s3 s') s3) as Hack.
  { destruct ack as [[sequence pending]|]; [|by split_and!; [| |apply grows_refl]].
    pose proof (keeps_phy_result RX waiting _ (data_op_send_ack RX waiting sequence pending) s3 H3) as Hk.
    unfold wp in *. cbv [mbind stm_bind]. revert Hk. unfold phy_result. pose proof (ds_send_ack sequence pending (sm_phy s3)) as Hd.
    destruct (phy_send_ack sequence pending (sm_phy s3)) as [[u|e|] p]; intros [Hp Hw]; pose proof (data_step_grows s3 p Hd) as Hg;
      [by split_and!|destruct e; by split_and!|done]. }
  eapply wp_mono; [exact Hack|]. intros [[]|e|] s4 (Hr4 & H4 & Hg); [|by split_and!|done].
  destruct heard as [h|]; [|by apply IH]. split; [done|]. split; [done|].
  intros a st w [= -> ->]. eapply answered_grows; [exact Hg|]. by eapply Ha.
Qed.

Lemma listen_waiting timeout want s :
  waiting s → wp (listen RX timeout want) (λ r s', r ≠ Panic ∧ waiting s' ∧ window_answered r s') s.
Proof using HRX LP LR.
  intros Hs. unfold listen. apply wp_bind. eapply wp_mono; [by apply (keeps_clock RX waiting)|].
  intros [now|e|] s1 [Hr1 H1]; [by apply listen_loop_waiting|by split_and!|done].
Qed.

Lemma transmit_waiting frame ack : keeps waiting (transmit RX frame ack).
Proof using HRX LP LR.
  apply (keeps_transmit_radio RX HRX waiting). intros timeout want s Hs.
  eapply wp_mono; [by apply listen_waiting|]. by intros r s' (? & ? & _).
Qed.

Lemma take_waiting s :
  waiting s → wp (take_pending_association_response RX) (λ r s', r ≠ Panic ∧ waiting s' ∧
    ∀ a st, r = Ok (Some (a, st)) → answered req own base a st s') s.
Proof using HRX LP LR.
  intros Hs. apply wp_get_bind. assert (Hq : rq_wf RX (sm_pending_rx s)) by (apply (mo_rx RX), (ri_ok RX s Hs)).
  unfold wp, on_rx.
  destruct (find_response_spec RX HRX (rq_len (sm_pending_rx s)) 0 (sm_pib s) (sm_pending_rx s) Hq) as (o & -> & Ho); [done|].
  cbn [mbind outcome_bind]. destruct o as [[j [a st]]|].
  - destruct Ho as (Hj & f & Hf & Hresp).
    destruct (rq_remove_spec (E:=MacError) RX HRX (sm_pending_rx s) j Hq) as (q & -> & Hwf & Hv); [lia|].
    assert (heard_since base s f) as Hh by (apply (wt_queue s Hs); by eapply list_elem_of_lookup_2).
    split; [done|]. split; [split|].
    + apply (di_rx RX); [apply Hs|done].
    + apply Hs.
    + intros g Hg. apply (wt_queue s Hs). simpl in Hg. rewrite Hv in Hg.
      by eapply list_elem_of_delete_inv.
    + intros a' st' [= <- <-]. eapply (answered_grows _ _ _ _ _ s); [by exists []|]. eapply waiting_answer; [exact Hs|done| |done].
      exact (Forall_lookup_1 _ _ _ _ (rq_view_wf RX HRX _ Hq) Hf).
  - split; [done|]. split; [|done]. eapply waiting_step; [done|apply (di_rx RX); [apply Hs|done]|by exists []|done].
Qed.
End Waiting.

Hint Resolve member_data : keeps.

(** Committing an address, or an error of the radio that leaves it alone. *)
Lemma set_addresses_run pan a (s : core) :
  mac_ok RX s → wp (set_addresses pan a) (λ r s', r ≠ Panic ∧ mac_ok RX s' ∧ log_grows s s' ∧
    sm_pending_rx s' = sm_pending_rx s ∧
    match r with
    | Ok _ => sm_pib s' = set_short_address a (set_pan_id pan (sm_pib s)) ∧
        latest set_filter_of (log_of s') =
          Some (if pib_promiscuous (sm_pib s) then None
                else Some (mk_PhyAddressFilter pan a (pib_extended_address (sm_pib s))))
    | _ => sm_pib s' = sm_pib s ∧ latest set_filter_of (log_of s') = latest set_filter_of (log_of s)
    end) s.
Proof using LP LR HRX.
  intros Hok. pose proof (ci_addresses (I:=mac_ok RX) RX pan a s Hok) as Hk. revert Hk. unfold wp, set_addresses.
  cbv [mbind stm_bind modify_st gets]. cbn [phy_set_address_filter Recorded_phy]. rewrite phy_op_rec.
  destruct (phy_set_address_filter _ _) as [[[]|e|] p]; simpl; intros [Hr Ho]; split_and!; try done; by eexists [_].
Qed.

(** The outcome of an association once the request was accepted. *)
Definition association_result (req : MlmeAssociateRequest) (own : IeeeAddress) (base : list RadioEvent)
    (r : outcome MacError MlmeAssociateConfirm) (s' : core) : Prop :=
  match r with
  | Ok c => ∃ status, answered req own base (asc_short_address c) status s' ∧
      if status =? 0 then
        asc_status c = AsSuccess ∧ asc_short_address c < 0xFFF8 ∧ member req own (asc_short_address c) true s'
      else
        asc_status c = (if status =? 1 then AsPanAtCapacity else AsPanAccessDenied) ∧ member req own 0xFFFF false s'
  | Err _ => member req own 0xFFFF false s'
  | Panic => False
  end.

Lemma finish_spec req own base a st (s : core) :
  member req own 0xFFFF false s → answered req own base a st s →
  wp (finish_association (a, st)) (λ r s', association_result req own base r s' ∧
    ∀ c, r = Ok c → asc_short_address c = a) s.
Proof using LP LR HRX.
  intros Hs Ha. unfold finish_association. apply wp_bind.
  destruct (Z.eqb_spec st 0) as [->|Hst].
  2: { replace (bool_decide _) with false by (symmetry; by destruct (st =? 1)). apply wp_ret, wp_ret.
       split; [|by intros c [= <-]]. exists st. split; [done|]. rewrite (proj2 (Z.eqb_neq _ _) Hst). done. }
  rewrite bool_decide_eq_true_2 by done. destruct (0xFFF8 <=? a) eqn:Hlt; [done|]. bool_simpl. apply wp_gets_bind, wp_bind.
  eapply wp_mono; [apply (set_addresses_run (pib_pan_id (sm_pib s)) a s), Hs|].
  destruct Hs as [Hok Hch Hpan Hsh Hown Has Hco Hfl]. intros [[]|e|] s1 (Hr & Hok1 & Hg & _ & Hp1 & Hf1); [| |done].
  - split; [|by intros c [= <-]]. exists 0. split; [exact (answered_grows _ _ _ _ _ _ _ Hg Ha)|]. simpl. split_and!; [done|done|].
    split; [by apply (ci_associated (I:=mac_ok RX) RX)|..]; simpl; rewrite ?Hp1; try done.
    change (log_of (with_pib _ s1)) with (log_of s1). rewrite Hf1, Hpan, Hown. done.
  - split; [|done]. split; rewrite ?Hp1, ?Hf1; done.
Qed.

Lemma associate_loop_spec n req own base polls (s : core) :
  0 <= polls <= 32 → Z.of_nat n = 33 - polls → waiting req own base s →
  wp (associate_loop RX n req polls) (association_result req own base) s.
Proof using LP LR HRX.
  revert polls s. induction n as [|n IH]; intros polls s Hp Hn Hs; [simpl in Hn; lia|]. cbn [associate_loop].
  apply wp_bind. unfold wp at 1. cbn [take_dsn fst snd].
  assert (waiting req own base (take_dsn s).2) as H1.
  { eapply waiting_step; [done|apply (di_dsn RX), Hs|by exists []|done]. }
  destruct (take_dsn s) as [[sequence|e|] s1] eqn:Hdsn; [|by vm_compute in Hdsn..]. simpl in H1. clear s Hs Hdsn.
  apply wp_gets_bind. cbv zeta. apply wp_bind. eapply wp_mono; [by apply transmit_waiting|].
  intros [ack|e|] s2 [Hr2 H2]; [|apply H2|done]. clear s1 H1.
  apply wp_bind. eapply wp_mono; [by apply take_waiting|]. intros [pending|e|] s3 (Hr3 & H3 & Ha3); [|apply H3|done]. clear s2 H2 Hr2.
  apply wp_bind.
  match goal with |- wp ?m _ s3 => assert (wp m (λ r s', r ≠ Panic ∧ waiting req own base s' ∧
    ∀ a st, r = Ok (Some (a, st)) → answered req own base a st s') s3) as Hm end.
  { destruct pending as [[a st]|]; [split_and!; [done|done|]; intros a' st' [= <- <-]; by apply Ha3|].
    apply wp_bind. eapply wp_mono; [by apply listen_waiting|]. intros [[heard w]|e|] s4 (Hr4 & H4 & Ha4); [|by split_and!|done].
    apply wp_ret. split; [done|]. split; [done|]. intros a st Heq. destruct heard as [[]|]; simplify_eq. exact (Ha4 _ _ _ eq_refl). }
  eapply wp_mono; [exact Hm|]. clear Hm. intros [[[a st]|]|e|] s4 (Hr4 & H4 & Ha4); [| |apply H4|done].
  - apply wp_bind. eapply wp_mono; [apply (finish_spec req own base a st s4); [apply H4|by apply Ha4]|].
    intros [c|e|] s5 [H5 Hc]; [|done|done]. destruct (bool_decide_reflect (asc_status c = AsSuccess)) as [Hst|Hst]; [|done].
    destruct H5 as (status & Hans & H5). destruct (status =? 0) eqn:Hz; [|destruct H5 as [H5 _]; rewrite Hst in H5; by destruct (status =? 1)].
    destruct H5 as (_ & Hlt & Hmem). apply wp_bind, wp_bind, wp_try.
    pose proof (keeps_listen RX HRX (λ s, member req own (asc_short_address c) true s ∧ answered req own base (asc_short_address c) status s)) as Hl.
    eapply wp_mono; [by apply Hl|]. intros [u|e|] s6 [Hr6 [H6 Ha6]]; [| |done]; exists status; rewrite Hz.
    + done.
    + split; [done|]. split_and!; [done|done|]. by apply (di_error RX).
  - apply wp_bind. assert (keeps (waiting req own base) (if negb (polls =? 0) then phy_do (phy_delay_micros ASSOCIATION_POLL_DELAY_US) else mret ())) as Hd.
    { case_match; [apply (keeps_delay RX (waiting req own base))|apply keeps_ret]. }
    eapply wp_mono; [by apply Hd|]. intros [[]|e|] s5 [Hr5 H5]; [|apply H5|done].
    destruct (polls =? MAX_ASSOCIATION_POLLS) eqn:Hmax; [apply H5|]. unfold MAX_ASSOCIATION_POLLS in *. bool_simpl.
    apply IH; [lia|lia|done].
Qed.

Lemma set_channel_run c (s : core) :
  mac_ok RX s → wp (set_channel c) (λ r s', r ≠ Panic ∧ mac_ok RX s' ∧ log_grows s s' ∧ 
    sm_pib s' = match r with Ok _ => set_current_channel c (sm_pib s) | _ => sm_pib s end) s.
Proof using LP LR HRX.
  intros Hok. pose proof (ci_channel (I:=mac_ok RX) RX c s Hok) as Hk. revert Hk. unfold wp, set_channel.
  destruct (negb _); [intros [? ?]; split_and!; try done; by exists []|]. cbv [mbind stm_bind modify_st]. cbn [phy_set_channel Recorded_phy]. rewrite phy_op_rec.
  destruct (phy_set_channel _ _) as [[[]|e|] p]; simpl; intros [Hr Ho]; split_and!; try done; by eexists [_].
Qed.

(** A request refused beforehand leaves addresses, coordinator and association
    as they were. *)
Lemma prepare_spec req (s : core) :
  mac_ok RX s → wp (prepare_association req) (λ r s', 
    match r with
    | Ok _ => waiting req (pib_extended_address (sm_pib s)) (log_of s) s'
    | Err _ => mac_ok RX s' ∧ (sm_pib s' = sm_pib s ∨ sm_pib s' = set_current_channel (asr_channel req) (sm_pib s))
    | Panic => False
    end) s.
Proof using LP LR HRX.
  intros Hok. unfold prepare_association. apply wp_gets_bind. destruct (_ || _ || _ || _); [by split; [|left]|].
  apply wp_bind. eapply wp_mono; [by apply (set_channel_run (asr_channel req) s)|].
  intros [[]|e|] s1 (Hr1 & Hok1 & Hg1 & Hp1); [|by split; [|left]|done].
  apply wp_bind. eapply wp_mono; [by apply (set_addresses_run (mac_pan_id (asr_coord_address req)) 0xFFFF s1)|].
  intros [[]|e|] s2 (Hr2 & Hok2 & Hg2 & _ & Hp2 & Hf2); [|split; [done|right; congruence]|done].
  destruct (match asr_coord_address req with MacShort _ a => (a, all_zeros) | MacExtended _ a => (0xFFFF, a) end)
    as [cs ce] eqn:Hc.
  apply wp_bind, wp_modify, wp_bind, wp_modify, wp_modify.
  assert (H3 : mac_ok RX (with_pib (set_associated_pan_coord false (set_coord_extended_address ce
                 (set_coord_short_address cs (sm_pib s2)))) s2)).
  { exact (ci_associated (I:=mac_ok RX) RX _ false (ci_coordinator (I:=mac_ok RX) RX s2 cs ce Hok2)). }
  destruct (rq_clear_wf RX HRX _ (mo_rx _ _ Hok2)) as [Hq Hv]. split.
  - split; [destruct H3; by split|..]; simpl; rewrite ?Hp2, ?Hp1; try done.
    change (log_of (with_error _ _)) with (log_of s2). rewrite Hf2, Hp1. done.
  - destruct Hg1 as [n1 H1], Hg2 as [n2 H2]. exists (n2 ++ n1). change (log_of s2 = (n2 ++ n1) ++ log_of s).
    by rewrite H2, H1, app_assoc.
  - simpl. rewrite Hv. by intros f ?%elem_of_nil.
Qed.
End Association.

(** * Theorems *)

(** C17. A transmission is reported as acknowledged only if it was: on a radio that
    leaves acknowledgements to the MAC, after [transmit] the record of the radio
    ends with the reception of an acknowledgement that carries the sequence
    number of the frame, heard after the frame was last sent and with nothing
    sent since; the reported pending flag is that acknowledgement's.  Giving up
    means that the frame was on the air once more than there are retries, and in
    every case the channel is assessed at most once more than there are backoffs
    for each of these. *)
Theorem transmit_success_acknowledged (P R : Type) {HP : RadioPhy P} {HR : MacRole R} {LP : LawfulPhy P}
    {LR : LawfulRole R} (RX : nat) (s : SoftMacCore (Recorded P) R) frame sequence :
  (0 < RX <= 255)%nat → phy_tx (P:=P) = SoftwareTx → mac_ok RX s → frame !! 2%nat = Some sequence →
  ∃ r s' new, transmit RX frame true s = (r, s') ∧ log_of s' = new ++ log_of s ∧ sm_pib s' = sm_pib s ∧
    exchange frame sequence (S (Z.to_nat (pib_max_frame_retries (sm_pib s)))) new r ∧
    Z.of_nat (attempts new) <= (pib_max_frame_retries (sm_pib s) + 1) * (pib_max_csma_backoffs (sm_pib s) + 1).
Proof.
  intros HRX Htx Hok Hsq. unfold transmit. replace phy_tx with SoftwareTx. unfold software_transmit. rewrite Hsq.
  pose proof (mo_pib _ _ Hok) as Hwf. pose proof (pw_backoffs _ Hwf). pose proof (pw_retries _ Hwf).
  pose proof (transmit_loop_spec RX HRX (Z.to_nat (pib_max_frame_retries (sm_pib s))) frame sequence s (sm_pib s) (log_of s)) as Hw.
  destruct Hw as (new & (Hok' & Hp & Hl) & Hx & Ha); [done|lia|].
  eexists _, _, new. split; [apply surjective_pairing|]. split_and!; [done|done|done|lia].
Qed.

Definition ex_request_frame : list Z := [0x63; 0x88; 77; 0x34; 0x12; 0; 0; 0x78; 0x56; 4].

Lemma transmit_success_acknowledged_witness :
  let phy := mk_Scripted [[2; 0; 76]; [0x12; 0; 77]] [Some ChannelBusy] [] 0 in
  ∃ s s' new, new_custom (R:=EndDevice) 4 (mk_Recorded phy []) ex_pib = Ok s ∧
    transmit 4 ex_request_frame true s = (Ok (mk_AckResult true), s') ∧
    exchange ex_request_frame 77 (S (Z.to_nat (pib_max_frame_retries (sm_pib s)))) new (Ok (mk_AckResult true)).
Proof.
  intros phy. destruct (new_custom (R:=EndDevice) 4 (mk_Recorded phy []) ex_pib) as [s|e|] eqn:Hs;
    [|vm_compute in Hs; discriminate|vm_compute in Hs; discriminate].
  pose proof (ex_start_ok phy s Hs) as Hok.
  destruct (transmit_success_acknowledged Scripted EndDevice 4 s ex_request_frame 77) as (r & s' & new & Hrun & Hl & _ & Hx & _);
    [lia|done|done|done|].
  assert (Hr : match new_custom (R:=EndDevice) 4 (mk_Recorded phy []) ex_pib with
               | Ok s => (transmit 4 ex_request_frame true s).1 | _ => Panic end = Ok (mk_AckResult true))
    by (vm_compute; reflexivity).
  rewrite Hs, Hrun in Hr. simpl in Hr. subst r. by exists s, s', new.
Defined.

(** C21. A data frame the MAC acknowledges reaches the layer above: when a received
    data frame is answered with an acknowledgement, it carries the sequence
    number of the frame, and the frame is retained (as next to be read, or behind
    the others), with an indication that holds its addresses and the octets
    behind its header; asking for indications then returns every retained data
    frame, oldest first and each once, before the radio is listened to again. *)
Theorem acknowledged_data_delivered (P R : Type) {HP : RadioPhy P} {HR : MacRole R} {LP : LawfulPhy P}
    {LR : LawfulRole R} (RX : nat) (s s' : SoftMacCore P R) want want' f sequence pending heard timeout :
  (0 < RX <= 255)%nat → mac_ok RX s → slot_ready RX f s → data_kind f →
  accept RX want s = (Ok (Some (sequence, pending), heard, want'), s') →
  octets_of f !! 2%nat = Some sequence ∧
  (rq_view RX (sm_pending_rx s') = rq_view RX (sm_pending_rx s) ++ [f] ∨
   rq_view RX (sm_pending_rx s') = f :: rq_view RX (sm_pending_rx s)) ∧
  (∃ i, indication_of (sm_pib s') f = Some i ∧ indicates f i ∧ i ∈ deliverable RX s') ∧
  receive_all RX (length (deliverable RX s')) timeout s' = Ok (deliverable RX s').
Proof.
  intros HRX Hok Hsl Hk Hrun. pose proof (accept_spec RX HRX want f s Hok Hsl) as Hw. unfold wp in Hw. rewrite Hrun in Hw.
  destruct Hw as (q & role & Hs' & Hq & Hro & _ & _ & _ & Hack). simpl in Hs'. subst s'.
  destruct (Hack sequence pending eq_refl) as (Hsq & Hdata). destruct (Hdata Hk) as (Hv & i & Hi & Hind).
  split; [done|]. split; [done|]. split.
  - exists i. split; [done|]. split; [done|]. apply list_elem_of_omap. exists f. split; [|done]. simpl.
    destruct Hv as [-> | ->]; set_solver.
  - apply receive_all_spec; [done|]. apply (di_role RX); [|done]. by apply (di_rx RX).
Qed.


(** C22. Association ends in one of the states it reports.  Every confirm comes
    from an association response the radio received during this association,
    addressed to the extended address of this device in the PAN of the request.
    A success is reported exactly for the status 0, with the unicast short
    address that response assigns; the information base and the address filter
    of the radio then hold this address, on the channel and in the PAN of the
    request and with its coordinator.  A refusal, a timeout and every failure
    after the request was accepted leave the device on that channel and PAN
    without an address and not associated.  A request refused beforehand leaves
    addresses, coordinator and association as they were, and changes nothing at
    all when a parameter is bad.  Nothing panics. *)
Theorem association_outcome (P R : Type) {HP : RadioPhy P} {HR : MacRole R} {LP : LawfulPhy P}
    {LR : LawfulRole R} (RX : nat) (s : SoftMacCore (Recorded P) R) req :
  (0 < RX <= 255)%nat → mac_ok RX s →
  let '(r, s') := associate RX req s in
  (association_result RX req (pib_extended_address (sm_pib s)) (log_of s) r s' ∨
   ∃ e, r = Err e ∧ prepare_association req s = (Err e, s') ∧ mac_ok RX s' ∧
     (sm_pib s' = sm_pib s ∨ sm_pib s' = set_current_channel (asr_channel req) (sm_pib s))) ∧
  (pib_extended_address (sm_pib s) = all_zeros ∨ pib_extended_address (sm_pib s) = all_ones ∨
   not_unicast (asr_coord_address req) = true ∨ mac_pan_id (asr_coord_address req) = 0xFFFF →
   (r, s') = (Err MacInvalidParameter, s)).
Proof.
  intros HRX Hok. destruct (associate RX req s) as [r s'] eqn:Hrun. unfold associate in Hrun. split.
  - pose proof (prepare_spec RX HRX req s Hok) as Hp. unfold wp in Hp. cbv [mbind stm_bind] in Hrun.
    destruct (prepare_association req s) as [[[]|e|] s1] eqn:Hprep; simpl in Hp; [|simplify_eq; right|done].
    + left. pose proof (associate_loop_spec RX HRX 33 req _ _ 0 s1 ltac:(lia) ltac:(lia) Hp) as Hl. unfold wp in Hl.
      by rewrite Hrun in Hl.
    + exists e. destruct Hp. by split_and!.
  - intros Hbad. rewrite <- Hrun. unfold prepare_association. cbv [mbind stm_bind gets].
    destruct (_ || not_unicast (asr_coord_address req)) eqn:Hb; [done|]. exfalso. bool_simpl.
    destruct Hbad as [?|[?|[?|?]]]; congruence.
Qed.

Definition ex_data_frame : list Z := [0x61; 0x88; 42; 0xAA; 0x1A; 0x34; 0x12; 0; 0; 1; 2; 3].

(** A MAC whose radio has just written this frame. *)
Definition ex_received : SoftMacCore Scripted EndDevice :=
  mk_SoftMacCore (mk_Scripted [] [] [] 0) (set_short_address 0x1234 (set_pan_id 0x1AAA ex_pib))
    (mk_RxQueue (mk_PhyRxFrame (ex_data_frame ++ repeat 0 113) 12 200 :: repeat rx_EMPTY 3) 0 0) None 1 end_device.

Lemma ex_received_ok : mac_ok 4 ex_received.
Proof.
  split; simpl; try done.
  - pose proof ex_pib_wf as []. by split.
  - split; simpl; try lia. repeat constructor; vm_compute; lia.
Qed.

Lemma acknowledged_data_delivered_witness :
  ∃ s' heard, accept 4 WantRetained ex_received = (Ok (Some (42, false), heard, WantRetained), s') ∧
    receive_all 4 (length (deliverable 4 s')) 0 s' = Ok (deliverable 4 s').
Proof.
  destruct (accept 4 WantRetained ex_received) as [r s'] eqn:Hrun.
  assert (Hr : r = Ok (Some (42, false), Some HeardQueued, WantRetained)) by (vm_compute in Hrun; by injection Hrun as <- _).
  subst r. exists s', (Some HeardQueued). split; [done|].
  refine (proj2 (proj2 (proj2 (acknowledged_data_delivered Scripted EndDevice 4 ex_received s' WantRetained WantRetained
    (mk_PhyRxFrame (ex_data_frame ++ repeat 0 113) 12 200) 42 false (Some HeardQueued) 0 _ ex_received_ok _ _ Hrun)))).
  - lia.
  - split; [vm_compute; lia|]. split; [done|]. split; vm_compute; lia.
  - exists 0x61. done.
Defined.

Definition ex_association : MlmeAssociateRequest :=
  mk_MlmeAssociateRequest 20 (MacShort 0x1AAA 0) (capability_from_byte 0x80).

(** The acknowledgement of the request, a response for another device, and the
    response for this one: short address 0x4321, status 0. *)
Definition ex_response (own : IeeeAddress) : list Z :=
  [0x63; 0x8C; 5; 0xAA; 0x1A] ++ own ++ [0; 0; 2; 0x21; 0x43; 0].

Lemma association_outcome_witness :
  ∃ s s', new_custom (R:=EndDevice) 4
      (mk_Recorded (mk_Scripted [[2; 0; 7]; ex_response (repeat 3 8); ex_response ex_ieee] [] [] 0) []) ex_pib = Ok s ∧
    associate 4 ex_association s = (Ok (mk_MlmeAssociateConfirm 0x4321 AsSuccess), s') ∧
    member 4 ex_association ex_ieee 0x4321 true s'.
Proof.
  set (phy := mk_Scripted [[2; 0; 7]; ex_response (repeat 3 8); ex_response ex_ieee] [] [] 0).
  destruct (new_custom (R:=EndDevice) 4 (mk_Recorded phy []) ex_pib) as [s|e|] eqn:Hs;
    [|vm_compute in Hs; discriminate|vm_compute in Hs; discriminate].
  pose proof (association_outcome Scripted EndDevice 4 s ex_association ltac:(lia) (ex_start_ok phy s Hs)) as H.
  assert (Hown : pib_extended_address (sm_pib s) = ex_ieee) by (vm_compute in Hs; injection Hs as <-; reflexivity).
  assert (Hr : (associate 4 ex_association s).1 = Ok (mk_MlmeAssociateConfirm 0x4321 AsSuccess))
    by (vm_compute in Hs; injection Hs as <-; vm_compute; reflexivity).
  exists s. destruct (associate 4 ex_association s) as [r s'] eqn:Hrun. exists s'. simpl in Hr. subst r.
  split; [done|]. split; [done|]. rewrite Hown in H.
  destruct H as [[(status & _ & H)|(e & [=] & _)] _]. destruct (status =? 0); [apply H|].
  destruct H as [H _]. destruct (status =? 1); discriminate H.
Defined.
