(* ===== verification/SoftMacParent.v ===== *)
(** * SoftMacParent: the parent role of the software MAC

    [zigbee-mac/src/soft_mac/parent.rs]: the queue of commands heard from
    children, the association responses waiting for a child to poll, the
    children with indirect data, and the operations of a router on them. *)

From S2P Require Import Prelude Effects ZigbeeTypes MacFrames MacPib MacRxQueue SoftMac SoftMacSafe.
From S2P Require Import SoftMacRadio.

Local Open Scope Z_scope.

Definition BASE_SUPERFRAME_DURATION_US : Z := 960 * 16.

Record PendingAssociation := mk_PendingAssociation {
  pas_response : MlmeAssociateResponse; pas_expires_at_us : Z }.

(** [Parent<EVENTS, ASSOC, PENDING>] *)
Record Parent (EVENTS ASSOC PENDING : nat) := mk_Parent {
  pt_events : list MacCommandEvent;
  pt_associations : list PendingAssociation;
  pt_pending : list MacAddress;
  pt_service_request : bool;
  pt_dropped_events : Z }.
Arguments mk_Parent {EVENTS ASSOC PENDING}.
Arguments pt_events {EVENTS ASSOC PENDING}.
Arguments pt_associations {EVENTS ASSOC PENDING}.
Arguments pt_pending {EVENTS ASSOC PENDING}.
Arguments pt_service_request {EVENTS ASSOC PENDING}.
Arguments pt_dropped_events {EVENTS ASSOC PENDING}.

(** The entry of a child. *)
Definition pas_for (child : IeeeAddress) (e : PendingAssociation) : bool :=
  bool_decide (ar_device_address (pas_response e) = child).

Section Role.
Context {EVENTS ASSOC PENDING : nat}.
Local Abbreviation parent := (Parent EVENTS ASSOC PENDING).

Definition with_events (l : list MacCommandEvent) (r : parent) : parent :=
  mk_Parent l (pt_associations r) (pt_pending r) (pt_service_request r) (pt_dropped_events r).
Definition with_associations (l : list PendingAssociation) (r : parent) : parent :=
  mk_Parent (pt_events r) l (pt_pending r) (pt_service_request r) (pt_dropped_events r).
Definition with_pending (l : list MacAddress) (r : parent) : parent :=
  mk_Parent (pt_events r) (pt_associations r) l (pt_service_request r) (pt_dropped_events r).
Definition with_service (b : bool) (r : parent) : parent :=
  mk_Parent (pt_events r) (pt_associations r) (pt_pending r) b (pt_dropped_events r).

Definition parent_new : parent := mk_Parent [] [] [] false 0.

Definition parent_frame_pending_for (r : parent) (source : MacAddress) : bool :=
  bool_decide (source ∈ pt_pending r)
  || match source with
     | MacExtended _ address => existsb (pas_for address) (pt_associations r)
     | MacShort _ _ => false
     end.

Definition is_data_request (e : MacCommandEvent) : bool := match e with DataRequest _ => true | _ => false end.

Definition parent_queue_command {E} (data : list Z) (lqi : Z) (r : parent) : outcome E parent :=
  event ← as_option (parse_parent_command data lqi);
  match event with
  | None => Ok r
  | Some event =>
      if (length (pt_events r) <? EVENTS)%nat then
        Ok (with_service (pt_service_request r || is_data_request event) (with_events (pt_events r ++ [event]) r))
      else
        Ok (mk_Parent (pt_events r) (pt_associations r) (pt_pending r) (pt_service_request r)
              (saturating_add_u16 (pt_dropped_events r) 1))
  end.

Definition parent_take_service_request (r : parent) : bool * parent := (pt_service_request r, with_service false r).
Definition parent_clear_role (r : parent) : parent := mk_Parent [] [] [] false (pt_dropped_events r).

#[export] Instance Parent_role : MacRole parent := {
  PARENT := true;
  new_role := parent_new;
  frame_pending_for := parent_frame_pending_for;
  queue_command E := parent_queue_command (E:=E);
  take_service_request := parent_take_service_request;
  clear_role := parent_clear_role }.
End Role.

(** [(now.wrapping_sub(deadline) as i32) >= 0] *)
Definition deadline_reached (now_us deadline_us : Z) : bool := wrapping_sub_u32 now_us deadline_us <? 2147483648.

Definition map_build_error (error : FrameBuildError) : MacError :=
  match error with FrameTooLong => MacFrameTooLong | InvalidParameter => MacInvalidParameter end.

Definition is_unicast (address : MacAddress) : bool :=
  match address with
  | MacShort _ address => address <? 0xFFF8
  | MacExtended _ address => negb (bool_decide (address = all_ones))
  end.

Definition delivery (response : MlmeAssociateResponse) (result : outcome MacError unit) : MacCommandEvent :=
  AssociationResponseDelivery (mk_MlmeAssociateResponseDelivery (ar_device_address response) (ar_short_address response)
    (ar_status response) result).

Record MlmeBeaconResponse := mk_MlmeBeaconResponse {
  br_pan_coordinator : bool; br_association_permit : bool; br_pending_short_addresses : list ShortAddress;
  br_pending_extended_addresses : list IeeeAddress; br_beacon_payload : PibPayload }.
Record MlmeOrphanResponse := mk_MlmeOrphanResponse {
  or_orphan_address : IeeeAddress; or_short_address : ShortAddress; or_associated_member : bool }.

Section Router.
Context {P : Type} {HP : RadioPhy P} {EVENTS ASSOC PENDING : nat} (RX : nat).
Local Abbreviation core := (SoftMacCore P (Parent EVENTS ASSOC PENDING)).
Local Abbreviation mac := (stm core MacError).

Definition on_role (f : Parent EVENTS ASSOC PENDING → Parent EVENTS ASSOC PENDING) : mac unit :=
  modify_st (λ s, with_role (f (sm_role s)) s).

Definition dropped_command_events (s : core) : Z := pt_dropped_events (sm_role s).

Definition start (req : MlmeStartRequest) : mac unit :=
  lift (validate_router_start req) ;;
  set_channel (sr_channel req) ;;
  short ← gets (λ s, pib_short_address (sm_pib s));
  set_addresses (sr_pan_id req) short ;;
  modify_st (λ s, with_pib (set_rx_on_when_idle true (sm_pib s)) s) ;;
  phy_do (phy_set_rx_on_when_idle true).

Definition set_hardware_frame_pending (address : MacAddress) (pending : bool) : mac unit :=
  caps ← gets (λ s, phy_capabilities (sm_phy s));
  if negb (pc_hardware_auto_ack caps) then mret ()
  else
    result ← phy_result (phy_set_ack_frame_pending address pending);
    match result with
    | inl _ => mret ()
    | inr Hardware => throw MacTransactionOverflow
    | inr other => throw (phy_error other)
    end.

Definition associate_response (rsp : MlmeAssociateResponse) : mac unit :=
  pib ← gets sm_pib;
  if pib_pan_id pib =? 0xFFFF then throw MacInvalidParameter
  else
    lift (map_outcome_err map_build_error
      (build_association_response (pib_dsn pib) (pib_pan_id pib) (pib_extended_address pib) rsp)) ;;
    let child := ar_device_address rsp in
    now ← monotonic_micros;
    let expires_at_us := (now + pib_transaction_persistence_time pib * BASE_SUPERFRAME_DURATION_US) mod 4294967296 in
    associations ← gets (λ s, pt_associations (sm_role s));
    let existing := position (pas_for child) associations in
    if negb (bool_decide (is_Some existing)) && (ASSOC <=? length associations)%nat then throw MacTransactionOverflow
    else
      set_hardware_frame_pending (MacExtended (pib_pan_id pib) child) true ;;
      let entry := mk_PendingAssociation rsp expires_at_us in
      match existing with
      | Some i => on_role (λ r, with_associations (<[i := entry]> (pt_associations r)) r)
      | None => on_role (λ r, with_associations (push_ignore ASSOC (pt_associations r) entry) r)
      end.

Definition set_frame_pending (child : MacAddress) (pending : bool) : mac unit :=
  pib ← gets sm_pib;
  if negb (mac_pan_id child =? pib_pan_id pib) || (pib_pan_id pib =? 0xFFFF) || negb (is_unicast child)
  then throw MacInvalidParameter
  else
    caps ← gets (λ s, phy_capabilities (sm_phy s));
    if pc_hardware_auto_ack caps then set_hardware_frame_pending child pending
    else
      table ← gets (λ s, pt_pending (sm_role s));
      match position (λ entry, bool_decide (entry = child)) table, pending with
      | None, true =>
          if (length table <? PENDING)%nat then on_role (λ r, with_pending (pt_pending r ++ [child]) r)
          else throw MacTransactionOverflow
      | Some i, false => on_role (λ r, with_pending (swap_remove (pt_pending r) i) r)
      | _, _ => mret ()
      end.

Definition beacon_response (rsp : MlmeBeaconResponse) : mac unit :=
  pib ← gets sm_pib;
  let source := if pib_short_address pib <? 0xFFF8 then MacShort (pib_pan_id pib) (pib_short_address pib)
                else MacExtended (pib_pan_id pib) (pib_extended_address pib) in
  sequence ← take_bsn;
  payload ← lift (pib_payload_as_slice (br_beacon_payload rsp));
  frame ← lift (map_outcome_err map_build_error
            (build_nonbeacon_beacon sequence source (br_pan_coordinator rsp) (br_association_permit rsp)
               (br_pending_short_addresses rsp) (br_pending_extended_addresses rsp) payload));
  transmit RX frame false ;; mret ().

Definition orphan_response (rsp : MlmeOrphanResponse) : mac unit :=
  if negb (or_associated_member rsp) then mret ()
  else
    sequence ← take_dsn;
    pib ← gets sm_pib;
    frame ← lift (map_outcome_err map_build_error
              (build_coordinator_realignment_orphan_response sequence (pib_pan_id pib) (pib_short_address pib)
                 (pib_extended_address pib) (pib_current_channel pib) (or_orphan_address rsp) (or_short_address rsp)));
    transmit RX frame true ;; mret ().

Definition indirect_data (req : McpsDataRequest) : mac McpsDataConfirm :=
  pib ← gets sm_pib;
  if negb (to_indirect (dr_tx_options req)) || negb (mac_pan_id (dr_dst_address req) =? pib_pan_id pib)
     || negb (is_unicast (dr_dst_address req))
  then throw MacInvalidParameter
  else
    let options := dr_tx_options req in
    let req := mk_McpsDataRequest (dr_src_addr_mode req) (dr_dst_address req) (dr_payload req) (dr_msdu_handle req)
                 (mk_TxOptions (to_ack_tx options) false (to_security_enabled options) (to_frame_pending options)) in
    frame ← data_frame req;
    send_data RX frame (dr_msdu_handle req).

Definition clear_association_frame_pending (child : IeeeAddress) : mac unit :=
  pan ← gets (λ s, pib_pan_id (sm_pib s));
  try_st (set_hardware_frame_pending (MacExtended pan child) false) ;;
  mret ().

Definition transmit_association_response (response : MlmeAssociateResponse) : mac unit :=
  sequence ← take_dsn;
  pib ← gets sm_pib;
  frame ← lift (map_outcome_err map_build_error
            (build_association_response sequence (pib_pan_id pib) (pib_extended_address pib) response));
  transmit RX frame true ;; mret ().

Definition finish_association_delivery (child : IeeeAddress) (result : outcome MacError unit) : mac MacCommandEvent :=
  associations ← gets (λ s, pt_associations (sm_role s));
  response ←
    match position (pas_for child) associations with
    | Some i =>
        entry ← lift (index associations i);
        on_role (λ r, with_associations (swap_remove (pt_associations r) i) r) ;;
        mret (pas_response entry)
    | None => mret (mk_MlmeAssociateResponse child 0xFFFF AsPanAccessDenied)
    end;
  clear_association_frame_pending child ;;
  mret (delivery response result).

Definition next_command_event : mac (option MacCommandEvent) :=
  now_us ← monotonic_micros;
  associations ← gets (λ s, pt_associations (sm_role s));
  match position (λ e, deadline_reached now_us (pas_expires_at_us e)) associations with
  | Some i =>
      entry ← lift (index associations i);
      on_role (λ r, with_associations (swap_remove (pt_associations r) i) r) ;;
      clear_association_frame_pending (ar_device_address (pas_response entry)) ;;
      mret (Some (delivery (pas_response entry) (Err MacTransactionExpired)))
  | None =>
      events ← gets (λ s, pt_events (sm_role s));
      match events with
      | [] => on_role (with_service false) ;; mret None
      | event :: rest =>
          on_role (with_events rest) ;;
          match event with
          | DataRequest indication =>
              match di_source_address indication with
              | MacExtended _ child =>
                  match List.find (pas_for child) associations with
                  | None => mret (Some event)
                  | Some entry =>
                      sent ← try_st (transmit_association_response (pas_response entry));
                      match sent with
                      | inl _ => e ← finish_association_delivery child (Ok ()); mret (Some e)
                      | inr MacFrameTooLong => e ← finish_association_delivery child (Err MacFrameTooLong); mret (Some e)
                      | inr MacInvalidParameter => e ← finish_association_delivery child (Err MacInvalidParameter); mret (Some e)
                      | inr _ => mret (Some event)
                      end
                  end
              | MacShort _ short_address =>
                  match List.find (λ e, bool_decide (ar_status (pas_response e) = AsSuccess)
                                          && (ar_short_address (pas_response e) =? short_address)) associations with
                  | None => mret (Some event)
                  | Some entry =>
                      on_role (λ r, with_events (if (length (pt_events r) <? EVENTS)%nat then event :: pt_events r
                                                  else pt_events r) r) ;;
                      on_role (with_service true) ;;
                      e ← finish_association_delivery (ar_device_address (pas_response entry)) (Ok ());
                      mret (Some e)
                  end
              end
          | _ => mret (Some event)
          end
      end
  end.

Fixpoint command_event_loop (n : nat) (started_at timeout_us : Z) : mac MacCommandEvent :=
  match n with
  | O => throw MacNoData
  | S n =>
      event ← next_command_event;
      match event with
      | Some event => mret event
      | None =>
          now ← monotonic_micros;
          let remaining := saturating_sub timeout_us (wrapping_sub_u32 now started_at) in
          if remaining =? 0 then throw MacNoData
          else
            '(heard, _) ← listen RX remaining WantRetained;
            match heard with
            | Some _ => command_event_loop n started_at timeout_us
            | None => throw MacNoData
            end
      end
  end.

Definition command_event (timeout_us : Z) : mac MacCommandEvent :=
  started_at ← monotonic_micros;
  command_event_loop MAX_RX_FRAMES started_at timeout_us.
End Router.

(** * Invariant *)

Definition child_of (e : PendingAssociation) : IeeeAddress := ar_device_address (pas_response e).
Definition is_delivery (e : MacCommandEvent) : bool := match e with AssociationResponseDelivery _ => true | _ => false end.

Section Invariant.
Context {EVENTS ASSOC PENDING : nat}.
Local Abbreviation parent := (Parent EVENTS ASSOC PENDING).

Record parent_ok (r : parent) : Prop := {
  po_events : (length (pt_events r) <= EVENTS)%nat;
  po_heard : Forall (λ e, is_delivery e = false) (pt_events r);
  po_associations : (length (pt_associations r) <= ASSOC)%nat;
  po_children : NoDup (child_of <$> pt_associations r);
  po_pending : (length (pt_pending r) <= PENDING)%nat ∧ NoDup (pt_pending r) }.

(** A command heard is never a delivery report. *)
Lemma parse_no_delivery data lqi ev : parse_parent_command data lqi = Ok ev → is_delivery ev = false.
Proof.
  assert (Hb : ∀ {A} (m : fallible A) (k : A → fallible MacCommandEvent),
    (∀ a, k a = Ok ev → is_delivery ev = false) → (m ≫= k) = Ok ev → is_delivery ev = false).
  { intros A m k Hk. rewrite bind_Ok. intros (a & _ & Ha). by apply (Hk a). }
  unfold parse_parent_command.
  repeat first [ apply Hb; intros ? | progress cbv zeta
               | match goal with
                 | |- (if ?b then _ else _) = _ → _ => destruct b
                 | |- (match ?x with _ => _ end) = _ → _ => destruct x
                 | |- Ok _ = _ → _ => by intros [= <-]
                 | |- Err _ = _ → _ => done
                 end ].
Qed.

Lemma parent_queue_run {E} data lqi (r : parent) :
  parent_ok r → ∃ r', parent_queue_command (E:=E) data lqi r = Ok r' ∧ parent_ok r' ∧
    pt_associations r' = pt_associations r.
Proof.
  intros []. unfold parent_queue_command. pose proof (no_panic_parent_command data lqi) as Hn.
  destruct (parse_parent_command data lqi) as [ev| |] eqn:Hp; [| |done]; cbn [as_option mbind outcome_bind]; [|by exists r].
  destruct (_ <? EVENTS)%nat eqn:Hl; bool_simpl.
  - eexists. split; [done|]. split; [|done]. split; simpl; try done; [rewrite length_app; simpl; lia|].
    apply Forall_app. split; [done|]. constructor; [by eapply parse_no_delivery|done].
  - eexists. split; [done|]. split; [|done]. by split.
Qed.

#[export, refine] Instance Parent_lawful : LawfulRole parent := {| role_ok := parent_ok |}.
Proof.
  - split; simpl; try done; try lia; [constructor|split; [lia|constructor]].
  - intros E data lqi r Hr. destruct (parent_queue_run (E:=E) data lqi r Hr) as (r' & Hq & Hok & _). by exists r'.
  - intros r []. by split.
  - intros r []. split; simpl; try done; try lia; [constructor|split; [lia|constructor]].
Defined.

(** Receiving leaves the waiting responses alone. *)
Lemma role_step_associations (r r' : parent) :
  parent_ok r → role_step r r' → pt_associations r' = pt_associations r.
Proof.
  intros Hok Hs. destruct Hs as [r|data lqi r r' Hq|r]; [done| |done]. simpl in Hq.
  destruct (parent_queue_run (E:=MacError) data lqi r Hok) as (r2 & Hq2 & _ & Ha). congruence.
Qed.
End Invariant.

Section Waiting.
Context {P : Type} {HP : RadioPhy P} {LP : LawfulPhy P} {EVENTS ASSOC PENDING : nat}.
Context (RX : nat).
Local Abbreviation core := (SoftMacCore P (Parent EVENTS ASSOC PENDING)).
Local Abbreviation mac := (stm core MacError).

(** Well formed, with the responses [a] waiting. *)
Definition waiting (a : list PendingAssociation) (s : core) : Prop := mac_ok RX s ∧ pt_associations (sm_role s) = a.

#[global] Instance waiting_config a : ConfigInv RX (waiting a).
Proof.
  split; [split; [split|..]|..].
  - by intros s [].
  - intros s p [Hok Ha] Hd. split; [by apply (ri_phy (I:=mac_ok RX) RX)|done].
  - intros s r [Hok Ha]. split; [by apply (ri_random (I:=mac_ok RX) RX)|done].
  - intros s q [Hok Ha] Hq. split; [by apply (di_rx (I:=mac_ok RX) RX)|done].
  - intros s e [Hok Ha]. split; [by apply (di_error (I:=mac_ok RX) RX)|done].
  - intros s r [Hok Ha] Hr. split; [by apply (di_role (I:=mac_ok RX) RX)|]. simpl.
    rewrite (role_step_associations (sm_role s) r); [done|apply Hok|done].
  - intros s n [Hok Ha]. split; [by apply (di_dsn (I:=mac_ok RX) RX)|done].
  - intros s n [Hok Ha]. split; [by apply (di_bsn (I:=mac_ok RX) RX)|done].
  - intros c s [Hok Ha]. pose proof (ci_channel (I:=mac_ok RX) RX c s Hok) as [Hr Hok']. split; [done|]. split; [done|].
    unfold set_channel. destruct (negb _); [done|]. cbv [mbind stm_bind modify_st]. unfold phy_op.
    by destruct (phy_set_channel c (sm_phy s)) as [[u|e|] p].
  - intros pan x s [Hok Ha]. pose proof (ci_addresses (I:=mac_ok RX) RX pan x s Hok) as [Hr Hok']. split; [done|].
    split; [done|]. unfold set_addresses. cbv [mbind stm_bind modify_st gets]. unfold phy_op.
    by destruct (phy_set_address_filter _ (sm_phy s)) as [[u|e|] p].
  - intros s b [Hok Ha]. split; [by apply (ci_associated (I:=mac_ok RX) RX)|done].
  - intros s x e [Hok Ha]. split; [by apply (ci_coordinator (I:=mac_ok RX) RX)|done].
Qed.

(** ** Operations that leave the waiting responses alone *)

Context (HRX : (0 < RX <= 255)%nat).

Lemma keeps_hardware_pending I {HI : DataInv RX I} address pending :
  keeps I (set_hardware_frame_pending (EVENTS:=EVENTS) (ASSOC:=ASSOC) (PENDING:=PENDING) address pending).
Proof. unfold set_hardware_frame_pending. keeps_tac. Qed.

Lemma keeps_clear_pending I {HI : DataInv RX I} child :
  keeps I (clear_association_frame_pending (EVENTS:=EVENTS) (ASSOC:=ASSOC) (PENDING:=PENDING) child).
Proof.
  unfold clear_association_frame_pending. apply keeps_bind; [apply keeps_gets|intros pan].
  apply keeps_bind; [by apply keeps_try, keeps_hardware_pending|intros; apply keeps_ret].
Qed.

Lemma no_panic_association_frame sq pan ext rsp : no_panic (build_association_response sq pan ext rsp).
Proof. unfold build_association_response, extend. no_panic_tac. Qed.

Lemma no_panic_put_short f l : no_panic (put_pending_short f l).
Proof. revert f. induction l as [|a l IH]; intros f; simpl; [done|]. unfold extend. no_panic_tac. Qed.
Lemma no_panic_put_extended f l : no_panic (put_pending_extended f l).
Proof. revert f. induction l as [|a l IH]; intros f; simpl; [done|]. unfold extend. no_panic_tac. Qed.

Lemma no_panic_beacon_frame sq src c p ps pe payload : no_panic (build_nonbeacon_beacon sq src c p ps pe payload).
Proof.
  unfold build_nonbeacon_beacon, extend. no_panic_tac; try apply no_panic_put_short; try apply no_panic_put_extended.
  destruct src; no_panic_tac.
Qed.

Lemma no_panic_realignment_frame sq pan cs ce ch oe os :
  no_panic (build_coordinator_realignment_orphan_response sq pan cs ce ch oe os).
Proof. unfold build_coordinator_realignment_orphan_response, extend. no_panic_tac. Qed.

Lemma keeps_transmit_response I {HI : DataInv RX I} response :
  keeps I (transmit_association_response (EVENTS:=EVENTS) (ASSOC:=ASSOC) (PENDING:=PENDING) RX response).
Proof using HRX LP.
  unfold transmit_association_response. keeps_tac. apply no_panic_map_err, no_panic_association_frame.
Qed.

(** A change of the role that keeps the waiting responses. *)
Lemma keeps_on_role a f :
  (∀ r, parent_ok r → parent_ok (f r) ∧ pt_associations (f r) = pt_associations r) →
  keeps (waiting a) (on_role f).
Proof.
  intros Hf. apply keeps_modify. intros s [[] Ha]. destruct (Hf (sm_role s)) as [Hok Hfa]; [done|].
  split; [by split|]. simpl. by rewrite Hfa.
Qed.

Hint Resolve waiting_config keeps_hardware_pending keeps_clear_pending keeps_transmit_response : keeps.

Lemma keeps_start a req : keeps (waiting a) (start req).
Proof.
  unfold start. keeps_tac.
  - unfold validate_router_start. no_panic_tac.
  - apply keeps_modify. intros s [[? [] ? ?] Ha]. split; [|done]. by split.
  - apply keeps_phy_do. intros s [[] Ha]. split; [|done]. split; try done. by apply LP.
Qed.

Lemma keeps_set_frame_pending a child pending : keeps (waiting a) (set_frame_pending child pending).
Proof using HRX LP.
  unfold set_frame_pending. apply keeps_bind; [apply keeps_gets|intros pib]. destruct (_ || _ || _); [apply keeps_throw|].
  apply keeps_bind; [apply keeps_gets|intros caps]. destruct (pc_hardware_auto_ack caps); [eauto with keeps|].
  apply keeps_gets_bind. intros s Hs. pose proof Hs as [[? ? ? Hrole] Ha]. simpl in Hrole.
  assert (Hset : ∀ l, (length l <= PENDING)%nat → NoDup l →
    waiting a (with_role (with_pending l (sm_role s)) s)).
  { intros l Hl Hd. split; [|done]. split; try done. destruct Hrole. by split. }
  destruct (po_pending _ Hrole) as [Hlen Hnd].
  destruct (position _ (pt_pending (sm_role s))) as [i|] eqn:Hpos, pending; try done.
  - split; [done|]. apply position_Some in Hpos as (x & Hx & _). pose proof (swap_remove_perm _ _ _ Hx) as Hperm.
    apply Hset; [apply Permutation_length in Hperm; simpl in Hperm; lia|].
    rewrite <- Hperm in Hnd. by apply NoDup_cons in Hnd as [_ ?].
  - destruct (_ <? PENDING)%nat eqn:Hroom; [|done]. bool_simpl. split; [done|].
    apply Hset; [rewrite length_app; simpl; lia|]. apply NoDup_app. split; [done|]. split; [|apply NoDup_singleton].
    intros x Hx Hin%list_elem_of_singleton. subst x. rewrite position_None in Hpos. specialize (Hpos child Hx).
    by rewrite bool_decide_eq_true_2 in Hpos.
Qed.

Lemma keeps_beacon_response a rsp : payload_wf (br_beacon_payload rsp) → keeps (waiting a) (beacon_response RX rsp).
Proof using HRX LP.
  intros Hp. unfold beacon_response. keeps_tac.
  - unfold pib_payload_as_slice. apply no_panic_slice. destruct Hp. lia.
  - apply no_panic_map_err, no_panic_beacon_frame.
Qed.

Lemma keeps_orphan_response a rsp : keeps (waiting a) (orphan_response RX rsp).
Proof using HRX LP. unfold orphan_response. keeps_tac. apply no_panic_map_err, no_panic_realignment_frame. Qed.

Lemma keeps_indirect_data a req : keeps (waiting a) (indirect_data RX req).
Proof using HRX LP. unfold indirect_data. keeps_tac. Qed.

(** ** The driver operations other than reset *)

Lemma keeps_waiting_phy {A} a (m : stm P PhyError A) : returns phy_ok m → keeps (waiting a) (phy_op m).
Proof.
  intros Hm s [Hok Ha]. pose proof (keeps_phy_config (A:=A) RX m Hm s Hok) as [Hr Hok']. split; [done|]. split; [done|].
  unfold phy_op. by destruct (m (sm_phy s)) as [[?|?|] ?].
Qed.

Lemma keeps_waiting_set_pib a attr v : value_wf v → keeps (waiting a) (set_pib attr v).
Proof.
  intros Hv s [Hok Ha]. pose proof (keeps_set_pib RX attr v Hv s Hok) as [Hr Hok']. split; [done|]. split; [done|].
  rewrite set_pib_run by apply Hok. destruct (pib_set attr v (sm_pib s)) as [p| |]; [|done|done].
  assert (Hrole : sm_role (apply_changed_config attr (with_pib p s)).2 = sm_role s).
  { unfold apply_changed_config, phy_op, phy_do. cbv [mbind stm_bind gets modify_st].
    by destruct attr; try done; match goal with |- context [let '(_, _) := ?m in _] => destruct m as [[?|?|] ?] end. }
  destruct (apply_changed_config attr (with_pib p s)) as [[[]|e|] s']; simpl in *; by rewrite Hrole.
Qed.

Definition is_reset (op : mac_op) : bool := match op with OpReset _ => true | _ => false end.

Lemma keeps_waiting_scan a req : is_u8 (scr_scan_duration req) → keeps (waiting a) (scan RX req).
Proof using HRX LP.
  intros Hd. unfold scan. destruct (14 <? _) eqn:H14; [apply keeps_throw|]. case_bool_decide; [apply keeps_throw|].
  unfold is_u8 in Hd. bool_simpl. destruct (scan_duration_Ok (scr_scan_duration req)) as (d & -> & Hlt); [lia|].
  apply keeps_bind; [by apply keeps_lift|intros d']. apply keeps_bind; [by keeps_tac|intros d''].
  apply keeps_bind; [apply keeps_gets|intros original].
  apply keeps_bind; [apply keeps_waiting_phy, LP|intros _].
  apply keeps_bind; [apply keeps_try, keeps_scan_channels; [done|apply _|]; intros c; apply waiting_config|intros result].
  apply keeps_bind; [apply waiting_config|intros _]. apply keeps_bind; [apply keeps_gets|intros pib].
  apply keeps_bind; [apply keeps_waiting_phy, LP|intros _].
  keeps_tac.
Qed.

Lemma keeps_waiting_step a op : op_wf op → is_reset op = false → keeps (waiting a) (mac_step RX op).
Proof using HRX LP.
  intros Hop Hreset. destruct op; cbn [mac_step op_wf] in *; [..|].
  - by apply keeps_waiting_set_pib.
  - done.
  - apply keeps_waiting_phy, LP.
  - unfold wake. apply keeps_bind; [apply keeps_waiting_phy, LP|intros _]. apply keeps_bind; [apply keeps_gets|intros pib].
    apply keeps_waiting_phy, returns_full_config.
  - apply keeps_bind; [apply keeps_associate; [done|apply waiting_config]|intros; apply keeps_ret].
  - apply keeps_disassociate; [done|apply waiting_config].
  - apply keeps_bind; [apply keeps_transmit_data; [done|apply _]|intros; apply keeps_ret].
  - apply keeps_bind; [apply keeps_poll_within; [done|apply _]|intros; apply keeps_ret].
  - apply keeps_bind; [apply keeps_receive_data; [done|apply _]|intros; apply keeps_ret].
  - apply keeps_bind; [by apply keeps_waiting_scan|intros; apply keeps_ret].
Qed.

(** ** Reset *)

(** A computation that returns [r] leaves the responses [f r] waiting. *)
Definition leaves {A} (a : list PendingAssociation) (f : outcome MacError A → list PendingAssociation) (m : mac A) : Prop :=
  ∀ s, waiting a s → wp m (λ r s', r ≠ Panic ∧ waiting (f r) s') s.

Lemma leaves_keeps {A} a f (m : mac A) :
  keeps (mac_ok RX) m →
  (∀ s r s', waiting a s → m s = (r, s') → r ≠ Panic → pt_associations (sm_role s') = f r) → leaves a f m.
Proof.
  intros Hk Hf s Hs. destruct (Hk s (proj1 Hs)) as [Hr Hok]. destruct (m s) as [r s'] eqn:Hm. simpl in *.
  unfold wp. rewrite Hm. split; [done|]. split; [done|]. by apply (Hf s r s').
Qed.

Lemma clear_role_associations (s : core) : pt_associations (sm_role (clear_role_state s).2) = [] ∧ ∃ u, (clear_role_state s).1 = Ok u.
Proof.
  unfold clear_role_state, phy_do. cbv [PARENT Parent_role mbind stm_bind modify_st gets].
  destruct (pc_hardware_auto_ack _); (split; [done|by eexists]).
Qed.

Lemma leaves_reset a b : leaves a (λ r, match r with Ok _ => [] | _ => a end) (reset b).
Proof using HRX LP.
  apply leaves_keeps; [by apply keeps_reset|]. intros s r s' [Hok Ha] Hrun Hr.
  assert (Hconf : ∀ pib (k : mac unit) t, pt_associations (sm_role t) = a →
    (∀ p, ∃ u t', k (with_phy p t) = (Ok u, t') ∧ pt_associations (sm_role t') = []) →
    (phy_op (apply_full_config pib) ;; k) t = (r, s') →
    pt_associations (sm_role s') = match r with Ok _ => [] | _ => a end).
  { intros pib k t Ht Hk. unfold phy_op. cbv [mbind stm_bind].
    destruct (apply_full_config pib (sm_phy t)) as [[u|e|] p]; intros H.
    - destruct (Hk p) as (u' & t' & Hkp & Hnil). rewrite Hkp in H. by simplify_eq/=.
    - by simplify_eq/=.
    - by simplify_eq/=. }
  destruct b.
  - unfold reset in Hrun. cbv [mbind stm_bind next_random_u32] in Hrun.
    match type of Hrun with reset_pib ?d ?b ?t = _ => destruct (reset_pib_run d b t) as (Hn & seed & Hrp) end;
      [apply Hok|].
    rewrite Hrp in Hrun. eapply Hconf; [| |exact Hrun]; [done|]. intros p. cbv [mbind stm_bind modify_st lift].
    match goal with |- ∃ u t', clear_role_state ?t = _ ∧ _ => destruct (clear_role_associations t) as [Hnil [u Hu]] end.
    match goal with |- ∃ u t', ?m = _ ∧ _ => destruct m as [r2 t2] end. simpl in *. subst. by exists u, t2.
  - unfold reset in Hrun. change ((gets sm_pib ≫= ?k) s) with (k (sm_pib s) s) in Hrun.
    eapply Hconf; [| |exact Hrun]; [done|]. intros p. cbv [mbind stm_bind modify_st lift].
    match goal with |- ∃ u t', clear_role_state ?t = _ ∧ _ => destruct (clear_role_associations t) as [Hnil [u Hu]] end.
    match goal with |- ∃ u t', ?m = _ ∧ _ => destruct m as [r2 t2] end. simpl in *. subst. by exists u, t2.
Qed.

(** ** Reports *)

Lemma wp_keeps_bind {A B} a (m : mac A) (k : A → mac B) Q s :
  keeps (waiting a) m → waiting a s → (∀ x s', waiting a s' → wp (k x) Q s') →
  (∀ e s', waiting a s' → Q (Err e) s') → wp (m ≫= k) Q s.
Proof.
  intros Hm Hs Hk He. apply wp_bind. eapply wp_mono; [by apply Hm|].
  intros [x|e|] s' [Hr Hs']; [by apply Hk|by apply He|done].
Qed.

(** The response of an entry leaves with the result that ends it. *)
Definition reported (a : list PendingAssociation) (e : MacCommandEvent) (a' : list PendingAssociation) : Prop :=
  ∃ i x result, a !! i = Some x ∧ a' = swap_remove a i ∧ e = delivery (pas_response x) result.

Lemma waiting_remove a i x s :
  a !! i = Some x → waiting a s →
  waiting (swap_remove a i) (with_role (with_associations (swap_remove (pt_associations (sm_role s)) i) (sm_role s)) s).
Proof using HRX LP.
  intros Hx [[? ? ? Hrole] <-]. simpl in Hrole. destruct Hrole as [? ? Hlen Hnd ?].
  pose proof (swap_remove_perm _ _ _ Hx) as Hperm. split; [|done]. split; try done. split; simpl; try done.
  - apply Permutation_length in Hperm. simpl in Hperm. lia.
  - rewrite <- Hperm in Hnd. by apply NoDup_cons in Hnd as [_ ?].
Qed.

Lemma wp_remove_report a i x result s :
  a !! i = Some x → waiting a s →
  wp (on_role (λ r, with_associations (swap_remove (pt_associations r) i) r) ;;
      clear_association_frame_pending (ar_device_address (pas_response x)) ;;
      mret (delivery (pas_response x) result))
    (λ r s', ∃ e a', r = Ok e ∧ waiting a' s' ∧ reported a e a') s.
Proof using HRX LP.
  intros Hx Hs. apply wp_bind. cbn. pose proof (waiting_remove a i x s Hx Hs) as Hs2.
  revert Hs2. generalize (with_role (with_associations (swap_remove (pt_associations (sm_role s)) i) (sm_role s)) s).
  intros s2 Hs2. unfold clear_association_frame_pending.
  assert (Hrep : ∀ s3, waiting (swap_remove a i) s3 →
    ∃ e a', Ok (E:=MacError) (delivery (pas_response x) result) = Ok e ∧ waiting a' s3 ∧ reported a e a').
  { intros s3 Hs3. eexists _, _. split_and!; [done|done|]. by exists i, x, result. }
  unfold wp. cbv [mbind stm_bind gets try_st].
  pose proof (keeps_hardware_pending (waiting (swap_remove a i))
    (MacExtended (pib_pan_id (sm_pib s2)) (ar_device_address (pas_response x))) false s2 Hs2) as [Hr Hs3].
  destruct (set_hardware_frame_pending _ _ s2) as [[u|e|] s3]; simpl in *; [by apply Hrep|by apply Hrep|done].
Qed.

(** Finishing the delivery to a child with an entry reports that entry. *)
Lemma wp_finish_delivery a child x result s :
  x ∈ a → pas_for child x = true → waiting a s →
  wp (finish_association_delivery child result) (λ r s', ∃ e a', r = Ok e ∧ waiting a' s' ∧ reported a e a') s.
Proof using HRX LP.
  intros Hx Hc Hs. unfold finish_association_delivery. apply wp_gets_bind. rewrite (proj2 Hs).
  destruct (position (pas_for child) a) as [i|] eqn:Hp; [|rewrite position_None in Hp; by rewrite (Hp x Hx) in Hc].
  apply position_Some in Hp as (y & Hy & Hcy & _). unfold pas_for in Hcy. apply bool_decide_eq_true in Hcy. subst child.
  pose proof (wp_remove_report a i y result s Hy Hs) as Hw. revert Hw. unfold wp. cbv [mbind stm_bind lift on_role modify_st].
  by rewrite (index_Some _ _ _ Hy).
Qed.

(** What the next event is: a report that removes its entry, or an event
    heard, or nothing, with every entry still waiting. *)
Definition event_post (a : list PendingAssociation) (r : outcome MacError (option MacCommandEvent)) (s' : core) : Prop :=
  ∃ o a', r = Ok o ∧ waiting a' s' ∧
    match o with Some e => reported a e a' ∨ is_delivery e = false ∧ a' = a | None => a' = a end.

Lemma wp_finish_event a child x result s :
  x ∈ a → pas_for child x = true → waiting a s →
  wp (e ← finish_association_delivery child result; mret (Some e)) (event_post a) s.
Proof using HRX LP.
  intros Hx Hc Hs. apply wp_bind. eapply wp_mono; [by apply (wp_finish_delivery a child x)|].
  intros r s' (e & a' & -> & Hs' & Hrep). exists (Some e), a'. by split_and!; [..|left].
Qed.

Lemma wp_heard a e s : is_delivery e = false → waiting a s → wp (mret (Some e)) (event_post a) s.
Proof. intros He Hs. exists (Some e), a. split_and!; [done..|by right]. Qed.

Lemma waiting_role a f s :
  (parent_ok (sm_role s) → parent_ok (f (sm_role s)) ∧ pt_associations (f (sm_role s)) = pt_associations (sm_role s)) →
  waiting a s → waiting a (with_role (f (sm_role s)) s).
Proof. intros Hf [[] Ha]. destruct Hf as [Hok Hfa]; [done|]. split; [by split|]. simpl. by rewrite Hfa. Qed.

Lemma wp_clock_bind {B} a (k : Z → mac B) Q s :
  waiting a s → (∀ now s', waiting a s' → wp (k now) Q s') → wp (monotonic_micros ≫= k) Q s.
Proof.
  intros Hs Hk. pose proof (keeps_clock RX (waiting a) s Hs) as Hc. unfold wp, monotonic_micros in *.
  cbv [mbind stm_bind]. destruct (phy_monotonic_micros (sm_phy s)) as [now p]. apply Hk, Hc.
Qed.

Lemma wp_attempt {A B} a (m : mac A) (k : A + MacError → mac B) Q s :
  keeps (waiting a) m → waiting a s → (∀ x s', waiting a s' → wp (k x) Q s') → wp (try_st m ≫= k) Q s.
Proof.
  intros Hm Hs Hk. apply wp_bind, wp_try. eapply wp_mono; [by apply Hm|].
  intros [x|e|] s' [Hr Hs']; [by apply Hk|by apply Hk|done].
Qed.

Lemma wp_on_role f {B} (k : unit → mac B) Q s : wp (k ()) Q (with_role (f (sm_role s)) s) → wp (on_role f ≫= k) Q s.
Proof. done. Qed.

(** A poll from the extended address of a child delivers its response. *)
Lemma wp_extended_poll a child x ev s :
  x ∈ a → pas_for child x = true → is_delivery ev = false → waiting a s →
  wp (sent ← try_st (transmit_association_response RX (pas_response x));
      match sent with
      | inl _ => e ← finish_association_delivery child (Ok ()); mret (Some e)
      | inr MacFrameTooLong => e ← finish_association_delivery child (Err MacFrameTooLong); mret (Some e)
      | inr MacInvalidParameter => e ← finish_association_delivery child (Err MacInvalidParameter); mret (Some e)
      | inr _ => mret (Some ev)
      end) (event_post a) s.
Proof using HRX LP.
  intros Hx Hc Hev Hs. apply wp_attempt with a; [apply keeps_transmit_response, _|done|].
  intros [u|e] s2 Hs2; [by apply (wp_finish_event a child x)|].
  destruct e; try (by apply wp_heard); by apply (wp_finish_event a child x).
Qed.

(** A poll from the address a response assigned proves that it arrived, and
    stays queued. *)
Lemma wp_short_poll a x ev s :
  x ∈ a → is_delivery ev = false → (length (pt_events (sm_role s)) < EVENTS)%nat → waiting a s →
  wp (on_role (λ r, with_events (if (length (pt_events r) <? EVENTS)%nat then ev :: pt_events r
                                  else pt_events r) r) ;;
      on_role (with_service true) ;;
      e ← finish_association_delivery (ar_device_address (pas_response x)) (Ok ());
      mret (Some e)) (event_post a) s.
Proof using HRX LP.
  intros Hx Hev Hroom Hs. do 2 apply wp_on_role. apply (wp_finish_event a _ x); [done| |].
  - unfold pas_for. by apply bool_decide_eq_true.
  - apply (waiting_role a (with_service true)); [intros []; by split|].
    apply (waiting_role a (λ r, with_events _ r)); [|done]. intros [Hlen Hh ? ? ?]. split; [|done].
    rewrite (proj2 (Nat.ltb_lt _ _)) by done. split; simpl; try done. by constructor.
Qed.

Lemma wp_next_command_event a s : waiting a s → wp (next_command_event RX) (event_post a) s.
Proof using HRX LP.
  intros Hs. unfold next_command_event. apply wp_clock_bind with a; [done|]. clear s Hs. intros now s Hs.
  apply wp_gets_bind. rewrite (proj2 Hs). destruct (position _ a) as [i|] eqn:Hp.
  - apply position_Some in Hp as (x & Hx & _). apply wp_lift_Ok with x; [by apply index_Some|].
    pose proof (wp_remove_report a i x (Err MacTransactionExpired) s Hx Hs) as Hw. revert Hw. unfold wp.
    cbv [mbind stm_bind on_role modify_st].
    destruct (clear_association_frame_pending _ _) as [[u|e|] s'] eqn:He; intros (e' & a' & [=] & Hw & Hrep).
    exists (Some e'), a'. subst e'. by split_and!; [..|left].
  - apply wp_gets_bind. destruct (pt_events (sm_role s)) as [|ev rest] eqn:Hev.
    { apply wp_on_role. exists None, a. split_and!; [done| |done]. apply (waiting_role a (with_service false)); [|done].
      intros []. by split. }
    pose proof Hs as [[? ? ? [Hlen Hh ? ? ?]] _]. rewrite Hev in Hlen, Hh. apply Forall_cons in Hh as [Hnd Hh].
    assert (Hpop : waiting a (with_role (with_events rest (sm_role s)) s)).
    { apply (waiting_role a (with_events rest)); [|done]. intros []. split; [|done]. simpl in Hlen.
      split; simpl; [lia|done..]. }
    apply wp_on_role. destruct ev as [?|?|?|ind|?]; try by apply wp_heard.
    destruct (di_source_address ind) as [pan short|pan child];
      (destruct (List.find _ a) as [x|] eqn:Hf; [|by apply wp_heard]);
      apply List.find_some in Hf as [Hx%list_elem_of_In Hxc]; [by apply wp_short_poll|by apply wp_extended_poll].
Qed.

Definition command_post (a : list PendingAssociation) (r : outcome MacError MacCommandEvent) (s' : core) : Prop :=
  r ≠ Panic ∧ ∃ a', waiting a' s' ∧
    match r with Ok e => reported a e a' ∨ is_delivery e = false ∧ a' = a | _ => a' = a end.

Lemma wp_command_loop n a started timeout s : waiting a s → wp (command_event_loop RX n started timeout) (command_post a) s.
Proof using HRX LP.
  assert (Hthrow : ∀ e s', waiting a s' → command_post a (Err e) s') by (intros e s' Hs'; split; [done|by exists a]).
  revert s. induction n as [|n IH]; intros s Hs; cbn [command_event_loop]; [by apply Hthrow|].
  apply wp_bind. eapply wp_mono; [by apply wp_next_command_event|]. intros r s2 (o & a' & -> & Hs2 & Ho).
  destruct o as [e|]; [split; [done|by exists a']|]. subst a'.
  apply wp_clock_bind with a; [done|]. intros now s3 Hs3. cbv zeta. destruct (_ =? 0); [by apply Hthrow|].
  apply wp_keeps_bind with a; [apply keeps_listen; [done|apply _]|done| |by apply Hthrow].
  intros [[h|] w] s4 Hs4; [by apply IH|by apply Hthrow].
Qed.

Lemma wp_command_event a timeout s : waiting a s → wp (command_event RX timeout) (command_post a) s.
Proof using HRX LP.
  intros Hs. unfold command_event. apply wp_clock_bind with a; [done|]. intros. by apply wp_command_loop.
Qed.

(** ** Accepting a response *)

Definition accepted (a : list PendingAssociation) (rsp : MlmeAssociateResponse) (a' : list PendingAssociation) : Prop :=
  ∃ x, pas_response x = rsp ∧
    match position (pas_for (ar_device_address rsp)) a with
    | Some i => a' = <[i := x]> a
    | None => a' = a ++ [x]
    end.

Lemma waiting_accept a rsp t s :
  waiting a s → (position (pas_for (ar_device_address rsp)) a = None → (length a < ASSOC)%nat) →
  ∃ a', waiting a' (with_role (with_associations
     match position (pas_for (ar_device_address rsp)) a with
     | Some i => <[i := mk_PendingAssociation rsp t]> a
     | None => a ++ [mk_PendingAssociation rsp t]
     end (sm_role s)) s) ∧ accepted a rsp a'.
Proof using HRX LP.
  intros [[? ? ? Hrole] <-] Hroom. simpl in Hrole. destruct Hrole as [? ? Hlen Hnd ?].
  assert (Hacc : ∀ l, parent_ok (with_associations l (sm_role s)) → accepted (pt_associations (sm_role s)) rsp l →
    ∃ a', waiting a' (with_role (with_associations l (sm_role s)) s) ∧ accepted (pt_associations (sm_role s)) rsp a').
  { intros l Hl Ha. exists l. split; [|done]. split; [|done]. by split. }
  apply Hacc; [|exists (mk_PendingAssociation rsp t); split; [done|]; by destruct (position _ _)].
  destruct (position _ _) as [i|] eqn:Hp; split; simpl; try done.
  - by rewrite length_insert.
  - apply position_Some in Hp as (y & Hy & Hc & _). unfold pas_for in Hc. apply bool_decide_eq_true in Hc.
    rewrite list_fmap_insert, list_insert_id; [done|]. rewrite list_lookup_fmap, Hy. simpl. unfold child_of. by rewrite Hc.
  - rewrite length_app. simpl. specialize (Hroom eq_refl). lia.
  - rewrite fmap_app. apply NoDup_app. split; [done|]. split; [|apply NoDup_singleton].
    intros c (y & -> & Hy)%list_elem_of_fmap Hin%list_elem_of_singleton. rewrite position_None in Hp. specialize (Hp y Hy).
    unfold pas_for in Hp. apply bool_decide_eq_false in Hp. done.
Qed.

Lemma wp_associate_response a rsp s :
  waiting a s →
  wp (associate_response rsp) (λ r s', r ≠ Panic ∧ ∃ a', waiting a' s' ∧
    match r with Ok _ => accepted a rsp a' | _ => a' = a end) s.
Proof using HRX LP.
  intros Hs. unfold associate_response. apply wp_gets_bind. generalize (sm_pib s). intros pib.
  set (Q := λ (r : outcome MacError unit) s', r ≠ Panic ∧ _).
  assert (Hthrow : ∀ e s', waiting a s' → Q (Err e) s') by (intros e s' Hs'; split; [done|by exists a]).
  destruct (_ =? 0xFFFF); [by apply Hthrow|].
  apply wp_keeps_bind with a; [apply keeps_lift, no_panic_map_err, no_panic_association_frame|done| |by apply Hthrow].
  clear s Hs. intros _ s Hs. cbv zeta. apply wp_clock_bind with a; [done|]. clear s Hs. intros now s Hs.
  apply wp_gets_bind. rewrite (proj2 Hs). set (c := ar_device_address rsp).
  destruct (negb _ && _) eqn:Hfull; [by apply Hthrow|].
  apply wp_keeps_bind with a; [apply keeps_hardware_pending, _|done| |by apply Hthrow]. clear s Hs. intros _ s Hs.
  assert (Hroom : position (pas_for c) a = None → (length a < ASSOC)%nat).
  { intros Hp. rewrite Hp in Hfull. simpl in Hfull. bool_simpl. lia. }
  match goal with |- context [mk_PendingAssociation rsp ?t] => pose proof (waiting_accept a rsp t s Hs Hroom) as Hacc end.
  fold c in Hacc. destruct (position (pas_for c) a) as [i|]; (split; [done|]).
  - destruct Hs as [Hok <-]. exact Hacc.
  - unfold push_ignore. simpl. destruct Hs as [Hok Ha]. rewrite Ha in *. by rewrite (proj2 (Nat.ltb_lt _ _)) by by apply Hroom.
Qed.
End Waiting.

(** * Histories of a router *)

(** The responses a router owes, by child. *)
Definition awaiting (l : list PendingAssociation) : gmap IeeeAddress MlmeAssociateResponse :=
  list_to_map ((λ e, (child_of e, pas_response e)) <$> l).

Lemma awaiting_keys l : ((λ e, (child_of e, pas_response e)) <$> l).*1 = child_of <$> l.
Proof. rewrite <- list_fmap_compose. done. Qed.

Lemma awaiting_perm l l' : NoDup (child_of <$> l) → l ≡ₚ l' → awaiting l = awaiting l'.
Proof. intros Hn Hp. apply list_to_map_proper; [by rewrite awaiting_keys|by rewrite Hp]. Qed.

Lemma awaiting_notin l c : c ∉ child_of <$> l → awaiting l !! c = None.
Proof. intros Hc. apply not_elem_of_list_to_map. by rewrite awaiting_keys. Qed.

Lemma awaiting_remove l i x :
  NoDup (child_of <$> l) → l !! i = Some x →
  awaiting l !! child_of x = Some (pas_response x) ∧ awaiting (swap_remove l i) = delete (child_of x) (awaiting l).
Proof.
  intros Hn Hx. pose proof (swap_remove_perm l i x Hx) as Hp.
  rewrite (awaiting_perm l (x :: swap_remove l i)) by done.
  assert (Hn' : NoDup (child_of <$> x :: swap_remove l i)) by by rewrite Hp.
  apply NoDup_cons in Hn' as [Hc _]. unfold awaiting at 1 3. simpl. split; [apply lookup_insert_eq|].
  rewrite delete_insert_id; [done|]. by apply awaiting_notin.
Qed.

Lemma awaiting_accept l rsp l' :
  NoDup (child_of <$> l) → accepted l rsp l' → awaiting l' = <[ar_device_address rsp := rsp]> (awaiting l).
Proof.
  intros Hn (x & <- & Hl'). change (ar_device_address (pas_response x)) with (child_of x) in *.
  destruct (position _ l) as [i|] eqn:Hp.
  - apply position_Some in Hp as (y & Hy & Hc & _). unfold pas_for in Hc. apply bool_decide_eq_true in Hc.
    change (child_of y = child_of x) in Hc. pose proof (lookup_lt_Some _ _ _ Hy) as Hi.
    pose proof (take_drop_middle l i y Hy) as Hl. rewrite insert_take_drop in Hl' by done. subst l'.
    revert Hn Hl. generalize (take i l) (drop (S i) l). clear Hy Hi. intros l1 l2 Hn <-.
    rewrite (awaiting_perm (l1 ++ x :: l2) (x :: l1 ++ l2)), (awaiting_perm (l1 ++ y :: l2) (y :: l1 ++ l2));
      try done; try by rewrite Permutation_middle.
    + unfold awaiting. simpl. by rewrite <- Hc, insert_insert_eq.
    + rewrite fmap_app, fmap_cons in Hn |- *. by rewrite <- Hc.
  - subst l'. rewrite position_None in Hp.
    rewrite (awaiting_perm (l ++ [x]) (x :: l)); [done| |by rewrite Permutation_app_comm].
    rewrite Permutation_app_comm. simpl. apply NoDup_cons. split; [|done].
    intros (y & Hc & Hy)%list_elem_of_fmap. specialize (Hp y Hy). unfold pas_for in Hp. apply bool_decide_eq_false in Hp.
    by apply Hp.
Qed.

Inductive router_op :=
| RouterDriver (op : mac_op)
| RouterStart (req : MlmeStartRequest)
| RouterAssociateResponse (rsp : MlmeAssociateResponse)
| RouterSetFramePending (child : MacAddress) (pending : bool)
| RouterBeaconResponse (rsp : MlmeBeaconResponse)
| RouterOrphanResponse (rsp : MlmeOrphanResponse)
| RouterIndirectData (req : McpsDataRequest)
| RouterCommandEvent (timeout_us : Z).

Definition router_op_wf (op : router_op) : Prop :=
  match op with
  | RouterDriver op => op_wf op
  | RouterBeaconResponse rsp => payload_wf (br_beacon_payload rsp)
  | _ => True
  end.

(** What a caller observes of an operation. *)
Abbreviation router_result := (outcome MacError (option MacCommandEvent)).

(** The contract on the responses owed: one is owed from the moment it is
    accepted until it is reported, and a reset forgets them all. *)
Abbreviation owed := (gmap IeeeAddress MlmeAssociateResponse).

Definition quiet (op : router_op) (r : router_result) : bool :=
  match r with
  | Ok o =>
      match op, o with
      | (RouterAssociateResponse _ | RouterDriver (OpReset _)), _ => false
      | _, Some e => negb (is_delivery e)
      | _, None => true
      end
  | Err _ => true
  | Panic => false
  end.

Inductive owed_step : owed → router_op * router_result → owed → Prop :=
| os_accept m rsp o : owed_step m (RouterAssociateResponse rsp, Ok o) (<[ar_device_address rsp := rsp]> m)
| os_report m t rsp result :
    m !! ar_device_address rsp = Some rsp →
    owed_step m (RouterCommandEvent t, Ok (Some (delivery rsp result))) (delete (ar_device_address rsp) m)
| os_reset m b o : owed_step m (RouterDriver (OpReset b), Ok o) ∅
| os_quiet m op r : quiet op r = true → owed_step m (op, r) m.

Inductive owed_trace : owed → list (router_op * router_result) → owed → Prop :=
| ot_nil m : owed_trace m [] m
| ot_cons m x m' tr m'' : owed_step m x m' → owed_trace m' tr m'' → owed_trace m (x :: tr) m''.

Section RouterHistory.
Context {P : Type} {HP : RadioPhy P} {EVENTS ASSOC PENDING : nat} (RX : nat).
Local Abbreviation core := (SoftMacCore P (Parent EVENTS ASSOC PENDING)).

Definition router_step (op : router_op) : stm core MacError (option MacCommandEvent) :=
  match op with
  | RouterDriver op => mac_step RX op ;; mret None
  | RouterStart req => start req ;; mret None
  | RouterAssociateResponse rsp => associate_response rsp ;; mret None
  | RouterSetFramePending child pending => set_frame_pending child pending ;; mret None
  | RouterBeaconResponse rsp => beacon_response RX rsp ;; mret None
  | RouterOrphanResponse rsp => orphan_response RX rsp ;; mret None
  | RouterIndirectData req => indirect_data RX req ;; mret None
  | RouterCommandEvent t => e ← command_event RX t; mret (Some e)
  end.

Fixpoint router_run (ops : list router_op) (s : core) : outcome unit (list (router_op * router_result) * core) :=
  match ops with
  | [] => Ok ([], s)
  | op :: ops =>
      match router_step op s with
      | (Panic, _) => Panic
      | (r, s') => '(trace, s'') ← router_run ops s'; Ok ((op, r) :: trace, s'')
      end
  end.

Context {LP : LawfulPhy P} (HRX : (0 < RX <= 255)%nat).

Definition step_post (a : list PendingAssociation) (op : router_op) (r : router_result) (s' : core) : Prop :=
  r ≠ Panic ∧ ∃ a', waiting RX a' s' ∧ owed_step (awaiting a) (op, r) (awaiting a').

Lemma wp_quiet {A} a op (m : stm core MacError A) s :
  keeps (waiting RX a) m → quiet op (Ok None) = true → waiting RX a s → wp (m ;; mret None) (step_post a op) s.
Proof.
  intros Hm Hq Hs. apply wp_keeps_bind with RX a; [done|done|..].
  - intros _ s' Hs'. split; [done|]. exists a. split; [done|by constructor].
  - intros e s' Hs'. split; [done|]. exists a. split; [done|by constructor].
Qed.

Lemma waiting_children a (s : core) : waiting RX a s → NoDup (child_of <$> a).
Proof. intros [[? ? ? []] <-]. done. Qed.

Lemma reported_owed a e a' t :
  NoDup (child_of <$> a) → reported a e a' →
  owed_step (awaiting a) (RouterCommandEvent t, Ok (Some e)) (awaiting a').
Proof.
  intros Hn (i & x & result & Hx & -> & ->). destruct (awaiting_remove a i x Hn Hx) as [Hl ->]. by apply os_report.
Qed.

Lemma wp_router_step a op s : router_op_wf op → waiting RX a s → wp (router_step op) (step_post a op) s.
Proof using HRX LP.
  intros Hop Hs. pose proof (waiting_children a s Hs) as Hn.
  destruct op as [op|req|rsp|c p|rsp|rsp|req|t]; cbn [router_step router_op_wf] in *.
  - destruct (is_reset op) eqn:Hr; [|by apply wp_quiet; [apply keeps_waiting_step|destruct op|]].
    destruct op; try done. cbn [mac_step]. apply wp_bind. eapply wp_mono; [by apply leaves_reset|].
    intros [u|e|] s' [Hr' Hs']; [| |done]; (split; [done|]); eexists; (split; [done|]); by constructor.
  - by apply wp_quiet; [apply keeps_start|..].
  - apply wp_bind. eapply wp_mono; [by apply wp_associate_response|].
    intros [u|e|] s' (Hr & a' & Hs' & Ha); [| |done]; (split; [done|]); exists a'; (split; [done|]).
    + rewrite (awaiting_accept a rsp a') by done. constructor.
    + subst a'. by constructor.
  - by apply wp_quiet; [apply keeps_set_frame_pending|..].
  - by apply wp_quiet; [apply keeps_beacon_response|..].
  - by apply wp_quiet; [apply keeps_orphan_response|..].
  - by apply wp_quiet; [apply keeps_indirect_data|..].
  - apply wp_bind. eapply wp_mono; [by apply wp_command_event|].
    intros [e|e|] s' (Hr & a' & Hs' & Ha); [| |done]; (split; [done|]); exists a'; (split; [done|]).
    + destruct Ha as [Hrep|[He ->]]; [by apply reported_owed|]. apply os_quiet. simpl. by rewrite He.
    + subst a'. by constructor.
Qed.

Lemma router_run_owed ops a s :
  Forall router_op_wf ops → waiting RX a s →
  ∃ trace s' a', router_run ops s = Ok (trace, s') ∧ trace.*1 = ops ∧ waiting RX a' s' ∧
    owed_trace (awaiting a) trace (awaiting a').
Proof using HRX LP.
  revert a s. induction ops as [|op ops IH]; intros a s Hops Hs; cbn [router_run].
  { exists [], s, a. split_and!; [done..|constructor]. }
  apply Forall_cons in Hops as [Hop Hops]. destruct (wp_router_step a op s Hop Hs) as (Hr & a1 & Hs1 & Hstep).
  destruct (router_step op s) as [r s1]. simpl in *. destruct (IH a1 s1 Hops Hs1) as (tr & s' & a' & Hrun & <- & Hs' & Htr).
  exists ((op, r) :: tr), s', a'. destruct r; [| |done]; rewrite Hrun; (split_and!; [done|done|done|by econstructor]).
Qed.
End RouterHistory.

(** C18. Over every history of a router, on any radio, no operation aborts and the
    association responses it owes its children evolve by contract: a response
    is owed from the moment it is accepted (a newer one for the same child
    replaces it), every delivery report names an owed response with its own
    short address and status and settles it, so none is reported twice, nothing
    else but a completed reset drops one, and an operation that reports an
    error changes none.  At most [ASSOC] are owed, and a child that is owed one
    has Frame Pending set in the acknowledgement of its poll. *)
Theorem association_responses_settled_once (P : Type) {HP : RadioPhy P} {LP : LawfulPhy P} (EVENTS ASSOC PENDING RX : nat)
    phy pib ops s :
  (0 < RX <= 255)%nat → phy_ok phy → pib_wf pib → Forall router_op_wf ops →
  new_custom (R:=Parent EVENTS ASSOC PENDING) RX phy pib = Ok s →
  ∃ trace s', router_run RX ops s = Ok (trace, s') ∧ trace.*1 = ops ∧
    let owes := awaiting (pt_associations (sm_role s')) in
    owed_trace ∅ trace owes ∧ (size owes <= ASSOC)%nat ∧
    ∀ pan child, is_Some (owes !! child) → frame_pending_for (sm_role s') (MacExtended pan child) = true.
Proof.
  intros HRX Hphy Hpib Hops Hs. pose proof (new_custom_ok (R:=Parent EVENTS ASSOC PENDING) RX HRX phy pib Hphy Hpib) as Hn.
  rewrite Hs in Hn. assert (Hnew : waiting RX [] s).
  { split; [done|]. unfold new_custom in Hs. destruct (apply_full_config pib phy) as [[u|e|] p]; [|done|done].
    destruct (random_seed_Ok pib Hpib) as [seed Hseed]. rewrite Hseed in Hs. by simplify_eq/=. }
  destruct (router_run_owed RX HRX ops [] s Hops Hnew) as (tr & s' & a' & Hrun & Htr & [[? ? ? Hrole] <-] & Ho).
  exists tr, s'. split; [done|]. split; [done|]. cbv zeta. split_and!; [done| |].
  - simpl in Hrole. destruct Hrole as [? ? Hlen Hnd ?]. unfold awaiting. rewrite <- size_dom, dom_list_to_map_L, awaiting_keys.
    rewrite size_list_to_set by done. by rewrite length_fmap.
  - intros pan child [rsp Hc]. simpl. apply orb_true_iff. right.
    apply elem_of_list_to_map_2 in Hc. apply list_elem_of_fmap in Hc as (x & [= -> ->] & Hx).
    apply existsb_exists. exists x. split; [by apply list_elem_of_In|]. unfold pas_for. by apply bool_decide_eq_true.
Qed.

(** A child that joins: its poll is heard, the response goes out, the
    acknowledgement arrives, and the delivery is reported; the response of the
    second child stays owed. *)
Definition ex_child : IeeeAddress := [9; 9; 9; 9; 9; 9; 9; 9].
Definition ex_other : IeeeAddress := [8; 8; 8; 8; 8; 8; 8; 8].
Definition ex_poll : list Z := [0x63; 0xC8; 5; 0xAA; 0x1A; 0; 0] ++ ex_child ++ [4].
Definition ex_router_history : list router_op :=
  [RouterDriver (OpSetPib MacPanId (PvPanId 0x1AAA)); RouterDriver (OpSetPib MacShortAddress (PvShortAddress 0));
   RouterAssociateResponse (mk_MlmeAssociateResponse ex_child 0x1234 AsSuccess);
   RouterAssociateResponse (mk_MlmeAssociateResponse ex_other 0xFFFF AsPanAtCapacity);
   RouterCommandEvent 100000; RouterCommandEvent 100000].

Lemma association_responses_settled_once_witness :
  ∃ s trace s', new_custom (R:=Parent 4 2 4) 4 (mk_Scripted [ex_poll; [2; 0; 7]] [] [] 0) ex_pib = Ok s ∧
    router_run 4 ex_router_history s = Ok (trace, s') ∧
    snd <$> trace = [Ok None; Ok None; Ok None; Ok None;
      Ok (Some (delivery (mk_MlmeAssociateResponse ex_child 0x1234 AsSuccess) (Ok ()))); Err MacNoData] ∧
    owed_trace ∅ trace (awaiting (pt_associations (sm_role s'))).
Proof.
  set (phy := mk_Scripted [ex_poll; [2; 0; 7]] [] [] 0).
  destruct (new_custom (R:=Parent 4 2 4) 4 phy ex_pib) as [s|e|] eqn:Hs;
    [|vm_compute in Hs; discriminate|vm_compute in Hs; discriminate].
  destruct (association_responses_settled_once Scripted 4 2 4 4 phy ex_pib ex_router_history s) as (tr & s' & Hrun & _ & Ho & _);
    [lia|done|apply ex_pib_wf|repeat constructor; simpl; lia|done|].
  exists s, tr, s'. split_and!; [done|done| |done].
  assert (Hr : match new_custom (R:=Parent 4 2 4) 4 phy ex_pib with
               | Ok s => match router_run 4 ex_router_history s with Ok (tr, _) => snd <$> tr | _ => [] end
               | _ => [] end = [Ok None; Ok None; Ok None; Ok None;
      Ok (Some (delivery (mk_MlmeAssociateResponse ex_child 0x1234 AsSuccess) (Ok ()))); Err MacNoData])
    by (vm_compute; reflexivity).
  rewrite Hs, Hrun in Hr. exact Hr.
Defined.
