(* ===== verification/Primes.v ===== *)
(** * Primes: the two prime moduli of P-256

    The order of the field and the order of the base point of [p256.rs] are
    prime.  The proof is a chain of Pocklington certificates, evaluated by
    modular exponentiation; no code of the repository is modelled here. *)

From Stdlib Require Import ZArith Znumtheory Zpow_facts Zmod List Lia Bool.
Import ListNotations.

Local Open Scope Z_scope.

(** ** Divisors *)

Lemma prime_divisor n : 1 < n -> exists r, Z.prime r /\ (r | n).
Proof.
  intros Hn. pattern n. revert n Hn.
  assert (Hs : forall m, 0 <= m -> forall n, 1 < n <= m -> exists r, Z.prime r /\ (r | n)).
  { apply (natlike_ind (fun m => forall n, 1 < n <= m -> exists r, Z.prime r /\ (r | n))).
    - intros n Hn. lia.
    - intros m Hm IH n Hn. destruct (prime_dec n) as [Hp|Hp].
      + exists n. split; [now apply prime_alt|apply Z.divide_refl].
      + destruct (not_prime_divide n) as (d & Hd & Hdn); [lia|assumption|].
        destruct (IH d) as (r & Hr & Hrd); [lia|]. exists r. split; [assumption|]. now apply Z.divide_trans with d. }
  intros n Hn. apply (Hs n); lia.
Qed.

(** A number whose prime divisors are all greater than its root is prime. *)
Lemma prime_by_divisors n b :
  1 < n -> n < b * b -> 0 <= b -> (forall r, Z.prime r -> (r | n) -> b <= r) -> Z.prime n.
Proof.
  intros Hn Hb Hb0 Hr. split; [assumption|]. intros d Hd [c Hc].
  assert (Hc1 : 1 < c) by nia. assert (Hbig : forall x, 1 < x -> (x | n) -> b <= x).
  { intros x Hx Hxn. destruct (prime_divisor x Hx) as (r & Hp & Hrx).
    assert (b <= r) by (apply Hr; [assumption|now apply Z.divide_trans with x]).
    assert (r <= x) by (apply Z.divide_pos_le; [lia|assumption]). lia. }
  assert (b <= d) by (apply Hbig; [lia|now exists c]).
  assert (b <= c) by (apply Hbig; [lia|exists d; lia]). nia.
Qed.

(** ** Pocklington's criterion *)

Lemma pow_cong a b m k : 0 <= k -> a mod m = b mod m -> a ^ k mod m = b ^ k mod m.
Proof. intros Hk H. rewrite <- Z.mod_pow_l, H. apply Z.mod_pow_l. Qed.

Lemma unit_pow_one b q r :
  Z.prime r -> 0 < q -> Z.coprime q (r - 1) -> b ^ q mod r = 1 -> b mod r = 1.
Proof.
  intros Hr Hq Hc Hb. pose proof (Z.prime_ge_2 _ Hr) as H2.
  assert (Hb0 : b mod r <> 0).
  { intros H0. rewrite (pow_cong b 0 r q), Z.pow_0_l, Z.mod_0_l in Hb; try lia. rewrite H0. now rewrite Z.mod_0_l by lia. }
  pose proof (Z.fermat_nz r b Hr Hb0) as Hf.
  destruct (Z.Bezout_coprime _ _ Hc) as (u & v & Huv).
  set (e := u mod (r - 1) + (r - 1)). assert (He : 0 < e) by (pose proof (Z.mod_pos_bound u (r - 1)); lia).
  set (w := q * (1 - u / (r - 1)) - v).
  assert (Hw : e * q = 1 + w * (r - 1)).
  { unfold e, w. pose proof (Z.div_mod u (r - 1) ltac:(lia)). nia. }
  assert (Hw0 : 0 <= w) by nia.
  assert (H1 : b ^ (e * q) mod r = 1).
  { rewrite Z.mul_comm, Z.pow_mul_r, (pow_cong _ 1), Z.pow_1_l, Z.mod_1_l; try lia. rewrite Hb, Z.mod_1_l; lia. }
  rewrite Hw, Z.pow_add_r, Z.pow_1_r, Z.mul_comm, <- Z.mul_mod_idemp_l in H1 by nia.
  rewrite (Z.mul_comm w), Z.pow_mul_r, (pow_cong _ 1), Z.pow_1_l, Z.mod_1_l, Z.mul_1_l in H1; try lia.
  rewrite Hf, Z.mod_1_l; lia.
Qed.

(** A witness [a] for the factor [q] of [n - 1]. *)
Definition pocklington_witness (n : Z) (w : Z * Z) : bool :=
  let '(q, a) := w in
  let b := Zpow_mod a ((n - 1) / q) n in
  ((n - 1) mod q =? 0) && (Zpow_mod b q n =? 1) && (Z.gcd (b - 1) n =? 1).

Lemma pocklington_factor n q a r :
  1 < n -> Z.prime q -> pocklington_witness n (q, a) = true -> Z.prime r -> (r | n) -> (q | r - 1).
Proof.
  intros Hn Hq Hw Hr Hrn. unfold pocklington_witness in Hw. rewrite !andb_true_iff, !Z.eqb_eq in Hw.
  destruct Hw as [[Hd Ha] Hg]. rewrite !Zpow_mod_correct in * by lia.
  pose proof (Z.prime_ge_2 _ Hq). pose proof (Z.prime_ge_2 _ Hr).
  destruct (Zdivide_dec q (r - 1)) as [|Hnd]; [assumption|]. exfalso.
  set (k := (n - 1) / q) in *. assert (Hk : n - 1 = k * q) by (unfold k; pose proof (Z.div_mod (n - 1) q); lia).
  assert (Hred : forall x, (x mod n) mod r = x mod r).
  { intros x. apply Z.mod_mod_divide. assumption. }
  assert (Hb : a ^ k mod r = 1).
  { apply (unit_pow_one _ q r); [assumption|lia|now apply Z.coprime_prime_l|].
    rewrite <- Hred, <- Z.mod_pow_l, Ha, Z.mod_1_l; lia. }
  assert (Hr1 : (r | a ^ k mod n - 1)).
  { apply Z.mod_divide; [lia|]. rewrite Zminus_mod, Hred, Hb. rewrite Z.mod_1_l by lia. now rewrite Z.sub_diag, Z.mod_0_l by lia. }
  assert (r | 1) as Hone by (rewrite <- Hg; now apply Z.gcd_greatest).
  apply Z.divide_pos_le in Hone; lia.
Qed.

Definition factored (ws : list (Z * Z)) : Z := fold_right (fun w f => fst w * f) 1 ws.

Fixpoint distinct (ws : list (Z * Z)) : bool :=
  match ws with [] => true | w :: ws => negb (existsb (fun v => fst v =? fst w) ws) && distinct ws end.

Definition pocklington (n : Z) (ws : list (Z * Z)) : bool :=
  (1 <? n) && distinct ws && forallb (pocklington_witness n) ws && (n <? (factored ws + 1) * (factored ws + 1)).

Lemma factored_divides ws m :
  Forall (fun w => Z.prime (fst w)) ws -> distinct ws = true -> (forall w, In w ws -> (fst w | m)) -> (factored ws | m).
Proof.
  induction ws as [|w ws IH]; intros Hp Hd Hm; [apply Z.divide_1_l|]. cbn [factored fold_right distinct] in *.
  rewrite andb_true_iff, negb_true_iff in Hd. destruct Hd as [Hnew Hd]. inversion Hp as [|? ? Hw Hws]; subst.
  assert (Hc : Z.coprime (fst w) (factored ws)).
  { clear - Hw Hws Hnew. induction ws as [|v ws IH]; [apply Z.coprime_1_r|]. cbn [factored fold_right existsb] in *.
    rewrite orb_false_iff, Z.eqb_neq in Hnew. destruct Hnew as [Hne Hnew]. inversion Hws as [|? ? Hv Hws']; subst.
    apply Z.coprime_mul_r; [|now apply IH]. apply Z.coprime_prime_l; [assumption|].
    intros Hdv. apply Z.divide_prime_prime in Hdv; [congruence|assumption|assumption]. }
  destruct (Hm w (or_introl eq_refl)) as [c Hcm]. fold (factored ws). rewrite Hcm, (Z.mul_comm c). apply Z.mul_divide_mono_l.
  apply Z.gauss with (fst w); [|unfold Z.coprime in Hc; now rewrite Z.gcd_comm].
  rewrite Z.mul_comm, <- Hcm. apply IH; [assumption|assumption|]. intros v Hv. apply Hm. now right.
Qed.

Theorem pocklington_prime n ws :
  Forall (fun w => Z.prime (fst w)) ws -> pocklington n ws = true -> Z.prime n.
Proof.
  intros Hp Hc. unfold pocklington in Hc. rewrite !andb_true_iff, !Z.ltb_lt, forallb_forall in Hc.
  destruct Hc as [[[Hn Hd] Hw] Hb].
  assert (Hpos : 0 < factored ws).
  { clear - Hp. induction Hp as [|w ws Hw _ IH]; cbn [factored fold_right]; [lia|].
    pose proof (Z.prime_ge_2 _ Hw). unfold factored in IH. nia. }
  apply prime_by_divisors with (factored ws + 1); [assumption|assumption|lia|].
  intros r Hr Hrn. assert (factored ws <= r - 1); [|lia].
  pose proof (Z.prime_ge_2 _ Hr). apply Z.divide_pos_le; [lia|].
  apply factored_divides; [assumption|assumption|]. intros w Hin. destruct w as [q a]. cbn [fst].
  apply (pocklington_factor n q a r); [assumption| |now apply Hw|assumption|assumption].
  rewrite Forall_forall in Hp. exact (Hp _ Hin).
Qed.

(** ** Small primes *)

Fixpoint no_divisor (fuel : nat) (d n : Z) : bool :=
  match fuel with
  | O => false
  | S fuel => (n <? d * d) || (negb (n mod d =? 0) && no_divisor fuel (d + 1) n)
  end.

Lemma no_divisor_sound fuel d n :
  0 < d -> no_divisor fuel d n = true -> (forall x, 1 < x < d -> ~ (x | n)) ->
  exists b, n < b * b /\ 0 <= b /\ forall x, 1 < x < b -> ~ (x | n).
Proof.
  revert d. induction fuel as [|fuel IH]; intros d Hd H Hx; [discriminate|]. cbn [no_divisor] in H.
  rewrite orb_true_iff, andb_true_iff, negb_true_iff, Z.ltb_lt, Z.eqb_neq in H. destruct H as [H|[Hm H]].
  - exists d. repeat split; [assumption|lia|assumption].
  - apply (IH (d + 1)); [lia|assumption|]. intros x Hxd. destruct (Z.eq_dec x d) as [->|]; [|apply Hx; lia].
    intros Hdn. apply Hm. now apply Z.mod_divide; [lia|].
Qed.

Lemma small_prime n : 1 < n -> no_divisor 1000 2 n = true -> Z.prime n.
Proof.
  intros Hn H. destruct (no_divisor_sound 1000 2 n) as (b & Hb & Hb0 & Hx); [lia|assumption|intros; lia|].
  apply prime_by_divisors with b; [assumption|assumption|assumption|].
  intros r Hr Hrn. destruct (Z.le_gt_cases b r) as [|Hlt]; [assumption|]. exfalso. apply (Hx r); [|assumption].
  pose proof (Z.prime_ge_2 _ Hr). lia.
Qed.

(** ** The certificates *)

Ltac small := apply small_prime; [lia|vm_compute; reflexivity].
Ltac certificate ws := apply (pocklington_prime _ ws); [repeat first [apply Forall_nil|apply Forall_cons]; cbn [fst]|vm_compute; reflexivity].

Definition p256_p : Z := 0xFFFFFFFF00000001000000000000000000000000FFFFFFFFFFFFFFFFFFFFFFFF.
Definition p256_n : Z := 0xFFFFFFFF00000000FFFFFFFFFFFFFFFFBCE6FAADA7179E84F3B9CAC2FC632551.

Lemma prime_46076956964474543 : Z.prime 46076956964474543.
Proof.
  certificate [(704251, 2); (78283, 2)].
  - small.
  - small.
Qed.

Lemma prime_66417393611 : Z.prime 66417393611.
Proof.
  certificate [(3677, 2); (197, 2)].
  - small.
  - small.
Qed.

Lemma prime_11290956913871 : Z.prime 11290956913871.
Proof.
  certificate [(66417393611, 2)].
  - exact prime_66417393611.
Qed.

Lemma prime_774023187263532362759620327192479577272145303 : Z.prime 774023187263532362759620327192479577272145303.
Proof.
  certificate [(46076956964474543, 2); (11290956913871, 2)].
  - exact prime_46076956964474543.
  - exact prime_11290956913871.
Qed.

Lemma prime_835945042244614951780389953367877943453916927241 : Z.prime 835945042244614951780389953367877943453916927241.
Proof.
  certificate [(774023187263532362759620327192479577272145303, 2)].
  - exact prime_774023187263532362759620327192479577272145303.
Qed.

Lemma prime_p256_p : Z.prime p256_p.
Proof.
  certificate [(835945042244614951780389953367877943453916927241, 2)].
  - exact prime_835945042244614951780389953367877943453916927241.
Qed.

Lemma prime_191039911 : Z.prime 191039911.
Proof.
  certificate [(155317, 2)].
  - small.
Qed.

Lemma prime_208150935158385979 : Z.prime 208150935158385979.
Proof.
  certificate [(191039911, 2); (3023, 2)].
  - exact prime_191039911.
  - small.
Qed.

Lemma prime_2624747550333869278416773953 : Z.prime 2624747550333869278416773953.
Proof.
  certificate [(208150935158385979, 2)].
  - exact prime_208150935158385979.
Qed.

Lemma prime_3969899 : Z.prime 3969899.
Proof.
  certificate [(104471, 2)].
  - small.
Qed.

Lemma prime_1002328039319 : Z.prime 1002328039319.
Proof.
  certificate [(3969899, 2)].
  - exact prime_3969899.
Qed.

Lemma prime_p256_n : Z.prime p256_n.
Proof.
  certificate [(2624747550333869278416773953, 2); (1002328039319, 2)].
  - exact prime_2624747550333869278416773953.
  - exact prime_1002328039319.
Qed.
