(* ===== verification/P256.v ===== *)
(** * P256: limb arithmetic of the signature check

    [mcuboot-image/src/p256.rs]: numbers of eight 32-bit limbs, Montgomery
    multiplication and inversion for the two prime moduli.  An array of fixed
    size is a list of its length.  A sum that would leave its machine width is
    [Panic]; the theorems exclude it. *)

From Stdlib Require Import Zmod.
From S2P Require Import Prelude Primes.

Local Open Scope Z_scope.

Abbreviation Limbs := (list Z).

Record Modulus := mk_Modulus { md_m : Limbs; md_m_inv : Z; md_r2 : Limbs }.

Definition P : Modulus := mk_Modulus
  [0xFFFFFFFF; 0xFFFFFFFF; 0xFFFFFFFF; 0x00000000; 0x00000000; 0x00000000; 0x00000001; 0xFFFFFFFF]
  0x00000001
  [0x00000003; 0x00000000; 0xFFFFFFFF; 0xFFFFFFFB; 0xFFFFFFFE; 0xFFFFFFFF; 0xFFFFFFFD; 0x00000004].

Definition N : Modulus := mk_Modulus
  [0xFC632551; 0xF3B9CAC2; 0xA7179E84; 0xBCE6FAAD; 0xFFFFFFFF; 0xFFFFFFFF; 0x00000000; 0xFFFFFFFF]
  0xEE00BC4F
  [0xBE79EEA2; 0x83244C95; 0x49BD6FA6; 0x4699799C; 0x2B6BEC59; 0x2845B239; 0xF3D95620; 0x66E12D94].

Definition B : Limbs :=
  [0x27D2604B; 0x3BCE3C3E; 0xCC53B0F6; 0x651D06B0; 0x769886BC; 0xB3EBBD55; 0xAA3A93E7; 0x5AC635D8].
Definition GX : Limbs :=
  [0xD898C296; 0xF4A13945; 0x2DEB33A0; 0x77037D81; 0x63A440F2; 0xF8BCE6E5; 0xE12C4247; 0x6B17D1F2].
Definition GY : Limbs :=
  [0x37BF51F5; 0xCBB64068; 0x6B315ECE; 0x2BCE3357; 0x7C0F9E16; 0x8EE7EB4A; 0xFE1A7F9B; 0x4FE342E2].
Definition ZERO : Limbs := [0; 0; 0; 0; 0; 0; 0; 0].
Definition ONE : Limbs := [1; 0; 0; 0; 0; 0; 0; 0].

(** ** Machine words *)

Definition wrapping_sub_u64 (a b : Z) : Z := (a - b) mod 18446744073709551616.
(** A [u64] sum of products: it aborts when it does not fit. *)
Definition sum_u64 {E} (x : Z) : outcome E Z := if x <? 18446744073709551616 then Ok x else Panic.
Definition sub_u32 {E} (a b : Z) : outcome E Z := if a <? b then Panic else Ok (a - b).
Definition wrapping_mul_u32 (a b : Z) : Z := (a * b) mod 4294967296.
Definition high (x : Z) : Z := Z.shiftr x 32.

Definition u32_from_be (b0 b1 b2 b3 : Z) : Z := b0 * 16777216 + b1 * 65536 + b2 * 256 + b3.

(** ** Numbers *)

Definition from_be (bytes : list Z) : Limbs :=
  (λ index, let at_ := (28 - 4 * index)%nat in
            u32_from_be (bytes !!! at_) (bytes !!! (at_ + 1)%nat) (bytes !!! (at_ + 2)%nat) (bytes !!! (at_ + 3)%nat))
  <$> seq 0 8.

Definition is_zero (a : Limbs) : bool := forallb (Z.eqb 0) a.

(** Limbs from the highest down. *)
Fixpoint less_from (a b : list Z) : bool :=
  match a, b with
  | x :: a, y :: b => if negb (x =? y) then x <? y else less_from a b
  | _, _ => false
  end.
Definition less (a b : Limbs) : bool := less_from (rev a) (rev b).

Fixpoint sub_limbs (a b : Limbs) (borrow : Z) : Limbs * Z :=
  match a, b with
  | x :: a, y :: b =>
      let difference := wrapping_sub_u64 (wrapping_sub_u64 x y) borrow in
      let '(l, borrow) := sub_limbs a b (Z.land (Z.shiftr difference 63) 1) in
      (as_u32 difference :: l, borrow)
  | _, _ => ([], borrow)
  end.
Definition sub_in_place (a b : Limbs) : Limbs * bool :=
  let '(l, borrow) := sub_limbs a b 0 in (l, negb (borrow =? 0)).

Fixpoint add_limbs {E} (a b : Limbs) (carry : Z) : outcome E (Limbs * Z) :=
  match a, b with
  | x :: a, y :: b =>
      sum ← sum_u64 (x + y + carry);
      '(l, carry) ← add_limbs a b (high sum);
      Ok (as_u32 sum :: l, carry)
  | _, _ => Ok ([], carry)
  end.
Definition add_in_place {E} (a b : Limbs) : outcome E (Limbs * bool) :=
  '(l, carry) ← add_limbs a b 0; Ok (l, negb (carry =? 0)).

(** ** Arithmetic modulo [m] *)

Section Arithmetic.
Context {E : Type} (M : Modulus).
Local Abbreviation out := (outcome E).

Definition mod_add (a b : Limbs) : out Limbs :=
  '(sum, carry) ← add_in_place a b;
  if carry || negb (less sum (md_m M)) then Ok (sub_in_place sum (md_m M)).1 else Ok sum.

Definition mod_sub (a b : Limbs) : out Limbs :=
  let '(difference, borrow) := sub_in_place a b in
  if borrow then '(l, _) ← add_in_place difference (md_m M); Ok l else Ok difference.

(** [t\[i\] + a\[i\] * word + carry] over the limbs of [a]. *)
Fixpoint mul_row (t a : list Z) (word carry : Z) : out (list Z * Z) :=
  match t, a with
  | ti :: t, ai :: a =>
      x ← sum_u64 (ti + ai * word + carry);
      '(l, carry) ← mul_row t a word (high x);
      Ok (as_u32 x :: l, carry)
  | _, _ => Ok ([], carry)
  end.

(** One turn of the outer loop, for one limb of [b]. *)
Definition mul_step (a : Limbs) (t : list Z) (word : Z) : out (list Z) :=
  '(low, carry) ← mul_row (take 8 t) a word 0;
  x ← sum_u64 (t !!! 8%nat + carry);
  let t8 := as_u32 x in
  let t9 := as_u32 (high x) in
  let q := wrapping_mul_u32 (low !!! 0%nat) (md_m_inv M) in
  x ← sum_u64 (low !!! 0%nat + q * (md_m M !!! 0%nat));
  '(shifted, carry) ← mul_row (drop 1 low) (drop 1 (md_m M)) q (high x);
  x ← sum_u64 (t8 + carry);
  t8 ← add_u32 t9 (as_u32 (high x));
  Ok (shifted ++ [as_u32 x; t8; t9]).

Fixpoint mul_loop (a : Limbs) (b : list Z) (t : list Z) : out (list Z) :=
  match b with
  | [] => Ok t
  | word :: b => t ← mul_step a t word; mul_loop a b t
  end.

Definition mod_mul (a b : Limbs) : out Limbs :=
  t ← mul_loop a b (replicate 10 0);
  let result := take 8 t in
  if negb (t !!! 8%nat =? 0) || negb (less result (md_m M)) then Ok (sub_in_place result (md_m M)).1 else Ok result.

Definition enter_mont (a : Limbs) : out Limbs := mod_mul a (md_r2 M).
Definition leave_mont (a : Limbs) : out Limbs := mod_mul a ONE.

(** [(e\[bit / 32\] >> (bit % 32)) & 1 != 0] *)
Definition limb_bit (e : Limbs) (bit : nat) : bool :=
  negb (Z.land (Z.shiftr (e !!! (bit / 32)%nat) (Z.of_nat (bit mod 32))) 1 =? 0).

(** [for bit in (0..n).rev()] *)
Fixpoint invert_loop (n : nat) (exponent a result : Limbs) : out Limbs :=
  match n with
  | O => Ok result
  | S bit =>
      result ← mod_mul result result;
      result ← (if limb_bit exponent bit then mod_mul result a else Ok result);
      invert_loop bit exponent a result
  end.

Definition invert (a : Limbs) : out Limbs :=
  low ← sub_u32 (md_m M !!! 0%nat) 2;
  let exponent := <[0%nat := low]> (md_m M) in
  result ← enter_mont ONE;
  invert_loop 256 exponent a result.
End Arithmetic.

(** * Values *)

(** The number the limbs stand for. *)
Fixpoint value (l : list Z) : Z := match l with [] => 0 | x :: l => x + 4294967296 * value l end.

Definition words (l : list Z) : Prop := Forall is_u32 l.
Definition limbs (l : Limbs) : Prop := length l = 8%nat ∧ words l.

(** [2^(32 n)] *)
Definition base (n : nat) : Z := 4294967296 ^ Z.of_nat n.

Lemma base_S n : base (S n) = 4294967296 * base n.
Proof. unfold base. rewrite Nat2Z.inj_succ, Z.pow_succ_r by lia. done. Qed.
Lemma base_0 : base 0 = 1.
Proof. done. Qed.
Lemma base_pos n : 0 < base n.
Proof. unfold base. lia. Qed.

Lemma value_bound l : words l → 0 <= value l < base (length l).
Proof.
  induction 1 as [|x l Hx _ IH]; simpl; [rewrite base_0; lia|]. rewrite base_S. unfold is_u32 in Hx.
  pose proof (base_pos (length l)). lia.
Qed.

Lemma value_app l l' : value (l ++ l') = value l + base (length l) * value l'.
Proof. induction l as [|x l IH]; simpl; [rewrite base_0; lia|]. rewrite base_S, IH. lia. Qed.

Lemma value_inj l l' : length l = length l' → words l → words l' → value l = value l' → l = l'.
Proof.
  revert l'. induction l as [|x l IH]; intros [|y l'] Hl Hw Hw' Hv; try done. simpl in *.
  apply Forall_cons in Hw as [Hx Hw], Hw' as [Hy Hw']. unfold is_u32 in Hx, Hy.
  assert (x = y ∧ value l = value l') as [-> Hvl] by lia. f_equal. by apply IH; [lia|..].
Qed.

Lemma words_app l l' : words (l ++ l') ↔ words l ∧ words l'.
Proof. apply Forall_app. Qed.

Lemma is_zero_value l : words l → is_zero l = true ↔ value l = 0.
Proof.
  unfold is_zero. induction 1 as [|x l Hx Hl IH]; cbn [forallb value]; [done|]. rewrite andb_true_iff, IH, Z.eqb_eq.
  pose proof (value_bound l Hl). unfold is_u32 in Hx. lia.
Qed.

Lemma less_from_app a b x y :
  length a = length b →
  less_from (a ++ [x]) (b ++ [y]) = if bool_decide (a = b) then x <? y else less_from a b.
Proof.
  revert b. induction a as [|u a IH]; intros [|v b] Hl; try done; simpl.
  - destruct (Z.eqb_spec x y) as [->|]; simpl; [by rewrite Z.ltb_irrefl|done].
  - simpl in Hl. destruct (Z.eqb_spec u v) as [->|Hne]; simpl.
    + rewrite IH by lia. by repeat case_bool_decide; simplify_eq.
    + rewrite bool_decide_eq_false_2 by congruence. done.
Qed.

Lemma less_value a b : length a = length b → words a → words b → less a b = true ↔ value a < value b.
Proof.
  unfold less. revert b. induction a as [|x a IH]; intros [|y b] Hl Ha Hb; try done. simpl in Hl.
  apply Forall_cons in Ha as [Hx Ha], Hb as [Hy Hb]. unfold is_u32 in Hx, Hy. cbn [rev value].
  rewrite less_from_app by (rewrite !length_rev; lia). case_bool_decide as Heq.
  - apply (f_equal (@rev Z)) in Heq. rewrite !rev_involutive in Heq. subst b. rewrite Z.ltb_lt. lia.
  - rewrite IH by (done || lia). destruct (Z.eq_dec (value a) (value b)) as [Hv|]; [|lia].
    apply value_inj in Hv; [by subst|lia|done|done].
Qed.

(** ** Addition and subtraction *)

Lemma borrow_out x y b :
  is_u32 x → is_u32 y → 0 <= b <= 1 →
  let d := wrapping_sub_u64 (wrapping_sub_u64 x y) b in
  let o := Z.land (Z.shiftr d 63) 1 in
  0 <= o <= 1 ∧ is_u32 (as_u32 d) ∧ as_u32 d - 4294967296 * o = x - y - b.
Proof.
  intros Hx Hy Hb d o. unfold is_u32 in *. assert (Hd : d = (x - y - b) mod 18446744073709551616).
  { unfold d, wrapping_sub_u64. rewrite Zminus_mod_idemp_l. done. }
  assert (Ho : o = if x - y - b <? 0 then 1 else 0).
  { unfold o. rewrite Z.shiftr_div_pow2 by lia. change (2 ^ 63) with 9223372036854775808. rewrite Hd. destruct (Z.ltb_spec (x - y - b) 0).
    - replace ((x - y - b) mod 18446744073709551616) with (x - y - b + 18446744073709551616)
        by (apply Z.mod_unique_pos with (-1); lia).
      replace ((x - y - b + 18446744073709551616) / 9223372036854775808) with 1
        by (apply Z.div_unique_pos with (x - y - b + 9223372036854775808); lia). done.
    - rewrite Z.mod_small by lia. rewrite Z.div_small by lia. done. }
  unfold as_u32. rewrite Hd, Ho.
  destruct (Z.ltb_spec (x - y - b) 0); (split; [lia|]); (split; [apply Z.mod_pos_bound; lia|]).
  - replace ((x - y - b) mod 18446744073709551616) with (x - y - b + 18446744073709551616)
      by (apply Z.mod_unique_pos with (-1); lia).
    replace ((x - y - b + 18446744073709551616) mod 4294967296) with (x - y - b + 4294967296)
      by (apply Z.mod_unique_pos with 4294967295; lia). lia.
  - rewrite (Z.mod_small _ 18446744073709551616), Z.mod_small by lia. lia.
Qed.

Lemma sub_limbs_spec a b c :
  length a = length b → words a → words b → 0 <= c <= 1 →
  ∃ l o, sub_limbs a b c = (l, o) ∧ length l = length a ∧ words l ∧ 0 <= o <= 1 ∧
    value l - base (length a) * o = value a - value b - c.
Proof.
  revert b c. induction a as [|x a IH]; intros [|y b] c Hl Ha Hb Hc; try done; cbn [sub_limbs].
  - exists [], c. split_and!; cbn [length value]; rewrite ?base_0; try done; lia.
  - apply Forall_cons in Ha as [Hx Ha], Hb as [Hy Hb]. simpl in Hl.
    destruct (borrow_out x y c Hx Hy Hc) as (Ho & Hd & Hv). cbv zeta.
    destruct (IH b (Z.land (Z.shiftr (wrapping_sub_u64 (wrapping_sub_u64 x y) c) 63) 1)) as (l & o & -> & Hll & Hlw & Ho' & Hlv);
      [lia|done..|].
    eexists (_ :: l), o. split_and!; [done|simpl; lia|by constructor|lia|lia|].
    cbn [value length]. rewrite base_S. nia.
Qed.

Lemma sub_in_place_spec a b :
  limbs a → limbs b →
  ∃ l o, sub_in_place a b = (l, o) ∧ limbs l ∧ (o = true ↔ value a < value b) ∧
    value l = value a - value b + (if o then base 8 else 0).
Proof.
  intros [Ha Hwa] [Hb Hwb]. unfold sub_in_place.
  destruct (sub_limbs_spec a b 0) as (l & o & -> & Hl & Hlw & Ho & Hv); [lia|done|done|lia|]. exists l, (negb (o =? 0)).
  pose proof (value_bound l Hlw) as Hbl. pose proof (value_bound a Hwa). pose proof (value_bound b Hwb).
  rewrite Hl, Ha in Hbl. rewrite Ha in *. rewrite Hb in *.
  assert (o = 0 ∨ o = 1) as [-> | ->] by lia; simpl; (split_and!; [done|by split; [lia|]| |lia]); split; intros; try done; lia.
Qed.

Lemma high_spec x : 0 <= x → high x = x / 4294967296.
Proof. intros. unfold high. by rewrite Z.shiftr_div_pow2 by lia. Qed.

Lemma split_word x : 0 <= x < 18446744073709551616 → is_u32 (as_u32 x) ∧ is_u32 (high x) ∧ as_u32 x + 4294967296 * high x = x.
Proof.
  intros Hx. rewrite high_spec by lia. unfold as_u32, is_u32. pose proof (Z.div_mod x 4294967296 ltac:(lia)).
  pose proof (Z.mod_pos_bound x 4294967296 ltac:(lia)). split; [lia|]. split; [|lia].
  split; [apply Z.div_pos; lia|]. apply Z.div_lt_upper_bound; lia.
Qed.

Lemma sum_u64_Ok {E} x : x < 18446744073709551616 → sum_u64 (E:=E) x = Ok x.
Proof. intros. unfold sum_u64. by rewrite (proj2 (Z.ltb_lt _ _)). Qed.

Lemma add_limbs_spec {E} a b c :
  length a = length b → words a → words b → 0 <= c <= 1 →
  ∃ l o, add_limbs (E:=E) a b c = Ok (l, o) ∧ length l = length a ∧ words l ∧ 0 <= o <= 1 ∧
    value l + base (length a) * o = value a + value b + c.
Proof.
  revert b c. induction a as [|x a IH]; intros [|y b] c Hl Ha Hb Hc; try done; cbn [add_limbs].
  - exists [], c. split_and!; cbn [length value]; rewrite ?base_0; try done; lia.
  - apply Forall_cons in Ha as [Hx Ha], Hb as [Hy Hb]. simpl in Hl. unfold is_u32 in Hx, Hy.
    rewrite sum_u64_Ok by lia. cbn [mbind outcome_bind].
    destruct (split_word (x + y + c)) as (Hlo & Hhi & Hs); [lia|].
    destruct (IH b (high (x + y + c))) as (l & o & -> & Hll & Hlw & Ho & Hlv); [lia|done|done|unfold is_u32 in *; lia|].
    eexists (_ :: l), o. cbn [mbind outcome_bind]. split_and!; [done|simpl; lia|by constructor|lia|lia|].
    cbn [value length]. rewrite base_S. nia.
Qed.

Lemma add_in_place_spec {E} a b :
  limbs a → limbs b →
  ∃ l o, add_in_place (E:=E) a b = Ok (l, o) ∧ limbs l ∧ value l = value a + value b - (if o then base 8 else 0).
Proof.
  intros [Ha Hwa] [Hb Hwb]. unfold add_in_place.
  destruct (add_limbs_spec (E:=E) a b 0) as (l & o & -> & Hl & Hlw & Ho & Hv); [lia|done|done|lia|]. exists l, (negb (o =? 0)).
  rewrite Ha in Hv. split_and!; [done|split; [lia|done]|]. assert (o = 0 ∨ o = 1) as [-> | ->] by lia; simpl; lia.
Qed.

(** ** Multiplication *)

Lemma mul_row_spec {E} t a word c :
  length t = length a → words t → words a → is_u32 word → is_u32 c →
  ∃ l o, mul_row (E:=E) t a word c = Ok (l, o) ∧ length l = length a ∧ words l ∧ is_u32 o ∧
    value l + base (length a) * o = value t + value a * word + c.
Proof.
  revert a c. induction t as [|x t IH]; intros [|y a] c Hl Ht Ha Hw Hc; try done; cbn [mul_row].
  - exists [], c. split_and!; cbn [length value]; rewrite ?base_0; try done; lia.
  - apply Forall_cons in Ht as [Hx Ht], Ha as [Hy Ha]. simpl in Hl.
    assert (Hb : 0 <= x + y * word + c < 18446744073709551616) by (unfold is_u32 in *; nia).
    rewrite sum_u64_Ok by lia. cbn [mbind outcome_bind].
    destruct (split_word _ Hb) as (Hlo & Hhi & Hs).
    destruct (IH a (high (x + y * word + c))) as (l & o & -> & Hll & Hlw & Ho & Hlv); [lia|done..|].
    eexists (_ :: l), o. cbn [mbind outcome_bind]. split_and!; [done|simpl; lia|by constructor|done|].
    cbn [value length]. rewrite base_S. nia.
Qed.

(** The moduli the code uses. *)
Record modulus_ok (M : Modulus) : Prop := {
  mk_limbs : limbs (md_m M);
  mk_r2 : limbs (md_r2 M) ∧ value (md_r2 M) < value (md_m M);
  mk_inv : is_u32 (md_m_inv M);
  mk_neg : (value (md_m M) * md_m_inv M + 1) mod 4294967296 = 0;
  mk_pos : 2 < value (md_m M) }.

Lemma reduced_bound t a w q n v :
  t < 2 * n → 0 <= a < n → is_u32 w → is_u32 q → 4294967296 * v = t + a * w + q * n → v < 2 * n.
Proof.
  unfold is_u32. intros Ht Ha Hw Hq Hv. assert (a * w <= (n - 1) * 4294967295) by (apply Z.mul_le_mono_nonneg; lia).
  assert (q * n <= 4294967295 * n) by (apply Z.mul_le_mono_nonneg_r; lia). lia.
Qed.

Section Mont.
Context {E : Type} (M : Modulus) (HM : modulus_ok M).
Local Abbreviation m := (value (md_m M)).

Lemma quotient_clears low0 m0 :
  m mod 4294967296 = m0 mod 4294967296 →
  let q := wrapping_mul_u32 low0 (md_m_inv M) in (low0 + q * m0) mod 4294967296 = 0.
Proof using HM.
  intros Hm0 q. unfold q, wrapping_mul_u32. rewrite <- Z.add_mod_idemp_r, Z.mul_mod_idemp_l, Z.add_mod_idemp_r by lia.
  replace (low0 + low0 * md_m_inv M * m0) with (low0 * (m0 * md_m_inv M + 1)) by lia.
  rewrite <- Z.mul_mod_idemp_r by lia.
  replace ((m0 * md_m_inv M + 1) mod 4294967296) with ((m * md_m_inv M + 1) mod 4294967296).
  - rewrite (mk_neg M HM). by rewrite Z.mul_0_r.
  - rewrite <- (Z.add_mod_idemp_l (m * _)), <- Z.mul_mod_idemp_l, Hm0, Z.mul_mod_idemp_l, Z.add_mod_idemp_l by lia. done.
Qed.

(** The accumulator: nine limbs, below twice the modulus, and a tenth that the
    next turn overwrites. *)
Definition acc_ok (t : list Z) : Prop := length t = 10%nat ∧ words t ∧ value (take 9 t) < 2 * m.

Lemma take_9_value t : length t = 10%nat → value (take 9 t) = value (take 8 t) + base 8 * t !!! 8%nat.
Proof using Type.
  intros Hl. destruct (lookup_lt_is_Some_2 t 8) as [x Hx]; [lia|]. rewrite (take_S_r _ _ _ Hx), value_app.
  rewrite length_take. rewrite Nat.min_l by lia. rewrite (list_lookup_total_correct _ _ _ Hx). simpl. lia.
Qed.

Lemma mul_step_spec a t word :
  limbs a → value a < m → acc_ok t → is_u32 word →
  ∃ t' q, mul_step (E:=E) M a t word = Ok t' ∧ acc_ok t' ∧
    4294967296 * value (take 9 t') = value (take 9 t) + value a * word + q * m.
Proof using HM.
  intros [Ha Hwa] Ham (Ht & Hwt & Htb) Hword. unfold mul_step. pose proof (take_9_value t Ht) as Ht9.
  destruct (mul_row_spec (E:=E) (take 8 t) a word 0) as (low & c & -> & Hlow & Hwlow & Hc & Hv1);
    [rewrite length_take; lia|by apply Forall_take|done|done|done|]. cbn [mbind outcome_bind]. rewrite Ha in *.
  assert (H8 : is_u32 (t !!! 8%nat)).
  { apply (Forall_lookup_total_1 _ t 8); [done|lia]. }
  assert (Hx : 0 <= t !!! 8%nat + c < 8589934592) by (unfold is_u32 in *; lia).
  rewrite (sum_u64_Ok (t !!! 8%nat + c)) by lia. cbn [mbind outcome_bind].
  destruct (split_word (t !!! 8%nat + c)) as (H8lo & H8hi & H8v); [lia|].
  assert (Ht9' : as_u32 (high (t !!! 8%nat + c)) = high (t !!! 8%nat + c)) by (apply Z.mod_small; done).
  rewrite Ht9'. set (t8 := as_u32 (t !!! 8%nat + c)) in *. set (t9 := high (t !!! 8%nat + c)) in *.
  destruct (mk_limbs M HM) as [Hm Hwm].
  destruct low as [|low0 low]; [done|]. destruct (md_m M) as [|m0 ms] eqn:Hmm; [done|]. cbn [lookup_total list_lookup_total] in *.
  apply Forall_cons in Hwlow as [Hlow0 Hwlow], Hwm as [Hm0 Hwm]. simpl in Hlow, Hm.
  set (q := wrapping_mul_u32 low0 (md_m_inv M)).
  assert (Hq : is_u32 q) by (apply Z.mod_pos_bound; lia).
  assert (Hx0 : 0 <= low0 + q * m0 < 18446744073709551616) by (unfold is_u32 in *; nia).
  rewrite (sum_u64_Ok (low0 + q * m0)) by lia. cbn [mbind outcome_bind].
  change (drop 1 (low0 :: low)) with (drop 0 low). change (drop 1 (m0 :: ms)) with (drop 0 ms). rewrite !drop_0.
  destruct (split_word _ Hx0) as (_ & Hx0hi & Hx0v).
  assert (Hx0lo : as_u32 (low0 + q * m0) = 0).
  { apply quotient_clears. rewrite Hmm. cbn [value]. rewrite (Z.mul_comm 4294967296), Z_mod_plus_full. done. }
  destruct (mul_row_spec (E:=E) low ms q (high (low0 + q * m0))) as (sh & c2 & -> & Hsh & Hwsh & Hc2 & Hv2); [lia|done..|].
  cbn [mbind outcome_bind].
  assert (Hx1 : 0 <= t8 + c2 < 8589934592) by (unfold is_u32 in *; lia).
  rewrite (sum_u64_Ok (t8 + c2)) by lia. cbn [mbind outcome_bind].
  destruct (split_word (t8 + c2)) as (Hx1lo & Hx1hi & Hx1v); [lia|].
  replace (as_u32 (high (t8 + c2))) with (high (t8 + c2)) by (symmetry; apply Z.mod_small; done).
  assert (Hms : length ms = 7%nat) by lia. rewrite Hms in *.
  assert (Hcarry : t9 + high (t8 + c2) < 4294967296) by (unfold is_u32 in *; lia).
  unfold add_u32. destruct (Z.ltb_spec (t9 + high (t8 + c2)) 4294967296) as [_|]; [|lia]. cbn [mbind outcome_bind].
  eexists _, q. split; [done|].
  assert (Hval : value (take 9 (sh ++ [as_u32 (t8 + c2); t9 + high (t8 + c2); t9])) =
    value sh + base 7 * as_u32 (t8 + c2) + base 8 * (t9 + high (t8 + c2))).
  { change [?a; ?b; ?c] with ([a; b] ++ [c]). rewrite app_assoc, take_app_length' by (rewrite length_app; simpl; lia).
    rewrite value_app, Hsh. cbn [value]. change (base 8) with (4294967296 * base 7). lia. }
  assert (Heq : 4294967296 * (value sh + base 7 * as_u32 (t8 + c2) + base 8 * (t9 + high (t8 + c2))) =
    value (take 9 t) + value a * word + q * (m0 + 4294967296 * value ms)).
  { rewrite Ht9. cbn [value] in Hv1. change (base 8) with (4294967296 * base 7) in *. revert Hv1 Hv2 H8v Hx0v Hx1v Hx0lo.
    generalize (base 7). clear. intros b7 Hv1 Hv2 H8v Hx0v Hx1v Hx0lo. rewrite Hx0lo in Hx0v.
    apply (f_equal (Z.mul (4294967296 * b7))) in H8v, Hx1v. lia. }
  rewrite Hval. cbn [value] in *. split; [|done]. split; [rewrite length_app; simpl; lia|]. split.
  - apply words_app. split; [done|]. repeat constructor; try done; unfold is_u32 in *; lia.
  - rewrite Hval, Hmm. cbn [value]. pose proof (value_bound a Hwa).
    apply (reduced_bound (value (take 9 t)) (value a) word q); try done; lia.
Qed.

Lemma mul_loop_spec a b t :
  limbs a → value a < m → acc_ok t → words b →
  ∃ t' q, mul_loop (E:=E) M a b t = Ok t' ∧ acc_ok t' ∧
    base (length b) * value (take 9 t') = value (take 9 t) + value a * value b + q * m.
Proof using HM.
  intros Ha Ham. revert t. induction b as [|w b IH]; intros t Ht Hb; cbn [mul_loop].
  - exists t, 0. split; [done|]. split; [done|]. cbn [length value]. rewrite base_0. lia.
  - apply Forall_cons in Hb as [Hw Hb]. destruct (mul_step_spec a t w Ha Ham Ht Hw) as (t1 & q1 & -> & Ht1 & Hv1).
    cbn [mbind outcome_bind]. destruct (IH t1 Ht1 Hb) as (t2 & q2 & -> & Ht2 & Hv2).
    exists t2, (q1 + 4294967296 * q2). split; [done|]. split; [done|]. cbn [length value]. rewrite base_S. lia.
Qed.

Lemma zero_acc : acc_ok (replicate 10 0).
Proof using HM. split; [done|]. split; [repeat constructor; lia|]. simpl. pose proof (mk_pos M HM). lia. Qed.

Lemma mod_mul_spec a b :
  limbs a → limbs b → value a < m →
  ∃ c, mod_mul (E:=E) M a b = Ok c ∧ limbs c ∧ value c < m ∧ (value c * base 8) mod m = (value a * value b) mod m.
Proof using HM.
  intros Ha Hb Ham. unfold mod_mul. pose proof (mk_limbs M HM) as Hm. pose proof (mk_pos M HM) as Hpos.
  destruct (mul_loop_spec a b (replicate 10 0) Ha Ham zero_acc (proj2 Hb)) as (t & q & -> & (Ht & Hwt & Htb) & Hv).
  cbn [mbind outcome_bind]. rewrite (proj1 Hb) in Hv. rewrite (take_9_value t Ht) in *.
  set (T := value (take 8 t) + base 8 * t !!! 8%nat) in *.
  assert (Hcong : (T * base 8) mod m = (value a * value b) mod m).
  { replace (T * base 8) with (value a * value b + q * m) by (simpl in Hv; lia). by rewrite Z_mod_plus_full. }
  assert (Hr : limbs (take 8 t)) by (split; [rewrite length_take; lia|by apply Forall_take]).
  pose proof (value_bound _ (proj2 Hr)) as Hrb. rewrite (proj1 Hr) in Hrb.
  assert (H8 : is_u32 (t !!! 8%nat)) by (apply (Forall_lookup_total_1 _ t 8); [done|lia]).
  pose proof (value_bound _ (proj2 Hm)) as Hmb. rewrite (proj1 Hm) in Hmb.
  destruct (sub_in_place_spec (take 8 t) (md_m M) Hr Hm) as (l & o & -> & Hl & Ho & Hlv). cbn [fst].
  pose proof (less_value (take 8 t) (md_m M)) as Hless. rewrite (proj1 Hr), (proj1 Hm) in Hless.
  specialize (Hless eq_refl (proj2 Hr) (proj2 Hm)). unfold is_u32 in H8.
  assert (Hsub : (T - m) * base 8 mod m = (value a * value b) mod m).
  { rewrite <- Hcong. replace ((T - m) * base 8) with (T * base 8 + (- base 8) * m) by lia. by rewrite Z_mod_plus_full. }
  assert (Hcase : t !!! 8%nat = 0 ∨ t !!! 8%nat = 1).
  { assert (base 8 * (t !!! 8%nat) < base 8 * 2) by (unfold T in *; lia). pose proof (base_pos 8). nia. }
  destruct Hcase as [H0|H1].
  - rewrite H0 in *. replace T with (value (take 8 t)) in * by (unfold T; lia). simpl.
    destruct (less (take 8 t) (md_m M)) eqn:Hlt; simpl.
    + exists (take 8 t). apply proj1 in Hless. by split_and!; [..|auto|].
    + assert (Hge : ~ value (take 8 t) < m) by (rewrite <- Hless; done). exists l. destruct o; [by destruct Hge; apply Ho|].
      rewrite Z.add_0_r in Hlv. rewrite Hlv. split_and!; [done|done|lia|done].
  - rewrite H1 in *. simpl. exists l. destruct o; [|assert (~ value (take 8 t) < m) by (rewrite <- Ho; done); unfold T in *; lia].
    replace (value l) with (T - m) by (unfold T; lia). split_and!; [done|done|unfold T in *; lia|done].
Qed.

Lemma mod_add_spec a b :
  limbs a → limbs b → value a < m → value b < m →
  ∃ c, mod_add (E:=E) M a b = Ok c ∧ limbs c ∧ value c < m ∧ value c mod m = (value a + value b) mod m.
Proof using HM.
  intros Ha Hb Ham Hbm. unfold mod_add. pose proof (mk_limbs M HM) as Hm.
  destruct (add_in_place_spec (E:=E) a b Ha Hb) as (s & o & -> & Hs & Hv). cbn [mbind outcome_bind].
  pose proof (value_bound _ (proj2 Hs)) as Hsb. rewrite (proj1 Hs) in Hsb.
  pose proof (value_bound _ (proj2 Hm)) as Hmb. rewrite (proj1 Hm) in Hmb.
  pose proof (value_bound _ (proj2 Ha)) as Hab. pose proof (value_bound _ (proj2 Hb)) as Hbb.
  destruct (sub_in_place_spec s (md_m M) Hs Hm) as (l & o2 & -> & Hl & Ho & Hlv). cbn [fst].
  pose proof (less_value s (md_m M)) as Hless. rewrite (proj1 Hs), (proj1 Hm) in Hless.
  specialize (Hless eq_refl (proj2 Hs) (proj2 Hm)).
  assert (Hsub : (value a + value b - m) mod m = (value a + value b) mod m).
  { replace (value a + value b - m) with (value a + value b + (-1) * m) by lia. by rewrite Z_mod_plus_full. }
  destruct o; simpl.
  - exists l. destruct o2; [|assert (~ value s < m) by (rewrite <- Ho; done); lia].
    replace (value l) with (value a + value b - m) by lia. split_and!; [done|done|lia|done].
  - rewrite Z.sub_0_r in Hv. destruct (less s (md_m M)) eqn:Hlt; simpl.
    + exists s. rewrite <- Hv. apply proj1 in Hless. by split_and!; [..|auto|].
    + assert (Hge : ~ value s < m) by (rewrite <- Hless; done). exists l. destruct o2; [by destruct Hge; apply Ho|].
      replace (value l) with (value a + value b - m) by lia. split_and!; [done|done|lia|done].
Qed.

Lemma mod_sub_spec a b :
  limbs a → limbs b → value a < m → value b < m →
  ∃ c, mod_sub (E:=E) M a b = Ok c ∧ limbs c ∧ value c < m ∧ value c mod m = (value a - value b) mod m.
Proof using HM.
  intros Ha Hb Ham Hbm. unfold mod_sub. pose proof (mk_limbs M HM) as Hm.
  destruct (sub_in_place_spec a b Ha Hb) as (d & o & -> & Hd & Ho & Hv).
  pose proof (value_bound _ (proj2 Ha)) as Hab. pose proof (value_bound _ (proj2 Hb)) as Hbb.
  pose proof (value_bound _ (proj2 Hm)) as Hmb. rewrite (proj1 Hm) in Hmb.
  destruct o.
  - destruct (add_in_place_spec (E:=E) d (md_m M) Hd Hm) as (l & o2 & -> & Hl & Hlv). cbn [mbind outcome_bind].
    pose proof (value_bound _ (proj2 Hl)) as Hlb. rewrite (proj1 Hl) in Hlb.
    assert (value a < value b) by (by apply Ho). exists l.
    destruct o2; [|lia]. replace (value l) with (value a - value b + 1 * m) by lia.
    rewrite Z_mod_plus_full. split_and!; [done|done|lia|done].
  - exists d. rewrite Z.add_0_r in Hv. rewrite Hv. split_and!; [done|done|lia|done].
Qed.
End Mont.
