(* ===== verification/P256Field.v ===== *)
(** * P256Field: limbs as elements of a prime field

    A number of eight limbs below the modulus stands, in Montgomery form, for
    an element of the field of integers modulo the prime: the operations of
    [P256] on limbs are the operations of the field, and inversion by Fermat
    exponentiation is its inverse. *)

From Stdlib Require Import Zmod Field.
From S2P Require Import Prelude Primes P256.

Local Open Scope Z_scope.

(** ** Bits *)

Lemma testbit_words x v i :
  is_u32 x → 0 <= v → 0 <= i →
  Z.testbit (x + 4294967296 * v) i = if i <? 32 then Z.testbit x i else Z.testbit v (i - 32).
Proof.
  intros Hx Hv Hi. unfold is_u32 in Hx. change 4294967296 with (2 ^ 32). rewrite Z.mul_comm, <- Z.shiftl_mul_pow2 by lia.
  assert (Hlow : ∀ j, 32 <= j → Z.testbit x j = false).
  { intros j Hj. rewrite <- (Z.mod_small x (2 ^ 32)) by (simpl; lia). apply Z.mod_pow2_bits_high. lia. }
  assert (Hdis : Z.land x (v ≪ 32) = 0).
  { apply Z.bits_inj'. intros j Hj. rewrite Z.land_spec, Z.bits_0. destruct (Z.lt_ge_cases j 32).
    - rewrite (Z.shiftl_spec_low v 32 j) by lia. apply andb_false_r.
    - by rewrite Hlow. }
  rewrite Z.add_nocarry_lxor by done. rewrite Z.lxor_spec. destruct (Z.ltb_spec i 32).
  - rewrite (Z.shiftl_spec_low v 32 i) by lia. apply xorb_false_r.
  - rewrite Z.shiftl_spec by lia. rewrite Hlow by lia. by rewrite xorb_false_l.
Qed.

Lemma land_1_testbit x n : 0 <= n → negb (Z.land (Z.shiftr x n) 1 =? 0) = Z.testbit x n.
Proof.
  intros Hn. change 1 with (Z.ones 1). rewrite Z.land_ones by lia. change (2 ^ 1) with 2.
  rewrite Z.testbit_spec' || rewrite <- Z.bit0_mod. rewrite Z.shiftr_spec by lia. rewrite Z.add_0_l. by destruct (Z.testbit x n).
Qed.

Lemma limb_bit_testbit e bit :
  words e → (bit < 32 * length e)%nat → limb_bit e bit = Z.testbit (value e) (Z.of_nat bit).
Proof.
  unfold limb_bit. intros He. revert bit. induction He as [|x e Hx He IH]; intros bit Hb; [simpl in Hb; lia|].
  rewrite land_1_testbit by lia. cbn [value]. rewrite testbit_words; [|done|apply value_bound; done|lia].
  destruct (Z.ltb_spec (Z.of_nat bit) 32).
  - rewrite Nat.div_small, Nat.mod_small by lia. done.
  - replace (bit / 32)%nat with (S ((bit - 32) / 32)).
    + replace (bit mod 32)%nat with ((bit - 32) mod 32)%nat.
      * specialize (IH (bit - 32)%nat). rewrite land_1_testbit in IH by lia. change (32 * length (x :: e))%nat with (32 * S (length e))%nat in Hb.
        rewrite Nat2Z.inj_sub in IH by lia. apply IH. lia.
      * replace bit with (bit - 32 + 1 * 32)%nat at 2 by lia. by rewrite Nat.Div0.mod_add.
    + replace bit with (bit - 32 + 1 * 32)%nat at 2 by lia. rewrite Nat.div_add by lia. lia.
Qed.

(** The bits from [n] up, one at a time. *)
Lemma shiftr_step e n : 0 <= n → Z.shiftr e n = 2 * Z.shiftr e (n + 1) + Z.b2z (Z.testbit e n).
Proof.
  intros Hn. rewrite <- Z.shiftr_shiftr by lia. pose proof (Z.div2_odd (Z.shiftr e n)) as H.
  rewrite (Z.shiftr_div_pow2 _ 1), Z.pow_1_r, <- Z.div2_div by lia.
  replace (Z.testbit e n) with (Z.odd (Z.shiftr e n)); [done|]. by rewrite <- Z.bit0_odd, Z.shiftr_spec, Z.add_0_l by lia.
Qed.

(** ** Field elements *)

Section Field.
Context {E : Type} (M : Modulus) (m : Z).

(** The modulus of [M] is the odd prime [m]. *)
Class PrimeModulus : Prop := {
  pm_ok : modulus_ok M;
  pm_value : value (md_m M) = m;
  pm_prime : Z.prime m;
  pm_radix : base 8 mod m ≠ 0;
  pm_r2 : value (md_r2 M) mod m = (base 8 * base 8) mod m;
  pm_low : 2 <= md_m M !!! 0%nat }.

Context {HM : PrimeModulus}.

Add Field field_m : (Zmod.field_theory m pm_prime).

Local Abbreviation R := (Zmod.of_Z m (base 8)).

Lemma radix_nz : R ≠ Zmod.zero.
Proof using HM. apply Zmod.of_Z_nz, pm_radix. Qed.

(** Limbs that stand for an element, and the element. *)
Definition residue (a : Limbs) : Prop := limbs a ∧ value a < m.
Definition element (a : Limbs) : Zmod m := Zmod.mdiv (Zmod.of_Z m (value a)) R.

Lemma residue_value a : residue a → 0 <= value a < m.
Proof using Type. intros [[_ Ha] ?]. pose proof (value_bound a Ha). lia. Qed.

Lemma element_value a : (element a * R)%Zmod = Zmod.of_Z m (value a).
Proof using HM. unfold element. field. apply radix_nz. Qed.

Lemma element_eq a x : (x * R)%Zmod = Zmod.of_Z m (value a) → element a = x.
Proof using HM. unfold element. intros <-. field. apply radix_nz. Qed.

Lemma element_inj a b : residue a → residue b → element a = element b → a = b.
Proof using HM.
  intros Ha Hb He. apply (f_equal (λ x, (x * R)%Zmod)) in He. rewrite !element_value in He.
  apply (proj1 (Zmod.of_Z_inj _ _)) in He. pose proof (residue_value a Ha). pose proof (residue_value b Hb).
  rewrite !Z.mod_small in He by lia. destruct Ha as [[? ?] _], Hb as [[? ?] _]. by apply value_inj; [lia|..].
Qed.

Lemma element_zero a : residue a → is_zero a = true ↔ element a = Zmod.zero.
Proof using HM.
  intros Ha. pose proof (residue_value a Ha). rewrite is_zero_value by apply Ha. split.
  - intros Hv. apply element_eq. rewrite Hv. change (Zmod.of_Z m 0) with (@Zmod.zero m). ring.
  - intros He. pose proof (element_value a) as Hv. rewrite He in Hv.
    replace (Zmod.zero * R)%Zmod with (Zmod.of_Z m 0) in Hv by (change (Zmod.of_Z m 0) with (@Zmod.zero m); ring).
    apply (proj1 (Zmod.of_Z_inj _ _)) in Hv. rewrite !Z.mod_small in Hv by lia. done.
Qed.

(** [f] computes a limb value that stands for [x]. *)
Definition computes (f : outcome E Limbs) (x : Zmod m) : Prop := ∃ c, f = Ok c ∧ residue c ∧ element c = x.

Lemma of_Z_cong x y : x mod m = y mod m → Zmod.of_Z m x = Zmod.of_Z m y.
Proof using Type. apply (proj2 (Zmod.of_Z_inj _ _)). Qed.

Lemma mul_computes a b : residue a → residue b → computes (mod_mul M a b) (element a * element b)%Zmod.
Proof using HM.
  intros [Ha Ham] [Hb Hbm]. rewrite <- pm_value in Ham. destruct (mod_mul_spec (E:=E) M pm_ok a b Ha Hb Ham) as (c & -> & Hc & Hcm & Hv).
  rewrite pm_value in Hcm, Hv. exists c. split; [done|]. split; [done|]. apply element_eq.
  pose proof (of_Z_cong _ _ Hv) as Hz. rewrite !Zmod.of_Z_mul in Hz. rewrite <- (element_value a), <- (element_value b) in Hz.
  transitivity ((element a * R * (element b * R)) * Zmod.inv R)%Zmod; [field; apply radix_nz|].
  rewrite <- Hz. field. apply radix_nz.
Qed.

Lemma add_computes a b : residue a → residue b → computes (mod_add M a b) (element a + element b)%Zmod.
Proof using HM.
  intros [Ha Ham] [Hb Hbm]. rewrite <- pm_value in Ham, Hbm.
  destruct (mod_add_spec (E:=E) M pm_ok a b Ha Hb Ham Hbm) as (c & -> & Hc & Hcm & Hv).
  rewrite pm_value in Hcm, Hv. exists c. split; [done|]. split; [done|]. apply element_eq.
  rewrite (of_Z_cong _ _ Hv), Zmod.of_Z_add, <- (element_value a), <- (element_value b). ring.
Qed.

Lemma sub_computes a b : residue a → residue b → computes (mod_sub M a b) (element a - element b)%Zmod.
Proof using HM.
  intros [Ha Ham] [Hb Hbm]. rewrite <- pm_value in Ham, Hbm.
  destruct (mod_sub_spec (E:=E) M pm_ok a b Ha Hb Ham Hbm) as (c & -> & Hc & Hcm & Hv).
  rewrite pm_value in Hcm, Hv. exists c. split; [done|]. split; [done|]. apply element_eq.
  rewrite (of_Z_cong _ _ Hv), Zmod.of_Z_sub, <- (element_value a), <- (element_value b). ring.
Qed.

(** A plain number as an element, and back. *)
Lemma enter_computes a : residue a → computes (enter_mont M a) (Zmod.of_Z m (value a)).
Proof using HM.
  intros Ha. assert (Hr2 : residue (md_r2 M)).
  { pose proof (mk_r2 M pm_ok) as [? Hlt]. rewrite pm_value in Hlt. done. }
  destruct (mul_computes a (md_r2 M) Ha Hr2) as (c & Hc & Hrc & He). exists c. split; [done|]. split; [done|].
  rewrite He. assert (Hr : element (md_r2 M) = R).
  { apply element_eq. rewrite <- Zmod.of_Z_mul. symmetry. apply of_Z_cong, pm_r2. }
  rewrite Hr. apply element_value.
Qed.

Lemma one_residue : residue ONE.
Proof using HM.
  split; [split; [done|repeat constructor; lia]|]. simpl. pose proof (mk_pos M pm_ok) as Hp. rewrite pm_value in Hp. lia.
Qed.

Lemma leave_computes a : residue a → ∃ c, leave_mont (E:=E) M a = Ok c ∧ residue c ∧ Zmod.of_Z m (value c) = element a.
Proof using HM.
  intros Ha. destruct (mul_computes a ONE Ha one_residue) as (c & Hc & Hrc & He). exists c. split; [done|]. split; [done|].
  rewrite <- element_value, He. replace (element ONE) with (Zmod.inv R); [field; apply radix_nz|].
  symmetry. apply element_eq. change (Zmod.of_Z m (value ONE)) with (@Zmod.one m). field. apply radix_nz.
Qed.

(** [mul] with one factor a plain number. *)
Lemma mul_plain a b :
  residue a → residue b →
  ∃ c, mod_mul (E:=E) M a b = Ok c ∧ residue c ∧ Zmod.of_Z m (value c) = (Zmod.of_Z m (value a) * element b)%Zmod.
Proof using HM.
  intros Ha Hb. destruct (mul_computes a b Ha Hb) as (c & Hc & Hrc & He). exists c. split; [done|]. split; [done|].
  rewrite <- !element_value, He. ring.
Qed.

(** ** Inversion *)

Lemma invert_loop_computes n e a r x :
  words e → (n <= 32 * length e)%nat → residue a → residue r →
  element r = Zmod.pow (element a) (Z.shiftr (value e) (Z.of_nat n)) → x = Zmod.pow (element a) (value e) →
  computes (invert_loop M n e a r) x.
Proof using HM.
  intros He Hn Ha. revert r Hn. induction n as [|bit IH]; intros r Hn Hr Hp ->; cbn [invert_loop].
  { exists r. by rewrite Hp. }
  pose proof (value_bound e He) as [Hv0 _].
  assert (Hsh : 0 <= Z.shiftr (value e) (Z.of_nat bit + 1)) by (by apply Z.shiftr_nonneg).
  pose proof (shiftr_step (value e) (Z.of_nat bit) ltac:(lia)) as Hstep.
  replace (Z.of_nat (S bit)) with (Z.of_nat bit + 1) in Hp by lia.
  rewrite limb_bit_testbit by (done || lia).
  destruct (mul_computes r r Hr Hr) as (r2 & -> & Hr2 & He2). cbn [mbind outcome_bind].
  rewrite Hp, <- Zmod.pow_add_r_nonneg in He2 by lia.
  destruct (Z.testbit (value e) (Z.of_nat bit)).
  - destruct (mul_computes r2 a Hr2 Ha) as (r3 & -> & Hr3 & He3). cbn [mbind outcome_bind].
    apply IH; [lia|done| |done]. rewrite He3, He2, Hstep. simpl.
    replace (2 * Z.shiftr (value e) (Z.of_nat bit + 1) + 1) with
      (Z.succ (Z.shiftr (value e) (Z.of_nat bit + 1) + Z.shiftr (value e) (Z.of_nat bit + 1))) by lia.
    rewrite Zmod.pow_succ_nonneg_r by lia. ring.
  - cbn [mbind outcome_bind]. apply IH; [lia|done| |done]. rewrite He2, Hstep. simpl.
    f_equal. lia.
Qed.

Lemma modulus_minus_two :
  let e := <[0%nat := md_m M !!! 0%nat - 2]> (md_m M) in words e ∧ length e = 8%nat ∧ value e = m - 2.
Proof using HM.
  destruct (mk_limbs M pm_ok) as [Hl Hw]. pose proof pm_low as H2. pose proof pm_value as Hv.
  destruct (md_m M) as [|m0 ms]; [done|]. apply Forall_cons in Hw as [H0 Hw].
  cbn [insert list_insert lookup_total list_lookup_total value] in *. split_and!; [|done|lia].
  constructor; [unfold is_u32 in *; lia|done].
Qed.

Lemma invert_computes a : residue a → is_zero a = false → computes (invert M a) (Zmod.inv (element a)).
Proof using HM.
  intros Ha Hnz. unfold invert, sub_u32. pose proof pm_low as H2. rewrite (proj2 (Z.ltb_ge _ _)) by done.
  cbn [mbind outcome_bind]. destruct modulus_minus_two as (Hw & Hl & Hv).
  destruct (enter_computes ONE one_residue) as (r & -> & Hr & He). cbn [mbind outcome_bind].
  assert (Hne : element a ≠ Zmod.zero).
  { intros Hz. apply (element_zero a Ha) in Hz. congruence. }
  apply invert_loop_computes; [done|by rewrite Hl|done|done| |].
  - rewrite He. pose proof (value_bound _ Hw) as [Hv0 Hvb]. rewrite Hl in Hvb.
    rewrite Z.shiftr_div_pow2 by lia. replace (2 ^ Z.of_nat 256) with (base 8) by (vm_compute; reflexivity).
    rewrite Z.div_small by (split; [exact Hv0|exact Hvb]). rewrite Zmod.pow_0_r. by change (value ONE) with 1.
  - rewrite Hv. symmetry. apply Zmod.fermat_inv; [done|apply pm_prime].
Qed.
End Field.

Arguments residue m a : rename.
Arguments element m a : rename.
Arguments computes {E} m f x : rename.

(** * The two moduli *)

Lemma words_all (l : list Z) : forallb (λ x, (0 <=? x) && (x <? 4294967296)) l = true → words l.
Proof. rewrite forallb_forall. intros H. apply Forall_forall. intros x Hx%list_elem_of_In. apply H in Hx. unfold is_u32. lia. Qed.

Lemma prime_modulus M m :
  length (md_m M) = 8%nat → length (md_r2 M) = 8%nat → words (md_m M) → words (md_r2 M) → is_u32 (md_m_inv M) →
  value (md_m M) = m → value (md_r2 M) < m → 2 < m → (m * md_m_inv M + 1) mod 4294967296 = 0 → Z.prime m →
  base 8 mod m ≠ 0 → value (md_r2 M) mod m = (base 8 * base 8) mod m → 2 <= md_m M !!! 0%nat → PrimeModulus M m.
Proof.
  intros ? ? ? ? ? <- ? ? ? ? ? ? ?. by constructor.
Qed.

#[export] Instance P_prime : PrimeModulus P p256_p.
Proof.
  apply prime_modulus; [done|done|by apply words_all|by apply words_all|done|vm_compute; done|vm_compute; done|
    done|vm_compute; done|exact prime_p256_p|vm_compute; done|vm_compute; done|done].
Qed.

#[export] Instance N_prime : PrimeModulus N p256_n.
Proof.
  apply prime_modulus; [done|done|by apply words_all|by apply words_all|done|vm_compute; done|vm_compute; done|
    done|vm_compute; done|exact prime_p256_n|vm_compute; done|vm_compute; done|done].
Qed.
