(* ===== verification/P256Curve.v ===== *)
(** * P256Curve: points and signatures

    [mcuboot-image/src/p256.rs]: Jacobian points over the limbs of [P256], the
    double scalar ladder, public keys, signature verification and the DER
    parser.  The reference is the curve in affine coordinates over the prime
    field ([aff_double], [aff_add]) and ECDSA over it ([ecdsa_verify]). *)

From Stdlib Require Import Zmod Field.
From S2P Require Import Prelude Primes P256 P256Field.

Local Open Scope Z_scope.

(** Jacobian point in the Montgomery domain *)
Record Point := mk_Point { pt_x : Limbs; pt_y : Limbs; pt_z : Limbs }.
Definition INFINITY : Point := mk_Point ZERO ZERO ZERO.

(** A validated public key *)
Record VerifyingKey := mk_VerifyingKey { vk_x : Limbs; vk_y : Limbs }.

Section Curve.
Context {E : Type}.
Local Abbreviation out := (outcome E).
Local Abbreviation mul := (mod_mul (E:=E) P).
Local Abbreviation add := (mod_add (E:=E) P).
Local Abbreviation sub := (mod_sub (E:=E) P).

Definition point_double (p : Point) : out Point :=
  if is_zero (pt_z p) then Ok p
  else
    delta ← mul (pt_z p) (pt_z p);
    gamma ← mul (pt_y p) (pt_y p);
    beta ← mul (pt_x p) gamma;
    below ← sub (pt_x p) delta;
    above ← add (pt_x p) delta;
    t ← mul below above;
    t2 ← add t t;
    alpha ← add t2 t;
    beta2 ← add beta beta;
    beta4 ← add beta2 beta2;
    beta8 ← add beta4 beta4;
    alpha_sq ← mul alpha alpha;
    x ← sub alpha_sq beta8;
    yz ← add (pt_y p) (pt_z p);
    yz_sq ← mul yz yz;
    yz_g ← sub yz_sq gamma;
    z ← sub yz_g delta;
    gamma_sq ← mul gamma gamma;
    g2 ← add gamma_sq gamma_sq;
    g4 ← add g2 g2;
    g8 ← add g4 g4;
    slope ← sub beta4 x;
    rise ← mul alpha slope;
    y ← sub rise g8;
    Ok (mk_Point x y z).

Definition point_add (p other : Point) : out Point :=
  if is_zero (pt_z p) then Ok other
  else if is_zero (pt_z other) then Ok p
  else
    z1z1 ← mul (pt_z p) (pt_z p);
    z2z2 ← mul (pt_z other) (pt_z other);
    u1 ← mul (pt_x p) z2z2;
    u2 ← mul (pt_x other) z1z1;
    y1z2 ← mul (pt_y p) (pt_z other);
    s1 ← mul y1z2 z2z2;
    y2z1 ← mul (pt_y other) (pt_z p);
    s2 ← mul y2z1 z1z1;
    h ← sub u2 u1;
    r ← sub s2 s1;
    if is_zero h then (if is_zero r then point_double p else Ok INFINITY)
    else
      hh ← mul h h;
      hhh ← mul h hh;
      v ← mul u1 hh;
      rr ← mul r r;
      rr_h ← sub rr hhh;
      vv ← add v v;
      x ← sub rr_h vv;
      v_x ← sub v x;
      rise ← mul r v_x;
      drop ← mul s1 hhh;
      y ← sub rise drop;
      zz ← mul (pt_z p) (pt_z other);
      z ← mul zz h;
      Ok (mk_Point x y z).

(** [VerifyingKey::from_xy] *)
Definition from_xy (xy : list Z) : out (option VerifyingKey) :=
  let x := from_be (take 32 xy) in
  let y := from_be (drop 32 xy) in
  if negb (less x (md_m P)) || negb (less y (md_m P)) then Ok None
  else
    xm ← enter_mont P x;
    ym ← enter_mont P y;
    lhs ← mul ym ym;
    x2 ← mul xm xm;
    x3 ← mul x2 xm;
    two_x ← add xm xm;
    three_x ← add two_x xm;
    difference ← sub x3 three_x;
    bm ← enter_mont P B;
    rhs ← add difference bm;
    Ok (if bool_decide (lhs = rhs) then Some (mk_VerifyingKey x y) else None).

(** [for bit in (0..n).rev()] *)
Fixpoint ladder_loop (n : nat) (u1 u2 : Limbs) (g q gq acc : Point) : out Point :=
  match n with
  | O => Ok acc
  | S bit =>
      acc ← point_double acc;
      acc ← match limb_bit u1 bit, limb_bit u2 bit with
            | true, true => point_add acc gq
            | true, false => point_add acc g
            | false, true => point_add acc q
            | false, false => Ok acc
            end;
      ladder_loop bit u1 u2 g q gq acc
  end.

(** [if !less(&z, &n.m) { sub_in_place(&mut z, &n.m); }] *)
Definition reduce_once (z : Limbs) : Limbs :=
  if negb (less z (md_m N)) then (sub_in_place z (md_m N)).1 else z.

Definition verify_prehash (key : VerifyingKey) (digest r s : list Z) : out bool :=
  let r := from_be r in
  let s := from_be s in
  if is_zero r || is_zero s || negb (less r (md_m N)) || negb (less s (md_m N)) then Ok false
  else
    let z := reduce_once (from_be digest) in
    sm ← enter_mont N s;
    w ← invert N sm;
    u1 ← mod_mul N z w;
    u2 ← mod_mul N r w;
    one ← enter_mont P ONE;
    gx ← enter_mont P GX;
    gy ← enter_mont P GY;
    let g := mk_Point gx gy one in
    qx ← enter_mont P (vk_x key);
    qy ← enter_mont P (vk_y key);
    let q := mk_Point qx qy one in
    gq ← point_add g q;
    acc ← ladder_loop 256 u1 u2 g q gq INFINITY;
    if is_zero (pt_z acc) then Ok false
    else
      z_inv ← invert P (pt_z acc);
      z_inv2 ← mul z_inv z_inv;
      xm ← mul (pt_x acc) z_inv2;
      x ← leave_mont P xm;
      Ok (bool_decide (reduce_once x = r)).
End Curve.

(** ** DER *)

Definition parse_der_integer (input : list Z) : option (list Z * list Z) :=
  match input with
  | tag :: length_ :: rest =>
      let len := Z.to_nat length_ in
      if negb (tag =? 0x02) || (len =? 0)%nat || (33 <? len)%nat || (length rest <? len)%nat then None
      else
        let value := take len rest in
        let rest := drop len rest in
        if has_bits (value !!! 0%nat) 0x80 then None
        else
          let padded := (value !!! 0%nat =? 0) && (1 <? len)%nat in
          if padded && negb (has_bits (value !!! 1%nat) 0x80) then None
          else
            let value := if padded then drop 1 value else value in
            if (32 <? length value)%nat then None
            else Some (replicate (32 - length value) 0 ++ value, rest)
  | _ => None
  end.

Definition parse_der_signature (der : list Z) : option (list Z * list Z) :=
  match der with
  | tag :: length_ :: body =>
      if negb (tag =? 0x30) || negb (length_ =? Z.of_nat (length body)) || (0x80 <=? length_) then None
      else
        '(r, rest) ← parse_der_integer body;
        '(s, rest) ← parse_der_integer rest;
        match rest with [] => Some (r, s) | _ => None end
  | _ => None
  end.

(** * The reference *)

(** The field and the curve [y^2 = x^3 - 3 x + b] in affine coordinates;
    [None] is the point at infinity. *)
Abbreviation F := (Zmod p256_p).
Abbreviation affine_point := (option (F * F)).

Add Field p256_field : (Zmod.field_theory p256_p prime_p256_p).

Definition curve_b : F := Zmod.of_Z p256_p (value B).
Definition on_curve (x y : F) : Prop := (y * y = x * x * x - (x + x + x) + curve_b)%Zmod.

(** The tangent at a point. *)
Definition aff_double (p : affine_point) : affine_point :=
  match p with
  | None => None
  | Some (x, y) =>
      if Zmod.eqb y Zmod.zero then None
      else
        let l := Zmod.mdiv (x * x + x * x + x * x - (1 + 1 + 1))%Zmod (y + y)%Zmod in
        let x3 := (l * l - (x + x))%Zmod in
        Some (x3, (l * (x - x3) - y)%Zmod)
  end.

(** The chord through two points. *)
Definition aff_add (p q : affine_point) : affine_point :=
  match p, q with
  | None, _ => q
  | _, None => p
  | Some (x1, y1), Some (x2, y2) =>
      if Zmod.eqb x1 x2 then (if Zmod.eqb y1 y2 then aff_double p else None)
      else
        let l := Zmod.mdiv (y2 - y1)%Zmod (x2 - x1)%Zmod in
        let x3 := (l * l - x1 - x2)%Zmod in
        Some (x3, (l * (x1 - x3) - y1)%Zmod)
  end.

(** [u1 G + u2 Q], bit by bit from the highest: the sum is doubled and the
    points whose bit is set are added. *)
Fixpoint aff_ladder (n : nat) (u1 u2 : Z) (g q : affine_point) (acc : affine_point) : affine_point :=
  match n with
  | O => acc
  | S bit =>
      let acc := aff_double acc in
      let acc := match Z.testbit u1 (Z.of_nat bit), Z.testbit u2 (Z.of_nat bit) with
                 | true, true => aff_add acc (aff_add g q)
                 | true, false => aff_add acc g
                 | false, true => aff_add acc q
                 | false, false => acc
                 end in
      aff_ladder bit u1 u2 g q acc
  end.

Definition generator : affine_point := Some (Zmod.of_Z p256_p (value GX), Zmod.of_Z p256_p (value GY)).

(** ECDSA verification of [(r, s)] on the digest [e] with the public point
    [(qx, qy)]. *)
Definition ecdsa_verify (qx qy e r s : Z) : Prop :=
  0 < r < p256_n ∧ 0 < s < p256_n ∧
  let w := Zmod.inv (Zmod.of_Z p256_n s) in
  let u1 := Zmod.unsigned (Zmod.of_Z p256_n e * w)%Zmod in
  let u2 := Zmod.unsigned (Zmod.of_Z p256_n r * w)%Zmod in
  match aff_ladder 256 u1 u2 generator (Some (Zmod.of_Z p256_p qx, Zmod.of_Z p256_p qy)) None with
  | Some (x, _) => Zmod.unsigned x mod p256_n = r
  | None => False
  end.

(** ** Points stand for affine points *)

Definition point_ok (p : Point) : Prop := residue p256_p (pt_x p) ∧ residue p256_p (pt_y p) ∧ residue p256_p (pt_z p).

Local Abbreviation el := (element p256_p).

Definition affine (p : Point) : affine_point :=
  let z := el (pt_z p) in
  if Zmod.eqb z Zmod.zero then None
  else Some (Zmod.mdiv (el (pt_x p)) (z * z)%Zmod, Zmod.mdiv (el (pt_y p)) (z * z * z)%Zmod).

Lemma eqb_zero (x y : F) : Zmod.eqb x y = true ↔ x = y.
Proof. destruct (Zmod.eqb_spec x y); by split. Qed.

Lemma two_nz : (1 + 1 : F)%Zmod ≠ Zmod.zero.
Proof. intros H. apply (f_equal Zmod.unsigned) in H. by vm_compute in H. Qed.

Lemma affine_infinity p : point_ok p → is_zero (pt_z p) = true → affine p = None.
Proof.
  intros (_ & _ & Hz) H. apply (element_zero P p256_p (pt_z p) Hz) in H. unfold affine. by rewrite H, (proj2 (eqb_zero _ _)).
Qed.

Lemma affine_finite p :
  point_ok p → is_zero (pt_z p) = false →
  el (pt_z p) ≠ Zmod.zero ∧
  affine p = Some (Zmod.mdiv (el (pt_x p)) (el (pt_z p) * el (pt_z p))%Zmod,
                   Zmod.mdiv (el (pt_y p)) (el (pt_z p) * el (pt_z p) * el (pt_z p))%Zmod).
Proof.
  intros (_ & _ & Hz) H. assert (Hn : el (pt_z p) ≠ Zmod.zero).
  { intros H0. apply (element_zero P p256_p (pt_z p) Hz) in H0. congruence. }
  split; [done|]. unfold affine. destruct (Zmod.eqb_spec (el (pt_z p)) Zmod.zero); [done|]. done.
Qed.

(** ** Composition *)

Section Yields.
Context {E A : Type}.
(** [f] returns a value in [Q]. *)
Definition yields (f : outcome E A) (Q : A → Prop) : Prop := ∃ a, f = Ok a ∧ Q a.
Lemma yields_value a (Q : A → Prop) : Q a → yields (Ok a) Q.
Proof. intros. by exists a. Qed.
End Yields.

(** The equations of the operations so far, in terms of the inputs. *)
Ltac elements :=
  repeat match goal with H : element _ ?c = _, H' : context [element _ ?c] |- _ => rewrite H in H' end.

Lemma computes_bind {E A} m f x (k : Limbs → outcome E A) Q :
  computes m f x → (∀ c, residue m c → element m c = x → yields (k c) Q) → yields (f ≫= k) Q.
Proof. intros (c & -> & Hc & He) Hk. by apply Hk. Qed.

Lemma yields_seq {E A B} (f : outcome E A) (k : A → outcome E B) Q' Q :
  yields f Q' → (∀ a, Q' a → yields (k a) Q) → yields (f ≫= k) Q.
Proof. intros (a & -> & Ha) Hk. by apply Hk. Qed.

(** One field operation of the code: its limbs and their equation. *)
Ltac field_op :=
  eapply (computes_bind p256_p);
  [first [apply (mul_computes P p256_p)|apply (add_computes P p256_p)|apply (sub_computes P p256_p)]; assumption|];
  let c := fresh "c" in let Hc := fresh "Hc" in let He := fresh "He" in intros c Hc He.

(** ** Doubling and addition *)

Lemma mdiv_zero (x y : F) : y ≠ Zmod.zero → Zmod.mdiv x y = Zmod.zero ↔ x = Zmod.zero.
Proof.
  intros Hy. split; [|intros ->; field; done]. intros H. transitivity (Zmod.mdiv x y * y)%Zmod; [field; done|].
  rewrite H. ring.
Qed.

Lemma mul_nz (x y : F) : x ≠ Zmod.zero → y ≠ Zmod.zero → (x * y)%Zmod ≠ Zmod.zero.
Proof. intros Hx Hy H. apply (Zmod.mul_0_iff_prime prime_p256_p) in H. tauto. Qed.

Lemma double_nz (y : F) : y ≠ Zmod.zero → (y + y)%Zmod ≠ Zmod.zero.
Proof. intros Hy. replace (y + y)%Zmod with ((1 + 1) * y)%Zmod by ring. apply mul_nz; [apply two_nz|done]. Qed.

#[local] Hint Resolve mul_nz double_nz two_nz : core.

(** The formulas of [double] in the field. *)
Lemma double_formula (X Y Z_ : F) :
  Z_ ≠ Zmod.zero →
  let delta := (Z_ * Z_)%Zmod in let gamma := (Y * Y)%Zmod in let beta := (X * gamma)%Zmod in
  let t := ((X - delta) * (X + delta))%Zmod in let alpha := (t + t + t)%Zmod in
  let beta4 := (beta + beta + (beta + beta))%Zmod in
  let x := (alpha * alpha - (beta4 + beta4))%Zmod in
  let z := ((Y + Z_) * (Y + Z_) - gamma - delta)%Zmod in
  let g := (gamma * gamma)%Zmod in let g4 := (g + g + (g + g))%Zmod in
  let y := (alpha * (beta4 - x) - (g4 + g4))%Zmod in
  aff_double (Some (Zmod.mdiv X (Z_ * Z_)%Zmod, Zmod.mdiv Y (Z_ * Z_ * Z_)%Zmod)) =
  if Zmod.eqb z Zmod.zero then None else Some (Zmod.mdiv x (z * z)%Zmod, Zmod.mdiv y (z * z * z)%Zmod).
Proof.
  intros HZ delta gamma beta t alpha beta4 x z g g4 y.
  assert (Hz : z = (Y * Z_ + Y * Z_)%Zmod) by (unfold z, gamma, delta; ring). clearbody z. unfold aff_double.
  destruct (Zmod.eqb_spec (Zmod.mdiv Y (Z_ * Z_ * Z_)%Zmod) Zmod.zero) as [H0|Hne].
  - apply mdiv_zero in H0; [|auto]. assert (z = Zmod.zero) as -> by (rewrite Hz, H0; ring).
    by rewrite (proj2 (eqb_zero _ _)).
  - assert (HY : Y ≠ Zmod.zero) by (intros ->; apply Hne, mdiv_zero; auto).
    destruct (Zmod.eqb_spec z Zmod.zero) as [H0|_]; [rewrite Hz in H0; by apply (double_nz _ (mul_nz _ _ HY HZ)) in H0|].
    rewrite Hz. unfold y, g4, g, x, alpha, t, beta4, beta, gamma, delta. do 2 f_equal; field; auto.
Qed.

Lemma point_double_spec {E} p :
  point_ok p → yields (point_double (E:=E) p) (λ q, point_ok q ∧ affine q = aff_double (affine p)).
Proof.
  intros Hok. unfold point_double. destruct (is_zero (pt_z p)) eqn:Hz.
  - apply yields_value. rewrite (affine_infinity p Hok Hz). done.
  - destruct (affine_finite p Hok Hz) as [Hn ->]. destruct Hok as (Hx & Hy & Hpz).
    repeat field_op. apply yields_value. split; [done|].
    rewrite (double_formula (el (pt_x p)) (el (pt_y p)) (el (pt_z p)) Hn). unfold affine. cbn [pt_x pt_y pt_z].
    by repeat match goal with H : element _ _ = _ |- _ => rewrite H; clear H end.
Qed.

Lemma mdiv_eq (a b c d : F) :
  b ≠ Zmod.zero → d ≠ Zmod.zero → Zmod.mdiv a b = Zmod.mdiv c d ↔ (c * b - a * d)%Zmod = Zmod.zero.
Proof.
  intros Hb Hd. split; intros H.
  - replace (c * b - a * d)%Zmod with ((Zmod.mdiv c d - Zmod.mdiv a b) * (b * d))%Zmod by (field; auto). rewrite H. ring.
  - transitivity (Zmod.mdiv c d - Zmod.mdiv (c * b - a * d) (b * d))%Zmod; [field; auto|]. rewrite H. field. auto.
Qed.

(** The formulas of [add] in the field, for points with different abscissas. *)
Lemma add_formula (X1 Y1 Z1 X2 Y2 Z2 : F) :
  Z1 ≠ Zmod.zero → Z2 ≠ Zmod.zero →
  let u1 := (X1 * (Z2 * Z2))%Zmod in let u2 := (X2 * (Z1 * Z1))%Zmod in
  let s1 := (Y1 * Z2 * (Z2 * Z2))%Zmod in let s2 := (Y2 * Z1 * (Z1 * Z1))%Zmod in
  let h := (u2 - u1)%Zmod in let r := (s2 - s1)%Zmod in
  let hhh := (h * (h * h))%Zmod in let v := (u1 * (h * h))%Zmod in
  let x := (r * r - hhh - (v + v))%Zmod in let y := (r * (v - x) - s1 * hhh)%Zmod in let z := (Z1 * Z2 * h)%Zmod in
  aff_add (Some (Zmod.mdiv X1 (Z1 * Z1)%Zmod, Zmod.mdiv Y1 (Z1 * Z1 * Z1)%Zmod))
          (Some (Zmod.mdiv X2 (Z2 * Z2)%Zmod, Zmod.mdiv Y2 (Z2 * Z2 * Z2)%Zmod)) =
  if Zmod.eqb h Zmod.zero then
    (if Zmod.eqb r Zmod.zero then aff_double (Some (Zmod.mdiv X1 (Z1 * Z1)%Zmod, Zmod.mdiv Y1 (Z1 * Z1 * Z1)%Zmod))
     else None)
  else Some (Zmod.mdiv x (z * z)%Zmod, Zmod.mdiv y (z * z * z)%Zmod).
Proof.
  intros H1 H2 u1 u2 s1 s2 h r hhh v x y z.
  assert (Hx : Zmod.mdiv X1 (Z1 * Z1)%Zmod = Zmod.mdiv X2 (Z2 * Z2)%Zmod ↔ h = Zmod.zero).
  { rewrite mdiv_eq by auto. unfold h, u1, u2. done. }
  assert (Hy : Zmod.mdiv Y1 (Z1 * Z1 * Z1)%Zmod = Zmod.mdiv Y2 (Z2 * Z2 * Z2)%Zmod ↔ r = Zmod.zero).
  { rewrite mdiv_eq by auto. unfold r, s1, s2.
    replace (Y2 * (Z1 * Z1 * Z1) - Y1 * (Z2 * Z2 * Z2))%Zmod with (Y2 * Z1 * (Z1 * Z1) - Y1 * Z2 * (Z2 * Z2))%Zmod by ring. done. }
  unfold aff_add. destruct (Zmod.eqb_spec h Zmod.zero) as [H0|Hne].
  - rewrite (proj2 (eqb_zero _ _) (proj2 Hx H0)). destruct (Zmod.eqb_spec r Zmod.zero) as [Hr|Hr].
    + by rewrite (proj2 (eqb_zero _ _) (proj2 Hy Hr)).
    + destruct (Zmod.eqb_spec (Zmod.mdiv Y1 (Z1 * Z1 * Z1)%Zmod) (Zmod.mdiv Y2 (Z2 * Z2 * Z2)%Zmod)) as [He|]; [|done].
      by apply Hy in He.
  - destruct (Zmod.eqb_spec (Zmod.mdiv X1 (Z1 * Z1)%Zmod) (Zmod.mdiv X2 (Z2 * Z2)%Zmod)) as [He|_]; [by apply Hx in He|].
    assert (Hh : (X2 * (Z1 * Z1) - X1 * (Z2 * Z2))%Zmod ≠ Zmod.zero) by done.
    unfold y, x, z, v, hhh, r, h, s1, s2, u1, u2. do 2 f_equal; field; auto.
Qed.

Lemma infinity_ok : point_ok INFINITY.
Proof. repeat split; try done; repeat constructor; lia. Qed.

Lemma point_add_spec {E} p q :
  point_ok p → point_ok q →
  yields (point_add (E:=E) p q) (λ s, point_ok s ∧ affine s = aff_add (affine p) (affine q)).
Proof.
  intros Hp Hq. unfold point_add. destruct (is_zero (pt_z p)) eqn:Hzp.
  { apply yields_value. by rewrite (affine_infinity p Hp Hzp). }
  destruct (is_zero (pt_z q)) eqn:Hzq.
  { apply yields_value. rewrite (affine_infinity q Hq Hzq). by destruct (affine p) as [[? ?]|]. }
  pose proof (point_double_spec (E:=E) p Hp) as Hd.
  destruct (affine_finite p Hp Hzp) as [Hn1 Ha1], (affine_finite q Hq Hzq) as [Hn2 Ha2]. rewrite Ha1 in *. rewrite Ha2.
  rewrite (add_formula _ _ _ _ _ _ Hn1 Hn2). destruct Hp as (Hx1 & Hy1 & Hz1), Hq as (Hx2 & Hy2 & Hz2).
  do 10 field_op.
  match goal with |- context [if is_zero ?h then (if is_zero ?r then _ else _) else _] =>
    pose proof (element_zero P p256_p h) as Hh; pose proof (element_zero P p256_p r) as Hr;
    destruct (is_zero h) eqn:Hih; [destruct (is_zero r) eqn:Hir|] end.
  - elements. rewrite (proj2 (eqb_zero _ _) (proj1 (Hh ltac:(done)) eq_refl)).
    by rewrite (proj2 (eqb_zero _ _) (proj1 (Hr ltac:(done)) eq_refl)).
  - elements. rewrite (proj2 (eqb_zero _ _) (proj1 (Hh ltac:(done)) eq_refl)). apply yields_value.
    split; [apply infinity_ok|]. rewrite (affine_infinity _ infinity_ok) by done.
    match goal with |- context [Zmod.eqb ?r Zmod.zero] => destruct (Zmod.eqb_spec r Zmod.zero) as [H0|]; [|done] end.
    by apply (Hr ltac:(done)) in H0.
  - match type of Hih with is_zero ?h = _ =>
      assert (Hn : el h ≠ Zmod.zero) by (intros H0; apply (Hh ltac:(done)) in H0; congruence) end. clear Hh Hr.
    repeat field_op. apply yields_value. split; [done|]. elements. unfold affine. cbn [pt_x pt_y pt_z].
    repeat match goal with H : element _ _ = _ |- _ => rewrite H; clear H end.
    destruct (Zmod.eqb_spec (el (pt_x q) * (el (pt_z p) * el (pt_z p)) - el (pt_x p) * (el (pt_z q) * el (pt_z q)))%Zmod
      Zmod.zero) as [?|_]; [done|].
    match goal with |- context [Zmod.eqb ?z Zmod.zero] => destruct (Zmod.eqb_spec z Zmod.zero) as [H0|_]; [|done] end.
    exfalso. exact (mul_nz _ _ (mul_nz _ _ Hn1 Hn2) Hn H0).
Qed.

(** ** The ladder *)

Lemma ladder_spec {E} n u1 u2 g q gq acc :
  words u1 → words u2 → (n <= 32 * length u1)%nat → (n <= 32 * length u2)%nat →
  point_ok g → point_ok q → point_ok gq → affine gq = aff_add (affine g) (affine q) → point_ok acc →
  yields (ladder_loop (E:=E) n u1 u2 g q gq acc)
    (λ r, point_ok r ∧ affine r = aff_ladder n (value u1) (value u2) (affine g) (affine q) (affine acc)).
Proof.
  intros Hu1 Hu2 Hl1 Hl2 Hg Hq Hgq Hsum. revert acc Hl1 Hl2. induction n as [|bit IH]; intros acc Hl1 Hl2 Hacc;
    cbn [ladder_loop aff_ladder]; [by apply yields_value|].
  eapply yields_seq; [by apply point_double_spec|]. intros d [Hd Hda]. rewrite !limb_bit_testbit by (done || lia).
  rewrite <- Hda, <- Hsum. destruct (Z.testbit (value u1) _), (Z.testbit (value u2) _).
  1-3: eapply yields_seq; [by apply point_add_spec|]; intros s [Hs Hsa]; rewrite <- Hsa; apply IH; (done || lia).
  apply IH; (done || lia).
Qed.

(** ** Numbers from octets *)

(** A big-endian number. *)
Definition be_value (l : list Z) : Z := foldl (λ acc b, acc * 256 + b) 0 l.
Definition octets (n : nat) (l : list Z) : Prop := length l = n ∧ Forall is_u8 l.

Lemma from_be_spec bytes : octets 32 bytes → limbs (from_be bytes) ∧ value (from_be bytes) = be_value bytes.
Proof.
  intros [Hl Hb]. do 32 (destruct bytes as [|? bytes]; [done|]). destruct bytes; [|done].
  repeat (apply Forall_cons in Hb as [? Hb]). clear Hb Hl. unfold is_u8 in *. split.
  - split; [done|]. cbn. repeat constructor; unfold is_u32, u32_from_be; lia.
  - cbn. unfold u32_from_be, be_value. cbn. lia.
Qed.

Lemma reduce_once_spec z : limbs z → residue p256_n (reduce_once z) ∧ value (reduce_once z) = value z mod p256_n.
Proof.
  intros Hz. unfold reduce_once. pose proof (mk_limbs N (pm_ok N p256_n)) as Hn. pose proof (pm_value N p256_n) as Hv.
  pose proof (value_bound z (proj2 Hz)) as Hb. rewrite (proj1 Hz) in Hb.
  assert (H2n : base 8 < 2 * p256_n) by (vm_compute; done).
  pose proof (less_value z (md_m N)) as Hless. rewrite (proj1 Hz), (proj1 Hn), Hv in Hless.
  specialize (Hless eq_refl (proj2 Hz) (proj2 Hn)).
  destruct (less z (md_m N)) eqn:Hlt; cbn [negb].
  - assert (value z < p256_n) by (by apply Hless). split; [by split|]. rewrite Z.mod_small by lia. done.
  - assert (Hge : ~ value z < p256_n) by (rewrite <- Hless; done).
    destruct (sub_in_place_spec z (md_m N) Hz Hn) as (l & o & -> & Hl & Ho & Hlv). rewrite Hv in *. cbn [fst].
    destruct o; [by destruct Hge; apply Ho|]. rewrite Z.add_0_r in Hlv. split; [split; [done|lia]|].
    rewrite Hlv. apply Z.mod_unique_pos with 1; lia.
Qed.

Lemma less_residue M m {HM : PrimeModulus M m} a : limbs a → less a (md_m M) = true ↔ residue m a.
Proof.
  intros Ha. pose proof (mk_limbs M (pm_ok M m)) as Hm. rewrite less_value; [|by rewrite (proj1 Ha), (proj1 Hm)|apply Ha|apply Hm].
  rewrite (pm_value M m). unfold residue. tauto.
Qed.

Lemma value_of_Z m a x : residue m a → Zmod.of_Z m (value a) = x → value a = Zmod.unsigned x.
Proof. intros Ha <-. pose proof (residue_value m a Ha). by rewrite Zmod.unsigned_of_Z_small. Qed.

(** ** Public keys *)

Definition key_ok (k : VerifyingKey) : Prop := residue p256_p (vk_x k) ∧ residue p256_p (vk_y k).

Ltac enter_op := eapply (computes_bind p256_p); [apply (enter_computes P p256_p); assumption|];
  let c := fresh "c" in let Hc := fresh "Hc" in let He := fresh "He" in intros c Hc He.

Lemma B_residue : residue p256_p B.
Proof. split; [split; [done|by apply words_all]|vm_compute; done]. Qed.
Lemma GX_residue : residue p256_p GX.
Proof. split; [split; [done|by apply words_all]|vm_compute; done]. Qed.
Lemma GY_residue : residue p256_p GY.
Proof. split; [split; [done|by apply words_all]|vm_compute; done]. Qed.

Lemma from_xy_spec {E} xy :
  octets 64 xy →
  let x := be_value (take 32 xy) in let y := be_value (drop 32 xy) in
  yields (from_xy (E:=E) xy) (λ k,
    match k with
    | Some k => key_ok k ∧ value (vk_x k) = x ∧ value (vk_y k) = y ∧ on_curve (Zmod.of_Z p256_p x) (Zmod.of_Z p256_p y)
    | None => ~ (x < p256_p ∧ y < p256_p ∧ on_curve (Zmod.of_Z p256_p x) (Zmod.of_Z p256_p y))
    end).
Proof.
  intros [Hl Hb] x y. unfold from_xy.
  destruct (from_be_spec (take 32 xy)) as [Hlx Hvx]; [split; [rewrite length_take; lia|by apply Forall_take]|].
  destruct (from_be_spec (drop 32 xy)) as [Hly Hvy]; [split; [rewrite length_drop; lia|by apply Forall_drop]|].
  fold x in Hvx. fold y in Hvy. set (lx := from_be (take 32 xy)) in *. set (ly := from_be (drop 32 xy)) in *.
  pose proof (less_residue P p256_p lx Hlx) as Hrx. pose proof (less_residue P p256_p ly Hly) as Hry.
  destruct (less lx (md_m P)), (less ly (md_m P)); cbn [negb orb].
  2-4: apply yields_value; intros (Hx & Hy & _); rewrite <- Hvx in Hx; rewrite <- Hvy in Hy;
    ((destruct Hrx as [_ Hrx]; by discriminate Hrx) || (destruct Hry as [_ Hry]; by discriminate Hry)).
  apply proj1 in Hrx, Hry. specialize (Hrx eq_refl). specialize (Hry eq_refl). pose proof B_residue.
  do 2 enter_op. do 6 field_op. enter_op. field_op. elements.
  apply yields_value. unfold on_curve, curve_b. rewrite <- Hvx, <- Hvy.
  case_bool_decide as Heq.
  - subst. split; [by split|]. split; [done|]. split; [done|]. congruence.
  - intros (_ & _ & Hcv). apply Heq. apply (element_inj P p256_p); [done|done|]. congruence.
Qed.

(** ** Signatures *)

Lemma affine_of_plain gx gy one :
  residue p256_p gx → residue p256_p gy → residue p256_p one → el one = Zmod.one →
  point_ok (mk_Point gx gy one) ∧ affine (mk_Point gx gy one) = Some (el gx, el gy).
Proof.
  intros Hx Hy H1 He. split; [done|]. unfold affine. cbn [pt_x pt_y pt_z]. rewrite He.
  destruct (Zmod.eqb_spec (Zmod.one : F) Zmod.zero) as [H|_]; [apply (f_equal Zmod.unsigned) in H; by vm_compute in H|].
  assert (H1nz : (1 : F)%Zmod ≠ Zmod.zero) by (intros H; apply (f_equal Zmod.unsigned) in H; by vm_compute in H).
  do 2 f_equal; field; done.
Qed.

(** The abscissa the code compares, from the point the ladder ends with. *)
Lemma abscissa_spec {E} acc r (x y : F) :
  point_ok acc → is_zero (pt_z acc) = false → affine acc = Some (x, y) → residue p256_n r →
  yields (E:=E) (z_inv ← invert P (pt_z acc);
          z_inv2 ← mod_mul P z_inv z_inv;
          xm ← mod_mul P (pt_x acc) z_inv2;
          x ← leave_mont P xm;
          Ok (bool_decide (reduce_once x = r)))
    (λ b, b = true ↔ Zmod.unsigned x mod p256_n = value r).
Proof.
  intros Hok Hz Ha Hr. destruct (affine_finite acc Hok Hz) as [Hn Haf]. rewrite Haf in Ha. injection Ha as <- <-.
  destruct Hok as (Hx & Hy & Hpz).
  eapply (computes_bind p256_p); [by apply (invert_computes P p256_p)|]. intros zi Hzi Ezi.
  do 2 field_op. elements.
  match goal with H : residue _ ?c, He : element _ ?c = (el (pt_x acc) * _)%Zmod |- _ =>
    destruct (leave_computes (E:=E) P p256_p c H) as (v & -> & Hv & Ev); rewrite He in Ev end.
  cbn [mbind outcome_bind]. apply yields_value.
  assert (Exy : Zmod.of_Z p256_p (value v) = Zmod.mdiv (el (pt_x acc)) (el (pt_z acc) * el (pt_z acc))%Zmod).
  { rewrite Ev. field. done. }
  rewrite <- (value_of_Z p256_p v _ Hv Exy). destruct (reduce_once_spec v (proj1 Hv)) as [Hrv Hvv].
  rewrite bool_decide_eq_true, <- Hvv. split; [by intros ->|]. intros Heq.
  apply value_inj; [|apply Hrv|apply Hr|done]. by rewrite (proj1 (proj1 Hrv)), (proj1 (proj1 Hr)).
Qed.

Ltac order_op := eapply (computes_bind p256_n); [apply (enter_computes N p256_n)|apply (invert_computes N p256_n)].

Lemma one_value : Zmod.of_Z p256_p (value ONE) = Zmod.one.
Proof. done. Qed.

(** The whole of [verify_prehash] behind its range checks. *)
Lemma verify_core {E} key z r s :
  key_ok key → residue p256_n z → residue p256_n r → residue p256_n s → is_zero s = false →
  let w := Zmod.inv (Zmod.of_Z p256_n (value s)) in
  let u1 := Zmod.unsigned (Zmod.of_Z p256_n (value z) * w)%Zmod in
  let u2 := Zmod.unsigned (Zmod.of_Z p256_n (value r) * w)%Zmod in
  yields (E:=E)
    (sm ← enter_mont N s;
     w ← invert N sm;
     u1 ← mod_mul N z w;
     u2 ← mod_mul N r w;
     one ← enter_mont P ONE;
     gx ← enter_mont P GX;
     gy ← enter_mont P GY;
     let g := mk_Point gx gy one in
     qx ← enter_mont P (vk_x key);
     qy ← enter_mont P (vk_y key);
     let q := mk_Point qx qy one in
     gq ← point_add g q;
     acc ← ladder_loop 256 u1 u2 g q gq INFINITY;
     if is_zero (pt_z acc) then Ok false
     else
       z_inv ← invert P (pt_z acc);
       z_inv2 ← mod_mul P z_inv z_inv;
       xm ← mod_mul P (pt_x acc) z_inv2;
       x ← leave_mont P xm;
       Ok (bool_decide (reduce_once x = r)))
    (λ b, b = true ↔
      match aff_ladder 256 u1 u2 generator
              (Some (Zmod.of_Z p256_p (value (vk_x key)), Zmod.of_Z p256_p (value (vk_y key)))) None with
      | Some (x, _) => Zmod.unsigned x mod p256_n = value r
      | None => False
      end).
Proof.
  intros [Hkx Hky] Hz Hr Hs Hs0 w u1 u2.
  eapply (computes_bind p256_n); [by apply (enter_computes N p256_n)|]. intros sm Hsm Esm.
  assert (Hsm0 : is_zero sm = false).
  { apply not_true_iff_false. intros H0. apply (element_zero N p256_n sm Hsm) in H0. rewrite Esm in H0.
    pose proof (residue_value p256_n s Hs). apply (f_equal Zmod.unsigned) in H0. rewrite Zmod.unsigned_of_Z_small in H0 by done.
    apply (proj2 (is_zero_value s (proj2 (proj1 Hs)))) in H0. congruence. }
  eapply (computes_bind p256_n); [by apply (invert_computes N p256_n)|]. intros lw Hlw Elw. rewrite Esm in Elw. fold w in Elw.
  destruct (mul_plain (E:=E) N p256_n z lw Hz Hlw) as (l1 & -> & Hl1 & E1). cbn [mbind outcome_bind].
  destruct (mul_plain (E:=E) N p256_n r lw Hr Hlw) as (l2 & -> & Hl2 & E2). cbn [mbind outcome_bind].
  rewrite Elw in E1, E2. apply (value_of_Z p256_n) in E1, E2; [|done|done]. fold u1 in E1. fold u2 in E2.
  pose proof (one_residue P p256_p). pose proof GX_residue. pose proof GY_residue.
  do 3 enter_op. cbv zeta. do 2 enter_op.
  repeat match goal with H : element _ _ = _ |- _ => progress (rewrite ?one_value in H) end.
  match goal with He1 : element _ ?one = Zmod.one |- context [point_add (mk_Point ?gx ?gy _) (mk_Point ?qx ?qy _)] =>
    destruct (affine_of_plain gx gy one) as [Hg Ag]; [done..|];
    destruct (affine_of_plain qx qy one) as [Hq Aq]; [done..|] end.
  eapply yields_seq; [by apply point_add_spec|]. intros gq [Hgq Agq].
  assert (Hn : (256 <= 32 * 8)%nat) by (apply Nat.leb_le; reflexivity). revert Hn. generalize 256%nat. intros n Hn.
  eapply yields_seq.
  { apply (ladder_spec n l1 l2); [exact (proj2 (proj1 Hl1))|exact (proj2 (proj1 Hl2))|..|exact Agq|exact infinity_ok];
      [by rewrite (proj1 (proj1 Hl1))|by rewrite (proj1 (proj1 Hl2))|done..]. }
  intros acc [Hacc Aacc]. rewrite Ag, Aq, E1, E2, (affine_infinity _ infinity_ok) in Aacc by done.
  repeat match goal with H : element _ _ = _ |- _ => rewrite H in Aacc; clear H end.
  fold generator in Aacc. rewrite <- Aacc. destruct (is_zero (pt_z acc)) eqn:Hz0.
  - rewrite (affine_infinity acc Hacc Hz0). by apply yields_value.
  - destruct (affine_finite acc Hacc Hz0) as [_ Af]. rewrite Af. by apply (abscissa_spec acc r _ _ Hacc Hz0 Af).
Qed.

Lemma verify_spec {E} key digest r s :
  key_ok key → octets 32 digest → octets 32 r → octets 32 s →
  yields (verify_prehash (E:=E) key digest r s) (λ b,
    b = true ↔ ecdsa_verify (value (vk_x key)) (value (vk_y key)) (be_value digest) (be_value r) (be_value s)).
Proof.
  intros Hk Hd Hr Hs. unfold verify_prehash.
  destruct (from_be_spec digest Hd) as [Hld Hvd], (from_be_spec r Hr) as [Hlr Hvr], (from_be_spec s Hs) as [Hls Hvs].
  rewrite <- Hvd, <- Hvr, <- Hvs. revert Hld Hlr Hls. clear Hvd Hvr Hvs. generalize (from_be digest) (from_be r) (from_be s).
  clear digest r s Hd Hr Hs. intros d r s Hld Hlr Hls. cbv zeta.
  pose proof (is_zero_value r (proj2 Hlr)) as Zr. pose proof (is_zero_value s (proj2 Hls)) as Zs.
  pose proof (less_residue N p256_n r Hlr) as Lr. pose proof (less_residue N p256_n s Hls) as Ls.
  pose proof (value_bound r (proj2 Hlr)) as Br. pose proof (value_bound s (proj2 Hls)) as Bs.
  destruct (is_zero r || is_zero s || negb (less r (md_m N)) || negb (less s (md_m N))) eqn:Hbad.
  - apply yields_value. split; [done|]. intros (Hr & Hs & _). exfalso.
    rewrite (proj2 Lr), (proj2 Ls), !orb_false_r in Hbad by (split; [done|lia]).
    apply orb_true_iff in Hbad as [H|H]; [apply Zr in H|apply Zs in H]; lia.
  - rewrite !orb_false_iff, !negb_false_iff in Hbad. destruct Hbad as [[[Zr0 Zs0] Lr0] Ls0].
    apply Lr in Lr0. apply Ls in Ls0. destruct (reduce_once_spec d Hld) as [Hrd Hvd].
    assert (Hr0 : 0 < value r) by (destruct (Z.eq_dec (value r) 0) as [H0|]; [apply Zr in H0; congruence|lia]).
    assert (Hs0 : 0 < value s) by (destruct (Z.eq_dec (value s) 0) as [H0|]; [apply Zs in H0; congruence|lia]).
    pose proof (conj Hr0 (proj2 (residue_value p256_n r Lr0))) as Ir. pose proof (conj Hs0 (proj2 (residue_value p256_n s Ls0))) as Is.
    destruct (verify_core (E:=E) key (reduce_once d) r s Hk Hrd Lr0 Ls0 Zs0) as (b & Hb & Hiff).
    exists b. split; [exact Hb|]. rewrite Hiff. rewrite Hvd, Zmod.of_Z_mod. unfold ecdsa_verify.
    split; [intros Hm; exact (conj Ir (conj Is Hm))|intros Hm; exact (proj2 (proj2 Hm))].
Qed.

(** ** DER signatures *)

(** The shortest encoding of a non-negative integer. *)
Fixpoint strip (l : list Z) : list Z :=
  match l with [] => [] | x :: l' => if x =? 0 then strip l' else l end.
Definition der_magnitude (scalar : list Z) : list Z :=
  match strip scalar with
  | [] => [0]
  | x :: l => if 0x80 <=? x then 0 :: x :: l else x :: l
  end.
Definition der_integer (scalar : list Z) : list Z :=
  0x02 :: Z.of_nat (length (der_magnitude scalar)) :: der_magnitude scalar.
Definition der_signature (r s : list Z) : list Z :=
  let body := der_integer r ++ der_integer s in 0x30 :: Z.of_nat (length body) :: body.

Lemma top_bit x : is_u8 x → has_bits x 0x80 = (0x80 <=? x).
Proof.
  intros Hx. change 0x80 with (Z.shiftl 1 7) at 1. rewrite has_bits_testbit by lia. unfold is_u8 in Hx.
  rewrite Z.testbit_eqb by lia. change (2 ^ 7) with 128. destruct (Z.leb_spec 128 x).
  - replace (x / 128) with 1 by (apply Z.div_unique with (x - 128); lia). done.
  - by rewrite Z.div_small by lia.
Qed.

Lemma strip_zeros k l : strip (replicate k 0 ++ l) = strip l.
Proof. by induction k. Qed.

Lemma strip_split l : l = replicate (length l - length (strip l)) 0 ++ strip l ∧ (length (strip l) <= length l)%nat.
Proof.
  induction l as [|x l [IH Hle]]; [done|]. cbn [strip]. destruct (Z.eqb_spec x 0) as [->|].
  - cbn [length]. split; [|lia]. replace (S (length l) - length (strip l))%nat with (S (length l - length (strip l))) by lia.
    cbn [replicate app]. by rewrite <- IH.
  - split; [|lia]. by rewrite Nat.sub_diag.
Qed.

Lemma strip_head l x l' : strip l = x :: l' → x ≠ 0.
Proof.
  induction l as [|y l IH]; [done|]. cbn [strip]. destruct (Z.eqb_spec y 0); [done|]. intros [= <- _]. done.
Qed.

Lemma der_integer_sound input scalar rest :
  Forall is_u8 input → parse_der_integer input = Some (scalar, rest) → octets 32 scalar ∧ input = der_integer scalar ++ rest.
Proof.
  intros Hu. destruct input as [|tag [|len_ body]]; [done|done|]. cbn [parse_der_integer].
  apply Forall_cons in Hu as [_ Hu]. apply Forall_cons in Hu as [Hl Hu]. unfold is_u8 in Hl.
  destruct (Z.eqb_spec tag 2) as [->|]; [|done]. cbn [negb orb].
  set (len := Z.to_nat len_). destruct (Nat.eqb_spec len 0); [done|]. destruct (Nat.ltb_spec 33 len); [done|].
  destruct (Nat.ltb_spec (length body) len); [done|]. cbn [orb].
  assert (Hbody : body = take len body ++ drop len body) by (by rewrite take_drop).
  assert (Hlt : length (take len body) = len) by (rewrite length_take; lia).
  assert (Hut : Forall is_u8 (take len body)) by (by apply Forall_take).
  replace len_ with (Z.of_nat len) by (unfold len; lia). clear Hl. clearbody len.
  revert Hbody Hlt Hut. generalize (take len body) (drop len body). intros v rest' -> <- Hut. clear Hu.
  destruct v as [|x v]; [done|]. cbn [lookup_total list_lookup_total]. apply Forall_cons in Hut as [Hx Hut].
  rewrite top_bit by done. destruct (Z.leb_spec 128 x) as [|Hx128]; [done|].
  assert (Hoct : ∀ l, (length l <= 32)%nat → Forall is_u8 l → octets 32 (replicate (32 - length l) 0 ++ l)).
  { intros l Hl Hul. split; [rewrite length_app, length_replicate; lia|]. apply Forall_app. split; [|done].
    apply Forall_replicate. unfold is_u8. lia. }
  unfold der_integer, der_magnitude.
  destruct (Z.eqb_spec x 0) as [->|Hx0]; cbn [andb].
  - destruct v as [|y v].
    + cbn [length Nat.ltb]. simpl. intros [= <- <-]. split; [|done]. apply (Hoct [0]); [simpl; lia|by repeat constructor].
    + change (1 <? length (0%Z :: y :: v))%nat with true. cbn [andb drop].
      apply Forall_cons in Hut as [Hy Hut]. change ((y :: v) !!! 0%nat) with y. rewrite top_bit by done. destruct (Z.leb_spec 128 y); [|done]. cbn [negb].
      destruct (Nat.ltb_spec 32 (length (y :: v))) as [|H32]; [done|]. intros [= <- <-].
      split; [apply (Hoct (y :: v)); [lia|by constructor]|]. rewrite strip_zeros. cbn [strip].
      destruct (Z.eqb_spec y 0); [lia|]. destruct (Z.leb_spec 128 y); [|lia]. done.
  - destruct (Nat.ltb_spec 32 (length (x :: v))) as [|H32]; [done|]. intros [= <- <-].
    split; [apply (Hoct (x :: v)); [lia|by constructor]|]. rewrite strip_zeros. cbn [strip].
    destruct (Z.eqb_spec x 0); [done|]. destruct (Z.leb_spec 128 x); [lia|]. done.
Qed.

Lemma parse_der_value v rest :
  (0 < length v <= 33)%nat →
  parse_der_integer (0x02 :: Z.of_nat (length v) :: v ++ rest) =
    if has_bits (v !!! 0%nat) 0x80 then None
    else
      let padded := (v !!! 0%nat =? 0) && (1 <? length v)%nat in
      if padded && negb (has_bits (v !!! 1%nat) 0x80) then None
      else
        let value := if padded then drop 1 v else v in
        if (32 <? length value)%nat then None else Some (replicate (32 - length value) 0 ++ value, rest).
Proof.
  intros Hl. cbn [parse_der_integer]. rewrite Nat2Z.id, take_app_length, drop_app_length.
  rewrite (proj2 (Nat.eqb_neq _ _)), (proj2 (Nat.ltb_ge 33 _)), (proj2 (Nat.ltb_ge _ (length v))) by (rewrite ?length_app; lia).
  done.
Qed.

Lemma der_integer_complete scalar rest : octets 32 scalar → parse_der_integer (der_integer scalar ++ rest) = Some (scalar, rest).
Proof.
  intros [Hl Hu]. destruct (strip_split scalar) as [Hs Hle]. rewrite Hl in Hs, Hle.
  assert (Hus : Forall is_u8 (strip scalar)) by (rewrite Hs in Hu; by apply Forall_app in Hu as [_ ?]).
  unfold der_integer, der_magnitude. pose proof (strip_head scalar) as Hh.
  destruct (strip scalar) as [|x l]; [by rewrite Hs|].
  specialize (Hh x l eq_refl). apply Forall_cons in Hus as [Hx Hul]. simpl in Hle. rewrite Hs. cbn [app].
  destruct (Z.leb_spec 128 x) as [H128|H128]; rewrite parse_der_value by (simpl; lia);
    cbn [lookup_total list_lookup_total length]; cbv zeta; rewrite !top_bit by (done || (unfold is_u8; lia)).
  - rewrite (proj2 (Z.leb_le 128 x)) by lia. cbn [negb andb Z.eqb Z.leb Z.compare].
    destruct (Nat.ltb_spec 1 (S (S (length l)))); [|lia]. cbn [andb drop].
    by destruct (Nat.ltb_spec 32 (length (x :: l))) as [Hbig|]; [simpl in Hbig; lia|].
  - rewrite (proj2 (Z.leb_gt 128 x)) by lia. destruct (Z.eqb_spec x 0); [done|]. cbn [andb].
    by destruct (Nat.ltb_spec 32 (length (x :: l))) as [Hbig|]; [simpl in Hbig; lia|].
Qed.

Lemma der_integer_length scalar : octets 32 scalar → (length (der_integer scalar) <= 35)%nat.
Proof.
  intros [Hl _]. destruct (strip_split scalar) as [_ Hle]. unfold der_integer, der_magnitude.
  destruct (strip scalar) as [|x l]; [simpl; lia|]. simpl in Hle. destruct (0x80 <=? x); simpl; lia.
Qed.

(** * The theorems *)

(** C9. The signature check of the boot loader is ECDSA over P-256: the 256-bit
    arithmetic on eight limbs never leaves its machine width, a public key is
    accepted exactly when its coordinates are below the field prime and lie on
    the curve, and with such a key a signature is accepted exactly when its
    scalars are in range and the abscissa of [u1 G + u2 Q], computed by the
    chord and tangent rules in affine coordinates over the prime field, is [r]
    modulo the group order.  Both moduli are proved prime. *)
Theorem signature_check_is_ecdsa {E} (xy digest r s : list Z) :
  octets 64 xy → octets 32 digest → octets 32 r → octets 32 s →
  let x := be_value (take 32 xy) in let y := be_value (drop 32 xy) in
  ∃ k, from_xy (E:=E) xy = Ok k ∧
    (is_Some k ↔ x < p256_p ∧ y < p256_p ∧ on_curve (Zmod.of_Z p256_p x) (Zmod.of_Z p256_p y)) ∧
    ∀ key, k = Some key → ∃ b, verify_prehash (E:=E) key digest r s = Ok b ∧
      (b = true ↔ ecdsa_verify x y (be_value digest) (be_value r) (be_value s)).
Proof.
  intros Hxy Hd Hr Hs x y. destruct (from_xy_spec (E:=E) xy Hxy) as (k & Hk & Hspec). fold x y in Hspec.
  exists k. split; [exact Hk|]. destruct k as [key|].
  - destruct Hspec as (Hok & Hx & Hy & Hc). split.
    + split; [|intros _; by exists key]. intros _. rewrite <- Hx, <- Hy in Hc |- *.
      split; [apply Hok|]. split; [apply Hok|exact Hc].
    + intros key' [= <-]. destruct (verify_spec (E:=E) key digest r s Hok Hd Hr Hs) as (b & Hb & Hiff).
      exists b. split; [exact Hb|]. rewrite <- Hx, <- Hy. exact Hiff.
  - split; [|intros key [=]]. split; [intros [? [=]]|intros H; by destruct (Hspec H)].
Qed.

Lemma signature_check_is_ecdsa_witness :
  let xy := replicate 64 7 in
  ∃ k, from_xy (E:=unit) xy = Ok k ∧
    (is_Some k ↔ be_value (take 32 xy) < p256_p ∧ be_value (drop 32 xy) < p256_p ∧
       on_curve (Zmod.of_Z p256_p (be_value (take 32 xy))) (Zmod.of_Z p256_p (be_value (drop 32 xy)))).
Proof.
  intros xy. assert (Ho : ∀ n, octets n (replicate n 7)).
  { intros n. split; [apply length_replicate|apply Forall_replicate]. unfold is_u8. lia. }
  destruct (signature_check_is_ecdsa (E:=unit) xy (replicate 32 7) (replicate 32 7) (replicate 32 7) (Ho 64%nat) (Ho 32%nat)
    (Ho 32%nat) (Ho 32%nat)) as (k & Hk & Hiff & _).
  exists k. split; [exact Hk|exact Hiff].
Defined.

(** C38. The parser of DER signatures accepts exactly the shortest encodings: it
    returns two scalars if and only if the octets are the one DER encoding of
    them, so no signature has two accepted forms. *)
Theorem der_signature_exact (der r s : list Z) :
  Forall is_u8 der →
  parse_der_signature der = Some (r, s) ↔ octets 32 r ∧ octets 32 s ∧ der = der_signature r s.
Proof.
  intros Hu. split.
  - destruct der as [|tag [|len body]]; [done|done|]. cbn [parse_der_signature].
    apply Forall_cons in Hu as [_ Hu]. apply Forall_cons in Hu as [_ Hu].
    destruct (Z.eqb_spec tag 0x30) as [->|]; [|done]. destruct (Z.eqb_spec len (Z.of_nat (length body))) as [->|]; [|done].
    destruct (0x80 <=? _); [done|]. cbn [negb orb].
    destruct (parse_der_integer body) as [[r' rest]|] eqn:Hr; [|done]. cbn [mbind option_bind].
    apply der_integer_sound in Hr as [Hro ->]; [|done]. apply Forall_app in Hu as [_ Hu].
    destruct (parse_der_integer rest) as [[s' rest']|] eqn:Hs; [|done]. cbn [mbind option_bind].
    apply der_integer_sound in Hs as [Hso ->]; [|done]. destruct rest' as [|]; [|done]. intros [= <- <-].
    rewrite app_nil_r. done.
  - intros (Hr & Hs & ->). unfold der_signature. cbn [parse_der_signature].
    pose proof (der_integer_length r Hr). pose proof (der_integer_length s Hs).
    rewrite !Z.eqb_refl. destruct (Z.leb_spec 0x80 (Z.of_nat (length (der_integer r ++ der_integer s)))) as [Hbig|_];
      [rewrite length_app in Hbig; lia|]. cbn [negb orb Z.eqb Pos.eqb].
    rewrite der_integer_complete by done. cbn [mbind option_bind].
    rewrite <- (app_nil_r (der_integer s)), der_integer_complete by done. done.
Qed.

Lemma der_signature_exact_witness :
  parse_der_signature [0x30; 7; 2; 2; 0; 200; 2; 1; 5] = Some (replicate 31 0 ++ [200], replicate 31 0 ++ [5]) ∧
  [0x30; 7; 2; 2; 0; 200; 2; 1; 5] = der_signature (replicate 31 0 ++ [200]) (replicate 31 0 ++ [5]).
Proof.
  assert (Hp : parse_der_signature [0x30; 7; 2; 2; 0; 200; 2; 1; 5] = Some (replicate 31 0 ++ [200], replicate 31 0 ++ [5]))
    by reflexivity.
  split; [exact Hp|]. apply der_signature_exact; [|exact Hp]. repeat constructor; unfold is_u8; lia.
Defined.
