(* ===== verification/BootImage.v ===== *)
(** * BootImage: signed images in flash

    [mcuboot-image/src/image.rs] and [trailer.rs]: the MCUboot image header,
    the TLV area, validation against flash, and the upgrade request at the end
    of a slot.  [sha2] is not part of the repository: it is the class [Sha256],
    a hasher fed chunk by chunk.  The signature scheme is the class
    [SignatureScheme], of which [P256Curve] is the instance [p256_scheme]. *)

From Stdlib Require Import Zmod.
From S2P Require Import Prelude Effects NvStorage LogNv Primes P256 P256Field P256Curve.

Local Open Scope Z_scope.

Definition IMAGE_MAGIC : Z := 0x96F3B83D.
Definition IMAGE_HEADER_LEN : nat := 32.
Definition TLV_INFO_MAGIC : Z := 0x6907.
Definition TLV_PROTECTED_INFO_MAGIC : Z := 0x6908.
Definition TLV_KEYHASH : Z := 0x01.
Definition TLV_SHA256 : Z := 0x10.
Definition TLV_ECDSA_SIG : Z := 0x22.

Definition P256_SPKI_PREFIX : list Z :=
  [0x30; 0x59; 0x30; 0x13; 0x06; 0x07; 0x2A; 0x86; 0x48; 0xCE; 0x3D; 0x02; 0x01; 0x06; 0x08; 0x2A;
   0x86; 0x48; 0xCE; 0x3D; 0x03; 0x01; 0x07; 0x03; 0x42; 0x00; 0x04].

Definition READ_CHUNK : Z := 128.

Inductive ImageError := Flash | NoImage | Malformed | Unsupported | HashMismatch | BadSignature.
#[export] Instance ImageError_eq_dec : EqDecision ImageError.
Proof. solve_decision. Defined.

Record ImageVersion := mk_ImageVersion { iv_major : Z; iv_minor : Z; iv_revision : Z; iv_build : Z }.

(** [cmp_release(..).is_lt()]: major, minor and revision in this order. *)
Definition release_lt (a b : ImageVersion) : bool :=
  (iv_major a <? iv_major b)
  || ((iv_major a =? iv_major b)
      && ((iv_minor a <? iv_minor b) || ((iv_minor a =? iv_minor b) && (iv_revision a <? iv_revision b)))).

Record ImageHeader := mk_ImageHeader {
  ih_load_addr : Z; ih_hdr_size : Z; ih_protect_tlv_size : Z; ih_img_size : Z; ih_flags : Z;
  ih_version : ImageVersion }.

(** [ImageHeader::parse]; the array has 32 octets. *)
Definition header_parse (bytes : list Z) : option ImageHeader :=
  let u32_at at_ := u32_from_le (bytes !!! at_) (bytes !!! (at_ + 1)%nat) (bytes !!! (at_ + 2)%nat) (bytes !!! (at_ + 3)%nat) in
  let u16_at at_ := u16_from_le (bytes !!! at_) (bytes !!! (at_ + 1)%nat) in
  if negb (u32_at 0%nat =? IMAGE_MAGIC) then None
  else Some (mk_ImageHeader (u32_at 4%nat) (u16_at 8%nat) (u16_at 10%nat) (u32_at 12%nat) (u32_at 16%nat)
               (mk_ImageVersion (bytes !!! 20%nat) (bytes !!! 21%nat) (u16_at 22%nat) (u32_at 24%nat))).

Definition tlv_offset {E} (h : ImageHeader) : outcome E Z :=
  x ← add_u32 (ih_hdr_size h) (ih_img_size h); add_u32 x (ih_protect_tlv_size h).

Record TrustedKey := mk_TrustedKey { tk_xy : list Z }.

Record ValidImage := mk_ValidImage { vi_header : ImageHeader; vi_end : Z; vi_digest : list Z }.

(** [a.checked_add(b)] on [u32] *)
Definition checked_add_u32 (a b : Z) : option Z := if a + b <? 4294967296 then Some (a + b) else None.

(** ** Interfaces *)

Class Sha256 := {
  Hasher : Type;
  sha_new : Hasher;
  sha_update : Hasher → list Z → Hasher;
  sha_finalize : Hasher → list Z }.

(** A public key from its coordinates, and the check of a signature on a
    digest. *)
Class SignatureScheme := {
  SchemeKey : Type;
  scheme_from_xy : list Z → outcome ImageError (option SchemeKey);
  scheme_verify : SchemeKey → list Z → list Z → list Z → outcome ImageError bool }.

#[export] Instance p256_scheme : SignatureScheme := {
  scheme_from_xy := from_xy;
  scheme_verify := verify_prehash }.

(** [flash.read(address, buffer).map_err(|_| e)?] *)
Definition read_or {F} {HF : NorFlash F} {E} (e : E) (address : Z) (n : nat) : stm F E (list Z) := λ f,
  match flash_read address n f with
  | (Some bytes, f) => (Ok bytes, f)
  | (None, f) => (Err e, f)
  end.

Section Image.
Context {F : Type} {HF : NorFlash F} {HS : Sha256} {HK : SignatureScheme}.
Local Abbreviation io := (stm F ImageError).

Definition image_read (address : Z) (n : nat) : io (list Z) := read_or Flash address n.

(** [ImageHeader::read] *)
Definition header_read (slot : Z) : io (option ImageHeader) :=
  bytes ← image_read slot IMAGE_HEADER_LEN; mret (header_parse bytes).

Definition key_hash (key : TrustedKey) : list Z :=
  sha_finalize (sha_update (sha_update sha_new P256_SPKI_PREFIX) (tk_xy key)).

Definition read_array (len : nat) (slot offset limit : Z) : io (list Z) :=
  match checked_add_u32 offset (Z.of_nat len) with
  | Some end_ =>
      if limit <? end_ then throw Malformed
      else address ← lift (add_u32 slot offset); image_read address len
  | None => throw Malformed
  end.

Fixpoint hash_loop (fuel : nat) (slot len offset : Z) (hasher : Hasher) : io Hasher :=
  if len <=? offset then mret hasher
  else
    match fuel with
    | O => lift Panic
    | S fuel =>
        let chunk := Z.min READ_CHUNK (len - offset) in
        address ← lift (add_u32 slot offset);
        data ← image_read address (Z.to_nat chunk);
        offset ← lift (add_u32 offset chunk);
        hash_loop fuel slot len offset (sha_update hasher data)
    end.

Definition hash_range (slot len : Z) : io (list Z) :=
  hasher ← hash_loop (S (Z.to_nat (len / READ_CHUNK))) slot len 0 sha_new;
  mret (sha_finalize hasher).

(** What the TLV entries so far established. *)
Record TlvState := mk_TlvState { ts_hash_ok : bool; ts_key_selected : bool; ts_signature_ok : bool }.

(** One TLV entry: its kind, its length and where its value is. *)
Definition tlv_entry (slot end_ : Z) (digest key_hash : list Z) (verifying_key : option SchemeKey)
    (kind length value_at : Z) (s : TlvState) : io TlvState :=
  if kind =? TLV_SHA256 then
    if negb (length =? 32) then throw Malformed
    else value ← read_array 32 slot value_at end_;
         mret (mk_TlvState (bool_decide (value = digest)) (ts_key_selected s) (ts_signature_ok s))
  else if kind =? TLV_KEYHASH then
    selected ← (if length =? 32 then value ← read_array 32 slot value_at end_; mret (bool_decide (value = key_hash))
                else mret false);
    mret (mk_TlvState (ts_hash_ok s) selected (ts_signature_ok s))
  else if (kind =? TLV_ECDSA_SIG) && ts_key_selected s && negb (ts_signature_ok s) then
    signature_ok ←
      (if length <=? 72 then
         address ← lift (add_u32 slot value_at);
         der ← image_read address (Z.to_nat length);
         match verifying_key, parse_der_signature der with
         | Some key, Some (r, s') => lift (scheme_verify key digest r s')
         | _, _ => mret (ts_signature_ok s)
         end
       else mret (ts_signature_ok s));
    mret (mk_TlvState (ts_hash_ok s) false signature_ok)
  else mret s.

Fixpoint tlv_loop (fuel : nat) (slot end_ : Z) (digest key_hash : list Z) (verifying_key : option SchemeKey)
    (offset : Z) (s : TlvState) : io TlvState :=
  if end_ <=? offset then mret s
  else
    match fuel with
    | O => lift Panic
    | S fuel =>
        entry ← read_array 4 slot offset end_;
        let kind := u16_from_le (entry !!! 0%nat) (entry !!! 1%nat) in
        let length := u16_from_le (entry !!! 2%nat) (entry !!! 3%nat) in
        value_at ← lift (add_u32 offset 4);
        match checked_add_u32 value_at length with
        | Some next =>
            if end_ <? next then throw Malformed
            else
              s ← tlv_entry slot end_ digest key_hash verifying_key kind length value_at s;
              tlv_loop fuel slot end_ digest key_hash verifying_key next s
        | None => throw Malformed
        end
    end.

Definition validate (slot max_len : Z) (key : TrustedKey) : io ValidImage :=
  found ← header_read slot;
  match found with
  | None => throw NoImage
  | Some header =>
      if negb (ih_flags header =? 0) then throw Unsupported
      else if ih_hdr_size header <? Z.of_nat IMAGE_HEADER_LEN then throw Malformed
      else
        match checked_add_u32 (ih_hdr_size header) (ih_img_size header)
              ≫= (λ end_, checked_add_u32 end_ (ih_protect_tlv_size header)) with
        | None => throw Malformed
        | Some hashed_len =>
            tlv_info ← read_array 4 slot hashed_len max_len;
            if negb (u16_from_le (tlv_info !!! 0%nat) (tlv_info !!! 1%nat) =? TLV_INFO_MAGIC) then throw Malformed
            else
              let tlv_total := u16_from_le (tlv_info !!! 2%nat) (tlv_info !!! 3%nat) in
              match checked_add_u32 hashed_len tlv_total with
              | Some end_ =>
                  if negb ((end_ <=? max_len) && (4 <=? tlv_total)) then throw Malformed
                  else
                    protected_ok ←
                      (if negb (ih_protect_tlv_size header =? 0) then
                         let start := hashed_len - ih_protect_tlv_size header in
                         info ← read_array 4 slot start max_len;
                         mret ((u16_from_le (info !!! 0%nat) (info !!! 1%nat) =? TLV_PROTECTED_INFO_MAGIC)
                               && (u16_from_le (info !!! 2%nat) (info !!! 3%nat) =? ih_protect_tlv_size header))
                       else mret true);
                    if negb protected_ok then throw Malformed
                    else
                      digest ← hash_range slot hashed_len;
                      verifying_key ← lift (scheme_from_xy (tk_xy key));
                      offset ← lift (add_u32 hashed_len 4);
                      s ← tlv_loop (Z.to_nat tlv_total) slot end_ digest (key_hash key) verifying_key offset
                            (mk_TlvState false false false);
                      if negb (ts_hash_ok s) then throw HashMismatch
                      else if negb (ts_signature_ok s) then throw BadSignature
                      else mret (mk_ValidImage header end_ digest)
              | None => throw Malformed
              end
        end
  end.
End Image.

(** * The upgrade request *)

Definition BOOT_MAGIC : list Z :=
  [0x77; 0xC2; 0x95; 0xF3; 0x60; 0xD2; 0xEF; 0x7F; 0x35; 0x52; 0x50; 0x0F; 0x2C; 0xB6; 0x79; 0x80].
Definition BOOT_MAGIC_LEN : Z := 16.

Inductive MagicState := Good | Erased | Other.
#[export] Instance MagicState_eq_dec : EqDecision MagicState.
Proof. solve_decision. Defined.

Definition classify (bytes : list Z) : MagicState :=
  if bool_decide (bytes = BOOT_MAGIC) then Good else if forallb (Z.eqb 0xFF) bytes then Erased else Other.

(** [slot + slot_size - BOOT_MAGIC_LEN] on [u32] *)
Definition magic_address {E} (slot slot_size : Z) : outcome E Z :=
  x ← add_u32 slot slot_size; sub_u32 x BOOT_MAGIC_LEN.

Definition read_magic {F} {HF : NorFlash F} {E} (e : E) (slot slot_size : Z) : stm F E MagicState :=
  address ← lift (magic_address slot slot_size);
  bytes ← read_or e address 16;
  mret (classify bytes).

(** * What is relied on *)

Class LawfulSha {HS : Sha256} := {
  sha256 : list Z → list Z;
  sha_chunks chunks : sha_finalize (foldl sha_update sha_new chunks) = sha256 (concat chunks);
  sha_digest l : octets 32 (sha256 l) }.

(** The scheme returns for the octets the code gives it. *)
Class LawfulScheme {HK : SignatureScheme} : Prop := {
  ls_from_xy xy : octets 64 xy → ∃ k, scheme_from_xy xy = Ok k;
  ls_verify xy k d r s :
    octets 64 xy → scheme_from_xy xy = Ok (Some k) → octets 32 d → octets 32 r → octets 32 s →
    ∃ b, scheme_verify k d r s = Ok b }.

#[export] Instance p256_lawful : LawfulScheme (HK:=p256_scheme).
Proof.
  split.
  - intros xy Hxy. destruct (from_xy_spec (E:=ImageError) xy Hxy) as (k & Hk & _). by exists k.
  - intros xy k d r s Hxy Hk Hd Hr Hs. destruct (from_xy_spec (E:=ImageError) xy Hxy) as (k' & Hk' & Hok).
    simpl in Hk. rewrite Hk in Hk'. injection Hk' as <-. destruct Hok as [Hok _].
    destruct (verify_spec (E:=ImageError) k d r s Hok Hd Hr Hs) as (b & Hb & _). by exists b.
Qed.

(** The octets between [a] and [a + n] may differ. *)
Definition changed_in (l l' : list Z) (a n : nat) : Prop :=
  length l' = length l ∧ ∀ i, (i < a ∨ a + n <= i)%nat → l' !! i = l !! i.

(** A flash device: a read returns the octets of its range, a completed erase
    leaves ones, a completed write to erased octets stores the data, and no
    operation, completed or interrupted, changes anything outside its range. *)
Class BootFlash (F : Type) {HF : NorFlash F} (bytes : F → list Z) : Prop := {
  bf_octets f : Forall is_u8 (bytes f);
  bf_size f : Z.of_nat (length (bytes f)) < 4294967296;
  bf_write_size : (0 < WRITE_SIZE)%nat;
  bf_read f a n r f' :
    flash_read a n f = (r, f') → 0 <= a →
    bytes f' = bytes f ∧
    ∀ l, r = Some l → (Z.to_nat a + n <= length (bytes f))%nat ∧ l = take n (drop (Z.to_nat a) (bytes f));
  bf_write f a d ok f' :
    flash_write a d f = (ok, f') → 0 <= a → Forall is_u8 d →
    changed_in (bytes f) (bytes f') (Z.to_nat a) (length d) ∧
    (ok = true → (Z.to_nat a + length d <= length (bytes f))%nat ∧
      (take (length d) (drop (Z.to_nat a) (bytes f)) = replicate (length d) 0xFF →
       take (length d) (drop (Z.to_nat a) (bytes f')) = d));
  bf_erase f a b ok f' :
    flash_erase a b f = (ok, f') → 0 <= a <= b →
    changed_in (bytes f) (bytes f') (Z.to_nat a) (Z.to_nat (b - a)) ∧
    (ok = true → (Z.to_nat b <= length (bytes f))%nat ∧
      take (Z.to_nat (b - a)) (drop (Z.to_nat a) (bytes f')) = replicate (Z.to_nat (b - a)) 0xFF) }.

(** An operation within the device and on its grid fails only if [fallible]:
    [False] for a device that always completes, [True] for one whose power may
    be cut at any time. *)
Class Reliable (F : Type) {HF : NorFlash F} (bytes : F → list Z) (fallible : Prop) : Prop := {
  rl_read f a n f' :
    flash_read a n f = (None, f') → 0 <= a → a + Z.of_nat n <= Z.of_nat (length (bytes f)) → fallible;
  rl_write f a d f' :
    flash_write a d f = (false, f') → 0 <= a → a + Z.of_nat (length d) <= Z.of_nat (length (bytes f)) →
    (Z.of_nat WRITE_SIZE | a) → (Z.of_nat WRITE_SIZE | Z.of_nat (length d)) → fallible;
  rl_erase f a b f' :
    flash_erase a b f = (false, f') → 0 <= a <= b → b <= Z.of_nat (length (bytes f)) →
    (Z.of_nat ERASE_SIZE | a) → (Z.of_nat ERASE_SIZE | b) → fallible }.

Lemma any_reliable {F} {HF : NorFlash F} (bytes : F → list Z) : Reliable F bytes True.
Proof. done. Qed.

(** A device whose reads always succeed: its contents. *)
Abbreviation Ram := (list Z).
#[export] Instance Ram_flash : NorFlash Ram := {
  READ_SIZE := 1; WRITE_SIZE := 1; ERASE_SIZE := 1;
  flash_capacity l := length l;
  flash_read a n l := (if (Z.to_nat a + n <=? length l)%nat then Some (take n (drop (Z.to_nat a) l)) else None, l);
  flash_write a d l := (false, l);
  flash_erase a b l := (false, l) }.

(** ** Reading is a function of the contents *)

Section Follows.
Context {F : Type} {HF : NorFlash F} (bytes : F → list Z) {BF : BootFlash F bytes} {HS : Sha256} {HK : SignatureScheme}.
Context (fallible : Prop) {RL : Reliable F bytes fallible}.

(** [m] leaves the contents alone and returns what [m'] returns on them, a
    value in [Q], unless a read fails. *)
Definition follows {A} (Q : A → Prop) (m : stm F ImageError A) (m' : stm Ram ImageError A) : Prop :=
  ∀ f, bytes (m f).2 = bytes f ∧ (m' (bytes f)).2 = bytes f ∧
    (∀ a, (m' (bytes f)).1 = Ok a → Q a) ∧ ((m f).1 = (m' (bytes f)).1 ∨ (m f).1 = Err Flash ∧ fallible).

Lemma follows_ret {A} (Q : A → Prop) a : Q a → follows Q (mret a) (mret a).
Proof. intros Ha f. repeat split; [|by left]. by intros a' [= <-]. Qed.
Lemma follows_lift {A} (Q : A → Prop) (o : outcome ImageError A) : (∀ a, o = Ok a → Q a) → follows Q (lift o) (lift o).
Proof. intros Ha f. by repeat split; [..|left]. Qed.
Lemma follows_throw {A} (Q : A → Prop) e : follows Q (throw e) (throw e).
Proof. intros f. by repeat split; [..|left]. Qed.

Lemma follows_bind {A B} (Q : A → Prop) (Q' : B → Prop) (m : stm F ImageError A) m' (k : A → stm F ImageError B) k' :
  follows Q m m' → (∀ a, Q a → follows Q' (k a) (k' a)) → follows Q' (m ≫= k) (m' ≫= k').
Proof.
  intros Hm Hk f. destruct (Hm f) as (Hb & Hb' & HQ & Hr). cbv [mbind stm_bind].
  destruct (m f) as [r f1], (m' (bytes f)) as [r' l1]. simpl in *. subst l1.
  destruct Hr as [-> | [-> Hfail]].
  - destruct r' as [a|e|]; [|by repeat split; [..|left]|by repeat split; [..|left]].
    destruct (Hk a (HQ a eq_refl) f1) as (Hb1 & Hb2 & HQ' & Hr). rewrite Hb in *. done.
  - simpl. split; [done|]. destruct r' as [a|e|]; [|by repeat split; [..|right]|by repeat split; [..|right]].
    destruct (Hk a (HQ a eq_refl) f1) as (_ & Hb2 & HQ' & _). rewrite Hb in Hb2, HQ'. split; [done|]. split; [done|by right].
Qed.

Lemma follows_weaken {A} (Q Q' : A → Prop) m m' : follows Q m m' → (∀ a, Q a → Q' a) → follows Q' m m'.
Proof. intros Hm HQ f. destruct (Hm f) as (? & ? & Ha & ?). split; [done|]. split; [done|]. split; [|done]. eauto. Qed.

(** [n] octets. *)
Lemma follows_read a n : 0 <= a → follows (octets n) (image_read a n) (image_read a n).
Proof using BF RL.
  intros Ha f. unfold image_read, read_or. destruct (flash_read a n f) as [r f'] eqn:Hr.
  destruct (bf_read f a n r f' Hr Ha) as [Hb Hl]. cbn [flash_read Ram_flash].
  assert (HQ : ∀ l, (if (Z.to_nat a + n <=? length (bytes f))%nat
                     then Some (take n (drop (Z.to_nat a) (bytes f))) else None) = Some l → octets n l).
  { intros l. destruct (Nat.leb_spec (Z.to_nat a + n) (length (bytes f))); [|done]. intros [= <-].
    split; [rewrite length_take, length_drop; lia|]. apply Forall_take, Forall_drop, bf_octets. }
  destruct r as [l|]; simpl.
  - destruct (Hl l eq_refl) as [Hle ->]. rewrite (proj2 (Nat.leb_le _ _)) in * by done.
    split; [done|]. split; [done|]. split; [|by left]. intros l [= <-]. by apply HQ.
  - split; [done|]. destruct (Nat.leb_spec (Z.to_nat a + n) (length (bytes f))); (split; [done|]).
    + split; [intros l [= <-]; by apply HQ|]. right. split; [done|]. apply (rl_read f a n f' Hr Ha). lia.
    + split; [done|by left].
Qed.

Lemma add_u32_Ok {E} a b x : add_u32 (E:=E) a b = Ok x → x = a + b.
Proof. unfold add_u32. case_match; [|done]. by intros [= <-]. Qed.

Lemma checked_add_Some a b x : checked_add_u32 a b = Some x → x = a + b ∧ x < 4294967296.
Proof. unfold checked_add_u32. case_match eqn:Hc; [|done]. intros [= <-]. bool_simpl. lia. Qed.

Lemma follows_add a b : follows (λ x, x = a + b) (lift (add_u32 a b)) (lift (add_u32 a b)).
Proof. apply follows_lift. intros x. apply add_u32_Ok. Qed.

Lemma follows_array n slot offset limit :
  0 <= slot → 0 <= offset → follows (octets n) (read_array n slot offset limit) (read_array n slot offset limit).
Proof using BF RL.
  intros Hs Ho. unfold read_array. destruct (checked_add_u32 _ _) as [e|]; [|apply follows_throw].
  destruct (limit <? e); [apply follows_throw|]. eapply follows_bind; [apply follows_add|]. intros x ->. apply follows_read. lia.
Qed.

Lemma u16_at_range n l i : octets n l → (S i < n)%nat → is_u16 (u16_from_le (l !!! i) (l !!! S i)).
Proof.
  intros [Hl Hu] Hi. apply u16_from_le_range; apply (Forall_lookup_total_1 _ l); try done; lia.
Qed.

Lemma follows_hash fuel slot len offset h :
  0 <= slot → 0 <= offset → follows (λ _, True) (hash_loop fuel slot len offset h) (hash_loop fuel slot len offset h).
Proof using BF RL.
  revert offset h. induction fuel as [|fuel IH]; intros offset h Hs Ho; cbn [hash_loop];
    (destruct (Z.leb_spec len offset); [by apply follows_ret|]); [by apply follows_lift|].
  eapply follows_bind; [apply follows_add|]. intros x ->. eapply follows_bind; [apply follows_read; lia|]. intros d _.
  eapply follows_bind; [apply follows_add|]. intros x ->. apply IH; [done|]. unfold READ_CHUNK. lia.
Qed.

Lemma follows_entry slot end_ digest kh vk kind len at_ s :
  0 <= slot → 0 <= at_ →
  follows (λ _, True) (tlv_entry slot end_ digest kh vk kind len at_ s) (tlv_entry slot end_ digest kh vk kind len at_ s).
Proof using BF RL.
  intros Hs Ha. unfold tlv_entry. destruct (kind =? TLV_SHA256).
  { destruct (negb _); [apply follows_throw|]. eapply follows_bind; [by apply follows_array|]. intros v _. by apply follows_ret. }
  destruct (kind =? TLV_KEYHASH).
  { eapply (follows_bind (λ _, True)); [|intros b _; by apply follows_ret]. destruct (len =? 32); [|by apply follows_ret].
    eapply follows_bind; [by apply follows_array|]. intros v _. by apply follows_ret. }
  destruct (_ && _ && _); [|by apply follows_ret].
  eapply (follows_bind (λ _, True)); [|intros b _; by apply follows_ret]. destruct (len <=? 72); [|by apply follows_ret].
  eapply follows_bind; [apply follows_add|]. intros x ->. eapply follows_bind; [apply follows_read; lia|]. intros der _.
  destruct vk as [k|]; [|by apply follows_ret]. destruct (parse_der_signature der) as [[r s']|]; [|by apply follows_ret].
  by apply follows_lift.
Qed.

Lemma follows_tlv fuel slot end_ digest kh vk offset s :
  0 <= slot → 0 <= offset →
  follows (λ _, True) (tlv_loop fuel slot end_ digest kh vk offset s) (tlv_loop fuel slot end_ digest kh vk offset s).
Proof using BF RL.
  revert offset s. induction fuel as [|fuel IH]; intros offset s Hs Ho; cbn [tlv_loop];
    (destruct (Z.leb_spec end_ offset); [by apply follows_ret|]); [by apply follows_lift|].
  eapply follows_bind; [by apply follows_array|]. intros e He. cbv zeta. eapply follows_bind; [apply follows_add|]. intros x ->.
  pose proof (u16_at_range 4 e 2 He ltac:(lia)) as Hlen. unfold is_u16 in Hlen.
  destruct (checked_add_u32 _ _) as [next|] eqn:Hn; [|apply follows_throw].
  apply checked_add_Some in Hn as [-> _]. destruct (end_ <? _); [apply follows_throw|].
  eapply follows_bind; [apply follows_entry; lia|]. intros s' _. apply IH; lia.
Qed.

Lemma u32_at_range n l i :
  octets n l → (i + 3 < n)%nat → is_u32 (u32_from_le (l !!! i) (l !!! (i + 1)%nat) (l !!! (i + 2)%nat) (l !!! (i + 3)%nat)).
Proof.
  intros [Hl Hu] Hi. assert (Ho : ∀ j, (j < n)%nat → is_u8 (l !!! j)) by (intros j Hj; apply (Forall_lookup_total_1 _ l); [done|lia]).
  pose proof (Ho i ltac:(lia)). pose proof (Ho (i + 1)%nat ltac:(lia)). pose proof (Ho (i + 2)%nat ltac:(lia)).
  pose proof (Ho (i + 3)%nat ltac:(lia)). rewrite u32_from_le_eq by done. unfold is_u8, is_u32 in *. lia.
Qed.

(** The fields of a header are in the range of their types. *)
Definition header_ok (h : ImageHeader) : Prop :=
  is_u16 (ih_hdr_size h) ∧ is_u16 (ih_protect_tlv_size h) ∧ is_u32 (ih_img_size h).

Lemma header_parse_ok l h : octets 32 l → header_parse l = Some h → header_ok h.
Proof.
  intros Hl. unfold header_parse. cbv zeta. destruct (negb _); [done|]. intros [= <-]. unfold header_ok.
  cbn [ih_hdr_size ih_protect_tlv_size ih_img_size].
  split; [exact (u16_at_range 32 l 8 Hl ltac:(lia))|]. split; [exact (u16_at_range 32 l 10 Hl ltac:(lia))|].
  exact (u32_at_range 32 l 12 Hl ltac:(lia)).
Qed.

Lemma follows_header slot :
  0 <= slot → follows (λ o, ∀ h, o = Some h → header_ok h) (header_read slot) (header_read slot).
Proof using BF RL.
  intros Hs. unfold header_read. eapply follows_bind; [by apply follows_read|]. intros l Hl. apply follows_ret.
  intros h. by apply header_parse_ok.
Qed.

Lemma follows_validate slot max_len key : 0 <= slot → follows (λ _, True) (validate slot max_len key) (validate slot max_len key).
Proof using BF RL.
  intros Hs. unfold validate. eapply follows_bind; [by apply follows_header|]. intros [h|] Hh; [|apply follows_throw].
  destruct (Hh h eq_refl) as (H1 & H2 & H3). unfold is_u16, is_u32 in *. clear Hh.
  destruct (negb _); [apply follows_throw|]. destruct (_ <? Z.of_nat IMAGE_HEADER_LEN); [apply follows_throw|].
  destruct (checked_add_u32 (ih_hdr_size h) (ih_img_size h)) as [x|] eqn:Hx; cbn [mbind option_bind]; [|apply follows_throw].
  apply checked_add_Some in Hx as [-> _].
  destruct (checked_add_u32 _ (ih_protect_tlv_size h)) as [hl|] eqn:Hx; [|apply follows_throw].
  apply checked_add_Some in Hx as [Hhl _].
  eapply follows_bind; [apply follows_array; lia|]. intros info Hi. destruct (negb _); [apply follows_throw|]. cbv zeta.
  pose proof (u16_at_range 4 info 2 Hi ltac:(lia)) as Ht. unfold is_u16 in Ht.
  destruct (checked_add_u32 hl _) as [e|] eqn:He; [|apply follows_throw]. apply checked_add_Some in He as [-> _].
  destruct (negb _); [apply follows_throw|].
  eapply (follows_bind (λ _, True)).
  { destruct (negb _); [|by apply follows_ret]. eapply follows_bind; [apply follows_array; lia|]. intros i _. by apply follows_ret. }
  intros p _. destruct (negb p); [apply follows_throw|].
  eapply (follows_bind (λ _, True)).
  { unfold hash_range. eapply follows_bind; [apply follows_hash; lia|]. intros d _. by apply follows_ret. }
  intros d _. eapply (follows_bind (λ _, True)); [by apply follows_lift|]. intros vk _.
  eapply follows_bind; [apply follows_add|]. intros x ->. eapply follows_bind; [apply follows_tlv; lia|]. intros s _.
  destruct (negb _); [apply follows_throw|]. destruct (negb _); [apply follows_throw|]. by apply follows_ret.
Qed.
End Follows.
