(* ===== verification/BootChip.v ===== *)
(** * BootChip: instances of the boot interfaces

    A NOR flash chip of 1024 octets, written in words of four and erased in
    sectors of 256, a hash and a signature scheme small enough to evaluate.
    They show that the laws of [BootImage] can hold, and the
    examples of the boot components run on them. *)

From S2P Require Import Prelude Effects NvStorage LogNv P256Curve BootImage.

Local Open Scope Z_scope.

Definition CHIP_SIZE : nat := 1024.

Record Chip := mk_Chip { chip_cells : list Z }.

Definition chip_bytes (c : Chip) : list Z := resize CHIP_SIZE 0xFF ((λ b, b mod 256) <$> chip_cells c).

Definition chip_fits (c : Chip) (a n : Z) : bool := (0 <=? a) && (0 <=? n) && (a + n <=? 1024).

(** The octets from [a] replaced by [d]. *)
Definition chip_put (c : Chip) (a : nat) (d : list Z) : Chip :=
  mk_Chip (take a (chip_bytes c) ++ d ++ drop (a + length d) (chip_bytes c)).

#[export] Instance Chip_flash : NorFlash Chip := {
  READ_SIZE := 1; WRITE_SIZE := 4; ERASE_SIZE := 256;
  flash_capacity _ := CHIP_SIZE;
  flash_read a n c := (if chip_fits c a (Z.of_nat n) then Some (take n (drop (Z.to_nat a) (chip_bytes c))) else None, c);
  flash_write a d c :=
    if chip_fits c a (Z.of_nat (length d)) && (a mod 4 =? 0) && (Z.of_nat (length d) mod 4 =? 0)
    then (true, chip_put c (Z.to_nat a) (zip_with Z.land d (drop (Z.to_nat a) (chip_bytes c)))) else (false, c);
  flash_erase a b c :=
    if chip_fits c a (b - a) && (a mod 256 =? 0) && (b mod 256 =? 0)
    then (true, chip_put c (Z.to_nat a) (replicate (Z.to_nat (b - a)) 0xFF)) else (false, c) }.

Lemma chip_length c : length (chip_bytes c) = CHIP_SIZE.
Proof. apply length_resize. Qed.

Lemma chip_octets c : Forall is_u8 (chip_bytes c).
Proof.
  unfold chip_bytes. apply Forall_resize; [unfold is_u8; lia|]. apply Forall_fmap, Forall_forall. intros b _. simpl. unfold is_u8.
  apply Z.mod_pos_bound. lia.
Qed.

Lemma chip_put_bytes c a d :
  (a + length d <= CHIP_SIZE)%nat → Forall is_u8 d →
  chip_bytes (chip_put c a d) = take a (chip_bytes c) ++ d ++ drop (a + length d) (chip_bytes c).
Proof.
  intros Ha Hd. unfold chip_bytes at 1, chip_put. cbn [chip_cells]. pose proof (chip_length c) as Hl.
  rewrite resize_all_alt.
  - transitivity (id <$> (take a (chip_bytes c) ++ d ++ drop (a + length d) (chip_bytes c))); [|apply list_fmap_id].
    apply list_fmap_ext. intros i b Hb. apply Z.mod_small.
    assert (Forall is_u8 (take a (chip_bytes c) ++ d ++ drop (a + length d) (chip_bytes c))) as Ho.
    { apply Forall_app. split; [apply Forall_take, chip_octets|]. apply Forall_app. split; [done|apply Forall_drop, chip_octets]. }
    exact (Forall_lookup_1 _ _ _ _ Ho Hb).
  - rewrite length_fmap, !length_app, length_take, length_drop. lia.
Qed.

Lemma chip_put_changed c a d :
  (a + length d <= CHIP_SIZE)%nat → Forall is_u8 d →
  changed_in (chip_bytes c) (chip_bytes (chip_put c a d)) a (length d) ∧
  take (length d) (drop a (chip_bytes (chip_put c a d))) = d.
Proof.
  intros Ha Hd. rewrite chip_put_bytes by done. pose proof (chip_length c) as Hl.
  assert (Hta : length (take a (chip_bytes c)) = a) by (rewrite length_take; lia). split; [split|].
  - rewrite !length_app, length_drop, Hta. lia.
  - intros i [Hi|Hi].
    + rewrite lookup_app_l by lia. by rewrite lookup_take_lt by lia.
    + rewrite lookup_app_r by lia. rewrite lookup_app_r by lia. rewrite lookup_drop. f_equal. lia.
  - rewrite <- Hta at 1. by rewrite drop_app_length, take_app_length.
Qed.

Lemma chip_same c a n : changed_in (chip_bytes c) (chip_bytes c) a n.
Proof. done. Qed.

Lemma land_erased d l : take (length d) l = replicate (length d) 0xFF → Forall is_u8 d → zip_with Z.land d l = d.
Proof.
  revert l. induction d as [|b d IH]; intros [|x l] Hl Hd; simplify_eq/=; [done|done|].
  apply Forall_cons in Hd as [Hb Hd]. f_equal; [|by apply IH].
  rewrite land_255. apply Z.mod_small. exact Hb.
Qed.

Lemma land_u8 b x : is_u8 b → is_u8 (Z.land b x).
Proof.
  intros Hb. replace (Z.land b x) with ((Z.land b x) mod 256); [apply Z.mod_pos_bound; lia|].
  rewrite <- land_255, Z.land_comm, Z.land_assoc, (Z.land_comm 255 b), land_255. unfold is_u8 in Hb. by rewrite Z.mod_small by lia.
Qed.

Lemma zip_land_octets d l : Forall is_u8 d → Forall is_u8 (zip_with Z.land d l).
Proof.
  intros Hd. revert l. induction Hd as [|b d Hb Hd IH]; intros [|x l]; simpl; [by constructor..|].
  constructor; [by apply land_u8|apply IH].
Qed.

#[export] Instance Chip_boot : BootFlash Chip chip_bytes.
Proof.
  split.
  - apply chip_octets.
  - intros f. rewrite chip_length. unfold CHIP_SIZE. lia.
  - cbn. lia.
  - intros f a n r f' H Ha. cbn [flash_read Chip_flash] in H. unfold chip_fits in H. injection H as <- <-. split; [done|].
    intros l. case_match eqn:Hc; [|done]. intros [= <-]. rewrite chip_length. unfold CHIP_SIZE. split; [bool_simpl; lia|done].
  - intros f a d ok f' H Ha Hd. cbn [flash_write Chip_flash] in H. unfold chip_fits in H. case_match eqn:Hc; [|by simplify_eq].
    injection H as <- <-. pose proof (chip_length f) as Hl. unfold CHIP_SIZE in Hl.
    assert (Hz : length (zip_with Z.land d (drop (Z.to_nat a) (chip_bytes f))) = length d)
      by (rewrite length_zip_with, length_drop; bool_simpl; lia).
    destruct (chip_put_changed f (Z.to_nat a) (zip_with Z.land d (drop (Z.to_nat a) (chip_bytes f)))) as [Hch Hput];
      [rewrite Hz; unfold CHIP_SIZE; bool_simpl; lia|by apply zip_land_octets|]. rewrite Hz in Hch, Hput.
    split; [done|]. intros _. split; [rewrite Hl; bool_simpl; lia|]. intros He. rewrite Hput. by apply land_erased.
  - intros f a b ok f' H Ha. cbn [flash_erase Chip_flash] in H. unfold chip_fits in H. case_match eqn:Hc; [|by simplify_eq].
    injection H as <- <-. pose proof (chip_length f) as Hl. unfold CHIP_SIZE in Hl.
    destruct (chip_put_changed f (Z.to_nat a) (replicate (Z.to_nat (b - a)) 0xFF)) as [Hch Hput];
      [rewrite length_replicate; unfold CHIP_SIZE; bool_simpl; lia|apply Forall_replicate; unfold is_u8; lia|].
    rewrite length_replicate in Hch, Hput. split; [done|]. intros _. split; [rewrite Hl; bool_simpl; lia|done].
Qed.

#[export] Instance Chip_reliable : Reliable Chip chip_bytes False.
Proof.
  assert (Hm : ∀ n x, 0 < n → (n | x) → (x mod n =? 0) = true) by (intros n x Hn Hx; apply Z.eqb_eq, Z.mod_divide; [lia|done]).
  split; intros f a; rewrite chip_length; unfold CHIP_SIZE.
  - intros n f' H Ha Hn. cbn [flash_read Chip_flash] in H. unfold chip_fits in H.
    rewrite !(proj2 (Z.leb_le _ _)) in H by lia. done.
  - intros d f' H Ha Hn H4 H4'. cbn [flash_write Chip_flash] in *. unfold chip_fits in H.
    rewrite !(proj2 (Z.leb_le _ _)) in H by lia. rewrite (Hm 4 a) in H by (done || lia).
    rewrite (Hm 4 (Z.of_nat (length d))) in H by (done || lia). done.
  - intros b f' H Ha Hn H4 H4'. cbn [flash_erase Chip_flash] in *. unfold chip_fits in H.
    rewrite !(proj2 (Z.leb_le _ _)) in H by lia. rewrite (Hm 256 a) in H by (done || lia).
    rewrite (Hm 256 b) in H by (done || lia). done.
Qed.

(** * A hash and a scheme *)

(** The first 32 octets. *)
#[export] Instance first_sha : Sha256 := {
  Hasher := list Z;
  sha_new := [];
  sha_update h d := h ++ d;
  sha_finalize h := resize 32 0 ((λ b, b mod 256) <$> h) }.

#[export] Instance first_lawful : LawfulSha (HS:=first_sha).
Proof.
  refine {| sha256 := sha_finalize (Sha256 := first_sha) |}.
  - intros chunks. f_equal. change (foldl (λ h d : list Z, h ++ d) [] chunks = concat chunks).
    rewrite <- (app_nil_l (concat chunks)). generalize (@nil Z). induction chunks as [|c chunks IH]; intros h; simpl.
    + by rewrite app_nil_r.
    + by rewrite IH, app_assoc.
  - intros l. split; [apply length_resize|]. apply Forall_resize; [unfold is_u8; lia|]. apply Forall_fmap, Forall_forall.
    intros b _. apply Z.mod_pos_bound. lia.
Defined.

(** A signature is valid if its two halves are equal. *)
Definition twin_scheme : SignatureScheme := {|
  SchemeKey := list Z;
  scheme_from_xy xy := Ok (Some xy);
  scheme_verify _ _ r s := Ok (bool_decide (r = s)) |}.

#[export] Instance twin_lawful : LawfulScheme (HK:=twin_scheme).
Proof. split; cbn; eauto. Qed.

(** * Images *)

Definition twin_key : TrustedKey := mk_TrustedKey (replicate 64 7).

(** An image of version [major].0.0: four octets of firmware, then the hash, the
    key hash and the signature. *)
Definition twin_image (major : Z) : list Z :=
  let header := u32_to_le IMAGE_MAGIC ++ u32_to_le 0 ++ u16_to_le 32 ++ u16_to_le 0 ++ u32_to_le 4 ++ u32_to_le 0
                ++ [major; 0; 0; 0; 0; 0; 0; 0; 0; 0; 0; 0] in
  header ++ [1; 2; 3; 4] ++ u16_to_le TLV_INFO_MAGIC ++ u16_to_le 88
  ++ u16_to_le TLV_SHA256 ++ u16_to_le 32 ++ header
  ++ u16_to_le TLV_KEYHASH ++ u16_to_le 32 ++ @key_hash first_sha twin_key
  ++ u16_to_le TLV_ECDSA_SIG ++ u16_to_le 8 ++ [0x30; 6; 2; 1; 5; 2; 1; 5].

(** The octets of a slot of 512: an image, and the request or none. *)
Definition twin_slot (image : list Z) (request : bool) : list Z :=
  resize 496 0xFF image ++ (if request then BOOT_MAGIC else replicate 16 0xFF).
