(* ===== verification/BootValid.v ===== *)
(** * BootValid: what validation accepts

    The reference definition [signed_image] of an image signed by a key, and the
    proof that [validate] of [BootImage] accepts exactly these. *)

From Stdlib Require Import Zmod.
From S2P Require Import Prelude Effects NvStorage LogNv Primes P256 P256Field P256Curve BootImage BootChip.

Local Open Scope Z_scope.

(** * Signed images *)

(** The entries of a TLV area. *)
Inductive tlv_entries : list Z → list (Z * list Z) → Prop :=
| te_nil : tlv_entries [] []
| te_cons k0 k1 l0 l1 value rest es :
    Z.of_nat (length value) = u16_from_le l0 l1 → tlv_entries rest es →
    tlv_entries (k0 :: k1 :: l0 :: l1 :: value ++ rest) ((u16_from_le k0 k1, value) :: es).

Lemma parse_der_octets der r s :
  Forall is_u8 der → parse_der_signature der = Some (r, s) → octets 32 r ∧ octets 32 s.
Proof.
  intros Hu. destruct der as [|tag [|len body]]; [done|done|]. cbn [parse_der_signature].
  do 2 apply Forall_cons in Hu as [_ Hu]. destruct (_ || _); [done|].
  destruct (parse_der_integer body) as [[r' rest]|] eqn:Hr; [|done]. cbn [mbind option_bind].
  apply der_integer_sound in Hr as [Hro ->]; [|done]. apply Forall_app in Hu as [_ Hu].
  destruct (parse_der_integer rest) as [[s' rest']|] eqn:Hs; [|done]. cbn [mbind option_bind].
  apply der_integer_sound in Hs as [Hso ->]; [|done]. destruct rest' as [|]; [|done]. by intros [= <- <-].
Qed.

Section Spec.
Context {HS : Sha256} {LS : LawfulSha} {HK : SignatureScheme} {LK : LawfulScheme}.

(** [der] is a signature of the key on the digest. *)
Definition signs (key : TrustedKey) (digest der : list Z) : Prop :=
  ∃ k r s, scheme_from_xy (tk_xy key) = Ok (Some k) ∧ parse_der_signature der = Some (r, s) ∧
    scheme_verify k digest r s = Ok true.

(** Among the entries is the hash of the key, and after it, before another key
    hash or signature, its signature on the digest. *)
Definition authenticated (key : TrustedKey) (digest : list Z) (es : list (Z * list Z)) : Prop :=
  ∃ pre mid der post, es = pre ++ (TLV_KEYHASH, key_hash key) :: mid ++ (TLV_ECDSA_SIG, der) :: post ∧
    Forall (λ e, e.1 ≠ TLV_KEYHASH ∧ e.1 ≠ TLV_ECDSA_SIG) mid ∧ (length der <= 72)%nat ∧ signs key digest der.

(** The octets that are hashed: header, firmware and protected TLVs. *)
Definition hashed_len (h : ImageHeader) : Z := ih_hdr_size h + ih_img_size h + ih_protect_tlv_size h.

(** The octets [img] begin with an image of at most [max_len] octets signed by
    [key]. *)
Record signed_image (key : TrustedKey) (img : list Z) (max_len : Z) (v : ValidImage) : Prop := {
  si_header : header_parse (take IMAGE_HEADER_LEN img) = Some (vi_header v);
  si_plain : ih_flags (vi_header v) = 0 ∧ 32 <= ih_hdr_size (vi_header v);
  si_digest : vi_digest v = sha256 (take (Z.to_nat (hashed_len (vi_header v))) img);
  si_end : is_u16 (vi_end v - hashed_len (vi_header v)) ∧ vi_end v <= max_len;
  si_protected :
    ih_protect_tlv_size (vi_header v) ≠ 0 →
    take 4 (drop (Z.to_nat (ih_hdr_size (vi_header v) + ih_img_size (vi_header v))) img) =
      u16_to_le TLV_PROTECTED_INFO_MAGIC ++ u16_to_le (ih_protect_tlv_size (vi_header v));
  si_tlvs : ∃ area es,
    take (Z.to_nat (vi_end v - hashed_len (vi_header v))) (drop (Z.to_nat (hashed_len (vi_header v))) img) =
      u16_to_le TLV_INFO_MAGIC ++ u16_to_le (vi_end v - hashed_len (vi_header v)) ++ area ∧
    tlv_entries area es ∧ Forall (λ e, e.1 = TLV_SHA256 → length e.2 = 32%nat) es ∧
    last (filter (λ e, e.1 = TLV_SHA256) es) = Some (TLV_SHA256, vi_digest v) ∧
    authenticated key (vi_digest v) es }.

(** ** The effect of the entries *)

Definition tlv_apply (key : TrustedKey) (digest : list Z) (vk : option SchemeKey) (e : Z * list Z) (s : TlvState) :
    outcome ImageError TlvState :=
  let '(kind, value) := e in
  if kind =? TLV_SHA256 then
    if negb (Z.of_nat (length value) =? 32) then Err Malformed
    else Ok (mk_TlvState (bool_decide (value = digest)) (ts_key_selected s) (ts_signature_ok s))
  else if kind =? TLV_KEYHASH then
    Ok (mk_TlvState (ts_hash_ok s) (bool_decide (length value = 32%nat ∧ value = key_hash key)) (ts_signature_ok s))
  else if (kind =? TLV_ECDSA_SIG) && ts_key_selected s && negb (ts_signature_ok s) then
    ok ← (if Z.of_nat (length value) <=? 72 then
            match vk, parse_der_signature value with
            | Some k, Some (r, s') => scheme_verify k digest r s'
            | _, _ => Ok (ts_signature_ok s)
            end
          else Ok (ts_signature_ok s));
    Ok (mk_TlvState (ts_hash_ok s) false ok)
  else Ok s.

Fixpoint tlv_run (key : TrustedKey) (digest : list Z) (vk : option SchemeKey) (es : list (Z * list Z)) (s : TlvState) :
    outcome ImageError TlvState :=
  match es with
  | [] => Ok s
  | e :: es => s ← tlv_apply key digest vk e s; tlv_run key digest vk es s
  end.

Lemma tlv_run_hash key digest vk es s s' :
  tlv_run key digest vk es s = Ok s' →
  Forall (λ e, e.1 = TLV_SHA256 → length e.2 = 32%nat) es ∧
  ts_hash_ok s' = match last (filter (λ e, e.1 = TLV_SHA256) es) with
                  | Some e => bool_decide (e.2 = digest) | None => ts_hash_ok s end.
Proof.
  revert s. induction es as [|[kind value] es IH]; intros s; cbn [tlv_run]; [by intros [= <-]|].
  rewrite bind_Ok. intros (s1 & H1 & H2). apply IH in H2 as [Hf Hh]. clear IH. unfold tlv_apply in H1.
  destruct (Z.eqb_spec kind TLV_SHA256) as [->|Hne].
  - destruct (Z.eqb_spec (Z.of_nat (length value)) 32); [|done]. simplify_eq/=. split; [constructor; [simpl; lia|done]|].
    rewrite (filter_cons_True (λ e : Z * list Z, e.1 = TLV_SHA256)) by done.
    rewrite Hh, last_cons. by destruct (last _).
  - split; [by constructor|]. rewrite (filter_cons_False (λ e : Z * list Z, e.1 = TLV_SHA256)) by done.
    rewrite Hh. destruct (last _); [done|].
    destruct (kind =? TLV_KEYHASH); [by simplify_eq/=|]. destruct (_ && _ && _); [|by simplify_eq/=].
    rewrite bind_Ok in H1. destruct H1 as (ok & _ & [= <-]). done.
Qed.

(** The first key hash or signature among the entries is a signature of the
    key. *)
Definition opens (key : TrustedKey) (digest : list Z) (es : list (Z * list Z)) : Prop :=
  ∃ mid der post, es = mid ++ (TLV_ECDSA_SIG, der) :: post ∧
    Forall (λ e, e.1 ≠ TLV_KEYHASH ∧ e.1 ≠ TLV_ECDSA_SIG) mid ∧ (length der <= 72)%nat ∧ signs key digest der.

Lemma opens_cons key digest kind value es :
  opens key digest ((kind, value) :: es) ↔
  (kind = TLV_ECDSA_SIG ∧ (length value <= 72)%nat ∧ signs key digest value) ∨
  (kind ≠ TLV_KEYHASH ∧ kind ≠ TLV_ECDSA_SIG ∧ opens key digest es).
Proof.
  split.
  - intros ([|e mid] & der & post & He & Hm & Hl & Hs); simplify_eq/=; [by left|].
    apply Forall_cons in Hm as [[? ?] Hm]. right. split; [done|]. split; [done|]. by exists mid, der, post.
  - intros [(-> & Hl & Hs) | (H1 & H2 & mid & der & post & -> & Hm & Hl & Hs)]; [by exists [], value, es|].
    exists ((kind, value) :: mid), der, post. split; [done|]. split; [by constructor|done].
Qed.

Lemma authenticated_cons key digest kind value es :
  authenticated key digest ((kind, value) :: es) ↔
  (kind = TLV_KEYHASH ∧ value = key_hash key ∧ opens key digest es) ∨ authenticated key digest es.
Proof.
  split.
  - intros ([|e pre] & mid & der & post & He & Hr); simplify_eq/=.
    + left. split; [done|]. split; [done|]. by exists mid, der, post.
    + right. by exists pre, mid, der, post.
  - intros [(-> & -> & mid & der & post & -> & Hr) | (pre & mid & der & post & -> & Hr)]; [by exists [], mid, der, post|].
    by exists ((kind, value) :: pre), mid, der, post.
Qed.

Lemma key_hash_octets key : octets 32 (key_hash key).
Proof using LS.
  unfold key_hash. pose proof (sha_chunks [P256_SPKI_PREFIX; tk_xy key]) as Hc. cbn [foldl] in Hc. rewrite Hc. apply sha_digest.
Qed.

Lemma signs_decided key digest vk der r s b :
  scheme_from_xy (tk_xy key) = Ok vk → parse_der_signature der = Some (r, s) →
  (∀ k, vk = Some k → scheme_verify k digest r s = Ok b) → signs key digest der ↔ is_Some vk ∧ b = true.
Proof.
  intros Hk Hp Hb. unfold signs. rewrite Hk, Hp. split.
  - intros (k & r' & s' & [= ->] & [= <- <-] & Hv). rewrite (Hb k eq_refl) in Hv. simplify_eq. done.
  - intros [[k ->] ->]. eauto 10.
Qed.

Lemma tlv_run_signature key digest vk es s s' :
  scheme_from_xy (tk_xy key) = Ok vk → tlv_run key digest vk es s = Ok s' →
  ts_signature_ok s' = true ↔
  ts_signature_ok s = true ∨ (ts_key_selected s = true ∧ opens key digest es) ∨ authenticated key digest es.
Proof using LS.
  intros Hvk. revert s. induction es as [|[kind value] es IH]; intros s; cbn [tlv_run].
  { intros [= <-]. split; [by left|]. intros [H | [(_ & mid & der & post & H & _) | (pre & mid & der & post & H & _)]]; [done|..];
      by apply (f_equal length) in H; rewrite ?length_app in H; simpl in H; lia. }
  rewrite bind_Ok. intros (s1 & H1 & H2). apply IH in H2. clear IH. rewrite H2. clear H2.
  rewrite opens_cons, authenticated_cons. unfold tlv_apply in H1.
  destruct (Z.eqb_spec kind TLV_SHA256) as [->|Hne].
  { destruct (negb _); [done|]. injection H1 as <-. cbn [ts_signature_ok ts_key_selected]. unfold TLV_SHA256, TLV_KEYHASH, TLV_ECDSA_SIG. naive_solver lia. }
  destruct (Z.eqb_spec kind TLV_KEYHASH) as [->|Hne2].
  { injection H1 as <-. cbn [ts_signature_ok ts_key_selected]. rewrite bool_decide_eq_true. pose proof (key_hash_octets key) as [Hkl _].
    unfold TLV_SHA256, TLV_KEYHASH, TLV_ECDSA_SIG. naive_solver lia. }
  destruct (Z.eqb_spec kind TLV_ECDSA_SIG) as [->|Hne3]; [|injection H1 as <-; naive_solver].
  destruct (ts_key_selected s) eqn:Hsel; [|injection H1 as <-; rewrite Hsel; naive_solver].
  destruct (ts_signature_ok s) eqn:Hok; [injection H1 as <-; rewrite Hok; naive_solver|]. cbn [andb negb] in H1.
  rewrite bind_Ok in H1. destruct H1 as (ok & H1 & [= <-]). cbn [ts_signature_ok ts_key_selected].
  enough (ok = true ↔ (length value <= 72)%nat ∧ signs key digest value) by naive_solver.
  destruct (Z.leb_spec (Z.of_nat (length value)) 72) as [Hl|Hl]; [|injection H1 as <-; split; [done|lia]].
  assert (Hlen : (length value <= 72)%nat) by lia.
  destruct vk as [k|], (parse_der_signature value) as [[r s2]|] eqn:Hp;
    [rewrite (signs_decided key digest (Some k) value r s2 ok Hvk Hp) by (intros k' [= <-]; done); naive_solver|..];
    injection H1 as <-; (split; [done|]); intros [_ (k' & r' & s3 & ? & ? & _)]; congruence.
Qed.
End Spec.

(** ** Validation of contents *)

Section Exact.
Context {HS : Sha256} {LS : LawfulSha} {HK : SignatureScheme} {LK : LawfulScheme}.
Lemma info_exact t m n :
  octets 4 t → is_u16 m → is_u16 n →
  t = u16_to_le m ++ u16_to_le n ↔
  (u16_from_le (t !!! 0%nat) (t !!! 1%nat) =? m) && (u16_from_le (t !!! 2%nat) (t !!! 3%nat) =? n) = true.
Proof.
  intros [Hl Ht] Hm Hn. destruct t as [|a [|b [|c [|d [|]]]]]; try done.
  do 4 (apply Forall_cons in Ht as [? Ht]). rewrite andb_true_iff, !Z.eqb_eq.
  change ([a; b; c; d] = u16_to_le m ++ u16_to_le n ↔ u16_from_le a b = m ∧ u16_from_le c d = n). split.
  - unfold u16_to_le. intros [= -> -> -> ->]. split; by apply u16_from_to_le.
  - intros [<- <-]. by rewrite !u16_to_from_le.
Qed.

(** The result of a validation is right about the image. *)
Definition exact (key : TrustedKey) (contents : list Z) (max_len : Z) (r : outcome ImageError ValidImage) : Prop :=
  (∃ v, r = Ok v ∧ signed_image key contents max_len v) ∨
  (∃ e, r = Err e ∧ e ≠ Flash ∧ ∀ v, ¬ signed_image key contents max_len v).

Lemma exact_err key contents max_len e :
  e ≠ Flash → (∀ v, ¬ signed_image key contents max_len v) → exact key contents max_len (Err e).
Proof. intros He Hv. right. eauto. Qed.

(** What a signed image shows of the header. *)
Lemma signed_header key contents max_len v :
  octets 32 (take 32 contents) → signed_image key contents max_len v →
  header_ok (vi_header v) ∧ hashed_len (vi_header v) + 4 <= vi_end v ∧ vi_end v <= max_len.
Proof.
  intros Ho Hs. assert (Hh : header_ok (vi_header v)) by (eapply header_parse_ok; [exact Ho|apply Hs]). split; [done|].
  destruct (si_end _ _ _ _ Hs) as [_ He]. split; [|done]. destruct (si_tlvs _ _ _ _ Hs) as (a & es & Ha & _).
  apply (f_equal length) in Ha. rewrite length_take, length_app in Ha. rewrite u16_to_le_eq in Ha. simpl in Ha. lia.
Qed.

Lemma signed_info key contents max_len v :
  octets 32 (take 32 contents) → signed_image key contents max_len v →
  is_u16 (vi_end v - hashed_len (vi_header v)) ∧
  take 4 (drop (Z.to_nat (hashed_len (vi_header v))) contents) =
    u16_to_le TLV_INFO_MAGIC ++ u16_to_le (vi_end v - hashed_len (vi_header v)).
Proof.
  intros Ho Hs. split; [apply Hs|]. destruct (signed_header _ _ _ _ Ho Hs) as (_ & He & _).
  destruct (si_tlvs _ _ _ _ Hs) as (a & es & Ha & _).
  replace 4%nat with (4 `min` Z.to_nat (vi_end v - hashed_len (vi_header v)))%nat by lia. rewrite <- take_take, Ha. reflexivity.
Qed.

Lemma signed_unique key contents max_len v v' :
  octets 32 (take 32 contents) → signed_image key contents max_len v → signed_image key contents max_len v' → v = v'.
Proof.
  intros Ho Hv Hv'. destruct (signed_info _ _ _ _ Ho Hv) as [H16 Hi], (signed_info _ _ _ _ Ho Hv') as [H16' Hi'].
  assert (Hh : vi_header v = vi_header v') by (pose proof (si_header _ _ _ _ Hv); pose proof (si_header _ _ _ _ Hv'); congruence).
  pose proof (si_digest _ _ _ _ Hv) as Hd. pose proof (si_digest _ _ _ _ Hv') as Hd'.
  destruct v as [h e d], v' as [h' e' d']. cbn [vi_header vi_end vi_digest] in *. subst h' d d'. f_equal.
  rewrite Hi in Hi'. apply app_inv_head in Hi'. apply (f_equal (λ t, u16_from_le (t !!! 0%nat) (t !!! 1%nat))) in Hi'.
  unfold u16_to_le in Hi'. simpl in Hi'. rewrite !u16_from_to_le in Hi' by done. lia.
Qed.

Lemma slice_of_prefix (n m e : nat) (c : list Z) : (m + n <= e)%nat → take n (drop m c) = take n (drop m (take e c)).
Proof. intros He. rewrite skipn_firstn_comm, take_take. f_equal. lia. Qed.

(** Only the octets up to its end matter to an image. *)
Lemma signed_prefix key contents contents' max_len v :
  octets 32 (take 32 contents) → take (Z.to_nat (vi_end v)) contents = take (Z.to_nat (vi_end v)) contents' →
  signed_image key contents max_len v → signed_image key contents' max_len v.
Proof.
  intros Ho Hpre Hv. destruct (signed_header _ _ _ _ Ho Hv) as ((H1 & H2 & H3) & He & _).
  destruct (si_plain _ _ _ _ Hv) as [_ H32]. unfold is_u16, is_u32, hashed_len in *.
  assert (Hs : ∀ n m, (m + n <= Z.to_nat (vi_end v))%nat → take n (drop m contents') = take n (drop m contents))
    by (intros n m Hnm; rewrite (slice_of_prefix n m _ contents' Hnm), <- Hpre; symmetry; by apply slice_of_prefix).
  destruct Hv as [Hh Hp Hd Hen Hpr Ht]. unfold hashed_len in *.
  constructor; unfold hashed_len; [|done| |done| |].
  - rewrite <- Hh. unfold IMAGE_HEADER_LEN. f_equal. apply (Hs 32%nat 0%nat). lia.
  - rewrite Hd. f_equal. symmetry. apply (Hs _ 0%nat). lia.
  - intros Hz. rewrite <- Hpr by done. apply Hs. lia.
  - rewrite Hs by lia. exact Ht.
Qed.

Lemma tlv_apply_total key digest vk e s :
  octets 64 (tk_xy key) → scheme_from_xy (tk_xy key) = Ok vk → octets 32 digest → Forall is_u8 e.2 →
  (∃ s', tlv_apply key digest vk e s = Ok s') ∨
  (tlv_apply key digest vk e s = Err Malformed ∧ e.1 = TLV_SHA256 ∧ length e.2 ≠ 32%nat).
Proof using LK.
  destruct e as [kind value]. intros Hxy Hvk Hd Hv. unfold tlv_apply. simpl in Hv.
  destruct (Z.eqb_spec kind TLV_SHA256) as [->|].
  { destruct (Z.eqb_spec (Z.of_nat (length value)) 32); cbn [negb]; [eauto|]. right. split; [done|]. simpl. split; [done|lia]. }
  destruct (kind =? TLV_KEYHASH); [eauto|]. destruct (_ && _ && _); [|eauto]. left. destruct (_ <=? 72); [|cbn; eauto].
  destruct vk as [k|]; [|cbn; eauto]. destruct (parse_der_signature value) as [[r s']|] eqn:Hp; [|cbn; eauto].
  apply parse_der_octets in Hp as [Hr Hs]; [|done].
  destruct (ls_verify (tk_xy key) k digest r s' Hxy Hvk Hd Hr Hs) as [b ->]. cbn. eauto.
Qed.

Lemma tlv_entries_octets a es : tlv_entries a es → Forall is_u8 a → Forall (λ e, Forall is_u8 e.2) es.
Proof.
  induction 1 as [|k0 k1 l0 l1 v rest es Hv Hes IH]; intros Ha; [constructor|].
  do 4 apply Forall_cons in Ha as [_ Ha]. apply Forall_app in Ha as [? ?]. constructor; auto.
Qed.

Lemma tlv_run_total key digest vk es s :
  octets 64 (tk_xy key) → scheme_from_xy (tk_xy key) = Ok vk → octets 32 digest →
  Forall (λ e, e.1 = TLV_SHA256 → length e.2 = 32%nat) es → Forall (λ e, Forall is_u8 e.2) es →
  ∃ s', tlv_run key digest vk es s = Ok s'.
Proof using LK.
  intros Hxy Hvk Hd Hf Ho. revert s. induction es as [|e es IH]; intros s; cbn [tlv_run]; [eauto|].
  apply Forall_cons in Hf as [Hf1 Hf]. apply Forall_cons in Ho as [Ho1 Ho].
  destruct (tlv_apply_total key digest vk e s Hxy Hvk Hd Ho1) as [[s1 ->] | (_ & Hk & Hl)]; [by apply IH|].
  by destruct Hl; apply Hf1.
Qed.
End Exact.

Section OnContents.
Context {HS : Sha256} {LS : LawfulSha} {HK : SignatureScheme} {LK : LawfulScheme}.
Context (l : list Z) (slot : Z) (Hslot : 0 <= slot) (Hu : Forall is_u8 l) (Hsize : Z.of_nat (length l) < 4294967296).
Local Abbreviation img := (drop (Z.to_nat slot) l).

Lemma ram_read off n :
  0 <= off → slot + off + Z.of_nat n <= Z.of_nat (length l) →
  image_read (F:=Ram) (slot + off) n l = (Ok (take n (drop (Z.to_nat off) img)), l).
Proof using Hslot.
  intros Ho Hn. unfold image_read, read_or. cbn [flash_read Ram_flash]. rewrite (proj2 (Nat.leb_le _ _)) by lia.
  by rewrite drop_drop, Z2Nat.inj_add by lia.
Qed.

Lemma ram_add {E} off n : 0 <= n → slot + off + n <= Z.of_nat (length l) → add_u32 (E:=E) slot off = Ok (slot + off).
Proof using Hsize. intros Hn Ho. unfold add_u32. case_match eqn:Hc; [done|]. bool_simpl. lia. Qed.

Lemma ram_octets off n :
  0 <= off → slot + off + Z.of_nat n <= Z.of_nat (length l) → octets n (take n (drop (Z.to_nat off) img)).
Proof using Hslot Hu.
  intros Ho Hn. split; [rewrite length_take, !length_drop; lia|]. by apply Forall_take, Forall_drop, Forall_drop.
Qed.

Lemma ram_array n off limit :
  0 <= off → slot + limit <= Z.of_nat (length l) →
  read_array (F:=Ram) n slot off limit l =
  (if off + Z.of_nat n <=? limit then Ok (take n (drop (Z.to_nat off) img)) else Err Malformed, l).
Proof using Hslot Hsize.
  intros Ho Hl. unfold read_array, checked_add_u32.
  destruct (Z.leb_spec (off + Z.of_nat n) limit).
  - rewrite (proj2 (Z.ltb_lt _ _)) by lia. rewrite (proj2 (Z.ltb_ge _ _)) by lia.
    rewrite (ram_add off (Z.of_nat n)) by lia. cbv [mbind stm_bind lift]. apply ram_read; lia.
  - destruct (_ <? 4294967296); [|done]. by rewrite (proj2 (Z.ltb_lt _ _)) by lia.
Qed.

Lemma ram_hash fuel len off h :
  0 <= off <= len → len - off <= READ_CHUNK * Z.of_nat fuel → slot + len <= Z.of_nat (length l) →
  ∃ chunks, hash_loop (F:=Ram) fuel slot len off h l = (Ok (foldl sha_update h chunks), l) ∧
    concat chunks = take (Z.to_nat (len - off)) (drop (Z.to_nat off) img).
Proof using Hslot Hsize.
  revert off h. induction fuel as [|fuel IH]; intros off h Ho Hf Hl; cbn [hash_loop]; unfold READ_CHUNK in *;
    (destruct (Z.leb_spec len off) as [Hd|Hd]; [exists []; split; [done|]; by replace (Z.to_nat (len - off)) with 0%nat by lia|]); [lia|].
  set (c := Z.min 128 (len - off)). assert (Hc : 0 < c <= len - off ∧ (c = 128 ∨ c = len - off)) by (unfold c; lia).
  cbv zeta. rewrite (ram_add off c) by lia. unfold mbind at 1, stm_bind at 1, lift at 1.
  unfold mbind at 1, stm_bind at 1. rewrite ram_read by lia.
  assert (Ha : add_u32 (E:=ImageError) off c = Ok (off + c)) by (unfold add_u32; case_match eqn:Hx; [done|]; bool_simpl; lia).
  rewrite Ha. unfold mbind at 1, stm_bind at 1, lift at 1.
  destruct (IH (off + c) (sha_update h (take (Z.to_nat c) (drop (Z.to_nat off) img)))) as (chunks & -> & Hcat); [lia|lia|lia|].
  exists (take (Z.to_nat c) (drop (Z.to_nat off) img) :: chunks). split; [done|]. cbn [concat]. rewrite Hcat.
  rewrite Z2Nat.inj_add, <- (drop_drop (drop _ l)) by lia.
  rewrite <- (take_drop (Z.to_nat c) (take (Z.to_nat (len - off)) _)), take_take, skipn_firstn_comm. f_equal; f_equal; lia.
Qed.

Lemma ram_hash_range len :
  0 <= len → slot + len <= Z.of_nat (length l) →
  hash_range (F:=Ram) slot len l = (Ok (sha256 (take (Z.to_nat len) img)), l).
Proof using Hslot Hsize.
  intros H0 Hl. unfold hash_range, mbind, stm_bind.
  pose proof (Z.mul_succ_div_gt len 128 ltac:(lia)) as Hd. pose proof (Z.div_pos len 128 ltac:(lia) ltac:(lia)).
  destruct (ram_hash (S (Z.to_nat (len / READ_CHUNK))) len 0 sha_new) as (chunks & -> & Hc); [lia|unfold READ_CHUNK; lia|done|].
  cbv [mret stm_ret]. rewrite sha_chunks, Hc, Z.sub_0_r. done.
Qed.

(** One entry. *)
Lemma ram_entry key end_ digest vk kind n at_ s :
  0 <= at_ → 0 <= n → at_ + n <= end_ → slot + end_ <= Z.of_nat (length l) →
  tlv_entry (F:=Ram) slot end_ digest (key_hash key) vk kind n at_ s l =
  (tlv_apply key digest vk (kind, take (Z.to_nat n) (drop (Z.to_nat at_) img)) s, l).
Proof using Hslot Hsize Hu.
  intros Ha Hn He Hl. unfold tlv_entry, tlv_apply.
  assert (Hlen : length (take (Z.to_nat n) (drop (Z.to_nat at_) img)) = Z.to_nat n) by (rewrite length_take, !length_drop; lia).
  rewrite Hlen, Z2Nat.id by done.
  destruct (kind =? TLV_SHA256).
  { destruct (Z.eqb_spec n 32) as [->|]; [|done]. cbn [negb]. unfold mbind at 1, stm_bind at 1. rewrite ram_array by lia.
    rewrite (proj2 (Z.leb_le _ _)) by lia. done. }
  destruct (kind =? TLV_KEYHASH).
  { destruct (Z.eqb_spec n 32) as [->|Hn32]; unfold mbind at 1, stm_bind at 1.
    - unfold mbind at 1, stm_bind at 1. rewrite ram_array by lia. rewrite (proj2 (Z.leb_le _ _)) by lia.
      cbv [mret stm_ret]. do 2 f_equal. f_equal. apply bool_decide_ext. change (Z.to_nat 32) with 32%nat. naive_solver.
    - cbv [mret stm_ret]. rewrite (bool_decide_eq_false_2 (_ ∧ _)); [done|]. lia. }
  destruct (_ && _ && _); [|done]. unfold mbind at 1, stm_bind at 1.
  destruct (n <=? 72); [|done]. rewrite (ram_add at_ n) by lia. unfold mbind at 1, stm_bind at 1, lift at 1.
  unfold mbind at 1, stm_bind at 1. rewrite ram_read by lia.
  destruct vk as [k|]; [|done]. destruct (parse_der_signature _) as [[r s']|]; [|done]. unfold lift.
  by destruct (scheme_verify k digest r s').
Qed.

(** The octets from [off] up to [end_]. *)
Definition area (end_ off : Z) : list Z := take (Z.to_nat (end_ - off)) (drop (Z.to_nat off) img).

Lemma area_length end_ off : 0 <= off <= end_ → slot + end_ <= Z.of_nat (length l) → length (area end_ off) = Z.to_nat (end_ - off).
Proof using Hslot. intros Ho Hl. unfold area. rewrite length_take, !length_drop. lia. Qed.

Lemma area_drop end_ off n : 0 <= off → 0 <= n → off + n <= end_ → area end_ (off + n) = drop (Z.to_nat n) (area end_ off).
Proof.
  intros Ho Hn He. unfold area. rewrite skipn_firstn_comm, Z2Nat.inj_add, <- (drop_drop (drop _ l)) by lia. f_equal. lia.
Qed.

Lemma area_take end_ off n : (n <= Z.to_nat (end_ - off))%nat → take n (drop (Z.to_nat off) img) = take n (area end_ off).
Proof. intros Hn. unfold area. rewrite take_take. f_equal. lia. Qed.

Lemma ram_tlv_step key end_ digest vk fuel off s :
  0 <= off < end_ → slot + end_ <= Z.of_nat (length l) →
  tlv_loop (F:=Ram) (S fuel) slot end_ digest (key_hash key) vk off s l =
  match area end_ off with
  | k0 :: k1 :: l0 :: l1 :: t =>
      if u16_from_le l0 l1 <=? Z.of_nat (length t) then
        (lift (tlv_apply key digest vk (u16_from_le k0 k1, take (Z.to_nat (u16_from_le l0 l1)) t) s) ≫= λ s,
         tlv_loop (F:=Ram) fuel slot end_ digest (key_hash key) vk (off + 4 + u16_from_le l0 l1) s) l
      else (Err Malformed, l)
  | _ => (Err Malformed, l)
  end.
Proof using Hslot Hsize Hu.
  intros Ho Hl. cbn [tlv_loop]. rewrite (proj2 (Z.leb_gt _ _)) by lia.
  pose proof (area_length end_ off ltac:(lia) Hl) as Hlen. unfold mbind at 1, stm_bind at 1. rewrite ram_array by lia.
  destruct (Z.leb_spec (off + Z.of_nat 4) end_) as [H4|H4]; [|by destruct (area end_ off) as [|? [|? [|? [|? ?]]]]; simpl in Hlen; [..|lia]].
  rewrite (area_take end_ off 4) by lia. pose proof (area_drop end_ off 4 ltac:(lia) ltac:(lia) ltac:(lia)) as Hd.
  assert (Ho8 : Forall is_u8 (area end_ off)) by (by apply Forall_take, Forall_drop, Forall_drop).
  destruct (area end_ off) as [|k0 [|k1 [|l0 [|l1 t]]]]; simpl in Hlen; [lia..|]. change (take 4 (k0 :: k1 :: l0 :: l1 :: t)) with [k0; k1; l0; l1].
  set (n := u16_from_le l0 l1). change (u16_from_le ([k0; k1; l0; l1] !!! 2%nat) ([k0; k1; l0; l1] !!! 3%nat)) with n.
  change (u16_from_le ([k0; k1; l0; l1] !!! 0%nat) ([k0; k1; l0; l1] !!! 1%nat)) with (u16_from_le k0 k1).
  assert (Hn : is_u16 n) by (do 4 (apply Forall_cons in Ho8 as [? Ho8]); by apply u16_from_le_range). unfold is_u16 in Hn.
  assert (Ha : add_u32 (E:=ImageError) off 4 = Ok (off + 4)) by (unfold add_u32; case_match eqn:Hx; [done|]; bool_simpl; lia).
  cbv zeta. unfold mbind at 1, stm_bind at 1, lift at 1. rewrite Ha. unfold checked_add_u32. simpl in Hd.
  destruct (Z.leb_spec n (Z.of_nat (length t))).
  - rewrite (proj2 (Z.ltb_lt _ _)) by lia. rewrite (proj2 (Z.ltb_ge _ _)) by lia. unfold mbind, stm_bind.
    rewrite ram_entry by lia. rewrite (area_take end_ (off + 4)), Hd by lia. done.
  - destruct (_ <? 4294967296); [|done]. by rewrite (proj2 (Z.ltb_lt _ _)) by lia.
Qed.

Lemma bind_lift {A B} (o : outcome ImageError A) (k : A → stm Ram ImageError B) x :
  (lift o ≫= k) x = match o with Ok a => k a x | Err e => (Err e, x) | Panic => (Panic, x) end.
Proof. by destruct o. Qed.

Lemma ram_tlv_entries key end_ digest vk fuel off s a es :
  0 <= off <= end_ → (Z.to_nat (end_ - off) <= fuel)%nat → slot + end_ <= Z.of_nat (length l) →
  area end_ off = a → tlv_entries a es →
  tlv_loop (F:=Ram) fuel slot end_ digest (key_hash key) vk off s l = (tlv_run key digest vk es s, l).
Proof using Hslot Hsize Hu.
  intros Ho Hf Hl Ha Hes. revert off fuel s Ho Hf Ha. induction Hes as [|k0 k1 l0 l1 v rest es Hv Hes IH]; intros off fuel s Ho Hf Ha.
  - pose proof (area_length end_ off Ho Hl) as Hlen. rewrite Ha in Hlen. simpl in Hlen.
    destruct fuel; cbn [tlv_loop]; by rewrite (proj2 (Z.leb_le _ _)) by lia.
  - pose proof (area_length end_ off Ho Hl) as Hlen. rewrite Ha in Hlen. simpl in Hlen. rewrite length_app in Hlen.
    destruct fuel as [|fuel]; [lia|]. rewrite ram_tlv_step, Ha by lia. rewrite length_app, (proj2 (Z.leb_le _ _)) by lia.
    rewrite <- Hv, Nat2Z.id, take_app_length, bind_lift. cbn [tlv_run].
    destruct (tlv_apply _ _ _ _ s) as [s'|e|]; [|done|done]. cbn [mbind outcome_bind]. apply IH; [lia|lia|].
    replace (off + 4 + Z.of_nat (length v)) with (off + (4 + Z.of_nat (length v))) by lia. rewrite area_drop, Ha by lia.
    replace (Z.to_nat (4 + Z.of_nat (length v))) with (4 + length v)%nat by lia. simpl. apply drop_app_length.
Qed.

Lemma area_octets end_ off : Forall is_u8 (area end_ off).
Proof using Hu. by apply Forall_take, Forall_drop, Forall_drop. Qed.

Lemma ram_tlv_result key end_ digest vk fuel off s :
  octets 64 (tk_xy key) → scheme_from_xy (tk_xy key) = Ok vk → octets 32 digest →
  0 <= off <= end_ → (Z.to_nat (end_ - off) <= fuel)%nat → slot + end_ <= Z.of_nat (length l) →
  tlv_loop (F:=Ram) fuel slot end_ digest (key_hash key) vk off s l = (Err Malformed, l) ∨
  ∃ es s', tlv_entries (area end_ off) es ∧ tlv_run key digest vk es s = Ok s' ∧
    tlv_loop (F:=Ram) fuel slot end_ digest (key_hash key) vk off s l = (Ok s', l).
Proof using Hslot Hsize Hu LK.
  intros Hxy Hvk Hdg Ho Hf Hl. revert off s Ho Hf. induction fuel as [|fuel IH]; intros off s Ho Hf;
    pose proof (area_length end_ off Ho Hl) as Hlen.
  { right. exists [], s. destruct (area end_ off); [|simpl in Hlen; lia]. split; [constructor|]. split; [done|].
    cbn [tlv_loop]. by rewrite (proj2 (Z.leb_le _ _)) by lia. }
  destruct (decide (off = end_)) as [->|Hne].
  { right. exists [], s. destruct (area end_ end_); [|simpl in Hlen; lia]. split; [constructor|]. split; [done|].
    cbn [tlv_loop]. by rewrite (proj2 (Z.leb_le _ _)) by lia. }
  rewrite ram_tlv_step by lia. pose proof (λ n, area_drop end_ off (4 + n)) as Hd.
  assert (Ho8 : Forall is_u8 (area end_ off)) by (by apply Forall_take, Forall_drop, Forall_drop).
  destruct (area end_ off) as [|k0 [|k1 [|l0 [|l1 t]]]]; [by left..|]. do 4 (apply Forall_cons in Ho8 as [? Ho8]).
  pose proof (u16_from_le_range l0 l1 ltac:(done) ltac:(done)) as Hn. set (n := u16_from_le l0 l1) in *. unfold is_u16 in Hn.
  destruct (Z.leb_spec n (Z.of_nat (length t))) as [Hnt|]; [|by left]. rewrite bind_lift. simpl in Hlen.
  destruct (tlv_apply_total key digest vk (u16_from_le k0 k1, take (Z.to_nat n) t) s Hxy Hvk Hdg) as [[s1 Hs1] | [-> _]];
    [by apply Forall_take| |by left]. rewrite Hs1.
  destruct (IH (off + 4 + n) s1 ltac:(lia) ltac:(lia)) as [-> | (es & s' & He & Hr & ->)]; [by left|right].
  exists ((u16_from_le k0 k1, take (Z.to_nat n) t) :: es), s'. split; [|split; [|done]].
  - rewrite <- (take_drop (Z.to_nat n) t) at 1. constructor; [rewrite length_take; lia|].
    replace (drop (Z.to_nat n) t) with (area end_ (off + 4 + n)); [done|].
    replace (off + 4 + n) with (off + (4 + n)) by lia. rewrite Hd by lia.
    replace (Z.to_nat (4 + n)) with (4 + Z.to_nat n)%nat by lia. done.
  - cbn [tlv_run]. by rewrite Hs1.
Qed.

Lemma ram_header :
  slot + 32 <= Z.of_nat (length l) → header_read (F:=Ram) slot l = (Ok (header_parse (take IMAGE_HEADER_LEN img)), l).
Proof using Hslot.
  intros Hl. unfold header_read, mbind, stm_bind. replace slot with (slot + 0) at 1 by lia.
  by rewrite ram_read by (unfold IMAGE_HEADER_LEN; lia).
Qed.


(** The end of a validation, once the geometry is known to be right. *)
Lemma ram_authenticate key max_len h end_ :
  octets 64 (tk_xy key) → header_parse (take IMAGE_HEADER_LEN img) = Some h → header_ok h →
  ih_flags h = 0 ∧ 32 <= ih_hdr_size h →
  hashed_len h + 4 <= end_ <= max_len → is_u16 (end_ - hashed_len h) → slot + max_len <= Z.of_nat (length l) →
  (ih_protect_tlv_size h ≠ 0 → take 4 (drop (Z.to_nat (ih_hdr_size h + ih_img_size h)) img) =
     u16_to_le TLV_PROTECTED_INFO_MAGIC ++ u16_to_le (ih_protect_tlv_size h)) →
  take 4 (drop (Z.to_nat (hashed_len h)) img) = u16_to_le TLV_INFO_MAGIC ++ u16_to_le (end_ - hashed_len h) →
  exact key img max_len
    ((digest ← hash_range (F:=Ram) slot (hashed_len h);
      verifying_key ← lift (scheme_from_xy (tk_xy key));
      offset ← lift (add_u32 (hashed_len h) 4);
      s ← tlv_loop (Z.to_nat (end_ - hashed_len h)) slot end_ digest (key_hash key) verifying_key offset
            (mk_TlvState false false false);
      if negb (ts_hash_ok s) then throw HashMismatch
      else if negb (ts_signature_ok s) then throw BadSignature
      else mret (mk_ValidImage h end_ digest)) l).1.
Proof using Hslot Hsize Hu LS LK.
  intros Hxy Hp (H1 & H2 & H3) Hplain Hend Hu16 Hl Hprot Hinfo. unfold is_u16, is_u32 in *. set (hl := hashed_len h) in *.
  assert (H0 : 32 <= hl) by (unfold hl, hashed_len; lia).
  unfold mbind at 1, stm_bind at 1. rewrite ram_hash_range by lia. set (digest := sha256 _).
  destruct (ls_from_xy (tk_xy key) Hxy) as [vk Hvk]. rewrite Hvk. unfold mbind at 1, stm_bind at 1, lift at 1.
  assert (Ha : add_u32 (E:=ImageError) hl 4 = Ok (hl + 4)) by (unfold add_u32; case_match eqn:Hx; [done|]; bool_simpl; lia).
  rewrite Ha. unfold mbind at 1, stm_bind at 1, lift at 1. unfold mbind at 1, stm_bind at 1.
  assert (Hwhole : area end_ hl = u16_to_le TLV_INFO_MAGIC ++ u16_to_le (end_ - hl) ++ area end_ (hl + 4)).
  { rewrite area_drop, app_assoc, <- Hinfo, (area_take end_ hl) by lia. symmetry. apply take_drop. }
  assert (Hsame : ∀ v, signed_image key img max_len v → v = mk_ValidImage h end_ digest).
  { intros [h' e' d'] Hv. pose proof (signed_info key img max_len _ (ram_octets 0 32 ltac:(lia) ltac:(lia)) Hv) as [He16 Ht4].
    destruct Hv as [Hh _ Hd _ _ _]. cbn [vi_header vi_end vi_digest] in *.
    rewrite Hp in Hh. injection Hh as <-. fold hl in Hd, He16, Ht4. subst d'. fold digest. f_equal. unfold is_u16 in He16.
    rewrite Hinfo in Ht4. apply app_inv_head in Ht4. apply (f_equal (λ t, u16_from_le (t !!! 0%nat) (t !!! 1%nat))) in Ht4.
    unfold u16_to_le in Ht4. simpl in Ht4. rewrite !u16_from_to_le in Ht4 by (unfold is_u16; lia). lia. }
  assert (Hentries : ∀ v, signed_image key img max_len v → ∃ es, tlv_entries (area end_ (hl + 4)) es ∧
    Forall (λ e, e.1 = TLV_SHA256 → length e.2 = 32%nat) es ∧
    last (filter (λ e, e.1 = TLV_SHA256) es) = Some (TLV_SHA256, digest) ∧ authenticated key digest es).
  { intros v Hv. pose proof (Hsame v Hv) as ->. destruct Hv as [_ _ _ _ _ (a & es & Ht & Hes)].
    cbn [vi_end vi_header vi_digest] in *. fold hl in Ht. change (take _ (drop _ img)) with (area end_ hl) in Ht. rewrite Hwhole in Ht.
    do 2 apply app_inv_head in Ht. subst a. by exists es. }
  destruct (ram_tlv_result key end_ digest vk (Z.to_nat (end_ - hl)) (hl + 4) (mk_TlvState false false false)) as
    [Hm | (es & s & He & Hr & Hm)]; [done|done|apply sha_digest|lia|lia|lia|rewrite Hm..].
  { apply exact_err; [done|]. intros v Hv. destruct (Hentries v Hv) as (es & He & Hf & _).
    destruct (tlv_run_total key digest vk es (mk_TlvState false false false)) as [s Hs];
      [done|done|apply sha_digest|done|apply (tlv_entries_octets _ _ He), area_octets|].
    rewrite (ram_tlv_entries key end_ digest vk _ _ _ _ es) in Hm by (done || lia). congruence. }
  assert (Hrun : ∀ v, signed_image key img max_len v → ts_hash_ok s = true ∧ ts_signature_ok s = true).
  { intros v Hv. destruct (Hentries v Hv) as (es' & He' & _ & Hlast & Hauth).
    rewrite (ram_tlv_entries key end_ digest vk _ _ _ _ es') in Hm by (done || lia). injection Hm as Hm. split.
    - apply tlv_run_hash in Hm as [_ ->]. rewrite Hlast. by apply bool_decide_eq_true.
    - apply (tlv_run_signature key digest vk es' _ _ Hvk Hm). auto. }
  destruct (ts_hash_ok s) eqn:Hh; cbn [negb]; [|apply exact_err; [done|]; intros v Hv; by destruct (Hrun v Hv)].
  destruct (ts_signature_ok s) eqn:Hs; cbn [negb]; [|apply exact_err; [done|]; intros v Hv; by destruct (Hrun v Hv)].
  left. eexists. split; [done|]. destruct (tlv_run_hash _ _ _ _ _ _ Hr) as [Hf Hlast]. rewrite Hh in Hlast.
  apply (tlv_run_signature key digest vk es _ _ Hvk Hr) in Hs as [? | [[? _] | Hs]]; [done|done|].
  constructor; cbn [vi_header vi_end vi_digest]; [done|done|done|fold hl; unfold is_u16; lia|done|].
  exists (area end_ (hl + 4)), es. split; [exact Hwhole|]. split; [done|]. split; [done|]. split; [|done].
  destruct (last (filter _ es)) as [[kind value]|] eqn:Hlast'; [|done]. apply last_Some_elem_of in Hlast'.
  apply list_elem_of_filter in Hlast' as [Hk _]. simpl in Hk, Hlast. symmetry in Hlast. apply bool_decide_eq_true in Hlast. by subst.
Qed.

Lemma ram_protected h max_len :
  header_ok h → hashed_len h + 4 <= max_len → slot + max_len <= Z.of_nat (length l) →
  ∃ b, (if negb (ih_protect_tlv_size h =? 0) then
          info ← read_array (F:=Ram) 4 slot (hashed_len h - ih_protect_tlv_size h) max_len;
          mret ((u16_from_le (info !!! 0%nat) (info !!! 1%nat) =? TLV_PROTECTED_INFO_MAGIC)
                && (u16_from_le (info !!! 2%nat) (info !!! 3%nat) =? ih_protect_tlv_size h))
        else mret true) l = (Ok b, l) ∧
    (b = true ↔ (ih_protect_tlv_size h ≠ 0 → take 4 (drop (Z.to_nat (ih_hdr_size h + ih_img_size h)) img) =
                   u16_to_le TLV_PROTECTED_INFO_MAGIC ++ u16_to_le (ih_protect_tlv_size h))).
Proof using Hslot Hsize Hu.
  intros (H1 & H2 & H3) Hm Hl. unfold is_u16, is_u32, hashed_len in *.
  destruct (Z.eqb_spec (ih_protect_tlv_size h) 0) as [Hz|Hz]; cbn [negb]; [by exists true|].
  unfold mbind, stm_bind. rewrite ram_array by lia.
  replace (ih_hdr_size h + ih_img_size h + ih_protect_tlv_size h - ih_protect_tlv_size h) with (ih_hdr_size h + ih_img_size h) by lia.
  rewrite (proj2 (Z.leb_le _ _)) by lia. eexists. split; [done|].
  rewrite <- info_exact; [naive_solver|apply ram_octets; lia|done|unfold is_u16; lia].
Qed.

Lemma ram_validate key max_len :
  octets 64 (tk_xy key) → 32 <= max_len → slot + max_len <= Z.of_nat (length l) →
  exact key img max_len (validate (F:=Ram) slot max_len key l).1.
Proof using Hslot Hsize Hu LS LK.
  intros Hxy H32 Hl. unfold validate, mbind at 1, stm_bind at 1. rewrite ram_header by lia.
  assert (Ho32 : octets 32 (take 32 img)) by (apply (ram_octets 0 32); lia).
  destruct (header_parse (take IMAGE_HEADER_LEN img)) as [h|] eqn:Hp;
    [|apply exact_err; [done|]; intros v Hv; pose proof (si_header _ _ _ _ Hv); congruence].
  assert (Hsame : ∀ v, signed_image key img max_len v → vi_header v = h)
    by (intros v Hv; pose proof (si_header _ _ _ _ Hv); congruence).
  pose proof (header_parse_ok _ _ Ho32 Hp) as Hok. destruct (Hok) as (H1 & H2 & H3). unfold is_u16, is_u32 in *.
  destruct (Z.eqb_spec (ih_flags h) 0) as [Hf|Hf]; cbn [negb];
    [|apply exact_err; [done|]; intros v Hv; rewrite <- (Hsame v Hv) in Hf; by apply Hf, Hv].
  destruct (Z.ltb_spec (ih_hdr_size h) (Z.of_nat IMAGE_HEADER_LEN)) as [Hh|Hh]; unfold IMAGE_HEADER_LEN in Hh.
  { apply exact_err; [done|]. intros v Hv. destruct (si_plain _ _ _ _ Hv) as [_ Hv']. rewrite (Hsame v Hv) in Hv'. lia. }
  (* an image that is signed fits, and its TLV area is announced *)
  assert (Hfit : ∀ v, signed_image key img max_len v → hashed_len h + 4 <= vi_end v ∧ vi_end v <= max_len)
    by (intros v Hv; rewrite <- (Hsame v Hv); by apply (signed_header key img max_len v Ho32 Hv)).
  assert (Hinfo : ∀ v, signed_image key img max_len v → is_u16 (vi_end v - hashed_len h) ∧
            take 4 (drop (Z.to_nat (hashed_len h)) img) = u16_to_le TLV_INFO_MAGIC ++ u16_to_le (vi_end v - hashed_len h))
    by (intros v Hv; rewrite <- (Hsame v Hv); by apply (signed_info key img max_len v Ho32 Hv)).
  destruct (checked_add_u32 (ih_hdr_size h) (ih_img_size h)) as [x|] eqn:Hx; cbn [mbind option_bind].
  2: { apply exact_err; [done|]. intros v Hv. apply Hfit in Hv. unfold checked_add_u32, hashed_len in *.
       case_match eqn:Hc; [done|]. bool_simpl. lia. }
  apply checked_add_Some in Hx as [-> _]. fold (hashed_len h).
  destruct (checked_add_u32 (ih_hdr_size h + ih_img_size h) (ih_protect_tlv_size h)) as [hl|] eqn:Hx.
  2: { apply exact_err; [done|]. intros v Hv. apply Hfit in Hv. unfold checked_add_u32, hashed_len in *.
       case_match eqn:Hc; [done|]. bool_simpl. lia. }
  apply checked_add_Some in Hx as [-> _]. fold (hashed_len h). assert (H0 : 0 <= hashed_len h) by (unfold hashed_len; lia).
  unfold mbind at 1, stm_bind at 1. rewrite ram_array by lia.
  destruct (Z.leb_spec (hashed_len h + Z.of_nat 4) max_len) as [H4|H4];
    [|apply exact_err; [done|]; intros v Hv; apply Hfit in Hv; lia].
  pose proof (ram_octets (hashed_len h) 4 H0 ltac:(lia)) as Hoi. set (info := take 4 _) in *.
  pose proof (u16_at_range 4 info 2 Hoi ltac:(lia)) as Ht.
  set (tlv_total := u16_from_le (info !!! 2%nat) (info !!! 3%nat)) in *. set (magic := u16_from_le (info !!! 0%nat) _) in *.
  assert (Hend : ∀ v, signed_image key img max_len v → magic = TLV_INFO_MAGIC ∧ vi_end v = hashed_len h + tlv_total).
  { intros v Hv. destruct (Hinfo v Hv) as [H16 Hi]. apply info_exact in Hi; [|done|done|done].
    apply andb_true_iff in Hi as [Hi1%Z.eqb_eq Hi2%Z.eqb_eq]. fold magic in Hi1. fold tlv_total in Hi2. lia. }
  destruct (Z.eqb_spec magic TLV_INFO_MAGIC) as [Hm|Hm]; cbn [negb];
    [|apply exact_err; [done|]; intros v Hv; by apply Hend in Hv as [? _]].
  destruct (checked_add_u32 (hashed_len h) tlv_total) as [end_|] eqn:Hx.
  2: { apply exact_err; [done|]. intros v Hv. pose proof (Hfit v Hv). apply Hend in Hv. unfold checked_add_u32 in Hx.
       case_match eqn:Hc; [done|]. bool_simpl. lia. }
  apply checked_add_Some in Hx as [He _]. assert (Ht' : tlv_total = end_ - hashed_len h) by lia. rewrite Ht' in *.
  destruct ((end_ <=? max_len) && (4 <=? end_ - hashed_len h)) eqn:Hc; cbn [negb];
    [|apply exact_err; [done|]; intros v Hv; pose proof (Hfit v Hv); apply Hend in Hv; bool_simpl; lia].
  unfold mbind at 1, stm_bind at 1.
  destruct (ram_protected h max_len) as (b & -> & Hb); [done|lia|done|]. destruct b; cbn [negb].
  - apply ram_authenticate; try done; [bool_simpl; lia|by apply Hb|]. apply info_exact; [done|done|done|].
    apply andb_true_iff. split; apply Z.eqb_eq; [exact Hm|exact Ht'].
  - apply exact_err; [done|]. intros v Hv. assert (false = true) by (apply Hb; rewrite <- (Hsame v Hv); apply Hv). done.
Qed.
End OnContents.

Section Validation.
Context {F : Type} {HF : NorFlash F} (bytes : F → list Z) {BF : BootFlash F bytes}.
Context {HS : Sha256} {LS : LawfulSha} {HK : SignatureScheme} {LK : LawfulScheme}.

Lemma validate_signed fallible {RL : Reliable F bytes fallible} f slot max_len key :
  octets 64 (tk_xy key) → 0 <= slot → 32 <= max_len → slot + max_len <= Z.of_nat (length (bytes f)) →
  bytes (validate slot max_len key f).2 = bytes f ∧
  ((validate slot max_len key f).1 = Err Flash ∧ fallible ∨
   exact key (drop (Z.to_nat slot) (bytes f)) max_len (validate slot max_len key f).1).
Proof using BF LS LK.
  intros Hxy Hs H32 Hl. destruct (follows_validate bytes fallible slot max_len key Hs f) as (Hb & _ & _ & Hr). split; [done|].
  destruct Hr as [-> | [-> Hf]]; [right|by left].
  apply ram_validate; [done|apply bf_octets|apply bf_size|done|done|done].
Qed.

Lemma slot_octets f slot max_len :
  0 <= slot → 32 <= max_len → slot + max_len <= Z.of_nat (length (bytes f)) →
  octets 32 (take 32 (drop (Z.to_nat slot) (bytes f))).
Proof using BF. intros Hs H32 Hl. apply (ram_octets (bytes f) slot Hs (bf_octets f) 0 32); lia. Qed.

(** C12. Validation never panics and changes nothing.  Unless a read of the device
    fails, it accepts an image if and only if the octets of the slot are an
    image signed by the trusted key, and it returns that image: the header is
    readable, nothing reaches beyond [max_len], the last SHA-256 entry is the
    hash of header, firmware and protected entries, and a signature by the key
    follows the hash of the key. *)
Theorem validate_exact f slot max_len key :
  octets 64 (tk_xy key) → 0 <= slot → 32 <= max_len → slot + max_len <= Z.of_nat (length (bytes f)) →
  let '(r, f') := validate slot max_len key f in
  bytes f' = bytes f ∧ r ≠ Panic ∧
  (r ≠ Err Flash → ∀ v, r = Ok v ↔ signed_image key (drop (Z.to_nat slot) (bytes f)) max_len v).
Proof using BF LS LK.
  intros Hxy Hs H32 Hl. pose proof (any_reliable bytes).
  destruct (validate_signed True f slot max_len key Hxy Hs H32 Hl) as [Hb Hr].
  destruct (validate slot max_len key f) as [r f']. simpl in Hb, Hr. split; [done|]. split; [by destruct Hr as [[-> _] | [(v & -> & _) | (e & -> & _)]]|].
  intros Hne v. destruct Hr as [[-> _] | [(v' & -> & Hv) | (e & -> & _ & Hv)]]; [done| |split; [done|by intros ?%Hv]].
  split; [by intros [= <-]|]. intros Hv'. f_equal. by apply (signed_unique key _ max_len _ _ (slot_octets f slot max_len Hs H32 Hl)).
Qed.
End Validation.

Lemma validate_exact_witness :
  let chip := mk_Chip (twin_slot (twin_image 1) true ++ twin_slot (twin_image 2) true) in
  let v := mk_ValidImage (mk_ImageHeader 0 32 0 4 0 (mk_ImageVersion 2 0 0 0)) 124 (take 32 (twin_image 2)) in
  (validate (HK:=twin_scheme) 512 256 twin_key chip).1 = Ok v ∧
  signed_image (HK:=twin_scheme) twin_key (drop 512 (chip_bytes chip)) 256 v.
Proof.
  intros chip v.
  pose proof (validate_exact chip_bytes (HK:=twin_scheme) chip 512 256 twin_key) as H.
  destruct (validate 512 256 twin_key chip) as [r f'] eqn:Hr.
  assert (Hv : r = Ok v) 
    by (transitivity (validate (HK:=twin_scheme) 512 256 twin_key chip).1; [by rewrite Hr|vm_compute; reflexivity]).
  destruct H as (_ & _ & H).
  - split; [reflexivity|]. apply Forall_replicate. unfold is_u8. lia.
  - lia.
  - lia.
  - rewrite chip_length. vm_compute. discriminate.
  - split; [exact Hv|]. apply H; [by rewrite Hv|exact Hv].
Defined.
