(* ===== verification/BootLoader.v ===== *)
(** * BootLoader: the boot decision and the installation of an image

    [mcuboot-image/src/boot.rs]: two slots in one flash device, a request at the
    end of the secondary slot, the copy of its image into the primary slot and
    the validation of what is started.  The state is the device and the events
    reported to the [progress] callback. *)

From S2P Require Import Prelude Effects NvStorage LogNv P256 P256Curve BootImage BootChip BootValid.

Local Open Scope Z_scope.

Definition COPY_CHUNK : Z := 256.

Record Layout := mk_Layout { ly_primary : Z; ly_secondary : Z; ly_slot_size : Z; ly_sector_size : Z }.

Definition max_image_len {E} (L : Layout) : outcome E Z := sub_u32 (ly_slot_size L) (ly_sector_size L).

Definition trailer_sector {E} (L : Layout) (slot : Z) : outcome E Z :=
  x ← add_u32 slot (ly_slot_size L); sub_u32 x (ly_sector_size L).

(** [a.div_ceil(b) * b] on [u32]; a division by zero panics. *)
Definition round_up_to {E} (a b : Z) : outcome E Z :=
  if b =? 0 then Panic
  else let x := ((a + b - 1) / b) * b in if x <? 4294967296 then Ok x else Panic.

Definition round_up {E} (L : Layout) (len : Z) : outcome E Z := round_up_to len (ly_sector_size L).

Inductive Update := NoUpdate | Installed | Rejected (e : ImageError) | Downgrade.
#[export] Instance Update_eq_dec : EqDecision Update.
Proof. solve_decision. Defined.

Inductive BootEvent := Validating | Erasing | Copying (done total : Z) | Dropping.

Record Bootable := mk_Bootable { bt_image : ValidImage; bt_vector_table : Z; bt_update : Update }.

Inductive BootError := FlashFailed | CopyCorrupt | NoBootableImage (primary : ImageError) (update : Update).

Section Loader.
Context {F : Type} {HF : NorFlash F} {HS : Sha256} {HK : SignatureScheme}.
Local Abbreviation io := (stm (F * list BootEvent) BootError).

(** [progress(event)] *)
Definition report (event : BootEvent) : io unit := modify_st (λ '(f, log), (f, log ++ [event])).

(** A call on the device, and one whose [Result] is matched on. *)
Definition on_flash {A} (m : stm F BootError A) : io A := λ '(f, log), let '(r, f) := m f in (r, (f, log)).
Definition attempt {E A} (m : stm F E A) : io (A + E) := λ '(f, log),
  match m f with
  | (Ok a, f) => (Ok (inl a), (f, log))
  | (Err e, f) => (Ok (inr e), (f, log))
  | (Panic, f) => (Panic, (f, log))
  end.

(** [flash.erase(from, to).map_err(|_| BootError::Flash)?], and a write. *)
Definition erase_or (from to : Z) : io unit := on_flash (λ f,
  match flash_erase from to f with (true, f) => (Ok (), f) | (false, f) => (Err FlashFailed, f) end).
Definition write_or (address : Z) (data : list Z) : io unit := on_flash (λ f,
  match flash_write address data f with (true, f) => (Ok (), f) | (false, f) => (Err FlashFailed, f) end).

Definition erase_sector (address size : Z) : io unit :=
  to ← lift (add_u32 address size); erase_or address to.

Fixpoint copy_loop (fuel : nat) (L : Layout) (total offset : Z) : io unit :=
  if total <=? offset then mret ()
  else
    match fuel with
    | O => lift Panic
    | S fuel =>
        _ ← report (Copying offset total);
        let chunk := Z.min COPY_CHUNK (total - offset) in
        from ← lift (add_u32 (ly_secondary L) offset);
        data ← on_flash (read_or FlashFailed from (Z.to_nat chunk));
        _ ← (if existsb (λ byte, negb (byte =? 0xFF)) data then
               to ← lift (add_u32 (ly_primary L) offset); write_or to data
             else mret ());
        offset ← lift (add_u32 offset chunk);
        copy_loop fuel L total offset
    end.

Definition install (L : Layout) (key : TrustedKey) (image : ValidImage) : io unit :=
  total ← lift (round_up_to (vi_end image) (Z.of_nat WRITE_SIZE));
  _ ← report Erasing;
  rounded ← lift (round_up L total);
  erase_end ← lift (add_u32 (ly_primary L) rounded);
  _ ← erase_or (ly_primary L) erase_end;
  _ ← copy_loop (S (Z.to_nat (total / COPY_CHUNK))) L total 0;
  _ ← report Validating;
  max_len ← lift (max_image_len L);
  r ← attempt (validate (ly_primary L) max_len key);
  match r with
  | inl copy => if bool_decide (vi_digest copy = vi_digest image) then mret () else throw CopyCorrupt
  | inr Flash => throw FlashFailed
  | inr _ => throw CopyCorrupt
  end.

Definition process_request (L : Layout) (key : TrustedKey) : io Update :=
  magic ← on_flash (read_magic FlashFailed (ly_secondary L) (ly_slot_size L));
  if negb (bool_decide (magic = Good)) then mret NoUpdate
  else
    _ ← report Validating;
    max_len ← lift (max_image_len L);
    r ← attempt (validate (ly_secondary L) max_len key);
    update ←
      match r with
      | inr Flash => throw FlashFailed
      | inr error => mret (Rejected error)
      | inl candidate =>
          h ← attempt (header_read (ly_primary L));
          match h with
          | inr _ => throw FlashFailed
          | inl primary =>
              if match primary with
                 | Some primary => release_lt (ih_version (vi_header candidate)) (ih_version primary)
                 | None => false
                 end
              then mret Downgrade
              else _ ← install L key candidate; mret Installed
          end
      end;
    _ ← report Dropping;
    trailer ← lift (trailer_sector L (ly_secondary L));
    _ ← erase_sector trailer (ly_sector_size L);
    _ ← erase_sector (ly_secondary L) (ly_sector_size L);
    mret update.

Definition boot (L : Layout) (key : TrustedKey) : io Bootable :=
  update ← process_request L key;
  _ ← report Validating;
  max_len ← lift (max_image_len L);
  r ← attempt (validate (ly_primary L) max_len key);
  match r with
  | inl image =>
      vector_table ← lift (add_u32 (ly_primary L) (ih_hdr_size (vi_header image)));
      mret (mk_Bootable image vector_table update)
  | inr Flash => throw FlashFailed
  | inr primary => throw (NoBootableImage primary update)
  end.
End Loader.

(** * Regions of the device *)

Lemma changed_refl l a n : changed_in l l a n.
Proof. done. Qed.

(** Changes within a range are changes of the range. *)
Lemma changed_trans l l1 l2 a n a' n' :
  changed_in l l1 a n → changed_in l1 l2 a' n' → (a <= a')%nat → (a' + n' <= a + n)%nat → changed_in l l2 a n.
Proof.
  intros [Hl1 H1] [Hl2 H2] Ha Hn. split; [congruence|]. intros i Hi. rewrite H2 by lia. by apply H1.
Qed.

Lemma changed_weaken l l' a n a' n' : changed_in l l' a' n' → (a <= a')%nat → (a' + n' <= a + n)%nat → changed_in l l' a n.
Proof. apply changed_trans, changed_refl. Qed.

(** The octets elsewhere stay. *)
Lemma changed_region l l' a n b m :
  changed_in l l' a n → (b + m <= a)%nat ∨ (a + n <= b)%nat → take m (drop b l') = take m (drop b l).
Proof.
  intros [_ Hc] Hd. apply list_eq. intros i. destruct (decide (i < m)%nat) as [Hi|Hi].
  - rewrite !lookup_take_lt, !lookup_drop by done. apply Hc. lia.
  - by rewrite !lookup_take_ge by lia.
Qed.

(** The slots are disjoint, within the device and on its grid. *)
Record layout_ok {F} {HF : NorFlash F} (len : Z) (L : Layout) : Prop := {
  lo_sector : 32 <= ly_sector_size L;
  lo_slot : 2 * ly_sector_size L <= ly_slot_size L;
  lo_whole : (ly_sector_size L | ly_slot_size L);
  lo_primary : 0 <= ly_primary L ∧ ly_primary L + ly_slot_size L <= len;
  lo_secondary : 0 <= ly_secondary L ∧ ly_secondary L + ly_slot_size L <= len;
  lo_disjoint : ly_primary L + ly_slot_size L <= ly_secondary L ∨ ly_secondary L + ly_slot_size L <= ly_primary L;
  lo_erase : (Z.of_nat ERASE_SIZE | ly_sector_size L) ∧ (Z.of_nat ERASE_SIZE | ly_primary L) ∧ (Z.of_nat ERASE_SIZE | ly_secondary L);
  lo_write : (Z.of_nat WRITE_SIZE | ly_sector_size L) ∧ (Z.of_nat WRITE_SIZE | ly_primary L) ∧ (Z.of_nat WRITE_SIZE | COPY_CHUNK) }.

Lemma round_up_to_spec {E} a b m :
  0 < b → 0 <= a <= m → (b | m) → m < 4294967296 →
  ∃ x, round_up_to (E:=E) a b = Ok x ∧ a <= x <= m ∧ x < a + b ∧ (b | x).
Proof.
  intros Hb Ha [k ->] Hm. unfold round_up_to. rewrite (proj2 (Z.eqb_neq b 0)) by lia. cbv zeta.
  pose proof (Z.div_mod (a + b - 1) b ltac:(lia)) as Hd. pose proof (Z.mod_pos_bound (a + b - 1) b Hb) as Hr.
  set (q := (a + b - 1) / b) in *. assert (Hq : q <= k) by nia.
  assert (Hx : q * b <= k * b) by nia. rewrite (proj2 (Z.ltb_lt _ _)) by lia. exists (q * b). split; [done|].
  split; [nia|]. split; [nia|]. by exists q.
Qed.

(** * Running the loader *)

Section Run.
Context {F : Type} {HF : NorFlash F} (bytes : F → list Z) {BF : BootFlash F bytes}.
Context (fallible : Prop) {RL : Reliable F bytes fallible}.
Context {HS : Sha256} {LS : LawfulSha} {HK : SignatureScheme} {LK : LawfulScheme}.
Context (len : Z) (L : Layout) (HL : layout_ok len L) (key : TrustedKey) (Hkey : octets 64 (tk_xy key)).
Local Abbreviation io := (stm (F * list BootEvent) BootError).
Local Abbreviation size f := (Z.of_nat (length (bytes f))).

(** The outcome of [m] and the device it leaves. *)
Definition ends {A} (m : io A) (Q : outcome BootError A → F → Prop) (f : F) : Prop :=
  ∀ log, Q (m (f, log)).1 (m (f, log)).2.1.

Lemma ends_ret {A} (a : A) (Q : _ → F → Prop) f : Q (Ok a) f → ends (mret a) Q f.
Proof. by intros H log. Qed.
Lemma ends_throw {A} e (Q : outcome _ A → F → Prop) f : Q (Err e) f → ends (throw e) Q f.
Proof. by intros H log. Qed.
Lemma ends_bind {A B} (m : io A) (k : A → io B) Q f :
  ends m (λ r f', match r with Ok a => ends (k a) Q f' | Err e => Q (Err e) f' | Panic => Q Panic f' end) f →
  ends (m ≫= k) Q f.
Proof.
  intros H log. specialize (H log). cbv [mbind stm_bind]. destruct (m (f, log)) as [[a|e|] [f' log']]; simpl in *; [apply H|done|done].
Qed.
Lemma ends_mono {A} (m : io A) (Q Q' : outcome BootError A → F → Prop) f :
  ends m Q f → (∀ r f', Q r f' → Q' r f') → ends m Q' f.
Proof. intros H HQ log. apply HQ, H. Qed.
Lemma ends_report ev {B} (k : unit → io B) Q f : ends (k ()) Q f → ends (report ev ≫= k) Q f.
Proof. intros H. apply ends_bind. intros log. exact H. Qed.
Lemma ends_lift {A B} (o : outcome BootError A) a (k : A → io B) Q f : o = Ok a → ends (k a) Q f → ends (lift o ≫= k) Q f.
Proof. intros -> H. apply ends_bind. intros log. exact H. Qed.

Lemma add_Ok {E} a b : a + b < 4294967296 → add_u32 (E:=E) a b = Ok (a + b).
Proof. intros H. unfold add_u32. case_match eqn:Hx; [done|]. bool_simpl. lia. Qed.
Lemma sub_Ok {E} a b : b <= a → sub_u32 (E:=E) a b = Ok (a - b).
Proof. intros H. unfold sub_u32. case_match eqn:Hx; [|done]. bool_simpl. lia. Qed.

(** An erase, completed or not, changes its range only. *)
Lemma ends_erase a b Q f :
  0 <= a <= b → b <= size f → (Z.of_nat ERASE_SIZE | a) → (Z.of_nat ERASE_SIZE | b) →
  (∀ r f', changed_in (bytes f) (bytes f') (Z.to_nat a) (Z.to_nat (b - a)) →
     (r = Err FlashFailed ∧ fallible) ∨
     (r = Ok () ∧ take (Z.to_nat (b - a)) (drop (Z.to_nat a) (bytes f')) = replicate (Z.to_nat (b - a)) 0xFF) → Q r f') →
  ends (erase_or a b) Q f.
Proof using BF RL.
  intros Ha Hb Hda Hdb HQ log. unfold erase_or, on_flash. destruct (flash_erase a b f) as [ok f'] eqn:He.
  destruct (bf_erase f a b ok f' He Ha) as [Hc Hok]. destruct ok; simpl; apply HQ; try done.
  - right. split; [done|]. by apply Hok.
  - left. split; [done|]. by apply (rl_erase f a b f' He).
Qed.

Lemma ends_write a d Q f :
  0 <= a → a + Z.of_nat (length d) <= size f → Forall is_u8 d →
  (Z.of_nat WRITE_SIZE | a) → (Z.of_nat WRITE_SIZE | Z.of_nat (length d)) →
  take (length d) (drop (Z.to_nat a) (bytes f)) = replicate (length d) 0xFF →
  (∀ r f', changed_in (bytes f) (bytes f') (Z.to_nat a) (length d) →
     (r = Err FlashFailed ∧ fallible) ∨ (r = Ok () ∧ take (length d) (drop (Z.to_nat a) (bytes f')) = d) → Q r f') →
  ends (write_or a d) Q f.
Proof using BF RL.
  intros Ha Hb Hu Hda Hdb Hff HQ log. unfold write_or, on_flash. destruct (flash_write a d f) as [ok f'] eqn:He.
  destruct (bf_write f a d ok f' He Ha Hu) as [Hc Hok]. destruct ok; simpl; apply HQ; try done.
  - right. split; [done|]. by apply Hok.
  - left. split; [done|]. by apply (rl_write f a d f' He).
Qed.

Lemma ends_read a n Q f :
  0 <= a → a + Z.of_nat n <= size f →
  (∀ r f', bytes f' = bytes f → (r = Err FlashFailed ∧ fallible) ∨ r = Ok (take n (drop (Z.to_nat a) (bytes f))) → Q r f') →
  ends (on_flash (read_or FlashFailed a n)) Q f.
Proof using BF RL.
  intros Ha Hb HQ log. unfold on_flash, read_or. destruct (flash_read a n f) as [r f'] eqn:Hr.
  destruct (bf_read f a n r f' Hr Ha) as [Hf Hl]. destruct r as [l|]; simpl; apply HQ; try done.
  - right. f_equal. by apply Hl.
  - left. split; [done|]. by apply (rl_read f a n f' Hr).
Qed.

Lemma ends_validate slot max_len Q f :
  0 <= slot → 32 <= max_len → slot + max_len <= size f →
  (∀ r f', bytes f' = bytes f →
     (r = inr Flash ∧ fallible) ∨
     (∃ v, r = inl v ∧ signed_image key (drop (Z.to_nat slot) (bytes f)) max_len v) ∨
     (∃ e, r = inr e ∧ e ≠ Flash ∧ ∀ v, ¬ signed_image key (drop (Z.to_nat slot) (bytes f)) max_len v) → Q (Ok r) f') →
  ends (attempt (validate slot max_len key)) Q f.
Proof using BF RL LS LK Hkey.
  intros Hs Hm Hl HQ log. destruct (validate_signed bytes fallible f slot max_len key Hkey Hs Hm Hl) as [Hb Hr].
  unfold attempt. destruct (validate slot max_len key f) as [r f']. simpl in Hb, Hr.
  destruct Hr as [[-> Hf] | [(v & -> & Hv) | (e & -> & He & Hv)]]; simpl; (apply HQ; [done|]); [by left| |]; right; [left|right]; eauto.
Qed.

Lemma ends_header slot Q f :
  0 <= slot → slot + 32 <= size f →
  (∀ r f', bytes f' = bytes f →
     (∃ e, r = inr e ∧ fallible) ∨ r = inl (header_parse (take 32 (drop (Z.to_nat slot) (bytes f)))) → Q (Ok r) f') →
  ends (attempt (header_read slot)) Q f.
Proof using BF RL.
  intros Hs Hl HQ log. destruct (follows_header bytes fallible slot Hs f) as (Hb & _ & _ & Hr).
  rewrite (ram_header (bytes f) slot Hs) in Hr by done.
  unfold attempt. destruct (header_read slot f) as [r f']. simpl in Hb, Hr.
  destruct Hr as [-> | [-> Hf]]; simpl; (apply HQ; [done|]); [by right|]. left. eauto.
Qed.

Local Abbreviation primary := (ly_primary L).
Local Abbreviation secondary := (ly_secondary L).
Local Abbreviation slot_size := (ly_slot_size L).
Local Abbreviation at_primary l := (drop (Z.to_nat primary) l).
Local Abbreviation at_secondary l := (drop (Z.to_nat secondary) l).

(** Some of the primary slot may have changed. *)
Definition in_primary (l l' : list Z) : Prop := changed_in l l' (Z.to_nat primary) (Z.to_nat slot_size).

Lemma in_primary_trans l l1 l2 : in_primary l l1 → in_primary l1 l2 → in_primary l l2.
Proof. intros H1 H2. by apply (changed_trans _ _ _ _ _ _ _ H1 H2). Qed.

Lemma in_primary_secondary l l' n :
  in_primary l l' → (n <= Z.to_nat slot_size)%nat → take n (at_secondary l') = take n (at_secondary l).
Proof using HL. intros Hc Hn. apply (changed_region _ _ _ _ _ _ Hc). destruct HL. lia. Qed.

Lemma take_split (a b p : nat) (l : list Z) : take (a + b) (drop p l) = take a (drop p l) ++ take b (drop (p + a) l).
Proof. by rewrite <- take_take_drop, drop_drop. Qed.

(** The first [o] octets are copied, and those from [o] to [total] are blank. *)
Definition copied (o : Z) (l : list Z) : Prop := take (Z.to_nat o) (at_primary l) = take (Z.to_nat o) (at_secondary l).
Definition blank (o total : Z) (l : list Z) : Prop :=
  take (Z.to_nat (total - o)) (drop (Z.to_nat (primary + o)) l) = replicate (Z.to_nat (total - o)) 0xFF.

Lemma copied_step l l2 o c total :
  copied o l → blank o total l → 0 <= o → 0 <= c → o + c <= total → total <= slot_size →
  changed_in l l2 (Z.to_nat (primary + o)) (Z.to_nat c) →
  take (Z.to_nat c) (drop (Z.to_nat (primary + o)) l2) = take (Z.to_nat c) (drop (Z.to_nat (secondary + o)) l) →
  copied (o + c) l2 ∧ blank (o + c) total l2 ∧ in_primary l l2.
Proof using HL.
  intros Hcp Hbl Ho Hc Hoc Ht Hch Hdata. pose proof (lo_primary _ _ HL) as [Hp _]. pose proof (lo_secondary _ _ HL) as [Hs _].
  pose proof (lo_disjoint _ _ HL) as Hd. unfold copied, blank in *. rewrite !Z2Nat.inj_add in * by lia. split; [|split].
  - rewrite !take_split. f_equal.
    + rewrite (changed_region _ _ _ _ _ _ Hch) by lia. rewrite Hcp. symmetry. apply (changed_region _ _ _ _ _ _ Hch). lia.
    + rewrite Hdata. symmetry. apply (changed_region _ _ _ _ _ _ Hch). lia.
  - rewrite (changed_region _ _ _ _ _ _ Hch) by lia.
    replace (Z.to_nat (total - o)) with (Z.to_nat c + Z.to_nat (total - (o + c)))%nat in Hbl by lia.
    rewrite take_split, replicate_add in Hbl. apply app_inj_1 in Hbl as [_ Hbl].
    + rewrite <- Hbl. f_equal. f_equal. lia.
    + pose proof (f_equal length Hbl) as Hlen. rewrite !length_app, !length_take, !length_replicate, !length_drop in Hlen.
      rewrite length_take, length_drop, length_replicate. lia.
  - apply (changed_weaken _ _ _ _ _ _ Hch); lia.
Qed.

Lemma no_data_blank data : existsb (λ byte, negb (byte =? 0xFF)) data = false → data = replicate (length data) 0xFF.
Proof.
  induction data as [|b data IH]; simpl; [done|]. intros [Hb Hd]%orb_false_iff. apply negb_false_iff, Z.eqb_eq in Hb.
  subst b. f_equal. by apply IH.
Qed.

Lemma ends_copy fuel o total Q f :
  size f = len → len < 4294967296 →
  0 <= o <= total → total <= slot_size → total - o <= COPY_CHUNK * Z.of_nat fuel →
  (Z.of_nat WRITE_SIZE | total) → (Z.of_nat WRITE_SIZE | o) →
  copied o (bytes f) → blank o total (bytes f) →
  (∀ r f', in_primary (bytes f) (bytes f') →
     (r = Err FlashFailed ∧ fallible) ∨ (r = Ok () ∧ copied total (bytes f')) → Q r f') →
  ends (copy_loop fuel L total o) Q f.
Proof using BF RL HL.
  intros Hlen H32 Ho Ht Hfuel Hwt Hwo Hcp Hbl HQ. pose proof (lo_primary _ _ HL) as [Hp Hp'].
  pose proof (lo_secondary _ _ HL) as [Hs Hs']. destruct (lo_write _ _ HL) as (_ & Hwp & Hwc).
  revert o f Q Hlen Ho Hfuel Hwo Hcp Hbl HQ. induction fuel as [|fuel IH]; intros o f Q Hlen Ho Hfuel Hwo Hcp Hbl HQ;
    cbn [copy_loop]; unfold COPY_CHUNK in *;
    (destruct (Z.leb_spec total o) as [Hd|Hd]; [apply ends_ret, HQ; [done|]; right; by replace total with o by lia|]); [lia|].
  set (c := Z.min 256 (total - o)) in *. assert (Hc : 0 < c <= total - o ∧ (c = 256 ∨ c = total - o)) by (unfold c; lia).
  assert (Hwc' : (Z.of_nat WRITE_SIZE | c)) by (destruct Hc as [_ [-> | ->]]; [done|by apply Z.divide_sub_r]).
  apply ends_report. cbv zeta. eapply ends_lift; [apply add_Ok; lia|]. apply ends_bind. apply ends_read; [lia|lia|].
  intros r f1 Hf1 [[-> Hfail] | ->]; [apply HQ; [by rewrite Hf1|by left]|].
  set (data := take (Z.to_nat c) (drop (Z.to_nat (secondary + o)) (bytes f))).
  assert (Hdl : length data = Z.to_nat c) by (unfold data; rewrite length_take, length_drop; lia).
  assert (Hto : take (Z.to_nat c) (drop (Z.to_nat (primary + o)) (bytes f)) = replicate (Z.to_nat c) 0xFF).
  { unfold blank in Hbl. apply (f_equal (take (Z.to_nat c))) in Hbl. rewrite take_take, take_replicate in Hbl.
    by rewrite !Nat.min_l in Hbl by lia. }
  apply ends_bind.
  assert (Hnext : ∀ r f2, changed_in (bytes f) (bytes f2) (Z.to_nat (primary + o)) (Z.to_nat c) →
    (r = Err FlashFailed ∧ fallible) ∨ (r = Ok () ∧ take (Z.to_nat c) (drop (Z.to_nat (primary + o)) (bytes f2)) = data) →
    match r with
    | Ok _ => ends (offset ← lift (add_u32 o c); copy_loop fuel L total offset) Q f2
    | Err e => Q (Err e) f2
    | Panic => Q Panic f2
    end).
  { intros r f2 Hch [[-> Hfail] | [-> Hdata]]; [apply HQ; [apply (changed_weaken _ _ _ _ _ _ Hch); lia|by left]|].
    destruct (copied_step _ _ o c total Hcp Hbl ltac:(lia) ltac:(lia) ltac:(lia) Ht Hch Hdata) as (Hcp2 & Hbl2 & Hin).
    eapply ends_lift; [apply add_Ok; lia|].
    apply IH; [destruct Hin as [-> _]; lia|lia|lia|by apply Z.divide_add_r|done|done|].
    intros r f3 Hin3 Hr. apply HQ; [by apply (in_primary_trans _ _ _ Hin Hin3)|done]. }
  destruct (existsb _ data) eqn:Hany.
  - eapply ends_lift; [apply add_Ok; lia|]. rewrite <- Hf1 in Hto, Hnext.
    apply ends_write; [lia|rewrite Hf1; lia|apply Forall_take, Forall_drop, bf_octets|by apply Z.divide_add_r|
      rewrite Hdl, Z2Nat.id by lia; done|by rewrite Hdl|].
    rewrite Hdl. exact Hnext.
  - apply ends_ret, (Hnext (Ok ())); [by rewrite Hf1|]. right. split; [done|]. rewrite Hf1, Hto, <- Hdl.
    by rewrite <- no_data_blank.
Qed.

Local Abbreviation sector := (ly_sector_size L).
Local Abbreviation max_len := (ly_slot_size L - ly_sector_size L).

Lemma signed_in_secondary f v :
  size f = len → signed_image key (at_secondary (bytes f)) max_len v →
  octets 32 (take 32 (at_secondary (bytes f))) ∧ 32 <= vi_end v <= max_len.
Proof using BF HL.
  intros Hlen Hv. destruct HL as [? ? ? ? ? ? ? ?].
  assert (Ho : octets 32 (take 32 (at_secondary (bytes f)))) by (apply (slot_octets bytes f secondary max_len); lia).
  split; [done|]. destruct (signed_header _ _ _ _ Ho Hv) as ((H1 & H2 & H3) & He & Hm). destruct (si_plain _ _ _ _ Hv) as [_ Hp].
  unfold is_u16, is_u32, hashed_len in *. lia.
Qed.

(** The copy of a signed image is the signed image. *)
Lemma copied_signed l l' v :
  octets 32 (take 32 (at_secondary l)) → vi_end v <= max_len →
  signed_image key (at_secondary l) max_len v → in_primary l l' → copied (vi_end v) l' →
  take (Z.to_nat (vi_end v)) (at_primary l') = take (Z.to_nat (vi_end v)) (at_secondary l) ∧
  signed_image key (at_primary l') max_len v.
Proof using HL.
  intros Ho He Hv Hin Hc.
  assert (Heq : take (Z.to_nat (vi_end v)) (at_primary l') = take (Z.to_nat (vi_end v)) (at_secondary l))
    by (rewrite Hc; apply in_primary_secondary; [done|]; destruct HL; lia).
  split; [done|]. by apply (signed_prefix key (at_secondary l)).
Qed.

Lemma copied_less o o' l : copied o' l → 0 <= o <= o' → copied o l.
Proof.
  unfold copied. intros Hc Ho. apply (f_equal (take (Z.to_nat o))) in Hc. rewrite !take_take in Hc.
  by rewrite !Nat.min_l in Hc by lia.
Qed.

Lemma ends_install v Q f :
  size f = len → len < 4294967296 → signed_image key (at_secondary (bytes f)) max_len v →
  (∀ r f', in_primary (bytes f) (bytes f') →
     (r = Err FlashFailed ∧ fallible) ∨ (r = Ok () ∧ copied (vi_end v) (bytes f')) → Q r f') →
  ends (install L key v) Q f.
Proof using BF RL LS LK HL Hkey.
  intros Hlen H32 Hv HQ. destruct (signed_in_secondary f v Hlen Hv) as [Ho He].
  destruct (HL) as [Hsec Hslot Hwhole [Hp Hp'] [Hs Hs'] Hdis (Hes & Hep & _) (Hws & Hwp & Hwc)].
  assert (Hmax : (sector | max_len)) by (apply Z.divide_sub_r; [done|apply Z.divide_refl]).
  pose proof (bf_write_size (BootFlash := BF)) as HW.
  destruct (round_up_to_spec (E:=BootError) (vi_end v) (Z.of_nat WRITE_SIZE) max_len) as (total & Htotal & Ht & _ & Hwt);
    [lia|lia|by apply (Z.divide_trans _ sector)|lia|].
  destruct (round_up_to_spec (E:=BootError) total sector max_len) as (rounded & Hrounded & Hr & _ & Hsr); [lia|lia|done|lia|].
  unfold install. eapply ends_lift; [exact Htotal|]. apply ends_report. eapply ends_lift; [exact Hrounded|].
  eapply ends_lift; [apply add_Ok; lia|]. apply ends_bind.
  apply ends_erase; [lia|lia|done|apply Z.divide_add_r; [done|by apply (Z.divide_trans _ sector)]|].
  replace (primary + rounded - primary) with rounded by lia. intros r f1 Hch Hr1.
  assert (Hin1 : in_primary (bytes f) (bytes f1)) by (apply (changed_weaken _ _ _ _ _ _ Hch); lia).
  destruct Hr1 as [[-> Hfail] | [-> Hff]]; [apply HQ; [done|by left]|]. apply ends_bind.
  assert (Hlen1 : size f1 = len) by (destruct Hin1 as [-> _]; done).
  pose proof (Z.mul_succ_div_gt total 256 ltac:(lia)). pose proof (Z.div_pos total 256 ltac:(lia) ltac:(lia)).
  apply ends_copy; [done|done|lia|lia|unfold COPY_CHUNK; lia|done|apply Z.divide_0_r|done| |].
  { unfold blank. rewrite Z.add_0_r, Z.sub_0_r. apply (f_equal (take (Z.to_nat total))) in Hff.
    rewrite take_take, take_replicate in Hff. by rewrite !Nat.min_l in Hff by lia. }
  intros r f2 Hin2 Hr2. pose proof (in_primary_trans _ _ _ Hin1 Hin2) as Hin.
  destruct Hr2 as [[-> Hfail] | [-> Hc]]; [apply HQ; [done|by left]|]. apply (copied_less (vi_end v)) in Hc; [|lia].
  assert (Hlen2 : size f2 = len) by (destruct Hin as [-> _]; done).
  apply ends_report. eapply ends_lift; [apply sub_Ok; lia|]. apply ends_bind.
  destruct (copied_signed (bytes f) (bytes f2) v Ho ltac:(lia) Hv Hin Hc) as [_ Hv2].
  apply ends_validate; [lia|lia|lia|]. intros x f3 Hf3 [[-> Hfail] | [(v' & -> & Hv') | (e & -> & _ & Hno)]].
  - apply ends_throw, HQ; [by rewrite Hf3|by left].
  - assert (v' = v) as -> by (apply (signed_unique key (at_primary (bytes f2)) max_len);
      [apply (slot_octets bytes f2 primary max_len); lia|done|done]).
    rewrite bool_decide_true by done. apply ends_ret, HQ; [by rewrite Hf3|]. right. by rewrite Hf3.
  - by destruct (Hno v).
Qed.

(** * The decision *)

(** The secondary slot ends with the request. *)
Definition requested (l : list Z) : Prop :=
  classify (take 16 (drop (Z.to_nat (secondary + slot_size - 16)) l)) = Good.

(** The primary slot has a header, of a release later than the image [v]. *)
Definition newer (l : list Z) (v : ValidImage) : Prop :=
  ∃ h, header_parse (take 32 (at_primary l)) = Some h ∧ release_lt (ih_version (vi_header v)) (ih_version h) = true.

(** What a request leads to, and the contents then. *)
Inductive decided (l : list Z) : Update → list Z → Prop :=
| d_rejected e : (∀ v, ¬ signed_image key (at_secondary l) max_len v) → decided l (Rejected e) l
| d_downgrade v : signed_image key (at_secondary l) max_len v → newer l v → decided l Downgrade l
| d_installed v l1 :
    signed_image key (at_secondary l) max_len v → ¬ newer l v → in_primary l l1 → copied (vi_end v) l1 →
    decided l Installed l1.

(** The request is erased, and then the header next to it. *)
Definition blanked (l' : list Z) : Prop :=
  take (Z.to_nat sector) (drop (Z.to_nat (secondary + slot_size - sector)) l') = replicate (Z.to_nat sector) 0xFF ∧
  take (Z.to_nat sector) (at_secondary l') = replicate (Z.to_nat sector) 0xFF.

Inductive processed (l : list Z) : outcome BootError Update → list Z → Prop :=
| p_unread : fallible → processed l (Err FlashFailed) l
| p_none : ¬ requested l → processed l (Ok NoUpdate) l
| p_interrupted v l1 :
    fallible → requested l → signed_image key (at_secondary l) max_len v → ¬ newer l v → in_primary l l1 →
    processed l (Err FlashFailed) l1
| p_dropping u l1 l2 :
    fallible → requested l → decided l u l1 → changed_in l1 l2 (Z.to_nat secondary) (Z.to_nat slot_size) →
    processed l (Err FlashFailed) l2
| p_dropped u l1 l2 :
    requested l → decided l u l1 → changed_in l1 l2 (Z.to_nat secondary) (Z.to_nat slot_size) → blanked l2 →
    processed l (Ok u) l2.

Lemma ends_sector a Q f :
  size f = len → len < 4294967296 → 0 <= a → a + sector <= len → (Z.of_nat ERASE_SIZE | a) →
  (∀ r f', changed_in (bytes f) (bytes f') (Z.to_nat a) (Z.to_nat sector) →
     (r = Err FlashFailed ∧ fallible) ∨
     (r = Ok () ∧ take (Z.to_nat sector) (drop (Z.to_nat a) (bytes f')) = replicate (Z.to_nat sector) 0xFF) → Q r f') →
  ends (erase_sector a sector) Q f.
Proof using BF RL HL.
  intros Hlen H32 Ha Hb Hd HQ. destruct (HL) as [Hsec _ _ _ _ _ (Hes & _ & _) _].
  unfold erase_sector. eapply ends_lift; [apply add_Ok; lia|].
  apply ends_erase; [lia|lia|done|by apply Z.divide_add_r|]. replace (a + sector - a) with sector by lia. done.
Qed.

Lemma ends_drop u l Q f :
  size f = len → len < 4294967296 → requested l → decided l u (bytes f) →
  (∀ r f', processed l r (bytes f') → Q r f') →
  ends (_ ← report Dropping;
        trailer ← lift (trailer_sector L secondary);
        _ ← erase_sector trailer sector;
        _ ← erase_sector secondary sector;
        mret u) Q f.
Proof using BF RL HL.
  intros Hlen H32 Hreq Hd HQ. destruct (HL) as [Hsec Hslot Hwhole _ [Hs Hs'] _ (Hes & _ & Hed) _].
  assert (Hel : (Z.of_nat ERASE_SIZE | slot_size)) by (by apply (Z.divide_trans _ sector)).
  apply ends_report. eapply ends_lift.
  { unfold trailer_sector. rewrite add_Ok by lia. cbn [mbind outcome_bind]. apply sub_Ok. lia. }
  apply ends_bind, ends_sector; [done|done|lia|lia|apply Z.divide_sub_r; [by apply Z.divide_add_r|done]|].
  intros r f1 Hch1 Hr1.
  assert (Hc1 : changed_in (bytes f) (bytes f1) (Z.to_nat secondary) (Z.to_nat slot_size))
    by (apply (changed_weaken _ _ _ _ _ _ Hch1); lia).
  destruct Hr1 as [[-> Hfail] | [-> Hb1]]; [by apply HQ, (p_dropping _ u (bytes f))|].
  assert (Hlen1 : size f1 = len) by (destruct Hc1 as [-> _]; done).
  apply ends_bind, ends_sector; [done|done|lia|lia|done|]. intros r f2 Hch2 Hr2.
  assert (Hc2 : changed_in (bytes f) (bytes f2) (Z.to_nat secondary) (Z.to_nat slot_size))
    by (apply (changed_trans _ _ _ _ _ _ _ Hc1 Hch2); lia).
  destruct Hr2 as [[-> Hfail] | [-> Hb2]]; [by apply HQ, (p_dropping _ u (bytes f))|].
  apply ends_ret, HQ, (p_dropped _ u (bytes f)); try done. split; [|done].
  rewrite (changed_region _ _ _ _ _ _ Hch2) by lia. done.
Qed.

Lemma ends_magic Q f :
  size f = len → len < 4294967296 →
  (∀ r f', bytes f' = bytes f →
     (r = Err FlashFailed ∧ fallible) ∨
     r = Ok (classify (take 16 (drop (Z.to_nat (secondary + slot_size - 16)) (bytes f)))) → Q r f') →
  ends (on_flash (read_magic FlashFailed secondary slot_size)) Q f.
Proof using BF RL HL.
  intros Hlen H32 HQ. destruct (HL) as [Hsec Hslot _ _ [Hs Hs'] _ _ _].
  assert (Ha : magic_address (E:=BootError) secondary slot_size = Ok (secondary + slot_size - 16)).
  { unfold magic_address. rewrite add_Ok by lia. cbn [mbind outcome_bind]. apply sub_Ok. unfold BOOT_MAGIC_LEN. lia. }
  assert (He : ends (b ← on_flash (read_or FlashFailed (secondary + slot_size - 16) 16); mret (classify b)) Q f).
  { apply ends_bind, ends_read; [lia|lia|]. intros r f1 Hf1 [[-> Hfail] | ->]; [apply HQ; auto|]. apply ends_ret, HQ; auto. }
  intros log. specialize (He log). unfold read_magic. rewrite Ha. unfold on_flash, mbind, stm_bind, lift, mret, stm_ret in *.
  by destruct (read_or _ _ _ f) as [[x|e|] f2].
Qed.

Lemma ends_request Q f :
  size f = len → len < 4294967296 → (∀ r f', processed (bytes f) r (bytes f') → Q r f') → ends (process_request L key) Q f.
Proof using BF RL LS LK HL Hkey.
  intros Hlen H32 HQ. destruct (HL) as [Hsec Hslot Hwhole [Hp Hp'] [Hs Hs'] _ _ _].
  unfold process_request. apply ends_bind, ends_magic; [done|done|].
  intros r f1 Hf1 [[-> Hfail] | ->]; [apply HQ; rewrite Hf1; by constructor|].
  destruct (decide (requested (bytes f))) as [Hreq|Hreq].
  2: { rewrite bool_decide_false by done. cbn [negb]. apply ends_ret, HQ. rewrite Hf1. by constructor. }
  rewrite bool_decide_true by done. cbn [negb]. apply ends_report. eapply ends_lift; [apply sub_Ok; lia|].
  apply ends_bind, ends_validate; [lia|lia|rewrite Hf1; lia|]. rewrite Hf1. intros x f2 Hf2 Hx. apply ends_bind.
  assert (Hgo : ∀ u f3, decided (bytes f) u (bytes f3) → size f3 = len →
    ends (_ ← report Dropping; trailer ← lift (trailer_sector L secondary); _ ← erase_sector trailer sector;
          _ ← erase_sector secondary sector; mret u) Q f3) by (intros u f3 Hd Hl3; by apply (ends_drop u (bytes f))).
  destruct Hx as [[-> Hfail] | [(v & -> & Hv) | (e & -> & He & Hno)]].
  - apply ends_throw, HQ. rewrite Hf2. by constructor.
  - apply ends_bind, ends_header; [lia|rewrite Hf2; lia|]. rewrite Hf2. intros y f3 Hf3 [(e & -> & Hfail) | ->].
    { apply ends_throw, HQ. rewrite Hf3. by constructor. }
    assert (Hins : ∀ f4, bytes f4 = bytes f → ¬ newer (bytes f) v →
      ends (_ ← install L key v; mret Installed) (λ r f', match r with
        | Ok u => ends (_ ← report Dropping; trailer ← lift (trailer_sector L secondary); _ ← erase_sector trailer sector;
                        _ ← erase_sector secondary sector; mret u) Q f'
        | Err e => Q (Err e) f'
        | Panic => Q Panic f' end) f4).
    { intros f4 Hf4 Hnew. apply ends_bind, ends_install; rewrite ?Hf4; [done|done|done|].
      intros r f5 Hin [[-> Hfail] | [-> Hc]]; [by apply HQ, (p_interrupted _ v)|].
      apply ends_ret, Hgo; [by apply (d_installed _ v)|]. destruct Hin as [-> _]. done. }
    destruct (header_parse (take 32 (at_primary (bytes f)))) as [h|] eqn:Hh;
      [destruct (release_lt (ih_version (vi_header v)) (ih_version h)) eqn:Hlt|].
    + apply ends_ret, Hgo; [|rewrite Hf3; done]. rewrite Hf3. apply (d_downgrade _ v); [done|]. by exists h.
    + apply Hins; [done|]. intros (h' & Hh' & Hlt'). congruence.
    + apply Hins; [done|]. intros (h' & Hh' & Hlt'). congruence.
  - destruct e; try done; apply ends_ret, Hgo; rewrite ?Hf2; try done; by constructor.
Qed.

Inductive booted (l : list Z) : outcome BootError Bootable → list Z → Prop :=
| b_failed l' : processed l (Err FlashFailed) l' → booted l (Err FlashFailed) l'
| b_unread u l' : fallible → processed l (Ok u) l' → booted l (Err FlashFailed) l'
| b_started u l' v :
    processed l (Ok u) l' → signed_image key (at_primary l') max_len v →
    booted l (Ok (mk_Bootable v (primary + ih_hdr_size (vi_header v)) u)) l'
| b_nothing u l' e :
    processed l (Ok u) l' → (∀ v, ¬ signed_image key (at_primary l') max_len v) → booted l (Err (NoBootableImage e u)) l'.

Lemma decided_length l u l' : decided l u l' → length l' = length l.
Proof. destruct 1 as [| |? ? ? ? [Hl _]]; done. Qed.

Lemma processed_length l r l' : processed l r l' → length l' = length l.
Proof.
  destruct 1 as [| |? ? ? ? ? ? [Hl _]|? ? ? ? ? Hd [Hl _]|? ? ? ? Hd [Hl _]]; try done;
    rewrite Hl; by apply (decided_length _ _ _ Hd).
Qed.

Lemma processed_err l e l' : processed l (Err e) l' → e = FlashFailed.
Proof. by inversion 1. Qed.
Lemma processed_panic l l' : ¬ processed l Panic l'.
Proof. by inversion 1. Qed.

Lemma ends_boot Q f :
  size f = len → len < 4294967296 → (∀ r f', booted (bytes f) r (bytes f') → Q r f') → ends (boot L key) Q f.
Proof using BF RL LS LK HL Hkey.
  intros Hlen H32 HQ. destruct (HL) as [Hsec Hslot Hwhole [Hp Hp'] [Hs Hs'] _ _ _].
  unfold boot. apply ends_bind, ends_request; [done|done|]. intros [u|e|] f1 Hpr;
    [|pose proof (processed_err _ _ _ Hpr) as ->; apply HQ; by constructor|by apply processed_panic in Hpr].
  assert (Hlen1 : size f1 = len) by (rewrite <- Hlen; f_equal; by apply processed_length in Hpr).
  apply ends_report. eapply ends_lift; [apply sub_Ok; lia|]. apply ends_bind, ends_validate; [lia|lia|lia|].
  intros x f2 Hf2 [[-> Hfail] | [(v & -> & Hv) | (e & -> & He & Hno)]].
  - apply ends_throw, HQ. rewrite Hf2. by apply (b_unread _ u).
  - assert (Ho : octets 32 (take 32 (at_primary (bytes f1)))) by (apply (slot_octets bytes f1 primary max_len); lia).
    destruct (signed_header _ _ _ _ Ho Hv) as ((H1 & H2 & H3) & He & Hm). unfold is_u16, is_u32, hashed_len in *.
    eapply ends_lift; [apply add_Ok; lia|]. apply ends_ret, HQ. rewrite Hf2. by constructor.
  - destruct e; try done; apply ends_throw, HQ; rewrite Hf2; by constructor.
Qed.

(** ** What the steps keep *)

Definition accepted (l : list Z) (v : ValidImage) : Prop :=
  requested l ∧ signed_image key (at_secondary l) max_len v ∧ ¬ newer l v.

Lemma secondary_primary l l' :
  changed_in l l' (Z.to_nat secondary) (Z.to_nat slot_size) →
  take (Z.to_nat slot_size) (at_primary l') = take (Z.to_nat slot_size) (at_primary l).
Proof using HL. intros Hc. apply (changed_region _ _ _ _ _ _ Hc). destruct HL. lia. Qed.

Lemma processed_primary l r l' :
  processed l r l' →
  take (Z.to_nat slot_size) (at_primary l') = take (Z.to_nat slot_size) (at_primary l) ∨ ∃ v, accepted l v.
Proof using HL.
  assert (Hd : ∀ u l1 l2, requested l → decided l u l1 → changed_in l1 l2 (Z.to_nat secondary) (Z.to_nat slot_size) →
    take (Z.to_nat slot_size) (at_primary l2) = take (Z.to_nat slot_size) (at_primary l) ∨ ∃ v, accepted l v).
  { intros u l1 l2 Hreq Hd Hc. destruct Hd as [| |v ? Hv Hn _ _]; [left; by apply secondary_primary..|right; by exists v]. }
  destruct 1 as [| |v ? ? Hreq Hv Hn| |]; [by left|by left|right; by exists v|eauto..].
Qed.

(** An accepted image stays in the primary slot once it is installed. *)
Lemma decided_kept l u l1 l2 v :
  octets 32 (take 32 (at_secondary l)) → 32 <= vi_end v <= max_len →
  signed_image key (at_secondary l) max_len v → ¬ newer l v →
  decided l u l1 → changed_in l1 l2 (Z.to_nat secondary) (Z.to_nat slot_size) →
  u = Installed ∧
  take (Z.to_nat (vi_end v)) (at_primary l2) = take (Z.to_nat (vi_end v)) (at_secondary l) ∧
  signed_image key (at_primary l2) max_len v.
Proof using HL.
  intros Ho He Hv Hn Hd Hc. destruct Hd as [e Hno|v' Hv' Hnew|v' l1 Hv' _ Hin Hcp].
  - by destruct (Hno v).
  - by rewrite (signed_unique key _ _ v v' Ho Hv Hv') in Hn.
  - rewrite <- (signed_unique key _ _ v v' Ho Hv Hv') in Hcp. destruct (copied_signed l l1 v Ho ltac:(lia) Hv Hin Hcp) as [Heq Hs1].
    split; [done|]. apply secondary_primary in Hc. apply (f_equal (take (Z.to_nat (vi_end v)))) in Hc. rewrite !take_take in Hc.
    destruct (HL) as [? ? _ _ _ _ _ _]. rewrite !Nat.min_l in Hc by lia. split; [congruence|].
    apply (signed_prefix key (at_secondary l)); [done|congruence|done].
Qed.

(** After both erases nothing is requested, and the secondary slot has no
    header. *)
Lemma blanked_gone l : blanked l → ¬ requested l ∧ header_parse (take 32 (at_secondary l)) = None.
Proof using HL.
  intros [Ht Hh]. destruct (HL) as [Hsec Hslot _ _ [Hs _] _ _ _]. split.
  - unfold requested. apply (f_equal (λ x, take 16 (drop (Z.to_nat (sector - 16)) x))) in Ht.
    rewrite skipn_firstn_comm, take_take, drop_drop, drop_replicate, take_replicate in Ht. rewrite !Nat.min_l in Ht by lia.
    replace (Z.to_nat (secondary + slot_size - sector) + Z.to_nat (sector - 16))%nat
      with (Z.to_nat (secondary + slot_size - 16)) in Ht by lia. rewrite Ht. vm_compute. done.
  - apply (f_equal (take 32)) in Hh. rewrite take_take, take_replicate in Hh. rewrite !Nat.min_l in Hh by lia. rewrite Hh. reflexivity.
Qed.

Lemma processed_outside l r l' i :
  processed l r l' →
  (i < Z.to_nat primary ∨ Z.to_nat (primary + slot_size) <= i)%nat →
  (i < Z.to_nat secondary ∨ Z.to_nat (secondary + slot_size) <= i)%nat → l' !! i = l !! i.
Proof using HL.
  intros Hpr Hi Hj. destruct (HL) as [Hsec Hslot _ [Hp _] [Hs _] _ _ _].
  assert (Hin : ∀ l1, in_primary l l1 → l1 !! i = l !! i) by (intros l1 [_ Hc]; apply Hc; lia).
  assert (Hd : ∀ u l1, decided l u l1 → l1 !! i = l !! i) by (intros u l1 [| |]; auto).
  destruct Hpr as [| | |? ? ? ? ? ? [_ Hc]|? ? ? ? ? [_ Hc]]; [done|done|auto|..]; (rewrite Hc by lia); eauto.
Qed.

Lemma booted_processed l r l' : booted l r l' → ∃ r', processed l r' l'.
Proof. destruct 1; eauto. Qed.
End Run.

(** * The loader *)

Section Loader.
Context {F : Type} {HF : NorFlash F} (bytes : F → list Z) {BF : BootFlash F bytes}.
Context {HS : Sha256} {LS : LawfulSha} {HK : SignatureScheme} {LK : LawfulScheme}.
Context (L : Layout) (key : TrustedKey) (Hkey : octets 64 (tk_xy key)) (f : F) (log : list BootEvent).
Context (HL : layout_ok (Z.of_nat (length (bytes f))) L).
Local Abbreviation at_primary l := (drop (Z.to_nat (ly_primary L)) l).
Local Abbreviation at_secondary l := (drop (Z.to_nat (ly_secondary L)) l).
Local Abbreviation max_len := (ly_slot_size L - ly_sector_size L).

Lemma boot_run fallible {RL : Reliable F bytes fallible} :
  ∃ r f' log', boot L key (f, log) = (r, (f', log')) ∧ booted fallible L key (bytes f) r (bytes f').
Proof using BF LS LK Hkey HL.
  pose proof (ends_boot bytes fallible _ L HL key Hkey (λ r f', booted fallible L key (bytes f) r (bytes f')) f) as He.
  specialize (He eq_refl (bf_size f) ltac:(done) log).
  destruct (boot L key (f, log)) as [r [f' log']]. by exists r, f', log'.
Qed.

Lemma secondary_slot v :
  signed_image key (at_secondary (bytes f)) max_len v →
  octets 32 (take 32 (at_secondary (bytes f))) ∧ 32 <= vi_end v <= max_len.
Proof using BF HL. by apply (signed_in_secondary bytes _ L HL key f v eq_refl). Qed.

Lemma primary_slot fallible r f' : processed fallible L key (bytes f) r (bytes f') → octets 32 (take 32 (at_primary (bytes f'))).
Proof using BF HL.
  intros Hp. apply processed_length in Hp. destruct (HL) as [? ? _ ? _ _ _ _]. apply (slot_octets bytes f' (ly_primary L) max_len); lia.
Qed.

(** C10. On any device, whatever operations of it fail, the loader never panics and
    never finds its own copy corrupt.  What it starts is an image in the
    primary slot signed by the trusted key, at the vector table behind its
    header.  It changes nothing outside the two slots, and the primary slot
    only for a request whose image is signed by the key and not older than the
    release in the primary header. *)
Theorem boot_starts_signed :
  let '(r, (f', _)) := boot L key (f, log) in
  r ≠ Panic ∧ r ≠ Err CopyCorrupt ∧
  (∀ b, r = Ok b → signed_image key (at_primary (bytes f')) max_len (bt_image b) ∧
     bt_vector_table b = ly_primary L + ih_hdr_size (vi_header (bt_image b))) ∧
  (∀ i, (i < Z.to_nat (ly_primary L) ∨ Z.to_nat (ly_primary L + ly_slot_size L) <= i)%nat →
     (i < Z.to_nat (ly_secondary L) ∨ Z.to_nat (ly_secondary L + ly_slot_size L) <= i)%nat → bytes f' !! i = bytes f !! i) ∧
  (take (Z.to_nat (ly_slot_size L)) (at_primary (bytes f')) = take (Z.to_nat (ly_slot_size L)) (at_primary (bytes f)) ∨
   ∃ v, accepted L key (bytes f) v).
Proof using BF LS LK Hkey HL.
  pose proof (any_reliable bytes). destruct (boot_run True) as (r & f' & log' & -> & Hb).
  split; [by inversion Hb|]. split; [by inversion Hb|]. split; [by intros b ->; inversion Hb|].
  apply booted_processed in Hb as [r' Hp]. split; [|by apply (processed_primary True _ L HL key _ _ _ Hp)].
  intros i. by apply (processed_outside True _ L HL key _ _ _ i Hp).
Qed.

(** C13. Whatever fails, and wherever an operation is cut off, an accepted request is
    not lost: the secondary slot with the request and the image is as it was,
    or the image is complete in the primary slot. *)
Theorem request_survives v :
  accepted L key (bytes f) v →
  let '(_, (f', _)) := boot L key (f, log) in
  take (Z.to_nat (ly_slot_size L)) (at_secondary (bytes f')) = take (Z.to_nat (ly_slot_size L)) (at_secondary (bytes f)) ∨
  (take (Z.to_nat (vi_end v)) (at_primary (bytes f')) = take (Z.to_nat (vi_end v)) (at_secondary (bytes f)) ∧
   signed_image key (at_primary (bytes f')) max_len v).
Proof using BF LS LK Hkey HL.
  intros (Hreq & Hv & Hn). pose proof (any_reliable bytes). destruct (boot_run True) as (r & f' & log' & -> & Hb).
  destruct (secondary_slot v Hv) as [Ho He]. apply booted_processed in Hb as [r' Hp].
  destruct Hp as [| |v' l1 _ _ _ _ Hin|u l1 l2 _ _ Hd Hc|u l1 l2 _ Hd Hc _]; [by left|done|left; by eapply in_primary_secondary|..];
    right; by apply (decided_kept _ L HL key (bytes f) u l1 l2 v).
Qed.

Context {RL : Reliable F bytes False}.

(** On a device that completes its operations, one boot installs an accepted
    image: it starts this image, the request is gone, and the secondary slot
    has no header left. *)
Lemma boot_installs v :
  accepted L key (bytes f) v →
  ∃ f' log', boot L key (f, log) =
      (Ok (mk_Bootable v (ly_primary L + ih_hdr_size (vi_header v)) Installed), (f', log')) ∧
    take (Z.to_nat (vi_end v)) (at_primary (bytes f')) = take (Z.to_nat (vi_end v)) (at_secondary (bytes f)) ∧
    ¬ requested L (bytes f') ∧ header_parse (take 32 (at_secondary (bytes f'))) = None.
Proof using BF LS LK Hkey HL RL.
  intros (Hreq & Hv & Hn). destruct (boot_run False) as (r & f' & log' & Hr & Hb). exists f', log'. rewrite Hr.
  destruct (secondary_slot v Hv) as [Ho He].
  assert (Hkept : ∀ u, processed False L key (bytes f) (Ok u) (bytes f') →
    u = Installed ∧ take (Z.to_nat (vi_end v)) (at_primary (bytes f')) = take (Z.to_nat (vi_end v)) (at_secondary (bytes f)) ∧
    signed_image key (at_primary (bytes f')) max_len v ∧
    ¬ requested L (bytes f') ∧ header_parse (take 32 (at_secondary (bytes f'))) = None).
  { intros u Hp. inversion Hp as [|Hno| | |u' l1 l2 _ Hd Hc Hbl]; subst; [done|].
    destruct (decided_kept _ L HL key (bytes f) u l1 _ v Ho He Hv Hn Hd Hc) as (-> & Heq & Hs).
    by destruct (blanked_gone _ L HL _ Hbl). }
  inversion Hb as [l' Hp|u l' [] _|u l' v' Hp Hv'|u l' e Hp Hno]; subst; [by inversion Hp| |].
  - destruct (Hkept u Hp) as (-> & Heq & Hs & Hgone). split; [|done].
    rewrite (signed_unique key _ _ v' v (primary_slot _ _ _ Hp) Hv' Hs). done.
  - destruct (Hkept u Hp) as (_ & _ & Hs & _). by destruct (Hno v).
Qed.

(** C37. A header with a later release in the primary slot is believed although no
    image there is signed: the request for a signed image is dropped, and
    afterwards no slot holds an image that could be started.  A copy cut off
    inside the header leaves such a header, because its blank version is the
    highest. *)
Theorem unsigned_header_drops_request v :
  requested L (bytes f) → signed_image key (at_secondary (bytes f)) max_len v → newer L (bytes f) v →
  (∀ w, ¬ signed_image key (at_primary (bytes f)) max_len w) →
  ∃ e f' log', boot L key (f, log) = (Err (NoBootableImage e Downgrade), (f', log')) ∧ ¬ requested L (bytes f') ∧
    ∀ w, ¬ signed_image key (at_primary (bytes f')) max_len w ∧ ¬ signed_image key (at_secondary (bytes f')) max_len w.
Proof using BF LS LK Hkey HL RL.
  intros Hreq Hv Hn Hnone. destruct (boot_run False) as (r & f' & log' & Hr & Hb). destruct (secondary_slot v Hv) as [Ho He].
  assert (Hkept : ∀ u, processed False L key (bytes f) (Ok u) (bytes f') → u = Downgrade ∧
    take (Z.to_nat (ly_slot_size L)) (at_primary (bytes f')) = take (Z.to_nat (ly_slot_size L)) (at_primary (bytes f)) ∧
    ¬ requested L (bytes f') ∧ header_parse (take 32 (at_secondary (bytes f'))) = None).
  { intros u Hp. inversion Hp as [|Hno| | |u' l1 l2 _ Hd Hc Hbl]; subst; [done|].
    destruct (blanked_gone _ L HL _ Hbl) as [Hg1 Hg2]. pose proof (secondary_primary _ L HL _ _ Hc) as Hpr.
    destruct Hd as [e Hno|v' Hv' Hnew|v' l1 Hv' Hn' _ _]; [by destruct (Hno v)|done|].
    by rewrite (signed_unique key _ _ v v' Ho Hv Hv') in Hn. }
  assert (Hdead : ∀ u, processed False L key (bytes f) (Ok u) (bytes f') →
    ∀ w, ¬ signed_image key (at_primary (bytes f')) max_len w ∧ ¬ signed_image key (at_secondary (bytes f')) max_len w).
  { intros u Hp w. destruct (Hkept u Hp) as (_ & Heq & _ & Hh). split; intros Hw.
    - apply (Hnone w). apply (signed_prefix key (at_primary (bytes f'))); [by eapply primary_slot| |done].
      destruct (signed_header _ _ _ _ (primary_slot _ _ _ Hp) Hw) as (_ & _ & Hm). destruct (HL) as [? ? _ _ _ _ _ _].
      apply (f_equal (take (Z.to_nat (vi_end w)))) in Heq. rewrite !take_take in Heq. by rewrite !Nat.min_l in Heq by lia.
    - pose proof (si_header _ _ _ _ Hw) as Hw'. unfold IMAGE_HEADER_LEN in Hw'. congruence. }
  inversion Hb as [l' Hp|u l' [] _|u l' v' Hp Hv'|u l' e Hp Hno]; subst; [by inversion Hp|by destruct (Hdead u Hp v')|].
  destruct (Hkept u Hp) as (-> & _ & Hg & _). exists e, f', log'. split; [done|]. split; [done|]. by apply (Hdead Downgrade).
Qed.
End Loader.

(** * Two chips *)

Definition chip_slots : Layout := mk_Layout 0 512 512 256.

Lemma chip_slots_ok c : layout_ok (F:=Chip) (Z.of_nat (length (chip_bytes c))) chip_slots.
Proof.
  rewrite chip_length. unfold CHIP_SIZE, chip_slots, COPY_CHUNK. split; cbn; try lia.
  - by exists 2.
  - split; [by exists 1|]. split; [by exists 0|by exists 2].
  - split; [by exists 64|]. split; [by exists 0|by exists 64].
Qed.

Lemma twin_key_octets : octets 64 (tk_xy twin_key).
Proof. split; [reflexivity|]. apply Forall_replicate. unfold is_u8. lia. Qed.

Lemma chip_signed c slot v :
  0 <= slot <= 512 → (validate (HK:=twin_scheme) slot 256 twin_key c).1 = Ok v →
  signed_image (HK:=twin_scheme) twin_key (drop (Z.to_nat slot) (chip_bytes c)) 256 v.
Proof.
  intros Hs Hv. destruct (validate_signed chip_bytes (HK:=twin_scheme) False c slot 256 twin_key) as [_ Hr];
    [apply twin_key_octets|lia|lia|rewrite chip_length; unfold CHIP_SIZE; lia|].
  rewrite Hv in Hr. destruct Hr as [[? _] | [(v' & [= <-] & Hr) | (e & ? & _)]]; done.
Qed.

(** Release 2 is requested; the primary slot holds release 1. *)
Definition upgrade_chip : Chip := mk_Chip (twin_slot (twin_image 1) false ++ twin_slot (twin_image 2) true).
(** Release 2 is requested, and its copy was cut off after four words. *)
Definition torn_chip : Chip := mk_Chip (twin_slot (take 16 (twin_image 2)) false ++ twin_slot (twin_image 2) true).

Definition release_2 : ValidImage :=
  mk_ValidImage (mk_ImageHeader 0 32 0 4 0 (mk_ImageVersion 2 0 0 0)) 124 (take 32 (twin_image 2)).

Lemma upgrade_accepted : accepted (HK:=twin_scheme) chip_slots twin_key (chip_bytes upgrade_chip) release_2.
Proof.
  split; [vm_compute; reflexivity|]. split; [apply (chip_signed _ 512); [lia|vm_compute; reflexivity]|].
  intros (h & Hh & Hlt). revert h Hh Hlt. vm_compute. by intros h [= <-].
Qed.

Lemma boot_starts_signed_witness :
  ∃ f' log', boot (HK:=twin_scheme) chip_slots twin_key (upgrade_chip, []) = (Ok (mk_Bootable release_2 32 Installed), (f', log')) ∧
    signed_image (HK:=twin_scheme) twin_key (chip_bytes f') 256 release_2.
Proof.
  pose proof (boot_starts_signed chip_bytes (HK:=twin_scheme) chip_slots twin_key twin_key_octets upgrade_chip []
    (chip_slots_ok upgrade_chip)) as H.
  destruct (boot chip_slots twin_key (upgrade_chip, [])) as [r [f' log']] eqn:Hb.
  assert (Hr : r = Ok (mk_Bootable release_2 32 Installed))
    by (transitivity (boot (HK:=twin_scheme) chip_slots twin_key (upgrade_chip, [])).1; [by rewrite Hb|vm_compute; reflexivity]).
  exists f', log'. split; [by rewrite Hr|]. exact (proj1 (proj1 (proj2 (proj2 H)) _ Hr)).
Defined.

Lemma request_survives_witness :
  accepted (HK:=twin_scheme) chip_slots twin_key (chip_bytes upgrade_chip) release_2 ∧
  let '(_, (f', _)) := boot (HK:=twin_scheme) chip_slots twin_key (upgrade_chip, []) in
  take 512 (drop 512 (chip_bytes f')) = take 512 (drop 512 (chip_bytes upgrade_chip)) ∨
  (take 124 (chip_bytes f') = take 124 (drop 512 (chip_bytes upgrade_chip)) ∧
   signed_image (HK:=twin_scheme) twin_key (chip_bytes f') 256 release_2).
Proof.
  split; [apply upgrade_accepted|].
  exact (request_survives chip_bytes (HK:=twin_scheme) chip_slots twin_key twin_key_octets upgrade_chip []
    (chip_slots_ok upgrade_chip) release_2 upgrade_accepted).
Defined.

Lemma unsigned_header_drops_request_witness :
  ∃ e f' log', boot (HK:=twin_scheme) chip_slots twin_key (torn_chip, []) = (Err (NoBootableImage e Downgrade), (f', log')) ∧
    ¬ requested chip_slots (chip_bytes f') ∧
    ∀ w, ¬ signed_image (HK:=twin_scheme) twin_key (chip_bytes f') 256 w ∧
         ¬ signed_image (HK:=twin_scheme) twin_key (drop 512 (chip_bytes f')) 256 w.
Proof.
  apply (unsigned_header_drops_request chip_bytes (HK:=twin_scheme) chip_slots twin_key twin_key_octets torn_chip []
    (chip_slots_ok torn_chip) release_2).
  - vm_compute. reflexivity.
  - apply (chip_signed _ 512); [lia|vm_compute; reflexivity].
  - eexists. split; [vm_compute; reflexivity|]. vm_compute. reflexivity.
  - intros w Hw. pose proof (si_header _ _ _ _ Hw) as Hh. destruct (si_plain _ _ _ _ Hw) as [Hf _].
    assert (Hp : header_parse (take 32 (drop 0 (chip_bytes torn_chip))) =
              Some (mk_ImageHeader 0 32 0 4 4294967295 (mk_ImageVersion 255 255 65535 4294967295))) by (vm_compute; reflexivity).
    assert (Hw' : Some (vi_header w) = Some (mk_ImageHeader 0 32 0 4 4294967295 (mk_ImageVersion 255 255 65535 4294967295)))
      by (rewrite <- Hp; symmetry; exact Hh).
    injection Hw' as Hw'. rewrite Hw' in Hf. discriminate Hf.
Defined.
