(* ===== verification/BootWriter.v ===== *)
(** * BootWriter: staging a downloaded image

    [mcuboot-image/src/writer.rs]: the writer that puts a downloaded image into
    the secondary slot and, once the image is validated, writes the request for
    [BootLoader].  [FirmwareWriter] is the trait of
    [zigbee-runtime/src/firmware_writer.rs] it implements. *)

From S2P Require Import Prelude Effects NvStorage LogNv P256 P256Curve BootImage BootChip BootValid BootLoader.

Local Open Scope Z_scope.

Inductive FirmwareError :=
| EraseFailed | WriteFailed | VerifyFailed | OutOfRange | ImageTooLarge | ActivateFailed | HardwareError.
#[export] Instance FirmwareError_eq_dec : EqDecision FirmwareError.
Proof. solve_decision. Defined.

Class FirmwareWriter (W : Type) := {
  fw_erase_slot : stm W FirmwareError unit;
  fw_write_block : Z → list Z → stm W FirmwareError unit;
  fw_verify : Z → option (list Z) → stm W FirmwareError unit;
  fw_activate : stm W FirmwareError unit;
  fw_slot_size : W → Z;
  fw_abort : stm W FirmwareError unit }.

Definition STAGE : nat := 64.

Record SlotPolicy := mk_SlotPolicy { sp_key : TrustedKey; sp_header_size : Z }.

Record SlotWriter (F : Type) := mk_SlotWriter {
  sw_flash : F;
  sw_layout : Layout;
  sw_policy : SlotPolicy;
  sw_written : Z;
  sw_erased_until : Z;
  sw_stage : list Z;
  sw_stage_len : nat;
  sw_verified : bool;
  sw_staging : bool }.
Arguments mk_SlotWriter {F}.
Arguments sw_flash {F}.
Arguments sw_layout {F}.
Arguments sw_policy {F}.
Arguments sw_written {F}.
Arguments sw_erased_until {F}.
Arguments sw_stage {F}.
Arguments sw_stage_len {F}.
Arguments sw_verified {F}.
Arguments sw_staging {F}.

Section Writer.
Context {F : Type} {HF : NorFlash F} {HS : Sha256} {HK : SignatureScheme}.
Local Abbreviation io := (stm (SlotWriter F) FirmwareError).

Definition set_flash (f : F) (w : SlotWriter F) : SlotWriter F :=
  mk_SlotWriter f (sw_layout w) (sw_policy w) (sw_written w) (sw_erased_until w) (sw_stage w) (sw_stage_len w)
    (sw_verified w) (sw_staging w).
Definition set_erased_until (n : Z) (w : SlotWriter F) : SlotWriter F :=
  mk_SlotWriter (sw_flash w) (sw_layout w) (sw_policy w) (sw_written w) n (sw_stage w) (sw_stage_len w)
    (sw_verified w) (sw_staging w).
Definition set_stage (written : Z) (stage : list Z) (stage_len : nat) (w : SlotWriter F) : SlotWriter F :=
  mk_SlotWriter (sw_flash w) (sw_layout w) (sw_policy w) written (sw_erased_until w) stage stage_len
    (sw_verified w) (sw_staging w).
Definition set_verified (b : bool) (w : SlotWriter F) : SlotWriter F :=
  mk_SlotWriter (sw_flash w) (sw_layout w) (sw_policy w) (sw_written w) (sw_erased_until w) (sw_stage w) (sw_stage_len w)
    b (sw_staging w).
Definition set_staging (b : bool) (w : SlotWriter F) : SlotWriter F :=
  mk_SlotWriter (sw_flash w) (sw_layout w) (sw_policy w) (sw_written w) (sw_erased_until w) (sw_stage w) (sw_stage_len w)
    (sw_verified w) b.

(** [SlotWriter::new]; the assertion on the device panics. *)
Definition writer_new (flash : F) (layout : Layout) (policy : SlotPolicy) : outcome FirmwareError (SlotWriter F) :=
  if (STAGE mod WRITE_SIZE =? 0)%nat && (ly_sector_size layout mod Z.of_nat ERASE_SIZE =? 0)
  then Ok (mk_SlotWriter flash layout policy 0 0 (replicate STAGE 0xFF) 0 false false)
  else Panic.

(** A call on the device. *)
Definition with_flash {E A} (m : stm F E A) : io (A + E) := λ w,
  match m (sw_flash w) with
  | (Ok a, f) => (Ok (inl a), set_flash f w)
  | (Err e, f) => (Ok (inr e), set_flash f w)
  | (Panic, f) => (Panic, set_flash f w)
  end.
Definition flash_io {A} (m : stm F FirmwareError A) : io A := λ w, let '(r, f) := m (sw_flash w) in (r, set_flash f w).

Definition running_version : io (option ImageVersion) :=
  w ← get_st;
  r ← with_flash (header_read (ly_primary (sw_layout w)));
  mret (match r with inl (Some h) => Some (ih_version h) | _ => None end).

Definition trailer_offset (w : SlotWriter F) : outcome FirmwareError Z :=
  sub_u32 (ly_slot_size (sw_layout w)) (ly_sector_size (sw_layout w)).

Definition erase_at (offset : Z) : io unit :=
  w ← get_st;
  start ← lift (add_u32 (ly_secondary (sw_layout w)) offset);
  to ← lift (add_u32 start (ly_sector_size (sw_layout w)));
  flash_io (λ f, match flash_erase start to f with (true, f) => (Ok (), f) | (false, f) => (Err EraseFailed, f) end).

Fixpoint ensure_erased (fuel : nat) (end_ : Z) : io unit :=
  w ← get_st;
  if end_ <=? sw_erased_until w then mret ()
  else
    match fuel with
    | O => lift Panic
    | S fuel =>
        let sector := sw_erased_until w in
        trailer ← lift (trailer_offset w);
        _ ← (if negb (sector =? 0) && negb (sector =? trailer) then erase_at sector else mret ());
        next ← lift (add_u32 sector (ly_sector_size (sw_layout w)));
        _ ← modify_st (set_erased_until next);
        ensure_erased fuel end_
    end.

(** The octets from the request magic on replaced by blanks. *)
Definition withhold (offset magic : Z) (bytes : list Z) : list Z :=
  imap (λ i b, if magic <=? offset + Z.of_nat i then 0xFF else b) bytes.

Definition flush : io unit :=
  w ← get_st;
  if (sw_stage_len w =? 0)%nat then mret ()
  else
    len ← lift (if (WRITE_SIZE =? 0)%nat then Panic
                else Ok ((sw_stage_len w + WRITE_SIZE - 1) / WRITE_SIZE * WRITE_SIZE)%nat);
    _ ← lift (if (len <=? STAGE)%nat then Ok () else Panic);
    offset ← lift (sub_u32 (sw_written w) (Z.of_nat (sw_stage_len w)));
    magic ← lift (magic_address 0 (ly_slot_size (sw_layout w)));
    end_ ← lift (add_u32 offset (Z.of_nat len));
    let data := withhold offset magic (take (sw_stage_len w) (sw_stage w) ++ replicate (len - sw_stage_len w) 0xFF) in
    _ ← modify_st (set_stage (sw_written w) (data ++ drop len (sw_stage w)) (sw_stage_len w));
    _ ← ensure_erased (S (Z.to_nat end_)) end_;
    _ ← (if existsb (λ byte, negb (byte =? 0xFF)) data then
           address ← lift (add_u32 (ly_secondary (sw_layout w)) offset);
           flash_io (λ f, match flash_write address data f with (true, f) => (Ok (), f) | (false, f) => (Err WriteFailed, f) end)
         else mret ());
    modify_st (λ w, set_stage (sw_written w) (sw_stage w) 0 w).

Definition writer_reset (w : SlotWriter F) : SlotWriter F :=
  mk_SlotWriter (sw_flash w) (sw_layout w) (sw_policy w) 0 0 (sw_stage w) 0 false (sw_staging w).

Definition erase_slot : io unit :=
  _ ← modify_st (λ w, set_staging true (writer_reset w));
  w ← get_st;
  trailer ← lift (trailer_offset w);
  _ ← erase_at trailer;
  erase_at 0.

Fixpoint write_loop (fuel : nat) (rest : list Z) : io unit :=
  match rest with
  | [] => mret ()
  | _ =>
      match fuel with
      | O => lift Panic
      | S fuel =>
          w ← get_st;
          let n := Nat.min (STAGE - sw_stage_len w) (length rest) in
          written ← lift (add_u32 (sw_written w) (Z.of_nat n));
          _ ← modify_st (set_stage written
                (take (sw_stage_len w) (sw_stage w) ++ take n rest ++ drop (sw_stage_len w + n) (sw_stage w))
                (sw_stage_len w + n));
          _ ← (if (sw_stage_len w + n =? STAGE)%nat then flush else mret ());
          write_loop fuel (drop n rest)
      end
  end.

Definition write_block (offset : Z) (data : list Z) : io unit :=
  w ← get_st;
  if negb (offset =? sw_written w) then throw OutOfRange
  else if match checked_add_u32 offset (Z.of_nat (length data)) with
          | None => true
          | Some end_ => ly_slot_size (sw_layout w) <? end_
          end then throw ImageTooLarge
  else
    _ ← modify_st (set_verified false);
    write_loop (S (length data)) data.

Definition verify (expected_size : Z) (expected_hash : option (list Z)) : io unit :=
  _ ← modify_st (set_verified false);
  _ ← flush;
  w ← get_st;
  if negb (sw_written w =? expected_size) then throw VerifyFailed
  else
    max_len ← lift (max_image_len (sw_layout w));
    r ← with_flash (validate (ly_secondary (sw_layout w)) max_len (sp_key (sw_policy w)));
    match r with
    | inr _ => throw VerifyFailed
    | inl image =>
        if negb (ih_hdr_size (vi_header image) =? sp_header_size (sw_policy w)) || (sw_written w <? vi_end image)
        then throw VerifyFailed
        else
          running ← running_version;
          if match running with Some running => release_lt (ih_version (vi_header image)) running | None => false end
          then throw VerifyFailed
          else modify_st (set_verified true)
    end.

(** [flash.read(address, &mut current)] of 16 octets *)
Definition read_current (address : Z) : io (list Z) := flash_io (read_or HardwareError address 16).

Definition activate : io unit :=
  w ← get_st;
  if negb (sw_verified w) then throw ActivateFailed
  else
    address ← lift (magic_address (ly_secondary (sw_layout w)) (ly_slot_size (sw_layout w)));
    current ← read_current address;
    match classify current with
    | Good => mret ()
    | Erased =>
        _ ← flash_io (λ f, match flash_write address BOOT_MAGIC f with (true, f) => (Ok (), f) | (false, f) => (Err ActivateFailed, f) end);
        current ← read_current address;
        if bool_decide (current = BOOT_MAGIC) then mret () else throw ActivateFailed
    | Other => throw ActivateFailed
    end.

Definition abort : io unit :=
  _ ← modify_st writer_reset;
  w ← get_st;
  if negb (sw_staging w) then mret ()
  else
    trailer ← lift (trailer_offset w);
    _ ← erase_at trailer;
    modify_st (set_staging false).

#[export] Instance SlotWriter_writer : FirmwareWriter (SlotWriter F) := {
  fw_erase_slot := erase_slot;
  fw_write_block := write_block;
  fw_verify := verify;
  fw_activate := activate;
  fw_slot_size w := ly_slot_size (sw_layout w);
  fw_abort := abort }.
End Writer.

(** A whole download: the blocks in order, then verification and activation. *)
Section Download.
Context {W : Type} {HW : FirmwareWriter W}.
Fixpoint write_blocks (offset : Z) (blocks : list (list Z)) : stm W FirmwareError unit :=
  match blocks with
  | [] => mret ()
  | b :: blocks => _ ← fw_write_block offset b; write_blocks (offset + Z.of_nat (length b)) blocks
  end.
Definition download (blocks : list (list Z)) : stm W FirmwareError unit :=
  _ ← fw_erase_slot;
  _ ← write_blocks 0 blocks;
  _ ← fw_verify (Z.of_nat (length (concat blocks))) None;
  fw_activate.
End Download.

(** * Octets of the secondary slot *)

Lemma slice_lookup (a n : nat) (l d : list Z) i : take n (drop a l) = d → (i < n)%nat → l !! (a + i)%nat = d !! i.
Proof. intros <- Hi. by rewrite lookup_take_lt, lookup_drop by done. Qed.

Lemma slice_eq (a n : nat) (l d : list Z) :
  length d = n → (∀ i, (i < n)%nat → l !! (a + i)%nat = d !! i) → take n (drop a l) = d.
Proof.
  intros Hn H. apply list_eq. intros i. destruct (decide (i < n)%nat) as [Hi|Hi].
  - rewrite lookup_take_lt, lookup_drop by done. by apply H.
  - rewrite lookup_take_ge, lookup_ge_None_2 by lia. done.
Qed.

Lemma round_nat n W : (0 < W)%nat → (Z.of_nat W | 64) → (n <= 64)%nat →
  let k := ((n + W - 1) / W * W)%nat in (n <= k < n + W)%nat ∧ (k <= 64)%nat ∧ (Z.of_nat W | Z.of_nat k).
Proof.
  intros HW [q Hq] Hn k. pose proof (Nat.div_mod_eq (n + W - 1) W) as Hd. pose proof (Nat.mod_upper_bound (n + W - 1) W ltac:(lia)) as Hm.
  set (x := ((n + W - 1) / W)%nat) in *. unfold k. clear k. split; [nia|]. split; [|exists (Z.of_nat x); lia].
  assert (Z.of_nat x <= q) by nia. nia.
Qed.

Lemma withhold_lookup offset magic b i :
  withhold offset magic b !! i = (λ x, if magic <=? offset + Z.of_nat i then 0xFF else x) <$> b !! i.
Proof. apply list_lookup_imap. Qed.

Lemma withhold_octets offset magic b : Forall is_u8 b → Forall is_u8 (withhold offset magic b).
Proof.
  intros Hb. apply Forall_lookup. intros i x. rewrite withhold_lookup. intros (y & Hy & ->)%fmap_Some.
  case_match; [unfold is_u8; lia|]. exact (Forall_lookup_1 _ _ _ _ Hb Hy).
Qed.

Section Staging.
Context {F : Type} {HF : NorFlash F} (bytes : F → list Z) {BF : BootFlash F bytes}.
Context (fallible : Prop) {RL : Reliable F bytes fallible}.
Context {HS : Sha256} {LS : LawfulSha} {HK : SignatureScheme} {LK : LawfulScheme}.
Context (len : Z) (L : Layout) (HL : layout_ok len L) (Hlen : len < 4294967296) (pol : SlotPolicy).
Context (Hkey : octets 64 (tk_xy (sp_key pol))) (Hw16 : (Z.of_nat WRITE_SIZE | 16)) (Hws : (Z.of_nat WRITE_SIZE | ly_secondary L)).
Context (hdr : list Z).
Local Abbreviation secondary := (ly_secondary L).
Local Abbreviation slot_size := (ly_slot_size L).
Local Abbreviation sector := (ly_sector_size L).
Local Abbreviation max_len := (ly_slot_size L - ly_sector_size L).
Local Abbreviation at_secondary l := (drop (Z.to_nat secondary) l).

(** The octet at an offset of the secondary slot. *)
Definition octet_at (l : list Z) (o : Z) : option Z := l !! Z.to_nat (secondary + o).

(** Only octets of the secondary slot between two offsets differ. *)
Definition only_between (a b : Z) (l l' : list Z) : Prop :=
  changed_in l l' (Z.to_nat (secondary + a)) (Z.to_nat (b - a)).

Definition blank_between (a b : Z) (l : list Z) : Prop := ∀ o, a <= o < b → octet_at l o = Some 0xFF.

Lemma only_between_octet a b l l' o : only_between a b l l' → 0 <= a → 0 <= o → (o < a ∨ b <= o) → octet_at l' o = octet_at l o.
Proof using HL. intros [_ Hc] Ha Ho Hout. destruct (lo_secondary _ _ HL). apply Hc. lia. Qed.

Lemma only_between_weaken a b a' b' l l' : only_between a' b' l l' → 0 <= a <= a' → b' <= b → a' <= b' → only_between a b l l'.
Proof using HL. intros Hc Ha Hb Hab. destruct (lo_secondary _ _ HL). apply (changed_weaken _ _ _ _ _ _ Hc); lia. Qed.

Lemma only_between_trans a b l l1 l2 : only_between a b l l1 → only_between a b l1 l2 → only_between a b l l2.
Proof. intros H1 H2. by apply (changed_trans _ _ _ _ _ _ _ H1 H2). Qed.

Lemma blank_kept a b x y l l' : only_between x y l l' → 0 <= x → 0 <= a → (b <= x ∨ y <= a) → blank_between a b l → blank_between a b l'.
Proof using HL. intros Hc Hx Ha Hd Hb o Ho. rewrite (only_between_octet x y l l' o Hc) by lia. by apply Hb. Qed.

(** The writer is for this layout and policy, its device has this size, and
    these octets are where the primary slot has its header. *)
Definition fixed (w : SlotWriter F) : Prop :=
  sw_layout w = L ∧ sw_policy w = pol ∧ Z.of_nat (length (bytes (sw_flash w))) = len ∧
  take 32 (drop (Z.to_nat (ly_primary L)) (bytes (sw_flash w))) = hdr.

Lemma fixed_flash w f' a b :
  fixed w → only_between a b (bytes (sw_flash w)) (bytes f') → 0 <= a <= b → b <= slot_size → fixed (set_flash f' w).
Proof using HL.
  intros (H1 & H2 & H3 & H4) Hc Ha Hb. destruct (HL) as [Hsec Hslot _ [Hp _] [Hs _] Hdis _ _].
  split; [done|]. split; [done|]. split; [destruct Hc as [Hc _]; cbn; by rewrite Hc|].
  cbn. rewrite <- H4. apply (changed_region _ _ _ _ _ _ Hc). lia.
Qed.

Lemma wp_lift_ok {S E A B} (o : outcome E A) a (k : A → stm S E B) Q s : o = Ok a → wp (k a) Q s → wp (lift o ≫= k) Q s.
Proof. intros -> H. by apply wp_bind, wp_lift. Qed.

Lemma wp_erase_at o Q w :
  fixed w → 0 <= o → o + sector <= slot_size → (sector | o) →
  (∀ r f', only_between o (o + sector) (bytes (sw_flash w)) (bytes f') →
     (r = Err EraseFailed ∧ fallible) ∨ (r = Ok () ∧ blank_between o (o + sector) (bytes f')) → Q r (set_flash f' w)) →
  wp (erase_at o) Q w.
Proof using BF RL HL Hlen.
  intros (HwL & _ & Hsize & _) Ho Hos Hd HQ. destruct (HL) as [Hsec Hslot Hwhole _ [Hs Hs'] _ (Hes & _ & Hed) _].
  unfold erase_at. apply wp_bind, wp_get. rewrite HwL. eapply wp_lift_ok; [apply add_Ok; lia|]. eapply wp_lift_ok; [apply add_Ok; lia|].
  unfold wp, flash_io. destruct (flash_erase (secondary + o) (secondary + o + sector) (sw_flash w)) as [ok f'] eqn:He.
  destruct (bf_erase _ _ _ _ _ He) as [Hc Hok]; [lia|]. replace (secondary + o + sector - (secondary + o)) with sector in * by lia.
  assert (Hob : only_between o (o + sector) (bytes (sw_flash w)) (bytes f'))
    by (unfold only_between; by replace (o + sector - o) with sector by lia).
  assert (Hdiv : (Z.of_nat ERASE_SIZE | secondary + o)) by (apply Z.divide_add_r; [done|by apply (Z.divide_trans _ sector)]).
  destruct ok; cbn [fst snd]; apply HQ; try done.
  - right. split; [done|]. intros x Hx. destruct Hok as [_ Hff]; [done|]. unfold octet_at.
    replace (Z.to_nat (secondary + x)) with (Z.to_nat (secondary + o) + Z.to_nat (x - o))%nat by lia.
    rewrite (slice_lookup _ _ _ _ (Z.to_nat (x - o)) Hff) by lia. apply lookup_replicate_2. lia.
  - left. split; [done|]. apply (rl_erase _ _ _ _ He); [lia|lia|done|by apply Z.divide_add_r].
Qed.

(** From [a] on the slot is blank up to [e], and so is the trailer sector; the
    sectors from [e] on are still to be erased, but for the first one. *)
Record erasable (a e : Z) (l : list Z) : Prop := {
  er_below : blank_between a e l;
  er_first : e = 0 → blank_between 0 sector l;
  er_trailer : blank_between (Z.max a max_len) slot_size l }.

Lemma erasable_kept a e l l' x y :
  erasable a e l → only_between x y l l' → 0 <= a → 0 < e <= x → x <= y <= max_len → erasable a e l'.
Proof using HL.
  intros [Hb _ Ht] Hc Ha He Hy. destruct (HL) as [Hsec Hslot _ _ _ _ _ _]. constructor; [|lia|].
  - apply (blank_kept _ _ x y l); try done; lia.
  - apply (blank_kept _ _ x y l); try done; lia.
Qed.

Lemma set_same (w : SlotWriter F) : set_erased_until (sw_erased_until w) (set_flash (sw_flash w) w) = w.
Proof. by destruct w. Qed.

Lemma set_flash_same (w : SlotWriter F) : set_flash (sw_flash w) w = w.
Proof. by destruct w. Qed.

Lemma wp_ensure fuel end_ Q w :
  fixed w → 0 <= sw_erased_until w <= slot_size → (sector | sw_erased_until w) → end_ <= slot_size →
  end_ - sw_erased_until w <= Z.of_nat fuel →
  (∀ r f' e', fixed (set_flash f' w) → only_between 0 slot_size (bytes (sw_flash w)) (bytes f') →
     (∀ o, 0 <= o → o < sw_erased_until w ∨ max_len <= o → octet_at (bytes f') o = octet_at (bytes (sw_flash w)) o) →
     sw_erased_until w <= e' <= slot_size → (sector | e') →
     (∀ a, 0 <= a <= sw_erased_until w → erasable a (sw_erased_until w) (bytes (sw_flash w)) → erasable a e' (bytes f')) →
     (r = Err EraseFailed ∧ fallible) ∨ (r = Ok () ∧ end_ <= e') → Q r (set_erased_until e' (set_flash f' w))) →
  wp (ensure_erased fuel end_) Q w.
Proof using BF RL HL Hlen.
  destruct (HL) as [Hsec Hslot Hwhole _ [Hs Hs'] _ _ _]. revert Q w. induction fuel as [|fuel IH]; intros Q w Hw He Hde Hend Hfuel HQ;
    cbn [ensure_erased]; apply wp_bind, wp_get; (destruct (Z.leb_spec end_ (sw_erased_until w)) as [Hd|Hd];
      [apply wp_ret; pose proof (HQ (Ok ()) (sw_flash w) (sw_erased_until w)) as Hdone; rewrite set_same in Hdone;
       apply Hdone; [by destruct w|apply changed_refl|done|lia|done|done|by right]|]); [lia|].
  cbv zeta. pose proof Hw as (HwL & _ & Hsize & _). set (e := sw_erased_until w) in *.
  assert (Hroom : e + sector <= slot_size).
  { destruct Hwhole as [k Hk], Hde as [j Hj]. rewrite Hk, Hj in *. assert (j < k) by nia. nia. }
  eapply wp_lift_ok; [unfold trailer_offset; rewrite HwL; apply sub_Ok; lia|]. apply wp_bind.
  assert (Hnext : ∀ f1, fixed (set_flash f1 w) → only_between 0 slot_size (bytes (sw_flash w)) (bytes f1) →
    (∀ o, 0 <= o → o < e ∨ max_len <= o → octet_at (bytes f1) o = octet_at (bytes (sw_flash w)) o) →
    (∀ a, 0 <= a <= e → erasable a e (bytes (sw_flash w)) → erasable a (e + sector) (bytes f1)) →
    wp (next ← lift (add_u32 e (ly_sector_size (sw_layout w))); _ ← modify_st (set_erased_until next); ensure_erased fuel end_)
      Q (set_flash f1 w)).
  { intros f1 Hf1 Hc1 Hk1 He1. rewrite HwL. eapply wp_lift_ok; [apply add_Ok; lia|]. apply wp_bind, wp_modify.
    apply IH; cbn [sw_erased_until sw_flash set_erased_until set_flash]; [done|lia|by apply Z.divide_add_r; [|apply Z.divide_refl]|done|lia|].
    intros r f2 e2 Hf2 Hc2 Hk2 He2 Hd2 Her2 Hr. apply (HQ r f2 e2); try done.
    - by apply (only_between_trans _ _ _ (bytes f1)).
    - intros o Ho Hout. rewrite Hk2 by lia. apply Hk1; lia.
    - lia.
    - intros a Ha Her. apply Her2; [lia|]. by apply He1. }
  destruct (decide (e = 0 ∨ e = max_len)) as [Hskip|Hgo].
  - replace (negb (e =? 0) && negb (e =? slot_size - sector)) with false
      by (destruct Hskip as [-> | ->]; [done|]; rewrite Z.eqb_refl; by rewrite andb_false_r).
    apply wp_ret. pose proof (Hnext (sw_flash w)) as Hn. rewrite set_flash_same in Hn. apply Hn; [done|apply changed_refl|done|].
    intros a Ha [Hb Hf Ht]. constructor; [|lia|done]. intros o Ho. destruct (decide (o < e)) as [|Hoe]; [apply Hb; lia|].
    destruct (decide (e = 0)) as [He0|]; [apply (Hf He0); lia|]. apply Ht. lia.
  - rewrite (proj2 (Z.eqb_neq e 0)), (proj2 (Z.eqb_neq e (slot_size - sector))) by lia. cbn [negb andb].
    assert (Hlow : e + sector <= max_len).
    { destruct Hwhole as [k Hk], Hde as [j Hj]. rewrite Hk, Hj in *. assert (j < k) by nia. assert (j <> k - 1) by (intros ->; lia). nia. }
    apply wp_erase_at; [done|lia|lia|done|]. intros r f1 Hc1 Hr1.
    pose proof (fixed_flash w f1 _ _ Hw Hc1 ltac:(lia) ltac:(lia)) as Hf1.
    assert (Hc : only_between 0 slot_size (bytes (sw_flash w)) (bytes f1)) by (apply (only_between_weaken _ _ e (e + sector)); try done; lia).
    assert (Hk : ∀ o, 0 <= o → o < e ∨ max_len <= o → octet_at (bytes f1) o = octet_at (bytes (sw_flash w)) o)
      by (intros o Ho Hout; apply (only_between_octet e (e + sector)); try done; lia).
    destruct Hr1 as [[-> Hfail] | [-> Hb1]].
    + apply (HQ (Err EraseFailed) f1 e); try done; [lia| |by left].
      intros a Ha Her. apply (erasable_kept a e _ _ e (e + sector) Her Hc1); lia.
    + apply Hnext; try done. intros a Ha Her. destruct (erasable_kept a e _ _ e (e + sector) Her Hc1) as [Hb _ Ht]; [lia|lia|lia|].
      constructor; [|lia|done]. intros o Ho. destruct (decide (o < e)); [apply Hb; lia|apply Hb1; lia].
Qed.

(** What holds of the writer after a successful [erase_slot], whatever fails
    later. *)
Record sound (w : SlotWriter F) : Prop := {
  so_fixed : fixed w;
  so_stage : length (sw_stage w) = 64%nat ∧ Forall is_u8 (sw_stage w);
  so_len : (sw_stage_len w <= 64)%nat;
  so_written : Z.of_nat (sw_stage_len w) <= sw_written w <= slot_size;
  so_erased : 0 <= sw_erased_until w <= slot_size ∧ (sector | sw_erased_until w) }.

(** The place of the request is blank. *)
Definition quiet (w : SlotWriter F) : Prop := blank_between (slot_size - 16) slot_size (bytes (sw_flash w)).

(** The device reported a failure. *)
Definition device_failure (r : outcome FirmwareError unit) : Prop := r = Err WriteFailed ∨ r = Err EraseFailed.

(** Where the stage begins. *)
Definition flushed (w : SlotWriter F) : Z := sw_written w - Z.of_nat (sw_stage_len w).
Definition aligned (w : SlotWriter F) : Prop := (64 | flushed w).

(** The octets [data] were written: the stage holds the last of them, and the
    slot the others, but for the place of the request. *)
Record staged (data : list Z) (w : SlotWriter F) : Prop := {
  st_sound : sound w;
  st_length : Z.of_nat (length data) = sw_written w;
  st_stage : take (sw_stage_len w) (sw_stage w) = drop (Z.to_nat (flushed w)) data;
  st_below : flushed w <= sw_erased_until w;
  st_erasable : erasable (flushed w) (sw_erased_until w) (bytes (sw_flash w));
  st_content o : 0 <= o < flushed w →
    octet_at (bytes (sw_flash w)) o = if slot_size - 16 <=? o then Some 0xFF else data !! Z.to_nat o }.

(** As long as every operation completed, the request is withheld. *)
Lemma staged_quiet data w : staged data w → quiet w.
Proof using HL.
  intros [_ _ _ _ [_ _ Ht] Hc] o Ho. destruct (HL) as [Hsec Hslot _ _ _ _ _ _].
  destruct (decide (o < flushed w)) as [Hlt|Hge]; [|apply Ht; lia].
  rewrite Hc by lia. by rewrite (proj2 (Z.leb_le _ _)) by lia.
Qed.

Lemma wp_write_data offset data Q w :
  fixed w → 0 <= offset → offset + Z.of_nat (length data) <= slot_size →
  (Z.of_nat WRITE_SIZE | offset) → (Z.of_nat WRITE_SIZE | Z.of_nat (length data)) → Forall is_u8 data →
  (∀ r f', only_between offset (offset + Z.of_nat (length data)) (bytes (sw_flash w)) (bytes f') →
     (r = Err WriteFailed ∧ fallible) ∨
     (r = Ok () ∧ (blank_between offset (offset + Z.of_nat (length data)) (bytes (sw_flash w)) →
        ∀ i, (i < length data)%nat → octet_at (bytes f') (offset + Z.of_nat i) = data !! i)) → Q r (set_flash f' w)) →
  wp (if existsb (λ byte, negb (byte =? 0xFF)) data then
        address ← lift (add_u32 (ly_secondary (sw_layout w)) offset);
        flash_io (λ f, match flash_write address data f with (true, f) => (Ok (), f) | (false, f) => (Err WriteFailed, f) end)
      else mret ()) Q w.
Proof using BF RL HL Hlen Hws.
  intros (HwL & _ & Hsize & _) Ho Hend Hwo Hwd Hu HQ. destruct (HL) as [Hsec Hslot Hwhole _ [Hs Hs'] _ _ _].
  destruct (existsb _ data) eqn:Hany.
  - rewrite HwL. eapply wp_lift_ok; [apply add_Ok; lia|]. unfold wp, flash_io.
    destruct (flash_write (secondary + offset) data (sw_flash w)) as [ok f'] eqn:He.
    destruct (bf_write _ _ _ _ _ He) as [Hc Hok]; [lia|done|].
    assert (Hob : only_between offset (offset + Z.of_nat (length data)) (bytes (sw_flash w)) (bytes f')).
    { unfold only_between. by replace (Z.to_nat (offset + Z.of_nat (length data) - offset)) with (length data) by lia. }
    assert (Hpos : ∀ i : nat, Z.to_nat (secondary + (offset + Z.of_nat i)) = (Z.to_nat (secondary + offset) + i)%nat) by lia.
    destruct ok; cbn [fst snd]; apply HQ; try done.
    + right. split; [done|]. intros Hbl i Hi. unfold octet_at. rewrite Hpos. destruct Hok as [_ Hok]; [done|].
      apply (slice_lookup _ (length data)); [|done]. apply Hok. apply slice_eq; [apply length_replicate|].
      intros j Hj. rewrite lookup_replicate_2 by done. rewrite <- Hpos. apply (Hbl (offset + Z.of_nat j)). lia.
    + left. split; [done|]. apply (rl_write _ _ _ _ He); [lia|lia|by apply Z.divide_add_r|done].
  - apply wp_ret. rewrite <- (set_flash_same w). apply HQ; [apply changed_refl|]. right. split; [done|]. intros Hbl i Hi.
    rewrite (no_data_blank _ Hany), lookup_replicate_2 by done. apply Hbl. lia.
Qed.

Lemma stage_grid : (Z.of_nat WRITE_SIZE | 64).
Proof using Hw16. apply (Z.divide_trans _ 16); [done|by exists 4]. Qed.

Lemma staged_flush w f1 f2 e1 d tail k :
  staged d w → (sw_stage_len w <= k)%nat → flushed w + Z.of_nat k <= e1 → e1 <= slot_size →
  let w' := mk_SlotWriter f2 L pol (sw_written w) e1 tail 0 (sw_verified w) (sw_staging w) in
  let data := withhold (flushed w) (slot_size - 16) (take (sw_stage_len w) (sw_stage w) ++ replicate (k - sw_stage_len w) 0xFF) in
  sound w' → (0 < k)%nat →
  (∀ o, 0 <= o → o < sw_erased_until w ∨ max_len <= o → octet_at (bytes f1) o = octet_at (bytes (sw_flash w)) o) →
  (∀ a, 0 <= a <= sw_erased_until w → erasable a (sw_erased_until w) (bytes (sw_flash w)) → erasable a e1 (bytes f1)) →
  only_between (flushed w) (flushed w + Z.of_nat k) (bytes f1) (bytes f2) →
  (blank_between (flushed w) (flushed w + Z.of_nat k) (bytes f1) →
   ∀ i, (i < k)%nat → octet_at (bytes f2) (flushed w + Z.of_nat i) = data !! i) →
  staged d w'.
Proof using HL.
  intros [Hso Hl Hst Hbel Her Hcon] Hk He1 Hes w' data Hso' Hk0 Hk1 Her1 Hc2 Hdata. destruct (HL) as [Hsec Hslot _ _ _ _ _ _].
  destruct (so_written _ Hso) as [Hwr Hwr']. assert (Hf : flushed w = sw_written w - Z.of_nat (sw_stage_len w)) by done.
  specialize (Her1 (flushed w) ltac:(lia) Her) as [Hb1 _ Ht1].
  specialize (Hdata ltac:(intros o Ho; apply Hb1; lia)).
  assert (Hsl : length (take (sw_stage_len w) (sw_stage w)) = sw_stage_len w)
    by (rewrite length_take; destruct (so_stage _ Hso) as [-> _]; pose proof (so_len _ Hso); lia).
  assert (Hout : ∀ o, 0 <= o → o < flushed w ∨ flushed w + Z.of_nat k <= o → octet_at (bytes f2) o = octet_at (bytes f1) o)
    by (intros o Ho Ho'; apply (only_between_octet _ _ _ _ o Hc2); lia).
  assert (Hat : ∀ o, flushed w <= o < flushed w + Z.of_nat k → octet_at (bytes f2) o =
    if slot_size - 16 <=? o then Some 0xFF else (take (sw_stage_len w) (sw_stage w) ++ replicate (k - sw_stage_len w) 0xFF) !! Z.to_nat (o - flushed w)).
  { intros o Ho. replace o with (flushed w + Z.of_nat (Z.to_nat (o - flushed w))) at 1 by lia. rewrite Hdata by lia.
    unfold data. rewrite withhold_lookup. replace (flushed w + Z.of_nat (Z.to_nat (o - flushed w))) with o by lia.
    destruct (lookup_lt_is_Some_2 (take (sw_stage_len w) (sw_stage w) ++ replicate (k - sw_stage_len w) 0xFF) (Z.to_nat (o - flushed w))) as [x ->];
      [rewrite length_app, length_replicate; lia|]. cbn. by case_match. }
  assert (Hpad : ∀ o, sw_written w <= o < flushed w + Z.of_nat k → octet_at (bytes f2) o = Some 0xFF).
  { intros o Ho. rewrite Hat by lia. case_match; [done|]. rewrite lookup_app_r by lia. apply lookup_replicate_2. lia. }
  assert (Hfl' : flushed w' = sw_written w) by (unfold flushed, w'; cbn; lia).
  constructor; cbn [sw_written sw_stage_len sw_stage sw_erased_until sw_flash w']; rewrite ?Hfl'; [done|done| |lia| |].
  - rewrite <- Hl, Nat2Z.id, drop_all. done.
  - constructor; [|lia|].
    + intros o Ho. destruct (decide (o < flushed w + Z.of_nat k)); [apply Hpad; lia|]. rewrite Hout by lia. apply Hb1. lia.
    + intros o Ho. destruct (decide (o < flushed w + Z.of_nat k)); [apply Hpad; lia|]. rewrite Hout by lia. apply Ht1. lia.
  - intros o Ho. destruct (decide (o < flushed w)) as [Hlt|Hge].
    + rewrite Hout by lia. rewrite Hk1 by lia. apply Hcon. lia.
    + rewrite Hat by lia. case_match; [done|]. rewrite lookup_app_l by lia. rewrite Hst, lookup_drop. f_equal. lia.
Qed.

Lemma wp_flush Q w :
  sound w → aligned w →
  (∀ r w', sound w' → sw_written w' = sw_written w → sw_verified w' = sw_verified w → sw_staging w' = sw_staging w →
     (sw_written w <= slot_size - 16 → quiet w → quiet w') →
     (r = Ok () ∧ sw_stage_len w' = 0%nat ∧ ∀ data, staged data w → staged data w') ∨
     (device_failure r ∧ fallible ∧ sw_stage_len w' = sw_stage_len w) → Q r w') →
  wp flush Q w.
Proof using BF RL HL Hlen Hws Hw16.
  intros Hw Hal HQ. destruct (HL) as [Hsec Hslot Hwhole _ [Hs Hs'] _ _ (Hwsec & _ & _)].
  pose proof Hw as [Hfix [Hst Hstu] Hsl Hwr [He Hde]]. pose proof Hfix as (HwL & _ & Hsize & _).
  unfold flush. apply wp_bind, wp_get. destruct (Nat.eqb_spec (sw_stage_len w) 0) as [Hz|Hz].
  { apply wp_ret, HQ; try done. by left. }
  pose proof (bf_write_size (BootFlash := BF)) as HW. destruct (round_nat (sw_stage_len w) WRITE_SIZE HW stage_grid Hsl) as (Hk & Hk64 & Hkd).
  set (n := sw_stage_len w) in *. set (k := ((n + WRITE_SIZE - 1) / WRITE_SIZE * WRITE_SIZE)%nat) in *.
  assert (Hfl : flushed w = sw_written w - Z.of_nat n) by done. unfold aligned in Hal.
  assert (Hwfl : (Z.of_nat WRITE_SIZE | flushed w)) by (apply (Z.divide_trans _ 64); [apply stage_grid|done]).
  assert (Hround : ∀ m, (Z.of_nat WRITE_SIZE | m) → sw_written w <= m → flushed w + Z.of_nat k <= m).
  { intros m Hm Hle. assert (Hsum : (Z.of_nat WRITE_SIZE | flushed w + Z.of_nat k)) by (by apply Z.divide_add_r).
    destruct Hm as [a Ha], Hsum as [b Hb]. rewrite Hb, Ha in *. assert (b < a + 1) by nia. nia. }
  assert (Hwslot : (Z.of_nat WRITE_SIZE | slot_size)) by (by apply (Z.divide_trans _ sector)).
  pose proof (Hround slot_size Hwslot ltac:(lia)) as Hfit.
  pose proof (Hround (slot_size - 16) ltac:(by apply Z.divide_sub_r)) as Hbelow.
  eapply wp_lift_ok; [by rewrite (proj2 (Nat.eqb_neq WRITE_SIZE 0)) by lia|]. fold k.
  eapply wp_lift_ok; [by rewrite (proj2 (Nat.leb_le k STAGE)) by done|].
  eapply wp_lift_ok; [apply sub_Ok; lia|]. rewrite <- Hfl. rewrite HwL.
  eapply wp_lift_ok; [unfold magic_address; rewrite add_Ok by lia; cbn [mbind outcome_bind]; apply sub_Ok; unfold BOOT_MAGIC_LEN; lia|].
  eapply wp_lift_ok; [apply add_Ok; lia|]. cbv zeta. unfold BOOT_MAGIC_LEN. rewrite Z.add_0_l.
  set (data := withhold (flushed w) (slot_size - 16) (take n (sw_stage w) ++ replicate (k - n) 0xFF)).
  assert (Hdl : length data = k) by (unfold data, withhold; rewrite length_imap, length_app, length_take, length_replicate; lia).
  assert (Hdu : Forall is_u8 data).
  { apply withhold_octets, Forall_app. split; [by apply Forall_take|]. apply Forall_replicate. unfold is_u8. lia. }
  assert (Hstage' : length (data ++ drop k (sw_stage w)) = 64%nat ∧ Forall is_u8 (data ++ drop k (sw_stage w))).
  { split; [rewrite length_app, length_drop; lia|]. apply Forall_app. split; [done|by apply Forall_drop]. }
  apply wp_bind, wp_modify, wp_bind. set (w1 := set_stage _ _ _ w).
  apply wp_ensure; [done|done|done|lia|cbn; lia|].
  cbn [sw_flash sw_erased_until set_stage w1]. intros r f1 e1 Hf1 Hc1 Hk1 He1 Hd1 Her1 Hr1.
  assert (Hmag1 : quiet w → blank_between (slot_size - 16) slot_size (bytes f1))
    by (intros Hmag o Ho; rewrite Hk1 by lia; by apply Hmag).
  assert (He1' : 0 <= e1 <= slot_size ∧ (sector | e1)) by (split; [lia|done]).
  destruct Hr1 as [[-> Hfail] | [-> Hend1]].
  { apply HQ; [by constructor|done|done|done|intros _; exact Hmag1|]. right. split; [by right|done]. }
  rewrite <- HwL. apply wp_bind.
  apply (wp_write_data (flushed w) data _ (set_erased_until e1 (set_flash f1 w1)));
    [done|lia|lia|done|by rewrite Hdl|done|]. rewrite Hdl. cbn [sw_flash set_erased_until set_flash w1].
  intros r f2 Hc2 Hr2.
  assert (Hmag2 : sw_written w <= slot_size - 16 → quiet w → blank_between (slot_size - 16) slot_size (bytes f2)).
  { intros Hle Hq. specialize (Hbelow Hle). apply (blank_kept _ _ _ _ _ _ Hc2); [lia|lia|lia|by apply Hmag1]. }
  assert (Hf2 : fixed (set_flash f2 w)) by (apply (fixed_flash (set_flash f1 w) f2 _ _ Hf1 Hc2); lia).
  destruct Hr2 as [[-> Hfail] | [-> Hdata]].
  { apply HQ; [by constructor|done|done|done|done|]. right. split; [by left|done]. }
  apply wp_modify, HQ; [constructor; try done; cbn; lia|done|done|done|done|]. left. split; [done|]. split; [done|]. intros d Hd.
  replace (set_stage _ _ _ _) with
    (mk_SlotWriter f2 L pol (sw_written w) e1 (data ++ drop k (sw_stage w)) 0 (sw_verified w) (sw_staging w))
    by (unfold set_stage; cbn; destruct Hfix as (E1 & E2 & _ & _); by rewrite E1, E2).
  apply (staged_flush w f1 f2 e1 d _ k); try done; try lia.
  constructor; try done; [|cbn; lia..]. destruct Hf2 as (_ & _ & Hf2). done.
Qed.

(** Octets put into the stage. *)
Definition stage_more (d : list Z) (w : SlotWriter F) : SlotWriter F :=
  set_stage (sw_written w + Z.of_nat (length d))
    (take (sw_stage_len w) (sw_stage w) ++ d ++ drop (sw_stage_len w + length d) (sw_stage w)) (sw_stage_len w + length d) w.

Lemma stage_more_sound d w :
  sound w → Forall is_u8 d → (sw_stage_len w + length d <= 64)%nat → sw_written w + Z.of_nat (length d) <= slot_size →
  sound (stage_more d w) ∧ flushed (stage_more d w) = flushed w.
Proof.
  intros [Hf [Hl Hu] Hsl Hwr He] Hd Hn Hs. split; [|unfold flushed, stage_more; cbn; lia].
  constructor; cbn; try done; try lia. split.
  - rewrite !length_app, length_take, length_drop. lia.
  - apply Forall_app. split; [by apply Forall_take|]. apply Forall_app. split; [done|by apply Forall_drop].
Qed.

Lemma stage_more_staged d w data :
  staged data w → Forall is_u8 d → (sw_stage_len w + length d <= 64)%nat → sw_written w + Z.of_nat (length d) <= slot_size →
  staged (data ++ d) (stage_more d w).
Proof.
  intros [Hso Hl Hst Hbel Her Hcon] Hd Hn Hs. destruct (stage_more_sound d w Hso Hd Hn Hs) as [Hso' Hfl].
  destruct (so_stage _ Hso) as [Hsl _]. destruct (so_written _ Hso) as [Hw1 Hw2]. assert (Hf : flushed w = sw_written w - Z.of_nat (sw_stage_len w)) by done.
  assert (Hts : length (take (sw_stage_len w) (sw_stage w)) = sw_stage_len w) by (rewrite length_take; lia).
  constructor; [done| | | | |]; rewrite ?Hfl; [cbn; rewrite length_app; lia| |done|done|].
  - cbn. rewrite app_assoc, take_app_le by (rewrite length_app; lia). rewrite take_ge by (rewrite length_app; lia).
    rewrite Hst, drop_app_le by lia. done.
  - intros o Ho. cbn. rewrite Hcon by done. case_match; [done|]. rewrite lookup_app_l by lia. done.
Qed.

Lemma wp_write_loop fuel rest Q w :
  sound w → aligned w → Forall is_u8 rest → sw_written w + Z.of_nat (length rest) <= slot_size →
  (length rest + (if sw_stage_len w =? 64 then 1 else 0) <= fuel)%nat →
  (∀ r w', sound w' → aligned w' → sw_verified w' = sw_verified w → sw_staging w' = sw_staging w →
     sw_written w <= sw_written w' → (sw_written w' <= slot_size - 16 → quiet w → quiet w') →
     (r = Ok () ∧ sw_written w' = sw_written w + Z.of_nat (length rest) ∧ ∀ data, staged data w → staged (data ++ rest) w') ∨
     (device_failure r ∧ fallible) → Q r w') →
  wp (write_loop fuel rest) Q w.
Proof using BF RL HL Hlen Hws Hw16.
  destruct (HL) as [Hsec Hslot _ _ [Hs Hs'] _ _ _].
  revert rest Q w. induction fuel as [|fuel IH]; intros rest Q w Hw Hal Hu Hfit Hfuel HQ.
  { destruct rest; [|simpl in Hfuel; lia]. apply wp_ret, HQ; try done. left. split; [done|]. simpl. split; [lia|]. intros data. by rewrite app_nil_r. }
  destruct (decide (rest = [])) as [->|Hne].
  { apply wp_ret, HQ; try done. left. split; [done|]. simpl. split; [lia|]. intros data. by rewrite app_nil_r. }
  assert (Hlen0 : length rest ≠ 0%nat) by (by destruct rest). pose proof (so_len _ Hw) as Hsl.
  set (n := Nat.min (64 - sw_stage_len w) (length rest)). set (d := take n rest).
  assert (Hd : length d = n) by (unfold d; rewrite length_take; lia).
  assert (Hdu : Forall is_u8 d) by (by apply Forall_take).
  assert (Hstep : write_loop (S fuel) rest w =
    (_ ← (if (sw_stage_len w + n =? STAGE)%nat then flush else mret ()); write_loop fuel (drop n rest)) (stage_more d w)).
  { destruct rest as [|b rest']; [done|]. cbn [write_loop]. unfold mbind at 1, stm_bind at 1, get_st at 1.
    change STAGE with 64%nat. fold n. unfold mbind at 1, stm_bind at 1, lift at 1.
    rewrite add_Ok by (pose proof (so_written _ Hw); lia). unfold stage_more. rewrite Hd. done. }
  unfold wp. rewrite Hstep. clear Hstep. fold (wp (_ ← (if (sw_stage_len w + n =? STAGE)%nat then flush else mret ()); write_loop fuel (drop n rest)) Q (stage_more d w)).
  destruct (stage_more_sound d w Hw Hdu) as [Hw1 Hfl1]; [lia|lia|].
  assert (Hst1 : ∀ data, staged data w → staged (data ++ d) (stage_more d w)) by (intros data Hst; apply stage_more_staged; [done|done|lia|lia]).
  apply wp_bind.
  assert (Hgo : ∀ w2, sound w2 → aligned w2 → (sw_stage_len w2 < 64)%nat → sw_written w2 = sw_written w + Z.of_nat n →
    sw_verified w2 = sw_verified w → sw_staging w2 = sw_staging w → (∀ data, staged (data ++ d) (stage_more d w) → staged (data ++ d) w2) →
    (sw_written w2 <= slot_size - 16 → quiet w → quiet w2) →
    wp (write_loop fuel (drop n rest)) Q w2).
  { intros w2 Hw2 Hal2 Hlt Hwr2 Hv2 Hg2 Hst2 Hq2. apply IH; [done|done|by apply Forall_drop|rewrite length_drop; lia| |].
    - rewrite (proj2 (Nat.eqb_neq _ _)) by lia. rewrite length_drop.
      destruct (Nat.eqb_spec (sw_stage_len w) 64); [lia|]. unfold n. lia.
    - intros r w3 Hw3 Hal3 Hv3 Hg3 Hwr3 Hq3 Hr. apply HQ; [done|done|congruence|congruence|lia|intros; apply Hq3; [done|apply Hq2; [lia|done]]|].
      destruct Hr as [(-> & Hwr4 & Hst3) | Hr]; [left|by right].
      split; [done|]. rewrite length_drop in *. split; [lia|]. intros data Hst.
      rewrite <- (take_drop n rest), app_assoc. apply Hst3, Hst2, Hst1, Hst. }
  assert (Hal1 : aligned (stage_more d w)) by (unfold aligned; by rewrite Hfl1).
  unfold STAGE. destruct (Nat.eqb_spec (sw_stage_len w + n) 64) as [Hfull|Hpart].
  - apply wp_flush; [done|done|]. intros r w2 Hw2 Hwr2 Hv2 Hg2 Hq2 [(-> & Hz & Hst2) | (Hdev & Hfail & Hsl2)].
    + apply Hgo; [done| |lia|rewrite Hwr2; cbn; lia|done|done|intros data; by apply Hst2|rewrite Hwr2; done].
      assert (Hfl2 : flushed w2 = flushed w + 64) by (unfold flushed; rewrite Hz, Hwr2; cbn; lia).
      unfold aligned. rewrite Hfl2. apply Z.divide_add_r; [exact Hal|by exists 1].
    + destruct Hdev as [-> | ->].
      all: apply HQ; [done| |done|done|rewrite Hwr2; cbn; lia|rewrite Hwr2; done|right; split; [by constructor|done]]; unfold aligned, flushed; rewrite Hsl2, Hwr2; exact Hal1.
  - apply wp_ret, Hgo; try done; cbn; lia.
Qed.

(** ** The operations *)

Lemma verified_sound b w : sound w → sound (set_verified b w).
Proof. by intros []; constructor. Qed.
Lemma verified_staged b w data : staged data w → staged data (set_verified b w).
Proof. intros []. constructor; try done. by apply verified_sound. Qed.

Lemma wp_write_block offset d Q w :
  sound w → aligned w → Forall is_u8 d →
  (∀ r w', sound w' → aligned w' → r ≠ Panic → sw_written w <= sw_written w' →
     (sw_written w' <= slot_size - 16 → quiet w → quiet w') →
     (r = Ok () → offset = sw_written w ∧ ∀ data, staged data w → staged (data ++ d) w') →
     (r ≠ Ok () → device_failure r ∨ w' = w) →
     (r ≠ Ok () → fallible ∨ offset ≠ sw_written w ∨ slot_size < offset + Z.of_nat (length d)) → Q r w') →
  wp (write_block offset d) Q w.
Proof using BF RL HL Hlen Hws Hw16.
  intros Hw Hal Hu HQ. pose proof Hw as [(HwL & _) _ _ Hwr _]. destruct (HL) as [Hsec Hslot _ _ [Hs Hs'] _ _ _].
  unfold write_block. apply wp_bind, wp_get. destruct (Z.eqb_spec offset (sw_written w)) as [->|Hne]; cbn [negb].
  2: { apply wp_throw, HQ; auto; done. }
  destruct (Z.leb_spec (sw_written w + Z.of_nat (length d)) slot_size) as [Hfit|Hfit].
  - assert (Hsum : checked_add_u32 (sw_written w) (Z.of_nat (length d)) = Some (sw_written w + Z.of_nat (length d)))
      by (unfold checked_add_u32; by rewrite (proj2 (Z.ltb_lt _ _)) by lia).
    rewrite HwL, Hsum, (proj2 (Z.ltb_ge _ _)) by lia.
    apply wp_bind, wp_modify, wp_write_loop; [by apply verified_sound|done|done|done|destruct (_ =? _)%nat; lia|].
    intros r w' Hw' Hal' _ _ Hwr' Hq' [(-> & _ & Hst) | ([-> | ->] & Hfail)]; apply HQ; try done; try (intros _; by left; constructor); auto.
    intros _. split; [done|]. intros data Hd. by apply Hst, verified_staged.
  - rewrite HwL. assert (Hbig : match checked_add_u32 (sw_written w) (Z.of_nat (length d)) with
                     | None => true | Some end_ => slot_size <? end_ end = true).
    { unfold checked_add_u32. destruct (_ <? 4294967296); [|done]. apply Z.ltb_lt. lia. }
    rewrite Hbig. apply wp_throw, HQ; auto; done.
Qed.

(** A writer of this layout and policy whose stage is its array. *)
Definition ready (w : SlotWriter F) : Prop := fixed w ∧ length (sw_stage w) = 64%nat ∧ Forall is_u8 (sw_stage w).

Lemma wp_erase_slot Q w :
  ready w →
  (∀ r w', ready w' → (r = Ok () ∧ sound w' ∧ aligned w' ∧ sw_verified w' = false ∧ staged [] w') ∨ (r = Err EraseFailed ∧ fallible) → Q r w') →
  wp erase_slot Q w.
Proof using BF RL HL Hlen.
  intros (Hf & Hst) HQ. destruct (HL) as [Hsec Hslot Hwhole _ [Hs Hs'] _ _ _]. pose proof Hf as (HwL & _).
  unfold erase_slot. apply wp_bind, wp_modify. set (w1 := set_staging true (writer_reset w)).
  assert (Hf1 : fixed w1) by done. apply wp_bind, wp_get. eapply wp_lift_ok; [unfold trailer_offset; cbn; rewrite HwL; apply sub_Ok; lia|].
  apply wp_bind, wp_erase_at; [done|lia|lia|apply Z.divide_sub_r; [done|apply Z.divide_refl]|]. replace (max_len + sector) with slot_size by lia.
  intros r f1 Hc1 [[-> Hfail] | [-> Hb1]]; pose proof (fixed_flash _ _ _ _ Hf1 Hc1 ltac:(lia) ltac:(lia)) as Hf2; [apply HQ; [done|by right]|].
  apply wp_erase_at; [done|lia|lia|apply Z.divide_0_r|]. rewrite Z.add_0_l.
  intros r f2 Hc2 Hr2. pose proof (fixed_flash _ _ _ _ Hf2 Hc2 ltac:(lia) ltac:(lia)) as Hf3. destruct Hr2 as [[-> Hfail] | [-> Hb2]]; [apply HQ; [done|by right]|].
  cbn [sw_flash set_flash] in Hc2.
  assert (Hb3 : blank_between max_len slot_size (bytes f2)) by (apply (blank_kept _ _ 0 sector (bytes f1)); try done; lia).
  assert (Hso : sound (set_flash f2 (set_flash f1 w1))).
  { constructor; try done; [cbn; lia..|split; [cbn; lia|apply Z.divide_0_r]]. }
  apply HQ; [done|]. left. split; [done|]. split; [done|]. split; [apply Z.divide_0_r|]. split; [done|].
  constructor; [done|done|done|done| |intros o Ho; unfold flushed in Ho; cbn in Ho; lia].
  constructor; [intros o Ho; unfold flushed in Ho; cbn in Ho; lia|done|]. unfold flushed. cbn. intros o Ho. apply Hb3. lia.
Qed.

Local Abbreviation key := (sp_key pol).

Lemma wp_validate Q w :
  fixed w →
  (∀ r f', bytes f' = bytes (sw_flash w) →
     (r = inr Flash ∧ fallible) ∨
     (∃ v, r = inl v ∧ signed_image key (at_secondary (bytes (sw_flash w))) max_len v) ∨
     (∃ e, r = inr e ∧ ∀ v, ¬ signed_image key (at_secondary (bytes (sw_flash w))) max_len v) → Q (Ok r) (set_flash f' w)) →
  wp (with_flash (validate secondary max_len key)) Q w.
Proof using BF RL LS LK HL Hkey.
  intros (_ & _ & Hsize & _) HQ. destruct (HL) as [Hsec Hslot _ _ [Hs Hs'] _ _ _].
  destruct (validate_signed bytes fallible (sw_flash w) secondary max_len key Hkey) as [Hb Hr]; [lia|lia|lia|].
  unfold wp, with_flash. destruct (validate secondary max_len key (sw_flash w)) as [r f']. cbn [fst snd] in *.
  destruct Hr as [[-> Hf] | [(v & -> & Hv) | (e & -> & He & Hv)]]; cbn [fst snd]; (apply HQ; [done|]); eauto 10.
Qed.

(** The version of the header in the primary slot. *)
Definition primary_version : option ImageVersion := ih_version <$> header_parse hdr.

Lemma wp_running Q w :
  fixed w →
  (∀ r f', bytes f' = bytes (sw_flash w) → (r = None ∧ fallible) ∨ r = primary_version → Q (Ok r) (set_flash f' w)) →
  wp running_version Q w.
Proof using BF RL HL.
  intros (HwL & _ & Hsize & Hh) HQ. destruct (HL) as [Hsec Hslot _ [Hp Hp'] _ _ _ _].
  unfold running_version. apply wp_bind, wp_get, wp_bind. rewrite HwL.
  destruct (follows_header bytes fallible (ly_primary L) Hp (sw_flash w)) as (Hb & _ & _ & Hr).
  rewrite (ram_header (bytes (sw_flash w)) (ly_primary L) Hp) in Hr by lia. unfold IMAGE_HEADER_LEN in Hr. rewrite Hh in Hr.
  unfold wp, with_flash. destruct (header_read (ly_primary L) (sw_flash w)) as [r f']. cbn [fst snd] in *.
  destruct Hr as [-> | [-> Hf]]; cbn [fst snd]; apply wp_ret, HQ; [done| |done|by left]. right. unfold primary_version.
  by destruct (header_parse hdr).
Qed.

Lemma staged_contents data w e :
  staged data w → sw_stage_len w = 0%nat → 0 <= e <= max_len → e <= Z.of_nat (length data) →
  take (Z.to_nat e) (at_secondary (bytes (sw_flash w))) = take (Z.to_nat e) data.
Proof using HL.
  intros Hst Hz He Hl. destruct (HL) as [Hsec Hslot _ _ [Hs Hs'] _ _ _]. apply slice_eq; [rewrite length_take; lia|].
  intros i Hi. rewrite lookup_take_lt by done. pose proof (st_content _ _ Hst (Z.of_nat i)) as Hc. pose proof (st_length _ _ Hst).
  unfold flushed in Hc. rewrite Hz in Hc. specialize (Hc ltac:(lia)). rewrite (proj2 (Z.leb_gt _ _)), Nat2Z.id in Hc by lia.
  rewrite <- Hc. unfold octet_at. f_equal. lia.
Qed.

(** [data] is an image for the loader: signed by the key, with the vector table
    where it is expected, and not older than the release in the primary slot. *)
Definition acceptable (data : list Z) (v : ValidImage) : Prop :=
  signed_image key data max_len v ∧ 32 <= vi_end v <= Z.of_nat (length data) ∧
  ih_hdr_size (vi_header v) = sp_header_size pol ∧
  ∀ x, primary_version = Some x → release_lt (ih_version (vi_header v)) x = false.

(** The secondary slot holds the image. *)
Definition holds_image (data : list Z) (v : ValidImage) (l : list Z) : Prop :=
  signed_image key (at_secondary l) max_len v ∧
  take (Z.to_nat (vi_end v)) (at_secondary l) = take (Z.to_nat (vi_end v)) data ∧
  signed_image key data max_len v ∧ 32 <= vi_end v <= Z.of_nat (length data) ∧
  ih_hdr_size (vi_header v) = sp_header_size pol.

Lemma staged_image data w v :
  staged data w → sw_stage_len w = 0%nat → Forall is_u8 data →
  (signed_image key (at_secondary (bytes (sw_flash w))) max_len v → 32 <= vi_end v <= max_len) ∧
  (32 <= vi_end v <= Z.of_nat (length data) →
   (signed_image key (at_secondary (bytes (sw_flash w))) max_len v ↔ signed_image key data max_len v)).
Proof using BF HL.
  intros Hst Hz Hu. destruct (HL) as [Hsec Hslot _ _ [Hs Hs'] _ _ _]. pose proof (so_fixed _ (st_sound _ _ Hst)) as (_ & _ & Hsize & _).
  split; [intros Hv; by apply (signed_in_secondary bytes len L HL key (sw_flash w))|]. intros He.
  assert (Ho : octets 32 (take 32 (at_secondary (bytes (sw_flash w))))) by (apply (slot_octets bytes _ secondary max_len); lia).
  assert (Ho' : octets 32 (take 32 data)) by (split; [rewrite length_take; lia|by apply Forall_take]).
  split; intros Hv.
  - assert (vi_end v <= max_len) by apply (si_end _ _ _ _ Hv). apply (signed_prefix key (at_secondary (bytes (sw_flash w)))); [done| |done].
    apply staged_contents; try done; lia.
  - assert (vi_end v <= max_len) by apply (si_end _ _ _ _ Hv). apply (signed_prefix key data); [done| |done].
    symmetry. apply staged_contents; try done; lia.
Qed.

Lemma fixed_read w f' : bytes f' = bytes (sw_flash w) → fixed w → fixed (set_flash f' w).
Proof. unfold fixed. cbn. by intros ->. Qed.
Lemma sound_read w f' : bytes f' = bytes (sw_flash w) → sound w → sound (set_flash f' w).
Proof. intros Hb []. constructor; try done. by apply fixed_read. Qed.
Lemma quiet_read w f' : bytes f' = bytes (sw_flash w) → quiet w → quiet (set_flash f' w).
Proof. unfold quiet. cbn. by intros ->. Qed.
Lemma staged_read data w f' : bytes f' = bytes (sw_flash w) → staged data w → staged data (set_flash f' w).
Proof. intros Hb []. constructor; cbn; rewrite ?Hb; try done. by apply sound_read. Qed.

Lemma wp_verify n h data Q w :
  staged data w → aligned w → Forall is_u8 data →
  (∀ r w', sound w' → r ≠ Panic → quiet w' ∨ device_failure r ∧ fallible →
     (r = Ok () → n = Z.of_nat (length data) ∧ sw_verified w' = true ∧
        ∃ v, holds_image data v (bytes (sw_flash w')) ∧ (acceptable data v ∨ fallible)) →
     (r ≠ Ok () → fallible ∨ n ≠ Z.of_nat (length data) ∨ ∀ v, ¬ acceptable data v) → Q r w') →
  wp (verify n h) Q w.
Proof using BF RL LS LK HL Hlen Hws Hw16 Hkey.
  intros Hst Hal Hu HQ. destruct (HL) as [Hsec Hslot _ _ [Hs Hs'] _ _ _]. unfold verify. apply wp_bind, wp_modify, wp_bind.
  pose proof (verified_staged false w data Hst) as Hst0. apply wp_flush; [by apply Hst0|done|].
  intros r w1 Hw1 _ _ _ _ [(-> & Hz & Hst1) | (Hdev & Hfail & _)]; [|destruct Hdev as [-> | ->]; (apply HQ; [done|done|right; split; [by constructor|done]|done|auto])].
  apply Hst1 in Hst0 as Hst2. clear Hst1. pose proof (staged_quiet _ _ Hst2) as Hq1. apply wp_bind, wp_get. pose proof (so_fixed _ Hw1) as (HwL & Hwp & _).
  pose proof (st_length _ _ Hst2) as Hlength.
  destruct (Z.eqb_spec (sw_written w1) n) as [Hn|Hn]; cbn [negb]; [|apply wp_throw, HQ; auto; try done; lia].
  rewrite HwL, Hwp. eapply wp_lift_ok; [apply sub_Ok; lia|]. apply wp_bind, wp_validate; [by apply so_fixed|].
  assert (Hsd : ∀ v, acceptable data v → signed_image key (at_secondary (bytes (sw_flash w1))) max_len v)
    by (intros v (Hv & He & _); by apply (proj2 (staged_image data w1 v Hst2 Hz Hu) He)).
  intros r f2 Hf2 [[-> Hfail] | [(v & -> & Hv) | (e & -> & Hno)]];
    [apply wp_throw, HQ; [by apply sound_read|done|left; by apply quiet_read|done|auto]| |
     apply wp_throw, HQ; [by apply sound_read|done|left; by apply quiet_read|done|]; intros _; right; right; intros v Hv; by apply (Hno v), Hsd].
  destruct (staged_image data w1 v Hst2 Hz Hu) as [Hb Hiff]. specialize (Hb Hv).
  assert (Huniq : ∀ v', acceptable data v' → v' = v).
  { intros v' Hv'. apply (signed_unique key (at_secondary (bytes (sw_flash w1))) max_len); [|by apply Hsd|done].
    pose proof (so_fixed _ Hw1) as (_ & _ & Hsize & _). apply (slot_octets bytes _ secondary max_len); lia. }
  destruct (negb (ih_hdr_size (vi_header v) =? sp_header_size pol) || (sw_written w1 <? vi_end v)) eqn:Hc.
  { apply wp_throw, HQ; [by apply sound_read|done|left; by apply quiet_read|done|]. intros _. right. right. intros v' Hv'. pose proof (Huniq v' Hv') as ->.
    destruct Hv' as (_ & He & Hh & _). apply orb_true_iff in Hc as [Hc|Hc]; [apply negb_true_iff, Z.eqb_neq in Hc; done|].
    apply Z.ltb_lt in Hc. lia. }
  apply orb_false_iff in Hc as [Hc1%negb_false_iff%Z.eqb_eq Hc2%Z.ltb_ge].
  assert (Hv2 : signed_image key data max_len v) by (apply Hiff; [lia|done]).
  assert (Hhold : holds_image data v (bytes (sw_flash w1)))
    by (split; [done|]; split; [apply staged_contents; try done; lia|]; split; [done|]; split; [lia|done]).
  assert (Hacc : (∀ y, primary_version = Some y → release_lt (ih_version (vi_header v)) y = false) → acceptable data v)
    by (intros Hy; split; [done|]; split; [lia|]; by split).
  apply wp_bind, wp_running; [by apply fixed_read, so_fixed|]. intros x f3 Hf3 Hx. cbn [sw_flash set_flash] in Hf3.
  assert (Hso3 : sound (set_flash f3 (set_flash f2 w1))) by (apply sound_read; [done|by apply sound_read]).
  assert (Hq3 : quiet (set_flash f3 (set_flash f2 w1))) by (apply quiet_read; [done|by apply quiet_read]).
  destruct x as [x|].
  2: { apply wp_modify, HQ; [by apply verified_sound|done|by left| |done]. intros _. split; [lia|]. split; [done|]. exists v.
       split; [cbn; by rewrite Hf3, Hf2|]. destruct Hx as [[_ Hfail] | Hx]; [by right|left]. apply Hacc. congruence. }
  destruct Hx as [[? _] | Hx]; [done|]. destruct (release_lt (ih_version (vi_header v)) x) eqn:Hlt.
  - apply wp_throw, HQ; [done|done|by left|done|]. intros _. right. right. intros v' Hv'. pose proof (Huniq v' Hv') as ->.
    destruct Hv' as (_ & _ & _ & Hnew). rewrite (Hnew x) in Hlt by done. done.
  - apply wp_modify, HQ; [by apply verified_sound|done|by left| |done]. intros _. split; [lia|]. split; [done|]. exists v.
    split; [cbn; by rewrite Hf3, Hf2|]. left. apply Hacc. congruence.
Qed.

Lemma holds_kept data v w f' :
  fixed w → holds_image data v (bytes (sw_flash w)) → only_between (slot_size - 16) slot_size (bytes (sw_flash w)) (bytes f') →
  holds_image data v (bytes f').
Proof using BF HL.
  intros (_ & _ & Hsize & _) (Hv & He & Hd & Hr) Hc. destruct (HL) as [Hsec Hslot _ _ [Hs Hs'] _ _ _].
  assert (Hm : vi_end v <= max_len) by apply (si_end _ _ _ _ Hv).
  assert (Heq : take (Z.to_nat (vi_end v)) (at_secondary (bytes f')) = take (Z.to_nat (vi_end v)) (at_secondary (bytes (sw_flash w))))
    by (apply (changed_region _ _ _ _ _ _ Hc); lia).
  split; [|split; [congruence|done]]. apply (signed_prefix key (at_secondary (bytes (sw_flash w)))); [|done|done].
  apply (slot_octets bytes _ secondary max_len); lia.
Qed.

Lemma wp_read_current a Q w :
  0 <= a → a + 16 <= Z.of_nat (length (bytes (sw_flash w))) →
  (∀ r f', bytes f' = bytes (sw_flash w) →
     (r = Err HardwareError ∧ fallible) ∨ r = Ok (take 16 (drop (Z.to_nat a) (bytes (sw_flash w)))) → Q r (set_flash f' w)) →
  wp (read_current a) Q w.
Proof using BF RL.
  intros Ha Hb HQ. unfold wp, read_current, flash_io, read_or. destruct (flash_read a 16 (sw_flash w)) as [r f'] eqn:Hr.
  destruct (bf_read _ _ _ _ _ Hr Ha) as [Hf Hl]. destruct r as [l|]; cbn [fst snd]; apply HQ; try done.
  - right. f_equal. by apply Hl.
  - left. split; [done|]. apply (rl_read _ _ _ _ Hr); [done|lia].
Qed.

Lemma wp_activate data v Q w :
  sound w → quiet w → sw_verified w = true → holds_image data v (bytes (sw_flash w)) →
  (∀ r w', (r = Ok () ∧ requested L (bytes (sw_flash w')) ∧ holds_image data v (bytes (sw_flash w')) ∧ fixed w') ∨
     ((∃ e, r = Err e) ∧ fallible) → Q r w') →
  wp activate Q w.
Proof using BF RL HL Hlen Hws Hw16.
  intros Hw Hq Hver Hh HQ. destruct (HL) as [Hsec Hslot Hwhole _ [Hs Hs'] _ _ (Hwsec & _ & _)].
  pose proof (so_fixed _ Hw) as Hf. pose proof Hf as (HwL & _ & Hsize & _). set (a := secondary + slot_size - 16).
  assert (Hwa : (Z.of_nat WRITE_SIZE | a)).
  { apply Z.divide_sub_r; [|done]. apply Z.divide_add_r; [done|by apply (Z.divide_trans _ sector)]. }
  assert (Hblank : take 16 (drop (Z.to_nat a) (bytes (sw_flash w))) = replicate 16 0xFF).
  { apply slice_eq; [done|]. intros i Hi. rewrite lookup_replicate_2 by done.
    rewrite <- (Hq (slot_size - 16 + Z.of_nat i)) by lia. unfold octet_at, a. f_equal. lia. }
  unfold activate. apply wp_bind, wp_get. rewrite Hver, HwL. cbn [negb].
  eapply wp_lift_ok; [unfold magic_address; rewrite add_Ok by lia; cbn [mbind outcome_bind]; apply sub_Ok; unfold BOOT_MAGIC_LEN; lia|].
  unfold BOOT_MAGIC_LEN. fold a. apply wp_bind, wp_read_current; [lia|lia|].
  intros r f1 Hf1 [[-> Hfail] | ->]; [apply HQ; right; eauto|]. rewrite Hblank. change (classify (replicate 16 0xFF)) with Erased. cbv iota.
  apply wp_bind. unfold wp, flash_io. cbn [sw_flash set_flash]. destruct (flash_write a BOOT_MAGIC f1) as [ok f2] eqn:Hw2.
  assert (Hmu : Forall is_u8 BOOT_MAGIC) by (unfold BOOT_MAGIC; repeat constructor; unfold is_u8; lia).
  destruct (bf_write _ _ _ _ _ Hw2) as [Hc2 Hok2]; [lia|done|]. rewrite Hf1 in Hc2, Hok2. change (length BOOT_MAGIC) with 16%nat in *.
  assert (Hob : only_between (slot_size - 16) slot_size (bytes (sw_flash w)) (bytes f2)).
  { unfold only_between. replace (Z.to_nat (secondary + (slot_size - 16))) with (Z.to_nat a) by (unfold a; lia).
    by replace (Z.to_nat (slot_size - (slot_size - 16))) with 16%nat by lia. }
  destruct ok; cbn [fst snd]; [|apply HQ; right; split; [eauto|]; apply (rl_write _ _ _ _ Hw2); [lia|rewrite Hf1; cbn; lia|done|done]].
  destruct Hok2 as [_ Hok2]; [done|]. specialize (Hok2 Hblank).
  assert (Hsz : length (bytes f2) = length (bytes (sw_flash w))) by (by destruct Hob).
  apply wp_bind, wp_read_current; [lia|cbn; lia|]. cbn [sw_flash set_flash]. rewrite Hok2.
  intros r f3 Hf3 [[-> Hfail] | ->]; [apply HQ; right; eauto|]. rewrite bool_decide_true by done. apply wp_ret, HQ. left.
  split; [done|]. cbn [sw_flash set_flash]. rewrite Hf3. split; [unfold requested; fold a; by rewrite Hok2|].
  split; [by apply (holds_kept data v w)|]. apply fixed_read; [done|]. apply (fixed_flash w f2 _ _ Hf Hob); lia.
Qed.

Lemma wp_write_blocks blocks data Q w :
  staged data w → aligned w → Forall (Forall is_u8) blocks → Z.of_nat (length (data ++ concat blocks)) <= slot_size →
  (∀ r w', sound w' → (r = Ok () ∧ staged (data ++ concat blocks) w' ∧ aligned w') ∨ ((∃ e, r = Err e) ∧ fallible) → Q r w') →
  wp (write_blocks (Z.of_nat (length data)) blocks) Q w.
Proof using BF RL HL Hlen Hws Hw16.
  revert data w. induction blocks as [|b blocks IH]; intros data w Hst Hal Hu Hfit HQ; cbn [write_blocks concat] in *.
  { rewrite app_nil_r in *. apply wp_ret, HQ; [by apply Hst|]. by left. }
  apply Forall_cons in Hu as [Hb Hu]. apply wp_bind. cbn [fw_write_block SlotWriter_writer].
  apply wp_write_block; [by apply Hst|done|done|]. intros r w1 Hw1 Hal1 Hnp _ _ Hok _ Hbad. pose proof (st_length _ _ Hst) as Hl.
  destruct r as [[]|e|]; [|apply HQ; [done|right]; split; [eauto|]|done].
  - replace (Z.of_nat (length data) + Z.of_nat (length b)) with (Z.of_nat (length (data ++ b))) by (rewrite length_app; lia).
    rewrite app_assoc in Hfit, HQ. apply IH; try done. by apply Hok.
  - destruct Hbad as [Hfail | [Hne | Hbig]]; [done|done|lia|]. rewrite !length_app in Hfit. lia.
Qed.

Lemma wp_download blocks Q w :
  ready w → Forall (Forall is_u8) blocks → Z.of_nat (length (concat blocks)) <= slot_size →
  (∀ r w', r ≠ Panic →
     (r = Ok () → ∃ v, requested L (bytes (sw_flash w')) ∧ holds_image (concat blocks) v (bytes (sw_flash w')) ∧ fixed w' ∧
        (acceptable (concat blocks) v ∨ fallible)) →
     (r ≠ Ok () → fallible ∨ ((∀ v, ¬ acceptable (concat blocks) v) ∧ quiet w')) → Q r w') →
  wp (download blocks) Q w.
Proof using BF RL LS LK HL Hlen Hws Hw16 Hkey.
  intros Hr Hu Hfit HQ. unfold download. cbn [fw_erase_slot fw_verify fw_activate SlotWriter_writer].
  assert (Hbad : ∀ e w', fallible → Q (Err e) w') by (intros e w' Hfail; apply HQ; auto; done).
  apply wp_bind, wp_erase_slot; [done|]. intros r w1 _ [(-> & Hs1 & Hal1 & _ & Hst1) | [-> Hfail]]; [|auto].
  apply wp_bind, (wp_write_blocks blocks []); try done. intros r w2 Hs2 [(-> & Hst2 & Hal2) | ([e ->] & Hfail)]; [|auto].
  apply wp_bind, (wp_verify _ _ (concat blocks)); try done; [by apply Forall_concat|].
  intros r w3 Hs3 Hnp Hq3 Hok Hno. destruct r as [[]|e|]; [| |done].
  - destruct Hq3 as [Hq3|[[?|?] _]]; [|done|done]. destruct Hok as (_ & Hver & v & Hh & Hacc); [done|]. apply (wp_activate (concat blocks) v); try done.
    intros r w4 [(-> & Hreq & Hh4 & Hf4) | ([e ->] & Hfail)]; [|auto]. apply HQ; [done| |done]. intros _. by exists v.
  - destruct Hq3 as [Hq3|[_ Hfail]]; [|auto]. destruct Hno as [Hfail | [Hne | Hna]]; [done|auto|done|].
    apply HQ; [done|done|]. auto.
Qed.

(** ** The place of the request *)

Lemma quiet_not_requested w : quiet w → ¬ requested L (bytes (sw_flash w)).
Proof using HL.
  intros Hq. destruct (HL) as [Hsec Hslot _ _ [Hs Hs'] _ _ _]. unfold requested.
  replace (take 16 _) with (replicate 16 0xFF); [done|]. symmetry. apply slice_eq; [done|]. intros i Hi.
  rewrite lookup_replicate_2 by done. rewrite <- (Hq (slot_size - 16 + Z.of_nat i)) by lia. unfold octet_at. f_equal. lia.
Qed.

(** Verification below the place of the request, whatever fails. *)
Lemma wp_verify_quiet n h w :
  sound w → aligned w → sw_written w <= slot_size - 16 → quiet w → wp (verify n h) (λ _ w', quiet w') w.
Proof using BF RL LS LK HL Hlen Hws Hw16 Hkey.
  intros Hw Hal Hle Hq. destruct (HL) as [Hsec Hslot _ _ [Hs Hs'] _ _ _]. unfold verify. apply wp_bind, wp_modify, wp_bind.
  apply wp_flush; [by apply verified_sound|done|]. intros r w1 Hw1 _ _ _ Hq1 Hr. specialize (Hq1 Hle Hq).
  destruct Hr as [(-> & _ & _) | ([-> | ->] & _)]; [|done|done].
  apply wp_bind, wp_get. destruct (negb _); [by apply wp_throw|]. pose proof (so_fixed _ Hw1) as (HwL & Hwp & _).
  rewrite HwL, Hwp. eapply wp_lift_ok; [apply sub_Ok; lia|]. apply wp_bind, wp_validate; [by apply so_fixed|].
  intros r f2 Hf2 _. pose proof (sound_read w1 f2 Hf2 Hw1) as Hw2. pose proof (quiet_read w1 f2 Hf2 Hq1) as Hq2.
  destruct r as [v|e]; [|by apply wp_throw].
  destruct (_ || _); [by apply wp_throw|]. apply wp_bind, wp_running; [by apply so_fixed|].
  intros x f3 Hf3 _. pose proof (quiet_read _ f3 Hf3 Hq2) as Hq3. destruct x as [x|]; [destruct (release_lt _ x)|];
    try (by apply wp_throw); by apply wp_modify.
Qed.

(** A sequence of blocks, each written whatever became of those before. *)
Definition write_all (writes : list (Z * list Z)) (w : SlotWriter F) : SlotWriter F :=
  foldl (λ w x, (write_block x.1 x.2 w).2) w writes.

(** The device reported no failure to any of the calls. *)
Fixpoint device_completed (writes : list (Z * list Z)) (w : SlotWriter F) : Prop :=
  match writes with
  | [] => True
  | x :: writes =>
      ¬ device_failure (write_block x.1 x.2 w).1 ∧ device_completed writes (write_block x.1 x.2 w).2
  end.

Lemma write_all_spec writes w :
  sound w → aligned w → Forall (λ x, Forall is_u8 x.2) writes →
  sound (write_all writes w) ∧ aligned (write_all writes w) ∧ sw_written w <= sw_written (write_all writes w) ∧
  (sw_written (write_all writes w) <= slot_size - 16 → quiet w → quiet (write_all writes w)) ∧
  (device_completed writes w → ∀ data, Forall is_u8 data → staged data w →
   ∃ data', Forall is_u8 data' ∧ staged data' (write_all writes w)).
Proof using BF RL HL Hlen Hws Hw16.
  intros Hw Hal Hu. revert w Hw Hal. induction Hu as [|[o d] writes Hd _ IH]; intros w Hw Hal.
  { split_and!; [done|done|done|done|]. intros _ data Hdu Hst. by exists data. }
  simpl in Hd. cbn [device_completed fst snd].
  change (write_all ((o, d) :: writes) w) with (write_all writes (write_block o d w).2).
  assert (wp (write_block o d) (λ r w', sound w' ∧ aligned w' ∧ sw_written w <= sw_written w' ∧
    (sw_written w' <= slot_size - 16 → quiet w → quiet w') ∧
    (¬ device_failure r → ∀ data, staged data w → staged (data ++ d) w' ∨ w' = w)) w) as Hb.
  { apply wp_write_block; [done|done|done|]. intros r w' Hw' Hal' _ Hwr Hq Hok Hno _. split_and!; try done.
    intros Hnd data Hst. destruct r as [[]|e|]; [left; by apply Hok|right; by destruct Hno|right; by destruct Hno]. }
  unfold wp in Hb. destruct (write_block o d w) as [r w1]. cbn [fst snd] in *. destruct Hb as (Hw1 & Hal1 & Hwr1 & Hq1 & Hst1).
  destruct (IH w1 Hw1 Hal1) as (Hw2 & Hal2 & Hwr2 & Hq2 & Hst2). split_and!; [done|done|lia| |].
  - intros Hle Hq. apply Hq2; [done|]. apply Hq1; [lia|done].
  - intros [Hnd Hc] data Hdu Hst. destruct (Hst1 Hnd data Hst) as [Hs| ->].
    + apply (Hst2 Hc (data ++ d)); [by apply Forall_app|done].
    + by apply (Hst2 Hc data).
Qed.
End Staging.

(** * The update of a device *)

Section Device.
Context {F : Type} {HF : NorFlash F} (bytes : F → list Z) {BF : BootFlash F bytes}.
Context {HS : Sha256} {LS : LawfulSha} {HK : SignatureScheme} {LK : LawfulScheme}.

Lemma acceptable_unique L pol hdr data v v' :
  Forall is_u8 data → acceptable L pol hdr data v → acceptable L pol hdr data v' → v = v'.
Proof.
  intros Hu (Hv & He & _) (Hv' & _). apply (signed_unique (sp_key pol) data (ly_slot_size L - ly_sector_size L)); [|done|done].
  split; [rewrite length_take; lia|by apply Forall_take].
Qed.

(** A writer as [writer_new] makes it, for slots on the grid of the device. *)
Record writer_ready (w : SlotWriter F) : Prop := {
  wr_layout : layout_ok (Z.of_nat (length (bytes (sw_flash w)))) (sw_layout w);
  wr_key : octets 64 (tk_xy (sp_key (sw_policy w)));
  wr_grid : (Z.of_nat WRITE_SIZE | 16) ∧ (Z.of_nat WRITE_SIZE | ly_secondary (sw_layout w));
  wr_stage : length (sw_stage w) = 64%nat ∧ Forall is_u8 (sw_stage w) }.

(** The octets where the primary slot has its header. *)
Definition primary_header (w : SlotWriter F) : list Z := take 32 (drop (Z.to_nat (ly_primary (sw_layout w))) (bytes (sw_flash w))).

Lemma ready_fixed w :
  writer_ready w → ready bytes (Z.of_nat (length (bytes (sw_flash w)))) (sw_layout w) (sw_policy w) (primary_header w) w.
Proof. by intros []. Qed.

(** C14. Once [erase_slot] has succeeded, no request is in the slot, whatever is
    written in whatever blocks and whatever the verification finds: only
    [activate] writes it.  This holds whatever operation fails or is cut off as
    long as fewer octets were handed over than reach the place of the request,
    the last 16 octets of the slot, which is beyond every image; past that, as
    long as the device reported no failure. *)
Theorem request_withheld w w1 writes :
  writer_ready w → erase_slot w = (Ok (), w1) → Forall (λ x, Forall is_u8 x.2) writes →
  let w2 := write_all writes w1 in
  let below := sw_written w2 <= ly_slot_size (sw_layout w) - 16 in
  (below ∨ device_completed writes w1 → ¬ requested (sw_layout w) (bytes (sw_flash w2))) ∧
  ∀ n h, below ∨ device_completed writes w1 ∧ ¬ device_failure (verify n h w2).1 →
    ¬ requested (sw_layout w) (bytes (sw_flash (verify n h w2).2)).
Proof using BF LS LK.
  intros Hr He Hu w2 below. pose proof (any_reliable bytes). pose proof (ready_fixed w Hr) as Hf. destruct Hr as [HL Hk [Hg1 Hg2] _].
  set (len := Z.of_nat (length (bytes (sw_flash w)))) in *. set (L := sw_layout w) in *. set (pol := sw_policy w) in *.
  set (hdr := primary_header w) in *. assert (Hlen : len < 4294967296) by apply bf_size.
  assert (H1 : aligned w1 ∧ staged bytes len L pol hdr [] w1).
  { pose proof (wp_erase_slot bytes True len L HL Hlen pol hdr
      (λ r w', r = Ok () → aligned w' ∧ staged bytes len L pol hdr [] w') w Hf) as Hw.
    unfold wp in Hw. rewrite He in Hw. apply Hw; [|done]. intros r w' _ [(-> & _ & Ha & _ & Hst) | [-> _]]; done. }
  destruct H1 as [Ha1 Hst1]. pose proof (st_sound _ _ _ _ _ _ _ Hst1) as Hs1. pose proof (staged_quiet _ _ _ HL _ _ _ _ Hst1) as Hq1.
  destruct (write_all_spec bytes True len L HL Hlen pol Hg1 Hg2 hdr writes w1 Hs1 Ha1 Hu) as (Hs2 & Ha2 & _ & Hq2 & Hst2).
  fold w2 in Hs2, Ha2, Hq2, Hst2. pose proof (λ w, quiet_not_requested bytes len L HL w) as Hnot. split.
  - intros [Hb|Hc]; apply Hnot; [by apply Hq2|]. destruct (Hst2 Hc [] ltac:(constructor) Hst1) as (data & _ & Hst).
    exact (staged_quiet _ _ _ HL _ _ _ _ Hst).
  - intros n h [Hb|[Hc Hd]]; apply Hnot.
    + exact (wp_verify_quiet bytes True len L HL Hlen pol Hk Hg1 Hg2 hdr n h w2 Hs2 Ha2 Hb (Hq2 Hb Hq1)).
    + destruct (Hst2 Hc [] ltac:(constructor) Hst1) as (data & Hdu & Hst).
      pose proof (wp_verify bytes True len L HL Hlen pol Hk Hg1 Hg2 hdr n h data
        (λ r w', ¬ device_failure r → quiet bytes L w') w2 Hst Ha2 Hdu) as Hv. unfold wp in Hv. apply Hv; [|done].
      intros r w' _ _ [Hq|[? _]] _ _ ?; done.
Qed.

(** C11. On a device that completes its operations, a download requests the image
    exactly if it is acceptable.  Then the next boot starts it: the loader
    copies it into the primary slot, octet for octet, and starts it at the
    vector table that the policy asks for.  Otherwise the download fails and
    there is no request. *)
Theorem download_boots {RL : Reliable F bytes False} w blocks log :
  writer_ready w → Forall (Forall is_u8) blocks → Z.of_nat (length (concat blocks)) <= ly_slot_size (sw_layout w) →
  let L := sw_layout w in let pol := sw_policy w in
  (∀ v, acceptable L pol (primary_header w) (concat blocks) v →
     ∃ w' f' log', download blocks w = (Ok (), w') ∧
       boot L (sp_key pol) (sw_flash w', log) = (Ok (mk_Bootable v (ly_primary L + sp_header_size pol) Installed), (f', log')) ∧
       take (Z.to_nat (vi_end v)) (drop (Z.to_nat (ly_primary L)) (bytes f')) = take (Z.to_nat (vi_end v)) (concat blocks)) ∧
  ((∀ v, ¬ acceptable L pol (primary_header w) (concat blocks) v) →
     ∃ e w', download blocks w = (Err e, w') ∧ ¬ requested L (bytes (sw_flash w'))).
Proof using BF LS LK.
  intros Hr Hu Hfit L pol. pose proof (ready_fixed w Hr) as Hf. destruct Hr as [HL Hk [Hg1 Hg2] _].
  set (len := Z.of_nat (length (bytes (sw_flash w)))) in *. set (hdr := primary_header w) in *.
  assert (Hlen : len < 4294967296) by apply bf_size. set (data := concat blocks) in *.
  pose proof (wp_download bytes False len L HL Hlen pol Hk Hg1 Hg2 hdr blocks (λ r w',
    (∃ v, r = Ok () ∧ requested L (bytes (sw_flash w')) ∧ holds_image L pol data v (bytes (sw_flash w')) ∧
       fixed bytes len L pol hdr w' ∧ acceptable L pol hdr data v) ∨
    (∃ e, r = Err e ∧ (∀ v, ¬ acceptable L pol hdr data v) ∧ quiet bytes L w')) w Hf Hu Hfit) as Hd.
  unfold wp in Hd. destruct (download blocks w) as [r w'] eqn:Hrun. cbn [fst snd] in Hd. destruct Hd as [Hd|Hd].
  { intros r' w'' Hp Hok Hno. destruct r' as [[]|e|]; [left|right|done].
    - destruct Hok as (v & H1 & H2 & H3 & [H4|[]]); [done|]. by exists v.
    - destruct Hno as [[]|[H1 H2]]; [done|]. by exists e. }
  - destruct Hd as (v0 & -> & Hreq & (Hv0 & Heq & _) & Hfix & Hacc0). split; [|intros Hno; by destruct (Hno v0)].
    intros v Hv. assert (v = v0) as -> by (by apply (acceptable_unique L pol hdr data); [apply Forall_concat|..]).
    destruct Hfix as (_ & _ & Hsize & Hh).
    assert (Ha : accepted L (sp_key pol) (bytes (sw_flash w')) v0).
    { split; [done|]. split; [done|]. intros (h & Hp & Hlt). rewrite Hh in Hp. destruct Hacc0 as (_ & _ & _ & Hn).
      rewrite Hn in Hlt; [done|]. unfold primary_version. by rewrite Hp. }
    destruct (boot_installs bytes L (sp_key pol) Hk (sw_flash w') log ltac:(by rewrite Hsize) v0 Ha) as (f' & log' & Hb & Hcopy & _).
    exists w', f', log'. split; [done|]. destruct Hacc0 as (_ & _ & <- & _). split; [done|]. congruence.
  - destruct Hd as (e & -> & Hno & Hs). split; [intros v Hv; by destruct (Hno v)|]. intros _. exists e, w'. split; [done|].
    by apply (quiet_not_requested bytes len L HL).
Qed.
End Device.

(** * An update of the chip *)

(** The writer of a chip that runs release 1. *)
Definition chip_writer : SlotWriter Chip :=
  mk_SlotWriter (mk_Chip (twin_slot (twin_image 1) false)) chip_slots (mk_SlotPolicy twin_key 32) 0 0 (replicate 64 0xFF) 0 false false.

Lemma chip_writer_ready : writer_ready chip_bytes chip_writer.
Proof.
  constructor; [apply chip_slots_ok|apply twin_key_octets|split; [by exists 4|by exists 128]|].
  split; [reflexivity|]. apply Forall_replicate. unfold is_u8. lia.
Qed.

Lemma twin_image_octets : Forall (Forall is_u8) [take 50 (twin_image 2); drop 50 (twin_image 2)].
Proof.
  assert (H : forallb (λ b, (0 <=? b) && (b <? 256)) (twin_image 2) = true) by (vm_compute; reflexivity).
  assert (Ho : Forall is_u8 (twin_image 2)).
  { apply Forall_forall. intros b Hb. rewrite forallb_forall in H. specialize (H b). apply list_elem_of_In in Hb. apply H in Hb.
    unfold is_u8. lia. }
  constructor; [by apply Forall_take|]. constructor; [by apply Forall_drop|constructor].
Qed.

Lemma request_withheld_witness :
  ∃ w1, erase_slot chip_writer = (Ok (), w1) ∧
    ¬ requested chip_slots (chip_bytes (sw_flash (write_all [(0, take 50 (twin_image 2))] w1))).
Proof.
  destruct (erase_slot chip_writer) as [r w1] eqn:He.
  assert (Hr : r = Ok ()) by (transitivity (erase_slot chip_writer).1; [by rewrite He|vm_compute; reflexivity]).
  exists w1. split; [by rewrite Hr|]. rewrite Hr in He.
  assert (Hu : Forall (λ x : Z * list Z, Forall is_u8 x.2) [(0, take 50 (twin_image 2))])
    by (constructor; [exact (Forall_inv twin_image_octets)|constructor]).
  assert (Hb : sw_written (write_all [(0, take 50 (twin_image 2))] w1) <= 496).
  { replace w1 with (erase_slot chip_writer).2 by (by rewrite He). vm_compute. discriminate. }
  exact (proj1 (request_withheld chip_bytes (HK:=twin_scheme) chip_writer w1 [(0, take 50 (twin_image 2))] chip_writer_ready He Hu)
    (or_introl Hb)).
Defined.

Lemma twin_image_signed : signed_image (HK:=twin_scheme) twin_key (twin_image 2) 256 release_2.
Proof.
  apply (signed_prefix twin_key (drop 512 (chip_bytes upgrade_chip))).
  - apply (slot_octets chip_bytes upgrade_chip 512 256); [lia|lia|]. rewrite chip_length. unfold CHIP_SIZE. lia.
  - vm_compute. reflexivity.
  - apply (chip_signed _ 512); [lia|vm_compute; reflexivity].
Qed.

Lemma twin_image_acceptable :
  acceptable (HK:=twin_scheme) chip_slots (mk_SlotPolicy twin_key 32) (primary_header chip_bytes chip_writer) (twin_image 2) release_2.
Proof.
  split; [exact twin_image_signed|]. split; [vm_compute; split; discriminate|]. split; [reflexivity|].
  intros x Hx. revert x Hx. vm_compute. by intros x [= <-].
Qed.

Lemma download_boots_witness :
  ∃ w' f' log', download (HW:=SlotWriter_writer (HK:=twin_scheme)) [take 50 (twin_image 2); drop 50 (twin_image 2)] chip_writer = (Ok (), w') ∧
    boot (HK:=twin_scheme) chip_slots twin_key (sw_flash w', []) = (Ok (mk_Bootable release_2 32 Installed), (f', log')) ∧
    take 124 (chip_bytes f') = take 124 (twin_image 2).
Proof.
  assert (Hfit : Z.of_nat (length (concat [take 50 (twin_image 2); drop 50 (twin_image 2)])) <= 512) by (vm_compute; discriminate).
  assert (Hcat : concat [take 50 (twin_image 2); drop 50 (twin_image 2)] = twin_image 2) by (vm_compute; reflexivity).
  pose proof (download_boots chip_bytes (HK:=twin_scheme) chip_writer [take 50 (twin_image 2); drop 50 (twin_image 2)] []
    chip_writer_ready twin_image_octets Hfit) as [Hd _]. cbv zeta in Hd.
  rewrite Hcat in Hd. destruct (Hd release_2 twin_image_acceptable) as (w' & f' & log' & H1 & H2 & H3).
  exists w', f', log'. split; [exact H1|]. split; [exact H2|]. exact H3.
Defined.
